(* ===== verification/_CoqProject ===== *)
-Q . S2P
Prelude.v
MsgDefs.v
MsgPool.v
MsgBuffer.v
MsgQueue.v
MsgTaskTab.v
MsgSubTab.v
MsgRspMng.v
MsgSystem.v
PeTimer.v
XMem.v
Hashmap.v
HiMsgQueue.v
Array.v
Utf.v
RecordStream.v
HiTime.v
AbsTimer.v
LogFilter.v
LogEvent.v
LogPrint.v
EventTagMap.v
Config.v
ModTab.v
MemMng.v
Parcel.v
ParcelObjects.v
RefBase.v
SharedBuffer.v
VectorImpl.v
VectorSpec.v
SortedVector.v
Unicode.v
ThreadMng.v
StringMem.v
StringOps.v
String8.v
String16.v
UDiskScan.v
UDisk.v
