(* ===== verification/Prelude.v ===== *)
(** * The middleware, timers, containers, log and binder data of the base library

    The repository is the base layer of a set-top box: [src/base/common] is
    the vendor's message middleware, its timers, clock and allocators,
    [src/base/cutils] the C utilities of the Android platform, [src/base/log]
    its log, [src/base/utils] and [src/base/ipc/binder] its C++ foundation.
    This library models the parts of them that carry state or transform data,
    as executable functions, and proves what makes them correct.

    ** The program's parts

    A process that uses the middleware shares one block with a table of tasks
    and a table of subscriptions.  A task has a queue of messages in buffers of
    fixed sizes.  A client registers a task, sends messages to a task
    (asynchronously, or synchronously with a response slot on which the sender
    polls), subscribes a task to message types, publishes a message, and
    receives.  A thread of its own distributes published messages.

    - [MsgDefs.v]: constants, message blocks and [MSG_COPY2BUF]
      ([msg_interface.h], [msg_misc.h]).
    - [MsgPool.v]: the class [MsgPool], what a queue asks of its buffers.
    - [MsgBuffer.v], module [MB]: the buffers, four lists of blocks of one
      size each ([msg_buffer.c]); an instance of [MsgPool].
    - [MsgQueue.v], module [MQ]: a task's queue ([msg_queue.c]), proved against
      the class.
    - [MsgTaskTab.v], module [TT]: the shared block and the task table
      ([msg_misc.c], [msg_taskmng.c]).
    - [MsgSubTab.v], module [ST]: the subscription table ([msg_submng.c]).
    - [MsgRspMng.v], module [RM]: the response slots ([msg_rspmng.c]).
    - [MsgSystem.v], module [SY]: the clients' calls, the construction of
      messages and the publish thread ([msg_task.c], [msg_com.c],
      [msg_proc.c]), composed of the modules above.
    - [PeTimer.v], module [PT]: the relative timers, two wheels of lists of
      timers served by a hook and a tasklet ([pereltm.c], [petimer.c],
      [tsklet.c]).
    - [XMem.v], module [XM]: the buffer allocator ([xmem.c]).
    - [Hashmap.v], module [HM]: the hash map ([hashmap.c]).
    - [HiMsgQueue.v], module [HQ]: the queue of two lists and two semaphores
      ([hi_msg_queue.c]).
    - [HiTime.v], module [TM]: dates, Julian days, binary-coded times and the
      user's clock ([hi_time.c]).
    - [AbsTimer.v], module [AT]: timers at a pattern of dates ([peabstm.c]),
      over the clock of [HiTime.v] and the hooks and tasklets of [PeTimer.v].
    - [ModTab.v], module [MD]: names of modules ([hi_ref_mod.c]).
    - [MemMng.v], module [MM]: memory by modules ([hi_adp_memmng.c]), over the
      names of [ModTab.v].
    - [Array.v], module [AR]: the pointer array ([array.c]).
    - [Utf.v], module [UT]: UTF-8 and UTF-16 ([strdup8to16.c],
      [strdup16to8.c]).
    - [RecordStream.v], module [RS]: framed records ([record_stream.c]).
    - [Config.v], module [CF]: configuration trees ([config_utils.c]).
    - [LogFilter.v], module [LF], [LogEvent.v], module [LE], and [LogPrint.v],
      module [LP]: the rules of logcat, entries of the log and binary events,
      and the lines printed ([logprint.c]).
    - [EventTagMap.v], module [ET]: names of event tags ([event_tag_map.c]).
    - [Parcel.v], module [PA]: the data of a parcel, and [ParcelObjects.v],
      module [PO], over it: references to binders, descriptors, blobs and the
      memory of the driver, with what a parcel takes from the process and gives
      back ([Parcel.cpp], [native_handle.c]).
    - [RefBase.v], module [RB]: strong and weak reference counts
      ([RefBase.cpp]).
    - [SharedBuffer.v], module [SB]: counted blocks and the items in them
      ([SharedBuffer.cpp], [TypeHelpers.h]); over them [VectorImpl.v], module
      [VI], and [VectorSpec.v], module [VS]: vectors that share blocks, and that
      they are values ([VectorImpl.cpp], [Vector.h]); [SortedVector.v], module
      [SV]: sorting and sorted vectors.
    - [Unicode.v], module [UC]: the conversions of [Unicode.cpp];
      [StringMem.v], module [SM], and [StringOps.v], module [SO]: what strings
      share; [String8.v], module [S8], and [String16.v], module [S16]: the two
      kinds of strings ([String8.cpp], [String16.cpp]).
    - [ThreadMng.v], module [TH]: the accounting of threads
      ([hi_adp_threadmng.c]).
    - [UDiskScan.v], module [US]: lists of files, and [UDisk.v], module [UK]:
      the table of disks, its check and its events ([hi_udisk.c]).

    ** How code becomes definitions

    A function of the source is a definition of its name.  It takes the state
    it works on and returns its result and the new state.  Code that can end
    the process or touch memory that is not there returns an [outcome]; a
    theorem that a call is safe says that it is [Returned].  An [assert] or
    [ALOG_ASSERT] that fails ends the process, since nothing builds the library
    with [NDEBUG].  Addresses and
    machine integers are [Z], wrapped where the source can leave the range, for
    the 32-bit target.  Linked lists are lists where nothing else points into
    them; where links matter ([HiMsgQueue.v]) they are a map of addresses.
    Memory that the code looks at by address is a [gmap].  The answer of an
    allocation, a clock reading or a poll is an argument, so a theorem holds
    for every answer.  A mutex makes a critical section one step; code that
    splits its work over two critical sections is split into two definitions.

    ** What the theorems show

    - Buffers: initialisation builds lists that a block belongs to exactly
      once; allocation takes a free block of the smallest size that fits and
      marks it; freeing undoes it.  The size check of the parameters wraps.
    - Queue: it refines a list of messages and the set of buffers handed out,
      for every operation; put and get are first in first out; the drop of
      the first message by a merging get and the capacity are stated as they
      are.
    - Tables: adding and deleting tasks and subscriptions change exactly the
      entry meant; listings are complete; searches by name invert those by id;
      two subscriptions at the same time can split a type.
    - Client calls: registering keeps names unique; unregistering leaves
      nothing of the task and everything of the others; an asynchronous send appends exactly one message,
      with its fields, or changes no queue; a receive takes the oldest; a
      synchronous send stops waiting by its timeout and frees its slot; a
      published message reaches only the first subscriber.
    - Timers: a tick of the wheels refines counting down a finite map of
      timers, whatever the allocations of the restarts answer; a started timer
      fires at its tick, a periodic one again while its restarts are given
      memory, a stopped one never; a timer
      of a whole number of turns of the wheel loses a turn; the period of the
      hooks.
    - Allocator: the nodes tile the buffer in every reachable state, areas
      handed out are inside it and disjoint, freeing takes back exactly one;
      fragments that touch are not always joined ([x_free_fragments]).
    - Hash map: any sequence of operations on a created map, with any failing
      allocations, answers like a finite map keyed by what the keys point to;
      the load stays within three quarters; creation ends; the iteration
      visits each entry once.
    - Two-list queue: under every interleaving at semaphores and critical
      sections no thread faults, no message is lost or doubled, lists are
      first in first out; the timed wait ends.
    - Clock: dates and seconds, and Julian days and dates, are inverse to each
      other; the user's clock runs with the system's.  An absolute timer fires
      exactly at the seconds its pattern matches, once each.
    - Names and accounts: the table of modules is a partial map with the limits
      of the code; any sequence of allocations and frees answers like a map,
      and the totals are the sums of its entries.
    - Pointer array, UTF, records: the array refines a list, with what growing
      one that is not empty does instead, and a failing
      allocation changes nothing; UTF-16 survives the way to UTF-8 and back,
      with the computed lengths; records come out of a stream as they went in,
      however the reads cut it.
    - Configuration: a printed tree loads to itself; loading any text ends and
      stays in its memory; the words of a text are not disturbed later.
    - Log: a rule prints what its priority says; the printed line is the text
      of its parts and fits the buffer; a binary event is parsed inside its
      data, and a formatted one reads as the values; the tag file is parsed to
      its entries and the search finds them.
    - Parcel: values written are read back; a write inside the data is safe; an
      object is found from any hint; what goes wrong at positions and sizes
      near 2^32 is stated.
    - Reference counts: under every interleaving of the threads' accesses no
      call touches a destroyed object or freed counters or fails an assertion,
      the counters count the references, and a thread alone finishes its call; the race of the first
      strong reference with a promotion is stated as it is.
    - Parcel objects: after any writes, whatever fails among them, the
      references taken are those of the objects in the parcel, and its end gives
      all of them back and closes its descriptors; a binder is read back from
      its place; a part of another parcel is appended with its bytes, with
      references of its own and with duplicates of its descriptors; the region of a blob has an owner.  What is closed
      twice, read after it was freed, written behind its block or left open is
      stated as it is.
    - Vectors and strings: whatever vectors, or strings, share blocks, each
      operation changes the value of its own one and no other, every block
      belongs to those it counts and every item is constructed and destroyed
      once; an index out of range ends the process where the code asserts it;
      sorted vectors stay sorted and find what is there.  UTF-16 survives
      the way to UTF-8 and back, and what is written has the computed length,
      which is refused exactly when the last character is cut.
    - Threads: when threads keep the order the code asks for, no record is
      touched after it was freed, and none is lost; the races are stated.
    - Disks: a list of files has the entries asked for in the order of the scan,
      and is given back; replaying the events of the disks gives the table,
      whatever the system answers, and a check brings it to the disks that are
      there, where the next one leaves it.

    Interfaces: [MsgPool] stands between queue and buffers; [KeyOps] and
    [KeyLaws] are what a hash map needs of its keys, with the instance for
    pointers to [int]; [QsortSpec] is what the tag map needs of [qsort],
    with insertion sort as an instance; [Order] is what sorting and sorted
    vectors need of a comparison.

    A [realloc] of a vector's or string's block moves it; a cell of a trivial
    type keeps its old bytes; each kind of string has a memory of its own; the
    signedness of characters is an argument of [Unicode.v].  The files of
    [UDiskScan.v] do not change during a call.  In [UDisk.v] and
    [ParcelObjects.v] the answers of the system are functions of the trace of what
    was done, so that a theorem holds for every system; there calls run alone,
    the proxies of handles are fixed, and the memory of the driver is only
    read.

    ** Bounds and fuel

    Sizes and counters have the width of the source; a theorem that needs a
    counter not to wrap says so.  The turns a list of the timers' wheel
    adds up to stay below [TURNS_MAX], 2^20: a 32-bit number of milliseconds is
    fewer.  Polling waits run over the list of polls they are given, and the theorem
    says how long a list is enough.  [grow] has 32 turns, enough for any 32-bit
    capacity; [semaphore_wait_timeout] needs one turn per ten milliseconds and
    two more.  The doubling of the array's capacity has 32 turns, the calendar of the C library
    137 years from 1970, a number 20 digits.  Loops over a text take fuel from
    its length: the copies of the configuration's lexer the length of the text,
    [config_load] four times the length and eight, the rules, lines and tag
    file one turn per character and one more, a binary event one per byte of
    data; [load_loop_ends] and its like show that this is enough.  A scan of directories goes
    at most 513 deep, as its paths are below 512 characters.  A thread of
    [RefBase.v] takes at most eight steps alone; its theorems hold while fewer
    than 2^28 strong references are counted, as the code requires.  All other
    recursion is on the data.

    ** What is not modelled

    Logging, printing and version strings; mutexes and threads as such; the
    adapters of the operating system; the destruction of the shared block, of
    the two-list queue, of configuration trees and of streams.  The memory of
    [RefBase.v] is sequentially consistent.  Sockets, properties, scheduling
    policies and SCSI commands are input and output with the kernel.  Three
    message queues are excluded by [#if 0].  The time-zone code is that of
    the tz database.  The commands of the binder's threads
    ([IPCThreadState.cpp], of which only the release of a buffer is
    modelled), the table of proxies, the threads of the C++ library and
    the queue of logcat have logic of their own and are left.

    This file holds the notations, the machine integers, the tactics and the
    lemmas on lists the other files share. *)

From Stdlib Require Export ZArith Lia.
From stdpp Require Export base gmap list strings.

#[global] Open Scope Z_scope.

(** ** Outcomes of C code

    A call either returns a value, ends the process (the [ASSERT] macro of
    [msg_log.h] logs and calls [exit(1)]; [assert] of the C library aborts),
    or has undefined behaviour (a read through a dangling pointer, a write out
    of an allocation).  Code whose calls can only return is modelled by plain
    functions; this type is for the rest. *)
Inductive outcome (A : Type) : Type :=
  | Returned (a : A)
  | Exited
  | Undefined.
Arguments Returned {A} a.
Arguments Exited {A}.
Arguments Undefined {A}.

Definition obind {A B} (c : outcome A) (k : A → outcome B) : outcome B :=
  match c with
  | Returned a => k a
  | Exited => Exited
  | Undefined => Undefined
  end.

Definition oassert {A} (b : bool) (k : outcome A) : outcome A :=
  if b then k else Exited.

Lemma oassert_true {A} (b : bool) (k : outcome A) : b = true → oassert b k = k.
Proof. by intros ->. Qed.
Lemma oassert_false {A} (b : bool) (k : outcome A) : b = false → oassert b k = Exited.
Proof. by intros ->. Qed.

(** Reading memory: no value stored there is undefined behaviour. *)
Definition oderef {A} (o : option A) : outcome A :=
  match o with Some a => Returned a | None => Undefined end.

Declare Scope c_scope.
Delimit Scope c_scope with c.
Notation "'let!' x := c 'in' k" := (obind c (fun x => k))
  (at level 10, x pattern, c at level 100, k at level 200) : c_scope.
#[global] Open Scope c_scope.

Lemma obind_returned {A B} (c : outcome A) (k : A → outcome B) b :
  obind c k = Returned b ↔ ∃ a, c = Returned a ∧ k a = Returned b.
Proof.
  destruct c; simpl; split; try (by intros (? & ? & ?)); try done; eauto.
  intros (? & [=->] & ?); done.
Qed.

(** ** Machine integers

    The target is a 32-bit ARM: [int], [size_t] and pointers have 32 bits.
    A machine integer is a [Z]; an operation that can leave the range is
    followed by the wrap of its type. *)
Definition u32 (x : Z) : Z := x mod 2 ^ 32.
Definition s32 (x : Z) : Z := (x + 2 ^ 31) mod 2 ^ 32 - 2 ^ 31.
Definition u16 (x : Z) : Z := x mod 2 ^ 16.
Definition u8 (x : Z) : Z := x mod 2 ^ 8.

Lemma u32_small x : 0 ≤ x < 2 ^ 32 → u32 x = x.
Proof. apply Z.mod_small. Qed.

Lemma u32_range x : 0 ≤ u32 x < 2 ^ 32.
Proof. apply Z.mod_pos_bound. lia. Qed.

Lemma u32_idemp x : u32 (u32 x) = u32 x.
Proof. apply u32_small, u32_range. Qed.

Lemma u32_add_l x y : u32 (u32 x + y) = u32 (x + y).
Proof. apply Zplus_mod_idemp_l. Qed.

Lemma u32_sub_l x y : u32 (u32 x - y) = u32 (x - y).
Proof. apply Zminus_mod_idemp_l. Qed.

Lemma s32_small x : -2 ^ 31 ≤ x < 2 ^ 31 → s32 x = x.
Proof. intros. unfold s32. rewrite Z.mod_small; lia. Qed.

Lemma s32_range x : -2 ^ 31 ≤ s32 x < 2 ^ 31.
Proof. unfold s32. pose proof (Z.mod_pos_bound (x + 2 ^ 31) (2 ^ 32)). lia. Qed.

Lemma s32_eq_mod x : ∃ k, s32 x = x - 2 ^ 32 * k.
Proof.
  unfold s32. exists ((x + 2 ^ 31) / 2 ^ 32).
  pose proof (Z.div_mod (x + 2 ^ 31) (2 ^ 32)). lia.
Qed.

Lemma s32_add_mul x k : s32 (x + 2 ^ 32 * k) = s32 x.
Proof.
  unfold s32. replace (x + 2 ^ 32 * k + 2 ^ 31) with (x + 2 ^ 31 + k * 2 ^ 32) by lia.
  by rewrite Z.mod_add by lia.
Qed.

Lemma s32_add_l x y : s32 (s32 x + y) = s32 (x + y).
Proof.
  destruct (s32_eq_mod x) as [k ->]. rewrite <- (s32_add_mul (x + y) (- k)). f_equal. lia.
Qed.

(** Clearing the low bits with a mask of the others. *)
Lemma land_clear_low k v :
  0 ≤ k ≤ 32 → 0 ≤ v < 2 ^ 32 → Z.land v (Z.shiftl (Z.ones (32 - k)) k) = 2 ^ k * (v / 2 ^ k).
Proof.
  intros Hk Hv. assert (0 < 2 ^ k) by (apply Z.pow_pos_nonneg; lia).
  replace (2 ^ k * (v / 2 ^ k)) with (Z.shiftl (Z.land (Z.shiftr v k) (Z.ones (32 - k))) k).
  - rewrite Z.shiftl_land. apply Z.bits_inj'. intros j Hj. rewrite !Z.land_spec.
    destruct (decide (j < k)).
    + rewrite (Z.shiftl_spec_low (Z.ones (32 - k))) by lia. by rewrite !andb_false_r.
    + rewrite (Z.shiftl_spec_high (Z.shiftr v k)), Z.shiftr_spec by lia. by replace (j - k + k) with j by lia.
  - rewrite Z.land_ones, Z.shiftr_div_pow2, Z.shiftl_mul_pow2 by lia. rewrite Z.mod_small; [lia|].
    split; [apply Z.div_pos; lia|]. apply Z.div_lt_upper_bound; [lia|].
    rewrite <-Z.pow_add_r by lia. replace (k + (32 - k)) with 32 by lia. lia.
Qed.

(** Putting bits below the others. *)
Lemma lor_low k r c : 0 ≤ k → 0 ≤ c < 2 ^ k → Z.lor (Z.shiftl r k) c = r * 2 ^ k + c.
Proof.
  intros Hk Hc. assert (Z.land (Z.shiftl r k) c = 0) as H0.
  { apply Z.bits_inj'. intros j Hj. rewrite Z.land_spec, Z.bits_0. destruct (decide (j < k)).
    - by rewrite Z.shiftl_spec_low.
    - rewrite <-(Z.mod_small c (2 ^ k)), Z.mod_pow2_bits_high by lia. apply andb_false_r. }
  rewrite <-Z.lxor_lor, <-Z.add_nocarry_lxor by done. by rewrite Z.shiftl_mul_pow2 by lia.
Qed.

(** A test of all numbers below a bound. *)
Lemma forall_below (n : nat) (P : Z → bool) b :
  forallb P (Z.of_nat <$> seq 0 n) = true → 0 ≤ b < Z.of_nat n → P b = true.
Proof.
  rewrite forallb_forall. intros H Hb. apply H. rewrite <-list_elem_of_In. apply list_elem_of_fmap.
  exists (Z.to_nat b). split; [lia|]. apply elem_of_seq. lia.
Qed.

(** The characters of a C string, without its end. *)
Definition bytes (s : string) : list Z := (λ a, Z.of_N (Ascii.N_of_ascii a)) <$> String.list_ascii_of_string s.

Abbreviation cstring := (list Z).

(** The number of a character, written as a string of one. *)
Definition chr (s : string) : Z := default 0 (head (bytes s)).

(** The characters up to the end of a string in memory. *)
Fixpoint until_nul (m : list Z) : list Z :=
  match m with [] => [] | c :: m' => if c =? 0 then [] else c :: until_nul m' end.

Definition no_nul (l : list Z) : Prop := Forall (λ c, c ≠ 0) l.

Lemma until_nul_app l k : no_nul l → until_nul (l ++ 0 :: k) = l.
Proof. induction 1 as [|c l Hc Hl IH]; [done|]. cbn [app until_nul]. by rewrite (proj2 (Z.eqb_neq c 0)), IH. Qed.

Lemma until_nul_no l : no_nul l → until_nul l = l.
Proof. induction 1 as [|c l Hc Hl IH]; [done|]. cbn. by rewrite (proj2 (Z.eqb_neq c 0)), IH. Qed.

Lemma until_nul_cut l : 0 ∈ l → (length (until_nul l) < length l)%nat.
Proof.
  induction l as [|c l IH]; [by intros ?%not_elem_of_nil|]. cbn. destruct (Z.eqb_spec c 0); cbn; [lia|].
  intros [?|H]%elem_of_cons; [lia|]. specialize (IH H). lia.
Qed.

Lemma until_nul_le l : (length (until_nul l) ≤ length l)%nat.
Proof. induction l as [|c l IH]; [done|]. cbn [until_nul]. destruct (c =? 0); cbn [length]; lia. Qed.

(** The last place of a character: [strrchr]. *)
Fixpoint strrchr (s : list Z) (c : Z) : option nat :=
  match s with
  | [] => None
  | x :: s' => match strrchr s' c with Some k => Some (S k) | None => if x =? c then Some O else None end
  end.

Lemma strrchr_Some t c k : strrchr t c = Some k → t = take k t ++ c :: drop (S k) t ∧ (c ∉ drop (S k) t) ∧ (k < length t)%nat.
Proof.
  revert k. induction t as [|x t IH]; intros k; [done|]. cbn [strrchr]. destruct (strrchr t c) as [j|] eqn:E.
  - intros [= <-]. destruct (IH j eq_refl) as (Ht & Hn & Hl). cbn [firstn skipn app length]. split_and!; [by rewrite <-Ht|done|lia].
  - destruct (Z.eqb_spec x c) as [->|Hx]; [|done]. intros [= <-]. cbn [firstn skipn app length]. split_and!; [done| |lia]. clear IH.
    revert E. induction t as [|y t IH]; [set_solver|]. cbn [strrchr]. destruct (strrchr t c); [done|]. destruct (Z.eqb_spec y c); [done|]. intros _.
    intros [->|Hin]%elem_of_cons; [done|]. by apply IH.
Qed.

Lemma strrchr_None t c : strrchr t c = None → c ∉ t.
Proof.
  induction t as [|x t IH]; [set_solver|]. cbn [strrchr]. destruct (strrchr t c); [done|]. destruct (Z.eqb_spec x c); [done|]. intros _.
  intros [->|Hin]%elem_of_cons; [done|]. by apply IH.
Qed.

(** A loop over characters that goes on while they are of a kind: how many it
    passes.  Reading past the memory is undefined. *)
Fixpoint char_run (kind : Z → bool) (l : list Z) : outcome nat :=
  match l with
  | [] => Undefined
  | c :: l' => if kind c then let! n := char_run kind l' in Returned (S n) else Returned 0%nat
  end.

Lemma char_run_app kind l c k :
  Forall (λ c, kind c = true) l → kind c = false → char_run kind (l ++ c :: k) = Returned (length l).
Proof. intros Hl Hc. induction Hl as [|x l Hx Hl IH]; cbn [app char_run]; [by rewrite Hc|]. by rewrite Hx, IH. Qed.

(** Numbers in memory, the low byte first. *)
Fixpoint le (l : list Z) : Z := match l with [] => 0 | b :: l' => b + 2 ^ 8 * le l' end.
Fixpoint le_bytes (n : nat) (z : Z) : list Z :=
  match n with O => [] | S n => z mod 2 ^ 8 :: le_bytes n (z / 2 ^ 8) end.

Lemma le_bytes_length n : ∀ z, length (le_bytes n z) = n.
Proof. induction n as [|n IH]; intros z; cbn; [done|by rewrite IH]. Qed.

Lemma le_le_bytes n : ∀ z, le (le_bytes n z) = z mod 2 ^ (8 * Z.of_nat n).
Proof.
  induction n as [|n IH]; intros z; [by rewrite Z.mod_1_r|]. cbn [le_bytes le]. rewrite IH.
  replace (8 * Z.of_nat (S n)) with (8 + 8 * Z.of_nat n) by lia. rewrite Z.pow_add_r by lia.
  rewrite Z.rem_mul_r by lia. lia.
Qed.

Lemma drop_le_bytes n z k : drop n (le_bytes n z ++ k) = k.
Proof. by rewrite drop_app_ge, le_bytes_length, Nat.sub_diag by (by rewrite le_bytes_length). Qed.

(** Return codes shared by the modules ([hi_type.h]). *)
Definition HI_SUCCESS : Z := 0.
Definition HI_FAILURE : Z := -1.

(** ** Lists *)

(** Number of elements that satisfy a decidable predicate: the counters of
    the code ([used], [num], ...) are compared with it. *)
Definition countP {A} (P : A → bool) (l : list A) : Z := Z.of_nat (length (List.filter P l)).

Lemma countP_nil {A} (P : A → bool) : countP P [] = 0.
Proof. done. Qed.

Lemma countP_cons {A} (P : A → bool) x l : countP P (x :: l) = (if P x then 1 else 0) + countP P l.
Proof. unfold countP; simpl. destruct (P x); simpl; lia. Qed.

Lemma countP_app {A} (P : A → bool) l k : countP P (l ++ k) = countP P l + countP P k.
Proof. unfold countP. rewrite List.filter_app, length_app. lia. Qed.

Lemma countP_nonneg {A} (P : A → bool) l : 0 ≤ countP P l.
Proof. unfold countP; lia. Qed.

Lemma countP_le_length {A} (P : A → bool) l : countP P l ≤ Z.of_nat (length l).
Proof.
  induction l; simpl; [done|]. rewrite countP_cons. destruct (P a); lia.
Qed.

Lemma countP_ext {A B} (P : A → bool) (Q : B → bool) l k :
  Forall2 (λ x y, P x = Q y) l k → countP P l = countP Q k.
Proof. induction 1; [done|]. rewrite !countP_cons. destruct (P x), (Q y); lia || done. Qed.

Lemma countP_insert {A} (P : A → bool) (l : list A) i x y :
  l !! i = Some x →
  countP P (<[i := y]> l) = countP P l - (if P x then 1 else 0) + (if P y then 1 else 0).
Proof.
  revert i. induction l as [|z l IH]; intros [|i] Hi; simpl in *; try done.
  - simplify_eq. rewrite !countP_cons. lia.
  - rewrite !countP_cons, (IH i) by done. lia.
Qed.

Lemma countP_pos {A} (P : A → bool) (l : list A) i x :
  l !! i = Some x → P x = true → 0 < countP P l.
Proof.
  revert i. induction l as [|z l IH]; intros [|i] Hi HP; simpl in *; try done; rewrite countP_cons.
  - simplify_eq. rewrite HP. pose proof (countP_nonneg P l). lia.
  - specialize (IH _ Hi HP). destruct (P z); lia.
Qed.

Lemma countP_exists {A} (P : A → bool) (l : list A) : 0 < countP P l → ∃ i x, l !! i = Some x ∧ P x = true.
Proof.
  induction l as [|z l IH]; [done|]. rewrite countP_cons. destruct (P z) eqn:Hz; intros H.
  - by exists 0%nat, z.
  - destruct IH as (i & x & Hi & Hx); [lia|]. by exists (S i), x.
Qed.

Lemma countP_all {A} (P : A → bool) (l : list A) :
  (∀ i x, l !! i = Some x → P x = true) → countP P l = Z.of_nat (length l).
Proof.
  induction l as [|z l IH]; intros H; [done|].
  rewrite countP_cons, (H 0%nat z) by done. rewrite IH by (intros i; apply (H (S i))). simpl; lia.
Qed.

(** The sum of what the elements of a list contribute. *)
Definition sum_by {A} (f : A → Z) (l : list A) : Z := foldr (λ x n, f x + n) 0 l.

Lemma sum_by_cons {A} (f : A → Z) x (l : list A) : sum_by f (x :: l) = f x + sum_by f l.
Proof. done. Qed.

Lemma sum_by_insert {A} (f : A → Z) (l : list A) i x y : l !! i = Some x → sum_by f (<[i := y]> l) = sum_by f l - f x + f y.
Proof.
  revert i. induction l as [|z l IH]; intros [|i] Hi; [done|done| |].
  - injection Hi as ->. change (<[0%nat := y]> (x :: l)) with (y :: l). rewrite !sum_by_cons. lia.
  - change (<[S i := y]> (z :: l)) with (z :: <[i := y]> l). rewrite !sum_by_cons, (IH i Hi). lia.
Qed.

Lemma sum_by_le {A} (f g : A → Z) (l : list A) : (∀ x, f x ≤ g x) → sum_by f l ≤ sum_by g l.
Proof. intros H. induction l as [|x l IH]; [done|]. rewrite !sum_by_cons. specialize (H x). lia. Qed.

Lemma sum_by_zero {A} (f : A → Z) (l : list A) : Forall (λ x, f x = 0) l → sum_by f l = 0.
Proof. induction 1 as [|x l Hx _ IH]; [done|]. rewrite sum_by_cons. lia. Qed.

Lemma sum_by_nonneg {A} (f : A → Z) (l : list A) : (∀ x, 0 ≤ f x) → 0 ≤ sum_by f l.
Proof. intros H. induction l as [|x l IH]; [done|]. rewrite sum_by_cons. specialize (H x). lia. Qed.

Lemma sum_by_ge {A} (f : A → Z) (l : list A) i x : (∀ x, 0 ≤ f x) → l !! i = Some x → f x ≤ sum_by f l.
Proof.
  intros H Hi. revert i Hi. induction l as [|z l IH]; intros [|i] Hi; [done|done| |]; rewrite sum_by_cons.
  - injection Hi as ->. pose proof (sum_by_nonneg f l H). lia.
  - specialize (IH i Hi). specialize (H z). lia.
Qed.

(** A filter and its complement split the elements of a list. *)
Lemma filter_split {A} (f : A → bool) (l : list A) x :
  x ∈ l ↔ x ∈ List.filter f l ∨ x ∈ List.filter (λ y, negb (f y)) l.
Proof.
  rewrite !list_elem_of_In, !filter_In. destruct (f x); simpl; intuition congruence.
Qed.

Lemma filter_sub {A} (f : A → bool) (l : list A) x : x ∈ List.filter f l → x ∈ l.
Proof. rewrite !list_elem_of_In, filter_In. tauto. Qed.

Lemma NoDup_fst_filter {A B} (f : A * B → bool) (l : list (A * B)) :
  NoDup l.*1 → NoDup (List.filter f l).*1.
Proof.
  induction l as [|x l IH]; simpl; [done|]. intros [Hx Hnd]%NoDup_cons.
  destruct (f x); simpl; [|by apply IH]. apply NoDup_cons. split; [|by apply IH].
  intros (y & Hy & Hin)%list_elem_of_fmap. apply Hx. rewrite Hy. apply list_elem_of_fmap_2.
  by eapply filter_sub.
Qed.

(** With distinct first components, an entry is determined by its first one. *)
Lemma NoDup_fst_inj {A B} (l : list (A * B)) a b1 b2 :
  NoDup l.*1 → (a, b1) ∈ l → (a, b2) ∈ l → b1 = b2.
Proof.
  intros Hnd [i Hi]%list_elem_of_lookup [j Hj]%list_elem_of_lookup.
  assert (i = j) as ->; [|congruence].
  apply (NoDup_lookup l.*1 i j a); [done|..]; rewrite list_lookup_fmap; by rewrite ?Hi, ?Hj.
Qed.

(** Changing one element of a list. *)
Lemma alter_lookup {A} (f : A → A) i (l : list A) x : l !! i = Some x → alter f i l = <[i := f x]> l.
Proof.
  revert i. induction l as [|y l IH]; intros [|i] Hi; simpl in *; try done; [by simplify_eq|]. f_equal. by apply IH.
Qed.

(** The first index whose element satisfies a test: the search loops
    [for (index = 0; index < max; index++) if (test) ...] of the tables. *)
Fixpoint find_index {A} (f : A → bool) (l : list A) : option nat :=
  match l with
  | [] => None
  | x :: l' => if f x then Some 0%nat else S <$> find_index f l'
  end.

Lemma find_index_Some {A} (f : A → bool) l i :
  find_index f l = Some i ↔
  (∃ x, l !! i = Some x ∧ f x = true) ∧ ∀ j y, (j < i)%nat → l !! j = Some y → f y = false.
Proof.
  revert i. induction l as [|x l IH]; intros i; simpl.
  { split; [done|]. by intros [(? & ? & _) _]. }
  destruct (f x) eqn:Hx.
  - split.
    + intros [= <-]. split; [by exists x|]. intros; lia.
    + intros [_ Hall]. destruct i as [|i]; [done|]. specialize (Hall 0%nat x). rewrite Hall in Hx; [done|lia|done].
  - destruct i as [|i]; simpl.
    + split; [by intros (? & _ & ?)%fmap_Some|]. intros [(? & [= ->] & ?) _]. congruence.
    + transitivity (find_index f l = Some i).
      { rewrite fmap_Some. split; [by intros (? & ? & [= ->])|eauto]. }
      rewrite IH. split; intros [H1 H2]; (split; [done|]).
      * intros [|j] y Hj Hy; simpl in Hy; [congruence|]. apply (H2 j); [lia|done].
      * intros j y Hj Hy. apply (H2 (S j)); [lia|done].
Qed.

Lemma filter_all {A} (P : A → Prop) `{∀ x, Decision (P x)} (l : list A) : (∀ x, x ∈ l → P x) → filter P l = l.
Proof. induction l as [|x l IH]; intros H1; [done|]. rewrite filter_cons_True, IH; [done|intros; apply H1; set_solver|apply H1; set_solver]. Qed.

Lemma find_index_None {A} (f : A → bool) l :
  find_index f l = None ↔ ∀ i x, l !! i = Some x → f x = false.
Proof.
  induction l as [|x l IH]; simpl; [done|]. destruct (f x) eqn:Hx.
  - split; [done|]. intros H. specialize (H 0%nat x eq_refl). congruence.
  - rewrite fmap_None, IH. split.
    + intros H [|i] y; simpl; [by intros [= ->]|apply H].
    + intros H i y. apply (H (S i)).
Qed.

Lemma find_index_lookup {A} (f : A → bool) l i :
  find_index f l = Some i → ∃ x, l !! i = Some x ∧ f x = true.
Proof. by intros [? _]%find_index_Some. Qed.

(** Where at most one element satisfies the test, the search finds it. *)
Lemma find_index_unique {A} (f : A → bool) l i x :
  l !! i = Some x → f x = true →
  (∀ j y, l !! j = Some y → f y = true → j = i) → find_index f l = Some i.
Proof.
  intros Hi Hx Hu. apply find_index_Some. split; [eauto|]. intros j y Hj Hy.
  destruct (f y) eqn:E; [|done]. specialize (Hu _ _ Hy E). lia.
Qed.

(** Tactics of the development. *)
Ltac case_goal_if :=
  match goal with
  | |- context [if ?b then _ else _] => destruct b eqn:?
  end.
Ltac bool_to_prop :=
  repeat match goal with
  | H : (_ =? _) = true |- _ => apply Z.eqb_eq in H
  | H : (_ =? _) = false |- _ => apply Z.eqb_neq in H
  | H : (_ <? _) = true |- _ => apply Z.ltb_lt in H
  | H : (_ <? _) = false |- _ => apply Z.ltb_ge in H
  | H : (_ <=? _) = true |- _ => apply Z.leb_le in H
  | H : (_ <=? _) = false |- _ => apply Z.leb_gt in H
  | H : bool_decide _ = true |- _ => apply bool_decide_eq_true in H
  | H : bool_decide _ = false |- _ => apply bool_decide_eq_false in H
  | H : (_ && _)%bool = true |- _ => apply andb_true_iff in H as [? ?]
  | H : (_ || _)%bool = false |- _ => apply orb_false_iff in H as [? ?]
  end.

Create HintDb cmodel.
Create Rewrite HintDb cmodel.
#[export] Hint Resolve u32_range s32_range countP_nonneg : cmodel.
#[export] Hint Rewrite @countP_nil @countP_cons @countP_app u32_idemp : cmodel.
