(* ===== verification/MsgDefs.v ===== *)
(** Constants and data shared by the message modules of [base/common]:
    error codes and message headers of [msg_interface.h] and [msg_misc.h]. *)

From S2P Require Import Prelude.

(** ** Error codes *)

Definition SCP_APP_MOD_ID : Z := 0xA2010000.

(** [(int)SCP_APP_MOD_ID | ((level & 7) << 13) | (errid & 0x1FFF)]. *)
Definition SCP_DEF_ERR (level errid : Z) : Z :=
  s32 (Z.lor (Z.lor SCP_APP_MOD_ID (Z.shiftl (Z.land level 0x7) 13)) (Z.land errid 0x1FFF)).

Definition VTOP_LOG_LEVEL_ERROR : Z := 4.

Definition VTOP_MSG_ERR_GENERAL : Z := SCP_DEF_ERR VTOP_LOG_LEVEL_ERROR 0x000.
Definition VTOP_MSG_ERR_NOMEM : Z := SCP_DEF_ERR VTOP_LOG_LEVEL_ERROR 0x002.
Definition VTOP_MSG_ERR_NULLPTR : Z := SCP_DEF_ERR VTOP_LOG_LEVEL_ERROR 0x003.
Definition VTOP_MSG_ERR_INVALIDPARA : Z := SCP_DEF_ERR VTOP_LOG_LEVEL_ERROR 0x004.
Definition VTOP_MSG_ERR_VERSION : Z := SCP_DEF_ERR VTOP_LOG_LEVEL_ERROR 0x005.
Definition VTOP_MSG_ERR_NOSHMMEM : Z := SCP_DEF_ERR VTOP_LOG_LEVEL_ERROR 0x100.
Definition VTOP_MSG_ERR_SHMATTCH : Z := SCP_DEF_ERR VTOP_LOG_LEVEL_ERROR 0x103.
Definition VTOP_MSG_ERR_DSNOTEXIST : Z := SCP_DEF_ERR VTOP_LOG_LEVEL_ERROR 0x201.
Definition VTOP_MSG_ERR_PROCEXIST : Z := SCP_DEF_ERR VTOP_LOG_LEVEL_ERROR 0x300.
Definition VTOP_MSG_ERR_PROCNOTEXIST : Z := SCP_DEF_ERR VTOP_LOG_LEVEL_ERROR 0x301.
Definition VTOP_MSG_ERR_TASKEXIST : Z := SCP_DEF_ERR VTOP_LOG_LEVEL_ERROR 0x400.
Definition VTOP_MSG_ERR_TASKNOTEXIST : Z := SCP_DEF_ERR VTOP_LOG_LEVEL_ERROR 0x401.
Definition VTOP_MSG_ERR_TASKFULL : Z := SCP_DEF_ERR VTOP_LOG_LEVEL_ERROR 0x402.
Definition VTOP_MSG_ERR_SUBEXIST : Z := SCP_DEF_ERR VTOP_LOG_LEVEL_ERROR 0x600.
Definition VTOP_MSG_ERR_SUBNOTEXIST : Z := SCP_DEF_ERR VTOP_LOG_LEVEL_ERROR 0x601.
Definition VTOP_MSG_ERR_SUBFULL : Z := SCP_DEF_ERR VTOP_LOG_LEVEL_ERROR 0x602.
Definition VTOP_MSG_ERR_SUBMEMBERFULL : Z := SCP_DEF_ERR VTOP_LOG_LEVEL_ERROR 0x603.
Definition VTOP_MSG_ERR_TIMEOUT : Z := SCP_DEF_ERR VTOP_LOG_LEVEL_ERROR 0x701.
Definition VTOP_MSG_ERR_RESPTIMEOUT : Z := SCP_DEF_ERR VTOP_LOG_LEVEL_ERROR 0x702.
Definition VTOP_MSG_ERR_MSGRCV : Z := SCP_DEF_ERR VTOP_LOG_LEVEL_ERROR 0x703.
Definition VTOP_MSG_ERR_MSGSND : Z := SCP_DEF_ERR VTOP_LOG_LEVEL_ERROR 0x704.
Definition VTOP_MSG_ERR_MSGSIZE : Z := SCP_DEF_ERR VTOP_LOG_LEVEL_ERROR 0x705.

(** ** Messages *)

Definition VTOP_MSG_MAX_MSG_SIZE : Z := 4096.
Definition VTOP_INVALID_TASK_ID : Z := -1.
Definition VTOP_INVALID_MSG_TYPE : Z := 0xFFFFFFFF.
Definition NULL : Z := 0.

(** [VTOP_MSG_S_Block]: the part of a message its users see. *)
Record VTOP_MSG_S_Block := mkBlock {
  sndTaskId : Z;
  rcvTaskId : Z;
  msgType : Z;
  msgID : Z;
  ulPrio : Z;
  ulFlag : Z;
  ulMsgLen : Z;
  pMsgBody : Z
}.

(** [VTOP_MSG_S_InnerBlock]: the block with the middleware's own fields. *)
Record VTOP_MSG_S_InnerBlock := mkInner {
  msg : VTOP_MSG_S_Block;
  resp2id : Z;
  magic : Z;
  privData : Z
}.

(** [sizeof(VTOP_MSG_S_InnerBlock)]: eight words of the user's block, then three. *)
Definition MSG_INNER_HEAD_LEN : Z := 44.

Definition set_pMsgBody (p : Z) (b : VTOP_MSG_S_Block) : VTOP_MSG_S_Block :=
  mkBlock (sndTaskId b) (rcvTaskId b) (msgType b) (msgID b) (ulPrio b) (ulFlag b) (ulMsgLen b) p.

Definition set_msg (b : VTOP_MSG_S_Block) (m : VTOP_MSG_S_InnerBlock) : VTOP_MSG_S_InnerBlock :=
  mkInner b (resp2id m) (magic m) (privData m).

(** What a message buffer holds after [MSG_COPY2BUF]: the header, and the
    body's bytes right behind it. *)
Record msg_cell := mkCell { cell_head : VTOP_MSG_S_InnerBlock; cell_body : list Z }.

(** [MSG_COPY2BUF(pBuf, pMsg)]: [bytes] are the [ulMsgLen] bytes [pMsgBody]
    points to.  The copy's [pMsgBody] points into the buffer; a message with
    no body keeps its pointer. *)
Definition MSG_COPY2BUF (pBuf : Z) (pMsg : VTOP_MSG_S_InnerBlock) (bytes : list Z) : msg_cell :=
  if 0 <? ulMsgLen (msg pMsg)
  then mkCell (set_msg (set_pMsgBody (pBuf + MSG_INNER_HEAD_LEN) (msg pMsg)) pMsg)
              (take (Z.to_nat (ulMsgLen (msg pMsg))) bytes)
  else mkCell pMsg [].

#[global] Instance block_eq_dec : EqDecision VTOP_MSG_S_Block.
Proof. solve_decision. Defined.
#[global] Instance inner_eq_dec : EqDecision VTOP_MSG_S_InnerBlock.
Proof. solve_decision. Defined.
#[global] Instance cell_eq_dec : EqDecision msg_cell.
Proof. solve_decision. Defined.

(** ** Lemmas *)

Lemma lor_disjoint_small a b n :
  0 ≤ n → 0 ≤ b < 2 ^ n → Z.lor (a * 2 ^ n) b = a * 2 ^ n + b.
Proof.
  intros Hn Hb.
  assert (Z.land (a * 2 ^ n) b = 0) as Hland.
  { apply Z.bits_inj'; intros k Hk. rewrite Z.land_spec, Z.bits_0.
    destruct (decide (k < n)).
    { by rewrite Z.mul_pow2_bits_low by lia. }
    rewrite <- (Z.mod_small b (2 ^ n)) by done.
    rewrite Z.mod_pow2_bits_high by lia. apply andb_false_r. }
  symmetry. rewrite <- Z.lxor_lor by done. by apply Z.add_nocarry_lxor.
Qed.

(** Every error code is negative, so the callers' [ret < 0] tests see it, and
    codes of different error ids differ. *)
Lemma SCP_DEF_ERR_value level errid :
  0 ≤ level < 8 → 0 ≤ errid < 2 ^ 13 →
  SCP_DEF_ERR level errid = 0xA2010000 + level * 2 ^ 13 + errid - 2 ^ 32.
Proof.
  intros Hl He. unfold SCP_DEF_ERR.
  change 0x7 with (Z.ones 3). change 0x1FFF with (Z.ones 13). rewrite !Z.land_ones by lia.
  rewrite (Z.mod_small level), (Z.mod_small errid) by lia.
  rewrite Z.shiftl_mul_pow2 by lia.
  change SCP_APP_MOD_ID with (0xA201 * 2 ^ 16).
  rewrite (lor_disjoint_small 0xA201 (level * 2 ^ 13) 16) by lia.
  replace (0xA201 * 2 ^ 16 + level * 2 ^ 13) with ((0xA201 * 8 + level) * 2 ^ 13) by lia.
  rewrite lor_disjoint_small by lia.
  unfold s32. rewrite <- (Z.mod_add _ (-1)) by lia. rewrite Z.mod_small; lia.
Qed.
