(* ===== verification/MsgPool.v ===== *)
(** The contract between the message buffers ([msg_buffer.c]) and their
    clients, the message queues ([msg_queue.c]): a pool of blocks, some of
    them in use, with an allocation that may fail and a release. *)

From S2P Require Import Prelude.

Class MsgPool (P : Type) := {
  pool_inv : P → Prop;
  pool_live : P → Z → Prop;
  pool_alloc : P → Z → outcome (option Z * P);
  pool_free : P → Z → outcome P;

  (** An allocation always returns. *)
  pool_alloc_total p n : pool_inv p → ∃ r, pool_alloc p n = Returned r;
  (** A block it hands out was not in use; afterwards exactly it is added. *)
  pool_alloc_some p n a p' :
    pool_inv p → pool_alloc p n = Returned (Some a, p') →
    a ≠ 0 ∧ ¬ pool_live p a ∧ pool_inv p' ∧ ∀ b, pool_live p' b ↔ pool_live p b ∨ b = a;
  (** A failed allocation changes nothing. *)
  pool_alloc_none p n p' :
    pool_inv p → pool_alloc p n = Returned (None, p') → p' = p;
  (** Releasing a block in use returns and removes exactly that block. *)
  pool_free_live p a :
    pool_inv p → pool_live p a →
    ∃ p', pool_free p a = Returned p' ∧ pool_inv p' ∧ ∀ b, pool_live p' b ↔ pool_live p b ∧ b ≠ a;
  (** Releasing anything else does not return. *)
  pool_free_dead p a p' : pool_inv p → pool_free p a = Returned p' → pool_live p a
}.
