(* ===== verification/MsgBuffer.v ===== *)
(** The message buffers of [msg_buffer.c]: a context owns one memory area cut
    into up to four levels of equal-sized blocks; each block starts with a
    head that says whether it is used.  [MB_Init] lays the blocks out,
    [MB_Alloc] takes the first free block of the first level that fits,
    [MB_Free] gives one back. *)

From S2P Require Import Prelude MsgDefs MsgPool.

Module MB.

(** [sizeof(MB_HEAD_S)]: flag, two ids, and the queue node (a pointer and a
    [list_head]). *)
Definition MB_HEAD_LEN : Z := 24.
Definition MSG_MAX_BLK_NUM : Z := 16 * 1024.
Definition MSG_MAX_BLK_SIZE : Z := 256 * 1024.
Definition VTOP_MSG_BL_BUTT : nat := 4.

Record MB_HEAD_S := mkHead { flag : Z; buffer_id : nat; block_id : nat }.

Record MSG_BUFFER_S := mkLevel {
  pMsg : list Z;        (** addresses of the blocks; [[]] stands for NULL *)
  blocksize : Z;
  blocknum : Z;
  buffersize : Z;
  used : Z
}.

(** [heads] is the content of the area [s_pMsgBuf] as far as this module
    reads and writes it: the block heads, by address. *)
Record MB_CONTEXT_S := mkCtx {
  mb : list MSG_BUFFER_S;
  total_size : Z;
  total_num : Z;
  mb_num : nat;
  s_pMsgBuf : Z;
  mbName : string;
  heads : gmap Z MB_HEAD_S
}.

(** [VTOP_MSG_S_Buffer]: the arrays have [VTOP_MSG_BL_BUTT] entries. *)
Record VTOP_MSG_S_Buffer := mkBufCfg {
  blockNum : list Z;
  blockSize : list Z;
  name : string
}.

Definition MB_BLOCK_SIZE (size : Z) : Z := MB_HEAD_LEN + size.

(** The pieces of heap memory [MB_Init] asks for. *)
Inductive mb_chunk := ChunkCtx | ChunkBuf | ChunkArr (level : nat).

#[global] Instance mb_chunk_eq_dec : EqDecision mb_chunk.
Proof. solve_decision. Defined.
#[global] Instance head_eq_dec : EqDecision MB_HEAD_S.
Proof. solve_decision. Defined.
#[global] Instance level_eq_dec : EqDecision MSG_BUFFER_S.
Proof. solve_decision. Defined.

(** What [malloc] answers: for the context, for the area of a given size (its
    address), and for each level's pointer array. *)
Record mb_malloc := mkMalloc {
  malloc_ctx : bool;
  malloc_buf : Z → option Z;
  malloc_arr : nat → bool
}.

(** Adjacent sizes must increase ([blockSize[i-1] >= blockSize[i]] is refused). *)
Fixpoint sizes_ascend (l : list Z) : bool :=
  match l with
  | x :: ((y :: _) as l') => if y <=? x then false else sizes_ascend l'
  | _ => true
  end.

(** The number of levels: how many of the block sizes are positive. *)
Definition bufLevel_of (b : VTOP_MSG_S_Buffer) : nat :=
  length (List.filter (λ s, 0 <? s) (blockSize b)).

(** The parameter checks of [MB_Init], in their order; every refusal returns
    [VTOP_MSG_ERR_INVALIDPARA]. *)
Definition mb_params_ok (b : VTOP_MSG_S_Buffer) : bool :=
  if existsb (λ n, MSG_MAX_BLK_NUM <? n) (blockNum b) then false
  else if forallb (λ n, n =? 0) (blockNum b) then false
  else if existsb (λ s, MSG_MAX_BLK_SIZE <? s) (blockSize b) then false
  else if (bufLevel_of b =? 0)%nat then false
  else if existsb (λ s, s =? 0) (take (bufLevel_of b) (blockSize b)) then false
  else sizes_ascend (take (bufLevel_of b) (blockSize b)).

(** [each_mb_size[i]] and their sum, in [size_t]. *)
Definition each_mb_size (num size : Z) : Z := u32 (num * MB_BLOCK_SIZE size).

Fixpoint sum_mb_sizes (l : list (Z * Z)) (acc : Z) : Z :=
  match l with
  | [] => acc
  | (num, size) :: l' => sum_mb_sizes l' (u32 (acc + each_mb_size num size))
  end.

(** The blocks of one level: [pMbHead[i] + j*blocksize] for each [j]. *)
Definition level_blocks (base bs num : Z) : list Z :=
  map (λ j, base + u32 (Z.of_nat j * bs)) (seq 0 (Z.to_nat num)).

Fixpoint write_heads (i j : nat) (l : list Z) (h : gmap Z MB_HEAD_S) : gmap Z MB_HEAD_S :=
  match l with
  | [] => h
  | a :: l' => write_heads i (S j) l' (<[a := mkHead 0 i j]> h)
  end.

(** One turn of the loop that sets up [pMbContext->mb[i]]; [None] when the
    [malloc] of the pointer array fails. *)
Definition init_level (m : mb_malloc) (i : nat) (base num size : Z) : option MSG_BUFFER_S :=
  let bs := MB_BLOCK_SIZE size in
  let sz := u32 (bs * num) in
  if 0 <? sz
  then if malloc_arr m i then Some (mkLevel (level_blocks base bs num) bs num sz 0) else None
  else Some (mkLevel [] bs num sz 0).

(** [memset(pMbContext, 0, ...)]: a level that was not set up. *)
Definition level_zero : MSG_BUFFER_S := mkLevel [] 0 0 0 0.

(** The levels below an index, the rest zero. *)
Definition pad_levels (l : list MSG_BUFFER_S) : list MSG_BUFFER_S :=
  l ++ repeat level_zero (VTOP_MSG_BL_BUTT - length l).

(** The loop over the levels: the levels set up so far, the heads written, and
    whether every array was allocated. *)
Fixpoint init_levels (m : mb_malloc) (i : nat) (base : Z) (cfg : list (Z * Z))
    (h : gmap Z MB_HEAD_S) : list MSG_BUFFER_S * gmap Z MB_HEAD_S * bool :=
  match cfg with
  | [] => ([], h, true)
  | (num, size) :: cfg' =>
      match init_level m i base num size with
      | None => ([], h, false)
      | Some lv =>
          let '(lvs, h', ok) :=
            init_levels m (S i) (base + each_mb_size num size) cfg' (write_heads i 0 (pMsg lv) h) in
          (lv :: lvs, h', ok)
      end
  end.

(** [strncpy(dst, src, MB_NAME_SIZE)] and the terminator written at 15. *)
Definition mb_name (s : string) : string := String.substring 0 15 s.

(** [MB_Deinit]: the memory it frees, in order. *)
Definition MB_Deinit (handle : option MB_CONTEXT_S) : list mb_chunk :=
  match handle with
  | None => []
  | Some c =>
      flat_map (λ '(i, lv), match pMsg lv with [] => [] | _ => [ChunkArr i] end)
               (zip (seq 0 (mb_num c)) (mb c)) ++ [ChunkBuf; ChunkCtx]
  end.

(** Chunks allocated by the levels that were set up. *)
Definition arr_chunks (lvs : list MSG_BUFFER_S) : list mb_chunk :=
  flat_map (λ '(i, lv), match pMsg lv with [] => [] | _ => [ChunkArr i] end)
           (zip (seq 0 (length lvs)) lvs).

Definition chunks_minus (l k : list mb_chunk) : list mb_chunk :=
  List.filter (λ c, negb (bool_decide (c ∈ k))) l.

(** [MB_Init]: the returned code, the context written through [pHandle], and
    the chunks that are still allocated when it returns. *)
Definition MB_Init (m : mb_malloc) (pHandle_null : bool) (pBuffer : option VTOP_MSG_S_Buffer)
  : outcome (Z * option MB_CONTEXT_S * list mb_chunk) :=
  if pHandle_null then Returned (VTOP_MSG_ERR_INVALIDPARA, None, [])
  else match pBuffer with
  | None => Returned (VTOP_MSG_ERR_INVALIDPARA, None, [])
  | Some b =>
    if negb (mb_params_ok b) then Returned (VTOP_MSG_ERR_INVALIDPARA, None, [])
    else
    let bufLevel := bufLevel_of b in
    let cfg := take bufLevel (zip (blockNum b) (blockSize b)) in
    if negb (malloc_ctx m) then Returned (VTOP_MSG_ERR_NOMEM, None, [])
    else
    let buffer_size := sum_mb_sizes cfg 0 in
    match malloc_buf m buffer_size with
    | None => Returned (VTOP_MSG_ERR_NOMEM, None, [])
    | Some p =>
      oassert (u32 (fold_left (λ a '(n, s), a + each_mb_size n s) cfg p) =? u32 (p + buffer_size))
      (let '(lvs, h, ok) := init_levels m 0 p cfg ∅ in
       let allocated := [ChunkCtx; ChunkBuf] ++ arr_chunks lvs in
       let c := mkCtx (pad_levels lvs)
                      (fold_left (λ a lv, u32 (a + u32 (blocknum lv * blocksize lv))) lvs 0)
                      (fold_left (λ a lv, u32 (a + blocknum lv)) lvs 0)
                      bufLevel p (mb_name (name b)) h in
       if negb ok
       then Returned (VTOP_MSG_ERR_NOMEM, None, chunks_minus allocated (MB_Deinit (Some c)))
       else oassert (buffer_size =? total_size c) (Returned (0, Some c, allocated)))
    end
  end.

Definition set_level (c : MB_CONTEXT_S) (i : nat) (lv : MSG_BUFFER_S) : MB_CONTEXT_S :=
  mkCtx (<[i := lv]> (mb c)) (total_size c) (total_num c) (mb_num c) (s_pMsgBuf c) (mbName c) (heads c).

Definition set_head (c : MB_CONTEXT_S) (a : Z) (h : MB_HEAD_S) : MB_CONTEXT_S :=
  mkCtx (mb c) (total_size c) (total_num c) (mb_num c) (s_pMsgBuf c) (mbName c) (<[a := h]> (heads c)).

Definition set_used (lv : MSG_BUFFER_S) (u : Z) : MSG_BUFFER_S :=
  mkLevel (pMsg lv) (blocksize lv) (blocknum lv) (buffersize lv) u.

Definition set_flag (h : MB_HEAD_S) (f : Z) : MB_HEAD_S := mkHead f (buffer_id h) (block_id h).

(** The level test of [MB_Alloc]. *)
Definition level_fits (size : Z) (lv : MSG_BUFFER_S) : Prop :=
  0 < buffersize lv ∧ u32 (size + MB_HEAD_LEN) ≤ blocksize lv.

#[global] Instance level_fits_dec size lv : Decision (level_fits size lv).
Proof. unfold level_fits. apply _. Defined.

(** The block loop: the address of the first block whose flag is 0. *)
Fixpoint scan_free (n : nat) (l : list Z) (h : gmap Z MB_HEAD_S) : outcome (option Z) :=
  match n with
  | O => Returned None
  | S n' =>
      match l with
      | [] => Undefined
      | a :: l' =>
          let! hd := oderef (h !! a) in
          if flag hd =? 0 then Returned (Some a) else scan_free n' l' h
      end
  end.

(** [MB_Alloc]: the block's body address, or NULL. *)
Definition MB_Alloc (c : MB_CONTEXT_S) (size : Z) : outcome (option Z * MB_CONTEXT_S) :=
  match list_find (level_fits size) (take (mb_num c) (mb c)) with
  | None => Returned (None, c)
  | Some (i, lv) =>
      let! r := scan_free (Z.to_nat (blocknum lv)) (pMsg lv) (heads c) in
      match r with
      | None => Returned (None, c)
      | Some a =>
          let! hd := oderef (heads c !! a) in
          Returned (Some (a + MB_HEAD_LEN),
                    set_level (set_head c a (set_flag hd 1)) i (set_used lv (u32 (used lv + 1))))
      end
  end.

(** [&(pMBH->node)]: the node is 12 bytes into the head. *)
Definition MB_GetQNode (pMbBody : Z) : Z := pMbBody - MB_HEAD_LEN + 12.

(** [MB_Free]: the [ASSERT]s end the process when the block is not in use. *)
Definition MB_Free (c : MB_CONTEXT_S) (p : Z) : outcome MB_CONTEXT_S :=
  oassert (negb (p =? NULL))
  (let a := p - MB_HEAD_LEN in
   let! hd := oderef (heads c !! a) in
   oassert (flag hd =? 1)
   (let c' := set_head c a (set_flag hd 0) in
    let! lv := oderef (mb c' !! buffer_id hd) in
    Returned (set_level c' (buffer_id hd) (set_used lv (u32 (used lv - 1)))))).

Definition MB_GetTotalUsed (c : MB_CONTEXT_S) : Z :=
  fold_left (λ a lv, if 0 <? buffersize lv then u32 (a + used lv) else a) (mb c) 0.

Definition MB_GetTotalSize (c : MB_CONTEXT_S) : Z := total_size c.
Definition MB_GetTotalNum (c : MB_CONTEXT_S) : Z := total_num c.

Fixpoint count_used (n : nat) (l : list Z) (h : gmap Z MB_HEAD_S) (acc : Z) : outcome Z :=
  match n with
  | O => Returned acc
  | S n' =>
      match l with
      | [] => Undefined
      | a :: l' =>
          let! hd := oderef (h !! a) in
          count_used n' l' h (if flag hd =? 1 then u32 (acc + 1) else acc)
      end
  end.

(** [MB_GetUsed]: counts the flags of a level instead of reading [used]. *)
Definition MB_GetUsed (c : MB_CONTEXT_S) (id : nat) : outcome Z :=
  let! lv := oderef (mb c !! id) in
  count_used (Z.to_nat (blocknum lv)) (pMsg lv) (heads c) 0.

(** ** Invariant *)

Definition is_used (h : gmap Z MB_HEAD_S) (a : Z) : bool :=
  match h !! a with Some hd => flag hd =? 1 | None => false end.

Record wf (c : MB_CONTEXT_S) : Prop := {
  wf_blocks i lv : mb c !! i = Some lv → 0 < buffersize lv → Z.of_nat (length (pMsg lv)) = blocknum lv;
  wf_small i lv : mb c !! i = Some lv → Z.of_nat (length (pMsg lv)) < 2 ^ 32;
  wf_heads i lv j a : mb c !! i = Some lv → pMsg lv !! j = Some a →
    ∃ hd, heads c !! a = Some hd ∧ buffer_id hd = i ∧ block_id hd = j ∧ (flag hd = 0 ∨ flag hd = 1);
  wf_dom a hd : heads c !! a = Some hd →
    0 < a ∧ ∃ lv, mb c !! buffer_id hd = Some lv ∧ pMsg lv !! block_id hd = Some a;
  wf_used i lv : mb c !! i = Some lv → used lv = countP (is_used (heads c)) (pMsg lv)
}.

(** A body address is live when it belongs to a block marked used. *)
Definition live (c : MB_CONTEXT_S) (p : Z) : Prop := is_used (heads c) (p - MB_HEAD_LEN) = true.

Lemma live_head c p :
  live c p ↔ ∃ hd, heads c !! (p - MB_HEAD_LEN) = Some hd ∧ flag hd = 1.
Proof.
  unfold live, is_used. destruct (heads c !! _); split.
  - intros ?%Z.eqb_eq. eauto.
  - intros (? & [=->] & ?). by apply Z.eqb_eq.
  - done.
  - by intros (? & ? & ?).
Qed.

(** *** Changing the flag of one block *)

Lemma wf_NoDup c i lv : wf c → mb c !! i = Some lv → NoDup (pMsg lv).
Proof.
  intros Hwf Hi. apply NoDup_alt. intros j k a Hj Hk.
  destruct (wf_heads _ Hwf _ _ _ _ Hi Hj) as (h1 & Hh1 & ? & ? & ?).
  destruct (wf_heads _ Hwf _ _ _ _ Hi Hk) as (h2 & Hh2 & ? & ? & ?).
  congruence.
Qed.

Lemma countP_is_used_insert_ne h a hd (l : list Z) :
  a ∉ l → countP (is_used (<[a := hd]> h)) l = countP (is_used h) l.
Proof.
  intros Ha. apply countP_ext, Forall_Forall2_diag, Forall_forall. intros x Hx.
  unfold is_used. rewrite lookup_insert_ne; [done|]. by intros ->.
Qed.

Lemma countP_is_used_insert h a hd (l : list Z) j :
  NoDup l → l !! j = Some a →
  countP (is_used (<[a := hd]> h)) l =
    countP (is_used h) l - (if is_used h a then 1 else 0) + (if flag hd =? 1 then 1 else 0).
Proof.
  revert j. induction l as [|b l IH]; intros [|j] Hnd Hj; simpl in *; try done.
  all: apply NoDup_cons in Hnd as [Hnb Hnd]; rewrite !countP_cons.
  - simplify_eq. rewrite countP_is_used_insert_ne by done.
    assert (is_used (<[a:=hd]> h) a = (flag hd =? 1)) as ->.
    { unfold is_used. by rewrite lookup_insert_eq. }
    lia.
  - rewrite (IH j) by done.
    assert (is_used (<[a:=hd]> h) b = is_used h b) as ->.
    { unfold is_used. rewrite lookup_insert_ne; [done|]. intros ->.
      apply Hnb. by eapply list_elem_of_lookup_2. }
    lia.
Qed.

(** Setting the flag of a block together with its level's counter keeps the
    invariant. *)
Lemma wf_set_flag c i lv j a hd f u :
  wf c → mb c !! i = Some lv → pMsg lv !! j = Some a → heads c !! a = Some hd →
  f = 0 ∨ f = 1 →
  u = used lv - (if flag hd =? 1 then 1 else 0) + f →
  wf (set_level (set_head c a (set_flag hd f)) i (set_used lv u)).
Proof.
  intros Hwf Hi Hj Ha Hf ->.
  destruct (wf_heads _ Hwf _ _ _ _ Hi Hj) as (hd' & Ha' & Hbi & Hbj & Hfl). simplify_eq.
  assert (∀ i' lv', <[buffer_id hd := set_used lv (used lv - (if flag hd =? 1 then 1 else 0) + f)]>
            (mb c) !! i' = Some lv' →
          ∃ lv0, mb c !! i' = Some lv0 ∧ pMsg lv' = pMsg lv0 ∧ buffersize lv' = buffersize lv0
                 ∧ blocknum lv' = blocknum lv0) as Hlv.
  { intros i' lv' H. apply list_lookup_insert_Some in H as [(<- & <- & _)|[_ H]]; eauto. }
  split; simpl.
  - intros i' lv' (lv0 & ? & -> & -> & ->)%Hlv. by eapply wf_blocks.
  - intros i' lv' (lv0 & ? & -> & _ & _)%Hlv. by eapply wf_small.
  - intros i' lv' j' b (lv0 & Hlv0 & -> & _ & _)%Hlv Hb.
    destruct (wf_heads _ Hwf _ _ _ _ Hlv0 Hb) as (hb & Hhb & ? & ? & ?).
    destruct (decide (a = b)) as [->|]; [|rewrite lookup_insert_ne by done; eauto].
    rewrite lookup_insert_eq. simplify_eq. eexists; repeat split; eauto.
  - intros b hb Hb. assert (∃ hb', heads c !! b = Some hb' ∧ buffer_id hb' = buffer_id hb ∧
                              block_id hb' = block_id hb) as (hb' & Hhb' & <- & <-).
    { destruct (decide (a = b)) as [->|]; [|rewrite lookup_insert_ne in Hb by done; eauto].
      rewrite lookup_insert_eq in Hb. simplify_eq. eauto. }
    destruct (wf_dom _ Hwf _ _ Hhb') as (? & lvb & Hlvb & ?). split; [done|].
    destruct (decide (buffer_id hd = buffer_id hb')) as [Heq|].
    + rewrite <- Heq in *. simplify_eq. eexists; split.
      { apply list_lookup_insert_eq. by eapply lookup_lt_Some. } done.
    + exists lvb. rewrite list_lookup_insert_ne by done. done.
  - intros i' lv' H. apply list_lookup_insert_Some in H as [(<- & <- & _)|[Hne H]]; simpl.
    + rewrite (countP_is_used_insert _ _ _ _ _ (wf_NoDup _ _ _ Hwf Hi) Hj).
      rewrite <- (wf_used _ Hwf _ _ Hi). unfold is_used; rewrite Ha; simpl.
      destruct Hf as [-> | ->]; simpl; lia.
    + rewrite countP_is_used_insert_ne; [by eapply wf_used|].
      intros [k Hk]%list_elem_of_lookup.
      destruct (wf_heads _ Hwf _ _ _ _ H Hk) as (hb & Hhb & ? & _). congruence.
Qed.

(** *** Allocation *)

Lemma scan_free_spec (h : gmap Z MB_HEAD_S) (l : list Z) :
  (∀ j a, l !! j = Some a → ∃ hd, h !! a = Some hd ∧ (flag hd = 0 ∨ flag hd = 1)) →
  (∃ j a hd, scan_free (length l) l h = Returned (Some a) ∧ l !! j = Some a ∧
             h !! a = Some hd ∧ flag hd = 0 ∧ ∀ k b, (k < j)%nat → l !! k = Some b → is_used h b = true)
  ∨ (scan_free (length l) l h = Returned None ∧ ∀ j a, l !! j = Some a → is_used h a = true).
Proof.
  induction l as [|b l IH]; intros Hl; simpl; [right; done|].
  destruct (Hl 0%nat b) as (hd & Hb & Hf); [done|]. rewrite Hb; simpl.
  destruct (flag hd =? 0) eqn:Hfl; bool_to_prop.
  - left. exists 0%nat, b, hd. split_and!; [done..|intros; lia].
  - assert (is_used h b = true) by (unfold is_used; rewrite Hb; apply Z.eqb_eq; lia).
    destruct IH as [(j & a & hd' & ? & ? & ? & ? & Hk)|[? Hk]].
    { intros j a. apply (Hl (S j)). }
    + left. exists (S j), a, hd'. split_and!; [done..|].
      intros [|k] b' ? Hb'; simpl in *; [congruence|]. apply (Hk k); [lia|done].
    + right. split; [done|]. intros [|j] a Ha; simpl in *; [congruence|]. by apply (Hk j).
Qed.

(** The three ways [MB_Alloc] can go, for a context that satisfies the
    invariant. *)
Inductive alloc_result (c : MB_CONTEXT_S) (size : Z) : option Z * MB_CONTEXT_S → Prop :=
  | alloc_no_level :
      (∀ i lv, (i < mb_num c)%nat → mb c !! i = Some lv → ¬ level_fits size lv) →
      alloc_result c size (None, c)
  | alloc_full i lv :
      (i < mb_num c)%nat → mb c !! i = Some lv → level_fits size lv →
      (∀ k lv', (k < i)%nat → mb c !! k = Some lv' → ¬ level_fits size lv') →
      (∀ j a, pMsg lv !! j = Some a → is_used (heads c) a = true) →
      alloc_result c size (None, c)
  | alloc_block i lv j a hd :
      (i < mb_num c)%nat → mb c !! i = Some lv → level_fits size lv →
      (∀ k lv', (k < i)%nat → mb c !! k = Some lv' → ¬ level_fits size lv') →
      pMsg lv !! j = Some a → heads c !! a = Some hd → flag hd = 0 →
      (∀ k b, (k < j)%nat → pMsg lv !! k = Some b → is_used (heads c) b = true) →
      alloc_result c size
        (Some (a + MB_HEAD_LEN),
         set_level (set_head c a (set_flag hd 1)) i (set_used lv (used lv + 1))).

Lemma used_lt_length c i lv j a :
  wf c → mb c !! i = Some lv → pMsg lv !! j = Some a → is_used (heads c) a = false →
  0 ≤ used lv < Z.of_nat (length (pMsg lv)).
Proof.
  intros Hwf Hi Hj Ha. rewrite (wf_used _ Hwf _ _ Hi).
  split; [apply countP_nonneg|].
  rewrite <- (take_drop_middle _ _ _ Hj), countP_app, countP_cons, Ha, length_app; simpl.
  pose proof (countP_le_length (is_used (heads c)) (take j (pMsg lv))).
  pose proof (countP_le_length (is_used (heads c)) (drop (S j) (pMsg lv))). lia.
Qed.

Lemma MB_Alloc_cases c size :
  wf c → ∃ r, MB_Alloc c size = Returned r ∧ alloc_result c size r.
Proof.
  intros Hwf. unfold MB_Alloc.
  destruct (list_find (level_fits size) (take (mb_num c) (mb c))) as [[i lv]|] eqn:Hfind.
  2:{ eexists; split; [done|]. apply alloc_no_level. intros i lv Hi Hlv.
      apply list_find_None in Hfind. rewrite Forall_lookup in Hfind.
      apply (Hfind i). by rewrite lookup_take_lt. }
  apply list_find_Some in Hfind as (Hlv & Hfit & Hbefore).
  apply lookup_take_Some in Hlv as [Hlv Hi].
  assert (∀ k lv', (k < i)%nat → mb c !! k = Some lv' → ¬ level_fits size lv') as Hfirst.
  { intros k lv' Hk Hlv'. apply (Hbefore k lv'); [|done]. rewrite lookup_take_lt; [done|lia]. }
  rewrite <- (wf_blocks _ Hwf _ _ Hlv) by apply Hfit. rewrite Nat2Z.id.
  destruct (scan_free_spec (heads c) (pMsg lv)) as [(j & a & hd & -> & Hj & Ha & Hf & Hk)|[-> Hall]].
  { intros j a Hj. destruct (wf_heads _ Hwf _ _ _ _ Hlv Hj) as (hd & ? & _ & _ & ?). eauto. }
  - simpl. rewrite Ha; simpl. eexists; split; [done|].
    assert (is_used (heads c) a = false).
    { unfold is_used. rewrite Ha, Hf. done. }
    pose proof (used_lt_length _ _ _ _ _ Hwf Hlv Hj H).
    pose proof (wf_small _ Hwf _ _ Hlv).
    rewrite u32_small by lia. by eapply alloc_block.
  - eexists; split; [done|]. by eapply alloc_full.
Qed.

Lemma live_set_flag c i lv a hd f p :
  heads c !! a = Some hd →
  live (set_level (set_head c a (set_flag hd f)) i lv) p ↔
    (p = a + MB_HEAD_LEN ∧ f = 1) ∨ (p ≠ a + MB_HEAD_LEN ∧ live c p).
Proof.
  intros Ha. unfold live, is_used; simpl.
  destruct (decide (p = a + MB_HEAD_LEN)) as [->|Hp].
  - rewrite Z.add_simpl_r, lookup_insert_eq; simpl. rewrite Z.eqb_eq. naive_solver.
  - rewrite lookup_insert_ne by lia. naive_solver.
Qed.

Lemma alloc_some_spec c size p c' :
  wf c → MB_Alloc c size = Returned (Some p, c') →
  0 < p ∧ wf c' ∧ ¬ live c p ∧ (∀ q, live c' q ↔ live c q ∨ q = p) ∧
  ∃ i lv j, mb c !! i = Some lv ∧ pMsg lv !! j = Some (p - MB_HEAD_LEN) ∧
            u32 (size + MB_HEAD_LEN) ≤ blocksize lv.
Proof.
  intros Hwf Halloc. destruct (MB_Alloc_cases c size Hwf) as (r & Hr & Hcase).
  rewrite Halloc in Hr. injection Hr as <-.
  inversion Hcase as [| |i lv j a hd Hi Hlv Hfit Hfirst Hj Ha Hfl Hprev]; subst.
  assert (¬ live c (a + MB_HEAD_LEN)) as Hnl.
  { rewrite live_head, Z.add_simpl_r. intros (? & ? & ?). simplify_eq. lia. }
  destruct (wf_dom _ Hwf _ _ Ha) as [Hpos _].
  split; [unfold MB_HEAD_LEN; lia|]. split; [|split; [done|split]].
  - apply (wf_set_flag c i lv j a hd); [done..|by right|].
    rewrite Hfl. simpl. lia.
  - intros q. rewrite live_set_flag by done.
    destruct (decide (q = a + MB_HEAD_LEN)); naive_solver.
  - exists i, lv, j. rewrite Z.add_simpl_r. split_and!; [done..|apply Hfit].
Qed.

Lemma alloc_none_spec c size c' : wf c → MB_Alloc c size = Returned (None, c') → c' = c.
Proof.
  intros Hwf Halloc. destruct (MB_Alloc_cases c size Hwf) as (r & Hr & Hcase).
  rewrite Halloc in Hr. injection Hr as <-. by inversion Hcase.
Qed.

(** *** Release *)

Lemma free_live_eq c p hd lv :
  wf c → heads c !! (p - MB_HEAD_LEN) = Some hd → flag hd = 1 → mb c !! buffer_id hd = Some lv →
  MB_Free c p = Returned (set_level (set_head c (p - MB_HEAD_LEN) (set_flag hd 0))
                                    (buffer_id hd) (set_used lv (used lv - 1))).
Proof.
  intros Hwf Hh Hf Hlv. destruct (wf_dom _ Hwf _ _ Hh) as (Hpos & lv' & ? & Hj). simplify_eq.
  unfold MB_Free, oassert. replace (p =? NULL) with false.
  2:{ symmetry. apply Z.eqb_neq. unfold NULL, MB_HEAD_LEN in *. lia. }
  simpl. rewrite Hh; simpl. rewrite Hf; simpl. rewrite Hlv; simpl.
  assert (is_used (heads c) (p - MB_HEAD_LEN) = true) as Hu.
  { unfold is_used. by rewrite Hh, Hf. }
  pose proof (countP_pos _ _ _ _ Hj Hu). rewrite <- (wf_used _ Hwf _ _ Hlv) in H.
  pose proof (countP_le_length (is_used (heads c)) (pMsg lv)) as H'.
  rewrite <- (wf_used _ Hwf _ _ Hlv) in H'. pose proof (wf_small _ Hwf _ _ Hlv).
  by rewrite u32_small by lia.
Qed.

Lemma free_live_spec c p :
  wf c → live c p →
  ∃ c', MB_Free c p = Returned c' ∧ wf c' ∧ ∀ q, live c' q ↔ live c q ∧ q ≠ p.
Proof.
  intros Hwf (hd & Hh & Hf)%live_head.
  destruct (wf_dom _ Hwf _ _ Hh) as (Hpos & lv & Hlv & Hj).
  eexists; split; [by eapply free_live_eq|]. split.
  - eapply wf_set_flag; [done..|by left|]. rewrite Hf; simpl; lia.
  - intros q. rewrite live_set_flag by done. rewrite Z.sub_add. naive_solver.
Qed.

Lemma free_returned_live c p c' : MB_Free c p = Returned c' → live c p.
Proof.
  unfold MB_Free, oassert. destruct (negb (p =? NULL)); [|done]. simpl.
  rewrite live_head. destruct (heads c !! _) as [hd|]; [|done]. simpl.
  destruct (flag hd =? 1) eqn:Hf; [|done]. bool_to_prop. eauto.
Qed.

(** The contract with the queues is met. *)
#[global] Program Instance mb_pool : MsgPool MB_CONTEXT_S := {|
  pool_inv := wf;
  pool_live := live;
  pool_alloc := MB_Alloc;
  pool_free := MB_Free
|}.
Next Obligation. intros p n H. destruct (MB_Alloc_cases p n H) as (r & ? & _). eauto. Qed.
Next Obligation.
  intros p n a p' H Ha. destruct (alloc_some_spec _ _ _ _ H Ha) as (? & ? & ? & ? & _).
  split_and!; try done. lia.
Qed.
Next Obligation. intros p n p' H Ha. by eapply alloc_none_spec. Qed.
Next Obligation. intros p a H Ha. by apply free_live_spec. Qed.
Next Obligation. intros p a p' _ Ha. by eapply free_returned_live. Qed.

(** *** Initialisation *)

(** The bytes a configuration needs, with no wrap-around. *)
Fixpoint mb_bytes (cfg : list (Z * Z)) : Z :=
  match cfg with
  | [] => 0
  | (n, s) :: cfg' => n * MB_BLOCK_SIZE s + mb_bytes cfg'
  end.

Definition cfg_ok (cfg : list (Z * Z)) : Prop :=
  Forall (λ '(n, s), 0 ≤ n ≤ MSG_MAX_BLK_NUM ∧ 0 < s ≤ MSG_MAX_BLK_SIZE) cfg.

(** What the loop makes of level [k] of the configuration. *)
Definition level_of (base n s : Z) : MSG_BUFFER_S :=
  mkLevel (if 0 <? n then level_blocks base (MB_BLOCK_SIZE s) n else [])
          (MB_BLOCK_SIZE s) n (n * MB_BLOCK_SIZE s) 0.

Lemma mb_bytes_nonneg cfg : cfg_ok cfg → 0 ≤ mb_bytes cfg.
Proof.
  induction 1 as [|[n s] cfg [? ?]]; simpl; [done|]. unfold MB_BLOCK_SIZE, MB_HEAD_LEN. nia.
Qed.

Lemma level_blocks_lookup base bs n j a :
  0 < bs → 0 ≤ n → n * bs < 2 ^ 32 →
  level_blocks base bs n !! j = Some a ↔ a = base + Z.of_nat j * bs ∧ Z.of_nat j < n.
Proof.
  intros Hbs Hn Hov. unfold level_blocks. rewrite list_lookup_fmap_Some.
  split.
  - intros (k & -> & [-> Hk]%lookup_seq). simpl. rewrite u32_small; [lia|]. nia.
  - intros [-> Hj]. exists j. split.
    + rewrite u32_small; [done|]. nia.
    + apply lookup_seq. lia.
Qed.

Lemma write_heads_notin i j l h a : a ∉ l → write_heads i j l h !! a = h !! a.
Proof.
  revert j h. induction l as [|b l IH]; intros j h Ha; simpl; [done|].
  rewrite not_elem_of_cons in Ha. rewrite IH by tauto. by rewrite lookup_insert_ne by naive_solver.
Qed.

Lemma write_heads_in i j l h k a :
  NoDup l → l !! k = Some a → write_heads i j l h !! a = Some (mkHead 0 i (j + k)).
Proof.
  revert j h k. induction l as [|b l IH]; intros j h [|k] Hnd Hk; simpl in *; try done.
  all: apply NoDup_cons in Hnd as [Hb Hnd].
  - simplify_eq. rewrite write_heads_notin by done. rewrite lookup_insert_eq. by rewrite Nat.add_0_r.
  - rewrite (IH _ _ k) by done. by rewrite Nat.add_succ_r.
Qed.

Lemma write_heads_inv i j l h a hd :
  write_heads i j l h !! a = Some hd →
  h !! a = Some hd ∨ ∃ k, l !! k = Some a ∧ hd = mkHead 0 i (j + k).
Proof.
  revert j h. induction l as [|b l IH]; intros j h H; simpl in *; [by left|].
  destruct (IH _ _ H) as [H'|(k & ? & ->)].
  - destruct (decide (b = a)) as [->|].
    + rewrite lookup_insert_eq in H'. simplify_eq. right. exists 0%nat. by rewrite Nat.add_0_r.
    + rewrite lookup_insert_ne in H' by done. by left.
  - right. exists (S k). by rewrite Nat.add_succ_r.
Qed.

Lemma level_of_lookup base n s j a :
  0 ≤ n → 0 < s → n * MB_BLOCK_SIZE s < 2 ^ 32 →
  pMsg (level_of base n s) !! j = Some a ↔ a = base + Z.of_nat j * MB_BLOCK_SIZE s ∧ Z.of_nat j < n.
Proof.
  intros Hn Hs Hov. unfold level_of; simpl. destruct (0 <? n) eqn:H; bool_to_prop.
  - apply level_blocks_lookup; [unfold MB_BLOCK_SIZE, MB_HEAD_LEN; lia|done|done].
  - rewrite lookup_nil. split; [done|lia].
Qed.

Lemma init_level_eq m i base n s lv :
  0 ≤ n → 0 < s → n * MB_BLOCK_SIZE s < 2 ^ 32 →
  init_level m i base n s = Some lv → lv = level_of base n s.
Proof.
  intros Hn Hs Hov. unfold init_level, level_of.
  assert (0 < MB_BLOCK_SIZE s) by (unfold MB_BLOCK_SIZE, MB_HEAD_LEN; lia).
  rewrite (Z.mul_comm _ n), u32_small by nia.
  destruct (0 <? n) eqn:Hn0; bool_to_prop.
  - replace (0 <? n * MB_BLOCK_SIZE s) with true by (symmetry; apply Z.ltb_lt; nia).
    destruct (malloc_arr m i); by intros [= <-].
  - replace (0 <? n * MB_BLOCK_SIZE s) with false by (symmetry; apply Z.ltb_ge; nia).
    by intros [= <-].
Qed.

Lemma each_mb_size_eq n s :
  0 ≤ n → 0 < s → n * MB_BLOCK_SIZE s < 2 ^ 32 → each_mb_size n s = n * MB_BLOCK_SIZE s.
Proof. intros. apply u32_small. unfold MB_BLOCK_SIZE, MB_HEAD_LEN in *. nia. Qed.

(** A configuration whose first level, and whose rest, stay in range. *)
Lemma cfg_cons_inv n s cfg :
  cfg_ok ((n, s) :: cfg) → mb_bytes ((n, s) :: cfg) < 2 ^ 32 →
  0 ≤ n ∧ 0 < s ∧ n * MB_BLOCK_SIZE s < 2 ^ 32 ∧ cfg_ok cfg ∧ mb_bytes cfg < 2 ^ 32 ∧
  0 ≤ n * MB_BLOCK_SIZE s.
Proof.
  intros [[? ?] Hc]%Forall_cons Hb. simpl in Hb.
  pose proof (mb_bytes_nonneg _ Hc).
  assert (0 ≤ n * MB_BLOCK_SIZE s) by (unfold MB_BLOCK_SIZE, MB_HEAD_LEN; nia).
  split_and!; (done || lia).
Qed.

Lemma init_levels_lookup m i base cfg h lvs h' :
  cfg_ok cfg → mb_bytes cfg < 2 ^ 32 → init_levels m i base cfg h = (lvs, h', true) →
  ∀ k, lvs !! k = (λ '(n, s), level_of (base + mb_bytes (take k cfg)) n s) <$> cfg !! k.
Proof.
  revert i base h lvs. induction cfg as [|[n s] cfg IH]; intros i base h lvs Hok Hb Hi k.
  { simpl in Hi. injection Hi as <- <-. by rewrite !lookup_nil. }
  destruct (cfg_cons_inv _ _ _ Hok Hb) as (Hn & Hs & Hov & Hok' & Hb' & Hpos).
  simpl in Hi. destruct (init_level m i base n s) as [lv|] eqn:Hlv; [|done].
  destruct (init_levels _ _ _ cfg _) as [[lvs' h''] ok] eqn:Hrec. injection Hi as <- <- ->.
  apply init_level_eq in Hlv as ->; [|done..].
  rewrite each_mb_size_eq in Hrec by done.
  destruct k as [|k]; simpl; [by rewrite Z.add_0_r|].
  rewrite (IH _ _ _ _ Hok' Hb' Hrec). destruct (cfg !! k) as [[n' s']|]; simpl; [|done].
  do 2 f_equal. lia.
Qed.

Lemma init_levels_heads m i base cfg h lvs h' :
  cfg_ok cfg → mb_bytes cfg < 2 ^ 32 → init_levels m i base cfg h = (lvs, h', true) →
  (∀ a, a < base → h' !! a = h !! a) ∧
  (∀ k lv j a, lvs !! k = Some lv → pMsg lv !! j = Some a → h' !! a = Some (mkHead 0 (i + k) j)) ∧
  (∀ a hd, h' !! a = Some hd → h !! a = Some hd ∨
     ∃ k lv j, lvs !! k = Some lv ∧ pMsg lv !! j = Some a ∧ hd = mkHead 0 (i + k) j).
Proof.
  revert i base h lvs. induction cfg as [|[n s] cfg IH]; intros i base h lvs Hok Hb Hi.
  { simpl in Hi. injection Hi as <- <-. split_and!; [done|by intros k|by left]. }
  destruct (cfg_cons_inv _ _ _ Hok Hb) as (Hn & Hs & Hov & Hok' & Hb' & Hpos).
  simpl in Hi. destruct (init_level m i base n s) as [lv|] eqn:Hlv; [|done].
  destruct (init_levels _ _ _ cfg _) as [[lvs' h''] ok] eqn:Hrec. injection Hi as <- <- ->.
  apply init_level_eq in Hlv as ->; [|done..].
  rewrite each_mb_size_eq in Hrec by done.
  destruct (IH _ _ _ _ Hok' Hb' Hrec) as (Hlow & Hin & Hinv).
  assert (0 < MB_BLOCK_SIZE s) by (unfold MB_BLOCK_SIZE, MB_HEAD_LEN; lia).
  assert (∀ j a, pMsg (level_of base n s) !! j = Some a → base ≤ a < base + n * MB_BLOCK_SIZE s) as Hrng.
  { intros j a [-> Hj]%level_of_lookup; [|done..]. nia. }
  assert (NoDup (pMsg (level_of base n s))) as Hnd.
  { apply NoDup_alt. intros j1 j2 a Hj1 Hj2.
    apply level_of_lookup in Hj1 as [-> ?], Hj2 as [? ?]; [|done..]. nia. }
  split_and!.
  - intros a Ha. rewrite Hlow by lia. apply write_heads_notin.
    intros [j ?%Hrng]%list_elem_of_lookup. lia.
  - intros [|k] lv j a Hk Hj; simpl in Hk.
    + simplify_eq. rewrite Hlow by (by apply Hrng in Hj; lia).
      rewrite (write_heads_in _ _ _ _ j) by done. by rewrite Nat.add_0_r.
    + rewrite (Hin _ _ _ _ Hk Hj). by rewrite Nat.add_succ_r.
  - intros a hd [H'|(k & lv & j & Hk & Hj & ->)]%Hinv.
    + apply write_heads_inv in H' as [?|(j & Hj & ->)]; [by left|].
      right. exists 0%nat, (level_of base n s), j. by rewrite Nat.add_0_r.
    + right. exists (S k), lv, j. by rewrite Nat.add_succ_r.
Qed.

(** What the C type of the configuration guarantees: four entries per array,
    each an unsigned word. *)
Definition buf_ok (b : VTOP_MSG_S_Buffer) : Prop :=
  length (blockNum b) = VTOP_MSG_BL_BUTT ∧ length (blockSize b) = VTOP_MSG_BL_BUTT ∧
  Forall (λ x, 0 ≤ x < 2 ^ 32) (blockNum b) ∧ Forall (λ x, 0 ≤ x < 2 ^ 32) (blockSize b).

(** The levels [MB_Init] sets up. *)
Definition cfg_of (b : VTOP_MSG_S_Buffer) : list (Z * Z) :=
  take (bufLevel_of b) (zip (blockNum b) (blockSize b)).

Lemma filter_length_le {A} (f : A → bool) l : (length (List.filter f l) ≤ length l)%nat.
Proof. induction l; simpl; [lia|]. destruct (f a); simpl; lia. Qed.

Lemma existsb_false_lookup {A} (f : A → bool) l i x :
  existsb f l = false → l !! i = Some x → f x = false.
Proof.
  intros H Hi. destruct (f x) eqn:E; [|done].
  assert (existsb f l = true); [|congruence].
  apply existsb_exists. exists x. split; [|done]. apply list_elem_of_In. by eapply list_elem_of_lookup_2.
Qed.

Lemma cfg_of_ok b :
  buf_ok b → mb_params_ok b = true →
  cfg_ok (cfg_of b) ∧ length (cfg_of b) = bufLevel_of b ∧ (0 < bufLevel_of b ≤ VTOP_MSG_BL_BUTT)%nat.
Proof.
  intros (Hln & Hls & Hn & Hs) Hok. unfold mb_params_ok in Hok.
  destruct (existsb _ (blockNum b)) eqn:E1; [done|].
  destruct (forallb _ _) eqn:E2; [done|].
  destruct (existsb _ (blockSize b)) eqn:E3; [done|].
  destruct (_ =? 0)%nat eqn:E4; [done|]. apply Nat.eqb_neq in E4.
  destruct (existsb _ (take _ _)) eqn:E5; [done|].
  pose proof (filter_length_le (λ s, 0 <? s) (blockSize b)) as Hle. fold (bufLevel_of b) in Hle.
  split_and!; [|unfold cfg_of; rewrite length_take, length_zip_with; lia|lia|lia].
  apply Forall_lookup. intros k [n s] Hk. unfold cfg_of in Hk.
  apply lookup_take_Some in Hk as [Hk Hlt].
  apply lookup_zip_with_Some in Hk as (n' & s' & [= <- <-] & Hkn & Hks).
  apply existsb_false_lookup with (i := k) (x := n) in E1; [|done].
  apply existsb_false_lookup with (i := k) (x := s) in E3; [|done].
  apply existsb_false_lookup with (i := k) (x := s) in E5; [|by rewrite lookup_take_lt].
  rewrite Forall_lookup in Hn, Hs. specialize (Hn _ _ Hkn). specialize (Hs _ _ Hks).
  bool_to_prop. lia.
Qed.

Lemma pad_levels_lookup lvs k lv :
  pad_levels lvs !! k = Some lv → lvs !! k = Some lv ∨ (lv = level_zero ∧ (length lvs ≤ k)%nat).
Proof.
  unfold pad_levels. intros [?|[? H]]%lookup_app_Some; [by left|].
  right. split; [|done]. apply list_elem_of_lookup_2 in H. apply list_elem_of_In in H.
  by apply repeat_spec in H.
Qed.

Lemma init_levels_length m i base cfg h lvs h' :
  init_levels m i base cfg h = (lvs, h', true) → length lvs = length cfg.
Proof.
  revert i base h lvs. induction cfg as [|[n s] cfg IH]; intros i base h lvs Hi; simpl in Hi.
  { by injection Hi as <- _. }
  destruct (init_level m i base n s); [|done].
  destruct (init_levels _ _ _ cfg _) as [[lvs' h''] ok] eqn:Hrec. injection Hi as <- <- ->.
  simpl. f_equal. by eapply IH.
Qed.

Lemma mb_bytes_app l k : mb_bytes (l ++ k) = mb_bytes l + mb_bytes k.
Proof. induction l as [|[n s] l IH]; simpl; [done|]. rewrite IH. lia. Qed.

(** Level [k] of a configuration in range: its parameters, and where it lies. *)
Lemma cfg_level cfg k n s :
  cfg_ok cfg → mb_bytes cfg < 2 ^ 32 → cfg !! k = Some (n, s) →
  0 ≤ n ≤ MSG_MAX_BLK_NUM ∧ 0 < s ∧ 0 < MB_BLOCK_SIZE s ∧ n * MB_BLOCK_SIZE s < 2 ^ 32 ∧
  0 ≤ mb_bytes (take k cfg) ∧ mb_bytes (take k cfg) + n * MB_BLOCK_SIZE s ≤ mb_bytes cfg ∧
  ∀ k', (k < k')%nat → mb_bytes (take k cfg) + n * MB_BLOCK_SIZE s ≤ mb_bytes (take k' cfg).
Proof.
  intros Hok Hb Hc. pose proof Hok as Hok'. unfold cfg_ok in Hok'. rewrite Forall_lookup in Hok'.
  pose proof (Hok' _ _ Hc) as [? ?].
  assert (0 < MB_BLOCK_SIZE s) by (unfold MB_BLOCK_SIZE, MB_HEAD_LEN; lia).
  pose proof (mb_bytes_nonneg (take k cfg) (Forall_take _ _ _ Hok)).
  assert (∀ l, cfg_ok l → l !! k = Some (n, s) → take k l = take k cfg →
     mb_bytes (take k cfg) + n * MB_BLOCK_SIZE s ≤ mb_bytes l) as Hgen.
  { intros l Hl Hk Ht. rewrite <- (take_drop_middle _ _ _ Hk), mb_bytes_app, Ht; simpl.
    pose proof (mb_bytes_nonneg (drop (S k) l) (Forall_drop _ _ _ Hl)). lia. }
  pose proof (Hgen cfg Hok Hc eq_refl).
  split_and!; try (done || lia).
  intros k' Hk'. apply Hgen; [by apply Forall_take|by rewrite lookup_take_lt|].
  rewrite take_take. f_equal. lia.
Qed.

Lemma init_level_at m base cfg h lvs h' k lv :
  cfg_ok cfg → mb_bytes cfg < 2 ^ 32 → init_levels m 0 base cfg h = (lvs, h', true) →
  lvs !! k = Some lv →
  ∃ n s, cfg !! k = Some (n, s) ∧ lv = level_of (base + mb_bytes (take k cfg)) n s.
Proof.
  intros Hok Hb Hi Hk. rewrite (init_levels_lookup _ _ _ _ _ _ _ Hok Hb Hi) in Hk.
  destruct (cfg !! k) as [[n s]|]; [|done]. injection Hk as <-. eauto.
Qed.

Lemma level_of_length base n s :
  0 ≤ n → Z.of_nat (length (pMsg (level_of base n s))) = n.
Proof.
  intros Hn. simpl. destruct (0 <? n) eqn:E; bool_to_prop; [|simpl; lia].
  unfold level_blocks. rewrite length_map, length_seq. lia.
Qed.

(** The context [MB_Init] builds when nothing fails. *)
Lemma init_context_wf m base cfg lvs h nm tn ts :
  0 < base → cfg_ok cfg → mb_bytes cfg < 2 ^ 32 →
  init_levels m 0 base cfg ∅ = (lvs, h, true) →
  wf (mkCtx (pad_levels lvs) ts tn (length cfg) base nm h) ∧
  ∀ p, ¬ live (mkCtx (pad_levels lvs) ts tn (length cfg) base nm h) p.
Proof.
  intros Hbase Hok Hb Hi.
  pose proof (λ k lv, init_level_at _ _ _ _ _ _ k lv Hok Hb Hi) as Hlv.
  destruct (init_levels_heads _ _ _ _ _ _ _ Hok Hb Hi) as (_ & Hin & Hinv).
  assert (∀ i, is_used h i = false) as Hfree.
  { intros a. unfold is_used. destruct (h !! a) as [hd|] eqn:Ha; [|done].
    apply Hinv in Ha as [?|(k & lv & j & _ & _ & ->)]; [by rewrite lookup_empty in H|done]. }
  split; [|intros p; unfold live; simpl; by rewrite Hfree].
  split; simpl.
  - intros i lv [Hi'|[-> _]]%pad_levels_lookup Hsz; [|simpl in *; lia].
    destruct (Hlv _ _ Hi') as (n & s' & Hc & ->).
    destruct (cfg_level _ _ _ _ Hok Hb Hc) as ([? ?] & _). by apply (level_of_length _ n s').
  - intros i lv [Hi'|[-> _]]%pad_levels_lookup; [|simpl; lia].
    destruct (Hlv _ _ Hi') as (n & s' & Hc & ->).
    destruct (cfg_level _ _ _ _ Hok Hb Hc) as ([? ?] & _). rewrite level_of_length by done.
    unfold MSG_MAX_BLK_NUM in *. lia.
  - intros i lv j a [Hi'|[-> _]]%pad_levels_lookup Hj; [|by destruct j].
    rewrite (Hin _ _ _ _ Hi' Hj). eexists; split_and!; simpl; [done|done|done|by left].
  - intros a hd Ha. apply Hinv in Ha as [?|(k & lv & j & Hk & Hj & ->)]; [by rewrite lookup_empty in H|].
    simpl. destruct (Hlv _ _ Hk) as (n & s' & Hc & ->).
    destruct (cfg_level _ _ _ _ Hok Hb Hc) as ([? _] & ? & ? & ? & ? & _). split.
    + pose proof Hj as [-> ?]%level_of_lookup; [|lia..]. nia.
    + eexists; split; [by apply lookup_app_l_Some|done].
  - intros i lv [Hi'|[-> _]]%pad_levels_lookup; [|done].
    destruct (Hlv _ _ Hi') as (n & s' & Hc & ->). simpl used.
    rewrite (countP_ext _ (λ _, false) _ (pMsg (level_of (base + mb_bytes (take i cfg)) n s'))).
    + clear. induction (pMsg _) as [|x l IH]; [done|]. rewrite countP_cons. lia.
    + apply Forall_Forall2_diag, Forall_forall. intros; apply Hfree.
Qed.

(** Where the blocks lie: inside the area, pairwise disjoint. *)
Record area_ok (c : MB_CONTEXT_S) (size : Z) : Prop := {
  area_in i lv j a : mb c !! i = Some lv → pMsg lv !! j = Some a →
    s_pMsgBuf c ≤ a ∧ a + blocksize lv ≤ s_pMsgBuf c + size;
  area_disjoint i1 lv1 j1 a1 i2 lv2 j2 a2 :
    mb c !! i1 = Some lv1 → pMsg lv1 !! j1 = Some a1 →
    mb c !! i2 = Some lv2 → pMsg lv2 !! j2 = Some a2 →
    (i1, j1) ≠ (i2, j2) → a1 + blocksize lv1 ≤ a2 ∨ a2 + blocksize lv2 ≤ a1
}.

Lemma init_context_area m base cfg lvs h nm tn ts :
  cfg_ok cfg → mb_bytes cfg < 2 ^ 32 →
  init_levels m 0 base cfg ∅ = (lvs, h, true) →
  area_ok (mkCtx (pad_levels lvs) ts tn (length cfg) base nm h) (mb_bytes cfg).
Proof.
  intros Hok Hb Hi.
  assert (∀ i lv j a, pad_levels lvs !! i = Some lv → pMsg lv !! j = Some a →
    ∃ n s, cfg !! i = Some (n, s) ∧ blocksize lv = MB_BLOCK_SIZE s ∧ Z.of_nat j < n ∧
           a = base + mb_bytes (take i cfg) + Z.of_nat j * MB_BLOCK_SIZE s) as Hat.
  { intros i lv j a [Hi'|[-> _]]%pad_levels_lookup Hj; [|by destruct j].
    destruct (init_level_at _ _ _ _ _ _ _ _ Hok Hb Hi Hi') as (n & s & Hc & ->).
    destruct (cfg_level _ _ _ _ Hok Hb Hc) as (? & ? & ? & ? & _).
    exists n, s. apply level_of_lookup in Hj as [-> ?]; [done|lia..]. }
  split; simpl.
  - intros i lv j a Hi' Hj. destruct (Hat _ _ _ _ Hi' Hj) as (n & s & Hc & -> & ? & ->).
    destruct (cfg_level _ _ _ _ Hok Hb Hc) as (? & ? & ? & ? & ? & ? & _). nia.
  - intros i1 lv1 j1 a1 i2 lv2 j2 a2 H1 Hj1 H2 Hj2 Hne.
    destruct (Hat _ _ _ _ H1 Hj1) as (n1 & s1 & Hc1 & -> & ? & ->).
    destruct (Hat _ _ _ _ H2 Hj2) as (n2 & s2 & Hc2 & -> & ? & ->).
    destruct (cfg_level _ _ _ _ Hok Hb Hc1) as (? & ? & ? & ? & ? & ? & Hafter1).
    destruct (cfg_level _ _ _ _ Hok Hb Hc2) as (? & ? & ? & ? & ? & ? & Hafter2).
    destruct (Nat.lt_trichotomy i1 i2) as [Hlt|[->|Hlt]].
    + left. specialize (Hafter1 _ Hlt). nia.
    + simplify_eq. assert (j1 ≠ j2) by congruence. nia.
    + right. specialize (Hafter2 _ Hlt). nia.
Qed.

(** *** The sums and the memory [MB_Init] asks for *)

Lemma sum_mb_sizes_fold cfg acc p :
  u32 (fold_left (λ a '(n, s), a + each_mb_size n s) cfg (p + acc)) = u32 (p + sum_mb_sizes cfg acc).
Proof.
  revert acc. induction cfg as [|[n s] cfg IH]; intros acc; simpl; [done|].
  rewrite <- IH. clear IH.
  assert (∀ x y, u32 x = u32 y →
    u32 (fold_left (λ a '(n, s), a + each_mb_size n s) cfg x) =
    u32 (fold_left (λ a '(n, s), a + each_mb_size n s) cfg y)) as Hcong.
  { induction cfg as [|[n' s'] cfg IH]; intros x y Hxy; simpl; [done|]. apply IH.
    by rewrite <- u32_add_l, Hxy, u32_add_l. }
  apply Hcong. rewrite (Z.add_comm p (u32 _)), u32_add_l. f_equal. lia.
Qed.

Lemma init_levels_total m i base cfg h lvs h' acc :
  init_levels m i base cfg h = (lvs, h', true) →
  sum_mb_sizes cfg acc = fold_left (λ a lv, u32 (a + u32 (blocknum lv * blocksize lv))) lvs acc.
Proof.
  revert i base h lvs acc. induction cfg as [|[n s] cfg IH]; intros i base h lvs acc Hi; simpl in Hi.
  { by injection Hi as <- _. }
  destruct (init_level m i base n s) as [lv|] eqn:Hlv; [|done].
  destruct (init_levels _ _ _ cfg _) as [[lvs' h''] ok] eqn:Hrec. injection Hi as <- <- ->.
  simpl. rewrite (IH _ _ _ _ _ Hrec). do 2 f_equal. f_equal.
  unfold init_level in Hlv. repeat case_match; by simplify_eq.
Qed.

Lemma arr_chunk_in i0 n lvs c :
  c ∈ flat_map (λ '(i, lv), match pMsg lv with [] => [] | _ => [ChunkArr i] end) (zip (seq i0 n) lvs) ↔
  ∃ k lv, (k < n)%nat ∧ lvs !! k = Some lv ∧ pMsg lv ≠ [] ∧ c = ChunkArr (i0 + k).
Proof.
  rewrite list_elem_of_In, in_flat_map. split.
  - intros ([i lv] & Hin & Hc). apply list_elem_of_In, list_elem_of_lookup in Hin as [k Hk].
    apply lookup_zip_with_Some in Hk as (i' & lv' & [= <- <-] & [-> Hk]%lookup_seq & Hlv).
    exists k, lv. destruct (pMsg lv); simpl in Hc; [done|]. destruct Hc as [<-|[]]. done.
  - intros (k & lv & Hk & Hlv & Hne & ->). exists ((i0 + k)%nat, lv). split.
    + apply list_elem_of_In, list_elem_of_lookup. exists k. apply lookup_zip_with_Some.
      exists (i0 + k)%nat, lv. split_and!; [done| |done]. by apply lookup_seq.
    + destruct (pMsg lv); [done|]. by left.
Qed.

Lemma arr_chunks_NoDup i0 n lvs :
  NoDup (flat_map (λ '(i, lv), match pMsg lv with [] => [] | _ => [ChunkArr i] end) (zip (seq i0 n) lvs)).
Proof.
  revert i0 lvs. induction n as [|n IH]; intros i0 [|lv lvs]; simpl; try apply NoDup_nil_2.
  destruct (pMsg lv); simpl; [apply IH|]. apply NoDup_cons. split; [|apply IH].
  rewrite arr_chunk_in. intros (k & lv' & _ & _ & _ & [= ?]). lia.
Qed.

(** What [MB_Deinit] frees when [lvs] were set up and nothing else. *)
Lemma deinit_chunks lvs n ts tn base nm h :
  (length lvs ≤ n)%nat →
  Permutation (MB_Deinit (Some (mkCtx (pad_levels lvs) ts tn n base nm h)))
              ([ChunkCtx; ChunkBuf] ++ arr_chunks lvs).
Proof.
  intros Hn. unfold MB_Deinit, arr_chunks; simpl.
  apply NoDup_Permutation.
  - apply NoDup_app. split_and!.
    + apply arr_chunks_NoDup.
    + intros x Hx. apply arr_chunk_in in Hx as (? & ? & _ & _ & _ & ->). set_solver.
    + repeat constructor; set_solver.
  - rewrite !NoDup_cons. split_and!; [| |apply arr_chunks_NoDup].
    + rewrite elem_of_cons, arr_chunk_in. by intros [?|(? & ? & _ & _ & _ & ?)].
    + rewrite arr_chunk_in. by intros (? & ? & _ & _ & _ & ?).
  - intros x. rewrite elem_of_app, !elem_of_cons, !arr_chunk_in, elem_of_nil.
    assert ((∃ k lv, (k < n)%nat ∧ pad_levels lvs !! k = Some lv ∧ pMsg lv ≠ [] ∧ x = ChunkArr (0 + k)) ↔
            (∃ k lv, (k < length lvs)%nat ∧ lvs !! k = Some lv ∧ pMsg lv ≠ [] ∧ x = ChunkArr (0 + k)))
      as ->; [|tauto].
    split; intros (k & lv & Hk & Hlv & Hne & ->); exists k, lv.
    + apply pad_levels_lookup in Hlv as [Hlv|[-> _]]; [|done].
      split_and!; [by eapply lookup_lt_Some|done..].
    + split_and!; [lia|by apply lookup_app_l_Some|done..].
Qed.

Lemma chunks_minus_nil l k : (∀ c, c ∈ l → c ∈ k) → chunks_minus l k = [].
Proof.
  intros H. unfold chunks_minus. induction l as [|c l IH]; simpl; [done|].
  rewrite bool_decide_eq_true_2 by (apply H; left). simpl. apply IH. intros; apply H. by right.
Qed.

Lemma init_levels_le m i base cfg h lvs h' ok :
  init_levels m i base cfg h = (lvs, h', ok) → (length lvs ≤ length cfg)%nat.
Proof.
  revert i base h lvs ok. induction cfg as [|[n s] cfg IH]; intros i base h lvs ok Hi; simpl in Hi.
  { by injection Hi as <- _ _. }
  destruct (init_level m i base n s); [|injection Hi as <- _ _; simpl; lia].
  destruct (init_levels _ _ _ cfg _) as [[lvs' h''] ok'] eqn:Hrec. injection Hi as <- <- ->.
  simpl. apply IH in Hrec. lia.
Qed.

(** A refused or failed initialisation: the code is negative, nothing is left. *)
Ltac mb_fails := do 3 eexists; split; [done|]; split; [reflexivity|done].

Lemma init_total m null b :
  match b with Some b => buf_ok b | None => True end →
  ∃ ret h l, MB_Init m null b = Returned (ret, h, l) ∧
    match h with
    | None => ret < 0 ∧ l = []
    | Some c => ret = 0 ∧ Permutation (MB_Deinit (Some c)) l
    end.
Proof.
  intros Hb. unfold MB_Init. destruct null; [mb_fails|]. destruct b as [b|]; [|mb_fails].
  destruct (mb_params_ok b) eqn:Hok; cbn [negb]; [|mb_fails].
  destruct (cfg_of_ok _ Hb Hok) as (_ & Hlen & _). fold (cfg_of b).
  destruct (malloc_ctx m); cbn [negb]; [|mb_fails].
  destruct (malloc_buf m _) as [p|]; [|mb_fails].
  pose proof (sum_mb_sizes_fold (cfg_of b) 0 p) as Hsum. rewrite Z.add_0_r in Hsum.
  unfold oassert. rewrite Hsum, Z.eqb_refl.
  destruct (init_levels m 0 p (cfg_of b) ∅) as [[lvs h] ok] eqn:Hi.
  pose proof (init_levels_le _ _ _ _ _ _ _ _ Hi) as Hle. rewrite Hlen in Hle.
  destruct ok; cbn [negb].
  - rewrite (init_levels_total _ _ _ _ _ _ _ 0 Hi). cbn [total_size]. rewrite Z.eqb_refl. do 3 eexists; split; [done|].
    split; [done|]. by apply deinit_chunks.
  - do 3 eexists; split; [done|]. split; [reflexivity|]. apply chunks_minus_nil. intros c Hc.
    by rewrite deinit_chunks by done.
Qed.

(** ** Properties *)

(** C23: [MB_Init] always returns: neither of its [ASSERT]s can end the process,
    whatever the configuration and whatever [malloc] answers.  When it fails it
    leaves nothing allocated; when it succeeds [MB_Deinit] of the context frees
    exactly what is allocated. *)
Theorem MB_Init_returns m null b :
  match b with Some b => buf_ok b | None => True end →
  ∃ ret h l, MB_Init m null b = Returned (ret, h, l) ∧
    match h with
    | None => ret < 0 ∧ l = []
    | Some c => ret = 0 ∧ Permutation (MB_Deinit (Some c)) l
    end.
Proof. apply init_total. Qed.

Lemma MB_Init_success m b c l :
  buf_ok b → MB_Init m false (Some b) = Returned (0, Some c, l) →
  ∃ p lvs h ts tn, malloc_buf m (sum_mb_sizes (cfg_of b) 0) = Some p ∧
    init_levels m 0 p (cfg_of b) ∅ = (lvs, h, true) ∧ cfg_ok (cfg_of b) ∧
    c = mkCtx (pad_levels lvs) ts tn (length (cfg_of b)) p (mb_name (name b)) h.
Proof.
  intros Hb. unfold MB_Init. destruct (mb_params_ok b) eqn:Hok; simpl; [|done].
  destruct (cfg_of_ok _ Hb Hok) as (Hcfg & Hlen & _). fold (cfg_of b).
  destruct (malloc_ctx m); simpl; [|done].
  destruct (malloc_buf m _) as [p|] eqn:Hp; [|done]. unfold oassert.
  destruct (u32 _ =? _); [|done].
  destruct (init_levels m 0 p (cfg_of b) ∅) as [[lvs h] ok] eqn:Hi.
  destruct ok; cbn [negb]; [|done]. destruct (_ =? _); [|done]. intros [= <- _].
  rewrite <- Hlen. eauto 10.
Qed.

(** When the sizes add up to less than 2^32, a context that [MB_Init]
    returns is well formed with every block free, and its blocks lie inside the
    allocated area and do not overlap. *)
Theorem MB_Init_wf m b c l :
  buf_ok b → mb_bytes (cfg_of b) < 2 ^ 32 →
  (∀ n p, malloc_buf m n = Some p → 0 < p) →
  MB_Init m false (Some b) = Returned (0, Some c, l) →
  wf c ∧ (∀ p, ¬ live c p) ∧ area_ok c (mb_bytes (cfg_of b)).
Proof.
  intros Hb Hsum Hpos Hinit.
  destruct (MB_Init_success _ _ _ _ Hb Hinit) as (p & lvs & h & ts & tn & Hp & Hi & Hok & ->).
  destruct (init_context_wf m p _ lvs h (mb_name (name b)) tn ts (Hpos _ _ Hp) Hok Hsum Hi).
  split_and!; [done..|]. by apply init_context_area with (m := m).
Qed.

Definition queue_cfg : VTOP_MSG_S_Buffer := mkBufCfg [128; 8; 0; 0] [256; 512; 0; 0] "task".
Definition plain_malloc : mb_malloc := mkMalloc true (λ _, Some 4096) (λ _, true).
Definition queue_ctx : MB_CONTEXT_S :=
  match MB_Init plain_malloc false (Some queue_cfg) with
  | Returned (_, Some c, _) => c
  | _ => mkCtx [] 0 0 0 0 "" ∅
  end.

Lemma queue_cfg_ok : buf_ok queue_cfg.
Proof. split_and!; try done; repeat (apply Forall_cons; split; [lia|]); apply Forall_nil_2. Qed.

Lemma queue_ctx_init :
  MB_Init plain_malloc false (Some queue_cfg) =
  Returned (0, Some queue_ctx, [ChunkCtx; ChunkBuf; ChunkArr 0; ChunkArr 1]).
Proof. vm_compute. reflexivity. Qed.

Lemma MB_Init_returns_witness :
  ∃ ret h l, MB_Init plain_malloc false (Some queue_cfg) = Returned (ret, h, l) ∧
    match h with
    | None => ret < 0 ∧ l = []
    | Some c => ret = 0 ∧ Permutation (MB_Deinit (Some c)) l
    end.
Proof. apply (MB_Init_returns plain_malloc false (Some queue_cfg)). exact queue_cfg_ok. Defined.

Lemma MB_Init_wf_witness :
  wf queue_ctx ∧ (∀ p, ¬ live queue_ctx p) ∧ area_ok queue_ctx (mb_bytes (cfg_of queue_cfg)).
Proof.
  apply (MB_Init_wf plain_malloc queue_cfg queue_ctx [ChunkCtx; ChunkBuf; ChunkArr 0; ChunkArr 1]).
  - exact queue_cfg_ok.
  - vm_compute. reflexivity.
  - intros n p [= <-]. lia.
  - exact queue_ctx_init.
Defined.

(** C6: [MB_Alloc] on a well-formed context always returns, keeps it well
    formed, and follows its policy: the first level whose blocks are large
    enough, the first free block of that level; when it answers NULL the
    context is unchanged and either no level fits or the first one that does is
    full. *)
Theorem MB_Alloc_correct c size :
  wf c →
  ∃ r c', MB_Alloc c size = Returned (r, c') ∧ wf c' ∧ alloc_result c size (r, c') ∧
    match r with
    | Some p => ¬ live c p ∧ ∀ q, live c' q ↔ live c q ∨ q = p
    | None => c' = c
    end.
Proof.
  intros Hwf. destruct (MB_Alloc_cases c size Hwf) as ([r c'] & Hr & Hcase).
  exists r, c'. destruct r as [p|].
  - destruct (alloc_some_spec _ _ _ _ Hwf Hr) as (_ & ? & ? & ? & _). done.
  - apply alloc_none_spec in Hr as Heq; [|done]. subst. done.
Qed.

Lemma queue_ctx_wf : wf queue_ctx.
Proof.
  destruct (MB_Init_success _ _ _ _ queue_cfg_ok queue_ctx_init) as (p & lvs & h & ts & tn & Hp & Hi & Hok & ->).
  apply (init_context_wf plain_malloc p); [by injection Hp as <-|done|by vm_compute|done].
Qed.

Lemma MB_Alloc_correct_witness :
  ∃ r c', MB_Alloc queue_ctx 300 = Returned (r, c') ∧ wf c' ∧ alloc_result queue_ctx 300 (r, c') ∧
    match r with
    | Some p => ¬ live queue_ctx p ∧ ∀ q, live c' q ↔ live queue_ctx q ∨ q = p
    | None => c' = queue_ctx
    end.
Proof. apply (MB_Alloc_correct queue_ctx 300). exact queue_ctx_wf. Defined.

(** Freeing the block just allocated gives back the context as it was. *)
Theorem MB_Alloc_Free c size p c' :
  wf c → MB_Alloc c size = Returned (Some p, c') → MB_Free c' p = Returned c.
Proof.
  intros Hwf Halloc. destruct (alloc_some_spec _ _ _ _ Hwf Halloc) as (_ & Hwf' & _).
  destruct (MB_Alloc_cases c size Hwf) as (r & Hr & Hcase).
  rewrite Halloc in Hr. injection Hr as <-.
  inversion Hcase as [| |i lv j a hd Hi Hlv Hfit Hfirst Hj Ha Hfl Hprev]; subst.
  destruct (wf_heads _ Hwf _ _ _ _ Hlv Hj) as (hd' & ? & Hbi & _ & _). simplify_eq.
  rewrite (free_live_eq _ _ (set_flag hd 1) (set_used lv (used lv + 1))); [|done| | |].
  - f_equal. destruct c as [mbs ts tn mn ar nm hs]. unfold set_level, set_head, set_flag, set_used; simpl in *.
    rewrite !Z.add_simpl_r, (insert_insert_eq hs). f_equal.
    + rewrite list_insert_insert_eq. apply list_insert_id. rewrite Hlv. by destruct lv.
    + apply insert_id. rewrite Ha. destruct hd; simpl in *. by subst.
  - simpl. by rewrite Z.add_simpl_r, lookup_insert_eq.
  - done.
  - simpl. apply list_lookup_insert_eq. by eapply lookup_lt_Some.
Qed.

Definition queue_ctx1 : MB_CONTEXT_S :=
  match MB_Alloc queue_ctx 300 with Returned (_, c) => c | _ => queue_ctx end.

Lemma MB_Alloc_Free_witness :
  MB_Alloc queue_ctx 300 = Returned (Some 39960, queue_ctx1) ∧ MB_Free queue_ctx1 39960 = Returned queue_ctx.
Proof.
  assert (MB_Alloc queue_ctx 300 = Returned (Some 39960, queue_ctx1)) as H by (vm_compute; reflexivity).
  split; [exact H|]. exact (MB_Alloc_Free queue_ctx 300 39960 queue_ctx1 queue_ctx_wf H).
Defined.

(** The bounds [MB_Init] checks do not keep the area's size in range: the
    largest accepted level asks [malloc] for 393216 bytes only, because the
    product wraps, while its blocks are laid out up to 2^32 bytes further. *)
Theorem MB_Init_size_wraps :
  ∃ b, buf_ok b ∧ mb_params_ok b = true ∧ sum_mb_sizes (cfg_of b) 0 = 393216 ∧
       mb_bytes (cfg_of b) = 2 ^ 32 + 393216.
Proof.
  exists (mkBufCfg [16384; 0; 0; 0] [262144; 0; 0; 0] "big").
  split; [|split_and!; vm_compute; reflexivity].
  split_and!; try done; repeat (apply Forall_cons; split; [lia|]); apply Forall_nil_2.
Qed.

End MB.
