(* ===== verification/MsgQueue.v ===== *)
(** The per-task message queues of [msg_queue.c].  A queue keeps a list of
    nodes that live in the heads of its message buffers; a message put is
    copied into a block of the pool, a message got stays in its block until it
    is freed.  The operations are written against the pool's contract
    ([MsgPool]); [MSG_QueueInit] and [MSG_QueueDeinit] build and tear down the
    pool of [msg_buffer.c] itself. *)

From S2P Require Import Prelude MsgDefs MsgPool MsgBuffer.

Module MQ.

(** [nodes] holds the [priv_data] of the queue nodes, [cells] the content of
    the message buffers, both by address. *)
Record MSG_QUEUE_S (P : Type) := mkQueue {
  num : Z;
  qlist : list Z;
  bufHandle : P;
  nodes : gmap Z Z;
  cells : gmap Z msg_cell
}.
Arguments mkQueue {P}.
Arguments num {P}.
Arguments qlist {P}.
Arguments bufHandle {P}.
Arguments nodes {P}.
Arguments cells {P}.

Section Operations.
Context {P : Type} `{!MsgPool P}.

(** The checks of [MSG_QueuePut] on the message itself. *)
Definition put_check (m : VTOP_MSG_S_InnerBlock) : option Z :=
  let len := ulMsgLen (msg m) in
  let body := pMsgBody (msg m) in
  if VTOP_MSG_MAX_MSG_SIZE <? len then Some VTOP_MSG_ERR_MSGSIZE
  else if ((body =? NULL) && negb (len =? 0)) || (negb (body =? NULL) && (len =? 0))
  then Some VTOP_MSG_ERR_INVALIDPARA
  else None.

(** [MSG_QueuePut]; [bytes] are the bytes at [pMsgBody]. *)
Definition MSG_QueuePut (handle : option (MSG_QUEUE_S P)) (pMsg : option VTOP_MSG_S_InnerBlock)
    (bytes : list Z) : outcome (Z * option (MSG_QUEUE_S P)) :=
  match handle, pMsg with
  | Some q, Some m =>
      match put_check m with
      | Some err => Returned (err, handle)
      | None =>
          let! (r, p) := pool_alloc (bufHandle q) (u32 (ulMsgLen (msg m) + MSG_INNER_HEAD_LEN)) in
          match r with
          | None => Returned (-1, Some (mkQueue (num q) (qlist q) p (nodes q) (cells q)))
          | Some pBuf =>
              let pNode := MB.MB_GetQNode pBuf in
              Returned (HI_SUCCESS,
                Some (mkQueue (s32 (num q + 1)) (qlist q ++ [pNode]) p
                        (<[pNode := pBuf]> (nodes q))
                        (<[pBuf := MSG_COPY2BUF pBuf m bytes]> (cells q))))
          end
      end
  | _, _ => Returned (VTOP_MSG_ERR_INVALIDPARA, handle)
  end.

(** [MSG_QueueGet]: the address written through [ppMsg], if any. *)
Definition MSG_QueueGet (handle : option (MSG_QUEUE_S P)) (ppMsg_null : bool)
  : outcome (Z * option Z * option (MSG_QUEUE_S P)) :=
  match handle, ppMsg_null with
  | Some q, false =>
      match qlist q with
      | [] => Returned (HI_FAILURE, None, handle)
      | pNode :: rest =>
          let! pMsg := oderef (nodes q !! pNode) in
          Returned (HI_SUCCESS, Some pMsg,
                    Some (mkQueue (s32 (num q - 1)) rest (bufHandle q) (nodes q) (cells q)))
      end
  | _, _ => Returned (VTOP_MSG_ERR_INVALIDPARA, None, handle)
  end.

(** The loop of [MSG_QueueGetMerge] over the rest of the list: the nodes that
    stay, the pool, the count and the last message taken. *)
Fixpoint merge_loop (nds : gmap Z Z) (cls : gmap Z msg_cell) (msgtype : Z)
    (l : list Z) (p : P) (n : Z) (last : Z) : outcome (list Z * P * Z * Z) :=
  match l with
  | [] => Returned ([], p, n, last)
  | pNode :: l' =>
      let! pInnerMsg := oderef (nds !! pNode) in
      let! c := oderef (cls !! pInnerMsg) in
      if msgtype =? msgType (msg (cell_head c))
      then let! p' := pool_free p last in
           merge_loop nds cls msgtype l' p' (s32 (n - 1)) pInnerMsg
      else let! (kept, p', n', last') := merge_loop nds cls msgtype l' p n last in
           Returned (pNode :: kept, p', n', last')
  end.

Definition MSG_QueueGetMerge (handle : option (MSG_QUEUE_S P)) (msgtype : Z)
  : outcome (Z * option Z * option (MSG_QUEUE_S P)) :=
  match handle with
  | None => Returned (HI_FAILURE, None, handle)
  | Some q =>
      match qlist q with
      | [] => Returned (HI_FAILURE, None, handle)
      | pNode :: rest =>
          let! first := oderef (nodes q !! pNode) in
          let! (kept, p, n, last) :=
            merge_loop (nodes q) (cells q) msgtype rest (bufHandle q) (s32 (num q - 1)) first in
          Returned (HI_SUCCESS, Some last, Some (mkQueue n kept p (nodes q) (cells q)))
      end
  end.

(** [MSG_QueueFree]: gives the block of a received message back. *)
Definition MSG_QueueFree (handle : option (MSG_QUEUE_S P)) (pMsg : Z)
  : outcome (option (MSG_QUEUE_S P)) :=
  match handle with
  | Some q =>
      if pMsg =? NULL then Returned handle
      else let! p := pool_free (bufHandle q) pMsg in
           Returned (Some (mkQueue (num q) (qlist q) p (nodes q) (cells q)))
  | None => Returned handle
  end.

Fixpoint remove_loop (nds : gmap Z Z) (l : list Z) (p : P) : outcome P :=
  match l with
  | [] => Returned p
  | pNode :: l' =>
      let! d := oderef (nds !! pNode) in
      let! p' := pool_free p d in
      remove_loop nds l' p'
  end.

(** [MSG_QueueRemove]: unlinks and frees every pending message; [num] is not
    touched. *)
Definition MSG_QueueRemove (handle : option (MSG_QUEUE_S P)) : outcome (option (MSG_QUEUE_S P)) :=
  match handle with
  | None => Returned None
  | Some q =>
      let! p := remove_loop (nodes q) (qlist q) (bufHandle q) in
      Returned (Some (mkQueue (num q) [] p (nodes q) (cells q)))
  end.

End Operations.

(** The buffer configuration every queue is created with. *)
Definition queue_buffer (name : string) : MB.VTOP_MSG_S_Buffer :=
  MB.mkBufCfg [128; 8; 0; 0] [256; 512; 0; 0] name.

(** [MSG_QueueInit]: [malloc_q] is the answer to the queue's own [malloc]. *)
Definition MSG_QueueInit (malloc_q : bool) (m : MB.mb_malloc) (name : string) (bufsize : Z)
  : outcome (Z * option (MSG_QUEUE_S MB.MB_CONTEXT_S)) :=
  if bufsize <? 1024 then Returned (HI_FAILURE, None)
  else if negb malloc_q then Returned (-1, None)
  else let! (ret, h, _) := MB.MB_Init m false (Some (queue_buffer name)) in
       if negb (ret =? 0) then Returned (-1, None)
       else match h with
            | Some ctx => Returned (HI_SUCCESS, Some (mkQueue 0 [] ctx ∅ ∅))
            | None => Undefined
            end.

(** [MSG_QueueDeinit]: the queue is gone afterwards; the result is the memory
    of the pool that is freed. *)
Definition MSG_QueueDeinit (handle : option (MSG_QUEUE_S MB.MB_CONTEXT_S))
  : outcome (list MB.mb_chunk) :=
  match handle with
  | None => Returned []
  | Some q =>
      let! r := MSG_QueueRemove (Some q) in
      Returned (match r with Some q' => MB.MB_Deinit (Some (bufHandle q')) | None => [] end)
  end.

(** ** Specification

    What a queue promises, without nodes, lists of buffers or counters: the
    pending messages in order, each with the buffer it is in, and the set of
    buffers handed out by a get and not freed yet. *)
Record squeue := mkS { pending : list (Z * msg_cell); held : gset Z }.

Inductive qop :=
  | OpPut (m : VTOP_MSG_S_InnerBlock) (bytes : list Z)
  | OpGet
  | OpMerge (msgtype : Z)
  | OpFree (b : Z).

Definition has_type (ty : Z) (e : Z * msg_cell) : bool := msgType (msg (cell_head (snd e))) =? ty.

Inductive spec_step : squeue → qop → Z → option Z → squeue → Prop :=
  | spec_put_refused s m bytes err :
      put_check m = Some err → spec_step s (OpPut m bytes) err None s
  | spec_put_full s m bytes :
      put_check m = None → spec_step s (OpPut m bytes) (-1) None s
  | spec_put s m bytes b :
      put_check m = None → b ≠ 0 → b ∉ (pending s).*1 → b ∉ held s →
      spec_step s (OpPut m bytes) 0 None
        (mkS (pending s ++ [(b, MSG_COPY2BUF b m bytes)]) (held s))
  | spec_get_empty s : pending s = [] → spec_step s OpGet (-1) None s
  | spec_get s b c rest :
      pending s = (b, c) :: rest → spec_step s OpGet 0 (Some b) (mkS rest ({[b]} ∪ held s))
  | spec_merge_empty s ty : pending s = [] → spec_step s (OpMerge ty) (-1) None s
  | spec_merge s ty e rest b :
      pending s = e :: rest →
      b = fst (default e (last (List.filter (has_type ty) rest))) →
      spec_step s (OpMerge ty) 0 (Some b)
        (mkS (List.filter (λ x, negb (has_type ty x)) rest) ({[b]} ∪ held s))
  | spec_free s b :
      b ∈ held s → spec_step s (OpFree b) 0 None (mkS (pending s) (held s ∖ {[b]})).

(** One operation of the implementation, with the results in a common shape. *)
Definition run_op {P} `{!MsgPool P} (q : MSG_QUEUE_S P) (o : qop)
  : outcome (Z * option Z * option (MSG_QUEUE_S P)) :=
  match o with
  | OpPut m bytes => let! (r, h) := MSG_QueuePut (Some q) (Some m) bytes in Returned (r, None, h)
  | OpGet => MSG_QueueGet (Some q) false
  | OpMerge ty => MSG_QueueGetMerge (Some q) ty
  | OpFree b => let! h := MSG_QueueFree (Some q) b in Returned (0, None, h)
  end.

(** ** Refinement *)

Section Refinement.
Context {P : Type} `{!MsgPool P}.
Implicit Types (q : MSG_QUEUE_S P) (s : squeue).

Record rep q s : Prop := {
  rep_pool : pool_inv (bufHandle q);
  rep_list : qlist q = MB.MB_GetQNode <$> (pending s).*1;
  rep_nodup : NoDup (pending s).*1;
  rep_cell b c : (b, c) ∈ pending s → nodes q !! MB.MB_GetQNode b = Some b ∧ cells q !! b = Some c;
  rep_live b : pool_live (bufHandle q) b ↔ b ∈ (pending s).*1 ∨ b ∈ held s;
  rep_disj b : b ∈ (pending s).*1 → b ∉ held s;
  rep_nonnull b : pool_live (bufHandle q) b → b ≠ 0;
  rep_num : num q = s32 (Z.of_nat (length (pending s)))
}.

Lemma GetQNode_inj a b : MB.MB_GetQNode a = MB.MB_GetQNode b → a = b.
Proof. unfold MB.MB_GetQNode. lia. Qed.

Lemma run_put q s m bytes :
  rep q s →
  ∃ r q' s', run_op q (OpPut m bytes) = Returned (r, None, Some q') ∧
             spec_step s (OpPut m bytes) r None s' ∧ rep q' s'.
Proof.
  intros H. simpl. unfold MSG_QueuePut. destruct (put_check m) as [err|] eqn:Hc; simpl.
  { do 3 eexists; split_and!; [done|by apply spec_put_refused|done]. }
  destruct (pool_alloc_total (bufHandle q) (u32 (ulMsgLen (msg m) + MSG_INNER_HEAD_LEN)))
    as [[r p] Ha]; [apply H|]. rewrite Ha; simpl.
  destruct r as [b|]; simpl.
  - apply pool_alloc_some in Ha as (Hnn & Hnl & Hinv & Hlive); [|apply H].
    assert ((b ∉ (pending s).*1) ∧ (b ∉ held s)) as [Hnp Hnh].
    { rewrite (rep_live _ _ H) in Hnl. tauto. }
    do 3 eexists; split_and!; [done|by eapply spec_put|].
    split; simpl.
    + done.
    + rewrite (rep_list _ _ H), !fmap_app. done.
    + rewrite fmap_app; simpl. apply NoDup_app. split_and!; [apply H|set_solver|apply NoDup_singleton].
    + intros b' c [Hin|[= -> ->]%list_elem_of_singleton]%elem_of_app.
      * assert (b' ≠ b) by (intros ->; apply Hnp, list_elem_of_fmap; eexists; split; [|done]; done).
        rewrite !lookup_insert_ne by (by intros ?%GetQNode_inj || done).
        by apply (rep_cell _ _ H).
      * by rewrite !lookup_insert_eq.
    + intros b'. rewrite Hlive, (rep_live _ _ H), fmap_app, elem_of_app; simpl.
      rewrite list_elem_of_singleton. tauto.
    + intros b'. rewrite fmap_app, elem_of_app; simpl. rewrite list_elem_of_singleton.
      intros [Hp| ->]; [by apply (rep_disj _ _ H)|done].
    + intros b' [?| ->]%Hlive; [by eapply rep_nonnull|done].
    + rewrite (rep_num _ _ H), s32_add_l, length_app; simpl. f_equal. lia.
  - apply pool_alloc_none in Ha as ->; [|apply H].
    do 3 eexists; split_and!; [done|by apply spec_put_full|]. by destruct q.
Qed.

Lemma run_get q s :
  rep q s →
  ∃ r o q' s', run_op q OpGet = Returned (r, o, Some q') ∧ spec_step s OpGet r o s' ∧ rep q' s'.
Proof.
  intros H. simpl. unfold MSG_QueueGet. rewrite (rep_list _ _ H).
  destruct (pending s) as [|[b c] rest] eqn:Hp; simpl.
  { do 4 eexists; split_and!; [done|by apply spec_get_empty|done]. }
  destruct (rep_cell _ _ H b c) as [-> _]; [rewrite Hp; left|]. simpl.
  do 4 eexists; split_and!; [done|by eapply spec_get|].
  pose proof (rep_nodup _ _ H) as Hnd. rewrite Hp in Hnd. apply NoDup_cons in Hnd as [Hb Hnd].
  split; simpl.
  - apply H.
  - done.
  - done.
  - intros b' c' Hin. apply (rep_cell _ _ H). rewrite Hp. by right.
  - intros b'. rewrite (rep_live _ _ H), Hp. set_solver.
  - intros b' Hin. pose proof (rep_disj _ _ H b'). rewrite Hp in H0. set_solver.
  - apply H.
  - rewrite (rep_num _ _ H), Hp, <- Z.add_opp_r, s32_add_l. f_equal. simpl. lia.
Qed.

Lemma run_free q s b :
  rep q s → b ∈ held s →
  ∃ q' s', run_op q (OpFree b) = Returned (0, None, Some q') ∧ spec_step s (OpFree b) 0 None s' ∧ rep q' s'.
Proof.
  intros H Hb. assert (pool_live (bufHandle q) b) as Hl by (apply (rep_live _ _ H); by right).
  destruct (pool_free_live _ _ (rep_pool _ _ H) Hl) as (p & Hf & Hinv & Hlive).
  simpl. unfold MSG_QueueFree. replace (b =? NULL) with false.
  2:{ symmetry. apply Z.eqb_neq. by eapply rep_nonnull. }
  rewrite Hf; simpl. do 2 eexists; split_and!; [done|by apply spec_free|].
  split; simpl; try apply H.
  - done.
  - intros b'. rewrite Hlive, (rep_live _ _ H). pose proof (rep_disj _ _ H b').
    destruct (decide (b' = b)); set_solver.
  - intros b' ?%(rep_disj _ _ H). set_solver.
  - intros b' [? _]%Hlive. by eapply rep_nonnull.
Qed.

Lemma default_last_cons {A} (x y : A) l : default x (last (y :: l)) = default y (last l).
Proof. rewrite last_cons. by destruct (last l). Qed.

Lemma last_in_filter {A} (f : A → bool) x l :
  default x (last (List.filter f l)) = x ∧ List.filter f l = [] ∨
  default x (last (List.filter f l)) ∈ List.filter f l.
Proof.
  destruct (last (List.filter f l)) as [y|] eqn:Hl; simpl.
  - right. by apply last_Some_elem_of in Hl.
  - left. by apply last_None in Hl.
Qed.

Lemma merge_loop_spec nds cls ty (es : list (Z * msg_cell)) : ∀ p n e0,
  pool_inv p → NoDup (e0.1 :: es.*1) →
  (∀ b c, (b, c) ∈ es → nds !! MB.MB_GetQNode b = Some b ∧ cls !! b = Some c) →
  (∀ b, b ∈ e0.1 :: es.*1 → pool_live p b) →
  ∃ p', merge_loop nds cls ty (MB.MB_GetQNode <$> es.*1) p (s32 n) e0.1 =
        Returned (MB.MB_GetQNode <$> (List.filter (λ x, negb (has_type ty x)) es).*1, p',
                  s32 (n - Z.of_nat (length (List.filter (has_type ty) es))),
                  fst (default e0 (last (List.filter (has_type ty) es)))) ∧
        pool_inv p' ∧
        ∀ b, pool_live p' b ↔ pool_live p b ∧
             (b ∈ e0.1 :: (List.filter (has_type ty) es).*1 →
              b = fst (default e0 (last (List.filter (has_type ty) es)))).
Proof.
  induction es as [|[b c] es IH]; intros p n e0 Hinv Hnd Hlk Hlive.
  { exists p. simpl. split_and!; [by rewrite Z.sub_0_r|done|]. set_solver. }
  destruct (Hlk b c) as [Hnb Hcb]; [left|].
  rewrite !fmap_cons. cbn [merge_loop List.filter fst].
  rewrite Hnb; cbn [oderef obind]. rewrite Hcb; cbn [oderef obind].
  assert (∀ b' c', (b', c') ∈ es → nds !! MB.MB_GetQNode b' = Some b' ∧ cls !! b' = Some c') as Hlk'.
  { intros; apply Hlk. by right. }
  apply NoDup_cons in Hnd as [He0 Hnd].
  replace (ty =? msgType (msg (cell_head c))) with (has_type ty (b, c)) by apply Z.eqb_sym.
  destruct (has_type ty (b, c)) eqn:Hty; cbn [negb].
  - destruct (pool_free_live p e0.1 Hinv) as (p1 & -> & Hinv1 & Hlive1); [apply Hlive; left|]. cbn [obind].
    replace (s32 (s32 n - 1)) with (s32 (n + -1)) by (by rewrite <- s32_add_l).
    rewrite default_last_cons.
    destruct (IH p1 (n + -1) (b, c)) as (p' & Hm & Hinv' & Hl'); [done|done|done| |].
    { intros b' Hb'. apply Hlive1. split; [apply Hlive; by right|]. set_solver. }
    exists p'. cbn [fst] in Hm. rewrite Hm. split_and!; [cbn [length]; do 4 f_equal; lia|done|].
    intros b'. rewrite Hl', Hlive1. clear IH Hm.
    assert (e0.1 ≠ fst (default (b, c) (last (List.filter (has_type ty) es)))) as Hne.
    { intros Heq. apply He0. simpl. destruct (last_in_filter (has_type ty) (b, c) es) as [[Hd _]|Hd].
      - rewrite Heq, Hd. left.
      - right. rewrite Heq. apply list_elem_of_fmap_2. by eapply filter_sub. }
    simpl. set_solver.
  - destruct (IH p n e0) as (p' & Hm & Hinv' & Hl'); [done| |done| |].
    { apply NoDup_cons. simpl in *. split; [set_solver|]. by apply NoDup_cons in Hnd as [_ ?]. }
    { intros b' Hb'. apply Hlive. set_solver. }
    exists p'. rewrite Hm; simpl. done.
Qed.

Lemma run_merge q s ty :
  rep q s →
  ∃ r o q' s', run_op q (OpMerge ty) = Returned (r, o, Some q') ∧
               spec_step s (OpMerge ty) r o s' ∧ rep q' s'.
Proof.
  intros H. simpl. unfold MSG_QueueGetMerge. rewrite (rep_list _ _ H).
  destruct (pending s) as [|e rest] eqn:Hp.
  { do 4 eexists; split_and!; [done|by apply spec_merge_empty|done]. }
  rewrite !fmap_cons. cbn [obind].
  destruct (rep_cell _ _ H e.1 e.2) as [-> _]; [rewrite Hp; destruct e; left|]. cbn [oderef obind].
  pose proof (rep_nodup _ _ H) as Hnd. rewrite Hp in Hnd.
  destruct (merge_loop_spec (nodes q) (cells q) ty rest (bufHandle q) (num q - 1) e)
    as (p' & -> & Hinv & Hlive); [apply H|done| | |].
  { intros b c Hin. apply (rep_cell _ _ H). rewrite Hp. by right. }
  { intros b Hb. apply (rep_live _ _ H). rewrite Hp. by left. }
  simpl. do 4 eexists; split_and!; [done|by eapply spec_merge|].
  set (bl := fst (default e (last (List.filter (has_type ty) rest)))) in *.
  assert (∀ b, b ∈ rest.*1 ↔ b ∈ (List.filter (has_type ty) rest).*1 ∨
                             b ∈ (List.filter (λ x, negb (has_type ty x)) rest).*1) as Hsplit.
  { intros b. rewrite !list_elem_of_fmap. split.
    - intros (x & -> & Hx). apply (filter_split (has_type ty)) in Hx as [?|?]; [left|right]; eauto.
    - intros [(x & -> & ?%filter_sub)|(x & -> & ?%filter_sub)]; eauto. }
  assert (∀ b, b ∈ (List.filter (has_type ty) rest).*1 →
               b ∉ (List.filter (λ x, negb (has_type ty x)) rest).*1) as Hdis.
  { intros b ([b1 c1] & -> & H1)%list_elem_of_fmap ([b2 c2] & Heq & H2)%list_elem_of_fmap. simpl in Heq; subst.
    apply NoDup_cons in Hnd as [_ Hnd].
    assert (c1 = c2) as -> by (eapply NoDup_fst_inj; [done| |]; by eapply filter_sub).
    rewrite list_elem_of_In, filter_In in H1, H2. destruct (has_type ty (b2, c2)); simpl in *; intuition congruence. }
  assert (bl ∈ e.1 :: (List.filter (has_type ty) rest).*1) as Hbl.
  { unfold bl. destruct (last_in_filter (has_type ty) e rest) as [[-> _]|Hd]; [left|].
    right. by apply list_elem_of_fmap_2. }
  apply NoDup_cons in Hnd as [He Hnd].
  split; simpl.
  - done.
  - done.
  - by apply NoDup_fst_filter.
  - intros b c Hin%filter_sub. apply (rep_cell _ _ H). rewrite Hp. by right.
  - intros b. rewrite Hlive, (rep_live _ _ H), Hp, fmap_cons.
    pose proof (rep_disj _ _ H b) as Hd. rewrite Hp, fmap_cons in Hd.
    pose proof (Hsplit b). pose proof (Hdis b).
    rewrite elem_of_union, elem_of_singleton. rewrite !elem_of_cons in *.
    destruct (decide (b = bl)) as [->|]; [tauto|].
    destruct (decide (b = e.1)) as [->|]; tauto.
  - intros b Hb. pose proof (rep_disj _ _ H b) as Hd. rewrite Hp, fmap_cons in Hd.
    pose proof (Hsplit b). pose proof (Hdis b).
    rewrite elem_of_union, elem_of_singleton. rewrite elem_of_cons in Hbl, Hd.
    intros [->|?]; [|tauto]. destruct Hbl as [Hbl|]; [rewrite Hbl in *; tauto|tauto].
  - intros b [Hb _]%Hlive. by eapply rep_nonnull.
  - rewrite (rep_num _ _ H), Hp. unfold Z.sub. rewrite <- !Z.add_assoc, s32_add_l. f_equal. simpl.
    pose proof (List.filter_length (has_type ty) rest). lia.
Qed.

Lemma remove_loop_spec nds (bs : list Z) : ∀ p,
  pool_inv p → NoDup bs →
  (∀ b, b ∈ bs → nds !! MB.MB_GetQNode b = Some b ∧ pool_live p b) →
  ∃ p', remove_loop nds (MB.MB_GetQNode <$> bs) p = Returned p' ∧ pool_inv p' ∧
        ∀ b, pool_live p' b ↔ pool_live p b ∧ b ∉ bs.
Proof.
  induction bs as [|b bs IH]; intros p Hinv Hnd Hb.
  { exists p. split_and!; [done..|]. set_solver. }
  apply NoDup_cons in Hnd as [Hnb Hnd]. rewrite fmap_cons. cbn [remove_loop].
  destruct (Hb b) as [-> Hl]; [left|]. cbn [oderef obind].
  destruct (pool_free_live p b Hinv Hl) as (p1 & -> & Hinv1 & Hl1). cbn [obind].
  destruct (IH p1) as (p' & -> & Hinv' & Hl'); [done|done| |].
  { intros b' Hb'. rewrite Hl1. split_and!; [apply Hb; by right|apply Hb; by right|]. by intros ->. }
  exists p'. split_and!; [done..|]. intros b'. rewrite Hl', Hl1, elem_of_cons. tauto.
Qed.

Lemma remove_spec q s :
  rep q s →
  ∃ q', MSG_QueueRemove (Some q) = Returned (Some q') ∧ qlist q' = [] ∧ num q' = num q ∧
        pool_inv (bufHandle q') ∧ ∀ b, pool_live (bufHandle q') b ↔ b ∈ held s.
Proof.
  intros H. simpl. rewrite (rep_list _ _ H).
  destruct (remove_loop_spec (nodes q) (pending s).*1 (bufHandle q)) as (p' & -> & Hinv & Hl);
    [apply H|apply H| |].
  { intros b Hb. split; [|apply (rep_live _ _ H); by left].
    apply list_elem_of_fmap in Hb as ([b' c] & -> & Hin). by apply (rep_cell _ _ H b' c). }
  eexists; split; [done|]. split_and!; [done..|]. intros b. simpl.
  rewrite Hl, (rep_live _ _ H). pose proof (rep_disj _ _ H b). tauto.
Qed.

(** ** Properties *)

(** C1: every operation of a queue, started in a state that represents an
    abstract queue, returns and does what the abstract queue does (a free only
    of a buffer that was handed out). *)
Theorem MSG_Queue_refines q s o :
  rep q s → (∀ b, o = OpFree b → b ∈ held s) →
  ∃ r out q' s', run_op q o = Returned (r, out, Some q') ∧ spec_step s o r out s' ∧ rep q' s'.
Proof.
  intros H Hfree. destruct o as [m bytes| |ty|b].
  - destruct (run_put q s m bytes H) as (r & q' & s' & ?). eauto.
  - by apply run_get.
  - by apply run_merge.
  - destruct (run_free q s b H) as (q' & s' & ?); [by apply Hfree|]. eauto 10.
Qed.

(** With merging on, a pending message of another type at the head is
    released without being delivered as soon as a message of the merged type
    is queued behind it. *)
Theorem MSG_QueueGetMerge_drops_head q s ty e rest :
  rep q s → pending s = e :: rest → has_type ty e = false → existsb (has_type ty) rest = true →
  ∃ b q', MSG_QueueGetMerge (Some q) ty = Returned (HI_SUCCESS, Some b, Some q') ∧
          b ≠ e.1 ∧ ¬ pool_live (bufHandle q') e.1.
Proof.
  intros H Hp _ Hex. destruct (run_merge q s ty H) as (r & o & q' & s' & Hrun & Hstep & Hrep).
  inversion Hstep as [| | | | |? ? Hp0|s0 ty0 e0 rest0 b0 Hp0 Hb0|]; subst; rewrite Hp in Hp0; [done|].
  injection Hp0 as <- <-. eexists _, q'. split; [exact Hrun|].
  pose proof (rep_nodup _ _ H) as Hnd. rewrite Hp in Hnd. apply NoDup_cons in Hnd as [He _].
  assert (fst (default e (last (List.filter (has_type ty) rest))) ≠ e.1) as Hne.
  { destruct (last_in_filter (has_type ty) e rest) as [[_ Hnil]|Hd].
    - apply existsb_exists in Hex as (x & Hx & Ht).
      assert (x ∈ List.filter (has_type ty) rest) as Hin by (by rewrite list_elem_of_In, filter_In).
      by rewrite Hnil in Hin; apply elem_of_nil in Hin.
    - intros Heq. apply He. rewrite <- Heq. apply list_elem_of_fmap_2. by eapply filter_sub. }
  split; [done|]. rewrite (rep_live _ _ Hrep). simpl. rewrite elem_of_union, elem_of_singleton.
  pose proof (rep_disj _ _ H e.1) as Hd. rewrite Hp in Hd. intros [Hin|[Hin|Hin]].
  - apply He. apply list_elem_of_fmap in Hin as (x & -> & Hx). apply list_elem_of_fmap_2. by eapply filter_sub.
  - by apply Hne.
  - apply Hd; [left|done].
Qed.

(** C27: [MSG_QueueRemove] returns, empties the list and frees exactly the
    pending messages; buffers handed out stay in use, and [num] keeps its old
    value, so it no longer counts the list. *)
Theorem MSG_QueueRemove_spec q s :
  rep q s →
  ∃ q', MSG_QueueRemove (Some q) = Returned (Some q') ∧ qlist q' = [] ∧
        (∀ b, pool_live (bufHandle q') b ↔ b ∈ held s) ∧ num q' = s32 (Z.of_nat (length (qlist q))).
Proof.
  intros H. destruct (remove_spec q s H) as (q' & ? & ? & Hn & _ & ?).
  exists q'. split_and!; [done..|]. rewrite Hn, (rep_num _ _ H), (rep_list _ _ H), !length_fmap. done.
Qed.

(** Putting a list of messages, all of which must be accepted. *)
Fixpoint put_all q (ms : list (VTOP_MSG_S_InnerBlock * list Z)) : outcome (option (MSG_QUEUE_S P)) :=
  match ms with
  | [] => Returned (Some q)
  | (m, bytes) :: ms' =>
      let! (r, h) := MSG_QueuePut (Some q) (Some m) bytes in
      match h with
      | Some q' => if r =? 0 then put_all q' ms' else Returned None
      | None => Returned None
      end
  end.

(** Getting [n] messages, with the content found in each buffer. *)
Fixpoint get_all q (n : nat) : outcome (list (option msg_cell)) :=
  match n with
  | O => Returned []
  | S n' =>
      let! (r, o, h) := MSG_QueueGet (Some q) false in
      match h, o with
      | Some q', Some b => let! l := get_all q' n' in Returned (cells q !! b :: l)
      | _, _ => Returned [None]
      end
  end.

Lemma put_check_nonzero m err : put_check m = Some err → err ≠ 0.
Proof. unfold put_check. repeat case_match; intros [= <-]; vm_compute; done. Qed.

Lemma put_all_rep ms : ∀ q s q',
  rep q s → put_all q ms = Returned (Some q') →
  ∃ s' bs, rep q' s' ∧ pending s' = pending s ++ zip_with (λ b '(m, bytes), (b, MSG_COPY2BUF b m bytes)) bs ms
           ∧ length bs = length ms.
Proof.
  induction ms as [|[m bytes] ms IH]; intros q s q' H Hput.
  { injection Hput as <-. exists s, []. simpl. by rewrite app_nil_r. }
  destruct (run_put q s m bytes H) as (r & q1 & s1 & Hrun & Hstep & Hrep).
  cbn [put_all] in Hput. cbn [run_op] in Hrun.
  destruct (MSG_QueuePut (Some q) (Some m) bytes) as [[r' h]| |]; [|done|done].
  injection Hrun as -> ->. cbn [obind] in Hput.
  destruct (r =? 0) eqn:Hr; [|done]. bool_to_prop. subst r.
  inversion Hstep as [? ? ? ? Herr|? ? ? Hc|? ? ? b Hc Hb Hnp Hnh| | | | |]; subst.
  { by apply put_check_nonzero in Herr. }
  destruct (IH _ _ _ Hrep Hput) as (s' & bs & Hrep' & Hp & Hlen).
  exists s', (b :: bs). split_and!; [done| |simpl; lia]. rewrite Hp; simpl. by rewrite <- app_assoc.
Qed.

Lemma get_all_rep l : ∀ q s rest,
  rep q s → pending s = l ++ rest → get_all q (length l) = Returned (Some <$> l.*2).
Proof.
  induction l as [|[b c] l IH]; intros q s rest H Hp; [done|].
  destruct (run_get q s H) as (r & o & q1 & s1 & Hrun & Hstep & Hrep).
  cbn [length get_all]. cbn [run_op] in Hrun. rewrite Hrun. cbn [obind].
  inversion Hstep as [| | |? Hp0|? ? ? ? Hp0| | |]; subst; rewrite Hp in Hp0; [done|].
  simpl in Hp0. injection Hp0 as <- <- <-.
  rewrite (IH q1 _ rest Hrep eq_refl). cbn [obind]. rewrite !fmap_cons.
  destruct (rep_cell _ _ H b c) as [_ ->]; [rewrite Hp; left|]. done.
Qed.

(** Messages come out in the order they were put in, each with the content
    that was put: after any accepted sequence of puts on an empty queue, as many
    gets return exactly those messages. *)
Theorem MSG_Queue_fifo q ms q' h :
  rep q (mkS [] h) → put_all q ms = Returned (Some q') →
  ∃ bs, length bs = length ms ∧
        get_all q' (length ms) =
          Returned (zip_with (λ b '(m, bytes), Some (MSG_COPY2BUF b m bytes)) bs ms).
Proof.
  intros H Hput. destruct (put_all_rep ms q _ q' H Hput) as (s' & bs & Hrep & Hp & Hlen).
  exists bs. split; [done|]. simpl in Hp.
  set (l := zip_with (λ b '(m, bytes), (b, MSG_COPY2BUF b m bytes)) bs ms) in *.
  assert (length ms = length l) as -> by (unfold l; rewrite length_zip_with; lia).
  rewrite (get_all_rep l q' s' [] Hrep) by (by rewrite app_nil_r). f_equal. unfold l.
  clear -Hlen. revert ms Hlen. induction bs as [|b bs IH]; intros [|[m by0] ms] [=]; simpl; [done|].
  f_equal. by apply IH.
Qed.

End Refinement.
(** ** The queues the code creates *)

Definition sendable (len : Z) : VTOP_MSG_S_InnerBlock :=
  mkInner (mkBlock 1 2 7 1 1 0 len (if len =? 0 then 0 else 64)) 0 0x7fff 0.

Lemma queue_buffer_ok name : MB.buf_ok (queue_buffer name).
Proof. split_and!; try done; repeat (apply Forall_cons; split; [lia|]); apply Forall_nil_2. Qed.

Lemma queue_buffer_cfg name : MB.cfg_of (queue_buffer name) = [(128, 256); (8, 512)].
Proof. reflexivity. Qed.

Lemma empty_rep ctx : MB.wf ctx → (∀ b, ¬ MB.live ctx b) → rep (mkQueue 0 [] ctx ∅ ∅) (mkS [] ∅).
Proof.
  intros Hwf Hnl. split; simpl; try done.
  - apply NoDup_nil_2.
  - intros b c Hin. by apply elem_of_nil in Hin.
  - intros b. split; [by intros ?%Hnl|].
    intros [Hin|Hin]; [by apply elem_of_nil in Hin|by apply elem_of_empty in Hin].
  - by intros b ?%Hnl.
Qed.

Lemma queue_init mq m name bufsize :
  (∀ n p, MB.malloc_buf m n = Some p → 0 < p) →
  ∃ ret h, MSG_QueueInit mq m name bufsize = Returned (ret, h) ∧
    match h with
    | Some q => ret = 0 ∧ 1024 ≤ bufsize ∧ mq = true ∧ rep q (mkS [] ∅)
    | None => ret = -1
    end.
Proof.
  intros Hpos. unfold MSG_QueueInit. destruct (bufsize <? 1024) eqn:Hsz; bool_to_prop; [by do 2 eexists|].
  destruct mq; cbn [negb]; [|by do 2 eexists].
  destruct (MB.init_total m false (Some (queue_buffer name)) (queue_buffer_ok name))
    as (ret & h & l & Hinit & Hh). rewrite Hinit. cbn [obind].
  destruct (ret =? 0) eqn:Hret; cbn [negb]; bool_to_prop; [|by do 2 eexists].
  destruct h as [ctx|]; [|lia]. subst ret. do 2 eexists; split; [done|]. split_and!; [done..|].
  destruct (MB.MB_Init_success _ _ _ _ (queue_buffer_ok name) Hinit)
    as (p & lvs & hd & ts & tn & Hp & Hi & Hok & ->).
  destruct (MB.init_context_wf m p _ lvs hd (MB.mb_name (MB.name (queue_buffer name))) tn ts
              (Hpos _ _ Hp) Hok eq_refl Hi) as [Hwf Hnl].
  by apply empty_rep.
Qed.

(** C28: [MSG_QueueInit] returns.  It refuses a size below 1024 and a failed
    allocation with -1; otherwise the new queue represents the empty abstract
    queue. *)
Theorem MSG_QueueInit_spec mq m name bufsize :
  (∀ n p, MB.malloc_buf m n = Some p → 0 < p) →
  ∃ ret h, MSG_QueueInit mq m name bufsize = Returned (ret, h) ∧
    match h with
    | Some q => ret = 0 ∧ 1024 ≤ bufsize ∧ mq = true ∧ rep q (mkS [] ∅)
    | None => ret = -1
    end.
Proof. apply queue_init. Qed.

Definition fresh_queue : MSG_QUEUE_S MB.MB_CONTEXT_S :=
  match MSG_QueueInit true MB.plain_malloc "task" 32768 with
  | Returned (_, Some q) => q
  | _ => mkQueue 0 [] MB.queue_ctx ∅ ∅
  end.

Lemma plain_malloc_pos n p : MB.malloc_buf MB.plain_malloc n = Some p → 0 < p.
Proof. intros [= <-]. lia. Qed.

Lemma MSG_QueueInit_spec_witness :
  ∃ ret h, MSG_QueueInit true MB.plain_malloc "task" 32768 = Returned (ret, h) ∧
    match h with
    | Some q => ret = 0 ∧ 1024 ≤ 32768 ∧ true = true ∧ rep q (mkS [] ∅)
    | None => ret = -1
    end.
Proof. apply (MSG_QueueInit_spec true MB.plain_malloc "task" 32768). exact plain_malloc_pos. Defined.

Lemma fresh_queue_rep : rep fresh_queue (mkS [] ∅).
Proof.
  assert (fresh_queue = mkQueue 0 [] MB.queue_ctx ∅ ∅) as -> by (vm_compute; reflexivity).
  destruct (MB.MB_Init_success _ _ _ _ MB.queue_cfg_ok MB.queue_ctx_init)
    as (p & lvs & h & ts & tn & Hp & Hi & Hok & Hc).
  assert (∀ b, ¬ MB.live MB.queue_ctx b) as Hnl.
  { rewrite Hc. apply (MB.init_context_wf MB.plain_malloc p); [by injection Hp as <-|done|by vm_compute|done]. }
  apply empty_rep; [apply MB.queue_ctx_wf|done].
Qed.

Lemma MSG_Queue_refines_witness :
  ∃ r out q' s', run_op fresh_queue OpGet = Returned (r, out, Some q') ∧
    spec_step (mkS [] ∅) OpGet r out s' ∧ rep q' s'.
Proof. apply (MSG_Queue_refines fresh_queue (mkS [] ∅) OpGet fresh_queue_rep). intros b [=]. Defined.

(** Three messages: one of type 9 in front of two of type 7. *)
Definition typed (ty : Z) : VTOP_MSG_S_InnerBlock :=
  mkInner (mkBlock 1 2 ty 1 1 0 0 0) 0 0x7fff 0.
Definition mixed_queue : MSG_QUEUE_S MB.MB_CONTEXT_S :=
  match put_all fresh_queue [(typed 9, []); (typed 7, []); (typed 7, [])] with
  | Returned (Some q) => q
  | _ => fresh_queue
  end.

Lemma put_all_mixed :
  put_all fresh_queue [(typed 9, []); (typed 7, []); (typed 7, [])] = Returned (Some mixed_queue).
Proof. vm_compute. reflexivity. Qed.

Lemma MSG_Queue_fifo_witness :
  ∃ bs, length bs = 3%nat ∧
        get_all mixed_queue 3 =
          Returned (zip_with (λ b '(m, bytes), Some (MSG_COPY2BUF b m bytes)) bs
                      [(typed 9, []); (typed 7, []); (typed 7, [])]).
Proof. exact (MSG_Queue_fifo fresh_queue _ mixed_queue ∅ fresh_queue_rep put_all_mixed). Defined.

Lemma mixed_queue_rep :
  ∃ s e rest, rep mixed_queue s ∧ pending s = e :: rest ∧ has_type 7 e = false ∧
              existsb (has_type 7) rest = true.
Proof.
  destruct (put_all_rep _ fresh_queue _ _ fresh_queue_rep put_all_mixed) as (s & bs & Hrep & Hp & Hlen).
  destruct bs as [|b1 [|b2 [|b3 [|]]]]; try done. simpl in Hp.
  exists s. rewrite Hp. do 2 eexists. split; [done|]. split; [done|]. done.
Qed.

Lemma MSG_QueueGetMerge_drops_head_witness :
  ∃ s e b q', rep mixed_queue s ∧ has_type 7 e = false ∧
    MSG_QueueGetMerge (Some mixed_queue) 7 = Returned (HI_SUCCESS, Some b, Some q') ∧
    b ≠ fst e ∧ ¬ pool_live (bufHandle q') (fst e).
Proof.
  destruct mixed_queue_rep as (s & e & rest & Hrep & Hp & He & Hex).
  destruct (MSG_QueueGetMerge_drops_head mixed_queue s 7 e rest Hrep Hp He Hex) as (b & q' & ?).
  exists s, e, b, q'. auto.
Defined.

Lemma MSG_QueueRemove_spec_witness :
  ∃ s q', MSG_QueueRemove (Some mixed_queue) = Returned (Some q') ∧ qlist q' = [] ∧
    (∀ b, pool_live (bufHandle q') b ↔ b ∈ held s) ∧ num q' = s32 (Z.of_nat (length (qlist mixed_queue))).
Proof.
  destruct mixed_queue_rep as (s & e & rest & Hrep & _).
  destruct (MSG_QueueRemove_spec mixed_queue s Hrep) as (q' & ?). exists s, q'. auto.
Defined.

(** Results of putting the same message again and again. *)
Fixpoint put_results {P} `{!MsgPool P} (q : MSG_QUEUE_S P) (m : VTOP_MSG_S_InnerBlock) (n : nat)
  : list Z :=
  match n with
  | O => []
  | S n' =>
      match MSG_QueuePut (Some q) (Some m) [] with
      | Returned (r, Some q') => r :: put_results q' m n'
      | _ => []
      end
  end.

(** The capacity of a queue as the code creates it: 128 messages with a
    body of up to 212 bytes, or 8 with one of up to 468 bytes; the next put
    fails although the blocks of the other size are free, and a longer body
    never fits, although up to 4096 bytes pass the length check. *)
Theorem MSG_Queue_capacity :
  put_results fresh_queue (sendable 212) 129 = replicate 128 0 ++ [-1] ∧
  put_results fresh_queue (sendable 468) 9 = replicate 8 0 ++ [-1] ∧
  put_results fresh_queue (sendable 469) 1 = [-1] ∧ put_check (sendable 469) = None.
Proof. vm_compute. done. Qed.

End MQ.
