(* ===== verification/MsgTaskTab.v ===== *)
(** The table of message tasks of [msg_taskmng.c], with the shared header of
    [msg_misc.c] it is laid out in.  An entry names a task and holds its
    message queue; a free entry has the invalid task id. *)

From S2P Require Import Prelude MsgDefs MsgPool MsgBuffer MsgQueue.

Module TT.

Definition VTOP_MSG_MAX_TASK_NAME_LEN : Z := 16.
Definition VTOP_MAX_TASK_ID : Z := 0xffff0000.
Definition TASK_OWNER_TASK : Z := 0.
Definition VTOP_MSG_DEFAULT_MAX_TASK : Z := 32.
Definition VTOP_MSG_DEFAULT_MAX_SUB : Z := 64.
Definition MSG_DEFAULT_QUEUE_SIZE : Z := 32 * 1024.
Definition VTOP_MSG_VERSION : string := "V1.1.0.0(R)".

(** A message queue and its handle: the only reference to a queue is in the
    entry of its task, so the entry holds the queue itself. *)
Definition queue : Type := MQ.MSG_QUEUE_S MB.MB_CONTEXT_S.
Definition MSG_QUEUE_INVALID_HANDLE : option queue := None.

Record MSG_TAB_TASK_S := mkTask {
  taskName : string;
  taskId : Z;
  owner : Z;
  msgtype : Z;
  handle : option queue
}.

(** [MSG_SHM_S], with the length of the block it heads. *)
Record MSG_SHM_S := mkShm {
  maxTaskNum : Z;
  maxSubNum : Z;
  maxTaskNumInSub : Z;
  taskTabPos : Z;
  subTabPos : Z;
  counter_taskId : Z;
  counter_msgId : Z;
  version : string;
  shm_len : Z
}.

(** [g_MsgShmAddr] with the header it points to, and the task table. *)
Record TASK_STATE := mkTS { shm : option MSG_SHM_S; tab : list MSG_TAB_TASK_S }.

(** ** The shared block ([msg_misc.c]) *)

Definition SIZEOF_MSG_SHM_S : Z := 7 * 4 + 32.
Definition SIZEOF_MSG_TAB_TASK_S : Z := 16 + 4 + 4 + 4 + 4.

Definition GET_VALUE (a b : Z) : Z := if a =? 0 then b else a.

Definition TASK_TAB_CalcSize (maxTask : Z) : Z :=
  if maxTask =? 0 then 0 else u32 (maxTask * SIZEOF_MSG_TAB_TASK_S).

Definition SUBTABCalcUnitSize (maxTaskInSub : Z) : Z := u32 (4 + 4 + 4 * maxTaskInSub).

Definition SUB_TAB_CalcSize (maxSub maxTaskInSub : Z) : Z :=
  if (maxSub =? 0) || (maxTaskInSub =? 0) then 0
  else u32 (maxSub * SUBTABCalcUnitSize maxTaskInSub).

(** [SHM_Init]; [malloc_ok] is the answer for the block.  A failed allocation
    is logged and reported as success. *)
Definition SHM_Init (malloc_ok : bool) (ulMaxTask ulMaxSub : Z) (st : TASK_STATE) : Z * TASK_STATE :=
  let maxTask := GET_VALUE ulMaxTask VTOP_MSG_DEFAULT_MAX_TASK in
  let maxSub := GET_VALUE ulMaxSub VTOP_MSG_DEFAULT_MAX_SUB in
  let tt_size := TASK_TAB_CalcSize maxTask in
  let st_size := SUB_TAB_CalcSize maxSub maxTask in
  let len := u32 (SIZEOF_MSG_SHM_S + tt_size + st_size) in
  let pos := SIZEOF_MSG_SHM_S in
  if malloc_ok
  then (0, mkTS (Some (mkShm maxTask maxSub maxTask pos (u32 (pos + tt_size)) 0 0 VTOP_MSG_VERSION len)) (tab st))
  else (0, st).

Definition SHM_DeInit (st : TASK_STATE) : Z * TASK_STATE := (0, mkTS None (tab st)).

Definition SHM_Exist (st : TASK_STATE) : bool := bool_decide (is_Some (shm st)).

Definition TASK_TAB_GetMaxTaskNum (st : TASK_STATE) : Z + Z :=
  match shm st with None => inl VTOP_MSG_ERR_SHMATTCH | Some h => inr (maxTaskNum h) end.

Definition SUB_TAB_GetMaxSubNum (st : TASK_STATE) : Z + (Z * Z) :=
  match shm st with None => inl VTOP_MSG_ERR_SHMATTCH | Some h => inr (maxSubNum h, maxTaskNumInSub h) end.

(** [getMsgID]: the counter before its increment. *)
Definition getMsgID (st : TASK_STATE) : Z + (Z * TASK_STATE) :=
  match shm st with
  | None => inl VTOP_MSG_ERR_SHMATTCH
  | Some h => inr (counter_msgId h,
      mkTS (Some (mkShm (maxTaskNum h) (maxSubNum h) (maxTaskNumInSub h) (taskTabPos h) (subTabPos h)
                        (counter_taskId h) (u32 (counter_msgId h + 1)) (version h) (shm_len h))) (tab st))
  end.

(** ** The table *)

(** [TASKTABInitUnit]. *)
Definition TASKTABInitUnit : MSG_TAB_TASK_S := mkTask "" VTOP_INVALID_TASK_ID 0 0 MSG_QUEUE_INVALID_HANDLE.

Definition TASK_TAB_Init (st : TASK_STATE) : Z * TASK_STATE :=
  match shm st with
  | None => (VTOP_MSG_ERR_SHMATTCH, st)
  | Some h => (0, mkTS (shm st) (replicate (Z.to_nat (maxTaskNum h)) TASKTABInitUnit))
  end.

Definition TASK_TAB_DeInit (st : TASK_STATE) : Z * TASK_STATE :=
  match TASK_TAB_GetMaxTaskNum st with
  | inl err => (err, st)
  | inr maxTask => (0, mkTS (shm st) (replicate (Z.to_nat maxTask) TASKTABInitUnit))
  end.

Definition has_id (id : Z) (e : MSG_TAB_TASK_S) : bool := taskId e =? id.

(** The list loop shared by the searches that fill an array of [cap] entries:
    the test for the capacity comes after the store. *)
Fixpoint fill_list {A B} (f : A → list B) (cap : Z) (l : list A) (acc : list B) : list B :=
  match l with
  | [] => acc
  | x :: l' =>
      let acc' := acc ++ f x in
      if cap <=? Z.of_nat (length acc') then acc' else fill_list f cap l' acc'
  end.

(** [TASK_TAB_GetTaskList]: the ids written, whose number goes to [*pNum]. *)
Definition TASK_TAB_GetTaskList (st : TASK_STATE) (pNum : Z) : Z + list Z :=
  match shm st with
  | None => inl VTOP_MSG_ERR_SHMATTCH
  | Some _ =>
      inr (fill_list (λ e, if taskId e =? VTOP_INVALID_TASK_ID then [] else [taskId e]) pNum (tab st) [])
  end.

(** [strncmp(a, b, n) == 0] and the copy of a name into an entry, for strings
    without an embedded NUL. *)
Definition strncmp_eq (a b : string) (n : Z) : bool :=
  String.eqb (String.substring 0 (Z.to_nat n) a) (String.substring 0 (Z.to_nat n) b).
Definition name_copy (s : string) : string :=
  String.substring 0 (Z.to_nat (VTOP_MSG_MAX_TASK_NAME_LEN - 1)) s.

(** The next value of [counter_taskId]: an [int] compared with an unsigned
    bound. *)
Definition next_taskId (c : Z) : Z := if VTOP_MAX_TASK_ID <=? u32 c then 0 else s32 (c + 1).

Definition set_counter (h : MSG_SHM_S) (c : Z) : MSG_SHM_S :=
  mkShm (maxTaskNum h) (maxSubNum h) (maxTaskNumInSub h) (taskTabPos h) (subTabPos h) c
        (counter_msgId h) (version h) (shm_len h).

(** [TASK_TAB_Add2].  The entry is filled before its queue is created, and
    stays filled when the queue cannot be. *)
Definition TASK_TAB_Add2 (malloc_q : bool) (m : MB.mb_malloc) (st : TASK_STATE) (name : string) (own : Z)
  : outcome (Z * TASK_STATE) :=
  match shm st with
  | None => Returned (VTOP_INVALID_TASK_ID, st)
  | Some h =>
      match find_index (has_id VTOP_INVALID_TASK_ID) (tab st) with
      | None => Returned (VTOP_INVALID_TASK_ID, st)
      | Some index =>
          let id := counter_taskId h in
          let h' := set_counter h (next_taskId id) in
          let! (ret, q) := MQ.MSG_QueueInit malloc_q m (name_copy name) MSG_DEFAULT_QUEUE_SIZE in
          let e := mkTask (name_copy name) id own VTOP_INVALID_MSG_TYPE q in
          let st' := mkTS (Some h') (<[index := e]> (tab st)) in
          Returned (if ret <? 0 then VTOP_INVALID_TASK_ID else id, st')
      end
  end.

Definition TASK_TAB_Add (malloc_q : bool) (m : MB.mb_malloc) (st : TASK_STATE) (name : string)
  : outcome (Z * TASK_STATE) :=
  TASK_TAB_Add2 malloc_q m st name TASK_OWNER_TASK.

(** [TASK_TAB_Del]. *)
Definition TASK_TAB_Del (st : TASK_STATE) (id : Z) : outcome (Z * TASK_STATE) :=
  match shm st with
  | None => Returned (VTOP_MSG_ERR_SHMATTCH, st)
  | Some _ =>
      match find_index (has_id id) (tab st) with
      | None => Returned (VTOP_MSG_ERR_TASKNOTEXIST, st)
      | Some index =>
          let! e := oderef (tab st !! index) in
          let! _ := MQ.MSG_QueueDeinit (handle e) in
          Returned (0, mkTS (shm st) (<[index := TASKTABInitUnit]> (tab st)))
      end
  end.

(** The searches by id. *)
Definition entry_of (st : TASK_STATE) (id : Z) : option MSG_TAB_TASK_S :=
  i ← find_index (has_id id) (tab st); tab st !! i.

Definition TASK_TAB_Id2Name (st : TASK_STATE) (id : Z) : Z + string :=
  match shm st with
  | None => inl VTOP_MSG_ERR_SHMATTCH
  | Some _ => match entry_of st id with
              | Some e => inr (name_copy (taskName e))
              | None => inl VTOP_MSG_ERR_TASKNOTEXIST
              end
  end.

Definition TASK_TAB_Name2Id (st : TASK_STATE) (name : string) : Z :=
  match shm st with
  | None => VTOP_INVALID_TASK_ID
  | Some _ =>
      match find_index (λ e, strncmp_eq (taskName e) name VTOP_MSG_MAX_TASK_NAME_LEN) (tab st) with
      | Some i => match tab st !! i with Some e => taskId e | None => VTOP_INVALID_TASK_ID end
      | None => VTOP_INVALID_TASK_ID
      end
  end.

Definition TASK_TAB_IsTaskExist (st : TASK_STATE) (name : string) : bool :=
  negb (TASK_TAB_Name2Id st name =? VTOP_INVALID_TASK_ID).

Definition TASK_TAB_IsTaskIdExist (st : TASK_STATE) (id : Z) : bool :=
  match shm st with
  | None => false
  | Some _ => bool_decide (is_Some (entry_of st id))
  end.

Definition TASK_TAB_GetHandle (st : TASK_STATE) (id : Z) : option queue :=
  match shm st with
  | None => None
  | Some _ => match entry_of st id with Some e => handle e | None => MSG_QUEUE_INVALID_HANDLE end
  end.

Definition set_msgtype (e : MSG_TAB_TASK_S) (ty : Z) : MSG_TAB_TASK_S :=
  mkTask (taskName e) (taskId e) (owner e) ty (handle e).

Definition TASK_TAB_SetMerge (st : TASK_STATE) (id ty : Z) : Z * TASK_STATE :=
  match shm st with
  | None => (VTOP_MSG_ERR_SHMATTCH, st)
  | Some _ =>
      match find_index (has_id id) (tab st) with
      | Some i => match tab st !! i with
                  | Some e => (0, mkTS (shm st) (<[i := set_msgtype e ty]> (tab st)))
                  | None => (VTOP_MSG_ERR_TASKNOTEXIST, st)
                  end
      | None => (VTOP_MSG_ERR_TASKNOTEXIST, st)
      end
  end.

(** [TASK_TAB_GetMerge]: the error codes are returned as message types. *)
Definition TASK_TAB_GetMerge (st : TASK_STATE) (id : Z) : Z :=
  match shm st with
  | None => u32 VTOP_MSG_ERR_SHMATTCH
  | Some _ => match entry_of st id with Some e => msgtype e | None => u32 VTOP_MSG_ERR_TASKNOTEXIST end
  end.

(** The queue of a task after an operation on it. *)
Definition set_handle (e : MSG_TAB_TASK_S) (q : option queue) : MSG_TAB_TASK_S :=
  mkTask (taskName e) (taskId e) (owner e) (msgtype e) q.
Definition put_queue (st : TASK_STATE) (id : Z) (q : option queue) : TASK_STATE :=
  match find_index (has_id id) (tab st) with
  | Some i => mkTS (shm st) (alter (λ e, set_handle e q) i (tab st))
  | None => st
  end.

(** An array that is large enough receives everything; a capacity of 0 lets the
    first element through before it is tested. *)
Lemma fill_list_all {A B} (f : A → list B) cap l : ∀ acc,
  Z.of_nat (length (acc ++ flat_map f l)) ≤ cap → fill_list f cap l acc = acc ++ flat_map f l.
Proof.
  induction l as [|x l IH]; intros acc Hc; simpl in *; [by rewrite app_nil_r|].
  rewrite app_assoc in Hc |- *. destruct (cap <=? _) eqn:E; bool_to_prop; [|by apply IH].
  rewrite length_app in Hc. destruct (flat_map f l); [by rewrite app_nil_r|simpl in Hc; lia].
Qed.

Lemma fill_list_zero {A B} (f : A → list B) l : fill_list f 0 l [] = match l with [] => [] | x :: _ => f x end.
Proof. destruct l as [|x l]; [done|]. simpl. by destruct (0 <=? _) eqn:E; bool_to_prop; [|lia]. Qed.

(** ** Invariant *)

Definition queue_ok (q : queue) : Prop := ∃ s, MQ.rep q s.

Record wf (st : TASK_STATE) (h : MSG_SHM_S) : Prop := {
  wf_shm : shm st = Some h;
  wf_len : Z.of_nat (length (tab st)) = maxTaskNum h;
  wf_count : 0 ≤ counter_taskId h < 2 ^ 31;
  wf_entry : ∀ i e, tab st !! i = Some e →
             e = TASKTABInitUnit ∨ 0 ≤ taskId e < counter_taskId h;
  wf_ids : ∀ i j e e', tab st !! i = Some e → tab st !! j = Some e' →
           taskId e = taskId e' → taskId e ≠ VTOP_INVALID_TASK_ID → i = j;
  wf_queue : ∀ i e q, tab st !! i = Some e → handle e = Some q → queue_ok q
}.

Lemma find_id st h i e :
  wf st h → tab st !! i = Some e → taskId e ≠ VTOP_INVALID_TASK_ID →
  find_index (has_id (taskId e)) (tab st) = Some i.
Proof.
  intros Hwf Hi Hne. apply (find_index_unique _ _ _ e); [done|apply Z.eqb_refl|].
  intros j y Hj Hy%Z.eqb_eq. eapply (wf_ids _ _ Hwf); [done|done|done|]. by rewrite Hy.
Qed.

Lemma entry_of_Some st h id e :
  wf st h → id ≠ VTOP_INVALID_TASK_ID →
  entry_of st id = Some e ↔ ∃ i, tab st !! i = Some e ∧ taskId e = id.
Proof.
  intros Hwf Hne. unfold entry_of. split.
  - destruct (find_index _ _) as [i|] eqn:E; [|done]. simpl. intros Hi.
    apply find_index_lookup in E as (e' & ? & ?%Z.eqb_eq). simplify_eq. eauto.
  - intros (i & Hi & <-). by rewrite (find_id _ _ _ _ Hwf Hi).
Qed.

Lemma entry_of_range st h id e :
  wf st h → entry_of st id = Some e → id = VTOP_INVALID_TASK_ID ∨ 0 ≤ id < counter_taskId h.
Proof.
  intros Hwf. destruct (decide (id = VTOP_INVALID_TASK_ID)) as [->|Hne]; [by left|].
  rewrite entry_of_Some by done. intros (i & Hi & <-). destruct (wf_entry _ _ Hwf _ _ Hi) as [->|?]; [done|].
  by right.
Qed.

(** Replacing the entry at [i] leaves the other tasks where they are. *)
Lemma entry_of_insert st h st' h' i e e' id :
  wf st h → wf st' h' → tab st !! i = Some e → tab st' = <[i := e']> (tab st) →
  id ≠ VTOP_INVALID_TASK_ID → id ≠ taskId e → id ≠ taskId e' → entry_of st' id = entry_of st id.
Proof.
  intros Hwf Hwf' Hi Ht Hne He He'. apply option_eq. intros x.
  rewrite !entry_of_Some by done. rewrite Ht. split; intros (j & Hj & Hx).
  - apply list_lookup_insert_Some in Hj as [(-> & -> & _)|[_ Hj]]; [by subst|eauto].
  - exists j. split; [|done]. rewrite list_lookup_insert_ne; [done|]. intros ->. congruence.
Qed.

Lemma entry_of_here st h i e :
  wf st h → tab st !! i = Some e → taskId e ≠ VTOP_INVALID_TASK_ID → entry_of st (taskId e) = Some e.
Proof. intros Hwf Hi Hne. apply (entry_of_Some st h); eauto. Qed.

(** Putting an entry with a fresh or the same id at an index keeps the
    invariant. *)
Lemma wf_insert st h h' i e e' :
  wf st h → tab st !! i = Some e → maxTaskNum h' = maxTaskNum h →
  counter_taskId h ≤ counter_taskId h' < 2 ^ 31 →
  (e' = TASKTABInitUnit ∨ 0 ≤ taskId e' < counter_taskId h') →
  (taskId e' ≠ VTOP_INVALID_TASK_ID → taskId e' = taskId e ∨ counter_taskId h ≤ taskId e') →
  (∀ q, handle e' = Some q → queue_ok q) →
  wf (mkTS (Some h') (<[i := e']> (tab st))) h'.
Proof.
  intros Hwf Hi Hmax Hcnt He' Hid Hq.
  assert (∀ j x, j ≠ i → tab st !! j = Some x → taskId x ≠ VTOP_INVALID_TASK_ID → taskId x ≠ taskId e') as Hother.
  { intros j x Hne Hj Hinv Heq. destruct Hid as [Hid|Hid]; [congruence| |].
    - apply Hne. eapply (wf_ids _ _ Hwf); [done|done|congruence|done].
    - destruct (wf_entry _ _ Hwf _ _ Hj) as [->|?]; [done|lia]. }
  split; simpl.
  - done.
  - rewrite length_insert, Hmax. apply Hwf.
  - destruct (wf_count _ _ Hwf). lia.
  - intros j x [(-> & -> & _)|[_ Hj]]%list_lookup_insert_Some; [done|].
    destruct (wf_entry _ _ Hwf _ _ Hj); [by left|right; lia].
  - intros j k x y [(-> & -> & _)|[Hij Hj]]%list_lookup_insert_Some
      [(-> & -> & _)|[Hik Hk]]%list_lookup_insert_Some Heq Hne; try done.
    + exfalso. apply (Hother k y); congruence.
    + exfalso. apply (Hother j x); congruence.
    + by eapply (wf_ids _ _ Hwf).
  - intros j x q [(-> & -> & _)|[_ Hj]]%list_lookup_insert_Some; [apply Hq|by apply (wf_queue _ _ Hwf j)].
Qed.

Lemma init_wf st h :
  shm st = Some h → 0 ≤ maxTaskNum h → counter_taskId h = 0 → wf (snd (TASK_TAB_Init st)) h.
Proof.
  intros Hs Hm Hc. unfold TASK_TAB_Init. rewrite Hs. simpl.
  assert (∀ i e, replicate (Z.to_nat (maxTaskNum h)) TASKTABInitUnit !! i = Some e → e = TASKTABInitUnit) as Hr
    by (by intros i e [-> _]%lookup_replicate).
  split; simpl; rewrite ?length_replicate, ?Hc; try done; try lia.
  - intros i e ->%Hr. by left.
  - by intros i j e e' ->%Hr ->%Hr.
  - by intros i e q ->%Hr.
Qed.

Lemma next_taskId_small c : 0 ≤ c < 2 ^ 31 - 1 → next_taskId c = c + 1.
Proof.
  intros Hc. unfold next_taskId. change VTOP_MAX_TASK_ID with 4294901760. rewrite u32_small by lia.
  replace (4294901760 <=? c) with false by (symmetry; apply Z.leb_gt; lia). apply s32_small. lia.
Qed.

Lemma free_entry st h i e :
  wf st h → tab st !! i = Some e → taskId e = VTOP_INVALID_TASK_ID → e = TASKTABInitUnit.
Proof. intros Hwf Hi He. destruct (wf_entry _ _ Hwf _ _ Hi) as [|Hr]; [done|]. rewrite He in Hr. by destruct Hr. Qed.

(** Adding a task: the table after it, whatever became of the queue. *)
Lemma add2_spec mq m st h name own :
  wf st h → counter_taskId h < 2 ^ 31 - 1 → (∀ n p, MB.malloc_buf m n = Some p → 0 < p) →
  ∃ r st' h', TASK_TAB_Add2 mq m st name own = Returned (r, st') ∧ wf st' h' ∧
    match find_index (has_id VTOP_INVALID_TASK_ID) (tab st) with
    | None => r = VTOP_INVALID_TASK_ID ∧ st' = st
    | Some i => ∃ q, entry_of st' (counter_taskId h)
                     = Some (mkTask (name_copy name) (counter_taskId h) own VTOP_INVALID_MSG_TYPE q) ∧
                (∀ id, id ≠ VTOP_INVALID_TASK_ID → id ≠ counter_taskId h → entry_of st' id = entry_of st id) ∧
                match q with
                | Some q => r = counter_taskId h ∧ MQ.rep q (MQ.mkS [] ∅)
                | None => r = VTOP_INVALID_TASK_ID
                end
    end.
Proof.
  intros Hwf Hc Hm. unfold TASK_TAB_Add2. rewrite (wf_shm _ _ Hwf). pose proof (wf_count _ _ Hwf) as Hcnt.
  destruct (find_index _ _) as [i|] eqn:Hf; [|by eauto 8].
  apply find_index_lookup in Hf as (e & Hi & He%Z.eqb_eq).
  destruct (MQ.queue_init mq m (name_copy name) MSG_DEFAULT_QUEUE_SIZE Hm) as (ret & q & -> & Hq).
  cbn [obind]. rewrite next_taskId_small by lia.
  set (e' := mkTask _ _ _ _ q). set (h' := set_counter h _).
  assert (wf (mkTS (Some h') (<[i := e']> (tab st))) h') as Hwf'.
  { apply (wf_insert st h h' i e); simpl; try done; try lia.
    intros q' ->. destruct Hq as (_ & _ & _ & ?). by eexists. }
  assert (tab (mkTS (Some h') (<[i := e']> (tab st))) !! i = Some e') as Hi'
    by (simpl; apply list_lookup_insert_eq; by eapply lookup_lt_Some).
  eexists _, _, h'. split; [done|]. split; [done|]. exists q. split_and!.
  - apply (entry_of_here _ h' i e' Hwf' Hi'). simpl. unfold VTOP_INVALID_TASK_ID. lia.
  - intros id Hid Hne. apply (entry_of_insert _ h _ h' i e e'); try done. congruence.
  - destruct q; [by destruct Hq as (-> & _ & _ & ?)|by rewrite Hq].
Qed.

Lemma del_spec st h id :
  wf st h → id ≠ VTOP_INVALID_TASK_ID →
  ∃ r st', TASK_TAB_Del st id = Returned (r, st') ∧ wf st' h ∧ entry_of st' id = None ∧
    (∀ id', id' ≠ VTOP_INVALID_TASK_ID → id' ≠ id → entry_of st' id' = entry_of st id') ∧
    match entry_of st id with
    | Some e => r = 0 ∧ ∃ i, tab st !! i = Some e ∧ tab st' = <[i := TASKTABInitUnit]> (tab st)
    | None => r = VTOP_MSG_ERR_TASKNOTEXIST ∧ st' = st
    end.
Proof.
  intros Hwf Hne. unfold TASK_TAB_Del. rewrite (wf_shm _ _ Hwf).
  destruct (entry_of st id) as [e|] eqn:He; unfold entry_of in He.
  - destruct (find_index _ _) as [i|] eqn:Hf; [|done]. simpl in He. rewrite He. cbn [oderef obind].
    assert (taskId e = id) as Hid.
    { apply find_index_lookup in Hf as (e' & ? & ?%Z.eqb_eq). congruence. }
    assert (∃ l, MQ.MSG_QueueDeinit (handle e) = Returned l) as [l ->].
    { unfold MQ.MSG_QueueDeinit. destruct (handle e) as [q|] eqn:Hh; [|eauto].
      destruct (wf_queue _ _ Hwf _ _ _ He Hh) as [s Hs].
      destruct (MQ.remove_spec q s Hs) as (q' & -> & _). cbn [obind]. eauto. }
    cbn [obind]. assert (wf (mkTS (Some h) (<[i := TASKTABInitUnit]> (tab st))) h) as Hwf'.
    { apply (wf_insert st h h i e); try done; [destruct (wf_count _ _ Hwf); lia|by left]. }
    eexists _, _. split_and!; [done|done| | |done|eauto].
    + apply eq_None_not_Some. intros [x Hx]. apply (entry_of_Some _ h) in Hx as (j & Hj & Hx); [|done..].
      simpl in Hj. apply list_lookup_insert_Some in Hj as [(-> & <- & _)|[Hij Hj]]; [by simpl in Hx|].
      apply Hij. eapply (wf_ids _ _ Hwf); [done|done|congruence|congruence].
    + intros id' Hne' Hid'. apply (entry_of_insert _ h _ h i e TASKTABInitUnit); try done. congruence.
  - destruct (find_index _ _) as [i|] eqn:Hf; simpl in He.
    + apply find_index_lookup in Hf as (e' & ? & _). congruence.
    + eexists _, _. split_and!; try done. unfold entry_of. by rewrite Hf.
Qed.

(** Storing a queue back and counting a message keep the table well formed. *)
Lemma put_queue_spec st h id e q :
  wf st h → id ≠ VTOP_INVALID_TASK_ID → entry_of st id = Some e → (∀ q', q = Some q' → queue_ok q') →
  wf (put_queue st id q) h ∧ entry_of (put_queue st id q) id = Some (set_handle e q) ∧
  ∀ id', id' ≠ VTOP_INVALID_TASK_ID → id' ≠ id → entry_of (put_queue st id q) id' = entry_of st id'.
Proof.
  intros Hwf Hne He Hq. pose proof He as He'. unfold entry_of in He'. unfold put_queue.
  destruct (find_index (has_id id) (tab st)) as [i|] eqn:Hf; [|done]. simpl in He'.
  apply find_index_lookup in Hf as (e0 & Hi & Hid%Z.eqb_eq).
  assert (e0 = e) as -> by congruence. subst id. rewrite (alter_lookup _ _ _ _ Hi), (wf_shm _ _ Hwf).
  assert (wf (mkTS (Some h) (<[i := set_handle e q]> (tab st))) h) as Hwf'.
  { apply (wf_insert st h h i e); simpl; try done; [destruct (wf_count _ _ Hwf); lia| |by left].
    destruct (wf_entry _ _ Hwf _ _ Hi) as [->|?]; [done|by right]. }
  split_and!; [done| |].
  - change (taskId e) with (taskId (set_handle e q)). apply (entry_of_here _ h i); [done| |done].
    simpl. apply list_lookup_insert_eq. by eapply lookup_lt_Some.
  - intros id' Hne' Hid'. by apply (entry_of_insert _ h _ h i e (set_handle e q)).
Qed.

Lemma getMsgID_spec st h :
  wf st h → ∃ i st1 h1, getMsgID st = inr (i, st1) ∧ i = counter_msgId h ∧ wf st1 h1 ∧
    maxTaskNumInSub h1 = maxTaskNumInSub h ∧ maxSubNum h1 = maxSubNum h ∧ tab st1 = tab st ∧
    ∀ id, entry_of st1 id = entry_of st id.
Proof.
  intros Hwf. unfold getMsgID. rewrite (wf_shm _ _ Hwf). eexists _, _, (mkShm _ _ _ _ _ _ _ _ _).
  split; [done|]. split; [done|]. split; [|done]. split; try apply Hwf. done.
Qed.

Lemma handle_entry st h id q :
  wf st h → TASK_TAB_GetHandle st id = Some q ↔ ∃ e, entry_of st id = Some e ∧ handle e = Some q.
Proof.
  intros Hwf. unfold TASK_TAB_GetHandle. rewrite (wf_shm _ _ Hwf). destruct (entry_of st id) as [e|]; naive_solver.
Qed.

Lemma exist_entry st h id :
  wf st h → TASK_TAB_IsTaskIdExist st id = true ↔ is_Some (entry_of st id).
Proof. intros Hwf. unfold TASK_TAB_IsTaskIdExist. rewrite (wf_shm _ _ Hwf). apply bool_decide_eq_true. Qed.

(** ** Theorems *)

Definition free_count (st : TASK_STATE) : Z := countP (has_id VTOP_INVALID_TASK_ID) (tab st).

Lemma substring_all s n : (String.length s ≤ n)%nat → String.substring 0 n s = s.
Proof.
  revert n. induction s as [|c s IH]; intros [|n] Hn; simpl in *; try done; try lia. rewrite IH by lia. done.
Qed.

Lemma substring_length s n : (String.length (String.substring 0 n s) ≤ n)%nat.
Proof. revert n. induction s as [|c s IH]; intros [|n]; simpl; try lia. specialize (IH n). lia. Qed.

Lemma name_copy_idemp s : name_copy (name_copy s) = name_copy s.
Proof. apply substring_all, substring_length. Qed.

Lemma add2_free_count mq m st h name own r st' :
  wf st h → counter_taskId h < 2 ^ 31 - 1 →
  TASK_TAB_Add2 mq m st name own = Returned (r, st') →
  free_count st' = free_count st - (if bool_decide (is_Some (find_index (has_id VTOP_INVALID_TASK_ID) (tab st))) then 1 else 0).
Proof.
  intros Hwf Hc. unfold TASK_TAB_Add2. rewrite (wf_shm _ _ Hwf). pose proof (wf_count _ _ Hwf) as Hcnt.
  destruct (find_index _ _) as [i|] eqn:Hf; [|intros [= <- <-]; simpl; lia].
  rewrite bool_decide_true by done. apply find_index_lookup in Hf as (e & Hi & He).
  rewrite obind_returned. intros ([ret q] & _ & [= _ <-]). unfold free_count. simpl.
  rewrite (countP_insert _ _ _ _ _ Hi), He. unfold has_id at 2. simpl.
  replace (counter_taskId h =? VTOP_INVALID_TASK_ID) with false; [lia|].
  symmetry. apply Z.eqb_neq. unfold VTOP_INVALID_TASK_ID. lia.
Qed.

(** C38: [TASK_TAB_Add2] returns and keeps the table well formed.  It answers
    the invalid id and changes nothing when no entry is free.  Otherwise, when
    the queue of the task can be created, the id answered was not in use; it is
    now, with the name cut to 15 characters, an empty queue and no merging.
    When the queue cannot be created the caller gets the invalid id although
    the entry stays taken: each such failure uses up a free entry.  The other
    tasks are not affected in any case. *)
Theorem TASK_TAB_Add2_correct mq m st h name own :
  wf st h → counter_taskId h < 2 ^ 31 - 1 → (∀ n p, MB.malloc_buf m n = Some p → 0 < p) →
  ∃ r st' h', TASK_TAB_Add2 mq m st name own = Returned (r, st') ∧ wf st' h' ∧
    (∀ id, id ≠ VTOP_INVALID_TASK_ID → id ≠ counter_taskId h → entry_of st' id = entry_of st id) ∧
    (free_count st = 0 → r = VTOP_INVALID_TASK_ID ∧ st' = st) ∧
    (0 < free_count st → free_count st' = free_count st - 1) ∧
    (r ≠ VTOP_INVALID_TASK_ID →
       TASK_TAB_IsTaskIdExist st r = false ∧ TASK_TAB_IsTaskIdExist st' r = true ∧
       TASK_TAB_Id2Name st' r = inr (name_copy name) ∧ TASK_TAB_GetMerge st' r = VTOP_INVALID_MSG_TYPE ∧
       ∃ q, TASK_TAB_GetHandle st' r = Some q ∧ MQ.rep q (MQ.mkS [] ∅)).
Proof.
  intros Hwf Hc Hm. destruct (add2_spec mq m st h name own Hwf Hc Hm) as (r & st' & h' & Hr & Hwf' & Hcase).
  pose proof (add2_free_count _ _ _ _ _ _ _ _ Hwf Hc Hr) as Hfree. pose proof (wf_count _ _ Hwf) as Hcnt.
  exists r, st', h'. split; [done|]. split; [done|].
  destruct (find_index _ _) as [i|] eqn:Hf; simpl in Hfree.
  - destruct Hcase as (q & He & Hother & Hq). split_and!; [done| | |].
    + intros Hz. apply find_index_lookup in Hf as (e & Hi & Hx). pose proof (countP_pos _ _ _ _ Hi Hx).
      unfold free_count in Hz. lia.
    + intros _. lia.
    + intros Hne. destruct q as [q|]; [|done]. destruct Hq as [-> Hrep].
      unfold TASK_TAB_IsTaskIdExist, TASK_TAB_Id2Name, TASK_TAB_GetMerge, TASK_TAB_GetHandle.
      rewrite (wf_shm _ _ Hwf), (wf_shm _ _ Hwf'), He. simpl. rewrite name_copy_idemp. split_and!; eauto.
      apply bool_decide_false. intros [e He0]. apply (entry_of_range _ _ _ _ Hwf) in He0 as [?|?]; [done|lia].
  - destruct Hcase as [-> ->]. split_and!; try done. intros Hp. exfalso.
    unfold free_count in Hp. rewrite find_index_None in Hf.
    assert (countP (has_id VTOP_INVALID_TASK_ID) (tab st) = 0); [|lia].
    clear -Hf. induction (tab st) as [|x l IH]; [done|]. rewrite countP_cons, (Hf 0%nat x) by done.
    rewrite IH; [done|]. intros j y. apply (Hf (S j)).
Qed.

(** C15: [TASK_TAB_Del] returns and keeps the table well formed.  It frees the
    entry of the task with its queue, after which no search by id finds the
    task; for an unknown id it only reports it.  The other tasks are not
    affected. *)
Theorem TASK_TAB_Del_correct st h id :
  wf st h → id ≠ VTOP_INVALID_TASK_ID →
  ∃ r st', TASK_TAB_Del st id = Returned (r, st') ∧ wf st' h ∧
    r = (if TASK_TAB_IsTaskIdExist st id then 0 else VTOP_MSG_ERR_TASKNOTEXIST) ∧
    TASK_TAB_IsTaskIdExist st' id = false ∧ TASK_TAB_GetHandle st' id = MSG_QUEUE_INVALID_HANDLE ∧
    TASK_TAB_Id2Name st' id = inl VTOP_MSG_ERR_TASKNOTEXIST ∧
    (∀ id', id' ≠ VTOP_INVALID_TASK_ID → id' ≠ id → entry_of st' id' = entry_of st id') ∧
    free_count st' = free_count st + (if TASK_TAB_IsTaskIdExist st id then 1 else 0).
Proof.
  intros Hwf Hne. destruct (del_spec st h id Hwf Hne) as (r & st' & Hr & Hwf' & Hnone & Hother & Hcase).
  exists r, st'. unfold TASK_TAB_IsTaskIdExist, TASK_TAB_Id2Name, TASK_TAB_GetHandle.
  rewrite (wf_shm _ _ Hwf), (wf_shm _ _ Hwf'), Hnone. destruct (entry_of st id) as [e|] eqn:He.
  - destruct Hcase as (-> & i & Hi & Ht). rewrite bool_decide_true by done. split_and!; try done.
    unfold free_count. rewrite Ht, (countP_insert _ _ _ _ _ Hi).
    apply (entry_of_Some _ h) in He as (j & _ & Hj); [|done..]. unfold has_id at 2 3. rewrite Hj.
    replace (id =? VTOP_INVALID_TASK_ID) with false by (symmetry; by apply Z.eqb_neq). simpl. lia.
  - destruct Hcase as [-> ->]. split_and!; try done. simpl. lia.
Qed.

(** Names that tell the tasks apart. *)
Definition names_ok (st : TASK_STATE) : Prop :=
  ∀ i j e e', tab st !! i = Some e → tab st !! j = Some e' → taskName e = taskName e' →
    taskName e ≠ EmptyString → i = j.

Lemma strncmp_short a b :
  (String.length a ≤ 15)%nat → (String.length b ≤ 15)%nat →
  strncmp_eq a b VTOP_MSG_MAX_TASK_NAME_LEN = true ↔ a = b.
Proof.
  intros Ha Hb. unfold strncmp_eq. change (Z.to_nat VTOP_MSG_MAX_TASK_NAME_LEN) with 16%nat.
  rewrite !substring_all by lia. apply String.eqb_eq.
Qed.

(** The search by name finds the task that has the name, when names tell
    the tasks apart and the name is not empty: [TASK_TAB_Name2Id] undoes
    [TASK_TAB_Id2Name].  The empty name, which [VTOP_MSG_Register] accepts, is
    never found while a free entry comes first, so that two tasks can be added
    under it. *)
Theorem TASK_TAB_Name2Id_roundtrip st h id name :
  wf st h → names_ok st → (∀ i e, tab st !! i = Some e → (String.length (taskName e) ≤ 15)%nat) →
  id ≠ VTOP_INVALID_TASK_ID → TASK_TAB_Id2Name st id = inr name →
  (name ≠ EmptyString → TASK_TAB_Name2Id st name = id) ∧
  (find_index (has_id VTOP_INVALID_TASK_ID) (tab st) = Some 0%nat →
   TASK_TAB_IsTaskExist st EmptyString = false).
Proof.
  intros Hwf Hnames Hlen Hne. unfold TASK_TAB_IsTaskExist, TASK_TAB_Id2Name, TASK_TAB_Name2Id.
  rewrite (wf_shm _ _ Hwf). destruct (entry_of st id) as [e|] eqn:He; [|done]. intros [= Hname].
  apply (entry_of_Some _ h) in He as (i & Hi & Hid); [|done..]. pose proof (Hlen _ _ Hi) as Hl.
  assert (name_copy (taskName e) = taskName e) as Hcopy by (by apply substring_all).
  rewrite Hcopy in Hname. subst name. split.
  - intros Hnn. rewrite (find_index_unique _ _ i e Hi); [by rewrite Hi| |].
    + by apply strncmp_short.
    + intros j y Hj Hy. apply strncmp_short in Hy; [|by eapply Hlen|done].
      eapply (Hnames j i); [done|done|done|congruence].
  - intros Hf. apply find_index_lookup in Hf as (e0 & H0 & Hx%Z.eqb_eq).
    rewrite (free_entry _ _ _ _ Hwf H0 Hx) in H0. destruct (tab st) as [|e1 l]; [done|].
    simpl in H0. injection H0 as ->. done.
Qed.

(** A system of four tasks, for the concrete runs. *)
Definition started : TASK_STATE := snd (TASK_TAB_Init (snd (SHM_Init true 4 2 (mkTS None [])))).
Definition started_shm : MSG_SHM_S := default (mkShm 0 0 0 0 0 0 0 "" 0) (shm started).

Lemma started_wf : wf started started_shm.
Proof. apply (init_wf (snd (SHM_Init true 4 2 (mkTS None [])))); vm_compute; done. Qed.

Definition with_task (name : string) (st : TASK_STATE) : TASK_STATE :=
  match TASK_TAB_Add2 true MB.plain_malloc st name TASK_OWNER_TASK with Returned (_, st') => st' | _ => st end.

Lemma with_task_wf name st h :
  wf st h → counter_taskId h < 2 ^ 31 - 1 → 
  wf (with_task name st) (default h (shm (with_task name st))).
Proof.
  intros Hwf Hc.
  destruct (add2_spec true MB.plain_malloc st h name TASK_OWNER_TASK Hwf Hc MQ.plain_malloc_pos)
    as (r & st' & h' & Hr & Hwf' & _).
  unfold with_task. rewrite Hr. by rewrite (wf_shm _ _ Hwf').
Qed.

Lemma TASK_TAB_Add2_correct_witness :
  ∃ r st' h', TASK_TAB_Add2 true MB.plain_malloc started "player" TASK_OWNER_TASK = Returned (r, st') ∧ wf st' h'.
Proof.
  destruct (TASK_TAB_Add2_correct true MB.plain_malloc started started_shm "player" TASK_OWNER_TASK started_wf
              ltac:(vm_compute; reflexivity) MQ.plain_malloc_pos) as (r & st' & h' & H & Hwf & _).
  exists r, st', h'. split; assumption.
Defined.

Lemma TASK_TAB_Del_correct_witness :
  ∃ r st', TASK_TAB_Del (with_task "player" started) 0 = Returned (r, st') ∧ r = 0.
Proof.
  destruct (TASK_TAB_Del_correct (with_task "player" started) _ 0
              (with_task_wf "player" started started_shm started_wf ltac:(vm_compute; reflexivity))
              ltac:(vm_compute; discriminate)) as (r & st' & H & _ & Hr & _).
  exists r, st'. split; [exact H|]. rewrite Hr. vm_compute. reflexivity.
Defined.

Lemma TASK_TAB_Name2Id_roundtrip_witness : TASK_TAB_Name2Id (with_task "player" started) "player" = 0.
Proof.
  refine (proj1 (TASK_TAB_Name2Id_roundtrip (with_task "player" started) _ 0 "player"
    (with_task_wf "player" started started_shm started_wf ltac:(vm_compute; reflexivity)) _ _ _ _) _).
  - assert (tab (with_task "player" started) = match tab (with_task "player" started) with
      | a :: _ => [a; TASKTABInitUnit; TASKTABInitUnit; TASKTABInitUnit] | l => l end) as E by (vm_compute; reflexivity).
    intros i j e e'. rewrite E. destruct (tab (with_task "player" started)) as [|a l]; [done|].
    intros Hi Hj. destruct i as [|[|[|[|i]]]]; destruct j as [|[|[|[|j]]]]; simpl in *; simplify_eq; intros; try done; congruence.
  - intros i e. assert (Forall (λ e, (String.length (taskName e) ≤ 15)%nat) (tab (with_task "player" started))) as HF.
    { vm_compute. repeat constructor. }
    intros Hi. eapply Forall_lookup_1 in HF; [exact HF|exact Hi].
  - vm_compute. discriminate.
  - vm_compute. reflexivity.
  - discriminate.
Defined.

End TT.
