(* ===== verification/MsgSubTab.v ===== *)
(** The subscription table of [msg_submng.c].  A unit of the table belongs to
    a message type and lists the tasks that subscribed to it; a free unit has
    the invalid message type.  Adding and removing first look the type up and
    then, in a second critical section, change the unit found. *)

From S2P Require Import Prelude MsgDefs MsgPool MsgBuffer MsgQueue MsgTaskTab.

Module ST.

Record MSG_TAB_SUB_S := mkSub { msgType : Z; taskIdList : list Z }.

Definition SUBTABInitUnit (maxTaskInSub : Z) : MSG_TAB_SUB_S :=
  mkSub VTOP_INVALID_MSG_TYPE (replicate (Z.to_nat maxTaskInSub) VTOP_INVALID_TASK_ID).

Definition SUB_TAB_Init (ts : TT.TASK_STATE) (subs : list MSG_TAB_SUB_S) : Z * list MSG_TAB_SUB_S :=
  match TT.shm ts with
  | None => (VTOP_MSG_ERR_SHMATTCH, subs)
  | Some h => (0, replicate (Z.to_nat (TT.maxSubNum h)) (SUBTABInitUnit (TT.maxTaskNumInSub h)))
  end.

(** [SUB_TAB_IsExist]: the index written through [pIndex] when the answer is
    [HI_TRUE]. *)
Definition SUB_TAB_IsExist (ts : TT.TASK_STATE) (subs : list MSG_TAB_SUB_S) (ty : Z) : option nat :=
  match TT.shm ts with
  | None => None
  | Some _ => find_index (λ u, msgType u =? ty) subs
  end.

Definition is_id (id : Z) (x : Z) : bool := x =? id.

(** The locked part of [SUB_TAB_Add], after the lookup answered [found]. *)
Definition add_locked (found : option nat) (subs : list MSG_TAB_SUB_S) (ty id : Z)
  : outcome (Z * list MSG_TAB_SUB_S) :=
  match found with
  | Some unitIndex =>
      let! pUnit := oderef (subs !! unitIndex) in
      match find_index (is_id id) (taskIdList pUnit) with
      | Some _ => Returned (VTOP_MSG_ERR_SUBEXIST, subs)
      | None =>
          match find_index (is_id VTOP_INVALID_TASK_ID) (taskIdList pUnit) with
          | Some index =>
              Returned (0, <[unitIndex := mkSub (msgType pUnit) (<[index := id]> (taskIdList pUnit))]> subs)
          | None => Returned (VTOP_MSG_ERR_SUBMEMBERFULL, subs)
          end
      end
  | None =>
      match find_index (λ u, msgType u =? VTOP_INVALID_MSG_TYPE) subs with
      | Some unitIndex =>
          let! pUnit := oderef (subs !! unitIndex) in
          Returned (0, <[unitIndex := mkSub ty (<[0%nat := id]> (taskIdList pUnit))]> subs)
      | None => Returned (VTOP_MSG_ERR_SUBFULL, subs)
      end
  end.

Definition SUB_TAB_Add (ts : TT.TASK_STATE) (subs : list MSG_TAB_SUB_S) (ty id : Z)
  : outcome (Z * list MSG_TAB_SUB_S) :=
  if negb (TT.TASK_TAB_IsTaskIdExist ts id) then Returned (VTOP_MSG_ERR_TASKNOTEXIST, subs)
  else match TT.shm ts with
       | None => Returned (VTOP_MSG_ERR_SHMATTCH, subs)
       | Some _ => add_locked (SUB_TAB_IsExist ts subs ty) subs ty id
       end.

(** The locked part of [SUB_TAB_Del]. *)
Definition del_locked (unitIndex : nat) (subs : list MSG_TAB_SUB_S) (id : Z)
  : outcome (Z * list MSG_TAB_SUB_S) :=
  let! pUnit := oderef (subs !! unitIndex) in
  match find_index (is_id id) (taskIdList pUnit) with
  | None => Returned (VTOP_MSG_ERR_SUBNOTEXIST, subs)
  | Some index =>
      let l := <[index := VTOP_INVALID_TASK_ID]> (taskIdList pUnit) in
      let ty := match find_index (λ x, negb (is_id VTOP_INVALID_TASK_ID x)) l with
                | Some _ => msgType pUnit
                | None => VTOP_INVALID_MSG_TYPE
                end in
      Returned (0, <[unitIndex := mkSub ty l]> subs)
  end.

Definition SUB_TAB_Del (ts : TT.TASK_STATE) (subs : list MSG_TAB_SUB_S) (ty id : Z)
  : outcome (Z * list MSG_TAB_SUB_S) :=
  if negb (TT.TASK_TAB_IsTaskIdExist ts id) then Returned (VTOP_MSG_ERR_TASKNOTEXIST, subs)
  else match TT.shm ts with
       | None => Returned (VTOP_MSG_ERR_SHMATTCH, subs)
       | Some _ =>
           match SUB_TAB_IsExist ts subs ty with
           | None => Returned (VTOP_MSG_ERR_SUBNOTEXIST, subs)
           | Some unitIndex => del_locked unitIndex subs id
           end
       end.

(** [SUB_TAB_Sub2Task]: the ids written to the caller's array; [pNum] is what
    [*pNum] holds at the call. *)
Definition SUB_TAB_Sub2Task (ts : TT.TASK_STATE) (subs : list MSG_TAB_SUB_S) (ty pNum : Z)
  : outcome (Z + list Z) :=
  match TT.shm ts with
  | None => Returned (inl VTOP_MSG_ERR_SHMATTCH)
  | Some _ =>
      match SUB_TAB_IsExist ts subs ty with
      | None => Returned (inl VTOP_MSG_ERR_SUBNOTEXIST)
      | Some unitIndex =>
          let! pUnit := oderef (subs !! unitIndex) in
          Returned (inr (TT.fill_list (λ x, if is_id VTOP_INVALID_TASK_ID x then [] else [x]) pNum
                           (taskIdList pUnit) []))
      end
  end.

(** [SUB_TAB_Task2Sub]: the inner loop runs over the units in use. *)
Definition SUB_TAB_Task2Sub (ts : TT.TASK_STATE) (subs : list MSG_TAB_SUB_S) (id pNum : Z) : Z + list Z :=
  if negb (TT.TASK_TAB_IsTaskIdExist ts id) then inl VTOP_MSG_ERR_TASKNOTEXIST
  else match TT.shm ts with
       | None => inl VTOP_MSG_ERR_SHMATTCH
       | Some _ =>
           let slots := flat_map (λ u, if msgType u =? VTOP_INVALID_MSG_TYPE then []
                                       else (λ x, (msgType u, x)) <$> taskIdList u) subs in
           inr (TT.fill_list (λ e : Z * Z, if is_id id (snd e) then [fst e] else []) pNum slots [])
       end.

(** ** Invariant and meaning *)

Definition valid (x : Z) : bool := negb (is_id VTOP_INVALID_TASK_ID x).

Record unit_ok (K : Z) (u : MSG_TAB_SUB_S) : Prop := {
  uo_len : Z.of_nat (length (taskIdList u)) = K;
  uo_free : msgType u = VTOP_INVALID_MSG_TYPE ↔ ∀ x, x ∈ taskIdList u → valid x = false;
  uo_ids : ∀ i j x, taskIdList u !! i = Some x → taskIdList u !! j = Some x → valid x = true → i = j
}.

Record wf (K : Z) (subs : list MSG_TAB_SUB_S) : Prop := {
  wf_unit : ∀ i u, subs !! i = Some u → unit_ok K u;
  wf_types : ∀ i j u u', subs !! i = Some u → subs !! j = Some u' → msgType u = msgType u' →
             msgType u ≠ VTOP_INVALID_MSG_TYPE → i = j
}.

(** The task [id] subscribed to the type [ty]. *)
Definition subscribed (subs : list MSG_TAB_SUB_S) (ty id : Z) : Prop :=
  ∃ i u, subs !! i = Some u ∧ msgType u = ty ∧ id ∈ taskIdList u.

Lemma valid_true x : valid x = true ↔ x ≠ VTOP_INVALID_TASK_ID.
Proof. unfold valid, is_id. rewrite negb_true_iff. apply Z.eqb_neq. Qed.

Lemma sub_init_wf K n : wf K (replicate n (SUBTABInitUnit K)) ∨ K < 0.
Proof.
  destruct (decide (K < 0)); [by right|left]. split.
  - intros i u [-> _]%lookup_replicate. split; simpl.
    + rewrite length_replicate. lia.
    + split; [|done]. intros _ x [-> _]%elem_of_replicate. done.
    + intros a b x [-> _]%lookup_replicate. done.
  - by intros i j u u' [-> _]%lookup_replicate.
Qed.

(** Replacing a unit. *)
Lemma sub_wf_insert K subs i u u' :
  wf K subs → subs !! i = Some u → unit_ok K u' →
  (msgType u' ≠ VTOP_INVALID_MSG_TYPE → ∀ j v, j ≠ i → subs !! j = Some v → msgType v ≠ msgType u') →
  wf K (<[i := u']> subs).
Proof.
  intros Hwf Hi Hu Hty. split.
  - intros j v [(-> & <- & _)|[_ Hj]]%list_lookup_insert_Some; [done|by apply (wf_unit _ _ Hwf j)].
  - intros j k v w [(-> & <- & _)|[Hij Hj]]%list_lookup_insert_Some
      [(-> & <- & _)|[Hik Hk]]%list_lookup_insert_Some Heq Hne; try done.
    + exfalso. apply (Hty Hne k w); congruence.
    + exfalso. apply (Hty ltac:(congruence) j v); congruence.
    + by eapply (wf_types _ _ Hwf).
Qed.

Lemma subscribed_insert subs i u u' ty id :
  subs !! i = Some u →
  subscribed (<[i := u']> subs) ty id ↔
  (msgType u' = ty ∧ id ∈ taskIdList u') ∨ ∃ j v, j ≠ i ∧ subs !! j = Some v ∧ msgType v = ty ∧ id ∈ taskIdList v.
Proof.
  intros Hi. unfold subscribed. setoid_rewrite list_lookup_insert_Some. split.
  - intros (j & v & [(-> & <- & _)|[Hij Hj]] & Hty & Hin); [by left|right; eauto 7].
  - intros [[Hty Hin]|(j & v & Hij & Hj & Hty & Hin)].
    + exists i, u'. split; [|done]. left. split_and!; try done. by eapply lookup_lt_Some.
    + exists j, v. split; [|done]. right. done.
Qed.

Lemma subscribed_split subs i u ty id :
  subs !! i = Some u →
  subscribed subs ty id ↔
  (msgType u = ty ∧ id ∈ taskIdList u) ∨ ∃ j v, j ≠ i ∧ subs !! j = Some v ∧ msgType v = ty ∧ id ∈ taskIdList v.
Proof.
  intros Hi. rewrite <-(subscribed_insert subs i u u ty id Hi). by rewrite list_insert_id.
Qed.

(** With one unit for a type, its subscribers are those of the unit. *)
Lemma subscribed_unit K subs i u ty id :
  wf K subs → subs !! i = Some u → msgType u = ty → ty ≠ VTOP_INVALID_MSG_TYPE →
  subscribed subs ty id ↔ id ∈ taskIdList u.
Proof.
  intros Hwf Hi <- Hne. rewrite (subscribed_split subs i u) by done. split; [|by left].
  intros [[_ ?]|(j & v & Hij & Hj & Hty & _)]; [done|]. exfalso. apply Hij.
  eapply (wf_types _ _ Hwf); [done|done|done|congruence].
Qed.

Lemma find_is_id id l :
  match find_index (is_id id) l with Some i => l !! i = Some id | None => id ∉ l end.
Proof.
  destruct (find_index (is_id id) l) as [i|] eqn:E.
  - apply find_index_lookup in E as (x & ? & ?%Z.eqb_eq). congruence.
  - intros [i Hi]%list_elem_of_lookup. rewrite find_index_None in E. specialize (E _ _ Hi).
    unfold is_id in E. by rewrite Z.eqb_refl in E.
Qed.

Lemma elem_of_insert_id (l : list Z) i x y z :
  l !! i = Some x → (∀ j, l !! j = Some x → z = x → j = i) → 
  z ∈ <[i := y]> l ↔ z = y ∨ (z ∈ l ∧ z ≠ x).
Proof.
  intros Hi Hu. rewrite !list_elem_of_lookup. setoid_rewrite list_lookup_insert_Some. split.
  - intros (j & [(-> & <- & _)|[Hij Hj]]); [by left|]. right. split; [eauto|].
    intros ->. apply Hij. symmetry. by apply Hu.
  - intros [->|[(j & Hj) Hne]].
    + exists i. left. split_and!; try done. by eapply lookup_lt_Some.
    + exists j. right. split; [|done]. intros ->. congruence.
Qed.

Lemma unit_ok_insert K u i x y ty' :
  unit_ok K u → taskIdList u !! i = Some x → (valid y = true → y ∉ taskIdList u) →
  (ty' = VTOP_INVALID_MSG_TYPE ↔ ∀ z, z ∈ <[i := y]> (taskIdList u) → valid z = false) →
  unit_ok K (mkSub ty' (<[i := y]> (taskIdList u))).
Proof.
  intros Hu Hi Hy Hty. split; simpl; [rewrite length_insert; apply Hu|done|].
  intros a b z [(-> & <- & _)|[Ha Hla]]%list_lookup_insert_Some
    [(Hab & Hz & _)|[Hb Hlb]]%list_lookup_insert_Some Hv; try done.
  - exfalso. by apply Hy, (list_elem_of_lookup_2 _ b).
  - subst. exfalso. by apply Hy, (list_elem_of_lookup_2 _ a).
  - by apply (uo_ids _ _ Hu a b z).
Qed.

Lemma not_all_invalid (l : list Z) x : valid x = true → x ∈ l → ¬ (∀ z, z ∈ l → valid z = false).
Proof. intros Hv Hin H. rewrite (H x Hin) in Hv. done. Qed.

Lemma task_exists ts id : TT.TASK_TAB_IsTaskIdExist ts id = true → ∃ h, TT.shm ts = Some h.
Proof. unfold TT.TASK_TAB_IsTaskIdExist. destruct (TT.shm ts) as [h|]; [eauto|done]. Qed.

Lemma IsExist_spec K ts h subs ty :
  wf K subs → TT.shm ts = Some h → ty ≠ VTOP_INVALID_MSG_TYPE →
  match SUB_TAB_IsExist ts subs ty with
  | Some i => ∃ u, subs !! i = Some u ∧ msgType u = ty
  | None => ∀ j v, subs !! j = Some v → msgType v ≠ ty
  end.
Proof.
  intros Hwf Hs Hne. unfold SUB_TAB_IsExist. rewrite Hs. destruct (find_index _ _) as [i|] eqn:E.
  - apply find_index_lookup in E as (u & ? & ?%Z.eqb_eq). eauto.
  - intros j v Hj. rewrite find_index_None in E. specialize (E _ _ Hj). by apply Z.eqb_neq.
Qed.

(** Adding to the unit of the type. *)
Lemma add_member K subs i u ty id j :
  wf K subs → subs !! i = Some u → msgType u = ty → ty ≠ VTOP_INVALID_MSG_TYPE → valid id = true →
  id ∉ taskIdList u → taskIdList u !! j = Some VTOP_INVALID_TASK_ID →
  let subs' := <[i := mkSub (msgType u) (<[j := id]> (taskIdList u))]> subs in
  wf K subs' ∧ ∀ ty' id', valid id' = true →
    subscribed subs' ty' id' ↔ subscribed subs ty' id' ∨ (ty' = ty ∧ id' = id).
Proof.
  intros Hwf Hi Hty Hne Hv Hni Hj subs'. pose proof (wf_unit _ _ Hwf _ _ Hi) as Hu.
  assert (∀ z, valid z = true → z ∈ <[j := id]> (taskIdList u) ↔ z = id ∨ z ∈ taskIdList u) as Hin.
  { intros z Hz. rewrite (elem_of_insert_id _ _ VTOP_INVALID_TASK_ID) by (done || intros ? _ ->; done).
    apply valid_true in Hz. tauto. }
  assert (id ∈ <[j := id]> (taskIdList u)) as Hmem by (apply Hin; [done|by left]).
  split.
  - apply (sub_wf_insert K subs i u); [done|done| |].
    + apply (unit_ok_insert _ _ _ VTOP_INVALID_TASK_ID); try done. rewrite Hty.
      split; [done|]. intros H. by apply not_all_invalid with (x := id) in H.
    + intros _ k v Hki Hk Heq. apply Hki. simpl in Heq. eapply (wf_types _ _ Hwf); [done|done|done|congruence].
  - intros ty' id' Hv'. subst subs'. rewrite (subscribed_insert _ _ u), (subscribed_split _ _ u) by done. simpl.
    rewrite Hin by done. rewrite Hty. naive_solver.
Qed.

(** Taking a free unit for the type. *)
Lemma add_unit K subs i u ty id :
  0 < K → wf K subs → subs !! i = Some u → msgType u = VTOP_INVALID_MSG_TYPE →
  ty ≠ VTOP_INVALID_MSG_TYPE → (∀ j v, subs !! j = Some v → msgType v ≠ ty) → valid id = true →
  let subs' := <[i := mkSub ty (<[0%nat := id]> (taskIdList u))]> subs in
  wf K subs' ∧ ∀ ty' id', valid id' = true →
    subscribed subs' ty' id' ↔ subscribed subs ty' id' ∨ (ty' = ty ∧ id' = id).
Proof.
  intros HK Hwf Hi Hfree Hne Hno Hv subs'. pose proof (wf_unit _ _ Hwf _ _ Hi) as Hu.
  pose proof (proj1 (uo_free _ _ Hu) Hfree) as Hall.
  destruct (lookup_lt_is_Some_2 (taskIdList u) 0) as [x Hx]; [pose proof (uo_len _ _ Hu); lia|].
  assert (∀ z, valid z = true → z ∉ taskIdList u) as Hnone.
  { intros z Hz Hin. rewrite (Hall z Hin) in Hz. done. }
  assert (∀ z, valid z = true → z ∈ <[0%nat := id]> (taskIdList u) ↔ z = id) as Hin.
  { intros z Hz. split.
    - intros [k [(_ & ? & _)|[_ Hk]]%list_lookup_insert_Some]%list_elem_of_lookup; [done|].
      exfalso. by apply (Hnone z), (list_elem_of_lookup_2 _ k).
    - intros ->. apply (list_elem_of_lookup_2 _ 0%nat), list_lookup_insert_eq. by eapply lookup_lt_Some. }
  split.
  - apply (sub_wf_insert K subs i u); [done|done| |].
    + apply (unit_ok_insert _ _ _ x); try done; [by intros; apply Hnone|].
      split; [done|]. intros H. apply not_all_invalid with (x := id) in H; [done|done|by apply Hin].
    + intros _ k v _ Hk. by apply (Hno k).
  - intros ty' id' Hv'. subst subs'. rewrite (subscribed_insert _ _ u), (subscribed_split _ _ u) by done. simpl.
    rewrite Hin by done. specialize (Hnone id' Hv'). naive_solver.
Qed.

Lemma add_spec K ts subs ty id :
  0 < K → wf K subs → TT.TASK_TAB_IsTaskIdExist ts id = true →
  ty ≠ VTOP_INVALID_MSG_TYPE → id ≠ VTOP_INVALID_TASK_ID →
  ∃ r subs', SUB_TAB_Add ts subs ty id = Returned (r, subs') ∧ wf K subs' ∧
    ((r = 0 ∧ ¬ subscribed subs ty id ∧
      ∀ ty' id', id' ≠ VTOP_INVALID_TASK_ID →
        subscribed subs' ty' id' ↔ subscribed subs ty' id' ∨ (ty' = ty ∧ id' = id)) ∨
     (subs' = subs ∧ r = VTOP_MSG_ERR_SUBEXIST ∧ subscribed subs ty id) ∨
     (subs' = subs ∧ r = VTOP_MSG_ERR_SUBMEMBERFULL ∧
      ∃ i u, subs !! i = Some u ∧ msgType u = ty ∧ ∀ x, x ∈ taskIdList u → valid x = true) ∨
     (subs' = subs ∧ r = VTOP_MSG_ERR_SUBFULL ∧
      ∀ i u, subs !! i = Some u → msgType u ≠ VTOP_INVALID_MSG_TYPE ∧ msgType u ≠ ty)).
Proof.
  intros HK Hwf Hex Hty Hid. assert (valid id = true) as Hv by (by apply valid_true).
  unfold SUB_TAB_Add. rewrite Hex. simpl. destruct (task_exists _ _ Hex) as [h Hs]. rewrite Hs.
  pose proof (IsExist_spec K ts h subs ty Hwf Hs Hty) as Hfound.
  destruct (SUB_TAB_IsExist ts subs ty) as [i|]; unfold add_locked.
  - destruct Hfound as (u & Hi & Hu). rewrite Hi. cbn [oderef obind].
    pose proof (find_is_id id (taskIdList u)) as Hf. pose proof (subscribed_unit K subs i u ty id Hwf Hi Hu Hty) as Hsub.
    destruct (find_index (is_id id) _) as [k|].
    { eexists _, _. split; [done|]. split; [done|]. right; left. split_and!; try done.
      apply Hsub. by eapply list_elem_of_lookup_2. }
    pose proof (find_is_id VTOP_INVALID_TASK_ID (taskIdList u)) as Hf2.
    destruct (find_index _ (taskIdList u)) as [k|] eqn:Ek.
    + destruct (add_member K subs i u ty id k Hwf Hi Hu Hty Hv Hf Hf2) as [Hwf' Hrel].
      eexists _, _. split; [done|]. split; [done|]. left. split_and!; [done|tauto|].
      intros ty' id' Hne. apply Hrel. by apply valid_true.
    + eexists _, _. split; [done|]. split; [done|]. right; right; left. split_and!; try done.
      exists i, u. split_and!; try done. intros x Hin. apply valid_true. by intros ->.
  - destruct (find_index _ subs) as [i|] eqn:Ef.
    + apply find_index_lookup in Ef as (u & Hi & Hu%Z.eqb_eq). rewrite Hi. cbn [oderef obind].
      destruct (add_unit K subs i u ty id HK Hwf Hi Hu Hty Hfound Hv) as [Hwf' Hrel].
      eexists _, _. split; [done|]. split; [done|]. left. split_and!; [done| |].
      * intros (j & v & Hj & Hjt & _). by apply (Hfound j v).
      * intros ty' id' Hne. apply Hrel. by apply valid_true.
    + eexists _, _. split; [done|]. split; [done|]. right; right; right. split_and!; try done.
      intros i u Hi. rewrite find_index_None in Ef. specialize (Ef _ _ Hi). split; [by apply Z.eqb_neq|].
      by apply (Hfound i).
Qed.

(** Removing a member; an emptied unit becomes free. *)
Lemma del_member K subs i u ty id j :
  wf K subs → subs !! i = Some u → msgType u = ty → ty ≠ VTOP_INVALID_MSG_TYPE → valid id = true →
  taskIdList u !! j = Some id →
  let l := <[j := VTOP_INVALID_TASK_ID]> (taskIdList u) in
  let ty1 := match find_index (λ x, negb (is_id VTOP_INVALID_TASK_ID x)) l with
             | Some _ => msgType u | None => VTOP_INVALID_MSG_TYPE end in
  let subs' := <[i := mkSub ty1 l]> subs in
  wf K subs' ∧ ∀ ty' id', valid id' = true →
    subscribed subs' ty' id' ↔ subscribed subs ty' id' ∧ ¬ (ty' = ty ∧ id' = id).
Proof.
  intros Hwf Hi Hty Hne Hv Hj l ty1 subs'. pose proof (wf_unit _ _ Hwf _ _ Hi) as Hu.
  assert (∀ z, valid z = true → z ∈ l ↔ z ∈ taskIdList u ∧ z ≠ id) as Hin.
  { intros z Hz. unfold l. rewrite (elem_of_insert_id _ _ id); [|done|].
    - apply valid_true in Hz. tauto.
    - intros k Hk _. by apply (uo_ids _ _ Hu k j id). }
  assert (ty1 = VTOP_INVALID_MSG_TYPE ∧ (∀ z, z ∈ l → valid z = false) ∨
          ty1 = ty ∧ ∃ z, z ∈ l ∧ valid z = true) as Hty1.
  { subst ty1. destruct (find_index _ l) as [k|] eqn:Ek.
    - right. apply find_index_lookup in Ek as (z & Hk & Hz). split; [done|]. exists z.
      split; [by eapply list_elem_of_lookup_2|done].
    - left. split; [done|]. intros z [k Hk]%list_elem_of_lookup. rewrite find_index_None in Ek. by eapply Ek. }
  split.
  - apply (sub_wf_insert K subs i u); [done|done| |].
    + apply (unit_ok_insert _ _ _ id); try done. fold l.
      destruct Hty1 as [[-> Hall]|[-> (z & Hz & Hzv)]]; [done|]. split; [congruence|].
      intros H. by apply not_all_invalid with (x := z) in H.
    + intros Hn k v Hki Hk Heq. simpl in Hn, Heq. apply Hki.
      destruct Hty1 as [[? _]|[-> _]]; [done|]. eapply (wf_types _ _ Hwf); [done|done|congruence|congruence].
  - intros ty' id' Hv'. subst subs'. rewrite (subscribed_insert _ _ u), (subscribed_split _ _ u) by done. simpl.
    rewrite Hin by done.
    assert (∀ k v, k ≠ i → subs !! k = Some v → msgType v ≠ ty) as Hoth.
    { intros k v Hki Hk Heq. apply Hki. eapply (wf_types _ _ Hwf); [done|done|congruence|congruence]. }
    assert (id' ∈ taskIdList u → id' ≠ id → ty1 = ty) as Hkeep.
    { intros Hm Hn. destruct Hty1 as [[_ Hall]|[? _]]; [|done].
      exfalso. assert (id' ∈ l) as Hl by (by apply Hin). rewrite (Hall _ Hl) in Hv'. done. }
    rewrite Hty. split.
    + intros [[Ht [Hm Hn]]|(k & v & Hki & Hk & Ht & Hm)].
      * rewrite Hkeep in Ht by done. split; [by left|naive_solver].
      * split; [right; eauto 6|]. intros [-> _]. by apply (Hoth k v).
    + intros [[[Ht Hm]|(k & v & Hki & Hk & Ht & Hm)] Hnot].
      * assert (id' ≠ id) by (intros ->; by apply Hnot). left. split; [|done]. by rewrite Hkeep.
      * right. eauto 6.
Qed.

Lemma sub_del_spec K ts subs ty id :
  wf K subs → TT.TASK_TAB_IsTaskIdExist ts id = true →
  ty ≠ VTOP_INVALID_MSG_TYPE → id ≠ VTOP_INVALID_TASK_ID →
  ∃ r subs', SUB_TAB_Del ts subs ty id = Returned (r, subs') ∧ wf K subs' ∧
    length subs' = length subs ∧
    ((r = 0 ∧ subscribed subs ty id) ∨ (r = VTOP_MSG_ERR_SUBNOTEXIST ∧ ¬ subscribed subs ty id)) ∧
    ∀ ty' id', id' ≠ VTOP_INVALID_TASK_ID →
      subscribed subs' ty' id' ↔ subscribed subs ty' id' ∧ ¬ (ty' = ty ∧ id' = id).
Proof.
  intros Hwf Hex Hty Hid. assert (valid id = true) as Hv by (by apply valid_true).
  unfold SUB_TAB_Del. rewrite Hex. simpl. destruct (task_exists _ _ Hex) as [h Hs]. rewrite Hs.
  pose proof (IsExist_spec K ts h subs ty Hwf Hs Hty) as Hfound.
  destruct (SUB_TAB_IsExist ts subs ty) as [i|].
  - destruct Hfound as (u & Hi & Hu). unfold del_locked. rewrite Hi. cbn [oderef obind].
    pose proof (find_is_id id (taskIdList u)) as Hf. pose proof (subscribed_unit K subs i u ty id Hwf Hi Hu Hty) as Hsub.
    destruct (find_index (is_id id) _) as [j|].
    + destruct (del_member K subs i u ty id j Hwf Hi Hu Hty Hv Hf) as [Hwf' Hrel].
      eexists _, _. split; [done|]. split; [done|]. split; [apply length_insert|]. split.
      * left. split; [done|]. apply Hsub. by eapply list_elem_of_lookup_2.
      * intros ty' id' Hne. apply Hrel. by apply valid_true.
    + eexists _, _. split; [done|]. split; [done|]. split; [done|]. split; [right; tauto|].
      intros ty' id' Hne. split; [|tauto]. intros H. split; [done|]. intros [-> ->]. tauto.
  - eexists _, _. split; [done|]. split; [done|]. split; [done|].
    assert (¬ subscribed subs ty id) as Hno by (intros (j & v & Hj & Ht & _); by apply (Hfound j v)).
    split; [by right|]. intros ty' id' Hne. split; [|tauto]. intros H. split; [done|]. by intros [-> ->].
Qed.

(** The types a task subscribed to. *)
Definition types_of (subs : list MSG_TAB_SUB_S) (id : Z) : list Z :=
  flat_map (λ u, if msgType u =? VTOP_INVALID_MSG_TYPE then []
                 else if bool_decide (id ∈ taskIdList u) then [msgType u] else []) subs.

Lemma flat_map_ids (ty id : Z) (l : list Z) :
  (∀ i j, l !! i = Some id → l !! j = Some id → i = j) →
  flat_map (λ e : Z * Z, if is_id id (snd e) then [fst e] else []) ((λ x, (ty, x)) <$> l)
  = if bool_decide (id ∈ l) then [ty] else [].
Proof.
  induction l as [|x l IH]; intros Hu; [done|].
  rewrite fmap_cons. cbn [flat_map fst snd]. unfold is_id at 1.
  assert (∀ i j, l !! i = Some id → l !! j = Some id → i = j) as Hu'
    by (intros i j Hi Hj; assert (S i = S j) by (by apply Hu); lia).
  rewrite IH by done.
  destruct (x =? id) eqn:E; bool_to_prop.
  - subst x. rewrite (bool_decide_true (id ∈ id :: l)) by apply list_elem_of_here.
    rewrite bool_decide_false; [done|]. intros [j Hj]%list_elem_of_lookup. by specialize (Hu 0%nat (S j) eq_refl Hj).
  - simpl. rewrite (bool_decide_ext (id ∈ x :: l) (id ∈ l)); [done|]. rewrite elem_of_cons. intuition congruence.
Qed.

Lemma slots_types K subs id :
  wf K subs → valid id = true →
  flat_map (λ e : Z * Z, if is_id id (snd e) then [fst e] else [])
    (flat_map (λ u, if msgType u =? VTOP_INVALID_MSG_TYPE then [] else (λ x, (msgType u, x)) <$> taskIdList u) subs)
  = types_of subs id.
Proof.
  intros Hwf Hv. assert (∀ i u, subs !! i = Some u → unit_ok K u) as Hu by apply Hwf. clear Hwf.
  unfold types_of. induction subs as [|u subs IH]; simpl; [done|].
  rewrite flat_map_app, IH by (intros i; apply (Hu (S i))). f_equal.
  destruct (msgType u =? VTOP_INVALID_MSG_TYPE); [done|]. apply flat_map_ids.
  intros i j Hi Hj. by apply (uo_ids _ _ (Hu 0%nat u eq_refl) i j id).
Qed.

Lemma types_of_length subs id : (length (types_of subs id) ≤ length subs)%nat.
Proof.
  unfold types_of. induction subs as [|u subs IH]; simpl; [done|]. rewrite length_app.
  destruct (_ =? _); simpl; [lia|]. destruct (bool_decide _); simpl; lia.
Qed.

Lemma types_of_in K subs id ty :
  wf K subs → ty ∈ types_of subs id ↔ ty ≠ VTOP_INVALID_MSG_TYPE ∧ subscribed subs ty id.
Proof.
  intros _. unfold types_of. rewrite list_elem_of_In, in_flat_map. setoid_rewrite <-list_elem_of_In.
  unfold subscribed. split.
  - intros (u & [i Hi]%list_elem_of_lookup & Hin). destruct (_ =? _) eqn:E; bool_to_prop; [by apply elem_of_nil in Hin|].
    destruct (bool_decide _) eqn:Eb; bool_to_prop; [|by apply elem_of_nil in Hin].
    apply list_elem_of_singleton in Hin as ->. eauto 6.
  - intros (Hne & i & u & Hi & <- & Hin). exists u. split; [by eapply list_elem_of_lookup_2|].
    replace (msgType u =? VTOP_INVALID_MSG_TYPE) with false by (symmetry; by apply Z.eqb_neq).
    rewrite bool_decide_true by done. apply list_elem_of_here.
Qed.

Lemma types_of_nodup K subs id : wf K subs → NoDup (types_of subs id).
Proof.
  intros Hwf. assert (∀ i j u u', subs !! i = Some u → subs !! j = Some u' → msgType u = msgType u' →
             msgType u ≠ VTOP_INVALID_MSG_TYPE → i = j) as Ht by apply Hwf. clear Hwf.
  unfold types_of. induction subs as [|u subs IH]; simpl; [constructor|].
  assert (NoDup (types_of subs id)) as Hnd.
  { apply IH. intros i j v w Hi Hj He Hn. assert (S i = S j) by (by apply (Ht (S i) (S j) v w)). lia. }
  destruct (_ =? _) eqn:E; bool_to_prop; [done|]. destruct (bool_decide _); [|done]. simpl. apply NoDup_cons.
  split; [|done]. rewrite list_elem_of_In, in_flat_map. intros (v & Hv & Hin).
  apply list_elem_of_In, list_elem_of_lookup in Hv as [j Hj].
  assert (msgType v = msgType u) as He.
  { destruct (msgType v =? VTOP_INVALID_MSG_TYPE); [done|]. destruct (bool_decide _); [|done]. by destruct Hin as [->|[]]. }
  by specialize (Ht 0%nat (S j) u v eq_refl Hj (eq_sym He) E).
Qed.

Lemma task2sub_all K ts subs id cap :
  wf K subs → TT.TASK_TAB_IsTaskIdExist ts id = true → id ≠ VTOP_INVALID_TASK_ID →
  Z.of_nat (length subs) ≤ cap → SUB_TAB_Task2Sub ts subs id cap = inr (types_of subs id).
Proof.
  intros Hwf Hex Hid Hcap. unfold SUB_TAB_Task2Sub. rewrite Hex. simpl.
  destruct (task_exists _ _ Hex) as [h ->]. f_equal.
  rewrite TT.fill_list_all; simpl; rewrite (slots_types K) by (done || by apply valid_true); [done|].
  pose proof (types_of_length subs id). lia.
Qed.

Lemma valid_flat_map l : flat_map (λ x, if is_id VTOP_INVALID_TASK_ID x then [] else [x]) l = List.filter valid l.
Proof. unfold valid. induction l as [|x l IH]; simpl; [done|]. destruct (is_id _ x); simpl; by rewrite IH. Qed.

(** ** Theorems *)

(** Subscribing.  [SUB_TAB_Add] returns and keeps the table well formed.
    It succeeds exactly by adding the pair of type and task, which was not in
    the table, to the subscriptions; it refuses a pair that is there, a type
    whose unit has no place left, and a new type when no unit is free, and then
    changes nothing. *)
Theorem SUB_TAB_Add_correct K ts subs ty id :
  0 < K → wf K subs → TT.TASK_TAB_IsTaskIdExist ts id = true →
  ty ≠ VTOP_INVALID_MSG_TYPE → id ≠ VTOP_INVALID_TASK_ID →
  ∃ r subs', SUB_TAB_Add ts subs ty id = Returned (r, subs') ∧ wf K subs' ∧
    ((r = 0 ∧ ¬ subscribed subs ty id ∧
      ∀ ty' id', id' ≠ VTOP_INVALID_TASK_ID →
        subscribed subs' ty' id' ↔ subscribed subs ty' id' ∨ (ty' = ty ∧ id' = id)) ∨
     (subs' = subs ∧ r = VTOP_MSG_ERR_SUBEXIST ∧ subscribed subs ty id) ∨
     (subs' = subs ∧ r = VTOP_MSG_ERR_SUBMEMBERFULL ∧
      ∃ i u, subs !! i = Some u ∧ msgType u = ty ∧ ∀ x, x ∈ taskIdList u → valid x = true) ∨
     (subs' = subs ∧ r = VTOP_MSG_ERR_SUBFULL ∧
      ∀ i u, subs !! i = Some u → msgType u ≠ VTOP_INVALID_MSG_TYPE ∧ msgType u ≠ ty)).
Proof. apply add_spec. Qed.

(** Unsubscribing.  [SUB_TAB_Del] returns and keeps the table well formed,
    which includes that a unit whose last task leaves becomes free again.  It
    succeeds exactly when the task was subscribed; afterwards that pair is gone
    and the other subscriptions are as they were. *)
Theorem SUB_TAB_Del_correct K ts subs ty id :
  wf K subs → TT.TASK_TAB_IsTaskIdExist ts id = true →
  ty ≠ VTOP_INVALID_MSG_TYPE → id ≠ VTOP_INVALID_TASK_ID →
  ∃ r subs', SUB_TAB_Del ts subs ty id = Returned (r, subs') ∧ wf K subs' ∧
    ((r = 0 ∧ subscribed subs ty id) ∨ (r = VTOP_MSG_ERR_SUBNOTEXIST ∧ ¬ subscribed subs ty id)) ∧
    ∀ ty' id', id' ≠ VTOP_INVALID_TASK_ID →
      subscribed subs' ty' id' ↔ subscribed subs ty' id' ∧ ¬ (ty' = ty ∧ id' = id).
Proof.
  intros Hwf Hex Hty Hid. destruct (sub_del_spec K ts subs ty id Hwf Hex Hty Hid) as (r & subs' & ? & ? & _ & ? & ?). eauto 6.
Qed.

(** The two listings.  With room for every unit [SUB_TAB_Task2Sub] lists
    each type the task subscribed to once and nothing else; with room for the
    members of a unit [SUB_TAB_Sub2Task] lists exactly the subscribers of the
    type. *)
Theorem SUB_TAB_listings K ts subs id ty capT capS :
  wf K subs → TT.TASK_TAB_IsTaskIdExist ts id = true → id ≠ VTOP_INVALID_TASK_ID →
  ty ≠ VTOP_INVALID_MSG_TYPE → subscribed subs ty id → Z.of_nat (length subs) ≤ capT → K ≤ capS →
  (∃ types, SUB_TAB_Task2Sub ts subs id capT = inr types ∧ NoDup types ∧
     ∀ ty', ty' ∈ types ↔ ty' ≠ VTOP_INVALID_MSG_TYPE ∧ subscribed subs ty' id) ∧
  (∃ ids, SUB_TAB_Sub2Task ts subs ty capS = Returned (inr ids) ∧
     ∀ id', id' ∈ ids ↔ id' ≠ VTOP_INVALID_TASK_ID ∧ subscribed subs ty id').
Proof.
  intros Hwf Hex Hid Hty Hsub HcapT HcapS. split.
  - exists (types_of subs id). split_and!; [by apply (task2sub_all K)|by apply (types_of_nodup K)|].
    intros ty'. by apply (types_of_in K).
  - destruct (task_exists _ _ Hex) as [h Hs]. unfold SUB_TAB_Sub2Task. rewrite Hs.
    pose proof (IsExist_spec K ts h subs ty Hwf Hs Hty) as Hfound.
    destruct (SUB_TAB_IsExist ts subs ty) as [i|].
    + destruct Hfound as (u & Hi & Hu). rewrite Hi. cbn [oderef obind].
      pose proof (uo_len _ _ (wf_unit _ _ Hwf _ _ Hi)) as Hlen.
      rewrite TT.fill_list_all; simpl; rewrite valid_flat_map.
      * eexists. split; [done|]. intros id'.
        rewrite (subscribed_unit K subs i u ty) by done. rewrite list_elem_of_In, filter_In, <-list_elem_of_In, valid_true.
        tauto.
      * pose proof (List.filter_length_le valid (taskIdList u)). lia.
    + destruct Hsub as (j & v & Hj & Ht & _). by destruct (Hfound j v).
Qed.

(** Two tasks and a table of two units, for the concrete runs. *)
Definition two_tasks : TT.TASK_STATE := TT.with_task "b" (TT.with_task "a" TT.started).
Definition no_subs : list MSG_TAB_SUB_S := snd (SUB_TAB_Init two_tasks []).
Definition one_sub : list MSG_TAB_SUB_S :=
  match SUB_TAB_Add two_tasks no_subs 7 0 with Returned (_, s) => s | _ => [] end.

Lemma no_subs_wf : wf 4 no_subs.
Proof. destruct (sub_init_wf 4 2) as [H|H]; [exact H|lia]. Qed.

Lemma one_sub_wf : wf 4 one_sub ∧ subscribed one_sub 7 0.
Proof.
  assert (SUB_TAB_Add two_tasks no_subs 7 0 = Returned (0, one_sub)) as E by (vm_compute; reflexivity).
  destruct (add_spec 4 two_tasks no_subs 7 0 ltac:(lia) no_subs_wf ltac:(vm_compute; reflexivity)
    ltac:(discriminate) ltac:(discriminate)) as (r & subs' & Hr & Hwf & Hcase).
  revert E Hr Hcase. generalize one_sub, no_subs. intros s s0 E Hr Hcase.
  rewrite E in Hr. injection Hr as <- <-. split; [done|].
  destruct Hcase as [(_ & _ & H)|[(_ & H & _)|[(_ & H & _)|(_ & H & _)]]]; [|discriminate H..].
    apply H; [done|by right].
Qed.

Lemma SUB_TAB_Add_correct_witness :
  ∃ r subs', SUB_TAB_Add two_tasks no_subs 7 0 = Returned (r, subs') ∧ wf 4 subs'.
Proof.
  destruct (SUB_TAB_Add_correct 4 two_tasks no_subs 7 0 ltac:(lia) no_subs_wf ltac:(vm_compute; reflexivity)
    ltac:(discriminate) ltac:(discriminate)) as (r & subs' & H & Hwf & _).
  exists r, subs'. split; assumption.
Defined.

Lemma SUB_TAB_Del_correct_witness :
  ∃ r subs', SUB_TAB_Del two_tasks one_sub 7 0 = Returned (r, subs') ∧ wf 4 subs'.
Proof.
  destruct (SUB_TAB_Del_correct 4 two_tasks one_sub 7 0 (proj1 one_sub_wf) ltac:(vm_compute; reflexivity)
    ltac:(discriminate) ltac:(discriminate)) as (r & subs' & H & Hwf & _).
  exists r, subs'. split; assumption.
Defined.

Lemma SUB_TAB_listings_witness :
  ∃ types, SUB_TAB_Task2Sub two_tasks one_sub 0 2 = inr types ∧ NoDup types.
Proof.
  destruct (SUB_TAB_listings 4 two_tasks one_sub 0 7 2 4 (proj1 one_sub_wf) ltac:(vm_compute; reflexivity)
    ltac:(discriminate) ltac:(discriminate) (proj2 one_sub_wf) ltac:(vm_compute; discriminate) ltac:(lia))
    as [(types & H & Hnd & _) _].
  exists types. split; assumption.
Defined.

(** The lookup and the insertion of [SUB_TAB_Add] are two critical
    sections.  When two threads subscribe two tasks to the same new type and
    both look it up before either inserts, both insertions succeed and the type
    has two units; the second of them is never found again, so a message of the
    type reaches only the first task, and the second task cannot unsubscribe. *)
Theorem SUB_TAB_Add_race :
  let found_a := SUB_TAB_IsExist two_tasks no_subs 7 in
  let found_b := SUB_TAB_IsExist two_tasks no_subs 7 in
  ∃ subs1 subs2,
    add_locked found_a no_subs 7 0 = Returned (0, subs1) ∧ add_locked found_b subs1 7 1 = Returned (0, subs2) ∧
    subscribed subs2 7 0 ∧ subscribed subs2 7 1 ∧
    SUB_TAB_Sub2Task two_tasks subs2 7 4 = Returned (inr [0]) ∧
    SUB_TAB_Del two_tasks subs2 7 1 = Returned (VTOP_MSG_ERR_SUBNOTEXIST, subs2).
Proof.
  intros found_a found_b. do 2 eexists. split; [vm_compute; reflexivity|]. split; [vm_compute; reflexivity|].
  split_and!.
  - exists 0%nat. eexists. split; [reflexivity|]. split; [reflexivity|]. apply list_elem_of_here.
  - exists 1%nat. eexists. split; [reflexivity|]. split; [reflexivity|]. apply list_elem_of_here.
  - vm_compute. reflexivity.
  - vm_compute. reflexivity.
Qed.

End ST.
