(* ===== verification/MsgRspMng.v ===== *)
(** The response slots of [msg_rspmng.c]: a synchronous request takes a slot,
    the answer is copied into it, and the requester polls it.  Each call locks
    the slot for its duration. *)

From S2P Require Import Prelude MsgDefs.

Module RM.

Definition MAX_MSG_RSP_NUM : Z := 128.
Definition MAX_MSG_RSP_SIZE : Z := 512.

Inductive MSG_RSPMNG_STATE_E := MSG_RSPMNG_STATE_FREE | MSG_RSPMNG_STATE_IDLE | MSG_RSPMNG_STATE_ACTIVE.

#[global] Instance state_eq_dec : EqDecision MSG_RSPMNG_STATE_E.
Proof. solve_decision. Defined.

(** A slot: [buf] is the message copied into it, if any. *)
Record MSG_RSPMNG_S := mkSlot { buf : option msg_cell; enState : MSG_RSPMNG_STATE_E }.

(** [s_bFilterInited] and [s_MsgRspMng]. *)
Record RSP_STATE := mkRsp { inited : bool; slots : list MSG_RSPMNG_S }.

Definition state_is (s : MSG_RSPMNG_STATE_E) (e : MSG_RSPMNG_S) : bool := bool_decide (enState e = s).

(** The address of the buffer of a slot: the table starts at [base], a slot has
    556 bytes of buffer, its state and a mutex of 24 bytes. *)
Definition buf_addr (base handle : Z) : Z := base + handle * 584.

Definition MSG_RSPMNG_Init (st : RSP_STATE) : Z * RSP_STATE :=
  if inited st then (HI_SUCCESS, st)
  else (HI_SUCCESS, mkRsp true (replicate (Z.to_nat MAX_MSG_RSP_NUM) (mkSlot None MSG_RSPMNG_STATE_FREE))).

Definition set_state (s : MSG_RSPMNG_STATE_E) (e : MSG_RSPMNG_S) : MSG_RSPMNG_S := mkSlot (buf e) s.

Definition MSG_RSPMNG_New (st : RSP_STATE) : option Z * RSP_STATE :=
  if negb (inited st) then (None, st)
  else match find_index (state_is MSG_RSPMNG_STATE_FREE) (slots st) with
       | Some i => (Some (Z.of_nat i), mkRsp true (alter (set_state MSG_RSPMNG_STATE_IDLE) i (slots st)))
       | None => (None, st)
       end.

Definition handle_valid (handle : Z) : bool := (0 <=? handle) && (handle <? MAX_MSG_RSP_NUM).

Definition MSG_RSPMNG_Delete (st : RSP_STATE) (handle : Z) : Z * RSP_STATE :=
  if negb (inited st) then (HI_FAILURE, st)
  else if negb (handle_valid handle) then (HI_FAILURE, st)
  else (HI_SUCCESS, mkRsp true (alter (set_state MSG_RSPMNG_STATE_FREE) (Z.to_nat handle) (slots st))).

(** [MSG_RSPMNG_GetData]: the message the pointer written leads to. *)
Definition MSG_RSPMNG_GetData (st : RSP_STATE) (handle : Z) : outcome (Z * option msg_cell) :=
  if negb (handle_valid handle) then Returned (HI_FAILURE, None)
  else let! e := oderef (slots st !! Z.to_nat handle) in
       if negb (state_is MSG_RSPMNG_STATE_ACTIVE e) then Returned (HI_FAILURE, None)
       else Returned (HI_SUCCESS, buf e).

(** [MSG_RSPMNG_PutData]: a slot that is not idle is logged and unlocked, and
    the copy goes on without the lock. *)
Definition MSG_RSPMNG_PutData (base : Z) (st : RSP_STATE) (handle : Z) (m : VTOP_MSG_S_InnerBlock)
    (bytes : list Z) : Z * RSP_STATE :=
  if negb (inited st) then (HI_FAILURE, st)
  else if negb (handle_valid handle) then (HI_FAILURE, st)
  else if MAX_MSG_RSP_SIZE <? ulMsgLen (msg m) then (VTOP_MSG_ERR_MSGSIZE, st)
  else (HI_SUCCESS,
        mkRsp true (alter (λ _, mkSlot (Some (MSG_COPY2BUF (buf_addr base handle) m bytes)) MSG_RSPMNG_STATE_ACTIVE)
                          (Z.to_nat handle) (slots st))).

(** ** Theorems *)

Record wf (st : RSP_STATE) : Prop := {
  wf_init : inited st = true;
  wf_len : Z.of_nat (length (slots st)) = MAX_MSG_RSP_NUM
}.

Definition free_slots (st : RSP_STATE) : Z := countP (state_is MSG_RSPMNG_STATE_FREE) (slots st).

Lemma new_spec st :
  wf st →
  match MSG_RSPMNG_New st with
  | (Some h, st') => handle_valid h = true ∧ wf st' ∧
      ∃ e, slots st !! Z.to_nat h = Some e ∧ enState e = MSG_RSPMNG_STATE_FREE ∧
           slots st' = <[Z.to_nat h := set_state MSG_RSPMNG_STATE_IDLE e]> (slots st)
  | (None, st') => st' = st ∧ free_slots st = 0
  end.
Proof.
  intros [Hi Hl]. unfold MSG_RSPMNG_New. rewrite Hi. simpl. destruct (find_index _ _) as [i|] eqn:Hf.
  - apply find_index_lookup in Hf as (e & He & Hs). apply bool_decide_eq_true in Hs.
    rewrite Nat2Z.id. pose proof (lookup_lt_Some _ _ _ He) as Hlt. split_and!.
    + unfold handle_valid. apply andb_true_iff. split; [apply Z.leb_le; lia|apply Z.ltb_lt; lia].
    + split; [done|]. simpl. by rewrite length_alter.
    + exists e. split_and!; [done|done|]. simpl. by apply alter_lookup.
  - split; [done|]. unfold free_slots. rewrite find_index_None in Hf. clear Hl.
    induction (slots st) as [|x l IH]; [done|]. rewrite countP_cons, (Hf 0%nat x) by done.
    rewrite IH; [done|]. intros j y. apply (Hf (S j)).
Qed.

Lemma slot_at st handle :
  wf st → handle_valid handle = true → ∃ e, slots st !! Z.to_nat handle = Some e.
Proof.
  intros [_ Hl] Hv. unfold handle_valid in Hv. bool_to_prop.
  apply (lookup_lt_is_Some_2 (slots st)). lia.
Qed.

(** A request and its answer.  [MSG_RSPMNG_New] gives a slot that was free;
    until an answer comes [MSG_RSPMNG_GetData] fails; an answer of at most 512
    bytes is delivered with its header and its bytes, the body pointer moved
    into the slot; and [MSG_RSPMNG_Delete] makes the slot free again, so that
    the number of free slots is what it was. *)
Theorem MSG_RSPMNG_request base st h st1 m bytes :
  wf st → MSG_RSPMNG_New st = (Some h, st1) → ulMsgLen (msg m) ≤ MAX_MSG_RSP_SIZE →
  MSG_RSPMNG_GetData st1 h = Returned (HI_FAILURE, None) ∧
  ∃ st2, MSG_RSPMNG_PutData base st1 h m bytes = (HI_SUCCESS, st2) ∧ wf st2 ∧
    MSG_RSPMNG_GetData st2 h = Returned (HI_SUCCESS, Some (MSG_COPY2BUF (buf_addr base h) m bytes)) ∧
    ∃ st3, MSG_RSPMNG_Delete st2 h = (HI_SUCCESS, st3) ∧ wf st3 ∧ free_slots st3 = free_slots st ∧
      MSG_RSPMNG_GetData st3 h = Returned (HI_FAILURE, None).
Proof.
  intros Hwf Hnew Hlen. pose proof (new_spec st Hwf) as Hs. rewrite Hnew in Hs.
  destruct Hs as (Hv & Hwf1 & e & He & Hf & Hsl). pose proof (wf_init _ Hwf1) as Hi1.
  assert (Z.to_nat h < length (slots st))%nat as Hlt by (by eapply lookup_lt_Some).
  unfold MSG_RSPMNG_GetData, MSG_RSPMNG_PutData, MSG_RSPMNG_Delete. rewrite Hv, Hi1, Hsl. simpl.
  rewrite list_lookup_insert_eq by done. split; [done|].
  replace (MAX_MSG_RSP_SIZE <? ulMsgLen (msg m)) with false by (symmetry; by apply Z.ltb_ge).
  eexists. split; [done|].
  rewrite (alter_lookup _ _ _ (set_state MSG_RSPMNG_STATE_IDLE e)) by (by apply list_lookup_insert_eq).
  rewrite list_insert_insert_eq. set (e2 := mkSlot _ MSG_RSPMNG_STATE_ACTIVE). simpl.
  rewrite list_lookup_insert_eq by done. simpl. split_and!; [split; [done|simpl; rewrite length_insert; apply Hwf]|done|].
  rewrite (alter_lookup _ _ _ e2) by (by apply list_lookup_insert_eq). rewrite list_insert_insert_eq.
  eexists. split; [done|]. split_and!; [split; [done|simpl; rewrite length_insert; apply Hwf]| |].
  - unfold free_slots. simpl. rewrite (countP_insert _ _ _ _ _ He).
    unfold state_is at 2 3. simpl. rewrite bool_decide_true by done. lia.
  - simpl. rewrite list_lookup_insert_eq by done. done.
Qed.

(** An answer that comes after its requester gave up.  [MSG_RSPMNG_PutData]
    does not stop at a slot that is not idle: it fills and activates a slot that
    was deleted, which is then neither free nor owned by anybody, one slot
    less for good; and when the slot belongs to a new request meanwhile, that
    request receives the answer of the old one. *)
Theorem MSG_RSPMNG_late_answer base st h m bytes e :
  wf st → handle_valid h = true → ulMsgLen (msg m) ≤ MAX_MSG_RSP_SIZE → slots st !! Z.to_nat h = Some e →
  ∃ st', MSG_RSPMNG_PutData base st h m bytes = (HI_SUCCESS, st') ∧
    MSG_RSPMNG_GetData st' h = Returned (HI_SUCCESS, Some (MSG_COPY2BUF (buf_addr base h) m bytes)) ∧
    (enState e = MSG_RSPMNG_STATE_FREE → free_slots st' = free_slots st - 1).
Proof.
  intros Hwf Hv Hlen He. pose proof (wf_init _ Hwf) as Hi.
  assert (Z.to_nat h < length (slots st))%nat as Hlt by (by eapply lookup_lt_Some).
  unfold MSG_RSPMNG_GetData, MSG_RSPMNG_PutData. rewrite Hv, Hi. simpl.
  replace (MAX_MSG_RSP_SIZE <? ulMsgLen (msg m)) with false by (symmetry; by apply Z.ltb_ge).
  eexists. split; [done|]. simpl. rewrite (alter_lookup _ _ _ e He), list_lookup_insert_eq by done.
  split; [done|]. intros Hf. unfold free_slots. simpl. rewrite (countP_insert _ _ _ _ _ He).
  unfold state_is at 2 3. simpl. rewrite Hf, bool_decide_true by done. simpl. lia.
Qed.

Definition initial : RSP_STATE := snd (MSG_RSPMNG_Init (mkRsp false [])).

Lemma initial_wf : wf initial.
Proof. split; vm_compute; done. Qed.

Definition answer : VTOP_MSG_S_InnerBlock := mkInner (mkBlock 1 2 7 1 1 0 2 0x100) 0 0x7fff 0.

Lemma MSG_RSPMNG_request_witness :
  MSG_RSPMNG_GetData (snd (MSG_RSPMNG_New initial)) 0 = Returned (HI_FAILURE, None).
Proof.
  refine (proj1 (MSG_RSPMNG_request 0x1000 initial 0 _ answer [1; 2] initial_wf _ _)).
  - vm_compute. reflexivity.
  - vm_compute. discriminate.
Defined.

Lemma MSG_RSPMNG_late_answer_witness :
  ∃ st', MSG_RSPMNG_PutData 0x1000 initial 5 answer [1; 2] = (HI_SUCCESS, st') ∧ free_slots st' = 127.
Proof.
  destruct (MSG_RSPMNG_late_answer 0x1000 initial 5 answer [1; 2] (mkSlot None MSG_RSPMNG_STATE_FREE) initial_wf
    eq_refl ltac:(vm_compute; discriminate) ltac:(vm_compute; reflexivity)) as (st' & H & _ & Hf).
  exists st'. split; [exact H|]. rewrite (Hf eq_refl). vm_compute. reflexivity.
Defined.

End RM.
