(* ===== verification/MsgSystem.v ===== *)
(** The message system as its clients see it: [msg_task.c] (registering,
    sending, receiving, subscribing), [msg_com.c] (building and queueing the
    inner messages) and [msg_proc.c] (start-up and the publish thread), on top
    of the task table, the subscription table, the response slots and the
    queues. *)

From S2P Require Import Prelude MsgDefs MsgPool MsgBuffer MsgQueue MsgTaskTab MsgSubTab MsgRspMng.

Module SY.

Definition VTOP_MSG_FLG_SYNC : Z := 0x00000001.
Definition VTOP_MSG_FLG_ASYNC : Z := 0x00000002.
Definition VTOP_MSG_FLG_RESP : Z := 0x00000010.
Definition VTOP_MSG_FLG_P2P : Z := 0x00000100.
Definition VTOP_MSG_FLG_SP : Z := 0x00000200.
Definition VTOP_MSG_FLG_DSC_SND : Z := 0x00002000.
Definition VTOP_MSG_PRIO_HIGH : Z := 2.
Definition VTOP_MSG_PRIO_DEFAULT : Z := 1.
Definition VTOP_MSG_PRIO_SYN : Z := 3.
Definition VTOP_MSG_PRIO_RSP : Z := 4.

(** [MSGTASK_DATA]; a handler of 0 is [NULL]. *)
Record MSGTASK_DATA := mkData { d_taskId : Z; pMsgHandler : Z; pTaskLog : Z; Sndfd : Z; Rcvfd : Z }.

(** The globals of the module: the shared block with the task table, the
    subscription table, the response slots, [g_TaskData] ([None] is [NULL])
    and the queue of the publish thread. *)
Record SYS := mkSys {
  ts : TT.TASK_STATE;
  subs : list ST.MSG_TAB_SUB_S;
  rsp : RM.RSP_STATE;
  g_TaskData : option (list MSGTASK_DATA);
  svr : option TT.queue
}.

Definition set_ts (s : SYS) (t : TT.TASK_STATE) : SYS := mkSys t (subs s) (rsp s) (g_TaskData s) (svr s).
Definition set_subs (s : SYS) (l : list ST.MSG_TAB_SUB_S) : SYS := mkSys (ts s) l (rsp s) (g_TaskData s) (svr s).
Definition set_rsp (s : SYS) (r : RM.RSP_STATE) : SYS := mkSys (ts s) (subs s) r (g_TaskData s) (svr s).
Definition set_data (s : SYS) (d : option (list MSGTASK_DATA)) : SYS := mkSys (ts s) (subs s) (rsp s) d (svr s).
Definition set_svr (s : SYS) (q : option TT.queue) : SYS := mkSys (ts s) (subs s) (rsp s) (g_TaskData s) q.

(** ** The data of the registered tasks *)

Definition data_id (id : Z) (d : MSGTASK_DATA) : bool := d_taskId d =? id.

(** [addTaskData]; the arguments answer the [malloc]s of the list head and of
    the node. *)
Definition addTaskData (head_ok node_ok : bool) (g : option (list MSGTASK_DATA)) (d : MSGTASK_DATA)
  : Z * option (list MSGTASK_DATA) :=
  match (match g with Some l => Some l | None => if head_ok then Some [] else None end) with
  | None => (VTOP_MSG_ERR_NOMEM, None)
  | Some l =>
      if existsb (data_id (d_taskId d)) l then (VTOP_MSG_ERR_GENERAL, Some l)
      else if negb node_ok then (VTOP_MSG_ERR_NOMEM, Some l)
      else (0, Some (l ++ [d]))
  end.

Definition getTaskData (g : option (list MSGTASK_DATA)) (id : Z) : option MSGTASK_DATA :=
  l ← g; List.find (data_id id) l.

Fixpoint remove_first (id : Z) (l : list MSGTASK_DATA) : list MSGTASK_DATA :=
  match l with
  | [] => []
  | d :: l' => if data_id id d then l' else d :: remove_first id l'
  end.

Definition delTaskData (g : option (list MSGTASK_DATA)) (id : Z) : Z * option (list MSGTASK_DATA) :=
  match g with
  | None => (VTOP_MSG_ERR_GENERAL, None)
  | Some l =>
      let l' := remove_first id l in
      (if existsb (data_id id) l then 0 else VTOP_MSG_ERR_GENERAL,
       match l' with [] => None | _ => Some l' end)
  end.

(** ** Registration *)

Definition VTOP_MSG_IsVersionMatch (s : SYS) : bool :=
  match TT.shm (ts s) with
  | None => false
  | Some h => TT.strncmp_eq TT.VTOP_MSG_VERSION (TT.version h) (Z.of_nat (String.length TT.VTOP_MSG_VERSION) + 1)
  end.

(** The answers of the allocations a registration makes. *)
Record reg_malloc := mkReg { rm_queue : bool; rm_buf : MB.mb_malloc; rm_head : bool; rm_node : bool }.

(** [VTOP_MSG_RegisterX]: the id written through [pTaskId], if any. *)
Definition VTOP_MSG_RegisterX (m : reg_malloc) (s : SYS) (name : option string) (handler log : Z)
    (pTaskId_null : bool) (owner : Z) : outcome (Z * option Z * SYS) :=
  match name with
  | None => Returned (VTOP_MSG_ERR_NULLPTR, None, s)
  | Some taskName =>
      if pTaskId_null then Returned (VTOP_MSG_ERR_NULLPTR, None, s)
      else if TT.VTOP_MSG_MAX_TASK_NAME_LEN <=? Z.of_nat (String.length taskName)
      then Returned (VTOP_MSG_ERR_INVALIDPARA, None, s)
      else if negb (TT.SHM_Exist (ts s)) then Returned (VTOP_MSG_ERR_PROCNOTEXIST, None, s)
      else if negb (VTOP_MSG_IsVersionMatch s) then Returned (VTOP_MSG_ERR_VERSION, None, s)
      else if TT.TASK_TAB_IsTaskExist (ts s) taskName then Returned (VTOP_MSG_ERR_TASKEXIST, None, s)
      else
        let! (taskId, t1) := TT.TASK_TAB_Add2 (rm_queue m) (rm_buf m) (ts s) taskName owner in
        if taskId =? VTOP_INVALID_TASK_ID then Returned (VTOP_MSG_ERR_TASKFULL, None, set_ts s t1)
        else
          let '(ret, g) := addTaskData (rm_head m) (rm_node m) (g_TaskData s) (mkData taskId handler log (-1) (-1)) in
          if ret <? 0
          then let! (ret', t2) := TT.TASK_TAB_Del t1 taskId in
               if ret' <? 0 then Returned (ret', None, set_data (set_ts s t2) g)
               else Returned (VTOP_MSG_ERR_GENERAL, None, set_data (set_ts s t2) g)
          else Returned (0, Some taskId, set_data (set_ts s t1) g)
  end.

Definition VTOP_MSG_Register (m : reg_malloc) (s : SYS) (name : option string) (handler log : Z)
    (pTaskId_null : bool) : outcome (Z * option Z * SYS) :=
  VTOP_MSG_RegisterX m s name handler log pTaskId_null TT.TASK_OWNER_TASK.

(** The loop of [VTOP_MSG_UnRegister] over the types listed. *)
Fixpoint unsubscribe_all (t : TT.TASK_STATE) (types : list Z) (id : Z) (l : list ST.MSG_TAB_SUB_S)
  : outcome (Z * list ST.MSG_TAB_SUB_S) :=
  match types with
  | [] => Returned (0, l)
  | ty :: types' =>
      let! (ret, l') := ST.SUB_TAB_Del t l ty id in
      if ret <? 0 then Returned (ret, l') else unsubscribe_all t types' id l'
  end.

(** [VTOP_MSG_UnRegister]; [list_ok] answers the [malloc] of the list, which
    is zeroed and as long as there are units. *)
Definition VTOP_MSG_UnRegister (list_ok : bool) (s : SYS) (id : Z) : outcome (Z * SYS) :=
  if id =? VTOP_INVALID_TASK_ID then Returned (VTOP_MSG_ERR_INVALIDPARA, s)
  else if negb (TT.SHM_Exist (ts s)) then Returned (VTOP_MSG_ERR_PROCNOTEXIST, s)
  else if negb (TT.TASK_TAB_IsTaskIdExist (ts s) id) then Returned (VTOP_MSG_ERR_TASKNOTEXIST, s)
  else match getTaskData (g_TaskData s) id with
  | None => Returned (VTOP_MSG_ERR_DSNOTEXIST, s)
  | Some _ =>
      match TT.SUB_TAB_GetMaxSubNum (ts s) with
      | inl ret => Returned (ret, s)
      | inr (maxSub, _) =>
          if negb list_ok then Returned (VTOP_MSG_ERR_NOMEM, s)
          else
            let types := match ST.SUB_TAB_Task2Sub (ts s) (subs s) id maxSub with
                         | inr l => l
                         | inl _ => replicate (Z.to_nat maxSub) 0
                         end in
            let! (ret, subs') := unsubscribe_all (ts s) types id (subs s) in
            if ret <? 0 then Returned (ret, set_subs s subs')
            else
              let! (ret2, t2) := TT.TASK_TAB_Del (ts s) id in
              if ret2 <? 0 then Returned (VTOP_MSG_ERR_TASKNOTEXIST, set_ts (set_subs s subs') t2)
              else
                let '(ret3, g) := delTaskData (g_TaskData s) id in
                Returned (if ret3 <? 0 then VTOP_MSG_ERR_GENERAL else 0,
                          set_data (set_ts (set_subs s subs') t2) g)
      end
  end.

Definition VTOP_MSG_GetTaskId (s : SYS) (name : option string) : Z :=
  match name with
  | None => VTOP_INVALID_TASK_ID
  | Some n => if negb (TT.SHM_Exist (ts s)) then VTOP_INVALID_TASK_ID else TT.TASK_TAB_Name2Id (ts s) n
  end.

Definition VTOP_MSG_GetTaskName (s : SYS) (id : Z) : Z + string :=
  if id =? VTOP_INVALID_TASK_ID then inl VTOP_MSG_ERR_INVALIDPARA
  else if negb (TT.SHM_Exist (ts s)) then inl VTOP_MSG_ERR_PROCNOTEXIST
  else TT.TASK_TAB_Id2Name (ts s) id.

Definition VTOP_MSG_SetMerge (s : SYS) (id ty : Z) : Z * SYS :=
  if id =? VTOP_INVALID_TASK_ID then (VTOP_MSG_ERR_INVALIDPARA, s)
  else if negb (TT.SHM_Exist (ts s)) then (VTOP_MSG_ERR_PROCNOTEXIST, s)
  else let '(r, t) := TT.TASK_TAB_SetMerge (ts s) id ty in (r, set_ts s t).

(** ** Receiving *)

(** The get of [VTOP_MSG_Recv] and [VTOP_MSG_GetAndDispatch], merged or not. *)
Definition queue_get (s : SYS) (id : Z) (q : TT.queue) : outcome (Z * option Z * SYS) :=
  let msgtype := TT.TASK_TAB_GetMerge (ts s) id in
  let! (ret, p, q') := (if negb (msgtype =? VTOP_INVALID_MSG_TYPE)
                        then MQ.MSG_QueueGetMerge (Some q) msgtype
                        else MQ.MSG_QueueGet (Some q) false) in
  Returned (ret, p, set_ts s (TT.put_queue (ts s) id q')).

(** [VTOP_MSG_Recv]: the message written through [ppMsg]. *)
Definition VTOP_MSG_Recv (s : SYS) (id : Z) : outcome (Z * option Z * SYS) :=
  if id =? VTOP_INVALID_TASK_ID then Returned (VTOP_MSG_ERR_INVALIDPARA, None, s)
  else if negb (TT.SHM_Exist (ts s)) then Returned (VTOP_MSG_ERR_PROCNOTEXIST, None, s)
  else match TT.TASK_TAB_GetHandle (ts s) id with
  | None => Returned (VTOP_MSG_ERR_TASKNOTEXIST, None, s)
  | Some q =>
      let! (ret, p, s') := queue_get s id q in
      if negb (ret =? HI_SUCCESS) then Returned (VTOP_MSG_ERR_MSGRCV, None, s')
      else Returned (HI_SUCCESS, p, s')
  end.

(** Freeing a message of the queue of task [id]. *)
Definition queue_free (s : SYS) (id : Z) (pMsg : Z) : outcome SYS :=
  let! q := MQ.MSG_QueueFree (TT.TASK_TAB_GetHandle (ts s) id) pMsg in
  Returned (set_ts s (TT.put_queue (ts s) id q)).

(** [VTOP_MSG_RecvFree]; [rcvTaskId] is that field of the message. *)
Definition VTOP_MSG_RecvFree (s : SYS) (pMsg : Z) (rcvTaskId : Z) : outcome (Z * SYS) :=
  if pMsg =? NULL then Returned (VTOP_MSG_ERR_INVALIDPARA, s)
  else if rcvTaskId =? VTOP_INVALID_TASK_ID then Returned (VTOP_MSG_ERR_INVALIDPARA, s)
  else if negb (TT.SHM_Exist (ts s)) then Returned (VTOP_MSG_ERR_PROCNOTEXIST, s)
  else match TT.TASK_TAB_GetHandle (ts s) rcvTaskId with
  | None => Returned (VTOP_MSG_ERR_TASKNOTEXIST, s)
  | Some _ => let! s' := queue_free s rcvTaskId pMsg in Returned (HI_SUCCESS, s')
  end.

Section Dispatch.
(** What a handler does to the system, from its address and the message. *)
Context (run_handler : Z → Z → SYS → outcome SYS).

(** [VTOP_MSG_GetAndDispatch].  A handler that unregisters its own task frees
    the queue the message is then given back to. *)
Definition VTOP_MSG_GetAndDispatch (s : SYS) (id : Z) : outcome (Z * SYS) :=
  if id =? VTOP_INVALID_TASK_ID then Returned (VTOP_MSG_ERR_INVALIDPARA, s)
  else if negb (TT.SHM_Exist (ts s)) then Returned (VTOP_MSG_ERR_PROCNOTEXIST, s)
  else match getTaskData (g_TaskData s) id with
  | None => Returned (VTOP_MSG_ERR_TASKNOTEXIST, s)
  | Some d =>
      match TT.TASK_TAB_GetHandle (ts s) id with
      | None => Returned (VTOP_MSG_ERR_TASKNOTEXIST, s)
      | Some q =>
          let! (ret, p, s1) := queue_get s id q in
          if negb (ret =? HI_SUCCESS) then Returned (VTOP_MSG_ERR_TIMEOUT, s1)
          else
            let! pInnerMsg := oderef p in
            let! s2 := (if pMsgHandler d =? 0 then Returned s1 else run_handler (pMsgHandler d) pInnerMsg s1) in
            let! _ := oderef (TT.TASK_TAB_GetHandle (ts s2) id) in
            let! s3 := queue_free s2 id pInnerMsg in
            Returned (HI_SUCCESS, s3)
      end
  end.

End Dispatch.

(** ** Sending *)

(** [CHECK_MSG_BODY]. *)
Definition CHECK_MSG_BODY (b : VTOP_MSG_S_Block) (size : Z) : option Z :=
  if (pMsgBody b =? NULL) && negb (ulMsgLen b =? 0) then Some VTOP_MSG_ERR_INVALIDPARA
  else if negb (pMsgBody b =? NULL) && (ulMsgLen b =? 0) then Some VTOP_MSG_ERR_INVALIDPARA
  else if size <? ulMsgLen b then Some VTOP_MSG_ERR_MSGSIZE
  else None.

Definition set_msgID (b : VTOP_MSG_S_Block) (i : Z) : VTOP_MSG_S_Block :=
  mkBlock (sndTaskId b) (rcvTaskId b) (msgType b) i (ulPrio b) (ulFlag b) (ulMsgLen b) (pMsgBody b).
Definition set_flag_prio (b : VTOP_MSG_S_Block) (flag prio : Z) : VTOP_MSG_S_Block :=
  mkBlock (sndTaskId b) (rcvTaskId b) (msgType b) (msgID b) prio flag (ulMsgLen b) (pMsgBody b).
Definition set_rcv (b : VTOP_MSG_S_Block) (id : Z) : VTOP_MSG_S_Block :=
  mkBlock (sndTaskId b) id (msgType b) (msgID b) (ulPrio b) (ulFlag b) (ulMsgLen b) (pMsgBody b).

(** The inner message of an asynchronous send: the caller's block with the new
    id, fresh flags and a priority in range.  The other fields of the local
    variable are not set: they have the values [junk]. *)
Definition async_prio (prio : Z) : Z := if VTOP_MSG_PRIO_HIGH <? prio then VTOP_MSG_PRIO_DEFAULT else prio.
Definition inner_async (junk : VTOP_MSG_S_InnerBlock) (b : VTOP_MSG_S_Block) (i flag : Z) : VTOP_MSG_S_InnerBlock :=
  set_msg (set_flag_prio (set_msgID b i) (Z.lor (Z.lor 0 VTOP_MSG_FLG_ASYNC) flag) (async_prio (ulPrio b))) junk.

(** [MSG_SendAsyncMsg]: the result, the id written to the caller's block, and
    the system.  [bytes] are the bytes at [pMsgBody]. *)
Definition MSG_SendAsyncMsg (junk : VTOP_MSG_S_InnerBlock) (s : SYS) (b : VTOP_MSG_S_Block) (bytes : list Z)
    (flag : Z) : outcome (Z * option Z * SYS) :=
  oassert (flag =? VTOP_MSG_FLG_P2P)
  match TT.TASK_TAB_GetHandle (ts s) (rcvTaskId b) with
  | None => Returned (VTOP_MSG_ERR_TASKNOTEXIST, None, s)
  | Some q =>
      match TT.getMsgID (ts s) with
      | inl ret => Returned (ret, None, s)
      | inr (i, t1) =>
          let! (ret, q') := MQ.MSG_QueuePut (Some q) (Some (inner_async junk b i flag)) bytes in
          Returned (ret, Some i, set_ts s (TT.put_queue t1 (rcvTaskId b) q'))
      end
  end.

Definition VTOP_MSG_AsynSend (junk : VTOP_MSG_S_InnerBlock) (s : SYS) (b : VTOP_MSG_S_Block) (bytes : list Z)
  : outcome (Z * option Z * SYS) :=
  match CHECK_MSG_BODY b VTOP_MSG_MAX_MSG_SIZE with
  | Some err => Returned (err, None, s)
  | None =>
      if negb (TT.SHM_Exist (ts s)) then Returned (VTOP_MSG_ERR_PROCNOTEXIST, None, s)
      else if negb (TT.TASK_TAB_IsTaskIdExist (ts s) (rcvTaskId b)) then Returned (VTOP_MSG_ERR_TASKNOTEXIST, None, s)
      else MSG_SendAsyncMsg junk s b bytes VTOP_MSG_FLG_P2P
  end.

(** ** Synchronous messages *)

Definition inner_sync (junk : VTOP_MSG_S_InnerBlock) (b : VTOP_MSG_S_Block) (i h : Z) : VTOP_MSG_S_InnerBlock :=
  mkInner (set_flag_prio (set_msgID b i)
             (Z.lor (Z.lor (Z.lor 0 VTOP_MSG_FLG_SYNC) VTOP_MSG_FLG_P2P) VTOP_MSG_FLG_DSC_SND) VTOP_MSG_PRIO_SYN)
          (resp2id junk) (magic junk) h.

(** One turn of the wait: the clock and the response slots the thread finds
    when it polls, as the other threads left them. *)
Record poll := mkPoll { p_time : Z; p_rsp : RM.RSP_STATE; p_malloc : option Z }.

Inductive wait_result :=
  | Answered (pBuf : Z) (c : msg_cell) (r : RM.RSP_STATE)
  | Failed (ret : Z) (r : RM.RSP_STATE)
  | Waiting.

(** The polling loop of [MSG_SendSyncMsg], over the turns given; [Waiting] when
    they are used up. *)
Fixpoint sync_wait (handle timeout startTime : Z) (polls : list poll) : outcome wait_result :=
  match polls with
  | [] => Returned Waiting
  | p :: polls' =>
      let! (ret, data) := RM.MSG_RSPMNG_GetData (p_rsp p) handle in
      let deleted := snd (RM.MSG_RSPMNG_Delete (p_rsp p) handle) in
      if ret =? HI_SUCCESS
      then let! c := oderef data in
           match p_malloc p with
           | None => Returned (Failed VTOP_MSG_ERR_NOMEM deleted)
           | Some pBuf =>
               let c' := MSG_COPY2BUF pBuf (cell_head c) (cell_body c) in
               Returned (Answered pBuf
                 (mkCell (set_msg (set_pMsgBody (pBuf + MSG_INNER_HEAD_LEN) (msg (cell_head c'))) (cell_head c'))
                         (cell_body c')) deleted)
           end
      else if 0 <? timeout
      then if s32 (p_time p - startTime) <? timeout then sync_wait handle timeout startTime polls'
           else Returned (Failed VTOP_MSG_ERR_RESPTIMEOUT deleted)
      else if timeout <? 0 then sync_wait handle timeout startTime polls'
      else Returned (Failed VTOP_MSG_ERR_RESPTIMEOUT deleted)
  end.

(** The part of [MSG_SendSyncMsg] before the wait: the slot taken and the
    system, or the error. *)
Definition sync_send (junk : VTOP_MSG_S_InnerBlock) (s : SYS) (b : VTOP_MSG_S_Block) (bytes : list Z)
  : outcome ((Z + Z) * SYS) :=
  match TT.TASK_TAB_GetHandle (ts s) (rcvTaskId b) with
  | None => Returned (inl VTOP_MSG_ERR_TASKNOTEXIST, s)
  | Some q =>
      match TT.getMsgID (ts s) with
      | inl ret => Returned (inl ret, s)
      | inr (i, t1) =>
          match RM.MSG_RSPMNG_New (rsp s) with
          | (None, r) => Returned (inl VTOP_MSG_ERR_NOMEM, set_rsp (set_ts s t1) r)
          | (Some h, r) =>
              let! (ret, q') := MQ.MSG_QueuePut (Some q) (Some (inner_sync junk b i h)) bytes in
              let s1 := set_ts s (TT.put_queue t1 (rcvTaskId b) q') in
              if ret =? HI_SUCCESS then Returned (inr h, set_rsp s1 r)
              else Returned (inl ret, set_rsp s1 (snd (RM.MSG_RSPMNG_Delete r h)))
          end
      end
  end.

(** [VTOP_MSG_SynSend] up to the wait. *)
Definition VTOP_MSG_SynSend (junk : VTOP_MSG_S_InnerBlock) (s : SYS) (b : VTOP_MSG_S_Block) (bytes : list Z)
  : outcome ((Z + Z) * SYS) :=
  match CHECK_MSG_BODY b VTOP_MSG_MAX_MSG_SIZE with
  | Some err => Returned (inl err, s)
  | None =>
      if negb (TT.SHM_Exist (ts s)) then Returned (inl VTOP_MSG_ERR_PROCNOTEXIST, s)
      else if negb (TT.TASK_TAB_IsTaskIdExist (ts s) (rcvTaskId b)) then Returned (inl VTOP_MSG_ERR_TASKNOTEXIST, s)
      else sync_send junk s b bytes
  end.

(** [MSG_SendSyncRsp]: [m] is the request as it lies in the receiver's queue. *)
Definition MSG_SendSyncRsp (base : Z) (junk : VTOP_MSG_S_InnerBlock) (s : SYS) (m : VTOP_MSG_S_InnerBlock)
    (resp : VTOP_MSG_S_Block) (bytes : list Z) : Z * SYS :=
  match TT.getMsgID (ts s) with
  | inl ret => (ret, s)
  | inr (i, t1) =>
      let blk := mkBlock (rcvTaskId (msg m)) (sndTaskId (msg m)) (msgType (msg m)) i VTOP_MSG_PRIO_RSP
                         (Z.lor (Z.lor 0 VTOP_MSG_FLG_RESP) VTOP_MSG_FLG_P2P) (ulMsgLen resp) (pMsgBody resp) in
      let inner := mkInner blk (msgID (msg m)) (magic junk) (privData m) in
      let '(ret, r) := RM.MSG_RSPMNG_PutData base (rsp s) (privData m) inner bytes in
      let s' := set_rsp (set_ts s t1) r in
      if negb (ret =? HI_SUCCESS) then (VTOP_MSG_ERR_MSGSND, s') else (ret, s')
  end.

Definition VTOP_MSG_SendResp (base : Z) (junk : VTOP_MSG_S_InnerBlock) (s : SYS) (m : VTOP_MSG_S_InnerBlock)
    (resp : VTOP_MSG_S_Block) (bytes : list Z) : Z * SYS :=
  if Z.land (ulFlag (msg m)) VTOP_MSG_FLG_SYNC =? 0 then (VTOP_MSG_ERR_INVALIDPARA, s)
  else match CHECK_MSG_BODY resp VTOP_MSG_MAX_MSG_SIZE with
  | Some err => (err, s)
  | None =>
      if negb (TT.SHM_Exist (ts s)) then (VTOP_MSG_ERR_PROCNOTEXIST, s)
      else match getTaskData (g_TaskData s) (rcvTaskId (msg m)) with
           | None => (VTOP_MSG_ERR_TASKNOTEXIST, s)
           | Some _ => MSG_SendSyncRsp base junk s m resp bytes
           end
  end.

(** ** Publishing *)

Definition VTOP_MSG_Subscribe (s : SYS) (id ty : Z) : outcome (Z * SYS) :=
  if id =? VTOP_INVALID_TASK_ID then Returned (VTOP_MSG_ERR_INVALIDPARA, s)
  else if ty =? VTOP_INVALID_MSG_TYPE then Returned (VTOP_MSG_ERR_INVALIDPARA, s)
  else if negb (TT.SHM_Exist (ts s)) then Returned (VTOP_MSG_ERR_PROCNOTEXIST, s)
  else let! (r, l) := ST.SUB_TAB_Add (ts s) (subs s) ty id in Returned (r, set_subs s l).

Definition VTOP_MSG_UnSubscribe (s : SYS) (id ty : Z) : outcome (Z * SYS) :=
  if id =? VTOP_INVALID_TASK_ID then Returned (VTOP_MSG_ERR_INVALIDPARA, s)
  else if ty =? VTOP_INVALID_MSG_TYPE then Returned (VTOP_MSG_ERR_INVALIDPARA, s)
  else if negb (TT.SHM_Exist (ts s)) then Returned (VTOP_MSG_ERR_PROCNOTEXIST, s)
  else let! (r, l) := ST.SUB_TAB_Del (ts s) (subs s) ty id in Returned (r, set_subs s l).

Definition MSG_PublishMsg (junk : VTOP_MSG_S_InnerBlock) (s : SYS) (b : VTOP_MSG_S_Block) (bytes : list Z)
  : outcome (Z * option Z * SYS) :=
  match svr s with
  | None => Returned (VTOP_MSG_ERR_TASKNOTEXIST, None, s)
  | Some q =>
      match TT.getMsgID (ts s) with
      | inl ret => Returned (ret, None, s)
      | inr (i, t1) =>
          let! (ret, q') := MQ.MSG_QueuePut (Some q) (Some (inner_async junk b i VTOP_MSG_FLG_SP)) bytes in
          Returned (ret, Some i, set_svr (set_ts s t1) q')
      end
  end.

Definition VTOP_MSG_Publish (junk : VTOP_MSG_S_InnerBlock) (s : SYS) (b : VTOP_MSG_S_Block) (bytes : list Z)
  : outcome (Z * option Z * SYS) :=
  if negb (TT.SHM_Exist (ts s)) then Returned (VTOP_MSG_ERR_PROCNOTEXIST, None, s)
  else match ST.SUB_TAB_IsExist (ts s) (subs s) (msgType b) with
       | None => Returned (VTOP_MSG_ERR_SUBNOTEXIST, None, s)
       | Some _ => MSG_PublishMsg junk s b bytes
       end.

(** The loop of [dispatch_SP] over the tasks listed. *)
Fixpoint dispatch_loop (m : VTOP_MSG_S_InnerBlock) (bytes : list Z) (ids : list Z) (t : TT.TASK_STATE)
  : outcome TT.TASK_STATE :=
  match ids with
  | [] => Returned t
  | id :: ids' =>
      match TT.TASK_TAB_GetHandle t id with
      | None => dispatch_loop m bytes ids' t
      | Some q =>
          let! (_, q') := MQ.MSG_QueuePut (Some q) (Some (set_msg (set_rcv (msg m) id) m)) bytes in
          dispatch_loop m bytes ids' (TT.put_queue t id q')
      end
  end.

(** [dispatch_SP]: the capacity passed to [SUB_TAB_Sub2Task] is the initial
    value of [taskNum], 0. *)
Definition dispatch_SP (s : SYS) (m : VTOP_MSG_S_InnerBlock) (bytes : list Z) : outcome SYS :=
  let taskNum := 0 in
  let! r := ST.SUB_TAB_Sub2Task (ts s) (subs s) (msgType (msg m)) taskNum in
  match r with
  | inl _ => Returned s
  | inr ids => let! t := dispatch_loop m bytes ids (ts s) in Returned (set_ts s t)
  end.

(** One turn of [MSG_PROC_RcvAndDispatch]. *)
Definition MSG_PROC_turn (s : SYS) : outcome SYS :=
  let! (ret, p, q1) := MQ.MSG_QueueGet (svr s) false in
  if negb (ret =? 0) then Returned s
  else
    let! pInnerMsg := oderef p in
    let! q := oderef q1 in
    let! c := oderef (MQ.cells q !! pInnerMsg) in
    let flag := ulFlag (msg (cell_head c)) in
    oassert (negb (Z.land flag VTOP_MSG_FLG_ASYNC =? 0) && negb (Z.land flag VTOP_MSG_FLG_SP =? 0))
    (let! s1 := dispatch_SP (set_svr s (Some q)) (cell_head c) (cell_body c) in
     let! q2 := MQ.MSG_QueueFree (svr s1) pInnerMsg in
     Returned (set_svr s1 q2)).

(** [VTOP_MSG_Main]: the answers of the allocations of the shared block and of
    the queue of the publish thread.  The tables live in the shared block, so
    the exits that free it leave no table behind. *)
Definition VTOP_MSG_Main (shm_ok mq : bool) (m : MB.mb_malloc) (ulMaxTask ulMaxSub : Z) (s : SYS)
  : outcome (Z * SYS) :=
  if TT.SHM_Exist (ts s) then Returned (HI_SUCCESS, s)
  else
    let '(_, t1) := TT.SHM_Init shm_ok ulMaxTask ulMaxSub (ts s) in
    let '(ret2, t2) := TT.TASK_TAB_Init t1 in
    if ret2 <? 0
    then Returned (ret2, set_ts s (snd (TT.SHM_DeInit (snd (TT.TASK_TAB_DeInit t2)))))
    else
      let '(_, l) := ST.SUB_TAB_Init t2 (subs s) in
      let '(_, r) := RM.MSG_RSPMNG_Init (rsp s) in
      let! (ret5, q) := MQ.MSG_QueueInit mq m "MSGSVR" (32 * 1024) in
      if ret5 <? 0
      then Returned (ret5, mkSys (snd (TT.SHM_DeInit (snd (TT.TASK_TAB_DeInit t2)))) [] r (g_TaskData s) (svr s))
      else Returned (HI_SUCCESS, mkSys t2 l r (g_TaskData s) q).

(** ** Invariant *)

Record wf (s : SYS) (h : TT.MSG_SHM_S) : Prop := {
  wf_tasks : TT.wf (ts s) h;
  wf_room : 0 < TT.maxTaskNumInSub h;
  wf_subs : ST.wf (TT.maxTaskNumInSub h) (subs s);
  wf_units : Z.of_nat (length (subs s)) = TT.maxSubNum h;
  wf_rsp : RM.wf (rsp s)
}.

Lemma exists_shm s h : wf s h → TT.SHM_Exist (ts s) = true.
Proof. intros Hwf. unfold TT.SHM_Exist. by rewrite (TT.wf_shm _ _ (wf_tasks _ _ Hwf)). Qed.

(** The codes a caller compares with 0. *)
Lemma err_negative e :
  e ∈ [VTOP_MSG_ERR_SUBNOTEXIST; VTOP_MSG_ERR_TASKNOTEXIST; VTOP_MSG_ERR_INVALIDPARA; VTOP_MSG_ERR_MSGSIZE] → e < 0.
Proof.
  rewrite !elem_of_cons, elem_of_nil. intros [->|[->|[->|[->|[]]]]]; vm_compute; reflexivity.
Qed.

(** ** Unregistering *)

Lemma unsubscribe_all_spec K t id types : ∀ l,
  ST.wf K l → TT.TASK_TAB_IsTaskIdExist t id = true → id ≠ VTOP_INVALID_TASK_ID → NoDup types →
  (∀ ty, ty ∈ types → ty ≠ VTOP_INVALID_MSG_TYPE ∧ ST.subscribed l ty id) →
  ∃ l', unsubscribe_all t types id l = Returned (0, l') ∧ ST.wf K l' ∧ length l' = length l ∧
    ∀ ty' id', id' ≠ VTOP_INVALID_TASK_ID →
      ST.subscribed l' ty' id' ↔ ST.subscribed l ty' id' ∧ ¬ (ty' ∈ types ∧ id' = id).
Proof.
  induction types as [|ty types IH]; intros l Hwf Hex Hid Hnd Hsub; simpl.
  { exists l. split_and!; try done. intros ty' id' _. rewrite elem_of_nil. tauto. }
  apply NoDup_cons in Hnd as [Hni Hnd]. destruct (Hsub ty) as [Hty Hs]; [apply list_elem_of_here|].
  destruct (ST.sub_del_spec K t l ty id Hwf Hex Hty Hid) as (r & l1 & -> & Hwf1 & Hlen1 & Hr & Hrel1).
  cbn [obind]. assert (r = 0) as -> by tauto. simpl.
  destruct (IH l1 Hwf1 Hex Hid Hnd) as (l2 & -> & Hwf2 & Hlen2 & Hrel2).
  { intros ty' Hin. destruct (Hsub ty') as [? ?]; [by right|]. split; [done|]. apply Hrel1; [done|].
    split; [done|]. intros [-> _]. done. }
  exists l2. split_and!; [done|done|congruence|]. intros ty' id' Hne.
  rewrite Hrel2, Hrel1, elem_of_cons by done. naive_solver.
Qed.

Lemma wf_no_invalid K l id : ST.wf K l → id ≠ VTOP_INVALID_TASK_ID → ¬ ST.subscribed l VTOP_INVALID_MSG_TYPE id.
Proof.
  intros Hwf Hid (i & u & Hi & Hu & Hin).
  pose proof (proj1 (ST.uo_free _ _ (ST.wf_unit _ _ Hwf _ _ Hi)) Hu id Hin) as Hv.
  apply ST.valid_true in Hid. congruence.
Qed.

(** No task has its data twice: [addTaskData] sees to it. *)
Definition data_distinct (g : option (list MSGTASK_DATA)) : Prop := NoDup (d_taskId <$> default [] g).

Lemma addTaskData_distinct head_ok node_ok g d : data_distinct g → data_distinct (addTaskData head_ok node_ok g d).2.
Proof.
  unfold data_distinct, addTaskData. intros Hg. assert (∀ l, default [] g = l → NoDup (d_taskId <$> default [] (
    if existsb (data_id (d_taskId d)) l then (VTOP_MSG_ERR_GENERAL, Some l) else if negb node_ok then (VTOP_MSG_ERR_NOMEM, Some l) else (0, Some (l ++ [d]))).2)) as H.
  - intros l Hl. rewrite Hl in Hg. destruct (existsb _ l) eqn:E; [done|]. destruct node_ok; [|done]. cbn. rewrite fmap_app. apply NoDup_app. split; [done|].
    split; [|apply NoDup_singleton]. intros x Hx ->%list_elem_of_singleton. apply list_elem_of_fmap in Hx as (y & Hy & Hin).
    assert (existsb (data_id (d_taskId d)) l = true); [|congruence]. apply existsb_exists. exists y. split; [by apply list_elem_of_In|by apply Z.eqb_eq].
  - destruct g as [l|]; [by apply H|]. destruct head_ok; [by apply H|constructor].
Qed.

(** The data left when those of a task are deleted. *)
Definition other_data (g : option (list MSGTASK_DATA)) (id : Z) : list MSGTASK_DATA := filter (λ d, d_taskId d ≠ id) (default [] g).

Lemma remove_first_filter id l : NoDup (d_taskId <$> l) → remove_first id l = filter (λ d, d_taskId d ≠ id) l.
Proof.
  induction l as [|d l IH]; intros Hnd; [done|]. cbn [fmap list_fmap] in Hnd. apply NoDup_cons in Hnd as [Hni Hnd]. cbn [remove_first]. unfold data_id.
  destruct (Z.eqb_spec (d_taskId d) id) as [E|E]; [|rewrite filter_cons_True by done; by rewrite IH].
  rewrite filter_cons_False by (intros H; by apply H). symmetry. apply filter_all. intros x Hx E'. apply Hni. rewrite E, <- E'. by apply list_elem_of_fmap_2.
Qed.

Lemma del_data_spec g id d : data_distinct g → getTaskData g id = Some d →
  ∃ g', delTaskData g id = (0, g') ∧ default [] g' = other_data g id.
Proof.
  intros Hnd Hd. destruct g as [l|]; [|done]. unfold getTaskData in Hd. unfold data_distinct in Hnd. cbn in Hd, Hnd. apply find_some in Hd as [Hin Hdid].
  unfold delTaskData, other_data. change (default [] (Some l)) with l. assert (existsb (data_id id) l = true) as -> by (apply existsb_exists; eauto).
  rewrite <- (remove_first_filter id l Hnd). eexists. split; [done|]. by destruct (remove_first id l).
Qed.

Lemma find_data g id : getTaskData g id = List.find (data_id id) (default [] g).
Proof. by destruct g. Qed.

Lemma getTaskData_other g g' id : default [] g' = other_data g id →
  getTaskData g' id = None ∧ ∀ id', id' ≠ id → getTaskData g' id' = getTaskData g id'.
Proof.
  intros Hg. rewrite find_data, Hg. unfold other_data. split.
  - destruct (List.find _ _) as [x|] eqn:Hx; [|done]. apply find_some in Hx as [Hx Hid%Z.eqb_eq]. by apply list_elem_of_In, list_elem_of_filter in Hx as [Hx _].
  - intros id' Hne. rewrite !find_data, Hg. unfold other_data. induction (default [] g) as [|x l IH]; [done|]. rewrite filter_cons. cbn [List.find].
    case_decide as Hx; cbn [List.find]; [by rewrite IH|]. rewrite IH.
    assert (data_id id' x = false) as ->; [|done]. apply Z.eqb_neq. congruence.
Qed.

(** C21: [VTOP_MSG_UnRegister] of a registered task returns success and leaves
    nothing of it: the task table has no entry with its id, no type lists it
    as a subscriber, and its data are gone.  The other tasks with their queues,
    their subscriptions and their data, the response slots and the queue of
    the publish thread are as they were.  That no task has its data twice is
    what [addTaskData] sees to, and stays so. *)
Theorem VTOP_MSG_UnRegister_correct s h id d :
  wf s h → id ≠ VTOP_INVALID_TASK_ID → TT.TASK_TAB_IsTaskIdExist (ts s) id = true →
  data_distinct (g_TaskData s) → getTaskData (g_TaskData s) id = Some d →
  ∃ s', VTOP_MSG_UnRegister true s id = Returned (0, s') ∧ wf s' h ∧ data_distinct (g_TaskData s') ∧
    TT.TASK_TAB_IsTaskIdExist (ts s') id = false ∧ (∀ ty, ¬ ST.subscribed (subs s') ty id) ∧
    (∀ ty id', id' ≠ VTOP_INVALID_TASK_ID → id' ≠ id →
       ST.subscribed (subs s') ty id' ↔ ST.subscribed (subs s) ty id') ∧
    (∀ id', id' ≠ VTOP_INVALID_TASK_ID → id' ≠ id → TT.entry_of (ts s') id' = TT.entry_of (ts s) id') ∧
    getTaskData (g_TaskData s') id = None ∧ (∀ id', id' ≠ id → getTaskData (g_TaskData s') id' = getTaskData (g_TaskData s) id') ∧
    default [] (g_TaskData s') = other_data (g_TaskData s) id ∧ rsp s' = rsp s ∧ svr s' = svr s.
Proof.
  intros Hwf Hid Hex Hdist Hd. pose proof (wf_tasks _ _ Hwf) as Hwt. pose proof (wf_subs _ _ Hwf) as Hws.
  unfold VTOP_MSG_UnRegister. replace (id =? VTOP_INVALID_TASK_ID) with false by (symmetry; by apply Z.eqb_neq).
  rewrite (exists_shm _ _ Hwf), Hex, Hd. cbn [negb]. unfold TT.SUB_TAB_GetMaxSubNum.
  rewrite (TT.wf_shm _ _ Hwt). cbv zeta.
  rewrite (ST.task2sub_all (TT.maxTaskNumInSub h)) by (try done; pose proof (wf_units _ _ Hwf); lia).
  destruct (unsubscribe_all_spec (TT.maxTaskNumInSub h) (ts s) id (ST.types_of (subs s) id) (subs s))
    as (l' & -> & Hwf' & Hlen & Hrel); try done.
  { by apply (ST.types_of_nodup (TT.maxTaskNumInSub h)). }
  { intros ty Hin. by apply (ST.types_of_in (TT.maxTaskNumInSub h)). }
  cbn [obind]. change (0 <? 0) with false. cbv iota.
  destruct (TT.del_spec (ts s) h id Hwt Hid) as (r2 & t2 & -> & Hwt2 & Hnone & Hother & Hcase).
  apply (TT.exist_entry _ _ _ Hwt) in Hex as [e He]. rewrite He in Hcase. destruct Hcase as [-> _].
  cbn [obind]. change (0 <? 0) with false. cbv iota.
  destruct (del_data_spec _ id d Hdist Hd) as (g' & -> & Hg). pose proof (getTaskData_other _ _ _ Hg) as Hother_data. change (0 <? 0) with false. cbv iota.
  eexists. split; [done|]. simpl. split_and!; [| | | | | |by apply Hother_data..|done|done|done].
  - split; simpl; try done; [apply Hwf|pose proof (wf_units _ _ Hwf); congruence|apply Hwf].
  - unfold data_distinct. rewrite Hg. apply (sublist_NoDup _ (d_taskId <$> default [] (g_TaskData s))); [done|]. apply fmap_sublist, sublist_filter.
  - apply not_true_is_false. rewrite (TT.exist_entry _ _ _ Hwt2), Hnone. by intros [? ?].
  - intros ty Hs. destruct (decide (ty = VTOP_INVALID_MSG_TYPE)) as [->|Hty]; [by eapply wf_no_invalid in Hs|].
    apply Hrel in Hs as [Hs Hno]; [|done]. apply Hno. split; [|done].
    by apply (ST.types_of_in (TT.maxTaskNumInSub h)).
  - intros ty id' Hne Hne'. rewrite Hrel by done. naive_solver.
  - done.
Qed.

(** ** Sending and receiving *)

(** The queue of task [id] stands for the abstract queue [a]. *)
Definition queue_of (t : TT.TASK_STATE) (id : Z) (a : MQ.squeue) : Prop :=
  ∃ e q, TT.entry_of t id = Some e ∧ TT.handle e = Some q ∧ MQ.rep q a.

Lemma put_result (q : TT.queue) a m bytes :
  MQ.rep q a →
  ∃ r q' a', MQ.MSG_QueuePut (Some q) (Some m) bytes = Returned (r, Some q') ∧ MQ.rep q' a' ∧
    ((r = 0 ∧ ∃ p, p ≠ 0 ∧ a' = MQ.mkS (MQ.pending a ++ [(p, MSG_COPY2BUF p m bytes)]) (MQ.held a)) ∨ (r ≠ 0 ∧ a' = a)).
Proof.
  intros Hrep. destruct (MQ.run_put q a m bytes Hrep) as (r & q' & a' & Hrun & Hstep & Hrep').
  simpl in Hrun. rewrite obind_returned in Hrun. destruct Hrun as ([r0 h0] & Hput & [= -> ->]).
  exists r, q', a'. split; [done|]. split; [done|]. inversion Hstep; subst.
  - right. split; [|done]. intros ->. revert H3. unfold MQ.put_check. repeat case_goal_if; try done; intros [= H];
      by vm_compute in H.
  - by right.
  - left. eauto.
Qed.

(** Storing the queue back after a put. *)
Lemma queue_of_put t h id e q a :
  TT.wf t h → id ≠ VTOP_INVALID_TASK_ID → TT.entry_of t id = Some e → MQ.rep q a →
  TT.wf (TT.put_queue t id (Some q)) h ∧ queue_of (TT.put_queue t id (Some q)) id a ∧
  ∀ id', id' ≠ VTOP_INVALID_TASK_ID → id' ≠ id → TT.entry_of (TT.put_queue t id (Some q)) id' = TT.entry_of t id'.
Proof.
  intros Hwf Hid He Hrep.
  destruct (TT.put_queue_spec t h id e (Some q) Hwf Hid He) as (Hwf' & He' & Hother).
  { intros q' [= <-]. by exists a. }
  split_and!; [done| |done]. exists (TT.set_handle e (Some q)), q. done.
Qed.

(** What a queued message carries of an asynchronous point-to-point send. *)
Definition carries (b : VTOP_MSG_S_Block) (bytes : list Z) (i : Z) (c : msg_cell) : Prop :=
  let m := msg (cell_head c) in
  sndTaskId m = sndTaskId b ∧ rcvTaskId m = rcvTaskId b ∧ msgType m = msgType b ∧ msgID m = i ∧
  ulMsgLen m = ulMsgLen b ∧ ulFlag m = Z.lor VTOP_MSG_FLG_ASYNC VTOP_MSG_FLG_P2P ∧
  ulPrio m ≤ VTOP_MSG_PRIO_HIGH ∧ (ulPrio b ≤ VTOP_MSG_PRIO_HIGH → ulPrio m = ulPrio b) ∧
  cell_body c = take (Z.to_nat (ulMsgLen b)) bytes.

Lemma async_carries p junk b i bytes : carries b bytes i (MSG_COPY2BUF p (inner_async junk b i VTOP_MSG_FLG_P2P) bytes).
Proof.
  assert (async_prio (ulPrio b) ≤ VTOP_MSG_PRIO_HIGH ∧ (ulPrio b ≤ VTOP_MSG_PRIO_HIGH → async_prio (ulPrio b) = ulPrio b))
    as [Hp1 Hp2].
  { unfold async_prio. destruct (VTOP_MSG_PRIO_HIGH <? ulPrio b) eqn:E; bool_to_prop; split; try done; try lia. }
  unfold MSG_COPY2BUF, carries. destruct (0 <? ulMsgLen (msg (inner_async junk b i VTOP_MSG_FLG_P2P))) eqn:E.
  - by split_and!.
  - split_and!; try done. cbn in E. bool_to_prop. by replace (Z.to_nat (ulMsgLen b)) with 0%nat by lia.
Qed.

(** C22: [VTOP_MSG_AsynSend] to a task with a queue returns and keeps the system
    well formed.  It either appends one message to the queue of the receiver,
    after the messages that wait there, with the body's bytes, the sender's
    type and addresses, a new message id, the flags of an asynchronous
    point-to-point message and a priority in range; or it fails and the queue
    holds what it held.  The queues of the other tasks do not change. *)
Theorem VTOP_MSG_AsynSend_correct junk s h b bytes a :
  wf s h → rcvTaskId b ≠ VTOP_INVALID_TASK_ID → queue_of (ts s) (rcvTaskId b) a →
  ∃ r i s' h' a', VTOP_MSG_AsynSend junk s b bytes = Returned (r, i, s') ∧ wf s' h' ∧
    queue_of (ts s') (rcvTaskId b) a' ∧
    (∀ id, id ≠ VTOP_INVALID_TASK_ID → id ≠ rcvTaskId b → TT.entry_of (ts s') id = TT.entry_of (ts s) id) ∧
    ((r = 0 ∧ CHECK_MSG_BODY b VTOP_MSG_MAX_MSG_SIZE = None ∧ i = Some (TT.counter_msgId h) ∧
      ∃ p c, a' = MQ.mkS (MQ.pending a ++ [(p, c)]) (MQ.held a) ∧ carries b bytes (TT.counter_msgId h) c) ∨
     (r ≠ 0 ∧ a' = a)).
Proof.
  intros Hwf Hid (e & q & He & Hq & Hrep). pose proof (wf_tasks _ _ Hwf) as Hwt.
  unfold VTOP_MSG_AsynSend. destruct (CHECK_MSG_BODY b VTOP_MSG_MAX_MSG_SIZE) as [err|] eqn:Hc.
  { exists err, None, s, h, a. split_and!; [done|done|by exists e, q|done|]. right. split; [|done].
    revert Hc. unfold CHECK_MSG_BODY. repeat case_goal_if; intros [= <-]; vm_compute; discriminate. }
  rewrite (exists_shm _ _ Hwf), (proj2 (TT.exist_entry _ _ _ Hwt)) by eauto. cbn [negb].
  unfold MSG_SendAsyncMsg. rewrite Z.eqb_refl. cbn [oassert].
  rewrite (proj2 (TT.handle_entry _ _ _ q Hwt)) by eauto.
  destruct (TT.getMsgID_spec (ts s) h Hwt) as (i & t1 & h1 & -> & -> & Hwt1 & HK & Hsub & Htab & Hent).
  destruct (put_result q a (inner_async junk b (TT.counter_msgId h) VTOP_MSG_FLG_P2P) bytes Hrep)
    as (r & q' & a' & -> & Hrep' & Hcase). cbn [obind].
  destruct (queue_of_put t1 h1 (rcvTaskId b) e q' a' Hwt1 Hid) as (Hwt2 & Hqo & Hother); [by rewrite Hent|done|].
  eexists r, _, _, h1, a'. split; [done|]. split_and!.
  - destruct Hwf. split; simpl; rewrite ?HK, ?Hsub; done.
  - done.
  - intros id Hne Hne'. simpl. rewrite Hother by done. apply Hent.
  - destruct Hcase as [(-> & p & _ & ->)|?]; [left|by right]. split_and!; [done|done|done|].
    do 2 eexists. split; [done|apply async_carries].
Qed.

(** C39: [VTOP_MSG_Recv] of a task that merges no messages.  It takes the
    message that waits longest, hands out its buffer with the content that was
    sent, and leaves the others waiting in their order; when none waits it says
    so and changes nothing. *)
Theorem VTOP_MSG_Recv_correct s h id a e :
  wf s h → id ≠ VTOP_INVALID_TASK_ID → queue_of (ts s) id a →
  TT.entry_of (ts s) id = Some e → TT.msgtype e = VTOP_INVALID_MSG_TYPE →
  match MQ.pending a with
  | [] => ∃ s', VTOP_MSG_Recv s id = Returned (VTOP_MSG_ERR_MSGRCV, None, s') ∧ wf s' h ∧ queue_of (ts s') id a
  | (p, c) :: rest =>
      ∃ s' q', VTOP_MSG_Recv s id = Returned (HI_SUCCESS, Some p, s') ∧ wf s' h ∧
        queue_of (ts s') id (MQ.mkS rest ({[p]} ∪ MQ.held a)) ∧
        TT.TASK_TAB_GetHandle (ts s') id = Some q' ∧ MQ.cells q' !! p = Some c
  end.
Proof.
  intros Hwf Hid (e0 & q & He0 & Hq & Hrep) He Hmerge. assert (e0 = e) as -> by congruence.
  pose proof (wf_tasks _ _ Hwf) as Hwt. destruct (MQ.run_get q a Hrep) as (r & o & q' & a' & Hrun & Hstep & Hrep').
  assert (VTOP_MSG_Recv s id = if negb (r =? HI_SUCCESS)
            then Returned (VTOP_MSG_ERR_MSGRCV, None, set_ts s (TT.put_queue (ts s) id (Some q')))
            else Returned (HI_SUCCESS, o, set_ts s (TT.put_queue (ts s) id (Some q')))) as ->.
  { unfold VTOP_MSG_Recv, queue_get, TT.TASK_TAB_GetMerge.
    replace (id =? VTOP_INVALID_TASK_ID) with false by (symmetry; by apply Z.eqb_neq).
    rewrite (exists_shm _ _ Hwf), (proj2 (TT.handle_entry _ _ _ q Hwt)) by eauto. cbn [negb].
    rewrite (TT.wf_shm _ _ Hwt), He, Hmerge, Z.eqb_refl. cbn [negb]. cbn [MQ.run_op] in Hrun. unfold TT.queue in *. rewrite Hrun. done. }
  destruct (queue_of_put (ts s) h id e q' a' Hwt Hid He0 Hrep') as (Hwt2 & Hqo & _).
  assert (wf (set_ts s (TT.put_queue (ts s) id (Some q'))) h) as Hwf' by (destruct Hwf; by split).
  destruct (MQ.pending a) as [|[p c] rest] eqn:Hp.
  - inversion Hstep; simplify_eq; simpl; [eauto|congruence].
  - inversion Hstep as [| | | |? b c' rest' Hp'| | |]; simplify_eq; simpl; [congruence|].
    assert (b = p ∧ c' = c ∧ rest' = rest) as (-> & -> & ->) by (rewrite Hp in Hp'; by simplify_eq).
    exists (set_ts s (TT.put_queue (ts s) id (Some q'))), q'. split_and!; [done|done|done| |].
    + apply (TT.handle_entry _ _ _ q' Hwt2). destruct (TT.put_queue_spec (ts s) h id e (Some q') Hwt Hid He0) as (_ & Hx & _).
      { intros ? [= <-]. by eexists. }
      by exists (TT.set_handle e (Some q')).
    + simpl in Hrun. rewrite (MQ.rep_list _ _ Hrep), Hp in Hrun. simpl in Hrun.
      destruct (MQ.rep_cell _ _ Hrep p c) as [Hn Hc]; [rewrite Hp; apply list_elem_of_here|].
      rewrite Hn in Hrun. cbn [oderef obind] in Hrun. by simplify_eq.
Qed.

(** ** Publishing *)

(** The publish thread serves one subscriber only.  [dispatch_SP] passes a
    capacity of 0 for the list of subscribers, so of all tasks subscribed to
    the type of the message only the one in the first place of the unit can
    receive it: its queue gets the message or is full.  The queue of every
    other task, subscribed or not, stays as it was, and when the first place is
    empty nobody receives anything. *)
Theorem dispatch_SP_first_only s h m bytes i u :
  wf s h → subs s !! i = Some u → ST.msgType u = msgType (msg m) → msgType (msg m) ≠ VTOP_INVALID_MSG_TYPE →
  ∃ s', dispatch_SP s m bytes = Returned s' ∧ wf s' h ∧
    (∀ id, id ≠ VTOP_INVALID_TASK_ID → head (ST.taskIdList u) ≠ Some id →
       TT.entry_of (ts s') id = TT.entry_of (ts s) id) ∧
    (∀ id a, id ≠ VTOP_INVALID_TASK_ID → head (ST.taskIdList u) = Some id → queue_of (ts s) id a →
       ∃ a', queue_of (ts s') id a' ∧
         (a' = a ∨ ∃ p, a' = MQ.mkS (MQ.pending a ++
            [(p, MSG_COPY2BUF p (set_msg (set_rcv (msg m) id) m) bytes)]) (MQ.held a))).
Proof.
  intros Hwf Hi Hu Hty. pose proof (wf_tasks _ _ Hwf) as Hwt. pose proof (wf_subs _ _ Hwf) as Hws.
  pose proof (ST.IsExist_spec _ (ts s) h (subs s) (msgType (msg m)) Hws (TT.wf_shm _ _ Hwt) Hty) as Hf.
  unfold dispatch_SP, ST.SUB_TAB_Sub2Task. rewrite (TT.wf_shm _ _ Hwt).
  destruct (ST.SUB_TAB_IsExist (ts s) (subs s) (msgType (msg m))) as [j|].
  2: { by destruct (Hf i u Hi). }
  destruct Hf as (u' & Hj & Hu'). assert (j = i) as ->.
  { eapply (ST.wf_types _ _ Hws); [done|done|congruence|congruence]. }
  assert (u' = u) as -> by congruence. rewrite Hi. cbn [oderef obind]. cbv zeta. rewrite TT.fill_list_zero.
  destruct (ST.taskIdList u) as [|x rest]; cbn [dispatch_loop obind head].
  { exists (set_ts s (ts s)). split_and!; [done|by destruct Hwf|done|done]. }
  unfold ST.is_id. destruct (x =? VTOP_INVALID_TASK_ID) eqn:Ex; bool_to_prop; cbn [dispatch_loop obind].
  { exists (set_ts s (ts s)). split_and!; [done|by destruct Hwf|done|]. intros id a Hne [= ->]. done. }
  destruct (TT.TASK_TAB_GetHandle (ts s) x) as [q|] eqn:Hh; cbn [obind].
  - apply (TT.handle_entry _ _ _ _ Hwt) in Hh as (e & He & Hq).
    destruct (TT.entry_of_range _ _ _ _ Hwt He) as [|Hr]; [done|].
    assert (∃ a, MQ.rep q a) as [a0 Ha0].
    { apply (TT.entry_of_Some _ h) in He as (k & Hk & _); [|done..]. by apply (TT.wf_queue _ _ Hwt k e). }
    destruct (put_result q a0 (set_msg (set_rcv (msg m) x) m) bytes Ha0) as (r & q' & a' & Hput & Hrep' & _).
    rewrite Hput. cbn [obind]. destruct (queue_of_put (ts s) h x e q' a' Hwt Ex He Hrep') as (Hwt2 & _ & Hother).
    exists (set_ts s (TT.put_queue (ts s) x (Some q'))). split_and!; [done|by destruct Hwf| |].
    + intros id Hne Hhd. apply Hother; [done|]. intros ->. done.
    + intros id a Hne [= <-] (e1 & q1 & He1 & Hq1 & Hrep1). assert (q1 = q) as -> by congruence.
      destruct (put_result q a (set_msg (set_rcv (msg m) x) m) bytes Hrep1) as (r2 & q2 & a2 & Hp2 & Hrep2 & Hcase2).
      assert (q2 = q') as -> by congruence.
      exists a2. split; [by apply (queue_of_put (ts s) h x e q' a2 Hwt Ex He Hrep2)|].
      destruct Hcase2 as [(_ & p & _ & ->)|[_ ->]]; [right; eauto|by left].
  - exists (set_ts s (ts s)). split_and!; [done|by destruct Hwf|done|].
    intros id a Hne [= <-] (e1 & q1 & He1 & Hq1 & _). exfalso.
    assert (TT.TASK_TAB_GetHandle (ts s) x = Some q1) by (apply (TT.handle_entry _ _ _ _ Hwt); eauto). congruence.
Qed.

(** ** Waiting for an answer *)

Definition poll_ok (handle : Z) (p : poll) : Prop :=
  RM.wf (p_rsp p) ∧
  ∀ e, RM.slots (p_rsp p) !! Z.to_nat handle = Some e → RM.enState e = RM.MSG_RSPMNG_STATE_ACTIVE → is_Some (RM.buf e).

(** The slots after [MSG_RSPMNG_Delete]. *)
Lemma delete_frees r handle :
  RM.wf r → RM.handle_valid handle = true →
  ∃ e, RM.slots (snd (RM.MSG_RSPMNG_Delete r handle)) !! Z.to_nat handle = Some e ∧
       RM.enState e = RM.MSG_RSPMNG_STATE_FREE.
Proof.
  intros Hwf Hv. destruct (RM.slot_at r handle Hwf Hv) as [e He].
  unfold RM.MSG_RSPMNG_Delete. rewrite (RM.wf_init _ Hwf), Hv. simpl.
  exists (RM.set_state RM.MSG_RSPMNG_STATE_FREE e). split; [|done]. rewrite (alter_lookup _ _ _ _ He).
  apply list_lookup_insert_eq. by eapply lookup_lt_Some.
Qed.

(** A synchronous request comes back.  Whatever the other threads do to the
    slots, the wait of [MSG_SendSyncMsg] with a timeout that is not negative
    ends by the first poll at which the timeout has passed, with an answer, a
    failed allocation or the timeout; and however it ends, the response slot is
    free afterwards.  With a negative timeout it goes on only while there is no
    answer. *)
Theorem MSG_SendSyncMsg_wait handle timeout startTime polls :
  RM.handle_valid handle = true → Forall (poll_ok handle) polls →
  ∃ res, sync_wait handle timeout startTime polls = Returned res ∧
    match res with
    | Answered _ _ r | Failed _ r => ∃ e, RM.slots r !! Z.to_nat handle = Some e ∧ RM.enState e = RM.MSG_RSPMNG_STATE_FREE
    | Waiting => ∀ p e, p ∈ polls → RM.slots (p_rsp p) !! Z.to_nat handle = Some e →
                   RM.enState e ≠ RM.MSG_RSPMNG_STATE_ACTIVE ∧ (timeout < 0 ∨ s32 (p_time p - startTime) < timeout)
    end.
Proof.
  intros Hv. induction 1 as [|p polls [Hwf Hact] _ IH]; simpl.
  { eexists. split; [done|]. by intros ? ? ?%elem_of_nil. }
  pose proof (delete_frees (p_rsp p) handle Hwf Hv) as Hdel. destruct (RM.slot_at _ handle Hwf Hv) as [e He].
  unfold RM.MSG_RSPMNG_GetData. rewrite Hv, He. cbn [negb oderef obind].
  destruct (RM.state_is RM.MSG_RSPMNG_STATE_ACTIVE e) eqn:Ha; unfold RM.state_is in Ha; bool_to_prop; cbn [negb obind].
  - change (HI_SUCCESS =? HI_SUCCESS) with true. cbv iota. destruct (Hact e He Ha) as [c ->]. cbn [oderef obind].
    destruct (p_malloc p); eexists; (split; [done|]); done.
  - change (HI_FAILURE =? HI_SUCCESS) with false. cbv iota.
    assert ((timeout < 0 ∨ s32 (p_time p - startTime) < timeout) →
      ∃ res, sync_wait handle timeout startTime polls = Returned res ∧
      match res with
      | Answered _ _ r | Failed _ r => ∃ e, RM.slots r !! Z.to_nat handle = Some e ∧ RM.enState e = RM.MSG_RSPMNG_STATE_FREE
      | Waiting => ∀ p' e', p' ∈ p :: polls → RM.slots (p_rsp p') !! Z.to_nat handle = Some e' →
                   RM.enState e' ≠ RM.MSG_RSPMNG_STATE_ACTIVE ∧ (timeout < 0 ∨ s32 (p_time p' - startTime) < timeout)
      end) as Hgo.
    { intros Ht. destruct IH as (res & E & Hres). exists res. split; [done|]. destruct res; [done|done|].
      intros p' e' [->|Hin]%elem_of_cons He'; [|by apply Hres]. split; [|done]. congruence. }
    destruct (0 <? timeout) eqn:E1; bool_to_prop.
    + destruct (s32 (p_time p - startTime) <? timeout) eqn:E2; bool_to_prop; [by apply Hgo; right|].
      eexists. split; [done|]. done.
    + destruct (timeout <? 0) eqn:E2; bool_to_prop; [by apply Hgo; left|].
      eexists. split; [done|]. done.
Qed.

(** ** Registering *)

Definition short_names (t : TT.TASK_STATE) : Prop :=
  ∀ i e, TT.tab t !! i = Some e → (String.length (TT.taskName e) ≤ 15)%nat.

Lemma name_unknown t h name :
  TT.wf t h → short_names t → (String.length name ≤ 15)%nat → TT.TASK_TAB_IsTaskExist t name = false →
  ∀ i e, TT.tab t !! i = Some e → TT.taskName e = name → e = TT.TASKTABInitUnit ∨ name = EmptyString.
Proof.
  intros Hwf Hshort Hlen. unfold TT.TASK_TAB_IsTaskExist, TT.TASK_TAB_Name2Id. rewrite (TT.wf_shm _ _ Hwf).
  intros Hno%negb_false_iff i e Hi Hname. destruct (decide (name = EmptyString)) as [|Hne]; [by right|left].
  assert (TT.strncmp_eq (TT.taskName e) name TT.VTOP_MSG_MAX_TASK_NAME_LEN = true) as Heq
    by (apply TT.strncmp_short; [by eapply Hshort|done|done]).
  destruct (find_index _ _) as [k|] eqn:Hf.
  - apply find_index_lookup in Hf as (e' & Hk & Hcmp). rewrite Hk in Hno. apply Z.eqb_eq in Hno.
    pose proof (TT.free_entry _ _ _ _ Hwf Hk Hno) as ->. exfalso. apply Hne.
    apply TT.strncmp_short in Hcmp; [by rewrite <-Hcmp|by eapply Hshort|done].
  - rewrite find_index_None in Hf. rewrite (Hf _ _ Hi) in Heq. done.
Qed.

(** The shape of the table after an addition. *)
Lemma add2_tab mq m t h name own r t1 :
  TT.wf t h → TT.TASK_TAB_Add2 mq m t name own = Returned (r, t1) →
  t1 = t ∧ r = VTOP_INVALID_TASK_ID ∨
  ∃ i e q, TT.tab t !! i = Some e ∧ TT.taskId e = VTOP_INVALID_TASK_ID ∧
    TT.tab t1 = <[i := TT.mkTask (TT.name_copy name) (TT.counter_taskId h) own VTOP_INVALID_MSG_TYPE q]> (TT.tab t) ∧
    (r = VTOP_INVALID_TASK_ID ∨ r = TT.counter_taskId h).
Proof.
  intros Hwf. unfold TT.TASK_TAB_Add2. rewrite (TT.wf_shm _ _ Hwf).
  destruct (find_index _ _) as [i|] eqn:Hf; [|intros [= <- <-]; by left].
  apply find_index_lookup in Hf as (e & Hi & He%Z.eqb_eq). rewrite obind_returned.
  intros ([ret q] & _ & [= <- <-]). right. exists i, e, q. split_and!; try done. destruct (ret <? 0); eauto.
Qed.

Lemma names_insert t t' i e e' :
  TT.names_ok t → short_names t → TT.tab t !! i = Some e → TT.tab t' = <[i := e']> (TT.tab t) →
  (String.length (TT.taskName e') ≤ 15)%nat →
  (TT.taskName e' ≠ EmptyString → ∀ j x, TT.tab t !! j = Some x → TT.taskName x ≠ TT.taskName e') →
  TT.names_ok t' ∧ short_names t'.
Proof.
  intros Hn Hs Hi Ht Hlen Hnew. unfold TT.names_ok, short_names. rewrite Ht. split.
  - intros j k x y [(-> & <- & _)|[Hij Hj]]%list_lookup_insert_Some
      [(-> & <- & _)|[Hik Hk]]%list_lookup_insert_Some Heq Hne; try done.
    + exfalso. by apply (Hnew Hne k y).
    + exfalso. rewrite Heq in Hne. by apply (Hnew Hne j x).
    + by eapply Hn.
  - intros j x [(-> & <- & _)|[Hij Hj]]%list_lookup_insert_Some; [done|by eapply Hs].
Qed.

Lemma name_copy_short s : (String.length s ≤ 15)%nat → TT.name_copy s = s.
Proof. apply TT.substring_all. Qed.

(** C31: [VTOP_MSG_Register] keeps names unique.  Whatever its allocations
    answer, it returns; it refuses a name that is in use; and the names that are
    not empty still tell the tasks apart afterwards.  When it succeeds, the
    new id was not in use, and looking the name up gives it. *)
Theorem VTOP_MSG_Register_correct m s h name handler log :
  wf s h → TT.names_ok (ts s) → short_names (ts s) → VTOP_MSG_IsVersionMatch s = true →
  (String.length name ≤ 15)%nat → name ≠ EmptyString →
  TT.counter_taskId h < 2 ^ 31 - 1 → (∀ n p, MB.malloc_buf (rm_buf m) n = Some p → 0 < p) →
  ∃ r o s', VTOP_MSG_Register m s (Some name) handler log false = Returned (r, o, s') ∧
    TT.names_ok (ts s') ∧ short_names (ts s') ∧
    (TT.TASK_TAB_IsTaskExist (ts s) name = true → r = VTOP_MSG_ERR_TASKEXIST ∧ s' = s) ∧
    (r = 0 → ∃ id, o = Some id ∧ TT.TASK_TAB_IsTaskIdExist (ts s) id = false ∧
       TT.TASK_TAB_IsTaskIdExist (ts s') id = true ∧ VTOP_MSG_GetTaskId s' (Some name) = id).
Proof.
  intros Hwf Hn Hs Hver Hlen Hne Hcnt Hm. pose proof (wf_tasks _ _ Hwf) as Hwt.
  unfold VTOP_MSG_Register, VTOP_MSG_RegisterX.
  replace (TT.VTOP_MSG_MAX_TASK_NAME_LEN <=? Z.of_nat (String.length name)) with false
    by (symmetry; apply Z.leb_gt; change TT.VTOP_MSG_MAX_TASK_NAME_LEN with 16; lia).
  rewrite (exists_shm _ _ Hwf), Hver. cbn [negb].
  destruct (TT.TASK_TAB_IsTaskExist (ts s) name) eqn:Hex.
  { do 3 eexists. split; [done|]. split_and!; try done; intros Hx; by vm_compute in Hx. }
  destruct (TT.add2_spec (rm_queue m) (rm_buf m) (ts s) h name TT.TASK_OWNER_TASK Hwt Hcnt Hm)
    as (r1 & t1 & h1 & Hadd & Hwt1 & _).
  pose proof (add2_tab _ _ _ _ _ _ _ _ Hwt Hadd) as Htab. rewrite Hadd. cbn [obind].
  destruct Htab as [[-> ->]|(i & e & q & Hi & He & Ht & Hr)].
  { do 3 eexists. split; [done|]. split_and!; try done; intros Hx; by vm_compute in Hx. }
  rewrite (name_copy_short name Hlen) in Ht. set (e' := TT.mkTask name _ _ _ q) in Ht.
  pose proof (TT.free_entry _ _ _ _ Hwt Hi He) as ->.
  assert (∀ j x, TT.tab (ts s) !! j = Some x → TT.taskName x ≠ name) as Hfresh.
  { intros j x Hj Hx. destruct (name_unknown _ _ _ Hwt Hs Hlen Hex j x Hj Hx) as [->|]; [|done]. by rewrite <-Hx in Hne. }
  destruct (names_insert (ts s) t1 i _ e' Hn Hs Hi Ht Hlen) as [Hn1 Hs1]; [by intros _|].
  destruct Hr as [-> | ->].
  { do 3 eexists. split; [done|]. split_and!; try done; intros Hx; by vm_compute in Hx. }
  pose proof (TT.wf_count _ _ Hwt) as Hc0.
  replace (TT.counter_taskId h =? VTOP_INVALID_TASK_ID) with false
    by (symmetry; apply Z.eqb_neq; unfold VTOP_INVALID_TASK_ID; lia).
  assert (TT.tab t1 !! i = Some e') as Hi1 by (rewrite Ht; apply list_lookup_insert_eq; by eapply lookup_lt_Some).
  destruct (addTaskData _ _ _ _) as [ret g]. destruct (ret <? 0) eqn:Hret.
  - destruct (TT.del_spec t1 h1 (TT.counter_taskId h) Hwt1) as (r2 & t2 & -> & _ & _ & _ & Hcase).
    { unfold VTOP_INVALID_TASK_ID; lia. }
    cbn [obind].
    assert (TT.names_ok t2 ∧ short_names t2) as [Hn2 Hs2].
    { destruct (TT.entry_of t1 _) as [x|]; [|by destruct Hcase as [_ ->]].
      destruct Hcase as (_ & k & Hk & Ht2). apply (names_insert t1 t2 k x TT.TASKTABInitUnit); try done. simpl. lia. }
    destruct (r2 <? 0) eqn:Hr2; do 3 eexists; (split; [done|]); split_and!; try done; intros Hx;
      first [by rewrite Hx in Hr2|by vm_compute in Hx].
  - do 3 eexists. split; [done|]. split_and!; [done|done|done|]. intros _.
    eexists. split; [done|]. split_and!.
    + apply not_true_is_false. rewrite (TT.exist_entry _ _ _ Hwt). intros [x Hx].
      apply (TT.entry_of_range _ _ _ _ Hwt) in Hx as [Hx|Hx]; unfold VTOP_INVALID_TASK_ID in *; lia.
    + simpl. apply (TT.exist_entry _ _ _ Hwt1). exists e'.
      apply (TT.entry_of_Some _ h1); [done|unfold VTOP_INVALID_TASK_ID; lia|]. eauto.
    + unfold VTOP_MSG_GetTaskId, TT.SHM_Exist, TT.TASK_TAB_Name2Id. simpl. rewrite (TT.wf_shm _ _ Hwt1). simpl.
      rewrite (find_index_unique _ _ i e' Hi1); [by rewrite Hi1|by apply TT.strncmp_short|].
      intros j y Hj Hy. apply TT.strncmp_short in Hy; [|by eapply Hs1|done].
      eapply (Hn1 j i); [done|done|done|congruence].
Qed.

(** ** A small system

    Two tasks, one of them subscribed to type 7. *)
Definition demo : SYS :=
  mkSys ST.two_tasks ST.one_sub RM.initial (Some [mkData 0 0 0 (-1) (-1); mkData 1 0 0 (-1) (-1)]) (Some MQ.fresh_queue).
Definition demo_shm : TT.MSG_SHM_S := default TT.started_shm (TT.shm ST.two_tasks).
Definition demo_entry : TT.MSG_TAB_TASK_S := default TT.TASKTABInitUnit (TT.entry_of ST.two_tasks 0).
Definition junk : VTOP_MSG_S_InnerBlock := mkInner (mkBlock 0 0 0 0 0 0 0 0) 0 0 0.
Definition hello : VTOP_MSG_S_Block := mkBlock 1 0 7 0 9 0 2 0x100.

Lemma two_tasks_wf : TT.wf ST.two_tasks demo_shm.
Proof.
  pose proof (TT.with_task_wf "a" TT.started TT.started_shm TT.started_wf ltac:(vm_compute; reflexivity)) as H1.
  pose proof (TT.with_task_wf "b" _ _ H1 ltac:(vm_compute; reflexivity)) as H2.
  assert (demo_shm = default (default TT.started_shm (TT.shm (TT.with_task "a" TT.started))) (TT.shm ST.two_tasks)) as ->.
  { vm_compute. reflexivity. }
  exact H2.
Qed.

Lemma demo_wf : wf demo demo_shm.
Proof.
  assert (TT.maxTaskNumInSub demo_shm = 4) as HK by (vm_compute; reflexivity).
  split.
  - exact two_tasks_wf.
  - rewrite HK. lia.
  - rewrite HK. exact (proj1 ST.one_sub_wf).
  - vm_compute. reflexivity.
  - exact RM.initial_wf.
Qed.

Lemma demo_entry_ok : TT.entry_of (ts demo) 0 = Some demo_entry ∧ TT.msgtype demo_entry = VTOP_INVALID_MSG_TYPE.
Proof. split; vm_compute; reflexivity. Qed.

Lemma demo_queue : ∃ a, queue_of (ts demo) 0 a.
Proof.
  destruct demo_entry_ok as [He _].
  assert (∃ q, TT.handle demo_entry = Some q) as [q Hq] by (eexists; vm_compute; reflexivity).
  apply (TT.entry_of_Some _ demo_shm) in He as (i & Hi & _); [|exact two_tasks_wf|discriminate].
  destruct (TT.wf_queue _ _ two_tasks_wf i demo_entry q Hi Hq) as [a Ha].
  exists a, demo_entry, q. split; [apply demo_entry_ok|]. done.
Qed.

Lemma demo_distinct : data_distinct (g_TaskData demo).
Proof. apply (bool_decide_eq_true_1 _). vm_compute. reflexivity. Qed.

Lemma VTOP_MSG_UnRegister_correct_witness :
  ∃ s', VTOP_MSG_UnRegister true demo 0 = Returned (0, s') ∧ (∀ ty, ¬ ST.subscribed (subs s') ty 0) ∧
    default [] (g_TaskData s') = [mkData 1 0 0 (-1) (-1)].
Proof.
  destruct (VTOP_MSG_UnRegister_correct demo demo_shm 0 (mkData 0 0 0 (-1) (-1)) demo_wf ltac:(discriminate)
    ltac:(vm_compute; reflexivity) demo_distinct ltac:(vm_compute; reflexivity)) as (s' & H & _ & _ & _ & Hs & _ & _ & _ & _ & Hd & _).
  exists s'. split; [assumption|]. split; [assumption|]. rewrite Hd. vm_compute. reflexivity.
Defined.

Lemma VTOP_MSG_AsynSend_correct_witness :
  ∃ i s', VTOP_MSG_AsynSend junk demo hello [1; 2] = Returned (0, i, s').
Proof.
  destruct demo_queue as [a Ha].
  destruct (VTOP_MSG_AsynSend_correct junk demo demo_shm hello [1; 2] a demo_wf ltac:(discriminate) Ha)
    as (r & i & s' & h' & a' & H & _).
  assert ((let! x := VTOP_MSG_AsynSend junk demo hello [1; 2] in Returned x.1.1) = Returned 0) as Hc
    by (vm_compute; reflexivity).
  rewrite H in Hc. cbn [obind fst] in Hc. injection Hc as ->. exists i, s'. exact H.
Defined.

Lemma VTOP_MSG_Recv_correct_witness :
  ∃ a, match MQ.pending a with
       | [] => ∃ s', VTOP_MSG_Recv demo 0 = Returned (VTOP_MSG_ERR_MSGRCV, None, s') ∧ wf s' demo_shm ∧ queue_of (ts s') 0 a
       | (p, c) :: rest =>
           ∃ s' q', VTOP_MSG_Recv demo 0 = Returned (HI_SUCCESS, Some p, s') ∧ wf s' demo_shm ∧
             queue_of (ts s') 0 (MQ.mkS rest ({[p]} ∪ MQ.held a)) ∧
             TT.TASK_TAB_GetHandle (ts s') 0 = Some q' ∧ MQ.cells q' !! p = Some c
       end.
Proof.
  destruct demo_queue as [a Ha]. exists a.
  exact (VTOP_MSG_Recv_correct demo demo_shm 0 a demo_entry demo_wf ltac:(discriminate) Ha
           (proj1 demo_entry_ok) (proj2 demo_entry_ok)).
Defined.

Lemma dispatch_SP_first_only_witness :
  ∃ s', dispatch_SP demo (set_msg hello junk) [1; 2] = Returned s' ∧ TT.entry_of (ts s') 1 = TT.entry_of (ts demo) 1.
Proof.
  destruct (dispatch_SP_first_only demo demo_shm (set_msg hello junk) [1; 2] 0 (ST.mkSub 7 [0; -1; -1; -1]) demo_wf
    ltac:(vm_compute; reflexivity) eq_refl ltac:(discriminate)) as (s' & H & _ & Ho & _).
  exists s'. split; [exact H|]. apply Ho; discriminate.
Defined.

Lemma MSG_SendSyncMsg_wait_witness :
  ∃ res, sync_wait 0 100 0 [mkPoll 50 RM.initial None; mkPoll 100 RM.initial None] = Returned res.
Proof.
  destruct (MSG_SendSyncMsg_wait 0 100 0 [mkPoll 50 RM.initial None; mkPoll 100 RM.initial None] eq_refl) as (res & H & _).
  - repeat constructor; try apply RM.initial_wf; simpl; intros e He; vm_compute in He; injection He as <-; discriminate.
  - exists res. exact H.
Defined.

Lemma VTOP_MSG_Register_correct_witness :
  ∃ r o s', VTOP_MSG_Register (mkReg true MB.plain_malloc true true)
    (mkSys TT.started ST.no_subs RM.initial None None) (Some "player"%string) 0 0 false = Returned (r, o, s').
Proof.
  assert (TT.tab TT.started = replicate 4 TT.TASKTABInitUnit) as E by (vm_compute; reflexivity).
  destruct (VTOP_MSG_Register_correct (mkReg true MB.plain_malloc true true)
    (mkSys TT.started ST.no_subs RM.initial None None) TT.started_shm "player" 0 0) as (r & o & s' & H & _).
  - split; [exact TT.started_wf|vm_compute; reflexivity|exact ST.no_subs_wf|vm_compute; reflexivity|exact RM.initial_wf].
  - intros i j e e' Hi Hj _ Hne. exfalso. apply Hne. cbn [ts] in Hi. rewrite E in Hi.
    by apply lookup_replicate in Hi as [-> _].
  - intros i e Hi. cbn [ts] in Hi. rewrite E in Hi. apply lookup_replicate in Hi as [-> _]. simpl. lia.
  - vm_compute. reflexivity.
  - simpl. lia.
  - discriminate.
  - vm_compute. reflexivity.
  - exact MQ.plain_malloc_pos.
  - exists r, o, s'. exact H.
Defined.

End SY.
