(* ===== verification/PeTimer.v ===== *)
(** The relative timers of [pereltm.c], with the deferred calls of [tsklet.c]
    and the tick hooks of [petimer.c].

    A hash wheel of 1024 slots holds the running timers.  A timer due within
    one turn of the wheel is on its slot's zero link; a later one is on the
    slot's sorted link, whose nodes carry the number of turns left after their
    predecessor, in the high bits of [ticks_left].  Client calls only queue
    deferred calls; the tick thread runs them and then serves the slot of the
    tick.  A timer that restarts by itself queues the restart as a deferred call:
    whether [malloc] gives its item is a function of what was called before. *)

From S2P Require Import Prelude.

Module PT.

Definition TICKS_PER_SECOND : Z := 100.
Definition MSEC_PER_TICK : Z := 1000 / TICKS_PER_SECOND.
Definition PERELTM_HASH_BITS : Z := 10.
Definition TM_HASH_LEN : Z := Z.shiftl 1 PERELTM_HASH_BITS.
Definition TM_HASH_MASK : Z := TM_HASH_LEN - 1.
Definition TM_TMLEN_MASK : Z := u32 (Z.lnot TM_HASH_MASK).
Definition TM_HASH_FUNC (value : Z) : Z := Z.land value TM_HASH_MASK.

Definition PETF_ONE_SHOOT : Z := 1.
Definition PETF_AUTO_FREE : Z := 2.
Definition ENOMEM : Z := 12.
Definition EINVAL : Z := 22.

Inductive tm_link := RELTM_LINK_ZERO | RELTM_LINK_SORTED.

#[global] Instance tm_link_eq_dec : EqDecision tm_link.
Proof. solve_decision. Defined.

(** [struct tm_cb_t], by the address of the timer.  [slot] says where the
    embedded [list] node is linked: the hash slot, or [None] when it is linked
    to itself ([list_isinqueue] is false).  [ticks_left] is kept with the node,
    in the link. *)
Record tm_cb_t := mkTm {
  msec : Z;
  timeout : Z;
  arg : Z;
  mode : Z;
  link : tm_link;
  slot : option Z
}.

(** The deferred calls queued on the two tasklets. *)
Inductive tsklet :=
  | do_start_tm (timer msec arg : Z)
  | do_stop_tm (timer : Z) (finallize : option (Z * Z))
  | do_free_tm (timer : Z)
  | do_restart_tm (timer : Z).

(** What the clients see: a timeout or a finalizer called with an argument. *)
Inductive event :=
  | Timeout (timer func arg : Z)
  | Finalized (func arg : Z).

(** [sync_block_t].  The links of a slot list (timer, [ticks_left]); a slot
    with no entry has empty links. *)
Record sync_block_t := mkSync {
  rel_tsklets : list tsklet;
  rel_inter_tsklets : list tsklet;
  tick_last : Z;
  zero_link : gmap Z (list (Z * Z));
  sorted_link : gmap Z (list (Z * Z));
  timers : gmap Z tm_cb_t;
  events : list event
}.

Definition entries (m : gmap Z (list (Z * Z))) (i : Z) : list (Z * Z) := default [] (m !! i).

Definition set_rel (sb : sync_block_t) (l : list tsklet) : sync_block_t :=
  mkSync l (rel_inter_tsklets sb) (tick_last sb) (zero_link sb) (sorted_link sb) (timers sb) (events sb).
Definition set_inter (sb : sync_block_t) (l : list tsklet) : sync_block_t :=
  mkSync (rel_tsklets sb) l (tick_last sb) (zero_link sb) (sorted_link sb) (timers sb) (events sb).
Definition set_tick (sb : sync_block_t) (t : Z) : sync_block_t :=
  mkSync (rel_tsklets sb) (rel_inter_tsklets sb) t (zero_link sb) (sorted_link sb) (timers sb) (events sb).
Definition set_zero (sb : sync_block_t) (i : Z) (l : list (Z * Z)) : sync_block_t :=
  mkSync (rel_tsklets sb) (rel_inter_tsklets sb) (tick_last sb) (<[i := l]> (zero_link sb))
         (sorted_link sb) (timers sb) (events sb).
Definition set_sorted (sb : sync_block_t) (i : Z) (l : list (Z * Z)) : sync_block_t :=
  mkSync (rel_tsklets sb) (rel_inter_tsklets sb) (tick_last sb) (zero_link sb)
         (<[i := l]> (sorted_link sb)) (timers sb) (events sb).
Definition set_timers (sb : sync_block_t) (t : gmap Z tm_cb_t) : sync_block_t :=
  mkSync (rel_tsklets sb) (rel_inter_tsklets sb) (tick_last sb) (zero_link sb) (sorted_link sb) t (events sb).
Definition add_event (sb : sync_block_t) (e : event) : sync_block_t :=
  mkSync (rel_tsklets sb) (rel_inter_tsklets sb) (tick_last sb) (zero_link sb) (sorted_link sb)
         (timers sb) (events sb ++ [e]).

Definition set_slot (cb : tm_cb_t) (l : tm_link) (s : option Z) : tm_cb_t :=
  mkTm (msec cb) (timeout cb) (arg cb) (mode cb) l s.

(** [init_reltm] after its allocations: empty tasklets and links, tick 0. *)
Definition init_reltm : sync_block_t := mkSync [] [] 0 ∅ ∅ ∅ [].

(** [petimer_create_reltimer]: [addr] is what [malloc] answers. *)
Definition petimer_create_reltimer (sb : sync_block_t) (addr : option Z) (func mode : Z)
  : option Z * sync_block_t :=
  if func =? 0 then (None, sb)
  else match addr with
       | None => (None, sb)
       | Some t => (Some t, set_timers sb (<[t := mkTm 0 func 0 (Z.land mode 0xFF) RELTM_LINK_ZERO None]> (timers sb)))
       end.

(** ** The wheel *)

(** Milliseconds to ticks, at least one. *)
Definition ticks_of (ms : Z) : Z :=
  let ttick := u32 (ms + MSEC_PER_TICK / 2) / MSEC_PER_TICK in
  if ttick =? 0 then 1 else ttick.

(** The search and the insertion in a sorted link. *)
Fixpoint sorted_insert (t tl : Z) (l : list (Z * Z)) : list (Z * Z) :=
  match l with
  | [] => [(t, tl)]
  | (t', tl') :: l' =>
      if tl <? tl'
      then (t, tl) :: (t', u32 (tl' - Z.land tl TM_TMLEN_MASK)) :: l'
      else (t', tl') :: sorted_insert t (u32 (tl - Z.land tl' TM_TMLEN_MASK)) l'
  end.

(** [_add2hash]. *)
Definition add2hash (sb : sync_block_t) (t : Z) : outcome sync_block_t :=
  let! cb := oderef (timers sb !! t) in
  let ttick := ticks_of (msec cb) in
  let i := TM_HASH_FUNC (u32 (tick_last sb + ttick)) in
  let ticks_left := u32 (i + Z.land (ttick - 1) TM_TMLEN_MASK) in
  if TM_HASH_LEN <? ttick
  then Returned (set_timers (set_sorted sb i (sorted_insert t ticks_left (entries (sorted_link sb) i)))
                            (<[t := set_slot cb RELTM_LINK_SORTED (Some i)]> (timers sb)))
  else Returned (set_timers (set_zero sb i (entries (zero_link sb) i ++ [(t, ticks_left)]))
                            (<[t := set_slot cb RELTM_LINK_ZERO (Some i)]> (timers sb))).

(** Unlinking a node, with what [_del_from_hash] gives to its successor. *)
Fixpoint sorted_delete (t : Z) (l : list (Z * Z)) : list (Z * Z) :=
  match l with
  | [] => []
  | (t', tl') :: l' =>
      if t' =? t
      then match l' with
           | [] => []
           | (t1, tl1) :: l'' => (t1, u32 (tl1 + Z.land tl' TM_TMLEN_MASK)) :: l''
           end
      else (t', tl') :: sorted_delete t l'
  end.

Definition unlink (t : Z) (l : list (Z * Z)) : list (Z * Z) :=
  List.filter (λ e, negb (fst e =? t)) l.

(** [_del_from_hash]; called only when the timer is linked. *)
Definition del_from_hash (sb : sync_block_t) (t : Z) : outcome sync_block_t :=
  let! cb := oderef (timers sb !! t) in
  let! i := oderef (slot cb) in
  let sb' := match link cb with
             | RELTM_LINK_SORTED => set_sorted sb i (sorted_delete t (entries (sorted_link sb) i))
             | RELTM_LINK_ZERO => set_zero sb i (unlink t (entries (zero_link sb) i))
             end in
  Returned (set_timers sb' (<[t := set_slot cb (link cb) None]> (timers sb))).

Definition list_isinqueue (cb : tm_cb_t) : bool := bool_decide (is_Some (slot cb)).

(** ** Deferred calls *)

(** [_do_start_tm]. *)
Definition run_start (sb : sync_block_t) (t ms a : Z) : outcome sync_block_t :=
  let! cb := oderef (timers sb !! t) in
  let! sb1 := (if list_isinqueue cb then del_from_hash sb t else Returned sb) in
  let! cb1 := oderef (timers sb1 !! t) in
  add2hash (set_timers sb1 (<[t := mkTm ms (timeout cb1) a (mode cb1) (link cb1) (slot cb1)]> (timers sb1))) t.

(** [_do_stop_tm]. *)
Definition run_stop (sb : sync_block_t) (t : Z) (fin : option (Z * Z)) : outcome sync_block_t :=
  let! cb := oderef (timers sb !! t) in
  let! sb1 := (if list_isinqueue cb then del_from_hash sb t else Returned sb) in
  Returned (match fin with Some (f, a) => add_event sb1 (Finalized f a) | None => sb1 end).

(** [_do_free_tm]. *)
Definition run_free (sb : sync_block_t) (t : Z) : outcome sync_block_t :=
  let! cb := oderef (timers sb !! t) in
  let! sb1 := (if list_isinqueue cb then del_from_hash sb t else Returned sb) in
  Returned (set_timers sb1 (delete t (timers sb1))).

Definition run_tsklet (sb : sync_block_t) (k : tsklet) : outcome sync_block_t :=
  match k with
  | do_start_tm t ms a => run_start sb t ms a
  | do_stop_tm t fin => run_stop sb t fin
  | do_free_tm t => run_free sb t
  | do_restart_tm t => add2hash sb t
  end.

(** [tsklet_invokeall]: the queued calls in order, each removed after it ran. *)
Fixpoint invokeall (ks : list tsklet) (sb : sync_block_t) : outcome sync_block_t :=
  match ks with
  | [] => Returned sb
  | k :: ks' => let! sb' := run_tsklet sb k in invokeall ks' sb'
  end.

(** [tsklet_invokelater] on a tasklet; [malloc_ok] is the answer for the item. *)
Definition tsklet_invokelater (malloc_ok : bool) (tasklet : list tsklet) (k : tsklet) : Z * list tsklet :=
  if malloc_ok then (0, tasklet ++ [k]) else (ENOMEM, tasklet).

(** A call queued on the clients' tasklet. *)
Definition invoke_rel (malloc_ok : bool) (sb : sync_block_t) (k : tsklet) : Z * sync_block_t :=
  let '(ret, l) := tsklet_invokelater malloc_ok (rel_tsklets sb) k in (ret, set_rel sb l).

Definition petimer_start_reltimer (info_ok item_ok : bool) (sb : sync_block_t) (t ms a : Z)
  : Z * sync_block_t :=
  if negb info_ok then (ENOMEM, sb) else invoke_rel item_ok sb (do_start_tm t ms a).

Definition petimer_stop_reltimer_safe (info_ok item_ok : bool) (sb : sync_block_t) (t : Z)
    (fin : option (Z * Z)) : Z * sync_block_t :=
  if negb info_ok then (ENOMEM, sb) else invoke_rel item_ok sb (do_stop_tm t fin).

Definition petimer_free_reltimer (item_ok : bool) (sb : sync_block_t) (t : Z) : Z * sync_block_t :=
  invoke_rel item_ok sb (do_free_tm t).

Definition petimer_start_reltimer_simple (addr : option Z) (info_ok item_ok : bool)
    (sb : sync_block_t) (ms func a : Z) : Z * sync_block_t :=
  match petimer_create_reltimer sb addr func PETF_AUTO_FREE with
  | (None, sb') => (ENOMEM, sb')
  | (Some t, sb') => petimer_start_reltimer info_ok item_ok sb' t ms a
  end.

(** ** The tick *)

Section Tick.
(** What a timeout function does to the timers: the calls it queues on the
    clients' tasklet, from its address and its argument.  And whether [malloc]
    has the item of a restart, an arbitrary function of what happened before. *)
Context (callback : Z → Z → list tsklet) (item : list event → bool).

(** [_trigger_a_timer]: the answer of [tsklet_invokelater] is ignored. *)
Definition trigger_a_timer (sb : sync_block_t) (t : Z) : outcome sync_block_t :=
  let! cb := oderef (timers sb !! t) in
  let sb1 := set_rel (add_event sb (Timeout t (timeout cb) (arg cb)))
                     (rel_tsklets sb ++ callback (timeout cb) (arg cb)) in
  let! i := oderef (slot cb) in
  let sb2 := match link cb with
             | RELTM_LINK_SORTED => set_sorted sb1 i (unlink t (entries (sorted_link sb1) i))
             | RELTM_LINK_ZERO => set_zero sb1 i (unlink t (entries (zero_link sb1) i))
             end in
  let sb3 := set_timers sb2 (<[t := set_slot cb (link cb) None]> (timers sb2)) in
  if negb (Z.land (mode cb) PETF_AUTO_FREE =? 0)
  then Returned (set_timers sb3 (delete t (timers sb3)))
  else if Z.land (mode cb) PETF_ONE_SHOOT =? 0
  then Returned (set_inter sb3 (snd (tsklet_invokelater (item (events sb3)) (rel_inter_tsklets sb3) (do_restart_tm t))))
  else Returned sb3.

(** The traversal of a zero link. *)
Fixpoint zero_loop (items : list (Z * Z)) (sb : sync_block_t) : outcome sync_block_t :=
  match items with
  | [] => Returned sb
  | (t, _) :: items' => let! sb' := trigger_a_timer sb t in zero_loop items' sb'
  end.

(** The traversal of the sorted link of slot [i]: it stops at the first timer
    with turns left, which loses one. *)
Fixpoint sorted_loop (i : Z) (items : list (Z * Z)) (sb : sync_block_t) : outcome sync_block_t :=
  match items with
  | [] => Returned sb
  | (t, tl) :: items' =>
      if tl <? TM_HASH_LEN
      then let! sb' := trigger_a_timer sb t in sorted_loop i items' sb'
      else Returned (set_sorted sb i ((t, u32 (tl - TM_HASH_LEN)) :: items'))
  end.

(** The slot of the current tick: its zero link, then its sorted link, then
    [_tick_last++]. *)
Definition serve_slot (sb : sync_block_t) : outcome sync_block_t :=
  let i := TM_HASH_FUNC (tick_last sb) in
  let! sb1 := zero_loop (entries (zero_link sb) i) sb in
  let! sb2 := sorted_loop i (entries (sorted_link sb1) i) sb1 in
  Returned (set_tick sb2 (u32 (tick_last sb2 + 1))).

(** One turn of the loop of [_reltm_trigger]. *)
Definition reltm_tick (sb : sync_block_t) : outcome sync_block_t :=
  let! sb1 := invokeall (rel_inter_tsklets sb) (set_inter sb []) in
  let! sb2 := invokeall (rel_tsklets sb1) (set_rel sb1 []) in
  serve_slot sb2.

Fixpoint reltm_trigger (escape : nat) (sb : sync_block_t) : outcome sync_block_t :=
  match escape with
  | O => Returned sb
  | S n => let! sb' := reltm_tick sb in reltm_trigger n sb'
  end.

End Tick.

(** ** Tick hooks ([petimer.c]) *)

Record petimer_hook_t := mkHook { hook : Z; interval : Z; escape : Z }.

(** [petimer_register_tickhook]: the new hook goes to the front. *)
Definition petimer_register_tickhook (malloc_ok : bool) (hooks : list petimer_hook_t) (h tick : Z)
  : Z * list petimer_hook_t :=
  if (h =? 0) || (tick =? 0) then (EINVAL, hooks)
  else if negb malloc_ok then (ENOMEM, hooks)
  else (0, mkHook h tick 0 :: hooks).

(** [_trigger_timer]: the hooks after, and the calls made, (hook, escape). *)
Fixpoint trigger_timer (esc : Z) (hooks : list petimer_hook_t) : list petimer_hook_t * list (Z * Z) :=
  match hooks with
  | [] => ([], [])
  | i :: hooks' =>
      let e := escape i + esc in
      let '(rest, calls) := trigger_timer esc hooks' in
      if interval i <=? e
      then (mkHook (hook i) (interval i) 0 :: rest, (hook i, e) :: calls)
      else (mkHook (hook i) (interval i) e :: rest, calls)
  end.

(** [petimer]: the thread's loop, [n] turns of it. *)
Fixpoint petimer (n : nat) (hooks : list petimer_hook_t) : list petimer_hook_t * list (Z * Z) :=
  match n with
  | O => (hooks, [])
  | S n' =>
      let '(hooks1, calls) := trigger_timer 1 hooks in
      let '(hooks2, calls2) := petimer n' hooks1 in
      (hooks2, calls ++ calls2)
  end.

(** ** Specification

    The turns left for a timer of a sorted link: the sum of the high parts up
    to it. *)
Fixpoint turns (t : Z) (l : list (Z * Z)) : option Z :=
  match l with
  | [] => None
  | (t', tl') :: l' => if t' =? t then Some (tl' / 1024) else (λ v, tl' / 1024 + v) <$> turns t l'
  end.

(** The ticks a linked timer waits: [Some 0] means that it is served in the
    tick that comes next. *)
Definition remaining (sb : sync_block_t) (t : Z) : option Z :=
  cb ← timers sb !! t;
  i ← slot cb;
  match link cb with
  | RELTM_LINK_ZERO => Some ((i - tick_last sb) mod 1024)
  | RELTM_LINK_SORTED =>
      (λ v, (i - tick_last sb) mod 1024 + 1024 * v) <$> turns t (entries (sorted_link sb) i)
  end.

(** The delay the wheel really gives to a timer of [ttick] ticks. *)
Definition effective (ttick : Z) : Z := if ttick mod 1024 =? 0 then ttick - 1024 else ttick.

(** *** Arithmetic of the hash *)

Lemma TM_HASH_FUNC_mod v : TM_HASH_FUNC v = v mod 1024.
Proof. unfold TM_HASH_FUNC. change TM_HASH_MASK with (Z.ones 10). by rewrite Z.land_ones. Qed.

Lemma land_high v : 0 ≤ v < 2 ^ 32 → Z.land v TM_TMLEN_MASK = 1024 * (v / 1024).
Proof. intros Hv. by apply (land_clear_low 10). Qed.

Lemma ticks_of_range ms : 1 ≤ ticks_of ms < 2 ^ 30.
Proof.
  unfold ticks_of. change (MSEC_PER_TICK / 2) with 5. change MSEC_PER_TICK with 10.
  pose proof (u32_range (ms + 5)).
  destruct (_ =? 0) eqn:E; bool_to_prop; [lia|].
  assert (0 ≤ u32 (ms + 5) / 10) by (apply Z.div_pos; lia).
  assert (u32 (ms + 5) / 10 < 2 ^ 30) by (apply Z.div_lt_upper_bound; lia). lia.
Qed.

(** *** Sorted links *)

(** The sum of the turns of a link. *)
Fixpoint total (l : list (Z * Z)) : Z :=
  match l with
  | [] => 0
  | (_, tl) :: l' => tl / 1024 + total l'
  end.

Definition TURNS_MAX : Z := 2 ^ 20.

Definition node_ok (i : Z) (e : Z * Z) : Prop := 0 ≤ snd e < 2 ^ 32 ∧ snd e mod 1024 = i.

Record sorted_ok (i : Z) (l : list (Z * Z)) : Prop := {
  so_nodes : Forall (node_ok i) l;
  so_nodup : NoDup l.*1;
  so_total : total l < TURNS_MAX
}.

Lemma total_nonneg i l : Forall (node_ok i) l → 0 ≤ total l.
Proof.
  induction 1 as [|[t tl] l [? ?] _ IH]; simpl in *; [done|].
  pose proof (Z.div_pos tl 1024). lia.
Qed.

Lemma turns_in t l : is_Some (turns t l) ↔ t ∈ l.*1.
Proof.
  induction l as [|[t' tl'] l IH]; simpl.
  { split; [by intros [? ?]|by intros ?%elem_of_nil]. }
  rewrite elem_of_cons. destruct (t' =? t) eqn:E; bool_to_prop.
  - split; [by left|by eauto].
  - rewrite fmap_is_Some, IH. naive_solver.
Qed.

Lemma turns_range i t l v : Forall (node_ok i) l → turns t l = Some v → 0 ≤ v ≤ total l.
Proof.
  intros Hl. revert v. induction Hl as [|[t' tl'] l [? ?] Hl IH]; simpl in *; [done|]. intros v.
  pose proof (Z.div_pos tl' 1024). pose proof (total_nonneg _ _ Hl).
  destruct (t' =? t); [intros [= <-]; lia|].
  destruct (turns t l) as [w|]; [|done]. intros [= <-]. specialize (IH w eq_refl). lia.
Qed.

(** The node arithmetic: high parts add and subtract, the low part stays. *)
Lemma node_sub i a b :
  0 ≤ a < 2 ^ 32 → 0 ≤ b < 2 ^ 32 → a mod 1024 = i → b mod 1024 = i → b ≤ a →
  let r := u32 (a - Z.land b TM_TMLEN_MASK) in
  0 ≤ r < 2 ^ 32 ∧ r mod 1024 = i ∧ r / 1024 = a / 1024 - b / 1024.
Proof.
  intros Ha Hb Hai Hbi Hle. simpl. rewrite land_high by done.
  pose proof (Z.div_mod a 1024). pose proof (Z.div_mod b 1024).
  pose proof (Z.mod_pos_bound a 1024). pose proof (Z.div_pos b 1024).
  assert (b / 1024 ≤ a / 1024) by (apply Z.div_le_mono; lia).
  rewrite u32_small by lia. split; [lia|].
  replace (a - 1024 * (b / 1024)) with (a + (- (b / 1024)) * 1024) by lia.
  rewrite Z.mod_add, Z.div_add by lia. lia.
Qed.

Lemma node_add i a b :
  0 ≤ a < 2 ^ 32 → 0 ≤ b < 2 ^ 32 → a mod 1024 = i → a / 1024 + b / 1024 < TURNS_MAX →
  let r := u32 (a + Z.land b TM_TMLEN_MASK) in
  0 ≤ r < 2 ^ 32 ∧ r mod 1024 = i ∧ r / 1024 = a / 1024 + b / 1024.
Proof.
  unfold TURNS_MAX. intros Ha Hb Hai Hsum. simpl. rewrite land_high by done.
  pose proof (Z.div_mod a 1024). pose proof (Z.mod_pos_bound a 1024). pose proof (Z.div_pos b 1024).
  rewrite u32_small by lia. split; [lia|].
  rewrite (Z.mul_comm 1024), Z.mod_add, Z.div_add by lia. lia.
Qed.

(** [sorted_insert] gives the new timer its own number of turns and keeps those
    of the others. *)
Lemma sorted_insert_fst t tl l : (sorted_insert t tl l).*1 ≡ₚ t :: l.*1.
Proof.
  revert tl. induction l as [|[t' tl'] l IH]; intros tl; simpl; [done|].
  destruct (tl <? tl'); simpl; [done|]. rewrite IH. apply Permutation_swap.
Qed.

Lemma sorted_insert_spec i t l : ∀ tl,
  Forall (node_ok i) l → t ∉ l.*1 → 0 ≤ tl < 2 ^ 32 → tl mod 1024 = i →
  Forall (node_ok i) (sorted_insert t tl l) ∧
  turns t (sorted_insert t tl l) = Some (tl / 1024) ∧
  (∀ t', t' ≠ t → turns t' (sorted_insert t tl l) = turns t' l) ∧
  total (sorted_insert t tl l) = Z.max (total l) (tl / 1024).
Proof.
  induction l as [|[t' tl'] l IH]; intros tl Hl Ht Htl Hi; simpl.
  { rewrite Z.eqb_refl. pose proof (Z.div_pos tl 1024). split_and!; [by apply Forall_singleton|done| |lia].
    intros t' Hne. by replace (t =? t') with false by (symmetry; apply Z.eqb_neq; lia). }
  apply Forall_cons in Hl as [[Htl' Hi'] Hl]. simpl in *.
  rewrite not_elem_of_cons in Ht. destruct Ht as [Hne Ht].
  pose proof (total_nonneg _ _ Hl) as Htot.
  destruct (tl <? tl') eqn:Hlt; bool_to_prop; simpl.
  - destruct (node_sub i tl' tl Htl' Htl Hi' Hi) as (? & ? & Hd); [lia|].
    rewrite Z.eqb_refl, Hd. split_and!.
    + rewrite !Forall_cons. done.
    + done.
    + intros t'' Hne'. replace (t =? t'') with false by (symmetry; apply Z.eqb_neq; lia).
      destruct (t' =? t''); simpl; [f_equal; lia|].
      destruct (turns t'' l); simpl; [|done]. f_equal. lia.
    + assert (tl / 1024 ≤ tl' / 1024) by (apply Z.div_le_mono; lia). lia.
  - destruct (node_sub i tl tl' Htl Htl' Hi Hi') as (? & ? & Hd); [lia|].
    destruct (IH _ Hl Ht H H0) as (IH1 & IH2 & IH3 & IH4).
    replace (t' =? t) with false by (symmetry; apply Z.eqb_neq; lia).
    split_and!.
    + by constructor.
    + rewrite IH2, Hd. simpl. f_equal. lia.
    + intros t'' Hne'. by rewrite (IH3 _ Hne').
    + rewrite IH4, Hd. lia.
Qed.

(** [sorted_delete] removes the timer and keeps the turns of the others. *)
Lemma sorted_delete_in t t' l : NoDup l.*1 → t' ∈ (sorted_delete t l).*1 ↔ t' ∈ l.*1 ∧ t' ≠ t.
Proof.
  induction l as [|[t1 tl1] l IH]; simpl.
  { intros _. rewrite elem_of_nil. tauto. }
  intros [Ht1 Hnd]%NoDup_cons. specialize (IH Hnd).
  destruct (t1 =? t) eqn:E; bool_to_prop; simpl.
  - subst t1. assert (t' ∈ l.*1 → t' ≠ t) by (by intros ? ->).
    rewrite elem_of_cons. transitivity (t' ∈ l.*1); [|tauto]. by destruct l as [|[t2 tl2] l].
  - rewrite !elem_of_cons, IH. split; [|tauto]. intros [->|?]; tauto.
Qed.

Lemma sorted_delete_nodup t l : NoDup l.*1 → NoDup (sorted_delete t l).*1.
Proof.
  induction l as [|[t1 tl1] l IH]; simpl; [done|]. intros Hl%NoDup_cons.
  destruct (t1 =? t) eqn:E; simpl.
  - destruct Hl as [_ Hl], l as [|[t2 tl2] l]; done.
  - destruct Hl as [Ht1 Hnd]. apply NoDup_cons. rewrite sorted_delete_in by done. tauto.
Qed.

Lemma sorted_delete_spec i t l :
  Forall (node_ok i) l → total l < TURNS_MAX →
  Forall (node_ok i) (sorted_delete t l) ∧ total (sorted_delete t l) ≤ total l ∧
  (∀ t', t' ≠ t → turns t' (sorted_delete t l) = turns t' l).
Proof.
  induction l as [|[t1 tl1] l IH]; simpl; [done|].
  intros [[Htl1 Hi1] Hl]%Forall_cons Htot. simpl in *. pose proof (Z.div_pos tl1 1024).
  pose proof (total_nonneg _ _ Hl) as Hpos.
  destruct (t1 =? t) eqn:E; bool_to_prop; simpl.
  - destruct l as [|[t2 tl2] l]; simpl in *.
    { split_and!; [done|lia|]. intros t' Hne.
      by replace (t1 =? t') with false by (symmetry; apply Z.eqb_neq; lia). }
    apply Forall_cons in Hl as [[Htl2 Hi2] Hl]. simpl in *. pose proof (total_nonneg _ _ Hl).
    destruct (node_add i tl2 tl1 Htl2 Htl1 Hi2) as (? & ? & Hd); [lia|].
    rewrite Forall_cons, Hd. split_and!; [done|done|lia|]. intros t' Hne.
    replace (t1 =? t') with false by (symmetry; apply Z.eqb_neq; lia).
    destruct (t2 =? t'); simpl; [f_equal; lia|]. destruct (turns t' l); simpl; [|done]. f_equal. lia.
  - destruct (IH Hl) as (IH1 & IH2 & IH3); [lia|].
    split_and!; [by constructor|lia|]. intros t' Hne. by rewrite IH3.
Qed.

(** Removing the served head, which has no turn left. *)
Lemma unlink_head t tl l : t ∉ l.*1 → unlink t ((t, tl) :: l) = l.
Proof.
  intros Ht. unfold unlink. simpl. rewrite Z.eqb_refl. simpl.
  induction l as [|[t' tl'] l IH]; simpl in *; [done|].
  rewrite not_elem_of_cons in Ht. destruct Ht as [Hne Ht].
  replace (t' =? t) with false by (symmetry; apply Z.eqb_neq; lia). simpl. by rewrite IH.
Qed.

Lemma unlink_fst t t' l : t' ∈ (unlink t l).*1 ↔ t' ∈ l.*1 ∧ t' ≠ t.
Proof.
  unfold unlink. induction l as [|[t1 tl1] l IH]; simpl; [rewrite elem_of_nil; tauto|].
  destruct (t1 =? t) eqn:E; bool_to_prop; simpl; rewrite !elem_of_cons, IH; [|intuition congruence].
  subst t1. intuition congruence.
Qed.

(** *** The invariant of the wheel *)

Definition ents (sb : sync_block_t) (l : tm_link) (i : Z) : list (Z * Z) :=
  match l with
  | RELTM_LINK_ZERO => entries (zero_link sb) i
  | RELTM_LINK_SORTED => entries (sorted_link sb) i
  end.

Definition relink (sb : sync_block_t) (l : tm_link) (i : Z) (nl : list (Z * Z)) : sync_block_t :=
  match l with
  | RELTM_LINK_ZERO => set_zero sb i nl
  | RELTM_LINK_SORTED => set_sorted sb i nl
  end.

Definition linked (sb : sync_block_t) (t : Z) (l : tm_link) (i : Z) : Prop :=
  ∃ cb, timers sb !! t = Some cb ∧ slot cb = Some i ∧ link cb = l.

(** A timer is on the link its control block names and on no other; the nodes
    of a sorted link carry their slot in their low bits. *)
Record wheel_ok (sb : sync_block_t) : Prop := {
  wo_tick : 0 ≤ tick_last sb < 2 ^ 32;
  wo_slot : ∀ t l i, linked sb t l i → 0 ≤ i < 1024;
  wo_link : ∀ l i t, t ∈ (ents sb l i).*1 ↔ linked sb t l i;
  wo_nodup : ∀ l i, NoDup (ents sb l i).*1;
  wo_nodes : ∀ i, Forall (node_ok i) (ents sb RELTM_LINK_SORTED i);
  wo_total : ∀ i, total (ents sb RELTM_LINK_SORTED i) < TURNS_MAX
}.

Lemma entries_insert m i l j : entries (<[i := l]> m) j = if decide (i = j) then l else entries m j.
Proof. unfold entries. destruct (decide (i = j)) as [->|]; by simplify_map_eq. Qed.

Lemma ents_relink sb l i nl tm l' j :
  ents (set_timers (relink sb l i nl) tm) l' j
  = if decide (l = l' ∧ i = j) then nl else ents sb l' j.
Proof.
  destruct l, l'; simpl; rewrite ?entries_insert;
    repeat case_decide; try done; naive_solver.
Qed.

Lemma wheel_ok_ext sb sb' :
  wheel_ok sb → tick_last sb' = tick_last sb → (∀ l i, ents sb' l i = ents sb l i) →
  (∀ t l i, linked sb' t l i ↔ linked sb t l i) → wheel_ok sb'.
Proof.
  intros [] Htick He Hl. split.
  - by rewrite Htick.
  - intros t l i. rewrite Hl. eauto.
  - intros l i t. by rewrite He, Hl.
  - intros l i. by rewrite He.
  - intros i. by rewrite He.
  - intros i. by rewrite He.
Qed.

Lemma linked_insert sb sb' t cb' t' l i :
  timers sb' = <[t := cb']> (timers sb) →
  linked sb' t' l i ↔ (t' = t ∧ slot cb' = Some i ∧ link cb' = l) ∨ (t' ≠ t ∧ linked sb t' l i).
Proof.
  intros Htm. unfold linked. rewrite Htm. destruct (decide (t' = t)) as [->|Hne].
  - rewrite lookup_insert_eq. naive_solver.
  - rewrite lookup_insert_ne by done. naive_solver.
Qed.

(** Moving one timer on or off the link [l] of slot [i]. *)
Lemma relink_ok sb t cb cb' l i nl :
  wheel_ok sb → timers sb !! t = Some cb → 0 ≤ i < 1024 →
  slot cb = None ∨ (slot cb = Some i ∧ link cb = l) →
  slot cb' = None ∨ (slot cb' = Some i ∧ link cb' = l) →
  (∀ t', t' ≠ t → t' ∈ nl.*1 ↔ t' ∈ (ents sb l i).*1) →
  (t ∈ nl.*1 ↔ slot cb' = Some i) → NoDup nl.*1 →
  (l = RELTM_LINK_SORTED → Forall (node_ok i) nl ∧ total nl < TURNS_MAX) →
  wheel_ok (set_timers (relink sb l i nl) (<[t := cb']> (timers sb))).
Proof.
  intros Hok Ht Hi Hcb Hcb' Hin Hint Hnd Hsorted. set (sb' := set_timers _ _).
  assert (∀ t' l' j, linked sb' t' l' j ↔
            (t' = t ∧ slot cb' = Some j ∧ link cb' = l') ∨ (t' ≠ t ∧ linked sb t' l' j)) as Hl
    by (intros; by apply linked_insert).
  assert (∀ l' j, ents sb' l' j = if decide (l = l' ∧ i = j) then nl else ents sb l' j) as He
    by (intros; apply ents_relink).
  assert (∀ l' j, linked sb t l' j → l' = l ∧ j = i) as Hown.
  { intros l' j (cb0 & ? & ? & ?). simplify_eq. naive_solver. }
  split.
  - destruct l; simpl; apply Hok.
  - intros t' l' j. rewrite Hl. intros [(_ & ? & _)|(_ & ?)]; [naive_solver|].
    by eapply wo_slot.
  - intros l' j t'. rewrite Hl, He. case_decide as Hd.
    + destruct Hd as [<- <-]. destruct (decide (t' = t)) as [->|Hne].
      * rewrite Hint. naive_solver.
      * rewrite Hin by done. rewrite (wo_link _ Hok). naive_solver.
    + rewrite (wo_link _ Hok). destruct (decide (t' = t)) as [->|Hne]; [|naive_solver].
      split; [intros ?%Hown; naive_solver|]. naive_solver.
  - intros l' j. rewrite He. case_decide; [done|]. apply Hok.
  - intros j. rewrite He. case_decide as Hd; [|apply Hok]. destruct Hd as [? <-]. by apply Hsorted.
  - intros j. rewrite He. case_decide as Hd; [|apply Hok]. destruct Hd as [? <-]. by apply Hsorted.
Qed.

Lemma remaining_ext sb sb' t :
  timers sb' !! t = timers sb !! t → tick_last sb' = tick_last sb →
  (∀ i, linked sb t RELTM_LINK_SORTED i →
        turns t (ents sb' RELTM_LINK_SORTED i) = turns t (ents sb RELTM_LINK_SORTED i)) →
  remaining sb' t = remaining sb t.
Proof.
  intros Htm Htick Hturns. unfold remaining. rewrite Htm, Htick.
  destruct (timers sb !! t) as [cb|] eqn:E; simpl; [|done].
  destruct (slot cb) as [i|] eqn:Es; simpl; [|done].
  destruct (link cb) eqn:El; [done|]. simpl in Hturns. rewrite Hturns; [done|]. by exists cb.
Qed.

Lemma relink_remaining sb t cb' l i nl t' :
  t' ≠ t →
  (l = RELTM_LINK_SORTED → turns t' nl = turns t' (ents sb RELTM_LINK_SORTED i)) →
  remaining (set_timers (relink sb l i nl) (<[t := cb']> (timers sb))) t' = remaining sb t'.
Proof.
  intros Hne Hturns. apply remaining_ext.
  - simpl. by rewrite lookup_insert_ne.
  - by destruct l.
  - intros j _. rewrite ents_relink. case_decide as Hd; [|done]. destruct Hd as [-> <-]. auto.
Qed.

Lemma remaining_idle sb t cb : timers sb !! t = Some cb → slot cb = None → remaining sb t = None.
Proof. unfold remaining. intros -> Hs. simpl. by rewrite Hs. Qed.

(** ** The abstract timers

    What a client knows of a timer: its parameters and the ticks it has to
    wait, [None] when it is idle. *)
Record view := mkView { v_msec : Z; v_func : Z; v_arg : Z; v_mode : Z; v_due : option Z }.

Definition abs (sb : sync_block_t) : gmap Z view :=
  map_imap (λ t cb, Some (mkView (msec cb) (timeout cb) (arg cb) (mode cb) (remaining sb t))) (timers sb).

Definition set_due (v : view) (d : option Z) : view :=
  mkView (v_msec v) (v_func v) (v_arg v) (v_mode v) d.

(** The effect of a deferred call and the events it produces; [None] when it
    names a timer that does not exist, or restarts one that is running. *)
Definition spec_call (m : gmap Z view) (k : tsklet) : option (gmap Z view * list event) :=
  match k with
  | do_start_tm t ms a =>
      v ← m !! t;
      Some (<[t := mkView ms (v_func v) a (v_mode v) (Some (effective (ticks_of ms)))]> m, [])
  | do_stop_tm t fin =>
      v ← m !! t;
      Some (<[t := set_due v None]> m, match fin with Some (f, a) => [Finalized f a] | None => [] end)
  | do_free_tm t => v ← m !! t; Some (delete t m, [])
  | do_restart_tm t =>
      v ← m !! t;
      match v_due v with
      | None => Some (<[t := set_due v (Some (effective (ticks_of (v_msec v))))]> m, [])
      | Some _ => None
      end
  end.

Fixpoint spec_calls (m : gmap Z view) (ks : list tsklet) : option (gmap Z view * list event) :=
  match ks with
  | [] => Some (m, [])
  | k :: ks' =>
      '(m1, e1) ← spec_call m k;
      '(m2, e2) ← spec_calls m1 ks';
      Some (m2, e1 ++ e2)
  end.

(** A tick on one timer: it expires, or has one tick less to wait. *)
Definition auto_free (v : view) : bool := negb (Z.land (v_mode v) PETF_AUTO_FREE =? 0).
Definition one_shoot (v : view) : bool := negb (Z.land (v_mode v) PETF_ONE_SHOOT =? 0).
Definition expire (v : view) : option view := if auto_free v then None else Some (set_due v None).
Definition spec_tick1 (v : view) : option view :=
  match v_due v with
  | None => Some v
  | Some r => if r =? 0 then expire v else Some (set_due v (Some (r - 1)))
  end.
Definition spec_tick (m : gmap Z view) : gmap Z view := omap spec_tick1 m.

(** The timers that expire, in the order they are served. *)
Definition due_now (m : gmap Z view) (fired : list Z) : Prop :=
  NoDup fired ∧ ∀ t, t ∈ fired ↔ ∃ v, m !! t = Some v ∧ v_due v = Some 0.

Definition of_fired {A} (f : Z → view → list A) (m : gmap Z view) (fired : list Z) : list A :=
  flat_map (λ t, match m !! t with Some v => f t v | None => [] end) fired.
Definition timeouts := of_fired (λ t v, [Timeout t (v_func v) (v_arg v)]).
Definition queued (callback : Z → Z → list tsklet) := of_fired (λ _ v, callback (v_func v) (v_arg v)).

(** The calls of timeout functions of a timer in a trace, and the trace up to
    the last one. *)
Definition is_timeout (t : Z) (e : event) : bool :=
  match e with Timeout t' _ _ => t' =? t | Finalized _ _ => false end.
Fixpoint until_call (t : Z) (evs : list event) : list event :=
  match evs with
  | [] => []
  | e :: evs' => match until_call t evs' with
                 | [] => if is_timeout t e then [e] else []
                 | l => e :: l
                 end
  end.

(** The restarts that are queued: of the periodic timers for whose item there
    was memory when they had been called.  [evs] is what happened before. *)
Definition restarts (item : list event → bool) (evs : list event) (m : gmap Z view) (fired : list Z) : list tsklet :=
  of_fired (λ t v, if auto_free v || one_shoot v || negb (item (until_call t (evs ++ timeouts m fired))) then [] else [do_restart_tm t]) m fired.

Lemma until_call_app t l k : until_call t (l ++ k) = match until_call t k with [] => until_call t l | k' => l ++ k' end.
Proof.
  induction l as [|e l IH]; simpl; [by destruct (until_call t k)|]. rewrite IH.
  destruct (until_call t k) as [|e' k']; [done|]. by destruct (l ++ e' :: k') eqn:E; [destruct l|].
Qed.

Lemma until_call_none t l : Forall (λ e, is_timeout t e = false) l → until_call t l = [].
Proof. induction 1 as [|e l He _ IH]; simpl; [done|]. by rewrite IH, He. Qed.

Lemma timeouts_other m ts t : t ∉ ts → Forall (λ e, is_timeout t e = false) (timeouts m ts).
Proof.
  unfold timeouts, of_fired. induction ts as [|t' ts IH]; simpl; [constructor|]. rewrite not_elem_of_cons. intros [Hne Hni].
  apply Forall_app. split; [|by apply IH]. destruct (m !! t'); constructor; [|constructor]. simpl. apply Z.eqb_neq. congruence.
Qed.

Lemma until_call_last t l f a : until_call t (l ++ [Timeout t f a]) = l ++ [Timeout t f a].
Proof. rewrite until_call_app. simpl. by rewrite Z.eqb_refl. Qed.

Lemma until_call_other m ts t l : t ∉ ts → until_call t (l ++ timeouts m ts) = until_call t l.
Proof. intros Ht. by rewrite until_call_app, until_call_none by (by apply timeouts_other). Qed.

Lemma abs_lookup sb t :
  abs sb !! t = (λ cb, mkView (msec cb) (timeout cb) (arg cb) (mode cb) (remaining sb t)) <$> timers sb !! t.
Proof. unfold abs. rewrite map_lookup_imap. by destruct (timers sb !! t). Qed.

Lemma abs_ext sb sb' :
  (∀ t, timers sb' !! t = timers sb !! t) → (∀ t, remaining sb' t = remaining sb t) → abs sb' = abs sb.
Proof. intros Ht Hr. apply map_eq. intros t. by rewrite !abs_lookup, Ht, Hr. Qed.

(** One timer changes. *)
Lemma abs_insert sb sb' t cb :
  timers sb' = <[t := cb]> (timers sb) →
  (∀ t', t' ≠ t → remaining sb' t' = remaining sb t') →
  abs sb' = <[t := mkView (msec cb) (timeout cb) (arg cb) (mode cb) (remaining sb' t)]> (abs sb).
Proof.
  intros Htm Hrem. apply map_eq. intros t'. rewrite abs_lookup, Htm.
  destruct (decide (t' = t)) as [->|Hne]; [by rewrite !lookup_insert_eq|].
  rewrite !lookup_insert_ne, abs_lookup by done. by rewrite Hrem.
Qed.

(** ** Deferred calls implement the abstract ones *)

(** The parts of the state the wheel operations leave alone. *)
Definition frame (sb sb' : sync_block_t) : Prop :=
  rel_tsklets sb' = rel_tsklets sb ∧ rel_inter_tsklets sb' = rel_inter_tsklets sb ∧
  tick_last sb' = tick_last sb ∧ events sb' = events sb.

Lemma slot_arith tick ttick :
  1 ≤ ttick < 2 ^ 30 →
  let i := TM_HASH_FUNC (u32 (tick + ttick)) in
  let tl := u32 (i + Z.land (ttick - 1) TM_TMLEN_MASK) in
  0 ≤ i < 1024 ∧ (i - tick) mod 1024 = ttick mod 1024 ∧
  0 ≤ tl < 2 ^ 32 ∧ tl mod 1024 = i ∧ tl / 1024 = (ttick - 1) / 1024 ∧ tl / 1024 < TURNS_MAX.
Proof.
  intros Ht i tl. subst tl. assert (i = (tick + ttick) mod 1024) as Hi.
  { subst i. rewrite TM_HASH_FUNC_mod. unfold u32.
    pose proof (Z.mod_mod_divide (tick + ttick) (2 ^ 32) 1024) as Hd.
    apply Hd. by exists (2 ^ 22). }
  pose proof (Z.mod_pos_bound (tick + ttick) 1024) as Hb.
  rewrite land_high by lia.
  assert (0 ≤ (ttick - 1) / 1024 < TURNS_MAX).
  { unfold TURNS_MAX. split; [apply Z.div_pos; lia|apply Z.div_lt_upper_bound; lia]. }
  unfold TURNS_MAX in *. rewrite u32_small by lia.
  rewrite (Z.mul_comm 1024), Z.mod_add, Z.div_add by lia.
  rewrite (Z.mod_small i), (Z.div_small i) by lia. split_and!; try lia.
  rewrite Hi, Zminus_mod_idemp_l. f_equal. lia.
Qed.

Lemma effective_arith ttick :
  1 ≤ ttick → effective ttick = ttick mod 1024 + 1024 * ((ttick - 1) / 1024).
Proof.
  intros Ht. unfold effective. pose proof (Z.div_mod ttick 1024) as Hd.
  pose proof (Z.mod_pos_bound ttick 1024) as Hb.
  destruct (ttick mod 1024 =? 0) eqn:E; bool_to_prop.
  - replace ((ttick - 1) / 1024) with (ttick / 1024 - 1); [lia|].
    apply (Z.div_unique_pos _ _ _ 1023); lia.
  - replace ((ttick - 1) / 1024) with (ttick / 1024); [lia|].
    apply (Z.div_unique_pos _ _ _ (ttick mod 1024 - 1)); lia.
Qed.

Lemma add2hash_relink sb t cb :
  timers sb !! t = Some cb →
  let ttick := ticks_of (msec cb) in
  let i := TM_HASH_FUNC (u32 (tick_last sb + ttick)) in
  let tl := u32 (i + Z.land (ttick - 1) TM_TMLEN_MASK) in
  let l := if TM_HASH_LEN <? ttick then RELTM_LINK_SORTED else RELTM_LINK_ZERO in
  let nl := if TM_HASH_LEN <? ttick then sorted_insert t tl (ents sb l i) else ents sb l i ++ [(t, tl)] in
  add2hash sb t = Returned (set_timers (relink sb l i nl) (<[t := set_slot cb l (Some i)]> (timers sb))).
Proof. intros Ht. unfold add2hash. rewrite Ht. simpl. by destruct (TM_HASH_LEN <? _). Qed.

Lemma add2hash_spec sb t cb :
  wheel_ok sb → timers sb !! t = Some cb → slot cb = None →
  ∃ sb', add2hash sb t = Returned sb' ∧ wheel_ok sb' ∧ frame sb sb' ∧
    abs sb' = <[t := mkView (msec cb) (timeout cb) (arg cb) (mode cb)
                            (Some (effective (ticks_of (msec cb))))]> (abs sb).
Proof.
  intros Hok Ht Hs. rewrite (add2hash_relink _ _ _ Ht). cbv zeta.
  pose proof (ticks_of_range (msec cb)) as Htt.
  destruct (slot_arith (tick_last sb) _ Htt) as (Hi & Hmod & Htl & Htli & Hdiv & Hmax).
  revert Hi Hmod Htl Htli Hdiv Hmax. set (ttick := ticks_of (msec cb)) in *.
  set (i := TM_HASH_FUNC _). set (tl := u32 _). intros Hi Hmod Htl Htli Hdiv Hmax.
  set (l := if TM_HASH_LEN <? ttick then _ else _). set (nl := if TM_HASH_LEN <? ttick then _ else _).
  assert (∀ l' j, t ∉ (ents sb l' j).*1) as Hfree.
  { intros l' j. rewrite (wo_link _ Hok). intros (? & ? & ? & _). congruence. }
  destruct (sorted_insert_spec i t _ tl (wo_nodes _ Hok i) (Hfree _ _) Htl Htli) as (Hn & Htn & Hto & Htot).
  assert (nl.*1 ≡ₚ t :: (ents sb l i).*1) as Hp.
  { subst nl. destruct (TM_HASH_LEN <? ttick); [apply sorted_insert_fst|].
    rewrite fmap_app. simpl. by rewrite Permutation_app_comm. }
  assert (l = RELTM_LINK_SORTED → nl = sorted_insert t tl (ents sb RELTM_LINK_SORTED i)) as Hnl.
  { subst nl l. by destruct (TM_HASH_LEN <? ttick). }
  eexists. split; [done|]. split; [|split].
  - apply (relink_ok _ _ cb); try done; simpl; [by left|by right|..].
    + intros t' Hne. rewrite Hp, elem_of_cons. naive_solver.
    + rewrite Hp, elem_of_cons. naive_solver.
    + rewrite Hp. apply NoDup_cons. split; [apply Hfree|apply Hok].
    + intros Hsrt. rewrite (Hnl Hsrt). split; [done|].
      rewrite Htot. pose proof (wo_total _ Hok i). lia.
  - unfold frame. by destruct l.
  - erewrite abs_insert; [|done|].
    + do 2 f_equal. unfold remaining. simpl. rewrite lookup_insert_eq. simpl.
      rewrite effective_arith by lia. subst l. replace (tick_last (relink _ _ _ _)) with (tick_last sb)
        by (by destruct (TM_HASH_LEN <? ttick)).
      destruct (TM_HASH_LEN <? ttick) eqn:El; simpl; bool_to_prop; change TM_HASH_LEN with 1024 in *.
      * rewrite entries_insert, decide_True by done. rewrite Hnl by done. rewrite Htn, Hdiv, Hmod. done.
      * rewrite Hmod. f_equal. rewrite (Z.div_small (ttick - 1)); lia.
    + intros t' Hne. apply relink_remaining; [done|]. intros Hsrt. rewrite (Hnl Hsrt). by apply Hto.
Qed.

Lemma del_from_hash_spec sb t cb i :
  wheel_ok sb → timers sb !! t = Some cb → slot cb = Some i →
  ∃ sb', del_from_hash sb t = Returned sb' ∧ wheel_ok sb' ∧ frame sb sb' ∧
    timers sb' = <[t := set_slot cb (link cb) None]> (timers sb) ∧
    (∀ t', t' ≠ t → remaining sb' t' = remaining sb t').
Proof.
  intros Hok Ht Hs. unfold del_from_hash. rewrite Ht. simpl. rewrite Hs. simpl.
  set (nl := match link cb with
             | RELTM_LINK_SORTED => sorted_delete t (ents sb RELTM_LINK_SORTED i)
             | RELTM_LINK_ZERO => unlink t (ents sb RELTM_LINK_ZERO i) end).
  exists (set_timers (relink sb (link cb) i nl) (<[t := set_slot cb (link cb) None]> (timers sb))).
  pose proof (wo_nodup _ Hok (link cb) i) as Hnd.
  destruct (sorted_delete_spec i t _ (wo_nodes _ Hok i) (wo_total _ Hok i)) as (Hn & Htot & Hto).
  assert (∀ t', t' ∈ nl.*1 ↔ t' ∈ (ents sb (link cb) i).*1 ∧ t' ≠ t) as Hin.
  { intros t'. subst nl. destruct (link cb); [apply unlink_fst|by apply sorted_delete_in]. }
  split_and!.
  - subst nl. by destruct (link cb).
  - apply (relink_ok _ _ cb); try done.
    + eapply (wo_slot _ Hok t (link cb)). by exists cb.
    + by right.
    + by left.
    + intros t' Hne. rewrite Hin. tauto.
    + rewrite Hin. simpl. intuition congruence.
    + subst nl. destruct (link cb); [by apply NoDup_fst_filter|by apply sorted_delete_nodup].
    + intros Hl. subst nl. rewrite Hl. pose proof (wo_total _ Hok i). split; [done|lia].
  - unfold frame. by destruct (link cb).
  - done.
  - intros t' Hne. apply relink_remaining; [done|]. intros Hl. subst nl. rewrite Hl. by apply Hto.
Qed.

(** Taking a timer off the wheel if it is on it, as start, stop and free do. *)
Lemma take_off_spec sb t cb :
  wheel_ok sb → timers sb !! t = Some cb →
  ∃ sb', (if list_isinqueue cb then del_from_hash sb t else Returned sb) = Returned sb' ∧
    wheel_ok sb' ∧ frame sb sb' ∧
    timers sb' = <[t := set_slot cb (link cb) None]> (timers sb) ∧
    (∀ t', t' ≠ t → remaining sb' t' = remaining sb t').
Proof.
  intros Hok Ht. unfold list_isinqueue. destruct (slot cb) as [i|] eqn:Hs.
  - rewrite bool_decide_true by done. by apply (del_from_hash_spec _ _ _ i).
  - rewrite bool_decide_false by (by intros [? ?]). exists sb. split_and!; try done.
    rewrite insert_id; [done|]. rewrite Ht. destruct cb; simpl in *; by subst.
Qed.

Lemma linked_idle sb t cb l i : timers sb !! t = Some cb → slot cb = None → linked sb t l i ↔ False.
Proof. intros Ht Hs. split; [|done]. intros (? & ? & ? & ?). congruence. Qed.

(** Rewriting the control block of an idle timer, or freeing it. *)
Lemma wheel_ok_retimer sb t cb cb' :
  wheel_ok sb → timers sb !! t = Some cb → slot cb = None → slot cb' = None →
  wheel_ok (set_timers sb (<[t := cb']> (timers sb))).
Proof.
  intros Hok Ht Hs Hs'. apply (wheel_ok_ext sb); try done.
  intros t' l i. rewrite linked_insert by done. destruct (decide (t' = t)) as [->|Hne]; [|naive_solver].
  rewrite (linked_idle _ _ _ _ _ Ht Hs). naive_solver.
Qed.

Lemma wheel_ok_free sb t cb :
  wheel_ok sb → timers sb !! t = Some cb → slot cb = None →
  wheel_ok (set_timers sb (delete t (timers sb))).
Proof.
  intros Hok Ht Hs. apply (wheel_ok_ext sb); try done.
  intros t' l i. destruct (decide (t' = t)) as [->|Hne].
  - rewrite (linked_idle _ _ _ _ _ Ht Hs). split; [|done]. intros (? & H & _). simpl in H.
    by rewrite lookup_delete_eq in H.
  - unfold linked. simpl. by rewrite lookup_delete_ne.
Qed.

Lemma abs_delete sb sb' t :
  timers sb' = delete t (timers sb) →
  (∀ t', t' ≠ t → remaining sb' t' = remaining sb t') → abs sb' = delete t (abs sb).
Proof.
  intros Htm Hrem. apply map_eq. intros t'. rewrite abs_lookup, Htm.
  destruct (decide (t' = t)) as [->|Hne]; [by rewrite !lookup_delete_eq|].
  rewrite !lookup_delete_ne, abs_lookup by done. by rewrite Hrem.
Qed.

Lemma remaining_timers sb tm t : tm !! t = timers sb !! t → remaining (set_timers sb tm) t = remaining sb t.
Proof. intros H. by apply remaining_ext. Qed.

Lemma run_start_spec sb t ms a cb :
  wheel_ok sb → timers sb !! t = Some cb →
  ∃ sb', run_start sb t ms a = Returned sb' ∧ wheel_ok sb' ∧ frame sb sb' ∧
    abs sb' = <[t := mkView ms (timeout cb) a (mode cb) (Some (effective (ticks_of ms)))]> (abs sb).
Proof.
  intros Hok Ht. destruct (take_off_spec _ _ _ Hok Ht) as (sb1 & E1 & Hok1 & Hf1 & Ht1 & Hr1).
  unfold run_start. rewrite Ht. cbn [oderef obind]. rewrite E1. cbn [oderef obind].
  rewrite Ht1, lookup_insert_eq. cbn [oderef obind]. rewrite <-Ht1.
  set (cb2 := mkTm ms _ a _ _ _). set (sb2 := set_timers sb1 _).
  assert (timers sb1 !! t = Some (set_slot cb (link cb) None)) as Hl1 by (by rewrite Ht1, lookup_insert_eq).
  assert (wheel_ok sb2) as Hok2 by (by eapply wheel_ok_retimer).
  destruct (add2hash_spec sb2 t cb2 Hok2) as (sb3 & E3 & Hok3 & Hf3 & Ha3); [|done|].
  { simpl. by rewrite lookup_insert_eq. }
  exists sb3. split_and!; try done.
  - unfold frame in *. simpl in *. intuition congruence.
  - rewrite Ha3. simpl. apply map_eq. intros t'. destruct (decide (t' = t)) as [->|Hne].
    + by rewrite !lookup_insert_eq.
    + rewrite !lookup_insert_ne, !abs_lookup by done. simpl.
      rewrite lookup_insert_ne by done. subst sb2. rewrite remaining_timers by (by rewrite lookup_insert_ne).
      rewrite Ht1, lookup_insert_ne, Hr1 by done. done.
Qed.

Lemma run_stop_spec sb t fin cb :
  wheel_ok sb → timers sb !! t = Some cb →
  ∃ sb', run_stop sb t fin = Returned sb' ∧ wheel_ok sb' ∧
    frame (match fin with Some (f, a) => add_event sb (Finalized f a) | None => sb end) sb' ∧
    abs sb' = <[t := mkView (msec cb) (timeout cb) (arg cb) (mode cb) None]> (abs sb).
Proof.
  intros Hok Ht. destruct (take_off_spec _ _ _ Hok Ht) as (sb1 & E1 & Hok1 & Hf1 & Ht1 & Hr1).
  unfold run_stop. rewrite Ht. cbn [oderef obind]. rewrite E1. cbn [oderef obind].
  eexists. split; [done|].
  assert (abs sb1 = <[t := mkView (msec cb) (timeout cb) (arg cb) (mode cb) None]> (abs sb)) as Ha.
  { rewrite (abs_insert _ _ _ _ Ht1 Hr1). simpl. do 2 f_equal.
    apply (remaining_idle _ _ (set_slot cb (link cb) None)); [|done]. by rewrite Ht1, lookup_insert_eq. }
  unfold frame in *. destruct fin as [[f a]|]; [|by rewrite Ha].
  split_and!; simpl; try intuition congruence.
  by apply (wheel_ok_ext sb1).
Qed.

Lemma run_free_spec sb t cb :
  wheel_ok sb → timers sb !! t = Some cb →
  ∃ sb', run_free sb t = Returned sb' ∧ wheel_ok sb' ∧ frame sb sb' ∧ abs sb' = delete t (abs sb).
Proof.
  intros Hok Ht. destruct (take_off_spec _ _ _ Hok Ht) as (sb1 & E1 & Hok1 & Hf1 & Ht1 & Hr1).
  unfold run_free. rewrite Ht. cbn [oderef obind]. rewrite E1. cbn [oderef obind].
  eexists. split_and!; [done| |done|].
  - apply (wheel_ok_free _ _ (set_slot cb (link cb) None)); [done| |done]. by rewrite Ht1, lookup_insert_eq.
  - apply abs_delete; [simpl; by rewrite Ht1, delete_insert_eq|].
    intros t' Hne. rewrite remaining_timers; [by apply Hr1|]. by rewrite lookup_delete_ne.
Qed.

Lemma run_tsklet_spec sb k m e :
  wheel_ok sb → spec_call (abs sb) k = Some (m, e) →
  ∃ sb', run_tsklet sb k = Returned sb' ∧ wheel_ok sb' ∧ abs sb' = m ∧ events sb' = events sb ++ e ∧
    rel_tsklets sb' = rel_tsklets sb ∧ rel_inter_tsklets sb' = rel_inter_tsklets sb.
Proof.
  intros Hok Hspec. unfold frame in *.
  assert (∃ t cb, timers sb !! t = Some cb ∧ abs sb !! t
    = Some (mkView (msec cb) (timeout cb) (arg cb) (mode cb) (remaining sb t)) ∧
    match k with do_start_tm t' _ _ | do_stop_tm t' _ | do_free_tm t' | do_restart_tm t' => t' = t end)
    as (t & cb & Ht & Ha & Hk).
  { destruct k as [t ms a|t fin|t|t]; simpl in Hspec; rewrite abs_lookup in Hspec;
      destruct (timers sb !! t) as [cb|] eqn:Ht; try done; exists t, cb; rewrite abs_lookup, Ht; done. }
  destruct k as [t' ms a|t' fin|t'|t']; subst t'; simpl in Hspec; rewrite Ha in Hspec; simpl in Hspec.
  - simplify_eq. destruct (run_start_spec _ _ ms a _ Hok Ht) as (sb' & ? & ? & Hf & ?).
    exists sb'. unfold frame in Hf. rewrite app_nil_r. intuition congruence.
  - simplify_eq. destruct (run_stop_spec _ _ fin _ Hok Ht) as (sb' & ? & ? & Hf & ?).
    exists sb'. unfold frame in Hf. destruct fin as [[f a]|]; simpl in *; rewrite ?app_nil_r; intuition congruence.
  - simplify_eq. destruct (run_free_spec _ _ _ Hok Ht) as (sb' & ? & ? & Hf & ?).
    exists sb'. unfold frame in Hf. rewrite app_nil_r. intuition congruence.
  - destruct (remaining sb t) as [r|] eqn:Hr; [done|]. simplify_eq.
    assert (slot cb = None) as Hs.
    { destruct (slot cb) as [i|] eqn:Hs; [|done]. unfold remaining in Hr. rewrite Ht in Hr. simpl in Hr.
      rewrite Hs in Hr. simpl in Hr. destruct (link cb) eqn:Hl; [done|].
      apply fmap_None in Hr. assert (is_Some (turns t (ents sb RELTM_LINK_SORTED i))) as [? ?]; [|by simplify_eq/=].
      apply turns_in, (wo_link _ Hok). by exists cb. }
    destruct (add2hash_spec _ _ _ Hok Ht Hs) as (sb' & ? & ? & Hf & ?).
    exists sb'. unfold frame in Hf. rewrite app_nil_r. intuition congruence.
Qed.

Lemma invokeall_spec ks : ∀ sb m e,
  wheel_ok sb → spec_calls (abs sb) ks = Some (m, e) →
  ∃ sb', invokeall ks sb = Returned sb' ∧ wheel_ok sb' ∧ abs sb' = m ∧ events sb' = events sb ++ e ∧
    rel_tsklets sb' = rel_tsklets sb ∧ rel_inter_tsklets sb' = rel_inter_tsklets sb.
Proof.
  induction ks as [|k ks IH]; intros sb m e Hok Hspec; simpl in *.
  { simplify_eq. exists sb. by rewrite app_nil_r. }
  destruct (spec_call (abs sb) k) as [[m1 e1]|] eqn:E1; [|done]. simpl in Hspec.
  destruct (spec_calls m1 ks) as [[m2 e2]|] eqn:E2; [|done]. simpl in Hspec. simplify_eq.
  destruct (run_tsklet_spec _ _ _ _ Hok E1) as (sb1 & -> & Hok1 & <- & He1 & ? & ?). simpl.
  destruct (IH _ _ _ Hok1 E2) as (sb2 & -> & Hok2 & <- & He2 & ? & ?).
  exists sb2. rewrite He2, He1, app_assoc. intuition congruence.
Qed.

(** ** Serving a slot *)

(** Two states between which exactly the timers [fired] were served. *)
Record served (callback : Z → Z → list tsklet) (item : list event → bool) (sb : sync_block_t) (fired : list Z) (sb' : sync_block_t) : Prop := {
  sv_tick : tick_last sb' = tick_last sb;
  sv_abs : ∀ t, abs sb' !! t = if decide (t ∈ fired) then abs sb !! t ≫= expire else abs sb !! t;
  sv_events : events sb' = events sb ++ timeouts (abs sb) fired;
  sv_rel : rel_tsklets sb' = rel_tsklets sb ++ queued callback (abs sb) fired;
  sv_inter : rel_inter_tsklets sb' = rel_inter_tsklets sb ++ restarts item (events sb) (abs sb) fired
}.

Lemma of_fired_ext {A} (f : Z → view → list A) m m' ts :
  (∀ t, t ∈ ts → m' !! t = m !! t) → of_fired f m' ts = of_fired f m ts.
Proof.
  unfold of_fired. induction ts as [|t ts IH]; intros H; simpl; [done|].
  rewrite H by apply list_elem_of_here. rewrite IH; [done|]. intros t' ?. apply H. by right.
Qed.

Lemma of_fired_fun {A} (f g : Z → view → list A) m ts :
  (∀ t v, t ∈ ts → f t v = g t v) → of_fired f m ts = of_fired g m ts.
Proof.
  unfold of_fired. induction ts as [|t ts IH]; intros H; simpl; [done|].
  rewrite IH by (intros t' v ?; apply H; by right). destruct (m !! t); [|done]. by rewrite H by apply list_elem_of_here.
Qed.

Lemma of_fired_app {A} (f : Z → view → list A) m ts ts' :
  of_fired f m (ts ++ ts') = of_fired f m ts ++ of_fired f m ts'.
Proof. apply flat_map_app. Qed.

Lemma restarts_app item evs m ts ts' : (∀ t, t ∈ ts → t ∉ ts') →
  restarts item evs m (ts ++ ts') = restarts item evs m ts ++ restarts item (evs ++ timeouts m ts) m ts'.
Proof.
  intros Hd. unfold restarts. rewrite of_fired_app. f_equal.
  - apply of_fired_fun. intros t v Ht. unfold timeouts at 1. rewrite of_fired_app, app_assoc. fold timeouts. by rewrite (until_call_other m ts') by auto.
  - apply of_fired_fun. intros t v Ht. unfold timeouts at 1. by rewrite of_fired_app, app_assoc.
Qed.

Lemma restarts_ext item evs m m' ts : (∀ t, t ∈ ts → m' !! t = m !! t) → restarts item evs m' ts = restarts item evs m ts.
Proof.
  intros H. unfold restarts. rewrite (of_fired_ext _ m m') by done. apply of_fired_fun. intros t v Ht.
  unfold timeouts. by rewrite (of_fired_ext _ m m') by done.
Qed.

Lemma served_nil cb it sb : served cb it sb [] sb.
Proof. split; try done; unfold timeouts, queued, restarts, of_fired; simpl; by rewrite ?app_nil_r. Qed.

Lemma served_app cb it sb sb1 sb2 ts ts' :
  served cb it sb ts sb1 → served cb it sb1 ts' sb2 → (∀ t, t ∈ ts → t ∉ ts') → served cb it sb (ts ++ ts') sb2.
Proof.
  intros [] [] Hd. assert (∀ t, t ∈ ts' → abs sb1 !! t = abs sb !! t) as Hsame.
  { intros t Ht. rewrite sv_abs0, decide_False; [done|]. intros ?. by eapply Hd. }
  rewrite (restarts_ext _ _ (abs sb)), sv_events0 in sv_inter1 by done.
  unfold timeouts, queued in *. rewrite (of_fired_ext _ (abs sb)) in sv_events1 by done.
  rewrite (of_fired_ext _ (abs sb)) in sv_rel1 by done.
  split; [congruence|..].
  - intros t. rewrite sv_abs1. destruct (decide (t ∈ ts')) as [H|H].
    + rewrite decide_True by (apply elem_of_app; by right). by rewrite Hsame.
    + rewrite sv_abs0. apply decide_ext. rewrite elem_of_app. tauto.
  - unfold timeouts. by rewrite of_fired_app, sv_events1, sv_events0, app_assoc.
  - unfold queued. by rewrite of_fired_app, sv_rel1, sv_rel0, app_assoc.
  - rewrite restarts_app by done. by rewrite sv_inter1, sv_inter0, app_assoc.
Qed.

Section Serve.
Context (callback : Z → Z → list tsklet) (item : list event → bool).

Definition unplugged (sb sb' : sync_block_t) (l : tm_link) (i : Z) (nl : list (Z * Z)) : Prop :=
  ∀ l' j, ents sb' l' j = if decide (l = l' ∧ i = j) then nl else ents sb l' j.

(** Taking the served head off its link. *)
Lemma pull_head sb t tl l i rest cb :
  wheel_ok sb → ents sb l i = (t, tl) :: rest → (l = RELTM_LINK_SORTED → tl / 1024 = 0) →
  timers sb !! t = Some cb → slot cb = Some i → link cb = l →
  let sb' := set_timers (relink sb l i rest) (<[t := set_slot cb l None]> (timers sb)) in
  wheel_ok sb' ∧ unplugged sb sb' l i rest ∧
  abs sb' = <[t := mkView (msec cb) (timeout cb) (arg cb) (mode cb) None]> (abs sb).
Proof.
  intros Hok He Htl Ht Hs Hl sb'.
  pose proof (wo_nodup _ Hok l i) as Hnd. rewrite He in Hnd. apply NoDup_cons in Hnd as [Hni Hnd].
  split_and!.
  - apply (relink_ok sb t cb); try done; [by eapply (wo_slot _ Hok t l); exists cb|by right|by left|..].
    + intros t' Hne. rewrite He, fmap_cons, elem_of_cons. simpl. tauto.
    + intros ->. pose proof (wo_nodes _ Hok i) as Hn. pose proof (wo_total _ Hok i) as Hto.
      rewrite He in Hn, Hto. apply Forall_cons in Hn as [_ ?]. simpl in Hto.
      rewrite Htl in Hto by done. done.
  - intros l' j. apply ents_relink.
  - rewrite (abs_insert sb sb' t (set_slot cb l None)); [|done|].
    + do 2 f_equal. apply (remaining_idle _ _ (set_slot cb l None)); [|done]. simpl. by rewrite lookup_insert_eq.
    + intros t' Hne. apply relink_remaining; [done|]. intros ->. rewrite He. simpl.
      replace (t =? t') with false by (symmetry; apply Z.eqb_neq; lia).
      rewrite Htl by done. by destruct (turns t' rest).
Qed.

(** The three endings of [_trigger_a_timer]. *)
Lemma served_one sb sb3 sb' t v :
  abs sb !! t = Some v → abs sb3 = <[t := set_due v None]> (abs sb) →
  tick_last sb' = tick_last sb → events sb' = events sb ++ [Timeout t (v_func v) (v_arg v)] →
  rel_tsklets sb' = rel_tsklets sb ++ callback (v_func v) (v_arg v) →
  rel_inter_tsklets sb' = rel_inter_tsklets sb ++ (if auto_free v || one_shoot v || negb (item (events sb')) then [] else [do_restart_tm t]) →
  abs sb' = (if auto_free v then delete t (abs sb3) else abs sb3) →
  served callback item sb [t] sb'.
Proof.
  intros Hv Ha3 Htick Hev Hrel Hint Ha'. rewrite Hev, <- (until_call_last t (events sb)) in Hint.
  split; unfold timeouts, queued, restarts, timeouts, of_fired; simpl; rewrite ?Hv, ?app_nil_r; try done.
  intros t'. rewrite Ha', Ha3. unfold expire. destruct (decide (t' = t)) as [->|Hne].
  - rewrite decide_True by apply list_elem_of_here. rewrite Hv. simpl.
    destruct (auto_free v); by rewrite ?lookup_delete_eq, ?lookup_insert_eq.
  - rewrite decide_False by (by rewrite list_elem_of_singleton).
    destruct (auto_free v); by rewrite ?lookup_delete_ne, ?lookup_insert_ne by done.
Qed.

Lemma trigger_a_timer_spec sb t tl l i rest :
  wheel_ok sb → ents sb l i = (t, tl) :: rest → (l = RELTM_LINK_SORTED → tl / 1024 = 0) →
  ∃ sb', trigger_a_timer callback item sb t = Returned sb' ∧ wheel_ok sb' ∧ served callback item sb [t] sb' ∧
    unplugged sb sb' l i rest.
Proof.
  intros Hok He Htl. assert (linked sb t l i) as (cb & Ht & Hs & Hl).
  { apply (wo_link _ Hok). rewrite He. simpl. apply list_elem_of_here. }
  pose proof (wo_nodup _ Hok l i) as Hnd. rewrite He in Hnd. apply NoDup_cons in Hnd as [Hni _].
  unfold trigger_a_timer. rewrite Ht. cbn [oderef obind]. rewrite Hs, Hl. cbn [oderef obind]. cbv zeta.
  set (sb1 := set_rel _ _).
  assert (wheel_ok sb1) as Hok1 by (by apply (wheel_ok_ext sb)).
  assert (abs sb1 = abs sb) as Ha1 by (by apply abs_ext).
  destruct (pull_head sb1 t tl l i rest cb Hok1 He Htl Ht Hs Hl) as (Hok3 & Hun & Ha3).
  set (sb3 := set_timers (relink sb1 l i rest) _) in Hok3, Hun, Ha3. rewrite Ha1 in Ha3.
  set (sbx := set_timers _ (<[t := _]> _)). assert (sbx = sb3) as ->.
  { subst sbx sb3. destruct l; simpl in *; rewrite He, unlink_head by done; done. }
  set (v := mkView (msec cb) (timeout cb) (arg cb) (mode cb) (remaining sb t)).
  assert (abs sb !! t = Some v) as Hv by (by rewrite abs_lookup, Ht).
  assert (timers sb3 !! t = Some (set_slot cb l None)) as Ht3 by (simpl; by rewrite lookup_insert_eq).
  assert (events sb3 = events sb ++ [Timeout t (timeout cb) (arg cb)]
    ∧ rel_tsklets sb3 = rel_tsklets sb ++ callback (timeout cb) (arg cb)
    ∧ rel_inter_tsklets sb3 = rel_inter_tsklets sb ∧ tick_last sb3 = tick_last sb) as (He3 & Hr3 & Hi3 & Htk3)
    by (by destruct l).
  change (mode cb) with (v_mode v). fold (auto_free v).
  destruct (auto_free v) eqn:Haf; [|destruct (Z.land (v_mode v) PETF_ONE_SHOOT =? 0) eqn:Hos];
    (eexists; split_and!; [done| | |]).
  - by eapply wheel_ok_free.
  - apply (served_one _ sb3 _ _ v); rewrite ?Haf; simpl; rewrite ?app_nil_r; try done.
    apply abs_delete; [done|]. intros t' Hne. apply remaining_timers. by rewrite lookup_delete_ne.
  - done.
  - by apply (wheel_ok_ext sb3).
  - apply (served_one _ sb3 _ _ v); unfold one_shoot, tsklet_invokelater; rewrite ?Haf, ?Hos; try done.
    cbn [rel_inter_tsklets events set_inter]. rewrite Hi3. destruct (item _); [done|]. by rewrite app_nil_r.
  - done.
  - done.
  - apply (served_one _ sb3 _ _ v); unfold one_shoot; rewrite ?Haf, ?Hos; simpl; rewrite ?app_nil_r; done.
  - done.
Qed.

Lemma zero_loop_spec i items : ∀ sb,
  wheel_ok sb → ents sb RELTM_LINK_ZERO i = items →
  ∃ sb', zero_loop callback item items sb = Returned sb' ∧ wheel_ok sb' ∧ served callback item sb items.*1 sb' ∧
    unplugged sb sb' RELTM_LINK_ZERO i [].
Proof.
  induction items as [|[t tl] items IH]; intros sb Hok He.
  { exists sb. split_and!; [done|done|apply served_nil|]. intros l j. case_decide as Hd; [|done].
    by destruct Hd as [<- <-]. }
  pose proof (wo_nodup _ Hok RELTM_LINK_ZERO i) as Hnd. rewrite He in Hnd. apply NoDup_cons in Hnd as [Hni _].
  destruct (trigger_a_timer_spec sb t tl _ i items Hok He) as (sb1 & E1 & Hok1 & Hs1 & Hu1); [done|].
  destruct (IH sb1 Hok1) as (sb2 & E2 & Hok2 & Hs2 & Hu2); [by rewrite Hu1, decide_True by done|].
  exists sb2. simpl. rewrite E1. simpl. split_and!; [done|done| |].
  - apply (served_app _ _ sb sb1 sb2 [t]); [done..|]. intros t' ->%list_elem_of_singleton. done.
  - intros l j. rewrite Hu2, Hu1. by repeat case_decide.
Qed.

(** The served part of a sorted link has no turn left; what remains of the link
    is empty or starts with a timer that has turns left. *)
Lemma sorted_loop_spec i items : ∀ sb,
  wheel_ok sb → ents sb RELTM_LINK_SORTED i = items →
  ∃ sb1 now rest, items = now ++ rest ∧ Forall (λ e, snd e / 1024 = 0) now ∧
    wheel_ok sb1 ∧ served callback item sb now.*1 sb1 ∧ unplugged sb sb1 RELTM_LINK_SORTED i rest ∧
    match rest with
    | [] => sorted_loop callback item i items sb = Returned sb1
    | (t, tl) :: rest' =>
        1024 ≤ tl ∧
        sorted_loop callback item i items sb = Returned (set_sorted sb1 i ((t, u32 (tl - TM_HASH_LEN)) :: rest'))
    end.
Proof.
  induction items as [|[t tl] items IH]; intros sb Hok He.
  { exists sb, [], []. split_and!; try done; [apply served_nil|]. intros l j. case_decide as Hd; [|done].
    by destruct Hd as [<- <-]. }
  simpl. change TM_HASH_LEN with 1024 in *. destruct (tl <? 1024) eqn:Hlt; bool_to_prop.
  - pose proof (wo_nodup _ Hok RELTM_LINK_SORTED i) as Hnd. rewrite He in Hnd. apply NoDup_cons in Hnd as [Hni _].
    pose proof (wo_nodes _ Hok i) as Hn. rewrite He in Hn. apply Forall_cons in Hn as [[Hr _] _]. simpl in Hr.
    assert (tl / 1024 = 0) as Htl by (apply Z.div_small; lia).
    destruct (trigger_a_timer_spec sb t tl _ i items Hok He) as (sb1 & E1 & Hok1 & Hs1 & Hu1); [done|].
    destruct (IH sb1 Hok1) as (sb2 & now & rest & -> & Hnow & Hok2 & Hs2 & Hu2 & E2);
      [by rewrite Hu1, decide_True by done|].
    exists sb2, ((t, tl) :: now), rest. rewrite E1. simpl. split_and!; [done|by constructor|done| | |done].
    + apply (served_app _ _ sb sb1 sb2 [t]); [done..|]. intros t' ->%list_elem_of_singleton.
      intros Hin. apply Hni. change (t ∈ (now ++ rest).*1). rewrite fmap_app, elem_of_app. by left.
    + intros l j. rewrite Hu2, Hu1. by repeat case_decide.
  - exists sb, [], ((t, tl) :: items). split_and!; try done; [apply served_nil|].
    intros l j. case_decide as Hd; [|done]. by destruct Hd as [<- <-].
Qed.

End Serve.

(** *** The tick advances every timer that is left *)

Definition advance (v : view) : view := set_due v (Z.pred <$> v_due v).

Lemma slot_next tick j :
  let x := (j - tick) mod 1024 in
  (j - u32 (tick + 1)) mod 1024 = if x =? 0 then 1023 else x - 1.
Proof.
  intros x. assert ((j - u32 (tick + 1)) mod 1024 = (j - tick - 1) mod 1024) as ->.
  { unfold u32. rewrite Zminus_mod, Z.mod_mod_divide by (by exists (2 ^ 22)). rewrite <-Zminus_mod. f_equal. lia. }
  pose proof (Z.div_mod (j - tick) 1024) as Hd. fold x in Hd.
  pose proof (Z.mod_pos_bound (j - tick) 1024) as Hb. fold x in Hb.
  destruct (x =? 0) eqn:E; bool_to_prop; symmetry.
  - apply (Z.mod_unique_pos _ _ ((j - tick) / 1024 - 1)); lia.
  - apply (Z.mod_unique_pos _ _ ((j - tick) / 1024)); lia.
Qed.

Lemma slot_diff_zero tick j : 0 ≤ j < 1024 → (j - tick) mod 1024 = 0 ↔ j = TM_HASH_FUNC tick.
Proof.
  intros Hj. rewrite TM_HASH_FUNC_mod. pose proof (Z.mod_pos_bound tick 1024).
  pose proof (Z.div_mod tick 1024). pose proof (Z.div_mod (j - tick) 1024). split; intros; lia || subst j.
  replace (tick mod 1024 - tick) with ((- (tick / 1024)) * 1024) by lia. apply Z.mod_mul. lia.
Qed.

(** The link of the served slot: its head loses a turn. *)
Definition lose_turn (l : list (Z * Z)) : list (Z * Z) :=
  match l with [] => [] | (t, tl) :: l' => (t, u32 (tl - TM_HASH_LEN)) :: l' end.

Definition waiting (l : list (Z * Z)) : Prop :=
  match l with [] => True | (_, tl) :: _ => 1024 ≤ tl end.

Lemma lose_turn_spec i l :
  Forall (node_ok i) l → waiting l →
  Forall (node_ok i) (lose_turn l) ∧ (lose_turn l).*1 = l.*1 ∧ total (lose_turn l) ≤ total l ∧
  ∀ t, turns t (lose_turn l) = Z.pred <$> turns t l.
Proof.
  destruct l as [|[t tl] l]; [by simpl|]. intros [[Htl Hi] Hl]%Forall_cons Hw. simpl in *.
  change TM_HASH_LEN with 1024. rewrite u32_small by lia.
  replace (tl - 1024) with (tl + (-1) * 1024) by lia. rewrite Z.div_add by lia.
  rewrite Forall_cons. split_and!; [|done|done|lia|].
  - split; simpl; [lia|]. by rewrite Z.mod_add by lia.
  - intros t'. destruct (t =? t'); simpl; [f_equal; lia|]. destruct (turns t' l); simpl; [|done]. f_equal; lia.
Qed.

Lemma waiting_turns i l t v : Forall (node_ok i) l → waiting l → turns t l = Some v → 1 ≤ v.
Proof.
  destruct l as [|[t' tl] l]; [done|]. intros [_ Hl]%Forall_cons Hw. simpl in *.
  assert (1 ≤ tl / 1024) by (apply Z.div_le_lower_bound; lia).
  destruct (t' =? t); [intros; simplify_eq; lia|].
  destruct (turns t l) as [w|] eqn:E; [|done]. intros [= <-].
  pose proof (turns_range _ _ _ _ Hl E). lia.
Qed.

Lemma remaining_tick sb i rest t :
  wheel_ok sb → i = TM_HASH_FUNC (tick_last sb) →
  ents sb RELTM_LINK_ZERO i = [] → ents sb RELTM_LINK_SORTED i = rest → waiting rest →
  remaining (set_tick (set_sorted sb i (lose_turn rest)) (u32 (tick_last sb + 1))) t = Z.pred <$> remaining sb t
  ∧ remaining sb t ≠ Some 0.
Proof.
  intros Hok Hi Hz Hr Hw. pose proof (wo_nodes _ Hok i) as Hn. rewrite Hr in Hn.
  destruct (lose_turn_spec i rest Hn Hw) as (_ & _ & _ & Ht).
  unfold remaining. simpl. destruct (timers sb !! t) as [cb|] eqn:Hcb; [|done]. simpl.
  destruct (slot cb) as [j|] eqn:Hs; [|done]. simpl.
  assert (linked sb t (link cb) j) as Hl by (by exists cb).
  pose proof (wo_slot _ Hok _ _ _ Hl) as Hj. pose proof (slot_diff_zero (tick_last sb) j Hj) as Hzero.
  pose proof (Z.mod_pos_bound (j - tick_last sb) 1024) as Hb.
  rewrite slot_next. rewrite <-Hi in Hzero. rewrite <-(wo_link _ Hok) in Hl.
  destruct (link cb) eqn:Elink.
  - assert (j ≠ i) by (intros ->; rewrite Hz in Hl; by apply elem_of_nil in Hl).
    destruct (_ =? 0) eqn:E; bool_to_prop; [tauto|]. simpl. split; [f_equal; lia|intros ?; simplify_eq; tauto].
  - rewrite entries_insert. apply turns_in in Hl as [v Hv].
    pose proof (turns_range _ _ _ _ (wo_nodes _ Hok j) Hv) as Hrange. simpl in Hv, Hr. case_decide as Hd.
    + subst j. rewrite Hr in *. rewrite Ht, Hv. pose proof (waiting_turns _ _ _ _ Hn Hw Hv).
      replace ((i - tick_last sb) mod 1024) with 0 by (symmetry; tauto). simpl.
      split; [f_equal; lia|intros ?; simplify_eq; lia].
    + rewrite Hv. destruct (_ =? 0) eqn:E; bool_to_prop; [naive_solver|]. simpl.
      split; [f_equal; lia|intros ?; simplify_eq; lia].
Qed.

Lemma tick_step sb i rest :
  wheel_ok sb → i = TM_HASH_FUNC (tick_last sb) →
  ents sb RELTM_LINK_ZERO i = [] → ents sb RELTM_LINK_SORTED i = rest → waiting rest →
  let sb' := set_tick (set_sorted sb i (lose_turn rest)) (u32 (tick_last sb + 1)) in
  wheel_ok sb' ∧ (∀ t, abs sb' !! t = advance <$> abs sb !! t) ∧
  (∀ t v, abs sb !! t = Some v → v_due v ≠ Some 0).
Proof.
  intros Hok Hi Hz Hr Hw sb'. pose proof (wo_nodes _ Hok i) as Hn. rewrite Hr in Hn.
  destruct (lose_turn_spec i rest Hn Hw) as (Hn' & Hfst & Htot & Ht).
  assert (∀ l j, ents sb' l j = if decide (l = RELTM_LINK_SORTED ∧ j = i) then lose_turn rest else ents sb l j) as He.
  { intros [] j; simpl; rewrite ?entries_insert; repeat case_decide; naive_solver. }
  split_and!.
  - split.
    + apply u32_range.
    + apply Hok.
    + intros l j t. rewrite He. case_decide as Hd; [|apply (wo_link _ Hok)].
      destruct Hd as [-> ->]. rewrite Hfst, <-Hr. apply (wo_link _ Hok).
    + intros l j. rewrite He. case_decide as Hd; [|apply Hok]. destruct Hd as [-> ->].
      rewrite Hfst, <-Hr. apply Hok.
    + intros j. rewrite He. case_decide as Hd; [|apply Hok]. by destruct Hd as [_ ->].
    + intros j. rewrite He. case_decide as Hd; [|apply Hok]. destruct Hd as [_ ->].
      pose proof (wo_total _ Hok i) as Hm. rewrite Hr in Hm. lia.
  - intros t. rewrite !abs_lookup. simpl. destruct (timers sb !! t) as [cb|]; [|done]. simpl.
    f_equal. unfold advance, set_due. simpl. f_equal. by apply (remaining_tick sb i rest t).
  - intros t v Hv. rewrite abs_lookup in Hv. apply fmap_Some in Hv as (cb & _ & ->). simpl.
    by apply (remaining_tick sb i rest t).
Qed.

(** The served timers are the ones that are due. *)
Lemma due_zero sb t :
  wheel_ok sb →
  t ∈ (ents sb RELTM_LINK_ZERO (TM_HASH_FUNC (tick_last sb))).*1 → remaining sb t = Some 0.
Proof.
  intros Hok Hl. apply (wo_link _ Hok) in Hl. pose proof (wo_slot _ Hok _ _ _ Hl) as Hj.
  destruct Hl as (cb & Ht & Hs & Hl). unfold remaining. rewrite Ht. simpl. rewrite Hs. simpl. rewrite Hl.
  f_equal. by apply slot_diff_zero.
Qed.

Lemma turns_prefix now rest t :
  Forall (λ e, snd e / 1024 = 0) now → t ∈ now.*1 → turns t (now ++ rest) = Some 0.
Proof.
  induction 1 as [|[t' tl] now Htl _ IH]; simpl in *; [by intros ?%elem_of_nil|].
  intros Hin. destruct (t' =? t) eqn:E; [by rewrite Htl|]. bool_to_prop.
  rewrite elem_of_cons in Hin. destruct Hin as [?|Hin]; [congruence|]. rewrite IH by done. simpl. f_equal. lia.
Qed.

Lemma due_sorted sb now rest t :
  wheel_ok sb → ents sb RELTM_LINK_SORTED (TM_HASH_FUNC (tick_last sb)) = now ++ rest →
  Forall (λ e, snd e / 1024 = 0) now → t ∈ now.*1 → remaining sb t = Some 0.
Proof.
  intros Hok He Hnow Hin.
  assert (linked sb t RELTM_LINK_SORTED (TM_HASH_FUNC (tick_last sb))) as Hl.
  { apply (wo_link _ Hok). rewrite He, fmap_app, elem_of_app. by left. }
  pose proof (wo_slot _ Hok _ _ _ Hl) as Hj.
  destruct Hl as (cb & Ht & Hs & Hl). unfold remaining. rewrite Ht. simpl. rewrite Hs. simpl. rewrite Hl.
  simpl in He. rewrite He, (turns_prefix _ _ _ Hnow Hin). simpl. f_equal.
  replace ((_ - _) mod 1024) with 0; [done|]. symmetry. by apply slot_diff_zero.
Qed.

(** What the end of the traversal leaves, whether a head lost a turn or not. *)
Lemma tick_end sb sb3 i rest :
  wheel_ok sb → i = TM_HASH_FUNC (tick_last sb) →
  ents sb RELTM_LINK_ZERO i = [] → ents sb RELTM_LINK_SORTED i = rest → waiting rest →
  (sb3 = sb ∧ rest = [] ∨ sb3 = set_sorted sb i (lose_turn rest)) →
  let sb' := set_tick sb3 (u32 (tick_last sb3 + 1)) in
  wheel_ok sb' ∧ (∀ t, abs sb' !! t = advance <$> abs sb !! t) ∧
  (∀ t v, abs sb !! t = Some v → v_due v ≠ Some 0).
Proof.
  intros Hok Hi Hz Hr Hw H3 sb'. destruct (tick_step sb i rest Hok Hi Hz Hr Hw) as (Hok' & Ha & Hd).
  destruct H3 as [[-> ->]| ->]; [|done].
  assert (∀ l j, ents sb' l j = ents (set_tick (set_sorted sb i (lose_turn [])) (u32 (tick_last sb + 1))) l j) as He.
  { intros [] j; simpl in *; rewrite ?entries_insert; [done|]. case_decide; [|done]. by subst. }
  split_and!; [by eapply wheel_ok_ext| |done].
  intros t. rewrite <-Ha. f_equal. apply abs_ext; [done|]. intros t'. apply remaining_ext; [done..|].
  intros j _. by rewrite He.
Qed.

(** From the served timers and the advanced ones to the abstract tick. *)
Lemma abs_due sb t v : abs sb !! t = Some v → v_due v = remaining sb t.
Proof. rewrite abs_lookup. intros (cb & _ & ->)%fmap_Some. done. Qed.

Lemma due_abs sb t r : remaining sb t = Some r → ∃ v, abs sb !! t = Some v ∧ v_due v = Some r.
Proof.
  intros Hr. assert (is_Some (abs sb !! t)) as [v Hv].
  { rewrite abs_lookup, fmap_is_Some. unfold remaining in Hr. by destruct (timers sb !! t). }
  exists v. by rewrite (abs_due _ _ _ Hv).
Qed.

Lemma fired_due sb (m2 : gmap Z view) (fired : list Z) t :
  (∀ t, m2 !! t = if decide (t ∈ fired) then abs sb !! t ≫= expire else abs sb !! t) →
  (∀ t v, m2 !! t = Some v → v_due v ≠ Some 0) → (∀ t, t ∈ fired → remaining sb t = Some 0) →
  t ∈ fired ↔ ∃ v, abs sb !! t = Some v ∧ v_due v = Some 0.
Proof.
  intros Habs Hd Hdue. split; [intros Hin; by apply due_abs, Hdue|].
  intros (v & Hv & Hv0). destruct (decide (t ∈ fired)) as [|Hn]; [done|].
  exfalso. apply (Hd t v); [|done]. by rewrite Habs, decide_False.
Qed.

Lemma views_tick sb (m2 m' : gmap Z view) (fired : list Z) :
  (∀ t, m2 !! t = if decide (t ∈ fired) then abs sb !! t ≫= expire else abs sb !! t) →
  (∀ t v, m2 !! t = Some v → v_due v ≠ Some 0) → (∀ t, t ∈ fired → remaining sb t = Some 0) →
  (∀ t, m' !! t = advance <$> m2 !! t) → m' = spec_tick (abs sb).
Proof.
  intros Habs Hd Hdue Ha. apply map_eq. intros t. unfold spec_tick. rewrite lookup_omap, Ha.
  destruct (abs sb !! t) as [v|] eqn:E; rewrite Habs, E; [|by case_decide].
  case_decide as Hf; simpl; unfold spec_tick1.
  - rewrite (abs_due _ _ _ E), (Hdue t Hf). simpl. unfold expire. by destruct (auto_free v).
  - assert (v_due v ≠ Some 0) as Hv by (apply (Hd t v); by rewrite Habs, decide_False).
    destruct v as [? ? ? ? [r|]]; [|done]. simpl in *. unfold advance, set_due. simpl.
    destruct (r =? 0) eqn:E0; bool_to_prop; [congruence|done].
Qed.

Lemma serve_slot_spec callback item sb :
  wheel_ok sb →
  ∃ sb' fired, serve_slot callback item sb = Returned sb' ∧ wheel_ok sb' ∧ due_now (abs sb) fired ∧
    abs sb' = spec_tick (abs sb) ∧ events sb' = events sb ++ timeouts (abs sb) fired ∧
    rel_tsklets sb' = rel_tsklets sb ++ queued callback (abs sb) fired ∧
    rel_inter_tsklets sb' = rel_inter_tsklets sb ++ restarts item (events sb) (abs sb) fired.
Proof.
  intros Hok. set (i := TM_HASH_FUNC (tick_last sb)).
  destruct (zero_loop_spec callback item i _ sb Hok eq_refl) as (sb1 & E1 & Hok1 & Hs1 & Hu1).
  destruct (sorted_loop_spec callback item i _ sb1 Hok1 eq_refl)
    as (sb2 & now & rest & Hsplit & Hnow & Hok2 & Hs2 & Hu2 & E2).
  assert (ents sb RELTM_LINK_SORTED i = now ++ rest) as Hsplit' by (by rewrite <-Hsplit, Hu1).
  set (zs := (ents sb RELTM_LINK_ZERO i).*1) in *.
  assert (∀ t, t ∈ zs → t ∉ now.*1) as Hdisj.
  { intros t (cb & ? & ? & ?)%(wo_link _ Hok) Hin.
    assert (linked sb t RELTM_LINK_SORTED i) as (? & ? & ? & ?); [|congruence].
    apply (wo_link _ Hok). rewrite Hsplit', fmap_app, elem_of_app. by left. }
  pose proof (served_app _ _ _ _ _ _ _ Hs1 Hs2 Hdisj) as Hs. set (fired := zs ++ now.*1) in *.
  destruct Hs as [Htick Habs Hev Hrel Hint].
  assert (∃ sb3, sorted_loop callback item i (ents sb1 RELTM_LINK_SORTED i) sb1 = Returned sb3 ∧ waiting rest ∧
     (sb3 = sb2 ∧ rest = [] ∨ sb3 = set_sorted sb2 i (lose_turn rest))) as (sb3 & E3 & Hw & H3).
  { destruct rest as [|[t tl] rest].
    - exists sb2. split_and!; [done|done|by left].
    - destruct E2 as [Hw E2]. eexists. split_and!; [done|done|by right]. }
  destruct (tick_end sb2 sb3 i rest) as (Hok' & Ha & Hd); try done;
    [by rewrite Htick|by rewrite Hu2, decide_False, Hu1, decide_True by naive_solver|by rewrite Hu2, decide_True by done|].
  exists (set_tick sb3 (u32 (tick_last sb3 + 1))), fired.
  assert (∀ t, t ∈ fired → remaining sb t = Some 0) as Hdue.
  { intros t [Hin|Hin]%elem_of_app; [by apply due_zero|by apply (due_sorted sb now rest)]. }
  split_and!; [|done|..].
  - unfold serve_slot. fold i. simpl in E1, E3. rewrite E1. simpl. rewrite E3. done.
  - split; [|intros t; by apply (fired_due sb (abs sb2))].
    apply NoDup_app. split_and!; [apply Hok|done|]. pose proof (wo_nodup _ Hok RELTM_LINK_SORTED i) as Hnd.
    rewrite Hsplit', fmap_app in Hnd. by apply NoDup_app in Hnd as (? & _).
  - by apply (views_tick sb (abs sb2) _ fired).
  - by destruct H3 as [[-> _]| ->].
  - by destruct H3 as [[-> _]| ->].
  - by destruct H3 as [[-> _]| ->].
Qed.

(** ** The tick *)

Lemma spec_calls_app ks ks' m :
  spec_calls m (ks ++ ks') =
  '(m1, e1) ← spec_calls m ks; '(m2, e2) ← spec_calls m1 ks'; Some (m2, e1 ++ e2).
Proof.
  revert m. induction ks as [|k ks IH]; intros m; simpl.
  - by destruct (spec_calls m ks') as [[? ?]|].
  - destruct (spec_call m k) as [[m1 e1]|]; [|done]. simpl. rewrite IH.
    destruct (spec_calls m1 ks) as [[m2 e2]|]; [|done]. simpl.
    destruct (spec_calls m2 ks') as [[m3 e3]|]; [|done]. simpl. by rewrite app_assoc.
Qed.

Lemma reltm_tick_spec callback item sb m e :
  wheel_ok sb → spec_calls (abs sb) (rel_inter_tsklets sb ++ rel_tsklets sb) = Some (m, e) →
  ∃ sb' fired, reltm_tick callback item sb = Returned sb' ∧ wheel_ok sb' ∧ due_now m fired ∧
    abs sb' = spec_tick m ∧ events sb' = events sb ++ e ++ timeouts m fired ∧
    rel_tsklets sb' = queued callback m fired ∧ rel_inter_tsklets sb' = restarts item (events sb ++ e) m fired.
Proof.
  intros Hok Hspec. rewrite spec_calls_app in Hspec.
  destruct (spec_calls (abs sb) (rel_inter_tsklets sb)) as [[m1 e1]|] eqn:E1; [|done]. simpl in Hspec.
  destruct (spec_calls m1 (rel_tsklets sb)) as [[m2 e2]|] eqn:E2; [|done]. simpl in Hspec. simplify_eq.
  destruct (invokeall_spec (rel_inter_tsklets sb) (set_inter sb []) m1 e1) as (sb1 & R1 & Hok1 & <- & Hev1 & Hr1 & Hi1).
  { by apply (wheel_ok_ext sb). }
  { by rewrite <-E1. }
  simpl in *.
  destruct (invokeall_spec (rel_tsklets sb) (set_rel sb1 []) m e2) as (sb2 & R2 & Hok2 & Ha2 & Hev2 & Hr2 & Hi2).
  { by apply (wheel_ok_ext sb1). }
  { by rewrite <-E2. }
  simpl in *.
  destruct (serve_slot_spec callback item sb2 Hok2) as (sb' & fired & R3 & Hok3 & Hd & Ha & Hev & Hr & Hi).
  exists sb', fired. rewrite Ha2 in *. unfold reltm_tick. rewrite R1. simpl. rewrite Hr1, R2. simpl.
  split_and!; try done.
  - by rewrite Hev, Hev2, Hev1, <-!app_assoc.
  - by rewrite Hr, Hr2.
  - rewrite Hi, Hi2, Hi1, Hev2, Hev1. by rewrite <- app_assoc.
Qed.

(** The restarts that are queued are of distinct, idle timers. *)
Definition inter_ok (m : gmap Z view) (ks : list tsklet) : Prop :=
  ∃ ts, ks = do_restart_tm <$> ts ∧ NoDup ts ∧ ∀ t, t ∈ ts → ∃ v, m !! t = Some v ∧ v_due v = None.

Definition restarted (v : view) : view := set_due v (Some (effective (ticks_of (v_msec v)))).

Lemma spec_calls_restart m ts :
  NoDup ts → (∀ t, t ∈ ts → ∃ v, m !! t = Some v ∧ v_due v = None) →
  ∃ m', spec_calls m (do_restart_tm <$> ts) = Some (m', []) ∧
    ∀ t, m' !! t = if decide (t ∈ ts) then restarted <$> m !! t else m !! t.
Proof.
  intros Hnd. revert m. induction Hnd as [|t ts Hni Hnd IH]; intros m Hidle.
  { exists m. done. }
  rewrite fmap_cons. cbn [spec_calls spec_call].
  destruct (Hidle t) as (v & Hv & Hd); [apply list_elem_of_here|].
  rewrite Hv. cbn [mbind option_bind]. rewrite Hd. cbn [mbind option_bind]. fold (restarted v).
  destruct (IH (<[t := restarted v]> m)) as (m' & -> & Hm').
  { intros t' Hin. rewrite lookup_insert_ne by (by intros ->). apply Hidle. by right. }
  exists m'. split; [done|]. intros t'. rewrite Hm'. destruct (decide (t' = t)) as [->|Hne].
  - rewrite decide_False, decide_True by (done || apply list_elem_of_here).
    by rewrite lookup_insert_eq, Hv.
  - rewrite lookup_insert_ne by done. apply decide_ext. rewrite elem_of_cons. tauto.
Qed.

Definition periodic (m : gmap Z view) (t : Z) : bool :=
  match m !! t with Some v => negb (auto_free v || one_shoot v) | None => false end.

(** The periodic timers that are restarted. *)
Definition again (item : list event → bool) (evs : list event) (m : gmap Z view) (fired : list Z) (t : Z) : bool :=
  periodic m t && item (until_call t (evs ++ timeouts m fired)).

Lemma restarts_filter item evs m fired : restarts item evs m fired = do_restart_tm <$> List.filter (again item evs m fired) fired.
Proof.
  unfold restarts, again, periodic, of_fired. generalize (timeouts m fired). intros l.
  induction fired as [|t fired IH]; simpl; [done|]. rewrite IH.
  destruct (m !! t) as [v|]; [|done]. by destruct (auto_free v || one_shoot v), (item _).
Qed.

Lemma restarts_in item evs m fired t :
  do_restart_tm t ∈ restarts item evs m fired ↔ t ∈ fired ∧ again item evs m fired t = true.
Proof.
  rewrite restarts_filter, list_elem_of_fmap. setoid_rewrite list_elem_of_In. setoid_rewrite filter_In.
  split; [by intros (? & [= ->] & ?)|eauto].
Qed.

Lemma restarts_ok item evs m fired : due_now m fired → inter_ok (spec_tick m) (restarts item evs m fired).
Proof.
  intros [Hnd Hdue]. eexists. rewrite restarts_filter. split; [done|]. split.
  { apply NoDup_ListNoDup, List.NoDup_filter. by apply NoDup_ListNoDup. }
  intros t [Hin [Hp _]%andb_true_iff]%list_elem_of_In%filter_In. apply list_elem_of_In, Hdue in Hin as (v & Hv & Hd).
  unfold periodic in Hp. rewrite Hv in Hp. exists (set_due v None). split; [|done].
  unfold spec_tick. rewrite lookup_omap, Hv. simpl. unfold spec_tick1. rewrite Hd. simpl.
  unfold expire. by destruct (auto_free v).
Qed.

(** C3: One tick of the timer thread implements the abstract tick.  If the
    deferred calls that are queued are legal (they name timers that exist and
    restart none that runs), the tick returns, keeps the wheel well formed,
    runs the calls in their order, calls the timeout of exactly the timers with
    no tick left, takes one tick from each of the others, frees the auto-free
    ones that expired, and queues a restart for exactly those periodic ones whose
    item [malloc] gives after their call, whatever it gives: a periodic timer
    whose item is refused stays idle; and the restarts it queues are legal in the
    tick after. *)
Theorem reltm_tick_refines callback item sb m e :
  wheel_ok sb → spec_calls (abs sb) (rel_inter_tsklets sb ++ rel_tsklets sb) = Some (m, e) →
  ∃ sb' fired, reltm_tick callback item sb = Returned sb' ∧ wheel_ok sb' ∧ due_now m fired ∧
    abs sb' = spec_tick m ∧ events sb' = events sb ++ e ++ timeouts m fired ∧
    rel_tsklets sb' = queued callback m fired ∧ rel_inter_tsklets sb' = restarts item (events sb ++ e) m fired ∧
    is_Some (spec_calls (abs sb') (rel_inter_tsklets sb')).
Proof.
  intros Hok Hs. destruct (reltm_tick_spec callback item sb m e Hok Hs) as (sb' & fired & H1 & H2 & Hd & Ha & H5 & H6 & Hi).
  exists sb', fired. split_and!; try done. rewrite Ha, Hi.
  destruct (restarts_ok item (events sb ++ e) m fired Hd) as (ts & -> & Hnd & Hidle).
  destruct (spec_calls_restart _ _ Hnd Hidle) as (m' & -> & _). done.
Qed.

(** ** Timers over time

    With clients that queue nothing in their timeout functions, the future of a
    timer depends on its own phase only: its view and whether a restart is
    queued for it; and on whether there is memory for its restarts. *)
#[global] Instance tsklet_eq_dec : EqDecision tsklet.
Proof. solve_decision. Defined.

Definition quiet (_ _ : Z) : list tsklet := [].

Definition fired_count (sb : sync_block_t) (t : Z) : Z := countP (is_timeout t) (events sb).

Definition phase : Type := option (view * bool).
Definition phase_of (sb : sync_block_t) (t : Z) : phase :=
  v ← abs sb !! t; Some (v, bool_decide (do_restart_tm t ∈ rel_inter_tsklets sb)).

(** What a tick does to the view a timer has once the deferred calls ran; [ok]
    is whether there is memory for its restart. *)
Definition serve_view (ok : bool) (v : view) : phase :=
  match v_due v with
  | None => Some (v, false)
  | Some r => if r =? 0
              then (if auto_free v then None else Some (set_due v None, negb (one_shoot v) && ok))
              else Some (set_due v (Some (r - 1)), false)
  end.
Definition hit_view (v : view) : Z := if bool_decide (v_due v = Some 0) then 1 else 0.

Definition resume (ph : view * bool) : view := if snd ph then restarted (fst ph) else fst ph.
Definition next (ok : bool) (ph : phase) : phase := p ← ph; serve_view ok (resume p).
Definition hit (ph : phase) : Z := match ph with Some p => hit_view (resume p) | None => 0 end.

(** The calls in a number of ticks, and the phase after them. *)
Fixpoint hits (oks : list bool) (ph : phase) : Z :=
  match oks with [] => 0 | ok :: oks' => hit ph + hits oks' (next ok ph) end.
Fixpoint after (oks : list bool) (ph : phase) : phase :=
  match oks with [] => ph | ok :: oks' => after oks' (next ok ph) end.

Lemma spec_calls_no_timeout t ks : ∀ m m' e,
  spec_calls m ks = Some (m', e) → Forall (λ e, is_timeout t e = false) e.
Proof.
  induction ks as [|k ks IH]; intros m m' e; simpl; [by intros [= <- <-]|].
  destruct (spec_call m k) as [[m1 e1]|] eqn:E1; [|done]. simpl.
  destruct (spec_calls m1 ks) as [[m2 e2]|] eqn:E2; [|done]. simpl. intros [= <- <-].
  apply Forall_app. split; [|by eapply IH].
  destruct k as [t' ?|t' [[]|]|t'|t']; simpl in E1; destruct (m !! t') as [v|]; try done; simpl in E1;
    try (simplify_eq; by repeat constructor). destruct (v_due v); simplify_eq. constructor.
Qed.

Lemma countP_other t l : Forall (λ e, is_timeout t e = false) l → countP (is_timeout t) l = 0.
Proof. induction 1 as [|e l He _ IH]; [done|]. by rewrite countP_cons, He, IH. Qed.

Lemma countP_timeouts m fired t :
  due_now m fired →
  countP (is_timeout t) (timeouts m fired) = match m !! t with Some v => hit_view v | None => 0 end.
Proof.
  intros [Hnd Hdue]. transitivity (if decide (t ∈ fired) then 1 else 0).
  - assert (∀ t, t ∈ fired → is_Some (m !! t)) as Hin by (intros t' (v & -> & _)%Hdue; done). clear Hdue.
    unfold timeouts, of_fired. induction Hnd as [|t' fired Hni _ IH]; simpl; [done|].
    rewrite countP_app. rewrite IH by (intros ??; apply Hin; by right).
    destruct (Hin t') as [v ->]; [apply list_elem_of_here|]. rewrite countP_cons. simpl. rewrite countP_nil.
    destruct (t' =? t) eqn:E; bool_to_prop.
    + subst t'. rewrite (decide_False (P := t ∈ fired)), decide_True by (done || apply list_elem_of_here). lia.
    + rewrite (decide_ext (t ∈ t' :: fired) (t ∈ fired) 1 0); [lia|]. rewrite elem_of_cons. intuition congruence.
  - unfold hit_view. destruct (m !! t) as [v|] eqn:E; case_decide as Hd; rewrite Hdue in Hd;
      try (destruct Hd as (v' & ? & ?); simplify_eq).
    + by rewrite bool_decide_true.
    + rewrite bool_decide_false; [done|]. naive_solver.
    + done.
Qed.

Lemma queued_quiet m fired : queued quiet m fired = [].
Proof. unfold queued, of_fired. induction fired as [|t fired IH]; simpl; [done|]. by destruct (m !! t). Qed.

Section Future.
(** Whether there is memory for the item of a restart. *)
Context (item : list event → bool).

(** Whether the last restart of a timer got its item. *)
Definition restart_got (sb : sync_block_t) (t : Z) : bool := item (until_call t (events sb)).

(** A tick of any system, seen from one timer. *)
Lemma tick_phase sb m e t :
  wheel_ok sb → spec_calls (abs sb) (rel_inter_tsklets sb ++ rel_tsklets sb) = Some (m, e) →
  ∃ sb', reltm_tick quiet item sb = Returned sb' ∧ wheel_ok sb' ∧ inter_ok (abs sb') (rel_inter_tsklets sb') ∧
    rel_tsklets sb' = [] ∧ phase_of sb' t = (v ← m !! t; serve_view (restart_got sb' t) v) ∧
    fired_count sb' t = fired_count sb t + match m !! t with Some v => hit_view v | None => 0 end ∧
    ((∀ v, m !! t = Some v → v_due v ≠ Some 0) → restart_got sb' t = restart_got sb t).
Proof.
  intros Hok Hs. destruct (reltm_tick_spec quiet item sb m e Hok Hs) as (sb' & fired & H1 & H2 & Hd & Ha & He & Hr & Hi).
  pose proof (spec_calls_no_timeout t _ _ _ _ Hs) as Hno. rewrite app_assoc in He.
  exists sb'. split_and!; try done.
  - rewrite Ha, Hi. by apply restarts_ok.
  - rewrite Hr. apply queued_quiet.
  - unfold phase_of, restart_got. rewrite Ha, Hi, He. unfold spec_tick. rewrite lookup_omap.
    destruct (m !! t) as [v|] eqn:E; [|done]. simpl. unfold spec_tick1, serve_view, expire.
    set (ok := item _).
    assert (do_restart_tm t ∈ restarts item (events sb ++ e) m fired ↔
            v_due v = Some 0 ∧ negb (auto_free v || one_shoot v) && ok = true) as Hin.
    { rewrite restarts_in, (proj2 Hd). unfold again, periodic. rewrite E. naive_solver. }
    rewrite (bool_decide_ext _ _ Hin). destruct (v_due v) as [r|]; [|done].
    destruct (r =? 0) eqn:E0; bool_to_prop; [subst r|].
    + destruct (auto_free v); [done|]. simpl. do 2 f_equal. by destruct (one_shoot v), ok.
    + simpl. do 2 f_equal. apply bool_decide_false. naive_solver.
  - unfold fired_count. rewrite He, !countP_app, (countP_other _ _ Hno), (countP_timeouts _ _ _ Hd). lia.
  - intros Hnd. unfold restart_got. rewrite He, until_call_other, until_call_app, until_call_none; [done..|].
    intros (v & Hv & H0)%(proj2 Hd). by destruct (Hnd v).
Qed.

Record ready (sb : sync_block_t) : Prop := {
  rd_wheel : wheel_ok sb;
  rd_inter : inter_ok (abs sb) (rel_inter_tsklets sb);
  rd_rel : rel_tsklets sb = []
}.

(** One tick of a timer: its phase goes on, with the memory there was. *)
Definition tick_of (sb sb' : sync_block_t) (t : Z) (ph : phase) : Prop :=
  phase_of sb' t = next (restart_got sb' t) ph ∧ fired_count sb' t = fired_count sb t + hit ph ∧
  (hit ph = 0 → restart_got sb' t = restart_got sb t).

Lemma hit_view_none v : hit_view v = 0 → v_due v ≠ Some 0.
Proof. unfold hit_view. case_bool_decide; [lia|done]. Qed.

Lemma quiet_tick sb t :
  ready sb → ∃ sb', reltm_tick quiet item sb = Returned sb' ∧ ready sb' ∧ tick_of sb sb' t (phase_of sb t).
Proof.
  intros [Hok (ts & Hi & Hnd & Hidle) Hrel]. destruct (spec_calls_restart _ _ Hnd Hidle) as (m & Hm & Hml).
  destruct (tick_phase sb m [] t Hok) as (sb' & ? & ? & ? & ? & Hph & Hc & Hg).
  { by rewrite Hi, Hrel, app_nil_r. }
  assert (m !! t = resume <$> phase_of sb t) as Hmt.
  { rewrite Hml. unfold phase_of. destruct (abs sb !! t) as [v|]; simpl; [|by case_decide].
    unfold resume. simpl. rewrite Hi. case_decide as Hd; simpl.
    - by rewrite bool_decide_true by (apply list_elem_of_fmap; eauto).
    - rewrite bool_decide_false; [done|]. intros (? & [= ->] & ?)%list_elem_of_fmap. done. }
  exists sb'. split_and!; [done|done|]. rewrite Hmt in Hph, Hc, Hg. unfold tick_of.
  destruct (phase_of sb t) as [p|]; simpl in *; split_and!; try done.
  - intros Hz. apply Hg. intros v [= <-]. by apply hit_view_none.
  - intros _. by apply Hg.
Qed.

(** A periodic timer is idle for good only when its last restart was refused. *)
Definition stopped_ok (sb : sync_block_t) (t : Z) : Prop :=
  ∀ v, phase_of sb t = Some (v, false) → v_due v = None → auto_free v || one_shoot v = false → restart_got sb t = false.

Lemma stopped_next sb sb' t p :
  (∀ v, resume p = v → v_due v = None → auto_free v || one_shoot v = false → restart_got sb t = false) →
  tick_of sb sb' t (Some p) → stopped_ok sb' t.
Proof.
  intros Hs (Hph & _ & Hg) w Hw Hwd Hwp. pose proof (proj1 (orb_false_iff _ _) Hwp) as [_ Hwo]. rewrite Hph in Hw. simpl in Hw, Hg. unfold serve_view, hit_view in *.
  destruct (v_due (resume p)) as [r|] eqn:Hd.
  - destruct (r =? 0); [|by simplify_eq].
    destruct (auto_free (resume p)) eqn:Ha; [done|]. injection Hw as <- Hb.
    change (one_shoot (set_due (resume p) None)) with (one_shoot (resume p)) in Hwo. rewrite Hwo in Hb. by destruct (restart_got sb' t).
  - rewrite Hg by (by rewrite bool_decide_false). injection Hw as <-. by apply (Hs _ eq_refl).
Qed.

Lemma quiet_run n : ∀ sb t,
  ready sb →
  ∃ sb' oks, reltm_trigger quiet item n sb = Returned sb' ∧ ready sb' ∧ (stopped_ok sb t → stopped_ok sb' t) ∧ length oks = n ∧
    phase_of sb' t = after oks (phase_of sb t) ∧ fired_count sb' t = fired_count sb t + hits oks (phase_of sb t).
Proof.
  induction n as [|n IH]; intros sb t Hr; simpl.
  { exists sb, []. split_and!; try done. simpl. lia. }
  destruct (quiet_tick sb t Hr) as (sb1 & -> & Hr1 & Ht). simpl.
  destruct (IH sb1 t Hr1) as (sb2 & oks & -> & Hr2 & Hst2 & Hl & Hph2 & Hc2).
  pose proof Ht as (Hph & Hc & _). exists sb2, (restart_got sb1 t :: oks). simpl. rewrite Hc2, Hc, Hph2, Hph.
  split_and!; [done|done| |lia|done|lia]. intros Hst. apply Hst2.
  destruct (phase_of sb t) as [[v b]|] eqn:E; [|intros w Hw; by rewrite Hph in Hw].
  apply (stopped_next sb sb1 t (v, b)); [|done]. intros w <-. destruct b; [done|]. intros. by apply (Hst v).
Qed.

Lemma effective_nonneg ttick : 1 ≤ ttick → 0 ≤ effective ttick.
Proof.
  intros H. rewrite effective_arith by done. pose proof (Z.mod_pos_bound ttick 1024).
  pose proof (Z.div_pos (ttick - 1) 1024). lia.
Qed.

(** Closed forms of the future of a timer. *)
Lemma hits_none oks : hits oks None = 0.
Proof. induction oks; simpl; [done|]. by rewrite IHoks. Qed.

Lemma idle_next ok v : v_due v = None → next ok (Some (v, false)) = Some (v, false).
Proof. intros Hv. unfold next, resume, serve_view. simpl. by rewrite Hv. Qed.

Lemma hits_idle oks v : v_due v = None → hits oks (Some (v, false)) = 0 ∧ after oks (Some (v, false)) = Some (v, false).
Proof.
  intros Hv. induction oks as [|ok oks [IH1 IH2]]; [done|]. cbn [hits after]. rewrite idle_next by done.
  split; [|done]. unfold hit, resume, hit_view. simpl. by rewrite Hv, IH1.
Qed.

Lemma hits_single oks : ∀ v r,
  v_due v = Some r → 0 ≤ r → auto_free v || one_shoot v = true →
  hits oks (Some (v, false)) = if Z.of_nat (length oks) <=? r then 0 else 1.
Proof.
  induction oks as [|ok oks IH]; intros v r Hv Hr Hm.
  { destruct (_ <=? r) eqn:E; bool_to_prop; [done|simpl in *; lia]. }
  cbn [hits hit next mbind option_bind length]. unfold resume, hit_view, serve_view. cbn [fst snd]. rewrite Hv.
  destruct (r =? 0) eqn:E0; bool_to_prop.
  - subst r. rewrite bool_decide_true by done. replace (_ <=? 0) with false by (symmetry; apply Z.leb_gt; lia).
    destruct (auto_free v); simpl in Hm; [by rewrite hits_none|]. rewrite Hm. cbn [negb andb].
    by rewrite (proj1 (hits_idle oks (set_due v None) eq_refl)).
  - rewrite bool_decide_false by congruence. rewrite (IH _ (r - 1)) by (done || lia).
    destruct (Z.of_nat (length oks) <=? r - 1) eqn:E1, (Z.of_nat (S (length oks)) <=? r) eqn:E2; bool_to_prop; lia.
Qed.

(** The calls of a periodic timer: all of them, or fewer and it has stopped. *)
Definition on_time (oks : list bool) (ph : phase) (v : view) (full : Z) : Prop :=
  let c := hits oks ph in c = full ∨ 0 < c < full ∧ after oks ph = Some (set_due v None, false).

Lemma hits_periodic oks : ∀ v e,
  e = effective (ticks_of (v_msec v)) → auto_free v || one_shoot v = false →
  on_time oks (Some (set_due v None, true)) v (Z.of_nat (length oks) / (e + 1)) ∧
  ∀ r, 0 ≤ r ≤ e → on_time oks (Some (set_due v (Some r), false)) v ((Z.of_nat (length oks) + e - r) / (e + 1)).
Proof.
  induction oks as [|ok oks IH]; intros v e He Hm.
  { split; [by left|]. intros r Hr. left. simpl. symmetry. apply Z.div_small. lia. }
  destruct (IH v e He Hm) as [IH1 IH2].
  assert (0 ≤ e) by (subst e; apply effective_nonneg, ticks_of_range).
  apply orb_false_iff in Hm as [Ha Ho]. set (n := Z.of_nat (length oks)) in *.
  replace (Z.of_nat (length (ok :: oks))) with (n + 1) by (subst n; cbn [length]; lia).
  assert (0 ≤ n / (e + 1)) by (apply Z.div_pos; lia).
  assert (∀ r, 0 ≤ r ≤ e → on_time (ok :: oks) (Some (set_due v (Some r), false)) v ((n + 1 + e - r) / (e + 1))) as Hdue.
  { intros r Hr. unfold on_time. cbn [hits after hit next mbind option_bind]. unfold resume, hit_view, serve_view. cbn [fst snd v_due set_due].
    destruct (r =? 0) eqn:E0; bool_to_prop.
    - subst r. rewrite bool_decide_true by done. unfold auto_free, one_shoot in *. cbn [v_mode set_due]. rewrite Ha, Ho.
      change (set_due (set_due v (Some 0)) None) with (set_due v None). cbn [negb andb].
      replace (n + 1 + e - 0) with (n + 1 * (e + 1)) by lia. rewrite Z.div_add by lia. destruct ok.
      + destruct IH1 as [IH1|[IH1 IHa]]; [left; lia|right; split; [lia|done]].
      + destruct (hits_idle oks (set_due v None) eq_refl) as [-> ->].
        destruct (Z.eq_dec (n / (e + 1)) 0); [left; lia|right; split; [lia|done]].
    - rewrite bool_decide_false by congruence.
      change (set_due (set_due v (Some r)) (Some (r - 1))) with (set_due v (Some (r - 1))).
      rewrite Z.add_0_l. replace (n + 1 + e - r) with (n + e - (r - 1)) by lia. apply IH2. lia. }
  split; [|done]. replace (n + 1) with (n + 1 + e - e) by lia. specialize (Hdue e ltac:(lia)).
  unfold on_time in *. cbn [hits after hit next mbind option_bind] in *. unfold resume in *. cbn [fst snd] in *.
  unfold restarted. cbn [v_msec set_due]. rewrite <- He. exact Hdue.
Qed.

(** The first tick after a start or a stop: the call sets the view to [g w]. *)
Lemma call_tick sb t v k g e :
  ready sb → abs sb !! t = Some v →
  (∀ m w, m !! t = Some w → spec_call m k = Some (<[t := g w]> m, e)) →
  ∃ sb' w, reltm_tick quiet item (set_rel sb [k]) = Returned sb' ∧ ready sb' ∧
    v_func w = v_func v ∧ v_mode w = v_mode v ∧ tick_of sb sb' t (Some (g w, false)).
Proof.
  intros [Hok (ts & Hi & Hnd & Hidle) Hrel] Hv Hk.
  destruct (spec_calls_restart _ _ Hnd Hidle) as (m & Hm & Hml).
  assert (∃ w, m !! t = Some w ∧ v_func w = v_func v ∧ v_mode w = v_mode v) as (w & Hw & Hwf & Hwm).
  { rewrite Hml, Hv. case_decide; simpl; eauto. }
  destruct (tick_phase (set_rel sb [k]) (<[t := g w]> m) e t) as (sb' & ? & ? & ? & ? & Hph & Hc & Hg).
  { by apply (wheel_ok_ext sb). }
  { cbn [rel_inter_tsklets rel_tsklets set_rel]. change (abs (set_rel _ _)) with (abs sb).
    rewrite spec_calls_app, Hi, Hm. cbn [mbind option_bind spec_calls]. rewrite (Hk _ _ Hw). simpl. by rewrite app_nil_r. }
  exists sb', w. rewrite lookup_insert_eq in Hph, Hc, Hg. split_and!; try done. split_and!; try done.
  intros Hz. apply Hg. intros v' [= <-]. by apply hit_view_none.
Qed.

(** From a queued call on, [n] ticks of it. *)
Lemma call_run sb t v k g e n :
  ready sb → abs sb !! t = Some v →
  (∀ m w, m !! t = Some w → spec_call m k = Some (<[t := g w]> m, e)) →
  ∃ sb' w oks, reltm_trigger quiet item n (set_rel sb [k]) = Returned sb' ∧ ready (set_rel sb' []) ∧
    v_func w = v_func v ∧ v_mode w = v_mode v ∧ length oks = n ∧
    fired_count sb' t = fired_count sb t + hits oks (Some (g w, false)) ∧
    (v_due (g w) ≠ None → n ≠ O → stopped_ok sb' t ∧ phase_of sb' t = after oks (Some (g w, false))).
Proof.
  intros Hr Hv Hk. destruct n as [|n]; cbn [reltm_trigger].
  { exists (set_rel sb [k]), v, []. split_and!; try done; [|simpl; unfold fired_count; simpl; lia].
    destruct Hr. split; [by apply (wheel_ok_ext sb)|done|done]. }
  destruct (call_tick sb t v k g e Hr Hv Hk) as (sb1 & w & -> & Hr1 & Hwf & Hwm & Ht). cbn [obind].
  destruct (quiet_run n sb1 t Hr1) as (sb2 & oks & -> & Hr2 & Hst2 & Hl & Hph2 & Hc2).
  pose proof Ht as (Hph & Hc & _). exists sb2, w, (restart_got sb1 t :: oks). cbn [hits after length].
  split_and!; [done| |done|done|lia|rewrite Hc2, Hc, Hph; lia|].
  - destruct Hr2. split; [by apply (wheel_ok_ext sb2)|done|done].
  - intros Hd _. split; [|by rewrite Hph2, Hph]. apply Hst2, (stopped_next sb sb1 t (g w, false)); [|done]. by intros ? <-.
Qed.

(** The ticks of a number of milliseconds, in 32 bits. *)
Lemma ticks_of_max ms : ticks_of ms = Z.max 1 (u32 (ms + 5) / 10).
Proof.
  unfold ticks_of. change (MSEC_PER_TICK / 2) with 5. change MSEC_PER_TICK with 10.
  pose proof (u32_range (ms + 5)). pose proof (Z.div_pos (u32 (ms + 5)) 10). destruct (_ =? 0) eqn:E; bool_to_prop; lia.
Qed.

(** C23: A timer fires on time.  Start any existing timer with [ms]
    milliseconds, with clients whose timeout functions queue no further calls.
    Let [ticks] be those milliseconds in ticks of ten, rounded, at least one and
    computed in 32 bits, so that the last five values of [ms] wrap to one tick;
    and [e] the ticks the wheel waits, a whole turn less when [ticks] is a
    multiple of the turn.  Any number [n] of ticks later the timer thread is
    still running.  A one-shot or auto-free timer was not called in the first
    [e] ticks and was called exactly once in all later ones; [ms] of 0 is called in the
    second tick.  A timer that restarts by itself was called once in each
    period of [e + 1] ticks, for as long as [malloc] gives the item of its
    restart: if it was called less often, [malloc] refused the item after its last
    call.  Other timers may run beside it. *)
Theorem petimer_fires_on_time sb t v ms a n sb0 :
  ready sb → abs sb !! t = Some v → petimer_start_reltimer true true sb t ms a = (0, sb0) →
  let ticks := Z.max 1 (u32 (ms + 5) / 10) in
  let e := if ticks mod 1024 =? 0 then ticks - 1024 else ticks in
  ∃ sb' c, reltm_trigger quiet item n sb0 = Returned sb' ∧ ready (set_rel sb' []) ∧ fired_count sb' t = fired_count sb t + c ∧
    if auto_free v || one_shoot v then c = (if Z.of_nat n <=? e then 0 else 1)
    else let full := Z.of_nat n / (e + 1) in c = full ∨ 0 < c < full ∧ item (until_call t (events sb')) = false.
Proof.
  intros Hr Hv Hs ticks e. unfold petimer_start_reltimer, invoke_rel, tsklet_invokelater in Hs. simpl in Hs.
  rewrite (rd_rel _ Hr) in Hs. injection Hs as <-.
  assert (e = effective (ticks_of ms)) as He by (by rewrite ticks_of_max). clearbody e.
  destruct (call_run sb t v (do_start_tm t ms a) (λ w, mkView ms (v_func w) a (v_mode w) (Some e)) [] n Hr Hv)
    as (sb' & w & oks & ? & ? & Hwf & Hwm & Hl & Hc & Hend).
  { intros m w Hw. simpl. by rewrite Hw, He. }
  exists sb', (hits oks (Some (mkView ms (v_func w) a (v_mode w) (Some e), false))). split_and!; [done|done|done|].
  rewrite Hwf, Hwm in *. assert (0 ≤ e) as He0 by (subst e; apply effective_nonneg, ticks_of_range).
  destruct (auto_free v || one_shoot v) eqn:Hm; [rewrite <- Hl; by apply hits_single|].
  destruct (hits_periodic oks (mkView ms (v_func v) a (v_mode v) None) e He Hm) as [_ Hh].
  specialize (Hh e ltac:(lia)). unfold on_time, set_due in Hh. simpl in Hh. rewrite Hl in Hh.
  replace (Z.of_nat n + e - e) with (Z.of_nat n) in Hh by lia.
  destruct Hh as [Hh|[Hh Ha]]; [by left|]. right.
  assert (n ≠ O) as Hn by (intros ->; rewrite Z.div_0_l in Hh; lia).
  destruct (Hend ltac:(done) Hn) as [Hst Hph]. rewrite Ha in Hph. split; [lia|]. by apply (Hst _ Hph).
Qed.
End Future.

(** A stopped timer does not fire.  From the tick in which the stop runs
    on, whatever its mode and even when its restart was queued already, the
    timer is not called any more, for any number of ticks. *)
Theorem petimer_stop_silences item sb t v fin n sb0 :
  ready sb → abs sb !! t = Some v → petimer_stop_reltimer_safe true true sb t fin = (0, sb0) →
  ∃ sb', reltm_trigger quiet item n sb0 = Returned sb' ∧ ready (set_rel sb' []) ∧ fired_count sb' t = fired_count sb t.
Proof.
  intros Hr Hv Hs. unfold petimer_stop_reltimer_safe, invoke_rel, tsklet_invokelater in Hs. simpl in Hs.
  rewrite (rd_rel _ Hr) in Hs. injection Hs as <-.
  destruct (call_run item sb t v (do_stop_tm t fin) (λ w, set_due w None)
              (match fin with Some (f, a) => [Finalized f a] | None => [] end) n Hr Hv)
    as (sb' & w & oks & ? & ? & _ & _ & _ & Hc & _).
  { intros m w Hw. simpl. by rewrite Hw. }
  exists sb'. split_and!; [done|done|]. rewrite Hc, (proj1 (hits_idle oks (set_due w None) eq_refl)). lia.
Qed.

(** The states a program reaches first. *)
Lemma init_ready : ready init_reltm.
Proof.
  assert (∀ l i, ents init_reltm l i = []) as He
    by (intros [] i; unfold ents, entries; simpl; by rewrite lookup_empty).
  assert (∀ t l i, ¬ linked init_reltm t l i) as Hl by (intros t l i (? & ? & _); done).
  split; [split| |done].
  - done.
  - intros t l i H. by apply Hl in H.
  - intros l i t. rewrite He. split; [by intros ?%elem_of_nil|by intros ?%Hl].
  - intros l i. rewrite He. constructor.
  - intros i. rewrite He. constructor.
  - intros i. by rewrite He.
  - exists []. split_and!; [done|constructor|]. by intros t ?%elem_of_nil.
Qed.

Lemma create_ready sb t func m :
  ready sb → timers sb !! t = None → func ≠ 0 →
  ∃ sb', petimer_create_reltimer sb (Some t) func m = (Some t, sb') ∧ ready sb' ∧
    abs sb' = <[t := mkView 0 func 0 (Z.land m 0xFF) None]> (abs sb).
Proof.
  intros [Hok (ts & Hi & Hnd & Hidle) Hrel] Ht Hf. unfold petimer_create_reltimer.
  destruct (func =? 0) eqn:E; bool_to_prop; [done|]. eexists. split; [done|]. set (sb' := set_timers _ _).
  assert (abs sb' = <[t := mkView 0 func 0 (Z.land m 0xFF) None]> (abs sb)) as Ha.
  { erewrite abs_insert; [|done|].
    - do 2 f_equal. eapply remaining_idle; [simpl; by rewrite lookup_insert_eq|done].
    - intros t' Hne. apply remaining_timers. by rewrite lookup_insert_ne. }
  split; [|done]. split; [|exists ts|done].
  - apply (wheel_ok_ext sb); try done. intros t' l i. rewrite linked_insert by done.
    destruct (decide (t' = t)) as [->|Hne]; [|naive_solver]. simpl.
    split; [naive_solver|]. intros (? & ? & _). congruence.
  - split_and!; [done|done|]. intros t' Hin. destruct (Hidle t' Hin) as (v & Hv & Hd). exists v.
    rewrite Ha, lookup_insert_ne; [done|]. intros ->. rewrite abs_lookup, Ht in Hv. done.
Qed.

(** A program with one timer, for the concrete runs. *)
Definition one_timer (m : Z) : sync_block_t := snd (petimer_create_reltimer init_reltm (Some 100) 7 m).
Definition started (m ms : Z) : sync_block_t := snd (petimer_start_reltimer true true (one_timer m) 100 ms 0).
Definition enough : list event → bool := λ _, true.
Definition fired_after (item : list event → bool) (m ms : Z) (n : nat) : option Z :=
  match reltm_trigger quiet item n (started m ms) with
  | Returned sb => Some (fired_count sb 100)
  | _ => None
  end.

Lemma one_timer_ready m : ready (one_timer m).
Proof.
  destruct (create_ready init_reltm 100 7 m init_ready) as (sb' & E & Hr & _); [done|done|].
  unfold one_timer. by rewrite E.
Qed.

Lemma petimer_fires_on_time_witness :
  ∃ sb', reltm_trigger quiet enough 9 (started 0 20) = Returned sb' ∧ fired_count sb' 100 = 3.
Proof.
  destruct (petimer_fires_on_time enough (one_timer 0) 100 (mkView 0 7 0 0 None) 20 0 9 (started 0 20)
              (one_timer_ready 0) eq_refl eq_refl) as (sb' & c & H & _ & Hc & Hfull).
  exists sb'. split; [exact H|]. rewrite Hc. destruct Hfull as [->|[_ Hno]]; [reflexivity|discriminate Hno].
Defined.

Lemma petimer_stop_silences_witness :
  ∃ sb', reltm_trigger quiet enough 3 (snd (petimer_stop_reltimer_safe true true (one_timer 0) 100 None)) = Returned sb'
    ∧ fired_count sb' 100 = 0.
Proof.
  destruct (petimer_stop_silences enough (one_timer 0) 100 (mkView 0 7 0 0 None) None 3
              (snd (petimer_stop_reltimer_safe true true (one_timer 0) 100 None))
              (one_timer_ready 0) eq_refl eq_refl) as (sb' & H & _ & Hc).
  exists sb'. split; [exact H|]. rewrite Hc. reflexivity.
Defined.

Lemma reltm_tick_refines_witness :
  ∃ sb', reltm_tick quiet enough (started 1 10) = Returned sb' ∧ wheel_ok sb'.
Proof.
  assert (wheel_ok (started 1 10)) as Hok by (apply (wheel_ok_ext (one_timer 1)); try done; apply one_timer_ready).
  destruct (reltm_tick_refines quiet enough (started 1 10)
    (<[100 := mkView 10 7 0 1 (Some 1)]> (abs (one_timer 1))) [] Hok) as (sb' & fired & H & Hok' & _).
  - vm_compute. reflexivity.
  - exists sb'. split; assumption.
Defined.

(** A whole turn of the wheel is lost.  A one-shot timer of 10.24 seconds,
    1024 ticks, fires in the tick that starts it, and one of 20.48 seconds
    after half its time, while a timer one tick shorter waits as long as it
    should: 1023 ticks without a call, then one. *)
Theorem petimer_turn_lost :
  fired_after enough PETF_ONE_SHOOT 10240 1 = Some 1 ∧
  fired_after enough PETF_ONE_SHOOT 10230 1023 = Some 0 ∧ fired_after enough PETF_ONE_SHOOT 10230 1024 = Some 1 ∧
  fired_after enough PETF_ONE_SHOOT 20480 1024 = Some 0 ∧ fired_after enough PETF_ONE_SHOOT 20480 1025 = Some 1.
Proof. vm_compute. done. Qed.

(** The restart of a periodic timer is lost when [malloc] refuses its item: nobody
    is told, and the timer is never called again. *)
Theorem petimer_restart_lost :
  fired_after enough 0 20 9 = Some 3 ∧ fired_after (λ evs, negb (length evs =? 2)%nat) 0 20 9 = Some 2 ∧
  fired_after (λ evs, negb (length evs =? 2)%nat) 0 20 90 = Some 2.
Proof. vm_compute. done. Qed.

(** Milliseconds of which the last wrap: almost fifty days is one tick. *)
Theorem petimer_wraps : fired_after enough PETF_ONE_SHOOT (2 ^ 32 - 1) 2 = Some 1 ∧ fired_after enough PETF_ONE_SHOOT 0 1 = Some 0.
Proof. vm_compute. done. Qed.

(** ** Hooks *)

Definition calls_of (h : Z) (calls : list (Z * Z)) : list (Z * Z) := List.filter (λ c, fst c =? h) calls.

Lemma trigger_timer_calls esc hooks i :
  NoDup (hook <$> hooks) → i ∈ hooks →
  let '(hooks', calls) := trigger_timer esc hooks in
  hook <$> hooks' = hook <$> hooks ∧
  (if interval i <=? escape i + esc
   then mkHook (hook i) (interval i) 0 ∈ hooks' ∧ calls_of (hook i) calls = [(hook i, escape i + esc)]
   else mkHook (hook i) (interval i) (escape i + esc) ∈ hooks' ∧ calls_of (hook i) calls = []).
Proof.
  assert (∀ hooks h, h ∉ hook <$> hooks → calls_of h (snd (trigger_timer esc hooks)) = []) as Hother.
  { intros hs h. induction hs as [|j hs IH]; [done|]. simpl. rewrite not_elem_of_cons. intros [Hne Hni].
    specialize (IH Hni). destruct (trigger_timer esc hs) as [hs' calls]. simpl in *.
    destruct (interval j <=? escape j + esc); simpl; [|done].
    by replace (hook j =? h) with false by (symmetry; apply Z.eqb_neq; congruence). }
  induction hooks as [|j hooks IH]; [by intros _ ?%elem_of_nil|].
  simpl. intros [Hj Hnd]%NoDup_cons Hi. pose proof (Hother hooks (hook j) Hj) as Ho.
  assert (hook <$> fst (trigger_timer esc hooks) = hook <$> hooks) as Hfst.
  { clear. induction hooks as [|j hs IH]; [done|]. simpl. destruct (trigger_timer esc hs). simpl in *.
    destruct (interval j <=? _); simpl; by f_equal. }
  apply elem_of_cons in Hi as [->|Hi].
  - destruct (trigger_timer esc hooks) as [hs' calls]. simpl in *.
    destruct (interval j <=? escape j + esc); simpl; rewrite ?Z.eqb_refl, ?Ho;
      split_and!; try done; try (by f_equal); apply list_elem_of_here.
  - specialize (IH Hnd Hi). assert (hook j ≠ hook i) as Hh by (intros Heq; apply Hj; rewrite Heq; by apply list_elem_of_fmap_2).
    destruct (trigger_timer esc hooks) as [hs' calls]. simpl in *. destruct IH as [_ IH].
    apply Z.eqb_neq in Hh.
    destruct (interval j <=? escape j + esc), (interval i <=? escape i + esc); destruct IH as [IH1 IH2];
      simpl; rewrite ?Hh, ?IH2; split_and!; try done; try (by f_equal); by right.
Qed.

(** The hooks of the timer thread.  A hook registered with interval [k]
    is called once in every [k] turns of the thread and told that [k] ticks
    passed, whatever other hooks are registered. *)
Theorem petimer_hook_period n hooks i :
  NoDup (hook <$> hooks) → i ∈ hooks → escape i = 0 → 0 < interval i →
  calls_of (hook i) (snd (petimer n hooks)) = repeat (hook i, interval i) (Z.to_nat (Z.of_nat n / interval i)).
Proof.
  intros Hnd Hi He Hk.
  assert (∀ n hooks i, NoDup (hook <$> hooks) → i ∈ hooks → 0 ≤ escape i < interval i →
    calls_of (hook i) (snd (petimer n hooks))
    = repeat (hook i, interval i) (Z.to_nat ((Z.of_nat n + escape i) / interval i))) as H.
  2: { rewrite (H n hooks i Hnd Hi) by lia. by rewrite He, Z.add_0_r. }
  clear. induction n as [|n IH]; intros hooks i Hnd Hi He.
  { simpl. rewrite Z.div_small by lia. done. }
  cbn [petimer]. pose proof (trigger_timer_calls 1 hooks i Hnd Hi) as Ht.
  destruct (trigger_timer 1 hooks) as [hs calls] eqn:E. destruct Ht as [Hfst Ht].
  assert (NoDup (hook <$> hs)) as Hnd' by (by rewrite Hfst).
  destruct (interval i <=? escape i + 1) eqn:Ei; bool_to_prop; destruct Ht as [Hin Hcalls];
    pose proof (IH hs _ Hnd' Hin) as IHi; cbn [hook interval escape] in IHi;
    destruct (petimer n hs) as [hs2 calls2]; cbn [snd] in *; unfold calls_of in *;
    rewrite List.filter_app, Hcalls, IHi by lia.
  - replace (escape i + 1) with (interval i) by lia.
    replace (Z.of_nat (S n) + escape i) with (Z.of_nat n + 0 + 1 * interval i) by lia.
    rewrite Z.div_add by lia. assert (0 ≤ (Z.of_nat n + 0) / interval i) by (apply Z.div_pos; lia).
    rewrite Z2Nat.inj_add by lia. rewrite Nat.add_comm. done.
  - simpl. do 3 f_equal. lia.
Qed.

Lemma petimer_hook_period_witness :
  calls_of 5 (snd (petimer 7 [mkHook 5 3 0; mkHook 6 1 0])) = [(5, 3); (5, 3)].
Proof.
  exact (petimer_hook_period 7 [mkHook 5 3 0; mkHook 6 1 0] (mkHook 5 3 0)
    ltac:(apply (bool_decide_unpack _); vm_compute; exact I) (list_elem_of_here _ _) eq_refl eq_refl).
Defined.

End PT.
