(* ===== verification/XMem.v ===== *)
(** The buffer allocator of [xmem.c].  A buffer is cut into nodes, each a
    header of 8 bytes with the length of the area behind it; the free nodes are
    on a list in no particular order.  Freeing merges a node with one free
    neighbour. *)

From S2P Require Import Prelude.

Module XM.

Definition SIZEOF_content_t : Z := 8.
Definition GARBAGE_LEN_THRESHOLD : Z := 20.
Definition STATUS_UNAVAILABLE : Z := -1.
Definition STATUS_AVAILABLE : Z := 0.
Definition MEM_ALIGN_SIZE (size : Z) : Z := Z.land (u32 (size + 3)) 0xFFFFFFFC.

(** [ALLOC_OBJ_S].  [heads] are the headers in the buffer that head a node,
    free or handed out, by address, with their [len]; [free_list] are the
    addresses on the list.  A header that became part of a larger free area
    heads nothing any more. *)
Record ALLOC_OBJ_S := mkObj {
  buffer : Z;
  buf_len : Z;
  free_list : list Z;
  heads : gmap Z Z;
  status : Z;
  modid : Z;
  alloc_times : Z;
  free_times : Z
}.

Definition set_list (o : ALLOC_OBJ_S) (l : list Z) (h : gmap Z Z) : ALLOC_OBJ_S :=
  mkObj (buffer o) (buf_len o) l h (status o) (modid o) (alloc_times o) (free_times o).
Definition set_status (o : ALLOC_OBJ_S) (s : Z) : ALLOC_OBJ_S :=
  mkObj (buffer o) (buf_len o) (free_list o) (heads o) s (modid o) (alloc_times o) (free_times o).
Definition count_alloc (o : ALLOC_OBJ_S) : ALLOC_OBJ_S :=
  mkObj (buffer o) (buf_len o) (free_list o) (heads o) (status o) (modid o) (u32 (alloc_times o + 1)) (free_times o).
Definition count_free (o : ALLOC_OBJ_S) : ALLOC_OBJ_S :=
  mkObj (buffer o) (buf_len o) (free_list o) (heads o) (status o) (modid o) (alloc_times o) (u32 (free_times o + 1)).

(** The search of [alloc_content]: a node within the limit at once, else the
    shortest one that is long enough, the first of them. *)
Fixpoint scan (h : gmap Z Z) (len len_limit1 : Z) (l : list Z) (best : option (Z * Z))
  : outcome (Z + option (Z * Z)) :=
  match l with
  | [] => Returned (inr best)
  | node :: l' =>
      let! n := oderef (h !! node) in
      if len <=? n
      then if n <=? len_limit1 then Returned (inl node)
           else scan h len len_limit1 l'
                  (match best with
                   | None => Some (node, n)
                   | Some (_, m) => if n <? m then Some (node, n) else best
                   end)
      else scan h len len_limit1 l' best
  end.

(** Unlinking a node from the list. *)
Fixpoint unlink (a : Z) (l : list Z) : list Z :=
  match l with [] => [] | x :: l' => if x =? a then l' else x :: unlink a l' end.

(** [alloc_content]: the node, the list and the headers. *)
Definition alloc_content (l : list Z) (h : gmap Z Z) (len : Z) : outcome (option Z * list Z * gmap Z Z) :=
  let len_limit1 := u32 (len + GARBAGE_LEN_THRESHOLD) in
  let size := MEM_ALIGN_SIZE (u32 (len + SIZEOF_content_t)) in
  let len_limit2 := u32 (size + 2 * GARBAGE_LEN_THRESHOLD) in
  let! r := scan h len len_limit1 l None in
  match r with
  | inl node => Returned (Some node, unlink node l, h)
  | inr None => Returned (None, l, h)
  | inr (Some (node, n)) =>
      if len_limit2 <=? n
      then let rest := u32 (n - size) in
           let new_node := u32 (node + SIZEOF_content_t + rest) in
           Returned (Some new_node, l, <[new_node := u32 (size - SIZEOF_content_t)]> (<[node := rest]> h))
      else Returned (Some node, unlink node l, h)
  end.

(** [defrag_content]: the free list is walked for a neighbour of the node. *)
Fixpoint defrag_content (h : gmap Z Z) (node n : Z) (l : list Z) : outcome (option (list Z * gmap Z Z)) :=
  match l with
  | [] => Returned None
  | x :: l' =>
      let! m := oderef (h !! x) in
      if u32 (x + SIZEOF_content_t + m) =? node
      then Returned (Some (l, <[x := u32 (m + (SIZEOF_content_t + n))]> (delete node h)))
      else if u32 (node + SIZEOF_content_t + n) =? x
      then Returned (Some (node :: l', <[node := u32 (n + (SIZEOF_content_t + m))]> (delete x h)))
      else let! r := defrag_content h node n l' in
           Returned (match r with Some (l2, h2) => Some (x :: l2, h2) | None => None end)
  end.

(** [free_content]. *)
Definition free_content (l : list Z) (h : gmap Z Z) (node : Z) : outcome (list Z * gmap Z Z) :=
  let! n := oderef (h !! node) in
  let! r := defrag_content h node n l in
  Returned (match r with Some lh => lh | None => (node :: l, h) end).

(** [x_alloc]: 0 is [NULL]. *)
Definition x_alloc (o : ALLOC_OBJ_S) (size : Z) : outcome (Z * ALLOC_OBJ_S) :=
  let! (r, l, h) := alloc_content (free_list o) (heads o) size in
  match r with
  | Some node => Returned (u32 (node + SIZEOF_content_t), count_alloc (set_list o l h))
  | None => Returned (0, set_status o STATUS_UNAVAILABLE)
  end.

Definition x_free (o : ALLOC_OBJ_S) (addr : Z) : outcome (Z * ALLOC_OBJ_S) :=
  if addr =? 0 then Returned (-1, o)
  else let! (l, h) := free_content (free_list o) (heads o) (u32 (addr - SIZEOF_content_t)) in
       Returned (0, count_free (set_status (set_list o l h) STATUS_AVAILABLE)).

(** [x_init_mem]; the arguments answer the two allocations. *)
Definition x_init_mem (obj_ok : bool) (buf : option Z) (modid buf_len : Z) : option ALLOC_OBJ_S :=
  if buf_len <? SIZEOF_content_t then None
  else if negb obj_ok then None
  else b ← buf;
       Some (mkObj b buf_len [b] {[ b := u32 (buf_len - SIZEOF_content_t) ]} STATUS_AVAILABLE modid 0 0).

Definition x_reset_mem (o : ALLOC_OBJ_S) : Z * ALLOC_OBJ_S :=
  (HI_SUCCESS, set_status (set_list o [buffer o] {[ buffer o := u32 (buf_len o - SIZEOF_content_t) ]}) STATUS_AVAILABLE).

(** [x_release_mem]: what the object holds when it is freed, after the buffer. *)
Definition x_release_mem (o : ALLOC_OBJ_S) : Z * ALLOC_OBJ_S :=
  (HI_SUCCESS, mkObj 0 0 [] ∅ STATUS_UNAVAILABLE (modid o) (alloc_times o) (free_times o)).

Definition x_get_mem_status (o : ALLOC_OBJ_S) : Z := status o.

(** [x_get_free_mem_info]: the sum of the lengths and the number of the free
    nodes. *)
Fixpoint free_info (h : gmap Z Z) (l : list Z) (size num : Z) : outcome (Z * Z) :=
  match l with
  | [] => Returned (size, num)
  | x :: l' => let! n := oderef (h !! x) in free_info h l' (u32 (size + n)) (u32 (num + 1))
  end.
Definition x_get_free_mem_info (o : ALLOC_OBJ_S) : outcome (Z * Z) := free_info (heads o) (free_list o) 0 0.

(** ** Invariant: the nodes tile the buffer *)

Fixpoint tiles (lo hi : Z) (bs : list (Z * Z)) : Prop :=
  match bs with
  | [] => lo = hi
  | (a, n) :: bs' => a = lo ∧ 0 ≤ n ∧ tiles (a + 8 + n) hi bs'
  end.

Record wf_with (bs : list (Z * Z)) (o : ALLOC_OBJ_S) : Prop := {
  wf_tiles : tiles (buffer o) (buffer o + buf_len o) bs;
  wf_heads : ∀ a n, heads o !! a = Some n ↔ (a, n) ∈ bs;
  wf_list : NoDup (free_list o);
  wf_free : ∀ a, a ∈ free_list o → is_Some (heads o !! a);
  wf_addr : 0 < buffer o ∧ buffer o + buf_len o < 2 ^ 32;
  wf_size : 8 ≤ buf_len o < 2 ^ 31
}.
Definition wf (o : ALLOC_OBJ_S) : Prop := ∃ bs, wf_with bs o.

(** A node that is handed out, with the length of its area. *)
Definition live (o : ALLOC_OBJ_S) (a n : Z) : Prop := heads o !! a = Some n ∧ a ∉ free_list o.

Lemma tiles_bounds lo hi bs a n : tiles lo hi bs → (a, n) ∈ bs → lo ≤ a ∧ a + 8 + n ≤ hi ∧ 0 ≤ n.
Proof.
  revert lo. induction bs as [|[b m] bs IH]; intros lo; simpl; [by intros _ ?%elem_of_nil|].
  intros (-> & Hm & Ht). rewrite elem_of_cons.
  assert (∀ l h' (b' : list (Z * Z)), tiles l h' b' → l ≤ h') as Hle.
  { intros l h' b'. revert l. induction b' as [|[c k] b' IHb]; intros l; simpl; [lia|].
    intros (-> & Hk & H). specialize (IHb _ H). lia. }
  intros [[= -> ->]|Hin].
  - specialize (Hle _ _ _ Ht). lia.
  - specialize (IH _ Ht Hin). lia.
Qed.

Lemma tiles_nodup lo hi bs : tiles lo hi bs → NoDup bs.*1.
Proof.
  revert lo. induction bs as [|[b m] bs IH]; intros lo; simpl; [constructor|]. intros (-> & Hm & Ht).
  apply NoDup_cons. split; [|by eapply IH]. intros ([a n] & Heq & Hin)%list_elem_of_fmap. simpl in Heq.
  pose proof (tiles_bounds _ _ _ _ _ Ht Hin). lia.
Qed.

Lemma tiles_app lo hi l1 l2 : tiles lo hi (l1 ++ l2) ↔ ∃ mid, tiles lo mid l1 ∧ tiles mid hi l2.
Proof.
  revert lo. induction l1 as [|[a n] l1 IH]; intros lo; simpl.
  - split; [eauto|]. by intros (? & -> & ?).
  - rewrite IH. naive_solver.
Qed.

(** Areas of different nodes do not overlap. *)
Lemma tiles_disjoint lo hi bs a n b m :
  tiles lo hi bs → (a, n) ∈ bs → (b, m) ∈ bs → a ≠ b → a + 8 + n ≤ b ∨ b + 8 + m ≤ a.
Proof.
  intros Ht Ha Hb Hne. apply list_elem_of_split in Ha as (l1 & l2 & ->).
  apply tiles_app in Ht as (mid & Ht1 & Ht2). simpl in Ht2. destruct Ht2 as (-> & Hn & Ht2).
  rewrite elem_of_app, elem_of_cons in Hb. destruct Hb as [Hb|[[= -> ->]|Hb]]; [|done|].
  - right. pose proof (tiles_bounds _ _ _ _ _ Ht1 Hb). lia.
  - left. pose proof (tiles_bounds _ _ _ _ _ Ht2 Hb). lia.
Qed.

Lemma tiles_split lo hi l1 a n l2 s :
  tiles lo hi (l1 ++ (a, n) :: l2) → 8 ≤ s ≤ n →
  tiles lo hi (l1 ++ (a, n - s) :: (a + 8 + (n - s), s - 8) :: l2).
Proof.
  rewrite !tiles_app. intros (mid & H1 & (-> & Hn & H2)) Hs. exists mid. split; [done|]. simpl.
  split_and!; [done|lia|done|lia|]. by replace (mid + 8 + (n - s) + 8 + (s - 8)) with (mid + 8 + n) by lia.
Qed.

Lemma tiles_merge lo hi l1 a n b m l2 :
  tiles lo hi (l1 ++ (a, n) :: (b, m) :: l2) → tiles lo hi (l1 ++ (a, n + (8 + m)) :: l2).
Proof.
  rewrite !tiles_app. intros (mid & H1 & (-> & Hn & -> & Hm & H2)). exists mid. split; [done|]. simpl.
  split_and!; [done|lia|]. by replace (mid + 8 + (n + (8 + m))) with (mid + 8 + n + 8 + m) by lia.
Qed.

(** Nodes that touch in the buffer are neighbours in the tiling. *)
Lemma tiles_adjacent lo hi bs a n b m :
  tiles lo hi bs → (a, n) ∈ bs → (b, m) ∈ bs → a + 8 + n = b → ∃ l1 l2, bs = l1 ++ (a, n) :: (b, m) :: l2.
Proof.
  intros Ht Ha Hb Heq. pose proof (tiles_bounds _ _ _ _ _ Ht Ha) as Hba.
  pose proof (tiles_bounds _ _ _ _ _ Ht Hb) as Hbb. pose proof (tiles_nodup _ _ _ Ht) as Hnd.
  apply list_elem_of_split in Ha as (l1 & l2 & ->). apply tiles_app in Ht as (mid & Ht1 & (-> & _ & Ht2)).
  destruct l2 as [|[c k] l2]; simpl in Ht2; [lia|]. destruct Ht2 as (Hc & _ & _).
  assert (k = m) as ->; [|exists l1, l2; congruence].
  eapply (NoDup_fst_inj _ b); [exact Hnd| |done]. rewrite elem_of_app, !elem_of_cons. right; right; left. congruence.
Qed.

Lemma MEM_ALIGN_SIZE_value x : 0 ≤ x < 2 ^ 31 → x ≤ MEM_ALIGN_SIZE x < x + 4 ∧ MEM_ALIGN_SIZE x mod 4 = 0.
Proof.
  intros Hx. unfold MEM_ALIGN_SIZE. rewrite u32_small by lia.
  change 0xFFFFFFFC with (Z.shiftl (Z.ones (32 - 2)) 2). rewrite land_clear_low by lia. change (2 ^ 2) with 4.
  pose proof (Z.div_mod (x + 3) 4). pose proof (Z.mod_pos_bound (x + 3) 4).
  split; [lia|]. rewrite Z.mul_comm. apply Z.mod_mul. lia.
Qed.

(** The search: within the limit, the shortest fit, or nothing fits. *)
Lemma scan_spec h len lim l : ∀ best,
  (∀ a, a ∈ l → is_Some (h !! a)) →
  ∃ r, scan h len lim l best = Returned r ∧
    match r with
    | inl a => ∃ n, a ∈ l ∧ h !! a = Some n ∧ len ≤ n ≤ lim
    | inr (Some (a, n)) => (best = Some (a, n) ∨ (a ∈ l ∧ h !! a = Some n ∧ len ≤ n)) ∧
                           (∀ x m, x ∈ l → h !! x = Some m → len ≤ m → n ≤ m) ∧ (∀ y m, best = Some (y, m) → n ≤ m)
    | inr None => best = None ∧ ∀ x m, x ∈ l → h !! x = Some m → m < len
    end.
Proof.
  induction l as [|x l IH]; intros best Hin; simpl.
  { eexists. split; [done|]. destruct best as [[a n]|].
    - split_and!; [by left|by intros ?? ?%elem_of_nil|]. intros y m [= -> ->]. lia.
    - split; [done|]. by intros ?? ?%elem_of_nil. }
  destruct (Hin x) as [n Hn]; [apply list_elem_of_here|]. rewrite Hn. cbn [oderef obind].
  assert (∀ a, a ∈ l → is_Some (h !! a)) as Hin' by (intros a ?; apply Hin; by right).
  destruct (len <=? n) eqn:E1; bool_to_prop.
  - destruct (n <=? lim) eqn:E2; bool_to_prop.
    { eexists. split; [done|]. exists n. split_and!; [apply list_elem_of_here|done|lia|lia]. }
    set (best' := match best with None => _ | Some _ => _ end).
    assert (∃ y m, best' = Some (y, m) ∧ m ≤ n ∧ (∀ z k, best = Some (z, k) → m ≤ k) ∧
              (best = Some (y, m) ∨ (y = x ∧ m = n))) as (y & m & Hb & Hm & Hmin & Hsrc).
    { subst best'. destruct best as [[z k]|].
      - destruct (n <? k) eqn:E3; bool_to_prop.
        + exists x, n. split_and!; [done|lia| |by right]. intros ?? [= <- <-]. lia.
        + exists z, k. split_and!; [done|lia| |by left]. intros ?? [= <- <-]. lia.
      - exists x, n. split_and!; [done|lia|done|by right]. }
    destruct (IH best' Hin') as (r & -> & Hr). exists r. split; [done|].
    destruct r as [a|[[a k]|]].
    + destruct Hr as (k & Ha & ?). exists k. split; [by right|done].
    + destruct Hr as (Hor & Hall & Hbest). specialize (Hbest y m Hb). split_and!.
      * destruct Hor as [Hor|(Ha & ? & ?)]; [|right; split_and!; [by right|done|done]].
        rewrite Hb in Hor. injection Hor as -> ->. destruct Hsrc as [Hs|[-> ->]]; [by left|right].
        split_and!; [apply list_elem_of_here|done|lia].
      * intros z j [->|Hz]%elem_of_cons Hj Hl; [|by eapply Hall]. assert (j = n) by congruence. lia.
      * intros z j Hz. specialize (Hmin z j Hz). lia.
    + destruct Hr as [Hb' _]. congruence.
  - destruct (IH best Hin') as (r & -> & Hr). exists r. split; [done|].
    destruct r as [a|[[a k]|]].
    + destruct Hr as (k & Ha & ?). exists k. split; [by right|done].
    + destruct Hr as (Hor & Hall & Hbest). split_and!; [|intros z j|done].
      * destruct Hor as [|(Ha & ? & ?)]; [by left|right; split_and!; [by right|done|done]].
      * intros [->|Hz]%elem_of_cons Hj Hl; [|by eapply Hall]. assert (j = n) by congruence. lia.
    + destruct Hr as [-> Hall]. split; [done|]. intros z j [->|Hz]%elem_of_cons Hj; [|by eapply Hall].
      assert (j = n) by congruence. lia.
Qed.

Lemma unlink_in a l x : NoDup l → x ∈ unlink a l ↔ x ∈ l ∧ x ≠ a.
Proof.
  induction l as [|y l IH]; simpl; [rewrite elem_of_nil; tauto|]. intros [Hy Hnd]%NoDup_cons. specialize (IH Hnd).
  destruct (y =? a) eqn:E; bool_to_prop.
  - subst y. rewrite elem_of_cons. split; [|naive_solver]. intros Hx. split; [by right|]. by intros ->.
  - rewrite !elem_of_cons, IH. naive_solver.
Qed.

Lemma unlink_nodup a l : NoDup l → NoDup (unlink a l).
Proof.
  induction l as [|y l IH]; simpl; [done|]. intros [Hy Hnd]%NoDup_cons. destruct (y =? a); [done|].
  apply NoDup_cons. rewrite unlink_in by done. tauto.
Qed.

(** Two nodes of a tiling occur once each. *)
Lemma two_apart (l1 : list (Z * Z)) a n b m l2 :
  NoDup (l1 ++ (a, n) :: (b, m) :: l2).*1 →
  a ≠ b ∧ ∀ w, ((a, w) ∉ l1) ∧ ((a, w) ∉ l2) ∧ ((b, w) ∉ l1) ∧ ((b, w) ∉ l2).
Proof.
  intros Hnd. rewrite fmap_app in Hnd. cbn [fmap list_fmap fst] in Hnd.
  apply NoDup_app in Hnd as (_ & Hd & [Ha [Hb _]%NoDup_cons]%NoDup_cons).
  rewrite not_elem_of_cons in Ha. destruct Ha as [Hab Ha]. split; [done|]. intros w.
  split_and!; intros Hin; apply (list_elem_of_fmap_2 fst) in Hin; simpl in Hin; [| by apply Ha | | by apply Hb].
  - apply (Hd a Hin). apply list_elem_of_here.
  - apply (Hd b Hin). right. apply list_elem_of_here.
Qed.

(** Cutting a node in two. *)
Lemma heads_split (h : gmap Z Z) l1 a n l2 n1 b n2 :
  (∀ x v, h !! x = Some v ↔ (x, v) ∈ l1 ++ (a, n) :: l2) → NoDup (l1 ++ (a, n1) :: (b, n2) :: l2).*1 →
  ∀ x v, <[b := n2]> (<[a := n1]> h) !! x = Some v ↔ (x, v) ∈ l1 ++ (a, n1) :: (b, n2) :: l2.
Proof.
  intros Hh [Hab Hno]%two_apart x v. destruct (Hno v) as (? & ? & ? & ?).
  rewrite !elem_of_app, !elem_of_cons. destruct (decide (x = b)) as [->|Hxb]; [|rewrite lookup_insert_ne by done].
  { rewrite lookup_insert_eq. split; [intros [= ->]; tauto|]. intros [?|[?|[?|?]]]; congruence || done. }
  destruct (decide (x = a)) as [->|Hxa]; [|rewrite lookup_insert_ne by done].
  { rewrite lookup_insert_eq. split; [intros [= ->]; tauto|]. intros [?|[?|[?|?]]]; congruence || done. }
  rewrite Hh, elem_of_app, elem_of_cons. split; [intros [?|[?|?]]|intros [?|[?|[?|?]]]]; first [congruence|tauto].
Qed.

(** Joining two neighbours. *)
Lemma heads_merge (h : gmap Z Z) l1 a n b m l2 k :
  (∀ x v, h !! x = Some v ↔ (x, v) ∈ l1 ++ (a, n) :: (b, m) :: l2) → NoDup (l1 ++ (a, n) :: (b, m) :: l2).*1 →
  ∀ x v, <[a := k]> (delete b h) !! x = Some v ↔ (x, v) ∈ l1 ++ (a, k) :: l2.
Proof.
  intros Hh [Hab Hno]%two_apart x v. destruct (Hno v) as (? & ? & ? & ?).
  rewrite !elem_of_app, !elem_of_cons. destruct (decide (x = a)) as [->|Hxa]; [|rewrite lookup_insert_ne by done].
  { rewrite lookup_insert_eq. split; [intros [= ->]; tauto|]. intros [?|[?|?]]; congruence || done. }
  destruct (decide (x = b)) as [->|Hxb]; [|rewrite lookup_delete_ne by done].
  { rewrite lookup_delete_eq. split; [done|]. intros [?|[?|?]]; congruence || done. }
  rewrite Hh, elem_of_app, !elem_of_cons. split; [intros [?|[?|[?|?]]]|intros [?|[?|?]]]; first [congruence|tauto].
Qed.

(** Lengths of nodes stay below the buffer's. *)
Lemma wf_head_bounds bs o a n :
  wf_with bs o → heads o !! a = Some n → buffer o ≤ a ∧ a + 8 + n ≤ buffer o + buf_len o ∧ 0 ≤ n.
Proof. intros Hwf Ha. eapply tiles_bounds; [apply Hwf|]. by apply (wf_heads _ _ Hwf). Qed.

(** Areas of different nodes, in the state's terms. *)
Lemma wf_disjoint o a n b m :
  wf o → heads o !! a = Some n → heads o !! b = Some m → a ≠ b → a + 8 + n ≤ b ∨ b + 8 + m ≤ a.
Proof.
  intros [bs Hwf] Ha Hb. eapply tiles_disjoint; [apply Hwf|by apply (wf_heads _ _ Hwf)..].
Qed.

(** The invariant looks at the buffer, the list and the headers only. *)
Lemma wf_ext bs o o' :
  buffer o' = buffer o → buf_len o' = buf_len o → free_list o' = free_list o → heads o' = heads o →
  wf_with bs o → wf_with bs o'.
Proof. intros E1 E2 E3 E4 []. split; by rewrite ?E1, ?E2, ?E3, ?E4. Qed.

(** A free node leaves the list. *)
Lemma wf_take bs o a : wf_with bs o → wf_with bs (set_list o (unlink a (free_list o)) (heads o)).
Proof.
  intros []. split; simpl; try done; [by apply unlink_nodup|]. intros x. rewrite unlink_in by done.
  intros [? _]. auto.
Qed.

(** The end of a free node becomes a node of its own. *)
Lemma wf_cut o a n s :
  wf o → heads o !! a = Some n → 8 ≤ s ≤ n →
  heads o !! (a + 8 + (n - s)) = None ∧
  wf (set_list o (free_list o) (<[a + 8 + (n - s) := s - 8]> (<[a := n - s]> (heads o)))).
Proof.
  intros [bs Hwf] Ha Hs. pose proof Ha as Hin. apply (wf_heads _ _ Hwf) in Hin.
  apply list_elem_of_split in Hin as (l1 & l2 & ->). split.
  { destruct (heads o !! (a + 8 + (n - s))) as [v|] eqn:E; [exfalso|done].
    pose proof (wf_head_bounds _ _ _ _ Hwf E).
    destruct (wf_disjoint o a n _ v (ex_intro _ _ Hwf) Ha E); lia. }
  pose proof (tiles_split _ _ _ _ _ _ s (wf_tiles _ _ Hwf) Hs) as Ht.
  eexists. split; simpl; [exact Ht| |apply Hwf| |apply Hwf|apply Hwf].
  - eapply heads_split; [apply (wf_heads _ _ Hwf)|by eapply tiles_nodup].
  - intros x Hx. rewrite !lookup_insert_is_Some'. right; right. by apply (wf_free _ _ Hwf).
Qed.

(** What a successful allocation of [len] bytes makes of the state. *)
Definition allocated (o : ALLOC_OBJ_S) (len node : Z) (o' : ALLOC_OBJ_S) : Prop :=
  ∃ n, live o' node n ∧ len ≤ n < len + 52 ∧ (∀ m, ¬ live o node m) ∧
       ∀ a m, a ≠ node → live o' a m ↔ live o a m.

Lemma take_allocated bs o a n len :
  wf_with bs o → a ∈ free_list o → heads o !! a = Some n → len ≤ n < len + 52 →
  allocated o len a (set_list o (unlink a (free_list o)) (heads o)).
Proof.
  intros Hwf Ha Hn Hlen. exists n. unfold live. simpl.
  assert (∀ x, x ∈ unlink a (free_list o) ↔ x ∈ free_list o ∧ x ≠ a) as Hu
    by (intros x; apply unlink_in, (wf_list _ _ Hwf)).
  setoid_rewrite Hu. split_and!; [done|tauto|lia|lia|tauto|]. tauto.
Qed.

Lemma cut_allocated o a n s len :
  wf o → a ∈ free_list o → heads o !! a = Some n → 8 ≤ s ≤ n → len ≤ s - 8 < len + 52 →
  allocated o len (a + 8 + (n - s))
    (set_list o (free_list o) (<[a + 8 + (n - s) := s - 8]> (<[a := n - s]> (heads o)))).
Proof.
  intros Hwf Ha Hn Hs Hlen. destruct (wf_cut o a n s Hwf Hn Hs) as [Hnone _].
  exists (s - 8). unfold live. simpl. rewrite lookup_insert_eq. split_and!; [done| |lia|lia| |].
  - destruct Hwf as [bs Hwf]. intros Hin. destruct (wf_free _ _ Hwf _ Hin). congruence.
  - intros m [? _]. congruence.
  - intros b m Hb. rewrite lookup_insert_ne by done. destruct (decide (b = a)) as [->|]; [tauto|].
    by rewrite lookup_insert_ne.
Qed.

Lemma alloc_content_spec o len :
  wf o → 0 ≤ len < 2 ^ 32 →
  ∃ r l h, alloc_content (free_list o) (heads o) len = Returned (r, l, h) ∧
    match r with
    | Some node => wf (set_list o l h) ∧ allocated o len node (set_list o l h) ∧
                   ∃ a n, a ∈ free_list o ∧ heads o !! a = Some n ∧ len ≤ n
    | None => l = free_list o ∧ h = heads o ∧ ∀ a n, a ∈ free_list o → heads o !! a = Some n → n < len
    end.
Proof.
  intros [bs Hwf] Hlen. unfold alloc_content, GARBAGE_LEN_THRESHOLD, SIZEOF_content_t.
  pose proof (wf_addr _ _ Hwf). pose proof (wf_size _ _ Hwf).
  destruct (scan_spec (heads o) len (u32 (len + 20)) (free_list o) None (wf_free _ _ Hwf)) as (r & -> & Hr).
  cbn [obind]. destruct r as [a|[[a n]|]].
  - destruct Hr as (n & Ha & Hn & Hl). pose proof (wf_head_bounds _ _ _ _ Hwf Hn). rewrite u32_small in Hl by lia.
    do 3 eexists. split; [done|]. cbn iota. split_and!; [eexists; by apply wf_take| |eauto with lia].
    eapply take_allocated; eauto with lia.
  - destruct Hr as ([?|(Ha & Hn & Hl)] & Hmin & _); [done|]. pose proof (wf_head_bounds _ _ _ _ Hwf Hn).
    rewrite (u32_small (len + 8)) by lia. destruct (MEM_ALIGN_SIZE_value (len + 8)) as [Hal _]; [lia|].
    set (s := MEM_ALIGN_SIZE (len + 8)) in *. rewrite (u32_small (s + 2 * 20)) by lia.
    destruct (s + 2 * 20 <=? n) eqn:E; bool_to_prop.
    + do 3 eexists. split; [done|]. cbn iota. rewrite !u32_small by (rewrite ?u32_small; lia).
      split_and!; [apply wf_cut; [by exists bs|done|lia]| |eauto with lia].
      apply cut_allocated; [by exists bs|done|done|lia|lia].
    + do 3 eexists. split; [done|]. cbn iota. split_and!; [eexists; by apply wf_take| |eauto with lia].
      eapply take_allocated; eauto with lia.
  - do 3 eexists. split; [done|]. destruct Hr as [_ Hr]. done.
Qed.

(** C20: In a state whose nodes tile the buffer, [x_alloc] returns [NULL]
    exactly when no free node is as long as asked for, and then changes the
    status only.  Otherwise it returns an area inside the buffer, of the length
    asked for and fewer than 52 bytes more, that no other node handed out
    overlaps; every node handed out before stays as it was, and the nodes
    still tile the buffer. *)
Theorem x_alloc_correct o size :
  wf o → 0 ≤ size < 2 ^ 32 →
  ∃ p o', x_alloc o size = Returned (p, o') ∧ wf o' ∧
    (p = 0 ↔ ∀ a n, a ∈ free_list o → heads o !! a = Some n → n < size) ∧
    (p = 0 → o' = set_status o STATUS_UNAVAILABLE) ∧
    (p ≠ 0 → ∃ n, live o' (p - 8) n ∧ size ≤ n < size + 52 ∧ (∀ m, ¬ live o (p - 8) m) ∧
                  buffer o + 8 ≤ p ∧ p + n ≤ buffer o + buf_len o ∧
                  (∀ a m, live o a m → a + 8 + m ≤ p - 8 ∨ p + n ≤ a) ∧
                  (∀ a m, a ≠ p - 8 → live o' a m ↔ live o a m)).
Proof.
  intros Hwf Hs. destruct (alloc_content_spec o size Hwf Hs) as (r & l & h & Heq & Hr).
  unfold x_alloc. rewrite Heq. cbn [obind]. destruct r as [node|].
  - destruct Hr as ([bs Hwf'] & (n & Hl & Hn & Hnew & Hold) & (a & k & Ha & Hk & Hak)).
    pose proof (wf_head_bounds _ _ _ _ Hwf' (proj1 Hl)) as Hb. pose proof (wf_addr _ _ Hwf') as Had.
    cbn [buffer buf_len set_list] in Hb, Had. unfold SIZEOF_content_t. rewrite u32_small by lia.
    do 2 eexists. split; [done|]. split_and!.
    + exists bs. by eapply wf_ext; [..|exact Hwf'].
    + split; [lia|]. intros Hno. specialize (Hno a k Ha Hk). lia.
    + lia.
    + intros _. exists n. replace (node + 8 - 8) with node by lia. split_and!; try done; try lia.
      intros b m Hlive. assert (b ≠ node) as Hne by (intros ->; by eapply Hnew).
      apply (Hold b m Hne) in Hlive.
      destruct (wf_disjoint (set_list o l h) b m node n) as [?|?]; [by exists bs|apply Hlive|apply Hl|done| |]; lia.
  - destruct Hr as (-> & -> & Hno). do 2 eexists. split; [done|]. split_and!.
    + destruct Hwf as [bs Hwf]. exists bs. by eapply wf_ext; [..|exact Hwf].
    + done.
    + done.
    + done.
Qed.

(** The walk of [defrag_content]: the first node on the list that touches the
    one freed, before or behind it. *)
Lemma defrag_content_spec (h : gmap Z Z) node n l :
  0 < node ∧ node + 8 + n < 2 ^ 32 ∧ 0 ≤ n →
  (∀ x, x ∈ l → ∃ m, h !! x = Some m ∧ 0 < x ∧ x + 8 + m < 2 ^ 32 ∧ 0 ≤ m) →
  ∃ r, defrag_content h node n l = Returned r ∧
    match r with
    | None => ∀ x m, x ∈ l → h !! x = Some m → x + 8 + m ≠ node ∧ node + 8 + n ≠ x
    | Some (l', h') =>
        ∃ l1 x m l2, l = l1 ++ x :: l2 ∧ h !! x = Some m ∧
          ((x + 8 + m = node ∧ l' = l ∧ h' = <[x := m + (8 + n)]> (delete node h)) ∨
           (node + 8 + n = x ∧ l' = l1 ++ node :: l2 ∧ h' = <[node := n + (8 + m)]> (delete x h)))
    end.
Proof.
  intros Hnode. induction l as [|x l IH]; intros Hl; cbn [defrag_content].
  { eexists. split; [done|]. by intros ?? ?%elem_of_nil. }
  destruct (Hl x) as (m & Hm & Hx); [apply list_elem_of_here|]. rewrite Hm. cbn [oderef obind].
  unfold SIZEOF_content_t. rewrite (u32_small (x + 8 + m)), (u32_small (node + 8 + n)) by lia.
  destruct (x + 8 + m =? node) eqn:E1; bool_to_prop.
  { rewrite u32_small by lia. eexists. split; [done|]. exists [], x, m, l. naive_solver. }
  destruct (node + 8 + n =? x) eqn:E2; bool_to_prop.
  { rewrite u32_small by lia. eexists. split; [done|]. exists [], x, m, l. naive_solver. }
  destruct IH as (r & -> & Hr); [intros y Hy; apply Hl; by right|]. cbn [obind]. eexists. split; [done|].
  destruct r as [[l' h']|].
  - destruct Hr as (l1 & y & k & l2 & -> & Hk & Hor). exists (x :: l1), y, k, l2. split_and!; [done|done|].
    destruct Hor as [(? & -> & ->)|(? & -> & ->)]; [left|right]; done.
  - intros y k [->|Hy]%elem_of_cons Hk; [|by apply Hr]. assert (k = m) as -> by congruence. done.
Qed.

(** Two neighbours become one node. *)
Lemma wf_join o a n b m l :
  wf o → heads o !! a = Some n → heads o !! b = Some m → a + 8 + n = b →
  NoDup l → (∀ x, x ∈ l → x ≠ b ∧ is_Some (heads o !! x)) →
  wf (set_list o l (<[a := n + (8 + m)]> (delete b (heads o)))).
Proof.
  intros [bs Hwf] Ha Hb Hab Hnd Hl.
  destruct (tiles_adjacent _ _ _ a n b m (wf_tiles _ _ Hwf)) as (l1 & l2 & ->);
    [by apply (wf_heads _ _ Hwf)..|done|].
  pose proof (tiles_merge _ _ _ _ _ _ _ _ (wf_tiles _ _ Hwf)) as Ht.
  eexists. split; simpl; [exact Ht| |done| |apply Hwf|apply Hwf].
  - eapply heads_merge; [apply (wf_heads _ _ Hwf)|]. eapply tiles_nodup, Hwf.
  - intros x Hx. destruct (Hl x Hx) as [Hne His]. rewrite lookup_insert_is_Some'. right. by rewrite lookup_delete_ne.
Qed.

(** What freeing a node makes of the state. *)
Definition freed (o : ALLOC_OBJ_S) (node n : Z) (o' : ALLOC_OBJ_S) : Prop :=
  (∀ a m, live o' a m ↔ a ≠ node ∧ live o a m) ∧
  ∃ a m, a ∈ free_list o' ∧ heads o' !! a = Some m ∧ a ≤ node ∧ node + 8 + n ≤ a + 8 + m.

(** Joined to the free node before it. *)
Lemma join_before o x m node n :
  wf o → live o node n → x ∈ free_list o → heads o !! x = Some m → x + 8 + m = node →
  let o' := set_list o (free_list o) (<[x := m + (8 + n)]> (delete node (heads o))) in wf o' ∧ freed o node n o'.
Proof.
  intros Hwf [Hn Hnode] Hx Hm Heq. assert (x ≠ node) as Hne by (by intros ->). split.
  - eapply wf_join; eauto; destruct Hwf as [bs Hwf]; [apply Hwf|]. intros y Hy.
    split; [by intros ->|by apply (wf_free _ _ Hwf)].
  - split.
    + intros a k. unfold live. simpl. destruct (decide (a = x)) as [->|]; [tauto|].
      rewrite lookup_insert_ne by done. destruct (decide (a = node)) as [->|].
      * rewrite lookup_delete_eq. naive_solver.
      * rewrite lookup_delete_ne by done. naive_solver.
    + destruct Hwf as [bs Hwf]. pose proof (wf_head_bounds _ _ _ _ Hwf Hm). exists x, (m + (8 + n)). simpl.
      rewrite lookup_insert_eq. split_and!; [done|done|lia|lia].
Qed.

(** Joined to the free node behind it, whose place in the list it takes. *)
Lemma join_behind o l1 x m l2 node n :
  wf o → live o node n → free_list o = l1 ++ x :: l2 → heads o !! x = Some m → node + 8 + n = x →
  let o' := set_list o (l1 ++ node :: l2) (<[node := n + (8 + m)]> (delete x (heads o))) in wf o' ∧ freed o node n o'.
Proof.
  intros Hwf [Hn Hnode] Hl Hm Heq. rewrite Hl in Hnode.
  assert (NoDup (l1 ++ x :: l2)) as Hnd by (rewrite <-Hl; destruct Hwf as [bs Hwf]; apply Hwf).
  rewrite <-Permutation_middle in Hnd. apply NoDup_cons in Hnd as [Hx Hnd].
  rewrite <-Permutation_middle in Hnode. apply not_elem_of_cons in Hnode as [Hne Hnode].
  assert (∀ a, a ∈ l1 ++ node :: l2 ↔ a = node ∨ a ∈ l1 ++ l2) as Hin
    by (intros a; rewrite <-Permutation_middle; apply elem_of_cons).
  assert (∀ a, a ∈ free_list o ↔ a = x ∨ a ∈ l1 ++ l2) as Hin0
    by (intros a; rewrite Hl, <-Permutation_middle; apply elem_of_cons).
  split.
  - eapply wf_join; eauto.
    + rewrite <-Permutation_middle. by apply NoDup_cons.
    + intros y. rewrite Hin. intros [->|Hy]; [by eauto|]. split; [by intros ->|].
      destruct Hwf as [bs Hwf]. apply (wf_free _ _ Hwf), Hin0. by right.
  - split.
    + intros a k. unfold live. simpl. rewrite Hin, Hin0. destruct (decide (a = node)) as [->|]; [tauto|].
      rewrite lookup_insert_ne by done. destruct (decide (a = x)) as [->|].
      * rewrite lookup_delete_eq. split; [by intros [??]|tauto].
      * rewrite lookup_delete_ne by done. tauto.
    + destruct Hwf as [bs Hwf]. pose proof (wf_head_bounds _ _ _ _ Hwf Hm). exists node, (n + (8 + m)). simpl.
      rewrite lookup_insert_eq. split_and!; [apply Hin; by left|done|lia|lia].
Qed.

Lemma free_content_spec o node n :
  wf o → live o node n →
  ∃ l h, free_content (free_list o) (heads o) node = Returned (l, h) ∧
         wf (set_list o l h) ∧ freed o node n (set_list o l h).
Proof.
  intros Hwf Hlive. pose proof Hlive as [Hn Hnode]. destruct Hwf as [bs Hwf].
  pose proof (wf_head_bounds _ _ _ _ Hwf Hn). pose proof (wf_addr _ _ Hwf).
  unfold free_content. rewrite Hn. cbn [oderef obind].
  destruct (defrag_content_spec (heads o) node n (free_list o)) as (r & -> & Hr); [lia| |].
  { intros x Hx. destruct (wf_free _ _ Hwf x Hx) as [m Hm]. pose proof (wf_head_bounds _ _ _ _ Hwf Hm).
    exists m. split; [done|lia]. }
  cbn [obind]. destruct r as [[l h]|].
  - exists l, h. split; [done|]. destruct Hr as (l1 & x & m & l2 & Hl & Hm & [(Heq & -> & ->)|(Heq & -> & ->)]).
    + eapply join_before; eauto; [by exists bs|]. rewrite Hl. apply elem_of_app. right. apply list_elem_of_here.
    + eapply join_behind; eauto. by exists bs.
  - do 2 eexists. split; [done|]. split.
    + exists bs. destruct Hwf. split; simpl; try done; [by apply NoDup_cons|].
      intros a [->|?]%elem_of_cons; eauto.
    + split.
      * intros a m. unfold live. simpl. rewrite not_elem_of_cons. tauto.
      * exists node, n. simpl. split_and!; [apply list_elem_of_here|done|lia|lia].
Qed.

(** Freeing an area that is handed out succeeds: the nodes still tile the
    buffer, exactly that area is no longer handed out, its bytes lie in a free
    node, and the status is available again. *)
Theorem x_free_correct o p n :
  wf o → live o (p - 8) n →
  ∃ o', x_free o p = Returned (0, o') ∧ wf o' ∧ x_get_mem_status o' = STATUS_AVAILABLE ∧
    (∀ a m, live o' a m ↔ a ≠ p - 8 ∧ live o a m) ∧
    (∃ a m, a ∈ free_list o' ∧ heads o' !! a = Some m ∧ a ≤ p - 8 ∧ p + n ≤ a + 8 + m).
Proof.
  intros Hwf Hlive. destruct (free_content_spec o (p - 8) n Hwf Hlive) as (l & h & Heq & [bs Hwf'] & Hl & Hin).
  pose proof Hlive as [Hn _]. destruct Hwf as [bs0 Hwf]. pose proof (wf_head_bounds _ _ _ _ Hwf Hn).
  pose proof (wf_addr _ _ Hwf). unfold x_free, SIZEOF_content_t. destruct (p =? 0) eqn:E; bool_to_prop; [lia|].
  rewrite u32_small by lia. rewrite Heq. cbn [obind]. eexists. split; [done|]. split_and!; [|done|done|].
  - exists bs. by eapply wf_ext; [..|exact Hwf'].
  - destruct Hin as (a & m & ? & ? & ? & ?). exists a, m. split_and!; [done|done|lia|lia].
Qed.

(** A buffer that [x_init_mem] or [x_reset_mem] set up. *)
Lemma x_init_mem_wf modid len b o :
  x_init_mem true (Some b) modid len = Some o → 0 < b → b + len < 2 ^ 32 → len < 2 ^ 31 →
  wf o ∧ ∀ a n, ¬ live o a n.
Proof.
  unfold x_init_mem, SIZEOF_content_t. destruct (len <? 8) eqn:E; [done|]. bool_to_prop.
  cbn [negb mbind option_bind]. intros [= <-] Hb Hlen Hs. rewrite u32_small by lia. split.
  - exists [(b, len - 8)]. split; simpl.
    + split_and!; [done|lia|lia].
    + intros a n. rewrite lookup_singleton_Some, list_elem_of_singleton. naive_solver.
    + apply NoDup_singleton.
    + intros a ->%list_elem_of_singleton. rewrite lookup_singleton_eq. eauto.
    + lia.
    + lia.
  - intros a n [Ha Hl]. simpl in *. apply lookup_singleton_Some in Ha as [-> _]. apply Hl, list_elem_of_here.
Qed.

(** What the users of a buffer may do: allocate, and free what they hold. *)
Inductive xstep : ALLOC_OBJ_S → ALLOC_OBJ_S → Prop :=
  | step_alloc o size p o' : 0 ≤ size < 2 ^ 32 → x_alloc o size = Returned (p, o') → xstep o o'
  | step_free o p n r o' : live o (p - 8) n → x_free o p = Returned (r, o') → xstep o o'
  | step_reset o : xstep o (snd (x_reset_mem o)).

Lemma x_alloc_returns o size :
  wf o → 0 ≤ size < 2 ^ 32 →
  ∃ p o', x_alloc o size = Returned (p, o') ∧ wf o' ∧ buffer o' = buffer o ∧ buf_len o' = buf_len o.
Proof.
  intros Hwf Hs. destruct (alloc_content_spec o size Hwf Hs) as (r & l & h & Heq & Hr).
  unfold x_alloc. rewrite Heq. cbn [obind]. destruct r as [node|]; do 2 eexists; (split; [done|]); split; try done.
  - destruct Hr as ([bs Hwf'] & _). exists bs. by eapply wf_ext; [..|exact Hwf'].
  - destruct Hwf as [bs Hwf]. exists bs. by eapply wf_ext; [..|exact Hwf].
Qed.

Lemma x_free_returns o p n :
  wf o → live o (p - 8) n →
  ∃ o', x_free o p = Returned (0, o') ∧ wf o' ∧ buffer o' = buffer o ∧ buf_len o' = buf_len o.
Proof.
  intros Hwf Hlive. destruct (free_content_spec o (p - 8) n Hwf Hlive) as (l & h & Heq & [bs Hwf'] & _).
  pose proof Hlive as [Hn _]. destruct Hwf as [bs0 Hwf]. pose proof (wf_head_bounds _ _ _ _ Hwf Hn).
  pose proof (wf_addr _ _ Hwf). unfold x_free, SIZEOF_content_t. destruct (p =? 0) eqn:E; bool_to_prop; [lia|].
  rewrite u32_small by lia. rewrite Heq. cbn [obind]. eexists. split; [done|]. split; [|done].
  exists bs. by eapply wf_ext; [..|exact Hwf'].
Qed.

Lemma x_reset_mem_wf o : wf o → wf (snd (x_reset_mem o)) ∧ ∀ a n, ¬ live (snd (x_reset_mem o)) a n.
Proof.
  intros [bs Hwf]. pose proof (wf_size _ _ Hwf). pose proof (wf_addr _ _ Hwf).
  destruct (x_init_mem_wf (modid o) (buf_len o) (buffer o)
              (mkObj (buffer o) (buf_len o) [buffer o] {[ buffer o := u32 (buf_len o - SIZEOF_content_t) ]}
                     STATUS_AVAILABLE (modid o) 0 0)) as [[bs' Hwf'] Hl]; [|lia..|].
  - unfold x_init_mem, SIZEOF_content_t. by destruct (buf_len o <? 8) eqn:E; bool_to_prop; [lia|].
  - split; [|done]. exists bs'. by eapply wf_ext; [..|exact Hwf'].
Qed.

Lemma xstep_wf o o' : xstep o o' → wf o → wf o' ∧ buffer o' = buffer o ∧ buf_len o' = buf_len o.
Proof.
  intros [? size p ? Hs Heq|? p n r ? Hl Heq|?] Hwf.
  - destruct (x_alloc_returns _ _ Hwf Hs) as (? & ? & Heq' & H). rewrite Heq in Heq'. by injection Heq' as -> ->.
  - destruct (x_free_returns _ _ _ Hwf Hl) as (? & Heq' & H). rewrite Heq in Heq'. by injection Heq' as -> ->.
  - split; [by apply x_reset_mem_wf|done].
Qed.

Lemma xsteps_wf o o' : rtc xstep o o' → wf o → wf o' ∧ buffer o' = buffer o ∧ buf_len o' = buf_len o.
Proof.
  induction 1 as [|o o1 o2 Hs _ IH]; intros Hwf; [done|]. destruct (xstep_wf _ _ Hs Hwf) as (H & <- & <-). auto.
Qed.

(** C24: Whatever its users do with a buffer that [x_init_mem] set up, allocating
    any size, freeing what they hold, resetting, the areas handed out lie
    inside the buffer and never overlap, and every call returns. *)
Theorem xmem_reachable modid len b o0 o :
  x_init_mem true (Some b) modid len = Some o0 → 0 < b → b + len < 2 ^ 32 → len < 2 ^ 31 → rtc xstep o0 o →
  (∀ a n, live o a n → b ≤ a ∧ a + 8 + n ≤ b + len) ∧
  (∀ a n c m, live o a n → live o c m → a ≠ c → a + 8 + n ≤ c ∨ c + 8 + m ≤ a) ∧
  (∀ size, 0 ≤ size < 2 ^ 32 → ∃ p o', x_alloc o size = Returned (p, o')) ∧
  (∀ a n, live o a n → ∃ o', x_free o (a + 8) = Returned (0, o')).
Proof.
  intros Hi Hb Hlen Hs Hr. destruct (x_init_mem_wf _ _ _ _ Hi Hb Hlen Hs) as [Hwf0 _].
  destruct (xsteps_wf _ _ Hr Hwf0) as (Hwf & Hbuf & Hbl).
  assert (buffer o0 = b ∧ buf_len o0 = len) as [Hb0 Hl0].
  { unfold x_init_mem in Hi. destruct (len <? SIZEOF_content_t); [done|]. by injection Hi as <-. }
  split_and!.
  - intros a n [Ha _]. destruct Hwf as [bs Hwf]. pose proof (wf_head_bounds _ _ _ _ Hwf Ha). lia.
  - intros a n c m [Ha _] [Hc _]. by apply (wf_disjoint o).
  - intros size Hsz. destruct (x_alloc_returns _ _ Hwf Hsz) as (p & o' & ? & _). eauto.
  - intros a n Hl. destruct (x_free_returns o (a + 8) n Hwf) as (o' & ? & _); [|eauto].
    by replace (a + 8 - 8) with a by lia.
Qed.

(** Three areas cut from the end of a buffer of 300 bytes, and freed again. *)
Definition xmem_start : option ALLOC_OBJ_S := x_init_mem true (Some 4096) 7 300.
Definition xmem_abc (o : ALLOC_OBJ_S) : outcome (Z * Z * Z * ALLOC_OBJ_S) :=
  let! (a, o1) := x_alloc o 50 in let! (b, o2) := x_alloc o1 50 in let! (c, o3) := x_alloc o2 50 in
  Returned (a, b, c, o3).
Definition xmem_frag (o : ALLOC_OBJ_S) : outcome ALLOC_OBJ_S :=
  let! (a, b, c, o3) := xmem_abc o in
  let! (_, o4) := x_free o3 a in let! (_, o5) := x_free o4 c in let! (_, o6) := x_free o5 b in
  Returned o6.

(** The fresh buffer, and what is left of it. *)
Definition xmem_fresh : ALLOC_OBJ_S := mkObj 4096 300 [4096] {[ 4096 := 292 ]} STATUS_AVAILABLE 7 0 0.
Definition xmem_parts : ALLOC_OBJ_S :=
  mkObj 4096 300 [4276; 4096] {[ 4096 := 172; 4276 := 112 ]} STATUS_AVAILABLE 7 3 3.

(** A node is merged with one free neighbour only: three areas freed in the
    order first, third, second leave two free nodes that touch, with nothing
    handed out, and an allocation that the fresh buffer serves fails. *)
Theorem x_free_fragments :
  xmem_start = Some xmem_fresh ∧ xmem_frag xmem_fresh = Returned xmem_parts ∧
  x_get_free_mem_info xmem_parts = Returned (284, 2) ∧ 4096 + 8 + 172 = 4276 ∧
  (let! r := x_alloc xmem_fresh 200 in Returned (fst r)) = Returned 4196 ∧
  x_alloc xmem_parts 200 = Returned (0, set_status xmem_parts STATUS_UNAVAILABLE).
Proof. split_and!; vm_compute; reflexivity. Qed.

(** A fresh buffer satisfies the invariant. *)
Lemma xmem_fresh_wf : wf xmem_fresh.
Proof. by apply (x_init_mem_wf 7 300 4096). Qed.

(** Its first area. *)
Definition xmem_one : ALLOC_OBJ_S :=
  mkObj 4096 300 [4096] {[ 4096 := 232; 4336 := 52 ]} STATUS_AVAILABLE 7 1 0.
Lemma xmem_one_eq : x_alloc xmem_fresh 50 = Returned (4344, xmem_one).
Proof. by vm_compute. Qed.
Lemma xmem_one_wf : wf xmem_one.
Proof.
  destruct (x_alloc_returns xmem_fresh 50 xmem_fresh_wf ltac:(lia)) as (p & o' & Heq & Hwf & _).
  rewrite xmem_one_eq in Heq. by injection Heq as _ <-.
Qed.
Lemma xmem_one_live : live xmem_one 4336 52.
Proof. split; [by vm_compute|]. intros H%list_elem_of_singleton. by vm_compute in H. Qed.

Lemma x_alloc_correct_witness :
  wf xmem_one ∧ ∃ p o', x_alloc xmem_one 100 = Returned (p, o') ∧ wf o' ∧ p = 4236 ∧ live o' 4228 100.
Proof.
  split; [apply xmem_one_wf|].
  destruct (x_alloc_correct xmem_one 100 xmem_one_wf ltac:(lia)) as (p & o' & Heq & Hwf & _).
  exists p, o'. split; [done|]. split; [done|]. clear Hwf. vm_compute in Heq. injection Heq as <- <-.
  split; [done|]. split; [by vm_compute|]. intros H%list_elem_of_singleton. by vm_compute in H.
Defined.

Lemma x_free_correct_witness :
  live xmem_one 4336 52 ∧ ∃ o', x_free xmem_one 4344 = Returned (0, o') ∧ (∀ m, ¬ live o' 4336 m) ∧
    x_get_free_mem_info o' = Returned (292, 1).
Proof.
  split; [apply xmem_one_live|].
  destruct (x_free_correct xmem_one 4344 52 xmem_one_wf xmem_one_live) as (o' & Heq & _ & _ & Hl & _).
  exists o'. split; [done|]. split; [|vm_compute in Heq; by injection Heq as <-].
  intros m [Hne _]%Hl. by apply Hne.
Defined.

Lemma xmem_reachable_witness :
  xmem_start = Some xmem_fresh ∧ rtc xstep xmem_fresh xmem_one ∧
  4096 ≤ 4336 ∧ 4336 + 8 + 52 ≤ 4096 + 300 ∧ ∃ o', x_free xmem_one 4344 = Returned (0, o').
Proof.
  assert (xmem_start = Some xmem_fresh) as H0 by reflexivity.
  assert (rtc xstep xmem_fresh xmem_one) as Hr.
  { eapply rtc_l; [|apply rtc_refl]. eapply (step_alloc _ 50); [lia|apply xmem_one_eq]. }
  split; [done|]. split; [done|].
  destruct (xmem_reachable 7 300 4096 xmem_fresh xmem_one H0 ltac:(lia) ltac:(lia) ltac:(lia) Hr)
    as (Hin & _ & _ & Hf).
  destruct (Hin _ _ xmem_one_live). split; [done|]. split; [done|]. apply (Hf _ _ xmem_one_live).
Defined.

End XM.
