(* ===== verification/Hashmap.v ===== *)
(** The hash map of [cutils/hashmap.c]: chained buckets, a power of two of
    them, doubled when the load factor passes 0.75.  The functions a map is
    created with are the class [KeyOps]; what it needs of them is [KeyLaws].
    The map is shown to implement a finite map from the keys' contents. *)

From S2P Require Import Prelude.

Module HM.

(** The two function pointers of a map.  A key is an address. *)
Class KeyOps := { hash : Z → Z; equals : Z → Z → bool }.

Definition ENOMEM : Z := 12.
Definition SIZEOF_pointer : Z := 4.

Record Entry := mkEntry { key : Z; ehash : Z; value : Z }.

(** [struct Hashmap]: [next] makes a bucket a chain, here a list.  The lock is
    not modelled. *)
Record Hashmap := mkMap { buckets : list (list Entry); bucketCount : Z; size : Z }.

(** [calloc] fails when the product does not fit; [ok] answers the rest. *)
Definition calloc (ok : bool) (n sz : Z) : bool := ok && (n * sz <? 2 ^ 32).

(** The loop of [hashmapCreate]: at most [fuel] turns. *)
Fixpoint grow (fuel : nat) (count minimumBucketCount : Z) : option Z :=
  if count <=? minimumBucketCount
  then match fuel with O => None | S fuel => grow fuel (u32 (Z.shiftl count 1)) minimumBucketCount end
  else Some count.

(** [hashmapCreate]; the arguments answer its two allocations.  The outer
    [option] is [None] when the loop does not end within 32 turns. *)
Definition hashmapCreate (map_ok table_ok : bool) (initialCapacity : Z) : option (option Hashmap) :=
  if negb map_ok then Some None
  else count ← grow 32 1 (u32 (initialCapacity * 4) / 3);
       Some (if calloc table_ok count SIZEOF_pointer
             then Some (mkMap (replicate (Z.to_nat count) []) count 0) else None).

Definition hashmapSize (m : Hashmap) : Z := size m.

Definition calculateIndex (count h : Z) : Z := Z.land (u32 h) (u32 (count - 1)).

(** Moving an entry to the front of its bucket of the new table. *)
Definition push (count : Z) (table : list (list Entry)) (e : Entry) : outcome (list (list Entry)) :=
  let index := Z.to_nat (calculateIndex count (ehash e)) in
  let! l := oderef (table !! index) in Returned (<[index := e :: l]> table).
Fixpoint move_chain (count : Z) (l : list Entry) (table : list (list Entry)) : outcome (list (list Entry)) :=
  match l with [] => Returned table | e :: l' => let! table' := push count table e in move_chain count l' table' end.
Fixpoint move_buckets (count : Z) (bs : list (list Entry)) (table : list (list Entry)) : outcome (list (list Entry)) :=
  match bs with
  | [] => Returned table
  | l :: bs' => let! table' := move_chain count l table in move_buckets count bs' table'
  end.

Definition expandIfNecessary (table_ok : bool) (m : Hashmap) : outcome Hashmap :=
  if u32 (bucketCount m * 3) / 4 <? size m
  then let newBucketCount := u32 (Z.shiftl (bucketCount m) 1) in
       if calloc table_ok newBucketCount SIZEOF_pointer
       then let! t := move_buckets newBucketCount (buckets m) (replicate (Z.to_nat newBucketCount) []) in
            Returned (mkMap t newBucketCount (size m))
       else Returned m
  else Returned m.

(** [hashmapHash] of the bytes at a key; a [char] of this target is unsigned. *)
Definition hashmapHash (bytes : list Z) : Z :=
  foldl (λ h c, s32 (h * 31 + c)) (s32 (Z.of_nat (length bytes))) bytes.

Section map.
Context `{KeyOps}.

Definition hashKey (k : Z) : Z :=
  let h0 := hash k in
  let h1 := s32 (h0 + Z.lnot (s32 (Z.shiftl h0 9))) in
  let h2 := s32 (Z.lxor (u32 h1) (Z.shiftr (u32 h1) 14)) in
  let h3 := s32 (h2 + s32 (Z.shiftl h2 4)) in
  s32 (Z.lxor (u32 h3) (Z.shiftr (u32 h3) 10)).

Definition equalKeys (keyA hashA keyB hashB : Z) : bool :=
  if keyA =? keyB then true
  else if negb (hashA =? hashB) then false
  else equals keyA keyB.

Definition matches (k h : Z) (e : Entry) : bool := equalKeys (key e) (ehash e) k h.

(** The walk of [hashmapPut] and [hashmapMemoize]: the entry that matches is
    changed by [upd]; [None] is the end of the chain. *)
Fixpoint walk (k h : Z) (upd : Entry → Entry) (l : list Entry) : option (Entry * list Entry) :=
  match l with
  | [] => None
  | e :: l' =>
      if matches k h e then Some (e, upd e :: l')
      else match walk k h upd l' with Some (r, l2) => Some (r, e :: l2) | None => None end
  end.

(** A new entry at the end of a chain; [None] is [createEntry] failing. *)
Definition createEntry (ok : bool) (k h v : Z) : option Entry :=
  if ok then Some (mkEntry k h v) else None.

(** [hashmapPut]: the value it returns, what it sets [errno] to, the map. *)
Definition hashmapPut (entry_ok table_ok : bool) (m : Hashmap) (k v : Z) : outcome (Z * option Z * Hashmap) :=
  let h := hashKey k in
  let index := Z.to_nat (calculateIndex (bucketCount m) h) in
  let! l := oderef (buckets m !! index) in
  match walk k h (λ e, mkEntry (key e) (ehash e) v) l with
  | Some (e, l') => Returned (value e, None, mkMap (<[index := l']> (buckets m)) (bucketCount m) (size m))
  | None =>
      match createEntry entry_ok k h v with
      | None => Returned (0, Some ENOMEM, m)
      | Some e =>
          let! m' := expandIfNecessary table_ok
                       (mkMap (<[index := l ++ [e]]> (buckets m)) (bucketCount m) (u32 (size m + 1))) in
          Returned (0, None, m')
      end
  end.

Fixpoint find_entry (k h : Z) (l : list Entry) : option Entry :=
  match l with [] => None | e :: l' => if matches k h e then Some e else find_entry k h l' end.

Definition hashmapGet (m : Hashmap) (k : Z) : outcome Z :=
  let h := hashKey k in
  let! l := oderef (buckets m !! Z.to_nat (calculateIndex (bucketCount m) h)) in
  Returned (match find_entry k h l with Some e => value e | None => 0 end).

Definition hashmapContainsKey (m : Hashmap) (k : Z) : outcome bool :=
  let h := hashKey k in
  let! l := oderef (buckets m !! Z.to_nat (calculateIndex (bucketCount m) h)) in
  Returned (match find_entry k h l with Some _ => true | None => false end).

(** [hashmapMemoize]; [initialValue] does not use the map. *)
Definition hashmapMemoize {C : Type} (entry_ok table_ok : bool) (m : Hashmap) (k : Z)
    (initialValue : Z → C → Z) (context : C) : outcome (Z * option Z * Hashmap) :=
  let h := hashKey k in
  let index := Z.to_nat (calculateIndex (bucketCount m) h) in
  let! l := oderef (buckets m !! index) in
  match find_entry k h l with
  | Some e => Returned (value e, None, m)
  | None =>
      if negb entry_ok then Returned (0, Some ENOMEM, m)
      else let v := initialValue k context in
           let! m' := expandIfNecessary table_ok
                        (mkMap (<[index := l ++ [mkEntry k h v]]> (buckets m)) (bucketCount m) (u32 (size m + 1))) in
           Returned (v, None, m')
  end.

(** The walk of [hashmapRemove]. *)
Fixpoint cut_entry (k h : Z) (l : list Entry) : option (Entry * list Entry) :=
  match l with
  | [] => None
  | e :: l' =>
      if matches k h e then Some (e, l')
      else match cut_entry k h l' with Some (r, l2) => Some (r, e :: l2) | None => None end
  end.

Definition hashmapRemove (m : Hashmap) (k : Z) : outcome (Z * Hashmap) :=
  let h := hashKey k in
  let index := Z.to_nat (calculateIndex (bucketCount m) h) in
  let! l := oderef (buckets m !! index) in
  match cut_entry k h l with
  | Some (e, l') => Returned (value e, mkMap (<[index := l']> (buckets m)) (bucketCount m) (u32 (size m - 1)))
  | None => Returned (0, m)
  end.

End map.

(** [hashmapForEach]; the callback threads its context and does not use the map.
    The [bool] says whether it went on to the end. *)
Section each.
Context {C : Type} (callback : Z → Z → C → bool * C).
Fixpoint each_chain (l : list Entry) (c : C) : bool * C :=
  match l with
  | [] => (true, c)
  | e :: l' => let '(go, c') := callback (key e) (value e) c in if go then each_chain l' c' else (false, c')
  end.
Fixpoint each_bucket (bs : list (list Entry)) (c : C) : bool * C :=
  match bs with
  | [] => (true, c)
  | l :: bs' => let '(go, c') := each_chain l c in if go then each_bucket bs' c' else (false, c')
  end.
Definition hashmapForEach (m : Hashmap) (c : C) : C := snd (each_bucket (buckets m) c).
End each.

Definition hashmapCurrentCapacity (m : Hashmap) : Z := u32 (bucketCount m * 3) / 4.

Fixpoint chain_collisions (l : list Entry) (n : Z) : Z :=
  match l with
  | [] => n
  | _ :: l' => chain_collisions l' (match l' with [] => n | _ => u32 (n + 1) end)
  end.
Definition hashmapCountCollisions (m : Hashmap) : Z := foldl (λ n l, chain_collisions l n) 0 (buckets m).

(** Keys that point to an [int], in a memory. *)
Definition hashmapIntHash (mem : Z → Z) (k : Z) : Z := s32 (mem k).
Definition hashmapIntEquals (mem : Z → Z) (a b : Z) : bool := s32 (mem a) =? s32 (mem b).

(** ** What a map needs of its keys

    A key is known by what it points to, its [view]: [equals] compares views,
    and [hash] depends on the view only. *)
Class KeyLaws `{KeyOps} (A : Type) `{Countable A} := {
  view : Z → A;
  equals_view a b : equals a b = bool_decide (view a = view b);
  hash_view a b : view a = view b → hash a = hash b
}.

#[global] Program Instance IntKeyOps (mem : Z → Z) : KeyOps :=
  {| hash := hashmapIntHash mem; equals := hashmapIntEquals mem |}.
#[global] Program Instance IntKeyLaws (mem : Z → Z) : KeyLaws (H := IntKeyOps mem) Z := {| view k := s32 (mem k) |}.
Next Obligation. intros. simpl. unfold hashmapIntEquals. by destruct (Z.eqb_spec (s32 (mem a)) (s32 (mem b))); case_bool_decide. Qed.
Next Obligation. done. Qed.

Lemma calculateIndex_pow2 j h : 0 ≤ j ≤ 31 → calculateIndex (2 ^ j) h = u32 h mod 2 ^ j.
Proof.
  intros Hj. unfold calculateIndex. assert (0 < 2 ^ j ≤ 2 ^ 31) by (split; [lia|apply Z.pow_le_mono_r; lia]).
  rewrite (u32_small (2 ^ j - 1)) by lia. rewrite Z.sub_1_r, <-Z.ones_equiv, Z.land_ones by lia. done.
Qed.

Lemma calculateIndex_range j h : 0 ≤ j ≤ 31 → 0 ≤ calculateIndex (2 ^ j) h < 2 ^ j.
Proof. intros Hj. rewrite calculateIndex_pow2 by done. apply Z.mod_pos_bound. lia. Qed.

#[local] Opaque calculateIndex.

(** A bucket and the rest of the entries. *)
Lemma concat_bucket (bs : list (list Entry)) i l :
  bs !! i = Some l → ∃ rest, concat bs ≡ₚ l ++ rest ∧ ∀ l', concat (<[i := l']> bs) ≡ₚ l' ++ rest.
Proof.
  intros Hi. exists (concat (take i bs) ++ concat (drop (S i) bs)).
  assert (∀ l', concat (take i bs ++ l' :: drop (S i) bs) ≡ₚ l' ++ concat (take i bs) ++ concat (drop (S i) bs)) as Hc.
  { intros l'. rewrite concat_app. simpl. rewrite !app_assoc. f_equiv. apply Permutation_app_comm. }
  split.
  - by rewrite <-Hc, take_drop_middle.
  - intros l'. rewrite <-Hc. rewrite insert_take_drop; [done|]. by eapply lookup_lt_Some.
Qed.

Section laws.
Context `{KeyLaws A}.

Definition ent (e : Entry) : A * Z := (view (key e), value e).
Definition absl (l : list Entry) : gmap A Z := list_to_map (ent <$> l).
Definition entries (m : Hashmap) : list Entry := concat (buckets m).

(** The finite map a hash map stands for. *)
Definition abs (m : Hashmap) : gmap A Z := absl (entries m).

(** Every entry is in the bucket of its hash. *)
Definition placed (count : Z) (bs : list (list Entry)) : Prop :=
  ∀ i l e, bs !! i = Some l → e ∈ l →
    ehash e = hashKey (key e) ∧ Z.to_nat (calculateIndex count (ehash e)) = i.

Record wf (m : Hashmap) : Prop := {
  wf_count : ∃ j, 0 ≤ j ≤ 29 ∧ bucketCount m = 2 ^ j;
  wf_length : length (buckets m) = Z.to_nat (bucketCount m);
  wf_placed : placed (bucketCount m) (buckets m);
  wf_keys : NoDup (ent <$> entries m).*1;
  wf_total : size m = u32 (Z.of_nat (length (entries m)))
}.

Lemma hashKey_view a b : view a = view b → hashKey a = hashKey b.
Proof. intros Hv. unfold hashKey. by rewrite (hash_view a b Hv). Qed.
#[local] Opaque hashKey.

Lemma matches_view k e : ehash e = hashKey (key e) → matches k (hashKey k) e = bool_decide (view (key e) = view k).
Proof.
  intros He. unfold matches, equalKeys. destruct (Z.eqb_spec (key e) k) as [->|]; [by rewrite bool_decide_true|].
  destruct (Z.eqb_spec (ehash e) (hashKey k)); simpl; [apply equals_view|].
  rewrite bool_decide_false; [done|]. intros Hv%hashKey_view. congruence.
Qed.

(** The three walks stop at the same entry. *)
Lemma walks_found k h upd l e :
  find_entry k h l = Some e →
  ∃ l1 l2, l = l1 ++ e :: l2 ∧ walk k h upd l = Some (e, l1 ++ upd e :: l2) ∧ cut_entry k h l = Some (e, l1 ++ l2) ∧
           matches k h e = true.
Proof.
  induction l as [|x l IH]; simpl; [done|]. destruct (matches k h x) eqn:E.
  - intros [= ->]. by exists [], l.
  - intros (l1 & l2 & -> & -> & -> & ?)%IH. by exists (x :: l1), l2.
Qed.

Lemma walks_none k h upd l :
  find_entry k h l = None →
  walk k h upd l = None ∧ cut_entry k h l = None ∧ ∀ e, e ∈ l → matches k h e = false.
Proof.
  induction l as [|x l IH]; simpl; [intros _; split_and!; [done|done|by intros ? ?%elem_of_nil]|].
  destruct (matches k h x) eqn:E; [done|]. intros (-> & -> & Hf)%IH. split_and!; [done|done|].
  by intros e [->|?]%elem_of_cons; [|apply Hf].
Qed.

Lemma absl_perm l1 l2 : NoDup (ent <$> l1).*1 → l1 ≡ₚ l2 → absl l1 = absl l2.
Proof. intros Hnd Hp. apply list_to_map_proper; [done|by rewrite Hp]. Qed.

Lemma absl_cons e l : absl (e :: l) = <[view (key e) := value e]> (absl l).
Proof. done. Qed.

Lemma absl_none e l : NoDup (ent <$> e :: l).*1 → absl l !! view (key e) = None.
Proof. rewrite !fmap_cons. intros [Hn _]%NoDup_cons. by apply not_elem_of_list_to_map_1. Qed.

Definition index_of (m : Hashmap) (k : Z) : nat := Z.to_nat (calculateIndex (bucketCount m) (hashKey k)).

Lemma bucket_exists count (bs : list (list Entry)) h j :
  0 ≤ j ≤ 29 → count = 2 ^ j → length bs = Z.to_nat count → is_Some (bs !! Z.to_nat (calculateIndex count h)).
Proof.
  intros Hj -> Hlen. apply lookup_lt_is_Some_2. pose proof (calculateIndex_range j h). lia.
Qed.

Lemma wf_bucket m k : wf m → ∃ l, buckets m !! index_of m k = Some l.
Proof. intros []. destruct wf_count0 as (j & Hj & Hc). by eapply bucket_exists. Qed.

Lemma elem_of_entries (m : Hashmap) e : e ∈ entries m ↔ ∃ i l, buckets m !! i = Some l ∧ e ∈ l.
Proof.
  unfold entries. rewrite list_elem_of_In, in_concat. split.
  - intros (l & Hl & He). rewrite <-list_elem_of_In in Hl; rewrite <-list_elem_of_In in He. apply list_elem_of_lookup_1 in Hl as [i Hi]. eauto.
  - intros (i & l & Hi & He). exists l. rewrite <-!list_elem_of_In. split; [by eapply list_elem_of_lookup_2|done].
Qed.

(** The search in the key's bucket finds what the finite map holds. *)
Lemma find_abs m k l :
  wf m → buckets m !! index_of m k = Some l →
  match find_entry k (hashKey k) l with
  | Some e => abs m !! view k = Some (value e) ∧ view (key e) = view k
  | None => abs m !! view k = None
  end.
Proof.
  intros Hwf Hl. pose proof (wf_placed _ Hwf) as Hp. destruct (find_entry k (hashKey k) l) as [e|] eqn:Hf.
  - apply (walks_found _ _ id) in Hf as (l1 & l2 & -> & _ & _ & Hm).
    assert (e ∈ l1 ++ e :: l2) as He by (apply elem_of_app; right; apply list_elem_of_here).
    rewrite matches_view in Hm by (by eapply Hp). apply bool_decide_eq_true in Hm. split; [|done].
    rewrite <-Hm. apply elem_of_list_to_map_1; [apply Hwf|].
    apply (list_elem_of_fmap_2 ent). apply elem_of_entries. eauto.
  - apply (walks_none _ _ id) in Hf as (_ & _ & Hf). apply not_elem_of_list_to_map_1.
    rewrite <-list_fmap_compose. intros (e & Hv & He)%list_elem_of_fmap. cbn in Hv.
    apply elem_of_entries in He as (i & l' & Hi & He). destruct (Hp _ _ _ Hi He) as [Hh Hix].
    assert (i = index_of m k) as ->. { rewrite <-Hix, Hh. unfold index_of. by rewrite (hashKey_view _ _ Hv). }
    assert (l' = l) as -> by congruence. specialize (Hf e He). rewrite matches_view in Hf by done.
    by rewrite bool_decide_true in Hf.
Qed.

(** A bucket is replaced. *)
Lemma placed_insert count bs i l' :
  placed count bs →
  (∀ e, e ∈ l' → ehash e = hashKey (key e) ∧ Z.to_nat (calculateIndex count (ehash e)) = i) →
  placed count (<[i := l']> bs).
Proof.
  intros Hp Hl' j l e Hj He. destruct (decide (i = j)) as [->|].
  - apply list_lookup_insert_Some in Hj as [(_ & <- & _)|[? _]]; [by apply Hl'|done].
  - rewrite list_lookup_insert_ne in Hj by done. by eapply Hp.
Qed.

Lemma wf_update m i l1 a b l2 n :
  wf m → buckets m !! i = Some (l1 ++ a ++ l2) →
  (∀ e, e ∈ b → ehash e = hashKey (key e) ∧ Z.to_nat (calculateIndex (bucketCount m) (ehash e)) = i) →
  let m' := mkMap (<[i := l1 ++ b ++ l2]> (buckets m)) (bucketCount m) n in
  ∃ rest, entries m ≡ₚ a ++ rest ∧ entries m' ≡ₚ b ++ rest ∧
    (NoDup (ent <$> b ++ rest).*1 → n = u32 (Z.of_nat (length (b ++ rest))) → wf m').
Proof.
  intros Hwf Hi Hb m'. destruct (concat_bucket _ _ _ Hi) as (rest & Hr & Hr').
  assert (∀ c, (l1 ++ c ++ l2) ++ rest ≡ₚ c ++ (l1 ++ l2 ++ rest)) as Hc.
  { intros c. rewrite <-!app_assoc. rewrite !app_assoc. f_equiv. f_equiv. apply Permutation_app_comm. }
  exists (l1 ++ l2 ++ rest). rewrite <-(Hc a).
  assert (entries m' ≡ₚ b ++ l1 ++ l2 ++ rest) as He by (unfold entries; simpl; by rewrite Hr', Hc).
  split_and!; [done|done|]. intros Hnd Hn. split; simpl; [apply Hwf| | | |].
  - rewrite length_insert. apply Hwf.
  - apply placed_insert; [apply Hwf|]. intros e. rewrite !elem_of_app. pose proof (wf_placed _ Hwf i _ e Hi) as Hp.
    rewrite !elem_of_app in Hp. specialize (Hb e). tauto.
  - by rewrite He.
  - by rewrite He.
Qed.

(** A table in construction. *)
Definition table_ok (j : Z) (t : list (list Entry)) : Prop :=
  length t = Z.to_nat (2 ^ j) ∧ placed (2 ^ j) t.

Lemma push_spec j t e :
  0 ≤ j ≤ 29 → table_ok j t → ehash e = hashKey (key e) →
  ∃ t', push (2 ^ j) t e = Returned t' ∧ table_ok j t' ∧ concat t' ≡ₚ e :: concat t.
Proof.
  intros Hj [Hlen Hp] He. unfold push. destruct (bucket_exists _ t (ehash e) j Hj eq_refl Hlen) as [l Hl].
  rewrite Hl. cbn [oderef obind]. eexists. split; [done|]. destruct (concat_bucket _ _ _ Hl) as (rest & Hr & Hr').
  split; [split|].
  - by rewrite length_insert.
  - apply placed_insert; [done|]. intros x [->|Hx]%elem_of_cons; [done|]. by eapply Hp.
  - by rewrite Hr', Hr.
Qed.

Lemma move_chain_spec j l : ∀ t,
  0 ≤ j ≤ 29 → table_ok j t → (∀ e, e ∈ l → ehash e = hashKey (key e)) →
  ∃ t', move_chain (2 ^ j) l t = Returned t' ∧ table_ok j t' ∧ concat t' ≡ₚ l ++ concat t.
Proof.
  induction l as [|e l IH]; intros t Hj Ht Hl; cbn [move_chain]; [by exists t|].
  destruct (push_spec j t e Hj Ht) as (t1 & -> & Ht1 & Hc1); [apply Hl, list_elem_of_here|]. cbn [obind].
  destruct (IH t1 Hj Ht1) as (t2 & -> & Ht2 & Hc2); [intros x Hx; apply Hl; by right|].
  exists t2. split_and!; [done|done|]. rewrite Hc2, Hc1. by rewrite <-Permutation_middle.
Qed.

Lemma move_buckets_spec j bs : ∀ t,
  0 ≤ j ≤ 29 → table_ok j t → (∀ l e, l ∈ bs → e ∈ l → ehash e = hashKey (key e)) →
  ∃ t', move_buckets (2 ^ j) bs t = Returned t' ∧ table_ok j t' ∧ concat t' ≡ₚ concat bs ++ concat t.
Proof.
  induction bs as [|l bs IH]; intros t Hj Ht Hl; cbn [move_buckets]; [by exists t|].
  destruct (move_chain_spec j l t Hj Ht) as (t1 & -> & Ht1 & Hc1); [intros e; apply Hl, list_elem_of_here|].
  cbn [obind]. destruct (IH t1 Hj Ht1) as (t2 & -> & Ht2 & Hc2); [intros x e Hx; apply Hl; by right|].
  exists t2. split_and!; [done|done|]. rewrite Hc2, Hc1. simpl. rewrite !app_assoc. f_equiv. apply Permutation_app_comm.
Qed.

Lemma table_ok_fresh j : table_ok j (replicate (Z.to_nat (2 ^ j)) []) ∧ concat (replicate (Z.to_nat (2 ^ j)) ([] : list Entry)) = [].
Proof.
  split; [split|].
  - by rewrite length_replicate.
  - intros i l e Hi. apply lookup_replicate in Hi as [-> _]. by intros ?%elem_of_nil.
  - generalize (Z.to_nat (2 ^ j)). intros n. by induction n.
Qed.

(** Growing the table moves every entry and changes nothing else; when the
    table can grow the load factor is at most 0.75 again. *)
Lemma expandIfNecessary_spec ok m :
  wf m →
  ∃ m', expandIfNecessary ok m = Returned m' ∧ wf m' ∧ entries m' ≡ₚ entries m ∧ size m' = size m ∧
    (ok = true → bucketCount m < 2 ^ 29 → size m ≤ hashmapCurrentCapacity m + 1 → size m' ≤ hashmapCurrentCapacity m').
Proof.
  intros Hwf. pose proof Hwf as [(j & Hj & Hc) Hlen Hp Hk Ht]. unfold expandIfNecessary, hashmapCurrentCapacity.
  assert (0 < 2 ^ j ≤ 2 ^ 29) as Hb by (split; [lia|apply Z.pow_le_mono_r; lia]). rewrite Hc in *.
  assert (u32 (Z.shiftl (2 ^ j) 1) = 2 ^ (j + 1)) as Hd.
  { rewrite Z.shiftl_mul_pow2, Z.pow_add_r by lia. apply u32_small. lia. }
  rewrite Hd, (u32_small (2 ^ j * 3)) by lia.
  destruct (2 ^ j * 3 / 4 <? size m) eqn:E; bool_to_prop.
  2:{ exists m. split_and!; try done. intros _ _ _. by rewrite Hc, (u32_small (2 ^ j * 3)) by lia. }
  assert (2 ^ (j + 1) = 2 * 2 ^ j) as Hd' by (rewrite Z.pow_add_r; lia).
  unfold calloc, SIZEOF_pointer. destruct ok; simpl.
  2:{ exists m. by split_and!. }
  destruct (2 ^ (j + 1) * 4 <? 2 ^ 32) eqn:E2; bool_to_prop.
  2:{ exists m. split_and!; try done. intros _ Hlt. lia. }
  assert (0 ≤ j + 1 ≤ 29) as Hj1.
  { split; [lia|]. destruct (decide (j = 29)) as [->|]; [vm_compute in E2; done|lia]. }
  destruct (table_ok_fresh (j + 1)) as [Hf0 Hf1].
  destruct (move_buckets_spec (j + 1) (buckets m) _ Hj1 Hf0) as (t & -> & [Hlt Hpt] & Hct).
  { intros l e Hl He. apply list_elem_of_lookup_1 in Hl as [i Hi]. by eapply Hp. }
  cbn [obind]. rewrite Hf1, app_nil_r in Hct. eexists. split; [done|]. split_and!; [|done|done|].
  - split; simpl; [by exists (j + 1)|done|done|..]; unfold entries; cbn [buckets size]; by rewrite Hct.
  - intros _ _ Hl. cbn [bucketCount size]. rewrite u32_small by lia. rewrite Hd'.
    pose proof (Z.div_mod (2 ^ j * 3) 4). pose proof (Z.mod_pos_bound (2 ^ j * 3) 4).
    pose proof (Z.div_mod (2 * 2 ^ j * 3) 4). pose proof (Z.mod_pos_bound (2 * 2 ^ j * 3) 4). lia.
Qed.

Lemma u32_succ_len n : u32 (u32 (Z.of_nat n) + 1) = u32 (Z.of_nat (S n)).
Proof. unfold u32. rewrite Zplus_mod_idemp_l. f_equal. lia. Qed.
Lemma u32_pred_len n : u32 (u32 (Z.of_nat (S n)) - 1) = u32 (Z.of_nat n).
Proof. unfold u32. rewrite Zminus_mod_idemp_l. f_equal. lia. Qed.

(** A new entry, at the end of its chain, and the growth of the table. *)
Lemma add_entry_spec ok m k v l :
  wf m → buckets m !! index_of m k = Some l → find_entry k (hashKey k) l = None →
  ∃ m', expandIfNecessary ok (mkMap (<[index_of m k := l ++ [mkEntry k (hashKey k) v]]> (buckets m))
                                    (bucketCount m) (u32 (size m + 1))) = Returned m' ∧
        wf m' ∧ abs m' = <[view k := v]> (abs m) ∧
        (ok = true → bucketCount m < 2 ^ 29 → size m ≤ hashmapCurrentCapacity m → size m' ≤ hashmapCurrentCapacity m').
Proof.
  intros Hwf Hl Hf. pose proof (find_abs m k l Hwf Hl) as Habs. rewrite Hf in Habs.
  set (e := mkEntry k (hashKey k) v). set (n := u32 (size m + 1)).
  destruct (wf_update m (index_of m k) l [] [e] [] n Hwf) as (rest & Hr & Hr' & Hwf1).
  { by rewrite app_nil_r. }
  { intros x ->%list_elem_of_singleton. subst e. unfold index_of. cbn [key ehash]. done. }
  assert (NoDup (ent <$> e :: entries m).*1) as Hnd.
  { rewrite !fmap_cons. apply NoDup_cons. split; [|apply Hwf]. by apply not_elem_of_list_to_map_2. }
  cbn [app] in Hr, Hr', Hwf1. rewrite <-Hr in Hr'.
  assert (wf (mkMap (<[index_of m k := l ++ [e]]> (buckets m)) (bucketCount m) n)) as Hwf2.
  { apply Hwf1; [by rewrite <-Hr|]. cbn [length]. rewrite <-Hr. subst n. rewrite (wf_total _ Hwf). apply u32_succ_len. }
  destruct (expandIfNecessary_spec ok _ Hwf2) as (m' & -> & Hwf3 & He & Hs & Hload). exists m'. split_and!; try done.
  - unfold abs. rewrite (absl_perm (entries m') (e :: entries m)); [done|apply Hwf3|]. by rewrite He, Hr'.
  - cbn [bucketCount size] in *. unfold hashmapCurrentCapacity in *. cbn [bucketCount] in *.
    intros Hok Hc Hsz. apply Hload; [done|done|]. pose proof (wf_total _ Hwf). pose proof (u32_range (Z.of_nat (length (entries m)))).
    assert (n ≤ size m + 1); [|lia]. subst n. unfold u32. apply Z.mod_le; lia.
Qed.

(** An entry in the chain, put in front of the others. *)
Lemma entry_front m i l1 e l2 b n :
  wf m → buckets m !! i = Some (l1 ++ e :: l2) →
  (∀ x, x ∈ b → ehash x = hashKey (key x) ∧ Z.to_nat (calculateIndex (bucketCount m) (ehash x)) = i) →
  let m' := mkMap (<[i := l1 ++ b ++ l2]> (buckets m)) (bucketCount m) n in
  ∃ rest, abs m = <[view (key e) := value e]> (absl rest) ∧ absl rest !! view (key e) = None ∧
    NoDup (ent <$> e :: rest).*1 ∧ size m = u32 (Z.of_nat (S (length rest))) ∧ entries m' ≡ₚ b ++ rest ∧
    (NoDup (ent <$> b ++ rest).*1 → n = u32 (Z.of_nat (length (b ++ rest))) → wf m').
Proof.
  intros Hwf Hi Hb m'. destruct (wf_update m i l1 [e] b l2 n Hwf Hi Hb) as (rest & Hr & Hr' & Hwf').
  assert (NoDup (ent <$> e :: rest).*1) as Hnd by (pose proof (wf_keys _ Hwf) as Hk; by rewrite Hr in Hk).
  exists rest. split_and!; [|by apply absl_none|done| |done|done].
  - unfold abs. rewrite (absl_perm (entries m) (e :: rest)); [done|apply Hwf|done].
  - by rewrite (wf_total _ Hwf), Hr.
Qed.

Lemma replace_entry_spec m k v l1 e l2 :
  wf m → buckets m !! index_of m k = Some (l1 ++ e :: l2) → view (key e) = view k →
  let m' := mkMap (<[index_of m k := l1 ++ mkEntry (key e) (ehash e) v :: l2]> (buckets m)) (bucketCount m) (size m) in
  wf m' ∧ abs m' = <[view k := v]> (abs m).
Proof.
  intros Hwf Hi Hv. set (e' := mkEntry (key e) (ehash e) v).
  destruct (entry_front m _ l1 e l2 [e'] (size m) Hwf Hi) as (rest & Ha & Hn & Hnd & Hs & He & Hwf').
  { intros x ->%list_elem_of_singleton. apply (wf_placed _ Hwf _ _ e Hi), elem_of_app. right. apply list_elem_of_here. }
  specialize (Hwf' Hnd Hs). split; [exact Hwf'|]. unfold abs at 1.
  rewrite (absl_perm _ (e' :: rest)); [|apply Hwf'|exact He].
  rewrite Ha, absl_cons. cbn [key value e']. by rewrite <-Hv, insert_insert_eq.
Qed.

Lemma cut_entry_spec m k l1 e l2 :
  wf m → buckets m !! index_of m k = Some (l1 ++ e :: l2) → view (key e) = view k →
  let m' := mkMap (<[index_of m k := l1 ++ l2]> (buckets m)) (bucketCount m) (u32 (size m - 1)) in
  wf m' ∧ abs m' = delete (view k) (abs m).
Proof.
  intros Hwf Hi Hv.
  destruct (entry_front m _ l1 e l2 [] (u32 (size m - 1)) Hwf Hi) as (rest & Ha & Hn & Hnd & Hs & He & Hwf').
  { by intros x ?%elem_of_nil. }
  rewrite !fmap_cons in Hnd. apply NoDup_cons in Hnd as [_ Hnd].
  rewrite Hs, u32_pred_len in Hwf' |- *. specialize (Hwf' Hnd eq_refl). split; [exact Hwf'|]. unfold abs at 1.
  rewrite (absl_perm _ rest); [|apply Hwf'|exact He]. by rewrite Ha, <-Hv, delete_insert_id.
Qed.

(** The lookups of a hash map are those of the finite map it stands for, and its
    size is the number of entries of that map (modulo the width). *)
Lemma hashmapGet_refines m k :
  wf m →
  hashmapGet m k = Returned (default 0 (abs m !! view k)) ∧
  hashmapContainsKey m k = Returned (bool_decide (is_Some (abs m !! view k))) ∧
  hashmapSize m = u32 (Z.of_nat (base.size (abs m))).
Proof.
  intros Hwf. destruct (wf_bucket m k Hwf) as [l Hl]. pose proof (find_abs m k l Hwf Hl) as Hf.
  unfold hashmapGet, hashmapContainsKey, index_of in *. rewrite Hl. cbn [oderef obind]. split_and!.
  - destruct (find_entry k (hashKey k) l); [by destruct Hf as [-> _]|by rewrite Hf].
  - destruct (find_entry k (hashKey k) l); [destruct Hf as [-> _]; by rewrite bool_decide_true|].
    rewrite Hf. rewrite bool_decide_false; [done|]. by intros [? ?].
  - unfold hashmapSize, abs, absl. rewrite (wf_total _ Hwf), map_size_list_to_map by apply Hwf. by rewrite length_fmap.
Qed.

(** [hashmapPut] returns the value the key had, or [NULL], and the map then
    stands for the finite map with the key bound to the new value, however
    the table grows; only a new key whose entry cannot be allocated leaves
    the map alone and sets [errno].  While the table can grow, the load stays
    within three quarters of the buckets. *)
Lemma hashmapPut_spec entry_ok table_ok m k v :
  wf m →
  ∃ r err m', hashmapPut entry_ok table_ok m k v = Returned (r, err, m') ∧ wf m' ∧
    r = default 0 (abs m !! view k) ∧
    (if bool_decide (is_Some (abs m !! view k)) || entry_ok
     then err = None ∧ abs m' = <[view k := v]> (abs m)
     else err = Some ENOMEM ∧ m' = m) ∧
    (table_ok = true → bucketCount m < 2 ^ 29 → size m ≤ hashmapCurrentCapacity m → size m' ≤ hashmapCurrentCapacity m').
Proof.
  intros Hwf. destruct (wf_bucket m k Hwf) as [l Hl]. pose proof (find_abs m k l Hwf Hl) as Hf.
  unfold hashmapPut. change (Z.to_nat (calculateIndex (bucketCount m) (hashKey k))) with (index_of m k).
  rewrite Hl. cbn [oderef obind]. set (upd := λ e, mkEntry (key e) (ehash e) v).
  destruct (find_entry k (hashKey k) l) as [e|] eqn:E.
  - destruct Hf as [Habs Hv]. rewrite Habs, bool_decide_true by done.
    apply (walks_found _ _ upd) in E as (l1 & l2 & -> & -> & _ & _).
    destruct (replace_entry_spec m k v l1 e l2 Hwf Hl Hv) as [Hwf' Habs'].
    do 3 eexists. split; [done|]. cbn [orb default]. split_and!; done.
  - rewrite Hf. apply (walks_none _ _ upd) in E as Hw. destruct Hw as (-> & _ & _).
    rewrite bool_decide_false by (by intros [? ?]). destruct entry_ok; cbn [createEntry orb].
    + destruct (add_entry_spec table_ok m k v l Hwf Hl E) as (m' & -> & Hwf' & Habs & Hload).
      cbn [obind]. do 3 eexists. by split_and!.
    + do 3 eexists. split; [done|]. by split_and!.
Qed.

Lemma hashmapRemove_spec m k :
  wf m →
  ∃ m', hashmapRemove m k = Returned (default 0 (abs m !! view k), m') ∧ wf m' ∧ abs m' = delete (view k) (abs m).
Proof.
  intros Hwf. destruct (wf_bucket m k Hwf) as [l Hl]. pose proof (find_abs m k l Hwf Hl) as Hf.
  unfold hashmapRemove. change (Z.to_nat (calculateIndex (bucketCount m) (hashKey k))) with (index_of m k).
  rewrite Hl. cbn [oderef obind]. destruct (find_entry k (hashKey k) l) as [e|] eqn:E.
  - destruct Hf as [Habs Hv]. rewrite Habs. apply (walks_found _ _ id) in E as (l1 & l2 & -> & _ & -> & _).
    destruct (cut_entry_spec m k l1 e l2 Hwf Hl Hv) as [Hwf' Habs']. eexists. split; [done|]. split; done.
  - rewrite Hf. apply (walks_none _ _ id) in E as (_ & -> & _). exists m. split_and!; [done|done|].
    by rewrite delete_id.
Qed.

Lemma hashmapMemoize_spec {C} entry_ok table_ok m k (init : Z → C → Z) c :
  wf m →
  ∃ r err m', hashmapMemoize entry_ok table_ok m k init c = Returned (r, err, m') ∧ wf m' ∧
    match abs m !! view k with
    | Some v => r = v ∧ err = None ∧ m' = m
    | None => if entry_ok then r = init k c ∧ err = None ∧ abs m' = <[view k := init k c]> (abs m)
              else r = 0 ∧ err = Some ENOMEM ∧ m' = m
    end.
Proof.
  intros Hwf. destruct (wf_bucket m k Hwf) as [l Hl]. pose proof (find_abs m k l Hwf Hl) as Hf.
  unfold hashmapMemoize. change (Z.to_nat (calculateIndex (bucketCount m) (hashKey k))) with (index_of m k).
  rewrite Hl. cbn [oderef obind]. destruct (find_entry k (hashKey k) l) as [e|] eqn:E.
  - destruct Hf as [Habs _]. rewrite Habs. do 3 eexists. split; [done|]. by split_and!.
  - rewrite Hf. destruct entry_ok; cbn [negb].
    + destruct (add_entry_spec table_ok m k (init k c) l Hwf Hl E) as (m' & -> & Hwf' & Habs & _).
      cbn [obind]. do 3 eexists. by split_and!.
    + do 3 eexists. split; [done|]. by split_and!.
Qed.

(** The loop of [hashmapCreate] ends with a power of two. *)
Lemma grow_spec fuel : ∀ j minimum,
  0 ≤ j ≤ 31 → 0 ≤ minimum < 2 ^ 31 → (Z.to_nat (31 - j) ≤ fuel)%nat →
  ∃ j', grow fuel (2 ^ j) minimum = Some (2 ^ j') ∧ j ≤ j' ≤ 31 ∧ minimum < 2 ^ j' ∧ (j' = j ∨ 2 ^ (j' - 1) ≤ minimum).
Proof.
  induction fuel as [|fuel IH]; intros j minimum Hj Hm Hf; cbn [grow].
  - assert (j = 31) as -> by lia. destruct (2 ^ 31 <=? minimum) eqn:E; bool_to_prop; [lia|].
    exists 31. split_and!; try done; try lia.
  - destruct (2 ^ j <=? minimum) eqn:E; bool_to_prop.
    2:{ exists j. split_and!; try done; try lia. }
    assert (j < 31) by (destruct (decide (j = 31)) as [->|]; lia).
    assert (0 < 2 ^ j ≤ 2 ^ 30) by (split; [lia|apply Z.pow_le_mono_r; lia]).
    replace (u32 (Z.shiftl (2 ^ j) 1)) with (2 ^ (j + 1))
      by (rewrite Z.shiftl_mul_pow2, Z.pow_add_r, u32_small by lia; lia).
    destruct (IH (j + 1) minimum) as (j' & -> & Hj' & Hlt & Hor); [lia|lia|lia|].
    exists j'. split_and!; [done|lia|lia|lia|]. right. destruct Hor as [-> |]; [|done]. by replace (j + 1 - 1) with j by lia.
Qed.

Lemma hashmapCreate_spec map_ok table_ok cap :
  0 ≤ cap < 2 ^ 32 →
  ∃ r, hashmapCreate map_ok table_ok cap = Some r ∧
    (map_ok = true → table_ok = true → cap < 3 * 2 ^ 27 → is_Some r) ∧
    ∀ m, r = Some m → wf m ∧ abs m = ∅ ∧ hashmapSize m = 0 ∧ (cap < 2 ^ 30 → cap ≤ hashmapCurrentCapacity m).
Proof.
  intros Hcap. unfold hashmapCreate. destruct map_ok; cbn [negb]; [|by exists None].
  pose proof (u32_range (cap * 4)). assert (0 ≤ u32 (cap * 4) / 3 < 2 ^ 31) as Hmin.
  { split; [apply Z.div_pos; lia|apply Z.div_lt_upper_bound; lia]. }
  destruct (grow_spec 32 0 (u32 (cap * 4) / 3)) as (j & Hg & Hj & Hlt & Hor); [lia|done|lia|].
  change (2 ^ 0) with 1 in Hg. rewrite Hg. cbn [mbind option_bind]. eexists. split; [done|].
  unfold calloc, SIZEOF_pointer. split.
  - intros _ -> Hc. rewrite u32_small in Hor by lia.
    assert (cap * 4 / 3 < 2 ^ 29) by (apply Z.div_lt_upper_bound; lia). assert (j ≤ 29).
    { destruct Hor as [->|Hor]; [lia|]. destruct (decide (j ≤ 29)); [done|].
      assert (2 ^ 29 ≤ 2 ^ (j - 1)) by (apply Z.pow_le_mono_r; lia). lia. }
    assert (2 ^ j ≤ 2 ^ 29) by (apply Z.pow_le_mono_r; lia).
    destruct (2 ^ j * 4 <? 2 ^ 32) eqn:E; bool_to_prop; [simpl; eauto|lia].
  - intros m. destruct table_ok; [|done]. destruct (2 ^ j * 4 <? 2 ^ 32) eqn:E; bool_to_prop; [|done].
    cbn [andb]. intros [= <-]. assert (j ≤ 29).
    { destruct (decide (j ≤ 29)); [done|]. assert (2 ^ 30 ≤ 2 ^ j) by (apply Z.pow_le_mono_r; lia). lia. }
    assert (2 ^ j ≤ 2 ^ 29) by (apply Z.pow_le_mono_r; lia).
    destruct (table_ok_fresh j) as [[Hlen Hp] Hc]. split_and!; [|by unfold abs, entries; cbn [buckets]; rewrite Hc|done|].
    + split; cbn [bucketCount buckets size]; [exists j; lia|done|done|..]; unfold entries; cbn [buckets]; rewrite Hc;
        [apply NoDup_nil_2|done].
    + intros Hc30. unfold hashmapCurrentCapacity. cbn [bucketCount]. rewrite u32_small in Hlt by lia. rewrite u32_small by lia.
      pose proof (Z.div_mod (cap * 4) 3). pose proof (Z.mod_pos_bound (cap * 4) 3).
      apply Z.div_le_lower_bound; lia.
Qed.

(** ** Sequences of operations *)

Inductive op := OPut (k v : Z) | OGet (k : Z) | OContains (k : Z) | ORemove (k : Z) | OMemoize (k v : Z) | OSize.

(** An operation on the hash map: its answer, and what it sets [errno] to.  The
    two [bool]s answer the allocations of an entry and of a table. *)
Definition run_op (oks : bool * bool) (m : Hashmap) (o : op) : outcome (Z * option Z * Hashmap) :=
  match o with
  | OPut k v => hashmapPut oks.1 oks.2 m k v
  | OGet k => let! r := hashmapGet m k in Returned (r, None, m)
  | OContains k => let! r := hashmapContainsKey m k in Returned (if r then 1 else 0, None, m)
  | ORemove k => let! (r, m') := hashmapRemove m k in Returned (r, None, m')
  | OMemoize k v => hashmapMemoize oks.1 oks.2 m k (λ _ _, v) ()
  | OSize => Returned (hashmapSize m, None, m)
  end.

(** The same operation on a finite map; only the allocation of an entry shows. *)
Definition spec_op (entry_ok : bool) (g : gmap A Z) (o : op) : Z * option Z * gmap A Z :=
  match o with
  | OPut k v => if bool_decide (is_Some (g !! view k)) || entry_ok
                then (default 0 (g !! view k), None, <[view k := v]> g) else (0, Some ENOMEM, g)
  | OGet k => (default 0 (g !! view k), None, g)
  | OContains k => (if bool_decide (is_Some (g !! view k)) then 1 else 0, None, g)
  | ORemove k => (default 0 (g !! view k), None, delete (view k) g)
  | OMemoize k v => match g !! view k with
                    | Some v' => (v', None, g)
                    | None => if entry_ok then (v, None, <[view k := v]> g) else (0, Some ENOMEM, g)
                    end
  | OSize => (u32 (Z.of_nat (base.size g)), None, g)
  end.

Fixpoint run (m : Hashmap) (l : list (bool * bool * op)) : outcome (list (Z * option Z) * Hashmap) :=
  match l with
  | [] => Returned ([], m)
  | (oks, o) :: l' =>
      let! (a, m1) := run_op oks m o in let! (r, m2) := run m1 l' in Returned (a :: r, m2)
  end.
Fixpoint spec_run (g : gmap A Z) (l : list (bool * bool * op)) : list (Z * option Z) * gmap A Z :=
  match l with
  | [] => ([], g)
  | (oks, o) :: l' => let '(a, g1) := spec_op oks.1 g o in let '(r, g2) := spec_run g1 l' in (a :: r, g2)
  end.

Lemma run_op_refines oks m o :
  wf m → ∃ a m', run_op oks m o = Returned (a, m') ∧ wf m' ∧ spec_op oks.1 (abs m) o = (a, abs m').
Proof.
  intros Hwf. destruct o as [k v|k|k|k|k v|]; cbn [run_op spec_op].
  - destruct (hashmapPut_spec oks.1 oks.2 m k v Hwf) as (r & err & m' & -> & Hwf' & -> & Hs & _).
    do 2 eexists. split_and!; [done|done|].
    destruct (bool_decide (is_Some (abs m !! view k)) || oks.1) eqn:E; destruct Hs as [-> Hs]; [by rewrite Hs|].
    apply orb_false_iff in E as [E _]. apply bool_decide_eq_false in E. apply eq_None_not_Some in E. by rewrite E, Hs.
  - destruct (hashmapGet_refines m k Hwf) as (-> & _ & _). by do 2 eexists.
  - destruct (hashmapGet_refines m k Hwf) as (_ & -> & _). by do 2 eexists.
  - destruct (hashmapRemove_spec m k Hwf) as (m' & -> & Hwf' & Hd). cbn [obind]. do 2 eexists. split_and!; [done|done|]. by rewrite Hd.
  - destruct (hashmapMemoize_spec oks.1 oks.2 m k (λ _ _, v) () Hwf) as (r & err & m' & -> & Hwf' & Hs).
    do 2 eexists. split_and!; [done|done|]. destruct (abs m !! view k); [by destruct Hs as (-> & -> & ->)|].
    destruct oks.1; destruct Hs as (-> & -> & Hs); by rewrite Hs.
  - destruct (hashmapGet_refines m 0 Hwf) as (_ & _ & <-). by do 2 eexists.
Qed.

Lemma run_refines l : ∀ m, wf m → ∃ r m', run m l = Returned (r, m') ∧ wf m' ∧ spec_run (abs m) l = (r, abs m').
Proof.
  induction l as [|[oks o] l IH]; intros m Hwf; cbn [run spec_run]; [by do 2 eexists|].
  destruct (run_op_refines oks m o Hwf) as (a & m1 & -> & Hwf1 & ->). cbn [obind].
  destruct (IH m1 Hwf1) as (r & m2 & -> & Hwf2 & ->). cbn [obind]. by do 2 eexists.
Qed.

(** C4: A hash map is a finite map: from a map that [hashmapCreate] made for any
    capacity, every sequence of operations, whatever its allocations do, runs
    without touching memory out of bounds, gives the answers a finite map
    keyed by what the keys point to gives, and ends in a hash map that stands
    for that finite map. *)
Theorem hashmap_refines cap m0 l :
  0 ≤ cap < 2 ^ 32 → hashmapCreate true true cap = Some (Some m0) →
  ∃ r m, run m0 l = Returned (r, m) ∧ wf m ∧ spec_run ∅ l = (r, abs m).
Proof.
  intros Hcap Hc. destruct (hashmapCreate_spec true true cap Hcap) as (r & Hr & _ & Hm).
  rewrite Hc in Hr. injection Hr as <-. destruct (Hm m0 eq_refl) as (Hwf & Habs & _).
  destruct (run_refines l m0 Hwf) as (r & m & ? & ? & Hs). rewrite Habs in Hs. eauto.
Qed.

(** While its tables can be allocated a map keeps the number of its entries
    within three quarters of its buckets: a map within that bound is within
    it after [hashmapPut]. *)
Theorem hashmapPut_load entry_ok m k v :
  wf m → bucketCount m < 2 ^ 29 → hashmapSize m ≤ hashmapCurrentCapacity m →
  ∃ r err m', hashmapPut entry_ok true m k v = Returned (r, err, m') ∧ wf m' ∧
              hashmapSize m' ≤ hashmapCurrentCapacity m'.
Proof.
  intros Hwf Hb Hl. destruct (hashmapPut_spec entry_ok true m k v Hwf) as (r & err & m' & ? & ? & _ & _ & Hload).
  exists r, err, m'. split_and!; [done|done|]. by apply Hload.
Qed.

(** C38: [hashmapCreate] ends for every capacity; the map it makes is empty and,
    below 2^30, takes the number of entries asked for without growing, and it
    fails only when an allocation does, below 3 * 2^27 entries. *)
Theorem hashmapCreate_correct map_ok table_ok cap :
  0 ≤ cap < 2 ^ 32 →
  ∃ r, hashmapCreate map_ok table_ok cap = Some r ∧
    (map_ok = true → table_ok = true → cap < 3 * 2 ^ 27 → is_Some r) ∧
    ∀ m, r = Some m → wf m ∧ abs m = ∅ ∧ (cap < 2 ^ 30 → cap ≤ hashmapCurrentCapacity m).
Proof.
  intros Hcap. destruct (hashmapCreate_spec map_ok table_ok cap Hcap) as (r & ? & ? & Hm).
  exists r. split_and!; [done|done|]. intros m Hr. destruct (Hm m Hr) as (? & ? & _ & ?). done.
Qed.

(** A walk over pairs of keys and values that stops when the callback says so. *)
Section visit.
Context {C : Type} (callback : Z → Z → C → bool * C).
Fixpoint visit (l : list (Z * Z)) (c : C) : bool * C :=
  match l with
  | [] => (true, c)
  | (k, v) :: l' => let '(go, c') := callback k v c in if go then visit l' c' else (false, c')
  end.

Lemma visit_app l1 l2 c :
  visit (l1 ++ l2) c = let '(go, c') := visit l1 c in if go then visit l2 c' else (false, c').
Proof.
  revert c. induction l1 as [|[k v] l1 IH]; intros c; simpl; [by destruct (visit l2 c)|].
  destruct (callback k v c) as [[] c']; [apply IH|done].
Qed.

Lemma each_chain_visit l c : each_chain callback l c = visit ((λ e, (key e, value e)) <$> l) c.
Proof.
  revert c. induction l as [|e l IH]; intros c; [done|]. rewrite fmap_cons. cbn [each_chain visit].
  destruct (callback (key e) (value e) c) as [[] c']; [apply IH|done].
Qed.

Lemma each_bucket_visit bs c : each_bucket callback bs c = visit ((λ e, (key e, value e)) <$> concat bs) c.
Proof.
  revert c. induction bs as [|l bs IH]; intros c; [done|]. cbn [each_bucket concat].
  rewrite fmap_app, visit_app, each_chain_visit.
  destruct (visit ((λ e, (key e, value e)) <$> l) c) as [[] c']; [apply IH|done].
Qed.

(** C39: [hashmapForEach] calls back for the pairs of a list that holds every
    entry of the finite map once, until the callback says to stop. *)
Theorem hashmapForEach_complete m c :
  wf m →
  ∃ l, (prod_map view id <$> l) ≡ₚ map_to_list (abs m) ∧ hashmapForEach callback m c = snd (visit l c).
Proof.
  intros Hwf. exists ((λ e, (key e, value e)) <$> entries m). split.
  - unfold abs, absl. rewrite map_to_list_to_map by apply Hwf. rewrite <-list_fmap_compose. done.
  - unfold hashmapForEach. by rewrite each_bucket_visit.
Qed.
End visit.

End laws.

(** ** A map of three [int] keys, two of them equal *)

Definition demo_mem (a : Z) : Z := if a =? 16 then 5 else if a =? 20 then 9 else if a =? 24 then 5 else 0.
#[local] Instance demo_keys : KeyOps := IntKeyOps demo_mem.
Definition demo_map : Hashmap := mkMap [[]; []] 2 0.
Definition demo_ops : list (bool * bool * op) :=
  [(true, true, OPut 16 100); (true, true, OPut 20 200); (true, false, OPut 24 300);
   (false, true, OPut 28 400); (true, true, OGet 16); (true, true, ORemove 20); (true, true, OContains 20);
   (true, true, OSize)].

Lemma demo_map_wf : wf (A := Z) demo_map ∧ abs (A := Z) demo_map = ∅.
Proof.
  destruct (hashmapCreate_spec (A := Z) true true 1 ltac:(lia)) as (r & Hr & _ & Hm).
  vm_compute in Hr. injection Hr as <-. by destruct (Hm demo_map eq_refl) as (? & ? & _).
Qed.

Lemma hashmap_refines_witness :
  hashmapCreate true true 1 = Some (Some demo_map) ∧
  ∃ r m, run demo_map demo_ops = Returned (r, m) ∧ wf (A := Z) m ∧
    r = [(0, None); (0, None); (100, None); (0, Some ENOMEM); (300, None); (200, None); (0, None); (1, None)].
Proof.
  assert (hashmapCreate true true 1 = Some (Some demo_map)) as Hc by reflexivity. split; [done|].
  destruct (hashmap_refines (A := Z) 1 demo_map demo_ops ltac:(lia) Hc) as (r & m & Hr & Hwf & _).
  exists r, m. split_and!; [done|done|]. clear Hwf. vm_compute in Hr. by injection Hr as <- _.
Defined.

Lemma hashmapPut_load_witness :
  hashmapSize demo_map ≤ hashmapCurrentCapacity demo_map ∧
  ∃ r err m', hashmapPut true true demo_map 16 7 = Returned (r, err, m') ∧ hashmapSize m' = 1 ∧
              hashmapSize m' ≤ hashmapCurrentCapacity m'.
Proof.
  split; [by vm_compute|].
  destruct (hashmapPut_load (A := Z) true demo_map 16 7) as (r & err & m' & Hr & _ & Hl);
    [apply demo_map_wf|by vm_compute|by vm_compute|].
  exists r, err, m'. split; [done|]. split; [|done]. clear Hl. vm_compute in Hr. by injection Hr as <- <- <-.
Defined.

Lemma hashmapCreate_correct_witness :
  ∃ m, hashmapCreate true true 100 = Some (Some m) ∧ wf (A := Z) m ∧ 100 ≤ hashmapCurrentCapacity m.
Proof.
  destruct (hashmapCreate_correct (A := Z) true true 100 ltac:(lia)) as (r & Hr & His & Hm).
  destruct His as [m ->]; [done|done|lia|]. destruct (Hm m eq_refl) as (Hwf & _ & Hc).
  exists m. split_and!; [done|done|]. apply Hc. lia.
Defined.

Lemma hashmapForEach_complete_witness :
  ∃ r m l, run demo_map [(true, true, OPut 16 100); (true, true, OPut 20 200)] = Returned (r, m) ∧ wf (A := Z) m ∧
    (prod_map (view (A := Z)) id <$> l) ≡ₚ map_to_list (abs (A := Z) m) ∧
    hashmapForEach (λ k v c, (true, c + v)) m 0 = snd (visit (λ k v c, (true, c + v)) l 0) ∧
    hashmapForEach (λ k v c, (true, c + v)) m 0 = 300.
Proof.
  destruct (run_refines (A := Z) [(true, true, OPut 16 100); (true, true, OPut 20 200)] demo_map (proj1 demo_map_wf))
    as (r & m & Hr & Hwf & _).
  destruct (hashmapForEach_complete (A := Z) (λ k v c, (true, c + v)) m 0 Hwf) as (l & Hl & He).
  exists r, m, l. split_and!; [done|done|done|done|]. clear Hl He Hwf. vm_compute in Hr. by injection Hr as <- <-.
Defined.

End HM.
