(* ===== verification/HiMsgQueue.v ===== *)
(** The message queue of [hi_msg_queue.c]: a fixed set of messages on two linked
    lists, those that are free and those that were sent, each with a semaphore
    that counts it and a mutex.  A list is changed in a critical section; the
    semaphore is changed outside of it, so threads interleave between the two. *)

From S2P Require Import Prelude.

Module HQ.

Definition SIZEOF_message_hdr_t : Z := 4.

Record message_half_t := mkHalf { message_half_head : Z; message_half_tail : Z; message_half_sem : Z }.

Inductive half := Free | Queue.
#[global] Instance half_eq_dec : EqDecision half.
Proof. solve_decision. Defined.

(** [message_queue_t], with the [message_hdr_next] of the messages by address. *)
Record message_queue_t := mkQueue {
  message_hdr_next : gmap Z Z;
  message_queue_free : message_half_t;
  message_queue_queue : message_half_t;
  message_queue_memory : Z
}.

Definition get_half (q : message_queue_t) (w : half) : message_half_t :=
  match w with Free => message_queue_free q | Queue => message_queue_queue q end.
Definition set_half (q : message_queue_t) (w : half) (h : message_half_t) : message_queue_t :=
  match w with
  | Free => mkQueue (message_hdr_next q) h (message_queue_queue q) (message_queue_memory q)
  | Queue => mkQueue (message_hdr_next q) (message_queue_free q) h (message_queue_memory q)
  end.
Definition set_next (q : message_queue_t) (n : gmap Z Z) : message_queue_t :=
  mkQueue n (message_queue_free q) (message_queue_queue q) (message_queue_memory q).

(** Writing [message_hdr_next]: the address must be one of the messages'. *)
Definition store_next (q : message_queue_t) (a v : Z) : outcome message_queue_t :=
  let! _ := oderef (message_hdr_next q !! a) in Returned (set_next q (<[a := v]> (message_hdr_next q))).

(** The critical section of [message_half_add]. *)
Definition half_link (q : message_queue_t) (w : half) (Message : Z) : outcome message_queue_t :=
  let! q1 := store_next q Message 0 in
  let h := get_half q1 w in
  if message_half_head h =? 0
  then Returned (set_half q1 w (mkHalf Message Message (message_half_sem h)))
  else let! q2 := store_next q1 (message_half_tail h) Message in
       Returned (set_half q2 w (mkHalf (message_half_head h) Message (message_half_sem h))).

(** [sem_post], and [sem_wait] and [sem_trywait] where they can pass. *)
Definition half_post (q : message_queue_t) (w : half) : message_queue_t :=
  let h := get_half q w in
  set_half q w (mkHalf (message_half_head h) (message_half_tail h) (message_half_sem h + 1)).
Definition half_wait (q : message_queue_t) (w : half) : option message_queue_t :=
  let h := get_half q w in
  if 0 <? message_half_sem h
  then Some (set_half q w (mkHalf (message_half_head h) (message_half_tail h) (message_half_sem h - 1)))
  else None.

(** The critical section of [message_half_remove]; it reads through the head
    without a test. *)
Definition half_unlink (q : message_queue_t) (w : half) : outcome (Z * message_queue_t) :=
  let h := get_half q w in
  let Message := message_half_head h in
  let! n := oderef (message_hdr_next q !! Message) in
  Returned (u32 (Message + SIZEOF_message_hdr_t), set_half q w (mkHalf n (message_half_tail h) (message_half_sem h))).

(** [message_half_add] and [message_half_remove] without interference; a
    remove that has to wait is [None]. *)
Definition message_half_add (q : message_queue_t) (w : half) (UsrMessage : Z) : outcome message_queue_t :=
  if UsrMessage =? 0 then Returned q
  else let! q1 := half_link q w (u32 (UsrMessage - SIZEOF_message_hdr_t)) in Returned (half_post q1 w).
Definition message_half_remove (q : message_queue_t) (w : half) : option (outcome (Z * message_queue_t)) :=
  q1 ← half_wait q w; Some (half_unlink q1 w).

Definition message_send (q : message_queue_t) (Message : Z) := message_half_add q Queue Message.
Definition message_receive (q : message_queue_t) := message_half_remove q Queue.
Definition message_claim (q : message_queue_t) := message_half_remove q Free.
Definition message_release (q : message_queue_t) (Message : Z) := message_half_add q Free Message.

Definition HI_MsgGetAmount (q : message_queue_t) : Z := message_half_sem (message_queue_queue q).

(** [PrevMsgP] of [message_init_generic]: the head of the free half or the link
    of a message.  A link is written only inside the memory. *)
Definition store_prev (memory bytes : Z) (prev : option Z) (v : Z) (st : Z * gmap Z Z) : outcome (Z * gmap Z Z) :=
  match prev with
  | None => Returned (v, snd st)
  | Some a => if (memory <=? a) && (a + SIZEOF_message_hdr_t <=? memory + bytes)
              then Returned (fst st, <[a := v]> (snd st)) else Undefined
  end.

(** Its loop, for the turns that are left. *)
Fixpoint init_loop (turns : nat) (memory bytes Needed : Z) (prev : option Z) (CurrMsg : Z) (st : Z * gmap Z Z)
  : outcome (option Z * Z * (Z * gmap Z Z)) :=
  match turns with
  | O => Returned (prev, CurrMsg, st)
  | S turns =>
      let! st1 := store_prev memory bytes prev CurrMsg st in
      init_loop turns memory bytes Needed (Some CurrMsg) (u32 (CurrMsg + Needed)) st1
  end.

Definition align4 (x : Z) : Z := Z.land (u32 (x + 3)) 0xFFFFFFFC.

(** [message_init_generic] on memory of [bytes] bytes that is there. *)
Definition message_init_generic (memory bytes ElementSize NoElements : Z) : outcome message_queue_t :=
  let Needed := u32 (align4 ElementSize + SIZEOF_message_hdr_t) in
  let! (prev, CurrMsg, st) := init_loop (Z.to_nat (NoElements - 1)) memory bytes Needed None memory (0, ∅) in
  let! st1 := store_prev memory bytes prev CurrMsg st in
  let! st2 := store_prev memory bytes (Some CurrMsg) 0 st1 in
  Returned (mkQueue (snd st2) (mkHalf (fst st2) CurrMsg NoElements) (mkHalf 0 0 0) memory).

(** [message_create_generic]; the arguments answer its allocations. *)
Definition message_create_generic (messages : option Z) (queue_ok : bool) (ElementSize NoElements : Z)
  : outcome (option message_queue_t) :=
  let ElementSize := align4 ElementSize in
  let Needed := u32 (ElementSize + SIZEOF_message_hdr_t) in
  match messages with
  | None => Returned None
  | Some memory =>
      if queue_ok
      then let! q := message_init_generic memory (u32 (Needed * NoElements)) ElementSize NoElements in
           Returned (Some q)
      else Returned None
  end.
Definition HI_MsgQueueCreate := message_create_generic.

(** [semaphore_wait_timeout]: [avail i] is whether the [i]-th [sem_trywait]
    passes.  [None] is running out of fuel. *)
Fixpoint semaphore_wait_timeout (fuel : nat) (avail : nat → bool) (i : nat) (time_out time_out_ms : Z) : option Z :=
  match fuel with
  | O => None
  | S fuel =>
      if u32 time_out <=? time_out_ms
      then if avail i then Some 0
           else if u32 time_out =? time_out_ms then Some (-1)
           else semaphore_wait_timeout fuel avail (S i) (s32 (time_out + 10)) time_out_ms
      else Some (-1)
  end.

(** [message_half_remove_timeout]; [q] is the queue when the wait is over. *)
Definition message_half_remove_timeout (fuel : nat) (avail : nat → bool) (q : message_queue_t) (w : half) (time_out : Z)
  : option (outcome (Z * message_queue_t)) :=
  result ← semaphore_wait_timeout fuel avail 0 0 time_out;
  if result =? -1 then Some (Returned (0, q))
  else q1 ← half_wait q w; Some (half_unlink q1 w).
Definition message_receive_timeout fuel avail (q : message_queue_t) (time_out : Z) :=
  message_half_remove_timeout fuel avail q Queue time_out.
Definition message_claim_timeout fuel avail (q : message_queue_t) (time_out : Z) :=
  message_half_remove_timeout fuel avail q Free time_out.

Definition HI_MsgClaim fuel avail (q : message_queue_t) (Timeout_MS : Z) :=
  if Timeout_MS =? 0 then message_claim q else message_claim_timeout fuel avail q Timeout_MS.
Definition HI_MsgReceive fuel avail (q : message_queue_t) (Timeout_MS : Z) :=
  if Timeout_MS =? 0 then message_receive q else message_receive_timeout fuel avail q Timeout_MS.
Definition HI_MsgSend (q : message_queue_t) (Message : Z) := message_send q Message.
Definition HI_MsgRelease (q : message_queue_t) (Message : Z) := message_release q Message.

(** ** Threads *)

(** Where a thread is in its call: it linked a message and has to post, or it
    passed the semaphore and has to unlink. *)
Inductive pc := Idle | Linked (w : half) | Waited (w : half).
#[global] Instance pc_eq_dec : EqDecision pc.
Proof. solve_decision. Defined.

(** The queue, the messages in the hands of its users, and the threads. *)
Record sys := mkSys { queue : message_queue_t; held : list Z; pcs : list pc }.

Inductive action := ALink (i : nat) (w : half) (m : Z) | APost (i : nat) | AWait (i : nat) (w : half) | APop (i : nat).

(** One step of a thread: [None] when it cannot be taken. *)
Definition step (s : sys) (a : action) : option (outcome sys) :=
  match a with
  | ALink i w m =>
      if decide (pcs s !! i = Some Idle ∧ m ∈ held s)
      then Some (let! q := half_link (queue s) w (u32 (m - SIZEOF_message_hdr_t)) in
                 Returned (mkSys q (List.remove Z.eq_dec m (held s)) (<[i := Linked w]> (pcs s))))
      else None
  | APost i =>
      match pcs s !! i with
      | Some (Linked w) => Some (Returned (mkSys (half_post (queue s) w) (held s) (<[i := Idle]> (pcs s))))
      | _ => None
      end
  | AWait i w =>
      if decide (pcs s !! i = Some Idle)
      then q ← half_wait (queue s) w; Some (Returned (mkSys q (held s) (<[i := Waited w]> (pcs s))))
      else None
  | APop i =>
      match pcs s !! i with
      | Some (Waited w) =>
          Some (let! (m, q) := half_unlink (queue s) w in Returned (mkSys q (m :: held s) (<[i := Idle]> (pcs s))))
      | _ => None
      end
  end.

(** ** Invariant *)

(** The messages linked from an address. *)
Fixpoint chain (nx : gmap Z Z) (h : Z) (l : list Z) : Prop :=
  match l with
  | [] => h = 0
  | x :: l' => h = x ∧ ∃ n, nx !! x = Some n ∧ chain nx n l'
  end.

(** A half holds [l] when [k] of its messages belong to threads between the list
    and the semaphore. *)
Record half_ok (nx : gmap Z Z) (h : message_half_t) (l : list Z) (k : Z) : Prop := {
  ok_chain : chain nx (message_half_head h) l;
  ok_tail : ∀ t, last l = Some t → message_half_tail h = t;
  ok_sem : 0 ≤ message_half_sem h;
  ok_count : Z.of_nat (length l) = message_half_sem h + k
}.

Definition between (w : half) (p : pc) : bool := bool_decide (p = Linked w ∨ p = Waited w).
Definition other (w : half) : half := match w with Free => Queue | Queue => Free end.
Definition hdr (m : Z) : Z := m - SIZEOF_message_hdr_t.

Lemma get_set_half q w h w' : get_half (set_half q w h) w' = if decide (w' = w) then h else get_half q w'.
Proof. by destruct w, w'. Qed.
Lemma next_set_half q w h : message_hdr_next (set_half q w h) = message_hdr_next q.
Proof. by destruct w. Qed.
Lemma get_set_next q n w : get_half (set_next q n) w = get_half q w.
Proof. by destruct w. Qed.
Create Rewrite HintDb hqueue.
#[local] Hint Rewrite get_set_half next_set_half get_set_next : hqueue.

Lemma chain_frame nx h l m v : (m ∉ l) → chain nx h l → chain (<[m := v]> nx) h l.
Proof.
  revert h. induction l as [|x l IH]; intros h; simpl; [done|]. intros [Hx Hl]%not_elem_of_cons (-> & n & Hn & Hc).
  split; [done|]. exists n. rewrite lookup_insert_ne by done. split; [done|by apply IH].
Qed.

(** Linking a message behind the last one. *)
Lemma chain_snoc nx h l t m :
  NoDup (l ++ [t]) → (m ∉ l ++ [t]) → chain nx h (l ++ [t]) →
  chain (<[t := m]> (<[m := 0]> nx)) h (l ++ [t; m]).
Proof.
  revert h. induction l as [|x l IH]; intros h; simpl; intros Hnd Hm (-> & n & Hn & Hc).
  - rewrite not_elem_of_cons in Hm. destruct Hm as [Hmt _]. split; [done|]. exists m. rewrite lookup_insert_eq. split; [done|].
    split; [done|]. exists 0. by rewrite lookup_insert_ne, lookup_insert_eq by done.
  - apply NoDup_cons in Hnd as [Hx Hnd]. apply not_elem_of_cons in Hm as [Hmx Hm]. split; [done|]. exists n.
    rewrite !lookup_insert_ne; [|done|]. { split; [done|]. by apply IH. }
    intros ->. apply Hx, elem_of_app. right. apply list_elem_of_here.
Qed.

Lemma chain_head nx h l : chain nx h l → (∀ x, x ∈ l → 0 < x) → h = 0 ↔ l = [].
Proof.
  destruct l as [|x l]; simpl; [done|]. intros (-> & _) Hp. split; [|done].
  intros ->. specialize (Hp 0 ltac:(apply list_elem_of_here)). lia.
Qed.

Lemma remove_perm m (l : list Z) : NoDup l → m ∈ l → l ≡ₚ m :: List.remove Z.eq_dec m l.
Proof.
  induction l as [|x l IH]; [by intros _ ?%elem_of_nil|]. intros [Hx Hnd]%NoDup_cons Hm. simpl.
  destruct (Z.eq_dec m x) as [->|Hne].
  - rewrite notin_remove; [done|]. by rewrite <-list_elem_of_In.
  - apply elem_of_cons in Hm as [?|Hm]; [done|]. rewrite (IH Hnd Hm) at 1. apply perm_swap.
Qed.

Section invariant.
Context (msgs : list Z) (Hnodup : NoDup msgs) (Hrange : ∀ m, m ∈ msgs → 0 < m ∧ m + 4 < 2 ^ 32).

Record inv_with (L : half → list Z) (s : sys) : Prop := {
  inv_half : ∀ w, half_ok (message_hdr_next (queue s)) (get_half (queue s) w) (L w) (countP (between w) (pcs s));
  inv_all : L Free ++ L Queue ++ (hdr <$> held s) ≡ₚ msgs;
  inv_dom : ∀ m, m ∈ msgs → is_Some (message_hdr_next (queue s) !! m)
}.
Definition inv (s : sys) : Prop := ∃ L, inv_with L s.

Definition upd (L : half → list Z) (w : half) (l : list Z) (w' : half) : list Z := if decide (w' = w) then l else L w'.

Lemma halves_perm (L : half → list Z) (R : list Z) w : L Free ++ L Queue ++ R ≡ₚ L w ++ L (other w) ++ R.
Proof. destruct w; simpl; [done|]. rewrite !app_assoc. f_equiv. apply Permutation_app_comm. Qed.

Lemma inv_range L s x w : inv_with L s → x ∈ L w → x ∈ msgs.
Proof.
  intros [_ Hall _] Hx. rewrite <-Hall, (halves_perm L _ w). apply elem_of_app. by left.
Qed.

Lemma inv_nodup L s w : inv_with L s → NoDup (L w ++ L (other w) ++ (hdr <$> held s)).
Proof. intros [_ Hall _]. by rewrite <-halves_perm, Hall. Qed.

Lemma between_other w p : p = Linked w ∨ p = Waited w → between (other w) p = false ∧ between w p = true.
Proof. unfold between. by intros [-> | ->]; destruct w. Qed.
Lemma between_idle w : between w Idle = false.
Proof. by destruct w. Qed.

(** The semaphore side of a call: it trades the semaphore for a thread between. *)
Lemma inv_trade L s i w p p' d q :
  inv_with L s → pcs s !! i = Some p → 0 ≤ message_half_sem (get_half (queue s) w) + d →
  (∀ w', (if between w' p' then 1 else 0) - (if between w' p then 1 else 0) = if decide (w' = w) then - d else 0) →
  q = (let h := get_half (queue s) w in
       set_half (queue s) w (mkHalf (message_half_head h) (message_half_tail h) (message_half_sem h + d))) →
  inv_with L (mkSys q (held s) (<[i := p']> (pcs s))).
Proof.
  intros [Hh Ha Hd] Hi Hsem Hp ->. split; cbn [queue held pcs]; autorewrite with hqueue; [|done|done].
  intros w'. autorewrite with hqueue. rewrite (countP_insert _ _ _ _ _ Hi). specialize (Hp w').
  destruct (Hh w') as [Hc Ht Hs Hn]. case_decide; subst; split; simpl; try done; lia.
Qed.

Lemma inv_post L s i w :
  inv_with L s → pcs s !! i = Some (Linked w) → inv_with L (mkSys (half_post (queue s) w) (held s) (<[i := Idle]> (pcs s))).
Proof.
  intros Hinv Hi. eapply (inv_trade L s i w _ _ 1); [done|done| |by destruct w; intros []|done].
  pose proof (ok_sem _ _ _ _ (inv_half _ _ Hinv w)). lia.
Qed.

Lemma inv_wait L s i w q :
  inv_with L s → pcs s !! i = Some Idle → half_wait (queue s) w = Some q →
  inv_with L (mkSys q (held s) (<[i := Waited w]> (pcs s))).
Proof.
  intros Hinv Hi. unfold half_wait. destruct (0 <? message_half_sem (get_half (queue s) w)) eqn:E; [|done].
  intros [= <-]. bool_to_prop. eapply (inv_trade L s i w _ _ (-1)); [done|done|lia|by destruct w; intros []|done].
Qed.

(** A thread that passed the semaphore finds a message. *)
Lemma inv_pop L s i w :
  inv_with L s → pcs s !! i = Some (Waited w) →
  ∃ x l q, L w = x :: l ∧ half_unlink (queue s) w = Returned (x + 4, q) ∧
           inv_with (upd L w l) (mkSys q ((x + 4) :: held s) (<[i := Idle]> (pcs s))).
Proof.
  intros Hinv Hi. pose proof Hinv as [Hh Ha Hd]. destruct (Hh w) as [Hc Ht Hs Hn].
  assert (0 < countP (between w) (pcs s)) as Hpos by (eapply countP_pos; [done|by destruct w]).
  destruct (L w) as [|x l] eqn:E; [simpl in Hn; lia|]. exists x, l.
  destruct Hc as (Hx & n & Hnx & Hc). unfold half_unlink, SIZEOF_message_hdr_t. rewrite Hx, Hnx. cbn [oderef obind].
  destruct (Hrange x) as [? ?]; [eapply (inv_range L s x w); [done|rewrite E; apply list_elem_of_here]|].
  rewrite u32_small by lia. eexists. split; [done|]. split; [done|]. split; cbn [queue held pcs]; autorewrite with hqueue.
  - intros w'. autorewrite with hqueue. rewrite (countP_insert _ _ _ _ _ Hi), between_idle. unfold upd.
    case_decide as Hw; [subst w'|destruct (Hh w'); split; try done].
    + destruct (between_other w (Waited w)) as [_ ->]; [by right|]. split; simpl; [done| |done|simpl in Hn; lia].
      intros t Hl. apply Ht. destruct l; done.
    + assert (w' = other w) as -> by (by destruct w, w'). destruct (between_other w (Waited w)) as [-> _]; [by right|]. lia.
  - rewrite fmap_cons. unfold hdr at 1, SIZEOF_message_hdr_t. replace (x + 4 - 4) with x by lia.
    rewrite (halves_perm _ _ w). unfold upd at 1 2. rewrite decide_True by done.
    rewrite decide_False by (by destruct w). rewrite (halves_perm _ _ w), E in Ha. rewrite <-Ha.
    rewrite !app_assoc. symmetry. simpl. apply Permutation_middle.
  - done.
Qed.

(** Linking a message that is on no list puts it at the end of one. *)
Lemma half_link_spec L q w a :
  (∀ w', chain (message_hdr_next q) (message_half_head (get_half q w')) (L w')) →
  (∀ t, last (L w) = Some t → message_half_tail (get_half q w) = t) →
  NoDup (L w) → (∀ x, x ∈ L w → x ∉ L (other w)) → (a ∉ L w) → (a ∉ L (other w)) →
  (∀ x, x ∈ a :: L w → 0 < x ∧ is_Some (message_hdr_next q !! x)) →
  ∃ q', half_link q w a = Returned q' ∧
    (∀ w', chain (message_hdr_next q') (message_half_head (get_half q' w')) (upd L w (L w ++ [a]) w')) ∧
    message_half_tail (get_half q' w) = a ∧ get_half q' (other w) = get_half q (other w) ∧
    message_half_sem (get_half q' w) = message_half_sem (get_half q w) ∧
    (∀ x, is_Some (message_hdr_next q !! x) → is_Some (message_hdr_next q' !! x)).
Proof.
  intros Hc Ht Hnd Hd Haw Hao Hx. destruct (Hx a) as [Ha [v Hv]]; [apply list_elem_of_here|].
  assert (∀ w', w' ≠ w → w' = other w) as Ho by (by destruct w; intros []).
  assert (other w ≠ w) as Hne by (by destruct w).
  unfold half_link, store_next. rewrite Hv. cbn [oderef obind]. autorewrite with hqueue.
  pose proof (chain_head _ _ _ (Hc w) ltac:(intros x ?; apply Hx; by right)) as Hhd.
  destruct (message_half_head (get_half q w) =? 0) eqn:E; bool_to_prop.
  - apply Hhd in E as Enil. eexists. split; [done|]. autorewrite with hqueue. cbn [message_hdr_next set_next].
    rewrite decide_True, decide_False by done. split_and!; try done.
    + intros w'. autorewrite with hqueue. unfold upd. case_decide as Hw.
      * rewrite Enil. simpl. split; [done|]. exists 0. by rewrite lookup_insert_eq.
      * rewrite (Ho w' Hw). by apply chain_frame.
    + intros x Hs. apply lookup_insert_is_Some'. by right.
  - destruct (L w) as [|y0 l0] eqn:EL using rev_ind; [naive_solver|]. clear IHl0.
    rename y0 into t, l0 into l. rewrite (Ht t) by apply last_snoc.
    assert (t ∈ l ++ [t]) as Htin by (apply elem_of_app; right; apply list_elem_of_here).
    destruct (Hx t) as [_ [u Hu]]; [by right|]. assert (a ≠ t) by (by intros ->).
    cbn [message_hdr_next set_next]. rewrite lookup_insert_ne, Hu by done. cbn [oderef obind].
    eexists. split; [done|]. autorewrite with hqueue. cbn [message_hdr_next set_next].
    rewrite decide_True, decide_False by done. split_and!; try done.
    + intros w'. autorewrite with hqueue. unfold upd. case_decide as Hw.
      * rewrite <-app_assoc. apply chain_snoc; [done|done|]. pose proof (Hc w) as Hcw. by rewrite EL in Hcw.
      * rewrite (Ho w' Hw). apply chain_frame; [by apply Hd|]. by apply chain_frame.
    + intros x Hs. rewrite !lookup_insert_is_Some'. tauto.
Qed.

Lemma inv_link L s i w m :
  inv_with L s → pcs s !! i = Some Idle → m ∈ held s →
  ∃ q, half_link (queue s) w (u32 (hdr m)) = Returned q ∧
       inv_with (upd L w (L w ++ [hdr m])) (mkSys q (List.remove Z.eq_dec m (held s)) (<[i := Linked w]> (pcs s))).
Proof.
  intros Hinv Hi Hm. pose proof Hinv as [Hh Ha Hd]. pose proof (inv_nodup L s w Hinv) as Hnd.
  assert (hdr m ∈ hdr <$> held s) as Hin by (by apply list_elem_of_fmap_2).
  apply NoDup_app in Hnd as (Hndw & Hdw & Hnd'). apply NoDup_app in Hnd' as (_ & Hdo & Hndh).
  assert (hdr m ∈ msgs) as Hmm by (rewrite <-Ha, !elem_of_app; tauto). destruct (Hrange _ Hmm) as [? ?].
  rewrite u32_small by lia.
  destruct (half_link_spec L (queue s) w (hdr m)) as (q & Hq & Hc & Ht & Ho & Hs & Hdom).
  { intros w'. apply Hh. } { apply Hh. } { done. }
  { intros x Hx Hx'. apply (Hdw x Hx), elem_of_app. by left. }
  { intros Hx. apply (Hdw _ Hx), elem_of_app. by right. }
  { intros Hx. by apply (Hdo _ Hx). }
  { intros x [->|Hx]%elem_of_cons; [by split; [lia|apply Hd]|]. pose proof (inv_range _ _ _ _ Hinv Hx) as Hr.
    split; [by apply Hrange|by apply Hd]. }
  exists q. split; [done|]. split; cbn [queue held pcs].
  - intros w'. rewrite (countP_insert _ _ _ _ _ Hi), between_idle. specialize (Hc w'). revert Hc. unfold upd.
    case_decide as Hw; [subst w'|]; intros Hc.
    + destruct (between_other w (Linked w)) as [_ ->]; [by left|]. destruct (Hh w). split; [done| |lia|].
      * intros t. rewrite last_snoc. by intros [= <-].
      * rewrite length_app. simpl. lia.
    + assert (w' = other w) as -> by (by destruct w, w'). destruct (between_other w (Linked w)) as [-> _]; [by left|].
      rewrite Ho in *. destruct (Hh (other w)). split; [done|done|done|lia].
  - rewrite (halves_perm _ _ w). unfold upd at 1 2. rewrite decide_True by done. rewrite decide_False by (by destruct w).
    rewrite <-Ha, (halves_perm _ _ w). rewrite (remove_perm m (held s)) at 2; [|by apply NoDup_fmap_1 in Hndh|done].
    rewrite fmap_cons, <-app_assoc. f_equiv. simpl. apply Permutation_middle.
  - intros x Hx. by apply Hdom, Hd.
Qed.

(** What a step does to the two lists: a link appends, an unlink takes the
    first message and hands it out, the semaphore steps change neither. *)
Definition moved (a : action) (s : sys) (L : half → list Z) (s' : sys) (L' : half → list Z) : Prop :=
  match a with
  | ALink _ w m => L' w = L w ++ [hdr m] ∧ L' (other w) = L (other w)
  | APop i => ∃ w x, pcs s !! i = Some (Waited w) ∧ L w = x :: L' w ∧ L' (other w) = L (other w) ∧
                     held s' = (x + 4) :: held s
  | APost _ | AWait _ _ => L' = L
  end.

Lemma upd_eq L w l : upd L w l w = l.
Proof. unfold upd. by rewrite decide_True. Qed.
Lemma upd_other L w l : upd L w l (other w) = L (other w).
Proof. unfold upd. by rewrite decide_False by (by destruct w). Qed.

(** No step faults, and every step keeps the invariant. *)
Lemma step_inv L s a r :
  inv_with L s → step s a = Some r → ∃ s' L', r = Returned s' ∧ inv_with L' s' ∧ moved a s L s' L'.
Proof.
  intros Hinv. destruct a as [i w m|i|i w|i]; cbn [step moved].
  - case_decide as Hd; [|done]. destruct Hd as [Hi Hm]. intros [= <-].
    destruct (inv_link L s i w m Hinv Hi Hm) as (q & Hq & Hinv'). unfold hdr in Hq. rewrite Hq. cbn [obind].
    do 2 eexists. split_and!; [done|exact Hinv'|apply upd_eq|apply upd_other].
  - destruct (pcs s !! i) as [[|w|w]|] eqn:Hi; try done. intros [= <-]. exists (mkSys (half_post (queue s) w) (held s) (<[i := Idle]> (pcs s))), L.
    split_and!; [done|by apply inv_post|done].
  - case_decide as Hi; [|done]. destruct (half_wait (queue s) w) as [q|] eqn:Hq; [|done]. cbn [mbind option_bind].
    intros [= <-]. eexists _, L. split_and!; [done|by eapply inv_wait|done].
  - destruct (pcs s !! i) as [[|w|w]|] eqn:Hi; try done. intros [= <-].
    destruct (inv_pop L s i w Hinv Hi) as (x & l & q & Hl & -> & Hinv'). cbn [obind].
    do 2 eexists. split_and!; [done|exact Hinv'|]. exists w, x. rewrite upd_eq, upd_other. done.
Qed.

Definition stepR (s s' : sys) : Prop := ∃ a, step s a = Some (Returned s').

Lemma steps_inv s s' : rtc stepR s s' → inv s → inv s'.
Proof.
  induction 1 as [|s s1 s' [a Ha] _ IH]; [done|]. intros Hinv. apply IH.
  destruct Hinv as [L Hinv]. destruct (step_inv L s a _ Hinv Ha) as (? & L' & [= <-] & ? & _). by exists L'.
Qed.

End invariant.

(** ** Creation *)

(** The messages of a queue: [n] of them, [Needed] bytes apart. *)
Fixpoint addrs (n : nat) (a Needed : Z) : list Z :=
  match n with O => [] | S n => a :: addrs n (a + Needed) Needed end.

Lemma addrs_range n a Needed x : 0 < Needed → x ∈ addrs n a Needed → a ≤ x ≤ a + Needed * (Z.of_nat n - 1).
Proof.
  intros Hpos. revert a. induction n as [|n IH]; intros a; [by intros ?%elem_of_nil|].
  cbn [addrs]. intros [->|Hx]%elem_of_cons; [nia|]. specialize (IH _ Hx). nia.
Qed.

Lemma addrs_nodup n a Needed : 0 < Needed → NoDup (addrs n a Needed).
Proof.
  intros Hpos. revert a. induction n as [|n IH]; intros a; cbn [addrs]; [constructor|]. apply NoDup_cons. split; [|done].
  intros Hx%addrs_range; lia.
Qed.

Lemma align4_value x : 0 ≤ x < 2 ^ 32 - 3 → x ≤ align4 x < x + 4 ∧ align4 (align4 x) = align4 x.
Proof.
  intros Hx. unfold align4. change 0xFFFFFFFC with (Z.shiftl (Z.ones (32 - 2)) 2).
  rewrite (u32_small (x + 3)), (land_clear_low 2 (x + 3)) by lia. change (2 ^ 2) with 4.
  pose proof (Z.div_mod (x + 3) 4). pose proof (Z.mod_pos_bound (x + 3) 4). split; [lia|].
  rewrite u32_small, land_clear_low by lia. change (2 ^ 2) with 4.
  replace ((4 * ((x + 3) / 4) + 3) / 4) with ((x + 3) / 4); [done|].
  rewrite (Z.mul_comm 4), Z.div_add_l by lia. change (3 / 4) with 0. lia.
Qed.

Section init.
Context (memory bytes Needed : Z) (Hm : 0 < memory) (Hb : memory + bytes < 2 ^ 32) (HN : 4 ≤ Needed).

Lemma store_prev_ok prev v st :
  (∀ a, prev = Some a → memory ≤ a ∧ a + 4 ≤ memory + bytes) →
  ∃ st', store_prev memory bytes prev v st = Returned st' ∧
    match prev with
    | None => fst st' = v ∧ snd st' = snd st
    | Some a => fst st' = fst st ∧ snd st' = <[a := v]> (snd st)
    end.
Proof.
  intros Ha. destruct prev as [a|]; simpl; [|by eexists]. destruct (Ha a eq_refl).
  destruct ((memory <=? a) && (a + SIZEOF_message_hdr_t <=? memory + bytes)) eqn:E; [by eexists|].
  unfold SIZEOF_message_hdr_t in E. apply andb_false_iff in E as [E|E]; bool_to_prop; lia.
Qed.

(** The rest of the loop and the two stores behind it. *)
Lemma init_loop_spec turns : ∀ prev curr st,
  memory ≤ curr → curr + Needed * (Z.of_nat turns + 1) ≤ memory + bytes →
  (∀ a, prev = Some a → memory ≤ a ∧ a + 4 ≤ curr) →
  ∃ st', (let! (p, c, st0) := init_loop turns memory bytes Needed prev curr st in
          let! st1 := store_prev memory bytes p c st0 in
          let! st2 := store_prev memory bytes (Some c) 0 st1 in Returned (c, st2))
         = Returned (curr + Needed * Z.of_nat turns, st') ∧
    chain (snd st') curr (addrs (S turns) curr Needed) ∧
    match prev with None => fst st' = curr | Some a => fst st' = fst st ∧ snd st' !! a = Some curr end ∧
    (∀ x, x < curr → prev ≠ Some x → snd st' !! x = snd st !! x).
Proof.
  induction turns as [|turns IH]; intros prev curr st Hcurr Hend Hprev; cbn [init_loop obind].
  - destruct (store_prev_ok prev curr st) as (st1 & -> & H1); [intros a Ha; specialize (Hprev a Ha); lia|]. cbn [obind].
    destruct (store_prev_ok (Some curr) 0 st1) as (st2 & -> & Hf & Hs); [intros a [= <-]; lia|]. cbn [obind].
    exists st2. rewrite Z.mul_0_r, Z.add_0_r, Hf, Hs. split_and!; [done| | |].
    + cbn [addrs chain]. split; [done|]. exists 0. by rewrite lookup_insert_eq.
    + destruct prev as [a|]; [|by destruct H1]. specialize (Hprev a eq_refl). destruct H1 as [-> ->]. split; [done|].
      by rewrite lookup_insert_ne, lookup_insert_eq by lia.
    + intros x Hx Hp. rewrite lookup_insert_ne by lia. destruct prev as [a|]; destruct H1 as [_ ->]; [|done].
      rewrite lookup_insert_ne; [done|]. by intros ->.
  - destruct (store_prev_ok prev curr st) as (st1 & -> & H1); [intros a Ha; specialize (Hprev a Ha); lia|]. cbn [obind].
    rewrite u32_small by nia.
    destruct (IH (Some curr) (curr + Needed) st1) as (st' & -> & Hc & [Hf Hn] & Hfr);
      [lia|lia|intros a [= <-]; lia|].
    exists st'. split_and!.
    + do 2 f_equal. lia.
    + cbn [chain addrs] in *. split; [done|]. exists (curr + Needed). done.
    + destruct prev as [a|]; [|destruct H1; congruence]. specialize (Hprev a eq_refl). destruct H1 as [Hf1 H1]. split; [congruence|].
      rewrite Hfr by (lia || (intros [= ?]; lia)). by rewrite H1, lookup_insert_eq.
    + intros x Hx Hp. rewrite Hfr by (lia || (intros [= ?]; lia)). destruct prev as [a|]; destruct H1 as [_ ->]; [|done].
      rewrite lookup_insert_ne; [done|]. by intros ->.
Qed.

End init.

Lemma chain_dom nx h l x : chain nx h l → x ∈ l → is_Some (nx !! x).
Proof.
  revert h. induction l as [|y l IH]; intros h; simpl; [by intros _ ?%elem_of_nil|]. intros (-> & n & Hn & Hc).
  intros [->|Hx]%elem_of_cons; [eauto|by eapply IH].
Qed.

Lemma addrs_last n a Needed : last (addrs (S n) a Needed) = Some (a + Needed * Z.of_nat n).
Proof.
  revert a. induction n as [|n IH]; intros a; [simpl; f_equal; lia|].
  change (addrs (S (S n)) a Needed) with (a :: addrs (S n) (a + Needed) Needed).
  rewrite last_cons, IH. f_equal. lia.
Qed.

Lemma length_addrs n a Needed : length (addrs n a Needed) = n.
Proof. revert a. induction n; intros a; simpl; auto. Qed.

Lemma countP_idle w k : countP (between w) (replicate k Idle) = 0.
Proof. induction k as [|k IH]; [done|]. simpl. by rewrite countP_cons, between_idle, IH. Qed.

(** The lists of a queue that was just created. *)
Definition created (l : list Z) (w : half) : list Z := match w with Free => l | Queue => [] end.

Lemma HI_MsgQueueCreate_spec memory ES n k :
  let Needed := align4 ES + 4 in let l := addrs (Z.to_nat n) memory Needed in
  0 ≤ ES < 2 ^ 32 - 8 → 1 ≤ n → 0 < memory → memory + Needed * n < 2 ^ 32 →
  ∃ q0, HI_MsgQueueCreate (Some memory) true ES n = Returned (Some q0) ∧
        inv_with l (created l) (mkSys q0 [] (replicate k Idle)).
Proof.
  intros Needed l HES Hn Hm Hend. destruct (align4_value ES) as [Hal Hal2]; [lia|].
  unfold HI_MsgQueueCreate, message_create_generic, message_init_generic, SIZEOF_message_hdr_t. rewrite Hal2.
  rewrite (u32_small (align4 ES + 4)) by lia. fold Needed. rewrite (u32_small (Needed * n)) by nia.
  destruct (init_loop_spec memory (Needed * n) Needed ltac:(lia) ltac:(lia) ltac:(subst Needed; lia)
              (Z.to_nat (n - 1)) None memory (0, ∅)) as (st' & Heq & Hc & Hf & _); [lia|nia|done|].
  replace (S (Z.to_nat (n - 1))) with (Z.to_nat n) in Hc by lia.
  destruct (init_loop _ _ _ _ _ _ _) as [[[p c] st0]| |]; cbn [obind] in Heq |- *; [|done..].
  destruct (store_prev _ _ p c st0) as [st1| |]; cbn [obind] in Heq |- *; [|done..].
  destruct (store_prev _ _ (Some c) 0 st1) as [st2| |]; cbn [obind] in Heq |- *; [|done..].
  injection Heq as -> ->. eexists. split; [done|]. split; cbn [queue held pcs message_hdr_next].
  - intros []; cbn [get_half message_queue_free message_queue_queue created]; rewrite countP_idle; split; simpl;
      try done; try lia.
    + by rewrite Hf.
    + intros t. subst l. replace (Z.to_nat n) with (S (Z.to_nat (n - 1))) by lia. rewrite addrs_last. by intros [= <-].
    + subst l. rewrite length_addrs. lia.
  - simpl. by rewrite app_nil_r.
  - intros m Hin. by eapply chain_dom.
Qed.

(** C5: A queue of [n] messages, used by any number of threads that interleave
    at the semaphores and the critical sections: no step reads or writes
    through a pointer that is not a message, every message is at all times
    on exactly one of the two lists or in the hands of one user, a message
    is added behind the last and taken from the front, and when no thread is
    inside a call the amount reported is the number of messages sent. *)
Theorem HI_MsgQueue_correct memory ES n k :
  let Needed := align4 ES + 4 in let msgs := addrs (Z.to_nat n) memory Needed in
  0 ≤ ES < 2 ^ 32 - 8 → 1 ≤ n → 0 < memory → memory + Needed * n < 2 ^ 32 →
  ∃ q0, HI_MsgQueueCreate (Some memory) true ES n = Returned (Some q0) ∧
    ∀ s, rtc stepR (mkSys q0 [] (replicate k Idle)) s →
      ∃ L, inv_with msgs L s ∧ NoDup (L Free ++ L Queue ++ (hdr <$> held s)) ∧
        (Forall (eq Idle) (pcs s) → HI_MsgGetAmount (queue s) = Z.of_nat (length (L Queue))) ∧
        ∀ a r, step s a = Some r → ∃ s' L', r = Returned s' ∧ inv_with msgs L' s' ∧ moved a s L s' L'.
Proof.
  intros Needed msgs HES Hn Hm Hend. destruct (HI_MsgQueueCreate_spec memory ES n k HES Hn Hm Hend) as (q0 & Hq & Hinv).
  destruct (align4_value ES) as [Hal _]; [lia|]. assert (NoDup msgs) as Hnd by (apply addrs_nodup; lia).
  assert (∀ m, m ∈ msgs → 0 < m ∧ m + 4 < 2 ^ 32) as Hr.
  { intros m Hin%addrs_range; [|lia]. rewrite Z2Nat.id in Hin by lia. nia. }
  exists q0. split; [done|]. intros s Hs. apply (steps_inv msgs Hnd Hr) in Hs as [L HL]; [|by eexists].
  exists L. split_and!; [done|by rewrite (inv_all _ _ _ HL)| |].
  - intros Hidle. destruct (inv_half _ _ _ HL Queue) as [_ _ _ Hc]. unfold HI_MsgGetAmount. simpl in Hc.
    assert (countP (between Queue) (pcs s) = 0) as Hz; [|lia].
    clear -Hidle. induction Hidle as [|? l <- _ IH]; [done|]. by rewrite countP_cons, IH.
  - intros a r Ha. by apply (step_inv msgs Hnd Hr).
Qed.

(** The timed wait, from its [i]-th turn on. *)
Lemma semaphore_wait_from avail ms fuel : ∀ i,
  0 ≤ ms < 2 ^ 31 - 10 → Z.of_nat i ≤ ms / 10 + 1 → ms / 10 + 2 - Z.of_nat i ≤ Z.of_nat fuel →
  ∃ r, semaphore_wait_timeout fuel avail i (10 * Z.of_nat i) ms = Some r ∧
    ((r = 0 ∧ ∃ j, (i ≤ j)%nat ∧ Z.of_nat j ≤ ms / 10 ∧ avail j = true) ∨
     (r = -1 ∧ ∀ j, (i ≤ j)%nat → Z.of_nat j ≤ ms / 10 → avail j = false)).
Proof.
  induction fuel as [|fuel IH]; intros i Hms Hi Hf; [lia|]. cbn [semaphore_wait_timeout].
  pose proof (Z.div_mod ms 10). pose proof (Z.mod_pos_bound ms 10). rewrite u32_small by lia.
  destruct (10 * Z.of_nat i <=? ms) eqn:E1; bool_to_prop.
  2:{ eexists. split; [done|]. right. split; [done|]. intros j ? ?. lia. }
  destruct (avail i) eqn:Ea.
  { eexists. split; [done|]. left. split; [done|]. exists i. split_and!; [lia|lia|done]. }
  destruct (10 * Z.of_nat i =? ms) eqn:E2; bool_to_prop.
  { eexists. split; [done|]. right. split; [done|]. intros j ? ?. by replace j with i by lia. }
  rewrite s32_small by lia. replace (10 * Z.of_nat i + 10) with (10 * Z.of_nat (S i)) by lia.
  destruct (IH (S i)) as (r & -> & Hor); [lia|lia|lia|]. exists r. split; [done|].
  destruct Hor as [(? & j & ? & ? & ?)|(? & Hall)]; [left|right]; (split; [done|]).
  - exists j. split_and!; [lia|done|done].
  - intros j ? ?. destruct (decide (j = i)) as [->|]; [done|]. apply Hall; lia.
Qed.

(** The timed wait of [HI_MsgReceive] and [HI_MsgClaim] ends: it tries the
    semaphore once for every ten milliseconds that have passed up to the
    timeout, returns 0 when one of the tries passes and -1 when none does. *)
Theorem semaphore_wait_timeout_ends avail ms :
  0 ≤ ms < 2 ^ 31 - 10 →
  ∃ r, semaphore_wait_timeout (Z.to_nat (ms / 10) + 2) avail 0 0 ms = Some r ∧
    ((r = 0 ∧ ∃ j, Z.of_nat j ≤ ms / 10 ∧ avail j = true) ∨ (r = -1 ∧ ∀ j, Z.of_nat j ≤ ms / 10 → avail j = false)).
Proof.
  intros Hms. pose proof (Z.div_pos ms 10).
  destruct (semaphore_wait_from avail ms (Z.to_nat (ms / 10) + 2) 0%nat) as (r & Hr & Hor); [done|lia|lia|].
  exists r. split; [done|]. destruct Hor as [(? & j & _ & ? & ?)|(? & Hall)]; [left; eauto|right].
  split; [done|]. intros j ?. apply Hall; [lia|done].
Qed.

(** A queue of no messages: the header of one message is written behind the
    memory. *)
Theorem message_create_zero memory ES :
  0 < memory → 0 ≤ ES < 2 ^ 32 - 8 → HI_MsgQueueCreate (Some memory) true ES 0 = Undefined.
Proof.
  intros Hm HES. unfold HI_MsgQueueCreate, message_create_generic, message_init_generic.
  rewrite Z.mul_0_r. change (u32 0) with 0. cbn [Z.sub Z.to_nat init_loop obind store_prev fst snd].
  change (Z.to_nat (0 - 1)) with 0%nat. cbn [init_loop obind store_prev]. unfold SIZEOF_message_hdr_t.
  destruct ((memory <=? memory) && (memory + 4 <=? memory + 0)) eqn:E; [|done]. bool_to_prop. lia.
Qed.

(** A wait that a signal interrupts is taken for one that passed: on an empty
    half the thread reads through [NULL]. *)
Theorem message_half_remove_interrupted q w :
  message_half_head (get_half q w) = 0 → message_hdr_next q !! 0 = None → half_unlink q w = Undefined.
Proof. intros Hh Hn. unfold half_unlink. by rewrite Hh, Hn. Qed.

(** ** Two messages of ten bytes, two threads *)

Definition demo_queue : message_queue_t :=
  mkQueue {[ 4096 := 4112; 4112 := 0 ]} (mkHalf 4096 4112 2) (mkHalf 0 0 0) 4096.
Definition demo_waited : sys :=
  mkSys (mkQueue {[ 4096 := 4112; 4112 := 0 ]} (mkHalf 4096 4112 1) (mkHalf 0 0 0) 4096) [] [Waited Free; Idle].

Lemma HI_MsgQueue_correct_witness :
  HI_MsgQueueCreate (Some 4096) true 10 2 = Returned (Some demo_queue) ∧
  step (mkSys demo_queue [] [Idle; Idle]) (AWait 0 Free) = Some (Returned demo_waited) ∧
  ∃ L, inv_with [4096; 4112] L demo_waited ∧
    ∃ s' L', step demo_waited (APop 0) = Some (Returned s') ∧ inv_with [4096; 4112] L' s' ∧
             moved (APop 0) demo_waited L s' L'.
Proof.
  destruct (HI_MsgQueue_correct 4096 10 2 2 ltac:(lia) ltac:(lia) ltac:(lia) ltac:(by vm_compute))
    as (q0 & Hq & Hall).
  assert (HI_MsgQueueCreate (Some 4096) true 10 2 = Returned (Some demo_queue)) as Hq' by (vm_compute; reflexivity).
  assert (q0 = demo_queue) as -> by congruence.
  assert (step (mkSys demo_queue [] [Idle; Idle]) (AWait 0 Free) = Some (Returned demo_waited)) as Hs
    by (vm_compute; reflexivity).
  split; [done|]. split; [done|]. destruct (Hall demo_waited) as (L & HL & _ & _ & Hstep).
  { eapply rtc_l; [|apply rtc_refl]. by exists (AWait 0 Free). }
  exists L. split; [exact HL|].
  destruct (step demo_waited (APop 0)) as [r|] eqn:E; [|by vm_compute in E].
  destruct (Hstep _ _ E) as (s' & L' & -> & HL' & Hmv). exists s', L'. done.
Defined.

Lemma semaphore_wait_timeout_ends_witness :
  semaphore_wait_timeout 4 (λ i, bool_decide (i = 2%nat)) 0 0 25 = Some 0 ∧
  semaphore_wait_timeout 4 (λ i, bool_decide (i = 3%nat)) 0 0 25 = Some (-1).
Proof.
  split.
  - destruct (semaphore_wait_timeout_ends (λ i, bool_decide (i = 2%nat)) 25 ltac:(lia)) as (r & Hr & Hor).
    destruct Hor as [[-> _]|[_ Hno]]; [exact Hr|]. specialize (Hno 2%nat ltac:(by vm_compute)). by vm_compute in Hno.
  - destruct (semaphore_wait_timeout_ends (λ i, bool_decide (i = 3%nat)) 25 ltac:(lia)) as (r & Hr & Hor).
    destruct Hor as [(_ & j & Hj & Ha)|[-> _]]; [|exact Hr]. bool_to_prop. subst j. by vm_compute in Hj.
Defined.

End HQ.
