(* ===== verification/Array.v ===== *)
(** The growing array of pointers of [cutils/array.c].  It is shown to implement
    a list: appending, reading, replacing and removing by index and cutting it
    by size; what growing it by size leaves is stated as the code has it. *)

From S2P Require Import Prelude.

Module AR.

Definition INITIAL_CAPACITY : Z := 4.
(** [(int)(UINT_MAX / sizeof(void * ))]. *)
Definition MAX_CAPACITY : Z := s32 ((2 ^ 32 - 1) / 4).

(** A cell of allocated memory; [None] when it was never written. *)
Abbreviation cell := (option Z).

(** [struct Array]; [contents] is [None] for [NULL]. *)
Record Array := mkArray { contents : option (list cell); size : Z; capacity : Z }.

(** [arrayCreate]; [ok] answers the allocation. *)
Definition arrayCreate (ok : bool) : option Array := if ok then Some (mkArray None 0 0) else None.

(** The loop of [ensureCapacity], at most [fuel] turns. *)
Fixpoint double_capacity (fuel : nat) (newCapacity cap : Z) : option Z :=
  if newCapacity <? cap
  then match fuel with
       | O => None
       | S fuel =>
           let newCap := s32 (newCapacity * 2) in
           double_capacity fuel
             (if (newCap <? newCapacity) || (MAX_CAPACITY <? newCap) then MAX_CAPACITY else newCap) cap
       end
  else Some newCapacity.

(** [ensureCapacity]; [ok] answers [malloc] or [realloc].  The outer [option] is
    [None] when the loop does not end within 32 turns. *)
Definition ensureCapacity (ok : bool) (a : Array) (cap : Z) : option (Z * Array) :=
  let oldCapacity := capacity a in
  if oldCapacity <? cap
  then let newCapacity := if oldCapacity =? 0 then INITIAL_CAPACITY else oldCapacity in
       if MAX_CAPACITY <? cap then Some (-1, a)
       else newCapacity ← double_capacity 32 newCapacity cap;
            if (newCapacity <? 0) || (MAX_CAPACITY <? newCapacity) then Some (-1, a)
            else if negb ok then Some (-1, a)
            else let new := match contents a with
                            | None => replicate (Z.to_nat newCapacity) None
                            | Some l => l ++ replicate (Z.to_nat newCapacity - length l) None
                            end in
                 Some (0, mkArray (Some new) (size a) newCapacity)
  else Some (0, a).

(** A function that calls [ensureCapacity] does not return when it does not. *)
Definition ensure {A} (ok : bool) (a : Array) (cap : Z) (k : Z * Array → outcome A) : outcome A :=
  match ensureCapacity ok a cap with Some r => k r | None => Undefined end.

(** Reading and writing [contents[i]]. *)
Definition load (a : Array) (i : Z) : outcome cell :=
  let! l := oderef (contents a) in if i <? 0 then Undefined else oderef (l !! Z.to_nat i).
Definition store (a : Array) (i : Z) (v : cell) : outcome Array :=
  let! l := oderef (contents a) in
  let! _ := load a i in
  Returned (mkArray (Some (<[Z.to_nat i := v]> l)) (size a) (capacity a)).
Definition set_size (a : Array) (n : Z) : Array := mkArray (contents a) n (capacity a).

Definition arrayAdd (ok : bool) (a : Array) (pointer : Z) : outcome (Z * Array) :=
  ensure ok a (s32 (size a + 1)) (λ '(result, a1),
    if result <? 0 then Returned (result, a1)
    else let! a2 := store a1 (size a) (Some pointer) in Returned (0, set_size a2 (s32 (size a2 + 1)))).

(** [checkBounds]; [assert] ends the process. *)
Definition checkBounds {A} (a : Array) (index : Z) (k : outcome A) : outcome A :=
  oassert (index <? size a) (oassert (0 <=? index) k).

Definition arrayGet (a : Array) (index : Z) : outcome cell := checkBounds a index (load a index).

(** [memmove] of [n] cells from cell [from] to cell [to]. *)
Definition move_cells (l : list cell) (to from n : nat) : outcome (list cell) :=
  if (from + n <=? length l)%nat && (to + n <=? length l)%nat
  then Returned (take to l ++ take n (drop from l) ++ drop (to + n) l) else Undefined.

Definition arrayRemove (a : Array) (index : Z) : outcome (cell * Array) :=
  checkBounds a index
  (let! pointer := load a index in
   let newSize := s32 (size a - 1) in
   let! a1 := if negb (index =? newSize)
              then let! l := oderef (contents a) in
                   let! l' := move_cells l (Z.to_nat index) (Z.to_nat (index + 1)) (Z.to_nat (newSize - index)) in
                   Returned (mkArray (Some l') (size a) (capacity a))
              else Returned a in
   Returned (pointer, set_size a1 newSize)).

Definition arraySet (a : Array) (index pointer : Z) : outcome (cell * Array) :=
  checkBounds a index
  (let! old := load a index in let! a1 := store a index (Some pointer) in Returned (old, a1)).

(** [memset] to zero of [n] cells from cell [from]: the argument of
    [arraySetSize] is a pointer to cells, so its offset counts cells. *)
Definition zero_cells (l : list cell) (from n : nat) : outcome (list cell) :=
  if (from + n <=? length l)%nat
  then Returned (take from l ++ replicate n (Some 0) ++ drop (from + n) l) else Undefined.

Definition arraySetSize (ok : bool) (a : Array) (newSize : Z) : outcome (Z * Array) :=
  oassert (0 <=? newSize)
  (let oldSize := size a in
   if oldSize <? newSize
   then ensure ok a newSize (λ '(result, a1),
          if result <? 0 then Returned (result, a1)
          else let! l := oderef (contents a1) in
               let! l' := zero_cells l (Z.to_nat (4 * oldSize)) (Z.to_nat (newSize - oldSize)) in
               Returned (0, mkArray (Some l') newSize (capacity a1)))
   else Returned (0, set_size a newSize)).

Definition arraySize (a : Array) : Z := size a.
Definition arrayUnwrap (a : Array) : option (list cell) := contents a.

(** ** Invariant and abstraction *)

Definition cells (a : Array) : list cell := default [] (contents a).

Record wf (a : Array) : Prop := {
  wf_null : contents a = None ↔ capacity a = 0;
  wf_capacity : Z.of_nat (length (cells a)) = capacity a;
  wf_size : 0 ≤ size a ≤ capacity a;
  wf_max : capacity a ≤ MAX_CAPACITY
}.

(** The list an array stands for. *)
Definition abs (a : Array) : list cell := take (Z.to_nat (size a)) (cells a).

Lemma MAX_CAPACITY_value : MAX_CAPACITY = 2 ^ 30 - 1.
Proof. reflexivity. Qed.

Lemma abs_length a : wf a → length (abs a) = Z.to_nat (size a).
Proof. intros []. unfold abs. rewrite length_take. lia. Qed.

Lemma array_lookup a i : wf a → 0 ≤ i < size a → abs a !! Z.to_nat i = cells a !! Z.to_nat i.
Proof. intros [] Hi. unfold abs. by rewrite lookup_take_lt by lia. Qed.

(** The loop ends with a capacity that is enough. *)
Lemma double_capacity_spec fuel : ∀ n cap,
  0 < n ≤ MAX_CAPACITY → cap ≤ MAX_CAPACITY → cap ≤ n * 2 ^ Z.of_nat fuel →
  ∃ n', double_capacity fuel n cap = Some n' ∧ cap ≤ n' ≤ MAX_CAPACITY ∧ n ≤ n'.
Proof.
  rewrite MAX_CAPACITY_value. induction fuel as [|fuel IH]; intros n cap Hn Hc Hf; cbn [double_capacity].
  - change (2 ^ Z.of_nat 0) with 1 in Hf. destruct (n <? cap) eqn:E; bool_to_prop; [lia|]. exists n. split; [done|lia].
  - destruct (n <? cap) eqn:E; bool_to_prop; [|exists n; split; [done|lia]]. rewrite s32_small by lia.
    replace (Z.of_nat (S fuel)) with (Z.of_nat fuel + 1) in Hf by lia. rewrite Z.pow_add_r in Hf by lia.
    rewrite MAX_CAPACITY_value. assert (1 ≤ 2 ^ Z.of_nat fuel) by (apply (Z.pow_le_mono_r 2 0); lia).
    destruct ((n * 2 <? n) || (2 ^ 30 - 1 <? n * 2)) eqn:E2.
    + destruct (IH (2 ^ 30 - 1) cap) as (n' & -> & ? & ?); [lia|lia|nia|]. exists n'. split; [done|lia].
    + bool_to_prop. destruct (IH (n * 2) cap) as (n' & -> & ? & ?); [lia|lia|lia|]. exists n'. split; [done|lia].
Qed.

(** Room for [cap] cells: it is there, or nothing changes. *)
Lemma ensureCapacity_spec ok a cap :
  wf a → 0 ≤ cap →
  ∃ r a', ensureCapacity ok a cap = Some (r, a') ∧ wf a' ∧ size a' = size a ∧ take (length (cells a)) (cells a') = cells a ∧
    ((r = 0 ∧ cap ≤ capacity a' ∧ capacity a ≤ capacity a' ∧ (0 < cap → is_Some (contents a'))) ∨
     (r = -1 ∧ a' = a ∧ (ok = false ∨ MAX_CAPACITY < cap))).
Proof.
  intros Hwf Hc. pose proof Hwf as [Hnull Hlen Hsz Hmax]. unfold ensureCapacity.
  destruct (capacity a <? cap) eqn:E; bool_to_prop.
  2:{ exists 0, a. split_and!; try done; [by rewrite take_ge|]. left. split_and!; try done; try lia. intros Hpos.
      destruct (contents a) eqn:Ec; [eauto|]. destruct Hnull as [Hn _]. specialize (Hn eq_refl). lia. }
  destruct (MAX_CAPACITY <? cap) eqn:E2; bool_to_prop.
  { exists (-1), a. split_and!; try done; [by rewrite take_ge|]. right. auto. }
  set (n := if capacity a =? 0 then INITIAL_CAPACITY else capacity a).
  assert (0 < n ≤ MAX_CAPACITY ∧ capacity a ≤ n) as [Hn Hcn].
  { subst n. rewrite MAX_CAPACITY_value in *. unfold INITIAL_CAPACITY. destruct (capacity a =? 0) eqn:E3; bool_to_prop; lia. }
  destruct (double_capacity_spec 32 n cap Hn E2) as (n' & -> & Hn' & Hnn).
  { rewrite MAX_CAPACITY_value in *. change (2 ^ Z.of_nat 32) with (2 ^ 32). nia. }
  cbn [mbind option_bind]. destruct ((n' <? 0) || (MAX_CAPACITY <? n')) eqn:E3.
  { apply orb_true_iff in E3 as [E3|E3]; bool_to_prop; lia. }
  destruct ok; cbn [negb].
  2:{ exists (-1), a. split_and!; try done; [by rewrite take_ge|]. right. auto. }
  set (new := match contents a with None => _ | Some _ => _ end).
  assert (length new = Z.to_nat n' ∧ take (length (cells a)) new = cells a) as [Hl Ht].
  { subst new. unfold cells in *. destruct (contents a) as [l|]; cbn [from_option id] in *.
    - rewrite length_app, length_replicate, take_app_length. split; [lia|done].
    - rewrite length_replicate. done. }
  exists 0, (mkArray (Some new) (size a) n'). split_and!; try done.
  - split; unfold cells; cbn [contents size capacity from_option id]; [|lia|lia|lia]. split; [done|lia].
  - left. cbn [capacity contents]. split_and!; [done|lia|lia|eauto].
Qed.

Lemma load_spec a i : wf a → 0 ≤ i < size a → ∃ v, load a i = Returned v ∧ abs a !! Z.to_nat i = Some v.
Proof.
  intros Hwf Hi. rewrite array_lookup by done. pose proof Hwf as [_ Hlen Hsz _]. unfold load, cells in *.
  destruct (contents a) as [l|]; cbn [oderef obind from_option id] in *; [|simpl in Hlen; lia].
  destruct (i <? 0) eqn:E; bool_to_prop; [lia|]. destruct (lookup_lt_is_Some_2 l (Z.to_nat i)) as [v Hv]; [lia|].
  rewrite Hv. by exists v.
Qed.

(** Writing a cell of the allocated memory. *)
Lemma array_store_spec a i v :
  wf a → 0 ≤ i < capacity a →
  ∃ a', store a i v = Returned a' ∧ wf a' ∧ size a' = size a ∧ capacity a' = capacity a ∧
        cells a' = <[Z.to_nat i := v]> (cells a).
Proof.
  intros [Hnull Hlen Hsz Hmax] Hi. unfold store, load, cells in *.
  destruct (contents a) as [l|]; cbn [oderef obind from_option id] in *; [|simpl in Hlen; lia].
  destruct (i <? 0) eqn:E; bool_to_prop; [lia|]. destruct (lookup_lt_is_Some_2 l (Z.to_nat i)) as [u Hu]; [lia|].
  rewrite Hu. cbn [oderef obind]. eexists. split; [done|]. split_and!; try done.
  split; unfold cells; cbn [contents capacity size from_option id]; [|by rewrite length_insert|done|done].
  split; [done|]. intros Hz. by apply Hnull in Hz.
Qed.

(** A smaller size keeps the invariant. *)
Lemma set_size_wf a n : wf a → 0 ≤ n ≤ capacity a → wf (set_size a n).
Proof. intros [] Hn. by split. Qed.

Lemma arrayAdd_spec ok a p :
  wf a →
  ∃ r a', arrayAdd ok a p = Returned (r, a') ∧ wf a' ∧
    ((r = 0 ∧ abs a' = abs a ++ [Some p]) ∨ (r = -1 ∧ a' = a ∧ (ok = false ∨ size a = MAX_CAPACITY))).
Proof.
  intros Hwf. pose proof Hwf as [_ Hlen Hsz Hmax]. rewrite MAX_CAPACITY_value in Hmax. unfold arrayAdd, ensure.
  rewrite s32_small by lia.
  destruct (ensureCapacity_spec ok a (size a + 1) Hwf ltac:(lia)) as (r & a1 & -> & Hwf1 & Hs1 & Ht & Hor).
  destruct Hor as [(-> & Hcap & Hcc & _)|(-> & -> & Hor)].
  2:{ exists (-1), a. split_and!; try done. right. rewrite MAX_CAPACITY_value in *. split_and!; try done. destruct Hor; [by left|right; lia]. }
  destruct (array_store_spec a1 (size a) (Some p) Hwf1) as (a2 & -> & Hwf2 & Hs2 & Hc2 & Hcl); [lia|].
  cbn [Z.ltb Z.compare obind]. rewrite Hs2, Hs1, s32_small by lia. do 2 eexists. split; [done|]. split.
  { apply set_size_wf; [done|lia]. }
  left. split; [done|]. unfold abs. cbn [size set_size]. change (cells (set_size a2 (size a + 1))) with (cells a2).
  rewrite Hcl. replace (Z.to_nat (size a + 1)) with (S (Z.to_nat (size a))) by lia.
  pose proof (wf_capacity _ Hwf1). rewrite (take_S_r _ _ (Some p)) by (rewrite list_lookup_insert_eq; [done|lia]).
  rewrite take_insert_ge by lia. f_equal. rewrite <-Ht, take_take. f_equal. lia.
Qed.

Lemma arrayGet_spec a i :
  wf a → arrayGet a i = if (0 <=? i) && (i <? size a) then oderef (abs a !! Z.to_nat i) else Exited.
Proof.
  intros Hwf. unfold arrayGet, checkBounds, oassert. destruct (i <? size a) eqn:E1; [|by rewrite andb_false_r].
  destruct (0 <=? i) eqn:E2; [|done]. bool_to_prop. destruct (load_spec a i Hwf) as (v & -> & ->); [lia|done].
Qed.

Lemma arraySet_spec a i p :
  wf a → 0 ≤ i < size a →
  ∃ v a', arraySet a i p = Returned (v, a') ∧ abs a !! Z.to_nat i = Some v ∧ wf a' ∧
          abs a' = <[Z.to_nat i := Some p]> (abs a).
Proof.
  intros Hwf Hi. destruct (load_spec a i Hwf Hi) as (v & Hl & Hv). pose proof (wf_size _ Hwf).
  destruct (array_store_spec a i (Some p) Hwf) as (a' & Hs & Hwf' & Hsz & Hc & Hcl); [lia|].
  exists v, a'. unfold arraySet, checkBounds, oassert. rewrite (proj2 (Z.ltb_lt i (size a))), (proj2 (Z.leb_le 0 i)) by lia.
  rewrite Hl. cbn [obind]. rewrite Hs. split_and!; try done. unfold abs. rewrite Hsz, Hcl, take_insert_lt by lia. done.
Qed.

(** Moving the tail of a list one cell to the left removes a cell. *)
Lemma move_cells_spec l (i n : nat) :
  (i < n)%nat → (n <= length l)%nat →
  ∃ l', move_cells l i (i + 1) (n - 1 - i) = Returned l' ∧ length l' = length l ∧
        take (n - 1) l' = delete i (take n l).
Proof.
  intros Hi Hn. unfold move_cells.
  rewrite (proj2 (Nat.leb_le _ _)), (proj2 (Nat.leb_le (i + (n - 1 - i)) _)) by lia. cbn [andb].
  eexists. split; [done|]. split.
  - rewrite !length_app, !length_take, !length_drop. lia.
  - rewrite app_assoc, take_app_le by (rewrite length_app, !length_take, length_drop; lia).
    rewrite take_ge by (rewrite length_app, !length_take, length_drop; lia).
    rewrite delete_take_drop. rewrite take_take, Nat.min_l by lia. f_equal.
    replace (i + 1)%nat with (S i) by lia. rewrite skipn_firstn_comm. f_equal. lia.
Qed.

Lemma arrayRemove_spec a i :
  wf a → 0 ≤ i < size a →
  ∃ v a', arrayRemove a i = Returned (v, a') ∧ abs a !! Z.to_nat i = Some v ∧ wf a' ∧
          abs a' = delete (Z.to_nat i) (abs a).
Proof.
  intros Hwf Hi. destruct (load_spec a i Hwf Hi) as (v & Hl & Hv). pose proof Hwf as [Hnull Hlen Hsz Hmax].
  rewrite MAX_CAPACITY_value in Hmax. unfold arrayRemove, checkBounds, oassert.
  rewrite (proj2 (Z.ltb_lt i (size a))), (proj2 (Z.leb_le 0 i)) by lia. rewrite Hl. cbn [obind].
  rewrite s32_small by lia. exists v.
  destruct (move_cells_spec (cells a) (Z.to_nat i) (Z.to_nat (size a))) as (l' & Hm & Hl' & Ht); [lia|lia|].
  destruct (contents a) as [l|] eqn:Ec.
  2:{ exfalso. unfold cells in Hlen. rewrite Ec in Hlen. simpl in Hlen. lia. }
  assert (cells a = l) as Ecl by (unfold cells; by rewrite Ec). rewrite Ecl in *.
  destruct (i =? size a - 1) eqn:E; bool_to_prop; cbn [negb obind].
  - eexists. split_and!; [done|done|apply set_size_wf; [done|lia]|]. unfold abs. cbn [size set_size].
    change (cells (set_size a (size a - 1))) with (cells a). rewrite Ecl, delete_take_drop, take_take, Nat.min_l by lia.
    rewrite drop_ge, app_nil_r by (rewrite length_take; lia). f_equal. lia.
  - cbn [oderef obind]. replace (Z.to_nat (i + 1)) with (Z.to_nat i + 1)%nat by lia.
    replace (Z.to_nat (size a - 1 - i)) with (Z.to_nat (size a) - 1 - Z.to_nat i)%nat by lia. rewrite Hm. cbn [obind].
    eexists. split_and!; [done|done| |].
    + apply set_size_wf; [|cbn [capacity]; lia].
      split; unfold cells; cbn [contents capacity size from_option id]; [|lia|lia|by rewrite MAX_CAPACITY_value].
      split; [done|]. intros Hz. by apply Hnull in Hz.
    + unfold abs, cells. cbn [contents capacity size set_size from_option id]. rewrite Ec. cbn [from_option id].
      rewrite <-Ht. f_equal. lia.
Qed.

(** ** Sequences of operations *)

Inductive op := OAdd (p : Z) | OGet (i : Z) | OSet (i p : Z) | ORemove (i : Z) | OSize | OResize (n : Z).
Inductive answer := ACode (r : Z) | ACell (v : cell).

(** An operation on the array; [ok] answers its allocation. *)
Definition run_op (ok : bool) (a : Array) (o : op) : outcome (answer * Array) :=
  match o with
  | OAdd p => let! (r, a') := arrayAdd ok a p in Returned (ACode r, a')
  | OGet i => let! v := arrayGet a i in Returned (ACell v, a)
  | OSet i p => let! (v, a') := arraySet a i p in Returned (ACell v, a')
  | ORemove i => let! (v, a') := arrayRemove a i in Returned (ACell v, a')
  | OSize => Returned (ACode (arraySize a), a)
  | OResize n => let! (r, a') := arraySetSize ok a n in Returned (ACode r, a')
  end.

(** Growing a list to [n] elements.  The new elements of an empty list are
    [NULL].  Those of another list are [NULL] only from four times its length on:
    before that they are what was in the memory; or the memory behind the array
    is written. *)
Definition grown (l : list cell) (n : Z) (r : outcome (answer * list cell)) : Prop :=
  match l with
  | [] => r = Returned (ACode 0, replicate (Z.to_nat n) (Some 0))
  | _ => r = Undefined ∨ ∃ tail, r = Returned (ACode 0, l ++ tail) ∧ length (l ++ tail) = Z.to_nat n ∧
           ∀ i, (4 * length l ≤ i < Z.to_nat n)%nat → (l ++ tail) !! i = Some (Some 0)
  end.

(** The same operation on a list; an index out of range ends the process, and
    only an addition or a growth may fail: without memory ([ok] is false) or
    behind the largest size. *)
Definition in_range (l : list cell) (i : Z) : bool := (0 <=? i) && (i <? Z.of_nat (length l)).
Definition spec_op (ok : bool) (l : list cell) (o : op) (r : outcome (answer * list cell)) : Prop :=
  match o with
  | OAdd p => r = Returned (ACode 0, l ++ [Some p]) ∨ r = Returned (ACode (-1), l) ∧ (ok = false ∨ Z.of_nat (length l) = MAX_CAPACITY)
  | OGet i => r = if in_range l i then let! v := oderef (l !! Z.to_nat i) in Returned (ACell v, l) else Exited
  | OSet i p => r = if in_range l i
                    then let! v := oderef (l !! Z.to_nat i) in Returned (ACell v, <[Z.to_nat i := Some p]> l) else Exited
  | ORemove i => r = if in_range l i
                     then let! v := oderef (l !! Z.to_nat i) in Returned (ACell v, delete (Z.to_nat i) l) else Exited
  | OSize => r = Returned (ACode (Z.of_nat (length l)), l)
  | OResize n =>
      if n <? 0 then r = Exited
      else if n <=? Z.of_nat (length l) then r = Returned (ACode 0, take (Z.to_nat n) l)
      else grown l n r ∨ r = Returned (ACode (-1), l) ∧ (ok = false ∨ MAX_CAPACITY < n)
  end.

Lemma in_range_abs a i : wf a → in_range (abs a) i = (0 <=? i) && (i <? size a).
Proof. intros Hwf. unfold in_range. rewrite abs_length by done. pose proof (wf_size _ Hwf). do 2 f_equal. lia. Qed.

Lemma out_of_range {A} a i (k : outcome A) : wf a → in_range (abs a) i = false → checkBounds a i k = Exited.
Proof.
  intros Hwf. rewrite in_range_abs by done. unfold checkBounds, oassert. intros [->| ->]%andb_false_iff; [|done].
  by destruct (i <? size a).
Qed.

(** Shrinking by size keeps the front. *)
Lemma arrayShrink_spec ok a n :
  wf a → 0 ≤ n ≤ size a → ∃ a', arraySetSize ok a n = Returned (0, a') ∧ wf a' ∧ abs a' = take (Z.to_nat n) (abs a).
Proof.
  intros Hwf Hn. pose proof (wf_size _ Hwf). unfold arraySetSize, oassert. rewrite (proj2 (Z.leb_le 0 _)) by lia.
  destruct (size a <? n) eqn:E; bool_to_prop; [lia|]. eexists. split_and!; [done|apply set_size_wf; [done|lia]|].
  unfold abs. cbn [size set_size]. change (cells (set_size a n)) with (cells a).
  rewrite take_take. f_equal. lia.
Qed.

Lemma zero_cells_lookup l (from n i : nat) : (from + n <= length l)%nat →
  (take from l ++ replicate n (Some 0) ++ drop (from + n) l) !! i = if decide (from ≤ i < from + n)%nat then Some (Some 0) else l !! i.
Proof.
  intros Hl. case_decide as Hi.
  - rewrite lookup_app_r, lookup_app_l by (rewrite ?length_take, ?length_replicate; lia). apply lookup_replicate. rewrite length_take. split; [done|lia].
  - destruct (decide (i < from)%nat); [by rewrite lookup_app_l, lookup_take_lt by (rewrite ?length_take; lia)|].
    rewrite !lookup_app_r by (rewrite ?length_app, ?length_take, ?length_replicate; lia). rewrite lookup_drop, length_take, length_replicate. f_equal. lia.
Qed.

(** Growing by size. *)
Lemma arrayGrow_spec ok a n : wf a → size a < n →
  arraySetSize ok a n = Returned (-1, a) ∧ (ok = false ∨ MAX_CAPACITY < n) ∨
  arraySetSize ok a n = Undefined ∧ 0 < size a ∨
  ∃ a' tail, arraySetSize ok a n = Returned (0, a') ∧ wf a' ∧ abs a' = abs a ++ tail ∧ length (abs a ++ tail) = Z.to_nat n ∧
    ∀ i, (4 * length (abs a) ≤ i < Z.to_nat n)%nat → (abs a ++ tail) !! i = Some (Some 0).
Proof.
  intros Hwf Hn. pose proof (wf_size _ Hwf) as Hsz. pose proof (abs_length _ Hwf) as Hal.
  destruct (ensureCapacity_spec ok a n Hwf ltac:(lia)) as (r & a1 & He & Hwf1 & Hs1 & Ht & Hor).
  unfold arraySetSize, oassert, ensure. rewrite (proj2 (Z.leb_le 0 n)), (proj2 (Z.ltb_lt (size a) n)), He by lia.
  destruct Hor as [(-> & Hcap & _ & Hsome)|(-> & -> & Hor)]; [|by left]. right. cbn [Z.ltb Z.compare].
  destruct (Hsome ltac:(lia)) as [l Hl]. pose proof (wf_capacity _ Hwf1) as Hlen. pose proof (wf_capacity _ Hwf) as Hlen0. pose proof (wf_null _ Hwf1) as Hnull. pose proof (wf_max _ Hwf1).
  assert (cells a1 = l) as Hcl by (unfold cells; by rewrite Hl). rewrite Hcl in *. rewrite Hl. cbn [oderef obind]. unfold zero_cells.
  destruct (Nat.leb_spec (Z.to_nat (4 * size a) + Z.to_nat (n - size a)) (length l)) as [Hfit|Hfit]; [|left; split; [done|lia]].
  right. cbn [obind]. set (l' := _ ++ _ ++ _).
  assert (∀ i, l' !! i = if decide (Z.to_nat (4 * size a) ≤ i < Z.to_nat (4 * size a) + Z.to_nat (n - size a))%nat then Some (Some 0) else l !! i) as Hi
    by (intros i; by apply zero_cells_lookup).
  assert (length l' = length l) as Hl' by (unfold l'; rewrite !length_app, length_take, length_replicate, length_drop; lia).
  set (a' := mkArray _ _ _). assert (wf a') as Hwf'.
  { unfold a'. split; unfold cells; cbn [contents capacity size from_option id]; [|lia|lia|done].
    split; [done|]. intros Hz. apply Hnull in Hz. congruence. }
  assert (take (Z.to_nat (size a)) l' = abs a) as Hfront.
  { unfold abs. rewrite <- Ht, take_take, Nat.min_l by lia. apply list_eq. intros i. destruct (decide (i < Z.to_nat (size a))%nat);
      [|by rewrite !lookup_take_ge by lia]. rewrite !lookup_take_lt, Hi by lia. rewrite decide_False by lia. done. }
  assert (abs a' = take (Z.to_nat n) l') as Habs by done.
  assert (abs a' = abs a ++ drop (Z.to_nat (size a)) (abs a')) as Htail.
  { rewrite <- (take_drop (Z.to_nat (size a)) (abs a')) at 1. f_equal. rewrite Habs, take_take, Nat.min_l by lia. done. }
  exists a', (drop (Z.to_nat (size a)) (abs a')). split_and!; [done|done|done| |]; rewrite <- Htail; [by rewrite abs_length|].
  intros i Hin. rewrite Hal in Hin. rewrite Habs, lookup_take_lt, Hi by lia. rewrite decide_True by lia. done.
Qed.

(** The result of an operation, with the list in place of the array. *)
Definition abstract {X} (r : outcome (X * Array)) : outcome (X * list cell) :=
  let! (x, a) := r in Returned (x, abs a).

Lemma array_op_refines ok a o :
  wf a → spec_op ok (abs a) o (abstract (run_op ok a o)) ∧ (run_op ok a o = Undefined → ∃ n, o = OResize n ∧ 0 < size a < n) ∧
         ∀ x a', run_op ok a o = Returned (x, a') → wf a'.
Proof.
  intros Hwf. pose proof (wf_size _ Hwf) as Hsz. pose proof (in_range_abs a) as Hr. destruct o as [p|i|i p|i| |n]; cbn [run_op spec_op].
  - destruct (arrayAdd_spec ok a p Hwf) as (r & a' & -> & Hwf' & [[-> Habs]|(-> & -> & Hor)]); cbn [obind abstract];
      (split_and!; [|done|by intros ?? [= _ <-]]); [left; by rewrite Habs|right; split; [done|]]. rewrite abs_length by done. destruct Hor; [by left|right; lia].
  - rewrite arrayGet_spec, Hr by done. destruct ((0 <=? i) && (i <? size a)) eqn:E; [|by split_and!].
    bool_to_prop. destruct (load_spec a i Hwf) as (v & _ & ->); [lia|]. cbn [oderef obind abstract].
    split_and!; [done|done|by intros ?? [= _ <-]].
  - destruct (in_range (abs a) i) eqn:E; [|unfold arraySet; rewrite out_of_range by done; by split_and!].
    rewrite Hr in E by done. bool_to_prop.
    destruct (arraySet_spec a i p Hwf) as (v & a' & -> & -> & Hwf' & Habs); [lia|]. cbn [oderef obind abstract].
    split_and!; [by rewrite Habs|done|by intros ?? [= _ <-]].
  - destruct (in_range (abs a) i) eqn:E; [|unfold arrayRemove; rewrite out_of_range by done; by split_and!].
    rewrite Hr in E by done. bool_to_prop.
    destruct (arrayRemove_spec a i Hwf) as (v & a' & -> & -> & Hwf' & Habs); [lia|]. cbn [oderef obind abstract].
    split_and!; [by rewrite Habs|done|by intros ?? [= _ <-]].
  - cbn [abstract obind]. split_and!; [|done|by intros ?? [= _ <-]]. rewrite abs_length by done.
    unfold arraySize. do 2 f_equal. f_equal. lia.
  - rewrite abs_length, Z2Nat.id by (done || lia). destruct (n <? 0) eqn:E; bool_to_prop.
    { unfold arraySetSize, oassert. rewrite (proj2 (Z.leb_gt 0 _)) by lia. by split_and!. }
    destruct (n <=? size a) eqn:E2; bool_to_prop.
    { destruct (arrayShrink_spec ok a n Hwf ltac:(lia)) as (a' & -> & Hwf' & Habs). cbn [obind abstract].
      split_and!; [by rewrite Habs|done|by intros ?? [= _ <-]]. }
    destruct (arrayGrow_spec ok a n Hwf E2) as [[-> Hor]|[[-> Hpos]|(a' & tail & -> & Hwf' & Habs & Hlen & Hz)]]; cbn [obind abstract].
    + split_and!; [by right|done|by intros ?? [= _ <-]].
    + split_and!; [|eauto|done]. left. pose proof (abs_length _ Hwf). destruct (abs a); [cbn in *; lia|by left].
    + split_and!; [|done|by intros ?? [= _ <-]]. left. rewrite Habs. destruct (abs a) as [|x l] eqn:El; [|right; by exists tail].
      unfold grown. do 2 f_equal. cbn [app length] in *. apply list_eq. intros i. destruct (decide (i < Z.to_nat n)%nat).
      * rewrite Hz by lia. symmetry. by apply lookup_replicate.
      * rewrite !lookup_ge_None_2 by (rewrite ?length_replicate; lia). done.
Qed.

Fixpoint run (a : Array) (l : list (bool * op)) : outcome (list answer * Array) :=
  match l with
  | [] => Returned ([], a)
  | (ok, o) :: l' => let! (x, a1) := run_op ok a o in let! (xs, a2) := run a1 l' in Returned (x :: xs, a2)
  end.
Fixpoint spec_run (s : list cell) (l : list (bool * op)) (r : outcome (list answer * list cell)) : Prop :=
  match l with
  | [] => r = Returned ([], s)
  | (ok, o) :: l' => ∃ r1, spec_op ok s o r1 ∧
      match r1 with
      | Returned (x, s1) => ∃ r2, spec_run s1 l' r2 ∧ r = (let! (xs, s2) := r2 in Returned (x :: xs, s2))
      | Exited => r = Exited
      | Undefined => r = Undefined
      end
  end.

(** Somewhere in the operations an array that is not empty is grown by size. *)
Definition grows (a : Array) (l : list (bool * op)) : Prop :=
  ∃ l1 ok n l2 xs a1, l = l1 ++ (ok, OResize n) :: l2 ∧ run a l1 = Returned (xs, a1) ∧ 0 < arraySize a1 < n.

Lemma array_run_refines l : ∀ a, wf a → spec_run (abs a) l (abstract (run a l)) ∧ (run a l = Undefined → grows a l) ∧
  ∀ xs a', run a l = Returned (xs, a') → wf a'.
Proof.
  induction l as [|[ok o] l IH]; intros a Hwf; cbn [run spec_run].
  { split_and!; [done|done|by intros ?? [= _ <-]]. }
  destruct (array_op_refines ok a o Hwf) as (Hs & Hu & Hw). destruct (run_op ok a o) as [[x a1]| |] eqn:Ho; cbn [obind abstract] in *.
  2, 3: split_and!; [eexists; split; [exact Hs|done]| |done].
  2: done.
  2: { intros _. destruct (Hu eq_refl) as (n & -> & Hn). by exists [], ok, n, l, [], a. }
  destruct (IH a1 (Hw _ _ eq_refl)) as (Hs1 & Hu1 & Hw1). split_and!.
  - exists (Returned (x, abs a1)). split; [done|]. eexists. split; [exact Hs1|].
    by destruct (run a1 l) as [[xs a2]| |].
  - intros Hr. destruct Hu1 as (l1 & ok' & n & l2 & xs & a2 & -> & Hr2 & Hn); [by destruct (run a1 l) as [[xs a2]| |]|].
    exists ((ok, o) :: l1), ok', n, l2, (x :: xs), a2. split; [done|]. split; [|done]. cbn [run]. rewrite Ho. cbn [obind]. by rewrite Hr2.
  - intros xs a'. destruct (run a1 l) as [[ys a2]| |]; try done. cbn [obind]. intros [= _ <-]. by eapply Hw1.
Qed.

(** C33: An array is a list: from [arrayCreate] on, any sequence of additions,
    reads, writes, removals and changes of the size, whatever its allocations do, gives the
    answers the list gives.  An index out of range and a negative size end
    the process; an addition or a growth fails only without memory or behind the largest
    size and then changes nothing.  A smaller size cuts the list and a larger
    one fills an empty list with [NULL]; but of a list that is not empty only the elements
    from four times its length on are [NULL], and the memory behind the array may
    be written: no other operation leaves the memory of the array. *)
Theorem array_refines l a :
  arrayCreate true = Some a →
  spec_run [] l (abstract (run a l)) ∧ (run a l = Undefined → grows a l).
Proof.
  intros [= <-]. assert (wf (mkArray None 0 0)) as Hwf by (by split).
  destruct (array_run_refines l _ Hwf) as (Hs & Hu & _). done.
Qed.

(** An addition fails only when memory cannot be had or the array has the
    largest capacity, and it leaves the array as it was; otherwise the pointer
    is the last element. *)
Theorem arrayAdd_fails ok a p :
  wf a →
  ∃ r a', arrayAdd ok a p = Returned (r, a') ∧
    (r = -1 → a' = a ∧ (ok = false ∨ arraySize a = MAX_CAPACITY)) ∧
    (r ≠ -1 → r = 0 ∧ wf a' ∧ arraySize a' = arraySize a + 1 ∧ arrayGet a' (arraySize a) = Returned (Some p)).
Proof.
  intros Hwf. destruct (arrayAdd_spec ok a p Hwf) as (r & a' & Hr & Hwf' & Hor). exists r, a'. split; [done|].
  destruct Hor as [[-> Habs]|(-> & -> & ?)]; split; try done. intros _. pose proof (f_equal length Habs) as Hl.
  pose proof (wf_size _ Hwf). pose proof (wf_size _ Hwf').
  rewrite length_app, !abs_length in Hl by done. simpl in Hl. unfold arraySize. split_and!; [done|done|lia|].
  rewrite arrayGet_spec, (proj2 (Z.leb_le 0 _)), (proj2 (Z.ltb_lt (size a) _)) by (done || lia). cbn [andb].
  rewrite Habs, lookup_app_r, abs_length by (rewrite ?abs_length; done || lia). by rewrite Nat.sub_diag.
Qed.

(** Growing an array that is not empty by size.  The offset of the [memset]
    of [arraySetSize] counts cells and is multiplied by the size of a cell once
    more: the call either writes behind the memory of the array, or returns
    with the new elements as they were in memory. *)
Theorem arraySetSize_grow a n :
  wf a → 0 < size a → size a < n → n ≤ MAX_CAPACITY →
  ∃ a1, ensureCapacity true a n = Some (0, a1) ∧ wf a1 ∧ n ≤ capacity a1 ∧
    if capacity a1 <? 4 * size a + (n - size a) then arraySetSize true a n = Undefined
    else ∃ a', arraySetSize true a n = Returned (0, a') ∧ arraySize a' = n ∧
           ∀ i, size a ≤ i < Z.min n (4 * size a) → cells a' !! Z.to_nat i = cells a1 !! Z.to_nat i.
Proof.
  intros Hwf Hpos Hn Hmax. destruct (ensureCapacity_spec true a n Hwf ltac:(lia)) as (r & a1 & He & Hwf1 & Hs1 & _ & Hor).
  destruct Hor as [(-> & Hcap & _ & His)|(_ & _ & [|])]; [|done|lia]. exists a1. split_and!; [done|done|done|].
  destruct (His ltac:(lia)) as [l Hl]. pose proof (wf_capacity _ Hwf1) as Hlen. unfold cells in Hlen. rewrite Hl in Hlen.
  cbn [from_option id] in Hlen. unfold arraySetSize, oassert, ensure. rewrite (proj2 (Z.leb_le 0 n)), (proj2 (Z.ltb_lt (size a) n)), He by lia.
  cbn [Z.ltb Z.compare]. rewrite Hl. cbn [oderef obind]. unfold zero_cells.
  destruct (capacity a1 <? 4 * size a + (n - size a)) eqn:E; bool_to_prop.
  - rewrite (proj2 (Nat.leb_gt _ _)) by lia. done.
  - rewrite (proj2 (Nat.leb_le _ _)) by lia. cbn [obind]. eexists. split_and!; [done|done|]. intros i Hi. unfold cells.
    cbn [contents]. rewrite Hl. cbn [from_option id]. rewrite lookup_app_l by (rewrite length_take; lia).
    by rewrite lookup_take_lt by lia.
Qed.

(** ** Examples *)

Lemma array_refines_witness :
  ∃ a, arrayCreate true = Some a ∧
    run a [(true, OResize 2); (true, OAdd 7); (true, OGet 1); (true, ORemove 0); (true, OResize 1); (false, OSize)] =
      Returned ([ACode 0; ACode 0; ACell (Some 0); ACell (Some 0); ACode 0; ACode 1],
                mkArray (Some [Some 0; Some 7; Some 7; None]) 1 4) ∧
    (run a [(true, OAdd 7); (true, OResize 2)] = Undefined → grows a [(true, OAdd 7); (true, OResize 2)]).
Proof.
  eexists. split; [reflexivity|]. split; [vm_compute; reflexivity|].
  exact (proj2 (array_refines [(true, OAdd 7); (true, OResize 2)] _ eq_refl)).
Defined.

Definition demo_array : Array := mkArray (Some [Some 1; Some 2; Some 3; None]) 3 4.
Lemma demo_array_wf : wf demo_array.
Proof. by split. Qed.

Lemma arrayAdd_fails_witness :
  wf demo_array ∧ ∃ a', arrayAdd true demo_array 5 = Returned (0, a') ∧ arrayGet a' 3 = Returned (Some 5).
Proof.
  split; [apply demo_array_wf|].
  destruct (arrayAdd_fails true demo_array 5 demo_array_wf) as (r & a' & Hr & _ & Hok).
  assert (r = 0) as -> by (vm_compute in Hr; by injection Hr as <- _).
  exists a'. split; [done|]. by apply Hok.
Defined.

Lemma arraySetSize_grow_witness : wf demo_array ∧ arraySetSize true demo_array 4 = Undefined.
Proof.
  split; [apply demo_array_wf|].
  destruct (arraySetSize_grow demo_array 4 demo_array_wf) as (a1 & He & _ & _ & Hc);
    [by vm_compute|by vm_compute|by vm_compute|].
  assert (a1 = demo_array) as -> by (vm_compute in He; by injection He as <-). exact Hc.
Defined.

End AR.
