(* ===== verification/Utf.v ===== *)
(** The conversions between modified UTF-8 and UTF-16 of
    [cutils/strdup8to16.c] and [cutils/strdup16to8.c].  A pointer to bytes is the
    list of the bytes from it to the end of the memory it points into; a C
    string has its terminating zero in that list. *)

From S2P Require Import Prelude.

Module UT.

Definition UTF16_REPLACEMENT_CHAR : Z := 0xfffd.
Definition UNICODE_UPPER_LIMIT : Z := 0x10fffd.
Definition SIZE_MAX : Z := 2 ^ 32 - 1.

Definition UTF8_SEQ_LENGTH (ch : Z) : Z := Z.land (Z.shiftr 0xe5000000 (Z.land (Z.shiftr ch 3) 0x1e)) 3 + 1.
Definition UTF8_SHIFT_AND_MASK (unicode byte : Z) : Z := Z.lor (u32 (Z.shiftl unicode 6)) (Z.land 0x3f byte).
Definition leaderMask : list Z := [0xff; 0x1f; 0x0f; 0x07].

(** A byte that starts with the bits 10. *)
Definition extension (b : Z) : bool := Z.land b 0xc0 =? 0x80.

(** The loop of [strlen8to16]. *)
Fixpoint strlen8to16_loop (p : list Z) (len expected : Z) : outcome Z :=
  match p with
  | [] => Undefined
  | ic :: p' =>
      if ic =? 0 then Returned len
      else if extension ic
      then let expected := s32 (expected - 1) in
           strlen8to16_loop p' (if expected <? 0 then u32 (len + 1) else len) expected
      else let expected := UTF8_SEQ_LENGTH ic - 1 in
           let len := u32 (len + 1) in
           strlen8to16_loop p' (if expected =? 3 then u32 (len + 1) else len) expected
  end.
Definition strlen8to16 (utf8Str : list Z) : outcome Z := strlen8to16_loop utf8Str 0 0.

(** The loop of [getUtf32FromUtf8] over the extension bytes, [n] to come. *)
Fixpoint extension_bytes (n : nat) (ret : Z) (p : list Z) : outcome (Z * list Z) :=
  match n with
  | O => Returned (ret, p)
  | S n =>
      match p with
      | [] => Undefined
      | b :: p' =>
          if b =? 0 then Returned (UTF16_REPLACEMENT_CHAR, p)
          else if negb (extension b) then Returned (UTF16_REPLACEMENT_CHAR, p)
          else extension_bytes n (UTF8_SHIFT_AND_MASK ret b) p'
      end
  end.

(** [getUtf32FromUtf8]: the character and the pointer behind it. *)
Definition getUtf32FromUtf8 (p : list Z) : outcome (Z * list Z) :=
  match p with
  | [] => Undefined
  | b :: p' =>
      if extension b then Returned (UTF16_REPLACEMENT_CHAR, p')
      else let seq_len := UTF8_SEQ_LENGTH b in
           let! mask := oderef (leaderMask !! Z.to_nat (seq_len - 1)) in
           let ret := Z.land b mask in
           if b =? 0 then Returned (ret, p) else extension_bytes (Z.to_nat (seq_len - 1)) ret p'
  end.

(** What one character adds to the UTF-16 string. *)
Definition units (ret : Z) : list Z :=
  if ret <=? 0xffff then [ret]
  else if ret <=? UNICODE_UPPER_LIMIT
  then [Z.lor 0xd800 (Z.shiftr (ret - 0x10000) 10); Z.lor 0xdc00 (Z.land (ret - 0x10000) 0x3ff)]
  else [UTF16_REPLACEMENT_CHAR].

(** The loop of [strcpy8to16], for at most [fuel] characters; [None] when it
    does not end.  The result is what was written to the destination. *)
Fixpoint strcpy8to16_loop (fuel : nat) (p dest : list Z) : option (outcome (list Z)) :=
  match p with
  | [] => Some Undefined
  | b :: _ =>
      if b =? 0 then Some (Returned dest)
      else match fuel with
           | O => None
           | S fuel =>
               match getUtf32FromUtf8 p with
               | Returned (ret, p') => strcpy8to16_loop fuel p' (dest ++ units ret)
               | Exited => Some Exited
               | Undefined => Some Undefined
               end
           end
  end.
Definition strcpy8to16 (utf8Str : list Z) : option (outcome (list Z)) :=
  strcpy8to16_loop (length utf8Str) utf8Str [].

(** The loop of [strcpylen8to16]; [left] is [end - utf8Str]. *)
Fixpoint strcpylen8to16_loop (fuel : nat) (p : list Z) (left : Z) (dest : list Z) : option (outcome (list Z)) :=
  if 0 <? left
  then match fuel with
       | O => None
       | S fuel =>
           match getUtf32FromUtf8 p with
           | Returned (ret, p') =>
               strcpylen8to16_loop fuel p' (left - Z.of_nat (length p - length p')) (dest ++ units ret)
           | Exited => Some Exited
           | Undefined => Some Undefined
           end
       end
  else Some (Returned dest).
Definition strcpylen8to16 (fuel : nat) (utf8Str : list Z) (length : Z) : option (outcome (list Z)) :=
  strcpylen8to16_loop fuel utf8Str length [].

(** [strdup8to16]: the copy, or [None] for [NULL]; the result of [malloc] is not
    tested.  A write of more units than were allocated is undefined. *)
Definition strdup8to16 (malloc_ok : bool) (s : option (list Z)) : option (outcome (option (list Z))) :=
  match s with
  | None => Some (Returned None)
  | Some s =>
      match strlen8to16 s with
      | Returned len =>
          if negb (len =? 0) && (SIZE_MAX / len <? 2) then Some (Returned None)
          else r ← strcpy8to16 s;
               Some (let! ret := r in
                     if (if malloc_ok then Z.of_nat (length ret) <=? len else bool_decide (ret = []))
                     then Returned (if malloc_ok then Some ret else None) else Undefined)
      | Exited => Some Exited
      | Undefined => Some Undefined
      end
  end.

(** The length of one unit in UTF-8. *)
Definition utf8_len (uic : Z) : Z := if 0x07ff <? uic then 3 else if (0x7f <? uic) || (uic =? 0) then 2 else 1.

(** The two loops of [strnlen16to8] over the [len] units. *)
Fixpoint strnlen16to8_fast (l : list Z) (utf8Len : Z) : Z :=
  match l with [] => utf8Len | uic :: l' => strnlen16to8_fast l' (u32 (utf8Len + utf8_len uic)) end.
Fixpoint strnlen16to8_slow (l : list Z) (utf8Len : Z) : Z :=
  match l with
  | [] => if utf8Len =? SIZE_MAX then SIZE_MAX - 1 else utf8Len
  | uic :: l' =>
      let utf8Cur := utf8Len in
      let utf8Len := u32 (utf8Len + utf8_len uic) in
      if utf8Len <? utf8Cur then SIZE_MAX - 1 else strnlen16to8_slow l' utf8Len
  end.
Definition strnlen16to8 (utf16Str : list Z) : Z :=
  if Z.of_nat (length utf16Str) <? (SIZE_MAX - 1) / 3
  then strnlen16to8_fast utf16Str 0 else strnlen16to8_slow utf16Str 0.

(** The bytes of one unit in [strncpy16to8]; a [char] keeps the low eight bits. *)
Definition utf8_bytes (uic : Z) : list Z :=
  if 0x07ff <? uic
  then [u8 (Z.lor (Z.shiftr uic 12) 0xe0); u8 (Z.lor (Z.land (Z.shiftr uic 6) 0x3f) 0x80); u8 (Z.lor (Z.land uic 0x3f) 0x80)]
  else if (0x7f <? uic) || (uic =? 0)
  then [u8 (Z.lor (Z.shiftr uic 6) 0xc0); u8 (Z.lor (Z.land uic 0x3f) 0x80)]
  else [u8 uic].

(** [strncpy16to8]: the bytes written, with the terminating zero. *)
Fixpoint strncpy16to8 (utf16Str : list Z) : list Z :=
  match utf16Str with [] => [0] | uic :: l' => utf8_bytes uic ++ strncpy16to8 l' end.

(** [strndup16to8]; writing more bytes than were allocated is undefined. *)
Definition strndup16to8 (malloc_ok : bool) (s : option (list Z)) : outcome (option (list Z)) :=
  match s with
  | None => Returned None
  | Some s =>
      let len := strnlen16to8 s in
      if SIZE_MAX - 1 <=? len then Returned None
      else if negb malloc_ok then Returned None
      else let bytes := strncpy16to8 s in
           if Z.of_nat (length bytes) <=? u32 (len + 1) then Returned (Some bytes) else Undefined
  end.

(** ** Lemmas on bytes *)

Definition is_byte (b : Z) : Prop := 0 ≤ b < 256.
Definition is_unit (u : Z) : Prop := 0 ≤ u < 2 ^ 16.

Lemma seq_length_range b : is_byte b → 1 ≤ UTF8_SEQ_LENGTH b ≤ 4.
Proof.
  intros Hb. pose proof (forall_below 256 (λ b, (1 <=? UTF8_SEQ_LENGTH b) && (UTF8_SEQ_LENGTH b <=? 4)) b
    ltac:(vm_compute; reflexivity) Hb) as H. cbv beta in H. by bool_to_prop.
Qed.

(** The mask of the leading byte leaves the bits of the character. *)
Definition leader_bound (seq_len : Z) : Z :=
  match seq_len with 1 => 2 ^ 8 | 2 => 2 ^ 5 | 3 => 2 ^ 4 | _ => 2 ^ 3 end.
Definition leader_ok (b : Z) : bool :=
  extension b ||
  match leaderMask !! Z.to_nat (UTF8_SEQ_LENGTH b - 1) with
  | Some mask => (0 <=? Z.land b mask) && (Z.land b mask <? leader_bound (UTF8_SEQ_LENGTH b))
  | None => false
  end.

Lemma leader_mask b :
  is_byte b → extension b = false →
  ∃ mask, leaderMask !! Z.to_nat (UTF8_SEQ_LENGTH b - 1) = Some mask ∧
          0 ≤ Z.land b mask < leader_bound (UTF8_SEQ_LENGTH b).
Proof.
  intros Hb He. assert (leader_ok b = true) as H by (apply (forall_below 256); [by vm_compute|done]).
  unfold leader_ok in H. rewrite He in H. cbn [orb] in H.
  destruct (leaderMask !! Z.to_nat (UTF8_SEQ_LENGTH b - 1)) as [mask|]; [|done]. exists mask. bool_to_prop. done.
Qed.

(** ** Termination and bounds of the copy to UTF-16 *)

(** A pointer to a terminated string of bytes. *)
Definition cstring (p : list Z) : Prop := Forall is_byte p ∧ 0 ∈ p.

Lemma cstring_next b p : cstring (b :: p) → b ≠ 0 → cstring p.
Proof. intros [Hb H0] Hne. apply Forall_cons in Hb as [_ Hb]. split; [done|]. apply elem_of_cons in H0 as [?|?]; [by subst|done]. Qed.

Lemma cstring_head p : cstring p → ∃ b p', p = b :: p' ∧ is_byte b.
Proof. destruct p as [|b p]; intros [Hb H0]; [by apply elem_of_nil in H0|]. apply Forall_cons in Hb as [? _]. eauto. Qed.

(** [strlen8to16] without wraps. *)
Fixpoint count (p : list Z) (expected : Z) : Z :=
  match p with
  | [] => 0
  | ic :: p' =>
      if ic =? 0 then 0
      else if extension ic then (if expected - 1 <? 0 then 1 else 0) + count p' (expected - 1)
      else (if UTF8_SEQ_LENGTH ic - 1 =? 3 then 2 else 1) + count p' (UTF8_SEQ_LENGTH ic - 1)
  end.

Lemma count_nonneg p e : 0 ≤ count p e.
Proof.
  revert e. induction p as [|b p IH]; intros e; cbn [count]; [done|].
  pose proof (IH (e - 1)). pose proof (IH (UTF8_SEQ_LENGTH b - 1)). repeat case_goal_if; lia.
Qed.

Lemma strlen8to16_loop_count p : ∀ len e,
  cstring p → 0 ≤ len → len + 2 * Z.of_nat (length p) < 2 ^ 32 → Z.of_nat (length p) - 2 ^ 31 < e ≤ 3 →
  strlen8to16_loop p len e = Returned (len + count p e).
Proof.
  induction p as [|b p IH]; intros len e Hc Hlen Hb He; [by destruct Hc as [_ ?%elem_of_nil]|].
  cbn [strlen8to16_loop count length] in *. destruct (b =? 0) eqn:E0; [by rewrite Z.add_0_r|]. bool_to_prop.
  destruct (cstring_head _ Hc) as (? & ? & [= <- <-] & Hbyte).
  apply cstring_next in Hc; [|done]. destruct (extension b).
  - rewrite s32_small by lia. destruct (e - 1 <? 0) eqn:E1; rewrite ?u32_small by lia; rewrite IH; try done; try lia.
    f_equal. lia.
  - pose proof (seq_length_range b Hbyte). rewrite (u32_small (len + 1)) by lia.
    destruct (UTF8_SEQ_LENGTH b - 1 =? 3); rewrite ?u32_small by lia; rewrite IH; try done; try lia; f_equal; lia.
Qed.

(** The length of the units of a character. *)
Lemma units_length ret : (1 <= length (units ret) <= 2)%nat ∧ (ret < 2 ^ 16 → length (units ret) = 1%nat).
Proof. unfold units. repeat case_goal_if; bool_to_prop; simpl; split; lia. Qed.

(** The state of [strlen8to16] at the start of a character of the copy. *)
Definition boundary (e : Z) (p : list Z) : Prop :=
  e ≤ 0 ∨ match p with b :: _ => extension b = false | [] => True end.

(** The extension bytes of a character: none of them is counted. *)
Lemma extension_bytes_spec n : ∀ ret p k,
  cstring p → 0 ≤ ret < 2 ^ k → 0 ≤ k → k + 6 * Z.of_nat n ≤ 32 →
  ∃ r p', extension_bytes n ret p = Returned (r, p') ∧ cstring p' ∧ (length p' <= length p)%nat ∧
    (r < 2 ^ (k + 6 * Z.of_nat n) ∨ r = UTF16_REPLACEMENT_CHAR) ∧
    ∃ e', count p (Z.of_nat n) = count p' e' ∧ boundary e' p'.
Proof.
  induction n as [|n IH]; intros ret p k Hc Hret Hk Hkn; cbn [extension_bytes].
  - exists ret, p. split_and!; try done; [left; replace (k + 6 * Z.of_nat 0) with k by lia; lia|]. exists 0. split; [done|by left].
  - destruct (cstring_head _ Hc) as (b & p' & -> & Hb). destruct (b =? 0) eqn:E0.
    { exists UTF16_REPLACEMENT_CHAR, (b :: p'). split_and!; try done; [by right|]. exists (Z.of_nat (S n)). split; [done|].
      right. bool_to_prop. by subst b. }
    destruct (extension b) eqn:Ee; cbn [negb].
    2:{ exists UTF16_REPLACEMENT_CHAR, (b :: p'). split_and!; try done; [by right|]. exists (Z.of_nat (S n)). split; [done|by right]. }
    bool_to_prop. apply cstring_next in Hc; [|done].
    assert (0 ≤ UTF8_SHIFT_AND_MASK ret b < 2 ^ (k + 6)) as Hr.
    { unfold UTF8_SHIFT_AND_MASK. rewrite Z.pow_add_r by lia.
      assert (2 ^ (k + 6) ≤ 2 ^ 32) as Hle by (apply Z.pow_le_mono_r; lia). rewrite Z.pow_add_r in Hle by lia.
      rewrite Z.land_comm. change 0x3f with (Z.ones 6). rewrite Z.land_ones by lia. pose proof (Z.mod_pos_bound b (2 ^ 6)).
      rewrite u32_small by (rewrite Z.shiftl_mul_pow2 by lia; lia). rewrite lor_low by lia. lia. }
    destruct (IH _ p' (k + 6) Hc Hr) as (r & q & -> & Hq & Hlen & Hor & e' & Hcnt & Hbd); [lia|lia|].
    exists r, q. split_and!; [done|done|simpl; lia| |].
    + destruct Hor as [Hlt|]; [left|by right]. by replace (k + 6 * Z.of_nat (S n)) with (k + 6 + 6 * Z.of_nat n) by lia.
    + exists e'. split; [|done]. cbn [count]. rewrite (proj2 (Z.eqb_neq b 0)), Ee by done.
      replace (Z.of_nat (S n) - 1) with (Z.of_nat n) by lia. by rewrite (proj2 (Z.ltb_ge _ 0)) by lia.
Qed.

(** One character: at least one byte is read, none behind the terminator, and the
    units it takes were counted. *)
Lemma getUtf32_spec b p e :
  cstring (b :: p) → b ≠ 0 → boundary e (b :: p) →
  ∃ ret p' e', getUtf32FromUtf8 (b :: p) = Returned (ret, p') ∧ cstring p' ∧ (length p' <= length p)%nat ∧
    boundary e' p' ∧ Z.of_nat (length (units ret)) + count p' e' ≤ count (b :: p) e.
Proof.
  intros Hc Hb0 Hbd. destruct (cstring_head _ Hc) as (? & ? & [= <- <-] & Hb). apply cstring_next in Hc; [|done].
  cbn [getUtf32FromUtf8 count]. rewrite (proj2 (Z.eqb_neq b 0)) by done. destruct (extension b) eqn:Ee.
  - exists UTF16_REPLACEMENT_CHAR, p, (e - 1). destruct Hbd as [He|Hne]; [|congruence].
    rewrite (proj2 (Z.ltb_lt _ 0)) by lia. split_and!; [done|done|done|left; lia|]. simpl. lia.
  - destruct (leader_mask b Hb Ee) as (mask & -> & Hm). cbn [oderef obind]. pose proof (seq_length_range b Hb) as Hs.
    set (n := UTF8_SEQ_LENGTH b) in *.
    set (k := match n with 1 => 8 | 2 => 5 | 3 => 4 | _ => 3 end).
    assert (Z.land b mask < 2 ^ k ∧ 0 ≤ k ∧ k + 6 * (n - 1) ≤ 21 ∧ (n ≤ 3 → k + 6 * (n - 1) ≤ 16)) as (Hk & Hk0 & Hk1 & Hk2).
    { assert (n = 1 ∨ n = 2 ∨ n = 3 ∨ n = 4) as Hcases by lia. subst k. unfold leader_bound in Hm.
      destruct Hcases as [E|[E|[E|E]]]; rewrite E in Hm |- *; cbv iota in Hm |- *; lia. }
    destruct (extension_bytes_spec (Z.to_nat (n - 1)) (Z.land b mask) p k Hc)
      as (r & p' & -> & Hc' & Hlen & Hor & e' & Hcnt & Hbd'); [lia|lia|lia|].
    exists r, p', e'. split_and!; [done|done|done|done|]. rewrite Z2Nat.id in Hcnt, Hor by lia. rewrite Hcnt.
    destruct (units_length r) as [H12 H1]. destruct (n - 1 =? 3) eqn:E3; bool_to_prop; [lia|].
    rewrite H1; [lia|]. destruct Hor as [Hr| ->]; [|done].
    assert (2 ^ (k + 6 * (n - 1)) ≤ 2 ^ 16) by (apply Z.pow_le_mono_r; lia). lia.
Qed.

Lemma strcpy8to16_loop_spec fuel : ∀ p dest e,
  cstring p → boundary e p → (length p <= fuel)%nat →
  ∃ out, strcpy8to16_loop fuel p dest = Some (Returned (dest ++ out)) ∧ Z.of_nat (length out) ≤ count p e.
Proof.
  induction fuel as [|fuel IH]; intros p dest e Hc Hbd Hf; destruct (cstring_head _ Hc) as (b & q & -> & Hb); cbn [strcpy8to16_loop].
  - simpl in Hf. lia.
  - destruct (b =? 0) eqn:E0; bool_to_prop.
    { exists []. rewrite app_nil_r. split; [done|]. apply (count_nonneg (b :: q) e). }
    destruct (getUtf32_spec b q e Hc E0 Hbd) as (ret & p' & e' & -> & Hc' & Hlen & Hbd' & Hcnt).
    destruct (IH p' (dest ++ units ret) e' Hc' Hbd') as (out & -> & Hout); [simpl in Hf; lia|].
    exists (units ret ++ out). rewrite app_assoc. split; [done|]. rewrite length_app. lia.
Qed.

Lemma count_le p e : count p e ≤ 2 * Z.of_nat (length p).
Proof.
  revert e. induction p as [|b p IH]; intros e; cbn [count length]; [done|].
  pose proof (IH (e - 1)). pose proof (IH (UTF8_SEQ_LENGTH b - 1)). repeat case_goal_if; lia.
Qed.

Lemma strlen8to16_value s :
  cstring s → Z.of_nat (length s) < 2 ^ 30 →
  strlen8to16 s = Returned (count s 0) ∧ negb (count s 0 =? 0) && (SIZE_MAX / count s 0 <? 2) = false.
Proof.
  intros Hc Hl. pose proof (count_le s 0). pose proof (count_nonneg s 0). split.
  - unfold strlen8to16. rewrite strlen8to16_loop_count by (done || lia). done.
  - destruct (count s 0 =? 0) eqn:E0; [done|]. bool_to_prop. apply Z.ltb_ge, Z.div_le_lower_bound; [lia|].
    unfold SIZE_MAX. lia.
Qed.

(** Copying a terminated string to UTF-16 ends for every string of bytes, valid
    or not, reads nothing behind the terminator, and writes no more units than
    [strlen8to16] counts; so [strdup8to16], when it has memory, returns the
    copy and never writes outside of it. *)
Theorem strdup8to16_fits s :
  cstring s → Z.of_nat (length s) < 2 ^ 30 →
  ∃ len out, strlen8to16 s = Returned len ∧ strcpy8to16 s = Some (Returned out) ∧ Z.of_nat (length out) ≤ len ∧
             strdup8to16 true (Some s) = Some (Returned (Some out)).
Proof.
  intros Hc Hl. destruct (strcpy8to16_loop_spec (length s) s [] 0 Hc (or_introl (Z.le_refl 0)) (le_n _)) as (out & Hcpy & Hout).
  change (strcpy8to16_loop (length s) s []) with (strcpy8to16 s) in Hcpy. destruct (strlen8to16_value s Hc Hl) as [Hlen Hov].
  exists (count s 0), out. split_and!; [done|done|done|]. unfold strdup8to16. rewrite Hlen, Hov, Hcpy. cbn [mbind option_bind obind app].
  by rewrite (proj2 (Z.leb_le _ _)) by done.
Qed.

(** ** UTF-16 to UTF-8 *)

(** The length of the UTF-8 string, without wraps. *)
Fixpoint total (l : list Z) : Z := match l with [] => 0 | u :: l' => utf8_len u + total l' end.

Lemma utf8_len_range u : 1 ≤ utf8_len u ≤ 3.
Proof. unfold utf8_len. repeat case_goal_if; lia. Qed.

Lemma total_bounds l : Z.of_nat (length l) ≤ total l ≤ 3 * Z.of_nat (length l).
Proof. induction l as [|u l IH]; simpl; [done|]. pose proof (utf8_len_range u). lia. Qed.

Lemma fast_total l : ∀ n, 0 ≤ n → n + total l < 2 ^ 32 → strnlen16to8_fast l n = n + total l.
Proof.
  induction l as [|u l IH]; intros n Hn Hb; cbn [strnlen16to8_fast total] in *; [lia|].
  pose proof (utf8_len_range u). pose proof (total_bounds l). rewrite u32_small by lia. rewrite IH; lia.
Qed.

Lemma slow_total l : ∀ n, 0 ≤ n < 2 ^ 32 → strnlen16to8_slow l n = Z.min (n + total l) (SIZE_MAX - 1).
Proof.
  unfold SIZE_MAX. induction l as [|u l IH]; intros n Hn; cbn [strnlen16to8_slow total] in *.
  - unfold SIZE_MAX. destruct (n =? 2 ^ 32 - 1) eqn:E; bool_to_prop; lia.
  - pose proof (utf8_len_range u). pose proof (total_bounds l). unfold SIZE_MAX.
    destruct (decide (n + utf8_len u < 2 ^ 32)) as [Hs|Hs].
    + rewrite u32_small by lia. rewrite (proj2 (Z.ltb_ge _ n)) by lia. rewrite IH by lia. f_equal. lia.
    + assert (u32 (n + utf8_len u) = n + utf8_len u - 2 ^ 32) as ->.
      { unfold u32. symmetry. apply (Z.mod_unique _ _ 1); lia. }
      rewrite (proj2 (Z.ltb_lt _ n)) by lia. lia.
Qed.

(** The two loops of [strnlen16to8] compute the same: the exact length of the
    UTF-8 string, or [SIZE_MAX - 1] when that is not less. *)
Theorem strnlen16to8_equiv l :
  strnlen16to8 l = Z.min (total l) (SIZE_MAX - 1) ∧ strnlen16to8 l = strnlen16to8_slow l 0.
Proof.
  assert (strnlen16to8 l = Z.min (total l) (SIZE_MAX - 1)) as H; [|split; [done|by rewrite H, slow_total by lia]].
  unfold strnlen16to8. destruct (Z.of_nat (length l) <? (SIZE_MAX - 1) / 3) eqn:E; [|by rewrite slow_total by lia].
  bool_to_prop. pose proof (total_bounds l). unfold SIZE_MAX in *.
  assert (3 * Z.of_nat (length l) < 2 ^ 32 - 1 - 1) by (change ((2 ^ 32 - 1 - 1) / 3) with 1431655764 in E; lia).
  rewrite fast_total by lia. lia.
Qed.

Lemma utf8_bytes_length u : Z.of_nat (length (utf8_bytes u)) = utf8_len u.
Proof. unfold utf8_bytes, utf8_len. by repeat case_goal_if. Qed.

Lemma strncpy16to8_length l : Z.of_nat (length (strncpy16to8 l)) = total l + 1.
Proof.
  induction l as [|u l IH]; cbn [strncpy16to8 total]; [done|]. rewrite length_app, Nat2Z.inj_add, IH, utf8_bytes_length. lia.
Qed.

(** One unit and back. *)
Lemma tail_byte x :
  0 ≤ x → let b := u8 (Z.lor (Z.land x 0x3f) 0x80) in
  b = 0x80 + x mod 64 ∧ extension b = true ∧ b ≠ 0 ∧ is_byte b ∧ ∀ r, 0 ≤ r < 2 ^ 26 → UTF8_SHIFT_AND_MASK r b = r * 64 + x mod 64.
Proof.
  intros Hx b. assert (b = 0x80 + x mod 64 ∧ extension b = true ∧ Z.land 0x3f b = x mod 64) as (Hb & He & Hl).
  { subst b. change 0x3f with (Z.ones 6). rewrite Z.land_ones by done. change (2 ^ 6) with 64.
    pose proof (Z.mod_pos_bound x 64 ltac:(lia)) as Hm.
    pose proof (forall_below 64 (λ c, (u8 (Z.lor c 0x80) =? 0x80 + c) && extension (u8 (Z.lor c 0x80)) &&
      (Z.land (Z.ones 6) (u8 (Z.lor c 0x80)) =? c)) (x mod 64) ltac:(vm_compute; reflexivity) Hm) as H.
    cbv beta in H. by bool_to_prop. }
  pose proof (Z.mod_pos_bound x 64 ltac:(lia)). split_and!; [done|done|lia|unfold is_byte; lia|].
  intros r Hr. unfold UTF8_SHIFT_AND_MASK. rewrite Hl, u32_small by (rewrite Z.shiftl_mul_pow2 by lia; lia).
  by rewrite lor_low by lia.
Qed.

(** The leading byte of a unit: [n] is the length of its sequence. *)
Definition leads (b n a : Z) : bool :=
  negb (extension b) && (UTF8_SEQ_LENGTH b =? n) && negb (b =? 0) &&
  match leaderMask !! Z.to_nat (n - 1) with Some mask => Z.land b mask =? a | None => false end.

Lemma leads_get b n a rest :
  leads b n a = true → getUtf32FromUtf8 (b :: rest) = extension_bytes (Z.to_nat (n - 1)) a rest ∧ b ≠ 0.
Proof.
  unfold leads. destruct (leaderMask !! Z.to_nat (n - 1)) as [mask|] eqn:E; [|by rewrite andb_false_r].
  intros H. bool_to_prop. apply negb_true_iff in H. cbn [getUtf32FromUtf8]. rewrite H.
  match goal with HS : UTF8_SEQ_LENGTH b = n |- _ => rewrite HS end. rewrite E. cbn [oderef obind].
  match goal with H0 : negb (b =? 0) = true |- _ => apply negb_true_iff in H0; rewrite H0 end. bool_to_prop. by subst.
Qed.

Lemma extension_bytes_cons n r b rest :
  b ≠ 0 → extension b = true → extension_bytes (S n) r (b :: rest) = extension_bytes n (UTF8_SHIFT_AND_MASK r b) rest.
Proof. intros H0 He. cbn [extension_bytes]. by rewrite (proj2 (Z.eqb_neq b 0)), He by done. Qed.

Lemma getUtf32_unit u rest :
  is_unit u →
  getUtf32FromUtf8 (utf8_bytes u ++ rest) = Returned (u, rest) ∧ ∃ b q, utf8_bytes u = b :: q ∧ b ≠ 0.
Proof.
  intros Hu. unfold is_unit in Hu. unfold utf8_bytes.
  destruct (0x07ff <? u) eqn:E1; [|destruct ((0x7f <? u) || (u =? 0)) eqn:E2]; cbn [app].
  - bool_to_prop. rewrite !Z.shiftr_div_pow2 by lia. change (2 ^ 12) with 4096. change (2 ^ 6) with 64.
    assert (0 ≤ u / 4096 < 16) as Ha by (split; [apply Z.div_pos; lia|apply Z.div_lt_upper_bound; lia]).
    assert (0 ≤ u / 64 < 1024) as Hc by (split; [apply Z.div_pos; lia|apply Z.div_lt_upper_bound; lia]).
    assert (leads (u8 (Z.lor (u / 4096) 0xe0)) 3 (u / 4096) = true) as Hl
      by (apply (forall_below 16 (λ a, leads (u8 (Z.lor a 0xe0)) 3 a)); [by vm_compute|done]).
    destruct (leads_get _ _ _ (u8 (Z.lor (Z.land (u / 64) 63) 128) :: u8 (Z.lor (Z.land u 63) 128) :: rest) Hl) as [-> Hn].
    split; [|by do 2 eexists]. change (Z.to_nat (3 - 1)) with 2%nat.
    destruct (tail_byte (u / 64) ltac:(lia)) as (_ & He1 & Hz1 & _ & Hs1). rewrite extension_bytes_cons, Hs1 by (done || lia).
    destruct (tail_byte u ltac:(lia)) as (_ & He2 & Hz2 & _ & Hs2).
    pose proof (Z.mod_pos_bound (u / 64) 64 ltac:(lia)). rewrite extension_bytes_cons, Hs2 by (done || lia). cbn [extension_bytes].
    do 2 f_equal. replace (u / 4096) with (u / 64 / 64) by (by rewrite Z.div_div by lia).
    pose proof (Z.div_mod u 64). pose proof (Z.div_mod (u / 64) 64). lia.
  - rewrite !Z.shiftr_div_pow2 by lia. change (2 ^ 6) with 64.
    assert (0 ≤ u < 2048) as Hu' by (bool_to_prop; lia).
    assert (0 ≤ u / 64 < 32) as Ha by (split; [apply Z.div_pos; lia|apply Z.div_lt_upper_bound; lia]).
    assert (leads (u8 (Z.lor (u / 64) 0xc0)) 2 (u / 64) = true) as Hl
      by (apply (forall_below 32 (λ a, leads (u8 (Z.lor a 0xc0)) 2 a)); [by vm_compute|done]).
    destruct (leads_get _ _ _ (u8 (Z.lor (Z.land u 63) 128) :: rest) Hl) as [-> Hn].
    split; [|by do 2 eexists]. change (Z.to_nat (2 - 1)) with 1%nat.
    destruct (tail_byte u ltac:(lia)) as (_ & He & Hz & _ & Hs). rewrite extension_bytes_cons, Hs by (done || lia). cbn [extension_bytes].
    do 2 f_equal. pose proof (Z.div_mod u 64). lia.
  - bool_to_prop. assert (0 ≤ u < 128) as Hu' by lia.
    assert ((u =? 0) || leads (u8 u) 1 u = true) as Hl
      by (apply (forall_below 128 (λ a, (a =? 0) || leads (u8 a) 1 a)); [by vm_compute|done]).
    rewrite (proj2 (Z.eqb_neq u 0)) in Hl by done. cbn [orb] in Hl.
    destruct (leads_get _ _ _ rest Hl) as [-> Hn]. split; [done|by do 2 eexists].
Qed.

Lemma units_unit u : is_unit u → units u = [u].
Proof. intros Hu. unfold units, is_unit in *. by rewrite (proj2 (Z.leb_le u _)) by lia. Qed.

Lemma roundtrip_loop l : ∀ fuel dest,
  Forall is_unit l → (length l <= fuel)%nat → strcpy8to16_loop fuel (strncpy16to8 l) dest = Some (Returned (dest ++ l)).
Proof.
  induction l as [|u l IH]; intros fuel dest Hl Hf; cbn [strncpy16to8].
  - destruct fuel; by rewrite app_nil_r.
  - apply Forall_cons in Hl as [Hu Hl]. destruct fuel as [|fuel]; [simpl in Hf; lia|].
    destruct (getUtf32_unit u (strncpy16to8 l) Hu) as [Hg (b & q & Hb & Hb0)].
    assert (strcpy8to16_loop (S fuel) (utf8_bytes u ++ strncpy16to8 l) dest
            = strcpy8to16_loop fuel (strncpy16to8 l) (dest ++ units u)) as ->.
    { rewrite Hb in *. cbn [strcpy8to16_loop app] in *. by rewrite (proj2 (Z.eqb_neq b 0)), Hg by done. }
    rewrite units_unit, IH by (done || simpl in Hf; lia). by rewrite <-app_assoc.
Qed.

(** C34: Every UTF-16 string, with zeros and unpaired surrogates in it, is encoded
    in UTF-8 in exactly the memory [strndup16to8] allocates, and converting the
    bytes back gives the string. *)
Theorem strndup16to8_roundtrip l :
  Forall is_unit l → total l < SIZE_MAX - 1 →
  ∃ bytes, strndup16to8 true (Some l) = Returned (Some bytes) ∧ Z.of_nat (length bytes) = total l + 1 ∧
           strcpy8to16 bytes = Some (Returned l).
Proof.
  intros Hl Ht. exists (strncpy16to8 l). pose proof (total_bounds l). split_and!.
  - unfold strndup16to8. destruct (strnlen16to8_equiv l) as [-> _]. rewrite Z.min_l by lia.
    rewrite (proj2 (Z.leb_gt _ _)) by lia. cbn [negb]. rewrite strncpy16to8_length.
    unfold SIZE_MAX in *. rewrite u32_small by lia. by rewrite (proj2 (Z.leb_le _ _)) by lia.
  - apply strncpy16to8_length.
  - unfold strcpy8to16. rewrite roundtrip_loop; [done|done|]. pose proof (strncpy16to8_length l). lia.
Qed.

(** [strcpylen8to16] does not end on a string with a zero byte before its
    length is used up: the zero is a character of no bytes, written again and
    again. *)
Theorem strcpylen8to16_zero fuel p n dest :
  0 < n → strcpylen8to16_loop fuel (0 :: p) n dest = None.
Proof.
  intros Hn. revert dest. induction fuel as [|fuel IH]; intros dest; cbn [strcpylen8to16_loop];
    rewrite (proj2 (Z.ltb_lt 0 n)) by done; [done|].
  change (getUtf32FromUtf8 (0 :: p)) with (Returned (0, 0 :: p)). cbv iota. rewrite Nat.sub_diag, Z.sub_0_r. apply IH.
Qed.

(** With no memory for the copy [strdup8to16] writes through [NULL]. *)
Lemma strdup8to16_no_memory b p :
  cstring (b :: p) → Z.of_nat (length (b :: p)) < 2 ^ 30 → b ≠ 0 → strdup8to16 false (Some (b :: p)) = Some Undefined.
Proof.
  intros Hc Hl Hb. destruct (strlen8to16_value _ Hc Hl) as [Hlen Hov]. unfold strdup8to16. rewrite Hlen, Hov.
  destruct (getUtf32_spec b p 0 Hc Hb (or_introl (Z.le_refl 0))) as (ret & p' & e' & Hg & Hc' & Hlen' & Hbd' & _).
  destruct (strcpy8to16_loop_spec (length p) p' (units ret) e' Hc' Hbd' Hlen') as (out & Hcpy & _).
  assert (strcpy8to16 (b :: p) = Some (Returned (units ret ++ out))) as ->.
  { unfold strcpy8to16. cbn [length strcpy8to16_loop]. by rewrite (proj2 (Z.eqb_neq b 0)), Hg by done. }
  cbn [mbind option_bind obind]. rewrite bool_decide_false; [done|]. destruct (units_length ret) as [? _].
  intros He%(f_equal length). rewrite length_app in He. simpl in He. lia.
Qed.

(** ** Examples *)

(** The letter a, a two-byte sequence cut short, a byte that is none, the end. *)
Definition demo_bad : list Z := [97; 0xe0; 0x81; 0xff; 0].
Lemma demo_bad_cstring : cstring demo_bad.
Proof. split; [by repeat constructor|]. unfold demo_bad. rewrite !elem_of_cons. auto 10. Qed.

Lemma strdup8to16_fits_witness :
  cstring demo_bad ∧ strdup8to16 true (Some demo_bad) = Some (Returned (Some [97; 0xfffd; 0xfffd])).
Proof.
  split; [apply demo_bad_cstring|].
  destruct (strdup8to16_fits demo_bad demo_bad_cstring ltac:(by vm_compute)) as (len & out & _ & Hc & _ & ->).
  vm_compute in Hc. by injection Hc as <-.
Defined.

Lemma strndup16to8_roundtrip_witness :
  strndup16to8 true (Some [0x41; 0; 0x7ff; 0xd800; 0xffff]) =
    Returned (Some [0x41; 0xc0; 0x80; 0xdf; 0xbf; 0xed; 0xa0; 0x80; 0xef; 0xbf; 0xbf; 0]) ∧
  ∃ bytes, strndup16to8 true (Some [0x41; 0; 0x7ff; 0xd800; 0xffff]) = Returned (Some bytes) ∧
           strcpy8to16 bytes = Some (Returned [0x41; 0; 0x7ff; 0xd800; 0xffff]).
Proof.
  split; [by vm_compute|].
  destruct (strndup16to8_roundtrip [0x41; 0; 0x7ff; 0xd800; 0xffff]) as (bytes & Hb & _ & Hr);
    [by repeat constructor|by vm_compute|]. by exists bytes.
Defined.

Lemma strcpylen8to16_zero_witness : strcpylen8to16 1000 [0; 97] 2 = None.
Proof. apply (strcpylen8to16_zero 1000 [97] 2 []). lia. Defined.

End UT.
