(* ===== verification/RecordStream.v ===== *)
(** The reader of framed records of [cutils/record_stream.c]: a buffer that is
    filled from a descriptor, with pointers to the bytes not yet consumed. *)

From S2P Require Import Prelude.

Module RS.

Definition HEADER_SIZE : Z := 4.
Definition EAGAIN : Z := 11.

(** [struct RecordStream]; [data] are the bytes of the buffer, [unconsumed],
    [read_end] and [buffer_end] are addresses. *)
Record RecordStream := mkRS {
  maxRecordLen : Z;
  buffer : Z;
  data : list Z;
  unconsumed : Z;
  read_end : Z;
  buffer_end : Z
}.

(** [record_stream_new]; [addr] and [junk] are the address and the bytes of the
    memory allocated, [None] when [assert] ends the process. *)
Definition record_stream_new (addr : Z) (junk : list Z) (maxRecordLen : Z) : outcome RecordStream :=
  oassert (maxRecordLen <=? 0xffff)
  (Returned (mkRS maxRecordLen addr junk addr addr (u32 (addr + maxRecordLen + HEADER_SIZE)))).

(** Reading [n] bytes of the buffer at an address. *)
Definition load (rs : RecordStream) (a n : Z) : outcome (list Z) :=
  if (buffer rs <=? a) && (a + n <=? buffer rs + Z.of_nat (length (data rs)))
  then Returned (take (Z.to_nat n) (drop (Z.to_nat (a - buffer rs)) (data rs))) else Undefined.
(** Writing bytes to the buffer at an address. *)
Definition store (rs : RecordStream) (a : Z) (l : list Z) : outcome RecordStream :=
  if (buffer rs <=? a) && (a + Z.of_nat (length l) <=? buffer rs + Z.of_nat (length (data rs)))
  then Returned (mkRS (maxRecordLen rs) (buffer rs)
         (take (Z.to_nat (a - buffer rs)) (data rs) ++ l ++ drop (Z.to_nat (a - buffer rs) + length l) (data rs))
         (unconsumed rs) (read_end rs) (buffer_end rs))
  else Undefined.
Definition set_ptrs (rs : RecordStream) (u r : Z) : RecordStream :=
  mkRS (maxRecordLen rs) (buffer rs) (data rs) u r (buffer_end rs).

(** [ntohl] of the word at an address is its bytes, the highest first. *)
Definition be32 (l : list Z) : Z := foldl (λ n b, n * 256 + b) 0 l.

(** [getEndOfRecord]. *)
Definition getEndOfRecord (rs : RecordStream) (p_begin p_end : Z) : outcome (option Z) :=
  if p_end <? u32 (p_begin + HEADER_SIZE) then Returned None
  else let! w := load rs p_begin 4 in
       let len := be32 w in
       let p_ret := u32 (p_begin + HEADER_SIZE + len) in
       Returned (if p_end <? p_ret then None else Some p_ret).

(** [getNextRecord]: the address and the length of the record. *)
Definition getNextRecord (rs : RecordStream) : outcome (option (Z * Z) * RecordStream) :=
  let! record_end := getEndOfRecord rs (unconsumed rs) (read_end rs) in
  match record_end with
  | Some record_end =>
      let record_start := u32 (unconsumed rs + HEADER_SIZE) in
      Returned (Some (record_start, u32 (record_end - record_start)), set_ptrs rs record_end (read_end rs))
  | None => Returned (None, rs)
  end.

(** A descriptor: the pieces the bytes arrive in; a [read] takes of the next
    piece what it has room for, and returns 0 at the end. *)
Definition read (fd : list (list Z)) (room : Z) : list Z * list (list Z) :=
  match fd with
  | [] => ([], [])
  | c :: fd' => if Z.of_nat (length c) <=? room then (c, fd') else (take (Z.to_nat room) c, drop (Z.to_nat room) c :: fd')
  end.

(** What [record_stream_get_next] returns: a record, the end of the stream (0
    with [NULL]), or -1 with an [errno]. *)
Inductive result := Record (start len : Z) | EndOfStream | Failed (errno : Z).

(** Moving the remainder to the beginning of the buffer. *)
Definition move_remainder (rs : RecordStream) : outcome RecordStream :=
  if negb (unconsumed rs =? buffer rs)
  then let toMove := u32 (read_end rs - unconsumed rs) in
       let! rs1 := (if negb (toMove =? 0)
                    then let! l := load rs (unconsumed rs) toMove in store rs (buffer rs) l
                    else Returned rs) in
       Returned (set_ptrs rs1 (buffer rs1) (u32 (buffer rs1 + toMove)))
  else Returned rs.

(** The part of [record_stream_get_next] behind the move. *)
Definition read_more (rs : RecordStream) (fd : list (list Z)) : outcome (result * RecordStream * list (list Z)) :=
  let '(l, fd') := read fd (u32 (buffer_end rs - read_end rs)) in
  if bool_decide (l = []) then Returned (EndOfStream, rs, fd')
  else let! rs1 := store rs (read_end rs) l in
       let! (ret, rs2) := getNextRecord (set_ptrs rs1 (unconsumed rs1) (u32 (read_end rs1 + Z.of_nat (length l)))) in
       match ret with
       | None => Returned (Failed EAGAIN, rs2, fd')
       | Some (start, len) => Returned (Record start len, rs2, fd')
       end.

Definition record_stream_get_next (rs : RecordStream) (fd : list (list Z)) : outcome (result * RecordStream * list (list Z)) :=
  let! (ret, rs1) := getNextRecord rs in
  match ret with
  | Some (start, len) => Returned (Record start len, rs1, fd)
  | None =>
      if (unconsumed rs =? buffer rs) && (read_end rs =? buffer_end rs) then Exited
      else let! rs2 := move_remainder rs in read_more rs2 fd
  end.

(** A client that reads records to the end of the stream, and calls again when
    told to; at most [fuel] calls, [None] when they are not enough. *)
Fixpoint read_all (fuel : nat) (rs : RecordStream) (fd : list (list Z)) : option (outcome (list (list Z))) :=
  match fuel with
  | O => None
  | S fuel =>
      match record_stream_get_next rs fd with
      | Returned (Record start len, rs', fd') =>
          match load rs' start len with
          | Returned l => r ← read_all fuel rs' fd'; Some (let! ls := r in Returned (l :: ls))
          | _ => Some Undefined
          end
      | Returned (EndOfStream, _, _) => Some (Returned [])
      | Returned (Failed _, rs', fd') => read_all fuel rs' fd'
      | Exited => Some Exited
      | Undefined => Some Undefined
      end
  end.

(** ** Framing *)

Definition header (n : Z) : list Z := [n / 2 ^ 24; n / 2 ^ 16 mod 256; n / 2 ^ 8 mod 256; n mod 256].
Definition frame (r : list Z) : list Z := header (Z.of_nat (length r)) ++ r.

Lemma be32_header n : 0 ≤ n < 2 ^ 32 → be32 (header n) = n.
Proof.
  intros Hn. unfold be32, header. simpl. change (2 ^ 24) with (256 * 256 * 256). change (2 ^ 16) with (256 * 256).
  change (2 ^ 8) with 256. rewrite <-!Z.div_div by lia.
  pose proof (Z.div_mod n 256). pose proof (Z.div_mod (n / 256) 256). pose proof (Z.div_mod (n / 256 / 256) 256). lia.
Qed.

(** The invariant: the pointers are in the buffer. *)
Record wf (rs : RecordStream) : Prop := {
  wf_data : Z.of_nat (length (data rs)) = maxRecordLen rs + 4;
  wf_max : 0 ≤ maxRecordLen rs ≤ 0xffff;
  wf_addr : 0 < buffer rs ∧ buffer rs + 2 * maxRecordLen rs + 8 < 2 ^ 32;
  wf_ptrs : buffer rs ≤ unconsumed rs ∧ unconsumed rs ≤ read_end rs ∧ read_end rs ≤ buffer_end rs;
  wf_end : buffer_end rs = buffer rs + maxRecordLen rs + 4
}.

(** The bytes read and not consumed. *)
Definition pending (rs : RecordStream) : list Z :=
  take (Z.to_nat (read_end rs - unconsumed rs)) (drop (Z.to_nat (unconsumed rs - buffer rs)) (data rs)).

Lemma pending_length rs : wf rs → Z.of_nat (length (pending rs)) = read_end rs - unconsumed rs.
Proof. intros []. unfold pending. rewrite length_take, length_drop. lia. Qed.

(** Reading inside the bytes that are pending. *)
Lemma load_pending rs a n :
  wf rs → unconsumed rs ≤ a → 0 ≤ n → a + n ≤ read_end rs →
  load rs a n = Returned (take (Z.to_nat n) (drop (Z.to_nat (a - unconsumed rs)) (pending rs))).
Proof.
  intros [] Ha Hn Hend. unfold load. rewrite (proj2 (Z.leb_le _ _)), (proj2 (Z.leb_le (a + n) _)) by lia. cbn [andb]. f_equal.
  unfold pending. rewrite skipn_firstn_comm, drop_drop, take_take. f_equal; [lia|]. f_equal. lia.
Qed.

Lemma frame_length r : length (frame r) = (4 + length r)%nat.
Proof. unfold frame, header. by rewrite length_app. Qed.

(** A whole record is pending. *)
Lemma next_full rs r rest :
  wf rs → Z.of_nat (length r) ≤ maxRecordLen rs → pending rs = frame r ++ rest →
  ∃ rs', getNextRecord rs = Returned (Some (unconsumed rs + 4, Z.of_nat (length r)), rs') ∧ wf rs' ∧
    pending rs' = rest ∧ load rs' (unconsumed rs + 4) (Z.of_nat (length r)) = Returned r ∧
    maxRecordLen rs' = maxRecordLen rs.
Proof.
  intros Hwf Hr Hp. pose proof (pending_length rs Hwf) as Hl. rewrite Hp, length_app, frame_length in Hl.
  pose proof Hwf as [Hd Hm Ha Hpt He]. unfold getNextRecord, getEndOfRecord, HEADER_SIZE.
  rewrite u32_small by lia. rewrite (proj2 (Z.ltb_ge _ _)) by lia. rewrite (load_pending rs _ 4) by (done || lia).
  rewrite Z.sub_diag, Hp. cbn [obind]. change (drop (Z.to_nat 0) ?l) with l.
  assert (take (Z.to_nat 4) (frame r ++ rest) = header (Z.of_nat (length r))) as ->.
  { unfold frame. rewrite <-app_assoc. by rewrite (take_app_length' (header _)). }
  rewrite be32_header by lia. rewrite (u32_small (unconsumed rs + 4 + _)) by lia. rewrite (proj2 (Z.ltb_ge _ _)) by lia. cbn [obind].
  rewrite u32_small by lia. replace (unconsumed rs + 4 + Z.of_nat (length r) - (unconsumed rs + 4)) with (Z.of_nat (length r)) by lia.
  eexists. split; [done|]. split_and!; [| | |done].
  - split; cbn [data buffer unconsumed read_end buffer_end maxRecordLen set_ptrs]; try done; lia.
  - unfold pending in *. cbn [data buffer unconsumed read_end set_ptrs].
    replace (read_end rs - (unconsumed rs + 4 + Z.of_nat (length r))) with (read_end rs - unconsumed rs - Z.of_nat (4 + length r)) by lia.
    rewrite <-(frame_length r).
    replace (Z.to_nat (unconsumed rs + 4 + Z.of_nat (length r) - buffer rs))
      with (Z.to_nat (unconsumed rs - buffer rs) + length (frame r))%nat by (rewrite frame_length; lia).
    rewrite <-drop_drop. replace (Z.to_nat (read_end rs - unconsumed rs - Z.of_nat (length (frame r))))
      with (Z.to_nat (read_end rs - unconsumed rs) - length (frame r))%nat by lia.
    rewrite <-skipn_firstn_comm, Hp. by rewrite drop_app_length.
  - change (load rs (unconsumed rs + 4) (Z.of_nat (length r)) = Returned r).
    rewrite load_pending by (done || lia). f_equal. rewrite Hp.
    replace (Z.to_nat (unconsumed rs + 4 - unconsumed rs)) with 4%nat by lia. unfold frame.
    rewrite <-app_assoc, (drop_app_length' (header _)) by done. rewrite take_app_length'; [done|lia].
Qed.

(** Not yet a whole record. *)
Lemma next_short rs r rest t :
  wf rs → Z.of_nat (length r) ≤ maxRecordLen rs → pending rs ++ t = frame r ++ rest →
  (length (pending rs) < length (frame r))%nat → getNextRecord rs = Returned (None, rs).
Proof.
  intros Hwf Hr Hp Hs. pose proof (pending_length rs Hwf) as Hl. rewrite frame_length in Hs.
  pose proof Hwf as [Hd Hm Ha Hpt He]. unfold getNextRecord, getEndOfRecord, HEADER_SIZE. rewrite u32_small by lia.
  destruct (read_end rs <? unconsumed rs + 4) eqn:E; [done|]. bool_to_prop.
  rewrite (load_pending rs _ 4) by (done || lia). rewrite Z.sub_diag. cbn [obind]. change (drop (Z.to_nat 0) ?l) with l.
  assert (take (Z.to_nat 4) (pending rs) = header (Z.of_nat (length r))) as ->.
  { rewrite <-(take_app_le (pending rs) t) by lia. rewrite Hp. unfold frame. rewrite <-app_assoc. by rewrite (take_app_length' (header _)). }
  rewrite be32_header by lia. rewrite (u32_small (unconsumed rs + 4 + _)) by lia. by rewrite (proj2 (Z.ltb_lt _ _)) by lia.
Qed.

(** A write replaces bytes. *)
Lemma rs_store_spec rs a l :
  buffer rs ≤ a → a + Z.of_nat (length l) ≤ buffer rs + Z.of_nat (length (data rs)) →
  store rs a l = Returned (mkRS (maxRecordLen rs) (buffer rs)
    (take (Z.to_nat (a - buffer rs)) (data rs) ++ l ++ drop (Z.to_nat (a - buffer rs) + length l) (data rs))
    (unconsumed rs) (read_end rs) (buffer_end rs)).
Proof. intros H1 H2. unfold store. by rewrite (proj2 (Z.leb_le _ _)), (proj2 (Z.leb_le (a + _) _)) by lia. Qed.

Lemma move_remainder_spec rs :
  wf rs → ∃ rs', move_remainder rs = Returned rs' ∧ wf rs' ∧ pending rs' = pending rs ∧
    unconsumed rs' = buffer rs' ∧ maxRecordLen rs' = maxRecordLen rs.
Proof.
  intros Hwf. pose proof Hwf as [Hd Hm Ha Hpt He]. pose proof (pending_length rs Hwf) as Hl. unfold move_remainder.
  destruct (unconsumed rs =? buffer rs) eqn:E; bool_to_prop; cbn [negb]; [by exists rs|]. rewrite u32_small by lia.
  destruct (read_end rs - unconsumed rs =? 0) eqn:E0; bool_to_prop; cbn [negb obind].
  - eexists. split; [done|]. rewrite E0, Z.add_0_r, u32_small by lia. split_and!; [|by rewrite (nil_length_inv (pending rs)) by lia; unfold pending; cbn [read_end unconsumed set_ptrs]; rewrite Z.sub_diag|done|done].
    split; cbn [data buffer unconsumed read_end buffer_end maxRecordLen set_ptrs]; try done; lia.
  - rewrite load_pending by (done || lia). rewrite Z.sub_diag. change (drop (Z.to_nat 0) ?l) with l. rewrite take_ge by lia. cbn [obind].
    rewrite rs_store_spec by lia. cbn [obind]. rewrite Z.sub_diag. change (Z.to_nat 0) with 0%nat. rewrite firstn_O. cbn [app Nat.add].
    eexists. split; [done|]. unfold set_ptrs. cbn [buffer maxRecordLen buffer_end data]. rewrite u32_small by lia. split_and!; [| |done|done].
    + split; cbn [data buffer unconsumed read_end buffer_end maxRecordLen]; try done; [|lia].
      rewrite length_app, length_drop. lia.
    + unfold pending at 1. cbn [data buffer unconsumed read_end]. rewrite Z.sub_diag. change (drop (Z.to_nat 0) ?l) with l.
      rewrite take_app_length'; [done|lia].
Qed.

(** Reading appends to the bytes that are pending. *)
Lemma append_spec rs l :
  wf rs → unconsumed rs = buffer rs → read_end rs + Z.of_nat (length l) ≤ buffer_end rs →
  ∃ rs1, store rs (read_end rs) l = Returned rs1 ∧
    let rs2 := set_ptrs rs1 (unconsumed rs1) (u32 (read_end rs1 + Z.of_nat (length l))) in
    wf rs2 ∧ pending rs2 = pending rs ++ l ∧ maxRecordLen rs2 = maxRecordLen rs.
Proof.
  intros Hwf Hu Hr. pose proof Hwf as [Hd Hm Ha Hpt He]. eexists. split; [apply rs_store_spec; lia|].
  unfold set_ptrs. cbn [buffer maxRecordLen buffer_end data unconsumed read_end]. rewrite u32_small by lia. split_and!; [| |done].
  - split; cbn [data buffer unconsumed read_end buffer_end maxRecordLen]; try done; [|lia].
    rewrite !length_app, length_take, length_drop. lia.
  - unfold pending. cbn [data buffer unconsumed read_end]. rewrite Hu, Z.sub_diag. change (drop (Z.to_nat 0) ?l) with l.
    rewrite app_assoc, take_app_length'; [done|]. rewrite length_app, length_take. lia.
Qed.

Lemma read_spec fd room :
  0 < room → Forall (λ c, c ≠ []) fd →
  let '(l, fd') := read fd room in
  l ++ concat fd' = concat fd ∧ Forall (λ c, c ≠ []) fd' ∧ Z.of_nat (length l) ≤ room ∧ (l = [] ↔ fd = []).
Proof.
  intros Hr Hfd. destruct fd as [|c fd]; simpl; [split_and!; try done; lia|]. apply Forall_cons in Hfd as [Hc Hfd].
  destruct (Z.of_nat (length c) <=? room) eqn:E; bool_to_prop; simpl.
  - split_and!; try done.
  - rewrite app_assoc, take_drop, length_take. split_and!; [done| |lia|].
    + constructor; [|done]. intros Hd%(f_equal length). rewrite length_drop in Hd. simpl in Hd. lia.
    + split; [|done]. intros Ht%(f_equal length). rewrite length_take in Ht. simpl in Ht. lia.
Qed.

(** One call of [record_stream_get_next] on a stream of records: it returns the
    next one, or says that it has to read more, or that the stream is over. *)
Definition answers (fd : list (list Z)) (recs : list (list Z)) (max : Z) (r : result) (rs' : RecordStream) (fd' : list (list Z)) : Prop :=
  wf rs' ∧ maxRecordLen rs' = max ∧ Forall (λ c, c ≠ []) fd' ∧
  match r with
  | Record start len =>
      ∃ x xs, recs = x :: xs ∧ load rs' start len = Returned x ∧ pending rs' ++ concat fd' = concat (frame <$> xs) ∧
              (length (concat fd') <= length (concat fd))%nat
  | Failed e => e = EAGAIN ∧ pending rs' ++ concat fd' = concat (frame <$> recs) ∧
                (length (concat fd') < length (concat fd))%nat
  | EndOfStream => recs = []
  end.

Lemma concat_nonempty fd : Forall (λ c : list Z, c ≠ []) fd → concat fd = [] → fd = [].
Proof. destruct fd as [|c fd]; [done|]. intros [Hc _]%Forall_cons. simpl. by intros [? _]%app_eq_nil. Qed.

(** The bytes that are pending hold the first record, or fall short of it. *)
Lemma pending_cases rs t x xs :
  pending rs ++ t = concat (frame <$> x :: xs) →
  (∃ rest, pending rs = frame x ++ rest ∧ rest ++ t = concat (frame <$> xs)) ∨ (length (pending rs) < length (frame x))%nat.
Proof.
  rewrite fmap_cons. cbn [concat]. intros Hp. destruct (decide (length (pending rs) < length (frame x))%nat) as [|Hge]; [by right|left].
  assert (take (length (frame x)) (pending rs) = frame x) as Ht.
  { rewrite <-(take_app_le (pending rs) t) by lia. by rewrite Hp, take_app_length. }
  exists (drop (length (frame x)) (pending rs)). split; [by rewrite <-Ht at 1; rewrite take_drop|].
  rewrite <-(take_drop (length (frame x)) (pending rs)), <-app_assoc, Ht in Hp. by apply app_inv_head in Hp.
Qed.

Lemma next_record rs t x xs max :
  wf rs → maxRecordLen rs = max → Z.of_nat (length x) ≤ max → pending rs ++ t = concat (frame <$> x :: xs) →
  (∃ start len rs', getNextRecord rs = Returned (Some (start, len), rs') ∧ wf rs' ∧ maxRecordLen rs' = max ∧
     load rs' start len = Returned x ∧ pending rs' ++ t = concat (frame <$> xs)) ∨
  (getNextRecord rs = Returned (None, rs) ∧ (length (pending rs) < length (frame x))%nat).
Proof.
  intros Hwf Hmax Hx Hp. destruct (pending_cases rs t x xs Hp) as [(rest & Hpr & Hrest)|Hs].
  - left. destruct (next_full rs x rest Hwf ltac:(lia) Hpr) as (rs' & -> & ? & ? & ? & ?).
    do 3 eexists. split_and!; try done; [by rewrite <-Hmax|]. by subst rest.
  - right. split; [|done]. rewrite fmap_cons in Hp. cbn [concat] in Hp. eapply (next_short rs x _ t); [done|lia|exact Hp|done].
Qed.

(** Without a record to come nothing is pending and nothing is taken. *)
Lemma next_nothing rs : wf rs → pending rs = [] → getNextRecord rs = Returned (None, rs).
Proof.
  intros Hwf Hp. pose proof (pending_length rs Hwf) as Hl. rewrite Hp in Hl. simpl in Hl. pose proof Hwf as [? ? ? ? ?].
  unfold getNextRecord, getEndOfRecord, HEADER_SIZE. rewrite u32_small by lia. by rewrite (proj2 (Z.ltb_lt _ _)) by lia.
Qed.

Lemma read_more_spec rs fd recs max :
  wf rs → maxRecordLen rs = max → unconsumed rs = buffer rs → read_end rs < buffer_end rs → Forall (λ c, c ≠ []) fd →
  Forall (λ x, Z.of_nat (length x) ≤ max) recs → pending rs ++ concat fd = concat (frame <$> recs) →
  (∀ x xs, recs = x :: xs → (length (pending rs) < length (frame x))%nat) →
  ∃ r rs' fd', read_more rs fd = Returned (r, rs', fd') ∧ answers fd recs max r rs' fd'.
Proof.
  intros Hwf Hmax Hu Hroom Hfd Hrecs Hp Hshort. pose proof Hwf as [Hd Hm Ha Hpt He]. unfold read_more.
  rewrite u32_small by lia. pose proof (read_spec fd (buffer_end rs - read_end rs) ltac:(lia) Hfd) as Hrd.
  destruct (read fd (buffer_end rs - read_end rs)) as [l fd'] eqn:Erd. destruct Hrd as (Hcat & Hfd' & Hlen & Hnil).
  case_bool_decide as El.
  - exists EndOfStream, rs, fd'. split; [done|]. split_and!; [done|done|done|]. destruct recs as [|x xs]; [done|].
    exfalso. specialize (Hshort x xs eq_refl). apply Hnil in El as ->. rewrite app_nil_r in Hp.
    rewrite Hp, fmap_cons in Hshort. cbn [concat] in Hshort. rewrite length_app in Hshort. lia.
  - destruct (append_spec rs l Hwf Hu ltac:(lia)) as (rs1 & -> & Hwf2 & Hp2 & Hm2). cbn [obind].
    set (rs2 := set_ptrs rs1 _ _) in *.
    assert (length l ≠ 0%nat) as Hl0 by (intros Hz; by apply nil_length_inv in Hz).
    assert (length (concat fd) = length l + length (concat fd'))%nat as Hcl by (by rewrite <-Hcat, length_app).
    assert (pending rs2 ++ concat fd' = concat (frame <$> recs)) as Hp2' by (by rewrite Hp2, <-app_assoc, Hcat).
    destruct recs as [|x xs].
    { exfalso. apply app_eq_nil in Hp2' as [Hp2' _]. rewrite Hp2 in Hp2'. by apply app_eq_nil in Hp2' as [_ ?]. }
    apply Forall_cons in Hrecs as [Hx Hxs].
    destruct (next_record rs2 (concat fd') x xs max Hwf2 ltac:(congruence) Hx Hp2')
      as [(start & len & rs3 & -> & Hwf3 & Hm3 & Hld & Hp3)|[-> _]]; cbn [obind]; do 3 eexists; (split; [done|]).
    + split_and!; [done|done|done|]. exists x, xs. split_and!; [done|done|done|lia].
    + split_and!; [done|congruence|done|done|done|lia].
Qed.

Lemma get_next_spec rs fd recs max :
  wf rs → maxRecordLen rs = max → Forall (λ c, c ≠ []) fd → Forall (λ x, Z.of_nat (length x) ≤ max) recs →
  pending rs ++ concat fd = concat (frame <$> recs) →
  ∃ r rs' fd', record_stream_get_next rs fd = Returned (r, rs', fd') ∧ answers fd recs max r rs' fd'.
Proof.
  intros Hwf Hmax Hfd Hrecs Hp. unfold record_stream_get_next.
  assert ((∃ start len rs', getNextRecord rs = Returned (Some (start, len), rs') ∧ answers fd recs max (Record start len) rs' fd) ∨
          (getNextRecord rs = Returned (None, rs) ∧ ∀ x xs, recs = x :: xs → (length (pending rs) < length (frame x))%nat))
    as [(start & len & rs' & -> & Hans)|[-> Hshort]].
  { destruct recs as [|x xs].
    - right. apply app_eq_nil in Hp as [Hp _]. split; [by apply next_nothing|done].
    - apply Forall_cons in Hrecs as [Hx Hxs].
      destruct (next_record rs (concat fd) x xs max Hwf Hmax Hx Hp) as [(start & len & rs' & -> & Hwf' & Hm' & Hld & Hp')|[-> Hs]].
      + left. do 3 eexists. split; [done|]. split_and!; [done|done|done|]. by exists x, xs.
      + right. split; [done|]. by intros ? ? [= <- <-]. }
  - cbn [obind]. do 3 eexists. split; [done|exact Hans].
  - cbn [obind]. pose proof Hwf as [Hd Hm Ha Hpt He]. pose proof (pending_length rs Hwf) as Hl.
    assert (read_end rs - unconsumed rs < maxRecordLen rs + 4) as Hroom.
    { destruct recs as [|x xs].
      - apply app_eq_nil in Hp as [Hp _]. rewrite Hp in Hl. simpl in Hl. lia.
      - specialize (Hshort x xs eq_refl). apply Forall_cons in Hrecs as [Hx _]. rewrite frame_length in Hshort. lia. }
    destruct ((unconsumed rs =? buffer rs) && (read_end rs =? buffer_end rs)) eqn:E; [bool_to_prop; lia|].
    destruct (move_remainder_spec rs Hwf) as (rs2 & -> & Hwf2 & Hp2 & Hu2 & Hm2). cbn [obind].
    pose proof (pending_length rs2 Hwf2) as Hl2. rewrite Hp2 in Hl2. pose proof Hwf2 as [_ _ _ _ He2].
    apply read_more_spec; [done|congruence|done|lia|done|done|by rewrite Hp2|]. by rewrite Hp2.
Qed.

Lemma read_all_spec max fuel : ∀ rs fd recs,
  wf rs → maxRecordLen rs = max → Forall (λ c, c ≠ []) fd → Forall (λ x, Z.of_nat (length x) ≤ max) recs →
  pending rs ++ concat fd = concat (frame <$> recs) → (length recs + length (concat fd) < fuel)%nat →
  read_all fuel rs fd = Some (Returned recs).
Proof.
  induction fuel as [|fuel IH]; intros rs fd recs Hwf Hmax Hfd Hrecs Hp Hf; [lia|]. cbn [read_all].
  destruct (get_next_spec rs fd recs max Hwf Hmax Hfd Hrecs Hp) as (r & rs' & fd' & -> & Hwf' & Hm' & Hfd' & Hr).
  destruct r as [start len| |e].
  - destruct Hr as (x & xs & -> & -> & Hp' & Hle). apply Forall_cons in Hrecs as [_ Hxs].
    rewrite (IH rs' fd' xs); [done|done|done|done|done|done|]. simpl in Hf. lia.
  - by subst recs.
  - destruct Hr as (_ & Hp' & Hlt). apply IH; try done. lia.
Qed.

(** C35: Reading a stream of framed records gives back the records, in their
    order and whole, however the bytes are cut into pieces on their way, for
    records up to the length the reader was made for; then it reports the
    end. *)
Theorem record_stream_roundtrip addr junk max fd recs :
  0 ≤ max ≤ 0xffff → Z.of_nat (length junk) = max + 4 → 0 < addr → addr + 2 * max + 8 < 2 ^ 32 →
  Forall (λ c, c ≠ []) fd → Forall (λ x, Z.of_nat (length x) ≤ max) recs → concat fd = concat (frame <$> recs) →
  ∃ rs, record_stream_new addr junk max = Returned rs ∧
        read_all (S (length recs + length (concat fd))) rs fd = Some (Returned recs).
Proof.
  intros Hmax Hj Ha He Hfd Hrecs Hc. unfold record_stream_new, HEADER_SIZE. rewrite (proj2 (Z.leb_le max _)) by lia. cbn [oassert].
  eexists. split; [done|]. rewrite u32_small by lia. apply (read_all_spec max); [|done|done|done| |lia].
  - split; cbn [data buffer unconsumed read_end buffer_end maxRecordLen]; try done; lia.
  - unfold pending. cbn [data buffer unconsumed read_end]. by rewrite Z.sub_diag.
Qed.

(** ** Examples *)

Definition demo_rs : RecordStream := mkRS 100 4096 (replicate 104 0) 4096 4096 4200.

Lemma record_stream_roundtrip_witness :
  record_stream_new 4096 (replicate 104 0) 100 = Returned demo_rs ∧
  read_all 15 demo_rs [[0; 0]; [0; 3; 7]; [8; 9; 0; 0; 0; 1]; [5]] = Some (Returned [[7; 8; 9]; [5]]).
Proof.
  destruct (record_stream_roundtrip 4096 (replicate 104 0) 100 [[0; 0]; [0; 3; 7]; [8; 9; 0; 0; 0; 1]; [5]] [[7; 8; 9]; [5]])
    as (rs & Hrs & Hall); [lia|done|lia|lia|by repeat constructor|by repeat constructor|by vm_compute|].
  assert (record_stream_new 4096 (replicate 104 0) 100 = Returned demo_rs) as Hd by (vm_compute; reflexivity).
  assert (rs = demo_rs) as -> by congruence. split; [done|].
  exact Hall.
Defined.

(** A record whose header promises almost 2^32 bytes.  The end of the record
    wraps around the address space and passes for one inside the buffer: the
    call returns a record of 2^32 - 8 bytes, and the next call looks for its
    header before the buffer. *)
Theorem record_stream_wraps :
  ∃ rs', record_stream_get_next demo_rs [[255; 255; 255; 248]] = Returned (Record 4100 (2 ^ 32 - 8), rs', []) ∧
         unconsumed rs' = buffer rs' - 4 ∧ record_stream_get_next rs' [] = Undefined.
Proof.
  exists (mkRS 100 4096 ([255; 255; 255; 248] ++ replicate 100 0) 4092 4100 4200).
  split_and!; [by vm_compute|done|by vm_compute].
Qed.

End RS.
