(* ===== verification/HiTime.v ===== *)
(** The time module of [hi_time.c]: seconds since 1970, dates, and the modified
    Julian days and binary-coded times of broadcast streams; a clock the user
    sets, kept beside the clock of the system. *)

From S2P Require Import Prelude.

Module TM.

Definition HI_EINVAL : Z := 6.
Definition TIME_MCR_MJD_1970 : Z := 40587.
Definition SECONDS_PER_DAY : Z := 24 * (60 * 60).

(** ** The calendar of the C library *)

(** [struct tm]. *)
Record tm := mkTm {
  tm_sec : Z; tm_min : Z; tm_hour : Z; tm_mday : Z; tm_mon : Z; tm_year : Z; tm_wday : Z; tm_yday : Z
}.

Definition leap (y : Z) : bool := (y mod 4 =? 0) && (negb (y mod 100 =? 0) || (y mod 400 =? 0)).
Definition days_in_year (y : Z) : Z := if leap y then 366 else 365.
Definition month_lengths (y : Z) : list Z :=
  [31; (if leap y then 29 else 28); 31; 30; 31; 30; 31; 31; 30; 31; 30; 31].

(** Days from 1970-01-01 to the first day of a year. *)
Definition leaps_before (y : Z) : Z := (y - 1) / 4 - (y - 1) / 100 + (y - 1) / 400.
Definition days_before_year (y : Z) : Z := 365 * (y - 1970) + leaps_before y - leaps_before 1970.

Definition sumZ (l : list Z) : Z := foldr Z.add 0 l.

(** Seconds of a broken-down time, without a zone; the month is brought into
    its range, the other fields count as they are. *)
Definition timegm (t : tm) : Z :=
  let y := 1900 + tm_year t + tm_mon t / 12 in
  let m := tm_mon t mod 12 in
  (days_before_year y + sumZ (take (Z.to_nat m) (month_lengths y)) + tm_mday t - 1) * SECONDS_PER_DAY +
  tm_hour t * 3600 + tm_min t * 60 + tm_sec t.

(** Finding the year: forwards, or backwards for days before 1970. *)
Fixpoint year_up (fuel : nat) (y d : Z) : Z * Z :=
  match fuel with
  | O => (y, d)
  | S fuel => if days_in_year y <=? d then year_up fuel (y + 1) (d - days_in_year y) else (y, d)
  end.
Fixpoint year_down (fuel : nat) (y d : Z) : Z * Z :=
  match fuel with
  | O => (y, d)
  | S fuel => if d <? 0 then year_down fuel (y - 1) (d + days_in_year (y - 1)) else (y, d)
  end.
(** The month in a list of lengths, counted from [m]. *)
Fixpoint month_of (l : list Z) (m d : Z) : Z * Z :=
  match l with
  | [] => (m, d)
  | n :: l' => if n <=? d then month_of l' (m + 1) (d - n) else (m, d)
  end.

(** [gmtime]: 137 years before and after 1970 are more than 32 bits hold. *)
Definition gmtime (s : Z) : tm :=
  let d := s / SECONDS_PER_DAY in
  let r := s mod SECONDS_PER_DAY in
  let '(y, yd) := if d <? 0 then year_down 137 1970 d else year_up 137 1970 d in
  let '(m, md) := month_of (month_lengths y) 0 yd in
  mkTm (r mod 60) (r / 60 mod 60) (r / 3600) (md + 1) m (y - 1900) ((4 + d) mod 7) yd.

(** ** State *)

Record HI_TIME_INFO_S := mkInfo {
  s32Sec : Z; s32Min : Z; s32Hour : Z; s32Mday : Z; s32Mon : Z; s32Year : Z; s32Wday : Z; s32Yday : Z
}.
Record HI_TIME_MJDUTC_S := mkMJD { u16MJD : Z; u32UTC : Z }.

Record TIME_PRIVATE_DATA_S := mkPriv {
  s32TimeZone : Z;
  u32DaylightSaving : Z;
  s32UserSeconds : Z;
  s32LastSystemSeconds : Z;
  bModifyTDTStime : bool;
  bModifyTOTStime : bool
}.

(** The operating system: its clock in seconds, milliseconds since it started,
    the minutes west of its zone, the zone of the C library in seconds west
    (a zone without summer time), and whether it lets the clock be set. *)
Record OS := mkOS { clock : Z; monotonic : Z; tz_minuteswest : Z; timezone : Z; may_set : bool }.

Record STATE := mkState { s_bTimeInited : bool; priv : TIME_PRIVATE_DATA_S; os : OS }.
Definition set_priv (st : STATE) (p : TIME_PRIVATE_DATA_S) : STATE := mkState (s_bTimeInited st) p (os st).
Definition set_os (st : STATE) (o : OS) : STATE := mkState (s_bTimeInited st) (priv st) o.

Definition TIME_SYSTIME2DATATIME (t : tm) : HI_TIME_INFO_S :=
  mkInfo (tm_sec t) (tm_min t) (tm_hour t) (tm_mday t) (s32 (tm_mon t + 1)) (s32 (tm_year t + 1900)) (tm_wday t)
         (s32 (tm_yday t + 1)).
Definition TIME_DATATIME2SYSTIME (i : HI_TIME_INFO_S) : tm :=
  mkTm (s32Sec i) (s32Min i) (s32Hour i) (s32Mday i) (s32 (s32Mon i - 1)) (s32 (s32Year i - 1900)) (s32Wday i)
       (s32 (s32Yday i - 1)).

(** [mktime]: -1 when the time does not fit. *)
Definition mktime (o : OS) (t : tm) : Z :=
  let s := timegm t + timezone o in if (- 2 ^ 31 <=? s) && (s <? 2 ^ 31) then s else -1.

(** ** Modified Julian days and binary-coded times *)

Definition HI_TIME_BCD_DEC (val : Z) : Z := u32 (Z.shiftr val 4 * 10 + Z.land val 0xF).
Definition HI_TIME_BCD_ENC (val : Z) : Z := u32 (Z.shiftl (val / 10) 4 + val mod 10).

(** A function that returns a code, and writes its result when it succeeds. *)
Definition TIME_MJDToSeconds (u32Mjd : Z) : Z + Z :=
  let d := Z.land u32Mjd 0xFFFF in
  if d <=? TIME_MCR_MJD_1970 - 70 then inl HI_EINVAL
  else inr (s32 (s32 (d - TIME_MCR_MJD_1970) * SECONDS_PER_DAY)).

(** C's division of signed numbers. *)
Definition TIME_SecondsToMJD (s32Seconds : Z) : Z := u32 (s32 (Z.quot s32Seconds SECONDS_PER_DAY + TIME_MCR_MJD_1970)).

Definition HI_TIME_BCDUTCToHMS (utc : Z) (i : HI_TIME_INFO_S) : HI_TIME_INFO_S :=
  mkInfo (s32 (HI_TIME_BCD_DEC (Z.land utc 0x0000FF)))
         (s32 (HI_TIME_BCD_DEC (Z.shiftr (Z.land utc 0x00FF00) 8)))
         (s32 (HI_TIME_BCD_DEC (Z.shiftr (Z.land utc 0xFF0000) 16)))
         (s32Mday i) (s32Mon i) (s32Year i) (s32Wday i) (s32Yday i).

Definition HI_TIME_HMSToBCDUTC (i : HI_TIME_INFO_S) : Z :=
  let enc (x : Z) := u32 (Z.shiftl ((u32 x mod 100) / 10) 4 + u32 x mod 10) in
  let h := Z.shiftl (Z.land (enc (s32Hour i)) 0xFF) 16 in
  let m := Z.shiftl (Z.land (enc (s32Min i)) 0xFF) 8 in
  let s := Z.land (enc (s32Sec i)) 0xFF in
  Z.lor (Z.lor h m) s.

Definition HI_TIME_BCDUTCToSeconds (utc : Z) : Z :=
  let h := Z.shiftr (Z.land utc 0xFF0000) 16 in
  let m := Z.shiftr (Z.land utc 0x00FF00) 8 in
  let s := Z.land utc 0x0000FF in
  s32 (s32 (s32 (s32 (HI_TIME_BCD_DEC h) * 60 * 60) + s32 (s32 (HI_TIME_BCD_DEC m) * 60)) + s32 (HI_TIME_BCD_DEC s)).

Definition HI_TIME_SecondsToBCDUTC (s32Seconds : Z) : Z + Z :=
  if s32Seconds <? 0 then inl HI_FAILURE
  else let h := u32 (Z.quot s32Seconds (60 * 60)) mod 24 in
       let m := u32 (Z.quot s32Seconds 60) mod 60 in
       let s := u32 s32Seconds mod 60 in
       inr (Z.lor (Z.lor (u32 (Z.shiftl (HI_TIME_BCD_ENC h) 16)) (u32 (Z.shiftl (HI_TIME_BCD_ENC m) 8))) (HI_TIME_BCD_ENC s)).

Definition HI_TIME_MJDUTCToSeconds (t : HI_TIME_MJDUTC_S) : Z + Z :=
  match TIME_MJDToSeconds (u16MJD t) with
  | inl e => inl e
  | inr d => inr (s32 (d + HI_TIME_BCDUTCToSeconds (u32UTC t)))
  end.

(** The day is written before the time is known to be valid. *)
Definition HI_TIME_SecondsToMJDUTC (s32Seconds : Z) (t : HI_TIME_MJDUTC_S) : Z * HI_TIME_MJDUTC_S :=
  let mjd := u16 (TIME_SecondsToMJD s32Seconds) in
  match HI_TIME_SecondsToBCDUTC s32Seconds with
  | inl e => (e, mkMJD mjd (u32UTC t))
  | inr utc => (HI_SUCCESS, mkMJD mjd utc)
  end.

Definition HI_TIME_SecondsToDateTime (s32Seconds : Z) : HI_TIME_INFO_S := TIME_SYSTIME2DATATIME (gmtime s32Seconds).

Definition HI_TIME_MJDToYMD (mjd : Z) (i : HI_TIME_INFO_S) : Z * HI_TIME_INFO_S :=
  match TIME_MJDToSeconds mjd with
  | inl e => (e, i)
  | inr s => let t := HI_TIME_SecondsToDateTime s in
             (HI_SUCCESS, mkInfo (s32Sec i) (s32Min i) (s32Hour i) (s32Mday t) (s32Mon t) (s32Year t) (s32Wday t) (s32Yday t))
  end.

Definition HI_TIME_MJDUTCToDateTime (t : HI_TIME_MJDUTC_S) : Z + HI_TIME_INFO_S :=
  match HI_TIME_MJDUTCToSeconds t with inl e => inl e | inr s => inr (HI_TIME_SecondsToDateTime s) end.

Definition HI_TIME_CompareMJDUTCTime (t1 t2 : HI_TIME_MJDUTC_S) : Z + Z :=
  match HI_TIME_MJDUTCToSeconds t1 with
  | inl e => inl e
  | inr s1 => match HI_TIME_MJDUTCToSeconds t2 with inl e => inl e | inr s2 => inr (s32 (s1 - s2)) end
  end.

(** ** The clock the user sets *)

Section clock.
(** Whether the code is built for Android ([ANDROID_VERSION]). *)
Context (android : bool).

Definition HI_TIME_Init (st : STATE) : Z * STATE :=
  if s_bTimeInited st then (HI_SUCCESS, st)
  else (HI_SUCCESS, mkState true (mkPriv 0 0 0 0 true true) (os st)).

Definition HI_TIME_DeInit (st : STATE) : Z * STATE :=
  if negb (s_bTimeInited st) then (HI_SUCCESS, st) else (HI_SUCCESS, mkState false (priv st) (os st)).

Definition HI_TIME_GetTimeZone (st : STATE) : Z :=
  if bModifyTOTStime (priv st) then s32 (tz_minuteswest (os st) * 60) else s32TimeZone (priv st).

Definition TIME_ZONE_THRESHOLD : Z := 12.

Definition settimeofday_zone (o : OS) (minutes : Z) : OS :=
  if may_set o then mkOS (clock o) (monotonic o) minutes (timezone o) (may_set o) else o.

Definition HI_TIME_SetTimeZone (s32TimeZoneSeconds : Z) (st : STATE) : Z * STATE :=
  let hours := Z.quot s32TimeZoneSeconds (60 * 60) in
  if (hours <? - TIME_ZONE_THRESHOLD) || (TIME_ZONE_THRESHOLD <? hours) then (HI_EINVAL, st)
  else if bModifyTOTStime (priv st) then
    (HI_SUCCESS, set_os st (settimeofday_zone (os st) (Z.quot s32TimeZoneSeconds 60)))
  else
    let p := priv st in
    (HI_SUCCESS, set_priv st (mkPriv s32TimeZoneSeconds (u32DaylightSaving p) (s32UserSeconds p)
                                     (s32LastSystemSeconds p) (bModifyTDTStime p) (bModifyTOTStime p))).

Definition HI_TIME_SetDaylight (bEnable : bool) (st : STATE) : Z * STATE :=
  let p := priv st in
  (HI_SUCCESS, set_priv st (mkPriv (s32TimeZone p) (if bEnable then 1 * 60 * 60 else 0) (s32UserSeconds p)
                                   (s32LastSystemSeconds p) (bModifyTDTStime p) (bModifyTOTStime p))).

Definition TIME_GetOffset (st : STATE) : Z := s32 (HI_TIME_GetTimeZone st + s32 (u32DaylightSaving (priv st))).
Definition HI_TIME_GetOffset (st : STATE) : Z := TIME_GetOffset st.

(** Milliseconds since the start, in 32 bits. *)
Definition TIME_GetTimeNow (o : OS) : Z := u32 (monotonic o).

(** The seconds that have passed on the clock in use: that of the system, or
    the monotonic one, whose milliseconds become signed before the division. *)
Definition system_seconds (p : TIME_PRIVATE_DATA_S) (o : OS) : Z :=
  if bModifyTDTStime p then s32 (clock o) else Z.quot (s32 (TIME_GetTimeNow o)) 1000.

(** The seconds are given also when the code is a failure. *)
Definition HI_TIME_GetSeconds (bWithOffset : bool) (st : STATE) : Z * Z :=
  let p := priv st in
  let ret := if s32UserSeconds p <=? 0 then HI_FAILURE else HI_SUCCESS in
  let difference := s32 (system_seconds p (os st) - s32LastSystemSeconds p) in
  let s := s32 (s32UserSeconds p + difference) in
  (ret, if bWithOffset then s32 (s + TIME_GetOffset st) else s).

Definition HI_TIME_GetDateTime (bWithOffset : bool) (st : STATE) : Z * HI_TIME_INFO_S :=
  let '(ret, sec) := HI_TIME_GetSeconds bWithOffset st in (ret, HI_TIME_SecondsToDateTime sec).

Definition HI_TIME_DateTimeToSeconds (o : OS) (i : HI_TIME_INFO_S) : Z + Z :=
  let s := mktime o (TIME_DATATIME2SYSTIME i) in
  if s =? -1 then inl HI_FAILURE
  else inr (s32 (s - (if android then s32 (tz_minuteswest o * 60) else timezone o))).

Definition set_clock (o : OS) (s : Z) : OS :=
  if may_set o then mkOS s (monotonic o) (tz_minuteswest o) (timezone o) (may_set o) else o.

(** The alarm driver refuses times that are not positive and the last second. *)
Definition setCurrentTimeMillis (millis : Z) (o : OS) : Z * OS :=
  if (millis <=? 0) || (2 ^ 31 - 1 <=? Z.quot millis 1000) then (-1, o)
  else if may_set o then (0, set_clock o (Z.quot millis 1000)) else (-1, o).

Definition HI_TIME_SetDateTime (i : HI_TIME_INFO_S) (bWithOffset : bool) (st : STATE) : Z * STATE :=
  match HI_TIME_DateTimeToSeconds (os st) i with
  | inl e => (e, st)
  | inr s0 =>
    let s := if bWithOffset then s32 (s0 - TIME_GetOffset st) else s0 in
    let p := priv st in
    let o := if bModifyTDTStime p then
               (if android then snd (setCurrentTimeMillis (s * 1000) (os st)) else set_clock (os st) s)
             else os st in
    (HI_SUCCESS, mkState (s_bTimeInited st)
       (mkPriv (s32TimeZone p) (u32DaylightSaving p) s (system_seconds p o) (bModifyTDTStime p) (bModifyTOTStime p)) o)
  end.

Definition HI_TIME_SetTimeToSystem (bEnable : bool) (st : STATE) : Z * STATE :=
  let p := priv st in
  (HI_SUCCESS, set_priv st (mkPriv (s32TimeZone p) (u32DaylightSaving p) (s32UserSeconds p)
                                   (s32LastSystemSeconds p) bEnable (bModifyTOTStime p))).

Definition HI_TIME_SetTimeZoneToSystem (bEnable : bool) (st : STATE) : Z * STATE :=
  let p := priv st in
  (HI_SUCCESS, set_priv st (mkPriv (s32TimeZone p) (u32DaylightSaving p) (s32UserSeconds p)
                                   (s32LastSystemSeconds p) (bModifyTDTStime p) bEnable)).

Definition HI_TIME_GetMJDUTCTime (t : HI_TIME_MJDUTC_S) (bWithOffset : bool) (st : STATE) : Z * HI_TIME_MJDUTC_S :=
  let '(ret, sec) := HI_TIME_GetSeconds bWithOffset st in
  if ret =? HI_SUCCESS then HI_TIME_SecondsToMJDUTC sec t else (ret, t).

Definition HI_TIME_CompareDateTime (o : OS) (i1 i2 : HI_TIME_INFO_S) : Z + Z :=
  match HI_TIME_DateTimeToSeconds o i1 with
  | inl e => inl e
  | inr s1 => match HI_TIME_DateTimeToSeconds o i2 with inl e => inl e | inr s2 => inr (s32 (s1 - s2)) end
  end.

Definition HI_TIME_DateTimeToMJDUTC (o : OS) (i : HI_TIME_INFO_S) (t : HI_TIME_MJDUTC_S) : Z * HI_TIME_MJDUTC_S :=
  match HI_TIME_DateTimeToSeconds o i with inl e => (e, t) | inr s => HI_TIME_SecondsToMJDUTC s t end.

Definition HI_TIME_AddSeconds (o : OS) (i : HI_TIME_INFO_S) (s32Seconds : Z) : Z * HI_TIME_INFO_S :=
  match HI_TIME_DateTimeToSeconds o i with
  | inl e => (e, i)
  | inr s => (HI_SUCCESS, HI_TIME_SecondsToDateTime (s32 (s + s32Seconds)))
  end.

(** ** The calendar *)

Lemma leap_step y : leaps_before (y + 1) = leaps_before y + (if leap y then 1 else 0).
Proof.
  unfold leaps_before, leap. replace (y + 1 - 1) with y by lia.
  destruct (Z.eqb_spec (y mod 4) 0), (Z.eqb_spec (y mod 100) 0), (Z.eqb_spec (y mod 400) 0); cbn [andb orb negb];
    Z.div_mod_to_equations; lia.
Qed.

Lemma days_before_step y : days_before_year (y + 1) = days_before_year y + days_in_year y.
Proof. unfold days_before_year, days_in_year. rewrite leap_step. destruct (leap y); lia. Qed.

Lemma days_in_year_range y : 365 ≤ days_in_year y ≤ 366.
Proof. unfold days_in_year. destruct (leap y); lia. Qed.

Lemma year_up_spec fuel : ∀ y d, 0 ≤ d < 365 * Z.of_nat fuel →
  let '(y', d') := year_up fuel y d in
  days_before_year y' + d' = days_before_year y + d ∧ 0 ≤ d' < days_in_year y' ∧ y ≤ y' ≤ y + Z.of_nat fuel.
Proof.
  induction fuel as [|fuel IH]; intros y d Hd; [lia|]. cbn [year_up].
  pose proof (days_in_year_range y). destruct (Z.leb_spec (days_in_year y) d).
  - specialize (IH (y + 1) (d - days_in_year y)). destruct (year_up fuel _ _) as [y' d'].
    rewrite days_before_step in IH. lia.
  - lia.
Qed.

Lemma year_down_spec fuel : ∀ y d, - 365 * Z.of_nat fuel ≤ d < 0 →
  let '(y', d') := year_down fuel y d in
  days_before_year y' + d' = days_before_year y + d ∧ 0 ≤ d' < days_in_year y' ∧ y - Z.of_nat fuel ≤ y' ≤ y.
Proof.
  induction fuel as [|fuel IH]; intros y d Hd; [lia|]. cbn [year_down].
  rewrite (proj2 (Z.ltb_lt d 0)) by lia. pose proof (days_in_year_range (y - 1)) as Hr.
  pose proof (days_before_step (y - 1)) as Hs. replace (y - 1 + 1) with y in Hs by lia.
  destruct (Z.ltb_spec (d + days_in_year (y - 1)) 0) as [Hn|Hn].
  - specialize (IH (y - 1) (d + days_in_year (y - 1)) ltac:(lia)). destruct (year_down fuel _ _) as [y' d']. lia.
  - assert (year_down fuel (y - 1) (d + days_in_year (y - 1)) = (y - 1, d + days_in_year (y - 1))) as ->.
    { destruct fuel; [done|]. cbn [year_down]. by rewrite (proj2 (Z.ltb_ge _ _)) by lia. }
    lia.
Qed.

Lemma month_of_spec l : ∀ m d, 0 ≤ d < sumZ l →
  let '(m', d') := month_of l m d in
  m ≤ m' < m + Z.of_nat (length l) ∧ sumZ (take (Z.to_nat (m' - m)) l) + d' = d ∧
  0 ≤ d' < nth (Z.to_nat (m' - m)) l 0.
Proof.
  induction l as [|n l IH]; intros m d Hd; cbn [sumZ foldr] in Hd; [lia|]. cbn [month_of].
  destruct (Z.leb_spec n d).
  - specialize (IH (m + 1) (d - n)). destruct (month_of l (m + 1) (d - n)) as [m' d'].
    fold (sumZ l) in Hd. specialize (IH ltac:(lia)). destruct IH as (Hm & He & Hr).
    replace (Z.to_nat (m' - m)) with (S (Z.to_nat (m' - (m + 1)))) by lia. cbn [length take nth].
    unfold sumZ in *. cbn [foldr]. lia.
  - rewrite Z.sub_diag. repeat split; cbn [length]; try lia; done.
Qed.

Lemma month_lengths_sum y : sumZ (month_lengths y) = days_in_year y.
Proof. unfold month_lengths, days_in_year. by destruct (leap y). Qed.

(** A broken-down time whose fields are those of a calendar. *)
Definition calendar (t : tm) : Prop :=
  0 ≤ tm_sec t < 60 ∧ 0 ≤ tm_min t < 60 ∧ 0 ≤ tm_hour t < 24 ∧ 0 ≤ tm_mon t < 12 ∧
  1 ≤ tm_mday t ≤ nth (Z.to_nat (tm_mon t)) (month_lengths (1900 + tm_year t)) 0 ∧
  -67 ≤ tm_year t ≤ 207 ∧ 0 ≤ tm_yday t < days_in_year (1900 + tm_year t) ∧ 0 ≤ tm_wday t < 7.

Lemma find_year d : - 24856 ≤ d < 24856 →
  let '(y, yd) := if d <? 0 then year_down 137 1970 d else year_up 137 1970 d in
  days_before_year y + yd = d ∧ 0 ≤ yd < days_in_year y ∧ 1833 ≤ y ≤ 2107.
Proof.
  intros Hd. assert (days_before_year 1970 = 0) as H70 by done.
  destruct (Z.ltb_spec d 0).
  - pose proof (year_down_spec 137 1970 d) as H'. destruct (year_down _ _ _). lia.
  - pose proof (year_up_spec 137 1970 d) as H'. destruct (year_up _ _ _). lia.
Qed.

Lemma gmtime_spec s : -2 ^ 31 ≤ s < 2 ^ 31 → timegm (gmtime s) = s ∧ calendar (gmtime s).
Proof.
  intros Hs. unfold gmtime.
  assert (- 24856 ≤ s / SECONDS_PER_DAY < 24856) as Hd by (unfold SECONDS_PER_DAY; Z.div_mod_to_equations; lia).
  pose proof (find_year _ Hd) as Hy. set (d := s / SECONDS_PER_DAY) in *.
  destruct (if d <? 0 then _ else _) as [y yd]. destruct Hy as (Hy & Hyd & Hyr).
  pose proof (month_of_spec (month_lengths y) 0 yd) as Hm. rewrite month_lengths_sum in Hm.
  destruct (month_of _ 0 yd) as [m md]. destruct (Hm Hyd) as (Hmr & Hms & Hmd). rewrite Z.sub_0_r in Hms, Hmd.
  cbn [month_lengths length Z.of_nat] in Hmr.
  assert (0 ≤ m < 12) as Hm12 by (cbn in Hmr; lia).
  pose proof (Z.mod_pos_bound (4 + d) 7).
  pose proof (Z.mod_pos_bound s SECONDS_PER_DAY ltac:(done)) as Hr.
  pose proof (Z.div_mod s SECONDS_PER_DAY ltac:(done)) as Hdm. fold d in Hdm.
  set (r := s mod SECONDS_PER_DAY) in *. unfold SECONDS_PER_DAY in *.
  split.
  - unfold timegm. cbn [tm_sec tm_min tm_hour tm_mday tm_mon tm_year].
    rewrite (Z.mod_small m), (Z.div_small m) by lia. replace (1900 + (y - 1900) + 0) with y by lia.
    unfold SECONDS_PER_DAY. Z.div_mod_to_equations. lia.
  - unfold calendar. cbn [tm_sec tm_min tm_hour tm_mday tm_mon tm_year tm_yday tm_wday].
    replace (1900 + (y - 1900)) with y by lia. repeat split; try lia; Z.div_mod_to_equations; lia.
Qed.

Lemma datetime_fields t : calendar t → TIME_DATATIME2SYSTIME (TIME_SYSTIME2DATATIME t) = t.
Proof.
  intros (_ & _ & _ & Hm & _ & Hy & Hyd & _). pose proof (days_in_year_range (1900 + tm_year t)).
  unfold TIME_DATATIME2SYSTIME, TIME_SYSTIME2DATATIME. destruct t. cbn in *.
  f_equal; rewrite (s32_small (_ + _)), s32_small by lia; lia.
Qed.

(** The zones of the system and of the C library agree: the offset that is
    taken off again is the one [mktime] has added. *)
Definition zones_agree (o : OS) : Prop :=
  (-2 ^ 17 < timezone o < 2 ^ 17) ∧ (android = true → tz_minuteswest o * 60 = timezone o).

Lemma seconds_datetime o s : zones_agree o → -2 ^ 31 ≤ s < 2 ^ 31 → -2 ^ 31 ≤ s + timezone o < 2 ^ 31 →
  HI_TIME_DateTimeToSeconds o (HI_TIME_SecondsToDateTime s) =
  if s + timezone o =? -1 then inl HI_FAILURE else inr s.
Proof.
  intros [Hz Ha] Hs Hl. destruct (gmtime_spec s Hs) as [Hg Hc].
  unfold HI_TIME_DateTimeToSeconds, HI_TIME_SecondsToDateTime, mktime. rewrite datetime_fields, Hg by done.
  rewrite (proj2 (Z.leb_le _ _)), (proj2 (Z.ltb_lt _ _)) by lia. cbn [andb].
  destruct (_ =? -1); [done|]. f_equal.
  destruct android; [rewrite Ha, (s32_small (timezone o)) by (done || lia)|]; rewrite s32_small; lia.
Qed.

(** C37: a date computed from seconds is a date of the calendar (month, day of
    the month, hours, minutes and seconds in their ranges), and converting it
    back gives the seconds, when the zones of the system and of the C library
    agree, except for the one second for which [mktime] answers what it
    answers for an error; adding seconds to it gives the date of the sum. *)
Theorem datetime_roundtrip o s n :
  zones_agree o → -2 ^ 31 ≤ s < 2 ^ 31 → -2 ^ 31 ≤ s + timezone o < 2 ^ 31 → -2 ^ 31 ≤ s + n < 2 ^ 31 →
  let i := HI_TIME_SecondsToDateTime s in
  (1 ≤ s32Mon i ≤ 12 ∧ 1 ≤ s32Mday i ≤ nth (Z.to_nat (s32Mon i - 1)) (month_lengths (s32Year i)) 0 ∧
   0 ≤ s32Hour i < 24 ∧ 0 ≤ s32Min i < 60 ∧ 0 ≤ s32Sec i < 60) ∧
  (if s + timezone o =? -1 then
     HI_TIME_DateTimeToSeconds o i = inl HI_FAILURE ∧ HI_TIME_AddSeconds o i n = (HI_FAILURE, i)
   else
     HI_TIME_DateTimeToSeconds o i = inr s ∧
     HI_TIME_AddSeconds o i n = (HI_SUCCESS, HI_TIME_SecondsToDateTime (s + n))).
Proof.
  intros Hz Hs Hl Hn i. split.
  - destruct (gmtime_spec s Hs) as [_ (Hsec & Hmin & Hh & Hm & Hd & Hy & _)].
    subst i. unfold HI_TIME_SecondsToDateTime, TIME_SYSTIME2DATATIME. cbn [s32Mon s32Mday s32Hour s32Min s32Sec s32Year].
    rewrite !s32_small by lia. replace (tm_mon _ + 1 - 1) with (tm_mon (gmtime s)) by lia.
    replace (tm_year (gmtime s) + 1900) with (1900 + tm_year (gmtime s)) by lia. lia.
  - unfold HI_TIME_AddSeconds. subst i. rewrite seconds_datetime by done.
    destruct (_ =? -1); [done|]. by rewrite (s32_small (s + n)).
Qed.

End clock.

Lemma datetime_roundtrip_witness :
  HI_TIME_DateTimeToSeconds true (mkOS 0 0 (-480) (-28800) true) (HI_TIME_SecondsToDateTime 951782400) = inr 951782400.
Proof.
  refine (proj1 (proj2 (datetime_roundtrip true (mkOS 0 0 (-480) (-28800) true) 951782400 86400 _ _ _ _))).
  - by split.
  - by vm_compute.
  - by vm_compute.
  - by vm_compute.
Defined.

(** ** Packed times *)

Definition pack (h m s : Z) : Z := Z.lor (Z.lor (Z.shiftl h 16) (Z.shiftl m 8)) s.

Lemma pack_value h m s : 0 ≤ m < 256 → 0 ≤ s < 256 → pack h m s = (h * 256 + m) * 256 + s.
Proof.
  intros Hm Hs. unfold pack.
  replace (Z.shiftl h 16) with (Z.shiftl (Z.shiftl h 8) 8) by (by rewrite Z.shiftl_shiftl).
  rewrite <- Z.shiftl_lor, (lor_low 8), (lor_low 8) by (change (2 ^ 8) with 256; lia). lia.
Qed.

Lemma land_byte x : Z.land x 0xFF = x mod 256.
Proof. exact (Z.land_ones x 8 ltac:(done)). Qed.

Lemma unpack h m s : 0 ≤ h < 256 → 0 ≤ m < 256 → 0 ≤ s < 256 →
  Z.shiftr (Z.land (pack h m s) 0xFF0000) 16 = h ∧ Z.shiftr (Z.land (pack h m s) 0x00FF00) 8 = m ∧
  Z.land (pack h m s) 0x0000FF = s.
Proof.
  intros Hh Hm Hs. rewrite !Z.shiftr_land, pack_value by lia.
  change (Z.shiftr 0xFF0000 16) with 0xFF. change (Z.shiftr 0x00FF00 8) with 0xFF. rewrite !land_byte.
  rewrite !Z.shiftr_div_pow2 by lia. change (2 ^ 16) with 65536. change (2 ^ 8) with 256.
  repeat split; Z.div_mod_to_equations; lia.
Qed.

Lemma bcd x : 0 ≤ x < 100 → 0 ≤ HI_TIME_BCD_ENC x < 256 ∧ HI_TIME_BCD_DEC (HI_TIME_BCD_ENC x) = x.
Proof.
  intros Hx. pose (P (x : Z) := (0 <=? HI_TIME_BCD_ENC x) && (HI_TIME_BCD_ENC x <? 256) &&
                                 (HI_TIME_BCD_DEC (HI_TIME_BCD_ENC x) =? x)).
  assert (P x = true) as HP by (by apply (forall_below 100 P x)).
  unfold P in HP. bool_to_prop. lia.
Qed.

Lemma SecondsToBCDUTC_pack s : 0 ≤ s < 2 ^ 31 →
  HI_TIME_SecondsToBCDUTC s =
  inr (pack (HI_TIME_BCD_ENC (s / 3600 mod 24)) (HI_TIME_BCD_ENC (s / 60 mod 60)) (HI_TIME_BCD_ENC (s mod 60))).
Proof.
  intros Hs. unfold HI_TIME_SecondsToBCDUTC. rewrite (proj2 (Z.ltb_ge _ _)) by lia.
  change (60 * 60) with 3600. rewrite !Z.quot_div_nonneg by lia.
  rewrite !(u32_small (s / _)), (u32_small s) by (Z.div_mod_to_equations; lia).
  pose proof (bcd (s / 3600 mod 24)) as Bh. pose proof (bcd (s / 60 mod 60)) as Bm.
  pose proof (Z.mod_pos_bound (s / 3600) 24). pose proof (Z.mod_pos_bound (s / 60) 60).
  rewrite !u32_small; [done|..]; rewrite Z.shiftl_mul_pow2 by lia; lia.
Qed.

Lemma BCDUTCToSeconds_pack h m s : 0 ≤ h < 24 → 0 ≤ m < 60 → 0 ≤ s < 60 →
  HI_TIME_BCDUTCToSeconds (pack (HI_TIME_BCD_ENC h) (HI_TIME_BCD_ENC m) (HI_TIME_BCD_ENC s)) = h * 3600 + m * 60 + s.
Proof.
  intros Hh Hm Hs.
  destruct (bcd h ltac:(lia)) as [Bh Dh], (bcd m ltac:(lia)) as [Bm Dm], (bcd s ltac:(lia)) as [Bs Ds].
  unfold HI_TIME_BCDUTCToSeconds. destruct (unpack _ _ _ Bh Bm Bs) as (-> & -> & ->). rewrite Dh, Dm, Ds.
  rewrite (s32_small h), (s32_small m), (s32_small s), (s32_small (m * 60)), (s32_small (h * 60 * 60)) by lia.
  rewrite (s32_small (h * 60 * 60 + m * 60)), s32_small; lia.
Qed.

(** Seconds that are not negative become a day and a binary-coded time
    from which the code gets the same seconds back, and two such times compare
    like their seconds. *)
Theorem mjdutc_roundtrip s s' t t' : 0 ≤ s < 2 ^ 31 → 0 ≤ s' < 2 ^ 31 →
  let '(ret, r) := HI_TIME_SecondsToMJDUTC s t in
  let '(ret', r') := HI_TIME_SecondsToMJDUTC s' t' in
  ret = HI_SUCCESS ∧ HI_TIME_MJDUTCToSeconds r = inr s ∧
  HI_TIME_MJDUTCToDateTime r = inr (HI_TIME_SecondsToDateTime s) ∧
  ret' = HI_SUCCESS ∧ HI_TIME_CompareMJDUTCTime r r' = inr (s - s').
Proof.
  assert (∀ s t, 0 ≤ s < 2 ^ 31 → ∃ r, HI_TIME_SecondsToMJDUTC s t = (HI_SUCCESS, r) ∧
                                       HI_TIME_MJDUTCToSeconds r = inr s) as Hone.
  { clear. intros s t Hs. unfold HI_TIME_SecondsToMJDUTC. rewrite SecondsToBCDUTC_pack by done.
    eexists. split; [done|]. unfold HI_TIME_MJDUTCToSeconds. cbn [u16MJD u32UTC].
    unfold TIME_MJDToSeconds, TIME_SecondsToMJD, SECONDS_PER_DAY, TIME_MCR_MJD_1970.
    change (24 * (60 * 60)) with 86400. rewrite Z.quot_div_nonneg by lia.
    assert (0 ≤ s / 86400 < 24856) by (Z.div_mod_to_equations; lia).
    rewrite (s32_small (_ + _)), u32_small by lia. unfold u16.
    change 0xFFFF with (Z.ones 16). rewrite Z.land_ones, Z.mod_mod, Z.mod_small by lia.
    rewrite (proj2 (Z.leb_gt _ _)) by lia. rewrite BCDUTCToSeconds_pack by (Z.div_mod_to_equations; lia).
    f_equal. rewrite (s32_small (_ - _)), (s32_small (_ * _)) by (Z.div_mod_to_equations; lia).
    rewrite s32_small; Z.div_mod_to_equations; lia. }
  intros Hs Hs'. destruct (Hone s t Hs) as (r & -> & Hr), (Hone s' t' Hs') as (r' & -> & Hr').
  unfold HI_TIME_MJDUTCToDateTime, HI_TIME_CompareMJDUTCTime. rewrite Hr, Hr', s32_small by lia. done.
Qed.

(** The number of seconds of a Julian day: days before October 1969 are
    refused, days up to January 2038 are exact, and from day 65443 on the 32-bit
    product wraps, so that every later day is taken for one of 1901 or 1902. *)
Theorem mjd_range d i : 0 ≤ d < 2 ^ 16 →
  TIME_MJDToSeconds d =
    (if d <=? 40517 then inl HI_EINVAL
     else if d <=? 65442 then inr ((d - 40587) * 86400) else inr ((d - 40587) * 86400 - 2 ^ 32)) ∧
  (65442 < d → 1901 ≤ s32Year (snd (HI_TIME_MJDToYMD d i)) ≤ 1902).
Proof.
  intros Hd. unfold HI_TIME_MJDToYMD.
  assert (TIME_MJDToSeconds d =
    (if d <=? 40517 then inl HI_EINVAL
     else if d <=? 65442 then inr ((d - 40587) * 86400) else inr ((d - 40587) * 86400 - 2 ^ 32))) as ->.
  { unfold TIME_MJDToSeconds, TIME_MCR_MJD_1970, SECONDS_PER_DAY. change 0xFFFF with (Z.ones 16).
    rewrite Z.land_ones, Z.mod_small by lia. change (40587 - 70) with 40517. change (24 * (60 * 60)) with 86400.
    destruct (Z.leb_spec d 40517); [done|]. rewrite (s32_small (d - _)) by lia. f_equal.
    destruct (Z.leb_spec d 65442); [by rewrite s32_small by lia|]. f_equal.
    rewrite <- (s32_add_mul ((d - 40587) * 86400) (-1)), s32_small; lia. }
  split; [done|]. intros Hl. rewrite (proj2 (Z.leb_gt d 40517)), (proj2 (Z.leb_gt d 65442)) by lia. cbn [snd s32Year].
  pose (P (k : Z) := let y := s32Year (HI_TIME_SecondsToDateTime ((k + 65443 - 40587) * 86400 - 2 ^ 32)) in
                     (1901 <=? y) && (y <=? 1902)).
  assert (P (d - 65443) = true) as HP.
  { apply (forall_below 93 P); [by vm_compute|]. cbn. lia. }
  unfold P in HP. cbn zeta in HP. replace (d - 65443 + 65443) with d in HP by lia. apply andb_true_iff in HP as [H1 H2].
  apply Z.leb_le in H1, H2. done.
Qed.

Lemma mjd_range_witness : s32Year (snd (HI_TIME_MJDToYMD 65500 (HI_TIME_SecondsToDateTime 0))) = 1902.
Proof.
  assert (TIME_MJDToSeconds 65500 = inr ((65500 - 40587) * 86400 - 2 ^ 32)) as H.
  { exact (proj1 (mjd_range 65500 (HI_TIME_SecondsToDateTime 0) ltac:(done))). }
  unfold HI_TIME_MJDToYMD. rewrite H. vm_compute. reflexivity.
Defined.

Lemma mjdutc_roundtrip_witness :
  HI_TIME_MJDUTCToSeconds (snd (HI_TIME_SecondsToMJDUTC 1234567890 (mkMJD 0 0))) = inr 1234567890.
Proof.
  exact (proj1 (proj2 (mjdutc_roundtrip 1234567890 1 (mkMJD 0 0) (mkMJD 0 0) ltac:(done) ltac:(done)))).
Defined.

(** A negative number of seconds is refused when its day has been written. *)
Lemma SecondsToMJDUTC_negative s t : -2 ^ 31 ≤ s < 0 →
  HI_TIME_SecondsToMJDUTC s t = (HI_FAILURE, mkMJD (u16 (TIME_SecondsToMJD s)) (u32UTC t)).
Proof.
  intros Hs. unfold HI_TIME_SecondsToMJDUTC, HI_TIME_SecondsToBCDUTC. by rewrite (proj2 (Z.ltb_lt s 0)) by lia.
Qed.

(** ** The clock *)

Section clock_laws.
Context (android : bool).

(** When a date of [s] seconds has been set, the time read later is [s] and
    the whole seconds the clock in use has counted since, in 32 bits, whether
    both calls apply the offset of the zone or neither does; the call fails,
    with the time in its argument, when the seconds kept are not positive.  The
    module's own clock counts the seconds between the two readings of the
    milliseconds since the start, while these stay below 2^31. *)
Theorem user_clock_runs (i : HI_TIME_INFO_S) (w : bool) (st : STATE) (o' : OS) (s : Z) :
  HI_TIME_DateTimeToSeconds android (os st) i = inr s →
  tz_minuteswest o' = tz_minuteswest (os st) →
  let kept := if w then s32 (s - TIME_GetOffset st) else s in
  let '(ret, st1) := HI_TIME_SetDateTime android i w st in
  let passed := system_seconds (priv st) o' - system_seconds (priv st) (os st1) in
  ret = HI_SUCCESS ∧
  HI_TIME_GetSeconds w (set_os st1 o') = (if kept <=? 0 then HI_FAILURE else HI_SUCCESS, s32 (s + passed)) ∧
  (bModifyTDTStime (priv st) = false → 0 ≤ monotonic (os st) → monotonic o' < 2 ^ 31 →
   monotonic (os st) ≤ monotonic o' → passed = monotonic o' / 1000 - monotonic (os st) / 1000).
Proof.
  intros Hs Hz kept. unfold HI_TIME_SetDateTime. rewrite Hs. fold kept.
  set (o1 := if bModifyTDTStime (priv st)
             then if android then snd (setCurrentTimeMillis (kept * 1000) (os st)) else set_clock (os st) kept else os st).
  cbn [os]. split; [done|]. split.
  - unfold HI_TIME_GetSeconds, set_os. cbn [priv s32UserSeconds s32LastSystemSeconds]. f_equal.
    assert (∀ a, s32 (a + s32 (system_seconds (priv st) o' - system_seconds (priv st) o1)) =
                 s32 (a + (system_seconds (priv st) o' - system_seconds (priv st) o1))) as Hadd.
    { intros a. rewrite (Z.add_comm a), s32_add_l. f_equal. lia. }
    change (system_seconds (mkPriv _ _ _ _ _ _) o') with (system_seconds (priv st) o'). subst kept. destruct w.
    + assert (TIME_GetOffset (set_os (mkState (s_bTimeInited st) (mkPriv (s32TimeZone (priv st))
        (u32DaylightSaving (priv st)) (s32 (s - TIME_GetOffset st)) (system_seconds (priv st) o1)
        (bModifyTDTStime (priv st)) (bModifyTOTStime (priv st))) o1) o') = TIME_GetOffset st) as Ho.
      { unfold TIME_GetOffset, HI_TIME_GetTimeZone. cbn. by rewrite Hz. }
      unfold set_os in Ho. cbn [s_bTimeInited priv os] in *. rewrite Ho, Hadd, !s32_add_l.
      rewrite <- Z.add_assoc, s32_add_l. f_equal. lia.
    + by rewrite Hadd.
  - subst o1. intros Hb H0 H31 Hle. rewrite Hb. unfold system_seconds, TIME_GetTimeNow. rewrite Hb.
    rewrite !u32_small, !s32_small, !Z.quot_div_nonneg by lia. done.
Qed.

(** The module's own clock breaks after 2^31 milliseconds, some 25 days
    after the start: the milliseconds are made signed before they are divided,
    and a date set before is from then on, for as long again, earlier than it
    was when it was set. *)
Theorem user_clock_25_days (i : HI_TIME_INFO_S) (st : STATE) (o' : OS) (s : Z) :
  HI_TIME_DateTimeToSeconds android (os st) i = inr s →
  bModifyTDTStime (priv st) = false → -2 ^ 30 ≤ s →
  0 ≤ monotonic (os st) < 2 ^ 31 → 2 ^ 31 ≤ monotonic o' < 2 ^ 32 - 1000 →
  let '(_, st1) := HI_TIME_SetDateTime android i false st in
  snd (HI_TIME_GetSeconds false (set_os st1 o')) < s.
Proof.
  intros Hs Hb Hlow Hm Hm'. unfold HI_TIME_SetDateTime. rewrite Hs, Hb.
  assert (s < 2 ^ 31) as Hhigh.
  { revert Hs. unfold HI_TIME_DateTimeToSeconds. destruct (_ =? -1); [done|]. intros [= <-]. apply s32_range. }
  unfold HI_TIME_GetSeconds, set_os, system_seconds, TIME_GetTimeNow.
  cbn [priv os snd s32UserSeconds s32LastSystemSeconds bModifyTDTStime].
  rewrite Hb, !u32_small, (s32_small (monotonic (os st))), (Z.quot_div_nonneg (monotonic (os st))) by lia.
  assert (s32 (monotonic o') = monotonic o' - 2 ^ 32) as -> by (rewrite <- (s32_add_mul (monotonic o') (-1)), s32_small; lia).
  assert (-2147484 ≤ Z.quot (monotonic o' - 2 ^ 32) 1000 ≤ -1) by (Z.quot_rem_to_equations; lia).
  assert (0 ≤ monotonic (os st) / 1000 < 2147484) by (Z.div_mod_to_equations; lia).
  rewrite (s32_small (_ - _)), s32_small; lia.
Qed.

(** Switching the clock in use keeps the seconds noted on the other one. *)
Lemma SetTimeToSystem_jump i st s :
  HI_TIME_DateTimeToSeconds android (os st) i = inr s → bModifyTDTStime (priv st) = false →
  let '(_, st1) := HI_TIME_SetDateTime android i false st in
  let '(_, st2) := HI_TIME_SetTimeToSystem true st1 in
  snd (HI_TIME_GetSeconds false st1) = s32 s ∧
  snd (HI_TIME_GetSeconds false st2) = s32 (s + (clock (os st) - system_seconds (priv st) (os st))).
Proof.
  intros Hs Hb. unfold HI_TIME_SetDateTime. rewrite Hs, Hb. unfold HI_TIME_GetSeconds, system_seconds.
  cbn [os priv snd set_priv bModifyTDTStime s32UserSeconds s32LastSystemSeconds]. rewrite Hb, Z.sub_diag.
  change (s32 0) with 0. rewrite Z.add_0_r. split; [done|].
  unfold set_priv. cbn [os priv bModifyTDTStime s32UserSeconds s32LastSystemSeconds].
   rewrite <- (Z.add_opp_r (s32 (clock _))), s32_add_l, (Z.add_comm s), s32_add_l. f_equal. lia.
Qed.
End clock_laws.

Lemma user_clock_runs_witness :
  let st := mkState true (mkPriv 3600 0 0 0 false false) (mkOS 5000 77500 0 0 true) in
  snd (HI_TIME_GetSeconds true (set_os (snd (HI_TIME_SetDateTime false (HI_TIME_SecondsToDateTime 1000000) true st))
                                       (mkOS 9999 100250 0 0 true))) = 1000000 + (100 - 77).
Proof.
  intros st.
  pose proof (user_clock_runs false (HI_TIME_SecondsToDateTime 1000000) true st (mkOS 9999 100250 0 0 true) 1000000) as H.
  assert (HI_TIME_DateTimeToSeconds false (os st) (HI_TIME_SecondsToDateTime 1000000) = inr 1000000) as Hs by (by vm_compute).
  specialize (H Hs eq_refl). cbn zeta in H.
  destruct (HI_TIME_SetDateTime false (HI_TIME_SecondsToDateTime 1000000) true st) as [ret st1].
  destruct H as (_ & Hg & Hp). cbn [snd]. rewrite Hg. cbn [snd]. rewrite Hp by (by vm_compute). by vm_compute.
Defined.

Lemma user_clock_25_days_witness :
  let st := mkState true (mkPriv 0 0 0 0 false false) (mkOS 5000 77500 0 0 true) in
  snd (HI_TIME_GetSeconds false (set_os (snd (HI_TIME_SetDateTime false (HI_TIME_SecondsToDateTime 1000000) false st))
                                       (mkOS 9999 2147483648 0 0 true))) < 1000000.
Proof.
  intros st.
  pose proof (user_clock_25_days false (HI_TIME_SecondsToDateTime 1000000) st (mkOS 9999 2147483648 0 0 true) 1000000) as H.
  destruct (HI_TIME_SetDateTime false (HI_TIME_SecondsToDateTime 1000000) false st) as [ret st1].
  apply H; by vm_compute.
Defined.

End TM.
