(* ===== verification/AbsTimer.v ===== *)
(** The absolute timers of [peabstm.c]: a timer carries a pattern of a date,
    with -1 for any value, and the hook of the timer thread calls it for each
    matching second since the hook's last call, which a static variable of the hook keeps.
    As for the relative timers, the clients' calls are queued as tasklets. *)

From S2P Require Import Prelude HiTime PeTimer.

Module AT.

Abbreviation tm := TM.tm.
Definition EINVAL : Z := 22.

(** [struct abs_timer_t].  The time is [None] until the timer is started. *)
Record abs_timer_t := mkAbs { timeout : Z; flag : Z; time_to_start : option tm; arg : Z }.

(** The calls queued on [abs_tsklets]. *)
Inductive tsklet :=
  | starttimer (timer : Z) (t : tm) (a : Z)
  | stoptimer (timer : Z) (finallize : option (Z * Z))
  | rmtimer (timer : Z).

Inductive event :=
  | Timeout (timer func a : Z)
  | Finalized (func a : Z).

(** The part of [sync_block_t] for absolute timers, with the timers by address.
    The second of the hook's last call ([last_tv]) is not there: it is a
    static variable of the hook, which all blocks would share ([petimer_start]
    makes one). *)
Record sync_block_t := mkSync {
  abs_tsklets : list tsklet;
  activate_timers : list Z;
  timers : gmap Z abs_timer_t;
  events : list event
}.

Definition set_tsklets (sb : sync_block_t) l := mkSync l (activate_timers sb) (timers sb) (events sb).
Definition set_active (sb : sync_block_t) l := mkSync (abs_tsklets sb) l (timers sb) (events sb).
Definition set_timers (sb : sync_block_t) m := mkSync (abs_tsklets sb) (activate_timers sb) m (events sb).
Definition add_event (sb : sync_block_t) e :=
  mkSync (abs_tsklets sb) (activate_timers sb) (timers sb) (events sb ++ [e]).

(** [init_abstm] before it registers its hook. *)
Definition init_abstm : sync_block_t := mkSync [] [] ∅ [].

(** [addr] is what [malloc] answers. *)
Definition petimer_create_abstimer (sb : sync_block_t) (addr : option Z) (func flg : Z) : option Z * sync_block_t :=
  if func =? 0 then (None, sb)
  else match addr with
       | None => (None, sb)
       | Some t => (Some t, set_timers sb (<[t := mkAbs func flg None 0]> (timers sb)))
       end.

Definition list_isinqueue (sb : sync_block_t) (t : Z) : bool := bool_decide (t ∈ activate_timers sb).
Definition leave_queue (sb : sync_block_t) (t : Z) : sync_block_t :=
  set_active sb (List.filter (λ t', negb (t' =? t)) (activate_timers sb)).

(** [_starttimer]: a new time for a timer that is active already. *)
Definition run_start (sb : sync_block_t) (t : Z) (time : tm) (a : Z) : outcome sync_block_t :=
  let! cb := oderef (timers sb !! t) in
  let sb1 := set_timers sb (<[t := mkAbs (timeout cb) (flag cb) (Some time) a]> (timers sb)) in
  Returned (if list_isinqueue sb1 t then sb1 else set_active sb1 (t :: activate_timers sb1)).

(** [_stoptimer]. *)
Definition run_stop (sb : sync_block_t) (t : Z) (fin : option (Z * Z)) : outcome sync_block_t :=
  let! _ := oderef (timers sb !! t) in
  let sb1 := if list_isinqueue sb t then leave_queue sb t else sb in
  Returned (match fin with Some (f, a) => add_event sb1 (Finalized f a) | None => sb1 end).

(** [_rmtimer]. *)
Definition run_rm (sb : sync_block_t) (t : Z) : outcome sync_block_t :=
  let! _ := oderef (timers sb !! t) in
  let sb1 := if list_isinqueue sb t then leave_queue sb t else sb in
  Returned (set_timers sb1 (delete t (timers sb1))).

Definition run_tsklet (sb : sync_block_t) (k : tsklet) : outcome sync_block_t :=
  match k with
  | starttimer t time a => run_start sb t time a
  | stoptimer t fin => run_stop sb t fin
  | rmtimer t => run_rm sb t
  end.

(** [tsklet_invokeall]. *)
Fixpoint invokeall (ks : list tsklet) (sb : sync_block_t) : outcome sync_block_t :=
  match ks with
  | [] => Returned sb
  | k :: ks' => let! sb' := run_tsklet sb k in invokeall ks' sb'
  end.

Definition tsklet_invokelater (malloc_ok : bool) (sb : sync_block_t) (k : tsklet) : Z * sync_block_t :=
  if malloc_ok then (0, set_tsklets sb (abs_tsklets sb ++ [k])) else (PT.ENOMEM, sb).

Definition petimer_start_abstimer (info_ok item_ok : bool) (sb : sync_block_t) (t : Z) (time : tm) (a : Z)
  : Z * sync_block_t :=
  if negb info_ok then (PT.ENOMEM, sb) else tsklet_invokelater item_ok sb (starttimer t time a).

Definition petimer_stop_abstimer_safe (info_ok item_ok : bool) (sb : sync_block_t) (t : Z) (fin : option (Z * Z))
  : Z * sync_block_t :=
  if negb info_ok then (PT.ENOMEM, sb) else tsklet_invokelater item_ok sb (stoptimer t fin).

Definition petimer_free_abstimer (item_ok : bool) (sb : sync_block_t) (t : Z) : Z * sync_block_t :=
  tsklet_invokelater item_ok sb (rmtimer t).

Definition TIME_MATCH (t t1 : Z) : bool := (t =? -1) || (t =? t1).

Definition time_matches (p t : tm) : bool :=
  TIME_MATCH (TM.tm_sec p) (TM.tm_sec t) && TIME_MATCH (TM.tm_min p) (TM.tm_min t) &&
  TIME_MATCH (TM.tm_hour p) (TM.tm_hour t) && TIME_MATCH (TM.tm_mday p) (TM.tm_mday t) &&
  TIME_MATCH (TM.tm_mon p) (TM.tm_mon t) && TIME_MATCH (TM.tm_year p) (TM.tm_year t).

Section hook.
(** The seconds west of the zone, and what a timeout function queues. *)
Context (timezone : Z) (callback : Z → Z → list tsklet).

Definition localtime (s : Z) : tm := TM.gmtime (s - timezone).

(** One turn of the loop of [_trigger_a_timer], for the second [s]. *)
Definition trigger_second (t s : Z) (sb : sync_block_t) : outcome sync_block_t :=
  let! cb := oderef (timers sb !! t) in
  let! p := oderef (time_to_start cb) in
  if time_matches p (localtime s) then
    let sb1 := set_tsklets (add_event sb (Timeout t (timeout cb) (arg cb)))
                           (abs_tsklets sb ++ callback (timeout cb) (arg cb)) in
    if negb (Z.land (flag cb) PT.PETF_AUTO_FREE =? 0) then run_rm sb1 t
    else if negb (Z.land (flag cb) PT.PETF_ONE_SHOOT =? 0) then Returned (leave_queue sb1 t)
    else Returned sb1
  else Returned sb.

Fixpoint trigger_loop (t : Z) (ss : list Z) (sb : sync_block_t) : outcome sync_block_t :=
  match ss with
  | [] => Returned sb
  | s :: ss' => let! sb' := trigger_second t s sb in trigger_loop t ss' sb'
  end.

(** The seconds after [t1] up to [t2]. *)
Definition window (t1 t2 : Z) : list Z := seqZ (t1 + 1) (t2 - t1).

(** [_trigger_a_timer]. *)
Definition trigger_a_timer (sb : sync_block_t) (t t1 t2 : Z) : outcome sync_block_t := trigger_loop t (window t1 t2) sb.

Fixpoint trigger_all (ts : list Z) (t1 t2 : Z) (sb : sync_block_t) : outcome sync_block_t :=
  match ts with
  | [] => Returned sb
  | t :: ts' => let! sb' := trigger_a_timer sb t t1 t2 in trigger_all ts' t1 t2 sb'
  end.

(** The clock has been set, or the call is late. *)
Definition out_of_step (last now : Z) : bool :=
  let sec_diff := s32 (now - last) in (60 <? sec_diff) || (sec_diff <? 0).

(** [last_tv] before the first call of the hook. *)
Definition initial_tv : Z := -1.

(** [_abstm_trigger], called after [escape] ticks; [now] is what
    [gettimeofday] answers.  The result has the new [last_tv]. *)
Definition abstm_trigger (last_tv : Z) (sb : sync_block_t) (escape now : Z) : outcome (Z * sync_block_t) :=
  oassert (PT.TICKS_PER_SECOND <=? escape) (
  let! sb1 := invokeall (abs_tsklets sb) (set_tsklets sb []) in
  let reset := out_of_step last_tv now in
  oassert (negb reset || (1 <? now)) (
  let start := if reset then now - 1 else last_tv in
  let! sb2 := trigger_all (activate_timers sb1) start now sb1 in
  Returned (now, sb2))).

(** The calls of the hook of one block at a sequence of times. *)
Fixpoint run_hook (last_tv : Z) (sb : sync_block_t) (nows : list Z) : outcome (Z * sync_block_t) :=
  match nows with
  | [] => Returned (last_tv, sb)
  | now :: nows' => let! (last', sb') := abstm_trigger last_tv sb PT.TICKS_PER_SECOND now in run_hook last' sb' nows'
  end.

End hook.
(** ** What a call of the hook does *)

Definition auto_free (cb : abs_timer_t) : bool := negb (Z.land (flag cb) PT.PETF_AUTO_FREE =? 0).
Definition one_shoot (cb : abs_timer_t) : bool := negb (Z.land (flag cb) PT.PETF_ONE_SHOOT =? 0).

Section laws.
Context (timezone : Z) (callback : Z → Z → list tsklet).

Definition due (cb : abs_timer_t) (s : Z) : bool :=
  match time_to_start cb with Some p => time_matches p (localtime timezone s) | None => false end.

(** How often a timer fires in a window. *)
Definition shots (cb : abs_timer_t) (t1 t2 : Z) : nat := length (List.filter (due cb) (window t1 t2)).

Definition other (t t' : Z) : bool := negb (t' =? t).

(** The state after a timer has fired [n] times. *)
Definition fire_spec (sb : sync_block_t) (t : Z) (cb : abs_timer_t) (n : nat) : sync_block_t :=
  let over := (0 <? n)%nat && (auto_free cb || one_shoot cb) in
  mkSync (abs_tsklets sb ++ concat (replicate n (callback (timeout cb) (arg cb))))
         (if over then List.filter (other t) (activate_timers sb) else activate_timers sb)
         (if (0 <? n)%nat && auto_free cb then delete t (timers sb) else timers sb)
         (events sb ++ replicate n (Timeout t (timeout cb) (arg cb))).

Lemma fire_spec_0 sb t cb : fire_spec sb t cb 0 = sb.
Proof. unfold fire_spec. cbn. rewrite !app_nil_r. by destruct sb. Qed.

Lemma filter_idle {A} (f : A → bool) l : (∀ x, x ∈ l → f x = true) → List.filter f l = l.
Proof.
  induction l as [|x l IH]; intros Hl; [done|]. cbn. rewrite Hl by left. f_equal. apply IH. intros y Hy. apply Hl. by right.
Qed.

Lemma leave_idle sb t : t ∉ activate_timers sb → leave_queue sb t = sb.
Proof.
  intros Ht. unfold leave_queue. rewrite filter_idle; [by destruct sb|].
  intros x Hx. destruct (Z.eqb_spec x t); [by subst|done].
Qed.

Lemma trigger_second_spec sb t s cb p : timers sb !! t = Some cb → time_to_start cb = Some p →
  trigger_second timezone callback t s sb = Returned (fire_spec sb t cb (if due cb s then 1 else 0)).
Proof.
  intros Ht Hp. unfold trigger_second, due. rewrite Ht. cbn [oderef obind]. rewrite Hp. cbn [oderef obind].
  destruct (time_matches p _); [|by rewrite fire_spec_0]. fold (auto_free cb) (one_shoot cb).
  unfold fire_spec, run_rm. cbn [Nat.ltb Nat.leb andb replicate concat]. rewrite app_nil_r.
  cbn [timers set_tsklets add_event]. rewrite Ht. cbn [oderef obind]. destruct (auto_free cb); cbn [orb].
  - unfold list_isinqueue. case_bool_decide as Hin; [done|].
    rewrite filter_idle; [done|]. intros x Hx. unfold other. destruct (Z.eqb_spec x t); [by subst|done].
  - by destruct (one_shoot cb).
Qed.

Lemma fire_spec_add sb t cb n k : auto_free cb = false →
  fire_spec (fire_spec sb t cb n) t cb k = fire_spec sb t cb (n + k).
Proof.
  intros Ha. unfold fire_spec. cbn [abs_tsklets activate_timers timers events]. rewrite Ha, !andb_false_r.
  rewrite !replicate_add, concat_app, !app_assoc. f_equal.
  destruct n; cbn [Nat.ltb Nat.leb andb Nat.add]; [done|]. destruct (one_shoot cb); cbn [orb]; [|by rewrite andb_false_r].
  rewrite andb_true_r. destruct k; cbn; [done|]. apply filter_idle. intros x Hx. by apply list_elem_of_In, List.filter_In in Hx as [_ ?].
Qed.

Lemma trigger_loop_kept t cb p ss : ∀ sb, timers sb !! t = Some cb → time_to_start cb = Some p → auto_free cb = false →
  trigger_loop timezone callback t ss sb = Returned (fire_spec sb t cb (length (List.filter (due cb) ss))).
Proof.
  induction ss as [|s ss IH]; intros sb Ht Hp Ha; cbn [trigger_loop List.filter]; [by rewrite fire_spec_0|].
  rewrite (trigger_second_spec _ _ _ _ _ Ht Hp). cbn [obind].
  rewrite IH, fire_spec_add by (done || (cbn; by rewrite Ha, andb_false_r)). by destruct (due cb s).
Qed.

Lemma trigger_loop_idle t cb p ss : ∀ sb, timers sb !! t = Some cb → time_to_start cb = Some p →
  List.filter (due cb) ss = [] → trigger_loop timezone callback t ss sb = Returned sb.
Proof.
  induction ss as [|s ss IH]; intros sb Ht Hp Hn; cbn [trigger_loop List.filter] in *; [done|].
  rewrite (trigger_second_spec _ _ _ _ _ Ht Hp). destruct (due cb s); [done|]. rewrite fire_spec_0. by apply IH.
Qed.

Lemma trigger_loop_app t ss ss' : ∀ sb,
  trigger_loop timezone callback t (ss ++ ss') sb =
  (let! sb' := trigger_loop timezone callback t ss sb in trigger_loop timezone callback t ss' sb').
Proof. induction ss as [|s ss IH]; intros sb; cbn; [done|]. destruct (trigger_second _ _ t s sb); cbn; auto. Qed.

Lemma window_last t1 t2 : t1 < t2 → window t1 t2 = window t1 (t2 - 1) ++ [t2].
Proof.
  intros H. unfold window. replace (t2 - t1) with ((t2 - 1 - t1) + 1) by lia. rewrite seqZ_app by lia. f_equal.
  rewrite seqZ_cons by lia. f_equal. lia.
Qed.

(** A timer to be freed may be due only at the end of the window. *)
Definition frees_last (cb : abs_timer_t) (t1 t2 : Z) : Prop :=
  auto_free cb = true → List.filter (due cb) (window t1 (t2 - 1)) = [].

Lemma abs_trigger_spec sb t cb p t1 t2 : timers sb !! t = Some cb → time_to_start cb = Some p →
  frees_last cb t1 t2 → trigger_a_timer timezone callback sb t t1 t2 = Returned (fire_spec sb t cb (shots cb t1 t2)).
Proof.
  intros Ht Hp Hf. unfold trigger_a_timer, shots. destruct (auto_free cb) eqn:Ha; [|by eapply trigger_loop_kept].
  destruct (decide (t1 < t2)) as [Hlt|Hge].
  - rewrite window_last, trigger_loop_app, List.filter_app, Hf by done.
    rewrite (trigger_loop_idle _ _ _ _ _ Ht Hp (Hf Ha)). cbn [obind trigger_loop].
    rewrite (trigger_second_spec _ _ _ _ _ Ht Hp). cbn [obind app List.filter]. by destruct (due cb t2).
  - unfold window. rewrite seqZ_nil by lia. cbn. by rewrite fire_spec_0.
Qed.

(** Active timers are linked once, and have been started. *)
Definition wf (sb : sync_block_t) : Prop :=
  NoDup (activate_timers sb) ∧
  ∀ t, t ∈ activate_timers sb → ∃ cb p, timers sb !! t = Some cb ∧ time_to_start cb = Some p.

(** What a timer of the store does in a window. *)
Definition fired (m : gmap Z abs_timer_t) (t1 t2 t : Z) : list event :=
  match m !! t with
  | Some cb => replicate (shots cb t1 t2) (Timeout t (timeout cb) (arg cb))
  | None => []
  end.
Definition queued (m : gmap Z abs_timer_t) (t1 t2 t : Z) : list tsklet :=
  match m !! t with Some cb => concat (replicate (shots cb t1 t2) (callback (timeout cb) (arg cb))) | None => [] end.
Definition over (m : gmap Z abs_timer_t) (t1 t2 t : Z) : bool :=
  match m !! t with Some cb => (0 <? shots cb t1 t2)%nat && (auto_free cb || one_shoot cb) | None => false end.
Definition freed (m : gmap Z abs_timer_t) (t1 t2 t : Z) : bool :=
  match m !! t with Some cb => (0 <? shots cb t1 t2)%nat && auto_free cb | None => false end.

Lemma filter_filter {A} (f g : A → bool) l : List.filter f (List.filter g l) = List.filter (λ x, g x && f x) l.
Proof. induction l as [|x l IH]; cbn; [done|]. destruct (g x); cbn; [destruct (f x)|]; by rewrite IH. Qed.

Lemma filter_id_ext {A} (f g : A → bool) l : (∀ x, f x = g x) → List.filter f l = List.filter g l.
Proof. intros H. by apply List.filter_ext. Qed.

Lemma trigger_all_spec t1 t2 ts : ∀ sb, NoDup ts →
  (∀ t, t ∈ ts → ∃ cb p, timers sb !! t = Some cb ∧ time_to_start cb = Some p ∧ frees_last cb t1 t2) →
  ∃ sb', trigger_all timezone callback ts t1 t2 sb = Returned sb' ∧
    events sb' = events sb ++ concat (fired (timers sb) t1 t2 <$> ts) ∧
    abs_tsklets sb' = abs_tsklets sb ++ concat (queued (timers sb) t1 t2 <$> ts) ∧
    activate_timers sb' =
      List.filter (λ t, negb (bool_decide (t ∈ ts) && over (timers sb) t1 t2 t)) (activate_timers sb) ∧
    ∀ t, timers sb' !! t = if bool_decide (t ∈ ts) && freed (timers sb) t1 t2 t then None else timers sb !! t.
Proof.
  induction ts as [|t ts IH]; intros sb Hnd Hts.
  { exists sb. split; [done|]. cbn. rewrite !app_nil_r. split_and!; [done..| |done].
    symmetry. by apply filter_idle. }
  apply NoDup_cons in Hnd as [Ht Hnd]. destruct (Hts t ltac:(left)) as (cb & p & Hcb & Hp & Hf).
  cbn [trigger_all]. rewrite (abs_trigger_spec _ _ _ _ _ _ Hcb Hp Hf). cbn [obind].
  set (sb1 := fire_spec sb t cb (shots cb t1 t2)).
  assert (∀ t', t' ≠ t → timers sb1 !! t' = timers sb !! t') as Hsame.
  { intros t' Hne. unfold sb1, fire_spec. cbn [timers]. destruct (_ && _); [by rewrite lookup_delete_ne|done]. }
  assert (∀ t', t' ≠ t → bool_decide (t' ∈ t :: ts) = bool_decide (t' ∈ ts)) as Hmem.
  { intros t' Hne. apply bool_decide_ext. rewrite elem_of_cons. naive_solver. }
  assert (timers sb1 !! t = if freed (timers sb) t1 t2 t then None else timers sb !! t) as Hhere.
  { unfold sb1, fire_spec, freed. cbn [timers]. rewrite Hcb.
    destruct (_ && _); [by rewrite lookup_delete_eq|done]. }
  destruct (IH sb1 Hnd) as (sb' & -> & He & Hq & Ha & Hm).
  { intros t' Hin. rewrite Hsame by (by intros ->). apply Hts. by right. }
  exists sb'. split; [done|]. split_and!.
  - rewrite He. unfold sb1, fire_spec. cbn [events]. rewrite fmap_cons. cbn [concat]. rewrite app_assoc. f_equal.
    + f_equal. unfold fired. by rewrite Hcb.
    + f_equal. apply list_fmap_ext. intros i t' Hi. unfold fired.
      rewrite Hsame; [done|]. intros ->. by apply list_elem_of_lookup_2 in Hi.
  - rewrite Hq. unfold sb1, fire_spec. cbn [abs_tsklets]. rewrite fmap_cons. cbn [concat]. rewrite app_assoc. f_equal.
    + f_equal. unfold queued. by rewrite Hcb.
    + f_equal. apply list_fmap_ext. intros i t' Hi. unfold queued.
      rewrite Hsame; [done|]. intros ->. by apply list_elem_of_lookup_2 in Hi.
  - rewrite Ha. unfold sb1 at 2, fire_spec. cbn [activate_timers].
    trans (List.filter (λ t', negb (bool_decide (t' ∈ ts) && over (timers sb1) t1 t2 t'))
             (List.filter (λ t', negb (bool_decide (t' = t) && over (timers sb) t1 t2 t)) (activate_timers sb))).
    { f_equal. unfold over at 1. rewrite Hcb. destruct (_ && _).
      - apply filter_id_ext. intros x. rewrite andb_true_r. unfold other. f_equal.
        destruct (Z.eqb_spec x t); by case_bool_decide.
      - symmetry. apply filter_idle. intros x _. by rewrite andb_false_r. }
    rewrite filter_filter. apply filter_id_ext. intros t'. rewrite <- negb_orb. f_equal.
    destruct (decide (t' = t)) as [->|Hne].
    + rewrite (bool_decide_eq_true_2 (t = t)), (bool_decide_eq_true_2 (t ∈ t :: ts)), (bool_decide_eq_false_2 (t ∈ ts)) by
        (done || left). cbn. by rewrite orb_false_r.
    + rewrite (bool_decide_eq_false_2 (t' = t)), Hmem by done. cbn [andb orb]. unfold over. by rewrite Hsame.
  - intros t'. rewrite Hm. destruct (decide (t' = t)) as [->|Hne].
    + rewrite (bool_decide_eq_true_2 (t ∈ t :: ts)), (bool_decide_eq_false_2 (t ∈ ts)) by (done || left). cbn. done.
    + unfold freed. by rewrite Hsame, Hmem.
Qed.

Lemma elem_filter {A} (f : A → bool) l x : x ∈ List.filter f l ↔ x ∈ l ∧ f x = true.
Proof. rewrite !list_elem_of_In. apply List.filter_In. Qed.

Lemma NoDup_filter_bool {A} (f : A → bool) (l : list A) : NoDup l → NoDup (List.filter f l).
Proof. rewrite !NoDup_ListNoDup. apply List.NoDup_filter. Qed.

Lemma wf_leave sb t : wf sb → wf (leave_queue sb t).
Proof.
  intros [Hnd Hall]. split; cbn; [by apply NoDup_filter_bool|]. intros t' [Hin _]%elem_filter. by apply Hall.
Qed.

(** Leaving the queue with one look at whether the timer is in it. *)
Lemma leave_if sb t : (if list_isinqueue sb t then leave_queue sb t else sb) = leave_queue sb t.
Proof. unfold list_isinqueue. case_bool_decide; [done|]. by rewrite leave_idle. Qed.

Lemma wf_run_tsklet sb k sb' : wf sb → run_tsklet sb k = Returned sb' → wf sb'.
Proof.
  intros Hwf. pose proof Hwf as [Hnd Hall]. destruct k as [t time a|t fin|t]; cbn [run_tsklet].
  - unfold run_start. intros (cb & Hcb & Hr)%obind_returned. revert Hr.
    set (m := <[t := _]> _). assert (∀ t', t' = t ∨ t' ∈ activate_timers sb →
      ∃ cb p, m !! t' = Some cb ∧ time_to_start cb = Some p) as Hm.
    { intros t' Ht'. subst m. destruct (decide (t' = t)) as [->|Hne].
      - rewrite lookup_insert_eq. by do 2 eexists.
      - rewrite lookup_insert_ne by done. apply Hall. naive_solver. }
    unfold list_isinqueue. cbn [activate_timers set_timers]. case_bool_decide as Hin; intros [= <-].
    + split; cbn; [done|]. intros t' ?. apply Hm. by right.
    + split; cbn; [by apply NoDup_cons|]. intros t' [->|?]%elem_of_cons; apply Hm; auto.
  - unfold run_stop. intros (cb & _ & Hr)%obind_returned. revert Hr. cbv zeta. rewrite leave_if.
    intros [= <-]. pose proof (wf_leave sb t Hwf) as [? ?]. by destruct fin as [[f a]|].
  - unfold run_rm. intros (cb & _ & Hr)%obind_returned. revert Hr. cbv zeta. rewrite leave_if. intros [= <-].
    pose proof (wf_leave sb t Hwf) as [Hnd' Hall']. split; [done|]. cbn [activate_timers set_timers timers].
    intros t' Hin. pose proof Hin as [_ Hne]%elem_filter. destruct (Z.eqb_spec t' t); [done|].
    rewrite lookup_delete_ne by done. by apply Hall'.
Qed.

Lemma wf_invokeall ks : ∀ sb sb', wf sb → invokeall ks sb = Returned sb' → wf sb'.
Proof.
  induction ks as [|k ks IH]; intros sb sb' Hwf; cbn [invokeall]; [by intros [= <-]|].
  intros (sb1 & H1 & H2)%obind_returned. eauto using wf_run_tsklet.
Qed.

Definition start_of (last now : Z) : Z := if out_of_step last now then now - 1 else last.

Lemma trigger_result last sb1 now : wf sb1 →
  (∀ t cb, t ∈ activate_timers sb1 → timers sb1 !! t = Some cb → frees_last cb (start_of last now) now) →
  ∃ sb2, trigger_all timezone callback (activate_timers sb1) (start_of last now) now sb1 = Returned sb2 ∧ wf sb2 ∧
    events sb2 = events sb1 ++ concat (fired (timers sb1) (start_of last now) now <$> activate_timers sb1) ∧
    abs_tsklets sb2 = abs_tsklets sb1 ++ concat (queued (timers sb1) (start_of last now) now <$> activate_timers sb1) ∧
    activate_timers sb2 = List.filter (λ t, negb (over (timers sb1) (start_of last now) now t)) (activate_timers sb1) ∧
    ∀ t, timers sb2 !! t =
         if bool_decide (t ∈ activate_timers sb1) && freed (timers sb1) (start_of last now) now t then None else timers sb1 !! t.
Proof.
  intros [Hnd Hall] Hlast.
  destruct (trigger_all_spec (start_of last now) now (activate_timers sb1) sb1 Hnd) as (sb2 & -> & He & Hq & Ha & Hm).
  { intros t Hin. destruct (Hall t Hin) as (cb & p & Hcb & Hp). exists cb, p. eauto. }
  assert (activate_timers sb2 =
    List.filter (λ t, negb (over (timers sb1) (start_of last now) now t)) (activate_timers sb1)) as Ha'.
  { rewrite Ha. apply List.filter_ext_in. intros t Ht%list_elem_of_In. by rewrite bool_decide_eq_true_2. }
  exists sb2. split; [done|]. split_and!; [|done..]. split; rewrite Ha'; [by apply NoDup_filter_bool|].
  intros t [Hin Hov]%elem_filter. destruct (Hall t Hin) as (cb & p & Hcb & Hp). exists cb, p. split; [|done].
  rewrite Hm, bool_decide_eq_true_2 by done. unfold freed, over in *. rewrite Hcb in *.
  apply negb_true_iff in Hov. cbn [andb]. destruct (0 <? _)%nat; cbn [andb] in *; [|done].
  apply orb_false_iff in Hov as [-> _]. done.
Qed.

Lemma abstm_trigger_unfold last sb esc now sb1 : PT.TICKS_PER_SECOND ≤ esc →
  invokeall (abs_tsklets sb) (set_tsklets sb []) = Returned sb1 → (out_of_step last now = true → 1 < now) →
  abstm_trigger timezone callback last sb esc now =
  (let! sb2 := trigger_all timezone callback (activate_timers sb1) (start_of last now) now sb1 in
   Returned (now, sb2)).
Proof.
  intros Hesc Hinv Hnow. unfold abstm_trigger, oassert, start_of. rewrite (proj2 (Z.leb_le _ _)) by done.
  rewrite Hinv. cbn [obind]. destruct (out_of_step _ now); [|done]. cbn. by rewrite (proj2 (Z.ltb_lt _ _)) by auto.
Qed.

(** C36: a call of the hook, after the queued calls have run: every active timer
    fires once for each second of the window that matches its pattern, in the
    order of the active list and then of the seconds; single-shot and freed
    timers leave the active list, freed ones the store, and the calls the
    timeout functions queue wait for the next call of the hook.  A timer to be freed must match no second before the last. *)
Theorem abstm_trigger_fires last sb esc now sb1 : wf sb → PT.TICKS_PER_SECOND ≤ esc →
  invokeall (abs_tsklets sb) (set_tsklets sb []) = Returned sb1 → (out_of_step last now = true → 1 < now) →
  let start := start_of last now in
  (∀ t cb, t ∈ activate_timers sb1 → timers sb1 !! t = Some cb → frees_last cb start now) →
  ∃ sb', abstm_trigger timezone callback last sb esc now = Returned (now, sb') ∧ wf sb' ∧
    events sb' = events sb1 ++ concat (fired (timers sb1) start now <$> activate_timers sb1) ∧
    abs_tsklets sb' = abs_tsklets sb1 ++ concat (queued (timers sb1) start now <$> activate_timers sb1) ∧
    activate_timers sb' = List.filter (λ t, negb (over (timers sb1) start now t)) (activate_timers sb1) ∧
    ∀ t, timers sb' !! t =
         if bool_decide (t ∈ activate_timers sb1) && freed (timers sb1) start now t then None else timers sb1 !! t.
Proof.
  intros Hwf Hesc Hinv Hnow start Hlast. rewrite (abstm_trigger_unfold _ _ _ _ _ Hesc Hinv Hnow).
  assert (wf sb1) as Hwf1 by (eapply wf_invokeall, Hinv; done).
  destruct (trigger_result last sb1 now Hwf1 Hlast) as (sb2 & Ht & [Hnd Hall] & He & Hq & Ha & Hm).
  rewrite Ht. cbn [obind]. by exists sb2.
Qed.

(** A timer that is freed when it fires is used after it has been freed
    when its pattern matches a second of the window that is not the last: the
    loop over the seconds goes on with the freed timer. *)
Theorem auto_free_used_after_free sb t cb p t1 t2 s :
  timers sb !! t = Some cb → time_to_start cb = Some p → auto_free cb = true →
  s ∈ window t1 (t2 - 1) → due cb s = true →
  trigger_a_timer timezone callback sb t t1 t2 = Undefined.
Proof.
  intros Ht Hp Ha Hs Hdue. unfold trigger_a_timer.
  assert (t1 < t2) by (unfold window in Hs; apply elem_of_seqZ in Hs; lia).
  rewrite window_last by done. revert Hs. generalize (window t1 (t2 - 1)) as l. intros l.
  induction l as [|s' l IH]; [by intros ?%not_elem_of_nil|]. intros Hin. cbn [app trigger_loop].
  rewrite (trigger_second_spec _ _ _ _ _ Ht Hp). cbn [obind]. destruct (due cb s') eqn:Hd'.
  - unfold fire_spec. rewrite Ha. cbn [Nat.ltb Nat.leb andb orb].
    destruct (l ++ [t2]) as [|s2 l2] eqn:Hl; [by destruct l|]. cbn [trigger_loop]. unfold trigger_second at 1.
    cbn [timers]. by rewrite lookup_delete_eq.
  - rewrite fire_spec_0. apply IH. apply elem_of_cons in Hin as [->|?]; [congruence|done].
Qed.

(** ** A run of the hook *)

Definition fired_by (t : Z) (e : event) : bool := match e with Timeout t' _ _ => t' =? t | Finalized _ _ => false end.

(** The calls come at most a minute apart, and the clock is not set back. *)
Fixpoint in_step (last : Z) (nows : list Z) : Prop :=
  match nows with [] => True | now :: nows' => 0 ≤ now - last ≤ 60 ∧ in_step now nows' end.

(** Every active timer is restarted when it has fired. *)
Definition repeating (sb : sync_block_t) : Prop :=
  ∀ t cb, t ∈ activate_timers sb → timers sb !! t = Some cb → auto_free cb = false ∧ one_shoot cb = false.

Lemma countP_fired t m t1 t2 ts : NoDup ts →
  countP (fired_by t) (concat (fired m t1 t2 <$> ts)) =
  match m !! t with
  | Some cb => if bool_decide (t ∈ ts) then countP (due cb) (window t1 t2) else 0
  | None => 0
  end.
Proof.
  assert (∀ n t' f a, countP (fired_by t) (replicate n (Timeout t' f a)) = if t' =? t then Z.of_nat n else 0) as Hrep.
  { induction n as [|n IH]; intros t' f a; [by destruct (t' =? t)|]. rewrite replicate_S, countP_cons, IH. cbn.
    destruct (t' =? t); lia. }
  induction ts as [|t' ts IH]; intros Hnd; [by destruct (m !! t)|].
  apply NoDup_cons in Hnd as [Ht' Hnd]. rewrite fmap_cons. cbn [concat]. rewrite countP_app, IH by done.
  unfold fired at 1. destruct (decide (t' = t)) as [->|Hne].
  - rewrite (bool_decide_eq_false_2 (t ∈ ts)), (bool_decide_eq_true_2 (t ∈ t :: ts)) by (done || left).
    destruct (m !! t) as [cb|]; [|done]. rewrite Hrep, Z.eqb_refl. unfold shots, countP. lia.
  - assert (bool_decide (t ∈ t' :: ts) = bool_decide (t ∈ ts)) as ->.
    { apply bool_decide_ext. rewrite elem_of_cons. naive_solver. }
    assert (countP (fired_by t) match m !! t' with
            | Some cb => replicate (shots cb t1 t2) (Timeout t' (timeout cb) (arg cb)) | None => [] end = 0) as ->; [|lia].
    destruct (m !! t') as [cb|]; [|done]. rewrite Hrep. by rewrite (proj2 (Z.eqb_neq t' t)).
Qed.

Lemma window_app t1 t2 t3 : t1 ≤ t2 ≤ t3 → window t1 t3 = window t1 t2 ++ window t2 t3.
Proof.
  intros H. unfold window. replace (t3 - t1) with ((t2 - t1) + (t3 - t2)) by lia. rewrite seqZ_app by lia.
  do 2 f_equal. lia.
Qed.

Lemma last_cons_any (now : Z) nows : ∀ d, List.last (now :: nows) d = List.last nows now.
Proof.
  revert now. induction nows as [|n nows IH]; intros now d; [done|].
  change (List.last (n :: nows) d = List.last (n :: nows) now). by rewrite !IH.
Qed.

Lemma in_step_last last nows : in_step last nows → last ≤ List.last nows last.
Proof.
  revert last. induction nows as [|now nows IH]; intros last; [cbn; lia|]. intros [H Hin].
  rewrite last_cons_any. specialize (IH now Hin). lia.
Qed.

(** One call, when nothing is queued and every timer repeats. *)
Lemma quiet_trigger last sb now : wf sb → abs_tsklets sb = [] → (∀ f a, callback f a = []) → repeating sb →
  0 ≤ now - last ≤ 60 →
  ∃ sb', abstm_trigger timezone callback last sb PT.TICKS_PER_SECOND now = Returned (now, sb') ∧ wf sb' ∧ abs_tsklets sb' = [] ∧
    activate_timers sb' = activate_timers sb ∧
    (∀ t, timers sb' !! t = timers sb !! t) ∧
    events sb' = events sb ++ concat (fired (timers sb) last now <$> activate_timers sb).
Proof.
  intros Hwf Hq Hquiet Hrep Hgap.
  assert (out_of_step last now = false) as Hin.
  { unfold out_of_step. rewrite s32_small by lia. rewrite (proj2 (Z.ltb_ge _ _)), (proj2 (Z.ltb_ge _ 0)) by lia. done. }
  assert (invokeall (abs_tsklets sb) (set_tsklets sb []) = Returned sb) as Hinv.
  { rewrite Hq. cbn. unfold set_tsklets. rewrite <- Hq. by destruct sb. }
  rewrite (abstm_trigger_unfold _ _ _ _ _ ltac:(done) Hinv) by congruence.
  assert (start_of last now = last) as Hst by (unfold start_of; by rewrite Hin).
  destruct (trigger_result last sb now Hwf) as (sb2 & Ht & Hwf2 & He & Hts & Ha & Hm).
  { intros t cb Hin' Hcb Haf. destruct (Hrep t cb Hin' Hcb). congruence. }
  rewrite Ht. cbn [obind]. rewrite Hst in He, Hts, Ha, Hm. exists sb2.
  assert (∀ t, t ∈ activate_timers sb → over (timers sb) last now t = false ∧
                                        freed (timers sb) last now t = false) as Hno.
  { intros t Hin'. unfold over, freed. destruct (timers sb !! t) as [cb|] eqn:Hcb; [|done].
    destruct (Hrep t cb Hin' Hcb) as [-> ->]. by rewrite !andb_false_r. }
  split; [done|]. split; [by destruct Hwf2|]. split_and!; [| | |done].
  - rewrite Hts, Hq. generalize (activate_timers sb) as ts. induction ts as [|t ts IH]; [done|].
    rewrite fmap_cons. cbn [concat]. cbn [app] in IH |- *. rewrite IH, app_nil_r. unfold queued.
    destruct (timers sb !! t) as [cb|]; [|done]. rewrite Hquiet. generalize (shots cb last now) as n.
    by induction n.
  - rewrite Ha. apply filter_idle. intros t Hin'. by rewrite (proj1 (Hno t Hin')).
  - intros t. rewrite Hm. case_bool_decide as Hin'; [|done]. by rewrite (proj2 (Hno t Hin')).
Qed.

(** While the hook is called at most a minute apart and every timer
    repeats, no second is lost and none is served twice: after any number of
    calls a timer has fired exactly once for each second since the first
    window that matches its pattern. *)
Theorem run_hook_counts nows : ∀ last sb, wf sb → abs_tsklets sb = [] → (∀ f a, callback f a = []) → repeating sb →
  in_step last nows →
  ∃ sb', run_hook timezone callback last sb nows = Returned (List.last nows last, sb') ∧ activate_timers sb' = activate_timers sb ∧
    ∀ t cb, t ∈ activate_timers sb → timers sb !! t = Some cb →
      timers sb' !! t = Some cb ∧
      countP (fired_by t) (events sb') =
      countP (fired_by t) (events sb) + countP (due cb) (window last (List.last nows last)).
Proof.
  induction nows as [|now nows IH]; intros last sb Hwf Hq Hquiet Hrep Hin.
  { exists sb. split_and!; [done..|]. intros t cb _ Hcb. split; [done|]. cbn [List.last]. unfold window.
    rewrite seqZ_nil by lia. rewrite countP_nil. lia. }
  destruct Hin as [Hgap Hin]. cbn [run_hook].
  destruct (quiet_trigger last sb now Hwf Hq Hquiet Hrep Hgap) as (sb1 & -> & Hwf1 & Hq1 & Ha1 & Hm1 & He1).
  cbn [obind]. destruct (IH now sb1) as (sb' & -> & Ha & Hall).
  - done.
  - done.
  - done.
  - intros t cb. rewrite Ha1, Hm1. apply Hrep.
  - done.
  - exists sb'. split; [by rewrite last_cons_any|]. split; [congruence|]. intros t cb Hact Hcb.
    destruct (Hall t cb) as [Hcb' ->]; [by rewrite Ha1|by rewrite Hm1|]. split; [done|].
    rewrite He1, countP_app, countP_fired, Hcb, bool_decide_eq_true_2 by (done || apply Hwf).
    rewrite last_cons_any, (window_app last now (List.last nows now)); [rewrite countP_app; lia|].
    pose proof (in_step_last now nows Hin). lia.
Qed.

(** [last_tv] belongs to no block.  A call of the hook in the second of the last one, for
    the same block or another, runs the queued calls, but finds the seconds
    served: no timer fires. *)
Theorem shared_last_skips sb esc now sb1 : PT.TICKS_PER_SECOND ≤ esc →
  invokeall (abs_tsklets sb) (set_tsklets sb []) = Returned sb1 → abstm_trigger timezone callback now sb esc now = Returned (now, sb1).
Proof.
  intros Hesc Hinv. assert (out_of_step now now = false) as Ho by (unfold out_of_step; by rewrite Z.sub_diag).
  rewrite (abstm_trigger_unfold _ _ _ _ _ Hesc Hinv) by congruence. unfold start_of. rewrite Ho.
  assert (∀ ts, trigger_all timezone callback ts now now sb1 = Returned sb1) as ->; [|done].
  induction ts as [|t ts IH]; [done|]. cbn [trigger_all]. unfold trigger_a_timer at 1, window at 1. rewrite seqZ_nil by lia. cbn [trigger_loop obind]. done.
Qed.

End laws.

(** ** Runs *)

Definition every_minute : tm := TM.mkTm 0 (-1) (-1) (-1) (-1) (-1) (-1) (-1).
Definition noon : tm := TM.mkTm 0 0 12 (-1) (-1) (-1) (-1) (-1).
Definition quiet (_ _ : Z) : list tsklet := [].

(** A timer created and started through the clients' calls. *)
Definition started (flg : Z) (time : tm) : sync_block_t :=
  let sb := snd (petimer_create_abstimer init_abstm (Some 1000) 7 flg) in
  snd (petimer_start_abstimer true true sb 1000 time 42).

(** The call at noon fires the timer, and frees it. *)
Example noon_fires :
  (let! (_, sb) := run_hook 0 quiet 43198 (started PT.PETF_AUTO_FREE noon) [43199; 43200] in
   Returned (events sb, activate_timers sb)) = Returned ([Timeout 1000 7 42], []).
Proof. by vm_compute. Qed.

(** The same timer, when one second is skipped. *)
Example noon_late :
  run_hook 0 quiet 43198 (started PT.PETF_AUTO_FREE noon) [43199; 43201] = Undefined.
Proof. by vm_compute. Qed.

(** A single-shot timer fires for every matching second of one window. *)
Example one_shoot_thrice :
  (let! (_, sb) := run_hook 0 quiet 43198 (started PT.PETF_ONE_SHOOT (TM.mkTm (-1) 0 12 (-1) (-1) (-1) (-1) (-1)))
                       [43199; 43202; 43203] in
   Returned (events sb)) = Returned [Timeout 1000 7 42; Timeout 1000 7 42; Timeout 1000 7 42].
Proof. by vm_compute. Qed.

(** A state with the timer active. *)
Definition active (flg : Z) (time : tm) : sync_block_t :=
  mkSync [] [1000] {[ 1000 := mkAbs 7 flg (Some time) 42 ]} [].

Lemma wf_active flg time : wf (active flg time).
Proof.
  split; [apply NoDup_singleton|]. intros t ->%list_elem_of_singleton. do 2 eexists. split; [apply lookup_singleton_eq|done].
Qed.

Lemma abstm_trigger_fires_witness :
  ∃ sb', abstm_trigger 0 quiet 43199 (active PT.PETF_AUTO_FREE noon) 100 43200 = Returned (43200, sb') ∧
         events sb' = [Timeout 1000 7 42] ∧ timers sb' !! 1000 = None.
Proof.
  destruct (abstm_trigger_fires 0 quiet 43199 (active PT.PETF_AUTO_FREE noon) 100 43200
    (active PT.PETF_AUTO_FREE noon) (wf_active _ _)) as (sb' & H & _ & He & _ & _ & Hm).
  - by vm_compute.
  - reflexivity.
  - by vm_compute.
  - intros t cb ->%list_elem_of_singleton. intros [= <-]. by vm_compute.
  - exists sb'. split; [exact H|]. split; [rewrite He|rewrite Hm]; vm_compute; reflexivity.
Defined.

Lemma auto_free_used_after_free_witness :
  trigger_a_timer 0 quiet (active PT.PETF_AUTO_FREE noon) 1000 43199 43201 = Undefined.
Proof.
  apply (auto_free_used_after_free 0 quiet (active PT.PETF_AUTO_FREE noon) 1000
    (mkAbs 7 PT.PETF_AUTO_FREE (Some noon) 42) noon 43199 43201 43200).
  - reflexivity.
  - reflexivity.
  - reflexivity.
  - apply elem_of_seqZ. lia.
  - by vm_compute.
Defined.

Lemma run_hook_counts_witness :
  ∃ sb', run_hook 0 quiet 59 (active 0 every_minute) [75; 119; 121; 180] = Returned (180, sb') ∧
         countP (fired_by 1000) (events sb') = 3.
Proof.
  destruct (run_hook_counts 0 quiet [75; 119; 121; 180] 59 (active 0 every_minute) (wf_active _ _))
    as (sb' & H & _ & Hc).
  - reflexivity.
  - reflexivity.
  - intros t cb ->%list_elem_of_singleton. intros [= <-]. by vm_compute.
  - cbn. lia.
  - exists sb'. split; [exact H|]. destruct (Hc 1000 (mkAbs 7 0 (Some every_minute) 42)) as [_ ->].
    + by left.
    + reflexivity.
    + vm_compute. reflexivity.
Defined.

(** Two blocks with the same timer, at noon: only the block whose hook comes first fires it. *)
Example second_block_silent :
  (let! (last, sb1) := run_hook 0 quiet 43199 (active 0 noon) [43200] in
   let! (_, sb2) := run_hook 0 quiet last (active 0 noon) [43200; 43201] in
   Returned (events sb1, events sb2)) = Returned ([Timeout 1000 7 42], []).
Proof. by vm_compute. Qed.

Lemma shared_last_skips_witness : abstm_trigger 0 quiet 43200 (active 0 noon) 100 43200 = Returned (43200, active 0 noon).
Proof. by apply (shared_last_skips 0 quiet (active 0 noon) 100 43200 (active 0 noon)). Defined.

End AT.
