(* ===== verification/LogFilter.v ===== *)
(** The filters of log lines in [logprint.c]: rules such as [AT:d] or [*:i],
    separated by blanks or commas, and the decision whether a line is printed.
    A C string is the list of its characters without the end. *)

From S2P Require Import Prelude.

Module LF.


(** [android_LogPriority]. *)
Definition ANDROID_LOG_UNKNOWN : Z := 0.
Definition ANDROID_LOG_DEFAULT : Z := 1.
Definition ANDROID_LOG_VERBOSE : Z := 2.
Definition ANDROID_LOG_DEBUG : Z := 3.
Definition ANDROID_LOG_INFO : Z := 4.
Definition ANDROID_LOG_WARN : Z := 5.
Definition ANDROID_LOG_ERROR : Z := 6.
Definition ANDROID_LOG_FATAL : Z := 7.
Definition ANDROID_LOG_SILENT : Z := 8.

Inductive AndroidLogPrintFormat :=
  | FORMAT_OFF | FORMAT_BRIEF | FORMAT_PROCESS | FORMAT_TAG | FORMAT_THREAD
  | FORMAT_RAW | FORMAT_TIME | FORMAT_THREADTIME | FORMAT_LONG.

Record FilterInfo := mkFilter { mTag : cstring; mPri : Z }.
Record AndroidLogFormat := mkFormat { global_pri : Z; filters : list FilterInfo; format : AndroidLogPrintFormat }.

Definition tolower (c : Z) : Z := if (chr "A" <=? c) && (c <=? chr "Z") then c + 32 else c.

Definition filterCharToPri (c0 : Z) : Z :=
  let c := tolower c0 in
  if (chr "0" <=? c) && (c <=? chr "9") then
    if chr "0" + ANDROID_LOG_SILENT <=? c then ANDROID_LOG_VERBOSE else c - chr "0"
  else if c =? chr "v" then ANDROID_LOG_VERBOSE
  else if c =? chr "d" then ANDROID_LOG_DEBUG
  else if c =? chr "i" then ANDROID_LOG_INFO
  else if c =? chr "w" then ANDROID_LOG_WARN
  else if c =? chr "e" then ANDROID_LOG_ERROR
  else if c =? chr "f" then ANDROID_LOG_FATAL
  else if c =? chr "s" then ANDROID_LOG_SILENT
  else if c =? chr "*" then ANDROID_LOG_DEFAULT
  else ANDROID_LOG_UNKNOWN.

Definition filterPriToChar (pri : Z) : Z :=
  if pri =? ANDROID_LOG_VERBOSE then chr "V"
  else if pri =? ANDROID_LOG_DEBUG then chr "D"
  else if pri =? ANDROID_LOG_INFO then chr "I"
  else if pri =? ANDROID_LOG_WARN then chr "W"
  else if pri =? ANDROID_LOG_ERROR then chr "E"
  else if pri =? ANDROID_LOG_FATAL then chr "F"
  else if pri =? ANDROID_LOG_SILENT then chr "S"
  else chr "?".

Definition strcmp_eq (a b : cstring) : bool := bool_decide (a = b).
Definition strncmp_eq (a b : cstring) (n : nat) : bool := bool_decide (take n a = take n b).

(** The length of the longest prefix without a character of a set. *)
Fixpoint strcspn (stop : Z → bool) (s : cstring) : nat :=
  match s with [] => 0%nat | c :: s' => if stop c then 0%nat else S (strcspn stop s') end.

Fixpoint pri_in (fs : list FilterInfo) (global : Z) (tag : cstring) : Z :=
  match fs with
  | [] => global
  | f :: fs' =>
    if strcmp_eq tag (mTag f) then (if mPri f =? ANDROID_LOG_DEFAULT then global else mPri f)
    else pri_in fs' global tag
  end.
Definition filterPriForTag (f : AndroidLogFormat) (tag : cstring) : Z := pri_in (filters f) (global_pri f) tag.

Definition android_log_shouldPrintLine (f : AndroidLogFormat) (tag : cstring) (pri : Z) : bool :=
  filterPriForTag f tag <=? pri.

Definition android_log_format_new : AndroidLogFormat := mkFormat ANDROID_LOG_ERROR [] FORMAT_BRIEF.

Definition android_log_setPrintFormat (f : AndroidLogFormat) (fmt : AndroidLogPrintFormat) : AndroidLogFormat :=
  mkFormat (global_pri f) (filters f) fmt.

Definition android_log_formatFromString (s : cstring) : AndroidLogPrintFormat :=
  if strcmp_eq s (bytes "brief") then FORMAT_BRIEF
  else if strcmp_eq s (bytes "process") then FORMAT_PROCESS
  else if strcmp_eq s (bytes "tag") then FORMAT_TAG
  else if strcmp_eq s (bytes "thread") then FORMAT_THREAD
  else if strcmp_eq s (bytes "raw") then FORMAT_RAW
  else if strcmp_eq s (bytes "time") then FORMAT_TIME
  else if strcmp_eq s (bytes "threadtime") then FORMAT_THREADTIME
  else if strcmp_eq s (bytes "long") then FORMAT_LONG
  else FORMAT_OFF.

(** The end of a string reads as 0. *)
Definition char_at (s : cstring) (i : nat) : Z := nth i s 0.

Definition android_log_addFilterRule (f : AndroidLogFormat) (e : cstring) : Z * AndroidLogFormat :=
  let n := strcspn (λ c, c =? chr ":") e in
  if (n =? 0)%nat then (-1, f)
  else
    let coloned := char_at e n =? chr ":" in
    let pri := if coloned then filterCharToPri (char_at e (S n)) else ANDROID_LOG_DEFAULT in
    if coloned && (pri =? ANDROID_LOG_UNKNOWN) then (-1, f)
    else if strncmp_eq (bytes "*") e n then
      (0, mkFormat (if pri =? ANDROID_LOG_DEFAULT then ANDROID_LOG_DEBUG else pri) (filters f) (format f))
    else
      let pri' := if pri =? ANDROID_LOG_DEFAULT then ANDROID_LOG_VERBOSE else pri in
      (0, mkFormat (global_pri f) (mkFilter (take n e) pri' :: filters f) (format f)).

(** [strsep]: the token, and what is left behind the separator. *)
Definition strsep (stop : Z → bool) (s : cstring) : cstring * option cstring :=
  let n := strcspn stop s in
  (take n s, if (n <? length s)%nat then Some (drop (S n) s) else None).

Definition separator (c : Z) : bool := (c =? chr " ") || (c =? 9) || (c =? chr ",").

(** The loop ends when [p_cur] has become null. *)
Fixpoint filter_loop (fuel : nat) (cur : option cstring) (f : AndroidLogFormat) : Z * AndroidLogFormat :=
  match fuel, cur with
  | S fuel, Some s =>
    let '(tok, rest) := strsep separator s in
    if (length tok =? 0)%nat then filter_loop fuel rest f
    else let '(err, f') := android_log_addFilterRule f tok in
         if err <? 0 then (-1, f') else filter_loop fuel rest f'
  | _, _ => (0, f)
  end.

Definition android_log_addFilterString (f : AndroidLogFormat) (s : cstring) : Z * AndroidLogFormat :=
  filter_loop (S (length s)) (Some s) f.

(** ** Reference definitions *)

(** The pieces of a string between separators. *)
Fixpoint split (s : cstring) : list cstring :=
  match s with
  | [] => [[]]
  | c :: s' => if separator c then [] :: split s'
               else match split s' with t :: ts => (c :: t) :: ts | [] => [[c]] end
  end.
Definition nonempty (t : cstring) : bool := negb (length t =? 0)%nat.
Definition tokens (s : cstring) : list cstring := List.filter nonempty (split s).

(** A rule: a tag, or [*] for all others, and a priority. *)
Definition rule : Type := cstring * Z.
Definition star : cstring := bytes "*".

Definition rule_of (e : cstring) : option rule :=
  let n := strcspn (λ c, c =? chr ":") e in
  let coloned := char_at e n =? chr ":" in
  let pri := if coloned then filterCharToPri (char_at e (S n)) else ANDROID_LOG_DEFAULT in
  if (n =? 0)%nat || (coloned && (pri =? ANDROID_LOG_UNKNOWN)) then None
  else Some (take n e, if pri =? ANDROID_LOG_DEFAULT
                       then (if strcmp_eq (take n e) star then ANDROID_LOG_DEBUG else ANDROID_LOG_VERBOSE)
                       else pri).

Definition apply_rule (f : AndroidLogFormat) (r : rule) : AndroidLogFormat :=
  if strcmp_eq r.1 star then mkFormat r.2 (filters f) (format f)
  else mkFormat (global_pri f) (mkFilter r.1 r.2 :: filters f) (format f).

(** The rules of a list of tokens, up to the first that is not one. *)
Fixpoint apply_tokens (ts : list cstring) (f : AndroidLogFormat) : Z * AndroidLogFormat :=
  match ts with
  | [] => (0, f)
  | t :: ts => match rule_of t with Some r => apply_tokens ts (apply_rule f r) | None => (-1, f) end
  end.

(** The last rule for a tag decides, else the last rule for all, else errors
    are printed. *)
Definition last_rule (t : cstring) (rs : list rule) : option Z :=
  snd <$> last (List.filter (λ r, strcmp_eq t r.1) rs).
Definition threshold (rs : list rule) (tag : cstring) : Z :=
  match (if strcmp_eq tag star then None else last_rule tag rs) with
  | Some p => p
  | None => default ANDROID_LOG_ERROR (last_rule star rs)
  end.

(** ** Lemmas *)

Lemma strcspn_le stop s : (strcspn stop s ≤ length s)%nat.
Proof. induction s as [|c s IH]; cbn; [lia|]. destruct (stop c); lia. Qed.

Lemma take_star n e : (0 < n ≤ length e)%nat → strncmp_eq (bytes "*") e n = strcmp_eq (take n e) star.
Proof.
  intros Hn. unfold strncmp_eq, strcmp_eq, star. apply bool_decide_ext.
  destruct n as [|n]; [lia|]. split; [|intros ->; by destruct n].
  intros <-. by destruct n.
Qed.

Lemma addFilterRule_rule f e :
  android_log_addFilterRule f e = match rule_of e with Some r => (0, apply_rule f r) | None => (-1, f) end.
Proof.
  unfold android_log_addFilterRule, rule_of. pose proof (strcspn_le (λ c, c =? chr ":") e) as Hle.
  set (n := strcspn _ e) in *. destruct (Nat.eqb_spec n 0) as [|Hn]; [done|]. cbn [orb].
  destruct (_ && _); [done|]. rewrite take_star by lia. unfold apply_rule. cbn [fst snd].
  destruct (strcmp_eq (take n e) star); by destruct (_ =? ANDROID_LOG_DEFAULT).
Qed.

Lemma strsep_split s :
  split s = let '(t, rest) := strsep separator s in t :: match rest with Some s' => split s' | None => [] end.
Proof.
  unfold strsep. induction s as [|c s IH]; [done|]. cbn [split strcspn]. destruct (separator c); [done|].
  rewrite IH. cbn [take firstn length drop skipn]. change (S ?a <? S ?b)%nat with (a <? b)%nat. by destruct (_ <? _)%nat.
Qed.

Lemma filter_loop_tokens fuel : ∀ s f, (length s < fuel)%nat →
  filter_loop fuel (Some s) f = apply_tokens (tokens s) f.
Proof.
  induction fuel as [|fuel IH]; intros s f Hl; [lia|]. unfold tokens. rewrite strsep_split. cbn [filter_loop].
  unfold strsep at 1 2. cbv zeta. set (n := strcspn separator s).
  assert (∀ f, filter_loop fuel (if (n <? length s)%nat then Some (drop (S n) s) else None) f =
    apply_tokens (List.filter nonempty match (if (n <? length s)%nat then Some (drop (S n) s) else None) with
                                       | Some s' => split s' | None => [] end) f) as Hrest.
  { intros f0. destruct (Nat.ltb_spec n (length s)); [|by destruct fuel]. apply IH. rewrite length_drop. lia. }
  cbn [List.filter]. unfold nonempty at 1. destruct (length (take n s) =? 0)%nat; cbn [negb]; [apply Hrest|].
  cbn [apply_tokens]. rewrite addFilterRule_rule. destruct (rule_of (take n s)); [|done]. apply Hrest.
Qed.

Lemma addFilterString_tokens s f : android_log_addFilterString f s = apply_tokens (tokens s) f.
Proof. unfold android_log_addFilterString. by rewrite filter_loop_tokens by lia. Qed.

Lemma last_rule_snoc t rs r : last_rule t (rs ++ [r]) = if strcmp_eq t r.1 then Some r.2 else last_rule t rs.
Proof.
  unfold last_rule. rewrite List.filter_app. cbn [List.filter]. destruct (strcmp_eq t r.1).
  - by rewrite last_snoc.
  - by rewrite app_nil_r.
Qed.

Lemma strcmp_eq_sym a b : strcmp_eq a b = strcmp_eq b a.
Proof. apply bool_decide_ext. naive_solver. Qed.

Lemma global_rules g fmt rs :
  global_pri (foldl apply_rule (mkFormat g [] fmt) rs) = default g (last_rule star rs).
Proof.
  induction rs as [|r rs IH] using rev_ind; [done|]. rewrite foldl_app, last_rule_snoc. cbn [foldl]. unfold apply_rule at 1.
  rewrite (strcmp_eq_sym star). destruct (strcmp_eq r.1 star); [done|]. exact IH.
Qed.

Lemma pri_in_rules g fmt rs G tag : Forall (λ r, r.2 ≠ ANDROID_LOG_DEFAULT) rs →
  pri_in (filters (foldl apply_rule (mkFormat g [] fmt) rs)) G tag =
  default G (if strcmp_eq tag star then None else last_rule tag rs).
Proof.
  induction rs as [|r rs IH] using rev_ind; intros Hd; [by destruct (strcmp_eq tag star)|].
  apply Forall_app in Hd as [Hd [Hr _]%Forall_cons]. specialize (IH Hd). rewrite foldl_app, last_rule_snoc. cbn [foldl].
  unfold apply_rule at 1. destruct r as [t p]. cbn [fst snd] in *.
  destruct (strcmp_eq t star) eqn:Ht; cbn [filters pri_in mTag mPri]; rewrite ?IH; unfold strcmp_eq in *; bool_to_prop.
  - subst t. by case_bool_decide.
  - destruct (decide (tag = t)) as [->|Hne].
    + rewrite (bool_decide_eq_true_2 (t = t)), (bool_decide_eq_false_2 (t = star)), (proj2 (Z.eqb_neq p ANDROID_LOG_DEFAULT) Hr) by done. done.
    + by rewrite !(bool_decide_eq_false_2 (tag = t)).
Qed.

Lemma rule_of_pri e r : rule_of e = Some r → 2 ≤ r.2 ≤ 8.
Proof.
  assert (∀ c, filterCharToPri c = 0 ∨ filterCharToPri c = 1 ∨ 2 ≤ filterCharToPri c ≤ 8) as Hc.
  { intros c. unfold filterCharToPri. set (c' := tolower c). change (chr "0") with 48. change (chr "9") with 57.
    unfold ANDROID_LOG_SILENT, ANDROID_LOG_VERBOSE, ANDROID_LOG_DEBUG, ANDROID_LOG_INFO, ANDROID_LOG_WARN,
      ANDROID_LOG_ERROR, ANDROID_LOG_FATAL, ANDROID_LOG_DEFAULT, ANDROID_LOG_UNKNOWN.
    destruct (Z.leb_spec 48 c'), (Z.leb_spec c' 57), (Z.leb_spec (48 + 8) c'); cbn [andb];
      repeat case_goal_if; lia. }
  unfold rule_of. set (coloned := _ =? chr ":"). destruct (_ || _) eqn:Hbad; [done|]. intros [= <-]. cbn [snd].
  apply orb_false_iff in Hbad as [_ Hunk]. destruct coloned.
  - apply Z.eqb_neq in Hunk. destruct (Z.eqb_spec (filterCharToPri (char_at e (S (strcspn (λ c, c =? chr ":") e)))) ANDROID_LOG_DEFAULT) as [|Hd].
    + destruct (strcmp_eq _ _); unfold ANDROID_LOG_DEBUG, ANDROID_LOG_VERBOSE; lia.
    + destruct (Hc (char_at e (S (strcspn (λ c, c =? chr ":") e)))) as [?|[?|?]]; [done|done|done].
  - cbn. destruct (strcmp_eq _ _); unfold ANDROID_LOG_DEBUG, ANDROID_LOG_VERBOSE; lia.
Qed.

Lemma apply_tokens_all ts : ∀ f rs, mapM rule_of ts = Some rs → apply_tokens ts f = (0, foldl apply_rule f rs).
Proof.
  induction ts as [|t ts IH]; intros f rs; [by intros [= <-]|]. cbn [mapM apply_tokens].
  destruct (rule_of t) as [r|]; [|done]. cbn [mbind option_bind]. destruct (mapM rule_of ts) as [rs'|] eqn:Hts; [|done].
  cbn. intros [= <-]. exact (IH (apply_rule f r) rs' eq_refl).
Qed.

Lemma mapM_rule_pri ts rs : mapM rule_of ts = Some rs → Forall (λ r, 2 ≤ r.2 ≤ 8) rs.
Proof.
  intros H%mapM_Some. induction H; constructor; eauto using rule_of_pri.
Qed.

Lemma filterPriForTag_rules rs tag : Forall (λ r, 2 ≤ r.2 ≤ 8) rs →
  filterPriForTag (foldl apply_rule android_log_format_new rs) tag = threshold rs tag.
Proof.
  intros Hp. unfold filterPriForTag, android_log_format_new. rewrite pri_in_rules, global_rules; [done|].
  eapply Forall_impl; [exact Hp|]. cbn. unfold ANDROID_LOG_DEFAULT. lia.
Qed.

(** What is printed after a filter string has been accepted: the last rule
    for the tag decides, else the last rule for all tags, else lines from
    errors upwards are printed; a string is accepted when each of its tokens is
    a rule. *)
Theorem filter_string_threshold s rs tag pri : mapM rule_of (tokens s) = Some rs →
  ∃ f, android_log_addFilterString android_log_format_new s = (0, f) ∧
       android_log_shouldPrintLine f tag pri = (threshold rs tag <=? pri) ∧ 2 ≤ threshold rs tag ≤ 8.
Proof.
  intros Hts. pose proof (mapM_rule_pri _ _ Hts) as Hp. eexists. split.
  { rewrite addFilterString_tokens. by apply apply_tokens_all. }
  assert (∀ t p, last_rule t rs = Some p → 2 ≤ p ≤ 8) as Hin.
  { intros t p. unfold last_rule. rewrite fmap_Some. intros (r & Hr & ->).
    rewrite Forall_forall in Hp. apply Hp. apply last_Some_elem_of in Hr. by apply (filter_sub (λ r, strcmp_eq t r.1)). }
  assert (2 ≤ default ANDROID_LOG_ERROR (last_rule star rs) ≤ 8) as Hg.
  { destruct (last_rule star rs) eqn:E; cbn; [by eapply Hin|done]. }
  split.
  - unfold android_log_shouldPrintLine. by rewrite filterPriForTag_rules.
  - unfold threshold. destruct (if strcmp_eq tag star then _ else _) as [p|] eqn:E; [|done].
    destruct (strcmp_eq tag star); [done|]. by eapply Hin.
Qed.

Lemma apply_tokens_app ts ts' f rs : mapM rule_of ts = Some rs →
  apply_tokens (ts ++ ts') f = apply_tokens ts' (foldl apply_rule f rs).
Proof.
  revert f rs. induction ts as [|t ts IH]; intros f rs; [by intros [= <-]|]. cbn [mapM apply_tokens app].
  destruct (rule_of t) as [r|]; [|done]. cbn [mbind option_bind]. destruct (mapM rule_of ts) as [rs'|] eqn:Hts; [|done].
  cbn. intros [= <-]. exact (IH (apply_rule f r) rs' eq_refl).
Qed.

(** A string with a token that is no rule is refused, and the rules before
    that token stay in force. *)
Theorem filter_string_refused s f ts t ts' rs :
  tokens s = ts ++ t :: ts' → mapM rule_of ts = Some rs → rule_of t = None →
  android_log_addFilterString f s = (-1, foldl apply_rule f rs).
Proof.
  intros Hs Hts Ht. rewrite addFilterString_tokens, Hs, (apply_tokens_app _ _ _ _ Hts). cbn [apply_tokens]. by rewrite Ht.
Qed.

(** ** Writing filters *)

(** A rule as a user writes it, and several with blanks between them. *)
Definition write_rule (r : rule) : cstring := r.1 ++ [chr ":"; filterPriToChar r.2].
Fixpoint write_rules (rs : list rule) : cstring :=
  match rs with [] => [] | [r] => write_rule r | r :: rs' => write_rule r ++ chr " " :: write_rules rs' end.

Definition tag_ok (t : cstring) : Prop := t ≠ [] ∧ Forall (λ c, separator c = false ∧ c ≠ chr ":") t.
Definition rule_ok (r : rule) : Prop := tag_ok r.1 ∧ 2 ≤ r.2 ≤ 8.

Lemma pri_char p : 2 ≤ p ≤ 8 → filterCharToPri (filterPriToChar p) = p ∧ separator (filterPriToChar p) = false.
Proof.
  intros Hp. pose (P (k : Z) := (filterCharToPri (filterPriToChar (k + 2)) =? k + 2) && negb (separator (filterPriToChar (k + 2)))).
  assert (P (p - 2) = true) as HP by (apply (forall_below 7 P); [by vm_compute|lia]).
  unfold P in HP. replace (p - 2 + 2) with p in HP by lia. apply andb_true_iff in HP as [H1 H2].
  split; [by apply Z.eqb_eq|by apply negb_true_iff].
Qed.

Lemma strcspn_app stop t c s : Forall (λ x, stop x = false) t → stop c = true → strcspn stop (t ++ c :: s) = length t.
Proof. intros Ht Hc. induction Ht as [|x t Hx Ht IH]; cbn; [by rewrite Hc|]. by rewrite Hx, IH. Qed.

Lemma rule_of_write r : rule_ok r → rule_of (write_rule r) = Some r.
Proof.
  destruct r as [t p]. intros [[Hne Ht] Hp]. cbn [fst snd] in *. unfold rule_of, write_rule. cbn [fst snd].
  rewrite strcspn_app; [|eapply Forall_impl; [exact Ht|]; intros c [_ Hc]; by apply Z.eqb_neq|done].
  unfold char_at. rewrite !app_nth2 by lia. rewrite Nat.sub_diag. replace (S (length t) - length t)%nat with 1%nat by lia.
  cbn [nth]. rewrite Z.eqb_refl, (proj1 (pri_char p Hp)), take_app_length. cbn [andb].
  rewrite (proj2 (Z.eqb_neq p ANDROID_LOG_UNKNOWN)), (proj2 (Z.eqb_neq p ANDROID_LOG_DEFAULT))
    by (unfold ANDROID_LOG_UNKNOWN, ANDROID_LOG_DEFAULT; lia).
  by destruct t.
Qed.

Lemma split_word w : Forall (λ c, separator c = false) w → split w = [w].
Proof. induction 1 as [|c w Hc Hw IH]; [done|]. cbn [split]. by rewrite Hc, IH. Qed.

Lemma split_app w c s : Forall (λ c, separator c = false) w → separator c = true → split (w ++ c :: s) = w :: split s.
Proof. intros Hw Hc. induction Hw as [|x w Hx Hw IH]; cbn [app split]; [by rewrite Hc|]. by rewrite Hx, IH. Qed.

Lemma write_rule_word r : rule_ok r → Forall (λ c, separator c = false) (write_rule r).
Proof.
  intros [[_ Ht] Hp]. unfold write_rule. apply Forall_app. split; [eapply Forall_impl; [exact Ht|]; by intros c [? _]|].
  repeat constructor. by apply pri_char.
Qed.

Lemma tokens_write rs : Forall rule_ok rs → tokens (write_rules rs) = write_rule <$> rs.
Proof.
  induction 1 as [|r rs Hr Hrs IH]; [done|]. unfold tokens in *. rewrite fmap_cons.
  assert (nonempty (write_rule r) = true) as Hne by (destruct r as [[|c t] p]; [by destruct Hr as [[? _] _]|done]).
  destruct rs as [|r' rs].
  - cbn [write_rules]. rewrite split_word by (by apply write_rule_word). cbn [List.filter]. by rewrite Hne.
  - change (write_rules (r :: r' :: rs)) with (write_rule r ++ chr " " :: write_rules (r' :: rs)).
    rewrite split_app by (done || by apply write_rule_word). cbn [List.filter]. rewrite Hne. by f_equal.
Qed.

(** A filter string written from rules is read as these rules: every tag
    has the priority of its last rule. *)
Theorem filters_roundtrip rs tag pri : Forall rule_ok rs →
  ∃ f, android_log_addFilterString android_log_format_new (write_rules rs) = (0, f) ∧
       android_log_shouldPrintLine f tag pri = (threshold rs tag <=? pri).
Proof.
  intros Hrs.
  assert (mapM rule_of (tokens (write_rules rs)) = Some rs) as Hm.
  { rewrite tokens_write by done. apply mapM_Some. induction Hrs; constructor; [by apply rule_of_write|done]. }
  rewrite addFilterString_tokens, (apply_tokens_all _ _ _ Hm). eexists. split; [done|].
  unfold android_log_shouldPrintLine. rewrite filterPriForTag_rules; [done|]. by eapply mapM_rule_pri.
Qed.

(** A digit as a priority: 0 is refused though it is in the range the comment
    gives, and 8 and 9 are the lowest priority, not the highest. *)
Example digits :
  fst (android_log_addFilterRule android_log_format_new (bytes "AT:0")) = -1 ∧
  threshold [(bytes "AT", filterCharToPri (chr "8"))] (bytes "AT") = ANDROID_LOG_VERBOSE.
Proof. by vm_compute. Qed.

Lemma filter_string_threshold_witness :
  ∃ f, android_log_addFilterString android_log_format_new (bytes "AT:d,  *:s AT:w Net") = (0, f) ∧
       android_log_shouldPrintLine f (bytes "AT") ANDROID_LOG_INFO = false.
Proof.
  destruct (filter_string_threshold (bytes "AT:d,  *:s AT:w Net")
    [(bytes "AT", 3); (bytes "*", 8); (bytes "AT", 5); (bytes "Net", 2)] (bytes "AT") ANDROID_LOG_INFO) as (f & H & Hp & _).
  - by vm_compute.
  - exists f. split; [exact H|]. rewrite Hp. vm_compute. reflexivity.
Defined.

Lemma filter_string_refused_witness :
  android_log_addFilterString android_log_format_new (bytes "AT:d Net:x *:s") =
  (-1, mkFormat ANDROID_LOG_ERROR [mkFilter (bytes "AT") 3] FORMAT_BRIEF).
Proof.
  exact (filter_string_refused (bytes "AT:d Net:x *:s") android_log_format_new [bytes "AT:d"] (bytes "Net:x") [bytes "*:s"]
           [(bytes "AT", 3)] eq_refl eq_refl eq_refl).
Defined.

Lemma filters_roundtrip_witness :
  ∃ f, android_log_addFilterString android_log_format_new (write_rules [(bytes "AT", 4); (star, 8)]) = (0, f) ∧
       android_log_shouldPrintLine f (bytes "AT") 4 = true.
Proof.
  destruct (filters_roundtrip [(bytes "AT", 4); (star, 8)] (bytes "AT") 4) as (f & H & Hp).
  - repeat constructor; cbn; try done; try lia.
  - exists f. split; [exact H|]. rewrite Hp. vm_compute. reflexivity.
Defined.

End LF.
