(* ===== verification/LogEvent.v ===== *)
(** Entries of the log in [logprint.c]: taking a text entry apart, and turning
    a binary entry (integers, strings and nested lists) into text that fits a
    buffer. *)

From S2P Require Import Prelude LogFilter.

Module LE.


(** [struct logger_entry]: [msg] is the memory behind the header, of which
    [len] bytes are the payload. *)
Record logger_entry := mkLogger { len : Z; pid : Z; tid : Z; sec : Z; nsec : Z; msg : list Z }.

(** [AndroidLogEntry].  The message is memory, of which [messageLen] bytes
    count. *)
Record AndroidLogEntry := mkEntry {
  tv_sec : Z; tv_nsec : Z; priority : Z; e_pid : Z; e_tid : Z; tag : cstring; messageLen : Z; message : list Z
}.

(** ** Numbers as text *)

Fixpoint digits (fuel : nat) (n : Z) (acc : list Z) : list Z :=
  match fuel with
  | O => acc
  | S fuel => let acc := chr "0" + n mod 10 :: acc in if n <? 10 then acc else digits fuel (n / 10) acc
  end.

(** [%d]: twenty digits are enough for 64 bits. *)
Definition dec (n : Z) : list Z := if n <? 0 then chr "-" :: digits 20 (- n) [] else digits 20 n [].

(** ** Text entries *)

Definition strlen (m : list Z) : outcome nat :=
  let n := length (until_nul m) in if (n <? length m)%nat then Returned n else Undefined.

Definition android_log_processLogBuffer (buf : logger_entry) : outcome (Z * AndroidLogEntry) :=
  let! pri := oderef (head (msg buf)) in
  let tagm := drop 1 (msg buf) in
  let! tag_len := strlen tagm in
  Returned (0, mkEntry (sec buf) (nsec buf) pri (pid buf) (tid buf) (take tag_len tagm)
                       (u32 (len buf - Z.of_nat tag_len - 3)) (drop (S tag_len) tagm)).

(** ** Binary entries *)

Definition EVENT_TYPE_INT : Z := 0.
Definition EVENT_TYPE_LONG : Z := 1.
Definition EVENT_TYPE_STRING : Z := 2.
Definition EVENT_TYPE_LIST : Z := 3.

Definition get4LE (src : list Z) : Z := le (take 4 src).
Definition get8LE (src : list Z) : Z := le (take 8 src).
Definition s64 (x : Z) : Z := (x + 2 ^ 63) mod 2 ^ 64 - 2 ^ 63.

(** The four variables of a conversion: the data left, the text before
    [outBuf], and the room behind it. *)
Record conv := mkConv { data : list Z; out : list Z; room : Z }.

(** Text that must leave room for the end [snprintf] writes. *)
Definition put_number (st : conv) (rest txt : list Z) : Z * conv :=
  if Z.of_nat (length txt) <? room st
  then (0, mkConv rest (out st ++ txt) (room st - Z.of_nat (length txt)))
  else (1, mkConv rest (out st) (room st)).

Definition put_char (st : conv) (c : Z) : conv := mkConv (data st) (out st ++ [c]) (room st - 1).

Section items.
Context (event : conv → option (Z * conv)).

(** The items of a list, [n] to go. *)
Fixpoint list_items (n : nat) (st : conv) : option (Z * conv) :=
  match n with
  | O => Some (0, st)
  | S n' =>
    match event st with
    | None => None
    | Some (result, st1) =>
      if negb (result =? 0) then Some (result, st1)
      else match n' with
           | O => Some (0, st1)
           | S _ => if 0 <? room st1 then list_items n' (put_char st1 (chr ",")) else Some (1, st1)
           end
    end
  end.
End items.

(** Codes: 0 success, 1 buffer full, -1 failure.  A failure of the event itself
    leaves its caller's variables as they were. *)
Fixpoint printBinaryEvent (fuel : nat) (st : conv) : option (Z * conv) :=
  match fuel with
  | O => None
  | S fuel =>
    match data st with
    | [] => Some (-1, st)
    | type :: d =>
      if type =? EVENT_TYPE_INT then
        if (length d <? 4)%nat then Some (-1, st) else Some (put_number st (drop 4 d) (dec (s32 (get4LE d))))
      else if type =? EVENT_TYPE_LONG then
        if (length d <? 8)%nat then Some (-1, st) else Some (put_number st (drop 8 d) (dec (s64 (get8LE d))))
      else if type =? EVENT_TYPE_STRING then
        if (length d <? 4)%nat then Some (-1, st)
        else
          let strLen := get4LE d in
          let d := drop 4 d in
          if Z.of_nat (length d) <? strLen then Some (-1, st)
          else
            let n := Z.to_nat strLen in
            if strLen <? room st then
              Some (0, mkConv (drop n d) (out st ++ take n d) (room st - strLen))
            else if 0 <? room st then
              Some (1, mkConv d (out st ++ take (Z.to_nat (room st)) d) 0)
            else Some (0, mkConv (drop n d) (out st) (room st))
      else if type =? EVENT_TYPE_LIST then
        match d with
        | [] => Some (-1, st)
        | count :: d =>
          let st0 := mkConv d (out st) (room st) in
          if 0 <? room st then
            match list_items (printBinaryEvent fuel) (Z.to_nat count) (put_char st0 (chr "[")) with
            | None => None
            | Some (result, st1) =>
              if negb (result =? 0) then Some (result, st1)
              else if 0 <? room st1 then Some (0, put_char st1 (chr "]")) else Some (1, st1)
            end
          else Some (1, st0)
        end
      else Some (-1, st)
    end
  end.

(** The last character before [outBuf] becomes a mark. *)
Definition mark_last (l : list Z) : list Z := take (length l - 1) l ++ [chr "!"].

(** The end of a message of [cap] characters of room, and the check of the
    count. *)
Definition terminate (buf : logger_entry) (t : cstring) (cap : Z) (txt : list Z) (remaining : Z)
  : outcome (Z * option AndroidLogEntry) :=
  let n := Z.of_nat (length txt) in
  if cap <=? n then Undefined
  else oassert (n =? u32 (cap - 1 - remaining))
       (Returned (0, Some (mkEntry (sec buf) (nsec buf) LF.ANDROID_LOG_INFO (pid buf) (tid buf) t n (txt ++ [0])))).

(** What is done after the conversion. *)
Definition finish (buf : logger_entry) (t : cstring) (cap result : Z) (st : conv) : outcome (Z * option AndroidLogEntry) :=
  if cap <? Z.of_nat (length (out st)) then Undefined
  else if result <? 0 then Returned (-1, None)
  else if result =? 1 then
    match out st with
    | [] => terminate buf t cap [chr "!"] (u32 (room st - 1))
    | _ => terminate buf t cap (mark_last (out st)) (room st)
    end
  else terminate buf t cap (out st) (room st).

Section binary.
(** [android_lookupEventTag] of the map, if there is a map. *)
Context (lookup : option (Z → option cstring)).

(** The message is written behind the generated tag, if there is one.
    [cap] is the room really left in the buffer of the caller. *)
Definition android_log_processBinaryLogBuffer (buf : logger_entry) (messageBufLen : Z)
  : outcome (Z * option AndroidLogEntry) :=
  let payload := take (Z.to_nat (len buf)) (msg buf) in
  if (length payload <? Z.to_nat (len buf))%nat then Undefined
  else if len buf <? 4 then Returned (-1, None)
  else
    let tagIndex := get4LE payload in
    let found := match lookup with Some f => f (s32 tagIndex) | None => None end in
    let gen := [chr "["] ++ dec (s32 tagIndex) ++ [chr "]"] in
    let '(t, cap) := match found with
                     | Some t => (t, messageBufLen)
                     | None => (take (Z.to_nat (messageBufLen - 1)) gen, messageBufLen - (Z.of_nat (length gen) + 1))
                     end in
    match printBinaryEvent (S (length payload)) (mkConv (drop 4 payload) [] (u32 (cap - 1))) with
    | None => Undefined
    | Some (result, st) => finish buf t cap result st
    end.
End binary.

(** ** Bounds *)

Definition total (st : conv) : Z := Z.of_nat (length (out st)) + room st.

(** One conversion leaves the sum of text and room alone, only adds text, only
    consumes data. *)
Record step_ok (st st' : conv) : Prop := {
  so_total : total st' = total st;
  so_room : 0 ≤ room st → 0 ≤ room st';
  so_out : out st `prefix_of` out st';
  so_data : data st' `suffix_of` data st
}.

Lemma step_ok_refl st : step_ok st st.
Proof. by constructor. Qed.
Lemma step_ok_trans st1 st2 st3 : step_ok st1 st2 → step_ok st2 st3 → step_ok st1 st3.
Proof. intros [H1 H2 H3 H4] [H5 H6 H7 H8]. constructor; [congruence|auto|by etrans|by etrans]. Qed.

Lemma suffix_drop {A} n (l : list A) : drop n l `suffix_of` l.
Proof. exists (take n l). by rewrite take_drop. Qed.

Lemma step_ok_char st c : 0 < room st → step_ok st (put_char st c).
Proof.
  intros H. constructor; cbn; [|lia| |done].
  - unfold total. cbn. rewrite length_app. cbn. lia.
  - by exists [c].
Qed.

Lemma step_ok_number st rest txt : rest `suffix_of` data st → step_ok st (snd (put_number st rest txt)).
Proof.
  intros H. unfold put_number. destruct (Z.ltb_spec (Z.of_nat (length txt)) (room st)); constructor; cbn; try done; try lia.
  - unfold total. cbn. rewrite length_app. lia.
  - by exists txt.
Qed.

Lemma step_ok_copy st rest l n : n = room st - Z.of_nat (length l) → Z.of_nat (length l) ≤ room st →
  rest `suffix_of` data st → step_ok st (mkConv rest (out st ++ l) n).
Proof.
  intros -> Hl H. constructor; cbn; [|lia|by exists l|done]. unfold total. cbn. rewrite length_app. lia.
Qed.

Lemma le_nonneg l : Forall (λ b, 0 ≤ b) l → 0 ≤ le l.
Proof. induction 1; cbn [le]; lia. Qed.

Definition is_bytes (l : list Z) : Prop := Forall (λ b, 0 ≤ b < 256) l.

Lemma is_bytes_suffix l k : k `suffix_of` l → is_bytes l → is_bytes k.
Proof. intros [j ->] H. by apply Forall_app in H as [_ ?]. Qed.

Lemma get4LE_nonneg l : is_bytes l → 0 ≤ get4LE l.
Proof. intros H. apply le_nonneg, Forall_take. eapply Forall_impl; [exact H|]. cbn. lia. Qed.

Section items_laws.
Context (event : conv → option (Z * conv)) (L : nat).
Context (event_step : ∀ st r st', is_bytes (data st) → event st = Some (r, st') → step_ok st st' ∧ -1 ≤ r ≤ 1).

Lemma list_items_step n : ∀ st r st', is_bytes (data st) → list_items event n st = Some (r, st') → step_ok st st' ∧ -1 ≤ r ≤ 1.
Proof.
  induction n as [|n IH]; intros st r st' Hb; cbn [list_items]; [intros [= <- <-]; split; [apply step_ok_refl|lia]|].
  destruct (event st) as [[r1 st1]|] eqn:He; [|done]. destruct (event_step _ _ _ Hb He) as [Hs Hr].
  destruct (Z.eqb_spec r1 0); cbn [negb]; [|by intros [= <- <-]].
  destruct n as [|n]; [intros [= <- <-]; split; [done|lia]|].
  destruct (Z.ltb_spec 0 (room st1)); [|intros [= <- <-]; split; [done|lia]].
  intros Hrest. destruct (IH (put_char st1 (chr ",")) _ _ (is_bytes_suffix _ _ (so_data _ _ Hs) Hb) Hrest) as [Hs' Hr']. split; [|done].
  eapply step_ok_trans, step_ok_trans; [done| |done]. by apply step_ok_char.
Qed.

Context (event_some : ∀ st, (length (data st) < L)%nat → is_bytes (data st) → is_Some (event st)).

Lemma list_items_some n : ∀ st, (length (data st) < L)%nat → is_bytes (data st) → is_Some (list_items event n st).
Proof.
  induction n as [|n IH]; intros st HL Hb; cbn [list_items]; [done|].
  destruct (event_some st HL Hb) as [[r1 st1] He]. rewrite He.
  destruct (negb (r1 =? 0)); [done|]. destruct n as [|n]; [done|].
  destruct (0 <? room st1); [|done]. destruct (event_step _ _ _ Hb He) as [[_ _ _ Hd] _]. apply IH.
  - cbn. apply suffix_length in Hd. lia.
  - cbn. by eapply is_bytes_suffix.
Qed.
End items_laws.

Lemma event_step fuel : ∀ st r st', is_bytes (data st) → printBinaryEvent fuel st = Some (r, st') → step_ok st st' ∧ -1 ≤ r ≤ 1.
Proof.
  induction fuel as [|fuel IH]; intros st r st' Hb; cbn [printBinaryEvent]; [done|].
  destruct (data st) as [|type d] eqn:Hd; [intros [= <- <-]; split; [apply step_ok_refl|lia]|].
  assert (∀ n, drop n d `suffix_of` data st) as Hdrop.
  { intros n. rewrite Hd. etrans; [apply suffix_drop|]. by exists [type]. }
  assert (∀ n txt, put_number st (drop n d) txt = (r, st') → step_ok st st' ∧ -1 ≤ r ≤ 1) as Hnum.
  { intros n txt Heq. split.
    - replace st' with (snd (put_number st (drop n d) txt)) by (by rewrite Heq). by apply step_ok_number.
    - unfold put_number in Heq. destruct (_ <? _); injection Heq as <- _; lia. }
  assert (Some (-1, st) = Some (r, st') → step_ok st st' ∧ -1 ≤ r ≤ 1) as Hfail.
  { intros [= <- <-]. split; [apply step_ok_refl|lia]. }
  apply Forall_cons in Hb as [_ Hb].
  destruct (type =? EVENT_TYPE_INT); [destruct (length d <? 4)%nat; [done|intros [= ?]; eauto]|].
  destruct (type =? EVENT_TYPE_LONG); [destruct (length d <? 8)%nat; [done|intros [= ?]; eauto]|].
  destruct (type =? EVENT_TYPE_STRING).
  { destruct (length d <? 4)%nat; [done|]. pose proof (get4LE_nonneg d Hb).
    destruct (Z.ltb_spec (Z.of_nat (length (drop 4 d))) (get4LE d)); [done|].
    destruct (Z.ltb_spec (get4LE d) (room st)); [|destruct (Z.ltb_spec 0 (room st))]; intros [= <- <-]; (split; [|lia]).
    - apply step_ok_copy; [rewrite length_take; lia..|]. rewrite drop_drop. apply Hdrop.
    - apply step_ok_copy; [rewrite length_take; lia..|]. apply Hdrop.
    - constructor; cbn; try done. rewrite drop_drop. apply Hdrop. }
  destruct (type =? EVENT_TYPE_LIST); [|done]. destruct d as [|count d]; [done|].
  set (st0 := mkConv d (out st) (room st)). apply Forall_cons in Hb as [_ Hb].
  assert (step_ok st st0) as H0 by (constructor; cbn; try done; apply (Hdrop 1%nat)).
  destruct (Z.ltb_spec 0 (room st)); [|intros [= <- <-]; split; [done|lia]].
  destruct (list_items _ _ _) as [[r1 st1]|] eqn:Hl; [|done].
  apply list_items_step in Hl as [Hs1 Hr1]; [|exact IH|done].
  assert (step_ok st st1) as H1 by (eapply step_ok_trans, step_ok_trans; [done|by apply (step_ok_char st0)|done]).
  destruct (Z.eqb_spec r1 0); cbn [negb]; [|by intros [= <- <-]].
  destruct (Z.ltb_spec 0 (room st1)); intros [= <- <-]; (split; [|lia]); [|done].
  eapply step_ok_trans; [done|]. by apply step_ok_char.
Qed.

Lemma event_some fuel : ∀ st, (length (data st) < fuel)%nat → is_bytes (data st) → is_Some (printBinaryEvent fuel st).
Proof.
  induction fuel as [|fuel IH]; intros st Hl Hb; [lia|]. cbn [printBinaryEvent].
  destruct (data st) as [|type d] eqn:Hd; [done|].
  do 3 (case_goal_if; [repeat case_goal_if; done|]). case_goal_if; [|done].
  destruct d as [|count d]; [done|]. case_goal_if; [|done]. cbn [length] in Hl.
  assert (is_bytes d) as Hbd by (by apply Forall_cons in Hb as [_ [_ Hb]%Forall_cons]).
  destruct (list_items_some (printBinaryEvent fuel) fuel (event_step fuel) IH (Z.to_nat count)
    (put_char (mkConv d (out st) (room st)) (chr "["))) as [[r1 st1] ->]; [cbn; lia|done|].
  repeat case_goal_if; done.
Qed.

(** The conversion of any bytes ends, writes only inside the room it was
    given, keeps count of the room, and never takes back or skips what it has
    not read. *)
Theorem printBinaryEvent_bounds st : is_bytes (data st) → 0 ≤ room st →
  ∃ r st', printBinaryEvent (S (length (data st))) st = Some (r, st') ∧ -1 ≤ r ≤ 1 ∧
    Z.of_nat (length (out st')) + room st' = Z.of_nat (length (out st)) + room st ∧ 0 ≤ room st' ∧
    out st `prefix_of` out st' ∧ data st' `suffix_of` data st.
Proof.
  intros Hb Hr. destruct (event_some (S (length (data st))) st ltac:(lia) Hb) as [[r st'] He].
  destruct (event_step _ _ _ _ Hb He) as [[Ht Hr' Ho Hd] Hcode]. unfold total in Ht. exists r, st'. auto 10.
Qed.

(** ** What events say *)

#[warnings="-register-all"]
Inductive event := EInt (z : Z) | ELong (z : Z) | EString (s : list Z) | EList (es : list event).

(** The bytes of an event in the log. *)
Fixpoint encode (e : event) : list Z :=
  match e with
  | EInt z => EVENT_TYPE_INT :: le_bytes 4 z
  | ELong z => EVENT_TYPE_LONG :: le_bytes 8 z
  | EString s => EVENT_TYPE_STRING :: le_bytes 4 (Z.of_nat (length s)) ++ s
  | EList es => EVENT_TYPE_LIST :: Z.of_nat (length es) :: List.concat (List.map encode es)
  end.

Fixpoint commas (l : list (list Z)) : list Z :=
  match l with [] => [] | [x] => x | x :: l' => x ++ chr "," :: commas l' end.

(** Its text: items between brackets and commas. *)
Fixpoint show (e : event) : list Z :=
  match e with
  | EInt z | ELong z => dec z
  | EString s => s
  | EList es => chr "[" :: commas (List.map show es) ++ [chr "]"]
  end.

Fixpoint depth (e : event) : nat :=
  match e with EList es => S (list_max (List.map depth es)) | _ => 1 end.

Fixpoint event_ok (e : event) : bool :=
  match e with
  | EInt z => (- 2 ^ 31 <=? z) && (z <? 2 ^ 31)
  | ELong z => (- 2 ^ 63 <=? z) && (z <? 2 ^ 63)
  | EString s => Z.of_nat (length s) <? 2 ^ 32
  | EList es => (Z.of_nat (length es) <? 256) && forallb event_ok es
  end.

Lemma get4LE_le_bytes z k : get4LE (le_bytes 4 z ++ k) = z mod 2 ^ 32.
Proof. unfold get4LE. rewrite take_app_le, take_ge by (rewrite le_bytes_length; lia). apply (le_le_bytes 4). Qed.

Lemma get8LE_le_bytes z k : get8LE (le_bytes 8 z ++ k) = z mod 2 ^ 64.
Proof. unfold get8LE. rewrite take_app_le, take_ge by (rewrite le_bytes_length; lia). apply (le_le_bytes 8). Qed.

Lemma s32_mod z : -2 ^ 31 ≤ z < 2 ^ 31 → s32 (z mod 2 ^ 32) = z.
Proof. intros H. unfold s32. rewrite Zplus_mod_idemp_l. fold (s32 z). by apply s32_small. Qed.

Lemma s64_mod z : -2 ^ 63 ≤ z < 2 ^ 63 → s64 (z mod 2 ^ 64) = z.
Proof. intros H. unfold s64. rewrite Zplus_mod_idemp_l, Z.mod_small; lia. Qed.

Lemma put_number_room st rest txt : Z.of_nat (length txt) < room st →
  put_number st rest txt = (0, mkConv rest (out st ++ txt) (room st - Z.of_nat (length txt))).
Proof. intros H. unfold put_number. by rewrite (proj2 (Z.ltb_lt _ _)). Qed.

(** The conversion of an event found at the start of the data, with room for
    its text and one more. *)
Definition reads (ev : conv → option (Z * conv)) (e : event) : Prop := ∀ st rest,
  data st = encode e ++ rest → Z.of_nat (length (show e)) < room st →
  ev st = Some (0, mkConv rest (out st ++ show e) (room st - Z.of_nat (length (show e)))).

Lemma items_read ev es : Forall (reads ev) es → ∀ st rest,
  data st = List.concat (List.map encode es) ++ rest → Z.of_nat (length (commas (List.map show es))) < room st →
  list_items ev (length es) st =
  Some (0, mkConv rest (out st ++ commas (List.map show es)) (room st - Z.of_nat (length (commas (List.map show es))))).
Proof.
  induction 1 as [|e es He Hes IH]; intros st rest Hd Hr; cbn [length list_items].
  { cbn in Hd |- *. rewrite app_nil_r, Z.sub_0_r, <- Hd. by destruct st. }
  cbn [List.map List.concat] in Hd. rewrite <- app_assoc in Hd. destruct es as [|e' es].
  - cbn [List.map commas List.concat app] in Hr, Hd |- *. by rewrite (He _ _ Hd Hr).
  - set (es1 := e' :: es) in *. assert (commas (List.map show (e :: es1)) = show e ++ chr "," :: commas (List.map show es1)) as Hc by done.
    rewrite Hc in Hr |- *. rewrite length_app in Hr. cbn [length] in Hr. rewrite (He _ _ Hd) by lia. cbn [negb Z.eqb].
    change (length es1) with (S (length es)). cbv iota. cbn [room].
    rewrite (proj2 (Z.ltb_lt _ _)) by lia. rewrite (IH _ rest) by (cbn [put_char data room]; done || lia).
    cbn [put_char out room]. rewrite <- !app_assoc, length_app. cbn [app length]. do 3 f_equal. lia.
Qed.

Lemma event_reads fuel : ∀ e, (depth e ≤ fuel)%nat → event_ok e = true → reads (printBinaryEvent fuel) e.
Proof.
  induction fuel as [|fuel IH]; intros e Hdep Hok st rest Hd Hr; [by destruct e; cbn in Hdep; lia|].
  cbn [printBinaryEvent]. rewrite Hd. destruct e as [z|z|s|es]; cbn [encode show event_ok] in Hok, Hr |- *.
  - apply andb_true_iff in Hok as [H1%Z.leb_le H2%Z.ltb_lt]. cbn [app]. rewrite Z.eqb_refl.
    rewrite get4LE_le_bytes, s32_mod, drop_le_bytes, put_number_room by done.
    by rewrite (proj2 (Nat.ltb_ge _ _)) by (rewrite length_app, le_bytes_length; lia).
  - apply andb_true_iff in Hok as [H1%Z.leb_le H2%Z.ltb_lt]. cbn [app]. change (EVENT_TYPE_LONG =? EVENT_TYPE_INT) with false.
    rewrite Z.eqb_refl. cbv iota. rewrite get8LE_le_bytes, s64_mod, drop_le_bytes, put_number_room by done.
    by rewrite (proj2 (Nat.ltb_ge _ _)) by (rewrite length_app, le_bytes_length; lia).
  - apply Z.ltb_lt in Hok. cbn [app]. change (EVENT_TYPE_STRING =? EVENT_TYPE_INT) with false.
    change (EVENT_TYPE_STRING =? EVENT_TYPE_LONG) with false. rewrite Z.eqb_refl. cbv iota.
    rewrite <- app_assoc, get4LE_le_bytes, drop_le_bytes, Z.mod_small by lia.
    rewrite (proj2 (Nat.ltb_ge _ _)) by (rewrite length_app, le_bytes_length; lia).
    rewrite (proj2 (Z.ltb_ge _ _)) by (rewrite length_app; lia). rewrite (proj2 (Z.ltb_lt _ _)) by done.
    by rewrite Nat2Z.id, drop_app_length, take_app_length.
  - apply andb_true_iff in Hok as [Hlen%Z.ltb_lt Hall]. cbn [app]. change (EVENT_TYPE_LIST =? EVENT_TYPE_INT) with false.
    change (EVENT_TYPE_LIST =? EVENT_TYPE_LONG) with false. change (EVENT_TYPE_LIST =? EVENT_TYPE_STRING) with false.
    rewrite Z.eqb_refl. cbv iota. cbn [length] in Hr. rewrite length_app in Hr. cbn [length] in Hr.
    rewrite (proj2 (Z.ltb_lt 0 (room st))) by lia. rewrite Nat2Z.id.
    rewrite (items_read _ es) with (rest := rest); [|..].
    + cbn [negb Z.eqb put_char out room data]. rewrite (proj2 (Z.ltb_lt 0 _)) by lia. unfold put_char. cbn [data out room].
      rewrite <- !app_assoc. cbn [app length]. rewrite length_app. cbn [length]. do 3 f_equal. lia.
    + apply Forall_forall. intros e He. apply IH.
      * cbn [depth] in Hdep. assert (depth e ≤ list_max (List.map depth es))%nat; [|lia].
        pose proof (proj1 (list_max_le (List.map depth es) _) (le_n _)) as Hm. rewrite List.Forall_forall in Hm.
        apply Hm, in_map. by apply list_elem_of_In.
      * rewrite forallb_forall in Hall. apply Hall. by apply list_elem_of_In.
    + done.
    + cbn [put_char room]. lia.
Qed.

Lemma depth_le e : (depth e ≤ length (encode e))%nat.
Proof.
  assert (∀ n e, (depth e ≤ n)%nat → (depth e ≤ length (encode e))%nat) as H; [|by apply (H (depth e))]. clear e.
  induction n as [|n IH]; intros e Hn; [by destruct e; cbn in Hn; lia|]. destruct e as [z|z|s|es]; cbn [depth encode length]; try lia.
  cbn [depth] in Hn. apply le_n_S, le_S, list_max_le, List.Forall_forall. intros d (e & <- & He)%in_map_iff.
  assert (depth e ≤ list_max (List.map depth es))%nat as Hm.
  { pose proof (proj1 (list_max_le (List.map depth es) _) (le_n _)) as Hm. rewrite List.Forall_forall in Hm.
    by apply Hm, in_map. }
  etrans; [apply IH; lia|]. apply in_split in He as (l1 & l2 & ->).
  rewrite List.map_app, List.concat_app, length_app. cbn [List.map List.concat]. rewrite length_app. lia.
Qed.

(** C27: an event written in the format of the log, with more data behind it, is
    turned into its text, when there is room for the text and one character,
    and the data behind it is what is left. *)
Theorem printBinaryEvent_roundtrip e rest before room0 : event_ok e = true → Z.of_nat (length (show e)) < room0 →
  printBinaryEvent (S (length (encode e ++ rest))) (mkConv (encode e ++ rest) before room0) =
  Some (0, mkConv rest (before ++ show e) (room0 - Z.of_nat (length (show e)))).
Proof.
  intros Hok Hr. apply (event_reads _ e); [|done..]. rewrite length_app. pose proof (depth_le e). lia.
Qed.

(** ** Whole entries *)

Lemma digits_length fuel : ∀ n acc k, 0 ≤ n < 10 ^ Z.of_nat k → (1 ≤ k)%nat → (length (digits fuel n acc) ≤ k + length acc)%nat.
Proof.
  induction fuel as [|fuel IH]; intros n acc k Hn Hk; cbn [digits]; [lia|].
  destruct (Z.ltb_spec n 10); [cbn; lia|]. destruct k as [|[|k]]; [lia|cbn in Hn; lia|].
  replace (Z.of_nat (S (S k))) with (Z.of_nat (S k) + 1) in Hn by lia. rewrite Z.pow_add_r in Hn by lia.
  etrans; [apply (IH _ _ (S k)); [|lia]|cbn; lia]. Z.div_mod_to_equations. lia.
Qed.

Definition generated_tag (tagIndex : Z) : list Z := [chr "["] ++ dec (s32 tagIndex) ++ [chr "]"].

Lemma generated_tag_length i : (length (generated_tag i) ≤ 13)%nat.
Proof.
  unfold generated_tag, dec. rewrite !length_app. cbn [length]. pose proof (s32_range i).
  assert (∀ n, 0 ≤ n ≤ 2 ^ 31 → (length (digits 20 n []) ≤ 10)%nat) as Hd.
  { intros n Hn. etrans; [apply (digits_length _ _ _ 10)|cbn; lia]; [|lia]. change (10 ^ Z.of_nat 10) with 10000000000. lia. }
  destruct (Z.ltb_spec (s32 i) 0); cbn [length]; [specialize (Hd (- s32 i))|specialize (Hd (s32 i))]; lia.
Qed.

Lemma mark_last_length l : l ≠ [] → length (mark_last l) = length l.
Proof. intros H. unfold mark_last. rewrite length_app, length_take. cbn. destruct l; [done|]. cbn [length]. lia. Qed.

Section entries.
Context (lookup : option (Z → option cstring)).

(** The room for the message: all of the buffer, or what the generated tag
    leaves of it. *)
Definition message_room (buf : logger_entry) (messageBufLen : Z) : Z :=
  let i := get4LE (take (Z.to_nat (len buf)) (msg buf)) in
  match match lookup with Some f => f (s32 i) | None => None end with
  | Some _ => messageBufLen
  | None => messageBufLen - (Z.of_nat (length (generated_tag i)) + 1)
  end.

Definition entry_ok (buf : logger_entry) : Prop :=
  0 ≤ len buf ≤ Z.of_nat (length (msg buf)) ∧ is_bytes (take (Z.to_nat (len buf)) (msg buf)).

Lemma process_unfold buf messageBufLen : entry_ok buf → 4 ≤ len buf →
  ∃ t, android_log_processBinaryLogBuffer lookup buf messageBufLen =
    let payload := take (Z.to_nat (len buf)) (msg buf) in
    match printBinaryEvent (S (length payload)) (mkConv (drop 4 payload) [] (u32 (message_room buf messageBufLen - 1))) with
    | None => Undefined
    | Some (result, st) => finish buf t (message_room buf messageBufLen) result st
    end.
Proof.
  intros [Hlen _] H4. unfold android_log_processBinaryLogBuffer, message_room, generated_tag.
  rewrite (proj2 (Nat.ltb_ge _ _)) by (rewrite length_take; lia). rewrite (proj2 (Z.ltb_ge (len buf) 4)) by lia.
  destruct (match lookup with Some f => _ | None => None end) as [t|]; eexists; reflexivity.
Qed.

(** C28: with room for two characters of the message, which sixteen bytes of
    buffer always leave, a binary entry of any bytes is converted without
    writing past the buffer and without failing the assertion; a message that
    is returned fits with its end. *)
Theorem processBinary_safe buf messageBufLen : entry_ok buf → 16 ≤ messageBufLen < 2 ^ 31 →
  ∃ r e, android_log_processBinaryLogBuffer lookup buf messageBufLen = Returned (r, e) ∧ 2 ≤ message_room buf messageBufLen ∧
    match e with
    | None => r = -1
    | Some e => r = 0 ∧ 0 ≤ messageLen e < message_room buf messageBufLen ∧ message e !! Z.to_nat (messageLen e) = Some 0
    end.
Proof.
  intros Hok Hbuf. pose proof Hok as [Hlen Hb].
  assert (2 ≤ message_room buf messageBufLen ≤ messageBufLen) as Hcap.
  { unfold message_room. case_match; [lia|]. pose proof (generated_tag_length (get4LE (take (Z.to_nat (len buf)) (msg buf)))). lia. }
  destruct (Z.lt_ge_cases (len buf) 4) as [H4|H4].
  { exists (-1), None. split_and!; [|lia|done]. unfold android_log_processBinaryLogBuffer.
    rewrite (proj2 (Nat.ltb_ge _ _)) by (rewrite length_take; lia). by rewrite (proj2 (Z.ltb_lt (len buf) 4)) by lia. }
  destruct (process_unfold buf messageBufLen Hok H4) as [t ->]. set (payload := take _ (msg buf)) in *.
  set (cap := message_room buf messageBufLen) in *. rewrite u32_small by lia. cbv zeta.
  assert (is_bytes (drop 4 payload)) as Hb' by (eapply is_bytes_suffix; [apply suffix_drop|done]).
  destruct (event_some (S (length payload)) (mkConv (drop 4 payload) [] (cap - 1))) as [[r st] He];
    [cbn; rewrite length_drop; lia|done|].
  rewrite He. destruct (event_step _ (mkConv (drop 4 payload) [] (cap - 1)) _ _ Hb' He) as [[Ht Hroom _ _] Hr]. unfold total in Ht. cbn [out room length] in Ht, Hroom.
  unfold finish. rewrite (proj2 (Z.ltb_ge cap _)) by lia. destruct (Z.ltb_spec r 0).
  { exists (-1), None. split; [done|]. by split; [lia|]. }
  assert (∀ txt rem, Z.of_nat (length txt) + rem = cap - 1 → 0 ≤ rem → ∃ r0 e,
    terminate buf t cap txt rem = Returned (r0, e) ∧ 2 ≤ cap ∧
    match e with None => r0 = -1 | Some e => r0 = 0 ∧ 0 ≤ messageLen e < cap ∧ message e !! Z.to_nat (messageLen e) = Some 0 end) as Hend.
  { intros txt rem Hsum Hrem. unfold terminate. rewrite (proj2 (Z.leb_gt cap _)), u32_small by lia.
    unfold oassert. rewrite (proj2 (Z.eqb_eq _ _)) by lia. do 2 eexists. split; [done|]. cbn [messageLen message].
    split_and!; try lia. rewrite Nat2Z.id. by apply list_lookup_middle. }
  destruct (r =? 1); [|by apply Hend; [lia|apply Hroom; lia]]. destruct (out st) as [|c o] eqn:Ho.
  - cbn [length] in Ht. rewrite (u32_small (room st - 1)) by lia. apply Hend; cbn [length]; lia.
  - apply Hend; [rewrite mark_last_length by done; lia|apply Hroom; lia].
Qed.
End entries.

(** An entry of a known tag and a well-formed event, with a line end behind
    or not, gets the text of the event when the buffer holds it with two more
    characters. *)
Theorem processBinary_event buf f t tagi e rest messageBufLen :
  msg buf = le_bytes 4 tagi ++ encode e ++ rest → 0 ≤ tagi < 2 ^ 31 → f tagi = Some t → event_ok e = true →
  len buf = Z.of_nat (length (le_bytes 4 tagi ++ encode e ++ rest)) →
  Z.of_nat (length (show e)) + 2 ≤ messageBufLen < 2 ^ 31 →
  android_log_processBinaryLogBuffer (Some f) buf messageBufLen =
  Returned (0, Some (mkEntry (sec buf) (nsec buf) LF.ANDROID_LOG_INFO (pid buf) (tid buf) t
                             (Z.of_nat (length (show e))) (show e ++ [0]))).
Proof.
  intros Hm Ht Hf Hok Hlen Hbuf. unfold android_log_processBinaryLogBuffer.
  assert (take (Z.to_nat (len buf)) (msg buf) = le_bytes 4 tagi ++ encode e ++ rest) as ->.
  { rewrite Hm, Hlen, Nat2Z.id. by rewrite take_ge by lia. }
  rewrite Hlen, Nat2Z.id, (proj2 (Nat.ltb_ge _ _)) by lia.
  rewrite (proj2 (Z.ltb_ge _ 4)) by (rewrite length_app, le_bytes_length; lia).
  rewrite get4LE_le_bytes, s32_mod, Hf, drop_le_bytes, u32_small by lia. cbv zeta. cbn iota beta.
  rewrite (event_reads _ e) with (rest := rest); [|rewrite !length_app; pose proof (depth_le e); lia|done|done|cbn [room]; lia].
  cbn [out app room]. unfold finish. cbn [out]. rewrite (proj2 (Z.ltb_ge messageBufLen _)) by lia. cbn [Z.ltb Z.eqb Z.compare].
  unfold terminate. rewrite (proj2 (Z.leb_gt messageBufLen _)), u32_small by (cbn [room]; lia). unfold oassert.
  by rewrite (proj2 (Z.eqb_eq _ _)) by (cbn [room]; lia).
Qed.

(** A buffer that the generated tag fills is overrun: the room that is left
    is negative as a signed number and huge as the size that is passed on. *)
Theorem processBinary_small_buffer buf tagi e rest messageBufLen :
  msg buf = le_bytes 4 tagi ++ encode e ++ rest → 0 ≤ tagi < 2 ^ 31 → event_ok e = true →
  len buf = Z.of_nat (length (le_bytes 4 tagi ++ encode e ++ rest)) → Z.of_nat (length (show e)) < 2 ^ 31 →
  0 ≤ messageBufLen ≤ Z.of_nat (length (generated_tag tagi)) + 1 →
  android_log_processBinaryLogBuffer None buf messageBufLen = Undefined.
Proof.
  intros Hm Ht Hok Hlen Hshow Hbuf. unfold android_log_processBinaryLogBuffer.
  assert (take (Z.to_nat (len buf)) (msg buf) = le_bytes 4 tagi ++ encode e ++ rest) as ->.
  { rewrite Hm, Hlen, Nat2Z.id. by rewrite take_ge by lia. }
  rewrite Hlen, Nat2Z.id, (proj2 (Nat.ltb_ge _ _)) by lia.
  rewrite (proj2 (Z.ltb_ge _ 4)) by (rewrite length_app, le_bytes_length; lia).
  rewrite get4LE_le_bytes, s32_mod, drop_le_bytes by lia. cbv zeta. cbn iota beta.
  assert (length (generated_tag tagi) ≤ 13)%nat by apply generated_tag_length.
  unfold generated_tag in *. rewrite s32_small in * by lia.
  set (gen := [chr "["] ++ dec tagi ++ [chr "]"]) in *. set (cap := messageBufLen - (Z.of_nat (length gen) + 1)) in *.
  assert (u32 (cap - 1) = cap - 1 + 2 ^ 32) as -> by (unfold u32; rewrite <- (Z.mod_add _ 1), Z.mod_small by lia; lia).
  rewrite (event_reads _ e) with (rest := rest); [|rewrite !length_app; pose proof (depth_le e); lia|done|done|cbn [room]; lia].
  unfold finish, terminate. cbn [out app room]. case_goal_if; [done|]. cbn [Z.ltb Z.eqb Z.compare].
  by rewrite (proj2 (Z.leb_le cap _)) by lia.
Qed.

(** ** Text entries *)

(** A text entry, with its priority, its tag and its message, each string
    with its end, is taken apart into these. *)
Theorem processLogBuffer_roundtrip buf pri t m rest : Forall (λ c, c ≠ 0) t →
  msg buf = pri :: t ++ 0 :: m ++ 0 :: rest → len buf = Z.of_nat (length (pri :: t ++ 0 :: m ++ [0])) → len buf < 2 ^ 16 →
  ∃ e, android_log_processLogBuffer buf = Returned (0, e) ∧ priority e = pri ∧ tag e = t ∧
    messageLen e = Z.of_nat (length m) ∧ take (Z.to_nat (messageLen e)) (message e) = m ∧
    message e !! Z.to_nat (messageLen e) = Some 0.
Proof.
  intros Ht Hm Hlen H16. unfold android_log_processLogBuffer, strlen. rewrite Hm. cbn [head oderef obind drop skipn]. rewrite !drop_0.
  rewrite until_nul_app by done. rewrite (proj2 (Nat.ltb_lt _ _)) by (rewrite length_app; cbn; lia). cbn [obind].
  cbn [length] in Hlen. rewrite length_app in Hlen. cbn [length] in Hlen. rewrite length_app in Hlen. cbn [length] in Hlen.
  eexists. split; [done|]. cbn [priority tag messageLen message].
  assert (u32 (len buf - Z.of_nat (length t) - 3) = Z.of_nat (length m)) as -> by (rewrite u32_small; lia).
  assert (drop (S (length t)) (t ++ 0 :: m ++ 0 :: rest) = m ++ 0 :: rest) as ->.
  { rewrite drop_app_ge by lia. by replace (S (length t) - length t)%nat with 1%nat by lia. }
  rewrite Nat2Z.id, take_app_length, take_app_length. split_and!; [done..|]. by apply list_lookup_middle.
Qed.

(** An entry whose tag has no end inside the payload, which the reader of
    the log ends behind the payload, gets a message of almost 2^32 bytes. *)
Theorem processLogBuffer_no_message buf pri t rest : Forall (λ c, c ≠ 0) t →
  msg buf = pri :: t ++ 0 :: rest → len buf = Z.of_nat (length (pri :: t)) →
  ∃ e, android_log_processLogBuffer buf = Returned (0, e) ∧ messageLen e = 2 ^ 32 - 2.
Proof.
  intros Ht Hm Hlen. unfold android_log_processLogBuffer, strlen. rewrite Hm. cbn [head oderef obind drop skipn]. rewrite !drop_0.
  rewrite until_nul_app by done. rewrite (proj2 (Nat.ltb_lt _ _)) by (rewrite length_app; cbn; lia). cbn [obind].
  eexists. split; [done|]. cbn [messageLen]. rewrite Hlen. cbn [length].
  by replace (Z.of_nat (S (length t)) - Z.of_nat (length t) - 3) with (-2) by lia.
Qed.

(** A string that meets a full buffer is dropped without a sign: the
    conversion goes on as if it had been written. *)
Theorem string_dropped s rest before : 0 < Z.of_nat (length s) < 2 ^ 32 →
  printBinaryEvent 1 (mkConv (encode (EString s) ++ rest) before 0) = Some (0, mkConv rest before 0).
Proof.
  intros Hs. cbn [printBinaryEvent data encode app room out]. change (EVENT_TYPE_STRING =? EVENT_TYPE_INT) with false.
  change (EVENT_TYPE_STRING =? EVENT_TYPE_LONG) with false. rewrite Z.eqb_refl. cbv iota.
  rewrite <- app_assoc, get4LE_le_bytes, drop_le_bytes, Z.mod_small by lia.
  rewrite (proj2 (Nat.ltb_ge _ _)) by (rewrite length_app, le_bytes_length; lia).
  rewrite (proj2 (Z.ltb_ge _ (Z.of_nat (length s)))) by (rewrite length_app; lia).
  rewrite (proj2 (Z.ltb_ge (Z.of_nat (length s)) 0)) by lia. by rewrite Nat2Z.id, drop_app_length.
Qed.

(** ** Witnesses *)

(** [[42,"hi",[7,-1]]] and a line end. *)
Definition sample : event := EList [EInt 42; EString (bytes "hi"); EList [ELong 7; EInt (-1)]].

Example show_sample : show sample = bytes "[42,hi,[7,-1]]".
Proof. by vm_compute. Qed.

Definition sample_entry : logger_entry :=
  mkLogger (Z.of_nat (length (le_bytes 4 2722 ++ encode sample ++ [10]))) 100 101 5 6 (le_bytes 4 2722 ++ encode sample ++ [10]).

(** The mark of a message that does not fit. *)
Example sample_marked :
  (let! r := android_log_processBinaryLogBuffer (Some (λ _, Some (bytes "x"))) sample_entry 16 in
   Returned (message <$> snd r)) = Returned (Some (bytes "[42,hi,[7,-1]" ++ [chr "]"; 0])) ∧
  (let! r := android_log_processBinaryLogBuffer (Some (λ _, Some (bytes "x"))) sample_entry 12 in
   Returned (message <$> snd r)) = Returned (Some (bytes "[42,hi,[7!" ++ [0])).
Proof. by vm_compute. Qed.

Lemma printBinaryEvent_bounds_witness :
  ∃ r st', printBinaryEvent 12 (mkConv [3; 2; 0; 1; 0; 0; 0; 2; 255; 0; 0] [] 4) = Some (r, st') ∧ 0 ≤ room st'.
Proof.
  destruct (printBinaryEvent_bounds (mkConv [3; 2; 0; 1; 0; 0; 0; 2; 255; 0; 0] [] 4)) as (r & st' & H & _ & _ & Hr & _).
  - repeat constructor; lia.
  - cbn. lia.
  - exists r, st'. split; [exact H|exact Hr].
Defined.

Lemma printBinaryEvent_roundtrip_witness :
  printBinaryEvent (S (length (encode sample ++ [10]))) (mkConv (encode sample ++ [10]) [] 15) =
  Some (0, mkConv [10] (bytes "[42,hi,[7,-1]]") 1).
Proof. exact (printBinaryEvent_roundtrip sample [10] [] 15 eq_refl eq_refl). Defined.

Lemma processBinary_safe_witness :
  ∃ r e, android_log_processBinaryLogBuffer None (mkLogger 6 1 1 0 0 [1; 0; 0; 0; 3; 255]) 16 = Returned (r, e).
Proof.
  destruct (processBinary_safe None (mkLogger 6 1 1 0 0 [1; 0; 0; 0; 3; 255]) 16) as (r & e & H & _).
  - split; [cbn; lia|]. repeat constructor; lia.
  - lia.
  - exists r, e. exact H.
Defined.

Lemma processBinary_event_witness :
  android_log_processBinaryLogBuffer (Some (λ _, Some (bytes "am"))) sample_entry 16 =
  Returned (0, Some (mkEntry 5 6 4 100 101 (bytes "am") 14 (bytes "[42,hi,[7,-1]]" ++ [0]))).
Proof.
  apply (processBinary_event sample_entry (λ _, Some (bytes "am")) (bytes "am") 2722 sample [10] 16);
    try reflexivity; vm_compute; split; congruence.
Defined.

Lemma processBinary_small_buffer_witness : android_log_processBinaryLogBuffer None sample_entry 7 = Undefined.
Proof.
  apply (processBinary_small_buffer sample_entry 2722 sample [10] 7); try reflexivity; try lia.
  vm_compute. split; congruence.
Defined.

Lemma processLogBuffer_roundtrip_witness :
  ∃ e, android_log_processLogBuffer (mkLogger 9 1 1 0 0 (4 :: bytes "tag" ++ 0 :: bytes "msg" ++ [0; 0])) = Returned (0, e) ∧
       messageLen e = 3.
Proof.
  destruct (processLogBuffer_roundtrip (mkLogger 9 1 1 0 0 (4 :: bytes "tag" ++ 0 :: bytes "msg" ++ [0; 0])) 4 (bytes "tag") (bytes "msg") [0])
    as (e & H & _ & _ & Hl & _).
  - repeat constructor; vm_compute; congruence.
  - reflexivity.
  - reflexivity.
  - cbn. lia.
  - exists e. split; [exact H|exact Hl].
Defined.

Lemma processLogBuffer_no_message_witness :
  ∃ e, android_log_processLogBuffer (mkLogger 4 1 1 0 0 (4 :: bytes "tag" ++ [0])) = Returned (0, e) ∧ messageLen e = 2 ^ 32 - 2.
Proof.
  apply (processLogBuffer_no_message (mkLogger 4 1 1 0 0 (4 :: bytes "tag" ++ [0])) 4 (bytes "tag") []).
  - repeat constructor; vm_compute; congruence.
  - reflexivity.
  - reflexivity.
Defined.

Lemma string_dropped_witness :
  printBinaryEvent 1 (mkConv (encode (EString (bytes "lost")) ++ [10]) (bytes "full") 0) = Some (0, mkConv [10] (bytes "full") 0).
Proof. apply (string_dropped (bytes "lost") [10] (bytes "full")). cbn. lia. Defined.

End LE.
