(* ===== verification/LogPrint.v ===== *)
(** [android_log_formatLogLine] of [logprint.c]: a log entry becomes lines of
    text, in a buffer whose size is computed beforehand and which is filled
    with [strcat] and [strncat].  The buffer is memory whose cells hold nothing
    before they are written. *)

From S2P Require Import Prelude HiTime LogFilter LogEvent.

Module LP.


(** ** The C library *)

Definition mem : Type := list (option Z).

(** The search for the end of a string. *)
Fixpoint scan (m : mem) : outcome nat :=
  match m with
  | Some c :: m' => if c =? 0 then Returned 0%nat else let! n := scan m' in Returned (S n)
  | _ => Undefined
  end.

Definition store (m : mem) (i : nat) (l : list Z) : outcome mem :=
  if (i + length l <=? length m)%nat then Returned (take i m ++ (Some <$> l) ++ drop (i + length l) m) else Undefined.

Definition strcat (m : mem) (p : nat) (s : list Z) : outcome mem :=
  let! k := scan (drop p m) in store m (p + k) (until_nul s ++ [0]).

(** [strncat] reads the source up to its end or [n] characters. *)
Definition strncat (m : mem) (p : nat) (src : list Z) (n : nat) : outcome mem :=
  let l := until_nul (take n src) in
  if (length l <? n)%nat && (length l =? length src)%nat then Undefined
  else let! k := scan (drop p m) in store m (p + k) (l ++ [0]).

(** [%5d], [%-8s], [%03ld] and [%02d]. *)
Definition pad_left (w : nat) (c : Z) (s : list Z) : list Z := replicate (w - length s) c ++ s.
Definition pad_right (w : nat) (s : list Z) : list Z := s ++ replicate (w - length s) (chr " ").
Definition zero_padded (w : nat) (n : Z) : list Z :=
  if n <? 0 then chr "-" :: pad_left (w - 1) (chr "0") (LE.dec (- n)) else pad_left w (chr "0") (LE.dec n).
Definition d5 (n : Z) : list Z := pad_left 5 (chr " ") (LE.dec n).

(** The character [\n]. *)
Definition newline (c : Z) : bool := c =? 10.

(** The text an [snprintf] of a buffer of 128 leaves in it. *)
Definition in_128 (s : list Z) : list Z := take 127 s.

Section format.
(** Seconds west of the zone. *)
Context (timezone : Z).

(** [strftime] with ["%m-%d %H:%M:%S"]. *)
Definition timeBuf (s : Z) : list Z :=
  let t := TM.gmtime (s - timezone) in
  zero_padded 2 (TM.tm_mon t + 1) ++ [chr "-"] ++ zero_padded 2 (TM.tm_mday t) ++ [chr " "] ++
  zero_padded 2 (TM.tm_hour t) ++ [chr ":"] ++ zero_padded 2 (TM.tm_min t) ++ [chr ":"] ++ zero_padded 2 (TM.tm_sec t).

(** The texts around a line, before they are cut to the buffers. *)
Definition prefix (f : LF.AndroidLogPrintFormat) (e : LE.AndroidLogEntry) : list Z :=
  let pri := LF.filterPriToChar (LE.priority e) in
  let tag := pad_right 8 (LE.tag e) in
  let time := timeBuf (LE.tv_sec e) ++ [chr "."] ++ zero_padded 3 (Z.quot (LE.tv_nsec e) 1000000) in
  match f with
  | LF.FORMAT_TAG => [pri; chr "/"] ++ tag ++ bytes ": "
  | LF.FORMAT_PROCESS => [pri; chr "("] ++ d5 (LE.e_pid e) ++ bytes ") "
  | LF.FORMAT_THREAD => [pri; chr "("] ++ d5 (LE.e_pid e) ++ [chr ":"] ++ d5 (LE.e_tid e) ++ bytes ") "
  | LF.FORMAT_RAW => []
  | LF.FORMAT_TIME => time ++ [chr " "; pri; chr "/"] ++ tag ++ [chr "("] ++ d5 (LE.e_pid e) ++ bytes "): "
  | LF.FORMAT_THREADTIME =>
    time ++ [chr " "] ++ d5 (LE.e_pid e) ++ [chr " "] ++ d5 (LE.e_tid e) ++ [chr " "; pri; chr " "] ++ tag ++ bytes ": "
  | LF.FORMAT_LONG =>
    bytes "[ " ++ time ++ [chr " "] ++ d5 (LE.e_pid e) ++ [chr ":"] ++ d5 (LE.e_tid e) ++ [chr " "; pri; chr "/"] ++ tag ++
    bytes " ]" ++ [10]
  | LF.FORMAT_BRIEF | LF.FORMAT_OFF => [pri; chr "/"] ++ tag ++ [chr "("] ++ d5 (LE.e_pid e) ++ bytes "): "
  end.

Definition suffix (f : LF.AndroidLogPrintFormat) (e : LE.AndroidLogEntry) : list Z :=
  match f with
  | LF.FORMAT_PROCESS => bytes "  (" ++ LE.tag e ++ [chr ")"; 10]
  | LF.FORMAT_LONG => [10; 10]
  | _ => [10]
  end.

Definition prefixSuffixIsHeaderFooter (f : LF.AndroidLogPrintFormat) : bool :=
  match f with LF.FORMAT_LONG => true | _ => false end.

(** The lines of the message, one more when it does not end with a newline. *)
Definition numLines (msg : list Z) : Z :=
  countP newline msg + match last msg with Some c => if c =? 10 then 0 else 1 | None => 0 end.

Section fill.
Context (prefixBuf suffixBuf message : list Z) (messageLen : nat).

(** The loop over the lines: [pm] in the message, [p] in the buffer. *)
Fixpoint line_loop (fuel pm p : nat) (m : mem) : outcome (mem * nat) :=
  match fuel with
  | O => Undefined
  | S fuel =>
    if (messageLen <=? pm)%nat then Returned (m, p)
    else
      let lineLen := LF.strcspn newline (drop pm (take messageLen message)) in
      let pm' := (pm + lineLen)%nat in
      let! m1 := strcat m p prefixBuf in
      let! m2 := strncat m1 (p + length prefixBuf) (drop pm message) lineLen in
      let! m3 := strcat m2 (p + length prefixBuf + lineLen) suffixBuf in
      let! c := oderef (message !! pm') in
      line_loop fuel (if newline c then S pm' else pm') (p + length prefixBuf + lineLen + length suffixBuf) m3
  end.

Definition header_footer (m : mem) : outcome (mem * nat) :=
  let! m1 := strcat m 0 prefixBuf in
  let! m2 := strncat m1 (length prefixBuf) message messageLen in
  let! m3 := strcat m2 (length prefixBuf + messageLen) suffixBuf in
  Returned (m3, (length prefixBuf + messageLen + length suffixBuf)%nat).
End fill.

(** The size computed for a message of [n] characters. *)
Definition buffer_size (lines plen slen n : Z) : Z := u32 (u32 (lines * u32 (plen + slen)) + n + 1).

(** The memory of the result and the length of the text; [None] when [malloc]
    fails. *)
Definition android_log_formatLogLine (malloc_ok : bool) (pf : LF.AndroidLogFormat) (defaultBufferSize : Z)
    (e : LE.AndroidLogEntry) : outcome (option (mem * nat)) :=
  let f := LF.format pf in
  let prefixBuf := in_128 (prefix f e) in
  let suffixBuf := in_128 (suffix f e) in
  let n := Z.to_nat (LE.messageLen e) in
  let wrap := prefixSuffixIsHeaderFooter f in
  if negb wrap && (length (LE.message e) <? n)%nat then Undefined
  else
    let lines := if wrap then 1 else numLines (take n (LE.message e)) in
    let bufferSize := buffer_size lines (Z.of_nat (length prefixBuf)) (Z.of_nat (length suffixBuf)) (LE.messageLen e) in
    let fill (size : Z) :=
      let! m := store (replicate (Z.to_nat size) None) 0 [0] in
      let! r := (if wrap then header_footer prefixBuf suffixBuf (LE.message e) n m
                 else line_loop prefixBuf suffixBuf (LE.message e) n (S n) 0 0 m) in
      Returned (Some r) in
    if bufferSize <=? defaultBufferSize then fill defaultBufferSize
    else if malloc_ok then fill bufferSize
    else Returned None.

(** The answers of [write]. *)
Inductive written := Interrupted | Failed | Wrote (n : Z).

Fixpoint write_loop (answers : list written) : option Z :=
  match answers with
  | [] => None
  | Interrupted :: answers => write_loop answers
  | Failed :: _ => Some (-1)
  | Wrote n :: _ => Some n
  end.

(** The bytes written; [None] while [write] is interrupted again and again. *)
Definition android_log_printLogLine (malloc_ok : bool) (pf : LF.AndroidLogFormat) (answers : list written)
    (e : LE.AndroidLogEntry) : outcome (option Z) :=
  let! r := android_log_formatLogLine malloc_ok pf 512 e in
  match r with
  | None => Returned (Some (-1))
  | Some _ => match write_loop answers with
              | None => Returned None
              | Some ret => Returned (Some (if ret <? 0 then 0 else ret))
              end
  end.

End format.
(** ** The buffer while it is filled *)

(** The text [w], its end, and cells never written. *)
Definition holds (m : mem) (w : list Z) (free : nat) : Prop := m = (Some <$> w) ++ Some 0 :: replicate free None.

Lemma store_end m w free l : holds m w free → (length l ≤ free)%nat →
  store m (length w) (l ++ [0]) = Returned ((Some <$> (w ++ l)) ++ Some 0 :: replicate (free - length l) None).
Proof.
  intros -> Hl. unfold store. rewrite (proj2 (Nat.leb_le _ _));
    [|rewrite !length_app, length_fmap; cbn; rewrite length_replicate; lia].
  rewrite take_app_le, take_ge by (rewrite length_fmap; lia).
  rewrite drop_app_ge by (rewrite length_app, length_fmap; lia). rewrite length_fmap, length_app. cbn [length].
  replace (length w + (length l + 1) - length w)%nat with (S (length l)) by lia. cbn [drop skipn].
  change (skipn (length l) (replicate free (@None Z))) with (drop (length l) (replicate free (@None Z))). rewrite drop_replicate.
  rewrite !fmap_app, <- !app_assoc. done.
Qed.

Lemma store_over m w free l : holds m w free → (free < length l)%nat → store m (length w) (l ++ [0]) = Undefined.
Proof.
  intros -> Hl. unfold store. rewrite (proj2 (Nat.leb_gt _ _)); [done|].
  rewrite !length_app, length_fmap. cbn. rewrite length_replicate. lia.
Qed.

Lemma scan_end m w free : holds m w free → scan (drop (length w) m) = Returned 0%nat.
Proof. intros ->. rewrite drop_app_ge, length_fmap, Nat.sub_diag by (rewrite length_fmap; lia). done. Qed.

(** Behind the end there is no end to be found. *)
Lemma scan_behind m w free p : holds m w free → (length w < p)%nat → scan (drop p m) = Undefined.
Proof.
  intros -> Hp. rewrite drop_app_ge, length_fmap by (rewrite length_fmap; lia).
  destruct (p - length w)%nat as [|k] eqn:Hk; [lia|]. cbn [drop skipn].
  change (skipn k (replicate free (@None Z))) with (drop k (replicate free (@None Z))). rewrite drop_replicate.
  by destruct (free - k)%nat.
Qed.

Lemma strcat_holds m w free s : holds m w free → no_nul s →
  match strcat m (length w) s with
  | Returned m' => (length s ≤ free)%nat ∧ holds m' (w ++ s) (free - length s)
  | Exited => False
  | Undefined => (free < length s)%nat
  end.
Proof.
  intros Hm Hs. unfold strcat. rewrite (scan_end _ _ _ Hm). cbn [obind]. rewrite Nat.add_0_r, until_nul_no by done.
  destruct (Nat.le_gt_cases (length s) free).
  - by rewrite (store_end _ _ _ _ Hm).
  - by rewrite (store_over _ _ _ _ Hm).
Qed.

Lemma strncat_holds m w free src n : holds m w free → (n ≤ length src)%nat →
  let l := until_nul (take n src) in
  match strncat m (length w) src n with
  | Returned m' => (length l ≤ free)%nat ∧ holds m' (w ++ l) (free - length l)
  | Exited => False
  | Undefined => (free < length l)%nat
  end.
Proof.
  intros Hm Hn l. unfold strncat. fold l.
  assert (length l ≤ n)%nat as Hl.
  { unfold l. etrans; [apply until_nul_le|apply firstn_le_length]. }
  destruct (Nat.ltb_spec (length l) n); [rewrite (proj2 (Nat.eqb_neq _ _)) by lia|]; cbn [andb];
    rewrite (scan_end _ _ _ Hm); cbn [obind]; rewrite Nat.add_0_r;
    (destruct (Nat.le_gt_cases (length l) free); [by rewrite (store_end _ _ _ _ Hm)|by rewrite (store_over _ _ _ _ Hm)]).
Qed.

(** ** Lines *)

Fixpoint lines_of (m : list Z) : list (list Z) :=
  match m with
  | [] => []
  | c :: m' => if newline c then [] :: lines_of m'
               else match lines_of m' with l :: ls => (c :: l) :: ls | [] => [[c]] end
  end.

Definition dress (pre suf : list Z) (l : list Z) : list Z := pre ++ l ++ suf.

Lemma lines_of_step m : m ≠ [] →
  let n := LF.strcspn newline m in lines_of m = take n m :: lines_of (drop (S n) m).
Proof.
  induction m as [|c m IH]; [done|]. intros _. cbn [lines_of LF.strcspn]. destruct (newline c); [done|].
  destruct m as [|c' m]; [done|]. rewrite IH by done. done.
Qed.

Lemma numLines_cons c m : m ≠ [] → numLines (c :: m) = (if newline c then 1 else 0) + numLines m.
Proof. intros H. unfold numLines. rewrite countP_cons, last_cons. destruct (last m) eqn:E; [lia|]. by apply last_None in E. Qed.

Lemma numLines_lines m : numLines m = Z.of_nat (length (lines_of m)).
Proof.
  induction m as [|c m IH]; [done|]. destruct m as [|c' m].
  - unfold numLines, countP. cbn. unfold newline. by destruct (c =? 10).
  - rewrite numLines_cons, IH by done. cbn [lines_of]. destruct (newline c); [cbn [length]; lia|].
    destruct (newline c'); [done|]. by destruct (lines_of m).
Qed.

Lemma lines_length m : (length (List.concat (lines_of m)) ≤ length m)%nat.
Proof.
  induction m as [|c m IH]; [done|]. cbn [lines_of]. destruct (newline c); [cbn; lia|].
  destruct (lines_of m); cbn in *; lia.
Qed.

Lemma dress_length pre suf ls :
  length (List.concat (List.map (dress pre suf) ls)) =
  (length ls * (length pre + length suf) + length (List.concat ls))%nat.
Proof. induction ls as [|l ls IH]; [done|]. cbn. unfold dress at 1. rewrite !length_app, IH. lia. Qed.

(** ** The loop *)

Lemma strcspn_stop stop l : (LF.strcspn stop l < length l)%nat → ∃ c, l !! LF.strcspn stop l = Some c ∧ stop c = true.
Proof.
  induction l as [|c l IH]; cbn [LF.strcspn length]; [lia|]. destruct (stop c) eqn:Hc; [by exists c|].
  intros H. destruct IH as (c' & H1 & H2); [lia|]. by exists c'.
Qed.


Section loop.
Context (pre suf message : list Z) (n : nat).
Context (Hpre : no_nul pre) (Hsuf : no_nul suf) (Hn : (n < length message)%nat).
#[local] Abbreviation msg := (take n message).
#[local] Abbreviation text rest := (List.concat (List.map (dress pre suf) (lines_of rest))).

Lemma strcspn_msg pm : (pm < n)%nat → (LF.strcspn newline (drop pm msg) ≤ n - pm)%nat.
Proof. intros H. etrans; [apply LF.strcspn_le|]. rewrite length_drop, length_take. lia. Qed.

(** One line: what is written, and where the message goes on. *)
Lemma line_step pm w free m : holds m w free → (pm < n)%nat →
  let line := take (LF.strcspn newline (drop pm msg)) (drop pm msg) in
  no_nul line → (length (dress pre suf line) ≤ free)%nat →
  ∃ m', holds m' (w ++ dress pre suf line) (free - length (dress pre suf line)) ∧
    ∀ fuel, line_loop pre suf message n (S fuel) pm (length w) m =
            line_loop pre suf message n fuel
              (if newline (default 0 (message !! (pm + length line)%nat)) then S (pm + length line)%nat else (pm + length line)%nat)
              (length (w ++ dress pre suf line)) m'.
Proof.
  intros Hm Hpm line Hline Hfree. set (k := LF.strcspn newline (drop pm msg)) in *.
  assert (k ≤ n - pm)%nat as Hk by (by apply strcspn_msg).
  assert (length line = k) as Hlen by (unfold line; rewrite length_take, length_drop, length_take; lia).
  assert (take k (drop pm message) = line) as Hsrc.
  { unfold line. rewrite !take_drop_commute, take_take. do 2 f_equal. lia. }
  assert (∃ c, message !! (pm + k)%nat = Some c) as [c Hc] by (apply lookup_lt_is_Some_2; lia).
  unfold dress in Hfree |- *. rewrite !length_app in Hfree.
  pose proof (strcat_holds m w free pre Hm Hpre) as H1. destruct (strcat m (length w) pre) as [m1| |] eqn:E1; [|done|lia].
  destruct H1 as [_ Hm1].
  pose proof (strncat_holds m1 (w ++ pre) _ (drop pm message) k Hm1 ltac:(rewrite length_drop; lia)) as H2.
  cbv zeta in H2. rewrite Hsrc, until_nul_no in H2 by done.
  destruct (strncat m1 (length (w ++ pre)) (drop pm message) k) as [m2| |] eqn:E2; [|done|lia]. destruct H2 as [_ Hm2].
  pose proof (strcat_holds m2 _ _ suf Hm2 Hsuf) as H3.
  destruct (strcat m2 (length ((w ++ pre) ++ line)) suf) as [m3| |] eqn:E3; [|done|lia]. destruct H3 as [_ Hm3].
  exists m3. split.
  - rewrite <- !app_assoc in Hm3. rewrite !length_app. replace (free - (length pre + (length line + length suf)))%nat
      with (free - length pre - length line - length suf)%nat by lia. done.
  - intros fuel. cbn [line_loop]. rewrite (proj2 (Nat.leb_gt _ _)) by lia. fold k. rewrite E1. cbn [obind].
    rewrite length_app in E2. rewrite E2. cbn [obind]. rewrite !length_app, Hlen in E3. rewrite E3. cbn [obind].
    rewrite Hlen, Hc. cbn [oderef obind default]. f_equal. rewrite !length_app, Hlen. lia.
Qed.

Lemma next_line fuel pm : (pm < n)%nat → (n - pm < S fuel)%nat →
  let k := LF.strcspn newline (drop pm msg) in
  let q := if newline (default 0 (message !! (pm + k)%nat)) then S (pm + k)%nat else (pm + k)%nat in
  drop (S k) (drop pm msg) = drop q msg ∧ (n - q < fuel)%nat.
Proof.
  intros Hpm Hf k q. assert (k ≤ n - pm)%nat as Hk by (by apply strcspn_msg).
  rewrite drop_drop. destruct (Nat.eq_dec (pm + k)%nat n) as [He|Hneq].
  - split; [rewrite !drop_ge; [done|..]; rewrite length_take|]; subst q; repeat case_goal_if; lia.
  - assert (newline (default 0 (message !! (pm + k)%nat)) = true) as Hnl.
    { destruct (strcspn_stop newline (drop pm msg)) as (c & Hc & Hnl); [rewrite length_drop, length_take; fold k; lia|].
      fold k in Hc. rewrite lookup_drop, lookup_take_lt in Hc by lia. by rewrite Hc. }
    subst q. rewrite Hnl. split; [f_equal|]; lia.
Qed.

Lemma line_loop_text fuel : ∀ pm w free m, holds m w free → (n - pm < fuel)%nat → no_nul (drop pm msg) →
  (length (text (drop pm msg)) ≤ free)%nat →
  ∃ m', line_loop pre suf message n fuel pm (length w) m = Returned (m', length (w ++ text (drop pm msg))) ∧
        holds m' (w ++ text (drop pm msg)) (free - length (text (drop pm msg))).
Proof.
  induction fuel as [|fuel IH]; intros pm w free m Hm Hf Hz Hfree; [lia|].
  destruct (Nat.le_gt_cases n pm) as [Hge|Hlt].
  { exists m. cbn [line_loop]. rewrite (proj2 (Nat.leb_le _ _)) by lia.
    rewrite drop_ge by (rewrite length_take; lia). cbn. by rewrite app_nil_r, Nat.sub_0_r. }
  assert (drop pm msg ≠ []) as Hne.
  { intros H. apply (f_equal length) in H. rewrite length_drop, length_take in H. cbn in H. lia. }
  pose proof (lines_of_step _ Hne) as Hstep. cbv zeta in Hstep.
  set (k := LF.strcspn newline (drop pm msg)) in *. set (line := take k (drop pm msg)) in *.
  rewrite Hstep in Hfree |- *. cbn [List.map List.concat] in Hfree |- *. rewrite length_app in Hfree.
  assert (k ≤ n - pm)%nat as Hk by (by apply strcspn_msg).
  assert (length line = k) as Hlen by (unfold line; rewrite length_take, length_drop, length_take; lia).
  destruct (line_step pm w free m Hm Hlt) as (m1 & Hm1 & Heq); [by apply Forall_take|fold k line; lia|].
  fold k line in Hm1, Heq. rewrite Heq, Hlen.
  destruct (next_line fuel pm Hlt Hf) as [Hnext Hq]. fold k in Hnext, Hq.
  rewrite Hnext in Hfree |- *. destruct (IH _ _ _ _ Hm1 Hq) as (m' & He' & Hm').
  - rewrite <- Hnext. apply (Forall_drop _ (S k)). exact Hz.
  - lia.
  - exists m'. rewrite He'. rewrite <- app_assoc in He' |- *. split; [done|]. rewrite <- app_assoc in Hm'.
    rewrite length_app. by rewrite Nat.sub_add_distr.
Qed.
(** A line that does not fit. *)
Lemma line_over pm w free m : holds m w free → (pm < n)%nat →
  let line := take (LF.strcspn newline (drop pm msg)) (drop pm msg) in
  no_nul line → (free < length (dress pre suf line))%nat → ∀ fuel, line_loop pre suf message n (S fuel) pm (length w) m = Undefined.
Proof.
  intros Hm Hpm line Hline Hfree fuel. cbn [line_loop]. rewrite (proj2 (Nat.leb_gt _ _)) by lia.
  set (k := LF.strcspn newline (drop pm msg)) in *.
  assert (k ≤ n - pm)%nat as Hk by (by apply strcspn_msg).
  assert (length line = k) as Hlen by (unfold line; rewrite length_take, length_drop, length_take; lia).
  assert (take k (drop pm message) = line) as Hsrc by (unfold line; rewrite !take_drop_commute, take_take; do 2 f_equal; lia).
  unfold dress in Hfree. rewrite !length_app in Hfree.
  pose proof (strcat_holds m w free pre Hm Hpre) as H1. destruct (strcat m (length w) pre) as [m1| |]; [|done..].
  destruct H1 as [? Hm1]. cbn [obind].
  pose proof (strncat_holds m1 (w ++ pre) _ (drop pm message) k Hm1 ltac:(rewrite length_drop; lia)) as H2.
  cbv zeta in H2. rewrite Hsrc, until_nul_no, length_app in H2 by done.
  destruct (strncat m1 _ (drop pm message) k) as [m2| |]; [|done..]. destruct H2 as [? Hm2]. cbn [obind].
  pose proof (strcat_holds m2 _ _ suf Hm2 Hsuf) as H3. rewrite !length_app, Hlen in H3.
  destruct (strcat m2 _ suf) as [m3| |]; [lia|done..].
Qed.

(** A line with an end of string inside. *)
Lemma line_nul pm w free m : holds m w free → (pm < n)%nat →
  0 ∈ take (LF.strcspn newline (drop pm msg)) (drop pm msg) → ∀ fuel, line_loop pre suf message n (S fuel) pm (length w) m = Undefined.
Proof.
  intros Hm Hpm Hline fuel. cbn [line_loop]. rewrite (proj2 (Nat.leb_gt _ _)) by lia.
  set (k := LF.strcspn newline (drop pm msg)) in *.
  assert (k ≤ n - pm)%nat as Hk by (by apply strcspn_msg).
  assert (take k (drop pm msg) = take k (drop pm message)) as Hsrc by (rewrite !take_drop_commute, take_take; do 2 f_equal; lia).
  rewrite Hsrc in Hline. apply until_nul_cut in Hline. rewrite length_take, length_drop in Hline.
  pose proof (strcat_holds m w free pre Hm Hpre) as H1. destruct (strcat m (length w) pre) as [m1| |]; [|done..].
  destruct H1 as [_ Hm1]. cbn [obind].
  pose proof (strncat_holds m1 (w ++ pre) _ (drop pm message) k Hm1 ltac:(rewrite length_drop; lia)) as H2.
  cbv zeta in H2. rewrite length_app in H2.
  destruct (strncat m1 _ (drop pm message) k) as [m2| |]; [|done..]. destruct H2 as [_ Hm2]. cbn [obind].
  unfold strcat. rewrite (scan_behind _ _ _ _ Hm2); [done|]. rewrite !length_app. lia.
Qed.

Lemma line_loop_nul fuel : ∀ pm w free m, holds m w free → (n - pm < fuel)%nat → 0 ∈ drop pm msg →
  line_loop pre suf message n fuel pm (length w) m = Undefined.
Proof.
  induction fuel as [|fuel IH]; intros pm w free m Hm Hf Hz; [done|].
  destruct (Nat.le_gt_cases n pm) as [Hge|Hlt].
  { rewrite drop_ge in Hz by (rewrite length_take; lia). by apply not_elem_of_nil in Hz. }
  destruct (next_line fuel pm Hlt Hf) as [Hnext Hq].
  set (k := LF.strcspn newline (drop pm msg)) in *. set (line := take k (drop pm msg)).
  destruct (decide (0 ∈ line)) as [Hin|Hout]; [by eapply line_nul|].
  assert (no_nul line) as Hline by (apply Forall_forall; intros c Hc ->; done).
  destruct (Nat.le_gt_cases (length (dress pre suf line)) free); [|by eapply line_over].
  destruct (line_step pm w free m Hm Hlt Hline) as (m1 & Hm1 & ->); [done|]. fold k line.
  assert (k ≤ n - pm)%nat as Hk by (by apply strcspn_msg).
  assert (length line = k) as -> by (unfold line; rewrite length_take, length_drop, length_take; lia).
  eapply IH; [exact Hm1|done|]. rewrite <- Hnext.
  rewrite <- (take_drop (S k) (drop pm msg)) in Hz. apply elem_of_app in Hz as [Hz|?]; [|done]. exfalso.
  destruct (Nat.eq_dec (length (drop pm msg)) k) as [Hlen|Hlen].
  - rewrite take_ge in Hz by lia. apply Hout. unfold line. by rewrite take_ge by lia.
  - destruct (strcspn_stop newline (drop pm msg)) as (c & Hc & Hnl).
    { fold k. pose proof (LF.strcspn_le newline (drop pm msg)) as Hle. fold k in Hle. lia. }
    fold k in Hc. rewrite (take_S_r _ _ _ Hc) in Hz. apply elem_of_app in Hz as [?|Hz%list_elem_of_singleton]; [done|].
    by subst c.
Qed.

End loop.

(** ** The whole function *)

Lemma digits_nz fuel : ∀ n acc, no_nul acc → no_nul (LE.digits fuel n acc).
Proof.
  induction fuel as [|fuel IH]; intros n acc Ha; cbn [LE.digits]; [done|].
  assert (no_nul (chr "0" + n mod 10 :: acc)) as Hc.
  { constructor; [|done]. change (chr "0") with 48. pose proof (Z.mod_pos_bound n 10). lia. }
  destruct (n <? 10); auto.
Qed.

Lemma dec_nz n : no_nul (LE.dec n).
Proof. unfold LE.dec. destruct (n <? 0); [constructor; [done|]|]; by apply digits_nz; constructor. Qed.

Lemma nz_app l k : no_nul l → no_nul k → no_nul (l ++ k).
Proof. intros. by apply Forall_app. Qed.

Lemma nz_replicate w c : c ≠ 0 → no_nul (replicate w c).
Proof. intros. by apply Forall_replicate. Qed.

Lemma nz_pad_left w c s : c ≠ 0 → no_nul s → no_nul (pad_left w c s).
Proof. intros. apply nz_app; [by apply nz_replicate|done]. Qed.

Lemma nz_pad_right w s : no_nul s → no_nul (pad_right w s).
Proof. intros. apply nz_app; [done|by apply nz_replicate]. Qed.

Lemma nz_zero_padded w n : no_nul (zero_padded w n).
Proof. unfold zero_padded. destruct (n <? 0); [constructor; [done|]|]; apply nz_pad_left; try done; apply dec_nz. Qed.

Lemma nz_bytes s : forallb (λ c, negb (c =? 0)) (bytes s) = true → no_nul (bytes s).
Proof.
  rewrite forallb_forall. intros H. apply Forall_forall. intros c Hc%list_elem_of_In. specialize (H c Hc).
  apply negb_true_iff in H. by apply Z.eqb_neq.
Qed.

Lemma nz_pri p : LF.filterPriToChar p ≠ 0.
Proof. unfold LF.filterPriToChar. repeat case_goal_if; by vm_compute. Qed.

Lemma nz_cons c l : c ≠ 0 → no_nul l → no_nul (c :: l).
Proof. by constructor. Qed.
Lemma nz_nil : no_nul [].
Proof. constructor. Qed.

Create HintDb nul.
#[local] Hint Resolve nz_app nz_pad_left nz_pad_right nz_zero_padded dec_nz nz_pri nz_cons nz_nil : nul.
#[local] Hint Extern 1 (no_nul (bytes _)) => (apply nz_bytes; reflexivity) : nul.
#[local] Hint Extern 1 (_ ≠ 0) => (vm_compute; congruence) : nul.

Section whole.
Context (timezone : Z).

Lemma nz_time s : no_nul (timeBuf timezone s).
Proof. unfold timeBuf. auto 20 with nul. Qed.
#[local] Hint Resolve nz_time : nul.

Lemma nz_prefix f e : no_nul (LE.tag e) → no_nul (prefix timezone f e).
Proof. intros Ht. unfold prefix, d5. destruct f; auto 30 with nul. Qed.

Lemma nz_suffix f e : no_nul (LE.tag e) → no_nul (suffix f e).
Proof. intros Ht. unfold suffix. destruct f; auto 10 with nul. Qed.

Lemma nz_128 s : no_nul s → no_nul (in_128 s).
Proof. apply Forall_take. Qed.

(** The text of an entry: every line between prefix and suffix, or, in the
    long format, the whole message between header and footer. *)
Definition text_of (f : LF.AndroidLogPrintFormat) (e : LE.AndroidLogEntry) : list Z :=
  let pre := in_128 (prefix timezone f e) in
  let suf := in_128 (suffix f e) in
  let msg := take (Z.to_nat (LE.messageLen e)) (LE.message e) in
  if prefixSuffixIsHeaderFooter f then dress pre suf msg else List.concat (List.map (dress pre suf) (lines_of msg)).

Lemma lines_of_length m : (length (lines_of m) ≤ length m)%nat.
Proof.
  induction m as [|c m IH]; [done|]. cbn [lines_of length]. destruct (newline c); cbn [length]; [lia|].
  destruct (lines_of m); cbn [length] in *; lia.
Qed.

(** The size computed for an entry is one more than its text at least. *)
Definition size_of (f : LF.AndroidLogPrintFormat) (e : LE.AndroidLogEntry) : Z :=
  let msg := take (Z.to_nat (LE.messageLen e)) (LE.message e) in
  buffer_size (if prefixSuffixIsHeaderFooter f then 1 else numLines msg)
    (Z.of_nat (length (in_128 (prefix timezone f e)))) (Z.of_nat (length (in_128 (suffix f e)))) (LE.messageLen e).

Lemma in_128_length s : (length (in_128 s) ≤ 127)%nat.
Proof. unfold in_128. rewrite length_take. lia. Qed.

Lemma size_enough f e : 0 ≤ LE.messageLen e < 2 ^ 20 → LE.messageLen e ≤ Z.of_nat (length (LE.message e)) →
  Z.of_nat (length (text_of f e)) < size_of f e.
Proof.
  intros Hn Hm. unfold text_of, size_of, buffer_size.
  pose proof (in_128_length (prefix timezone f e)). pose proof (in_128_length (suffix f e)).
  set (pre := in_128 (prefix timezone f e)) in *. set (suf := in_128 (suffix f e)) in *. set (msg := take _ _).
  assert (Z.of_nat (length msg) = LE.messageLen e) as Hmsg by (unfold msg; rewrite length_take; lia).
  destruct (prefixSuffixIsHeaderFooter f).
  - unfold dress. rewrite !length_app, (u32_small (Z.of_nat (length pre) + _)), Z.mul_1_l by lia.
    rewrite (u32_small (Z.of_nat (length pre) + _)) by lia. rewrite u32_small; lia.
  - rewrite dress_length, numLines_lines. pose proof (lines_of_length msg). pose proof (lines_length msg).
    rewrite (u32_small (Z.of_nat (length pre) + _)) by lia.
    assert (0 ≤ Z.of_nat (length (lines_of msg)) * (Z.of_nat (length pre) + Z.of_nat (length suf)) < 2 ^ 30).
    { split; [lia|]. apply (Z.le_lt_trans _ (2 ^ 20 * 254)); [|lia]. apply Z.mul_le_mono_nonneg; lia. }
    rewrite (u32_small (Z.of_nat (length (lines_of msg)) * _)) by lia. rewrite u32_small; lia.
Qed.

Definition well_formed (e : LE.AndroidLogEntry) : Prop :=
  no_nul (LE.tag e) ∧ 0 ≤ LE.messageLen e < 2 ^ 20 ∧ LE.messageLen e < Z.of_nat (length (LE.message e)).

Lemma header_footer_text pre suf message n m free : no_nul pre → no_nul suf → no_nul (take n message) →
  (n < length message)%nat → holds m [] free → (length (dress pre suf (take n message)) ≤ free)%nat →
  ∃ m', header_footer pre suf message n m = Returned (m', length (dress pre suf (take n message))) ∧
        holds m' (dress pre suf (take n message)) (free - length (dress pre suf (take n message))).
Proof.
  intros Hpre Hsuf Hz Hn Hm Hfree. unfold header_footer, dress in *. rewrite !length_app, length_take in Hfree.
  pose proof (strcat_holds m [] free pre Hm Hpre) as H1. cbn [length app] in H1.
  destruct (strcat m 0 pre) as [m1| |]; [|done|lia]. destruct H1 as [_ Hm1]. cbn [obind].
  pose proof (strncat_holds m1 _ _ message n Hm1 ltac:(lia)) as H2. cbv zeta in H2. rewrite until_nul_no, length_take in H2 by done.
  destruct (strncat m1 (length pre) message n) as [m2| |]; [|done|lia]. destruct H2 as [_ Hm2]. cbn [obind].
  pose proof (strcat_holds m2 _ _ suf Hm2 Hsuf) as H3. rewrite length_app, length_take, Nat.min_l in H3 by lia.
  destruct (strcat m2 (length pre + n) suf) as [m3| |]; [|done|lia]. destruct H3 as [_ Hm3]. cbn [obind]. exists m3.
  rewrite !length_app, length_take, Nat.min_l by lia. rewrite <- app_assoc in Hm3.
  rewrite !Nat.sub_add_distr. split; [by rewrite Nat.add_assoc|done].
Qed.

Lemma header_footer_nul pre suf message n m free : no_nul pre → no_nul suf → 0 ∈ take n message →
  (n < length message)%nat → holds m [] free → header_footer pre suf message n m = Undefined.
Proof.
  intros Hpre Hsuf Hz Hn Hm. unfold header_footer. apply until_nul_cut in Hz. rewrite length_take in Hz.
  pose proof (strcat_holds m [] free pre Hm Hpre) as H1. cbn [length app] in H1.
  destruct (strcat m 0 pre) as [m1| |]; [|done..]. destruct H1 as [_ Hm1]. cbn [obind].
  pose proof (strncat_holds m1 _ _ message n Hm1 ltac:(lia)) as H2. cbv zeta in H2.
  destruct (strncat m1 (length pre) message n) as [m2| |]; [|done..]. destruct H2 as [_ Hm2]. cbn [obind].
  unfold strcat. rewrite (scan_behind _ _ _ _ Hm2); [done|]. rewrite length_app. lia.
Qed.

(** The buffer that is filled: the caller's, or a new one of the size. *)
Lemma format_unfold pf dsize e : well_formed e → 0 ≤ dsize →
  ∃ free, (length (text_of (LF.format pf) e) ≤ free)%nat ∧ ∃ m, holds m [] free ∧
    android_log_formatLogLine timezone true pf dsize e =
    (let f := LF.format pf in
     let pre := in_128 (prefix timezone f e) in
     let suf := in_128 (suffix f e) in
     let n := Z.to_nat (LE.messageLen e) in
     let! r := (if prefixSuffixIsHeaderFooter f then header_footer pre suf (LE.message e) n m
                else line_loop pre suf (LE.message e) n (S n) 0 0 m) in
     Returned (Some r)).
Proof.
  intros (_ & Hn & Hm) Hd. pose proof (size_enough (LF.format pf) e Hn ltac:(lia)) as Hsize.
  assert (∀ size, size_of (LF.format pf) e ≤ size → ∃ free, (length (text_of (LF.format pf) e) ≤ free)%nat ∧
    ∃ m, holds m [] free ∧ store (replicate (Z.to_nat size) None) 0 [0] = Returned m) as Hmem.
  { intros size Hs. exists (Z.to_nat size - 1)%nat. split; [lia|]. eexists. split; [reflexivity|].
    unfold store. rewrite (proj2 (Nat.leb_le _ _)) by (rewrite length_replicate; cbn; lia).
    cbn [take firstn length plus]. rewrite drop_replicate. done. }
  unfold android_log_formatLogLine. rewrite (proj2 (Nat.ltb_ge _ _)) by lia. rewrite andb_false_r.
  fold (size_of (LF.format pf) e). cbv zeta. destruct (Z.leb_spec (size_of (LF.format pf) e) dsize) as [Hle|Hgt].
  - destruct (Hmem dsize Hle) as (free & Hf & m & Hh & Hst). exists free. split; [done|]. exists m. split; [done|].
    by rewrite Hst.
  - destruct (Hmem _ (Z.le_refl _)) as (free & Hf & m & Hh & Hst). exists free. split; [done|]. exists m. split; [done|].
    by rewrite Hst.
Qed.

(** C25: an entry whose message holds no end of a string is formatted without
    leaving the buffer, in the caller's buffer or in a new one; the buffer then
    holds the text of the entry with its end, and the length returned is the
    length of the text. *)
Theorem formatLogLine_text pf dsize e : well_formed e → 0 ≤ dsize →
  no_nul (take (Z.to_nat (LE.messageLen e)) (LE.message e)) →
  ∃ m, android_log_formatLogLine timezone true pf dsize e = Returned (Some (m, length (text_of (LF.format pf) e))) ∧
       take (S (length (text_of (LF.format pf) e))) m = (Some <$> text_of (LF.format pf) e) ++ [Some 0].
Proof.
  intros Hwf Hd Hz. pose proof Hwf as (Ht & Hn & Hm). destruct (format_unfold pf dsize e Hwf Hd) as (free & Hf & m & Hh & ->).
  assert (Z.to_nat (LE.messageLen e) < length (LE.message e))%nat as Hlt by lia.
  cbv zeta. set (f := LF.format pf) in *. set (n := Z.to_nat (LE.messageLen e)) in *.
  assert (no_nul (in_128 (prefix timezone f e))) as Hp by (by apply nz_128, nz_prefix).
  assert (no_nul (in_128 (suffix f e))) as Hs by (by apply nz_128, nz_suffix).
  assert (∀ m' t k, holds m' t k → take (S (length t)) m' = (Some <$> t) ++ [Some 0]) as Htake.
  { intros m' t k ->. rewrite take_app_ge, length_fmap by (rewrite length_fmap; lia).
    by replace (S (length t) - length t)%nat with 1%nat by lia. }
  unfold text_of in Hf |- *. fold n in Hf |- *. destruct (prefixSuffixIsHeaderFooter f).
  - destruct (header_footer_text _ _ (LE.message e) n m free Hp Hs Hz Hlt Hh Hf) as (m' & -> & Hm').
    exists m'. split; [done|]. by eapply Htake.
  - destruct (line_loop_text _ _ (LE.message e) n Hp Hs Hlt (S n) 0 [] free m Hh ltac:(lia) Hz Hf) as (m' & He & Hm').
    cbn [length app drop skipn] in He, Hm'. rewrite He. exists m'. split; [done|]. by eapply Htake.
Qed.

(** An end of a string inside the message makes the function search for the
    end of the text in memory it has not written: the position advances by the
    length of the line, but [strncat] stopped at the end inside it. *)
Theorem formatLogLine_nul pf dsize e : well_formed e → 0 ≤ dsize →
  0 ∈ take (Z.to_nat (LE.messageLen e)) (LE.message e) →
  android_log_formatLogLine timezone true pf dsize e = Undefined.
Proof.
  intros Hwf Hd Hz. pose proof Hwf as (Ht & Hn & Hm). destruct (format_unfold pf dsize e Hwf Hd) as (free & _ & m & Hh & ->).
  assert (Z.to_nat (LE.messageLen e) < length (LE.message e))%nat as Hlt by lia.
  cbv zeta. set (n := Z.to_nat (LE.messageLen e)) in *.
  assert (no_nul (in_128 (prefix timezone (LF.format pf) e))) as Hp by (by apply nz_128, nz_prefix).
  assert (no_nul (in_128 (suffix (LF.format pf) e))) as Hs by (by apply nz_128, nz_suffix).
  destruct (prefixSuffixIsHeaderFooter _).
  - by rewrite (header_footer_nul _ _ _ _ m free Hp Hs Hz Hlt Hh).
  - pose proof (line_loop_nul _ _ _ _ Hp Hs Hlt (S n) 0 [] free m Hh ltac:(lia) Hz) as Hu. cbn [length] in Hu. by rewrite Hu.
Qed.

End whole.

(** ** Runs *)

Definition sample (msg : list Z) : LE.AndroidLogEntry :=
  LE.mkEntry 1000000000 123456789 6 42 43 (bytes "net") (Z.of_nat (length msg)) (msg ++ [0]).
Definition with_format (f : LF.AndroidLogPrintFormat) : LF.AndroidLogFormat := LF.mkFormat 6 [] f.

Example brief : text_of 0 LF.FORMAT_BRIEF (sample (bytes "up" ++ 10 :: bytes "down")) =
  bytes "E/net     (   42): up" ++ 10 :: bytes "E/net     (   42): down" ++ [10].
Proof. by vm_compute. Qed.

Example threadtime : text_of 0 LF.FORMAT_THREADTIME (sample (bytes "up")) =
  bytes "09-09 01:46:40.123    42    43 E net     : up" ++ [10].
Proof. by vm_compute. Qed.

Lemma sample_entry_ok : well_formed (sample (bytes "up" ++ 10 :: bytes "down")).
Proof. split; [repeat constructor; by vm_compute|]. cbn. lia. Qed.

Lemma formatLogLine_text_witness :
  ∃ m, android_log_formatLogLine 0 true (with_format LF.FORMAT_LONG) 16 (sample (bytes "up" ++ 10 :: bytes "down")) =
       Returned (Some (m, 55%nat)).
Proof.
  destruct (formatLogLine_text 0 (with_format LF.FORMAT_LONG) 16 (sample (bytes "up" ++ 10 :: bytes "down"))) as (m & H & _).
  - exact sample_entry_ok.
  - lia.
  - repeat constructor; vm_compute; congruence.
  - exists m. exact H.
Defined.

Lemma formatLogLine_nul_witness :
  android_log_formatLogLine 0 true (with_format LF.FORMAT_BRIEF) 512 (sample (bytes "up" ++ 0 :: bytes "down")) = Undefined.
Proof.
  apply (formatLogLine_nul 0 (with_format LF.FORMAT_BRIEF) 512).
  - split; [repeat constructor; by vm_compute|]. cbn. lia.
  - lia.
  - vm_compute. right. right. left.
Defined.

End LP.
