(* ===== verification/EventTagMap.v ===== *)
(** The map of event tags of [event_tag_map.c]: a file of numbers and names is
    read into memory, the names are ended in place, the entries are sorted and
    found by a binary search. *)

From Stdlib Require Import Sorted.
From S2P Require Import Prelude LogFilter LogEvent.

Module ET.


(** [tagStr] is a place in the memory of the file. *)
Record EventTag := mkTag { tagIndex : Z; tagStr : nat }.
Record EventTagMap := mkMap { mapAddr : list Z; tagArray : list EventTag }.

Definition isCharWhitespace (c : Z) : bool := (c =? chr " ") || (c =? 10) || (c =? 13) || (c =? 9).
Definition isCharDigit (c : Z) : bool := (chr "0" <=? c) && (c <=? chr "9").
Definition isCharValidTag (c : Z) : bool :=
  ((chr "A" <=? c) && (c <=? chr "Z")) || ((chr "a" <=? c) && (c <=? chr "z")) || ((chr "0" <=? c) && (c <=? chr "9")) ||
  (c =? chr "_").

(** ** Looking up *)

Definition string_at (m : list Z) (p : nat) : cstring := until_nul (drop p m).

Fixpoint lookup_loop (fuel : nat) (tags : list EventTag) (lo hi tag : Z) : outcome (option nat) :=
  match fuel with
  | O => Undefined
  | S fuel =>
    if lo <=? hi then
      let mid := Z.quot (s32 (lo + hi)) 2 in
      let! e := oderef (tags !! Z.to_nat mid) in
      let cmp := s32 (tagIndex e - tag) in
      if cmp <? 0 then lookup_loop fuel tags (mid + 1) hi tag
      else if 0 <? cmp then lookup_loop fuel tags lo (mid - 1) tag
      else Returned (Some (tagStr e))
    else Returned None
  end.

Definition android_lookupEventTag (m : EventTagMap) (tag : Z) : outcome (option nat) :=
  lookup_loop (S (length (tagArray m))) (tagArray m) 0 (Z.of_nat (length (tagArray m)) - 1) tag.

(** ** Reading the file *)

Fixpoint count_lines (unknown : bool) (l : list Z) : Z :=
  match l with
  | [] => 0
  | c :: l' =>
    if c =? 10 then count_lines true l'
    else if unknown then
      if isCharDigit c then 1 + count_lines false l'
      else count_lines (isCharWhitespace c) l'
    else count_lines false l'
  end.
Definition countMapLines (m : list Z) : Z := count_lines true m.

(** [strtoul] of decimal digits. *)
Definition value (ds : list Z) : Z := foldl (λ v c, 10 * v + (c - chr "0")) 0 ds.
Definition strtoul (ds : list Z) : Z := Z.min (value ds) (2 ^ 32 - 1).

(** The memory afterwards, the entry, and the last character of the line. *)
Definition scanTagLine (m : list Z) (startp : nat) : outcome (option (list Z * EventTag * nat)) :=
  let! n1 := char_run isCharDigit (drop (S startp) m) in
  let e1 := (S startp + n1)%nat in
  let m1 := <[e1 := 0]> m in
  let val := strtoul (take (S n1) (drop startp m)) in
  let! n2 := char_run (λ c, negb (c =? 10) && isCharWhitespace c) (drop (S e1) m1) in
  let e2 := (S e1 + n2)%nat in
  let! c := oderef (m1 !! e2) in
  if c =? 10 then Returned None
  else
    let! n3 := char_run isCharValidTag (drop (S e2) m1) in
    let e3 := (S e2 + n3)%nat in
    let! c := oderef (m1 !! e3) in
    let m2 := <[e3 := 0]> m1 in
    if c =? 10 then Returned (Some (m2, mkTag val e2, e3))
    else if isCharWhitespace c then
      let! n4 := char_run (λ c, negb (c =? 10)) (drop (S e3) m2) in
      Returned (Some (m2, mkTag val e2, (S e3 + n4)%nat))
    else Returned None.

(** The loop over the characters: the memory and the entries, or a failure. *)
Fixpoint parse_loop (fuel : nat) (numTags : Z) (m : list Z) (cp : nat) (lineStart : bool) (tags : list EventTag)
  : outcome (option (list Z * list EventTag)) :=
  match fuel with
  | O => Undefined
  | S fuel =>
    if (length m <=? cp)%nat then Returned (Some (m, tags))
    else
      let! c := oderef (m !! cp) in
      if c =? 10 then parse_loop fuel numTags m (S cp) true tags
      else if lineStart then
        if c =? chr "#" then parse_loop fuel numTags m (S cp) false tags
        else if isCharDigit c then
          if numTags <=? Z.of_nat (length tags) then Returned None
          else
            let! r := scanTagLine m cp in
            match r with
            | None => Returned None
            | Some (m', t, cp') => parse_loop fuel numTags m' (S cp') true (tags ++ [t])
            end
        else if isCharWhitespace c then parse_loop fuel numTags m (S cp) true tags
        else Returned None
      else parse_loop fuel numTags m (S cp) false tags
  end.

Definition parseMapLines (m : list Z) (numTags : Z) : outcome (option (list Z * list EventTag)) :=
  let! c := oderef (last m) in
  if negb (c =? 10) then Returned None
  else
    let! r := parse_loop (S (length m)) numTags m 0 true [] in
    match r with
    | None => Returned None
    | Some (m', tags) => Returned (if Z.of_nat (length tags) =? numTags then Some (m', tags) else None)
    end.

Definition compareEventTags (t1 t2 : EventTag) : Z := s32 (tagIndex t1 - tagIndex t2).

(** The entries next to each other with the same number. *)
Fixpoint duplicate (tags : list EventTag) : bool :=
  match tags with
  | t1 :: (t2 :: _) as tags' => (tagIndex t2 =? tagIndex t1) || duplicate tags'
  | _ => false
  end.

Section sorting.
(** [qsort] of the C library. *)
Context (qsort : (EventTag → EventTag → Z) → list EventTag → list EventTag).

Definition sortTags (tags : list EventTag) : option (list EventTag) :=
  let sorted := qsort compareEventTags tags in if duplicate sorted then None else Some sorted.

(** [calloc_ok]: whether there is memory for the entries. *)
Definition processFile (calloc_ok : bool) (m : list Z) : outcome (option EventTagMap) :=
  let numTags := countMapLines m in
  if negb calloc_ok then Returned None
  else
    let! r := parseMapLines m numTags in
    match r with
    | None => Returned None
    | Some (m', tags) => Returned (mkMap m' <$> sortTags tags)
    end.

End sorting.
(** ** The binary search *)

Definition in_31 (tags : list EventTag) : Prop := Forall (λ t, 0 ≤ tagIndex t < 2 ^ 31) tags.
Definition by_index (t1 t2 : EventTag) : Prop := tagIndex t1 < tagIndex t2.

Lemma sorted_lookup tags i j t1 t2 : StronglySorted by_index tags → (i < j)%nat →
  tags !! i = Some t1 → tags !! j = Some t2 → tagIndex t1 < tagIndex t2.
Proof.
  intros Hs. revert i j. induction Hs as [|t tags Hs IH Ht]; intros i j Hij H1 H2; [done|].
  destruct j as [|j]; [lia|]. cbn in H2. destruct i as [|i]; cbn in H1; [|apply (IH i j); auto with lia].
  injection H1 as ->. rewrite Forall_forall in Ht. by eapply Ht, list_elem_of_lookup_2.
Qed.

Section search.
Context (tags : list EventTag) (tag : Z).
Context (Hsorted : StronglySorted by_index tags) (H31 : in_31 tags) (Hlen : Z.of_nat (length tags) < 2 ^ 30) (Htag : 0 ≤ tag < 2 ^ 31).

Lemma lookup_loop_spec fuel : ∀ lo hi, 0 ≤ lo ≤ hi + 1 → hi < Z.of_nat (length tags) → hi - lo + 1 < Z.of_nat fuel →
  (∀ i t, tags !! i = Some t → tagIndex t = tag → lo ≤ Z.of_nat i ≤ hi) →
  ∃ r, lookup_loop fuel tags lo hi tag = Returned r ∧
    match r with
    | Some p => mkTag tag p ∈ tags
    | None => ∀ t, t ∈ tags → tagIndex t ≠ tag
    end.
Proof.
  induction fuel as [|fuel IH]; intros lo hi Hlo Hhi Hf Hin; cbn [lookup_loop].
  { exists None. exfalso. lia. }
  destruct (Z.leb_spec lo hi) as [Hle|Hgt].
  2:{ exists None. split; [done|]. intros t [i Hi]%list_elem_of_lookup Ht. specialize (Hin i t Hi Ht). lia. }
  rewrite (s32_small (lo + hi)), Z.quot_div_nonneg by lia. set (mid := (lo + hi) / 2).
  assert (lo ≤ mid ≤ hi) as Hmid by (unfold mid; Z.div_mod_to_equations; lia).
  destruct (lookup_lt_is_Some_2 tags (Z.to_nat mid)) as [e He]; [lia|]. rewrite He. cbn [oderef obind].
  assert (0 ≤ tagIndex e < 2 ^ 31) as Hr by (eapply (proj1 (Forall_forall _ _) H31), list_elem_of_lookup_2, He).
  rewrite s32_small by lia. destruct (Z.ltb_spec (tagIndex e - tag) 0).
  - apply IH; [lia..|]. intros i t Hi Ht. specialize (Hin i t Hi Ht). destruct (Z.le_gt_cases (Z.of_nat i) mid); [|lia].
    destruct (Z.eq_dec (Z.of_nat i) mid) as [Heq|Hne].
    + rewrite <- Heq, Nat2Z.id in He. simplify_eq. lia.
    + assert (i < Z.to_nat mid)%nat as Hlt by lia. pose proof (sorted_lookup _ _ _ _ _ Hsorted Hlt Hi He). lia.
  - destruct (Z.ltb_spec 0 (tagIndex e - tag)).
    + apply IH; [lia..|]. intros i t Hi Ht. specialize (Hin i t Hi Ht). destruct (Z.le_gt_cases mid (Z.of_nat i)); [|lia].
      destruct (Z.eq_dec (Z.of_nat i) mid) as [Heq|Hne].
      * rewrite <- Heq, Nat2Z.id in He. simplify_eq. lia.
      * assert (Z.to_nat mid < i)%nat as Hlt by lia. pose proof (sorted_lookup _ _ _ _ _ Hsorted Hlt He Hi). lia.
    + eexists. split; [done|]. cbn. apply list_elem_of_lookup_2 in He. destruct e as [ei ep]. cbn in *.
      by replace tag with ei by lia.
Qed.

Lemma lookup_loop_full : ∃ r, lookup_loop (S (length tags)) tags 0 (Z.of_nat (length tags) - 1) tag = Returned r ∧
    match r with
    | Some p => mkTag tag p ∈ tags
    | None => ∀ t, t ∈ tags → tagIndex t ≠ tag
    end.
Proof. apply lookup_loop_spec; [lia..|]. intros i t Hi _. apply lookup_lt_Some in Hi. lia. Qed.
End search.

(** In a map of entries sorted by number, all below 2^31, the search ends,
    finds the place of a number that is there, and finds nothing for any
    other. *)
Theorem lookup_correct m tag : StronglySorted by_index (tagArray m) → in_31 (tagArray m) →
  Z.of_nat (length (tagArray m)) < 2 ^ 30 → 0 ≤ tag < 2 ^ 31 →
  ∃ r, android_lookupEventTag m tag = Returned r ∧ ∀ p, r = Some p ↔ mkTag tag p ∈ tagArray m.
Proof.
  intros Hs H31 Hlen Htag. destruct (lookup_loop_full _ _ Hs H31 Hlen Htag) as (r & Hr & Hspec). exists r. split; [done|].
  intros p. destruct r as [q|]; split; try done.
  - by intros [= ->].
  - intros [j Hj]%list_elem_of_lookup. apply list_elem_of_lookup in Hspec as [i Hi].
    destruct (Nat.lt_trichotomy i j) as [Hij|[->|Hij]].
    + pose proof (sorted_lookup _ _ _ _ _ Hs Hij Hi Hj) as Hlt. cbn in Hlt. lia.
    + rewrite Hi in Hj. by simplify_eq.
    + pose proof (sorted_lookup _ _ _ _ _ Hs Hij Hj Hi) as Hlt. cbn in Hlt. lia.
  - intros Hin. by destruct (Hspec _ Hin).
Qed.

(** The comparison by difference goes round in a circle for numbers far apart:
    each of these entries is before the next, and the last before the first. *)
Example compare_circle :
  let a := mkTag 0 0 in let b := mkTag 1500000000 0 in let c := mkTag 3000000000 0 in
  compareEventTags a b < 0 ∧ compareEventTags b c < 0 ∧ compareEventTags c a < 0.
Proof. by vm_compute. Qed.

(** ** Files *)

(** The lines of a map file: comments, blank lines and entries, with blanks in
    front and a description behind the name. *)
Inductive line :=
  | Comment (lead text : list Z)
  | Blank (lead : list Z)
  | Entry (lead : list Z) (index : Z) (gap name tail : list Z).

Definition write_line (l : line) : list Z :=
  match l with
  | Comment lead text => lead ++ chr "#" :: text ++ [10]
  | Blank lead => lead ++ [10]
  | Entry lead index gap name tail => lead ++ LE.dec index ++ gap ++ name ++ tail ++ [10]
  end.
Definition write_file (ls : list line) : list Z := List.concat (List.map write_line ls).

Definition entries (ls : list line) : list (Z * cstring) :=
  omap (λ l, match l with Entry _ index _ name _ => Some (index, name) | _ => None end) ls.

Definition blanks (l : list Z) : Prop := Forall (λ c, isCharWhitespace c = true ∧ c ≠ 10) l.
Definition no_newline (l : list Z) : Prop := Forall (λ c, c ≠ 10) l.

Definition line_ok (l : line) : Prop :=
  match l with
  | Comment lead text => blanks lead ∧ no_newline text
  | Blank lead => blanks lead
  | Entry lead index gap name tail =>
    blanks lead ∧ 0 ≤ index < 2 ^ 31 ∧ (gap ≠ [] ∧ blanks gap) ∧ (name ≠ [] ∧ Forall (λ c, isCharValidTag c = true) name) ∧
    no_newline tail ∧ match tail with [] => True | c :: _ => isCharWhitespace c = true end
  end.

(** ** Characters *)

Lemma blank_kind c : isCharWhitespace c = true → isCharDigit c = false ∧ isCharValidTag c = false ∧ c ≠ chr "#".
Proof.
  unfold isCharWhitespace. rewrite !orb_true_iff, !Z.eqb_eq. change (chr " ") with 32.
  intros [[[->| ->]| ->]| ->]; by vm_compute.
Qed.

Lemma valid_kind c : isCharValidTag c = true → isCharWhitespace c = false ∧ c ≠ 10 ∧ c ≠ 0.
Proof.
  intros H. destruct (isCharWhitespace c) eqn:E; [apply blank_kind in E as (_ & E & _); congruence|].
  split; [done|]. split; intros ->; by vm_compute in H.
Qed.

Lemma digit_kind c : isCharDigit c = true → isCharWhitespace c = false ∧ c ≠ 10 ∧ c ≠ chr "#".
Proof.
  intros H. destruct (isCharWhitespace c) eqn:E; [apply blank_kind in E as (E & _); congruence|].
  split; [done|]. split; intros ->; by vm_compute in H.
Qed.

Lemma digits_digits fuel : ∀ n acc, 0 ≤ n → Forall (λ c, isCharDigit c = true) acc →
  Forall (λ c, isCharDigit c = true) (LE.digits fuel n acc).
Proof.
  induction fuel as [|fuel IH]; intros n acc Hn Ha; cbn [LE.digits]; [done|].
  assert (Forall (λ c, isCharDigit c = true) (chr "0" + n mod 10 :: acc)) as Hc.
  { constructor; [|done]. unfold isCharDigit. change (chr "0") with 48. change (chr "9") with 57. change (chr "0") with 48.
    pose proof (Z.mod_pos_bound n 10). apply andb_true_iff. lia. }
  destruct (n <? 10); [done|]. apply IH; [Z.div_mod_to_equations; lia|done].
Qed.

Lemma digits_value fuel : ∀ n acc v, 0 ≤ n < 10 ^ Z.of_nat fuel →
  foldl (λ v c, 10 * v + (c - chr "0")) v (LE.digits fuel n acc) =
  foldl (λ v c, 10 * v + (c - chr "0")) (foldl (λ v c, 10 * v + (c - chr "0")) v (LE.digits fuel n [])) acc.
Proof.
  induction fuel as [|fuel IH]; intros n acc v Hn; cbn [LE.digits]; [done|].
  destruct (Z.ltb_spec n 10); [done|]. replace (Z.of_nat (S fuel)) with (Z.of_nat fuel + 1) in Hn by lia.
  rewrite Z.pow_add_r in Hn by lia. assert (0 ≤ n / 10 < 10 ^ Z.of_nat fuel) as Hd by (Z.div_mod_to_equations; lia).
  rewrite (IH _ (_ :: acc) v Hd), (IH _ [_] v Hd). done.
Qed.

Lemma value_dec n : 0 ≤ n < 10 ^ 20 → value (LE.dec n) = n.
Proof.
  intros Hn. unfold value, LE.dec. rewrite (proj2 (Z.ltb_ge n 0)) by lia. change 20 with (Z.of_nat 20) in Hn.
  generalize dependent n. generalize 20%nat as fuel. induction fuel as [|fuel IH]; intros n Hn; [cbn in *; lia|].
  cbn [LE.digits]. destruct (Z.ltb_spec n 10).
  - cbn. change (chr "0") with 48. change (chr "0") with 48. rewrite Z.mod_small; lia.
  - replace (Z.of_nat (S fuel)) with (Z.of_nat fuel + 1) in Hn by lia.
    rewrite Z.pow_add_r in Hn by lia. assert (0 ≤ n / 10 < 10 ^ Z.of_nat fuel) as Hd by (Z.div_mod_to_equations; lia).
    rewrite digits_value, (IH _ Hd) by done. cbn. change (chr "0") with 48. change (chr "0") with 48. Z.div_mod_to_equations. lia.
Qed.

Lemma dec_digits n : 0 ≤ n → ∃ d ds, LE.dec n = d :: ds ∧ Forall (λ c, isCharDigit c = true) (d :: ds).
Proof.
  intros Hn. unfold LE.dec. rewrite (proj2 (Z.ltb_ge n 0)) by lia.
  pose proof (digits_digits 20 n [] Hn ltac:(constructor)) as Hd.
  destruct (LE.digits 20 n []) as [|d ds] eqn:E; [|by exists d, ds]. exfalso. revert E.
  assert (∀ fuel n acc, acc ≠ [] → LE.digits fuel n acc ≠ []) as Hne.
  { clear. induction fuel as [|fuel IH]; intros n acc Ha; cbn [LE.digits]; [done|]. destruct (n <? 10); [done|]. by apply IH. }
  cbn [LE.digits]. destruct (n <? 10); [done|]. apply (Hne 19%nat). done.
Qed.

(** ** One line *)

Lemma insert_middle {A} (l : list A) x y k : <[length l := x]> (l ++ y :: k) = l ++ x :: k.
Proof. rewrite insert_app_r_alt by lia. by rewrite Nat.sub_diag. Qed.

Lemma drop_middle {A} (l : list A) x k : drop (S (length l)) (l ++ x :: k) = k.
Proof. rewrite drop_app_ge by lia. by replace (S (length l) - length l)%nat with 1%nat by lia. Qed.

(** The line in memory when it has been scanned. *)
Definition zapped (ds gap name tail : list Z) : list Z :=
  ds ++ 0 :: drop 1 gap ++ name ++ 0 :: match tail with [] => [] | _ :: tail' => tail' ++ [10] end.

Lemma scan_line done d ds g gap c name tail rest :
  let digits := d :: ds in
  Forall (λ c, isCharDigit c = true) digits → blanks (g :: gap) → Forall (λ c, isCharValidTag c = true) (c :: name) →
  no_newline tail → match tail with [] => True | c :: _ => isCharWhitespace c = true end →
  scanTagLine (done ++ digits ++ (g :: gap) ++ (c :: name) ++ tail ++ 10 :: rest) (length done) =
  Returned (Some (done ++ zapped digits (g :: gap) (c :: name) tail ++ rest,
                  mkTag (strtoul digits) (length (done ++ digits ++ 0 :: gap)),
                  (length (done ++ zapped digits (g :: gap) (c :: name) tail) - 1)%nat)).
Proof.
  intros digits Hd [[Hg Hg10] Hgap]%Forall_cons [Hc Hname]%Forall_cons Htail Hhead. unfold scanTagLine.
  apply valid_kind in Hc as (Hcw & Hc10 & _). apply Forall_cons in Hd as [_ Hds].
  cbn [app]. subst digits. cbn [app]. rewrite drop_middle, char_run_app; [|done|by apply blank_kind]. cbn [obind].
  assert (take (S (length ds)) (drop (length done) (done ++ d :: ds ++ g :: gap ++ c :: name ++ tail ++ 10 :: rest)) = d :: ds) as ->.
  { rewrite drop_app_length. cbn [take firstn]. f_equal. apply take_app_length. }
  assert ((S (length done) + length ds)%nat = length (done ++ d :: ds)) as -> by (rewrite length_app; cbn; lia).
  replace (done ++ d :: ds ++ g :: gap ++ c :: name ++ tail ++ 10 :: rest)
    with ((done ++ d :: ds) ++ g :: gap ++ c :: name ++ tail ++ 10 :: rest) by (by rewrite <- app_assoc).
  rewrite insert_middle, drop_middle, char_run_app; cycle 1.
  { eapply Forall_impl; [exact Hgap|]. intros x [Hx Hx10]. rewrite Hx. by rewrite (proj2 (Z.eqb_neq x 10)). }
  { by rewrite Hcw, andb_false_r. }
  cbn [obind]. set (pre := (done ++ d :: ds) ++ 0 :: gap).
  assert ((S (length (done ++ d :: ds)) + length gap)%nat = length pre) as -> by (unfold pre; rewrite (length_app _ (0 :: gap)); cbn; lia).
  replace ((done ++ d :: ds) ++ 0 :: gap ++ c :: name ++ tail ++ 10 :: rest)
    with (pre ++ c :: name ++ tail ++ 10 :: rest) by (unfold pre; by rewrite <- !app_assoc).
  rewrite list_lookup_middle by done. cbn [oderef obind]. rewrite (proj2 (Z.eqb_neq c 10)), drop_middle by done.
  assert (∃ t rest', tail ++ 10 :: rest = t :: rest' ∧ isCharWhitespace t = true) as (t & rest' & Ht & Htw).
  { destruct tail as [|t tail]; [by exists 10, rest|by exists t, (tail ++ 10 :: rest)]. }
  rewrite Ht, char_run_app; [|done|by apply blank_kind]. cbn [obind]. set (pre2 := pre ++ c :: name).
  assert ((S (length pre) + length name)%nat = length pre2) as -> by (unfold pre2; rewrite length_app; cbn; lia).
  replace (pre ++ c :: name ++ t :: rest') with (pre2 ++ t :: rest') by (unfold pre2; by rewrite <- !app_assoc).
  rewrite list_lookup_middle by done. cbn [oderef obind]. rewrite insert_middle, drop_middle.
  assert (length (done ++ d :: ds ++ 0 :: gap) = length pre) as -> by (unfold pre; by rewrite <- app_assoc).
  assert (done ++ (d :: ds) ++ 0 :: gap ++ (c :: name) ++ [0] = pre2 ++ [0]) as Hpre.
  { unfold pre2, pre. by rewrite <- !app_assoc. }
  destruct tail as [|t' tail]; cbn [app] in Ht; injection Ht as <- <-.
  - cbn [Z.eqb Pos.eqb]. unfold zapped. cbn [drop skipn]. rewrite drop_0. do 2 f_equal.
    assert (pre2 ++ 0 :: rest = done ++ ((d :: ds) ++ 0 :: gap ++ (c :: name) ++ [0]) ++ rest) as ->.
    { rewrite app_assoc, Hpre, <- app_assoc. done. }
    f_equal. rewrite Hpre, length_app. cbn. lia.
  - apply Forall_cons in Htail as [Ht10 Htail]. rewrite (proj2 (Z.eqb_neq t' 10)), Htw by done.
    rewrite char_run_app; [|eapply Forall_impl; [exact Htail|]; intros x Hx; by rewrite (proj2 (Z.eqb_neq x 10))|done].
    cbn [obind]. unfold zapped. cbn [drop skipn]. rewrite drop_0.
    assert (done ++ (d :: ds) ++ 0 :: gap ++ (c :: name) ++ 0 :: tail ++ [10] = pre2 ++ 0 :: tail ++ [10]) as Hz.
    { unfold pre2, pre. by rewrite <- !app_assoc. }
    do 2 f_equal. rewrite (app_assoc done), Hz, <- !app_assoc. cbn [app]. rewrite <- app_assoc. f_equal.
    rewrite length_app. cbn. rewrite length_app. cbn. lia.
Qed.

(** ** All lines *)

Lemma count_rest l r : no_newline l → count_lines false (l ++ 10 :: r) = count_lines true r.
Proof. induction 1 as [|c l Hc Hl IH]; [done|]. cbn [app count_lines]. by rewrite (proj2 (Z.eqb_neq c 10)). Qed.

Lemma count_blanks l r : blanks l → count_lines true (l ++ r) = count_lines true r.
Proof.
  induction 1 as [|c l [Hw Hc] Hl IH]; [done|]. cbn [app count_lines]. rewrite (proj2 (Z.eqb_neq c 10)) by done.
  by rewrite (proj1 (blank_kind c Hw)), Hw.
Qed.

Lemma blanks_no_newline l : blanks l → no_newline l.
Proof. intros H. eapply Forall_impl; [exact H|]. by intros c [_ ?]. Qed.

Lemma count_file ls : Forall line_ok ls → countMapLines (write_file ls) = Z.of_nat (length (entries ls)).
Proof.
  unfold countMapLines, write_file. induction 1 as [|l ls Hl Hls IH]; [done|]. cbn [List.map List.concat].
  destruct l as [lead text|lead|lead index gap name tail]; cbn [write_line line_ok] in *.
  - destruct Hl as [Hlead Htext]. rewrite <- app_assoc, count_blanks by done. cbn [app count_lines].
    change (chr "#" =? 10) with false. change (isCharDigit (chr "#")) with false. change (isCharWhitespace (chr "#")) with false.
    rewrite <- app_assoc. cbn [app]. by rewrite count_rest.
  - rewrite <- app_assoc, count_blanks by done. exact IH.
  - destruct Hl as (Hlead & Hidx & [_ Hgap] & [_ Hname] & Htail & _). destruct (dec_digits index ltac:(lia)) as (d & ds & -> & Hd).
    rewrite <- !app_assoc, count_blanks by done. cbn [app count_lines].
    apply Forall_cons in Hd as [Hd Hds]. rewrite (proj2 (Z.eqb_neq d 10)) by (by apply digit_kind). rewrite Hd.
    rewrite !app_assoc, count_rest, IH.
    + change (entries (Entry lead index gap name tail :: ls)) with ((index, name) :: entries ls). cbn [length]. lia.
    + repeat apply Forall_app_2; try done; [|by apply blanks_no_newline|].
      * eapply Forall_impl; [exact Hds|]. intros c Hc. by apply digit_kind.
      * eapply Forall_impl; [exact Hname|]. intros c Hc. by apply valid_kind.
Qed.

Lemma parse_step fuel N done c rest start tags :
  parse_loop (S fuel) N (done ++ c :: rest) (length done) start tags =
  if c =? 10 then parse_loop fuel N (done ++ c :: rest) (length (done ++ [c])) true tags
  else if start then
    if c =? chr "#" then parse_loop fuel N (done ++ c :: rest) (length (done ++ [c])) false tags
    else if isCharDigit c then
      if N <=? Z.of_nat (length tags) then Returned None
      else
        let! r := scanTagLine (done ++ c :: rest) (length done) in
        match r with
        | None => Returned None
        | Some (m', t, cp') => parse_loop fuel N m' (S cp') true (tags ++ [t])
        end
    else if isCharWhitespace c then parse_loop fuel N (done ++ c :: rest) (length (done ++ [c])) true tags
    else Returned None
  else parse_loop fuel N (done ++ c :: rest) (length (done ++ [c])) false tags.
Proof.
  cbn [parse_loop]. rewrite (proj2 (Nat.leb_gt _ _)) by (rewrite length_app; cbn; lia).
  rewrite list_lookup_middle by done. cbn [oderef obind]. rewrite length_app, Nat.add_1_r. done.
Qed.

Lemma parse_blanks N lead : blanks lead → ∀ fuel done rest tags, (length (lead ++ rest) < fuel)%nat → ∃ fuel',
  (length rest < fuel')%nat ∧
  parse_loop fuel N (done ++ lead ++ rest) (length done) true tags =
  parse_loop fuel' N ((done ++ lead) ++ rest) (length (done ++ lead)) true tags.
Proof.
  induction 1 as [|c lead [Hw Hc] Hl IH]; intros fuel done rest tags Hf.
  { exists fuel. split; [done|]. by rewrite app_nil_r. }
  cbn [app length] in Hf. destruct fuel as [|fuel]; [lia|]. cbn [app]. rewrite parse_step.
  destruct (blank_kind c Hw) as (Hd & _ & Hh). rewrite (proj2 (Z.eqb_neq c 10)), (proj2 (Z.eqb_neq c _)), Hd, Hw by done.
  destruct (IH fuel (done ++ [c]) rest tags ltac:(lia)) as (fuel' & Hf' & He). exists fuel'. split; [done|].
  rewrite <- !app_assoc in He. rewrite <- app_assoc. exact He.
Qed.

Lemma parse_rest N text : no_newline text → ∀ fuel done rest tags, (length (text ++ 10%Z :: rest) < fuel)%nat → ∃ fuel',
  (length rest < fuel')%nat ∧
  parse_loop fuel N (done ++ text ++ 10 :: rest) (length done) false tags =
  parse_loop fuel' N ((done ++ text ++ [10]) ++ rest) (length (done ++ text ++ [10])) true tags.
Proof.
  induction 1 as [|c text Hc Ht IH]; intros fuel done rest tags Hf; cbn [app length] in Hf; (destruct fuel as [|fuel]; [lia|]).
  - exists fuel. split; [lia|]. cbn [app]. rewrite parse_step. cbn [Z.eqb Pos.eqb]. by rewrite <- app_assoc.
  - cbn [app]. rewrite parse_step, (proj2 (Z.eqb_neq c 10)) by done.
    destruct (IH fuel (done ++ [c]) rest tags ltac:(lia)) as (fuel' & Hf' & He). exists fuel'. split; [done|].
    rewrite <- !app_assoc in He. rewrite <- !app_assoc. cbn [app] in He |- *. rewrite <- app_assoc. exact He.
Qed.

Definition resolves (m : list Z) (t : EventTag) (e : Z * cstring) : Prop := tagIndex t = e.1 ∧ string_at m (tagStr t) = e.2.

Lemma resolves_name a name b i : Forall (λ c, c ≠ 0) name → resolves (a ++ name ++ 0 :: b) (mkTag i (length a)) (i, name).
Proof. intros Hn. split; [done|]. cbn. unfold string_at. rewrite drop_app_length. by apply until_nul_app. Qed.

Lemma parse_lines N ls : Forall line_ok ls → ∀ fuel done tags, (length (write_file ls) < fuel)%nat →
  Z.of_nat (length tags + length (entries ls)) ≤ N →
  ∃ m new, parse_loop fuel N (done ++ write_file ls) (length done) true tags = Returned (Some (done ++ m, tags ++ new)) ∧
    Forall2 (resolves (done ++ m)) new (entries ls).
Proof.
  unfold write_file. induction 1 as [|l ls Hl Hls IH]; intros fuel done tags Hf HN.
  { exists [], []. cbn. rewrite !app_nil_r. destruct fuel as [|fuel]; [cbn in Hf; lia|]. cbn [parse_loop].
    by rewrite (proj2 (Nat.leb_le _ _)) by lia. }
  cbn [List.map List.concat] in Hf |- *. set (file := List.concat (List.map write_line ls)) in *.
  destruct l as [lead text|lead|lead index gap name tail]; cbn [write_line line_ok] in *.
  - destruct Hl as [Hlead Htext]. rewrite <- app_assoc in Hf |- *. cbn [app] in Hf |- *.
    destruct (parse_blanks N lead Hlead fuel done _ tags Hf) as (f1 & Hf1 & ->). cbn [length] in Hf1.
    destruct f1 as [|f1]; [lia|]. rewrite parse_step. cbn [Z.eqb]. change (chr "#" =? 10) with false. rewrite Z.eqb_refl.
    rewrite <- (app_assoc text) in Hf1 |- *. cbn [app] in Hf1 |- *.
    destruct (parse_rest N text Htext f1 ((done ++ lead) ++ [chr "#"]) file tags ltac:(lia)) as (f2 & Hf2 & He).
    replace ((done ++ lead) ++ chr "#" :: text ++ 10 :: file) with (((done ++ lead) ++ [chr "#"]) ++ text ++ 10 :: file)
      by (by rewrite <- !app_assoc).
    rewrite He. destruct (IH f2 (((done ++ lead) ++ [chr "#"]) ++ text ++ [10]) tags Hf2 HN) as (m & new & Hp & Hres).
    rewrite Hp. rewrite <- !app_assoc in Hp, Hres |- *. eexists _, new. split; [done|]. exact Hres.
  - rewrite <- app_assoc in Hf |- *. cbn [app] in Hf |- *.
    destruct (parse_blanks N lead Hl fuel done _ tags Hf) as (f1 & Hf1 & ->). cbn [length] in Hf1.
    destruct f1 as [|f1]; [lia|]. rewrite parse_step. cbn [Z.eqb Pos.eqb].
    destruct (IH f1 ((done ++ lead) ++ [10]) tags ltac:(lia) HN) as (m & new & Hp & Hres).
    rewrite <- (app_assoc (done ++ lead)) in Hp. cbn [app] in Hp. rewrite Hp.
    rewrite <- !app_assoc in Hres |- *. eexists _, new. split; [done|]. exact Hres.
  - destruct Hl as (Hlead & Hidx & [Hg Hgap] & [Hn Hname] & Htail & Hhead).
    destruct gap as [|g gap]; [done|]. destruct name as [|c name]; [done|].
    destruct (dec_digits index ltac:(lia)) as (d & ds & Hdec & Hd). rewrite Hdec in Hf |- *. rewrite <- !app_assoc in Hf |- *.
    destruct (parse_blanks N lead Hlead fuel done _ tags Hf) as (f1 & Hf1 & ->).
    destruct f1 as [|f1]; [cbn in Hf1; lia|]. set (dl := done ++ lead).
    change ((d :: ds) ++ ?x) with (d :: ds ++ x). rewrite parse_step.
    pose proof (Forall_inv Hd) as Hd1. cbn beta in Hd1. destruct (digit_kind d Hd1) as (_ & Hd10 & Hdh).
    rewrite (proj2 (Z.eqb_neq d 10)), (proj2 (Z.eqb_neq d _)), Hd1 by done.
    change (entries (Entry lead index (g :: gap) (c :: name) tail :: ls)) with ((index, c :: name) :: entries ls) in *.
    cbn [length] in HN. rewrite (proj2 (Z.leb_gt N _)) by lia.
    pose proof (scan_line dl d ds g gap c name tail file Hd Hgap Hname Htail Hhead) as Hscan. cbv zeta in Hscan.
    cbn [app] in Hscan |- *. rewrite Hscan. cbn [obind].
    assert (strtoul (d :: ds) = index) as ->.
    { rewrite <- Hdec. unfold strtoul. rewrite value_dec by lia. lia. }
    set (z := zapped (d :: ds) (g :: gap) (c :: name) tail). set (off := length (dl ++ d :: ds ++ 0 :: gap)).
    assert (∃ b, z = (d :: ds) ++ 0 :: gap ++ (c :: name) ++ 0 :: b) as [b Hz] by (by eexists).
    assert (S (length (dl ++ z) - 1) = length (dl ++ z)) as -> by (rewrite Hz, length_app; cbn; lia).
    rewrite (app_assoc dl). destruct (IH f1 (dl ++ z) (tags ++ [mkTag index off])) as (m & new & Hp & Hres).
    + rewrite !length_app in Hf1. cbn [length] in Hf1. lia.
    + rewrite length_app. cbn. lia.
    + rewrite Hp. rewrite <- (app_assoc dl) in Hres |- *. unfold dl in Hres |- *. rewrite <- !(app_assoc done) in Hres |- *.
      eexists _, (mkTag index off :: new). rewrite <- app_assoc. split; [done|]. constructor; [|exact Hres].
      assert (done ++ lead ++ z ++ m = (dl ++ (d :: ds) ++ 0 :: gap) ++ (c :: name) ++ 0 :: b ++ m) as ->.
      { unfold dl. rewrite Hz. repeat first [rewrite <- app_assoc | progress cbn [app]]. done. }
      apply resolves_name. eapply Forall_impl; [exact Hname|]. intros x Hx. by apply valid_kind.
Qed.

(** ** The whole file *)

(** What the documentation of [qsort] promises: the same elements, in order
    when the comparison is an order of them. *)
Class QsortSpec (qsort : (EventTag → EventTag → Z) → list EventTag → list EventTag) : Prop := {
  qsort_perm cmp l : qsort cmp l ≡ₚ l;
  qsort_sorted (cmp : EventTag → EventTag → Z) l :
    (∀ x y, x ∈ l → y ∈ l → cmp x y ≤ 0 ∨ cmp y x ≤ 0) →
    (∀ x y z, x ∈ l → y ∈ l → z ∈ l → cmp x y ≤ 0 → cmp y z ≤ 0 → cmp x z ≤ 0) →
    StronglySorted (λ x y, cmp x y ≤ 0) (qsort cmp l)
}.

Lemma no_duplicate l : StronglySorted (λ x y, tagIndex x ≤ tagIndex y) l →
  if duplicate l then ¬ NoDup (tagIndex <$> l) else StronglySorted by_index l.
Proof.
  induction 1 as [|x l Hl IH Hx]; [constructor|]. destruct l as [|y l]; [repeat constructor|].
  change (duplicate (x :: y :: l)) with ((tagIndex y =? tagIndex x) || duplicate (y :: l)).
  apply Forall_cons in Hx as [Hxy Hx]. destruct (Z.eqb_spec (tagIndex y) (tagIndex x)) as [He|Hne]; cbn [orb].
  - rewrite !fmap_cons, NoDup_cons, He. intros [Hnin _]. apply Hnin. left.
  - destruct (duplicate (y :: l)); [rewrite fmap_cons, NoDup_cons; tauto|].
    constructor; [done|]. unfold by_index. constructor; [lia|]. apply StronglySorted_inv in IH as [_ Hy].
    rewrite Forall_forall in Hy |- *. intros z Hz. specialize (Hy z Hz). unfold by_index in Hy. lia.
Qed.

Lemma strict_nodup l : StronglySorted by_index l → NoDup (tagIndex <$> l).
Proof.
  induction 1 as [|x l Hl IH Hx]; [constructor|]. rewrite fmap_cons. constructor; [|done].
  intros (y & Hy & Hin)%list_elem_of_fmap. rewrite Forall_forall in Hx. specialize (Hx y Hin). unfold by_index in Hx. lia.
Qed.

Section file.
Context (qsort : (EventTag → EventTag → Z) → list EventTag → list EventTag) `{!QsortSpec qsort}.

Lemma sortTags_spec tags : in_31 tags →
  match sortTags qsort tags with
  | Some tags' => tags' ≡ₚ tags ∧ StronglySorted by_index tags'
  | None => ¬ NoDup (tagIndex <$> tags)
  end.
Proof.
  intros H31. unfold sortTags. unfold in_31 in H31. rewrite Forall_forall in H31.
  assert (∀ x y, x ∈ tags → y ∈ tags → compareEventTags x y = tagIndex x - tagIndex y) as Hcmp.
  { intros x y Hx Hy. pose proof (H31 x Hx). pose proof (H31 y Hy). unfold compareEventTags. rewrite s32_small; lia. }
  pose proof (qsort_perm compareEventTags tags) as Hperm.
  assert (StronglySorted (λ x y, tagIndex x ≤ tagIndex y) (qsort compareEventTags tags)) as Hsort.
  { assert (StronglySorted (λ x y, compareEventTags x y ≤ 0) (qsort compareEventTags tags)) as Hs.
    { apply qsort_sorted.
      - intros x y Hx Hy. rewrite !Hcmp by done. lia.
      - intros x y z Hx Hy Hz. rewrite !Hcmp by done. lia. }
    assert (∀ l, l ⊆ tags → StronglySorted (λ x y, compareEventTags x y ≤ 0) l → StronglySorted (λ x y, tagIndex x ≤ tagIndex y) l) as Himp.
    { intros l Hsub. induction 1 as [|x l Hl IH Hx]; constructor; [apply IH; set_solver|].
      rewrite Forall_forall in Hx |- *. intros y Hy. specialize (Hx y Hy). rewrite Hcmp in Hx; [lia|set_solver..]. }
    apply Himp; [|done]. intros x Hx. by rewrite Hperm in Hx. }
  pose proof (no_duplicate _ Hsort) as Hd. destruct (duplicate _); [|by split]. by rewrite Hperm in Hd.
Qed.

Lemma parse_file ls : Forall line_ok ls → ls ≠ [] →
  ∃ m new, parseMapLines (write_file ls) (countMapLines (write_file ls)) = Returned (Some (m, new)) ∧
    Forall2 (resolves m) new (entries ls).
Proof.
  intros Hls Hne. rewrite count_file by done. unfold parseMapLines.
  assert (last (write_file ls) = Some 10) as ->.
  { destruct ls as [|l ls _] using rev_ind; [done|]. unfold write_file. rewrite List.map_app, List.concat_app. cbn [List.map List.concat].
    rewrite app_nil_r. destruct l; cbn [write_line]; rewrite ?app_comm_cons, ?app_assoc; apply last_snoc. }
  cbn [oderef obind Z.eqb Pos.eqb negb].
  destruct (parse_lines (Z.of_nat (length (entries ls))) ls Hls (S (length (write_file ls))) [] []) as (m & new & Hp & Hres);
    [lia|cbn; lia|].
  cbn [app length] in Hp, Hres. rewrite Hp. cbn [obind]. rewrite (Forall2_length _ _ _ Hres), Z.eqb_refl. by exists m, new.
Qed.

Lemma resolves_31 m new es : Forall2 (resolves m) new es → Forall (λ e, 0 ≤ e.1 < 2 ^ 31) es → in_31 new.
Proof. induction 1 as [|t e new es [Hi _] Hres IH]; intros Hes; constructor; apply Forall_cons in Hes as [? ?]; [lia|by apply IH]. Qed.

Lemma resolves_indices m new es : Forall2 (resolves m) new es → tagIndex <$> new = es.*1.
Proof. induction 1 as [|t e new es [Hi _] Hres IH]; [done|]. rewrite !fmap_cons. by rewrite Hi, IH. Qed.

Lemma entries_31 ls : Forall line_ok ls → Forall (λ e : Z * cstring, 0 ≤ e.1 < 2 ^ 31) (entries ls).
Proof.
  induction 1 as [|l ls Hl Hls IH]; [constructor|]. destruct l as [| |lead i gap name tail]; [done..|].
  change (entries (Entry lead i gap name tail :: ls)) with ((i, name) :: entries ls). constructor; [apply Hl|done].
Qed.

(** C26: a file of comments, blank lines and entries with different numbers
    below 2^31 becomes a map in which every number of the file, and no other,
    is found with its name. *)
Theorem processFile_entries ls tag : Forall line_ok ls → ls ≠ [] → NoDup (entries ls).*1 →
  Z.of_nat (length (entries ls)) < 2 ^ 30 → 0 ≤ tag < 2 ^ 31 →
  ∃ map r, processFile qsort true (write_file ls) = Returned (Some map) ∧ android_lookupEventTag map tag = Returned r ∧
    ∀ name, string_at (mapAddr map) <$> r = Some name ↔ (tag, name) ∈ entries ls.
Proof.
  intros Hls Hne Hnd Hlen Htag. unfold processFile. destruct (parse_file ls Hls Hne) as (m & new & Hp & Hres).
  cbn [negb]. rewrite Hp. cbn [obind].
  pose proof (resolves_31 _ _ _ Hres (entries_31 ls Hls)) as H31. pose proof (sortTags_spec new H31) as Hsort.
  rewrite (resolves_indices _ _ _ Hres) in Hsort. destruct (sortTags qsort new) as [tags|]; [|done].
  destruct Hsort as [Hperm Hs]. exists (mkMap m tags). cbn [fmap option_fmap option_map].
  assert (in_31 tags) as H31' by (unfold in_31; by rewrite Hperm).
  destruct (lookup_loop_full tags tag Hs H31') as (r & Hr & Hspec); [by rewrite Hperm, (Forall2_length _ _ _ Hres)|done|].
  exists r. split; [done|]. split; [exact Hr|]. intros name. cbn [mapAddr]. split.
  - destruct r as [p|]; [|done]. cbn. intros [= <-]. rewrite Hperm in Hspec. apply list_elem_of_lookup in Hspec as [k Hk].
    destruct (Forall2_lookup_l _ _ _ _ _ Hres Hk) as ([i nm] & He & Hi & Hn). cbn in Hi, Hn. subst. by eapply list_elem_of_lookup_2.
  - intros [k Hk]%list_elem_of_lookup. destruct (Forall2_lookup_r _ _ _ _ _ Hres Hk) as (t & Ht & Hi & Hn). cbn [fst snd] in Hi, Hn.
    apply list_elem_of_lookup_2 in Ht. rewrite <- Hperm in Ht. destruct r as [p|]; [|by destruct (Hspec t Ht)].
    cbn. f_equal. destruct t as [i q]. cbn in Hi, Hn. subst i. rewrite <- Hn. f_equal.
    apply strict_nodup in Hs. apply list_elem_of_lookup in Hspec as [a Ha]. apply list_elem_of_lookup in Ht as [b Hb].
    assert (a = b) as ->.
    { eapply NoDup_lookup; [exact Hs| |]; rewrite list_lookup_fmap; [rewrite Ha|rewrite Hb]; done. }
    rewrite Ha in Hb. injection Hb as <-. done.
Qed.

(** A file in which a number occurs twice is refused. *)
Theorem processFile_duplicate ls : Forall line_ok ls → ls ≠ [] → ¬ NoDup (entries ls).*1 →
  processFile qsort true (write_file ls) = Returned None.
Proof.
  intros Hls Hne Hnd. unfold processFile. destruct (parse_file ls Hls Hne) as (m & new & Hp & Hres).
  cbn [negb]. rewrite Hp. cbn [obind].
  pose proof (sortTags_spec new (resolves_31 _ _ _ Hres (entries_31 ls Hls))) as Hsort.
  destruct (sortTags qsort new) as [tags|]; [|done]. exfalso. destruct Hsort as [Hperm Hs]. apply Hnd.
  rewrite <- (resolves_indices _ _ _ Hres), <- Hperm. by apply strict_nodup.
Qed.

(** A line with a number and nothing else overwrites its own end and is read
    past it; at the end of the file the scan leaves the memory of the file. *)
Theorem scan_past_end d ds : Forall (λ c, isCharDigit c = true) (d :: ds) →
  processFile qsort true (d :: ds ++ [10]) = Undefined.
Proof.
  intros Hd. unfold processFile. cbn [negb]. set (N := countMapLines _).
  assert (1 ≤ N) as HN.
  { apply Forall_cons in Hd as [Hd _]. unfold N, countMapLines. cbn [count_lines].
    rewrite (proj2 (Z.eqb_neq d 10)) by (by apply digit_kind). rewrite Hd.
    assert (∀ b l, 0 ≤ count_lines b l) as Hn.
    { intros b l. revert b. induction l as [|c l IH]; intros b; cbn [count_lines]; [lia|].
      pose proof (IH true). pose proof (IH false). pose proof (IH (isCharWhitespace c)). repeat case_goal_if; lia. }
    specialize (Hn false (ds ++ [10])). lia. }
  unfold parseMapLines. rewrite app_comm_cons, last_snoc. cbn [oderef obind Z.eqb Pos.eqb negb].
  pose proof (parse_step (length ((d :: ds) ++ [10])) N [] d (ds ++ [10]) true []) as Hstep. cbn [app length] in Hstep |- *.
  rewrite Hstep. apply Forall_cons in Hd as [Hd Hds]. destruct (digit_kind d Hd) as (_ & Hd10 & Hdh).
  rewrite (proj2 (Z.eqb_neq d 10)), (proj2 (Z.eqb_neq d _)), Hd by done. rewrite (proj2 (Z.leb_gt N _)) by lia.
  unfold scanTagLine. cbn [drop skipn]. rewrite drop_0, char_run_app by done. cbn [obind].
  change (d :: ds ++ [10]) with ((d :: ds) ++ [10]). change (1 + length ds)%nat with (length (d :: ds)).
  rewrite insert_middle, drop_middle. done.
Qed.
End file.

(** The line end that is overwritten lets the next line be taken for a name. *)
Example number_then_name :
  (let! r := parseMapLines (bytes "12" ++ [10] ++ bytes "foo" ++ [10]) 1 in
   Returned (match r with
             | Some (m, ts) => List.map (λ t, (tagIndex t, string_at m (tagStr t))) ts
             | None => []
             end)) = Returned [(12, bytes "foo")].
Proof. by vm_compute. Qed.

(** ** A sort *)

Fixpoint insert (cmp : EventTag → EventTag → Z) (x : EventTag) (l : list EventTag) : list EventTag :=
  match l with [] => [x] | y :: l' => if cmp x y <=? 0 then x :: y :: l' else y :: insert cmp x l' end.
Definition isort (cmp : EventTag → EventTag → Z) (l : list EventTag) : list EventTag := foldr (insert cmp) [] l.

Lemma insert_perm cmp x l : insert cmp x l ≡ₚ x :: l.
Proof. induction l as [|y l IH]; [done|]. cbn. destruct (_ <=? 0); [done|]. rewrite IH. by constructor. Qed.

Lemma isort_perm cmp l : isort cmp l ≡ₚ l.
Proof. induction l as [|x l IH]; [done|]. cbn. by rewrite insert_perm, IH. Qed.

#[export] Instance isort_spec : QsortSpec isort.
Proof.
  split; [apply isort_perm|]. intros cmp l Htot Htrans. induction l as [|x l IH]; [constructor|]. cbn [isort foldr].
  assert (StronglySorted (λ a b, cmp a b ≤ 0) (isort cmp l)) as Hs.
  { apply IH; [intros a b Ha Hb; apply Htot|intros a b c Ha Hb Hc; apply Htrans]; by right. }
  assert (∀ a, a ∈ isort cmp l → a ∈ l) as Hin by (intros a Ha; by rewrite isort_perm in Ha).
  fold (isort cmp l). clear IH. induction Hs as [|y k Hk IH Hy]; [repeat constructor|]. cbn [insert].
  assert (y ∈ x :: l) as Hyl by (right; apply Hin; left). destruct (Z.leb_spec (cmp x y) 0) as [Hle|Hgt].
  - constructor; [by constructor|]. constructor; [done|]. rewrite Forall_forall in Hy |- *. intros z Hz.
    apply (Htrans x y z); [left|done|right; apply Hin; by right|done|by apply Hy].
  - constructor; [apply IH; intros a Ha; apply Hin; by right|]. rewrite Forall_forall. intros z Hz.
    rewrite insert_perm in Hz. apply elem_of_cons in Hz as [->|Hz].
    + destruct (Htot x y ltac:(left) Hyl); [lia|done].
    + rewrite Forall_forall in Hy. by apply Hy.
Qed.

(** ** Witnesses *)

Definition sample : list line :=
  [Comment [] (bytes " tags"); Entry [] 2722 [32] (bytes "battery_level") (bytes " (level|1|6)"); Blank [32; 9];
   Entry [32] 42 [9; 32] (bytes "answer") []; Entry [] 314 [32] (bytes "pi") [13]].

Lemma sample_file_ok : Forall line_ok sample.
Proof.
  repeat (apply Forall_cons; split); [..|constructor]; cbn [line_ok];
    repeat split; try (cbn; lia); try done; repeat constructor; by vm_compute.
Qed.

Lemma lookup_correct_witness :
  ∃ r, android_lookupEventTag (mkMap [] [mkTag 3 30; mkTag 8 80]) 8 = Returned r ∧ (r = Some 80%nat ↔ mkTag 8 80 ∈ [mkTag 3 30; mkTag 8 80]).
Proof.
  destruct (lookup_correct (mkMap [] [mkTag 3 30; mkTag 8 80]) 8) as (r & H & Hr).
  - repeat constructor; cbn; lia.
  - repeat constructor; cbn; lia.
  - cbn. lia.
  - lia.
  - exists r. split; [exact H|exact (Hr 80%nat)].
Defined.

Lemma processFile_entries_witness :
  ∃ map r, processFile isort true (write_file sample) = Returned (Some map) ∧ android_lookupEventTag map 314 = Returned r ∧
    string_at (mapAddr map) <$> r = Some (bytes "pi").
Proof.
  destruct (processFile_entries isort sample 314 sample_file_ok) as (map & r & H1 & H2 & H3).
  - done.
  - apply (bool_decide_unpack (NoDup (entries sample).*1)). vm_compute. exact I.
  - cbn. lia.
  - lia.
  - exists map, r. split; [exact H1|]. split; [exact H2|]. apply H3. cbn. right. right. left.
Defined.

Lemma processFile_duplicate_witness :
  processFile isort true (write_file [Entry [] 7 [32] (bytes "a") []; Entry [] 7 [32] (bytes "b") []]) = Returned None.
Proof.
  apply (processFile_duplicate isort [Entry [] 7 [32] (bytes "a") []; Entry [] 7 [32] (bytes "b") []]).
  - repeat (apply Forall_cons; split); [..|constructor]; cbn [line_ok];
      repeat split; try (cbn; lia); try done; repeat constructor; by vm_compute.
  - done.
  - cbn. rewrite NoDup_cons. intros [H _]. apply H. left.
Defined.

Lemma scan_past_end_witness : processFile isort true (bytes "123" ++ [10]) = Undefined.
Proof. apply (scan_past_end isort 49 (bytes "23")). repeat constructor. Defined.

End ET.
