(* ===== verification/Config.v ===== *)
(** The configuration trees of [config_utils.c]: a text of names, values and
    blocks is cut into words in place and made into a tree of nodes, which is
    searched by name.

    A node is a value with the list of its children; [next], [first_child] and
    [last_child] are that list.  A text that a node points to is the list of its
    characters: [config_load_safe] shows that the words of a text stay as they
    are when the rest of the text is cut up.  [calloc] is taken to succeed: the
    code does not look at its answer. *)

From S2P Require Import Prelude.

Module CF.

#[warnings="-register-all"]
Inductive cnode := CNode (name value : cstring) (children : list cnode).

Definition name (n : cnode) : cstring := let 'CNode x _ _ := n in x.
Definition value (n : cnode) : cstring := let 'CNode _ v _ := n in v.
Definition children (n : cnode) : list cnode := let 'CNode _ _ l := n in l.

(** Null pointers stand for the empty string. *)
Definition config_node (name value : option cstring) : cnode := CNode (default [] name) (default [] value) [].

(** ** Searching and setting

    A child is named by its position among the children. *)
Fixpoint find_loop (l : list cnode) (x : cstring) (i : nat) (match_ : option nat) : option nat :=
  match l with
  | [] => match_
  | n :: l' => find_loop l' x (S i) (if bool_decide (name n = x) then Some i else match_)
  end.
Definition config_find (root : cnode) (x : cstring) : option nat := find_loop (children root) x 0 None.

(** The child is the last one. *)
Definition config_create (root : cnode) (x : cstring) : cnode :=
  CNode (name root) (value root) (children root ++ [config_node (Some x) None]).

Definition set_value (n : cnode) (v : cstring) : cnode := CNode (name n) v (children n).
Definition child (root : cnode) (i : nat) : cnode := nth i (children root) (config_node None None).
Definition set_child (root : cnode) (i : nat) (n : cnode) : cnode :=
  CNode (name root) (value root) (<[i := n]> (children root)).

Definition config_bool (root : cnode) (x : cstring) (default_ : Z) : Z :=
  match config_find root x ≫= λ i, children root !! i with
  | None => default_
  | Some node =>
      match value node with
      | c :: _ => if (c =? chr "y") || (c =? chr "Y") || (c =? chr "1") then 1 else 0
      | [] => 0
      end
  end.

Definition config_str (root : cnode) (x default_ : cstring) : cstring :=
  match config_find root x ≫= λ i, children root !! i with
  | None => default_
  | Some node => value node
  end.

Definition alter_child (f : cnode → cnode) (root : cnode) (i : nat) : cnode :=
  CNode (name root) (value root) (alter f i (children root)).

Definition config_set (root : cnode) (x v : cstring) : cnode :=
  match config_find root x with
  | Some i => alter_child (λ n, set_value n v) root i
  | None => alter_child (λ n, set_value n v) (config_create root x) (length (children root))
  end.

(** ** Words

    The state is the memory of the text, the place to read on, the place of the
    last word, and a character that was read already, or 0.  The member [len]
    is never used. *)
Inductive token := T_EOF | T_TEXT | T_DOT | T_OBRACE | T_CBRACE.

Record cstate := mkState { mem : list Z; data : nat; text : nat; next : Z }.

Definition string_at (m : list Z) (p : nat) : cstring := until_nul (drop p m).

Definition isspace (c : Z) : bool := (c =? 32) || ((9 <=? c) && (c <=? 13)).

(** Over spaces and comments, to the first character of a word: the character,
    the place after it, and [cs->data].  [cs->data] follows the comments only. *)
Fixpoint skip (comment : bool) (l : list Z) (data cd : nat) : outcome (Z * nat * nat) :=
  match l with
  | [] => Undefined
  | c :: l' =>
    if comment then
      if c =? 0 then Returned (0, data, data)
      else if c =? 10 then skip false l' (S data) (S data)
      else skip true l' (S data) cd
    else if isspace c then skip false l' (S data) cd
    else if c =? chr "#" then skip true l' (S data) cd
    else Returned (c, S data, cd)
  end.

(** The label [got_c] is reached with the character kept, if there is one. *)
Definition first_char (cs : cstate) : outcome (Z * nat * nat) :=
  let c := next cs in
  let l := drop (data cs) (mem cs) in
  if negb (c =? 0) then
    if isspace c then skip false l (data cs) (data cs)
    else if c =? chr "#" then skip true l (data cs) (data cs)
    else Returned (c, data cs, data cs)
  else skip false l (data cs) (data cs).

(** Trailing white space, from [n] characters after [s] down. *)
Fixpoint strip (m : list Z) (s n : nat) : outcome (list Z) :=
  match n with
  | O => Returned m
  | S n' => let! c := oderef (m !! (s + n)%nat) in if isspace c then strip (<[(s + n)%nat := 0]> m) s n' else Returned m
  end.

(** The rest of a value, from [d], of a word that starts at [s]: the memory and
    [cs->data]. *)
Definition value_text (m : list Z) (s d : nat) : outcome (list Z * nat) :=
  let! n := char_run (λ c, negb (c =? 0) && negb (c =? 10)) (drop d m) in
  let e := (d + n)%nat in
  let! c := oderef (m !! e) in
  if c =? 0 then let! m' := strip m s (e - s) in Returned (m', e)
  else let! m' := strip (<[e := 0]> m) s (e - 1 - s) in Returned (m', S e).

Definition special (c : Z) : bool := (c =? chr ".") || (c =? chr "{") || (c =? chr "}").

(** The rest of a name: the memory, [cs->data] and [cs->next]. *)
Definition name_text (m : list Z) (d : nat) : outcome (list Z * nat * Z) :=
  let! n := char_run (λ c, negb (isspace c) && negb (c =? 0) && negb (special c)) (drop d m) in
  let e := (d + n)%nat in
  let! c := oderef (m !! e) in
  if isspace c then Returned (<[e := 0]> m, S e, 0)
  else if c =? 0 then Returned (m, e, 0)
  else Returned (<[e := 0]> m, S e, c).

Definition lex (cs : cstate) (val : bool) : outcome (token * cstate) :=
  let! (c, d, cd) := first_char cs in
  if c =? 0 then Returned (T_EOF, mkState (mem cs) cd (text cs) 0)
  else if c =? chr "." then Returned (T_DOT, mkState (mem cs) d (text cs) 0)
  else if c =? chr "{" then Returned (T_OBRACE, mkState (mem cs) d (text cs) 0)
  else if c =? chr "}" then Returned (T_CBRACE, mkState (mem cs) d (text cs) 0)
  else
    let s := (d - 1)%nat in
    if val then
      let! (m, d') := value_text (mem cs) s d in Returned (T_TEXT, mkState m d' s 0)
    else
      let! (m, d', nx) := name_text (mem cs) d in Returned (T_TEXT, mkState m d' s nx).

Definition cs_text (cs : cstate) : cstring := string_at (mem cs) (text cs).

(** ** Blocks and expressions

    [true] stands for 0, [false] for -1.  [expr_loop] is the loop of
    [parse_expr] on [node], which the caller puts back in its place. *)
Fixpoint parse_block (fuel : nat) (cs : cstate) (node : cnode) : outcome (bool * cstate * cnode) :=
  match fuel with
  | O => Undefined
  | S fuel =>
    let! (t, cs1) := lex cs false in
    match t with
    | T_TEXT =>
        let! (ok, cs2, node2) := parse_expr fuel cs1 node in
        if ok : bool then parse_block fuel cs2 node2 else Returned (false, cs2, node2)
    | T_CBRACE => Returned (true, cs1, node)
    | _ => Returned (false, cs1, node)
    end
  end
with parse_expr (fuel : nat) (cs : cstate) (root : cnode) : outcome (bool * cstate * cnode) :=
  match fuel with
  | O => Undefined
  | S fuel =>
    let found := match config_find root (cs_text cs) with
                 | Some i => match value (child root i) with [] => Some i | _ => None end
                 | None => None
                 end in
    let '(root1, i) := match found with
                       | Some i => (root, i)
                       | None => (config_create root (cs_text cs), length (children root))
                       end in
    let! (ok, cs2, node) := expr_loop fuel cs (child root1 i) in
    Returned (ok, cs2, set_child root1 i node)
  end
with expr_loop (fuel : nat) (cs : cstate) (node : cnode) : outcome (bool * cstate * cnode) :=
  match fuel with
  | O => Undefined
  | S fuel =>
    let! (t, cs1) := lex cs true in
    match t with
    | T_DOT =>
        let! (t2, cs2) := lex cs1 false in
        match t2 with
        | T_TEXT =>
            let node1 := config_create node (cs_text cs2) in
            let i := length (children node) in
            let! (ok, cs3, node2) := expr_loop fuel cs2 (child node1 i) in
            Returned (ok, cs3, set_child node1 i node2)
        | _ => Returned (false, cs2, node)
        end
    | T_TEXT => Returned (true, cs1, set_value node (cs_text cs1))
    | T_OBRACE => parse_block fuel cs1 node
    | _ => Returned (false, cs1, node)
    end
  end.

Fixpoint load_loop (fuel : nat) (cs : cstate) (root : cnode) : outcome (cstate * cnode) :=
  match fuel with
  | O => Undefined
  | S fuel =>
    let! (t, cs1) := lex cs false in
    match t with
    | T_TEXT =>
        let! (ok, cs2, root2) := parse_expr fuel cs1 root in
        if ok : bool then load_loop fuel cs2 root2 else Returned (cs2, root2)
    | _ => Returned (cs1, root)
    end
  end.

(** The memory of the text with its end, cut up, and the tree. *)
Definition config_load (root : cnode) (d : list Z) : outcome (list Z * cnode) :=
  let! (cs, root') := load_loop (4 * length d + 8) (mkState d 0 0 0) root in Returned (mem cs, root').

(** What [load_file] answers: a copy of the file with an end, or nothing. *)
Definition config_load_file (root : cnode) (file : option (list Z)) : outcome cnode :=
  match file with
  | None => Returned root
  | Some f => let! (_, root') := config_load root (f ++ [0]) in Returned root'
  end.

(** ** Cutting the text *)

(** There is an end at [d] or later. *)
Definition ends (m : list Z) (d : nat) : Prop := ∃ z, (d ≤ z)%nat ∧ m !! z = Some 0.

(** [m'] is [m], except between [a] and [b]. *)
Definition frame (m m' : list Z) (a b : nat) : Prop :=
  length m' = length m ∧ ∀ j, (j < a ∨ b ≤ j)%nat → m' !! j = m !! j.

Lemma frame_refl m a b : frame m m a b.
Proof. by split. Qed.

Lemma frame_ends m m' a b : frame m m' a b → ends m b → ends m' b.
Proof. intros [_ H] (z & Hz & Hm). exists z. split; [done|]. rewrite H by lia. done. Qed.

Lemma drop_cons_lookup (m : list Z) d c l : drop d m = c :: l → m !! d = Some c ∧ drop (S d) m = l.
Proof.
  intros H. split.
  - rewrite <- (Nat.add_0_r d), <- lookup_drop, H. done.
  - replace (S d) with (d + 1)%nat by lia. rewrite <- drop_drop, H. done.
Qed.

Lemma ends_next m d c : ends m d → m !! d = Some c → c ≠ 0 → ends m (S d).
Proof.
  intros (z & Hz & Hm) Hc Hne. exists z. split; [|done]. destruct (decide (z = d)) as [->|]; [congruence|lia].
Qed.

Lemma ends_drop m d : ends m d → drop d m ≠ [].
Proof. intros (z & Hz & Hm) H. apply lookup_lt_Some in Hm. apply (f_equal length) in H. rewrite length_drop in H. cbn in H. lia. Qed.

Lemma char_run_ends kind m d : kind 0 = false → ends m d →
  ∃ n c, char_run kind (drop d m) = Returned n ∧ m !! (d + n)%nat = Some c ∧ kind c = false ∧ ends m (d + n) ∧
         Forall (λ x, kind x = true) (take n (drop d m)).
Proof.
  intros Hk. remember (drop d m) as l eqn:Hl. revert d Hl. induction l as [|c l IH]; intros d Hl He.
  { by destruct (ends_drop _ _ He). }
  symmetry in Hl. destruct (drop_cons_lookup _ _ _ _ Hl) as [Hc Hl']. cbn [char_run]. destruct (kind c) eqn:Hkc.
  - destruct (IH (S d)) as (n & x & -> & Hx & Hkx & Hex & Hall); [done|eapply ends_next; [done..|congruence]|].
    exists (S n), x. rewrite Nat.add_succ_r. cbn [obind take]. repeat split; try done. by constructor.
  - exists 0%nat, c. rewrite Nat.add_0_r. repeat split; try done.
Qed.

Lemma skip_ends m b : ∀ d cd, ends m d → (cd ≤ d)%nat →
  ∃ c d' cd', skip b (drop d m) d cd = Returned (c, d', cd') ∧
    (c = 0 → (cd ≤ cd')%nat ∧ ends m cd') ∧
    (c ≠ 0 → (d < d')%nat ∧ m !! (d' - 1)%nat = Some c ∧ isspace c = false ∧ c ≠ chr "#" ∧ ends m d').
Proof.
  intros d. remember (drop d m) as l eqn:Hl. revert b d Hl. induction l as [|c l IH]; intros b d Hl cd He Hcd.
  { by destruct (ends_drop _ _ He). }
  symmetry in Hl. destruct (drop_cons_lookup _ _ _ _ Hl) as [Hc Hl']. cbn [skip].
  assert (c ≠ 0 → ends m (S d)) as Hn by (intros; by eapply ends_next).
  assert (∀ b' cd2, c ≠ 0 → (cd ≤ cd2 ≤ S d)%nat → ∃ c' d' cd', skip b' l (S d) cd2 = Returned (c', d', cd') ∧
    (c' = 0 → (cd ≤ cd')%nat ∧ ends m cd') ∧
    (c' ≠ 0 → (d < d')%nat ∧ m !! (d' - 1)%nat = Some c' ∧ isspace c' = false ∧ c' ≠ chr "#" ∧ ends m d')) as Hgo.
  { intros b' cd2 Hne H2. destruct (IH b' (S d) (eq_sym Hl') cd2 (Hn Hne) ltac:(lia)) as (c' & d' & cd' & Hs & H0 & H1).
    exists c', d', cd'. split; [done|]. split; [intros Hz; destruct (H0 Hz); split; [lia|done]|].
    intros Hz. destruct (H1 Hz) as (? & ? & ? & ? & ?). repeat split; try done. lia. }
  destruct b.
  - destruct (Z.eqb_spec c 0) as [->|Hne]; [by exists 0, d, d|]. destruct (c =? 10); apply Hgo; try done; lia.
  - destruct (isspace c) eqn:Hsp; [apply Hgo; [by intros ->|lia]|].
    destruct (Z.eqb_spec c (chr "#")) as [->|Hh]; [apply Hgo; [done|lia]|].
    exists c, (S d), cd. split; [done|]. split.
    + intros ->. split; [lia|]. destruct He as (z & Hz & Hm). exists z. split; [lia|done].
    + intros Hne. rewrite Nat.sub_succ, Nat.sub_0_r. repeat split; try done; [lia|auto].
Qed.

Lemma strip_ends m s n : (s + n < length m)%nat →
  ∃ m', strip m s n = Returned m' ∧ frame m m' (S s) (S (s + n)).
Proof.
  revert m. induction n as [|n IH]; intros m Hn; cbn [strip]; [eexists; split; [done|apply frame_refl]|].
  destruct (lookup_lt_is_Some_2 m (s + S n)) as [c Hc]; [lia|]. rewrite Hc. cbn [oderef obind].
  destruct (isspace c); [|eexists; split; [done|apply frame_refl]].
  destruct (IH (<[(s + S n)%nat:=0]> m)) as (m' & -> & Hlen & Hj); [rewrite length_insert; lia|].
  exists m'. split; [done|]. split; [by rewrite Hlen, length_insert|]. intros j Hr.
  rewrite Hj by lia. apply list_lookup_insert_ne. lia.
Qed.

(** A word of a name, a value: where the memory is ended. *)
Definition cut_at (m m' : list Z) (s d' : nat) : Prop :=
  frame m m' (S s) d' ∧ ends m' d' ∧ ∃ z, (s < z ≤ d')%nat ∧ m' !! z = Some 0.

Lemma value_text_ends m s d : (s < d)%nat → ends m d →
  ∃ m' d', value_text m s d = Returned (m', d') ∧ (d ≤ d')%nat ∧ cut_at m m' s d'.
Proof.
  intros Hs He. unfold value_text.
  destruct (char_run_ends (λ c, negb (c =? 0) && negb (c =? 10)) m d eq_refl He) as (n & c & -> & Hc & Hk & Hen & _).
  cbn [obind]. rewrite Hc. cbn [oderef obind]. destruct (Z.eqb_spec c 0) as [->|Hne].
  - destruct (d + n - s)%nat as [|k] eqn:Hds; [lia|]. cbn [strip]. replace (s + S k)%nat with (d + n)%nat by lia.
    rewrite Hc. cbn [oderef obind]. change (isspace 0) with false. cbn [obind].
    eexists _, _. split; [done|]. split; [lia|]. split; [apply frame_refl|]. split; [done|]. exists (d + n)%nat. split; [lia|done].
  - apply lookup_lt_Some in Hc as Hlt.
    destruct (strip_ends (<[(d + n)%nat:=0]> m) s (d + n - 1 - s)) as (m' & -> & Hlen & Hj); [rewrite length_insert; lia|].
    cbn [obind]. rewrite length_insert in Hlen. eexists _, _. split; [done|]. split; [lia|].
    assert (frame m m' (S s) (S (d + n))) as Hf.
    { split; [done|]. intros j Hr. rewrite Hj by lia. apply list_lookup_insert_ne. lia. }
    split; [done|]. split; [eapply frame_ends; [done|by eapply ends_next]|].
    exists (d + n)%nat. split; [lia|]. rewrite Hj by lia. by apply list_lookup_insert_eq.
Qed.

Lemma name_text_ends m s d : (s < d)%nat → ends m d →
  ∃ m' d' nx, name_text m d = Returned (m', d', nx) ∧ (d ≤ d')%nat ∧ cut_at m m' s d' ∧
    (nx = 0 ∨ special nx = true ∧ (d < d')%nat).
Proof.
  intros Hs He. unfold name_text.
  destruct (char_run_ends (λ c, negb (isspace c) && negb (c =? 0) && negb (special c)) m d eq_refl He) as (n & c & -> & Hc & Hk & Hen & _).
  cbn [obind]. rewrite Hc. cbn [oderef obind]. apply lookup_lt_Some in Hc as Hlt.
  assert (c ≠ 0 → cut_at m (<[(d + n)%nat:=0]> m) s (S (d + n))) as Hcut.
  { intros Hne. assert (frame m (<[(d + n)%nat:=0]> m) (S s) (S (d + n))) as Hf.
    { split; [apply length_insert|]. intros j Hr. apply list_lookup_insert_ne. lia. }
    split; [done|]. split; [eapply frame_ends; [done|by eapply ends_next]|].
    exists (d + n)%nat. split; [lia|]. by apply list_lookup_insert_eq. }
  destruct (isspace c) eqn:Hsp.
  - eexists _, _, _. split; [done|]. split; [lia|]. split; [apply Hcut; by intros ->|]. by left.
  - destruct (Z.eqb_spec c 0) as [->|Hne].
    + eexists _, _, _. split; [done|]. split; [lia|]. split; [|by left]. split; [apply frame_refl|]. split; [done|].
      exists (d + n)%nat. split; [lia|done].
    + eexists _, _, _. split; [done|]. split; [lia|]. split; [by apply Hcut|]. right. split; [|lia].
      by destruct (special c).
Qed.

(** A state to cut on from, and what a step does to it. *)
Definition state_ok (cs : cstate) : Prop := ends (mem cs) (data cs) ∧ (next cs = 0 ∨ special (next cs) = true).

(** What is left of the text, a character kept included. *)
Definition left (cs : cstate) : nat := 2 * (length (mem cs) - data cs) + (if next cs =? 0 then 0 else 1).

Record step_ok (cs cs' : cstate) : Prop := {
  so_state : state_ok cs';
  so_length : length (mem cs') = length (mem cs);
  so_data : (data cs ≤ data cs')%nat;
  so_left : (left cs' ≤ left cs)%nat;
  so_read : ∀ j, (j ≤ data cs)%nat → mem cs' !! j = mem cs !! j
}.

Lemma text_step_trans cs1 cs2 cs3 : step_ok cs1 cs2 → step_ok cs2 cs3 → step_ok cs1 cs3.
Proof.
  intros [] []. constructor; [done|congruence|lia|lia|]. intros j Hj. rewrite so_read1 by lia. auto.
Qed.

Lemma text_step_refl cs : state_ok cs → step_ok cs cs.
Proof. by constructor. Qed.

Lemma ends_lt m d : ends m d → (d < length m)%nat.
Proof. intros (z & Hz & Hm). apply lookup_lt_Some in Hm. lia. Qed.

Lemma first_char_ends cs : state_ok cs →
  ∃ c d cd, first_char cs = Returned (c, d, cd) ∧
    (c = 0 → next cs = 0 ∧ (data cs ≤ cd)%nat ∧ ends (mem cs) cd) ∧
    (c ≠ 0 → ends (mem cs) d ∧
       (next cs = 0 ∧ (data cs < d)%nat ∧ mem cs !! (d - 1)%nat = Some c ∧ isspace c = false ∧ c ≠ chr "#" ∨
        special c = true ∧ next cs ≠ 0 ∧ d = data cs)).
Proof.
  intros [He Hn]. unfold first_char. destruct (Z.eqb_spec (next cs) 0) as [H0|H0]; cbn [negb].
  - destruct (skip_ends (mem cs) false (data cs) (data cs) He) as (c & d & cd & -> & Hz & Hs); [done|].
    exists c, d, cd. split; [done|]. split; [naive_solver|]. intros Hne. destruct (Hs Hne) as (? & ? & ? & ? & ?). auto 10.
  - destruct Hn as [|Hsp]; [done|]. exists (next cs), (data cs), (data cs). split; [|split; [done|auto 10]].
    unfold special in Hsp. rewrite !orb_true_iff in Hsp. destruct Hsp as [[H|H]|H]; apply Z.eqb_eq in H; by rewrite H.
Qed.

(** Every call of the lexer returns; it only writes behind what it has read
    before; a word is ended; everything but the end takes some of the text. *)
Lemma lex_step cs val : state_ok cs →
  ∃ t cs', lex cs val = Returned (t, cs') ∧ step_ok cs cs' ∧ (t ≠ T_EOF → (left cs' < left cs)%nat) ∧
    (t = T_TEXT → (data cs ≤ text cs')%nat ∧ ∃ z, (text cs' < z ≤ data cs')%nat ∧ mem cs' !! z = Some 0).
Proof.
  intros Hok. destruct (first_char_ends cs Hok) as (c & d & cd & Hf & H0 & H1). unfold lex. rewrite Hf. cbn [obind].
  destruct (Z.eqb_spec c 0) as [->|Hne].
  { destruct (H0 eq_refl) as (Hn & Hcd & He). eexists _, _. split; [done|]. split; [|done]. apply ends_lt in He as Hlt.
    constructor; cbn; try done; [split; [done|by left]|]. unfold left. cbn. lia. }
  destruct (H1 Hne) as [He Hc]. clear H0 H1. apply ends_lt in He as Hlt.
  assert ((data cs ≤ d)%nat ∧ (2 * (length (mem cs) - d) < left cs)%nat) as [Hd Hleft].
  { unfold left. destruct Hc as [(-> & ? & _)|(_ & Hn & ->)]; [cbn; lia|]. rewrite (proj2 (Z.eqb_neq _ _) Hn). lia. }
  assert (∀ t, t ≠ T_TEXT → ∃ t' cs', @Returned (token * cstate) (t, mkState (mem cs) d (text cs) 0) = Returned (t', cs') ∧ step_ok cs cs' ∧
    (t' ≠ T_EOF → (left cs' < left cs)%nat) ∧
    (t' = T_TEXT → (data cs ≤ text cs')%nat ∧ ∃ z, (text cs' < z ≤ data cs')%nat ∧ mem cs' !! z = Some 0)) as Hchar.
  { intros t Ht. eexists _, _. split; [done|]. assert (left (mkState (mem cs) d (text cs) 0) < left cs)%nat by (unfold left at 1; cbn [mem data next Z.eqb]; lia).
    split; [|done]. constructor; cbn [mem data next text]; try done; [split; [done|by left]|lia]. }
  destruct (Z.eqb_spec c (chr ".")); [by apply Hchar|]. destruct (Z.eqb_spec c (chr "{")); [by apply Hchar|].
  destruct (Z.eqb_spec c (chr "}")); [by apply Hchar|].
  destruct Hc as [(Hn & Hlt' & Hc & _)|(Hsp & _)].
  2: { unfold special in Hsp. rewrite !orb_true_iff, !Z.eqb_eq in Hsp. tauto. }
  assert (∀ m' d' nx, (d ≤ d')%nat → cut_at (mem cs) m' (d - 1) d' → (nx = 0 ∨ special nx = true ∧ (d < d')%nat) →
    step_ok cs (mkState m' d' (d - 1) nx) ∧ (left (mkState m' d' (d - 1) nx) < left cs)%nat) as Hword.
  { intros m' d' nx Hd' ([Hlen Hj] & He' & _) Hnx.
    assert (left (mkState m' d' (d - 1) nx) < left cs)%nat.
    { unfold left at 1. cbn [mem data next]. rewrite Hlen. destruct Hnx as [->|[_ Hd2]]; [cbn [Z.eqb]; lia|].
      destruct (nx =? 0); lia. }
    split; [|done]. constructor; cbn [mem data next text]; try done; try lia.
    - split; [done|]. destruct Hnx as [?|[? _]]; [by left|by right].
    - intros j Hj'. apply Hj. lia. }
  destruct val.
  - destruct (value_text_ends (mem cs) (d - 1) d) as (m' & d' & -> & Hd' & Hcut); [lia|done|]. cbn [obind].
    destruct (Hword m' d' 0 Hd' Hcut (or_introl eq_refl)) as [Hs Hl]. eexists _, _. split; [done|].
    split; [done|]. split; [done|]. intros _. cbn. split; [lia|]. apply Hcut.
  - destruct (name_text_ends (mem cs) (d - 1) d) as (m' & d' & nx & -> & Hd' & Hcut & Hnx); [lia|done|]. cbn [obind].
    destruct (Hword m' d' nx Hd' Hcut Hnx) as [Hs Hl]. eexists _, _. split; [done|].
    split; [done|]. split; [done|]. intros _. cbn. split; [lia|]. apply Hcut.
Qed.

(** ** Words are what they should be *)

Definition first_ok (c : Z) : Prop := isspace c = false ∧ special c = false ∧ c ≠ chr "#" ∧ c ≠ 0.
Definition name_char (c : Z) : bool := negb (isspace c) && negb (c =? 0) && negb (special c).
Definition value_char (c : Z) : bool := negb (c =? 0) && negb (c =? 10).

(** A word: a first character, and others of a kind. *)
Definition word (kind : Z → bool) (x : cstring) : Prop :=
  match x with c :: x' => first_ok c ∧ Forall (λ c, kind c = true) x' | [] => False end.
Abbreviation is_name := (word name_char).
Abbreviation is_value := (word value_char).

(** A tree that was read: every node below the root is named by a word, every
    value is a word or empty. *)
#[warnings="-register-all"]
Inductive tree_ok : cnode → Prop :=
  | tree_ok_node x v l : (v = [] ∨ is_value v) → Forall (λ n, is_name (name n)) l → Forall tree_ok l → tree_ok (CNode x v l).

Lemma until_nul_lookup l i x : until_nul l !! i = Some x → l !! i = Some x ∧ ∀ k, (k ≤ i)%nat → l !! k ≠ Some 0.
Proof.
  revert i. induction l as [|c l IH]; intros i; cbn [until_nul]; [done|]. destruct (Z.eqb_spec c 0); [done|].
  destruct i as [|i]; cbn; [intros [= ->]; split; [done|]; intros [|k] ? [=]; [done|lia]|].
  intros H. destruct (IH _ H) as [H1 H2]. split; [done|]. intros [|k] Hk; cbn; [congruence|]. apply H2. lia.
Qed.

Lemma word_chars kind m m' s n c :
  m' !! s = Some c → first_ok c → m' !! (S s + n)%nat = Some 0 → (∀ j, m' !! j = m !! j ∨ m' !! j = Some 0) →
  Forall (λ x, kind x = true) (take n (drop (S s) m)) → word kind (string_at m' s).
Proof.
  intros Hs Hc Hz Hcell Hk. unfold string_at. rewrite (drop_S _ _ _ Hs). cbn [until_nul].
  rewrite (proj2 (Z.eqb_neq c 0)) by apply Hc. cbn [word]. split; [done|]. apply Forall_lookup. intros i x Hx.
  destruct (until_nul_lookup _ _ _ Hx) as [Hi Hno]. rewrite lookup_drop in Hi.
  assert (i < n)%nat as Hlt.
  { destruct (decide (n ≤ i)%nat) as [Hle|]; [|lia]. destruct (Hno n Hle). by rewrite lookup_drop. }
  assert (x ≠ 0) as Hx0 by (intros ->; destruct (Hno i (le_n i)); by rewrite lookup_drop).
  rewrite Forall_lookup in Hk. apply (Hk i). rewrite lookup_take_lt, lookup_drop by done.
  destruct (Hcell (S s + i)%nat) as [He|He]; rewrite Hi in He; [done|]. congruence.
Qed.

Lemma strip_cells n : ∀ m s m', strip m s n = Returned m' → ∀ j, m' !! j = m !! j ∨ m' !! j = Some 0.
Proof.
  induction n as [|n IH]; intros m s m'; cbn [strip]; [intros [= <-]; auto|].
  destruct (m !! (s + S n)%nat) as [c|] eqn:Hc; cbn [oderef obind]; [|done].
  destruct (isspace c); [|intros [= <-]; auto]. intros H j. destruct (IH _ _ _ H j) as [Hj|Hj]; [|by right].
  destruct (decide (j = s + S n)%nat) as [->|]; [|left; by rewrite Hj, list_lookup_insert_ne].
  right. rewrite Hj. apply list_lookup_insert_eq. by apply lookup_lt_Some in Hc.
Qed.

Lemma value_text_word m s d c m' d' : m !! s = Some c → first_ok c → d = S s →
  value_text m s d = Returned (m', d') → ends m d → is_value (string_at m' s).
Proof.
  intros Hs Hc -> Hv He. revert Hv. unfold value_text.
  destruct (char_run_ends value_char m (S s) eq_refl He) as (n & x & Hrun & Hx & _ & _ & Hall).
  change (char_run (λ c, negb (c =? 0) && negb (c =? 10))) with (char_run value_char). rewrite Hrun. cbn [obind]. rewrite Hx. cbn [oderef obind].
  apply lookup_lt_Some in Hx as Hlt. destruct (Z.eqb_spec x 0) as [->|Hne].
  - replace (S s + n - s)%nat with (S n) by lia. cbn [strip]. replace (s + S n)%nat with (S s + n)%nat by lia. rewrite Hx.
    cbn [oderef obind]. change (isspace 0) with false. intros [= <- _]. by apply (word_chars _ m m s n c); auto.
  - replace (S s + n - 1 - s)%nat with n by lia.
    destruct (strip_ends (<[(S s + n)%nat:=0]> m) s n) as (m1 & Hstrip & _ & Hj); [rewrite length_insert; lia|].
    rewrite Hstrip. cbn [obind]. intros [= <- _]. apply (word_chars _ m m1 s n c); try done.
    + rewrite Hj by lia. by rewrite list_lookup_insert_ne by lia.
    + rewrite Hj by lia. by apply list_lookup_insert_eq.
    + intros j. destruct (strip_cells _ _ _ _ Hstrip j) as [Hj'|]; [|by right].
      destruct (decide (j = S s + n)%nat) as [->|]; [right|left]; rewrite Hj'; [by apply list_lookup_insert_eq|by apply list_lookup_insert_ne].
Qed.

Lemma name_text_word m s d c m' d' nx : m !! s = Some c → first_ok c → d = S s →
  name_text m d = Returned (m', d', nx) → ends m d → is_name (string_at m' s).
Proof.
  intros Hs Hc -> Hv He. revert Hv. unfold name_text.
  destruct (char_run_ends name_char m (S s) eq_refl He) as (n & x & Hrun & Hx & _ & _ & Hall).
  change (char_run (λ c, negb (isspace c) && negb (c =? 0) && negb (special c))) with (char_run name_char).
  rewrite Hrun. cbn [obind]. rewrite Hx. cbn [oderef obind]. apply lookup_lt_Some in Hx as Hlt.
  assert (is_name (string_at (<[(S s + n)%nat:=0]> m) s)) as Hi.
  { apply (word_chars _ m _ s n c); try done.
    - by rewrite list_lookup_insert_ne by lia.
    - by apply list_lookup_insert_eq.
    - intros j. destruct (decide (j = S s + n)%nat) as [->|]; [right; by apply list_lookup_insert_eq|left; by apply list_lookup_insert_ne]. }
  destruct (isspace x); [by intros [= <- _ _]|]. destruct (Z.eqb_spec x 0) as [->|]; intros [= <- _ _]; [|done].
  apply (word_chars _ m m s n c); auto.
Qed.

Lemma lex_word cs val cs' : state_ok cs → lex cs val = Returned (T_TEXT, cs') →
  if val then is_value (cs_text cs') else is_name (cs_text cs').
Proof.
  intros Hok. destruct (first_char_ends cs Hok) as (c & d & cd & Hf & H0 & H1). unfold lex. rewrite Hf. cbn [obind].
  destruct (Z.eqb_spec c 0) as [->|Hne]; [done|]. destruct (H1 Hne) as [He Hc].
  destruct (Z.eqb_spec c (chr ".")) as [|Hdot]; [done|]. destruct (Z.eqb_spec c (chr "{")) as [|Ho]; [done|].
  destruct (Z.eqb_spec c (chr "}")) as [|Hcl]; [done|].
  assert (special c = false) as Hsp by (unfold special; by rewrite !(proj2 (Z.eqb_neq _ _)) by done).
  destruct Hc as [(Hn & Hlt & Hc & Hws & Hh)|(Hsp' & _)]; [|congruence]. assert (first_ok c) as Hfirst by done.
  destruct val.
  - destruct (value_text _ _ _) as [[m' d']| |] eqn:Hv; [|done..]. intros [= <-].
    apply (value_text_word _ (d - 1) d c m' d' Hc Hfirst); [lia|done..].
  - destruct (name_text _ _) as [[[m' d'] nx]| |] eqn:Hv; [|done..]. intros [= <-].
    apply (name_text_word _ (d - 1) d c m' d' nx Hc Hfirst); [lia|done..].
Qed.

Lemma tree_ok_node' n : (value n = [] ∨ is_value (value n)) → Forall (λ n, is_name (name n)) (children n) →
  Forall tree_ok (children n) → tree_ok n.
Proof. destruct n. by constructor. Qed.

Lemma tree_ok_create n x : tree_ok n → is_name x → tree_ok (config_create n x).
Proof.
  intros [x' v l Hv Hn Hl] Hx. constructor; [done|..]; apply Forall_app; split; try done; constructor; try done.
  by constructor; [left|..].
Qed.

Lemma tree_ok_child n i : tree_ok n → tree_ok (child n i).
Proof.
  intros [x v l _ _ Hl]. unfold child. cbn. destruct (nth_lookup_or_length l i (config_node None None)) as [H|H].
  - rewrite Forall_lookup in Hl. eauto.
  - rewrite nth_overflow by done. by constructor; [left|..].
Qed.

(** A child is put back with its name. *)
Lemma tree_ok_set_child n i k : tree_ok n → tree_ok k → name k = name (child n i) → tree_ok (set_child n i k).
Proof.
  intros [x v l Hv Hn Hl] Hk Hname. constructor; cbn [children]; [done|..].
  - destruct (decide (i < length l)%nat) as [Hi|]; [|by rewrite list_insert_ge by lia].
    apply Forall_insert; [done|]. rewrite Hname. unfold child. cbn. rewrite nth_lookup.
    destruct (lookup_lt_is_Some_2 _ _ Hi) as [y Hy]. rewrite Hy. cbn. rewrite Forall_lookup in Hn. eauto.
  - by apply Forall_insert.
Qed.

Lemma tree_ok_value n v : tree_ok n → is_value v → tree_ok (set_value n v).
Proof. intros [x v' l _ Hn Hl] Hv. constructor; auto. Qed.

(** What a parsing function did: it went on from [cs], and kept the name of the
    node and the words of the tree. *)
Definition parsed (cs : cstate) (node : cnode) (r : outcome (bool * cstate * cnode)) : Prop :=
  ∃ ok cs' node', r = Returned (ok, cs', node') ∧ step_ok cs cs' ∧ name node' = name node ∧ (tree_ok node → tree_ok node').

Lemma parsed_stop cs cs' node ok : step_ok cs cs' → parsed cs node (Returned (ok, cs', node)).
Proof. intros H. exists ok, cs', node. auto. Qed.

Lemma parse_parsed fuel : ∀ cs node, state_ok cs →
  ((2 * left cs < fuel)%nat → parsed cs node (parse_block fuel cs node)) ∧
  ((2 * left cs + 1 < fuel)%nat → is_name (cs_text cs) → parsed cs node (parse_expr fuel cs node)) ∧
  ((2 * left cs < fuel)%nat → parsed cs node (expr_loop fuel cs node)).
Proof.
  induction fuel as [|fuel IH]; intros cs node Hok; [lia|]. split; [|split].
  - intros Hf. cbn [parse_block]. destruct (lex_step cs false Hok) as (t & cs1 & Hlex & Hs1 & Hl & _).
    pose proof (lex_word cs false cs1 Hok) as Hw. rewrite Hlex in Hw |- *. cbn [obind]. destruct t; try by apply parsed_stop.
    specialize (Hl ltac:(done)). destruct (IH cs1 node (so_state _ _ Hs1)) as (_ & (ok & cs2 & node2 & -> & Hs2 & Hn2 & Ht2) & _); [lia|by apply Hw|].
    cbn [obind]. pose proof (so_left _ _ Hs2) as Hl2. pose proof (text_step_trans _ _ _ Hs1 Hs2) as Hs12.
    destruct ok; [|by exists false, cs2, node2].
    destruct (IH cs2 node2 (so_state _ _ Hs2)) as ((ok & cs3 & node3 & -> & Hs3 & Hn3 & Ht3) & _ & _); [lia|].
    exists ok, cs3, node3. split; [done|]. split; [by eapply text_step_trans|]. split; [congruence|auto].
  - intros Hf Hname. cbn [parse_expr]. set (found := match config_find node (cs_text cs) with Some i => _ | None => _ end).
    assert (∃ root1 i, match found with Some i => (node, i) | None => (config_create node (cs_text cs), length (children node)) end = (root1, i) ∧
      name root1 = name node ∧ (tree_ok node → tree_ok root1)) as (root1 & i & -> & Hn1 & Ht1).
    { destruct found as [i|]; [by exists node, i|]. eexists _, _. split; [done|]. split; [done|]. intros. by apply tree_ok_create. }
    destruct (IH cs (child root1 i) Hok) as (_ & _ & (ok & cs2 & node2 & -> & Hs2 & Hn2 & Ht2)); [lia|]. cbn [obind].
    exists ok, cs2, (set_child root1 i node2). split; [done|]. split; [done|]. split; [done|].
    intros Ht. apply tree_ok_set_child; [auto|apply Ht2, tree_ok_child; auto|done].
  - intros Hf. cbn [expr_loop]. destruct (lex_step cs true Hok) as (t & cs1 & Hlex & Hs1 & Hl & _).
    pose proof (lex_word cs true cs1 Hok) as Hw. rewrite Hlex in Hw |- *. cbn [obind]. destruct t; try by apply parsed_stop.
    + eexists _, _, _. split; [done|]. split; [done|]. split; [done|]. intros. by apply tree_ok_value, Hw.
    + specialize (Hl ltac:(done)). destruct (lex_step cs1 false (so_state _ _ Hs1)) as (t2 & cs2 & Hlex2 & Hs2 & Hl2 & _).
      pose proof (lex_word cs1 false cs2 (so_state _ _ Hs1)) as Hw2. rewrite Hlex2 in Hw2 |- *. cbn [obind].
      pose proof (text_step_trans _ _ _ Hs1 Hs2) as Hs12. destruct t2; try by apply parsed_stop. specialize (Hl2 ltac:(done)).
      destruct (IH cs2 (child (config_create node (cs_text cs2)) (length (children node))) (so_state _ _ Hs2))
        as (_ & _ & (ok & cs3 & node3 & -> & Hs3 & Hn3 & Ht3)); [lia|].
      cbn [obind]. eexists _, _, _. split; [done|]. split; [by eapply text_step_trans|]. split; [done|].
      intros Ht. pose proof (tree_ok_create node _ Ht (Hw2 eq_refl)). apply tree_ok_set_child; [done| |done]. by apply Ht3, tree_ok_child.
    + specialize (Hl ltac:(done)). destruct (IH cs1 node (so_state _ _ Hs1)) as ((ok & cs2 & node2 & -> & Hs2 & Hn2 & Ht2) & _ & _); [lia|].
      exists ok, cs2, node2. split; [done|]. split; [by eapply text_step_trans|done].
Qed.

Lemma load_loop_ends fuel : ∀ cs root, state_ok cs → (2 * left cs < fuel)%nat →
  ∃ cs' root', load_loop fuel cs root = Returned (cs', root') ∧ step_ok cs cs' ∧ name root' = name root ∧ (tree_ok root → tree_ok root').
Proof.
  induction fuel as [|fuel IH]; intros cs root Hok Hf; [lia|]. cbn [load_loop].
  destruct (lex_step cs false Hok) as (t & cs1 & Hlex & Hs1 & Hl & _).
  pose proof (lex_word cs false cs1 Hok) as Hw. rewrite Hlex in Hw |- *. cbn [obind]. destruct t; try by exists cs1, root.
  specialize (Hl ltac:(done)). destruct (parse_parsed fuel cs1 root (so_state _ _ Hs1)) as (_ & (ok & cs2 & root2 & -> & Hs2 & Hn2 & Ht2) & _); [lia|by apply Hw|].
  cbn [obind]. pose proof (so_left _ _ Hs2) as Hl2. pose proof (text_step_trans _ _ _ Hs1 Hs2) as Hs12.
  destruct ok; [|by exists cs2, root2].
  destruct (IH cs2 root2 (so_state _ _ Hs2)) as (cs3 & root3 & -> & Hs3 & Hn3 & Ht3); [lia|].
  exists cs3, root3. split; [done|]. split; [by eapply text_step_trans|]. split; [congruence|auto].
Qed.

(** C32: loading any text with an end returns: no character past the memory of
    the text is read or written, and the parser ends; the tree has the words
    and values it had and only such as a text can hold: names without spaces,
    dots, braces and ends, values on one line. *)
Theorem config_load_safe root d : 0 ∈ d →
  ∃ m' root', config_load root d = Returned (m', root') ∧ length m' = length d ∧ name root' = name root ∧
              (tree_ok root → tree_ok root').
Proof.
  intros [z Hz]%list_elem_of_lookup. unfold config_load. set (cs := mkState d 0 0 0).
  assert (state_ok cs) as Hok by (split; [exists z; split; [cbn; lia|done]|by left]).
  destruct (load_loop_ends (4 * length d + 8) cs root Hok) as (cs' & root' & -> & Hs & Hn & Ht); [unfold left; cbn; lia|].
  cbn [obind]. exists (mem cs'), root'. split; [done|]. split; [apply Hs|done].
Qed.

Lemma config_load_safe_witness : 0 ∈ bytes "a { b" ++ [0] ∧ ∃ m' root',
  config_load (config_node None None) (bytes "a { b" ++ [0]) = Returned (m', root') ∧ length m' = length (bytes "a { b" ++ [0]) ∧
  name root' = name (config_node None None) ∧ (tree_ok (config_node None None) → tree_ok root').
Proof.
  assert (0 ∈ bytes "a { b" ++ [0]) as H by (apply elem_of_app; right; by left). split; [exact H|exact (config_load_safe _ _ H)].
Defined.

(** Calls of the lexer one after the other. *)
Inductive lexes : cstate → cstate → Prop :=
  | lexes_nil cs : lexes cs cs
  | lexes_cons cs1 cs2 cs3 val t : lex cs1 val = Returned (t, cs2) → lexes cs2 cs3 → lexes cs1 cs3.

Lemma lexes_step cs cs' : lexes cs cs' → state_ok cs → step_ok cs cs'.
Proof.
  induction 1 as [|cs1 cs2 cs3 val t Hlex _ IH]; intros Hok; [by apply text_step_refl|].
  destruct (lex_step cs1 val Hok) as (t' & cs2' & Hlex' & Hs & _). rewrite Hlex in Hlex'. injection Hlex' as <- <-.
  eapply text_step_trans; [done|]. apply IH, Hs.
Qed.

Lemma until_nul_same (l k : list Z) z : l !! z = Some 0 → (∀ j, (j ≤ z)%nat → k !! j = l !! j) → until_nul k = until_nul l.
Proof.
  revert k z. induction l as [|c l IH]; intros k z Hz Hj; [done|].
  destruct k as [|c' k]; [specialize (Hj 0%nat ltac:(lia)); done|]. pose proof (Hj 0%nat ltac:(lia)) as [= ->]. cbn [until_nul].
  destruct (Z.eqb_spec c 0); [done|]. f_equal. destruct z as [|z]; [injection Hz; done|].
  apply (IH k z Hz). intros j Hle. apply (Hj (S j)). lia.
Qed.

(** A word that was cut off, and that a node may point to, stays the same
    while the rest of the text is cut. *)
Theorem lex_stable cs val cs1 cs2 :
  state_ok cs → lex cs val = Returned (T_TEXT, cs1) → lexes cs1 cs2 → string_at (mem cs2) (text cs1) = cs_text cs1.
Proof.
  intros Hok Hlex Hls. destruct (lex_step cs val Hok) as (t & cs1' & Hlex' & Hs & _ & Ht). rewrite Hlex in Hlex'.
  injection Hlex' as <- <-. destruct (Ht eq_refl) as (_ & z & Hz & H0).
  pose proof (lexes_step _ _ Hls (so_state _ _ Hs)) as Hs2. unfold cs_text, string_at.
  apply (until_nul_same _ _ (z - text cs1)).
  - rewrite lookup_drop. by replace (text cs1 + (z - text cs1))%nat with z by lia.
  - intros j Hj. rewrite !lookup_drop. apply (so_read _ _ Hs2). lia.
Qed.

(** ** Searching *)

Lemma find_loop_spec l x : ∀ i m, find_loop l x i m =
  match find_loop l x 0 None with Some j => Some (i + j)%nat | None => m end.
Proof.
  induction l as [|n l IH]; intros i m; cbn [find_loop]; [done|]. rewrite (IH (S i)), (IH 1%nat).
  destruct (find_loop l x 0 None) as [j|]; [f_equal; lia|]. case_bool_decide; [f_equal; lia|done].
Qed.

Lemma find_cons n l x : find_loop (n :: l) x 0 None =
  match find_loop l x 0 None with Some j => Some (S j) | None => if bool_decide (name n = x) then Some 0%nat else None end.
Proof. cbn [find_loop]. by rewrite find_loop_spec. Qed.

(** The last child of the name. *)
Definition newest (l : list cnode) (x : cstring) (i : nat) (n : cnode) : Prop :=
  l !! i = Some n ∧ name n = x ∧ ∀ j n', l !! j = Some n' → name n' = x → (j ≤ i)%nat.

Lemma find_None l x : find_loop l x 0 None = None ↔ Forall (λ n, name n ≠ x) l.
Proof.
  induction l as [|n l IH]; [done|]. rewrite find_cons, Forall_cons, <- IH.
  destruct (find_loop l x 0 None); [naive_solver|]. case_bool_decide; naive_solver.
Qed.

Lemma find_Some l x i : find_loop l x 0 None = Some i → ∃ n, newest l x i n.
Proof.
  revert i. induction l as [|n l IH]; intros i; [done|]. rewrite find_cons.
  destruct (find_loop l x 0 None) as [j|] eqn:Hl.
  - intros [= <-]. destruct (IH j eq_refl) as (n' & Hj & Hn & Hlast). exists n'. split; [done|]. split; [done|].
    intros [|k] n2 Hk Hn2; [lia|]. specialize (Hlast k n2 Hk Hn2). lia.
  - case_bool_decide as Hn; [|done]. intros [= <-]. exists n. split; [done|]. split; [done|].
    intros [|k] n2 Hk Hn2; [lia|]. apply find_None in Hl. rewrite Forall_lookup in Hl. by destruct (Hl k n2 Hk).
Qed.

Lemma newest_find l x i n : newest l x i n → find_loop l x 0 None = Some i.
Proof.
  intros (Hi & Hn & Hlast). destruct (find_loop l x 0 None) as [j|] eqn:Hf.
  - destruct (find_Some _ _ _ Hf) as (n' & Hj & Hn' & Hlast'). pose proof (Hlast _ _ Hj Hn'). pose proof (Hlast' _ _ Hi Hn). f_equal. lia.
  - apply find_None in Hf. rewrite Forall_lookup in Hf. by destruct (Hf _ _ Hi).
Qed.

(** Appending a child hides those of its name and no others. *)
Lemma find_app l n x : find_loop (l ++ [n]) x 0 None =
  if bool_decide (name n = x) then Some (length l) else find_loop l x 0 None.
Proof.
  induction l as [|n' l IH]; [rewrite app_nil_l, find_cons; done|]. rewrite <- app_comm_cons, !find_cons, IH.
  case_bool_decide; done.
Qed.

Lemma find_alter l i f x : (∀ n, name (f n) = name n) → find_loop (alter f i l) x 0 None = find_loop l x 0 None.
Proof.
  intros Hf. revert i. induction l as [|n l IH]; intros i; [done|]. destruct i as [|i]; cbn [alter list_alter]; rewrite !find_cons.
  - by rewrite Hf.
  - change (list_alter f i l) with (alter f i l). by rewrite IH.
Qed.

Lemma str_create root x v x' d :
  find_loop (children root) x 0 None = None →
  config_str (alter_child (λ n, set_value n v) (config_create root x) (length (children root))) x' d =
  if bool_decide (x' = x) then v else config_str root x' d.
Proof.
  intros Hx. unfold config_str, config_find, alter_child, config_create. cbn [children]. rewrite find_alter by done.
  rewrite find_app. change (name (config_node (Some x) None)) with x. case_bool_decide as H1; case_bool_decide as H2; try congruence.
  - cbn [mbind option_bind]. rewrite list_lookup_alter_eq, lookup_app_r, Nat.sub_diag by lia. done.
  - destruct (find_loop (children root) x' 0 None) as [i|] eqn:Hf; [|done]. cbn [mbind option_bind].
    destruct (find_Some _ _ _ Hf) as (n & Hi & _). apply lookup_lt_Some in Hi as Hlt.
    rewrite list_lookup_alter_ne by lia. by rewrite lookup_app_l by done.
Qed.

(** What [config_set] sets is what [config_str] gives, and nothing else
    changes; searching gives the newest child of the name. *)
Theorem config_set_get root x v x' d :
  config_str (config_set root x v) x' d = (if bool_decide (x' = x) then v else config_str root x' d) ∧
  (∀ i, config_find root x = Some i ↔ ∃ n, newest (children root) x i n) ∧
  (config_find root x = None ↔ Forall (λ n, name n ≠ x) (children root)).
Proof.
  split; [|split; [intros i; split; [apply find_Some|intros [n Hn]; by eapply newest_find]|apply find_None]].
  unfold config_set, config_find. destruct (find_loop (children root) x 0 None) as [i|] eqn:Hx; [|by apply str_create].
  destruct (find_Some _ _ _ Hx) as (n & Hi & Hn & _). unfold config_str, config_find, alter_child. cbn [children].
  rewrite find_alter by done. case_bool_decide as H1.
  - subst x'. rewrite Hx. cbn [mbind option_bind]. by rewrite list_lookup_alter_eq, Hi.
  - destruct (find_loop (children root) x' 0 None) as [j|] eqn:Hf; [|done]. cbn [mbind option_bind].
    destruct (find_Some _ _ _ Hf) as (n' & Hj & Hn' & _). rewrite list_lookup_alter_ne; [done|]. intros ->. congruence.
Qed.

(** ** Texts of trees *)

Definition spaces (d : nat) : list Z := replicate d 32.

(** A node with an indentation of [d]: a block of its children, if it has some
    or no value, then its value, if it has one. *)
Fixpoint write_node (d : nat) (n : cnode) : list Z :=
  let 'CNode x v l := n in
  (if bool_decide (v = []) || negb (bool_decide (l = []))
   then spaces d ++ x ++ [32; chr "{"; 10] ++ concat (write_node (d + 4) <$> l) ++ spaces d ++ [chr "}"; 10] else []) ++
  (if bool_decide (v = []) then [] else spaces d ++ x ++ [32] ++ v ++ [10]).

Definition write_nodes (d : nat) (l : list cnode) : list Z := concat (write_node d <$> l).

(** The text left to read is [k], after spaces. *)
Definition at_text (cs : cstate) (k : list Z) : Prop :=
  next cs = 0 ∧ ∃ p w, mem cs = p ++ w ++ k ∧ data cs = length p ∧ Forall (λ c, isspace c = true) w.

Lemma at_text_space cs w k : Forall (λ c, isspace c = true) w → at_text cs (w ++ k) → at_text cs k.
Proof.
  intros Hw (Hn & p & w' & Hm & Hd & Hw'). split; [done|]. exists p, (w' ++ w). rewrite <- app_assoc. split; [done|].
  split; [done|]. by apply Forall_app.
Qed.

Lemma spaces_space d : Forall (λ c, isspace c = true) (spaces d).
Proof. by apply Forall_replicate. Qed.

Lemma skip_spaces w c k d cd : Forall (λ c, isspace c = true) w → isspace c = false → c ≠ chr "#" →
  skip false (w ++ c :: k) d cd = Returned (c, S (d + length w), cd).
Proof.
  intros Hw Hc Hh. revert d. induction Hw as [|y w Hy Hw IH]; intros d; cbn [app skip length].
  - rewrite Hc, (proj2 (Z.eqb_neq _ _) Hh). by rewrite Nat.add_0_r.
  - rewrite Hy, IH. do 3 f_equal. lia.
Qed.

Lemma first_char_at cs c k : at_text cs (c :: k) → isspace c = false → c ≠ chr "#" →
  ∃ p, mem cs = p ++ c :: k ∧ first_char cs = Returned (c, S (length p), data cs).
Proof.
  intros (Hn & p & w & Hm & Hd & Hw) Hc Hh. exists (p ++ w). split; [by rewrite <- app_assoc|]. unfold first_char.
  rewrite Hn, Hm, Hd, drop_app_length. cbn [Z.eqb negb]. rewrite skip_spaces by done. by rewrite length_app.
Qed.

Lemma lex_char cs c k t : at_text cs (c :: k) → (c, t) ∈ [(chr "{", T_OBRACE); (chr "}", T_CBRACE)] →
  ∀ val, ∃ cs', lex cs val = Returned (t, cs') ∧ at_text cs' k.
Proof.
  intros Hat Hc val. assert (isspace c = false ∧ c ≠ chr "#") as [Hs Hh].
  { by repeat (apply elem_of_cons in Hc as [[= -> _]|Hc]; [done|]); apply elem_of_nil in Hc. }
  destruct (first_char_at _ _ _ Hat Hs Hh) as (p & Hm & Hf). exists (mkState (mem cs) (S (length p)) (text cs) 0). split.
  - unfold lex. rewrite Hf. cbn [obind]. by repeat (apply elem_of_cons in Hc as [[= -> ->]|Hc]; [done|]); apply elem_of_nil in Hc.
  - split; [done|]. exists (p ++ [c]), []. cbn. rewrite <- app_assoc, length_app. cbn. split; [done|]. split; [lia|done].
Qed.

Lemma lex_first cs c k val : at_text cs (c :: k) → first_ok c → ∃ p, mem cs = p ++ c :: k ∧
  lex cs val = if val : bool then let! (m, d') := value_text (mem cs) (length p) (S (length p)) in Returned (T_TEXT, mkState m d' (length p) 0)
               else let! (m, d', nx) := name_text (mem cs) (S (length p)) in Returned (T_TEXT, mkState m d' (length p) nx).
Proof.
  intros Hat (Hs & Hsp & Hh & H0). destruct (first_char_at _ _ _ Hat Hs Hh) as (p & Hm & Hf). exists p. split; [done|].
  unfold lex. rewrite Hf. cbn [obind]. unfold special in Hsp. rewrite !orb_false_iff in Hsp. destruct Hsp as [[-> ->] ->].
  rewrite (proj2 (Z.eqb_neq _ _) H0). cbn [Nat.sub]. by rewrite Nat.sub_0_r.
Qed.

Lemma word_no_nul kind x : kind 0 = false → word kind x → no_nul x.
Proof.
  intros Hk. destruct x as [|c x]; [done|]. intros [Hc Hx]. constructor; [apply Hc|]. eapply Forall_impl; [exact Hx|]. cbn. congruence.
Qed.

(** A state after a word. *)
Lemma at_after p x k : at_text (mkState (p ++ x ++ 0 :: k) (S (length p + length x)) (length p) 0) k.
Proof.
  split; [done|]. exists (p ++ x ++ [0]), []. cbn. rewrite <- !app_assoc, !length_app. cbn. split; [done|]. split; [lia|done].
Qed.

Lemma drop_after {A} (p : list A) c k : drop (S (length p)) (p ++ c :: k) = k.
Proof.
  replace (S (length p)) with (length (p ++ [c])) by (rewrite length_app; cbn; lia).
  replace (p ++ c :: k) with ((p ++ [c]) ++ k) by (by rewrite <- app_assoc). by rewrite drop_app_length.
Qed.

Lemma name_text_at p c0 x c k : Forall (λ c, name_char c = true) x → name_char c = false → c ≠ 0 →
  name_text (p ++ c0 :: x ++ c :: k) (S (length p)) =
  Returned (p ++ (c0 :: x) ++ 0 :: k, S (length p + length (c0 :: x)), if isspace c then 0 else c).
Proof.
  intros Hx Hc H0. unfold name_text. rewrite drop_after.
  change (char_run (λ c, negb (isspace c) && negb (c =? 0) && negb (special c))) with (char_run name_char).
  rewrite char_run_app by done. cbn [obind].
  replace (S (length p) + length x)%nat with (length (p ++ c0 :: x)) by (rewrite length_app; cbn; lia).
  replace (p ++ c0 :: x ++ c :: k) with ((p ++ c0 :: x) ++ c :: k) by (by rewrite <- app_assoc).
  rewrite list_lookup_middle by done. cbn [oderef obind]. rewrite (proj2 (Z.eqb_neq c 0) H0).
  rewrite insert_app_r_alt, Nat.sub_diag by done. cbn [insert list_insert]. rewrite length_app, <- app_assoc. by destruct (isspace c).
Qed.

(** A name and the character behind it, which is kept unless it is a space. *)
Lemma lex_name_gen cs x c k : at_text cs (x ++ c :: k) → is_name x → name_char c = false → c ≠ 0 →
  ∃ p, lex cs false = Returned (T_TEXT, mkState (p ++ x ++ 0 :: k) (S (length p + length x)) (length p) (if isspace c then 0 else c)) ∧
       string_at (p ++ x ++ 0 :: k) (length p) = x.
Proof.
  intros Hat Hx Hc Hc0. pose proof (word_no_nul name_char x eq_refl Hx) as Hnul. destruct x as [|c0 x]; [done|]. destruct Hx as [H0 Hx].
  destruct (lex_first cs c0 (x ++ c :: k) false Hat H0) as (p & Hm & Hlex). exists p. split.
  - by rewrite Hlex, Hm, name_text_at.
  - unfold string_at. rewrite drop_app_length. by apply until_nul_app.
Qed.

Lemma lex_name cs x c k : at_text cs (x ++ c :: k) → is_name x → isspace c = true →
  ∃ cs', lex cs false = Returned (T_TEXT, cs') ∧ at_text cs' k ∧ cs_text cs' = x.
Proof.
  intros Hat Hx Hc. destruct (lex_name_gen cs x c k Hat Hx) as (p & Hlex & Ht); [unfold name_char; by rewrite Hc|by intros ->|].
  rewrite Hc in Hlex. eexists. split; [done|]. split; [apply at_after|done].
Qed.

(** A name with a dot behind it: the dot is the next word. *)
Lemma lex_name_dot cs x k : at_text cs (x ++ chr "." :: k) → is_name x →
  ∃ cs1 cs2, lex cs false = Returned (T_TEXT, cs1) ∧ cs_text cs1 = x ∧ lex cs1 true = Returned (T_DOT, cs2) ∧ at_text cs2 k.
Proof.
  intros Hat Hx. destruct (lex_name_gen cs x (chr ".") k Hat Hx) as (p & Hlex & Ht); [done..|].
  eexists _, _. split; [done|]. split; [done|]. split; [done|]. apply at_after.
Qed.

(** A value that does not end in white space. *)
Definition value_ok (v : cstring) : Prop := is_value v ∧ ∀ v' c, v = v' ++ [c] → isspace c = false.

Lemma lex_value cs v k : at_text cs (v ++ 10 :: k) → value_ok v →
  ∃ cs', lex cs true = Returned (T_TEXT, cs') ∧ at_text cs' k ∧ cs_text cs' = v.
Proof.
  intros Hat [Hv Hend]. pose proof (word_no_nul value_char v eq_refl Hv) as Hnul. destruct v as [|c0 v]; [done|]. destruct Hv as [H0 Hv].
  destruct (lex_first cs c0 (v ++ 10 :: k) true Hat H0) as (p & Hm & Hlex).
  exists (mkState (p ++ (c0 :: v) ++ 0 :: k) (S (length p + length (c0 :: v))) (length p) 0). split; [|split; [apply at_after|]].
  2: { unfold cs_text, string_at. cbn [mem text]. rewrite drop_app_length. by apply until_nul_app. }
  rewrite Hlex. clear Hlex. unfold value_text. rewrite Hm.
  rewrite drop_after.
  change (char_run (λ c, negb (c =? 0) && negb (c =? 10))) with (char_run value_char).
  rewrite char_run_app by done. cbn [obind].
  replace (S (length p) + length v)%nat with (length (p ++ c0 :: v)) by (rewrite length_app; cbn; lia).
  replace (p ++ c0 :: v ++ 10 :: k) with ((p ++ c0 :: v) ++ 10 :: k) by (by rewrite <- app_assoc).
  rewrite list_lookup_middle by done. cbn [oderef obind Z.eqb Pos.eqb].
  rewrite insert_app_r_alt, Nat.sub_diag by done. cbn [insert list_insert].
  replace (length (p ++ c0 :: v) - 1 - length p)%nat with (length v) by (rewrite length_app; cbn; lia).
  assert (strip ((p ++ c0 :: v) ++ 0 :: k) (length p) (length v) = Returned ((p ++ c0 :: v) ++ 0 :: k)) as ->.
  { destruct v as [|c v _] using rev_ind; [done|]. rewrite length_app. cbn [length]. rewrite Nat.add_1_r. cbn [strip].
    replace ((p ++ c0 :: v ++ [c]) ++ 0 :: k) with ((p ++ c0 :: v) ++ c :: 0 :: k)
      by (rewrite <- !app_assoc; cbn; by rewrite <- !app_assoc).
    rewrite list_lookup_middle by (rewrite length_app; cbn; lia). cbn [oderef obind]. by rewrite (Hend (c0 :: v) c eq_refl). }
  cbn [obind]. rewrite length_app, <- app_assoc. done.
Qed.

(** ** More fuel changes nothing *)

Lemma parse_more f : ∀ f' cs n r, (f ≤ f')%nat →
  (parse_block f cs n = Returned r → parse_block f' cs n = Returned r) ∧
  (parse_expr f cs n = Returned r → parse_expr f' cs n = Returned r) ∧
  (expr_loop f cs n = Returned r → expr_loop f' cs n = Returned r).
Proof.
  induction f as [|f IH]; intros f' cs n r Hf; [done|]. destruct f' as [|f']; [lia|]. apply le_S_n in Hf.
  split; [|split]; cbn [parse_block parse_expr expr_loop].
  - destruct (lex cs false) as [[t cs1]| |]; [|done..]. cbn [obind]. destruct t; try done.
    rewrite !obind_returned. intros ([[ok cs2] n2] & He & Hk). exists (ok, cs2, n2). split; [by apply (IH f' cs1 n)|].
    destruct ok; [by apply (IH f' cs2 n2)|done].
  - destruct (match match config_find n _ with Some i => _ | None => _ end with Some i => (n, i) | None => _ end) as [root1 i].
    rewrite !obind_returned. intros ([[ok cs2] n2] & He & Hk). exists (ok, cs2, n2). split; [by apply (IH f' cs (child root1 i))|done].
  - destruct (lex cs true) as [[t cs1]| |]; [|done..]. cbn [obind]. destruct t; try done.
    + destruct (lex cs1 false) as [[t2 cs2]| |]; [|done..]. cbn [obind]. destruct t2; try done.
      rewrite !obind_returned. intros ([[ok cs3] n2] & He & Hk). exists (ok, cs3, n2). split; [|done]. by apply (IH f' cs2).
    + by apply (IH f' cs1 n).
Qed.

Lemma load_more f : ∀ f' cs n r, (f ≤ f')%nat → load_loop f cs n = Returned r → load_loop f' cs n = Returned r.
Proof.
  induction f as [|f IH]; intros f' cs n r Hf; [done|]. destruct f' as [|f']; [lia|]. apply le_S_n in Hf. cbn [load_loop].
  destruct (lex cs false) as [[t cs1]| |]; [|done..]. cbn [obind]. destruct t; try done.
  rewrite !obind_returned. intros ([[ok cs2] n2] & He & Hk). exists (ok, cs2, n2). split; [by apply (parse_more f f' cs1 n _ Hf)|].
  destruct ok; [by apply IH|done].
Qed.

(** Expressions read one after the other into a node. *)
Inductive exprs : cstate → cnode → cstate → cnode → Prop :=
  | exprs_nil cs n : exprs cs n cs n
  | exprs_cons cs cs1 cs2 cs3 n n2 n3 f : lex cs false = Returned (T_TEXT, cs1) → parse_expr f cs1 n = Returned (true, cs2, n2) →
      exprs cs2 n2 cs3 n3 → exprs cs n cs3 n3.

Lemma exprs_app cs n cs1 n1 cs2 n2 : exprs cs n cs1 n1 → exprs cs1 n1 cs2 n2 → exprs cs n cs2 n2.
Proof. induction 1; [done|]. eauto using exprs_cons. Qed.

Lemma exprs_block cs n cs1 n1 f r : exprs cs n cs1 n1 → parse_block f cs1 n1 = Returned r → ∃ f', parse_block f' cs n = Returned r.
Proof.
  induction 1 as [|cs cs1 cs2 cs3 n n2 n3 f1 Hlex He _ IH]; [eauto|]. intros Hr. destruct (IH Hr) as [f2 Hf2].
  exists (S (f1 + f2)). cbn [parse_block]. rewrite Hlex. cbn [obind].
  destruct (parse_more f1 (f1 + f2) cs1 n (true, cs2, n2) ltac:(lia)) as (_ & H1 & _). rewrite (H1 He). cbn [obind].
  by apply (parse_more f2 (f1 + f2) cs2 n2 r ltac:(lia)).
Qed.

Lemma exprs_load cs n cs1 n1 f r : exprs cs n cs1 n1 → load_loop f cs1 n1 = Returned r → ∃ f', load_loop f' cs n = Returned r.
Proof.
  induction 1 as [|cs cs1 cs2 cs3 n n2 n3 f1 Hlex He _ IH]; [eauto|]. intros Hr. destruct (IH Hr) as [f2 Hf2].
  exists (S (f1 + f2)). cbn [load_loop]. rewrite Hlex. cbn [obind].
  destruct (parse_more f1 (f1 + f2) cs1 n (true, cs2, n2) ltac:(lia)) as (_ & H1 & _). rewrite (H1 He). cbn [obind].
  by apply (load_more f2 (f1 + f2)); [lia|].
Qed.

(** ** Reading written trees *)

Definition add (root n : cnode) : cnode := CNode (name root) (value root) (children root ++ [n]).

Lemma parse_expr_new f cs root : config_find root (cs_text cs) = None →
  parse_expr (S f) cs root = let! (ok, cs2, node) := expr_loop f cs (CNode (cs_text cs) [] []) in Returned (ok, cs2, add root node).
Proof.
  intros H. cbn [parse_expr]. rewrite H. unfold child, config_create, set_child, add. cbn [children name value].
  rewrite nth_middle. change (config_node (Some (cs_text cs)) None) with (CNode (cs_text cs) [] []).
  destruct (expr_loop _ _ _) as [[[ok cs2] node]| |]; [|done..]. cbn [obind]. by rewrite insert_app_r_alt, Nat.sub_diag by lia.
Qed.

Lemma parse_expr_old f cs root l : parse_expr (S f) cs (add root (CNode (cs_text cs) [] l)) =
  let! (ok, cs2, node) := expr_loop f cs (CNode (cs_text cs) [] l) in Returned (ok, cs2, add root node).
Proof.
  cbn [parse_expr]. unfold config_find, add, child, set_child. cbn [children name value]. rewrite find_app. cbn [name].
  rewrite bool_decide_eq_true_2 by done. rewrite nth_middle. cbn [value children name]. rewrite nth_middle.
  destruct (expr_loop _ _ _) as [[[ok cs2] node]| |]; [|done..]. cbn [obind]. by rewrite insert_app_r_alt, Nat.sub_diag by lia.
Qed.

#[warnings="-register-all"]
Inductive tree_wf : cnode → Prop :=
  | tree_wf_node x v l : is_name x → (v = [] ∨ value_ok v) → NoDup (name <$> l) → Forall tree_wf l → tree_wf (CNode x v l).

(** Reading one expression, of a new name or of the newest one without a value. *)
Definition opens (cs : cstate) (root : cnode) (x : cstring) (l : list cnode) (r : cnode) : Prop :=
  l = [] ∧ root = r ∧ Forall (λ n, name n ≠ x) (children r) ∨ root = add r (CNode x [] l).

Lemma opens_expr f cs root l r : opens cs root (cs_text cs) l r →
  parse_expr (S f) cs root = let! (ok, cs2, node) := expr_loop f cs (CNode (cs_text cs) [] l) in Returned (ok, cs2, add r node).
Proof. intros [(-> & -> & Hx%find_None)| ->]; [by apply parse_expr_new|apply parse_expr_old]. Qed.

Lemma value_expr cs root x l r d v k : opens cs root x l r → is_name x → value_ok v →
  at_text cs (spaces d ++ x ++ [32] ++ v ++ [10] ++ k) → ∃ cs', exprs cs root cs' (add r (CNode x v l)) ∧ at_text cs' k.
Proof.
  intros Ho Hx Hv Hat. apply at_text_space in Hat; [|apply spaces_space].
  destruct (lex_name cs x 32 (v ++ [10] ++ k) Hat Hx eq_refl) as (cs1 & H1 & Hat1 & Ht1).
  destruct (lex_value cs1 v k Hat1 Hv) as (cs2 & H2 & Hat2 & Ht2). exists cs2. split; [|done].
  apply (exprs_cons cs cs1 cs2 cs2 root (add r (CNode x v l)) _ 2 H1); [|constructor].
  rewrite (opens_expr 1 cs1 root l r) by (by rewrite Ht1). cbn [expr_loop]. rewrite H2. cbn [obind].
  by rewrite Ht1, Ht2.
Qed.

Lemma block_expr cs root x r d k ks l : opens cs root x [] r → is_name x →
  (∀ cs1, at_text cs1 (ks ++ spaces d ++ [chr "}"; 10] ++ k) → ∃ cs2, exprs cs1 (CNode x [] []) cs2 (CNode x [] l) ∧ at_text cs2 (spaces d ++ [chr "}"; 10] ++ k)) →
  at_text cs (spaces d ++ x ++ [32; chr "{"; 10] ++ ks ++ spaces d ++ [chr "}"; 10] ++ k) →
  ∃ cs', exprs cs root cs' (add r (CNode x [] l)) ∧ at_text cs' k.
Proof.
  intros Ho Hx Hks Hat. apply at_text_space in Hat; [|apply spaces_space].
  destruct (lex_name cs x 32 (chr "{" :: 10 :: ks ++ spaces d ++ [chr "}"; 10] ++ k) Hat Hx eq_refl) as (cs1 & H1 & Hat1 & Ht1).
  destruct (lex_char cs1 _ _ T_OBRACE Hat1 ltac:(by left) true) as (cs2 & H2 & Hat2).
  apply (at_text_space cs2 [10]) in Hat2; [|by constructor]. destruct (Hks cs2 Hat2) as (cs3 & H3 & Hat3).
  apply at_text_space in Hat3; [|apply spaces_space].
  destruct (lex_char cs3 _ _ T_CBRACE Hat3 ltac:(by right; left) false) as (cs4 & H4 & Hat4).
  apply (at_text_space cs4 [10]) in Hat4; [|by constructor]. exists cs4. split; [|done].
  destruct (exprs_block _ _ _ _ 1 (true, cs4, CNode x [] l) H3) as [f Hf]; [cbn [parse_block]; by rewrite H4|].
  apply (exprs_cons cs cs1 cs4 cs4 root (add r (CNode x [] l)) _ (S (S f)) H1); [|constructor].
  rewrite (opens_expr _ cs1 root [] r) by (by rewrite Ht1). cbn [expr_loop]. rewrite H2. cbn [obind].
  by rewrite Ht1, Hf.
Qed.

(** A written node is read back behind the others. *)
Definition reads (n : cnode) : Prop := ∀ d cs root k, at_text cs (write_node d n ++ k) →
  Forall (λ n', name n' ≠ name n) (children root) → ∃ cs', exprs cs root cs' (add root n) ∧ at_text cs' k.

Lemma nodes_read l : Forall reads l → ∀ d cs root k, at_text cs (concat (write_node d <$> l) ++ k) →
  NoDup (name <$> children root ++ l) →
  ∃ cs', exprs cs root cs' (CNode (name root) (value root) (children root ++ l)) ∧ at_text cs' k.
Proof.
  induction 1 as [|n l Hn Hl IH]; intros d cs root k Hat Hnd.
  - exists cs. split; [|done]. rewrite app_nil_r. destruct root. constructor.
  - cbn [fmap list_fmap concat] in Hat. rewrite <- app_assoc in Hat.
    destruct (Hn d cs root _ Hat) as (cs1 & H1 & Hat1).
    { apply Forall_lookup. intros i n' Hi Heq. rewrite fmap_app in Hnd. apply NoDup_app in Hnd as (_ & Hnd & _).
      apply (Hnd (name n')); [apply list_elem_of_fmap_2; by eapply list_elem_of_lookup_2|]. rewrite Heq. left. }
    destruct (IH d cs1 (add root n) k Hat1) as (cs2 & H2 & Hat2); [cbn [add children]; by rewrite <- app_assoc|].
    exists cs2. split; [|done]. eapply exprs_app; [done|]. cbn [add children name value] in H2. by rewrite <- app_assoc in H2.
Qed.

Lemma node_reads n : tree_wf n → reads n.
Proof.
  revert n. fix IH 2. intros n [x v l Hx Hv Hnd Hl]. assert (Forall reads l) as Hreads.
  { clear Hnd. induction Hl as [|n' l Hn' Hl IHl]; constructor; [by apply IH|done]. }
  clear IH Hl. intros d cs root k Hat Hroot. cbn [write_node] in Hat. cbn [name] in Hroot.
  assert (∀ k', at_text cs (spaces d ++ x ++ [32; chr "{"; 10] ++ concat (write_node (d + 4) <$> l) ++ spaces d ++ [chr "}"; 10] ++ k') →
    ∃ cs', exprs cs root cs' (add root (CNode x [] l)) ∧ at_text cs' k') as Hblock.
  { intros k' Hat'. refine (block_expr cs root x root d k' _ l (or_introl _) Hx _ Hat'); [done|].
    intros cs1 Hat1. by apply (nodes_read l Hreads (d + 4)%nat cs1 (CNode x [] [])). }
  case_bool_decide as Hv0; cbn [orb] in Hat.
  - subst v. apply Hblock. revert Hat. rewrite app_nil_r. by rewrite <- !app_assoc.
  - destruct Hv as [|Hv]; [done|]. case_bool_decide as Hl0; cbn [negb app] in Hat.
    + subst l. apply (value_expr cs root x [] root d v k); [by left|done..|]. rewrite <- !app_assoc in Hat. cbn [app] in Hat |- *. by rewrite <- app_assoc in Hat.
    + repeat first [rewrite <- app_assoc in Hat | progress cbn [app] in Hat]. destruct (Hblock _ Hat) as (cs1 & H1 & Hat1).
      destruct (value_expr cs1 _ x l root d v k ltac:(by right) Hx Hv Hat1) as (cs2 & H2 & Hat2).
      exists cs2. split; [by eapply exprs_app|done].
Qed.

(** Expressions up to the end of a file are what loading the file does. *)
Lemma exprs_load_file root f cs1 root' : exprs (mkState (f ++ [0]) 0 0 0) root cs1 root' → at_text cs1 [0] →
  config_load_file root (Some f) = Returned root'.
Proof.
  intros H1 Hat1. unfold config_load_file, config_load. set (cs := mkState (f ++ [0]) 0 0 0) in *.
  destruct (first_char_at cs1 0 [] Hat1 eq_refl ltac:(done)) as (p & _ & Hfc).
  destruct (exprs_load _ _ _ _ 1 (mkState (mem cs1) (data cs1) (text cs1) 0, root') H1) as [g Hg].
  { cbn [load_loop]. unfold lex. rewrite Hfc. done. }
  assert (state_ok cs) as Hok.
  { split; [|by left]. exists (length f). split; [cbn; lia|]. cbn. by apply list_lookup_middle. }
  set (n := (4 * length (f ++ [0%Z]) + 8)%nat).
  destruct (load_loop_ends n cs root Hok) as (cs3 & root3 & H3 & _); [unfold left, cs; cbn [mem data next Z.eqb]; lia|].
  rewrite H3. pose proof (load_more n (g + n) cs root _ ltac:(lia) H3) as Ha.
  rewrite (load_more g (g + n) cs root _ ltac:(lia) Hg) in Ha. by injection Ha as _ <-.
Qed.

(** C30: a tree of words written as a text of blocks and lines is read back as
    it was, behind the children the root had already. *)
Theorem config_roundtrip root l :
  Forall tree_wf l → NoDup (name <$> children root ++ l) →
  config_load_file root (Some (write_nodes 0 l)) = Returned (CNode (name root) (value root) (children root ++ l)).
Proof.
  intros Hl Hnd. set (cs := mkState (write_nodes 0 l ++ [0]) 0 0 0).
  assert (at_text cs (write_nodes 0 l ++ [0])) as Hat by (split; [done|by exists [], []]).
  destruct (nodes_read l (Forall_impl _ _ _ Hl node_reads) 0%nat cs root [0] Hat Hnd) as (cs1 & H1 & Hat1).
  by eapply exprs_load_file.
Qed.

(** A configuration with a block, a value of several words and a node that has
    both. *)
Definition sample : list cnode :=
  [CNode (bytes "net") [] [CNode (bytes "dns1") (bytes "10.0.0.1 # first") []; CNode (bytes "empty") [] []];
   CNode (bytes "on") (bytes "yes {}") [CNode (bytes "x") (bytes "1") []]].

(** A test of trees. *)
#[export] Instance first_ok_dec c : Decision (first_ok c).
Proof. unfold first_ok. apply _. Defined.
#[export] Instance word_dec kind x : Decision (word kind x).
Proof. destruct x; cbn [word]; apply _. Defined.
Definition value_test (v : cstring) : bool := bool_decide (is_value v) && negb (isspace (List.last v 0)).
Fixpoint tree_test (n : cnode) : bool :=
  let 'CNode x v l := n in
  bool_decide (is_name x) && (bool_decide (v = []) || value_test v) && bool_decide (NoDup (name <$> l)) && forallb tree_test l.

Lemma value_test_ok v : value_test v = true → value_ok v.
Proof.
  unfold value_test. rewrite andb_true_iff, negb_true_iff, bool_decide_eq_true. intros [Hv Hl]. split; [done|].
  intros v' c ->. by rewrite last_last in Hl.
Qed.

Lemma tree_test_ok n : tree_test n = true → tree_wf n.
Proof.
  revert n. fix IH 1. intros [x v l]. cbn [tree_test]. rewrite !andb_true_iff, orb_true_iff, !bool_decide_eq_true.
  intros [[[Hx Hv] Hnd] Hl]. constructor; [done| |done|].
  - destruct Hv as [?|Hv]; [by left|right; by apply value_test_ok].
  - clear Hnd. induction l as [|n l IHl]; [constructor|]. cbn [forallb] in Hl. apply andb_true_iff in Hl as [H1 H2].
    constructor; [by apply IH|by apply IHl].
Qed.

Lemma trees_test_ok l : forallb tree_test l = true → Forall tree_wf l.
Proof. rewrite forallb_forall. intros H. apply Forall_forall. intros n Hn%list_elem_of_In. by apply tree_test_ok, H. Qed.

Lemma config_roundtrip_witness :
  Forall tree_wf sample ∧ NoDup (name <$> children (config_node None None) ++ sample) ∧
  config_load_file (config_node None None) (Some (write_nodes 0 sample)) = Returned (CNode [] [] sample).
Proof.
  assert (Forall tree_wf sample) as Hwf by (apply trees_test_ok; by vm_compute).
  assert (NoDup (name <$> children (config_node None None) ++ sample)) as Hnd by (by apply (bool_decide_unpack _); vm_compute).
  split; [exact Hwf|]. split; [exact Hnd|]. exact (config_roundtrip _ _ Hwf Hnd).
Defined.

Lemma lex_stable_witness : let cs := mkState (bytes "a.b c" ++ [0]) 0 0 0 in ∃ cs1 cs2,
  state_ok cs ∧ lex cs false = Returned (T_TEXT, cs1) ∧ lexes cs1 cs2 ∧ string_at (mem cs2) (text cs1) = cs_text cs1.
Proof.
  intros cs. set (cs1 := mkState (97 :: 0 :: bytes "b c" ++ [0]) 2 0 (chr ".")). set (cs2 := mkState (97 :: 0 :: bytes "b c" ++ [0]) 2 0 0).
  assert (state_ok cs) as Hok by (split; [exists 5%nat; split; [cbn; lia|by vm_compute]|by left]).
  assert (lex cs false = Returned (T_TEXT, cs1)) as Hl by by vm_compute.
  assert (lexes cs1 cs2) as Hls by (apply (lexes_cons _ cs2 _ true T_DOT); [by vm_compute|constructor]).
  exists cs1, cs2. split; [exact Hok|]. split; [exact Hl|]. split; [exact Hls|]. exact (lex_stable cs false cs1 cs2 Hok Hl Hls).
Defined.

(** ** Dotted names *)

(** [n] with a chain of new nodes that ends in the value. *)
Fixpoint extend (n : cnode) (path : list cstring) (v : cstring) : cnode :=
  match path with [] => set_value n v | y :: path => add n (extend (CNode y [] []) path v) end.

(** What a line of a dotted name and a value does: the newest node of the first
    name is taken if it has no value, all others are new. *)
Definition put_line (root : cnode) (x : cstring) (path : list cstring) (v : cstring) : cnode :=
  match config_find root x with
  | Some i => if bool_decide (value (child root i) = []) then set_child root i (extend (child root i) path v)
              else add root (extend (CNode x [] []) path v)
  | None => add root (extend (CNode x [] []) path v)
  end.

Fixpoint dotted (x : cstring) (path : list cstring) : list Z :=
  match path with [] => x ++ [32] | y :: path => x ++ chr "." :: dotted y path end.

(** A dotted name up to its last space: the first name, and the loop on a node
    until it has the value. *)
Lemma dotted_loop path : ∀ x v cs k, is_name x → Forall (λ y, is_name y) path → value_ok v → at_text cs (dotted x path ++ v ++ 10 :: k) →
  ∃ cs1 cs2, lex cs false = Returned (T_TEXT, cs1) ∧ cs_text cs1 = x ∧ at_text cs2 k ∧
    ∀ n, expr_loop (S (length path)) cs1 n = Returned (true, cs2, extend n path v).
Proof.
  induction path as [|y path IH]; intros x v cs k Hx Hp Hv Hat; cbn [dotted] in Hat; rewrite <- app_assoc in Hat; cbn [app] in Hat.
  - destruct (lex_name cs x 32 _ Hat Hx eq_refl) as (cs1 & H1 & Hat1 & Ht1).
    destruct (lex_value cs1 v k Hat1 Hv) as (cs2 & H2 & Hat2 & Ht2). exists cs1, cs2. split; [done|]. split; [done|]. split; [done|].
    intros n. cbn [length expr_loop]. rewrite H2. cbn [obind]. by rewrite Ht2.
  - apply Forall_cons in Hp as [Hy Hp]. destruct (lex_name_dot cs x _ Hat Hx) as (cs1 & csd & H1 & Ht1 & Hd & Hatd).
    destruct (IH y v csd k Hy Hp Hv Hatd) as (cs2 & cs3 & H2 & Ht2 & Hat3 & Hloop). exists cs1, cs3. split; [done|]. split; [done|].
    split; [done|]. intros n. cbn [length]. clear IH. generalize dependent (S (length path)). intros f Hloop. cbn [expr_loop]. rewrite Hd. cbn [obind]. rewrite H2. cbn [obind]. rewrite Ht2.
    unfold child, config_create. cbn [children]. rewrite nth_middle.
    change (config_node (Some y) None) with (CNode y [] []). rewrite Hloop. cbn [obind extend].
    unfold set_child, add. cbn [children name value]. by rewrite insert_app_r_alt, Nat.sub_diag by lia.
Qed.

(** A line of a dotted name and a value: a node that is found again is
    extended, but below the first name every name makes a new node, so a
    second line with the same prefix hides the nodes of the first. *)
Theorem config_load_line root x path v : is_name x → Forall (λ y, is_name y) path → value_ok v →
  config_load_file root (Some (dotted x path ++ v ++ [10])) = Returned (put_line root x path v).
Proof.
  intros Hx Hp Hv. set (cs := mkState ((dotted x path ++ v ++ [10]) ++ [0]) 0 0 0).
  assert (at_text cs (dotted x path ++ v ++ 10 :: [0])) as Hat.
  { split; [done|]. exists [], []. split; [|done]. cbn. by rewrite <- !app_assoc. }
  destruct (dotted_loop path x v cs [0] Hx Hp Hv Hat) as (cs1 & cs2 & H1 & Ht1 & Hat2 & Hloop).
  assert (parse_expr (S (S (length path))) cs1 root = Returned (true, cs2, put_line root x path v)) as He.
  { unfold put_line. destruct (config_find root x) as [i|] eqn:Hf.
    - case_bool_decide as Hval.
      + cbn [parse_expr]. rewrite Ht1, Hf, Hval. by rewrite Hloop.
      + cbn [parse_expr]. rewrite Ht1, Hf. destruct (value (child root i)) eqn:Hval'; [done|].
        unfold child at 1, config_create. cbn [children]. rewrite nth_middle, Hloop. cbn [obind].
        unfold set_child, add. cbn [children name value]. by rewrite insert_app_r_alt, Nat.sub_diag by lia.
    - rewrite parse_expr_new by by rewrite Ht1. by rewrite Ht1, Hloop. }
  apply (exprs_load_file _ _ cs2); [|done]. by eapply exprs_cons; [..|constructor].
Qed.

Lemma config_load_line_witness : is_name (bytes "a") ∧ Forall (λ y, is_name y) [bytes "b"; bytes "c"] ∧ value_ok (bytes "1 x") ∧
  config_load_file (config_node None None) (Some (dotted (bytes "a") [bytes "b"; bytes "c"] ++ bytes "1 x" ++ [10])) =
  Returned (put_line (config_node None None) (bytes "a") [bytes "b"; bytes "c"] (bytes "1 x")).
Proof.
  assert (is_name (bytes "a")) as Hx by (by apply (bool_decide_unpack _); vm_compute).
  assert (Forall (λ y, is_name y) [bytes "b"; bytes "c"]) as Hp by (by apply (bool_decide_unpack _); vm_compute).
  assert (value_ok (bytes "1 x")) as Hv by (by apply value_test_ok; vm_compute).
  split; [exact Hx|]. split; [exact Hp|]. split; [exact Hv|]. exact (config_load_line _ _ _ _ Hx Hp Hv).
Defined.

(** Of two lines with a common prefix of two names, only the second can be
    found below the prefix. *)
Theorem second_line_hides :
  ∃ a b1 b2, config_load_file (config_node None None) (Some (bytes "a.b.c 1
a.b.d 2
")) = Returned (CNode [] [] [a]) ∧ children a = [b1; b2] ∧ config_find a (bytes "b") = Some 1%nat ∧
    config_str b1 (bytes "c") [] = bytes "1" ∧ config_str b2 (bytes "c") [] = [] ∧ config_str b2 (bytes "d") [] = bytes "2".
Proof. eexists _, _, _. split; [vm_compute; reflexivity|]. by vm_compute. Qed.

(** A value that ends with the file keeps the spaces behind it; one that
    ends with its line does not. *)
Theorem last_line_keeps_spaces :
  config_load_file (config_node None None) (Some (bytes "a 1  ")) = Returned (CNode [] [] [CNode (bytes "a") (bytes "1  ") []]) ∧
  config_load_file (config_node None None) (Some (bytes "a 1  
")) = Returned (CNode [] [] [CNode (bytes "a") (bytes "1") []]).
Proof. by vm_compute. Qed.

End CF.
