(* ===== verification/ModTab.v ===== *)
(** The table of module names of [hi_ref_mod.c]. *)

From S2P Require Import Prelude.

Module MD.

(** The first identifier when the version of the vendor's headers is not
    given. *)
Definition HI_MOD_ID_NULL : Z := 176.
Definition HI_MOD_MAX_NUM : Z := HI_MOD_ID_NULL + 100.
(** [-1] in the unsigned member [u32ModId]. *)
Definition HI_MOD_INVALID_ID : Z := u32 (-1).
Definition HI_MOD_NAME_LEN : nat := 32.
Definition HI_EINVAL : Z := 6.

(** [aszModName] is the array, with everything behind the end of the name. *)
Record MOD_INFO_S := mkMod { u32ModId : Z; aszModName : list Z }.

Record STATE := mkState { s_bMode_init : bool; s_astModInfo : list MOD_INFO_S }.

Definition zeros : list Z := replicate HI_MOD_NAME_LEN 0.

(** Writing characters at the start of an array that has room for them. *)
Definition write_at (arr s : list Z) : list Z := s ++ drop (length s) arr.

(** [memset] of the table, the loop from [HI_MOD_ID_NULL] on, and the entry of
    [HI_MOD_ID_NULL]. *)
Definition cleared : list MOD_INFO_S := replicate (Z.to_nat HI_MOD_MAX_NUM) (mkMod 0 zeros).
Fixpoint init_from (n i : nat) (t : list MOD_INFO_S) : list MOD_INFO_S :=
  match n with
  | O => t
  | S n => init_from n (S i) (<[i := mkMod HI_MOD_INVALID_ID zeros]> t)
  end.
Definition initial : list MOD_INFO_S :=
  let i := Z.to_nat HI_MOD_ID_NULL in
  <[i := mkMod HI_MOD_ID_NULL (write_at zeros (bytes "MOD_NULL" ++ [0]))]>
    (init_from (Z.to_nat (HI_MOD_MAX_NUM - HI_MOD_ID_NULL)) i cleared).

Definition MOD_Init (st : STATE) : STATE := if s_bMode_init st then st else mkState true initial.

Definition empty_entry : MOD_INFO_S := mkMod 0 zeros.
Definition entry (st : STATE) (id : Z) : MOD_INFO_S := nth (Z.to_nat id) (s_astModInfo st) empty_entry.

(** The characters at the address returned: those of the array, or an empty
    string. *)
Definition HI_MOD_GetNameById (st : STATE) (u32ModID : Z) : list Z * STATE :=
  let st1 := MOD_Init st in
  if HI_MOD_MAX_NUM <=? u32ModID then ([0], st1) else (aszModName (entry st1 u32ModID), st1).

(** [strncmp] of an array and a string, for equality. *)
Definition strncmp_eq (n : nat) (arr s : list Z) : bool :=
  bool_decide (until_nul (take n arr) = until_nul (take n (s ++ [0]))).

Fixpoint search (t : list MOD_INFO_S) (s : cstring) (i : Z) : option Z :=
  match t with
  | [] => None
  | e :: t' =>
    if u32ModId e =? HI_MOD_INVALID_ID then search t' s (i + 1)
    else if strncmp_eq HI_MOD_NAME_LEN (aszModName e) s then Some i
    else search t' s (i + 1)
  end.

(** The result and what is written to [pu32ModId], if something is. *)
Definition HI_MOD_GetIdByName (st : STATE) (pszModName : option cstring) (has_id : bool) : Z * option Z * STATE :=
  match pszModName with
  | None => (HI_FAILURE, None, st)
  | Some s =>
    if negb has_id then (HI_FAILURE, None, st)
    else
      let st1 := MOD_Init st in
      match search (s_astModInfo st1) s 0 with
      | Some i => (HI_SUCCESS, Some i, st1)
      | None => (HI_FAILURE, Some HI_MOD_ID_NULL, st1)
      end
  end.

Definition HI_MOD_Register (st : STATE) (u32ModId0 : Z) (pszModName : option cstring) : Z * STATE :=
  if HI_MOD_MAX_NUM <=? u32ModId0 then (HI_EINVAL, st)
  else
    match pszModName with
    | None => (HI_FAILURE, st)
    | Some s =>
      if strncmp_eq HI_MOD_NAME_LEN [0] s then (HI_FAILURE, st)
      else if (HI_MOD_NAME_LEN <? length s)%nat then (HI_FAILURE, st)
      else
        let st1 := MOD_Init st in
        let e := entry st1 u32ModId0 in
        if negb (u32ModId e =? HI_MOD_INVALID_ID) then (HI_SUCCESS, st1)
        else (HI_SUCCESS, mkState true (<[Z.to_nat u32ModId0 := mkMod u32ModId0 (write_at (aszModName e) s)]> (s_astModInfo st1)))
    end.

(** ** The table as a map *)

Definition low (id : Z) : bool := id <? HI_MOD_ID_NULL.

Definition padded (s : cstring) : list Z := s ++ replicate (HI_MOD_NAME_LEN - length s) 0.

Definition name_ok (s : cstring) : Prop := s ≠ [] ∧ no_nul s ∧ (length s ≤ HI_MOD_NAME_LEN)%nat.

(** An entry and what the map says of its identifier. *)
Definition entry_is (id : Z) (o : option cstring) (e : MOD_INFO_S) : Prop :=
  match o with
  | None => e = mkMod (if low id then 0 else HI_MOD_INVALID_ID) zeros
  | Some s => e = mkMod id (padded s) ∧ low id = false ∧ name_ok s
  end.

Definition valid (id : Z) : Prop := 0 ≤ id < HI_MOD_MAX_NUM.

(** The table holds the names [A]; an untouched one holds one name. *)
Record holds (st : STATE) (A : gmap Z cstring) : Prop := {
  ho_len : length (s_astModInfo (MOD_Init st)) = Z.to_nat HI_MOD_MAX_NUM;
  ho_entry : ∀ id, valid id → entry_is id (A !! id) (entry (MOD_Init st) id);
  ho_dom : ∀ id s, A !! id = Some s → valid id
}.

Definition no_names : gmap Z cstring := {[HI_MOD_ID_NULL := bytes "MOD_NULL"]}.

Lemma MOD_Init_idem st : MOD_Init (MOD_Init st) = MOD_Init st.
Proof. unfold MOD_Init. destruct (s_bMode_init st) eqn:H; [by rewrite H|done]. Qed.

Lemma MOD_Init_true t : MOD_Init (mkState true t) = mkState true t.
Proof. done. Qed.

Lemma holds_init st A : holds st A → holds (MOD_Init st) A.
Proof. intros [H1 H2 H3]. by constructor; rewrite ?MOD_Init_idem. Qed.

Lemma init_from_lookup n : ∀ i t j, (i + n ≤ length t)%nat →
  init_from n i t !! j = if decide (i ≤ j < i + n)%nat then Some (mkMod HI_MOD_INVALID_ID zeros) else t !! j.
Proof.
  induction n as [|n IH]; intros i t j Hn; cbn [init_from]; [by rewrite decide_False by lia|].
  rewrite IH by (rewrite length_insert; lia). destruct (decide (j = i)) as [->|Hne].
  - rewrite decide_False, decide_True by lia. apply list_lookup_insert_eq. lia.
  - rewrite list_lookup_insert_ne by done. destruct (decide (S i ≤ j < S i + n)%nat); [by rewrite decide_True by lia|by rewrite decide_False by lia].
Qed.

Lemma init_from_length n : ∀ i t, length (init_from n i t) = length t.
Proof. induction n as [|n IH]; intros i t; cbn [init_from]; [done|]. by rewrite IH, length_insert. Qed.

Lemma holds_start st : s_bMode_init st = false → holds st no_names.
Proof.
  intros Hst. assert (MOD_Init st = mkState true initial) as Hi by (unfold MOD_Init; by rewrite Hst).
  assert (length cleared = 276%nat) as Hlen by apply length_replicate.
  constructor; rewrite ?Hi.
  - cbn [s_astModInfo]. unfold initial. by rewrite length_insert, init_from_length.
  - intros id Hid. unfold valid, HI_MOD_MAX_NUM, HI_MOD_ID_NULL in Hid. unfold entry. cbn [s_astModInfo]. rewrite nth_lookup. unfold initial.
    destruct (decide (id = HI_MOD_ID_NULL)) as [->|Hne].
    + rewrite list_lookup_insert_eq by (rewrite init_from_length, Hlen; cbn; lia). unfold no_names. rewrite lookup_singleton_eq.
      split; [by vm_compute|]. split; [done|]. split; [done|]. split; [by repeat constructor|by vm_compute; lia].
    + unfold no_names. rewrite lookup_singleton_ne by done. rewrite list_lookup_insert_ne by (unfold HI_MOD_ID_NULL in *; lia).
      rewrite init_from_lookup by (rewrite Hlen; apply Nat.leb_le; by vm_compute).
      change (Z.to_nat (HI_MOD_MAX_NUM - HI_MOD_ID_NULL)) with 100%nat. change (Z.to_nat HI_MOD_ID_NULL) with 176%nat.
      unfold entry_is, low, HI_MOD_ID_NULL.
      destruct (Z.ltb_spec id 176); [rewrite decide_False by lia|by rewrite decide_True by lia].
      unfold cleared. by rewrite lookup_replicate_2 by (change (Z.to_nat HI_MOD_MAX_NUM) with 276%nat; lia).
  - intros id s. unfold no_names. rewrite lookup_singleton_Some. intros [<- _]. by vm_compute.
Qed.

(** ** Registering *)

Definition spec_register (A : gmap Z cstring) (id : Z) (s : cstring) : Z * gmap Z cstring :=
  if HI_MOD_MAX_NUM <=? id then (HI_EINVAL, A)
  else if bool_decide (s = []) || (HI_MOD_NAME_LEN <? length s)%nat then (HI_FAILURE, A)
  else if low id then (HI_SUCCESS, A)
  else match A !! id with Some _ => (HI_SUCCESS, A) | None => (HI_SUCCESS, <[id := s]> A) end.

Lemma strncmp_empty s : no_nul s → strncmp_eq HI_MOD_NAME_LEN [0] s = bool_decide (s = []).
Proof.
  intros Hs. unfold strncmp_eq. change (until_nul (take HI_MOD_NAME_LEN [0])) with (@nil Z). destruct s as [|c s]; [done|].
  apply Forall_cons in Hs as [Hc _]. cbn [app HI_MOD_NAME_LEN take until_nul]. by rewrite (proj2 (Z.eqb_neq c 0)) by done.
Qed.

Lemma write_zeros s : (length s ≤ HI_MOD_NAME_LEN)%nat → write_at zeros s = padded s.
Proof. intros H. unfold write_at, zeros, padded. by rewrite drop_replicate. Qed.

Lemma register_holds st A id s : holds st A → 0 ≤ id → no_nul s →
  ∃ st', HI_MOD_Register st id (Some s) = ((spec_register A id s).1, st') ∧ holds st' (spec_register A id s).2.
Proof.
  intros HA Hid Hs. unfold HI_MOD_Register, spec_register. destruct (Z.leb_spec HI_MOD_MAX_NUM id); [by exists st|].
  rewrite strncmp_empty by done. case_bool_decide as Hs0; cbn [orb]; [by exists st|].
  destruct (Nat.ltb_spec HI_MOD_NAME_LEN (length s)); [by exists st|].
  pose proof (ho_entry _ _ HA id ltac:(done)) as He. destruct (A !! id) as [s'|] eqn:Hl; cbn [entry_is] in He.
  - destruct He as (-> & -> & _). cbn [u32ModId]. rewrite (proj2 (Z.eqb_neq _ _)); [by exists (MOD_Init st); split; [|apply holds_init]|].
    intros ->. by vm_compute in H.
  - rewrite He. cbn [u32ModId aszModName]. destruct (low id) eqn:Hlow; [by exists (MOD_Init st); split; [|apply holds_init]|].
    cbn [negb Z.eqb]. rewrite Z.eqb_refl. cbn [negb]. eexists. split; [done|]. cbn [snd].
    pose proof (ho_len _ _ HA) as Hlen. rewrite write_zeros by done.
    constructor; rewrite ?MOD_Init_true; cbn [s_astModInfo].
    + by rewrite length_insert.
    + intros id' Hv. unfold entry. cbn [s_astModInfo]. rewrite nth_lookup. unfold valid in Hv. destruct (decide (id' = id)) as [->|Hne].
      * rewrite lookup_insert_eq, list_lookup_insert_eq by lia. cbn. done.
      * rewrite lookup_insert_ne, list_lookup_insert_ne by lia. rewrite <- nth_lookup. by apply (ho_entry _ _ HA).
    + intros id' s'. rewrite lookup_insert_Some. intros [[<- _]|[_ H']]; [done|by apply (ho_dom _ _ HA _ _ H')].
Qed.

(** ** Asking *)

Lemma get_name st A id : holds st A → 0 ≤ id → HI_MOD_GetNameById st id =
  (match A !! id with Some s => padded s | None => if HI_MOD_MAX_NUM <=? id then [0] else zeros end, MOD_Init st).
Proof.
  intros HA Hid. unfold HI_MOD_GetNameById. destruct (Z.leb_spec HI_MOD_MAX_NUM id).
  - destruct (A !! id) eqn:Hl; [|done]. apply (ho_dom _ _ HA) in Hl. unfold valid in Hl. lia.
  - pose proof (ho_entry _ _ HA id ltac:(done)) as He. destruct (A !! id); cbn [entry_is] in He.
    + by destruct He as [-> _].
    + by rewrite He.
Qed.

Lemma strncmp_padded s s' : name_ok s → no_nul s' → strncmp_eq HI_MOD_NAME_LEN (padded s) s' = bool_decide (s = take HI_MOD_NAME_LEN s').
Proof.
  intros (_ & Hs & Hlen) Hs'. unfold strncmp_eq. f_equal.
  assert (until_nul (take HI_MOD_NAME_LEN (padded s)) = s) as ->.
  { unfold padded. rewrite take_ge by (rewrite length_app, length_replicate; lia).
    destruct (HI_MOD_NAME_LEN - length s)%nat; [rewrite app_nil_r; by apply until_nul_no|by apply until_nul_app]. }
  assert (until_nul (take HI_MOD_NAME_LEN (s' ++ [0])) = take HI_MOD_NAME_LEN s') as ->; [|done].
  destruct (decide (HI_MOD_NAME_LEN ≤ length s')%nat).
  - rewrite take_app_le by done. by apply until_nul_no, Forall_take.
  - rewrite !take_ge; [by apply until_nul_app|lia|rewrite length_app; cbn [length]; lia].
Qed.

Lemma strncmp_zeros s : no_nul s → s ≠ [] → strncmp_eq HI_MOD_NAME_LEN zeros s = false.
Proof.
  intros Hs Hne. unfold strncmp_eq. destruct s as [|c s]; [done|]. apply Forall_cons in Hs as [Hc _].
  apply bool_decide_eq_false. cbn [app HI_MOD_NAME_LEN take until_nul]. by rewrite (proj2 (Z.eqb_neq c 0)) by done.
Qed.

Definition matching (e : MOD_INFO_S) (s : cstring) : bool :=
  negb (u32ModId e =? HI_MOD_INVALID_ID) && strncmp_eq HI_MOD_NAME_LEN (aszModName e) s.

Lemma search_spec t s : ∀ i, match search t s i with
  | Some k => ∃ j e, k = i + Z.of_nat j ∧ t !! j = Some e ∧ matching e s = true ∧ ∀ j' e', (j' < j)%nat → t !! j' = Some e' → matching e' s = false
  | None => ∀ j e, t !! j = Some e → matching e s = false
  end.
Proof.
  induction t as [|e t IH]; intros i; cbn [search]; [by intros j e H|].
  assert (matching e s = false → match search t s (i + 1) with
    | Some k => ∃ j e', k = i + Z.of_nat j ∧ (e :: t) !! j = Some e' ∧ matching e' s = true ∧ ∀ j' e', (j' < j)%nat → (e :: t) !! j' = Some e' → matching e' s = false
    | None => ∀ j e', (e :: t) !! j = Some e' → matching e' s = false end) as Hnext.
  { intros Hm. specialize (IH (i + 1)). destruct (search t s (i + 1)) as [k|].
    - destruct IH as (j & e' & -> & Hj & He & Hless). exists (S j), e'. split; [lia|]. split; [done|]. split; [done|].
      intros [|j'] e2 Hlt; cbn; [by intros [= <-]|]. apply Hless. lia.
    - intros [|j] e' Hj; cbn in Hj; [congruence|by eapply IH]. }
  unfold matching in Hnext at 1. destruct (u32ModId e =? HI_MOD_INVALID_ID) eqn:E1; [by apply Hnext|].
  destruct (strncmp_eq HI_MOD_NAME_LEN (aszModName e) s) eqn:E2; [|by apply Hnext].
  exists 0%nat, e. split; [lia|]. split; [done|]. split; [unfold matching; by rewrite E1, E2|]. intros; lia.
Qed.

(** Whether an entry matches is whether the map has the name there. *)
Lemma matching_is id o e s : valid id → entry_is id o e → no_nul s → s ≠ [] →
  matching e s = bool_decide (o = Some (take HI_MOD_NAME_LEN s)).
Proof.
  intros Hv He Hs Hne. unfold matching. destruct o as [s'|]; cbn [entry_is] in He.
  - destruct He as (-> & _ & Hok). cbn [u32ModId aszModName]. rewrite (proj2 (Z.eqb_neq _ _)).
    + rewrite strncmp_padded by done. cbn [negb andb]. apply bool_decide_ext. naive_solver.
    + intros ->. destruct Hv as [_ Hv]. by vm_compute in Hv.
  - subst e. cbn [u32ModId aszModName]. rewrite strncmp_zeros by done. by rewrite andb_false_r.
Qed.

Lemma get_id st A s : holds st A → no_nul s → s ≠ [] →
  ∃ r i, HI_MOD_GetIdByName st (Some s) true = (r, Some i, MOD_Init st) ∧
    (r = HI_SUCCESS ∧ A !! i = Some (take HI_MOD_NAME_LEN s) ∧ (∀ j, j < i → A !! j ≠ Some (take HI_MOD_NAME_LEN s)) ∨
     r = HI_FAILURE ∧ i = HI_MOD_ID_NULL ∧ ∀ j, A !! j ≠ Some (take HI_MOD_NAME_LEN s)).
Proof.
  intros HA Hs Hne. unfold HI_MOD_GetIdByName. cbn [negb]. pose proof (search_spec (s_astModInfo (MOD_Init st)) s 0) as Hsearch.
  pose proof (ho_len _ _ HA) as Hlen. change (Z.to_nat HI_MOD_MAX_NUM) with 276%nat in Hlen.
  assert (∀ j e, s_astModInfo (MOD_Init st) !! j = Some e → matching e s = bool_decide (A !! Z.of_nat j = Some (take HI_MOD_NAME_LEN s))) as Hm.
  { intros j e Hj. apply lookup_lt_Some in Hj as Hlt. assert (valid (Z.of_nat j)) as Hv by (unfold valid; change HI_MOD_MAX_NUM with 276; lia).
    apply (matching_is (Z.of_nat j)); try done. pose proof (ho_entry _ _ HA _ Hv) as He. unfold entry in He.
    by rewrite nth_lookup, Nat2Z.id, Hj in He. }
  assert (∀ j, A !! j = Some (take HI_MOD_NAME_LEN s) → ∃ e, s_astModInfo (MOD_Init st) !! Z.to_nat j = Some e ∧ matching e s = true ∧ 0 ≤ j) as Hhas.
  { intros j Hj. pose proof (ho_dom _ _ HA _ _ Hj) as Hv. unfold valid in Hv. change HI_MOD_MAX_NUM with 276 in Hv.
    destruct (lookup_lt_is_Some_2 (s_astModInfo (MOD_Init st)) (Z.to_nat j)) as [e He]; [lia|].
    exists e. split; [done|]. split; [|lia]. rewrite (Hm _ _ He), Z2Nat.id by lia. by rewrite bool_decide_eq_true. }
  destruct (search (s_astModInfo (MOD_Init st)) s 0) as [k|].
  - destruct Hsearch as (j & e & -> & Hj & He & Hless). eexists _, _. split; [done|]. left. split; [done|]. rewrite Z.add_0_l. split.
    + rewrite (Hm _ _ Hj), bool_decide_eq_true in He. done.
    + intros j' Hlt Hj'. destruct (Hhas _ Hj') as (e' & He' & Hmt & H0). rewrite (Hless (Z.to_nat j') e' ltac:(lia) He') in Hmt. done.
  - eexists _, _. split; [done|]. right. split; [done|]. split; [done|]. intros j Hj. destruct (Hhas _ Hj) as (e & He & Hmt & _).
    by rewrite (Hsearch _ _ He) in Hmt.
Qed.

(** ** Sequences of registrations *)

Fixpoint registers (st : STATE) (calls : list (Z * cstring)) : list Z * STATE :=
  match calls with
  | [] => ([], st)
  | (id, s) :: calls' =>
      let '(r, st1) := HI_MOD_Register st id (Some s) in
      let '(rs, st2) := registers st1 calls' in (r :: rs, st2)
  end.

Fixpoint spec_registers (A : gmap Z cstring) (calls : list (Z * cstring)) : list Z * gmap Z cstring :=
  match calls with
  | [] => ([], A)
  | (id, s) :: calls' =>
      let '(r, A1) := spec_register A id s in
      let '(rs, A2) := spec_registers A1 calls' in (r :: rs, A2)
  end.

Definition call_ok (c : Z * cstring) : Prop := 0 ≤ c.1 ∧ no_nul c.2.

Lemma registers_hold calls : ∀ st A, holds st A → Forall call_ok calls →
  ∃ st', registers st calls = ((spec_registers A calls).1, st') ∧ holds st' (spec_registers A calls).2.
Proof.
  induction calls as [|[id s] calls IH]; intros st A HA Hok; cbn [registers spec_registers]; [by exists st|].
  apply Forall_cons in Hok as [[Hid Hs] Hok]. destruct (register_holds st A id s HA Hid Hs) as (st1 & -> & H1).
  destruct (spec_register A id s) as [r A1]. cbn [fst snd] in H1. destruct (IH st1 A1 H1 Hok) as (st2 & H2 & H3).
  cbn [fst]. rewrite H2. destruct (spec_registers A1 calls) as [rs A2]. by exists st2.
Qed.

Lemma until_nul_padded s : name_ok s → until_nul (padded s) = s.
Proof.
  intros (_ & Hs & _). unfold padded. destruct (HI_MOD_NAME_LEN - length s)%nat; [rewrite app_nil_r; by apply until_nul_no|by apply until_nul_app].
Qed.

(** After any sequence of registrations the table answers like a map from
    identifiers to names in which the first name of an identifier stays:
    the results, the name of an identifier, and the least identifier of a
    name, of which 32 characters count. *)
Theorem mod_table_refines st calls : s_bMode_init st = false → Forall call_ok calls →
  let '(rs, A) := spec_registers no_names calls in ∃ st', registers st calls = (rs, st') ∧
    (∀ id, 0 ≤ id → until_nul (HI_MOD_GetNameById st' id).1 = default [] (A !! id)) ∧
    (∀ s, no_nul s → s ≠ [] → ∃ r i, HI_MOD_GetIdByName st' (Some s) true = (r, Some i, MOD_Init st') ∧
      (r = HI_SUCCESS ∧ A !! i = Some (take HI_MOD_NAME_LEN s) ∧ (∀ j, j < i → A !! j ≠ Some (take HI_MOD_NAME_LEN s)) ∨
       r = HI_FAILURE ∧ i = HI_MOD_ID_NULL ∧ ∀ j, A !! j ≠ Some (take HI_MOD_NAME_LEN s))).
Proof.
  intros Hst Hok. destruct (registers_hold calls st no_names (holds_start st Hst) Hok) as (st' & Hr & HA).
  destruct (spec_registers no_names calls) as [rs A]. cbn [fst snd] in *. exists st'. split; [done|]. split.
  - intros id Hid. rewrite (get_name st' A id HA Hid). cbn [fst]. destruct (A !! id) as [s|] eqn:Hl.
    + pose proof (ho_entry _ _ HA id (ho_dom _ _ HA _ _ Hl)) as He. rewrite Hl in He. destruct He as (_ & _ & He). by apply until_nul_padded.
    + by destruct (HI_MOD_MAX_NUM <=? id).
  - intros s Hs Hne. by apply get_id.
Qed.

Lemma mod_table_refines_witness :
  let st := mkState false [] in
  let calls := [(180, bytes "player"); (180, bytes "other"); (181, bytes "player"); (3, bytes "low"); (400, bytes "high")] in
  s_bMode_init st = false ∧ Forall call_ok calls ∧
  (spec_registers no_names calls).1 = [HI_SUCCESS; HI_SUCCESS; HI_SUCCESS; HI_SUCCESS; HI_EINVAL] ∧
  let '(rs, A) := spec_registers no_names calls in ∃ st', registers st calls = (rs, st') ∧
    (∀ id, 0 ≤ id → until_nul (HI_MOD_GetNameById st' id).1 = default [] (A !! id)) ∧
    (∀ s, no_nul s → s ≠ [] → ∃ r i, HI_MOD_GetIdByName st' (Some s) true = (r, Some i, MOD_Init st') ∧
      (r = HI_SUCCESS ∧ A !! i = Some (take HI_MOD_NAME_LEN s) ∧ (∀ j, j < i → A !! j ≠ Some (take HI_MOD_NAME_LEN s)) ∨
       r = HI_FAILURE ∧ i = HI_MOD_ID_NULL ∧ ∀ j, A !! j ≠ Some (take HI_MOD_NAME_LEN s))).
Proof.
  intros st calls. assert (Forall call_ok calls) as Hok by (repeat (apply Forall_cons; split); try (by split; [vm_compute|repeat constructor]); constructor).
  split; [reflexivity|]. split; [exact Hok|]. split; [vm_compute; reflexivity|].
  exact (mod_table_refines st calls eq_refl Hok).
Defined.

(** An identifier below [HI_MOD_ID_NULL] cannot be registered, and the
    caller is told it was. *)
Theorem low_ids_not_registered st A id s : holds st A → 0 ≤ id < HI_MOD_ID_NULL → name_ok s →
  HI_MOD_Register st id (Some s) = (HI_SUCCESS, MOD_Init st) ∧ (HI_MOD_GetNameById (MOD_Init st) id).1 = zeros.
Proof.
  intros HA Hid (Hne & Hs & Hlen). assert (valid id) as Hv by (unfold valid; change HI_MOD_MAX_NUM with 276; change HI_MOD_ID_NULL with 176 in Hid; lia).
  assert (low id = true) as Hlow by (apply Z.ltb_lt; lia). pose proof (ho_entry _ _ HA id Hv) as He.
  assert (A !! id = None) as Hl.
  { destruct (A !! id); [|done]. destruct He as (_ & He & _). congruence. }
  rewrite Hl in He. cbn [entry_is] in He. rewrite Hlow in He. split.
  - unfold HI_MOD_Register. rewrite (proj2 (Z.leb_gt _ _)) by apply Hv. rewrite strncmp_empty, bool_decide_eq_false_2 by done.
    rewrite (proj2 (Nat.ltb_ge _ _)) by done. by rewrite He.
  - rewrite (get_name _ A id (holds_init _ _ HA)) by lia. rewrite Hl. cbn [fst]. by rewrite (proj2 (Z.leb_gt _ _)) by apply Hv.
Qed.

Lemma low_ids_not_registered_witness : holds (mkState false []) no_names ∧ 0 ≤ 3 < HI_MOD_ID_NULL ∧ name_ok (bytes "abc") ∧
  HI_MOD_Register (mkState false []) 3 (Some (bytes "abc")) = (HI_SUCCESS, MOD_Init (mkState false [])) ∧
  (HI_MOD_GetNameById (MOD_Init (mkState false [])) 3).1 = zeros.
Proof.
  assert (holds (mkState false []) no_names) as H by (by apply holds_start). assert (0 ≤ 3 < HI_MOD_ID_NULL) as H3 by (by vm_compute).
  assert (name_ok (bytes "abc")) as Hn by (split; [done|]; split; [by repeat constructor|vm_compute; lia]).
  split; [exact H|]. split; [exact H3|]. split; [exact Hn|]. exact (low_ids_not_registered _ _ 3 _ H H3 Hn).
Defined.

(** A name of the full length is accepted, and the name given back has no
    end inside its array. *)
Theorem full_name_has_no_end st A id s : holds st A → HI_MOD_ID_NULL ≤ id < HI_MOD_MAX_NUM → A !! id = None →
  no_nul s → length s = HI_MOD_NAME_LEN →
  ∃ st', HI_MOD_Register st id (Some s) = (HI_SUCCESS, st') ∧ (HI_MOD_GetNameById st' id).1 = s ∧ 0 ∉ (HI_MOD_GetNameById st' id).1.
Proof.
  intros HA Hid Hl Hs Hlen. assert (0 ≤ id) as H0 by (change HI_MOD_ID_NULL with 176 in Hid; lia).
  destruct (register_holds st A id s HA H0 Hs) as (st' & Hr & HA'). exists st'. revert Hr HA'. unfold spec_register, low.
  rewrite (proj2 (Z.leb_gt _ _)) by apply Hid. rewrite bool_decide_eq_false_2 by by intros ->.
  rewrite (proj2 (Nat.ltb_ge _ _)) by lia. rewrite (proj2 (Z.ltb_ge _ _)) by apply Hid. rewrite Hl. cbn [orb fst snd]. intros Hr HA'.
  split; [done|]. rewrite (get_name _ _ _ HA' H0), lookup_insert_eq. cbn [fst]. unfold padded.
  rewrite Hlen, Nat.sub_diag, app_nil_r. split; [done|]. intros Hin. unfold no_nul in Hs. rewrite Forall_forall in Hs. by apply (Hs 0).
Qed.

Lemma full_name_has_no_end_witness : let s := replicate 32 65 in
  holds (mkState false []) no_names ∧ HI_MOD_ID_NULL ≤ 180 < HI_MOD_MAX_NUM ∧ no_names !! 180 = None ∧ no_nul s ∧ length s = HI_MOD_NAME_LEN ∧
  ∃ st', HI_MOD_Register (mkState false []) 180 (Some s) = (HI_SUCCESS, st') ∧ (HI_MOD_GetNameById st' 180).1 = s ∧
         0 ∉ (HI_MOD_GetNameById st' 180).1.
Proof.
  intros s. assert (holds (mkState false []) no_names) as H by (by apply holds_start).
  assert (HI_MOD_ID_NULL ≤ 180 < HI_MOD_MAX_NUM) as H3 by (by vm_compute). assert (no_nul s) as Hn by (by apply Forall_replicate).
  split; [exact H|]. split; [exact H3|]. split; [reflexivity|]. split; [exact Hn|]. split; [reflexivity|].
  exact (full_name_has_no_end _ _ 180 s H H3 eq_refl Hn eq_refl).
Defined.

End MD.
