(* ===== verification/MemMng.v ===== *)
(** The accounting of memory by modules of [hi_adp_memmng.c]: every allocation
    is noted in the list of its module, with totals.

    The answers of [malloc] and [realloc] are arguments, 0 is a null pointer.
    The state has the allocations of the C library that were made here, so that
    giving back anything else is undefined. *)

From S2P Require Import Prelude ModTab.

Module MM.

Abbreviation HI_MOD_ID_NULL := MD.HI_MOD_ID_NULL.
Abbreviation HI_MOD_MAX_NUM := MD.HI_MOD_MAX_NUM.
Definition HI_EPAERM : Z := 5.

Record MEMMNG_ALLOC_INFO := mkInfo { pvMemAddr : Z; info_size : Z; pszFileName : Z; u32Line : Z }.

(** A module, with [stList] for the list behind [stListHead]. *)
Record MEMMNG_QUEUE_S := mkQueue {
  u32ModId : Z; u32MemSize : Z; u32AllocNum : Z; u32AllocTimes : Z; stList : list MEMMNG_ALLOC_INFO }.

Record STATE := mkState {
  s_bMemMng_init : bool; s_astMEMMNG_MEMINFO : list MEMMNG_QUEUE_S; mods : MD.STATE; heap : gset Z }.

Definition set_mods (st : STATE) (m : MD.STATE) : STATE := mkState (s_bMemMng_init st) (s_astMEMMNG_MEMINFO st) m (heap st).
Definition set_heap (st : STATE) (h : gset Z) : STATE := mkState (s_bMemMng_init st) (s_astMEMMNG_MEMINFO st) (mods st) h.

Definition MEMMNG_InitStruct (st : STATE) : STATE :=
  if s_bMemMng_init st then st
  else mkState true (replicate (Z.to_nat HI_MOD_MAX_NUM) (mkQueue MD.HI_MOD_INVALID_ID 0 0 0 [])) (mods st) (heap st).

Definition MEMMNG_GetActualAllocSize (u32AllocSize : Z) : Z :=
  let u32AtActualAllocSize := u32 (u32AllocSize + 4) in
  if u32AtActualAllocSize <=? 16 then 16 else u32 (u32 (u32AtActualAllocSize + 8) - u32AtActualAllocSize mod 8).

Definition empty_queue : MEMMNG_QUEUE_S := mkQueue 0 0 0 0 [].
Definition queue (st : STATE) (id : Z) : MEMMNG_QUEUE_S := nth (Z.to_nat id) (s_astMEMMNG_MEMINFO st) empty_queue.
Definition set_queue (st : STATE) (id : Z) (q : MEMMNG_QUEUE_S) : STATE :=
  mkState (s_bMemMng_init st) (<[Z.to_nat id := q]> (s_astMEMMNG_MEMINFO st)) (mods st) (heap st).

(** The module that is charged: an identifier without a name is not. *)
Definition temp_mod_id (st : STATE) (id : Z) : Z * STATE :=
  let '(name, m) := MD.HI_MOD_GetNameById (mods st) id in
  (if MD.strncmp_eq 1 name [] then HI_MOD_ID_NULL else id, set_mods st m).

(** [info_ok]: whether the node is allocated; [mem]: the memory. *)
Definition HI_MemMng_MallocD (st : STATE) (id size file line : Z) (info_ok : bool) (mem : Z) : Z * STATE :=
  if (HI_MOD_MAX_NUM <=? id) || (size =? 0) then (0, st)
  else
    let '(tid, st1) := temp_mod_id st id in
    if negb info_ok then (0, st1)
    else if mem =? 0 then (0, st1)
    else
      let st2 := MEMMNG_InitStruct (set_heap st1 ({[mem]} ∪ heap st1)) in
      let sz := MEMMNG_GetActualAllocSize size in
      let q := queue st2 tid in
      (mem, set_queue st2 tid (mkQueue tid (u32 (u32MemSize q + sz)) (u32 (u32AllocNum q + 1)) (u32 (u32AllocTimes q + 1))
                                       (mkInfo mem sz file line :: stList q))).

(** The first node of an address, with its place. *)
Definition find_info (l : list MEMMNG_ALLOC_INFO) (a : Z) : option (nat * MEMMNG_ALLOC_INFO) :=
  list_find (λ i, pvMemAddr i = a) l.

Definition HI_MemMng_ReallocD (st : STATE) (id src size file line : Z) (info_ok : bool) (mem : Z) : outcome (Z * STATE) :=
  if (HI_MOD_MAX_NUM <=? id) || (size =? 0) then Returned (0, st)
  else
    let '(tid, st1) := temp_mod_id st id in
    if src =? 0 then Returned (HI_MemMng_MallocD st1 tid size file line info_ok mem)
    else
      let st2 := MEMMNG_InitStruct st1 in
      let q := queue st2 tid in
      match find_info (stList q) src with
      | None => Returned (0, st2)
      | Some (k, i) =>
          if bool_decide (src ∈ heap st2) then
            if mem =? 0 then Returned (0, st2)
            else
              let sz := MEMMNG_GetActualAllocSize size in
              let q' := mkQueue id (u32 (u32 (u32MemSize q - info_size i) + sz)) (u32AllocNum q) (u32AllocTimes q)
                                (<[k := mkInfo mem sz (pszFileName i) (u32Line i)]> (stList q)) in
              Returned (mem, set_heap (set_queue st2 tid q') ({[mem]} ∪ heap st2 ∖ {[src]}))
          else Undefined
      end.

Definition HI_MemMng_Free (st : STATE) (id a : Z) : outcome (Z * STATE) :=
  if negb (s_bMemMng_init st) then Returned (HI_FAILURE, st)
  else if HI_MOD_MAX_NUM <=? id then Returned (HI_EPAERM, st)
  else
    let '(tid, st1) := temp_mod_id st id in
    if a =? 0 then Returned (HI_SUCCESS, st1)
    else
      let q := queue st1 tid in
      match find_info (stList q) a with
      | None => Returned (HI_FAILURE, st1)
      | Some (k, i) =>
          if bool_decide (a ∈ heap st1) then
            let q' := mkQueue (u32ModId q) (u32 (u32MemSize q - info_size i)) (u32 (u32AllocNum q - 1)) (u32AllocTimes q)
                              (delete k (stList q)) in
            Returned (HI_SUCCESS, set_heap (set_queue st1 tid q') (heap st1 ∖ {[a]}))
          else Undefined
      end.

(** ** The size that is counted *)

(** The size counted for an allocation: a multiple of eight, from five to
    twelve bytes more than asked for and at least 16 bytes; within twelve bytes
    of 2^32 the sum wraps and 0 or 16 bytes are counted. *)
Theorem actual_size_bounds size : 0 < size < 2 ^ 32 →
  let n := MEMMNG_GetActualAllocSize size in
  n mod 8 = 0 ∧
  (size ≤ 12 → n = 16) ∧
  (12 < size < 2 ^ 32 - 12 → size + 5 ≤ n ≤ size + 12) ∧
  (2 ^ 32 - 12 ≤ size < 2 ^ 32 - 4 → n = 0) ∧
  (2 ^ 32 - 4 ≤ size → n = 16).
Proof.
  intros Hs. unfold MEMMNG_GetActualAllocSize, u32.
  destruct (Z.leb_spec ((size + 4) mod 2 ^ 32) 16) as [H|H]; (split; [try done|]); repeat split; intros; Z.div_mod_to_equations; lia.
Qed.

Lemma actual_size_bounds_witness : 0 < 12 < 2 ^ 32 ∧ MEMMNG_GetActualAllocSize 12 = 16 ∧ MEMMNG_GetActualAllocSize 20 = 32.
Proof.
  assert (0 < 12 < 2 ^ 32) as H by lia. split; [exact H|]. split; [|by vm_compute].
  destruct (actual_size_bounds 12 H) as (_ & H12 & _). apply H12. lia.
Defined.

(** ** The accounts as maps

    The names of modules, and for every address that is allocated the module
    charged and the size counted. *)
Record SPEC := mkSpec { started : bool; names : gmap Z cstring; allocs : gmap Z (Z * Z) }.

Definition charged (A : gmap Z (Z * Z)) (f : Z → Z) (q : Z) : Z :=
  map_fold (λ _ v acc, (if v.1 =? q then f v.2 else 0) + acc) 0 A.
(** What is outstanding of a module: bytes and number. *)
Definition bytes_of (A : gmap Z (Z * Z)) (q : Z) : Z := charged A (λ sz, sz) q.
Definition number_of (A : gmap Z (Z * Z)) (q : Z) : Z := charged A (λ _, 1) q.

Lemma charged_insert A f q a v : A !! a = None → charged (<[a := v]> A) f q = (if v.1 =? q then f v.2 else 0) + charged A f q.
Proof. intros Ha. unfold charged. rewrite map_fold_insert_L; [done| |done]. intros. lia. Qed.

Lemma charged_delete A f q a v : A !! a = Some v → charged (delete a A) f q = charged A f q - (if v.1 =? q then f v.2 else 0).
Proof.
  intros Ha. pose proof (charged_insert (delete a A) f q a v (lookup_delete_eq _ _)) as H. rewrite insert_delete_id in H by done. lia.
Qed.

Definition entry_of (l : list MEMMNG_ALLOC_INFO) (a sz : Z) : Prop := ∃ i, i ∈ l ∧ pvMemAddr i = a ∧ info_size i = sz.

Definition valid (q : Z) : Prop := 0 ≤ q < HI_MOD_MAX_NUM.

(** One module: its list has each of its allocations once, its totals are
    those of the map, in 32 bits. *)
Record queue_is (A : gmap Z (Z * Z)) (id : Z) (q : MEMMNG_QUEUE_S) : Prop := {
  qi_nodup : NoDup (pvMemAddr <$> stList q);
  qi_list : ∀ a sz, A !! a = Some (id, sz) ↔ entry_of (stList q) a sz;
  qi_size : u32MemSize q = u32 (bytes_of A id);
  qi_num : u32AllocNum q = u32 (number_of A id)
}.

Record tracks (st : STATE) (S : SPEC) : Prop := {
  tr_init : s_bMemMng_init st = started S;
  tr_names : MD.holds (mods st) (names S);
  tr_heap : heap st = dom (allocs S);
  tr_null : allocs S !! 0 = None;
  tr_mods : ∀ a v, allocs S !! a = Some v → valid v.1 ∧ started S = true;
  tr_len : started S = true → length (s_astMEMMNG_MEMINFO st) = Z.to_nat HI_MOD_MAX_NUM;
  tr_queue : started S = true → ∀ id, valid id → queue_is (allocs S) id (queue st id)
}.

Definition spec_queue (S : SPEC) (id : Z) : Z := match names S !! id with Some _ => id | None => HI_MOD_ID_NULL end.
Definition set_allocs (S : SPEC) (A : gmap Z (Z * Z)) : SPEC := mkSpec true (names S) A.

Definition spec_malloc (S : SPEC) (id size : Z) (info_ok : bool) (mem : Z) : Z * SPEC :=
  if (HI_MOD_MAX_NUM <=? id) || (size =? 0) || negb info_ok || (mem =? 0) then (0, S)
  else (mem, set_allocs S (<[mem := (spec_queue S id, MEMMNG_GetActualAllocSize size)]> (allocs S))).

(** Memory is found only under the module it is charged to. *)
Definition owned (S : SPEC) (id a : Z) : bool :=
  match allocs S !! a with Some (q, _) => q =? spec_queue S id | None => false end.

Definition spec_realloc (S : SPEC) (id src size : Z) (info_ok : bool) (mem : Z) : Z * SPEC :=
  if (HI_MOD_MAX_NUM <=? id) || (size =? 0) then (0, S)
  else if src =? 0 then spec_malloc S id size info_ok mem
  else if negb (owned S id src) || (mem =? 0) then (0, set_allocs S (allocs S))
  else (mem, set_allocs S (<[mem := (spec_queue S id, MEMMNG_GetActualAllocSize size)]> (delete src (allocs S)))).

Definition spec_free (S : SPEC) (id a : Z) : Z * SPEC :=
  if negb (started S) then (HI_FAILURE, S)
  else if HI_MOD_MAX_NUM <=? id then (HI_EPAERM, S)
  else if a =? 0 then (HI_SUCCESS, S)
  else if owned S id a then (HI_SUCCESS, set_allocs S (delete a (allocs S)))
  else (HI_FAILURE, S).

(** ** The pieces *)

Lemma spec_queue_valid st S id : tracks st S → valid id → valid (spec_queue S id).
Proof. intros _ Hv. unfold spec_queue. by destruct (names S !! id). Qed.

Lemma queue_set st id q id' : valid id → valid id' → length (s_astMEMMNG_MEMINFO st) = Z.to_nat HI_MOD_MAX_NUM →
  queue (set_queue st id q) id' = if decide (id' = id) then q else queue st id'.
Proof.
  intros Hv Hv' Hlen. unfold queue, set_queue, valid in *. cbn [s_astMEMMNG_MEMINFO]. rewrite !nth_lookup. case_decide as Hd.
  - subst. by rewrite list_lookup_insert_eq by lia.
  - by rewrite list_lookup_insert_ne by lia.
Qed.

Lemma temp_mod_tracks st S id : tracks st S → valid id →
  ∃ m, temp_mod_id st id = (spec_queue S id, set_mods st m) ∧ tracks (set_mods st m) S.
Proof.
  intros HT Hv. unfold temp_mod_id. rewrite (MD.get_name _ _ id (tr_names _ _ HT)) by apply Hv. exists (MD.MOD_Init (mods st)). split.
  - f_equal. unfold spec_queue. destruct (names S !! id) as [s|] eqn:Hl.
    + pose proof (MD.ho_entry _ _ (tr_names _ _ HT) id Hv) as He. rewrite Hl in He. destruct He as (_ & _ & Hne & Hs & _).
      destruct s as [|c s]; [done|]. apply Forall_cons in Hs as [Hc _]. unfold MD.strncmp_eq. cbn. by rewrite (proj2 (Z.eqb_neq c 0)).
    + rewrite (proj2 (Z.leb_gt _ _)) by apply Hv. done.
  - destruct HT. constructor; try done. cbn [set_mods mods]. by apply MD.holds_init.
Qed.

Lemma charged_empty f q : charged ∅ f q = 0.
Proof. done. Qed.

Lemma init_tracks st S : tracks st S → tracks (MEMMNG_InitStruct st) (set_allocs S (allocs S)).
Proof.
  intros HT. unfold MEMMNG_InitStruct. destruct (s_bMemMng_init st) eqn:Hi.
  - destruct HT as [H1 H2 H3 H4 H5 H6 H7]. rewrite Hi in H1. constructor; cbn; try done; [|intros _; by apply H6|intros _; by apply H7].
    intros a v Ha. split; [|done]. by apply (H5 a v).
  - destruct HT as [H1 H2 H3 H4 H5 H6 H7]. rewrite Hi in H1. assert (allocs S = ∅) as HA.
    { apply map_eq. intros a. rewrite lookup_empty. destruct (allocs S !! a) as [v|] eqn:Ha; [|done]. destruct (H5 a v Ha). congruence. }
    constructor; cbn [s_bMemMng_init s_astMEMMNG_MEMINFO mods heap set_allocs started names allocs]; try done.
    + intros a v Ha. by rewrite HA in Ha.
    + intros _ id Hv. unfold queue. cbn [s_astMEMMNG_MEMINFO]. rewrite nth_lookup, lookup_replicate_2 by (unfold valid in Hv; lia).
      cbn [default]. rewrite HA. constructor; cbn; try done; [constructor|]. intros a sz. rewrite lookup_empty. split; [done|].
      intros (i & Hi' & _). by apply elem_of_nil in Hi'.
Qed.

(** Looking an address up in the list of a module. *)
Lemma find_info_Some l a k i : find_info l a = Some (k, i) → l !! k = Some i ∧ pvMemAddr i = a.
Proof. unfold find_info. rewrite list_find_Some. naive_solver. Qed.

Lemma find_owned st S id a : tracks st S → started S = true → valid id →
  match find_info (stList (queue st (spec_queue S id))) a with
  | Some (k, i) => stList (queue st (spec_queue S id)) !! k = Some i ∧ pvMemAddr i = a ∧
                   allocs S !! a = Some (spec_queue S id, info_size i) ∧ a ∈ heap st
  | None => owned S id a = false
  end.
Proof.
  intros HT Hst Hv. pose proof (spec_queue_valid st S id HT Hv) as Hq. pose proof (tr_queue _ _ HT Hst _ Hq) as HQ.
  destruct (find_info _ a) as [[k i]|] eqn:Hf.
  - destruct (find_info_Some _ _ _ _ Hf) as [Hk Hi]. assert (allocs S !! a = Some (spec_queue S id, info_size i)) as HA.
    { apply (qi_list _ _ _ HQ). exists i. split; [by eapply list_elem_of_lookup_2|done]. }
    split; [done|]. split; [done|]. split; [done|]. rewrite (tr_heap _ _ HT). by apply elem_of_dom_2 in HA.
  - unfold owned. destruct (allocs S !! a) as [[q sz]|] eqn:HA; [|done]. apply Z.eqb_neq. intros ->.
    apply (qi_list _ _ _ HQ) in HA as (i & Hi & Ha & _). unfold find_info in Hf. apply list_find_None in Hf.
    rewrite Forall_forall in Hf. by apply (Hf i).
Qed.

(** ** One module changes *)

Lemma queue_is_insert A id q a sz m t f l : queue_is A id q → A !! a = None →
  queue_is (<[a := (id, sz)]> A) id (mkQueue m (u32 (u32MemSize q + sz)) (u32 (u32AllocNum q + 1)) t (mkInfo a sz f l :: stList q)).
Proof.
  intros [Hnd Hl Hs Hn] Ha. constructor; cbn [stList u32MemSize u32AllocNum].
  - cbn. apply NoDup_cons. split; [|done]. intros (i & Hi & Hin)%list_elem_of_fmap.
    assert (A !! a = Some (id, info_size i)) as H by (apply Hl; by exists i). congruence.
  - intros a' sz'. rewrite lookup_insert_Some, Hl. split.
    + intros [[<- [= <-]]|[_ (i & Hi & H1 & H2)]]; [exists (mkInfo a sz f l); split; [left|done]|exists i; split; [by right|done]].
    + intros (i & Hin & <- & <-). apply elem_of_cons in Hin as [->|Hin]; [by left|]. right. split; [|by exists i].
      intros ->. assert (A !! pvMemAddr i = Some (id, info_size i)) as H by (apply Hl; by exists i). congruence.
  - rewrite Hs, u32_add_l. unfold bytes_of. rewrite charged_insert by done. cbn [fst snd]. rewrite Z.eqb_refl. f_equal. lia.
  - rewrite Hn, u32_add_l. unfold number_of. rewrite charged_insert by done. cbn [fst snd]. rewrite Z.eqb_refl. f_equal. lia.
Qed.

Lemma queue_is_delete A id q k i m t : queue_is A id q → stList q !! k = Some i →
  queue_is (delete (pvMemAddr i) A) id (mkQueue m (u32 (u32MemSize q - info_size i)) (u32 (u32AllocNum q - 1)) t (delete k (stList q))).
Proof.
  intros [Hnd Hl Hs Hn] Hk. assert (A !! pvMemAddr i = Some (id, info_size i)) as HA.
  { apply Hl. exists i. split; [by eapply list_elem_of_lookup_2|done]. }
  pose proof (delete_Permutation _ _ _ Hk) as Hp. rewrite Hp in Hnd. cbn in Hnd. apply NoDup_cons in Hnd as [Hni Hnd].
  constructor; cbn [stList u32MemSize u32AllocNum]; [done|..].
  - intros a sz. rewrite lookup_delete_Some, Hl. split.
    + intros (Hne & j & Hj & <- & <-). rewrite Hp in Hj. apply elem_of_cons in Hj as [->|Hj]; [done|]. by exists j.
    + intros (j & Hj & <- & <-). split; [|exists j; split; [rewrite Hp; by right|done]]. intros Heq. apply Hni. rewrite Heq. by apply list_elem_of_fmap_2.
  - rewrite Hs, u32_sub_l. unfold bytes_of. rewrite (charged_delete _ _ _ _ _ HA). cbn [fst snd]. by rewrite Z.eqb_refl.
  - rewrite Hn, u32_sub_l. unfold number_of. rewrite (charged_delete _ _ _ _ _ HA). cbn [fst snd]. by rewrite Z.eqb_refl.
Qed.

Lemma queue_is_same A id q q' : queue_is A id q → stList q' ≡ₚ stList q → u32MemSize q' = u32MemSize q → u32AllocNum q' = u32AllocNum q →
  queue_is A id q'.
Proof.
  intros [Hnd Hl Hs Hn] Hp H1 H2. constructor; [by rewrite Hp| |congruence..]. intros a sz. rewrite Hl. unfold entry_of.
  split; intros (i & Hi & H); exists i; (split; [|done]); [by rewrite Hp|by rewrite <- Hp].
Qed.

(** Modules that are not charged for an address do not notice it. *)
Lemma queue_is_other_insert A id a v q : queue_is A id q → A !! a = None → v.1 ≠ id → queue_is (<[a := v]> A) id q.
Proof.
  intros [Hnd Hl Hs Hn] Ha Hv. constructor; [done|..].
  - intros a' sz. rewrite <- Hl, lookup_insert_Some. split; [intros [[_ ->]|[_ ?]]; done|]. intros H. right. split; [congruence|done].
  - unfold bytes_of. by rewrite charged_insert, (proj2 (Z.eqb_neq _ _) Hv) by done.
  - unfold number_of. by rewrite charged_insert, (proj2 (Z.eqb_neq _ _) Hv) by done.
Qed.

Lemma queue_is_other_delete A id a v q : queue_is A id q → A !! a = Some v → v.1 ≠ id → queue_is (delete a A) id q.
Proof.
  intros [Hnd Hl Hs Hn] Ha Hv. constructor; [done|..].
  - intros a' sz. rewrite <- Hl, lookup_delete_Some. split; [by intros [_ ?]|]. intros H. split; [|done]. intros ->.
    rewrite Ha in H. injection H as ->. done.
  - unfold bytes_of. rewrite (charged_delete _ _ _ _ _ Ha), (proj2 (Z.eqb_neq _ _) Hv). by rewrite Z.sub_0_r.
  - unfold number_of. rewrite (charged_delete _ _ _ _ _ Ha), (proj2 (Z.eqb_neq _ _) Hv). by rewrite Z.sub_0_r.
Qed.

Lemma tracks_update st S id q' A' h' : tracks st S → started S = true → valid id → queue_is A' id q' → h' = dom A' → A' !! 0 = None →
  (∀ a v, A' !! a = Some v → valid v.1) → (∀ id' q, id' ≠ id → queue_is (allocs S) id' q → queue_is A' id' q) →
  tracks (set_heap (set_queue st id q') h') (set_allocs S A').
Proof.
  intros HT Hst Hv Hq Hh H0 Hmods Hother. pose proof (tr_len _ _ HT Hst) as Hlen.
  constructor; cbn [set_heap set_queue set_allocs s_bMemMng_init s_astMEMMNG_MEMINFO mods heap started names allocs]; try done.
  - by rewrite (tr_init _ _ HT).
  - apply HT.
  - intros a v Ha. split; [by apply (Hmods a)|done].
  - intros _. by rewrite length_insert.
  - intros _ id' Hv'. change (queue (set_heap (set_queue st id q') h') id') with (queue (set_queue st id q') id').
    rewrite queue_set by done. case_decide as Hd; [by subst|]. apply Hother; [done|]. by apply (tr_queue _ _ HT).
Qed.

Lemma set_allocs_same S : started S = true → set_allocs S (allocs S) = S.
Proof. destruct S as [b n A]. by intros [= ->]. Qed.

(** ** The operations *)

Definition fresh_for (S : SPEC) (mem : Z) : Prop := mem = 0 ∨ allocs S !! mem = None.

Lemma malloc_tracks st S id size file line info_ok mem : tracks st S → 0 ≤ id → fresh_for S mem →
  ∃ st', HI_MemMng_MallocD st id size file line info_ok mem = ((spec_malloc S id size info_ok mem).1, st') ∧
         tracks st' (spec_malloc S id size info_ok mem).2.
Proof.
  intros HT Hid Hf. unfold HI_MemMng_MallocD, spec_malloc. destruct (Z.leb_spec HI_MOD_MAX_NUM id); [by exists st|].
  destruct (size =? 0); cbn [orb]; [by exists st|]. destruct (temp_mod_tracks st S id HT ltac:(done)) as (m & -> & HT1).
  destruct info_ok; cbn [negb]; [|by eexists]. destruct (Z.eqb_spec mem 0) as [->|Hne]; [by eexists|]. destruct Hf as [?|Hf]; [done|].
  eexists. split; [done|]. cbn [snd]. set (st1 := set_mods st m) in *.
  set (tid := spec_queue S id). pose proof (spec_queue_valid _ _ id HT ltac:(done)) as Hv. fold tid in Hv.
  pose proof (init_tracks _ _ HT1) as HT2. set (S2 := set_allocs S (allocs S)) in HT2.
  set (st2 := MEMMNG_InitStruct st1) in HT2. change (heap st1) with (heap st).
  assert (MEMMNG_InitStruct (set_heap st1 ({[mem]} ∪ heap st)) = set_heap st2 ({[mem]} ∪ heap st)) as ->.
  { unfold st2, MEMMNG_InitStruct. cbn [set_heap s_bMemMng_init]. by destruct (s_bMemMng_init st1). }
  set (sz := MEMMNG_GetActualAllocSize size). set (h := {[mem]} ∪ heap st). change (queue (set_heap st2 h) tid) with (queue st2 tid).
  change (set_queue (set_heap st2 h) tid ?q) with (set_heap (set_queue st2 tid q) h).
  apply (tracks_update st2 S2); try done.
  - apply queue_is_insert; [by apply (tr_queue _ _ HT2)|done].
  - unfold h. by rewrite dom_insert_L, <- (tr_heap _ _ HT).
  - rewrite lookup_insert_ne by done. apply (tr_null _ _ HT).
  - intros a v. rewrite lookup_insert_Some. intros [[_ <-]|[_ Ha]]; [done|by apply (tr_mods _ _ HT a)].
  - intros id' q Hne' Hq. apply queue_is_other_insert; [done|done|cbn; congruence].
Qed.

Lemma free_tracks st S id a : tracks st S → 0 ≤ id →
  ∃ st', HI_MemMng_Free st id a = Returned ((spec_free S id a).1, st') ∧ tracks st' (spec_free S id a).2.
Proof.
  intros HT Hid. unfold HI_MemMng_Free, spec_free. rewrite (tr_init _ _ HT). destruct (started S) eqn:Hst; cbn [negb]; [|by exists st].
  destruct (Z.leb_spec HI_MOD_MAX_NUM id); [by exists st|]. assert (valid id) as Hvid by done.
  destruct (temp_mod_tracks st S id HT Hvid) as (m & -> & HT1). set (st1 := set_mods st m) in *.
  destruct (Z.eqb_spec a 0) as [->|Ha]; [by eexists|]. pose proof (find_owned st1 S id a HT1 Hst Hvid) as Hfind.
  destruct (find_info _ a) as [[k i]|]; [|rewrite Hfind; by eexists].
  destruct Hfind as (Hk & <- & HA & Hheap). unfold owned. rewrite HA, Z.eqb_refl, bool_decide_eq_true_2 by done.
  eexists. split; [done|]. cbn [snd]. pose proof (spec_queue_valid _ _ id HT Hvid) as Hv. apply (tracks_update st1 S); try done.
  - apply queue_is_delete; [by apply (tr_queue _ _ HT1)|done].
  - by rewrite dom_delete_L, <- (tr_heap _ _ HT).
  - rewrite lookup_delete_None. right. apply (tr_null _ _ HT).
  - intros a v. rewrite lookup_delete_Some. intros [_ Ha']. by apply (tr_mods _ _ HT a).
  - intros id' q Hne' Hq. eapply queue_is_other_delete; [done|done|cbn; congruence].
Qed.

Definition fresh_or (S : SPEC) (src mem : Z) : Prop := mem = 0 ∨ mem = src ∨ allocs S !! mem = None.

Lemma realloc_tracks st S id src size file line info_ok mem : tracks st S → 0 ≤ id → fresh_or S src mem →
  ∃ st', HI_MemMng_ReallocD st id src size file line info_ok mem = Returned ((spec_realloc S id src size info_ok mem).1, st') ∧
         tracks st' (spec_realloc S id src size info_ok mem).2.
Proof.
  intros HT Hid Hf. unfold HI_MemMng_ReallocD, spec_realloc. destruct (Z.leb_spec HI_MOD_MAX_NUM id); [by exists st|].
  assert (valid id) as Hvid by done. pose proof (spec_queue_valid _ _ id HT Hvid) as Hv.
  destruct (size =? 0) eqn:Hsize; cbn [orb]; [by exists st|]. destruct (temp_mod_tracks st S id HT Hvid) as (m & -> & HT1).
  set (st1 := set_mods st m) in *. set (tid := spec_queue S id) in *. destruct (Z.eqb_spec src 0) as [->|Hsrc].
  { destruct (malloc_tracks st1 S tid size file line info_ok mem HT1 ltac:(apply Hv)) as (st' & -> & HT').
    { destruct Hf as [|[->|]]; [by left|by left|by right]. }
    assert (spec_malloc S tid size info_ok mem = spec_malloc S id size info_ok mem) as Heq.
    { unfold spec_malloc. rewrite (proj2 (Z.leb_gt _ _)) by apply Hv. rewrite (proj2 (Z.leb_gt _ id)) by done.
      assert (spec_queue S tid = tid) as ->; [|done]. unfold tid, spec_queue. destruct (names S !! id) eqn:Hn; [by rewrite Hn|].
      by destruct (names S !! HI_MOD_ID_NULL). }
    rewrite Heq in *. by exists st'. }
  pose proof (init_tracks _ _ HT1) as HT2. set (S2 := set_allocs S (allocs S)) in *. set (st2 := MEMMNG_InitStruct st1) in *.
  pose proof (find_owned st2 S2 id src HT2 eq_refl Hvid) as Hfind. change (spec_queue S2 id) with tid in Hfind.
  change (owned S2 id src) with (owned S id src) in Hfind. destruct (find_info _ src) as [[k i]|]; [|rewrite Hfind; cbn [negb orb]; by eexists].
  destruct Hfind as (Hk & <- & HA & Hheap). change (allocs S2) with (allocs S) in HA. unfold owned. fold tid.
  rewrite HA, Z.eqb_refl, bool_decide_eq_true_2 by done. cbn [negb orb]. destruct (Z.eqb_spec mem 0) as [->|Hne]; [by eexists|].
  eexists. split; [done|]. cbn [snd]. destruct Hf as [?|Hf]; [done|]. set (A1 := delete (pvMemAddr i) (allocs S)).
  assert (A1 !! mem = None) as Hmem.
  { unfold A1. destruct Hf as [->|Hf]; [apply lookup_delete_eq|rewrite lookup_delete_None; by right]. }
  assert (queue_is (allocs S) tid (queue st2 tid)) as Hq by by apply (tr_queue _ _ HT2).
  apply (tracks_update st2 S2); try done.
  - pose proof (queue_is_insert A1 tid _ mem (MEMMNG_GetActualAllocSize size) 0 0 (pszFileName i) (u32Line i)
      (queue_is_delete (allocs S) tid _ k i 0 0 Hq Hk) Hmem) as Hq'. cbn [u32MemSize u32AllocNum stList] in Hq'.
    eapply queue_is_same; [exact Hq'|..]; cbn [u32MemSize u32AllocNum stList].
    + rewrite (insert_take_drop _ _ _ (lookup_lt_Some _ _ _ Hk)), delete_take_drop. by rewrite Permutation_middle.
    + done.
    + rewrite u32_add_l, Z.sub_add. rewrite (qi_num _ _ _ Hq). by rewrite u32_idemp.
  - unfold A1. rewrite dom_insert_L, dom_delete_L. change (dom (allocs S)) with (dom (allocs S2)). by rewrite <- (tr_heap _ _ HT2).
  - rewrite lookup_insert_ne by done. unfold A1. rewrite lookup_delete_None. right. apply (tr_null _ _ HT).
  - intros a v. rewrite lookup_insert_Some. intros [[_ <-]|[_ Ha]]; [done|]. unfold A1 in Ha. apply lookup_delete_Some in Ha as [_ Ha].
    by apply (tr_mods _ _ HT a).
  - intros id' q Hne' Hq'. apply queue_is_other_insert; [|done|cbn; congruence]. eapply queue_is_other_delete; [done|done|cbn; congruence].
Qed.

(** ** Sequences of calls *)

Inductive op :=
  | Register (id : Z) (name : cstring)
  | Malloc (id size file line : Z) (info_ok : bool) (mem : Z)
  | Realloc (id src size file line : Z) (info_ok : bool) (mem : Z)
  | Free (id a : Z).

Definition step (st : STATE) (o : op) : outcome (Z * STATE) :=
  match o with
  | Register id s => let '(r, m) := MD.HI_MOD_Register (mods st) id (Some s) in Returned (r, set_mods st m)
  | Malloc id size file line info_ok mem => Returned (HI_MemMng_MallocD st id size file line info_ok mem)
  | Realloc id src size file line info_ok mem => HI_MemMng_ReallocD st id src size file line info_ok mem
  | Free id a => HI_MemMng_Free st id a
  end.

Definition spec_step (S : SPEC) (o : op) : Z * SPEC :=
  match o with
  | Register id s => let '(r, B) := MD.spec_register (names S) id s in (r, mkSpec (started S) B (allocs S))
  | Malloc id size _ _ info_ok mem => spec_malloc S id size info_ok mem
  | Realloc id src size _ _ info_ok mem => spec_realloc S id src size info_ok mem
  | Free id a => spec_free S id a
  end.

(** What is asked of the arguments: unsigned identifiers, and new memory. *)
Definition op_ok (S : SPEC) (o : op) : Prop :=
  match o with
  | Register id s => 0 ≤ id ∧ no_nul s
  | Malloc id _ _ _ _ mem => 0 ≤ id ∧ fresh_for S mem
  | Realloc id src _ _ _ _ mem => 0 ≤ id ∧ fresh_or S src mem
  | Free id _ => 0 ≤ id
  end.

Fixpoint run (st : STATE) (ops : list op) : outcome (list Z * STATE) :=
  match ops with
  | [] => Returned ([], st)
  | o :: ops => let! (r, st1) := step st o in let! (rs, st2) := run st1 ops in Returned (r :: rs, st2)
  end.

Fixpoint spec_run (S : SPEC) (ops : list op) : list Z * SPEC :=
  match ops with
  | [] => ([], S)
  | o :: ops => let '(r, S1) := spec_step S o in let '(rs, S2) := spec_run S1 ops in (r :: rs, S2)
  end.

Fixpoint ops_ok (S : SPEC) (ops : list op) : Prop :=
  match ops with [] => True | o :: ops => op_ok S o ∧ ops_ok (spec_step S o).2 ops end.

Lemma step_tracks st S o : tracks st S → op_ok S o → ∃ st', step st o = Returned ((spec_step S o).1, st') ∧ tracks st' (spec_step S o).2.
Proof.
  intros HT Hok. destruct o; cbn [step spec_step op_ok] in *.
  - destruct Hok as [Hid Hs]. destruct (MD.register_holds _ _ id name (tr_names _ _ HT) Hid Hs) as (m & -> & Hm).
    destruct (MD.spec_register (names S) id name) as [r B]. eexists. split; [done|]. destruct HT. by constructor.
  - destruct Hok. destruct (malloc_tracks st S id size file line info_ok mem) as (st' & -> & HT'); [done..|]. by exists st'.
  - destruct Hok. by apply realloc_tracks.
  - by apply free_tracks.
Qed.

Lemma run_tracks ops : ∀ st S, tracks st S → ops_ok S ops →
  ∃ st', run st ops = Returned ((spec_run S ops).1, st') ∧ tracks st' (spec_run S ops).2.
Proof.
  induction ops as [|o ops IH]; intros st S HT Hok; cbn [run spec_run]; [by exists st|]. destruct Hok as [Ho Hok].
  destruct (step_tracks st S o HT Ho) as (st1 & -> & HT1). destruct (spec_step S o) as [r S1]. cbn [fst snd obind] in *.
  destruct (IH st1 S1 HT1 Hok) as (st2 & H2 & HT2). cbn. rewrite H2. destruct (spec_run S1 ops) as [rs S2]. by exists st2.
Qed.

Definition start : STATE := mkState false [] (MD.mkState false []) ∅.
Definition spec_start : SPEC := mkSpec false MD.no_names ∅.

Lemma start_tracks : tracks start spec_start.
Proof. constructor; cbn; try done. by apply MD.holds_start. Qed.

(** C31: any sequence of registrations, allocations, reallocations and frees
    answers like a map from addresses to a module and a size; nothing is given
    back twice, the memory held is that of the map, and the totals of every
    module are the sums over its entries, in 32 bits. *)
Theorem memmng_refines ops : ops_ok spec_start ops →
  let '(rs, sp) := spec_run spec_start ops in ∃ st', run start ops = Returned (rs, st') ∧ heap st' = dom (allocs sp) ∧
    (started sp = true → ∀ id, valid id →
       u32MemSize (queue st' id) = u32 (bytes_of (allocs sp) id) ∧ u32AllocNum (queue st' id) = u32 (number_of (allocs sp) id) ∧
       ∀ a sz, allocs sp !! a = Some (id, sz) ↔ entry_of (stList (queue st' id)) a sz).
Proof.
  intros Hok. destruct (run_tracks ops start spec_start start_tracks Hok) as (st' & Hr & HT).
  destruct (spec_run spec_start ops) as [rs S]. cbn [fst snd] in *. exists st'. split; [done|]. split; [apply HT|].
  intros Hst id Hv. destruct (tr_queue _ _ HT Hst id Hv). auto.
Qed.

(** Calls that show most of the branches. *)
Definition sample : list op :=
  [Free 180 16; Register 180 (bytes "player"); Malloc 180 100 0 0 true 4096; Malloc 181 10 0 0 true 8192; Malloc 180 7 0 0 false 0;
   Realloc 180 4096 300 0 0 true 12288; Realloc 180 4096 20 0 0 true 16384; Free 181 12288; Free 181 8192; Realloc 180 12288 20 0 0 true 12288].

Lemma memmng_refines_witness : ops_ok spec_start sample ∧
  (spec_run spec_start sample).1 = [HI_FAILURE; HI_SUCCESS; 4096; 8192; 0; 12288; 0; HI_FAILURE; HI_SUCCESS; 12288] ∧
  let '(rs, sp) := spec_run spec_start sample in ∃ st', run start sample = Returned (rs, st') ∧ heap st' = dom (allocs sp) ∧
    (started sp = true → ∀ id, valid id →
       u32MemSize (queue st' id) = u32 (bytes_of (allocs sp) id) ∧ u32AllocNum (queue st' id) = u32 (number_of (allocs sp) id) ∧
       ∀ a sz, allocs sp !! a = Some (id, sz) ↔ entry_of (stList (queue st' id)) a sz).
Proof.
  assert (ops_ok spec_start sample) as Hok.
  { repeat (split; [first [split; [by vm_compute|first [by right; vm_compute|by right; right; vm_compute|by right; left|by left]]|split; [by vm_compute|by repeat constructor]|by vm_compute]|]); exact I. }
  split; [exact Hok|]. split; [vm_compute; reflexivity|]. exact (memmng_refines sample Hok).
Defined.

(** Memory that was allocated for a module before the module was registered
    cannot be freed for it afterwards. *)
Theorem register_orphans st S id a sz name : tracks st S → started S = true →
  HI_MOD_ID_NULL < id < HI_MOD_MAX_NUM → names S !! id = None → MD.name_ok name → allocs S !! a = Some (HI_MOD_ID_NULL, sz) →
  ∃ st', run st [Register id name; Free id a] = Returned ([HI_SUCCESS; HI_FAILURE], st') ∧ a ∈ heap st'.
Proof.
  intros HT Hst Hid Hn (Hne & Hs & Hlen) Ha. assert (0 ≤ id) as H0 by (change HI_MOD_ID_NULL with 176 in Hid; lia).
  destruct (run_tracks [Register id name; Free id a] st S HT) as (st' & Hr & HT'); [by repeat split|]. exists st'. revert Hr HT'.
  cbn [spec_run spec_step]. unfold MD.spec_register, MD.low. rewrite (proj2 (Z.leb_gt _ _)) by apply Hid.
  rewrite bool_decide_eq_false_2 by done. rewrite (proj2 (Nat.ltb_ge _ _)) by done. rewrite (proj2 (Z.ltb_ge _ _)) by lia. rewrite Hn.
  cbn [orb]. unfold spec_free, owned, spec_queue. cbn [started allocs names]. rewrite Hst. cbn [negb].
  rewrite (proj2 (Z.leb_gt _ _)) by apply Hid. rewrite lookup_insert_eq, Ha. rewrite (proj2 (Z.eqb_neq HI_MOD_ID_NULL id)) by lia.
  destruct (Z.eqb_spec a 0) as [->|_]; [by rewrite (tr_null _ _ HT) in Ha|]. cbn [fst snd]. intros Hr HT'. split; [done|].
  rewrite (tr_heap _ _ HT'). cbn [allocs]. by apply elem_of_dom_2 in Ha.
Qed.

Lemma register_orphans_witness : ∃ st sp, tracks st sp ∧ started sp = true ∧ HI_MOD_ID_NULL < 181 < HI_MOD_MAX_NUM ∧ names sp !! 181 = None ∧
  MD.name_ok (bytes "late") ∧ allocs sp !! 8192 = Some (HI_MOD_ID_NULL, 16) ∧
  ∃ st', run st [Register 181 (bytes "late"); Free 181 8192] = Returned ([HI_SUCCESS; HI_FAILURE], st') ∧ 8192 ∈ heap st'.
Proof.
  set (st := (HI_MemMng_MallocD start 181 10 0 0 true 8192).2). set (S := (spec_malloc spec_start 181 10 true 8192).2).
  assert (tracks st S) as HT.
  { destruct (malloc_tracks start spec_start 181 10 0 0 true 8192 start_tracks ltac:(lia) ltac:(by right)) as (st' & Heq & HT).
    unfold st. by rewrite Heq. }
  assert (HI_MOD_ID_NULL < 181 < HI_MOD_MAX_NUM) as H1 by (by vm_compute).
  assert (MD.name_ok (bytes "late")) as H2 by (split; [done|]; split; [by repeat constructor|vm_compute; lia]).
  exists st, S. split; [exact HT|]. split; [reflexivity|]. split; [exact H1|]. split; [reflexivity|]. split; [exact H2|].
  split; [reflexivity|]. exact (register_orphans st S 181 8192 16 (bytes "late") HT eq_refl H1 eq_refl H2 eq_refl).
Defined.

End MM.
