(* ===== verification/Parcel.v ===== *)
(** The container of messages of the binder ([Parcel.cpp]): a growing block of
    bytes, written and read at a position, with the places of the objects in
    it.

    Modelled are the parcels that own their memory, with everything that is
    written and read in bytes, and the search for objects.  [size_t] has 32
    bits.  Memory is the list of its bytes up to the capacity; what an
    allocation finds in new memory is part of its answer, [None] when it
    fails. *)

From S2P Require Import Prelude.

Module PA.

Definition NO_ERROR : Z := 0.
Definition NO_MEMORY : Z := -12.
Definition BAD_VALUE : Z := -22.
Definition NOT_ENOUGH_DATA : Z := -61.

Abbreviation answer := (option (nat → Z)).

Record Parcel := mkParcel {
  mError : Z; mData : option (list Z); mDataSize : Z; mDataPos : Z;
  mObjects : list Z; mNextObjectHint : Z; mFdsKnown : bool }.

(** The capacity is the size of the block. *)
Definition block (p : Parcel) : list Z := match mData p with Some d => d | None => [] end.
Definition mDataCapacity (p : Parcel) : Z := Z.of_nat (length (block p)).

Definition set_data (p : Parcel) (d : list Z) : Parcel :=
  mkParcel (mError p) (Some d) (mDataSize p) (mDataPos p) (mObjects p) (mNextObjectHint p) (mFdsKnown p).
Definition set_error (p : Parcel) (e : Z) : Parcel :=
  mkParcel e (mData p) (mDataSize p) (mDataPos p) (mObjects p) (mNextObjectHint p) (mFdsKnown p).
Definition set_size (p : Parcel) (n : Z) : Parcel :=
  mkParcel (mError p) (mData p) n (mDataPos p) (mObjects p) (mNextObjectHint p) (mFdsKnown p).
Definition set_pos (p : Parcel) (n : Z) : Parcel :=
  mkParcel (mError p) (mData p) (mDataSize p) n (mObjects p) (mNextObjectHint p) (mFdsKnown p).
Definition set_hint (p : Parcel) (n : Z) : Parcel :=
  mkParcel (mError p) (mData p) (mDataSize p) (mDataPos p) (mObjects p) n (mFdsKnown p).

Definition initState : Parcel := mkParcel NO_ERROR None 0 0 [] 0 true.

Definition PAD_SIZE (s : Z) : Z := Z.land (u32 (s + 3)) (Z.shiftl (Z.ones 30) 2).

(** Reading and writing memory at a position of the block. *)
Definition load (p : Parcel) (pos n : Z) : outcome (list Z) :=
  if pos + n <=? mDataCapacity p then Returned (take (Z.to_nat n) (drop (Z.to_nat pos) (block p))) else Undefined.
Definition store (p : Parcel) (pos : Z) (l : list Z) : outcome Parcel :=
  if pos + Z.of_nat (length l) <=? mDataCapacity p
  then Returned (match mData p with
                 | Some d => set_data p (take (Z.to_nat pos) d ++ l ++ drop (Z.to_nat pos + length l) d)
                 | None => p
                 end)
  else Undefined.

Definition resized (d : list Z) (n : Z) (junk : nat → Z) : list Z :=
  take (Z.to_nat n) d ++ (junk <$> seq 0 (Z.to_nat n - length d)).

(** ** Sizes and positions *)

Definition dataSize (p : Parcel) : Z := if mDataPos p <? mDataSize p then mDataSize p else mDataPos p.
Definition dataAvail (p : Parcel) : Z := u32 (dataSize p - mDataPos p).
Definition setDataPosition (p : Parcel) (pos : Z) : Parcel := set_hint (set_pos p pos) 0.

(** The objects that are left when the data shrinks to [desired]. *)
Fixpoint keep_objects (objs : list Z) (n : nat) (desired : Z) : nat :=
  match n with
  | O => O
  | S n' => if nth n' objs 0 <? desired then n else keep_objects objs n' desired
  end.
Definition objects_left (p : Parcel) (desired : Z) : nat :=
  if desired <? mDataSize p then (if desired =? 0 then O else keep_objects (mObjects p) (length (mObjects p)) desired)
  else length (mObjects p).

(** [continueWrite] of a parcel that owns its memory.  [is_fd]: whether one of
    the objects that are dropped is a file descriptor. *)
Definition continueWrite (is_fd : Z → bool) (p : Parcel) (desired : Z) (al : answer) : Z * Parcel :=
  match mData p with
  | Some d =>
      let n := objects_left p desired in
      let p1 := if (n <? length (mObjects p))%nat
                then mkParcel (mError p) (mData p) (mDataSize p) (mDataPos p) (take n (mObjects p)) 0
                              (mFdsKnown p && negb (existsb is_fd (drop n (mObjects p))))
                else p in
      if mDataCapacity p <? desired then
        match al with
        | Some junk => (NO_ERROR, set_data p1 (resized d desired junk))
        | None => (NO_MEMORY, set_error p1 NO_MEMORY)
        end
      else
        let p2 := if desired <? mDataSize p1 then set_size p1 desired else p1 in
        (NO_ERROR, if desired <? mDataPos p2 then set_pos p2 desired else p2)
  | None =>
      match al with
      | Some junk => (NO_ERROR, set_pos (set_size (set_data p (resized [] desired junk)) 0) 0)
      | None => (NO_MEMORY, set_error p NO_MEMORY)
      end
  end.

Section fds.
Context (is_fd : Z → bool).

Definition setDataSize (p : Parcel) (size : Z) (al : answer) : Z * Parcel :=
  let '(err, p1) := continueWrite is_fd p size al in
  (err, if err =? NO_ERROR then set_size p1 size else p1).

Definition setDataCapacity (p : Parcel) (size : Z) (al : answer) : Z * Parcel :=
  if mDataCapacity p <? size then continueWrite is_fd p size al else (NO_ERROR, p).

Definition growData (p : Parcel) (len : Z) (al : answer) : Z * Parcel :=
  let newSize := u32 (u32 (mDataSize p + len) * 3) / 2 in
  if newSize <=? mDataSize p then (NO_MEMORY, p) else continueWrite is_fd p newSize al.

(** ** Writing *)

Definition finishWrite (p : Parcel) (len : Z) : Parcel :=
  let p1 := set_pos p (u32 (mDataPos p + len)) in
  if mDataSize p1 <? mDataPos p1 then set_size p1 (mDataPos p1) else p1.

(** The label [restart_write] of a write of [len] bytes, which is reached
    directly or after [growData]. *)
Definition with_room (p : Parcel) (len : Z) (al : answer) {A} (restart_write : Parcel → outcome A) (fail : Z → Parcel → outcome A) : outcome A :=
  if u32 (mDataPos p + len) <=? mDataCapacity p then restart_write p
  else let '(err, p1) := growData p len al in if err =? NO_ERROR then restart_write p1 else fail err p1.

Definition writeUnpadded (p : Parcel) (l : list Z) (al : answer) : outcome (Z * Parcel) :=
  let len := Z.of_nat (length l) in
  let end_ := u32 (mDataPos p + len) in
  if end_ <? mDataPos p then Returned (BAD_VALUE, p)
  else with_room p len al
         (λ p, let! p1 := store p (mDataPos p) l in Returned (NO_ERROR, finishWrite p1 len))
         (λ err p, Returned (err, p)).

(** The mask of the last word keeps its first bytes; [n] of them are cleared. *)
Definition mask_end (p : Parcel) (pos n : Z) : outcome Parcel :=
  let! w := load p pos 4 in store p pos (take (4 - Z.to_nat n) w ++ replicate (Z.to_nat n) 0).

(** A place to write to, or a null pointer. *)
Definition writeInplace (p : Parcel) (len : Z) (al : answer) : outcome (option Z * Parcel) :=
  let padded := PAD_SIZE len in
  if u32 (mDataPos p + padded) <? mDataPos p then Returned (None, p)
  else with_room p padded al
         (λ p, let data := mDataPos p in
               let! p1 := if negb (padded =? len) then mask_end p (data + padded - 4) (padded - len) else Returned p in
               Returned (match mData p1 with Some _ => Some data | None => None end, finishWrite p1 padded))
         (λ _ p, Returned (None, p)).

Definition write (p : Parcel) (l : list Z) (al : answer) : outcome (Z * Parcel) :=
  let! (d, p1) := writeInplace p (Z.of_nat (length l)) al in
  match d with
  | Some d => let! p2 := store p1 d l in Returned (NO_ERROR, p2)
  | None => Returned (mError p1, p1)
  end.

(** A value of [n] bytes. *)
Definition writeAligned (n : nat) (p : Parcel) (val : Z) (al : answer) : outcome (Z * Parcel) :=
  with_room p (Z.of_nat n) al
    (λ p, let! p1 := store p (mDataPos p) (le_bytes n val) in Returned (NO_ERROR, finishWrite p1 (Z.of_nat n)))
    (λ err p, Returned (err, p)).

Definition writeInt32 := writeAligned 4.
Definition writeInt64 := writeAligned 8.

(** [val] is the array, or a null pointer.  The answers of both writes. *)
Definition writeByteArray (p : Parcel) (val : option (list Z)) (al al2 : answer) : outcome (Z * Parcel) :=
  match val with
  | None => writeAligned 4 p (-1) al
  | Some l => let! (ret, p1) := writeAligned 4 p (Z.of_nat (length l)) al in
              if ret =? NO_ERROR then write p1 l al2 else Returned (ret, p1)
  end.

Definition writeCString (p : Parcel) (s : cstring) (al : answer) : outcome (Z * Parcel) := write p (s ++ [0]) al.

Definition writeString8 (p : Parcel) (s : list Z) (al al2 : answer) : outcome (Z * Parcel) :=
  let! (err, p1) := writeInt32 p (Z.of_nat (length s)) al in
  if (0 <? Z.of_nat (length s)) && (err =? NO_ERROR) then write p1 (s ++ [0]) al2 else Returned (err, p1).

(** The bytes of 16-bit units. *)
Definition units_bytes (l : list Z) : list Z := concat (le_bytes 2 <$> l).

Definition writeString16 (p : Parcel) (str : option (list Z)) (al al2 : answer) : outcome (Z * Parcel) :=
  match str with
  | None => writeInt32 p (-1) al
  | Some l =>
      let! (err, p1) := writeInt32 p (Z.of_nat (length l)) al in
      if err =? NO_ERROR then
        let len := u32 (Z.of_nat (length l) * 2) in
        let! (data, p2) := writeInplace p1 (u32 (len + 2)) al2 in
        match data with
        | Some data =>
            let! p3 := store p2 data (take (Z.to_nat len) (units_bytes l)) in
            let! p4 := store p3 (data + len) [0; 0] in
            Returned (NO_ERROR, p4)
        | None => Returned (mError p2, p2)
        end
      else Returned (err, p1)
  end.

End fds.

(** ** Reading *)

Definition read_room (p : Parcel) (len : Z) : bool :=
  (mDataPos p <=? u32 (mDataPos p + PAD_SIZE len)) && (u32 (mDataPos p + PAD_SIZE len) <=? mDataSize p) && (len <=? PAD_SIZE len).

Definition read (p : Parcel) (len : Z) : outcome (Z * list Z * Parcel) :=
  if read_room p len
  then let! l := load p (mDataPos p) len in Returned (NO_ERROR, l, set_pos p (u32 (mDataPos p + PAD_SIZE len)))
  else Returned (NOT_ENOUGH_DATA, [], p).

(** The place of the data, or a null pointer. *)
Definition readInplace (p : Parcel) (len : Z) : option Z * Parcel :=
  if read_room p len then (Some (mDataPos p), set_pos p (u32 (mDataPos p + PAD_SIZE len))) else (None, p).

(** The value of [n] bytes, if there are as many. *)
Definition readAligned (n : nat) (p : Parcel) : outcome (option Z * Parcel) :=
  if u32 (mDataPos p + Z.of_nat n) <=? mDataSize p
  then let! l := load p (mDataPos p) (Z.of_nat n) in Returned (Some (le l), set_pos p (u32 (mDataPos p + Z.of_nat n)))
  else Returned (None, p).

Definition s64 (x : Z) : Z := (x + 2 ^ 63) mod 2 ^ 64 - 2 ^ 63.

(** The functions that answer 0 when there is no value. *)
Definition readInt32 (p : Parcel) : outcome (Z * Parcel) :=
  let! (v, p1) := readAligned 4 p in Returned (s32 (default 0 v), p1).
Definition readInt64 (p : Parcel) : outcome (Z * Parcel) :=
  let! (v, p1) := readAligned 8 p in Returned (s64 (default 0 v), p1).

(** [memchr] for 0: the number of characters before it.  Looking past the
    memory is undefined. *)
Fixpoint memchr0 (l : list Z) (n : nat) : outcome (option nat) :=
  match n with
  | O => Returned None
  | S n' =>
    match l with
    | [] => Undefined
    | c :: l' => if c =? 0 then Returned (Some O) else let! k := memchr0 l' n' in Returned (S <$> k)
    end
  end.

Definition readCString (p : Parcel) : outcome (option cstring * Parcel) :=
  let avail := u32 (mDataSize p - mDataPos p) in
  if 0 <? avail then
    let str := drop (Z.to_nat (mDataPos p)) (block p) in
    let! eos := memchr0 str (Z.to_nat avail) in
    match eos with
    | Some len => Returned (Some (take len str), set_pos p (u32 (mDataPos p + PAD_SIZE (Z.of_nat len + 1))))
    | None => Returned (None, p)
    end
  else Returned (None, p).

Definition INT32_MAX : Z := 2147483647.

Definition readString8 (p : Parcel) : outcome (list Z * Parcel) :=
  let! (size, p1) := readInt32 p in
  if (0 <? size) && (size <? INT32_MAX) then
    let '(str, p2) := readInplace p1 (u32 (size + 1)) in
    match str with
    | Some pos => let! l := load p2 pos size in Returned (l, p2)
    | None => Returned ([], p2)
    end
  else Returned ([], p1).

(** The units of [2 * n] bytes. *)
Fixpoint bytes_units (l : list Z) : list Z :=
  match l with a :: b :: l' => le [a; b] :: bytes_units l' | _ => [] end.

(** A null string is read as an empty one. *)
Definition readString16 (p : Parcel) : outcome (list Z * Parcel) :=
  let! (size, p1) := readInt32 p in
  if (0 <=? size) && (size <? INT32_MAX) then
    let '(str, p2) := readInplace p1 (u32 ((size + 1) * 2)) in
    match str with
    | Some pos => let! l := load p2 pos (size * 2) in Returned (bytes_units l, p2)
    | None => Returned ([], p2)
    end
  else Returned ([], p1).

(** ** Objects

    A [flat_binder_object] has four words. *)
Definition SIZEOF_object : Z := 16.
Record flat_binder_object := mkObject { type : Z; flags : Z; binder : Z; cookie : Z }.
Definition object_of (l : list Z) : flat_binder_object :=
  mkObject (le (take 4 l)) (le (take 4 (drop 4 l))) (le (take 4 (drop 8 l))) (le (take 4 (drop 12 l))).

(** The two searches from a hint among [N > 0] places. *)
Fixpoint forward (objs : list Z) (fuel opos : nat) (DPOS : Z) : nat :=
  match fuel with
  | O => opos
  | S fuel => if (opos <? length objs - 1)%nat && (nth opos objs 0 <? DPOS) then forward objs fuel (S opos) DPOS else opos
  end.
Fixpoint backward (objs : list Z) (opos : nat) (DPOS : Z) : nat :=
  match opos with
  | O => O
  | S n => if DPOS <? nth opos objs 0 then backward objs n DPOS else opos
  end.

Definition find_object (objs : list Z) (hint : nat) (DPOS : Z) : option nat :=
  match objs with
  | [] => None
  | _ =>
    let opos := if (hint <? length objs)%nat then forward objs (length objs) hint DPOS else (length objs - 1)%nat in
    if nth opos objs 0 =? DPOS then Some opos
    else let opos := backward objs opos DPOS in if nth opos objs 0 =? DPOS then Some opos else None
  end.

Definition readObject (p : Parcel) (nullMetaData : bool) : outcome (option flat_binder_object * Parcel) :=
  let DPOS := mDataPos p in
  if u32 (DPOS + SIZEOF_object) <=? mDataSize p then
    let! l := load p DPOS SIZEOF_object in
    let obj := object_of l in
    let p1 := set_pos p (u32 (DPOS + SIZEOF_object)) in
    if negb nullMetaData && ((cookie obj =? 0) && (binder obj =? 0)) then Returned (Some obj, p1)
    else
      match find_object (mObjects p) (Z.to_nat (mNextObjectHint p)) DPOS with
      | Some i => Returned (Some obj, set_hint p1 (Z.of_nat i + 1))
      | None => Returned (None, p1)
      end
  else Returned (None, p).

(** ** The search for objects *)

Lemma forward_spec objs fuel : ∀ opos DPOS, (opos < length objs)%nat → (length objs ≤ fuel + opos)%nat →
  let i := forward objs fuel opos DPOS in
  (opos ≤ i < length objs)%nat ∧ (∀ j, (opos ≤ j < i)%nat → nth j objs 0 < DPOS) ∧ (i = (length objs - 1)%nat ∨ DPOS ≤ nth i objs 0).
Proof.
  induction fuel as [|fuel IH]; intros opos DPOS Ho Hf; cbn [forward]; [lia|].
  destruct (Nat.ltb_spec opos (length objs - 1)); cbn [andb].
  - destruct (Z.ltb_spec (nth opos objs 0) DPOS).
    + destruct (IH (S opos) DPOS ltac:(lia) ltac:(lia)) as (H1 & H2 & H3). split; [lia|]. split; [|done].
      intros j Hj. destruct (decide (j = opos)) as [->|]; [done|]. apply H2. lia.
    + split; [lia|]. split; [lia|]. by right.
  - split; [lia|]. split; [lia|]. left. lia.
Qed.

Lemma backward_spec objs DPOS : ∀ opos, let i := backward objs opos DPOS in
  (i ≤ opos)%nat ∧ (∀ j, (i < j ≤ opos)%nat → DPOS < nth j objs 0) ∧ (i = O ∨ nth i objs 0 ≤ DPOS).
Proof.
  induction opos as [|n IH]; cbn [backward]; [split; [lia|]; split; [lia|by left]|].
  destruct (Z.ltb_spec DPOS (nth (S n) objs 0)).
  - destruct IH as (H1 & H2 & H3). split; [lia|]. split; [|done].
    intros j Hj. destruct (decide (j = S n)) as [->|]; [done|]. apply H2. lia.
  - split; [lia|]. split; [lia|]. by right.
Qed.

(** Places in increasing order. *)
Definition increasing (objs : list Z) : Prop := ∀ i j x y, objs !! i = Some x → objs !! j = Some y → (i < j)%nat → x < y.

(** The place a search ends at is the only one that can be right. *)
Lemma increasing_nth objs i j : increasing objs → (i < j < length objs)%nat → nth i objs 0 < nth j objs 0.
Proof.
  intros Hinc Hij. destruct (lookup_lt_is_Some_2 objs i) as [x Hx]; [lia|]. destruct (lookup_lt_is_Some_2 objs j) as [y Hy]; [lia|].
  rewrite !nth_lookup, Hx, Hy. apply (Hinc i j); [done|done|lia].
Qed.

Lemma nth_is objs i x : (i < length objs)%nat → objs !! i = Some x ↔ nth i objs 0 = x.
Proof.
  intros Hi. destruct (lookup_lt_is_Some_2 _ _ Hi) as [y Hy]. rewrite nth_lookup, Hy. cbn. naive_solver.
Qed.

Definition first_stop (objs : list Z) (hint : nat) (DPOS : Z) : nat :=
  if (hint <? length objs)%nat then forward objs (length objs) hint DPOS else (length objs - 1)%nat.

Lemma search_end objs hint DPOS i : increasing objs → (i < length objs)%nat → nth i objs 0 = DPOS →
  first_stop objs hint DPOS = i ∨ nth (first_stop objs hint DPOS) objs 0 ≠ DPOS ∧ backward objs (first_stop objs hint DPOS) DPOS = i.
Proof.
  intros Hinc Hi <-. set (D := nth i objs 0). set (k := first_stop objs hint D).
  assert (k < length objs)%nat as Hk.
  { unfold k, first_stop. destruct (Nat.ltb_spec hint (length objs)); [|lia].
    destruct (forward_spec objs (length objs) hint D) as (? & _); lia. }
  assert (i ≤ k)%nat as Hik.
  { unfold k, first_stop. destruct (Nat.ltb_spec hint (length objs)); [|lia].
    destruct (forward_spec objs (length objs) hint D) as (H1 & H2 & H3); [lia|lia|].
    destruct (decide (i ≤ forward objs (length objs) hint D)%nat) as [|Hn]; [done|]. destruct H3 as [->|H3]; [lia|].
    pose proof (increasing_nth objs (forward objs (length objs) hint D) i Hinc ltac:(lia)). unfold D in *. lia. }
  destruct (decide (k = i)) as [|Hne]; [by left|]. right. split.
  - pose proof (increasing_nth objs i k Hinc ltac:(lia)). unfold D. lia.
  - destruct (backward_spec objs D k) as (H1 & H2 & H3). set (b := backward objs k D) in *.
    destruct (decide (b = i)) as [|Hb]; [done|]. destruct (decide (b < i)%nat).
    + specialize (H2 i ltac:(lia)). unfold D in H2. lia.
    + destruct H3 as [->|H3]; [lia|]. pose proof (increasing_nth objs i b Hinc ltac:(lia)). unfold D in *. lia.
Qed.

Lemma find_object_finds objs hint DPOS i : increasing objs →
  find_object objs hint DPOS = Some i ↔ objs !! i = Some DPOS.
Proof.
  intros Hinc. destruct objs as [|o l]; [done|]. unfold find_object. fold (first_stop (o :: l) hint DPOS).
  set (objs := o :: l) in *. set (k := first_stop objs hint DPOS).
  assert (∀ j, nth j objs 0 = DPOS → (j < length objs)%nat → objs !! j = Some DPOS) as Hat by (intros j Hj Hlt; by apply nth_is).
  assert (k < length objs ∧ backward objs k DPOS < length objs)%nat as [Hk Hb].
  { destruct (backward_spec objs DPOS k) as (H1 & _). enough (k < length objs)%nat by lia. unfold k, first_stop.
    destruct (Nat.ltb_spec hint (length objs)); [|cbn; lia]. destruct (forward_spec objs (length objs) hint DPOS) as (? & _); lia. }
  split.
  - destruct (Z.eqb_spec (nth k objs 0) DPOS); [intros [= <-]; by apply Hat|].
    destruct (Z.eqb_spec (nth (backward objs k DPOS) objs 0) DPOS); [intros [= <-]; by apply Hat|done].
  - intros Hi. apply lookup_lt_Some in Hi as Hlt. apply nth_is in Hi; [|done].
    destruct (search_end objs hint DPOS i Hinc Hlt Hi) as [Heq|[Hne Heq]]; fold k in Heq.
    + by rewrite Heq, (proj2 (Z.eqb_eq _ _) Hi).
    + fold k in Hne. rewrite (proj2 (Z.eqb_neq _ _) Hne), Heq. by rewrite (proj2 (Z.eqb_eq _ _) Hi).
Qed.

(** With the places of the objects in increasing order, the search from any
    hint finds an object exactly when there is one at the position. *)
Theorem find_object_any_hint objs hint DPOS i : increasing objs →
  find_object objs hint DPOS = Some i ↔ objs !! i = Some DPOS.
Proof. apply find_object_finds. Qed.

Lemma find_object_any_hint_witness : increasing [0; 16; 40] ∧ (find_object [0; 16; 40] 7 16 = Some 1%nat ↔ [0; 16; 40] !! 1%nat = Some 16).
Proof.
  assert (increasing [0; 16; 40]) as H.
  { intros i j x y Hi Hj Hlt. destruct i as [|[|[|i]]], j as [|[|[|j]]]; cbn in *; simplify_eq; lia. }
  split; [exact H|exact (find_object_any_hint _ 7 16 1 H)].
Defined.

(** ** Memory *)

Lemma PAD_SIZE_is s : 0 ≤ s < 2 ^ 32 - 3 → PAD_SIZE s = 4 * ((s + 3) / 4).
Proof. intros Hs. unfold PAD_SIZE. rewrite u32_small by lia. change 30 with (32 - 2). rewrite land_clear_low by lia. done. Qed.

Lemma PAD_SIZE_bounds s : 0 ≤ s < 2 ^ 32 - 3 → s ≤ PAD_SIZE s < s + 4 ∧ PAD_SIZE s mod 4 = 0.
Proof. intros Hs. rewrite PAD_SIZE_is by done. Z.div_mod_to_equations. lia. Qed.

(** A parcel whose position is in its data and whose data is in its memory. *)
Record wf (p : Parcel) : Prop := {
  wf_pos : 0 ≤ mDataPos p ≤ mDataSize p;
  wf_size : mDataSize p ≤ mDataCapacity p;
  wf_cap : mDataCapacity p < 2 ^ 32
}.

Definition contents (p : Parcel) : list Z := take (Z.to_nat (mDataSize p)) (block p).

Lemma contents_length p : wf p → Z.of_nat (length (contents p)) = mDataSize p.
Proof. intros [Hp Hs Hc]. unfold contents, mDataCapacity in *. rewrite length_take. lia. Qed.

Lemma wf_init : wf initState.
Proof. by constructor. Qed.

(** The same data in memory that may be larger. *)
Record same_data (p p1 : Parcel) : Prop := {
  sd_pos : mDataPos p1 = mDataPos p;
  sd_size : mDataSize p1 = mDataSize p;
  sd_objects : mObjects p1 = mObjects p;
  sd_contents : contents p1 = contents p;
  sd_wf : wf p1
}.

Lemma same_data_refl p : wf p → same_data p p.
Proof. by constructor. Qed.

Lemma resized_take d n m junk : (m ≤ length d)%nat → (m ≤ Z.to_nat n)%nat → take m (resized d n junk) = take m d.
Proof.
  intros Hm Hn. unfold resized. rewrite take_app_le by (rewrite length_take; lia). rewrite take_take. by rewrite Nat.min_l by lia.
Qed.

Lemma resized_length d n junk : length (resized d n junk) = Z.to_nat n.
Proof. unfold resized. rewrite length_app, length_take, length_fmap, length_seq. lia. Qed.

Section writing.
Context (is_fd : Z → bool).

Lemma continue_grow p n al : wf p → mDataCapacity p < n < 2 ^ 32 →
  match al with
  | Some _ => ∃ p1, continueWrite is_fd p n al = (NO_ERROR, p1) ∧ same_data p p1 ∧ mError p1 = mError p ∧ mDataCapacity p1 = n
  | None => ∃ p1, continueWrite is_fd p n al = (NO_MEMORY, p1) ∧ same_data p p1 ∧ mError p1 = NO_MEMORY
  end.
Proof.
  intros Hwf Hn. pose proof Hwf as [Hp Hs Hc]. unfold continueWrite. unfold mDataCapacity, block in *. destruct (mData p) as [d|] eqn:Hd.
  - assert (objects_left p n = length (mObjects p)) as -> by (unfold objects_left; by rewrite (proj2 (Z.ltb_ge n _)) by lia).
    rewrite Nat.ltb_irrefl, (proj2 (Z.ltb_lt _ n)) by lia. destruct al as [junk|].
    + eexists. split; [done|]. split; [|split; [done|cbn; rewrite resized_length; lia]].
      constructor; cbn [set_data mDataPos mDataSize mObjects]; try done.
      * unfold contents, block. cbn [set_data mData mDataSize block]. rewrite Hd. apply resized_take; lia.
      * constructor; unfold mDataCapacity, block; cbn [set_data mData mDataPos mDataSize block]; rewrite ?resized_length; lia.
    + eexists. split; [done|]. split; [|done]. constructor; try done. constructor; unfold mDataCapacity, block; cbn [set_error mData mDataPos mDataSize]; rewrite ?Hd; lia.
  - change (Z.of_nat (length (@nil Z))) with 0 in *. assert (mDataSize p = 0 ∧ mDataPos p = 0) as [Hs0 Hp0] by lia. destruct al as [junk|].
    + eexists. split; [done|]. split; [|split; [done|cbn [set_pos set_size set_data mData block]; rewrite resized_length; lia]].
      constructor; cbn [set_pos set_size set_data mDataPos mDataSize mObjects]; try done.
      * unfold contents. cbn [set_pos set_size set_data mDataSize]. by rewrite Hs0.
      * constructor; unfold mDataCapacity, block; cbn [set_pos set_size set_data mData mDataPos mDataSize block]; rewrite ?resized_length; lia.
    + eexists. split; [done|]. split; [|done]. constructor; try done. constructor; unfold mDataCapacity, block; cbn [set_error mData mDataPos mDataSize]; rewrite ?Hd; cbn [length]; lia.
Qed.

(** There is room for a write of [len] bytes: the sizes computed do not wrap. *)
Definition small (p : Parcel) (len : Z) : Prop := 0 ≤ len ∧ (mDataSize p + len) * 3 < 2 ^ 32.

(** A write of [len] bytes goes on with memory for them, or fails without it. *)
Lemma with_room_cases {A} p len al (k : Parcel → outcome A) f : wf p → small p len →
  (∃ p1, with_room is_fd p len al k f = k p1 ∧ same_data p p1 ∧ mError p1 = mError p ∧ mDataPos p1 + len ≤ mDataCapacity p1 ∧
         (len = 0 → p1 = p)) ∨
  (∃ p1, with_room is_fd p len al k f = f NO_MEMORY p1 ∧ al = None ∧ same_data p p1 ∧ mError p1 = NO_MEMORY).
Proof.
  intros Hwf [Hl Hsm]. pose proof Hwf as [Hp Hs Hc]. unfold with_room. rewrite (u32_small (mDataPos p + len)) by lia.
  destruct (Z.leb_spec (mDataPos p + len) (mDataCapacity p)).
  - left. exists p. split; [done|]. split; [by apply same_data_refl|]. done.
  - unfold growData. rewrite (u32_small (mDataSize p + len)), u32_small by lia. set (n := (mDataSize p + len) * 3 / 2).
    assert (mDataSize p + len ≤ n < 2 ^ 31) as Hn by (unfold n; Z.div_mod_to_equations; lia).
    rewrite (proj2 (Z.leb_gt n _)) by lia. pose proof (continue_grow p n al Hwf ltac:(lia)) as Hg. destruct al as [junk|].
    + destruct Hg as (p1 & -> & Hsd & He & Hcap). left. exists p1. split; [done|]. split; [done|]. split; [done|].
      split; [rewrite (sd_pos _ _ Hsd); lia|lia].
    + destruct Hg as (p1 & -> & Hsd & He). right. by exists p1.
Qed.

(** Storing inside the memory. *)
Lemma store_ok p pos l : 0 ≤ pos → pos + Z.of_nat (length l) ≤ mDataCapacity p →
  ∃ p1, store p pos l = Returned p1 ∧ block p1 = take (Z.to_nat pos) (block p) ++ l ++ drop (Z.to_nat pos + length l) (block p) ∧
        mDataPos p1 = mDataPos p ∧ mDataSize p1 = mDataSize p ∧ mObjects p1 = mObjects p ∧ mError p1 = mError p ∧ mDataCapacity p1 = mDataCapacity p ∧
        (mData p1 = None ↔ mData p = None).
Proof.
  intros Hpos Hl. unfold store. rewrite (proj2 (Z.leb_le _ _)) by done. eexists. split; [done|].
  unfold mDataCapacity, block in *. destruct (mData p) as [d|] eqn:Hd; cbn [default set_data mData mDataPos mDataSize mObjects mError] in *.
  - repeat split; try done. rewrite !length_app, length_take, length_drop. lia.
  - destruct l; [|cbn [length] in Hl; lia]. rewrite Hd. rewrite !take_nil, !drop_nil. done.
Qed.

Lemma load_ok p pos n : pos + n ≤ mDataCapacity p → load p pos n = Returned (take (Z.to_nat n) (drop (Z.to_nat pos) (block p))).
Proof. intros H. unfold load. by rewrite (proj2 (Z.leb_le _ _)). Qed.

(** What a write of [l] at the position makes of the data: it replaces what was
    there and may extend it. *)
Definition overwrite (c : list Z) (pos : Z) (l : list Z) : list Z := take (Z.to_nat pos) c ++ l ++ drop (Z.to_nat pos + length l) c.

Record wrote (p : Parcel) (l : list Z) (p1 : Parcel) : Prop := {
  wr_pos : mDataPos p1 = mDataPos p + Z.of_nat (length l);
  wr_contents : contents p1 = overwrite (contents p) (mDataPos p) l;
  wr_objects : mObjects p1 = mObjects p;
  wr_error : mError p1 = mError p;
  wr_wf : wf p1
}.

Lemma overwrite_take {A} (b l : list A) (pos size : nat) : (pos ≤ size ≤ length b)%nat → (pos + length l ≤ length b)%nat →
  take (Nat.max size (pos + length l)) (take pos b ++ l ++ drop (pos + length l) b) =
  take pos (take size b) ++ l ++ drop (pos + length l) (take size b).
Proof.
  intros Hs Hl. rewrite take_app_ge by (rewrite length_take; lia). rewrite length_take, take_app_ge by lia.
  rewrite take_drop_commute, take_take, !Nat.min_l by lia. do 2 f_equal. destruct (decide (size ≤ pos + length l)%nat).
  - rewrite !drop_ge by (rewrite length_take; lia). done.
  - do 2 f_equal. lia.
Qed.

(** A block that holds [l] at the position, with the rest as it was. *)
Lemma finish_wrote p p1 l : wf p → Z.of_nat (length l) + mDataPos p ≤ mDataCapacity p →
  block p1 = take (Z.to_nat (mDataPos p)) (block p) ++ l ++ drop (Z.to_nat (mDataPos p) + length l) (block p) →
  mDataPos p1 = mDataPos p → mDataSize p1 = mDataSize p → mObjects p1 = mObjects p → mError p1 = mError p →
  wrote p l (finishWrite p1 (Z.of_nat (length l))).
Proof.
  intros Hwf Hl Hb Hpos Hsize Hobj Herr. pose proof Hwf as [Hp Hs Hc].
  assert (mDataCapacity p1 = mDataCapacity p) as Hcap.
  { unfold mDataCapacity in *. rewrite Hb, !length_app, length_take, length_drop. lia. }
  unfold finishWrite. rewrite Hpos, (u32_small (mDataPos p + _)) by lia. set (end_ := mDataPos p + Z.of_nat (length l)).
  cbn [set_pos mDataSize mDataPos]. rewrite Hsize. set (p2 := if mDataSize p <? end_ then _ else _).
  assert (mDataPos p2 = end_ ∧ mDataSize p2 = Z.max (mDataSize p) end_ ∧ block p2 = block p1 ∧ mObjects p2 = mObjects p1 ∧ mError p2 = mError p1) as (E1 & E2 & E3 & E4 & E5).
  { unfold p2. destruct (Z.ltb_spec (mDataSize p) end_); cbn [set_size set_pos mDataPos mDataSize mObjects mError]; rewrite ?Hsize; repeat split; lia. }
  constructor; rewrite ?E1, ?E4, ?E5; try done.
  - unfold contents. rewrite E2, E3, Hb. unfold overwrite, mDataCapacity in *.
    rewrite <- (overwrite_take (block p) l (Z.to_nat (mDataPos p)) (Z.to_nat (mDataSize p))) by lia. f_equal. lia.
  - constructor; rewrite ?E1, ?E2; unfold mDataCapacity in *; rewrite ?E3; lia.
Qed.

Lemma wrote_same p p0 l p1 : wrote p0 l p1 → same_data p p0 → mError p0 = mError p → wrote p l p1.
Proof.
  intros [H1 H2 H3 H4 H5] [S1 S2 S3 S4 S5] He. constructor; [lia|by rewrite H2, S4, S1|congruence..|done].
Qed.

Definition failed (p : Parcel) (al : answer) (p1 : Parcel) : Prop := al = None ∧ same_data p p1 ∧ mError p1 = NO_MEMORY.

(** A write that wrote, or failed for want of memory and left the data. *)
Definition wrote_or_failed (p : Parcel) (l : list Z) (al : answer) (r : outcome (Z * Parcel)) : Prop :=
  (∃ p1, r = Returned (NO_ERROR, p1) ∧ wrote p l p1) ∨ (∃ p1, r = Returned (NO_MEMORY, p1) ∧ failed p al p1).

Lemma store_finish p l : wf p → mDataPos p + Z.of_nat (length l) ≤ mDataCapacity p →
  ∃ p1, store p (mDataPos p) l = Returned p1 ∧ wrote p l (finishWrite p1 (Z.of_nat (length l))).
Proof.
  intros Hwf Hl. destruct (store_ok p (mDataPos p) l) as (p1 & -> & Hb & H1 & H2 & H3 & H4 & _); [apply Hwf|done|].
  exists p1. split; [done|]. apply finish_wrote; try done. lia.
Qed.

Lemma writeAligned_cases n p v al : wf p → small p (Z.of_nat n) →
  wrote_or_failed p (le_bytes n v) al (writeAligned is_fd n p v al).
Proof.
  intros Hwf Hs. unfold writeAligned.
  destruct (with_room_cases p (Z.of_nat n) al (λ p, let! p1 := store p (mDataPos p) (le_bytes n v) in Returned (NO_ERROR, finishWrite p1 (Z.of_nat n)))
    (λ err p, Returned (err, p)) Hwf Hs) as [(p1 & -> & Hsd & He & Hcap & _)|(p1 & -> & Hf)].
  - left. destruct (store_finish p1 (le_bytes n v) (sd_wf _ _ Hsd)) as (p2 & -> & Hw); [by rewrite le_bytes_length|].
    cbn [obind]. rewrite le_bytes_length in Hw. eexists. split; [done|]. by eapply wrote_same.
  - right. exists p1. done.
Qed.

Definition padded (l : list Z) : list Z := l ++ replicate (Z.to_nat (PAD_SIZE (Z.of_nat (length l))) - length l) 0.

Lemma padded_length l : Z.of_nat (length l) < 2 ^ 32 - 3 → Z.of_nat (length (padded l)) = PAD_SIZE (Z.of_nat (length l)).
Proof.
  intros H. destruct (PAD_SIZE_bounds (Z.of_nat (length l)) ltac:(lia)). unfold padded. rewrite length_app, length_replicate. lia.
Qed.

Lemma mask_end_ok p q n : 0 ≤ q → q + 4 ≤ mDataCapacity p → 0 < n < 4 →
  ∃ p1, mask_end p q n = Returned p1 ∧ mDataPos p1 = mDataPos p ∧ mDataSize p1 = mDataSize p ∧ mObjects p1 = mObjects p ∧ mError p1 = mError p ∧
        mDataCapacity p1 = mDataCapacity p ∧ (mData p1 = None ↔ mData p = None) ∧
        take (Z.to_nat (q + 4 - n)) (block p1) = take (Z.to_nat (q + 4 - n)) (block p) ∧
        drop (Z.to_nat (q + 4 - n)) (block p1) = replicate (Z.to_nat n) 0 ++ drop (Z.to_nat (q + 4)) (block p).
Proof.
  intros Hq Hcap Hn. unfold mask_end. rewrite load_ok by done. cbn [obind]. set (w := take (Z.to_nat 4) (drop (Z.to_nat q) (block p))).
  set (l := take (4 - Z.to_nat n) w ++ replicate (Z.to_nat n) 0).
  assert (length w = 4%nat) as Hw by (unfold w, mDataCapacity in *; rewrite length_take, length_drop; lia).
  assert (length l = 4%nat) as Hl by (unfold l; rewrite length_app, length_take, length_replicate; lia).
  destruct (store_ok p q l Hq) as (p1 & -> & Hb & H1 & H2 & H3 & H4 & H5 & H6); [lia|]. exists p1. split; [done|]. repeat (split; [done|]).
  assert (block p1 = take (Z.to_nat (q + 4 - n)) (block p) ++ replicate (Z.to_nat n) 0 ++ drop (Z.to_nat (q + 4)) (block p)) as ->.
  { rewrite Hb, Hl. unfold l. rewrite <- !app_assoc. rewrite app_assoc. f_equal; [|do 2 f_equal; lia].
    unfold w. rewrite take_take, Nat.min_l by lia. replace (Z.to_nat (q + 4 - n)) with (Z.to_nat q + (4 - Z.to_nat n))%nat by lia.
    by rewrite take_take_drop. }
  assert (length (take (Z.to_nat (q + 4 - n)) (block p)) = Z.to_nat (q + 4 - n)) as Ht by (unfold mDataCapacity in *; rewrite length_take; lia).
  split; [by rewrite take_app_length'|by rewrite drop_app_length'].
Qed.

(** A place for [len] bytes: writing them there makes a padded write. *)
Lemma writeInplace_cases p len al : wf p → 0 ≤ len → small p (len + 3) →
  (∃ d p1, writeInplace is_fd p len al = Returned (d, p1) ∧ mError p1 = mError p ∧ match d with Some d => 0 ≤ d | None => len = 0 end ∧
     ∀ l, Z.of_nat (length l) = len → ∃ p2, match d with Some d => store p1 d l | None => Returned p1 end = Returned p2 ∧ wrote p (padded l) p2) ∨
  (∃ p1, writeInplace is_fd p len al = Returned (None, p1) ∧ failed p al p1).
Proof.
  intros Hwf Hlen [_ Hsm]. pose proof Hwf as [Hp Hs Hc]. destruct (PAD_SIZE_bounds len ltac:(lia)) as [HP _]. unfold writeInplace.
  rewrite (u32_small (mDataPos p + _)), (proj2 (Z.ltb_ge _ _)) by lia.
  match goal with |- context [with_room _ _ ?n _ ?k ?f] =>
    destruct (with_room_cases p n al k f Hwf) as [(p1 & -> & Hsd & He & Hcap & _)|(p1 & -> & Hf)]; [split; lia| |right; by exists p1] end.
  left. pose proof (sd_wf _ _ Hsd) as Hwf1. pose proof Hwf1 as [Hp1 Hs1 Hc1]. set (n := PAD_SIZE len) in *. set (pos := mDataPos p1) in *.
  assert (∃ p2, (if negb (n =? len) then mask_end p1 (pos + n - 4) (n - len) else Returned p1) = Returned p2 ∧
    mDataPos p2 = pos ∧ mDataSize p2 = mDataSize p1 ∧ mObjects p2 = mObjects p1 ∧ mError p2 = mError p1 ∧ mDataCapacity p2 = mDataCapacity p1 ∧ (mData p2 = None ↔ mData p1 = None) ∧
    take (Z.to_nat (pos + len)) (block p2) = take (Z.to_nat (pos + len)) (block p1) ∧
    drop (Z.to_nat (pos + len)) (block p2) = replicate (Z.to_nat (n - len)) 0 ++ drop (Z.to_nat (pos + n)) (block p1)) as (p2 & -> & E1 & E2 & E3 & E4 & E5 & E6 & E7 & E8).
  { destruct (Z.eqb_spec n len) as [Heq|Hne]; cbn [negb].
    - exists p1. rewrite <- Heq, Z.sub_diag. done.
    - destruct (mask_end_ok p1 (pos + n - 4) (n - len)) as (p2 & -> & H); [|lia|lia|].
      + assert (n mod 4 = 0) by (unfold n; apply PAD_SIZE_bounds; lia). Z.div_mod_to_equations. lia.
      + exists p2. split; [done|]. replace (pos + n - 4 + 4 - (n - len)) with (pos + len) in H by lia.
        replace (pos + n - 4 + 4) with (pos + n) in H by lia. done. }
  cbn [obind].
  eexists _, _. split; [done|]. split; [unfold finishWrite; cbn; case_match; cbn; congruence|]. split.
  { destruct (mData p2) eqn:Hd; [lia|]. assert (mDataCapacity p2 = 0) as H0 by (unfold mDataCapacity, block; by rewrite Hd). lia. }
  intros l Hl. assert (length (padded l) = Z.to_nat n) as Hpl by (pose proof (padded_length l ltac:(lia)) as H; rewrite Hl in H; fold n in H; lia).
  destruct (mData p2) as [d2|] eqn:Hd.
  - set (p3 := set_data p2 (take (Z.to_nat pos) d2 ++ l ++ drop (Z.to_nat pos + length l) d2)).
    assert (store (finishWrite p2 n) pos l = Returned (finishWrite p3 n)) as ->.
    { unfold store. assert (mDataCapacity (finishWrite p2 n) = mDataCapacity p2) as -> by (unfold finishWrite; cbn; by case_match).
      rewrite (proj2 (Z.leb_le _ _)) by lia. assert (mData (finishWrite p2 n) = Some d2) as -> by (unfold finishWrite; cbn; by case_match).
      f_equal. unfold finishWrite, p3. cbn. by case_match. }
    eexists. split; [done|]. apply (wrote_same p p1); [|done|done]. replace n with (Z.of_nat (length (padded l))) by lia.
    assert (block p2 = d2) as Hb2 by (unfold block; by rewrite Hd). rewrite Hb2 in E7, E8.
    apply finish_wrote; [done|fold pos; lia| |done..]. unfold p3, block at 1. cbn [set_data mData]. fold pos. rewrite Hpl.
    replace (Z.to_nat pos + length l)%nat with (Z.to_nat (pos + len)) by lia. rewrite E8. unfold padded. rewrite Hl. fold n.
    replace (Z.to_nat n - length l)%nat with (Z.to_nat (n - len)) by lia. replace (Z.to_nat pos + Z.to_nat n)%nat with (Z.to_nat (pos + n)) by lia.
    rewrite <- app_assoc. f_equal. apply (f_equal (take (Z.to_nat pos))) in E7. rewrite !take_take, !Nat.min_l in E7 by lia. done.
  - assert (mDataCapacity p2 = 0) as H0 by (unfold mDataCapacity, block; by rewrite Hd). assert (len = 0 ∧ n = 0 ∧ pos = 0) as (-> & Hn0 & Hpos0) by lia.
    destruct l; [|cbn [length] in Hl; lia]. eexists. split; [done|]. apply (wrote_same p p1); [|done|done].
    assert (padded [] = []) as -> by done. rewrite Hn0. change 0 with (Z.of_nat (length (@nil Z))) at 1.
    apply finish_wrote; [done|fold pos; cbn; lia| |done..]. fold pos. rewrite Hpos0. cbn. rewrite drop_0.
    unfold block. assert (mData p1 = None) as -> by by apply E6. by rewrite Hd.
Qed.

Lemma wrote_size p l p1 : wf p → wrote p l p1 → mDataSize p ≤ mDataSize p1 ≤ mDataSize p + Z.of_nat (length l).
Proof.
  intros Hwf [H1 H2 _ _ H5]. pose proof (contents_length _ Hwf) as Hl. pose proof (contents_length _ H5) as Hl1. pose proof (wf_pos _ Hwf).
  rewrite H2 in Hl1. unfold overwrite in Hl1. rewrite !length_app, length_take, length_drop in Hl1. lia.
Qed.

Lemma wrote_wrote p a p1 b p2 : wf p → wrote p a p1 → wrote p1 b p2 → wrote p (a ++ b) p2.
Proof.
  intros Hwf [A1 A2 A3 A4 A5] [B1 B2 B3 B4 B5]. pose proof (contents_length _ Hwf) as Hl. pose proof (wf_pos _ Hwf).
  constructor; [rewrite length_app; lia| |congruence..|done]. rewrite B2, A2, A1. unfold overwrite. rewrite length_app, <- app_assoc.
  rewrite take_app_ge by (rewrite length_take; lia). rewrite length_take.
  replace (Z.to_nat (mDataPos p + Z.of_nat (length a)) - Nat.min (Z.to_nat (mDataPos p)) (length (contents p)))%nat with (length a) by lia.
  rewrite take_app_length, <- app_assoc. do 2 f_equal. f_equal. rewrite app_assoc, drop_app_ge by (rewrite length_app, length_take; lia).
  rewrite length_app, length_take, drop_drop. f_equal. lia.
Qed.

(** The data of a write that failed is the same up to the position. *)
Definition ok_or_failed (p : Parcel) (l : list Z) (als : list answer) (r : outcome (Z * Parcel)) : Prop :=
  (∃ p1, r = Returned (NO_ERROR, p1) ∧ wrote p l p1) ∨
  (∃ p1, r = Returned (NO_MEMORY, p1) ∧ None ∈ als ∧ wf p1 ∧ take (Z.to_nat (mDataPos p)) (contents p1) = take (Z.to_nat (mDataPos p)) (contents p)).

Lemma ok_or_failed_one p l al als r : wrote_or_failed p l al r → al ∈ als → ok_or_failed p l als r.
Proof.
  intros [H|(p1 & Hr & -> & Hsd & _)] Hin; [by left|right]. exists p1. split; [done|]. split; [done|].
  split; [apply Hsd|by rewrite (sd_contents _ _ Hsd)].
Qed.

Lemma ok_or_failed_next p a p1 b als r : wf p → wrote p a p1 → ok_or_failed p1 b als r → ok_or_failed p (a ++ b) als r.
Proof.
  intros Hwf Ha [(p2 & Hr & Hb)|(p2 & Hr & Hal & Hwf2 & Hc)]; [left|right]; exists p2; split; [done|by eapply wrote_wrote|done|].
  split; [done|]. split; [done|]. pose proof (wr_pos _ _ _ Ha) as Hpos. pose proof (wf_pos _ Hwf).
  apply (f_equal (take (Z.to_nat (mDataPos p)))) in Hc. rewrite !take_take, !Nat.min_l in Hc by lia. rewrite Hc.
  rewrite (wr_contents _ _ _ Ha). unfold overwrite. pose proof (contents_length _ Hwf).
  by rewrite take_app_le, take_take, Nat.min_id by (rewrite length_take; lia).
Qed.

Lemma write_cases p l al : wf p → mError p = NO_ERROR → small p (Z.of_nat (length l) + 3) →
  wrote_or_failed p (padded l) al (write is_fd p l al).
Proof.
  intros Hwf He Hs. unfold write.
  destruct (writeInplace_cases p (Z.of_nat (length l)) al Hwf ltac:(lia) Hs) as [(d & p1 & -> & He1 & Hd & Hst)|(p1 & -> & Hf)]; cbn [obind].
  - destruct (Hst l eq_refl) as (p2 & Hp2 & Hw). left. exists p2. destruct d as [d|].
    + by rewrite Hp2.
    + injection Hp2 as <-. by rewrite He1, He.
  - right. exists p1. destruct Hf as (Ha & Hsd & Hm). by rewrite Hm.
Qed.

(** ** Sequences of values *)

Inductive value :=
  | VInt32 (z : Z) | VInt64 (z : Z) | VBytes (l : list Z) | VCString (s : cstring) | VString8 (s : list Z) | VString16 (s : list Z).

(** [VBytes] is the data of [write], whose length the reader has to know. *)
Definition encode (v : value) : list Z :=
  match v with
  | VInt32 z => le_bytes 4 z
  | VInt64 z => le_bytes 8 z
  | VBytes l => padded l
  | VCString s => padded (s ++ [0])
  | VString8 s => le_bytes 4 (Z.of_nat (length s)) ++ (if bool_decide (s = []) then [] else padded (s ++ [0]))
  | VString16 s => le_bytes 4 (Z.of_nat (length s)) ++ padded (units_bytes s ++ [0; 0])
  end.

Definition write_value (p : Parcel) (v : value) (al al2 : answer) : outcome (Z * Parcel) :=
  match v with
  | VInt32 z => writeInt32 is_fd p z al
  | VInt64 z => writeInt64 is_fd p z al
  | VBytes l => write is_fd p l al
  | VCString s => writeCString is_fd p s al
  | VString8 s => writeString8 is_fd p s al al2
  | VString16 s => writeString16 is_fd p (Some s) al al2
  end.

Lemma units_bytes_length l : length (units_bytes l) = (2 * length l)%nat.
Proof. unfold units_bytes. induction l as [|u l IH]; [done|]. cbn [fmap list_fmap concat]. rewrite length_app, IH, le_bytes_length. cbn. lia. Qed.

Lemma store_adjacent p pos l k p1 p2 : 0 ≤ pos → store p pos l = Returned p1 → store p1 (pos + Z.of_nat (length l)) k = Returned p2 →
  store p pos (l ++ k) = Returned p2.
Proof.
  intros Hpos. unfold store. destruct (Z.leb_spec (pos + Z.of_nat (length l)) (mDataCapacity p)) as [H1|]; [|done]. intros [= <-].
  destruct (mData p) as [d|] eqn:Hd.
  - unfold mDataCapacity at 1, block. cbn [set_data mData]. unfold mDataCapacity, block in *. rewrite Hd in *.
    rewrite !length_app, length_take, length_drop. destruct (Z.leb_spec (pos + Z.of_nat (length l) + Z.of_nat (length k)) (Z.of_nat (Nat.min (Z.to_nat pos) (length d) + (length l + (length d - (Z.to_nat pos + length l)))))) as [H2|]; [|done].
    intros [= <-]. rewrite (proj2 (Z.leb_le _ _)) by lia. f_equal. unfold set_data. cbn. f_equal. f_equal.
    set (X := take (Z.to_nat pos) d ++ l). set (Y := drop (Z.to_nat pos + length l) d).
    assert (Z.to_nat (pos + Z.of_nat (length l)) = length X) as -> by (unfold X; rewrite length_app, length_take; lia).
    replace (take (Z.to_nat pos) d ++ l ++ Y) with (X ++ Y) by (unfold X; by rewrite <- app_assoc).
    rewrite take_app_length, drop_app_add. unfold X, Y. rewrite drop_drop, <- !app_assoc. do 3 f_equal. f_equal. lia.
  - unfold mDataCapacity, block in *. rewrite Hd in *. cbn [length] in *. assert (pos = 0) as -> by lia. destruct l; [|cbn [length] in *; lia].
    cbn [app length]. rewrite Z.add_0_r. done.
Qed.

Lemma store_split p pos l k p2 : 0 ≤ pos → store p pos (l ++ k) = Returned p2 →
  ∃ p1, store p pos l = Returned p1 ∧ store p1 (pos + Z.of_nat (length l)) k = Returned p2.
Proof.
  intros Hpos Hs. assert (pos + Z.of_nat (length (l ++ k)) ≤ mDataCapacity p) as Hcap.
  { revert Hs. unfold store. by destruct (Z.leb_spec (pos + Z.of_nat (length (l ++ k))) (mDataCapacity p)). }
  rewrite length_app in Hcap. destruct (store_ok p pos l Hpos) as (p1 & H1 & _ & _ & _ & _ & _ & Hc1 & _); [lia|].
  destruct (store_ok p1 (pos + Z.of_nat (length l)) k) as (p3 & H3 & _); [lia|lia|]. exists p1. split; [done|].
  rewrite (store_adjacent _ _ _ _ _ _ Hpos H1 H3) in Hs. congruence.
Qed.

Lemma writeString16_cases p l al al2 : wf p → small p (Z.of_nat (length l) * 2 + 12) →
  ok_or_failed p (le_bytes 4 (Z.of_nat (length l)) ++ padded (units_bytes l ++ [0; 0])) [al; al2] (writeString16 is_fd p (Some l) al al2).
Proof.
  intros Hwf [_ Hs]. pose proof Hwf as [Hp _ _]. unfold writeString16, writeInt32.
  destruct (writeAligned_cases 4 p (Z.of_nat (length l)) al Hwf) as [(p1 & -> & Hw)|(p1 & -> & Hf)]; [split; cbn; lia| |].
  2: { cbn [obind]. apply (ok_or_failed_one _ _ al); [right; by exists p1|by left]. }
  cbn [obind]. rewrite Z.eqb_refl. pose proof (wrote_size _ _ _ Hwf Hw) as Hsz. rewrite le_bytes_length in Hsz.
  apply (ok_or_failed_next _ _ _ _ _ _ Hwf Hw). rewrite !u32_small by (rewrite ?u32_small by lia; lia).
  destruct (writeInplace_cases p1 (Z.of_nat (length l) * 2 + 2) al2 (wr_wf _ _ _ Hw)) as [(d & p2 & -> & He1 & Hd & Hst)|(p2 & -> & Hf)]; [lia|split; lia| |]; cbn [obind].
  2: { destruct Hf as (-> & Hsd & Hm). apply (ok_or_failed_one _ _ None); [|by right; left]. right. exists p2. by rewrite Hm. }
  destruct d as [d|]; [|lia]. assert (length (units_bytes l) = (2 * length l)%nat) as Hul by apply units_bytes_length.
  destruct (Hst (units_bytes l ++ [0; 0])) as (p3 & Hp3 & Hw3); [rewrite length_app; cbn [length]; lia|].
  destruct (store_split _ _ _ _ _ Hd Hp3) as (p4 & H4 & H5). rewrite take_ge by lia. rewrite H4. cbn [obind].
  replace (d + Z.of_nat (length l) * 2) with (d + Z.of_nat (length (units_bytes l))) by lia. rewrite H5. cbn [obind].
  left. by exists p3.
Qed.

(** Room for a value. *)
Definition roomy (p : Parcel) (n : Z) : Prop := (mDataSize p + n + 8) * 3 < 2 ^ 32.

Lemma write_value_cases p v al al2 : wf p → mError p = NO_ERROR → roomy p (Z.of_nat (length (encode v))) →
  ok_or_failed p (encode v) [al; al2] (write_value p v al al2).
Proof.
  intros Hwf He Hr. unfold roomy in Hr. pose proof (wf_pos _ Hwf). assert (∀ l, Z.of_nat (length l) ≤ Z.of_nat (length (padded l))) as Hpad.
  { intros l. unfold padded. rewrite length_app. lia. }
  destruct v; cbn [write_value encode] in *.
  - apply (ok_or_failed_one _ _ al); [|by left]. apply writeAligned_cases; [done|]. rewrite le_bytes_length in Hr. split; lia.
  - apply (ok_or_failed_one _ _ al); [|by left]. apply writeAligned_cases; [done|]. rewrite le_bytes_length in Hr. split; lia.
  - apply (ok_or_failed_one _ _ al); [|by left]. apply write_cases; [done..|]. specialize (Hpad l). split; lia.
  - apply (ok_or_failed_one _ _ al); [|by left]. apply write_cases; [done..|]. specialize (Hpad (s ++ [0])). split; lia.
  - rewrite length_app, le_bytes_length in Hr. unfold writeString8, writeInt32.
    destruct (writeAligned_cases 4 p (Z.of_nat (length s)) al Hwf) as [(p1 & -> & Hw)|(p1 & -> & Hf)]; [split; lia| |]; cbn [obind].
    2: { rewrite andb_false_r. apply (ok_or_failed_one _ _ al); [right; by exists p1|by left]. }
    rewrite Z.eqb_refl, andb_true_r. pose proof (wrote_size _ _ _ Hwf Hw) as Hsz. rewrite le_bytes_length in Hsz.
    case_bool_decide as Hs0.
    + subst s. cbn [length Z.of_nat Z.ltb Z.compare]. rewrite app_nil_r. left. by exists p1.
    + rewrite (proj2 (Z.ltb_lt _ _)) by (destruct s; [done|cbn; lia]). apply (ok_or_failed_next _ _ _ _ _ _ Hwf Hw).
      apply (ok_or_failed_one _ _ al2); [|by right; left]. specialize (Hpad (s ++ [0])).
      apply write_cases; [apply Hw|by rewrite (wr_error _ _ _ Hw)|split; lia].
  - specialize (Hpad (units_bytes s ++ [0; 0])). rewrite length_app, le_bytes_length in Hr. rewrite !length_app, units_bytes_length in Hpad. cbn [length] in Hpad.
    apply writeString16_cases; [done|split; lia].
Qed.

End writing.
(** ** Reading what was written *)

(** The data from the position on. *)
Definition at_data (p : Parcel) (k : list Z) : Prop := wf p ∧ drop (Z.to_nat (mDataPos p)) (contents p) = k.

Lemma at_size p k : at_data p k → mDataSize p = mDataPos p + Z.of_nat (length k).
Proof.
  intros [Hwf <-]. pose proof (contents_length _ Hwf). pose proof (wf_pos _ Hwf). rewrite length_drop. lia.
Qed.

Lemma load_at p l k n : at_data p (l ++ k) → n = Z.of_nat (length l) → load p (mDataPos p) n = Returned l.
Proof.
  intros Hat ->. pose proof (at_size _ _ Hat) as Hs. destruct Hat as [Hwf Hd]. pose proof (wf_pos _ Hwf). pose proof (wf_size _ Hwf).
  rewrite length_app in Hs. rewrite load_ok by lia. f_equal. rewrite Nat2Z.id. unfold contents in Hd.
  transitivity (take (length l) (drop (Z.to_nat (mDataPos p)) (take (Z.to_nat (mDataSize p)) (block p)))).
  - rewrite !take_drop_commute, take_take. do 2 f_equal. lia.
  - rewrite Hd. apply take_app_length.
Qed.

Lemma at_advance p l k : at_data p (l ++ k) → at_data (set_pos p (mDataPos p + Z.of_nat (length l))) k.
Proof.
  intros Hat. pose proof (at_size _ _ Hat) as Hs. destruct Hat as [Hwf Hd]. pose proof Hwf as [Hp Hsz Hc]. rewrite length_app in Hs. split.
  - constructor; [cbn [set_pos mDataPos mDataSize]; lia|exact Hsz|exact Hc].
  - cbn [set_pos mDataPos]. change (contents (set_pos p _)) with (contents p).
    replace (Z.to_nat (mDataPos p + Z.of_nat (length l))) with (Z.to_nat (mDataPos p) + length l)%nat by lia.
    by rewrite <- drop_drop, Hd, drop_app_length.
Qed.

Lemma readAligned_at n p v k : at_data p (le_bytes n v ++ k) →
  ∃ p1, readAligned n p = Returned (Some (v mod 2 ^ (8 * Z.of_nat n)), p1) ∧ at_data p1 k ∧ p1 = set_pos p (mDataPos p1).
Proof.
  intros Hat. pose proof (at_size _ _ Hat) as Hs. pose proof (proj1 Hat) as [Hp Hsz Hc]. rewrite length_app, le_bytes_length in Hs.
  unfold readAligned. rewrite u32_small by lia. rewrite (proj2 (Z.leb_le _ _)) by lia.
  rewrite (load_at p (le_bytes n v) k) by (done || by rewrite le_bytes_length). cbn [obind]. rewrite le_le_bytes.
  eexists. split; [done|]. split; [|done]. pose proof (at_advance _ _ _ Hat) as H. by rewrite le_bytes_length in H.
Qed.

Lemma s32_mod_id z : -2 ^ 31 ≤ z < 2 ^ 31 → s32 (z mod 2 ^ 32) = z.
Proof. intros Hz. unfold s32. rewrite Zplus_mod_idemp_l, Z.mod_small by lia. lia. Qed.
Lemma s64_mod_id z : -2 ^ 63 ≤ z < 2 ^ 63 → s64 (z mod 2 ^ 64) = z.
Proof. intros Hz. unfold s64. rewrite Zplus_mod_idemp_l, Z.mod_small by lia. lia. Qed.

Lemma readInt32_at p z k : at_data p (le_bytes 4 z ++ k) → -2 ^ 31 ≤ z < 2 ^ 31 →
  ∃ p1, readInt32 p = Returned (z, p1) ∧ at_data p1 k ∧ p1 = set_pos p (mDataPos p1).
Proof.
  intros Hat Hz. destruct (readAligned_at 4 p z k Hat) as (p1 & H & Hat1 & Hp1). exists p1. unfold readInt32. rewrite H. cbn [obind default].
  split; [|done]. do 2 f_equal. by apply s32_mod_id.
Qed.

(** A padded text at the position. *)
Lemma read_room_at p l k : at_data p (padded l ++ k) → Z.of_nat (length l) < 2 ^ 31 →
  read_room p (Z.of_nat (length l)) = true ∧ at_data (set_pos p (u32 (mDataPos p + PAD_SIZE (Z.of_nat (length l))))) k ∧
  at_data p (l ++ replicate (length (padded l) - length l) 0 ++ k).
Proof.
  intros Hat Hl. pose proof (at_size _ _ Hat) as Hs. pose proof (proj1 Hat) as [Hp Hsz Hc]. rewrite length_app in Hs.
  pose proof (padded_length l ltac:(lia)) as Hpl. destruct (PAD_SIZE_bounds (Z.of_nat (length l)) ltac:(lia)) as [Hb _].
  unfold read_room. rewrite u32_small by lia. rewrite !(proj2 (Z.leb_le _ _)) by lia. split; [done|]. rewrite <- Hpl. split.
  - by apply at_advance.
  - rewrite app_assoc. replace (l ++ replicate (length (padded l) - length l) 0) with (padded l); [done|].
    unfold padded at 1. do 2 f_equal. lia.
Qed.

Lemma memchr0_found s k n : no_nul s → (length s < n)%nat → memchr0 (s ++ 0 :: k) n = Returned (Some (length s)).
Proof.
  intros Hs. revert n. induction Hs as [|c s Hc Hs IH]; intros n Hn; (destruct n as [|n]; [cbn in Hn; lia|]); cbn [app memchr0]; [done|].
  rewrite (proj2 (Z.eqb_neq c 0) Hc), IH by (cbn in Hn; lia). done.
Qed.

(** The block from the position on begins with the data. *)
Lemma at_block p k : at_data p k → ∃ rest, drop (Z.to_nat (mDataPos p)) (block p) = k ++ rest.
Proof.
  intros [Hwf <-]. unfold contents. exists (drop (Z.to_nat (mDataSize p)) (block p)). pose proof (wf_pos _ Hwf).
  rewrite <- (take_drop (Z.to_nat (mDataSize p)) (block p)) at 1. pose proof (contents_length _ Hwf) as Hl. unfold contents in Hl.
  rewrite drop_app_le by lia. done.
Qed.

Lemma readCString_at p s k : at_data p (padded (s ++ [0]) ++ k) → no_nul s → Z.of_nat (length s) < 2 ^ 30 →
  ∃ p1, readCString p = Returned (Some s, p1) ∧ at_data p1 k ∧ p1 = set_pos p (mDataPos p1).
Proof.
  intros Hat Hs Hl. pose proof (at_size _ _ Hat) as Hsize. pose proof (proj1 Hat) as [Hp Hsz Hc]. rewrite length_app in Hsize.
  assert (Z.of_nat (length (s ++ [0])) = Z.of_nat (length s) + 1) as Hlen by (rewrite length_app; cbn; lia).
  pose proof (padded_length (s ++ [0]) ltac:(lia)) as Hpl. destruct (PAD_SIZE_bounds (Z.of_nat (length s) + 1) ltac:(lia)) as [Hb _]. rewrite Hlen in Hpl.
  destruct (read_room_at p (s ++ [0]) k Hat ltac:(lia)) as (_ & Hat1 & _). rewrite Hlen in Hat1.
  unfold readCString. rewrite u32_small by lia. rewrite (proj2 (Z.ltb_lt _ _)) by lia.
  destruct (at_block _ _ Hat) as [rest Hrest]. rewrite Hrest. unfold padded at 1. rewrite <- !app_assoc. cbn [app].
  rewrite memchr0_found by (done || lia). cbn [obind]. eexists. split; [|split; [exact Hat1|done]].
  do 3 f_equal. unfold padded. rewrite <- !app_assoc. apply take_app_length.
Qed.

Lemma readString8_at p s k : at_data p (encode (VString8 s) ++ k) → Z.of_nat (length s) < 2 ^ 30 →
  ∃ p1, readString8 p = Returned (s, p1) ∧ at_data p1 k ∧ p1 = set_pos p (mDataPos p1).
Proof.
  intros Hat Hl. cbn [encode] in Hat. rewrite <- app_assoc in Hat. unfold readString8.
  destruct (readInt32_at p _ _ Hat) as (p1 & -> & Hat1 & Hp1); [lia|]. cbn [obind]. case_bool_decide as Hs0.
  - subst s. cbn. by exists p1.
  - rewrite (proj2 (Z.ltb_lt 0 _)) by (destruct s; [done|cbn; lia]). rewrite (proj2 (Z.ltb_lt _ INT32_MAX)) by (unfold INT32_MAX; lia). cbn [andb].
    rewrite u32_small by lia. assert (Z.of_nat (length (s ++ [0])) = Z.of_nat (length s) + 1) as Hlen by (rewrite length_app; cbn; lia).
    destruct (read_room_at p1 (s ++ [0]) k Hat1 ltac:(lia)) as (Hroom & Hat2 & Hat3). unfold readInplace. rewrite <- Hlen, Hroom.
    rewrite <- !app_assoc in Hat3. set (p2 := set_pos p1 _) in *. change (load p2 (mDataPos p1)) with (load p1 (mDataPos p1)).
    rewrite (load_at p1 s _ _ Hat3 eq_refl). cbn [obind]. exists p2. split; [done|]. split; [done|]. unfold p2. by rewrite Hp1.
Qed.

Definition unit_ok (u : Z) : Prop := 0 ≤ u < 2 ^ 16.

Lemma bytes_units_bytes l : Forall unit_ok l → bytes_units (units_bytes l) = l.
Proof.
  induction 1 as [|u l Hu Hl IH]; [done|]. change (units_bytes (u :: l)) with (le_bytes 2 u ++ units_bytes l).
  cbn [le_bytes app bytes_units]. rewrite IH.
  f_equal. change [u mod 2 ^ 8; u / 2 ^ 8 mod 2 ^ 8] with (le_bytes 2 u). rewrite le_le_bytes. by apply Z.mod_small.
Qed.

Lemma readString16_at p s k : at_data p (encode (VString16 s) ++ k) → Forall unit_ok s → Z.of_nat (length s) < 2 ^ 29 →
  ∃ p1, readString16 p = Returned (s, p1) ∧ at_data p1 k ∧ p1 = set_pos p (mDataPos p1).
Proof.
  intros Hat Hs Hl. cbn [encode] in Hat. rewrite <- app_assoc in Hat. unfold readString16.
  destruct (readInt32_at p _ _ Hat) as (p1 & -> & Hat1 & Hp1); [lia|]. cbn [obind].
  rewrite (proj2 (Z.leb_le 0 _)) by lia. rewrite (proj2 (Z.ltb_lt _ INT32_MAX)) by (unfold INT32_MAX; lia). cbn [andb].
  rewrite u32_small by lia. pose proof (units_bytes_length s) as Hul.
  assert (Z.of_nat (length (units_bytes s ++ [0; 0])) = (Z.of_nat (length s) + 1) * 2) as Hlen by (rewrite length_app; cbn [length]; lia).
  destruct (read_room_at p1 (units_bytes s ++ [0; 0]) k Hat1 ltac:(lia)) as (Hroom & Hat2 & Hat3). unfold readInplace. rewrite <- Hlen, Hroom.
  rewrite <- !app_assoc in Hat3. set (p2 := set_pos p1 _) in *. change (load p2 (mDataPos p1)) with (load p1 (mDataPos p1)).
  rewrite (load_at p1 (units_bytes s) _ _ Hat3) by lia. cbn [obind]. rewrite bytes_units_bytes by done.
  exists p2. split; [done|]. split; [done|]. unfold p2. by rewrite Hp1.
Qed.

(** The kinds of values, as the reader knows them. *)
Inductive shape := SInt32 | SInt64 | SBytes (n : Z) | SCString | SString8 | SString16.
Definition shape_of (v : value) : shape :=
  match v with
  | VInt32 _ => SInt32 | VInt64 _ => SInt64 | VBytes l => SBytes (Z.of_nat (length l))
  | VCString _ => SCString | VString8 _ => SString8 | VString16 _ => SString16
  end.

Definition read_value (p : Parcel) (s : shape) : outcome (option value * Parcel) :=
  match s with
  | SInt32 => let! (z, p1) := readInt32 p in Returned (Some (VInt32 z), p1)
  | SInt64 => let! (z, p1) := readInt64 p in Returned (Some (VInt64 z), p1)
  | SBytes n => let! (err, l, p1) := read p n in Returned (if err =? NO_ERROR then Some (VBytes l) else None, p1)
  | SCString => let! (r, p1) := readCString p in Returned (VCString <$> r, p1)
  | SString8 => let! (l, p1) := readString8 p in Returned (Some (VString8 l), p1)
  | SString16 => let! (l, p1) := readString16 p in Returned (Some (VString16 l), p1)
  end.

Fixpoint read_all (p : Parcel) (l : list shape) : outcome (list (option value) * Parcel) :=
  match l with
  | [] => Returned ([], p)
  | s :: l => let! (v, p1) := read_value p s in let! (vs, p2) := read_all p1 l in Returned (v :: vs, p2)
  end.

(** Writing until something fails. *)
Fixpoint write_all (is_fd : Z → bool) (p : Parcel) (ws : list (value * answer * answer)) : outcome (Z * Parcel) :=
  match ws with
  | [] => Returned (NO_ERROR, p)
  | (v, al, al2) :: ws =>
      let! (err, p1) := write_value is_fd p v al al2 in if err =? NO_ERROR then write_all is_fd p1 ws else Returned (err, p1)
  end.

Definition value_ok (v : value) : Prop :=
  match v with
  | VInt32 z => -2 ^ 31 ≤ z < 2 ^ 31
  | VInt64 z => -2 ^ 63 ≤ z < 2 ^ 63
  | VCString s => no_nul s
  | VString16 s => Forall unit_ok s
  | _ => True
  end.

Lemma read_value_at p v k : at_data p (encode v ++ k) → value_ok v → Z.of_nat (length (encode v)) < 2 ^ 30 →
  ∃ p1, read_value p (shape_of v) = Returned (Some v, p1) ∧ at_data p1 k ∧ p1 = set_pos p (mDataPos p1).
Proof.
  intros Hat Hv Hl. assert (∀ l, Z.of_nat (length l) ≤ Z.of_nat (length (padded l))) as Hpad.
  { intros l. unfold padded. rewrite length_app. lia. }
  destruct v; cbn [encode value_ok shape_of read_value] in *.
  - destruct (readInt32_at p z k Hat Hv) as (p1 & -> & H). by exists p1.
  - destruct (readAligned_at 8 p z k Hat) as (p1 & H & Hat1). exists p1. unfold readInt64. rewrite H. cbn [obind default].
    split; [|done]. do 3 f_equal. by rewrite <- (s64_mod_id z Hv) at 2.
  - specialize (Hpad l). destruct (read_room_at p l k Hat ltac:(lia)) as (Hroom & Hat1 & Hat2). unfold read. rewrite Hroom.
    rewrite (load_at p l _ _ Hat2 eq_refl). cbn [obind]. eexists. split; [done|]. split; [exact Hat1|done].
  - specialize (Hpad (s ++ [0])). rewrite !length_app in Hpad. cbn [length] in Hpad.
    destruct (readCString_at p s k Hat Hv) as (p1 & -> & H); [lia|]. by exists p1.
  - rewrite length_app, le_bytes_length in Hl. destruct (readString8_at p s k Hat) as (p1 & -> & H); [|by exists p1].
    specialize (Hpad (s ++ [0])). case_bool_decide; [subst; cbn; lia|]. rewrite !length_app in Hpad. cbn [length] in Hpad. lia.
  - rewrite length_app, le_bytes_length in Hl. specialize (Hpad (units_bytes s ++ [0; 0])).
    rewrite !length_app, units_bytes_length in Hpad. cbn [length] in Hpad.
    destruct (readString16_at p s k Hat Hv) as (p1 & -> & H); [lia|]. by exists p1.
Qed.

Definition text_of (vs : list value) : list Z := concat (encode <$> vs).

Lemma read_all_at vs : ∀ p k, at_data p (text_of vs ++ k) → Forall value_ok vs → Z.of_nat (length (text_of vs)) < 2 ^ 30 →
  ∃ p1, read_all p (shape_of <$> vs) = Returned (Some <$> vs, p1) ∧ at_data p1 k.
Proof.
  induction vs as [|v vs IH]; intros p k Hat Hok Hl; [by exists p|]. apply Forall_cons in Hok as [Hv Hok].
  change (text_of (v :: vs)) with (encode v ++ text_of vs) in *. rewrite <- app_assoc in Hat. rewrite length_app in Hl.
  destruct (read_value_at p v _ Hat Hv ltac:(lia)) as (p1 & H1 & Hat1 & _). rewrite !fmap_cons. cbn [read_all]. rewrite H1. cbn [obind].
  destruct (IH p1 k Hat1 Hok ltac:(lia)) as (p2 & H2 & Hat2). rewrite H2. by exists p2.
Qed.

(** Writing at the end of the data. *)
Lemma write_all_appends is_fd ws : ∀ p, wf p → mError p = NO_ERROR → mDataPos p = mDataSize p →
  roomy p (Z.of_nat (length (text_of ws.*1.*1))) →
  (∃ p1, write_all is_fd p ws = Returned (NO_ERROR, p1) ∧ wf p1 ∧ contents p1 = contents p ++ text_of ws.*1.*1) ∨
  (∃ p1, write_all is_fd p ws = Returned (NO_MEMORY, p1) ∧ ∃ w, w ∈ ws ∧ None ∈ [w.1.2; w.2]).
Proof.
  induction ws as [|[[v al] al2] ws IH]; intros p Hwf He Hend Hr; cbn [write_all]; [left; exists p; by rewrite app_nil_r|].
  rewrite !fmap_cons in *. cbn [fst] in *. change (text_of (v :: ws.*1.*1)) with (encode v ++ text_of ws.*1.*1) in *. rewrite length_app in Hr. unfold roomy in *.
  destruct (write_value_cases is_fd p v al al2 Hwf He) as [(p1 & -> & Hw)|(p1 & -> & Hal & _)]; [unfold roomy; lia| |]; cbn [obind].
  2: { right. exists p1. split; [done|]. eexists. split; [by left|done]. }
  rewrite Z.eqb_refl. pose proof (contents_length _ Hwf) as Hlen. assert (contents p1 = contents p ++ encode v) as Hc.
  { rewrite (wr_contents _ _ _ Hw). unfold overwrite. rewrite take_ge by lia. rewrite drop_ge by lia. by rewrite app_nil_r. }
  assert (mDataSize p1 = mDataPos p1) as Hend1.
  { pose proof (contents_length _ (wr_wf _ _ _ Hw)) as H1. rewrite Hc, length_app in H1. rewrite (wr_pos _ _ _ Hw). lia. }
  pose proof (wrote_size _ _ _ Hwf Hw).
  destruct (IH p1 (wr_wf _ _ _ Hw)) as [(p2 & H2 & Hwf2 & Hc2)|(p2 & H2 & w & Hin & Hnone)]; [by rewrite (wr_error _ _ _ Hw)|done|lia|left|right]; exists p2.
  - split; [done|]. split; [done|]. by rewrite Hc2, Hc, <- app_assoc.
  - split; [done|]. exists w. split; [by right|done].
Qed.

(** C29: values written into an empty parcel, with whatever answers of the
    allocations, are read back from its start as they were; writing fails only
    when an allocation does. *)
Theorem parcel_roundtrip is_fd ws : Forall value_ok ws.*1.*1 → Z.of_nat (length (text_of ws.*1.*1)) < 2 ^ 30 →
  (∃ p, write_all is_fd initState ws = Returned (NO_ERROR, p) ∧ mDataSize p = Z.of_nat (length (text_of ws.*1.*1)) ∧
        ∃ p1, read_all (setDataPosition p 0) (shape_of <$> ws.*1.*1) = Returned (Some <$> ws.*1.*1, p1) ∧ dataAvail p1 = 0) ∨
  (∃ p, write_all is_fd initState ws = Returned (NO_MEMORY, p) ∧ ∃ w, w ∈ ws ∧ None ∈ [w.1.2; w.2]).
Proof.
  intros Hok Hl. destruct (write_all_appends is_fd ws initState wf_init eq_refl eq_refl) as [(p & Hw & Hwf & Hc)|H]; [unfold roomy; cbn [initState mDataSize]; lia| |by right].
  left. exists p. split; [done|]. change (contents initState) with (@nil Z) in Hc. cbn [app] in Hc. pose proof (contents_length _ Hwf) as Hlen.
  rewrite Hc in Hlen. split; [done|]. destruct (read_all_at ws.*1.*1 (setDataPosition p 0) []) as (p1 & Hr & Hat); [|done|done|].
  - rewrite app_nil_r. split; [|by rewrite <- Hc]. destruct Hwf as [H1 H2 H3]. constructor; [cbn; lia|exact H2|exact H3].
  - exists p1. split; [done|]. pose proof (at_size _ _ Hat) as Hs. cbn [length] in Hs. unfold dataAvail, dataSize.
    rewrite Hs, Z.add_0_r, Z.ltb_irrefl, Z.sub_diag. done.
Qed.

Lemma parcel_roundtrip_witness :
  let some := Some (λ _, 170) in
  let ws := [(VInt32 (-5), some, some); (VString16 [104; 105; 8364], some, some); (VBytes [1; 2; 3; 4; 5], some, some); (VString8 [], some, some);
             (VCString (bytes "abc"), some, some); (VInt64 (2 ^ 40), some, some); (VString8 (bytes "x"), some, some)] in
  Forall value_ok ws.*1.*1 ∧ Z.of_nat (length (text_of ws.*1.*1)) < 2 ^ 30 ∧
  ((∃ p, write_all (λ _, false) initState ws = Returned (NO_ERROR, p) ∧ mDataSize p = Z.of_nat (length (text_of ws.*1.*1)) ∧
        ∃ p1, read_all (setDataPosition p 0) (shape_of <$> ws.*1.*1) = Returned (Some <$> ws.*1.*1, p1) ∧ dataAvail p1 = 0) ∨
  (∃ p, write_all (λ _, false) initState ws = Returned (NO_MEMORY, p) ∧ ∃ w, w ∈ ws ∧ None ∈ [w.1.2; w.2])).
Proof.
  intros some ws. assert (Forall value_ok ws.*1.*1) as Hok by (repeat (apply Forall_cons; split); try done; repeat constructor; done).
  assert (Z.of_nat (length (text_of ws.*1.*1)) < 2 ^ 30) as Hl by (by vm_compute).
  split; [exact Hok|]. split; [exact Hl|]. exact (parcel_roundtrip (λ _, false) ws Hok Hl).
Defined.

(** A write at any position inside the data, with any answers, returns: it
    puts the value's bytes there and advances behind them, leaving the rest of
    the data, or it fails for want of memory and the data before the position
    is as it was. *)
Theorem write_value_safe is_fd p v al al2 : wf p → mError p = NO_ERROR → roomy p (Z.of_nat (length (encode v))) →
  ∃ err p1, write_value is_fd p v al al2 = Returned (err, p1) ∧ wf p1 ∧
    (err = NO_ERROR ∧ mDataPos p1 = mDataPos p + Z.of_nat (length (encode v)) ∧
       contents p1 = take (Z.to_nat (mDataPos p)) (contents p) ++ encode v ++ drop (Z.to_nat (mDataPos p) + length (encode v)) (contents p) ∨
     err = NO_MEMORY ∧ None ∈ [al; al2] ∧ take (Z.to_nat (mDataPos p)) (contents p1) = take (Z.to_nat (mDataPos p)) (contents p)).
Proof.
  intros Hwf He Hr. destruct (write_value_cases is_fd p v al al2 Hwf He Hr) as [(p1 & -> & [H1 H2 _ _ H5])|(p1 & -> & Hal & H2 & H3)].
  - exists NO_ERROR, p1. split; [done|]. split; [done|]. by left.
  - exists NO_MEMORY, p1. split; [done|]. split; [done|]. by right.
Qed.

Lemma write_value_safe_witness : let is_fd := (λ _ : Z, false) in let p := initState in let v := VString8 (bytes "abc") in let al : answer := Some (λ _, 0) in
  wf p ∧ mError p = NO_ERROR ∧ roomy p (Z.of_nat (length (encode v))) ∧
  ∃ err p1, write_value is_fd p v al None = Returned (err, p1) ∧ wf p1 ∧
    (err = NO_ERROR ∧ mDataPos p1 = mDataPos p + Z.of_nat (length (encode v)) ∧
       contents p1 = take (Z.to_nat (mDataPos p)) (contents p) ++ encode v ++ drop (Z.to_nat (mDataPos p) + length (encode v)) (contents p) ∨
     err = NO_MEMORY ∧ None ∈ [al; None] ∧ take (Z.to_nat (mDataPos p)) (contents p1) = take (Z.to_nat (mDataPos p)) (contents p)).
Proof.
  intros is_fd p v al. assert (roomy p (Z.of_nat (length (encode v)))) as Hr by (by vm_compute).
  split; [exact wf_init|]. split; [reflexivity|]. split; [exact Hr|]. exact (write_value_safe is_fd p v al None wf_init eq_refl Hr).
Defined.

(** ** Where the memory is left *)

(** A position behind the memory is not checked against what [growData]
    makes of it: the write goes past the memory. *)
Theorem write_past_memory is_fd p d pos v junk : mData p = Some d → wf p → mDataSize p < 2 ^ 30 →
  mDataCapacity p < pos + 4 → (mDataSize p + 4) * 3 / 2 < pos + 4 < 2 ^ 32 → mDataCapacity p < (mDataSize p + 4) * 3 / 2 →
  writeInt32 is_fd (setDataPosition p pos) v (Some junk) = Undefined.
Proof.
  intros Hd Hwf Hsz Hcap Hgrow Hless. pose proof Hwf as [Hp Hs Hc]. set (q := setDataPosition p pos).
  assert (mDataCapacity q = mDataCapacity p) as Hqc by done. unfold writeInt32, writeAligned, with_room.
  change (mDataPos q) with pos. change (Z.of_nat 4) with 4. rewrite (u32_small (pos + 4)) by lia. rewrite (proj2 (Z.leb_gt _ _)) by lia.
  unfold growData. change (mDataSize q) with (mDataSize p). rewrite (u32_small (mDataSize p + 4)), u32_small by lia.
  set (n := (mDataSize p + 4) * 3 / 2) in *. rewrite (proj2 (Z.leb_gt n _)) by lia. unfold continueWrite.
  change (mData q) with (mData p). rewrite Hd, Hqc. assert (objects_left q n = length (mObjects q)) as ->.
  { unfold objects_left. change (mDataSize q) with (mDataSize p). by rewrite (proj2 (Z.ltb_ge n _)) by lia. }
  rewrite Nat.ltb_irrefl, (proj2 (Z.ltb_lt _ n)) by lia. rewrite Z.eqb_refl. unfold store.
  assert (mDataCapacity (set_data q (resized d n junk)) = n) as ->.
  { unfold mDataCapacity, block. cbn [set_data mData]. rewrite resized_length. unfold mDataCapacity in *. lia. }
  change (mDataPos (set_data q (resized d n junk))) with pos. rewrite le_bytes_length. change (Z.of_nat 4) with 4.
  by rewrite (proj2 (Z.leb_gt _ _)) by lia.
Qed.

Lemma write_past_memory_witness : let p := mkParcel 0 (Some [7; 0; 0; 0; 0; 0]) 4 4 [] 0 true in
  mData p = Some [7; 0; 0; 0; 0; 0] ∧ wf p ∧ writeInt32 (λ _, false) initState 7 (Some (λ _, 0)) = Returned (0, p) ∧
  writeInt32 (λ _, false) (setDataPosition p 1000) 1 (Some (λ _, 0)) = Undefined.
Proof.
  intros p. assert (wf p) as Hwf by (by constructor).
  split; [reflexivity|]. split; [exact Hwf|]. split; [vm_compute; reflexivity|].
  refine (write_past_memory (λ _, false) p _ 1000 1 (λ _, 0) eq_refl Hwf _ _ _ _); vm_compute; try reflexivity. split; reflexivity.
Defined.

(** The size that [growData] computes wraps for a large write: the memory
    is too small and the write goes past it. *)
Theorem large_write_overflows is_fd l junk : 2 ^ 32 + 2 ≤ 3 * Z.of_nat (length l) < 2 ^ 33 → Z.of_nat (length l) mod 4 = 0 →
  write is_fd initState l (Some junk) = Undefined.
Proof.
  intros Hl Hmod. set (n := Z.of_nat (length l)) in *. unfold write. fold n. unfold writeInplace.
  assert (PAD_SIZE n = n) as -> by (rewrite PAD_SIZE_is by lia; Z.div_mod_to_equations; lia).
  cbn [initState mDataPos]. rewrite Z.add_0_l, u32_small by lia. rewrite (proj2 (Z.ltb_ge n 0)) by lia.
  unfold with_room. cbn [initState mDataPos mData]. change (mDataCapacity initState) with 0. rewrite Z.add_0_l, u32_small, (proj2 (Z.leb_gt n 0)) by lia.
  unfold growData. cbn [initState mDataSize]. rewrite Z.add_0_l, (u32_small n) by lia.
  assert (u32 (n * 3) = n * 3 - 2 ^ 32) as -> by (unfold u32; symmetry; apply (Z.mod_unique_pos _ _ 1); lia).
  set (m := (n * 3 - 2 ^ 32) / 2). assert (0 < m < n) as Hm by (unfold m; Z.div_mod_to_equations; lia).
  rewrite (proj2 (Z.leb_gt m 0)) by lia. unfold continueWrite. cbn [initState mData]. rewrite Z.eqb_refl, Z.eqb_refl. cbn [negb obind].
  set (p1 := set_pos _ 0). assert (mData p1 = Some (resized [] m junk)) as Hd by done. rewrite Hd. cbn [obind]. unfold store.
  assert (mDataCapacity (finishWrite p1 n) = m) as ->.
  { unfold mDataCapacity. assert (block (finishWrite p1 n) = block p1) as -> by (unfold finishWrite; by destruct (_ <? _)). unfold block. rewrite Hd, resized_length. lia. }
  change (mDataPos p1) with 0. fold n. by rewrite (proj2 (Z.leb_gt _ _)) by lia.
Qed.

Lemma list_of_length n : 0 ≤ n → ∃ l : list Z, Z.of_nat (length l) = n.
Proof. intros Hn. exists (replicate (Z.to_nat n) 0). rewrite length_replicate. lia. Qed.

Lemma large_write_overflows_witness : ∃ l, 2 ^ 32 + 2 ≤ 3 * Z.of_nat (length l) < 2 ^ 33 ∧ Z.of_nat (length l) mod 4 = 0 ∧
  write (λ _, false) initState l (Some (λ _, 0)) = Undefined.
Proof.
  destruct (list_of_length 1610612736 ltac:(lia)) as [l Hl]. exists l.
  assert (2 ^ 32 + 2 ≤ 3 * Z.of_nat (length l) < 2 ^ 33) as H1 by lia. assert (Z.of_nat (length l) mod 4 = 0) as H2 by by rewrite Hl.
  split; [exact H1|]. split; [exact H2|]. exact (large_write_overflows (λ _, false) l (λ _, 0) H1 H2).
Defined.

(** A position near the end of the address space wraps in the check of
    [readAligned], and one behind the data in that of [readCString]: both read
    outside the memory. *)
Theorem read_outside_memory :
  let p := mkParcel 0 (Some [7; 0; 0; 0; 0; 0]) 4 4 [] 0 true in
  readInt32 (setDataPosition p (2 ^ 32 - 2)) = Undefined ∧ readCString (setDataPosition p 8) = Undefined.
Proof. split; [by vm_compute|]. unfold readCString. cbn. done. Qed.

End PA.
