(* ===== verification/ParcelObjects.v ===== *)
(** The objects of a parcel ([Parcel.cpp]): references to binders and file
    descriptors, the memory of the driver a parcel may stand on, and what a
    parcel releases when it ends.

    The bytes of a parcel are those of [Parcel.v]; this file adds the rest of
    its state and what its calls do outside of it, as a trace.  The answers of
    the system and of the allocator are functions of the trace.  A [realloc] that
    gives memory takes the old memory away; one to nothing gives an empty
    block.  The only function that releases memory of another owner is
    [freeBuffer] of [IPCThreadState.cpp]; the driver maps its memory for reading
    only. *)

From S2P Require Import Prelude Parcel.

Module PO.

Abbreviation flat_binder_object := PA.flat_binder_object.
Abbreviation NO_ERROR := PA.NO_ERROR.
Abbreviation NO_MEMORY := PA.NO_MEMORY.
Abbreviation BAD_VALUE := PA.BAD_VALUE.
Abbreviation SIZEOF_object := PA.SIZEOF_object.
Abbreviation bytes_of := PA.block.

Definition UNKNOWN_ERROR : Z := -2147483648.
Definition BAD_TYPE : Z := UNKNOWN_ERROR + 1.
Definition FDS_NOT_ALLOWED : Z := UNKNOWN_ERROR + 7.
Definition IN_PLACE_BLOB_LIMIT : Z := 40 * 1024.
Definition STRICT_MODE_PENALTY_GATHER : Z := 0x100.
Definition EX_HAS_REPLY_HEADER : Z := -128.
Definition FLAG_ONEWAY : Z := 1.

Definition B_PACK_CHARS (c1 c2 c3 c4 : Z) : Z := Z.lor (Z.shiftl c1 24) (Z.lor (Z.shiftl c2 16) (Z.lor (Z.shiftl c3 8) c4)).
Definition B_TYPE_LARGE : Z := 0x85.
Definition BINDER_TYPE_BINDER : Z := B_PACK_CHARS (chr "s") (chr "b") (chr "*") B_TYPE_LARGE.
Definition BINDER_TYPE_WEAK_BINDER : Z := B_PACK_CHARS (chr "w") (chr "b") (chr "*") B_TYPE_LARGE.
Definition BINDER_TYPE_HANDLE : Z := B_PACK_CHARS (chr "s") (chr "h") (chr "*") B_TYPE_LARGE.
Definition BINDER_TYPE_WEAK_HANDLE : Z := B_PACK_CHARS (chr "w") (chr "h") (chr "*") B_TYPE_LARGE.
Definition BINDER_TYPE_FD : Z := B_PACK_CHARS (chr "f") (chr "d") (chr "*") B_TYPE_LARGE.
Definition FLAT_FLAGS : Z := Z.lor 0x7f 0x100.

(** A handle and a descriptor share the word of [binder]. *)
Definition handle (o : flat_binder_object) : Z := s32 (PA.binder o).
Definition object_bytes (o : flat_binder_object) : list Z :=
  le_bytes 4 (PA.type o) ++ le_bytes 4 (PA.flags o) ++ le_bytes 4 (PA.binder o) ++ le_bytes 4 (PA.cookie o).

(** A binder of this process, a proxy, or neither, by its address. *)
Inductive IBinder :=
  | BBinder (this : Z)
  | BpBinder (this mHandle : Z)
  | OtherBinder (this : Z).
Definition localBinder (b : IBinder) : option Z := match b with BBinder a => Some a | _ => None end.
Definition remoteBinder (b : IBinder) : option Z := match b with BpBinder _ h => Some h | _ => None end.

(** ** What parcels do outside of themselves *)

Inductive event :=
  | IncStrong (b : Z) | DecStrong (b : Z) | IncWeak (w : Z) | DecWeak (w : Z)
  | Dup (fd result : Z) | Close (fd : Z)
  | Alloc (n : Z) | FreeBuffer (buf : Z)
  | AshmemCreate (len result : Z) | AshmemProt (fd : Z) (writable : bool) | Mmap (fd len : Z) | Munmap (ptr len : Z).

(** The counters of all parcels of the process, and the trace. *)
Record world := mkWorld { gParcelGlobalAllocSize : Z; gParcelGlobalAllocCount : Z; trace : list event }.

Definition M (A : Type) : Type := world → outcome (A * world).
#[export] Instance M_ret : MRet M := λ A a w, Returned (a, w).
#[export] Instance M_bind : MBind M := λ A B k m w, let! (a, w') := m w in k a w'.

Definition fault {A} : M A := λ _, Undefined.
Definition die {A} : M A := λ _, Exited.
Definition run {A} (c : outcome A) : M A := λ w, let! a := c in Returned (a, w).
Definition note (e : event) : M unit := λ w, Returned (tt, mkWorld (gParcelGlobalAllocSize w) (gParcelGlobalAllocCount w) (e :: trace w)).
Definition count_alloc (size count : Z) : M unit :=
  λ w, Returned (tt, mkWorld (u32 (gParcelGlobalAllocSize w + size)) (u32 (gParcelGlobalAllocCount w + count)) (trace w)).
Definition getGlobalAllocSize : M Z := λ w, Returned (gParcelGlobalAllocSize w, w).
Definition getGlobalAllocCount : M Z := λ w, Returned (gParcelGlobalAllocCount w, w).

(** ** The state of a parcel

    [base] has the bytes, the position and the places of the objects.
    [objects_room] is the number of places the block of [mObjects] has room
    for.  The owner is the buffer of the driver the parcel stands on. *)
Record Parcel := mkParcel {
  base : PA.Parcel; mObjectsCapacity : Z; objects_room : Z; mHasFds : bool; mAllowFds : bool; mOwner : option Z }.

Definition set_base (p : Parcel) (b : PA.Parcel) : Parcel := mkParcel b (mObjectsCapacity p) (objects_room p) (mHasFds p) (mAllowFds p) (mOwner p).
Definition set_room (p : Parcel) (cap room : Z) : Parcel := mkParcel (base p) cap room (mHasFds p) (mAllowFds p) (mOwner p).
Definition set_allow (p : Parcel) (b : bool) : Parcel := mkParcel (base p) (mObjectsCapacity p) (objects_room p) (mHasFds p) b (mOwner p).
Definition set_has_fds (p : Parcel) (b : bool) : Parcel :=
  let b0 := base p in
  mkParcel (PA.mkParcel (PA.mError b0) (PA.mData b0) (PA.mDataSize b0) (PA.mDataPos b0) (PA.mObjects b0) (PA.mNextObjectHint b0) true)
    (mObjectsCapacity p) (objects_room p) b (mAllowFds p) (mOwner p).
Definition set_objects (p : Parcel) (objs : list Z) : Parcel :=
  let b0 := base p in
  set_base p (PA.mkParcel (PA.mError b0) (PA.mData b0) (PA.mDataSize b0) (PA.mDataPos b0) objs (PA.mNextObjectHint b0) (PA.mFdsKnown b0)).
Definition mObjects (p : Parcel) : list Z := PA.mObjects (base p).
Definition mObjectsSize (p : Parcel) : Z := Z.of_nat (length (mObjects p)).

Definition initState : Parcel := mkParcel PA.initState 0 0 false true None.

Definition errorCheck (p : Parcel) : Z := PA.mError (base p).
Definition setError (p : Parcel) (err : Z) : Parcel := set_base p (PA.set_error (base p) err).
Definition objectsCount (p : Parcel) : Z := mObjectsSize p.

Section PO.
(** The memory an allocation gives; the descriptor of [dup] and of a region of
    shared memory, negative when there is none, and [errno] then; the answers of setting its
    protection; the address of a mapping.  The proxies the table of the process
    has for a handle, and the counters of an object. *)
Variable alloc : list event → option (nat → Z).
Variable dup_os : list event → Z.
Variable errno : list event → Z.
Variable ashmem_os : list event → Z.
Variable prot_os : list event → Z.
Variable mmap_os : list event → option Z.
Variable getStrongProxyForHandle : Z → option Z.
Variable getWeakProxyForHandle : Z → option Z.
Variable getWeakRefs : Z → Z.

Definition malloc (n : Z) : M (option (nat → Z)) := λ w, (note (Alloc n) ≫= λ _, mret (alloc (trace w))) w.
Definition dup (fd : Z) : M Z := λ w, (note (Dup fd (dup_os (trace w))) ≫= λ _, mret (dup_os (trace w))) w.
Definition get_errno : M Z := λ w, Returned (errno (trace w), w).
Definition close (fd : Z) : M unit := note (Close fd).

(** ** Acquiring and releasing an object *)

Definition acquire_object (obj : flat_binder_object) : M unit :=
  let type := PA.type obj in
  if type =? BINDER_TYPE_BINDER then
    if negb (PA.binder obj =? 0) then note (IncStrong (PA.cookie obj)) else mret tt
  else if type =? BINDER_TYPE_WEAK_BINDER then
    if negb (PA.binder obj =? 0) then note (IncWeak (PA.binder obj)) else mret tt
  else if type =? BINDER_TYPE_HANDLE then
    match getStrongProxyForHandle (handle obj) with Some b => note (IncStrong b) | None => mret tt end
  else if type =? BINDER_TYPE_WEAK_HANDLE then
    match getWeakProxyForHandle (handle obj) with Some b => note (IncWeak (getWeakRefs b)) | None => mret tt end
  else mret tt.

Definition release_object (obj : flat_binder_object) : M unit :=
  let type := PA.type obj in
  if type =? BINDER_TYPE_BINDER then
    if negb (PA.binder obj =? 0) then note (DecStrong (PA.cookie obj)) else mret tt
  else if type =? BINDER_TYPE_WEAK_BINDER then
    if negb (PA.binder obj =? 0) then note (DecWeak (PA.binder obj)) else mret tt
  else if type =? BINDER_TYPE_HANDLE then
    match getStrongProxyForHandle (handle obj) with Some b => note (DecStrong b) | None => mret tt end
  else if type =? BINDER_TYPE_WEAK_HANDLE then
    match getWeakProxyForHandle (handle obj) with Some b => note (DecWeak (getWeakRefs b)) | None => mret tt end
  else if type =? BINDER_TYPE_FD then
    if negb (PA.cookie obj =? 0) then close (handle obj) else mret tt
  else mret tt.

(** The object at a place of the data. *)
Definition object_at (b : PA.Parcel) (off : Z) : outcome flat_binder_object :=
  let! l := PA.load b off SIZEOF_object in Returned (PA.object_of l).

(** A loop over places. *)
Fixpoint each (b : PA.Parcel) (f : flat_binder_object → M unit) (offs : list Z) : M unit :=
  match offs with
  | [] => mret tt
  | off :: offs => obj ← run (object_at b off); _ ← f obj; each b f offs
  end.

Definition releaseObjects (p : Parcel) : M unit := each (base p) release_object (reverse (mObjects p)).
Definition acquireObjects (p : Parcel) : M unit := each (base p) acquire_object (reverse (mObjects p)).

Definition is_fd (o : flat_binder_object) : bool := PA.type o =? BINDER_TYPE_FD.
Definition closeFileDescriptors (p : Parcel) : M unit :=
  each (base p) (λ flat, if is_fd flat then close (handle flat) else mret tt) (reverse (mObjects p)).

(** [IPCThreadState::freeBuffer], the release function of the driver's memory. *)
Definition freeBuffer (p : option Parcel) (buf : Z) : M unit :=
  _ ← match p with Some p => closeFileDescriptors p | None => mret tt end; note (FreeBuffer buf).

(** ** Ending and restarting *)

Definition freeDataNoInit (p : Parcel) : M unit :=
  match mOwner p with
  | Some buf => freeBuffer (Some p) buf
  | None =>
      _ ← releaseObjects p;
      match PA.mData (base p) with Some _ => count_alloc (- PA.mDataCapacity (base p)) (-1) | None => mret tt end
  end.
Definition freeData (p : Parcel) : M Parcel := _ ← freeDataNoInit p; mret initState.
Definition destroy (p : Parcel) : M unit := freeDataNoInit p.

(** ** Growing and shrinking *)

Definition is_fd_at (b : PA.Parcel) (off : Z) : bool := match object_at b off with Returned o => is_fd o | _ => false end.

(** Taking the data over from the owner.  [n] objects are kept. *)
Definition take_possession (p : Parcel) (buf desired : Z) (n : nat) : M (Z * Parcel) :=
  let b := base p in
  data ← malloc desired;
  match data with
  | None => mret (NO_MEMORY, setError p NO_MEMORY)
  | Some junk =>
      objects ← (if (n =? 0)%nat then mret true else o ← malloc (u32 (Z.of_nat n * 4)); mret (bool_decide (is_Some o)));
      if (objects : bool) then
        _ ← acquireObjects (set_objects p (take n (mObjects p)));
        _ ← freeBuffer (Some p) buf;
        _ ← count_alloc desired 1;
        let size := if PA.mDataSize b <? desired then PA.mDataSize b else desired in
        mret (NO_ERROR,
              mkParcel (PA.mkParcel (PA.mError b) (Some (PA.resized (take (Z.to_nat size) (bytes_of b)) desired junk)) size (PA.mDataPos b)
                          (take n (mObjects p)) 0 (PA.mFdsKnown b))
                (Z.of_nat n) (Z.of_nat n) (mHasFds p) (mAllowFds p) None)
      else mret (NO_MEMORY, setError p NO_MEMORY)
  end.

(** Releasing the objects behind the first [n], of a parcel that owns its
    memory.  The capacity stays. *)
Definition drop_objects (p : Parcel) (n : nat) : M Parcel :=
  if (n <? length (mObjects p))%nat then
    _ ← each (base p) release_object (drop n (mObjects p));
    objects ← malloc (u32 (Z.of_nat n * 4));
    mret (if decide (is_Some objects) then set_room p (mObjectsCapacity p) (Z.of_nat n) else p)
  else mret p.

Definition continueWrite (p : Parcel) (desired : Z) : M (Z * Parcel) :=
  let b := base p in
  let n := PA.objects_left b desired in
  match mOwner p with
  | Some buf => if desired =? 0 then p' ← freeData p; mret (NO_ERROR, p') else take_possession p buf desired n
  | None =>
      let first := match PA.mData b with Some _ => false | None => true end in
      p1 ← (if first then mret p else drop_objects p n);
      let more := first || (PA.mDataCapacity b <? desired) in
      al ← (if more then malloc desired else mret None);
      let '(err, b1) := PA.continueWrite (is_fd_at b) b desired al in
      _ ← (if more && (err =? NO_ERROR) then count_alloc (desired - PA.mDataCapacity b) (if first then 1 else 0) else mret tt);
      mret (err, set_base p1 b1)
  end.

Definition growData (p : Parcel) (len : Z) : M (Z * Parcel) :=
  let newSize := u32 (u32 (PA.mDataSize (base p) + len) * 3) / 2 in
  if newSize <=? PA.mDataSize (base p) then mret (NO_MEMORY, p) else continueWrite p newSize.

(** The old data is gone when the objects are released. *)
Definition restartWrite (p : Parcel) (desired : Z) : M (Z * Parcel) :=
  let b := base p in
  let restarted d := mkParcel (PA.mkParcel (PA.mError b) d 0 0 [] 0 true) 0 0 false true None in
  match mOwner p with
  | Some _ => p' ← freeData p; continueWrite p' desired
  | None =>
      data ← malloc desired;
      match data with
      | None => if PA.mDataCapacity b <? desired then mret (NO_MEMORY, setError p NO_MEMORY)
                else _ ← releaseObjects p; mret (NO_ERROR, restarted (PA.mData b))
      | Some junk =>
          _ ← match mObjects p with [] => mret tt | _ => fault end;
          _ ← count_alloc (desired - PA.mDataCapacity b) 0;
          mret (NO_ERROR, restarted (Some (PA.resized (bytes_of b) desired junk)))
      end
  end.

Definition setDataSize (p : Parcel) (size : Z) : M (Z * Parcel) :=
  '(err, p1) ← continueWrite p size;
  mret (err, if err =? NO_ERROR then set_base p1 (PA.set_size (base p1) size) else p1).

Definition setDataCapacity (p : Parcel) (size : Z) : M (Z * Parcel) :=
  if PA.mDataCapacity (base p) <? size then continueWrite p size else mret (NO_ERROR, p).

Definition setDataPosition (p : Parcel) (pos : Z) : Parcel := set_base p (PA.setDataPosition (base p) pos).

(** Writing into the memory: the driver's can only be read. *)
Definition store (p : Parcel) (pos : Z) (l : list Z) : M Parcel :=
  match mOwner p with
  | Some _ => fault
  | None => b ← run (PA.store (base p) pos l); mret (set_base p b)
  end.

Definition set_unknown_fds (p : Parcel) (len : Z) : Parcel :=
  let b := base p in
  set_base p (PA.mkParcel (PA.mError b) (PA.mData b) len (PA.mDataPos b) (PA.mObjects b) (PA.mNextObjectHint b) false).

Definition setData (p : Parcel) (buffer : list Z) : M (Z * Parcel) :=
  let len := Z.of_nat (length buffer) in
  '(err, p1) ← restartWrite p len;
  if err =? NO_ERROR then p2 ← store p1 0 buffer; mret (err, set_unknown_fds p2 len) else mret (err, p1).

(** ** Writing values *)

Definition finishWrite (p : Parcel) (len : Z) : Parcel := set_base p (PA.finishWrite (base p) len).

Definition with_room (p : Parcel) (len : Z) {A} (restart_write : Parcel → M A) (fail : Z → Parcel → M A) : M A :=
  if u32 (PA.mDataPos (base p) + len) <=? PA.mDataCapacity (base p) then restart_write p
  else '(err, p1) ← growData p len; if err =? NO_ERROR then restart_write p1 else fail err p1.

Definition writeAligned (n : nat) (p : Parcel) (val : Z) : M (Z * Parcel) :=
  with_room p (Z.of_nat n)
    (λ p, p1 ← store p (PA.mDataPos (base p)) (le_bytes n val); mret (NO_ERROR, finishWrite p1 (Z.of_nat n)))
    (λ err p, mret (err, p)).
Definition writeInt32 := writeAligned 4.
Definition writeNoException (p : Parcel) : M (Z * Parcel) := writeInt32 p 0.

Definition writeInplace (p : Parcel) (len : Z) : M (option Z * Parcel) :=
  let padded := PA.PAD_SIZE len in
  if u32 (PA.mDataPos (base p) + padded) <? PA.mDataPos (base p) then mret (None, p)
  else with_room p padded
         (λ p, let data := PA.mDataPos (base p) in
               p1 ← (if negb (padded =? len)
                     then match mOwner p with
                          | Some _ => fault
                          | None => b ← run (PA.mask_end (base p) (data + padded - 4) (padded - len)); mret (set_base p b)
                          end
                     else mret p);
               mret (match PA.mData (base p1) with Some _ => Some data | None => None end, finishWrite p1 padded))
         (λ _ p, mret (None, p)).

(** [src] is what is found at the pointer to the data. *)
Definition write (p : Parcel) (len : Z) (src : outcome (list Z)) : M (Z * Parcel) :=
  '(d, p1) ← writeInplace p len;
  match d with
  | Some d => l ← run src; p2 ← store p1 d l; mret (NO_ERROR, p2)
  | None => mret (errorCheck p1, p1)
  end.

Definition writeString16 (p : Parcel) (str : option (list Z)) : M (Z * Parcel) :=
  match str with
  | None => writeInt32 p (-1)
  | Some l =>
      '(err, p1) ← writeInt32 p (Z.of_nat (length l));
      if err =? NO_ERROR then
        let len := u32 (Z.of_nat (length l) * 2) in
        '(data, p2) ← writeInplace p1 (u32 (len + 2));
        match data with
        | Some data =>
            p3 ← store p2 data (take (Z.to_nat len) (PA.units_bytes l));
            p4 ← store p3 (data + len) [0; 0];
            mret (NO_ERROR, p4)
        | None => mret (errorCheck p2, p2)
        end
      else mret (err, p1)
  end.

(** ** Writing objects *)

(** An entry behind the places: past the end of their block it is lost memory. *)
Definition push_object (p : Parcel) (off : Z) : M Parcel :=
  if mObjectsSize p <? objects_room p then mret (set_objects p (mObjects p ++ [off])) else fault.

Definition restart_writeObject (val : flat_binder_object) (nullMetaData : bool) (p : Parcel) : M (Z * Parcel) :=
  let pos := PA.mDataPos (base p) in
  p1 ← store p pos (object_bytes val);
  p2 ← (if nullMetaData || negb (PA.binder val =? 0)
        then p2 ← push_object p1 pos; _ ← acquire_object val; mret p2
        else mret p1);
  if is_fd val then
    if negb (mAllowFds p2) then mret (FDS_NOT_ALLOWED, p2)
    else mret (NO_ERROR, finishWrite (set_has_fds p2 true) SIZEOF_object)
  else mret (NO_ERROR, finishWrite p2 SIZEOF_object).

Definition writeObject (p : Parcel) (val : flat_binder_object) (nullMetaData : bool) : M (Z * Parcel) :=
  let enoughData := u32 (PA.mDataPos (base p) + SIZEOF_object) <=? PA.mDataCapacity (base p) in
  let enoughObjects := mObjectsSize p <? mObjectsCapacity p in
  if enoughData && enoughObjects then restart_writeObject val nullMetaData p
  else
    '(err, p1) ← (if enoughData then mret (NO_ERROR, p) else growData p SIZEOF_object);
    if negb (err =? NO_ERROR) then mret (err, p1)
    else if enoughObjects then restart_writeObject val nullMetaData p1
    else
      let newSize := u32 (u32 (mObjectsSize p1 + 2) * 3) / 2 in
      objects ← malloc (u32 (newSize * 4));
      match objects with
      | None => mret (NO_MEMORY, p1)
      | Some _ => restart_writeObject val nullMetaData (set_room p1 newSize newSize)
      end.

Definition finish_flatten_binder (flat : flat_binder_object) (out : Parcel) : M (Z * Parcel) := writeObject out flat false.

Definition null_object : flat_binder_object := PA.mkObject BINDER_TYPE_BINDER FLAT_FLAGS 0 0.

(** The handle goes over the low word of [binder]. *)
Definition flatten_binder (binder : option IBinder) (out : Parcel) : M (Z * Parcel) :=
  match binder with
  | Some b =>
      match localBinder b with
      | None => let handle := match remoteBinder b with Some h => h | None => 0 end in
                finish_flatten_binder (PA.mkObject BINDER_TYPE_HANDLE FLAT_FLAGS (u32 handle) 0) out
      | Some local => finish_flatten_binder (PA.mkObject BINDER_TYPE_BINDER FLAT_FLAGS (getWeakRefs local) local) out
      end
  | None => finish_flatten_binder null_object out
  end.

(** [alive]: whether the weak pointer can be promoted. *)
Definition flatten_weak_binder (binder : option IBinder) (alive : bool) (out : Parcel) : M (Z * Parcel) :=
  match binder with
  | Some b =>
      if alive then
        match localBinder b with
        | None => let handle := match remoteBinder b with Some h => h | None => 0 end in
                  finish_flatten_binder (PA.mkObject BINDER_TYPE_WEAK_HANDLE FLAT_FLAGS (u32 handle) 0) out
        | Some local => finish_flatten_binder (PA.mkObject BINDER_TYPE_WEAK_BINDER FLAT_FLAGS (getWeakRefs local) local) out
        end
      else finish_flatten_binder null_object out
  | None => finish_flatten_binder null_object out
  end.

Definition writeStrongBinder (p : Parcel) (val : option IBinder) : M (Z * Parcel) := flatten_binder val p.
Definition writeWeakBinder (p : Parcel) (val : option IBinder) (alive : bool) : M (Z * Parcel) := flatten_weak_binder val alive p.

Definition writeFileDescriptor (p : Parcel) (fd : Z) (takeOwnership : bool) : M (Z * Parcel) :=
  writeObject p (PA.mkObject BINDER_TYPE_FD FLAT_FLAGS (u32 fd) (if takeOwnership then 1 else 0)) true.

Definition writeDupFileDescriptor (p : Parcel) (fd : Z) : M (Z * Parcel) :=
  dupFd ← dup fd;
  if dupFd <? 0 then e ← get_errno; mret (- e, p)
  else
    '(err, p1) ← writeFileDescriptor p dupFd true;
    _ ← (if negb (err =? NO_ERROR) then close dupFd else mret tt);
    mret (err, p1).

(** A step of a sequence of writes that stops at an error. *)
Definition and_then (m : M (Z * Parcel)) (k : Parcel → M (Z * Parcel)) : M (Z * Parcel) :=
  '(status, p) ← m; if negb (status =? NO_ERROR) then mret (status, p) else k p.

Definition writeParcelFileDescriptor (p : Parcel) (fd commChannel : Z) : M (Z * Parcel) :=
  if fd <? 0 then writeInt32 p 0
  else
    and_then (writeInt32 p 1) (λ p,
    and_then (writeDupFileDescriptor p fd) (λ p,
    if commChannel <? 0 then writeInt32 p 0
    else and_then (writeInt32 p 1) (λ p, writeDupFileDescriptor p commChannel))).

(** [native_handle.c] *)
Record native_handle := mkHandle { version : Z; numFds : Z; numInts : Z; nh_data : list Z }.
Definition SIZEOF_native_handle : Z := 12.

(** The loop over the descriptors of a handle, [n] of them from place [i] on. *)
Fixpoint write_fds (data : list Z) (i : nat) (n : nat) (p : Parcel) : M (Z * Parcel) :=
  match n with
  | O => mret (NO_ERROR, p)
  | S n' => fd ← run (oderef (data !! i)); and_then (writeDupFileDescriptor p fd) (write_fds data (S i) n')
  end.

Definition ints_from (data : list Z) (from n : Z) : outcome (list Z) :=
  if (0 <=? from) && (0 <=? n) && (from + n <=? Z.of_nat (length data))
  then Returned (concat (le_bytes 4 <$> take (Z.to_nat n) (drop (Z.to_nat from) data))) else Undefined.

Definition writeNativeHandle (p : Parcel) (h : option native_handle) : M (Z * Parcel) :=
  match h with
  | None => mret (BAD_TYPE, p)
  | Some h =>
      if negb (version h =? SIZEOF_native_handle) then mret (BAD_TYPE, p)
      else
        and_then (writeInt32 p (numFds h)) (λ p,
        and_then (writeInt32 p (numInts h)) (λ p,
        and_then (write_fds (nh_data h) 0 (Z.to_nat (numFds h)) p) (λ p,
        write p (u32 (4 * numInts h)) (ints_from (nh_data h) (numFds h) (numInts h)))))
  end.

(** ** Appending a part of another parcel *)

(** [firstIndex] and [lastIndex] of the objects that begin in the range. *)
Fixpoint index_range (in_range : Z → bool) (objs : list Z) (i : Z) (firstIndex lastIndex : Z) : Z * Z :=
  match objs with
  | [] => (firstIndex, lastIndex)
  | off :: objs =>
      if in_range off then index_range in_range objs (i + 1) (if firstIndex =? -1 then i else firstIndex) i
      else index_range in_range objs (i + 1) firstIndex lastIndex
  end.

(** A copied descriptor is duplicated, and the copy belongs to this parcel. *)
Definition append_object (p : Parcel) (off : Z) : M (Z * Parcel) :=
  p1 ← push_object p off;
  flat ← run (object_at (base p1) off);
  _ ← acquire_object flat;
  if is_fd flat then
    d ← dup (handle flat);
    p2 ← store p1 off (object_bytes (PA.mkObject (PA.type flat) (PA.flags flat) (u32 d) 1));
    mret (if mAllowFds p2 then NO_ERROR else FDS_NOT_ALLOWED, set_has_fds p2 true)
  else mret (NO_ERROR, p1).

Fixpoint append_objects (p : Parcel) (err : Z) (offs : list Z) : M (Z * Parcel) :=
  match offs with
  | [] => mret (err, p)
  | off :: offs => '(e, p1) ← append_object p off; append_objects p1 (if e =? NO_ERROR then err else e) offs
  end.

(** [parcel] is another parcel than [p]. *)
Definition appendFrom (p parcel : Parcel) (offset len : Z) : M (Z * Parcel) :=
  let srcSize := PA.mDataSize (base parcel) in
  let startPos := PA.mDataPos (base p) in
  if len =? 0 then mret (NO_ERROR, p)
  else if (srcSize <? offset) || (srcSize <? len) || (srcSize <? u32 (offset + len)) then mret (BAD_VALUE, p)
  else
    let '(firstIndex, lastIndex) := index_range (λ off, (offset <=? off) && (off <? u32 (offset + len))) (mObjects parcel) 0 (-1) (-2) in
    let numObjects := lastIndex - firstIndex + 1 in
    '(err, p1) ← (if PA.mDataCapacity (base p) <? u32 (PA.mDataSize (base p) + len) then growData p len else mret (NO_ERROR, p));
    if negb (err =? NO_ERROR) then mret (err, p1)
    else
      data ← run (PA.load (base parcel) offset len);
      p2 ← store p1 (PA.mDataPos (base p1)) data;
      let b2 := base p2 in
      let p3 := set_base p2 (PA.set_size (PA.set_pos b2 (u32 (PA.mDataPos b2 + len))) (u32 (PA.mDataSize b2 + len))) in
      if 0 <? numObjects then
        let more := mObjectsCapacity p3 <? mObjectsSize p3 + numObjects in
        let newSize := u32 (u32 (mObjectsSize p3 + numObjects) * 3) / 2 in
        objects ← (if more then o ← malloc (u32 (newSize * 4)); mret (bool_decide (is_Some o)) else mret true);
        if (objects : bool) then
          let p4 := if more then set_room p3 newSize newSize else p3 in
          append_objects p4 NO_ERROR
            ((λ off, u32 (off - offset + startPos)) <$> take (Z.to_nat numObjects) (drop (Z.to_nat firstIndex) (mObjects parcel)))
        else mret (NO_MEMORY, p3)
      else mret (NO_ERROR, p3).

(** ** Descriptors *)

Definition pushAllowFds (p : Parcel) (allowFds : bool) : bool * Parcel := (mAllowFds p, if allowFds then p else set_allow p false).
Definition restoreAllowFds (p : Parcel) (lastValue : bool) : Parcel := set_allow p lastValue.

Fixpoint any_fd (b : PA.Parcel) (offs : list Z) : outcome bool :=
  match offs with
  | [] => Returned false
  | off :: offs => let! flat := object_at b off in if is_fd flat then Returned true else any_fd b offs
  end.
Definition scanForFds (p : Parcel) : outcome Parcel := let! r := any_fd (base p) (mObjects p) in Returned (set_has_fds p r).
Definition hasFileDescriptors (p : Parcel) : outcome (bool * Parcel) :=
  let! p1 := (if PA.mFdsKnown (base p) then Returned p else scanForFds p) in Returned (mHasFds p1, p1).

(** ** The memory of the driver *)

(** The places follow each other without overlapping. *)
Fixpoint offsets_fit (objs : list Z) (minOffset : Z) : bool :=
  match objs with
  | [] => true
  | offset :: objs => if offset <? minOffset then false else offsets_fit objs (u32 (offset + SIZEOF_object))
  end.

Definition ipcSetDataReference (p : Parcel) (data : list Z) (objects : list Z) (buf : Z) : M Parcel :=
  _ ← freeDataNoInit p;
  let objectsCount := Z.of_nat (length objects) in
  let objs := if offsets_fit objects 0 then objects else [] in
  run (scanForFds
         (mkParcel (PA.mkParcel NO_ERROR (Some data) (Z.of_nat (length data)) 0 objs 0 (PA.mFdsKnown (base p)))
            objectsCount objectsCount (mHasFds p) (mAllowFds p) (Some buf))).

Definition ipcDataSize (p : Parcel) : Z := PA.dataSize (base p).

(** ** Reading objects *)

Definition lift_read {A} (p : Parcel) (r : outcome (A * PA.Parcel)) : outcome (A * Parcel) := let! (a, b) := r in Returned (a, set_base p b).
Definition readInt32 (p : Parcel) : outcome (Z * Parcel) := lift_read p (PA.readInt32 (base p)).
Definition readObject (p : Parcel) (nullMetaData : bool) : outcome (option flat_binder_object * Parcel) := lift_read p (PA.readObject (base p) nullMetaData).

Definition local_of (cookie : Z) : option IBinder := if cookie =? 0 then None else Some (BBinder cookie).
Definition strong_proxy (h : Z) : option IBinder := (λ a, BpBinder a h) <$> getStrongProxyForHandle h.
Definition weak_proxy (h : Z) : option IBinder := (λ a, BpBinder a h) <$> getWeakProxyForHandle h.

(** The status, and what [out] is set to, if it is. *)
Definition unflatten_binder (p : Parcel) : outcome (Z * option (option IBinder) * Parcel) :=
  let! (flat, p1) := readObject p false in
  Returned (match flat with
            | Some flat =>
                if PA.type flat =? BINDER_TYPE_BINDER then (NO_ERROR, Some (local_of (PA.cookie flat)))
                else if PA.type flat =? BINDER_TYPE_HANDLE then (NO_ERROR, Some (strong_proxy (handle flat)))
                else (BAD_TYPE, None)
            | None => (BAD_TYPE, None)
            end, p1).

Definition unflatten_weak_binder (p : Parcel) : outcome (Z * option (option IBinder) * Parcel) :=
  let! (flat, p1) := readObject p false in
  Returned (match flat with
            | Some flat =>
                if PA.type flat =? BINDER_TYPE_BINDER then (NO_ERROR, Some (local_of (PA.cookie flat)))
                else if PA.type flat =? BINDER_TYPE_WEAK_BINDER then
                  (NO_ERROR, Some (if negb (PA.binder flat =? 0) then local_of (PA.cookie flat) else None))
                else if (PA.type flat =? BINDER_TYPE_HANDLE) || (PA.type flat =? BINDER_TYPE_WEAK_HANDLE) then
                  (NO_ERROR, Some (weak_proxy (handle flat)))
                else (BAD_TYPE, None)
            | None => (BAD_TYPE, None)
            end, p1).

Definition readStrongBinder (p : Parcel) : outcome (option IBinder * Parcel) :=
  let! (r, p1) := unflatten_binder p in Returned (default None (snd r), p1).
Definition readWeakBinder (p : Parcel) : outcome (option IBinder * Parcel) :=
  let! (r, p1) := unflatten_weak_binder p in Returned (default None (snd r), p1).

Definition readFileDescriptor (p : Parcel) : outcome (Z * Parcel) :=
  let! (flat, p1) := readObject p true in
  Returned (match flat with Some flat => if is_fd flat then handle flat else BAD_TYPE | None => BAD_TYPE end, p1).

(** The descriptor and [outCommChannel]. *)
Definition readParcelFileDescriptor (p : Parcel) : outcome (Z * Z * Parcel) :=
  let! (v, p1) := readInt32 p in
  if v =? 0 then Returned (-1, -1, p1)
  else
    let! (fd, p2) := readFileDescriptor p1 in
    if 0 <=? fd then
      let! (c, p3) := readInt32 p2 in
      if negb (c =? 0) then let! (comm, p4) := readFileDescriptor p3 in Returned (fd, comm, p4) else Returned (fd, -1, p3)
    else Returned (fd, -1, p2).

Definition readExceptionCode (p : Parcel) : outcome (Z * Parcel) :=
  let! (exception_code, p1) := readInt32 p in
  if exception_code =? EX_HAS_REPLY_HEADER then
    let header_start := s32 (PA.mDataPos (base p1)) in
    let! (header_size, p2) := readInt32 p1 in
    Returned (0, setDataPosition p2 (u32 (header_start + header_size)))
  else Returned (exception_code, p1).

(** ** Headers of calls *)

(** [policy]: the strict-mode policy of the thread. *)
Definition writeInterfaceToken (p : Parcel) (policy : Z) (interface : list Z) : M (Z * Parcel) :=
  '(_, p1) ← writeInt32 p (Z.lor policy STRICT_MODE_PENALTY_GATHER);
  writeString16 p1 (Some interface).

(** [flags]: those of the thread's last transaction.  The answer and the policy
    the thread has then. *)
Definition enforceInterface (p : Parcel) (interface : list Z) (flags : Z) : outcome (bool * Z * Parcel) :=
  let! (strictPolicy, p1) := readInt32 p in
  let policy := if negb (Z.land flags FLAG_ONEWAY =? 0) then 0 else strictPolicy in
  let! (str, p2) := lift_read p1 (PA.readString16 (base p1)) in
  Returned (bool_decide (str = interface), policy, p2).

(** [descriptor]: the name the binder gives. *)
Definition checkInterface (p : Parcel) (descriptor : list Z) (flags : Z) : outcome (bool * Z * Parcel) := enforceInterface p descriptor flags.

(** ** Native handles, blobs and flattened values *)

Definition set_int (h : native_handle) (i v : Z) : outcome native_handle :=
  if (0 <=? i) && (i <? Z.of_nat (length (nh_data h)))
  then Returned (mkHandle (version h) (numFds h) (numInts h) (<[Z.to_nat i := v]> (nh_data h))) else Undefined.

(** The block of the handle, or a null pointer. *)
Definition native_handle_create (nFds nInts : Z) : M (option native_handle) :=
  let size := u32 (SIZEOF_native_handle + u32 (4 * u32 (nFds + nInts))) in
  h ← malloc size;
  match h with
  | None => mret None
  | Some junk =>
      if size <? SIZEOF_native_handle then fault
      else mret (Some (mkHandle SIZEOF_native_handle nFds nInts
                         ((λ i, s32 (junk i)) <$> seq 0 (Z.to_nat ((size - SIZEOF_native_handle) / 4)))))
  end.

Fixpoint close_each (fds : list Z) : M unit :=
  match fds with [] => mret tt | fd :: fds => _ ← close fd; close_each fds end.
Definition native_handle_close (h : native_handle) : M Z :=
  if negb (version h =? SIZEOF_native_handle) then mret BAD_VALUE
  else if Z.of_nat (length (nh_data h)) <? numFds h then fault
  else _ ← close_each (take (Z.to_nat (numFds h)) (nh_data h)); mret 0.

(** The loop of [readNativeHandle] over [n] descriptors from [i] on. *)
Fixpoint read_fds (p : Parcel) (h : option native_handle) (i : Z) (n : nat) : M (Z * option native_handle * Parcel) :=
  match n with
  | O => mret (NO_ERROR, h, p)
  | S n' =>
      '(fd, p1) ← run (readFileDescriptor p);
      d ← dup fd;
      h1 ← run (let! h := oderef h in set_int h i d);
      if d <? 0 then mret (BAD_VALUE, Some h1, p1) else read_fds p1 (Some h1) (i + 1) n'
  end.

(** The integers of [4 * n] bytes. *)
Fixpoint bytes_ints (l : list Z) : list Z :=
  match l with a :: b :: c :: d :: l' => s32 (le [a; b; c; d]) :: bytes_ints l' | _ => [] end.

(** Copying what was read behind the descriptors. *)
Definition put_ints (h : option native_handle) (l : list Z) : outcome (option native_handle) :=
  match l with
  | [] => Returned h
  | _ =>
      let! h := oderef h in
      let ints := bytes_ints l in
      let n := Z.of_nat (length l) / 4 in
      if (0 <=? numFds h) && (numFds h + n <=? Z.of_nat (length (nh_data h)))
      then Returned (Some (mkHandle (version h) (numFds h) (numInts h)
                             (take (Z.to_nat (numFds h)) (nh_data h) ++ ints ++ drop (Z.to_nat (numFds h + n)) (nh_data h))))
      else Undefined
  end.

(** The error of the loop is lost to the answer of [read]. *)
Definition readNativeHandle (p : Parcel) : M (option native_handle * Parcel) :=
  '(v1, b1) ← run (PA.readAligned 4 (base p));
  match v1 with
  | None => mret (None, set_base p b1)
  | Some v1 =>
      '(v2, b2) ← run (PA.readAligned 4 b1);
      match v2 with
      | None => mret (None, set_base p b2)
      | Some v2 =>
          let nFds := s32 v1 in let nInts := s32 v2 in
          h ← native_handle_create nFds nInts;
          '(_, h1, p1) ← read_fds (set_base p b2) h 0 (Z.to_nat nFds);
          '(err, l, b3) ← run (PA.read (base p1) (u32 (4 * nInts)));
          let p2 := set_base p1 b3 in
          if err =? NO_ERROR then h2 ← run (put_ints h1 l); mret (h2, p2)
          else h1 ← run (oderef h1); _ ← native_handle_close h1; mret (None, p2)
      end
  end.

(** A blob: the data is at a place of the parcel or mapped at an address. *)
Inductive place := InParcel (pos : Z) | Mapped (ptr : Z).
Record Blob := mkBlob { mMapped : bool; blob_data : option place; mSize : Z }.
Definition empty_blob : Blob := mkBlob false None 0.

Definition Blob_release (b : Blob) : M Blob :=
  _ ← match blob_data b with
      | Some (Mapped ptr) => if mMapped b then note (Munmap ptr (mSize b)) else mret tt
      | _ => mret tt
      end;
  mret empty_blob.

Definition ashmem_create_region (len : Z) : M Z :=
  λ w, (note (AshmemCreate len (ashmem_os (trace w))) ≫= λ _, mret (ashmem_os (trace w))) w.
Definition ashmem_set_prot_region (fd : Z) (writable : bool) : M Z :=
  λ w, (note (AshmemProt fd writable) ≫= λ _, mret (prot_os (trace w))) w.
Definition mmap (fd len : Z) : M (option Z) := λ w, (note (Mmap fd len) ≫= λ _, mret (mmap_os (trace w))) w.

(** The end of [writeBlob] on an error: the mapping, if there is one, and the
    region are given up. *)
Definition blob_failed (ptr : option Z) (len fd status : Z) (p : Parcel) : M (Z * option Blob * Parcel) :=
  _ ← match ptr with Some ptr => note (Munmap ptr len) | None => mret tt end;
  _ ← close fd;
  mret (status, None, p).

Definition writeBlob (p : Parcel) (len : Z) : M (Z * option Blob * Parcel) :=
  if negb (mAllowFds p) || (len <=? IN_PLACE_BLOB_LIMIT) then
    '(status, p1) ← writeInt32 p 0;
    if negb (status =? NO_ERROR) then mret (status, None, p1)
    else
      '(ptr, p2) ← writeInplace p1 len;
      match ptr with
      | None => mret (NO_MEMORY, None, p2)
      | Some ptr => mret (NO_ERROR, Some (mkBlob false (Some (InParcel ptr)) len), p2)
      end
  else
    fd ← ashmem_create_region len;
    if fd <? 0 then mret (NO_MEMORY, None, p)
    else
      result ← ashmem_set_prot_region fd true;
      if result <? 0 then blob_failed None len fd result p
      else
        ptr ← mmap fd len;
        match ptr with
        | None => e ← get_errno; blob_failed (Some (-1)) len fd (- e) p
        | Some ptr =>
            result ← ashmem_set_prot_region fd false;
            if result <? 0 then blob_failed (Some ptr) len fd result p
            else
              '(status, p1) ← writeInt32 p 1;
              if negb (status =? NO_ERROR) then blob_failed (Some ptr) len fd status p1
              else
                '(status, p2) ← writeFileDescriptor p1 fd true;
                if negb (status =? NO_ERROR) then blob_failed (Some ptr) len fd status p2
                else mret (NO_ERROR, Some (mkBlob true (Some (Mapped ptr)) len), p2)
        end.

Definition readBlob (p : Parcel) (len : Z) : M (Z * option Blob * Parcel) :=
  '(useAshmem, b1) ← run (PA.readAligned 4 (base p));
  match useAshmem with
  | None => mret (PA.NOT_ENOUGH_DATA, None, set_base p b1)
  | Some useAshmem =>
      if useAshmem =? 0 then
        let '(ptr, b2) := PA.readInplace b1 len in
        match ptr with
        | None => mret (BAD_VALUE, None, set_base p b2)
        | Some ptr => mret (NO_ERROR, Some (mkBlob false (Some (InParcel ptr)) len), set_base p b2)
        end
      else
        '(fd, p2) ← run (readFileDescriptor (set_base p b1));
        if fd =? BAD_TYPE then mret (BAD_VALUE, None, p2)
        else
          ptr ← mmap fd len;
          match ptr with
          | None => mret (NO_MEMORY, None, p2)
          | Some ptr => mret (NO_ERROR, Some (mkBlob true (Some (Mapped ptr)) len), p2)
          end
  end.

(** What a value does to flatten itself: its size, its number of descriptors,
    and the status, the bytes and the descriptors of [flatten]. *)
Record flattenable := mkFlattenable {
  getFlattenedSize : Z; getFdCount : Z; flatten_status : Z; flat_bytes : list Z; flat_fds : list Z }.

Definition write_flattenable (p : Parcel) (val : flattenable) : M (Z * Parcel) :=
  let len := getFlattenedSize val in let fd_count := getFdCount val in
  and_then (writeInt32 p len) (λ p,
  and_then (writeInt32 p fd_count) (λ p,
  '(buf, p) ← writeInplace p (PA.PAD_SIZE len);
  match buf with
  | None => mret (BAD_VALUE, p)
  | Some buf =>
      p1 ← store p buf (flat_bytes val);
      if flatten_status val =? NO_ERROR then write_fds (flat_fds val) 0 (Z.to_nat fd_count) p1 else mret (flatten_status val, p1)
  end)).

(** The loop over [n] descriptors: those duplicated, and the status. *)
Fixpoint dup_fds (p : Parcel) (n : nat) : M (Z * list Z * Parcel) :=
  match n with
  | O => mret (NO_ERROR, [], p)
  | S n' =>
      '(fd, p1) ← run (readFileDescriptor p);
      d ← dup fd;
      if d <? 0 then mret (BAD_VALUE, [], p1)
      else '(err, fds, p2) ← dup_fds p1 n'; mret (err, d :: fds, p2)
  end.

(** [unflatten] is the value's own function of its bytes and descriptors. *)
Definition read_flattenable (unflatten : list Z → list Z → Z) (p : Parcel) : M (Z * Parcel) :=
  '(len, p1) ← run (readInt32 p);
  '(fd_count, p2) ← run (readInt32 p1);
  let len := u32 len in let fd_count := u32 fd_count in
  let '(buf, b3) := PA.readInplace (base p2) (PA.PAD_SIZE len) in
  let p3 := set_base p2 b3 in
  match buf with
  | None => mret (BAD_VALUE, p3)
  | Some buf =>
      room ← (if fd_count =? 0 then mret true else o ← malloc (u32 (fd_count * 4)); mret (bool_decide (is_Some o)));
      if negb (room : bool) || (2 ^ 30 <=? fd_count) then fault
      else
        '(err, fds, p4) ← dup_fds p3 (Z.to_nat fd_count);
        if err =? NO_ERROR then data ← run (PA.load (base p3) buf len); mret (unflatten data fds, p4) else mret (err, p4)
  end.

(** ** What a parcel holds *)

Inductive ref := RStrong (b : Z) | RWeak (w : Z) | RFd (fd : Z).
#[local] Instance ref_eq_dec : EqDecision ref.
Proof. solve_decision. Defined.

(** What an event does to the number of a reference that is held, or of open
    copies of a descriptor. *)
Definition change (e : event) (r : ref) : Z :=
  let one (r' : ref) (n : Z) := if decide (r = r') then n else 0 in
  match e with
  | IncStrong b => one (RStrong b) 1
  | DecStrong b => one (RStrong b) (-1)
  | IncWeak w => one (RWeak w) 1
  | DecWeak w => one (RWeak w) (-1)
  | Dup _ d => if 0 <=? d then one (RFd d) 1 else 0
  | AshmemCreate _ d => if 0 <=? d then one (RFd d) 1 else 0
  | Close d => if 0 <=? d then one (RFd d) (-1) else 0
  | _ => 0
  end.
Definition net (tr : list event) (r : ref) : Z := sum_by (λ e, change e r) tr.

(** What an object stands for, and what of it is acquired: a descriptor comes
    with the object. *)
Definition refs_of (o : flat_binder_object) : list ref :=
  let type := PA.type o in
  if type =? BINDER_TYPE_BINDER then if PA.binder o =? 0 then [] else [RStrong (PA.cookie o)]
  else if type =? BINDER_TYPE_WEAK_BINDER then if PA.binder o =? 0 then [] else [RWeak (PA.binder o)]
  else if type =? BINDER_TYPE_HANDLE then match getStrongProxyForHandle (handle o) with Some b => [RStrong b] | None => [] end
  else if type =? BINDER_TYPE_WEAK_HANDLE then match getWeakProxyForHandle (handle o) with Some b => [RWeak (getWeakRefs b)] | None => [] end
  else if type =? BINDER_TYPE_FD then if (PA.cookie o =? 0) || (handle o <? 0) then [] else [RFd (handle o)]
  else [].
Definition grabbed (o : flat_binder_object) : list ref := if is_fd o then [] else refs_of o.

Definition obj_at (b : PA.Parcel) (off : Z) : flat_binder_object := PA.object_of (take 16 (drop (Z.to_nat off) (bytes_of b))).
Definition objs_at (b : PA.Parcel) (offs : list Z) : list flat_binder_object := obj_at b <$> offs.
Definition held (p : Parcel) : list ref := concat (refs_of <$> objs_at (base p) (mObjects p)).
Definition count (l : list ref) (r : ref) : Z := countP (λ r', bool_decide (r' = r)) l.

(** The places of objects follow each other between two positions. *)
Fixpoint placed (objs : list Z) (lo hi : Z) : Prop :=
  match objs with [] => lo ≤ hi | off :: objs => lo ≤ off ∧ placed objs (off + SIZEOF_object) hi end.

(** A parcel that owns its memory, with whole objects in its data and what it
    knows of descriptors true. *)
Record good (p : Parcel) : Prop := {
  good_wf : PA.wf (base p);
  good_own : mOwner p = None;
  good_placed : placed (mObjects p) 0 (PA.mDataSize (base p));
  good_room : objects_room p = mObjectsCapacity p;
  good_size : mObjectsSize p ≤ mObjectsCapacity p;
  good_fds : PA.mFdsKnown (base p) = true → mHasFds p = existsb is_fd (objs_at (base p) (mObjects p)) }.

(** The position is behind the objects. *)
Definition at_end (p : Parcel) : Prop := placed (mObjects p) 0 (PA.mDataPos (base p)).

(** ** Running calls *)

Definition wp {A} (m : M A) (Q : A → world → Prop) (w : world) : Prop := ∃ a w', m w = Returned (a, w') ∧ Q a w'.

Lemma run_ret {A} (a : A) (Q : A → world → Prop) w : Q a w → wp (mret a) Q w.
Proof. intros H. by exists a, w. Qed.
Lemma run_bind {A B} (m : M A) (k : A → M B) (Q : B → world → Prop) w : wp m (λ a w', wp (k a) Q w') w → wp (m ≫= k) Q w.
Proof.
  intros (a & w' & Hm & b & w'' & Hk & HQ). exists b, w''. split; [|done]. unfold mbind, M_bind. by rewrite Hm.
Qed.
Lemma run_mono {A} (m : M A) (Q R : A → world → Prop) w : wp m Q w → (∀ a w', Q a w' → R a w') → wp m R w.
Proof. intros (a & w' & Hm & HQ) H. exists a, w'. eauto. Qed.
Lemma wp_run {A} (a : A) c (Q : A → world → Prop) w : c = Returned a → Q a w → wp (run c) Q w.
Proof. intros -> H. by exists a, w. Qed.
Lemma wp_of {A} (m : M A) a w w' (Q : A → world → Prop) : m w = Returned (a, w') → Q a w' → wp m Q w.
Proof. intros H HQ. by exists a, w'. Qed.

(** What a call changed of the references held, with the counters of all
    parcels following the parcel's memory. *)
Definition has_data (p : Parcel) : Z := match PA.mData (base p), mOwner p with Some _, None => 1 | _, _ => 0 end.
Definition own_size (p : Parcel) : Z := match mOwner p with None => PA.mDataCapacity (base p) | Some _ => 0 end.

Record moved (p : Parcel) (w : world) (p' : Parcel) (w' : world) (δ : ref → Z) : Prop := {
  mv_net : ∀ r, net (trace w') r = net (trace w) r + δ r;
  mv_size : u32 (gParcelGlobalAllocSize w' - own_size p') = u32 (gParcelGlobalAllocSize w - own_size p);
  mv_count : u32 (gParcelGlobalAllocCount w' - has_data p') = u32 (gParcelGlobalAllocCount w - has_data p) }.

(** Only the trace grew. *)
Record acts (w w' : world) (δ : ref → Z) : Prop := {
  ac_net : ∀ r, net (trace w') r = net (trace w) r + δ r;
  ac_size : gParcelGlobalAllocSize w' = gParcelGlobalAllocSize w;
  ac_count : gParcelGlobalAllocCount w' = gParcelGlobalAllocCount w }.

Lemma moved_refl p w : moved p w p w (λ _, 0).
Proof. constructor; [intros; lia|done..]. Qed.
Lemma acts_refl w : acts w w (λ _, 0).
Proof. constructor; [intros; lia|done..]. Qed.
Lemma moved_trans p w p1 w1 p2 w2 δ δ' δ'' : moved p w p1 w1 δ → moved p1 w1 p2 w2 δ' → (∀ r, δ'' r = δ r + δ' r) → moved p w p2 w2 δ''.
Proof. intros [A B C] [A' B' C'] H. constructor; [intros r; rewrite A', A, H; lia|congruence..]. Qed.
Lemma acts_trans w w1 w2 δ δ' δ'' : acts w w1 δ → acts w1 w2 δ' → (∀ r, δ'' r = δ r + δ' r) → acts w w2 δ''.
Proof. intros [A B C] [A' B' C'] H. constructor; [intros r; rewrite A', A, H; lia|congruence..]. Qed.
Lemma acts_ext w w' δ δ' : acts w w' δ → (∀ r, δ r = δ' r) → acts w w' δ'.
Proof. intros [A B C] H. constructor; [intros r; by rewrite A, H|done..]. Qed.
Lemma moved_ext p w p' w' δ δ' : moved p w p' w' δ → (∀ r, δ r = δ' r) → moved p w p' w' δ'.
Proof. intros [A B C] H. constructor; [intros r; by rewrite A, H|done..]. Qed.

(** The same memory: only the trace matters. *)
Definition same_memory (p p' : Parcel) : Prop := own_size p' = own_size p ∧ has_data p' = has_data p.
Lemma acts_moved p w p' w' δ : acts w w' δ → same_memory p p' → moved p w p' w' δ.
Proof. intros [A B C] [H1 H2]. constructor; [done|by rewrite B, H1|by rewrite C, H2]. Qed.
Lemma moved_memory p w p1 p2 w' δ : moved p w p1 w' δ → same_memory p1 p2 → moved p w p2 w' δ.
Proof. intros [A B C] [H1 H2]. constructor; [done|by rewrite H1|by rewrite H2]. Qed.

Lemma note_acts e w : wp (note e) (λ _ w', acts w w' (change e)) w.
Proof. eexists _, _. split; [done|]. constructor; [|done..]. intros r. cbn [trace]. unfold net. rewrite sum_by_cons. lia. Qed.

Lemma count_nil r : count [] r = 0.
Proof. done. Qed.
Lemma count_app l k r : count (l ++ k) r = count l r + count k r.
Proof. apply countP_app. Qed.
Lemma count_one r' r : count [r'] r = if decide (r = r') then 1 else 0.
Proof. unfold count. rewrite countP_cons, countP_nil. case_bool_decide; case_decide; subst; done. Qed.

Lemma ret_acts {A} (a : A) w : wp (mret a) (λ _ w', acts w w' (λ _, 0)) w.
Proof. apply run_ret, acts_refl. Qed.

Ltac one_event := first
  [ eapply run_mono; [apply note_acts|]; intros ? ? Ha; apply (acts_ext _ _ _ _ Ha); intros r; cbn [change]; rewrite ?count_one, ?count_nil; repeat case_decide; lia
  | eapply run_mono; [apply ret_acts|]; intros ? ? Ha; apply (acts_ext _ _ _ _ Ha); intros r; rewrite ?count_nil; lia ].

(** The five types are five numbers. *)
Ltac the_types := unfold is_fd in *;
  change BINDER_TYPE_BINDER with 1935813253 in *; change BINDER_TYPE_WEAK_BINDER with 2002922117 in *;
  change BINDER_TYPE_HANDLE with 1936206469 in *; change BINDER_TYPE_WEAK_HANDLE with 2003315333 in *; change BINDER_TYPE_FD with 1717840517 in *.

Lemma acquire_acts o w : wp (acquire_object o) (λ _ w', acts w w' (count (grabbed o))) w.
Proof.
  unfold acquire_object, grabbed, refs_of. the_types.
  repeat match goal with |- context [PA.type o =? ?k] => destruct (Z.eqb_spec (PA.type o) k); try lia end; cbn [negb];
    try destruct (PA.binder o =? 0); try destruct (getStrongProxyForHandle (handle o)); try destruct (getWeakProxyForHandle (handle o)); cbn [negb]; one_event.
Qed.

Lemma close_acts fd w : wp (close fd) (λ _ w', acts w w' (λ r, - count (if fd <? 0 then [] else [RFd fd]) r)) w.
Proof.
  unfold close. destruct (Z.ltb_spec fd 0); eapply run_mono; [apply note_acts| |apply note_acts|]; intros ? ? Ha; apply (acts_ext _ _ _ _ Ha); intros r; cbn [change].
  - rewrite (proj2 (Z.leb_gt 0 fd)) by lia. done.
  - rewrite (proj2 (Z.leb_le 0 fd)) by lia. rewrite count_one. by case_decide.
Qed.

Lemma release_acts o w : wp (release_object o) (λ _ w', acts w w' (λ r, - count (refs_of o) r)) w.
Proof.
  unfold release_object, refs_of. the_types.
  repeat match goal with |- context [PA.type o =? ?k] => destruct (Z.eqb_spec (PA.type o) k); try lia end;
    [ | | | |destruct (PA.cookie o =? 0); cbn [negb orb]; [one_event|apply close_acts]|];
    try destruct (PA.binder o =? 0); try destruct (getStrongProxyForHandle (handle o)); try destruct (getWeakProxyForHandle (handle o)); cbn [negb]; one_event.
Qed.

(** ** Places and the objects there *)

Lemma placed_le objs : ∀ lo hi, placed objs lo hi → lo ≤ hi.
Proof. induction objs as [|off objs IH]; intros lo hi H; [done|]. destruct H as [H1 H2%IH]. unfold SIZEOF_object in *. lia. Qed.

Lemma placed_in objs : ∀ lo hi, placed objs lo hi → Forall (λ off, lo ≤ off ∧ off + SIZEOF_object ≤ hi) objs.
Proof.
  induction objs as [|off objs IH]; intros lo hi H; constructor.
  - destruct H as [H1 H2%placed_le]. done.
  - destruct H as [H1 H2]. eapply Forall_impl; [apply (IH _ _ H2)|]. intros x. unfold SIZEOF_object. cbn. lia.
Qed.

Lemma placed_more objs : ∀ lo hi hi', placed objs lo hi → hi ≤ hi' → placed objs lo hi'.
Proof. induction objs as [|off objs IH]; intros lo hi hi' H Hle; [cbn in *; lia|]. destruct H as [H1 H2]. split; [done|by eapply IH]. Qed.

Lemma placed_snoc objs : ∀ lo hi, placed objs lo hi → placed (objs ++ [hi]) lo (hi + SIZEOF_object).
Proof. induction objs as [|off objs IH]; intros lo hi H; [cbn in *; lia|]. destruct H as [H1 H2]. split; [done|by apply IH]. Qed.

Lemma placed_increasing objs : ∀ lo hi, placed objs lo hi → PA.increasing objs.
Proof.
  induction objs as [|off objs IH]; intros lo hi H i j x y Hi Hj Hlt; [done|]. destruct H as [H1 H2].
  destruct j as [|j]; [lia|]. cbn in Hj. pose proof (placed_in _ _ _ H2) as Hin. rewrite Forall_lookup in Hin.
  destruct i as [|i]; cbn in Hi.
  - injection Hi as <-. specialize (Hin _ _ Hj). unfold SIZEOF_object in *. cbn in Hin. lia.
  - eapply (IH _ _ H2 i j); [done..|lia].
Qed.

Lemma object_at_ok b off : off + SIZEOF_object ≤ PA.mDataCapacity b → object_at b off = Returned (obj_at b off).
Proof. intros H. unfold object_at. by rewrite PA.load_ok. Qed.

Definition inside (b : PA.Parcel) (off : Z) : Prop := 0 ≤ off ∧ off + SIZEOF_object ≤ PA.mDataCapacity b.

Lemma each_acts b f g s offs : Forall (inside b) offs → (∀ o w, wp (f o) (λ _ w', acts w w' (λ r, s * count (g o) r)) w) →
  ∀ w, wp (each b f offs) (λ _ w', acts w w' (λ r, s * count (concat (g <$> objs_at b offs)) r)) w.
Proof.
  intros Hin Hf. induction Hin as [|off offs Hoff _ IH]; intros w; cbn [each].
  - eapply run_mono; [apply ret_acts|]. intros ? w' Ha. apply (acts_ext _ _ _ _ Ha). intros r. cbn [fmap list_fmap concat]. rewrite count_nil. lia.
  - apply run_bind. eapply wp_run; [by apply object_at_ok, Hoff|]. apply run_bind. eapply run_mono; [apply Hf|]. intros ? w1 H1.
    eapply run_mono; [apply IH|]. intros ? w2 H2. apply (acts_trans _ _ _ _ _ _ H1 H2). intros r.
    cbn [fmap list_fmap objs_at concat]. rewrite count_app. fold (objs_at b offs). lia.
Qed.

Lemma count_reverse b g offs r : count (concat (g <$> objs_at b (reverse offs))) r = count (concat (g <$> objs_at b offs)) r.
Proof.
  induction offs as [|off offs IH]; [done|]. rewrite reverse_cons. unfold objs_at in *. rewrite !fmap_app, concat_app, count_app, IH.
  cbn [fmap list_fmap concat]. rewrite app_nil_r, count_app. lia.
Qed.

Lemma good_inside p : good p → Forall (inside (base p)) (mObjects p).
Proof.
  intros Hg. eapply Forall_impl; [apply (placed_in _ _ _ (good_placed _ Hg))|]. intros off [H1 H2]. split; [done|].
  pose proof (PA.wf_size _ (good_wf _ Hg)). lia.
Qed.

Lemma release_acts' o w : wp (release_object o) (λ _ w', acts w w' (λ r, -1 * count (refs_of o) r)) w.
Proof. eapply run_mono; [apply release_acts|]. intros ? w' Ha. apply (acts_ext _ _ _ _ Ha). intros r. lia. Qed.

Lemma releaseObjects_acts p w : Forall (inside (base p)) (mObjects p) →
  wp (releaseObjects p) (λ _ w', acts w w' (λ r, - count (held p) r)) w.
Proof.
  intros Hin. unfold releaseObjects. eapply run_mono; [apply (each_acts _ _ refs_of (-1))|].
  - rewrite Forall_lookup in *. intros i off Hi%list_elem_of_lookup_2. rewrite elem_of_reverse in Hi.
    apply list_elem_of_lookup_1 in Hi as [j Hj]. by eapply Hin.
  - intros. apply release_acts'.
  - intros ? w' Ha. apply (acts_ext _ _ _ _ Ha). intros r. rewrite count_reverse. unfold held. lia.
Qed.

(** The objects are the same where the bytes before a position are. *)
Lemma obj_at_before b b' off n : 0 ≤ off → off + SIZEOF_object ≤ n →
  take (Z.to_nat n) (bytes_of b') = take (Z.to_nat n) (bytes_of b) → obj_at b' off = obj_at b off.
Proof.
  intros H0 Hn Ht. unfold obj_at. f_equal. unfold SIZEOF_object in Hn. apply (f_equal (λ l, take 16 (drop (Z.to_nat off) l))) in Ht.
  rewrite !take_drop_commute, !take_take in *. by rewrite !Nat.min_l in Ht by lia.
Qed.

Lemma objs_at_before b b' offs lo n : 0 ≤ lo → placed offs lo n →
  take (Z.to_nat n) (bytes_of b') = take (Z.to_nat n) (bytes_of b) → objs_at b' offs = objs_at b offs.
Proof.
  intros H0 Hp Ht. unfold objs_at. apply list_fmap_ext. intros i off Hi. pose proof (placed_in _ _ _ Hp) as Hin.
  rewrite Forall_lookup in Hin. specialize (Hin _ _ Hi). cbn in Hin. apply (obj_at_before _ _ _ n); [lia|lia|done].
Qed.

(** ** Parcels that own their memory write like those of [Parcel.v] *)

Definition lifts {A} (p : Parcel) (w : world) (m : M (A * Parcel)) (o : outcome (A * PA.Parcel)) : Prop :=
  match o with
  | Returned (a, b) => ∃ w', m w = Returned ((a, set_base p b), w') ∧ moved p w (set_base p b) w' (λ _, 0)
  | Exited => m w = Exited
  | Undefined => m w = Undefined
  end.

Lemma set_base_base p : set_base p (base p) = p.
Proof. by destruct p. Qed.

Lemma lifts_ret {A} (a : A) p w b : mOwner p = None → PA.mData b = PA.mData (base p) → lifts p w (mret (a, set_base p b)) (Returned (a, b)).
Proof.
  intros Ho Hd. exists w. split; [done|]. apply acts_moved; [apply acts_refl|].
  unfold same_memory, own_size, has_data. cbn. unfold PA.mDataCapacity, PA.block. by rewrite Hd.
Qed.

Lemma lifts_after {A} (p : Parcel) w b w' (m n : M (A * Parcel)) o : n w = m w' →
  moved p w (set_base p b) w' (λ _, 0) → lifts (set_base p b) w' m o → lifts p w n o.
Proof.
  intros Hn Hm Hl. unfold lifts in *. rewrite Hn. destruct o as [[a b']| |]; [|done..]. destruct Hl as (w2 & Hr & Hm2). exists w2. split; [done|].
  apply (moved_trans _ _ _ _ _ _ _ _ _ Hm Hm2). intros r. lia.
Qed.

Lemma u32_follow a n c : u32 (u32 (a + (n - c)) - n) = u32 (a - c).
Proof. rewrite u32_sub_l. f_equal. lia. Qed.

Lemma malloc_bind {B} n (k : option (nat → Z) → M B) w :
  (malloc n ≫= k) w = k (alloc (trace w)) (mkWorld (gParcelGlobalAllocSize w) (gParcelGlobalAllocCount w) (Alloc n :: trace w)).
Proof. done. Qed.

(** The counters follow memory of [n] bytes that takes the place of the old. *)
Lemma counted_moved p b w w' n : mOwner p = None → PA.mDataCapacity b = n → PA.mData b ≠ None → acts w w' (λ _, 0) →
  moved p w (set_base p b) (mkWorld (u32 (gParcelGlobalAllocSize w' + (n - PA.mDataCapacity (base p))))
    (u32 (gParcelGlobalAllocCount w' + (if PA.mData (base p) then 0 else 1))) (trace w')) (λ _, 0).
Proof.
  intros Ho Hn Hd [A B C]. constructor; cbn [trace gParcelGlobalAllocSize gParcelGlobalAllocCount].
  - intros r. apply A.
  - unfold own_size. cbn. rewrite Ho, Hn, B. apply u32_follow.
  - unfold has_data. cbn. rewrite Ho, C. destruct (PA.mData b); [|done]. rewrite u32_sub_l. f_equal. destruct (PA.mData (base p)); lia.
Qed.

Lemma alloc_acts n w : acts w (mkWorld (gParcelGlobalAllocSize w) (gParcelGlobalAllocCount w) (Alloc n :: trace w)) (λ _, 0).
Proof. constructor; [|done..]. intros r. unfold net. cbn [trace]. rewrite sum_by_cons. cbn. lia. Qed.

Lemma continueWrite_lifts p n w : mOwner p = None → 0 ≤ n → PA.objects_left (base p) n = length (mObjects p) →
  ∃ al, lifts p w (continueWrite p n) (Returned (PA.continueWrite (is_fd_at (base p)) (base p) n al)).
Proof.
  intros Ho Hn Hleft. exists (alloc (trace w)). unfold continueWrite. rewrite Ho, Hleft. unfold drop_objects. rewrite Nat.ltb_irrefl.
  unfold PA.continueWrite. rewrite Hleft. fold (mObjects p). rewrite Nat.ltb_irrefl.
  pose proof (counted_moved p) as Hcount. unfold lifts, malloc, note, count_alloc, mbind, M_bind.
  destruct (PA.mData (base p)) as [d|] eqn:Hd; cbn [mret M_ret obind orb]; [destruct (Z.ltb_spec (PA.mDataCapacity (base p)) n)|];
    cbn [mret M_ret obind orb andb].
  - destruct (alloc (trace w)) as [junk|]; cbn [obind mret M_ret Z.eqb]; eexists; (split; [done|]).
    + apply Hcount; [done|cbn; unfold PA.mDataCapacity; cbn; rewrite PA.resized_length; lia|by cbn|apply alloc_acts].
    + apply acts_moved; [apply alloc_acts|]. done.
  - eexists. split; [done|]. apply acts_moved; [apply acts_refl|]. unfold same_memory, own_size, has_data, PA.mDataCapacity, PA.block. cbn.
    rewrite Ho. destruct (n <? PA.mDataSize (base p)); cbn; (destruct (n <? PA.mDataPos (base p)); cbn; by rewrite Hd).
  - destruct (alloc (trace w)) as [junk|]; cbn [obind mret M_ret Z.eqb]; eexists; (split; [done|]).
    + apply Hcount; [done|cbn; unfold PA.mDataCapacity; cbn; rewrite PA.resized_length; lia|by cbn|apply alloc_acts].
    + apply acts_moved; [apply alloc_acts|]. done.
Qed.

Lemma growData_lifts p len w : mOwner p = None → ∃ al, lifts p w (growData p len) (Returned (PA.growData (is_fd_at (base p)) (base p) len al)).
Proof.
  intros Ho. unfold growData, PA.growData. set (n := u32 _ / 2). assert (0 ≤ n) as Hn.
  { apply Z.div_pos; [apply u32_range|lia]. }
  destruct (Z.leb_spec n (PA.mDataSize (base p))).
  - exists None. pose proof (lifts_ret NO_MEMORY p w (base p) Ho eq_refl) as Hl. by rewrite set_base_base in Hl.
  - apply continueWrite_lifts; [done|done|]. unfold PA.objects_left. by rewrite (proj2 (Z.ltb_ge n _)) by lia.
Qed.

Lemma grown_pos isfd b len al : 0 ≤ PA.mDataPos b → 0 ≤ PA.mDataPos (snd (PA.growData isfd b len al)).
Proof.
  intros Hp. unfold PA.growData. set (n := u32 _ / 2). assert (0 ≤ n) as Hn by (apply Z.div_pos; [apply u32_range|lia]).
  destruct (n <=? PA.mDataSize b); [done|]. unfold PA.continueWrite. repeat case_match; cbn in *; simplify_eq; cbn; try lia; done.
Qed.

Lemma with_room_lifts {A} p len w (k : Parcel → M (A * Parcel)) kb (f : Z → Parcel → M (A * Parcel)) fb : mOwner p = None →
  0 ≤ PA.mDataPos (base p) → (∀ b w', 0 ≤ PA.mDataPos b → lifts (set_base p b) w' (k (set_base p b)) (kb b)) → (∀ err b w', lifts (set_base p b) w' (f err (set_base p b)) (fb err b)) →
  ∃ al, lifts p w (with_room p len k f) (PA.with_room (is_fd_at (base p)) (base p) len al kb fb).
Proof.
  intros Ho Hp Hk Hf. destruct (growData_lifts p len w Ho) as [al Hg]. exists al. unfold with_room, PA.with_room.
  destruct (_ <=? _); [pose proof (Hk (base p) w Hp) as H; by rewrite set_base_base in H|]. pose proof (grown_pos (is_fd_at (base p)) (base p) len al Hp) as Hgp. destruct (PA.growData _ _ _ _) as [err b]. destruct Hg as (w' & Hr & Hm).
  destruct (err =? NO_ERROR) eqn:He; (eapply (lifts_after p w b w'); [|done|]; [|by apply Hk || apply Hf]);
    unfold mbind, M_bind; rewrite Hr; cbn [obind]; by rewrite He.
Qed.

(** Storing keeps the memory. *)
Lemma store_memory b pos l b1 : 0 ≤ pos → PA.store b pos l = Returned b1 →
  PA.mDataCapacity b1 = PA.mDataCapacity b ∧ (PA.mData b1 = None ↔ PA.mData b = None) ∧ PA.mDataPos b1 = PA.mDataPos b.
Proof.
  intros Hp Hs. assert (pos + Z.of_nat (length l) ≤ PA.mDataCapacity b) as Hl.
  { revert Hs. unfold PA.store. by destruct (Z.leb_spec (pos + Z.of_nat (length l)) (PA.mDataCapacity b)). }
  destruct (PA.store_ok b pos l Hp Hl) as (b2 & Hb2 & _ & H1 & _ & _ & _ & H2 & H3). rewrite Hb2 in Hs. by injection Hs as <-.
Qed.

Definition same_block (b b1 : PA.Parcel) : Prop := PA.mDataCapacity b1 = PA.mDataCapacity b ∧ (PA.mData b1 = None ↔ PA.mData b = None).
Lemma same_block_memory p b b1 : same_block b b1 → same_memory (set_base p b) (set_base p b1).
Proof.
  intros [H1 H2]. unfold same_memory, own_size, has_data. cbn. rewrite H1. split; [done|].
  destruct (PA.mData b), (PA.mData b1), (mOwner p); try done; [by discriminate (proj1 H2 eq_refl)|by discriminate (proj2 H2 eq_refl)].
Qed.
Lemma finish_block b n : same_block b (PA.finishWrite b n).
Proof. unfold same_block, PA.finishWrite. by destruct (_ <? _). Qed.
Lemma same_block_trans b b1 b2 : same_block b b1 → same_block b1 b2 → same_block b b2.
Proof. intros [A B] [C D]. split; [congruence|tauto]. Qed.

Lemma lifts_same {A} (a : A) p w b b1 : same_block b b1 → lifts (set_base p b) w (mret (a, set_base p b1)) (Returned (a, b1)).
Proof. intros H. exists w. split; [done|]. apply acts_moved; [apply acts_refl|]. exact (same_block_memory p b b1 H). Qed.

Lemma store_lifts {A} (a : A) p b w pos l f : mOwner p = None → 0 ≤ pos → (∀ b, same_block b (f b)) →
  lifts (set_base p b) w (p1 ← store (set_base p b) pos l; mret (a, set_base p1 (f (base p1)))) (let! b1 := PA.store b pos l in Returned (a, f b1)).
Proof.
  intros Ho Hp Hf. unfold store. cbn [mOwner set_base]. rewrite Ho. unfold run, mbind, M_bind. cbn [base set_base].
  destruct (PA.store b pos l) as [b1| |] eqn:Hs; cbn [obind]; [|done..]. apply (lifts_same a p w b (f b1)).
  destruct (store_memory _ _ _ _ Hp Hs) as (H1 & H2 & _). by apply (same_block_trans _ b1).
Qed.

Lemma writeAligned_lifts n p v w : mOwner p = None → 0 ≤ PA.mDataPos (base p) →
  ∃ al, lifts p w (writeAligned n p v) (PA.writeAligned (is_fd_at (base p)) n (base p) v al).
Proof.
  intros Ho Hp. apply with_room_lifts; [done|done| |].
  - intros b w' Hb. apply (store_lifts NO_ERROR p b w' _ _ (λ b, PA.finishWrite b (Z.of_nat n)) Ho Hb). intros b'. apply finish_block.
  - intros err b w'. by apply lifts_same.
Qed.

Lemma mask_memory b q n b1 : 0 ≤ q → PA.mask_end b q n = Returned b1 → same_block b b1 ∧ PA.mDataPos b1 = PA.mDataPos b.
Proof.
  intros Hq. unfold PA.mask_end. destruct (PA.load b q 4); cbn [obind]; [|done..]. intros Hs.
  destruct (store_memory _ _ _ _ Hq Hs) as (H1 & H2 & H3). done.
Qed.

Lemma writeInplace_lifts p len w : mOwner p = None → 0 ≤ PA.mDataPos (base p) → 0 ≤ len < 2 ^ 32 - 3 →
  ∃ al, lifts p w (writeInplace p len) (PA.writeInplace (is_fd_at (base p)) (base p) len al).
Proof.
  intros Ho Hp Hlen. destruct (PA.PAD_SIZE_bounds len Hlen) as [HP Hmod]. unfold writeInplace, PA.writeInplace. set (n := PA.PAD_SIZE len) in *.
  destruct (u32 (PA.mDataPos (base p) + n) <? PA.mDataPos (base p)).
  { exists None. pose proof (lifts_ret (@None Z) p w (base p) Ho eq_refl) as H. by rewrite set_base_base in H. }
  apply with_room_lifts; [done|done| |intros err b w'; by apply lifts_same].
  intros b w' Hb. cbn [mOwner set_base base]. rewrite Ho. destruct (Z.eqb_spec n len) as [Heq|Hne]; cbn [negb].
  - apply (lifts_same _ p w' b (PA.finishWrite b n)), finish_block.
  - unfold run, mbind, M_bind. cbn [base set_base]. assert (0 ≤ PA.mDataPos b + n - 4) as Hq by (Z.div_mod_to_equations; lia).
    destruct (PA.mask_end b (PA.mDataPos b + n - 4) (n - len)) as [b1| |] eqn:Hm; cbn [obind mret M_ret]; [|done..].
    destruct (mask_memory _ _ _ _ Hq Hm) as [H1 _].
    apply (lifts_same _ p w' b (PA.finishWrite b1 n)). apply (same_block_trans _ b1); [done|apply finish_block].
Qed.

Lemma inplace_place isfd b len al d b1 : 0 ≤ PA.mDataPos b → PA.writeInplace isfd b len al = Returned (Some d, b1) → 0 ≤ d.
Proof.
  intros Hp. unfold PA.writeInplace. destruct (_ <? _); [done|]. unfold PA.with_room. pose proof (grown_pos isfd b (PA.PAD_SIZE len) al Hp) as Hg.
  assert (∀ b2, 0 ≤ PA.mDataPos b2 → (let! p1 := (if negb (PA.PAD_SIZE len =? len) then PA.mask_end b2 (PA.mDataPos b2 + PA.PAD_SIZE len - 4) (PA.PAD_SIZE len - len) else Returned b2) in
    Returned (match PA.mData p1 with Some _ => Some (PA.mDataPos b2) | None => None end, PA.finishWrite p1 (PA.PAD_SIZE len))) = Returned (Some d, b1) → 0 ≤ d) as Hk.
  { intros b2 Hb2 H. apply obind_returned in H as (b3 & _ & H). case_match; by simplify_eq. }
  destruct (_ <=? _); [by apply Hk|]. destruct (PA.growData isfd b (PA.PAD_SIZE len) al) as [err b2]. destruct (err =? NO_ERROR); [by apply Hk|done].
Qed.

Lemma write_lifts p l w : mOwner p = None → 0 ≤ PA.mDataPos (base p) → Z.of_nat (length l) < 2 ^ 32 - 3 →
  ∃ al, lifts p w (write p (Z.of_nat (length l)) (Returned l)) (PA.write (is_fd_at (base p)) (base p) l al).
Proof.
  intros Ho Hp Hl. destruct (writeInplace_lifts p (Z.of_nat (length l)) w Ho Hp ltac:(lia)) as [al Hi]. exists al. unfold write, PA.write.
  pose proof (inplace_place (is_fd_at (base p)) (base p) (Z.of_nat (length l)) al) as Hplace.
  destruct (PA.writeInplace _ _ _ _) as [[d b]| |]; cbn [obind]; [|unfold lifts, mbind, M_bind in *; by rewrite Hi..].
  destruct Hi as (w' & Hr & Hm). specialize (Hplace (default 0 d) b Hp).
  eapply (lifts_after p w b w'); [unfold mbind at 1, M_bind at 1; rewrite Hr; cbn [obind]; reflexivity|done|].
  destruct d as [d|]; [|by apply lifts_same]. unfold store, run, mbind, M_bind. cbn [mOwner set_base base obind]. rewrite Ho.
  destruct (PA.store b d l) as [b1| |] eqn:Hs; cbn [obind]; [|done..]. apply (lifts_same NO_ERROR p w' b b1).
  by destruct (store_memory _ _ _ _ (Hplace eq_refl) Hs) as (H1 & H2 & _).
Qed.

(** Writes leave what is known of descriptors. *)
Lemma store_known b pos l b1 : PA.store b pos l = Returned b1 → PA.mFdsKnown b1 = PA.mFdsKnown b.
Proof. unfold PA.store. destruct (_ <=? _); [|done]. intros [= <-]. by destruct (PA.mData b). Qed.

Lemma mask_known b q n b1 : PA.mask_end b q n = Returned b1 → PA.mFdsKnown b1 = PA.mFdsKnown b.
Proof. unfold PA.mask_end. destruct (PA.load b q 4); [apply store_known|done..]. Qed.

Lemma finish_known b n : PA.mFdsKnown (PA.finishWrite b n) = PA.mFdsKnown b.
Proof. unfold PA.finishWrite. by destruct (_ <? _). Qed.

Lemma grow_known isfd b len al : PA.mFdsKnown (snd (PA.growData isfd b len al)) = PA.mFdsKnown b.
Proof.
  unfold PA.growData. set (n := u32 _ / 2). destruct (Z.leb_spec n (PA.mDataSize b)); [done|]. unfold PA.continueWrite, PA.objects_left.
  rewrite (proj2 (Z.ltb_ge n _)) by lia. rewrite Nat.ltb_irrefl. repeat case_match; simplify_eq; done.
Qed.

Lemma with_room_known {A} isfd b len al (k : PA.Parcel → outcome (A * PA.Parcel)) f a b1 :
  PA.with_room isfd b len al k f = Returned (a, b1) →
  (∀ b2, k b2 = Returned (a, b1) → PA.mFdsKnown b1 = PA.mFdsKnown b2) → (∀ err b2, f err b2 = Returned (a, b1) → PA.mFdsKnown b1 = PA.mFdsKnown b2) →
  PA.mFdsKnown b1 = PA.mFdsKnown b.
Proof.
  unfold PA.with_room. intros H Hk Hf. destruct (_ <=? _); [by apply Hk|]. pose proof (grow_known isfd b len al) as Hg.
  destruct (PA.growData isfd b len al) as [err b2]. cbn [snd] in Hg. rewrite <- Hg. destruct (err =? NO_ERROR); [by apply Hk|by eapply Hf].
Qed.

Lemma writeAligned_known isfd n b v al e b1 : PA.writeAligned isfd n b v al = Returned (e, b1) → PA.mFdsKnown b1 = PA.mFdsKnown b.
Proof.
  intros H. apply (with_room_known _ _ _ _ _ _ _ _ H).
  - intros b2 (b3 & H3%store_known & [= <- <-])%obind_returned. by rewrite finish_known.
  - by intros err b2 [= <- <-].
Qed.

Lemma writeInplace_known isfd b len al d b1 : PA.writeInplace isfd b len al = Returned (d, b1) → PA.mFdsKnown b1 = PA.mFdsKnown b.
Proof.
  unfold PA.writeInplace. destruct (_ <? _); [by intros [= <- <-]|]. intros H. apply (with_room_known _ _ _ _ _ _ _ _ H).
  - intros b2 (b3 & H3 & [= <- <-])%obind_returned. rewrite finish_known. destruct (negb _); [by eapply mask_known|by injection H3 as <-].
  - by intros err b2 [= <- <-].
Qed.

Lemma write_known isfd b l al e b1 : PA.write isfd b l al = Returned (e, b1) → PA.mFdsKnown b1 = PA.mFdsKnown b.
Proof.
  unfold PA.write. intros ([d b2] & H2%writeInplace_known & H)%obind_returned. rewrite <- H2.
  destruct d; [|by injection H as <- <-]. apply obind_returned in H as (b3 & H3%store_known & [= <- <-]). done.
Qed.

(** ** A step of a sequence of writes *)

Definition steps (p : Parcel) (w : world) (p' : Parcel) (w' : world) : Prop := moved p w p' w' (λ r, count (held p') r - count (held p) r).

Lemma steps_trans p w p1 w1 p2 w2 : steps p w p1 w1 → steps p1 w1 p2 w2 → steps p w p2 w2.
Proof. intros H1 H2. apply (moved_trans _ _ _ _ _ _ _ _ _ H1 H2). intros r. lia. Qed.

(** What was before the position is still there. *)
Record kept (p p' : Parcel) : Prop := {
  kp_objects : mObjects p `prefix_of` mObjects p';
  kp_before : take (Z.to_nat (PA.mDataPos (base p))) (PA.contents (base p')) = take (Z.to_nat (PA.mDataPos (base p))) (PA.contents (base p));
  kp_pos : PA.mDataPos (base p) ≤ PA.mDataPos (base p') }.

Lemma kept_refl p : kept p p.
Proof. constructor; [done|done|lia]. Qed.

Lemma kept_trans p p1 p2 : 0 ≤ PA.mDataPos (base p) → kept p p1 → kept p1 p2 → kept p p2.
Proof.
  intros Hp [A B C] [A' B' C']. constructor; [by etrans| |lia]. rewrite <- B.
  apply (f_equal (take (Z.to_nat (PA.mDataPos (base p))))) in B'. by rewrite !take_take, !Nat.min_l in B' by lia.
Qed.

(** The parcel after a call that wrote at most [n] bytes and one object. *)
Record next (p p' : Parcel) (n : Z) : Prop := {
  nx_good : good p';
  nx_size : PA.mDataSize (base p) ≤ PA.mDataSize (base p') ≤ PA.mDataSize (base p) + n;
  nx_objects : mObjectsSize p' ≤ mObjectsSize p + 1;
  nx_allow : mAllowFds p' = mAllowFds p;
  nx_kept : kept p p' }.
Definition done_or_failed (p : Parcel) (w : world) (n : Z) (r : Z * Parcel) (w' : world) : Prop :=
  let '(err, p') := r in
  steps p w p' w' ∧ next p p' n ∧ (err = NO_ERROR → at_end p' ∧ PA.mError (base p') = PA.mError (base p)).

Lemma contents_before b n : 0 ≤ n ≤ PA.mDataSize b → take (Z.to_nat n) (PA.contents b) = take (Z.to_nat n) (bytes_of b).
Proof. intros Hn. unfold PA.contents. rewrite take_take. f_equal. lia. Qed.

(** The objects behind which something is written stay. *)
Lemma wrote_objs p l b1 : good p → at_end p → PA.wrote (base p) l b1 → objs_at b1 (mObjects p) = objs_at (base p) (mObjects p).
Proof.
  intros Hg He Hw. pose proof (good_wf _ Hg) as Hwf. pose proof (PA.wf_pos _ Hwf). pose proof (PA.wrote_size _ _ _ Hwf Hw) as Hsz.
  apply (objs_at_before _ _ _ 0 (PA.mDataPos (base p))); [done|done|].
  rewrite <- (contents_before b1), <- (contents_before (base p)) by lia. rewrite (PA.wr_contents _ _ _ Hw). unfold PA.overwrite.
  pose proof (PA.contents_length _ Hwf). rewrite take_app_le, take_take, Nat.min_id by (rewrite length_take; lia). done.
Qed.

Lemma wrote_kept p l b1 : PA.wf (base p) → PA.wrote (base p) l b1 → kept p (set_base p b1).
Proof.
  intros Hwf Hw. pose proof (PA.contents_length _ Hwf). pose proof (PA.wf_pos _ Hwf). constructor.
  - unfold mObjects. cbn. by rewrite (PA.wr_objects _ _ _ Hw).
  - cbn. rewrite (PA.wr_contents _ _ _ Hw). unfold PA.overwrite. rewrite take_app_le, take_take, Nat.min_id by (rewrite length_take; lia). done.
  - cbn. rewrite (PA.wr_pos _ _ _ Hw). lia.
Qed.

Lemma same_kept p b1 : PA.same_data (base p) b1 → kept p (set_base p b1).
Proof. intros [A B C D _]. constructor; unfold mObjects; cbn; [by rewrite C|by rewrite D|lia]. Qed.

Lemma wrote_good p l b1 : good p → at_end p → PA.wrote (base p) l b1 → PA.mFdsKnown b1 = PA.mFdsKnown (base p) →
  next p (set_base p b1) (Z.of_nat (length l)) ∧ at_end (set_base p b1) ∧ held (set_base p b1) = held p.
Proof.
  intros Hg He Hw Hk. pose proof (wrote_objs _ _ _ Hg He Hw) as Hobj. pose proof (PA.wrote_size _ _ _ (good_wf _ Hg) Hw) as Hsz.
  pose proof (PA.wr_objects _ _ _ Hw) as Ho. destruct Hg as [Hwf Hown Hpl Hroom Hsize Hfds]. split; [|split].
  - constructor; cbn; [|done|unfold mObjectsSize, mObjects; cbn; rewrite Ho; lia|done|by apply (wrote_kept p l)]. constructor; unfold mObjectsSize, mObjects; cbn; rewrite ?Ho, ?Hk; try done.
    + apply Hw.
    + eapply placed_more; [exact Hpl|lia].
    + intros H. rewrite (Hfds H). by rewrite <- Hobj.
  - unfold at_end, mObjects. cbn. rewrite Ho, (PA.wr_pos _ _ _ Hw). eapply placed_more; [exact He|lia].
  - unfold held, mObjects. cbn. rewrite Ho. fold (mObjects p). by rewrite Hobj.
Qed.

Lemma same_good p b1 : good p → at_end p → PA.same_data (base p) b1 → PA.mFdsKnown b1 = PA.mFdsKnown (base p) →
  next p (set_base p b1) 0 ∧ at_end (set_base p b1) ∧ held (set_base p b1) = held p.
Proof.
  intros Hg He [H1 H2 H3 H4 H5] Hk. assert (objs_at b1 (mObjects p) = objs_at (base p) (mObjects p)) as Hobj.
  { pose proof (PA.wf_pos _ (good_wf _ Hg)). apply (objs_at_before _ _ _ 0 (PA.mDataSize (base p))); [done|apply Hg|].
    rewrite <- (contents_before b1), <- (contents_before (base p)), H4 by lia. done. }
  destruct Hg as [Hwf Hown Hpl Hroom Hsize Hfds]. split; [|split].
  - constructor; cbn; [|lia|unfold mObjectsSize, mObjects; cbn; rewrite H3; lia|done|by apply same_kept].
    constructor; unfold mObjectsSize, mObjects; cbn; rewrite ?H3, ?Hk, ?H2; try done. intros H. rewrite (Hfds H). by rewrite <- Hobj.
  - unfold at_end, mObjects. cbn. by rewrite H3, H1.
  - unfold held, mObjects. cbn. rewrite H3. fold (mObjects p). by rewrite Hobj.
Qed.

(** The same data, objects and references, perhaps in more memory. *)
Record same_parcel (p p' : Parcel) : Prop := {
  sp_next : next p p' 0;
  sp_data : PA.same_data (base p) (base p');
  sp_held : held p' = held p;
  sp_end : at_end p → at_end p' }.

Lemma same_parcel_refl p : good p → same_parcel p p.
Proof.
  intros Hg. constructor; [|by apply PA.same_data_refl, Hg|done|done]. constructor; [done|lia|lia|done|apply kept_refl].
Qed.

Lemma value_step_wrote p w m o l al : good p → at_end p → lifts p w m o → PA.wrote_or_failed (base p) l al o →
  (∀ e b, o = Returned (e, b) → PA.mFdsKnown b = PA.mFdsKnown (base p)) →
  wp m (λ r w', done_or_failed p w (Z.of_nat (length l)) r w' ∧
    (r.1 = NO_ERROR ∧ PA.wrote (base p) l (base r.2) ∨ r.1 = NO_MEMORY ∧ PA.mError (base r.2) = NO_MEMORY ∧ same_parcel p r.2)) w.
Proof.
  intros Hg He Hl Hc Hk. destruct Hc as [(b & -> & Hw)|(b & -> & _ & Hsd & Herr)]; destruct Hl as (w' & Hr & Hm).
  - destruct (wrote_good _ _ _ Hg He Hw) as (H1 & H2 & H3); [by eapply Hk|]. apply (wp_of _ _ _ _ _ Hr). split; [|by left]. split; [|split; [done|]].
    + apply (moved_ext _ _ _ _ _ _ Hm). intros r. rewrite H3. lia.
    + intros _. split; [done|apply Hw].
  - destruct (same_good _ _ Hg He Hsd) as (H1 & H2 & H3); [by eapply Hk|]. apply (wp_of _ _ _ _ _ Hr). split; [|by right; split_and!]. split; [|split; [|done]].
    + apply (moved_ext _ _ _ _ _ _ Hm). intros r. rewrite H3. lia.
    + destruct H1 as [A B C D K]. constructor; [done|lia|done..].
Qed.

Lemma value_step p w m o l al : good p → at_end p → lifts p w m o → PA.wrote_or_failed (base p) l al o →
  (∀ e b, o = Returned (e, b) → PA.mFdsKnown b = PA.mFdsKnown (base p)) → wp m (done_or_failed p w (Z.of_nat (length l))) w.
Proof. intros Hg He Hl Hc Hk. eapply run_mono; [by eapply value_step_wrote|]. by intros r w1 [? _]. Qed.

Lemma good_pos p : good p → 0 ≤ PA.mDataPos (base p).
Proof. intros Hg. apply (good_wf _ Hg). Qed.

Lemma writeInt32_step p v w : good p → at_end p → PA.small (base p) 4 → wp (writeInt32 p v) (done_or_failed p w 4) w.
Proof.
  intros Hg He Hs. destruct (writeAligned_lifts 4 p v w (good_own _ Hg) (good_pos _ Hg)) as [al Hl].
  change (wp (writeAligned 4 p v) (done_or_failed p w (Z.of_nat (length (le_bytes 4 v)))) w).
  eapply (value_step p w _ _ _ al Hg He Hl); [by apply PA.writeAligned_cases; [apply Hg|]|apply writeAligned_known].
Qed.

Lemma write_step p l w : good p → at_end p → PA.mError (base p) = NO_ERROR → PA.small (base p) (Z.of_nat (length l) + 3) →
  wp (write p (Z.of_nat (length l)) (Returned l)) (done_or_failed p w (Z.of_nat (length l) + 3)) w.
Proof.
  intros Hg He Herr Hs. destruct (good_wf _ Hg) as [Hp Hsz Hc]. destruct Hs as [Hs1 Hs2].
  destruct (write_lifts p l w (good_own _ Hg) (good_pos _ Hg)) as [al Hl]; [lia|].
  eapply run_mono; [eapply (value_step p w _ _ _ al Hg He Hl); [by apply PA.write_cases; [apply Hg|done|split]|apply write_known]|].
  intros [err p'] w' (H1 & [A B C D K] & H3). split; [done|]. split; [|done]. constructor; [done| |done..].
  pose proof (PA.padded_length l ltac:(lia)). destruct (PA.PAD_SIZE_bounds (Z.of_nat (length l)) ltac:(lia)). lia.
Qed.

(** ** Writing an object *)

Definition object_ok (o : flat_binder_object) : Prop :=
  0 ≤ PA.type o < 2 ^ 32 ∧ 0 ≤ PA.flags o < 2 ^ 32 ∧ 0 ≤ PA.binder o < 2 ^ 32 ∧ 0 ≤ PA.cookie o < 2 ^ 32.

Lemma object_bytes_length o : length (object_bytes o) = 16%nat.
Proof. done. Qed.

Lemma object_words o : PA.object_of (object_bytes o) = PA.mkObject (u32 (PA.type o)) (u32 (PA.flags o)) (u32 (PA.binder o)) (u32 (PA.cookie o)).
Proof.
  assert (∀ a b c d : list Z, length a = 4%nat → length b = 4%nat → length c = 4%nat → length d = 4%nat →
    PA.object_of (a ++ b ++ c ++ d) = PA.mkObject (le a) (le b) (le c) (le d)) as H.
  { intros a b c d Ha Hb Hc Hd. do 5 (destruct a as [|? a]; try discriminate Ha). do 5 (destruct b as [|? b]; try discriminate Hb).
    do 5 (destruct c as [|? c]; try discriminate Hc). do 5 (destruct d as [|? d]; try discriminate Hd). done. }
  unfold object_bytes. rewrite H by apply le_bytes_length. by rewrite !le_le_bytes.
Qed.

Lemma object_roundtrip o : object_ok o → PA.object_of (object_bytes o) = o.
Proof. intros (H1 & H2 & H3 & H4). rewrite object_words, !u32_small by done. by destruct o. Qed.

(** The object written at the position is there. *)
Lemma wrote_obj b val b1 : PA.wf b → object_ok val → PA.wrote b (object_bytes val) b1 → obj_at b1 (PA.mDataPos b) = val.
Proof.
  intros Hwf Hok Hw. pose proof (PA.wr_contents _ _ _ Hw) as Hc. pose proof (PA.wr_wf _ _ _ Hw) as Hwf1. pose proof (PA.wf_pos _ Hwf1) as Hp1.
  rewrite (PA.wr_pos _ _ _ Hw), object_bytes_length in Hp1. pose proof (PA.contents_length _ Hwf). pose proof (PA.wf_pos _ Hwf).
  unfold obj_at. rewrite <- (object_roundtrip val Hok). f_equal.
  apply (f_equal (λ l, take 16 (drop (Z.to_nat (PA.mDataPos b)) l))) in Hc. unfold PA.contents at 1 in Hc.
  rewrite !take_drop_commute, take_take in Hc. rewrite take_drop_commute. rewrite Nat.min_l in Hc by lia. rewrite Hc. unfold PA.overwrite.
  rewrite <- take_drop_commute, drop_app_length' by (rewrite length_take; lia). by rewrite take_app_length' by done.
Qed.

(** A parcel with an object more than [p], written at its position. *)
Definition recorded (meta : bool) (val : flat_binder_object) : bool := meta || negb (PA.binder val =? 0).
Record wrote_object (p : Parcel) (meta : bool) (val : flat_binder_object) (p' : Parcel) : Prop := {
  wo_next : next p p' SIZEOF_object;
  wo_end : at_end p';
  wo_error : PA.mError (base p') = PA.mError (base p);
  wo_objects : mObjects p' = mObjects p ++ (if recorded meta val then [PA.mDataPos (base p)] else []);
  wo_pos : PA.mDataPos (base p') = PA.mDataPos (base p) + SIZEOF_object;
  wo_there : obj_at (base p') (PA.mDataPos (base p)) = val;
  wo_before : objs_at (base p') (mObjects p) = objs_at (base p) (mObjects p) }.

Lemma wrote_object_held p meta val p' : wrote_object p meta val p' → held p' = held p ++ (if recorded meta val then refs_of val else []).
Proof.
  intros [_ _ _ Ho _ Ht Hb]. unfold held. rewrite Ho. unfold objs_at in *. rewrite !fmap_app, concat_app, Hb. f_equal.
  destruct (recorded meta val); [|done]. cbn [fmap list_fmap concat]. by rewrite Ht, app_nil_r.
Qed.

(** The parcel with an entry more and the flag of descriptors set. *)
Definition entered (rec fd : bool) (pos : Z) (p : Parcel) : Parcel :=
  let p1 := if rec then set_objects p (mObjects p ++ [pos]) else p in if fd then set_has_fds p1 true else p1.

Lemma entered_facts rec fd pos p : let p' := finishWrite (entered rec fd pos p) SIZEOF_object in let b := PA.finishWrite (base p) SIZEOF_object in
  PA.mError (base p') = PA.mError b ∧ PA.mData (base p') = PA.mData b ∧ PA.mDataSize (base p') = PA.mDataSize b ∧ PA.mDataPos (base p') = PA.mDataPos b ∧
  mObjects p' = mObjects p ++ (if rec then [pos] else []) ∧ PA.mFdsKnown (base p') = (fd || PA.mFdsKnown b) ∧ mHasFds p' = (fd || mHasFds p) ∧
  mAllowFds p' = mAllowFds p ∧ mOwner p' = mOwner p ∧ objects_room p' = objects_room p ∧ mObjectsCapacity p' = mObjectsCapacity p.
Proof.
  destruct rec, fd; unfold finishWrite, PA.finishWrite, entered, set_objects, set_has_fds, mObjects; cbn; destruct (_ <? _); cbn; rewrite ?app_nil_r; done.
Qed.

Lemma objs_at_data b b' offs : PA.mData b' = PA.mData b → objs_at b' offs = objs_at b offs.
Proof. intros H. unfold objs_at, obj_at, PA.block. by rewrite H. Qed.

Lemma entered_good p meta val b1 : good p → at_end p → object_ok val →
  PA.wrote (base p) (object_bytes val) (PA.finishWrite b1 SIZEOF_object) → PA.mFdsKnown b1 = PA.mFdsKnown (base p) → PA.mObjects b1 = mObjects p →
  (recorded meta val = true → mObjectsSize p < objects_room p) → (is_fd val = true → meta = true) →
  wrote_object p meta val (finishWrite (entered (recorded meta val) (is_fd val) (PA.mDataPos (base p)) (set_base p b1)) SIZEOF_object).
Proof.
  intros Hg He Hok Hw Hk Hob Hroom Hfd. set (pos := PA.mDataPos (base p)). set (p' := finishWrite _ _). set (b' := PA.finishWrite b1 SIZEOF_object) in *.
  destruct (entered_facts (recorded meta val) (is_fd val) pos (set_base p b1)) as (E1 & E2 & E3 & E4 & E5 & E6 & E7 & E8 & E9 & E10 & E11).
  fold p' in E1, E2, E3, E4, E5, E6, E7, E8, E9, E10, E11. cbn [base set_base mHasFds mAllowFds mOwner objects_room mObjectsCapacity] in *. fold b' in E1, E2, E3, E4, E6.
  unfold mObjects in E5. cbn [base set_base] in E5. rewrite Hob in E5. fold (mObjects p) (mObjects p') in E5.
  assert (PA.mFdsKnown b' = PA.mFdsKnown (base p)) as Hk' by (unfold b'; by rewrite finish_known).
  destruct (wrote_good _ _ _ Hg He Hw Hk') as ([Hg1 Hsz _ _ Hkept] & He1 & _). pose proof (wrote_objs _ _ _ Hg He Hw) as Hbef.
  pose proof (wrote_obj _ _ _ (good_wf _ Hg) Hok Hw) as Hthere. pose proof (PA.wr_pos _ _ _ Hw) as Hpos. rewrite object_bytes_length in *.
  rewrite <- (objs_at_data _ _ _ E2) in Hbef. assert (obj_at (base p') pos = val) as Hthere' by (rewrite <- Hthere; unfold obj_at, PA.block; by rewrite E2).
  assert (at_end p') as He'.
  { unfold at_end. rewrite E5, E4, Hpos. destruct (recorded meta val); [by apply placed_snoc|]. rewrite app_nil_r. eapply placed_more; [exact He|done || lia]. }
  destruct (good_wf _ Hg1) as [Hp1 Hs1 Hc1]. cbn [base set_base] in *.
  constructor; [|done|rewrite E1; apply Hw|done|by rewrite E4, Hpos|done|done].
  constructor; [|rewrite E3; exact Hsz| |by rewrite E8|].
  - destruct Hg as [_ Hown _ Hrm Hsize Hfds]. constructor.
    + constructor; rewrite ?E3, ?E4; try done; unfold PA.mDataCapacity, PA.block in *; by rewrite E2.
    + by rewrite E9.
    + eapply placed_more; [exact He'|]. rewrite E3, E4. lia.
    + by rewrite E10, E11.
    + unfold mObjectsSize in *. rewrite E5, E11, length_app. destruct (recorded meta val); cbn [length]; [specialize (Hroom eq_refl)|]; lia.
    + rewrite E6, E7, Hk', E5. unfold objs_at in *. rewrite fmap_app, existsb_app, Hbef. destruct (is_fd val) eqn:Hv; cbn [orb].
      * intros _. unfold recorded. rewrite (Hfd eq_refl). cbn [orb fmap list_fmap existsb]. rewrite Hthere', Hv. by rewrite orb_true_r.
      * intros H. rewrite (Hfds H). unfold objs_at. destruct (recorded meta val); cbn [fmap list_fmap existsb]; rewrite ?Hthere', ?Hv; by rewrite ?orb_false_r.
  - unfold mObjectsSize. rewrite E5, length_app. destruct (recorded meta val); cbn [length]; lia.
  - destruct Hkept as [_ K2 K3]. cbn [base set_base] in *. constructor; [rewrite E5; by eexists| |by rewrite E4].
    rewrite <- K2. unfold PA.contents, PA.block. by rewrite E2, E3.
Qed.

Lemma finish_data b n : PA.mData (PA.finishWrite b n) = PA.mData b.
Proof. unfold PA.finishWrite. by destruct (_ <? _). Qed.

Lemma entered_memory rec fd pos p b1 : same_block (base p) b1 → same_memory p (finishWrite (entered rec fd pos (set_base p b1)) SIZEOF_object).
Proof.
  intros Hb. destruct (entered_facts rec fd pos (set_base p b1)) as (_ & E2 & _ & _ & _ & _ & _ & _ & E9 & _).
  rewrite finish_data in E2. cbn [base set_base mOwner] in E2, E9.
  pose proof (same_block_memory p _ _ Hb) as Hm. rewrite set_base_base in Hm. unfold same_memory, own_size, has_data, PA.mDataCapacity, PA.block in *.
  rewrite E2, E9. exact Hm.
Qed.

Lemma restart_object p val meta w : good p → at_end p → object_ok val → (is_fd val = true → mAllowFds p = true ∧ meta = true) →
  PA.mDataPos (base p) + SIZEOF_object ≤ PA.mDataCapacity (base p) → (recorded meta val = true → mObjectsSize p < objects_room p) →
  wp (restart_writeObject val meta p) (λ r w', r.1 = NO_ERROR ∧ wrote_object p meta val r.2 ∧
    moved p w r.2 w' (count (if recorded meta val then grabbed val else []))) w.
Proof.
  intros Hg He Hok Hfd Hcap Hroom. unfold restart_writeObject.
  destruct (PA.store_finish (base p) (object_bytes val) (good_wf _ Hg)) as (b1 & Hs & Hw); [by rewrite object_bytes_length|].
  rewrite object_bytes_length in Hw. change (Z.of_nat 16) with SIZEOF_object in Hw.
  destruct (store_memory _ _ _ _ (good_pos _ Hg) Hs) as (Hc1 & Hd1 & Hp1). pose proof (store_known _ _ _ _ Hs) as Hk1.
  assert (PA.mObjects b1 = mObjects p) as Hob by (pose proof (PA.wr_objects _ _ _ Hw) as H; revert H; unfold PA.finishWrite; by destruct (_ <? _)).
  apply run_bind. unfold store. rewrite (good_own _ Hg). apply run_bind. eapply wp_run; [exact Hs|]. apply run_ret.
  pose proof (entered_good p meta val b1 Hg He Hok Hw Hk1 Hob Hroom (λ H, proj2 (Hfd H))) as Hwo. fold (recorded meta val).
  set (Q := λ r w', _). assert (∀ p2 w2, acts w w2 (count (if recorded meta val then grabbed val else [])) →
    p2 = (if recorded meta val then set_objects (set_base p b1) (mObjects (set_base p b1) ++ [PA.mDataPos (base p)]) else set_base p b1) →
    wp (if is_fd val then if negb (mAllowFds p2) then mret (FDS_NOT_ALLOWED, p2) else mret (NO_ERROR, finishWrite (set_has_fds p2 true) SIZEOF_object)
        else mret (NO_ERROR, finishWrite p2 SIZEOF_object)) Q w2) as Hend.
  { intros p2 w2 Ha ->. set (p2 := if recorded meta val then _ else _). assert (mAllowFds p2 = mAllowFds p) as Hall by (unfold p2; by destruct (recorded meta val)).
    assert (∀ f, f = is_fd val → Q (NO_ERROR, finishWrite (if f then set_has_fds p2 true else p2) SIZEOF_object) w2) as HQ.
{ intros f ->. split; [done|]. split; [exact Hwo|]. apply (acts_moved _ _ _ _ _ Ha), entered_memory. done. }
    destruct (is_fd val) eqn:Hv; [rewrite Hall, (proj1 (Hfd eq_refl)); cbn [negb]|]; apply run_ret; by apply (HQ _ eq_refl). }
  apply run_bind. destruct (recorded meta val) eqn:Hrec; [|apply run_ret, Hend; [apply acts_refl|done]].
  apply run_bind. unfold push_object. unfold mObjectsSize, mObjects. cbn [base set_base objects_room]. rewrite Hob. fold (mObjectsSize p).
  rewrite (proj2 (Z.ltb_lt _ _)) by auto. apply run_ret. apply run_bind. eapply run_mono; [apply acquire_acts|]. intros ? w2 Ha.
  apply run_ret, Hend; [done|]. by rewrite <- Hob.
Qed.

Lemma growData_room p len w : good p → at_end p → PA.small (base p) len → PA.mDataCapacity (base p) < PA.mDataPos (base p) + len →
  wp (growData p len) (λ r w', moved p w r.2 w' (λ _, 0) ∧ same_parcel p r.2 ∧ objects_room r.2 = objects_room p ∧ mObjectsCapacity r.2 = mObjectsCapacity p ∧
    (r.1 = NO_ERROR ∧ PA.mDataPos (base p) + len ≤ PA.mDataCapacity (base r.2) ∧ PA.mError (base r.2) = PA.mError (base p) ∨ r.1 = NO_MEMORY)) w.
Proof.
  intros Hg He Hs Hcap. destruct (growData_lifts p len w (good_own _ Hg)) as [al Hl]. pose proof (grow_known (is_fd_at (base p)) (base p) len al) as Hk.
  assert (∃ err b, PA.growData (is_fd_at (base p)) (base p) len al = (err, b) ∧ PA.same_data (base p) b ∧
    (err = NO_ERROR ∧ PA.mDataPos (base p) + len ≤ PA.mDataCapacity b ∧ PA.mError b = PA.mError (base p) ∨ err = NO_MEMORY)) as (err & b & Hr & Hsd & Hc).
  { pose proof (PA.with_room_cases (is_fd_at (base p)) (base p) len al (λ b, Returned (0, b)) (λ err b, Returned (err, b)) (good_wf _ Hg) Hs) as H.
    unfold PA.with_room in H. destruct (good_wf _ Hg) as [Hp Hsz Hc]. destruct Hs as [Hs1 Hs2]. rewrite u32_small, (proj2 (Z.leb_gt _ _)) in H by lia.
    destruct (PA.growData _ _ _ _) as [err b]. exists err, b. split; [done|]. destruct (Z.eqb_spec err PA.NO_ERROR) as [->|Hne].
    - destruct H as [(b1 & [= <-] & Hsd & Herr & Hroom & _)|(b1 & [=] & _)]. split; [done|]. left. rewrite (PA.sd_pos _ _ Hsd) in Hroom. done.
    - destruct H as [(b1 & [= -> _] & _)|(b1 & [= -> <-] & _ & Hsd & _)]; [done|]. split; [done|]. by right. }
  rewrite Hr in Hl, Hk. destruct Hl as (w' & Hw & Hm). apply (wp_of _ _ _ _ _ Hw). cbn [fst snd] in *. split; [done|].
  destruct (same_good _ _ Hg He Hsd Hk) as (H1 & H2 & H3). split; [by constructor|]. done.
Qed.

Lemma set_room_good p n : good p → mObjectsSize p ≤ n → good (set_room p n n).
Proof. intros [A B C D E F] Hn. by constructor. Qed.

(** What [writeObject] does: it writes the object, or fails without memory and
    leaves the parcel. *)
Definition object_written (p : Parcel) (w : world) (meta : bool) (val : flat_binder_object) (r : Z * Parcel) (w' : world) : Prop :=
  (r.1 = NO_ERROR ∧ wrote_object p meta val r.2 ∧ moved p w r.2 w' (count (if recorded meta val then grabbed val else []))) ∨
  (r.1 = NO_MEMORY ∧ same_parcel p r.2 ∧ moved p w r.2 w' (λ _, 0)).

Lemma wrote_object_same p p1 meta val p' : good p → at_end p → same_parcel p p1 → PA.mError (base p1) = PA.mError (base p) →
  wrote_object p1 meta val p' → wrote_object p meta val p'.
Proof.
  intros Hg He [[N1 N2 N3 N4 N5] Hsd Hh Hend] Herr [[A B C D K] E F G H I J]. pose proof (PA.sd_pos _ _ Hsd) as Hpos. pose proof (PA.sd_objects _ _ Hsd) as Hobj.
  fold (mObjects p1) (mObjects p) in Hobj. rewrite Hpos, Hobj in *. constructor; try done; try congruence.
  - constructor; [done|lia|unfold mObjectsSize in *; rewrite Hobj in *; lia|congruence|]. by apply (kept_trans p p1); [apply good_pos|..].
  - rewrite J. pose proof (PA.wf_pos _ (good_wf _ Hg)). apply (objs_at_before _ _ _ 0 (PA.mDataSize (base p))); [done|apply Hg|].
    rewrite <- (contents_before (base p1)), <- (contents_before (base p)), (PA.sd_contents _ _ Hsd) by lia. done.
Qed.

Lemma set_room_same p p1 n : same_parcel p p1 → mObjectsSize p1 ≤ n → same_parcel p (set_room p1 n n).
Proof.
  intros [[A B C D [K1 K2 K3]] E F G] Hn. constructor; [|done..]. constructor; [by apply set_room_good|done..].
Qed.

Lemma restart_same p p1 val meta w w1 : good p → at_end p → object_ok val → (is_fd val = true → mAllowFds p = true ∧ meta = true) →
  same_parcel p p1 → moved p w p1 w1 (λ _, 0) → PA.mError (base p1) = PA.mError (base p) →
  PA.mDataPos (base p) + SIZEOF_object ≤ PA.mDataCapacity (base p1) → mObjectsSize p1 < objects_room p1 →
  wp (restart_writeObject val meta p1) (object_written p w meta val) w1.
Proof.
  intros Hg He Hok Hfd Hsp Hm Herr Hcap Hroom. pose proof Hsp as [[N1 N2 N3 N4 N5] Hsd Hh Hend].
  eapply run_mono; [apply restart_object; [done|by apply Hend|done|by rewrite N4|by rewrite (PA.sd_pos _ _ Hsd)|done]|].
  intros r w2 (H1 & H2 & H3). left. split; [done|]. split; [by apply (wrote_object_same p p1)|].
  apply (moved_trans _ _ _ _ _ _ _ _ _ Hm H3). intros. lia.
Qed.

Lemma writeObject_step p val meta w : good p → at_end p → object_ok val → (is_fd val = true → mAllowFds p = true ∧ meta = true) →
  PA.small (base p) SIZEOF_object → (mObjectsSize p + 2) * 12 < 2 ^ 32 → wp (writeObject p val meta) (object_written p w meta val) w.
Proof.
  intros Hg He Hok Hfd Hs Hn. unfold writeObject. destruct (good_wf _ Hg) as [Hp Hsz Hc]. pose proof Hs as [Hs1 Hs2].
  rewrite (u32_small (PA.mDataPos (base p) + SIZEOF_object)) by lia. set (eo := mObjectsSize p <? mObjectsCapacity p).
  assert (∀ p1 w1, same_parcel p p1 → objects_room p1 = objects_room p → moved p w p1 w1 (λ _, 0) → PA.mError (base p1) = PA.mError (base p) →
    PA.mDataPos (base p) + SIZEOF_object ≤ PA.mDataCapacity (base p1) →
    wp (if eo then restart_writeObject val meta p1
        else let newSize := u32 (u32 (mObjectsSize p1 + 2) * 3) / 2 in
             objects ← malloc (u32 (newSize * 4));
             match objects with None => mret (NO_MEMORY, p1) | Some _ => restart_writeObject val meta (set_room p1 newSize newSize) end)
      (object_written p w meta val) w1) as Hgo.
  { intros p1 w1 Hsp Hroom Hm Herr Hcap.
    assert (mObjectsSize p1 = mObjectsSize p) as Hsz1 by (unfold mObjectsSize, mObjects; by rewrite (PA.sd_objects _ _ (sp_data _ _ Hsp))).
    destruct eo eqn:Heo.
    { apply restart_same; try done. apply Z.ltb_lt in Heo. by rewrite Hroom, (good_room _ Hg), Hsz1. }
    rewrite Hsz1. rewrite (u32_small (mObjectsSize p + 2)), u32_small by (unfold mObjectsSize in *; lia). cbv zeta.
    set (n := (mObjectsSize p + 2) * 3 / 2). assert (mObjectsSize p < n) as Hlt by (unfold n, mObjectsSize in *; Z.div_mod_to_equations; lia).
    unfold wp. rewrite malloc_bind. set (w2 := mkWorld _ _ _).
    assert (moved p w p1 w2 (λ _, 0)) as Hm2 by (apply (moved_trans _ _ _ _ _ _ _ _ _ Hm (acts_moved p1 w1 p1 w2 _ (alloc_acts _ w1) (conj eq_refl eq_refl))); intros; lia).
    destruct (alloc (trace w1)); [|exists (NO_MEMORY, p1), w2; split; [done|]; by right].
    apply (restart_same p (set_room p1 n n) val meta w w2); try done; [by apply set_room_same; [|lia]| |change (mObjectsSize p1 < n); lia].
    apply (moved_memory _ _ _ _ _ _ Hm2). done. }
  destruct (Z.leb_spec (PA.mDataPos (base p) + SIZEOF_object) (PA.mDataCapacity (base p))); cbn [andb].
  - pose proof (Hgo p w (same_parcel_refl p Hg) eq_refl (moved_refl p w) eq_refl ltac:(done)) as H1. destruct eo; [exact H1|]. apply run_bind, run_ret. exact H1.
  - apply run_bind. eapply run_mono; [by apply growData_room|]. intros [err p1] w1 (Hm & Hsp & Hroom & Hcapo & Hc1). cbn [fst snd] in *.
    destruct Hc1 as [(-> & Hcap & Herr)| ->]; [apply Hgo; done|]. apply run_ret. by right.
Qed.

(** ** Sequences of writes *)

Inductive op :=
  | OInt32 (v : Z) | OBytes (l : list Z) | OStrong (b : option IBinder) | OWeak (b : option IBinder) (alive : bool) | OFd (fd : Z) | ODupFd (fd : Z).

Definition run_op (p : Parcel) (o : op) : M (Z * Parcel) :=
  match o with
  | OInt32 v => writeInt32 p v
  | OBytes l => write p (Z.of_nat (length l)) (Returned l)
  | OStrong b => writeStrongBinder p b
  | OWeak b alive => writeWeakBinder p b alive
  | OFd fd => writeFileDescriptor p fd false
  | ODupFd fd => writeDupFileDescriptor p fd
  end.

Fixpoint write_all (p : Parcel) (ops : list op) : M (Z * Parcel) :=
  match ops with [] => mret (NO_ERROR, p) | o :: ops => and_then (run_op p o) (λ p, write_all p ops) end.

Definition op_size (o : op) : Z := match o with OInt32 _ => 4 | OBytes l => Z.of_nat (length l) + 3 | _ => SIZEOF_object end.
Definition binder_ok (b : option IBinder) : Prop := match b with Some (BBinder a) => 0 ≤ a < 2 ^ 32 | _ => True end.
Definition op_ok (o : op) : Prop := match o with OStrong b | OWeak b _ => binder_ok b | _ => True end.

(** Addresses and descriptors are machine words. *)
Context (refs_word : ∀ b, 0 ≤ getWeakRefs b < 2 ^ 32) (dup_int : ∀ tr, -2 ^ 31 ≤ dup_os tr < 2 ^ 31).

Lemma null_object_ok : object_ok null_object.
Proof. by repeat split. Qed.

(** What [flatten_binder] writes, and what the weak one writes. *)
Definition strong_object (b : option IBinder) : flat_binder_object :=
  match b with
  | None => null_object
  | Some (BBinder a) => PA.mkObject BINDER_TYPE_BINDER FLAT_FLAGS (getWeakRefs a) a
  | Some (BpBinder _ h) => PA.mkObject BINDER_TYPE_HANDLE FLAT_FLAGS (u32 h) 0
  | Some (OtherBinder _) => PA.mkObject BINDER_TYPE_HANDLE FLAT_FLAGS (u32 0) 0
  end.
Definition weak_object (b : option IBinder) (alive : bool) : flat_binder_object :=
  match b with
  | None => null_object
  | Some b =>
      if alive then
        match b with
        | BBinder a => PA.mkObject BINDER_TYPE_WEAK_BINDER FLAT_FLAGS (getWeakRefs a) a
        | BpBinder _ h => PA.mkObject BINDER_TYPE_WEAK_HANDLE FLAT_FLAGS (u32 h) 0
        | OtherBinder _ => PA.mkObject BINDER_TYPE_WEAK_HANDLE FLAT_FLAGS (u32 0) 0
        end
      else null_object
  end.

Lemma flatten_writes b p : flatten_binder b p = writeObject p (strong_object b) false.
Proof. by destruct b as [[]|]. Qed.
Lemma flatten_weak_writes b alive p : flatten_weak_binder b alive p = writeObject p (weak_object b alive) false.
Proof. by destruct b as [[]|], alive. Qed.

Lemma flat_word t a b c : 0 ≤ t < 2 ^ 32 → 0 ≤ b < 2 ^ 32 → 0 ≤ c < 2 ^ 32 → a = FLAT_FLAGS → object_ok (PA.mkObject t a b c).
Proof. intros ? ? ? ->. done. Qed.

Lemma strong_ok b : binder_ok b → object_ok (strong_object b) ∧ is_fd (strong_object b) = false.
Proof. destruct b as [[]|]; cbn [strong_object binder_ok]; intros Hb; (split; [apply flat_word|]); try done; apply u32_range. Qed.
Lemma weak_ok b alive : binder_ok b → object_ok (weak_object b alive) ∧ is_fd (weak_object b alive) = false.
Proof. destruct b as [[]|], alive; cbn [weak_object binder_ok]; intros Hb; (split; [apply flat_word|]); try done; apply u32_range. Qed.

Lemma grabbed_binder o : is_fd o = false → grabbed o = refs_of o.
Proof. unfold grabbed. by intros ->. Qed.

Definition room_for (p : Parcel) (size : Z) : Prop := (PA.mDataSize (base p) + size) * 3 < 2 ^ 32 ∧ 0 ≤ size.

Lemma binder_step p val w : good p → at_end p → object_ok val → is_fd val = false → room_for p SIZEOF_object → (mObjectsSize p + 2) * 12 < 2 ^ 32 →
  wp (writeObject p val false) (done_or_failed p w SIZEOF_object) w.
Proof.
  intros Hg He Hok Hv [Hs1 Hs2] Hn. eapply run_mono; [apply writeObject_step; [done|done|done|by rewrite Hv|by split|done]|].
  intros [err p'] w' [(H1 & Hwo & Hm)|(H1 & Hsp & Hm)]; cbn [fst snd] in *.
  - split; [|split; [apply Hwo|intros _; split; apply Hwo]]. apply (moved_ext _ _ _ _ _ _ Hm). intros r.
    rewrite (wrote_object_held _ _ _ _ Hwo), count_app, (grabbed_binder _ Hv). lia.
  - destruct Hsp as [[A B C D K] E F G]. split; [|split; [constructor; try done; unfold SIZEOF_object in *; lia|by rewrite H1]].
    apply (moved_ext _ _ _ _ _ _ Hm). intros r. rewrite F. lia.
Qed.

Definition fd_object (fd cookie : Z) : flat_binder_object := PA.mkObject BINDER_TYPE_FD FLAT_FLAGS (u32 fd) cookie.
Lemma fd_refs fd cookie : -2 ^ 31 ≤ fd < 2 ^ 31 → refs_of (fd_object fd cookie) = if (cookie =? 0) || (fd <? 0) then [] else [RFd fd].
Proof.
  intros Hfd. assert (handle (fd_object fd cookie) = fd) as Hh by (unfold handle; cbn; by apply PA.s32_mod_id).
  unfold refs_of. rewrite Hh. done.
Qed.

(** Writing a descriptor, that [cookie] gives to the parcel. *)
Lemma fd_step p fd (own : bool) w : good p → at_end p → mAllowFds p = true → room_for p SIZEOF_object → (mObjectsSize p + 2) * 12 < 2 ^ 32 →
  wp (writeFileDescriptor p fd own) (λ r w', next p r.2 SIZEOF_object ∧ moved p w r.2 w' (λ _, 0) ∧
    (r.1 = NO_ERROR ∧ held r.2 = held p ++ refs_of (fd_object fd (if own then 1 else 0)) ∧ at_end r.2 ∧ PA.mError (base r.2) = PA.mError (base p) ∨
     r.1 = NO_MEMORY ∧ held r.2 = held p)) w.
Proof.
  intros Hg He Hall [Hs1 Hs2] Hn. eapply run_mono; [apply writeObject_step; [done|done| |done|by split|done]|].
  - apply flat_word; try done; [apply u32_range|by destruct own].
  - intros [err p'] w' [(H1 & Hwo & Hm)|(H1 & Hsp & Hm)]; cbn [fst snd] in *.
    + split; [apply Hwo|]. split; [exact Hm|]. left. split; [done|]. split; [apply (wrote_object_held _ _ _ _ Hwo)|split; apply Hwo].
    + destruct Hsp as [[A B C D K] E F G]. split; [constructor; try done; unfold SIZEOF_object in *; lia|]. split; [done|]. by right.
Qed.

Lemma dup_acts fd w : wp (dup fd) (λ d w', d = dup_os (trace w) ∧ acts w w' (λ r, if 0 <=? d then count [RFd d] r else 0)) w.
Proof.
  eexists _, _. split; [done|]. split; [done|]. constructor; [|done..]. intros r. unfold net. cbn [trace]. rewrite sum_by_cons. cbn [change].
  destruct (0 <=? dup_os (trace w)); [rewrite count_one; case_decide; subst; try done|]; lia.
Qed.

Lemma next_refl p n : good p → 0 ≤ n → next p p n.
Proof. intros Hg Hn. constructor; [done|lia|lia|done|apply kept_refl]. Qed.

Lemma dup_step p fd w : good p → at_end p → mAllowFds p = true → room_for p SIZEOF_object → (mObjectsSize p + 2) * 12 < 2 ^ 32 →
  wp (writeDupFileDescriptor p fd) (done_or_failed p w SIZEOF_object) w.
Proof.
  intros Hg He Hall Hs Hn. unfold writeDupFileDescriptor. apply run_bind. eapply run_mono; [apply dup_acts|]. intros d w1 (Hd & Ha).
  pose proof (dup_int (trace w)) as Hint. rewrite <- Hd in Hint. destruct (Z.ltb_spec d 0).
  - apply run_bind. eexists _, _. split; [done|]. apply run_ret. rewrite (proj2 (Z.leb_gt 0 d)) in Ha by lia.
    split; [|split; [by apply next_refl|done]]. apply acts_moved; [|done]. apply (acts_ext _ _ _ _ Ha). intros; lia.
  - rewrite (proj2 (Z.leb_le 0 d)) in Ha by lia. apply run_bind. eapply run_mono; [by apply fd_step|].
    intros [err p1] w2 (Hnx & Hm & Hc). cbn [fst snd] in *. 
    assert (moved p w p1 w2 (count [RFd d])) as Hm2.
    { eapply moved_trans; [apply (acts_moved p w p w1 _ Ha); done|exact Hm|]. intros. cbv beta iota. lia. }
    destruct Hc as [(-> & Hh & Hend)|(-> & Hh)]; apply run_bind; [apply run_ret, run_ret|cbn [negb Z.eqb]].
    + split; [|done]. apply (moved_ext _ _ _ _ _ _ Hm2). intros r. rewrite Hh, count_app, fd_refs by done. rewrite (proj2 (Z.ltb_ge d 0)) by lia. cbn [Z.eqb orb]. lia.
    + eapply run_mono; [apply close_acts|]. intros ? w3 Hcl. apply run_ret. split; [|done].
      apply (moved_trans _ _ _ _ _ _ _ _ _ Hm2 (acts_moved p1 w2 p1 w3 _ Hcl (conj eq_refl eq_refl))). intros r. rewrite Hh, (proj2 (Z.ltb_ge d 0)) by lia. cbv beta iota. lia.
Qed.

(** A parcel that further writes of so many bytes and objects keep in bounds. *)
Record ready (p : Parcel) (ops : list op) : Prop := {
  rd_good : good p;
  rd_end : at_end p;
  rd_error : PA.mError (base p) = NO_ERROR;
  rd_allow : mAllowFds p = true;
  rd_room : room_for p (sum_by op_size ops);
  rd_objects : (mObjectsSize p + Z.of_nat (length ops) + 2) * 12 < 2 ^ 32 }.

Lemma op_size_nonneg o : 0 ≤ op_size o.
Proof. destruct o; cbn; unfold SIZEOF_object; lia. Qed.

Lemma run_op_step p o ops w : ready p (o :: ops) → op_ok o → wp (run_op p o) (done_or_failed p w (op_size o)) w.
Proof.
  intros [Hg He Herr Hall [Hr1 Hr2] Ho] Hop. rewrite sum_by_cons in *. pose proof (sum_by_nonneg op_size ops ltac:(intros; apply op_size_nonneg)) as Hsum.
  pose proof (op_size_nonneg o). cbn [length] in Ho. assert ((mObjectsSize p + 2) * 12 < 2 ^ 32) as Ho' by lia.
  assert (room_for p (op_size o)) as Hroom by (split; lia). assert (PA.small (base p) (op_size o)) as Hsm by (destruct Hroom; split; lia).
  destruct o; cbn [run_op op_size] in *.
  - by apply writeInt32_step.
  - by apply write_step.
  - unfold writeStrongBinder. rewrite flatten_writes. destruct (strong_ok b Hop). by apply binder_step.
  - unfold writeWeakBinder. rewrite flatten_weak_writes. destruct (weak_ok b alive Hop). by apply binder_step.
  - eapply run_mono; [by apply fd_step|]. intros [err p'] w' (Hnx & Hm & Hc). cbn [fst snd] in *.
    assert (refs_of (fd_object fd 0) = []) as Hrefs by reflexivity. split; [|split; [done|]].
    + apply (moved_ext _ _ _ _ _ _ Hm). intros r. destruct Hc as [(_ & -> & _)|(_ & ->)]; rewrite ?count_app, ?Hrefs, ?count_nil; lia.
    + destruct Hc as [(_ & _ & Hc)|(-> & _)]; [done|by intros].
  - by apply dup_step.
Qed.

Lemma write_all_steps ops : ∀ p w, ready p ops → Forall op_ok ops → wp (write_all p ops) (λ r w', steps p w r.2 w' ∧ good r.2 ∧ kept p r.2) w.
Proof.
  induction ops as [|o ops IH]; intros p w Hr Hok; cbn [write_all].
  - apply run_ret. split; [|split; [apply Hr|apply kept_refl]]. apply (moved_ext _ _ _ _ _ _ (moved_refl p w)). intros r. cbn [snd]. lia.
  - apply Forall_cons in Hok as [Ho Hok]. apply run_bind. eapply run_mono; [by eapply run_op_step|]. intros [err p1] w1 (Hst & [A B C D K] & Hend).
    destruct (Z.eqb_spec err NO_ERROR) as [->|]; cbn [negb]; [|by apply run_ret]. destruct (Hend eq_refl) as [He1 Herr1].
    destruct Hr as [Hg He Herr Hall [Hr1 Hr2] Hobj]. rewrite sum_by_cons in *. cbn [length] in Hobj. pose proof (op_size_nonneg o).
    pose proof (sum_by_nonneg op_size ops ltac:(intros; apply op_size_nonneg)).
    eapply run_mono; [apply IH; [|done]|].
    + constructor; [done|done|congruence|congruence|split; lia|lia].
    + intros r w2 (H1 & H2 & H3). split; [by eapply steps_trans|]. split; [done|]. apply (kept_trans p p1); [by apply good_pos|done|done].
Qed.

(** ** The end of a parcel *)

Lemma destroy_moved p w : good p → wp (destroy p) (λ _ w', moved p w initState w' (λ r, - count (held p) r)) w.
Proof.
  intros Hg. unfold destroy, freeDataNoInit. rewrite (good_own _ Hg). apply run_bind. eapply run_mono; [apply releaseObjects_acts, good_inside, Hg|].
  intros ? w1 [A B C]. destruct (PA.mData (base p)) as [d|] eqn:Hd.
  - eexists _, _. split; [done|]. constructor; cbn [trace gParcelGlobalAllocSize gParcelGlobalAllocCount]; [done| |].
    + unfold own_size. rewrite (good_own _ Hg), B. cbn. rewrite Z.sub_0_r, u32_idemp. f_equal; lia.
    + unfold has_data. rewrite (good_own _ Hg), Hd, C. cbn. rewrite Z.sub_0_r, u32_idemp. f_equal; lia.
  - apply run_ret. apply acts_moved; [by constructor|]. unfold same_memory, own_size, has_data, PA.mDataCapacity, PA.block. by rewrite (good_own _ Hg), Hd.
Qed.

Lemma init_good : good initState.
Proof. by constructor. Qed.

(** C2: writes, whatever fails among them, leave a parcel that holds exactly the
    references its objects stand for; its end gives back all of them and closes
    every descriptor that was duplicated, and the counters of memory are what
    they were. *)
Theorem parcel_references ops w : Forall op_ok ops → sum_by op_size ops * 3 < 2 ^ 32 → (Z.of_nat (length ops) + 2) * 12 < 2 ^ 32 →
  ∃ err p w1 w2, write_all initState ops w = Returned ((err, p), w1) ∧ destroy p w1 = Returned (tt, w2) ∧
    (∀ r, net (trace w1) r = net (trace w) r + count (held p) r) ∧ (∀ r, net (trace w2) r = net (trace w) r) ∧
    u32 (gParcelGlobalAllocSize w2) = u32 (gParcelGlobalAllocSize w) ∧ u32 (gParcelGlobalAllocCount w2) = u32 (gParcelGlobalAllocCount w).
Proof.
  intros Hok Hsum Hlen. assert (ready initState ops) as Hr.
  { constructor; try done. split; [cbn; lia|]. apply sum_by_nonneg. intros; apply op_size_nonneg. }
  destruct (write_all_steps ops initState w Hr Hok) as ([err p] & w1 & H1 & Hst & Hg & _).
  destruct (destroy_moved p w1 Hg) as ([] & w2 & H2 & Hm). exists err, p, w1, w2. split; [done|]. split; [done|]. cbn [snd] in *.
  destruct Hst as [A1 B1 C1], Hm as [A2 B2 C2]. change (held initState) with (@nil ref) in *. cbn in B2, C2, B1, C1. rewrite !Z.sub_0_r in *.
  split; [intros r; rewrite A1; cbv beta; rewrite ?count_nil; lia|]. split; [intros r; rewrite A2, A1; cbv beta; rewrite ?count_nil; lia|]. split; congruence.
Qed.

(** ** Reading objects back *)

Lemma readObject_at p off i hint : PA.wf (base p) → placed (mObjects p) 0 (PA.mDataSize (base p)) → mObjects p !! i = Some off →
  let b := PA.set_hint (PA.set_pos (base p) off) hint in
  ∃ b', PA.readObject b true = Returned (Some (obj_at (base p) off), b') ∧ PA.mDataPos b' = off + SIZEOF_object ∧
        (PA.readObject b false = Returned (Some (obj_at (base p) off), b') ∨
         PA.cookie (obj_at (base p) off) = 0 ∧ PA.binder (obj_at (base p) off) = 0 ∧ PA.readObject b false = Returned (Some (obj_at (base p) off), PA.set_pos b (off + SIZEOF_object))).
Proof.
  intros Hwf Hpl Hi b. pose proof (placed_in _ _ _ Hpl) as Hin. rewrite Forall_lookup in Hin. destruct (Hin _ _ Hi) as [H0 H1].
  assert (PA.SIZEOF_object = 16) as H16 by done. destruct Hwf as [_ Hs Hc]. unfold PA.readObject, b. cbn [PA.mDataPos PA.mDataSize PA.set_hint PA.set_pos].
  rewrite u32_small, (proj2 (Z.leb_le _ _)) by lia. rewrite PA.load_ok by (change (off + 16 ≤ PA.mDataCapacity (base p)); lia). cbn [obind negb andb].
  change (PA.object_of _) with (obj_at (base p) off). change (PA.mObjects (PA.set_hint _ _)) with (mObjects p). change (PA.mNextObjectHint (PA.set_hint _ _)) with hint.
  rewrite (proj2 (PA.find_object_finds (mObjects p) (Z.to_nat hint) off i (placed_increasing _ _ _ Hpl))) by done.
  eexists. split; [done|]. split; [done|]. destruct (PA.cookie (obj_at (base p) off) =? 0) eqn:E1, (PA.binder (obj_at (base p) off) =? 0) eqn:E2; cbn [andb]; try by left.
  right. split; [by apply Z.eqb_eq|]. split; [by apply Z.eqb_eq|done].
Qed.

(** Binders that can be written so that they are found again. *)
Definition live (b : option IBinder) : Prop :=
  match b with
  | Some (BBinder a) => 0 < a < 2 ^ 32 ∧ getWeakRefs a ≠ 0
  | Some (BpBinder _ h) => -2 ^ 31 ≤ h < 2 ^ 31
  | _ => True
  end.
(** What the process reads of it. *)
Definition known (proxy : Z → option IBinder) (b : option IBinder) : option IBinder :=
  match b with
  | Some (BBinder a) => Some (BBinder a)
  | Some (BpBinder _ h) => proxy h
  | Some (OtherBinder _) => proxy 0
  | None => None
  end.

Definition at_place (p : Parcel) (pos hint : Z) : Parcel := set_base p (PA.set_hint (PA.set_pos (base p) pos) hint).

(** An object written stays readable while more is written, from any hint. *)
Lemma object_survives p val o ops w : ready p (o :: ops) → op_size o = SIZEOF_object → Forall op_ok ops → object_ok val → is_fd val = false →
  (PA.binder val = 0 → PA.cookie val = 0) →
  wp (writeObject p val false) (λ r w', r.1 = NO_MEMORY ∧ same_parcel p r.2 ∨
    r.1 = NO_ERROR ∧ wp (write_all r.2 ops) (λ r2 _, ∀ hint, ∃ p'',
      readObject (at_place r2.2 (PA.mDataPos (base p)) hint) false = Returned (Some val, p'') ∧ PA.mDataPos (base p'') = PA.mDataPos (base p) + SIZEOF_object) w') w.
Proof.
  intros Hr Hsize Hops Hok Hv Hnull. pose proof Hr as [Hg He Herr Hall [Hr1 Hr2] Ho]. rewrite sum_by_cons in *. cbn [length] in Ho.
  pose proof (sum_by_nonneg op_size ops ltac:(intros; apply op_size_nonneg)) as Hsum. rewrite Hsize in *.
  assert (PA.SIZEOF_object = 16) as H16 by done. set (pos := PA.mDataPos (base p)) in *.
  eapply run_mono; [apply writeObject_step; [done|done|done|by rewrite Hv|split; lia|lia]|]. intros [err p1] w1 [(H1 & Hwo & Hm)|(H1 & Hsp & _)]; [|by left].
  right. cbn [fst snd] in *. split; [done|]. destruct Hwo as [[A B C D K] He1 Herr1 Hobj Hpos Ht _]. fold pos in Hobj, Hpos, Ht.
  eapply run_mono; [apply write_all_steps; [constructor; try done; [congruence|congruence|split; lia|lia]|done]|].
  intros [err2 p2] w2 (_ & Hg2 & [K1 K2 K3]) hint. cbn [fst snd] in *. pose proof (good_pos _ Hg) as Hpos0. fold pos in Hpos0.
  destruct (good_wf _ Hg2) as [P1 P2 P3]. destruct (good_wf _ A) as [Q1 Q2 Q3].
  assert (obj_at (base p2) pos = val) as Ht2.
  { rewrite <- Ht. apply (obj_at_before _ _ _ (pos + SIZEOF_object)); [done|done|]. rewrite <- (contents_before (base p1)), <- (contents_before (base p2)) by lia.
    by rewrite <- Hpos. }
  unfold readObject, lift_read, at_place. cbn [base set_base].
  destruct (recorded false val) eqn:Hrec; unfold recorded in Hrec; cbn [orb] in Hrec.
  - rewrite Hobj in K1. destruct K1 as [k Hk]. rewrite <- app_assoc in Hk. cbn [app] in Hk.
    destruct (readObject_at p2 pos (length (mObjects p)) hint (good_wf _ Hg2) (good_placed _ Hg2)) as (b' & _ & Hb & [->|(_ & E2 & _)]); [by rewrite Hk, list_lookup_middle| |].
    + rewrite Ht2. cbn [obind]. eexists. by split.
    + rewrite Ht2 in E2. by rewrite E2 in Hrec.
  - apply negb_false_iff, Z.eqb_eq in Hrec. unfold PA.readObject. cbn [PA.mDataPos PA.mDataSize PA.set_hint PA.set_pos].
    rewrite u32_small, (proj2 (Z.leb_le _ _)) by lia. rewrite PA.load_ok by (change (pos + 16 ≤ PA.mDataCapacity (base p2)); lia). cbn [obind negb andb].
    change (PA.object_of _) with (obj_at (base p2) pos). rewrite Ht2, Hrec, (Hnull Hrec). cbn [Z.eqb andb obind]. eexists. by split.
Qed.

(** C12: a binder written is what is read at its place, in this process, whatever
    is written behind it and whether or not that succeeds; without memory for it
    the parcel is as before. *)
Theorem strong_binder_roundtrip p b ops w : ready p (OStrong b :: ops) → Forall op_ok ops → live b →
  wp (writeStrongBinder p b) (λ r w', r.1 = NO_MEMORY ∧ same_parcel p r.2 ∨
    r.1 = NO_ERROR ∧ wp (write_all r.2 ops) (λ r2 _, ∀ hint, ∃ p'',
      readStrongBinder (at_place r2.2 (PA.mDataPos (base p)) hint) = Returned (known strong_proxy b, p'') ∧
      PA.mDataPos (base p'') = PA.mDataPos (base p) + SIZEOF_object) w') w.
Proof.
  intros Hr Hops Hl. unfold writeStrongBinder. rewrite flatten_writes.
  destruct (strong_ok b) as [Hok Hv]; [destruct b as [[]|]; cbn in *; lia || done|].
  eapply run_mono; [apply (object_survives p (strong_object b) _ ops w Hr eq_refl); [done|done|done|destruct b as [[]|]; cbn in *; tauto]|].
  intros r w1 [H|(H1 & H2)]; [by left|]. right. split; [done|]. eapply run_mono; [exact H2|]. intros r2 w2 H3 hint. destruct (H3 hint) as (p2 & Hread & Hpos).
  exists p2. split; [|done]. unfold readStrongBinder, unflatten_binder. rewrite Hread. cbn [obind]. do 2 f_equal.
  destruct b as [[a|a h|a]|]; cbn in *; unfold local_of, handle; cbn; try done.
  - by rewrite (proj2 (Z.eqb_neq a 0)) by lia.
  - unfold u32. by rewrite PA.s32_mod_id.
Qed.

(** The same of a weak reference to a binder that is alive; of one that is not,
    nothing is read. *)
Theorem weak_binder_roundtrip p b (alive : bool) ops w : ready p (OWeak b alive :: ops) → Forall op_ok ops → live b →
  wp (writeWeakBinder p b alive) (λ r w', r.1 = NO_MEMORY ∧ same_parcel p r.2 ∨
    r.1 = NO_ERROR ∧ wp (write_all r.2 ops) (λ r2 _, ∀ hint, ∃ p'',
      readWeakBinder (at_place r2.2 (PA.mDataPos (base p)) hint) = Returned (if alive then known weak_proxy b else None, p'') ∧
      PA.mDataPos (base p'') = PA.mDataPos (base p) + SIZEOF_object) w') w.
Proof.
  intros Hr Hops Hl. unfold writeWeakBinder. rewrite flatten_weak_writes.
  destruct (weak_ok b alive) as [Hok Hv]; [destruct b as [[]|]; cbn in *; lia || done|].
  eapply run_mono; [apply (object_survives p (weak_object b alive) _ ops w Hr eq_refl); [done|done|done|destruct b as [[]|], alive; cbn in *; tauto]|].
  intros r w1 [H|(H1 & H2)]; [by left|]. right. split; [done|]. eapply run_mono; [exact H2|]. intros r2 w2 H3 hint. destruct (H3 hint) as (p2 & Hread & Hpos).
  exists p2. split; [|done]. unfold readWeakBinder, unflatten_weak_binder. rewrite Hread. cbn [obind]. do 2 f_equal.
  destruct b as [[a|a h|a]|], alive; cbn in *; unfold local_of, handle; cbn; try done.
  - rewrite (proj2 (Z.eqb_neq (getWeakRefs a) 0)) by tauto. cbn. by rewrite (proj2 (Z.eqb_neq a 0)) by lia.
  - unfold u32. by rewrite PA.s32_mod_id.
Qed.

(** ** Knowing of descriptors *)

Lemma any_fd_spec b offs : Forall (inside b) offs → any_fd b offs = Returned (existsb is_fd (objs_at b offs)).
Proof.
  induction 1 as [|off offs Hoff _ IH]; [done|]. cbn [any_fd objs_at fmap list_fmap existsb]. rewrite object_at_ok by apply Hoff.
  cbn [obind]. destruct (is_fd (obj_at b off)); [done|]. by rewrite IH.
Qed.

(** After any writes a parcel says truly whether there are descriptors in it. *)
Theorem descriptors_known ops w : Forall op_ok ops → sum_by op_size ops * 3 < 2 ^ 32 → (Z.of_nat (length ops) + 2) * 12 < 2 ^ 32 →
  ∃ err p w1 p1, write_all initState ops w = Returned ((err, p), w1) ∧
    hasFileDescriptors p = Returned (existsb is_fd (objs_at (base p) (mObjects p)), p1) ∧ mObjects p1 = mObjects p ∧ PA.contents (base p1) = PA.contents (base p).
Proof.
  intros Hok Hsum Hlen. assert (ready initState ops) as Hr.
  { constructor; try done. split; [cbn; lia|]. apply sum_by_nonneg. intros; apply op_size_nonneg. }
  destruct (write_all_steps ops initState w Hr Hok) as ([err p] & w1 & H1 & _ & Hg & _). cbn [snd] in Hg.
  exists err, p, w1. unfold hasFileDescriptors, scanForFds. destruct (PA.mFdsKnown (base p)) eqn:Hk; cbn [obind].
  - exists p. split; [done|]. by rewrite <- (good_fds _ Hg Hk).
  - rewrite any_fd_spec by (by apply good_inside). cbn [obind]. by eexists.
Qed.

(** ** Ends that go wrong *)

(** The object of a descriptor that is not allowed is entered all the same. *)
Lemma refused_fd p d w : good p → at_end p → mAllowFds p = false → 0 ≤ d < 2 ^ 31 →
  PA.mDataPos (base p) + SIZEOF_object ≤ PA.mDataCapacity (base p) → mObjectsSize p < mObjectsCapacity p →
  ∃ p', writeFileDescriptor p d true w = Returned ((FDS_NOT_ALLOWED, p'), w) ∧ held p' = held p ++ [RFd d] ∧
    Forall (inside (base p')) (mObjects p') ∧ mOwner p' = None.
Proof.
  intros Hg He Hall Hd Hcap Hroom. set (val := fd_object d 1). assert (object_ok val) as Hok by (apply flat_word; try done; apply u32_range).
  destruct (PA.store_finish (base p) (object_bytes val) (good_wf _ Hg)) as (b1 & Hs & Hw); [by rewrite object_bytes_length|].
  pose proof (wrote_obj _ _ _ (good_wf _ Hg) Hok Hw) as Hthere. pose proof (wrote_objs _ _ _ Hg He Hw) as Hbef.
  rewrite (objs_at_data b1 (PA.finishWrite b1 _)) in Hbef by apply finish_data.
  assert (obj_at b1 (PA.mDataPos (base p)) = val) as Hthere1 by (rewrite <- Hthere; unfold obj_at, PA.block; by rewrite finish_data).
  destruct (store_memory _ _ _ _ (good_pos _ Hg) Hs) as (Hc1 & _ & _). pose proof (good_wf _ Hg) as [_ _ Hc].
  assert (PA.mObjects b1 = mObjects p) as Hob by (pose proof (PA.wr_objects _ _ _ Hw) as H; revert H; unfold PA.finishWrite; by destruct (_ <? _)).
  exists (set_objects (set_base p b1) (mObjects p ++ [PA.mDataPos (base p)])). split; [|split; [|split; [|apply Hg]]].
  - unfold writeFileDescriptor, writeObject. pose proof (good_pos _ Hg). assert (PA.SIZEOF_object = 16) as H16 by done. rewrite u32_small, (proj2 (Z.leb_le _ _)), (proj2 (Z.ltb_lt _ _)) by lia. cbn [andb].
    unfold restart_writeObject, store. rewrite (good_own _ Hg). change (PA.mkObject BINDER_TYPE_FD FLAT_FLAGS (u32 d) 1) with val.
    unfold run, mbind, M_bind. rewrite Hs. cbn [obind mret M_ret orb]. unfold push_object. change (mObjectsSize (set_base p b1)) with (Z.of_nat (length (PA.mObjects b1))).
    rewrite Hob. fold (mObjectsSize p). change (objects_room (set_base p b1)) with (objects_room p). rewrite (good_room _ Hg), (proj2 (Z.ltb_lt _ _)) by done.
    change (mObjects (set_base p b1)) with (PA.mObjects b1). rewrite Hob.
    change (acquire_object val) with (mret tt : M unit). change (is_fd val) with true. cbn [obind mret M_ret]. change (mAllowFds _) with (mAllowFds p). by rewrite Hall.
  - unfold held. change (mObjects (set_objects _ _)) with (mObjects p ++ [PA.mDataPos (base p)]).
    rewrite (objs_at_data b1 (base (set_objects _ _))) by done. unfold objs_at in *. rewrite !fmap_app, concat_app, Hbef. f_equal.
    cbn [fmap list_fmap]. rewrite Hthere1. unfold val. rewrite fd_refs by lia. by rewrite (proj2 (Z.ltb_ge d 0)) by lia.
  - change (mObjects (set_objects _ _)) with (mObjects p ++ [PA.mDataPos (base p)]). assert (∀ off, inside (base p) off → inside (base (set_objects (set_base p b1) (mObjects p ++ [PA.mDataPos (base p)]))) off) as Hi.
    { intros off. unfold inside. change (PA.mDataCapacity (base (set_objects _ _))) with (PA.mDataCapacity b1). by rewrite Hc1. }
    apply Forall_app. split; [eapply Forall_impl; [by apply good_inside|exact Hi]|constructor; [|done]]. apply Hi. split; [by apply good_pos|done].
Qed.

(** A descriptor the parcel refuses is closed by the call and again by the
    end of the parcel. *)
Theorem refused_descriptor_closed_twice p fd w : good p → at_end p → mAllowFds p = false → 0 ≤ dup_os (trace w) →
  PA.mDataPos (base p) + SIZEOF_object ≤ PA.mDataCapacity (base p) → mObjectsSize p < mObjectsCapacity p →
  let d := dup_os (trace w) in
  ∃ p' w1 w2, writeDupFileDescriptor p fd w = Returned ((FDS_NOT_ALLOWED, p'), w1) ∧ destroy p' w1 = Returned (tt, w2) ∧
    net (trace w1) (RFd d) = net (trace w) (RFd d) ∧ net (trace w2) (RFd d) = net (trace w) (RFd d) - count (held p) (RFd d) - 1.
Proof.
  intros Hg He Hall Hd Hcap Hroom d. pose proof (dup_int (trace w)) as Hint. fold d in Hint, Hd.
  destruct (dup_acts fd w) as (d0 & w0 & Hdup & -> & Ha0). fold d in Hdup, Ha0. rewrite (proj2 (Z.leb_le 0 d)) in Ha0 by done.
  destruct (refused_fd p d w0 Hg He Hall ltac:(lia) Hcap Hroom) as (p' & Hw & Hheld & Hin & Hown).
  destruct (close_acts d w0) as ([] & w1 & Hclose & Ha1). rewrite (proj2 (Z.ltb_ge d 0)) in Ha1 by done.
  destruct (releaseObjects_acts p' w1 Hin) as ([] & w2 & Hrel & Ha2). rewrite Hheld in Ha2. cbv beta iota in Ha0, Ha1.
  assert (∃ w3, destroy p' w1 = Returned (tt, w3) ∧ trace w3 = trace w2) as (w3 & Hdes & Htr).
  { unfold destroy, freeDataNoInit. rewrite Hown. unfold mbind, M_bind. rewrite Hrel. cbn [obind].
    destruct (PA.mData (base p')); eexists; done. }
  exists p', w1, w3. split.
  { unfold writeDupFileDescriptor, mbind, M_bind. rewrite Hdup. cbn [obind]. rewrite (proj2 (Z.ltb_ge d 0)) by done. rewrite Hw. cbn [obind]. cbn [negb Z.eqb].
    change (negb (FDS_NOT_ALLOWED =? NO_ERROR)) with true. cbv iota. by rewrite Hclose. }
  split; [done|]. rewrite Htr, (ac_net _ _ _ Ha2), (ac_net _ _ _ Ha1), (ac_net _ _ _ Ha0), count_app, !count_one. destruct (decide (RFd d = RFd d)); [|done]. lia.
Qed.

(** Setting the data of a parcel with objects releases them from memory that
    is gone. *)
Theorem setData_releases_freed p buffer w : mOwner p = None → mObjects p ≠ [] → is_Some (alloc (trace w)) → setData p buffer w = Undefined.
Proof.
  intros Ho Hobj [junk Hj]. unfold setData, restartWrite. rewrite Ho. unfold mbind at 1, M_bind at 1. rewrite malloc_bind, Hj.
  by destruct (mObjects p).
Qed.

(** Setting the data of a new parcel does not count its block, which is
    counted off at the end. *)
Theorem setData_counts_short buffer w : is_Some (alloc (trace w)) →
  ∃ p w1 w2, setData initState buffer w = Returned ((NO_ERROR, p), w1) ∧ PA.contents (base p) = buffer ∧ destroy p w1 = Returned (tt, w2) ∧
    gParcelGlobalAllocCount w2 = u32 (gParcelGlobalAllocCount w - 1).
Proof.
  intros [junk Hj]. set (n := Z.of_nat (length buffer)). set (d := PA.resized [] n junk).
  assert (length d = length buffer) as Hd by (unfold d; rewrite PA.resized_length; unfold n; lia).
  assert (∃ w1, setData initState buffer w = Returned ((NO_ERROR, mkParcel (PA.mkParcel NO_ERROR (Some buffer) n 0 [] 0 false) 0 0 false true None), w1) ∧
    gParcelGlobalAllocCount w1 = u32 (gParcelGlobalAllocCount w)) as (w1 & H1 & Hc).
  { unfold setData, restartWrite. cbn [mOwner initState]. unfold mbind, M_bind, malloc, note, mbind, M_bind. cbn [obind mret M_ret trace]. rewrite Hj.
    cbn [mObjects initState base PA.initState PA.mObjects obind mret M_ret count_alloc]. fold n. unfold store. cbn [mOwner].
    unfold run, PA.store, PA.mDataCapacity, PA.block, mbind, M_bind. cbn [base PA.mData obind mret M_ret Z.eqb PA.initState]. fold d. rewrite Hd.
    rewrite (proj2 (Z.leb_le _ _)) by lia. cbn. rewrite drop_ge, app_nil_r by lia. eexists. split; [done|]. cbn. by rewrite Z.add_0_r. }
  eexists _, w1, _. split; [exact H1|]. split; [unfold PA.contents, PA.block; cbn; apply take_ge; unfold n; lia|]. split; [done|]. cbn. rewrite Hc. apply u32_add_l.
Qed.

(** The descriptors a release function closes, owned or not. *)
Definition closed_with (o : flat_binder_object) : list ref := if is_fd o then (if handle o <? 0 then [] else [RFd (handle o)]) else [].

Lemma closeFileDescriptors_acts p w : Forall (inside (base p)) (mObjects p) →
  wp (closeFileDescriptors p) (λ _ w', acts w w' (λ r, -1 * count (concat (closed_with <$> objs_at (base p) (mObjects p))) r)) w.
Proof.
  intros Hin. unfold closeFileDescriptors. eapply run_mono; [apply (each_acts _ _ closed_with (-1))|].
  - by apply Forall_reverse.
  - intros o w1. unfold closed_with. destruct (is_fd o).
    + eapply run_mono; [apply close_acts|]. intros ? w2 Ha. apply (acts_ext _ _ _ _ Ha). intros r. lia.
    + one_event.
  - intros ? w1 Ha. apply (acts_ext _ _ _ _ Ha). intros r. by rewrite count_reverse.
Qed.

Lemma acquireObjects_acts p w : Forall (inside (base p)) (mObjects p) →
  wp (acquireObjects p) (λ _ w', acts w w' (λ r, 1 * count (concat (grabbed <$> objs_at (base p) (mObjects p))) r)) w.
Proof.
  intros Hin. unfold acquireObjects. eapply run_mono; [apply (each_acts _ _ grabbed 1)|].
  - by apply Forall_reverse.
  - intros o w1. eapply run_mono; [apply acquire_acts|]. intros ? w2 Ha. apply (acts_ext _ _ _ _ Ha). intros r. lia.
  - intros ? w1 Ha. apply (acts_ext _ _ _ _ Ha). intros r. by rewrite count_reverse.
Qed.

Lemma malloc_acts n w : wp (malloc n) (λ a w', a = alloc (trace w) ∧ acts w w' (λ _, 0)) w.
Proof. eexists _, _. split; [done|]. split; [done|apply alloc_acts]. Qed.

Lemma set_objects_same p : set_objects p (mObjects p) = p.
Proof. by destruct p as [[] ? ? ? ? ?]. Qed.

Lemma wp_elim {A B} (m : M (A * B)) a Q w : wp m (λ r w', r.1 = a ∧ Q r.2 w') w → ∃ b w', m w = Returned ((a, b), w') ∧ Q b w'.
Proof. intros ([a' b] & w' & Hm & Ha & HQ). cbn in *. subst. eauto. Qed.

(** Taking over the data of the driver's buffer acquires the references of its
    objects, and closes the descriptors the copy keeps. *)
Theorem taken_over_descriptors_closed p buf desired w : mOwner p = Some buf → PA.wf (base p) → placed (mObjects p) 0 (PA.mDataSize (base p)) →
  0 < desired < 2 ^ 32 → PA.mDataSize (base p) ≤ desired → (∀ tr, is_Some (alloc tr)) →
  ∃ p' w', continueWrite p desired w = Returned ((NO_ERROR, p'), w') ∧ mOwner p' = None ∧ mObjects p' = mObjects p ∧
    objs_at (base p') (mObjects p) = objs_at (base p) (mObjects p) ∧
    ∀ r, net (trace w') r = net (trace w) r + count (concat (grabbed <$> objs_at (base p) (mObjects p))) r - count (concat (closed_with <$> objs_at (base p) (mObjects p))) r.
Proof.
  intros Ho [Hp Hs Hc] Hpl Hd Hsz Hal. apply (wp_elim _ NO_ERROR (λ p' w', _ ∧ _ ∧ _ ∧ ∀ r, net (trace w') r = _)). unfold continueWrite. rewrite Ho, (proj2 (Z.eqb_neq desired 0)) by lia.
  unfold PA.objects_left. rewrite (proj2 (Z.ltb_ge desired _)) by lia. fold (mObjects p). unfold take_possession. rewrite (take_ge (mObjects p)) by lia. rewrite set_objects_same.
  assert (Forall (inside (base p)) (mObjects p)) as Hin.
  { eapply Forall_impl; [apply (placed_in _ _ _ Hpl)|]. intros off. unfold inside. lia. }
  apply run_bind. eapply run_mono; [apply malloc_acts|]. intros a w1 [-> Ha1]. destruct (Hal (trace w)) as [junk ->].
  apply run_bind. eapply (run_mono _ (λ b w', b = true ∧ acts w1 w' (λ _, 0))).
  { destruct (length (mObjects p) =? 0)%nat; [apply run_ret; split; [done|apply acts_refl]|]. apply run_bind. eapply run_mono; [apply malloc_acts|].
    intros a w2 [-> Ha2]. apply run_ret. split; [|done]. by apply bool_decide_eq_true, Hal. }
  intros ok w2 [-> Ha2]. apply run_bind. eapply run_mono; [by apply acquireObjects_acts|]. intros ? w3 Ha3.
  apply run_bind. unfold freeBuffer. apply run_bind. eapply run_mono; [by apply closeFileDescriptors_acts|]. intros ? w4 Ha4.
  eapply run_mono; [apply note_acts|]. intros ? w5 Ha5. apply run_bind. eexists _, _. split; [done|]. apply run_ret.
  split; [done|]. cbn [snd mOwner mObjects base PA.mObjects]. split; [done|]. split; [done|]. split.
  - set (size := if PA.mDataSize (base p) <? desired then PA.mDataSize (base p) else desired).
    assert (size = PA.mDataSize (base p)) as -> by (unfold size; destruct (Z.ltb_spec (PA.mDataSize (base p)) desired); lia).
    apply (objs_at_before _ _ _ 0 (PA.mDataSize (base p))); [done|done|]. unfold PA.block at 1. cbn [PA.mData].
    unfold PA.mDataCapacity in Hs. rewrite PA.resized_take by (rewrite ?length_take; lia). rewrite take_take. f_equal. lia.
  - intros r. cbn [trace]. rewrite (ac_net _ _ _ Ha5), (ac_net _ _ _ Ha4), (ac_net _ _ _ Ha3), (ac_net _ _ _ Ha2), (ac_net _ _ _ Ha1). cbn [change]. lia.
Qed.

(** ** Parcels received from the driver *)

Lemma offsets_placed objs : ∀ lo n, 0 ≤ lo → n < 2 ^ 32 → lo ≤ n → Forall (λ off, 0 ≤ off ∧ off + SIZEOF_object ≤ n) objs →
  offsets_fit objs lo = true → placed objs lo n.
Proof.
  assert (PA.SIZEOF_object = 16) as H16 by done.
  induction objs as [|off objs IH]; intros lo n Hlo Hn Hle Hin Hfit; [done|]. apply Forall_cons in Hin as [[H1 H2] Hin]. cbn [offsets_fit] in Hfit.
  destruct (Z.ltb_spec off lo); [done|]. split; [done|]. rewrite u32_small in Hfit by lia. apply IH; try done; lia.
Qed.

(** What the driver delivered is taken as it is, if the objects lie apart: they
    are found from any hint.  If they do not, there are none.  What is said of
    descriptors is true. *)
Theorem received_objects data objects buf w : Forall (λ off, 0 ≤ off ∧ off + SIZEOF_object ≤ Z.of_nat (length data)) objects → Z.of_nat (length data) < 2 ^ 32 →
  ∃ p, ipcSetDataReference initState data objects buf w = Returned (p, w) ∧ PA.contents (base p) = data ∧
    mObjects p = (if offsets_fit objects 0 then objects else []) ∧ placed (mObjects p) 0 (Z.of_nat (length data)) ∧
    hasFileDescriptors p = Returned (existsb is_fd (objs_at (base p) (mObjects p)), p) ∧
    ∀ i off hint, mObjects p !! i = Some off → ∃ p', readObject (at_place p off hint) true = Returned (Some (obj_at (base p) off), p').
Proof.
  intros Hin Hlen. set (objs := if offsets_fit objects 0 then objects else []).
  assert (placed objs 0 (Z.of_nat (length data))) as Hpl.
  { unfold objs. destruct (offsets_fit objects 0) eqn:Hf; [|cbn; lia]. apply offsets_placed; [done|lia|lia|done|done]. }
  set (p0 := mkParcel (PA.mkParcel NO_ERROR (Some data) (Z.of_nat (length data)) 0 objs 0 true)
               (Z.of_nat (length objects)) (Z.of_nat (length objects)) false true (Some buf)).
  assert (any_fd (base p0) objs = Returned (existsb is_fd (objs_at (base p0) objs))) as Hany.
  { apply any_fd_spec. apply placed_in in Hpl. eapply Forall_impl; [exact Hpl|]. done. }
  exists (set_has_fds p0 (existsb is_fd (objs_at (base p0) objs))). split; [|split; [|split; [done|split; [exact Hpl|split]]]].
  - change (run (scanForFds p0) w = Returned (set_has_fds p0 (existsb is_fd (objs_at (base p0) objs)), w)).
    unfold run, scanForFds. change (mObjects p0) with objs. by rewrite Hany.
  - unfold PA.contents. cbn. apply take_ge. lia.
  - done.
  - intros i off hint Hi. assert (PA.wf (base p0)) as Hwf by (constructor; unfold PA.mDataCapacity; cbn; lia).
    destruct (readObject_at p0 off i hint Hwf Hpl Hi) as (b' & Hb & _). eexists. unfold readObject, lift_read. cbn [base at_place set_base set_has_fds].
    change (PA.mkParcel _ _ _ _ _ _ _) with (base p0). by rewrite Hb.
Qed.

(** An offset behind the data passes the check, and the look for descriptors
    reads past the data. *)
Lemma received_outside buf w : ipcSetDataReference initState (replicate 8 0) [4] buf w = Undefined.
Proof. done. Qed.

(** ** The header of a call *)

Lemma owned_store p b pos l b1 w : mOwner p = None → PA.store b pos l = Returned b1 → store (set_base p b) pos l w = Returned (set_base p b1, w).
Proof. intros Ho Hs. unfold store. cbn [mOwner set_base base]. rewrite Ho. unfold run, mbind, M_bind. by rewrite Hs. Qed.

(** Two stores into a place make one padded write. *)
Lemma inplace_two p l k w : good p → at_end p → PA.small (base p) (Z.of_nat (length (l ++ k)) + 3) → k ≠ [] →
  wp ('(data, p2) ← writeInplace p (Z.of_nat (length (l ++ k)));
      match data with
      | Some data => p3 ← store p2 data l; p4 ← store p3 (data + Z.of_nat (length l)) k; mret (NO_ERROR, p4)
      | None => mret (errorCheck p2, p2)
      end)
    (λ r w', (r.1 = NO_ERROR ∧ PA.wrote (base p) (PA.padded (l ++ k)) (base r.2) ∨ r.1 = NO_MEMORY ∧ PA.mError (base r.2) = NO_MEMORY) ∧
       steps p w r.2 w' ∧ good r.2) w.
Proof.
  intros Hg He [Hs1 Hs2] Hk. pose proof (good_pos _ Hg) as Hpos. destruct (good_wf _ Hg) as [P1 P2 P3]. set (n := Z.of_nat (length (l ++ k))) in *.
  destruct (writeInplace_lifts p n w (good_own _ Hg) Hpos) as [al Hl]; [unfold n; lia|]. apply run_bind.
  destruct (PA.writeInplace_cases (is_fd_at (base p)) (base p) n al (good_wf _ Hg)) as [(d & b & Hw & _ & Hd & Hst)|(b & Hw & _ & Hsd & Herr)]; [unfold n; lia|by split| |].
  - pose proof (writeInplace_known _ _ _ _ _ _ Hw) as Hkn. pose proof (inplace_place (is_fd_at (base p)) (base p) n al) as Hplace. rewrite Hw in Hl, Hplace. destruct Hl as (w1 & Hr & Hm). apply (wp_of _ _ _ _ _ Hr).
    destruct (Hst (l ++ k) eq_refl) as (b2 & Hs & Hwr). destruct d as [d|]; [|destruct k; [done|]; exfalso; revert Hd; unfold n; rewrite length_app; cbn; lia].
    destruct (PA.store_split _ _ _ _ _ Hd Hs) as (b1 & Hs1' & Hs2'). apply run_bind. apply (wp_of _ _ _ _ _ (owned_store p b d l b1 w1 (good_own _ Hg) Hs1')).
    apply run_bind. apply (wp_of _ _ _ _ _ (owned_store p b1 _ k b2 w1 (good_own _ Hg) Hs2')). apply run_ret. cbn [fst snd].
    destruct (wrote_good p (PA.padded (l ++ k)) b2 Hg He Hwr) as ([H1 _ _ _ _] & _ & Hh); [rewrite (store_known _ _ _ _ Hs); done|].
    split; [by left|]. split; [|done]. destruct (store_memory _ _ _ _ Hd Hs) as (M1 & M2 & _).
    apply (moved_memory p w (set_base p b)); [|by apply same_block_memory]. apply (moved_ext _ _ _ _ _ _ Hm). intros r. rewrite Hh. lia.
  - pose proof (writeInplace_known _ _ _ _ _ _ Hw) as Hkn. rewrite Hw in Hl. destruct Hl as (w1 & Hr & Hm). apply (wp_of _ _ _ _ _ Hr). apply run_ret. cbn [fst snd errorCheck base set_base].
    destruct (same_good _ _ Hg He Hsd Hkn) as ([H1 _ _ _ _] & _ & Hh). split; [right; done|]. split; [|done].
    apply (moved_ext _ _ _ _ _ _ Hm). intros r. rewrite Hh. lia.
Qed.

Lemma int_step p v w : good p → at_end p → PA.small (base p) 4 →
  wp (writeInt32 p v) (λ r w', done_or_failed p w 4 r w' ∧
    (r.1 = NO_ERROR ∧ PA.wrote (base p) (le_bytes 4 v) (base r.2) ∨ r.1 = NO_MEMORY ∧ PA.mError (base r.2) = NO_MEMORY ∧ same_parcel p r.2)) w.
Proof.
  intros Hg He Hs. destruct (writeAligned_lifts 4 p v w (good_own _ Hg) (good_pos _ Hg)) as [al Hl].
  apply (value_step_wrote p w _ _ (le_bytes 4 v) al Hg He Hl); [by apply PA.writeAligned_cases; [apply Hg|]|apply writeAligned_known].
Qed.

Lemma string16_step p l w : good p → at_end p → room_for p (Z.of_nat (length l) * 2 + 12) → Z.of_nat (length l) < 2 ^ 29 →
  wp (writeString16 p (Some l)) (λ r w', (r.1 = NO_ERROR ∧ PA.wrote (base p) (PA.encode (PA.VString16 l)) (base r.2) ∨ r.1 = NO_MEMORY) ∧
    steps p w r.2 w' ∧ good r.2) w.
Proof.
  intros Hg He [Hr1 Hr2] Hl. unfold writeString16. apply run_bind. eapply run_mono; [apply int_step; [done|done|split; lia]|].
  intros [err p1] w1 ((Hst & [G1 S1 _ _ _] & Hend) & Hc); cbn [fst snd] in *. destruct Hc as [(-> & Hw)|(-> & _)]; cbn [Z.eqb].
  2: { apply run_ret. split; [by right|done]. }
  destruct (Hend eq_refl) as [He1 _]. pose proof (PA.units_bytes_length l) as Hul.
  assert (Z.of_nat (length (PA.units_bytes l ++ [0; 0])) = Z.of_nat (length l) * 2 + 2) as Hlen by (rewrite length_app; cbn [length]; lia).
  rewrite (u32_small (Z.of_nat (length l) * 2)), u32_small by lia. rewrite <- Hlen. rewrite take_ge by lia.
  replace (Z.of_nat (length l) * 2) with (Z.of_nat (length (PA.units_bytes l))) by lia.
  eapply run_mono; [apply inplace_two; [done|done|split; lia|done]|]. intros r w2 (Hc & Hst2 & Hg2). split; [|split; [by eapply steps_trans|done]].
  destruct Hc as [[H1 H2]|[H1 _]]; [left|by right]. split; [done|]. cbn [PA.encode]. by apply (PA.wrote_wrote _ _ (base p1)); [apply Hg|..].
Qed.

(** What is written is what is read from its place on. *)
Lemma wrote_at b l b1 hint : PA.wf b → PA.wrote b l b1 → PA.at_data (PA.set_hint (PA.set_pos b1 (PA.mDataPos b)) hint) (l ++ drop (Z.to_nat (PA.mDataPos b) + length l) (PA.contents b)).
Proof.
  intros Hwf Hw. pose proof (PA.wr_wf _ _ _ Hw) as [W1 W2 W3]. pose proof (PA.wrote_size _ _ _ Hwf Hw). pose proof (PA.wf_pos _ Hwf).
  split; [constructor; try done; cbn; lia|]. change (PA.contents (PA.set_hint _ _)) with (PA.contents b1). cbn [PA.mDataPos PA.set_hint PA.set_pos].
  rewrite (PA.wr_contents _ _ _ Hw). unfold PA.overwrite. pose proof (PA.contents_length _ Hwf). by rewrite drop_app_length' by (rewrite length_take; lia).
Qed.

(** A header is accepted for the interface it was written for, and sets the
    policy of the thread, but for a one-way call to nothing; the parcel knows when one
    of the two writes failed. *)
Theorem interface_token_accepted p policy interface w : good p → at_end p → Forall PA.unit_ok interface →
  room_for p (Z.of_nat (length interface) * 2 + 16) → Z.of_nat (length interface) < 2 ^ 29 →
  let header := Z.lor policy STRICT_MODE_PENALTY_GATHER in -2 ^ 31 ≤ header < 2 ^ 31 →
  wp (writeInterfaceToken p policy interface) (λ r w', steps p w r.2 w' ∧ good r.2 ∧
    (r.1 = NO_ERROR → errorCheck r.2 = NO_ERROR → ∀ name flags hint, ∃ p',
       enforceInterface (at_place r.2 (PA.mDataPos (base p)) hint) name flags =
       Returned (bool_decide (interface = name), if negb (Z.land flags FLAG_ONEWAY =? 0) then 0 else header, p'))) w.
Proof.
  intros Hg He Hu [Hr1 Hr2] Hlen header Hh. unfold writeInterfaceToken. fold header. apply run_bind.
  eapply run_mono; [apply int_step; [done|done|split; lia]|]. intros [err p1] w1 ((Hst & [G1 S1 _ _ _] & Hend) & Hc). cbn [fst snd] in *.
  assert (at_end p1) as He1 by (destruct Hc as [(-> & _)|(_ & _ & Hsp)]; [by apply Hend|by apply Hsp]).
  eapply run_mono; [apply string16_step; [done|done|split; lia|done]|]. intros [err2 p2] w2 (Hc2 & Hst2 & Hg2). cbn [fst snd] in *.
  split; [by eapply steps_trans|]. split; [done|]. intros -> Herr name flags hint. destruct Hc2 as [[_ Hw2]|]; [|done].
  destruct Hc as [[-> Hw1]|(_ & Hm & _)]; [|unfold errorCheck in Herr; by rewrite (PA.wr_error _ _ _ Hw2), Hm in Herr].
  pose proof (wrote_at _ _ _ hint (good_wf _ Hg) (PA.wrote_wrote _ _ _ _ _ (good_wf _ Hg) Hw1 Hw2)) as Hat. rewrite <- app_assoc in Hat.
  unfold enforceInterface, readInt32, lift_read, at_place. cbn [base set_base].
  destruct (PA.readInt32_at _ _ _ Hat Hh) as (b1 & -> & Hat1 & _). cbn [obind base set_base].
  destruct (PA.readString16_at _ _ _ Hat1 Hu Hlen) as (b2 & -> & _ & _). cbn [obind]. by eexists.
Qed.

(** ** Blobs *)

(** Storing what is there changes nothing. *)
Lemma store_itself b d n b' l : 0 ≤ d → length l = n → PA.store b d l = Returned b' →
  PA.store b d (take n (drop (Z.to_nat d) (bytes_of b))) = Returned b ∧ length (take n (drop (Z.to_nat d) (bytes_of b))) = n.
Proof.
  intros Hd Hl. unfold PA.store, PA.mDataCapacity. destruct (Z.leb_spec (d + Z.of_nat (length l)) (Z.of_nat (length (bytes_of b)))) as [Hle|]; [|done]. intros _.
  assert (length (take n (drop (Z.to_nat d) (bytes_of b))) = n) as Hlen by (rewrite length_take, length_drop; lia).
  split; [|done]. rewrite Hlen, (proj2 (Z.leb_le _ _)) by lia. f_equal. destruct b as [e [m|] sz ps ob hi kn]; [|done].
  unfold PA.set_data, PA.block in *. cbn in *. do 2 f_equal. rewrite <- drop_drop, take_drop. apply take_drop.
Qed.

Lemma writeInplace_step p len w : good p → at_end p → 0 ≤ len → room_for p (len + 3) →
  wp (writeInplace p len) (λ r w', steps p w r.2 w' ∧ good r.2) w.
Proof.
  intros Hg He Hlen [Hs1 Hs2]. pose proof (good_pos _ Hg) as Hpos. destruct (good_wf _ Hg) as [P1 P2 P3].
  destruct (writeInplace_lifts p len w (good_own _ Hg) Hpos) as [al Hl]; [lia|].
  assert (∀ b w1 l, PA.wrote (base p) l b → PA.mFdsKnown b = PA.mFdsKnown (base p) → moved p w (set_base p b) w1 (λ _, 0) →
    steps p w (set_base p b) w1 ∧ good (set_base p b)) as Hgood.
  { intros b w1 l Hwr Hkn Hm. destruct (wrote_good p l b Hg He Hwr Hkn) as ([H1 _ _ _ _] & _ & Hh). split; [|done].
    apply (moved_ext _ _ _ _ _ _ Hm). intros r. rewrite Hh. lia. }
  destruct (PA.writeInplace_cases (is_fd_at (base p)) (base p) len al (good_wf _ Hg)) as [(d & b & Hw & _ & Hd & Hst)|(b & Hw & _ & Hsd & Herr)]; [lia|split; lia| |];
    pose proof (writeInplace_known _ _ _ _ _ _ Hw) as Hkn; rewrite Hw in Hl; destruct Hl as (w1 & Hr & Hm); apply (wp_of _ _ _ _ _ Hr); cbn [snd].
  - destruct (Hst (replicate (Z.to_nat len) 0)) as (b2 & Hs & Hwr); [rewrite length_replicate; lia|]. destruct d as [d|].
    + destruct (store_itself b d (Z.to_nat len) b2 _ Hd (length_replicate _ _) Hs) as [Hself Hn].
      destruct (Hst (take (Z.to_nat len) (drop (Z.to_nat d) (bytes_of b)))) as (b3 & Hs3 & Hwr3); [lia|].
      rewrite Hself in Hs3. injection Hs3 as <-. by eapply Hgood.
    + injection Hs as <-. by eapply Hgood.
  - destruct (same_good _ _ Hg He Hsd Hkn) as ([H1 _ _ _ _] & _ & Hh). split; [|done]. apply (moved_ext _ _ _ _ _ _ Hm). intros r. rewrite Hh. lia.
Qed.

Context (ashmem_int : ∀ tr, -2 ^ 31 ≤ ashmem_os tr < 2 ^ 31).

Lemma region_acts len w : wp (ashmem_create_region len) (λ d w', d = ashmem_os (trace w) ∧ acts w w' (λ r, if 0 <=? d then count [RFd d] r else 0)) w.
Proof.
  eexists _, _. split; [done|]. split; [done|]. constructor; [|done..]. intros r. unfold net. cbn [trace]. rewrite sum_by_cons. cbn [change].
  destruct (0 <=? ashmem_os (trace w)); [rewrite count_one; case_decide; subst; try done|]; lia.
Qed.

Lemma quiet_event e w : change e = (λ _, 0) → acts w (mkWorld (gParcelGlobalAllocSize w) (gParcelGlobalAllocCount w) (e :: trace w)) (λ _, 0).
Proof. intros He. constructor; [|done..]. intros r. unfold net. cbn [trace]. rewrite sum_by_cons, He. lia. Qed.

(** Giving the region up closes its descriptor. *)
Lemma blob_failed_acts ptr len fd status p0 p w w0 : 0 ≤ fd → moved p0 w0 p w (λ r, count (held p) r - count (held p0) r + count [RFd fd] r) → good p →
  wp (blob_failed ptr len fd status p) (λ r w', steps p0 w0 r.2 w' ∧ good r.2 ∧ r.1.2 = None) w.
Proof.
  intros Hfd Hm Hg. unfold blob_failed. apply run_bind.
  apply (run_mono _ (λ _ w', acts w w' (λ _, 0))); [destruct ptr; [eexists _, _; split; [done|by apply quiet_event]|apply ret_acts]|].
  intros ? w1 Ha1. apply run_bind. eapply run_mono; [apply close_acts|]. intros ? w2 Ha2. rewrite (proj2 (Z.ltb_ge fd 0)) in Ha2 by lia. apply run_ret.
  split; [|done]. apply (moved_trans _ _ _ _ _ _ _ _ _ Hm (acts_moved p w p w2 _ (acts_trans _ _ _ _ _ _ Ha1 Ha2 (λ _, eq_refl)) (conj eq_refl eq_refl))).
  intros r. cbn [fst snd]. lia.
Qed.

Lemma protect_acts fd b w : wp (ashmem_set_prot_region fd b) (λ _ w', acts w w' (λ _, 0)) w.
Proof. eexists _, _. split; [done|]. by apply quiet_event. Qed.
Lemma mmap_acts fd len w : wp (mmap fd len) (λ _ w', acts w w' (λ _, 0)) w.
Proof. eexists _, _. split; [done|]. by apply quiet_event. Qed.

Lemma acts_quiet w0 w w' δ : acts w0 w δ → acts w w' (λ _, 0) → acts w0 w' δ.
Proof. intros H1 H2. apply (acts_trans _ _ _ _ _ _ H1 H2). intros; lia. Qed.

Definition blob_done (p : Parcel) (w : world) (r : Z * option Blob * Parcel) (w' : world) : Prop :=
  steps p w r.2 w' ∧ good r.2 ∧ (is_Some r.1.2 → r.1.1 = NO_ERROR).

Lemma blob_gives_up ptr len fd status p w p1 w1 : 0 ≤ fd → good p1 → moved p w p1 w1 (λ r, count (held p1) r - count (held p) r + count [RFd fd] r) →
  wp (blob_failed ptr len fd status p1) (blob_done p w) w1.
Proof.
  intros Hfd Hg Hm. eapply run_mono; [by apply (blob_failed_acts ptr len fd status p p1 w1 w Hfd Hm)|]. intros r w2 (H1 & H2 & H3).
  split; [done|]. split; [done|]. rewrite H3. by intros [].
Qed.

(** The descriptor of the region written behind the flag. *)
Lemma blob_region p len fd ptr w w1 : good p → at_end p → mAllowFds p = true → room_for p 32 → (mObjectsSize p + 2) * 12 < 2 ^ 32 → 0 ≤ fd < 2 ^ 31 →
  acts w w1 (count [RFd fd]) →
  wp ('(status, p1) ← writeInt32 p 1;
      if negb (status =? NO_ERROR) then blob_failed (Some ptr) len fd status p1
      else
        '(status, p2) ← writeFileDescriptor p1 fd true;
        if negb (status =? NO_ERROR) then blob_failed (Some ptr) len fd status p2
        else mret (NO_ERROR, Some (mkBlob true (Some (Mapped ptr)) len), p2)) (blob_done p w) w1.
Proof.
  intros Hg He Hall [Hr1 Hr2] Hn Hfd Ha. assert (PA.SIZEOF_object = 16) as H16 by done. pose proof (acts_moved p w p w1 _ Ha (conj eq_refl eq_refl)) as Hm0.
  apply run_bind. eapply run_mono; [apply int_step; [done|done|split; lia]|]. intros [err p1] w2 ((Hst & [G1 S1 _ L1 _] & Hend) & Hc). cbn [fst snd] in *.
  assert (mObjectsSize p1 = mObjectsSize p) as Hsz.
  { unfold mObjectsSize, mObjects. destruct Hc as [[_ Hw]|(_ & _ & Hsp)]; [by rewrite (PA.wr_objects _ _ _ Hw)|by rewrite (PA.sd_objects _ _ (sp_data _ _ Hsp))]. }
  assert (moved p w p1 w2 (λ r, count (held p1) r - count (held p) r + count [RFd fd] r)) as Hm1 by (apply (moved_trans _ _ _ _ _ _ _ _ _ Hm0 Hst); intros; lia).
  destruct Hc as [(-> & _)|(-> & _)]; cbn [negb Z.eqb]; [|apply blob_gives_up; [lia|done|done]].
  destruct (Hend eq_refl) as [He1 _]. apply run_bind. eapply run_mono; [apply fd_step; [done|done|congruence|split; lia|lia]|].
  intros [err2 p2] w3 (Hnx & Hm2 & Hc2). cbn [fst snd] in *. destruct Hc2 as [(-> & Hh & _)|(-> & Hh)]; cbn [negb Z.eqb].
  - apply run_ret. split; [|split; [apply Hnx|done]]. apply (moved_trans _ _ _ _ _ _ _ _ _ Hm1 Hm2). intros r. cbn [snd].
    rewrite Hh, count_app, fd_refs by lia. rewrite (proj2 (Z.ltb_ge fd 0)) by lia. cbn [Z.eqb orb]. lia.
  - apply blob_gives_up; [lia|apply Hnx|]. apply (moved_trans _ _ _ _ _ _ _ _ _ Hm1 Hm2). intros r. rewrite Hh. lia.
Qed.

(** C19: however the writing of a blob ends, the parcel holds what its objects stand
    for: the descriptor of the shared region is the parcel's or is closed. *)
Theorem blob_region_owned p len w : good p → at_end p → 0 ≤ len → room_for p (len + 32) → (mObjectsSize p + 2) * 12 < 2 ^ 32 →
  wp (writeBlob p len) (blob_done p w) w.
Proof.
  intros Hg He Hlen [Hr1 Hr2] Hn. unfold writeBlob. destruct (negb (mAllowFds p) || (len <=? IN_PLACE_BLOB_LIMIT)) eqn:Hplace.
  - apply run_bind. eapply run_mono; [apply int_step; [done|done|split; lia]|]. intros [err p1] w1 ((Hst & [G1 S1 _ _ _] & Hend) & Hc). cbn [fst snd] in *.
    destruct Hc as [(-> & _)|(-> & _)]; cbn [negb Z.eqb]; [|apply run_ret; split; [done|]; split; [done|]; by intros []].
    apply run_bind. destruct (Hend eq_refl) as [He1 _]. eapply run_mono; [apply writeInplace_step; [done|done|done|split; lia]|].
    intros [d p2] w2 [Hst2 Hg2]. cbn [fst snd] in *. pose proof (steps_trans _ _ _ _ _ _ Hst Hst2).
    destruct d; apply run_ret; (split; [done|]; split; [done|]); [done|by intros []].
  - apply orb_false_iff in Hplace as [Hall%negb_false_iff _]. apply run_bind. eapply run_mono; [apply region_acts|]. intros fd w1 (Hfd & Ha).
    pose proof (ashmem_int (trace w)) as Hai. rewrite <- Hfd in Hai. destruct (Z.ltb_spec fd 0).
    { rewrite (proj2 (Z.leb_gt 0 fd)) in Ha by lia. apply run_ret. split; [|split; [done|by intros []]].
      apply acts_moved; [|done]. apply (acts_ext _ _ _ _ Ha). intros; cbn; lia. }
    rewrite (proj2 (Z.leb_le 0 fd)) in Ha by lia. change (acts w w1 (count [RFd fd])) in Ha.
    assert (∀ ptr status w2, acts w w2 (count [RFd fd]) → wp (blob_failed ptr len fd status p) (blob_done p w) w2) as Hfail.
    { intros ptr status w2 Ha2. apply blob_gives_up; [done|done|]. apply acts_moved; [|done]. apply (acts_ext _ _ _ _ Ha2). intros; lia. }
    apply run_bind. eapply run_mono; [apply protect_acts|]. intros res w2 Ha2. apply (acts_quiet _ _ _ _ Ha) in Ha2. destruct (res <? 0); [by apply Hfail|].
    apply run_bind. eapply run_mono; [apply mmap_acts|]. intros ptr w3 Ha3. apply (acts_quiet _ _ _ _ Ha2) in Ha3.
    destruct ptr as [ptr|]; [|apply run_bind; eexists _, _; split; [done|]; by apply Hfail].
    apply run_bind. eapply run_mono; [apply protect_acts|]. intros res2 w4 Ha4. apply (acts_quiet _ _ _ _ Ha3) in Ha4. destruct (res2 <? 0); [by apply Hfail|].
    apply blob_region; [done|done|done|split; lia|done|lia|done].
Qed.

(** ** Appending *)

Lemma index_range_app P l1 l2 : ∀ i f l, index_range P (l1 ++ l2) i f l =
  let '(f', l') := index_range P l1 i f l in index_range P l2 (i + Z.of_nat (length l1)) f' l'.
Proof.
  induction l1 as [|x l1 IH]; intros i f l; cbn [app index_range length]; [f_equal; lia|].
  destruct (P x); rewrite IH; destruct (index_range P l1 _ _ _); f_equal; lia.
Qed.

Lemma index_range_none P objs : Forall (λ x, P x = false) objs → ∀ i f l, index_range P objs i f l = (f, l).
Proof. induction 1 as [|x objs Hx _ IH]; intros i f l; cbn [index_range]; [done|]. by rewrite Hx. Qed.

Lemma index_range_all P objs : Forall (λ x, P x = true) objs → ∀ i f l, 0 ≤ i → objs ≠ [] →
  index_range P objs i f l = (if f =? -1 then i else f, i + Z.of_nat (length objs) - 1).
Proof.
  induction 1 as [|x objs Hx Hall IH]; intros i f l Hi Hne; [done|]. cbn [index_range length]. rewrite Hx. destruct objs as [|y objs].
  - cbn. f_equal; lia.
  - rewrite IH by (done || lia). f_equal; [|cbn [length]; lia]. destruct (Z.eqb_spec f (-1)); [by rewrite (proj2 (Z.eqb_neq i (-1))) by lia|].
    by rewrite (proj2 (Z.eqb_neq f (-1))) by done.
Qed.

(** Objects in order: those before a range, in it and behind. *)
Lemma split_range a b objs : ∀ lo hi, placed objs lo hi → a ≤ b → ∃ A B C, objs = A ++ B ++ C ∧
  Forall (λ x, x < a) A ∧ Forall (λ x, a ≤ x < b) B ∧ Forall (λ x, b ≤ x) C.
Proof.
  assert (PA.SIZEOF_object = 16) as H16 by done.
  induction objs as [|x objs IH]; intros lo hi Hp Hab; [by exists [], [], []|]. destruct Hp as [H1 H2]. destruct (IH _ _ H2 Hab) as (A & B & C & -> & HA & HB & HC).
  pose proof (placed_in _ _ _ H2) as Hin. rewrite !Forall_app in Hin. destruct Hin as (IA & IB & IC).
  destruct (decide (x < a)); [exists (x :: A), B, C; split; [done|]; split; [by constructor|done]|].
  assert (A = []) as -> by (destruct A as [|y A]; [done|]; apply Forall_inv in HA, IA; lia).
  destruct (decide (x < b)); [exists [], (x :: B), C; split; [done|]; split; [done|]; split; [constructor; [lia|done]|done]|].
  assert (B = []) as -> by (destruct B as [|y B]; [done|]; apply Forall_inv in HB, IB; lia).
  exists [], [], (x :: C). split; [done|]. split; [done|]. split; [done|]. constructor; [lia|done].
Qed.

Lemma range_taken a b objs lo hi : placed objs lo hi → a ≤ b →
  let '(f, l) := index_range (λ off, (a <=? off) && (off <? b)) objs 0 (-1) (-2) in
  ∃ A B C, objs = A ++ B ++ C ∧ Forall (λ x, x < a) A ∧ Forall (λ x, a ≤ x < b) B ∧ Forall (λ x, b ≤ x) C ∧
    l - f + 1 = Z.of_nat (length B) ∧ (B ≠ [] → take (Z.to_nat (l - f + 1)) (drop (Z.to_nat f) objs) = B).
Proof.
  intros Hp Hab. destruct (split_range a b objs lo hi Hp Hab) as (A & B & C & -> & HA & HB & HC). rewrite index_range_app.
  rewrite (index_range_none _ A) by (eapply Forall_impl; [exact HA|]; intros x; cbn; intros; rewrite (proj2 (Z.leb_gt a x)) by lia; done).
  assert (∀ i f l, index_range (λ off, (a <=? off) && (off <? b)) C i f l = (f, l)) as HCn.
  { apply index_range_none. eapply Forall_impl; [exact HC|]. intros x; cbn; intros. rewrite (proj2 (Z.ltb_ge x b)) by lia. apply andb_false_r. }
  rewrite index_range_app. destruct B as [|y B]; [cbn [index_range]; rewrite HCn; exists A, [], C; by split_and!|].
  rewrite index_range_all; [|eapply Forall_impl; [exact HB|]; intros x; cbn; intros; rewrite (proj2 (Z.leb_le a x)), (proj2 (Z.ltb_lt x b)) by lia; done|lia|done].
  rewrite HCn, Z.eqb_refl. exists A, (y :: B), C. split; [done|]. split; [done|]. split; [done|]. split; [done|]. split; [lia|]. intros _.
  rewrite Z.add_0_l, Nat2Z.id, drop_app_length. replace (Z.to_nat _) with (length (y :: B)) by lia. apply take_app_length.
Qed.

(** A copy of an object in this parcel; [d] is the new descriptor. *)
Definition copied (d : Z) (o : flat_binder_object) : flat_binder_object :=
  if is_fd o then PA.mkObject (PA.type o) (u32 (PA.flags o)) (u32 d) 1 else o.


(** The descriptors duplicated so far, each with its duplicate, the last one first. *)
Definition dups (tr : list event) : list (Z * Z) := omap (λ e, match e with Dup fd d => Some (fd, d) | _ => None end) tr.

Definition keeps_dups {A} (m : M A) : Prop := ∀ w a w', m w = Returned (a, w') → dups (trace w') = dups (trace w).

Lemma kd_ret {A} (a : A) : keeps_dups (mret a).
Proof. by intros w b w' [= _ <-]. Qed.
Lemma kd_bind {A B} (m : M A) (k : A → M B) : keeps_dups m → (∀ a, keeps_dups (k a)) → keeps_dups (m ≫= k).
Proof.
  intros Hm Hk w b w' H. unfold mbind, M_bind in H. destruct (m w) as [[a w1]| |] eqn:Hw; cbn in H; try done. by rewrite (Hk _ _ _ _ H), (Hm _ _ _ Hw).
Qed.
Lemma kd_run {A} (c : outcome A) : keeps_dups (run c).
Proof. intros w a w' H. unfold run in H. destruct c; cbn in H; try done. by injection H as _ <-. Qed.
Lemma kd_note e : match e with Dup _ _ => False | _ => True end → keeps_dups (note e).
Proof. intros He w a w' [= _ <-]. by destruct e. Qed.
Lemma kd_count n m : keeps_dups (count_alloc n m).
Proof. by intros w a w' [= _ <-]. Qed.
Lemma kd_malloc n : keeps_dups (malloc n).
Proof. by intros w a w' [= _ <-]. Qed.

(** Calls that duplicate nothing. *)
Local Ltac kd := repeat first
  [ apply kd_ret | apply kd_run | apply kd_count | apply kd_malloc | by apply kd_note | eassumption
  | apply kd_bind; [|intros ?] | case_match | progress cbv zeta ].

Lemma kd_acquire o : keeps_dups (acquire_object o).
Proof. unfold acquire_object. kd. Qed.
Lemma kd_release o : keeps_dups (release_object o).
Proof. unfold release_object, close. kd. Qed.
Lemma kd_each b f offs : (∀ o, keeps_dups (f o)) → keeps_dups (each b f offs).
Proof. intros Hf. induction offs as [|off offs IH]; cbn [each]; [apply kd_ret|]. apply kd_bind; [apply kd_run|]. intros o. apply kd_bind; [apply Hf|]. by intros _. Qed.
Lemma kd_closeFileDescriptors p : keeps_dups (closeFileDescriptors p).
Proof. apply kd_each. intros o. unfold close. kd. Qed.
Lemma kd_continueWrite p desired : keeps_dups (continueWrite p desired).
Proof.
  unfold continueWrite, freeData, freeDataNoInit, take_possession, drop_objects, releaseObjects, acquireObjects. pose proof kd_acquire as Ha. pose proof kd_release as Hr. pose proof kd_closeFileDescriptors as Hf.
  repeat first [ apply kd_each; done | apply Hf | progress kd ].
Qed.
Lemma kd_growData p len : keeps_dups (growData p len).
Proof. unfold growData. case_match; [apply kd_ret|apply kd_continueWrite]. Qed.
Lemma kd_store p pos l : keeps_dups (store p pos l).
Proof. unfold store. case_match; [by intros w a w'|kd]. Qed.

Lemma wp_dups {A} (m : M A) (Q : A → world → Prop) w : keeps_dups m → wp m Q w → wp m (λ a w', Q a w' ∧ dups (trace w') = dups (trace w)) w.
Proof. intros Hk (a & w' & Hm & HQ). exists a, w'. split; [done|]. split; [done|]. by apply (Hk _ _ _ Hm). Qed.

(** The objects at the places [offs], copied: every descriptor is replaced by a
    duplicate of it, in order, and the duplicates are those of the list. *)
Fixpoint duplicated (o o' : Z → flat_binder_object) (offs : list Z) (l : list (Z * Z)) : Prop :=
  match offs with
  | [] => l = []
  | off :: offs =>
      if is_fd (o off) then match l with (fd, d) :: l => fd = handle (o off) ∧ o' off = copied d (o off) ∧ duplicated o o' offs l | [] => False end
      else o' off = o off ∧ duplicated o o' offs l
  end.

Lemma duplicated_map (f : Z → Z) o o' o1 o1' offs : ∀ l, Forall (λ off, o1 (f off) = o off ∧ o1' (f off) = o' off) offs →
  duplicated o1 o1' (f <$> offs) l → duplicated o o' offs l.
Proof.
  induction offs as [|off offs IH]; intros l Hf; [done|]. apply Forall_cons in Hf as [[E1 E2] Hf]. cbn. rewrite E1, E2.
  destruct (is_fd (o off)); [|intros [H1 H2]; split; [done|by apply IH]].
  destruct l as [|[fd d] l]; [done|]. intros (H1 & H2 & H3). split; [done|]. split; [done|by apply IH].
Qed.

Lemma duplicated_ext o o' o1 o1' offs l : Forall (λ off, o1 off = o off ∧ o1' off = o' off) offs → duplicated o1 o1' offs l → duplicated o o' offs l.
Proof. intros H Hd. apply (duplicated_map id o o' o1 o1' offs l H). by rewrite list_fmap_id. Qed.

Lemma lookup_apart {A} (l l' : list A) n i : take n l' = take n l → drop (n + 16) l' = drop (n + 16) l → (i < n ∨ n + 16 ≤ i)%nat → l' !! i = l !! i.
Proof.
  intros Ht Hd [H|H]; [by rewrite <- (lookup_take_lt l' n), Ht, lookup_take_lt by lia|].
  replace i with (n + 16 + (i - (n + 16)))%nat by lia. by rewrite <- !lookup_drop, Hd.
Qed.

Record appended (p : Parcel) (off : Z) (p' : Parcel) : Prop := {
  ap_objects : mObjects p' = mObjects p ++ [off];
  ap_size : PA.mDataSize (base p') = PA.mDataSize (base p);
  ap_pos : PA.mDataPos (base p') = PA.mDataPos (base p);
  ap_memory : PA.mDataCapacity (base p') = PA.mDataCapacity (base p);
  ap_room : objects_room p' = objects_room p ∧ mObjectsCapacity p' = mObjectsCapacity p;
  ap_allow : mAllowFds p' = mAllowFds p;
  ap_before : take (Z.to_nat off) (bytes_of (base p')) = take (Z.to_nat off) (bytes_of (base p));
  ap_after : drop (Z.to_nat off + 16) (bytes_of (base p')) = drop (Z.to_nat off + 16) (bytes_of (base p));
  ap_same : is_fd (obj_at (base p) off) = false → bytes_of (base p') = bytes_of (base p) }.

Lemma appended_good p off p' : good p → placed (mObjects p) 0 off → off + SIZEOF_object ≤ PA.mDataSize (base p) → mObjectsSize p < objects_room p →
  appended p off p' → mOwner p' = None →
  (PA.mFdsKnown (base p') = true → mHasFds p' = existsb is_fd (objs_at (base p) (mObjects p)) || is_fd (obj_at (base p') off)) →
  good p' ∧ held p' = held p ++ refs_of (obj_at (base p') off).
Proof.
  intros Hg Hpl Hoff Hroom [A1 A2 A3 A4 [A5 A5'] A6 A7 A8 _] Ho Hfds.
  assert (objs_at (base p') (mObjects p) = objs_at (base p) (mObjects p)) as Hobj by (by apply (objs_at_before _ _ _ 0 off)).
  destruct Hg as [[W1 W2 W3] G2 G3 G4 G5 G6]. split.
  - constructor; [constructor; lia|done| |congruence| |].
    + rewrite A1, A2. eapply placed_more; [by apply placed_snoc|lia].
    + unfold mObjectsSize in *. rewrite A1, length_app, A5'. cbn [length]. lia.
    + intros Hk. rewrite (Hfds Hk), A1. unfold objs_at in *. rewrite fmap_app, existsb_app, Hobj. cbn [fmap list_fmap existsb]. by rewrite orb_false_r.
  - unfold held. rewrite A1. unfold objs_at in *. rewrite !fmap_app, concat_app, Hobj. cbn [fmap list_fmap concat]. by rewrite app_nil_r.
Qed.

(** A descriptor word of a copy is the duplicate, which the parcel owns. *)
Lemma copied_refs d o : is_fd o = true → -2 ^ 31 ≤ d < 2 ^ 31 → refs_of (copied d o) = if d <? 0 then [] else [RFd d].
Proof.
  intros Hfd Hd. unfold copied. rewrite Hfd. unfold is_fd in Hfd. apply Z.eqb_eq in Hfd. rewrite Hfd.
  assert (handle (PA.mkObject BINDER_TYPE_FD (u32 (PA.flags o)) (u32 d) 1) = d) as Hh by (unfold handle; cbn; by apply PA.s32_mod_id).
  unfold refs_of. rewrite Hh. by destruct (d <? 0).
Qed.

Lemma copied_words d o : is_fd o = true → PA.object_of (object_bytes (PA.mkObject (PA.type o) (PA.flags o) (u32 d) 1)) = copied d o.
Proof.
  intros Hfd. unfold copied. rewrite Hfd. unfold is_fd in Hfd. apply Z.eqb_eq in Hfd. rewrite object_words. cbn [PA.type PA.flags PA.binder PA.cookie].
  by rewrite Hfd, u32_idemp.
Qed.

Lemma dup_noted fd w : wp (dup fd) (λ d w', d = dup_os (trace w) ∧ acts w w' (λ r, if 0 <=? d then count [RFd d] r else 0) ∧ dups (trace w') = (fd, d) :: dups (trace w)) w.
Proof. destruct (dup_acts fd w) as (d & w' & Hd & -> & Ha). exists (dup_os (trace w)), w'. split; [done|]. split; [done|]. split; [done|]. by injection Hd as <-. Qed.

Lemma append_object_step p off w : good p → placed (mObjects p) 0 off → off + SIZEOF_object ≤ PA.mDataSize (base p) → mObjectsSize p < objects_room p →
  wp (append_object p off) (λ r w', steps p w r.2 w' ∧ good r.2 ∧ appended p off r.2 ∧
    (∃ l, dups (trace w') = reverse l ++ dups (trace w) ∧ duplicated (obj_at (base p)) (obj_at (base r.2)) [off] l) ∧
    r.1 = if is_fd (obj_at (base p) off) && negb (mAllowFds p) then FDS_NOT_ALLOWED else NO_ERROR) w.
Proof.
  intros Hg Hpl Hoff Hroom. pose proof (placed_le _ _ _ Hpl) as H0. destruct (good_wf _ Hg) as [W1 W2 W3]. assert (PA.SIZEOF_object = 16) as H16 by done.
  unfold append_object. apply run_bind. unfold push_object. rewrite (proj2 (Z.ltb_lt _ _)) by done. apply run_ret. set (p1 := set_objects p (mObjects p ++ [off])).
  set (o := obj_at (base p) off). apply run_bind. eapply wp_run; [apply object_at_ok; change (off + SIZEOF_object ≤ PA.mDataCapacity (base p)); lia|].
  change (obj_at (base p1) off) with o. apply run_bind. eapply run_mono; [apply wp_dups; [apply kd_acquire|apply acquire_acts]|]. intros ? w1 [Ha Hk].
  destruct (is_fd o) eqn:Hfd; cbn [andb].
  - unfold grabbed in Ha. rewrite Hfd in Ha. apply run_bind. eapply run_mono; [apply dup_noted|]. intros d w2 (Hd & Ha2 & Hk2). pose proof (dup_int (trace w1)) as Hint. rewrite <- Hd in Hint. rewrite Hk in Hk2.
    set (l := object_bytes (PA.mkObject (PA.type o) (PA.flags o) (u32 d) 1)).
    destruct (PA.store_ok (base p1) off l) as (b & Hs & Hb & B1 & B2 & B3 & _ & B5 & B6); [lia|unfold l; rewrite object_bytes_length; change (PA.mDataCapacity (base p1)) with (PA.mDataCapacity (base p)); lia|].
    apply run_bind. eapply wp_of; [apply (owned_store p1 (base p1) off l b w2 (good_own _ Hg) Hs)|]. apply run_ret. cbn [fst snd]. set (p2 := set_has_fds (set_base p1 b) true).
    change (bytes_of (base p1)) with (bytes_of (base p)) in Hb. unfold PA.mDataCapacity in W2. assert (length l = 16%nat) as Hl by done. rewrite Hl in Hb.
    assert (appended p off p2) as Hap.
    { constructor; try done; change (bytes_of (base p2)) with (bytes_of b); try rewrite Hb.
      - rewrite take_app_length' by (rewrite length_take; lia). done.
      - rewrite app_assoc, drop_app_length' by (rewrite length_app, length_take, Hl; lia). done.
      - change (obj_at (base p) off) with o. by rewrite Hfd. }
    assert (obj_at (base p2) off = copied d o) as Ht.
    { unfold obj_at. change (bytes_of (base p2)) with (bytes_of b). rewrite Hb, drop_app_length' by (rewrite length_take; lia). rewrite take_app_length' by done. by apply copied_words. }
    destruct (appended_good p off p2 Hg Hpl Hoff Hroom Hap (good_own _ Hg)) as [Hg2 Hh].
    { intros _. rewrite Ht. unfold copied. rewrite Hfd. change (is_fd (PA.mkObject _ _ _ _)) with (is_fd o). rewrite Hfd. by rewrite orb_true_r. }
    split; [|split; [done|split; [done|split; [|change (mAllowFds (set_base p1 b)) with (mAllowFds p); by destruct (mAllowFds p)]]]].
    2: { exists [(handle o, d)]. split; [done|]. cbn [duplicated]. fold o. by rewrite Hfd. }
    apply acts_moved.
    + apply (acts_trans _ _ _ _ _ _ Ha Ha2). intros r. rewrite Hh, count_app, Ht, copied_refs by done. rewrite count_nil.
      destruct (Z.ltb_spec d 0); [rewrite (proj2 (Z.leb_gt 0 d)) by lia|rewrite (proj2 (Z.leb_le 0 d)) by lia]; rewrite ?count_nil; lia.
    + exact (same_block_memory p (base p1) b (conj B5 B6)).
  - apply run_ret. cbn [fst snd]. assert (appended p off p1) as Hap.
    { by constructor. }
    destruct (appended_good p off p1 Hg Hpl Hoff Hroom Hap (good_own _ Hg)) as [Hg2 Hh].
    { change (obj_at (base p1) off) with o. rewrite Hfd, orb_false_r. apply (good_fds _ Hg). }
    split; [|split; [done|split; [done|split; [|done]]]].
    2: { exists []. split; [done|]. cbn [duplicated]. fold o. by rewrite Hfd. }
    apply acts_moved; [|done]. apply (acts_ext _ _ _ _ Ha). intros r. rewrite Hh, count_app. change (obj_at (base p1) off) with o. rewrite grabbed_binder by done. lia.
Qed.

Lemma placed_split l1 : ∀ lo off l2 hi, placed (l1 ++ off :: l2) lo hi → placed l1 lo off ∧ off + SIZEOF_object ≤ hi ∧ placed l2 (off + SIZEOF_object) hi.
Proof.
  induction l1 as [|x l1 IH]; intros lo off l2 hi H; cbn [app placed] in H.
  - destruct H as [H1 H2]. split; [done|]. split; [by eapply placed_le|done].
  - destruct H as [H1 H2]. destruct (IH _ _ _ _ H2) as (A & B & C). split_and!; done.
Qed.

(** What a sequence of objects appended leaves. *)
Record appended_all (p : Parcel) (offs : list Z) (p' : Parcel) : Prop := {
  aa_objects : mObjects p' = mObjects p ++ offs;
  aa_size : PA.mDataSize (base p') = PA.mDataSize (base p);
  aa_pos : PA.mDataPos (base p') = PA.mDataPos (base p);
  aa_before n : Forall (λ off, n ≤ off) offs → take (Z.to_nat n) (bytes_of (base p')) = take (Z.to_nat n) (bytes_of (base p));
  aa_elsewhere i : Forall (λ off, is_fd (obj_at (base p) off) = true → Z.of_nat i < off ∨ off + 16 ≤ Z.of_nat i) offs → bytes_of (base p') !! i = bytes_of (base p) !! i }.

Lemma obj_at_after b b' off n : n ≤ off → 0 ≤ n →
  drop (Z.to_nat n) (bytes_of b') = drop (Z.to_nat n) (bytes_of b) → obj_at b' off = obj_at b off.
Proof.
  intros Hn H0 Hd. unfold obj_at. replace (Z.to_nat off) with (Z.to_nat n + (Z.to_nat off - Z.to_nat n))%nat by lia. by rewrite <- !drop_drop, Hd.
Qed.

Lemma append_objects_steps offs : ∀ p err w, good p → placed (mObjects p ++ offs) 0 (PA.mDataSize (base p)) →
  mObjectsSize p + Z.of_nat (length offs) ≤ objects_room p →
  wp (append_objects p err offs) (λ r w', steps p w r.2 w' ∧ good r.2 ∧ appended_all p offs r.2 ∧
    (∃ l, dups (trace w') = reverse l ++ dups (trace w) ∧ duplicated (obj_at (base p)) (obj_at (base r.2)) offs l) ∧
    r.1 = if existsb is_fd (objs_at (base p) offs) && negb (mAllowFds p) then FDS_NOT_ALLOWED else err) w.
Proof.
  assert (PA.SIZEOF_object = 16) as H16 by done.
  induction offs as [|off offs IH]; intros p err w Hg Hpl Hroom; cbn [append_objects].
  - apply run_ret. cbn [fst snd]. split; [apply (moved_ext _ _ _ _ _ _ (moved_refl p w)); intros; lia|]. split; [done|]. split; [|by split; [exists []|]].
    by constructor; rewrite ?app_nil_r.
  - destruct (placed_split _ _ _ _ _ Hpl) as (Hp1 & Hoff & Hrest). cbn [length] in Hroom. pose proof (placed_le _ _ _ Hp1) as H0.
    apply run_bind. eapply run_mono; [apply append_object_step; try done; lia|]. intros [e p1] w1 (Hst & Hg1 & Hap & (l1 & Hl1 & Hd1) & He). cbn [fst snd] in *.
    destruct Hap as [A1 A2 A3 A4 [A5 A5'] A6 A7 A8 A9]. pose proof (placed_in _ _ _ Hrest) as Hin.
    assert (∀ x, off + 16 ≤ x → obj_at (base p1) x = obj_at (base p) x) as Hlater.
    { intros x Hx. apply (obj_at_after _ _ _ (off + 16)); [lia|lia|]. by replace (Z.to_nat (off + 16)) with (Z.to_nat off + 16)%nat by lia. }
    assert (objs_at (base p1) offs = objs_at (base p) offs) as Hobjs.
    { apply Forall_fmap_ext_1. eapply Forall_impl; [exact Hin|]. intros x Hx. cbn in Hx. apply Hlater. lia. }
    eapply run_mono; [apply IH; [done| |]|].
    + rewrite A1, A2, <- app_assoc. done.
    + unfold mObjectsSize in *. rewrite A1, A5, length_app. cbn [length]. lia.
    + intros r w2 (Hst2 & Hg2 & [B1 B2 B3 B4 B5] & (l2 & Hl2 & Hd2) & Herr). split; [by eapply steps_trans|]. split; [done|]. split; [|split].
      * constructor; [by rewrite B1, A1, <- app_assoc|congruence|congruence| |].
        -- intros n Hn. apply Forall_cons in Hn as [Hn Hns]. rewrite (B4 n Hns). apply (f_equal (take (Z.to_nat n))) in A7. rewrite !take_take, !Nat.min_l in A7 by lia. done.
        -- intros i Hi. apply Forall_cons in Hi as [Hi His]. rewrite B5.
           2: { rewrite Forall_forall in *. intros x Hx. specialize (Hin x Hx). cbn in Hin. rewrite Hlater by lia. by apply His. }
           destruct (is_fd (obj_at (base p) off)); [|by rewrite A9]. apply (lookup_apart _ _ (Z.to_nat off)); [done|done|]. specialize (Hi eq_refl). lia.
      * exists (l1 ++ l2). split; [by rewrite Hl2, Hl1, reverse_app, app_assoc|].
        assert (obj_at (base r.2) off = obj_at (base p1) off) as Hsame.
        { apply (obj_at_before _ _ _ (off + SIZEOF_object)); [lia|lia|]. apply B4. eapply Forall_impl; [exact Hin|]. cbn. lia. }
        apply (duplicated_ext (obj_at (base p)) (obj_at (base r.2))) in Hd2.
        2: { rewrite Forall_forall in *. intros x Hx. specialize (Hin x Hx). cbn in Hin. split; [by rewrite Hlater by lia|done]. }
        cbn [duplicated] in Hd1 |- *. rewrite Hsame. destruct (is_fd (obj_at (base p) off)); [|by destruct Hd1 as [-> ->]].
        destruct l1 as [|[fd d] l1]; [done|]. destruct Hd1 as (H1 & H2 & ->). done.
      * rewrite Herr, Hobjs, A6, He. change (existsb is_fd (objs_at (base p) (off :: offs))) with (is_fd (obj_at (base p) off) || existsb is_fd (objs_at (base p) offs)).
        by destruct (is_fd (obj_at (base p) off)), (mAllowFds p), (existsb is_fd (objs_at (base p) offs)).
Qed.

Lemma placed_app l1 l2 : ∀ lo mid hi, placed l1 lo mid → placed l2 mid hi → placed (l1 ++ l2) lo hi.
Proof.
  assert (PA.SIZEOF_object = 16) as H16 by done.
  induction l1 as [|x l1 IH]; intros lo mid hi H1 H2; cbn [app placed] in *; [|destruct H1; split; [done|by eapply IH]].
  destruct l2 as [|y l2]; cbn [placed] in *; [lia|destruct H2; split; [lia|done]].
Qed.

Lemma placed_shift k l : ∀ lo hi, placed l lo hi → placed ((λ x, x + k) <$> l) (lo + k) (hi + k).
Proof.
  induction l as [|x l IH]; intros lo hi H; cbn in *; [lia|]. destruct H as [H1 H2]. split; [lia|].
  replace (x + k + SIZEOF_object) with (x + SIZEOF_object + k) by lia. by apply IH.
Qed.

Lemma placed_part l : ∀ lo hi a b, placed l lo hi → a ≤ b → Forall (λ x, a ≤ x ∧ x + SIZEOF_object ≤ b) l → placed l a b.
Proof.
  induction l as [|x l IH]; intros lo hi a b H Hab Hin; cbn in *; [done|]. destruct H as [H1 H2]. apply Forall_cons in Hin as [[I1 I2] Hin].
  split; [done|]. eapply IH; [exact H2|done|]. pose proof (placed_in _ _ _ H2) as Hlo. rewrite Forall_forall in *. intros y Hy.
  specialize (Hlo y Hy). specialize (Hin y Hy). cbn in *. lia.
Qed.

Lemma placed_right l1 l2 : ∀ lo hi, placed (l1 ++ l2) lo hi → ∃ lo', placed l2 lo' hi.
Proof. induction l1 as [|x l1 IH]; intros lo hi H; [by exists lo|]. destruct H as [_ H]. by apply (IH _ _ H). Qed.
Lemma placed_left l1 l2 : ∀ lo hi, placed (l1 ++ l2) lo hi → placed l1 lo hi.
Proof.
  induction l1 as [|x l1 IH]; intros lo hi H; [by eapply placed_le|]. destruct H as [H1 H]. split; [done|by apply IH].
Qed.

Lemma obj_at_contents b off : 0 ≤ off → off + SIZEOF_object ≤ PA.mDataSize b → obj_at b off = PA.object_of (take 16 (drop (Z.to_nat off) (PA.contents b))).
Proof.
  intros H0 Hs. assert (PA.SIZEOF_object = 16) as H16 by done. unfold obj_at, PA.contents. f_equal. rewrite !take_drop_commute, take_take. do 2 f_equal. lia.
Qed.

(** The objects of a parcel that begin in a part of its data. *)
Definition objects_in (src : Parcel) (offset len : Z) : list Z := filter (λ off, offset ≤ off < offset + len) (mObjects src).

Lemma filter_range a b (A B C : list Z) : Forall (λ x, x < a) A → Forall (λ x, a ≤ x < b) B → Forall (λ x, b ≤ x) C →
  filter (λ off, a ≤ off < b) (A ++ B ++ C) = B.
Proof.
  intros HA HB HC. assert (∀ l : list Z, Forall (λ x, ¬ (a ≤ x < b)) l → filter (λ off, a ≤ off < b) l = []) as Hn.
  { induction 1 as [|x l Hx _ IH]; [done|]. by rewrite filter_cons_False. }
  rewrite !filter_app, (Hn A), (Hn C); [|eapply Forall_impl; [exact HC|]; cbn; lia|eapply Forall_impl; [exact HA|]; cbn; lia].
  rewrite app_nil_r. cbn. induction HB as [|x l Hx _ IH]; [done|]. rewrite filter_cons_True by done. by rewrite IH.
Qed.

(** The parcel with the part of the data at its end, before the objects. *)
Lemma part_copied p p1 w w1 data : good p → at_end p → PA.mDataPos (base p) = PA.mDataSize (base p) → same_parcel p p1 → moved p w p1 w1 (λ _, 0) →
  PA.mDataPos (base p) + Z.of_nat (length data) ≤ PA.mDataCapacity (base p1) → PA.mDataSize (base p) + Z.of_nat (length data) < 2 ^ 32 →
  wp (p2 ← store p1 (PA.mDataPos (base p1)) data;
      mret (set_base p2 (PA.set_size (PA.set_pos (base p2) (u32 (PA.mDataPos (base p2) + Z.of_nat (length data)))) (u32 (PA.mDataSize (base p2) + Z.of_nat (length data))))))
    (λ p3 w', moved p w p3 w' (λ _, 0) ∧ good p3 ∧ held p3 = held p ∧ mObjects p3 = mObjects p ∧ mAllowFds p3 = mAllowFds p ∧
      objects_room p3 = objects_room p1 ∧ mObjectsCapacity p3 = mObjectsCapacity p1 ∧ PA.contents (base p3) = PA.contents (base p) ++ data ∧
      PA.mDataSize (base p3) = PA.mDataSize (base p) + Z.of_nat (length data)) w1.
Proof.
  intros Hg He Hend [[N1 N2 N3 N4 N5] Hsd Hh Hend1] Hm Hcap Hlen. pose proof (Hend1 He) as He1. destruct (good_wf _ N1) as [W1 W2 W3].
  pose proof (PA.sd_pos _ _ Hsd) as Hpos. pose proof (PA.sd_size _ _ Hsd) as Hsize. pose proof (PA.sd_contents _ _ Hsd) as Hcon. pose proof (PA.sd_objects _ _ Hsd) as Hobj.
  destruct (PA.store_finish (base p1) data (good_wf _ N1)) as (b1 & Hs & Hw); [rewrite Hpos; lia|].
  destruct (store_memory _ _ _ _ (good_pos _ N1) Hs) as (C1 & C2 & C3). apply run_bind.
  pose proof (owned_store p1 (base p1) _ data b1 w1 (good_own _ N1) Hs) as Hst. rewrite set_base_base in Hst. apply (wp_of _ _ _ _ _ Hst). apply run_ret. cbn [base set_base].
  assert (PA.mDataSize b1 = PA.mDataSize (base p1)) as D1 by (destruct (PA.store_ok (base p1) (PA.mDataPos (base p1)) data (good_pos _ N1) ltac:(rewrite Hpos; lia)) as (b & Hb & _ & _ & D & _); rewrite Hb in Hs; by injection Hs as <-).
  set (b2 := PA.set_size _ _). assert (b2 = PA.finishWrite b1 (Z.of_nat (length data))) as Hb2.
  { unfold b2, PA.finishWrite. rewrite C3, D1. cbn [PA.mDataSize PA.set_pos PA.mDataPos]. rewrite D1, Hpos, Hsize, Hend, u32_small by lia.
    destruct (Z.ltb_spec (PA.mDataSize (base p)) (PA.mDataSize (base p) + Z.of_nat (length data))); [done|].
    assert (Z.of_nat (length data) = 0) as H0 by lia. unfold PA.set_size, PA.set_pos. cbn. f_equal. rewrite D1, Hsize. lia. }
  rewrite Hb2. destruct (wrote_good p1 data _ N1 He1 Hw) as ([G1 S1 O1 L1 K1] & _ & Hh2); [by rewrite finish_known, (store_known _ _ _ _ Hs)|].
  assert (PA.contents (PA.finishWrite b1 (Z.of_nat (length data))) = PA.contents (base p) ++ data) as Hc.
  { rewrite (PA.wr_contents _ _ _ Hw), Hcon, Hpos, Hend. unfold PA.overwrite. pose proof (PA.contents_length _ (good_wf _ Hg)).
    rewrite take_ge, drop_ge, app_nil_r by lia. done. }
  change (set_base (set_base p1 b1) (PA.finishWrite b1 (Z.of_nat (length data)))) with (set_base p1 (PA.finishWrite b1 (Z.of_nat (length data)))).
  split; [|split; [exact G1|split; [by rewrite Hh2|]]].
  - apply (moved_trans _ _ _ _ _ _ _ (λ _, 0) _ Hm); [|intros; lia].
    apply acts_moved; [apply acts_refl|]. rewrite <- (set_base_base p1) at 1. apply same_block_memory. apply (same_block_trans _ b1); [done|apply finish_block].
  - split; [unfold mObjects; cbn; by rewrite (PA.wr_objects _ _ _ Hw)|]. split; [done|]. split; [done|]. split; [done|]. split; [exact Hc|].
    pose proof (PA.contents_length _ (good_wf _ G1)) as Hl. cbn [base set_base] in *. rewrite Hc, length_app in Hl. pose proof (PA.contents_length _ (good_wf _ Hg)). lia.
Qed.

Lemma wp_map_inv {A B} (m : M A) (f : A → B) Q w : wp (m ≫= λ a, mret (f a)) Q w → wp m (λ a w', Q (f a) w') w.
Proof.
  intros (b & w' & Hm & HQ). unfold mbind, M_bind in Hm. destruct (m w) as [[a w1]| |] eqn:Hmw; cbn in Hm; [|done..]. injection Hm as <- <-. by exists a, w1.
Qed.

Definition part_of (src : Parcel) (offset len : Z) : list Z := take (Z.to_nat len) (drop (Z.to_nat offset) (bytes_of (base src))).

(** An object of the part, where it is now. *)
Lemma part_object p p3 src offset len off : PA.wf (base p) → PA.wf (base src) → 0 ≤ offset → offset + len ≤ PA.mDataSize (base src) → offset ≤ off → off + SIZEOF_object ≤ offset + len →
  PA.contents (base p3) = PA.contents (base p) ++ part_of src offset len → PA.mDataSize (base p3) = PA.mDataSize (base p) + len →
  obj_at (base p3) (off - offset + PA.mDataSize (base p)) = obj_at (base src) off.
Proof.
  intros Hwf [W1 W2 W3] H0 Hsrc Hoff1 Hoff2 Hc Hs. assert (PA.SIZEOF_object = 16) as H16 by done. pose proof (PA.contents_length _ Hwf). destruct Hwf as [P1 P2 P3].
  rewrite obj_at_contents by lia. rewrite Hc. unfold obj_at, part_of. f_equal.
  replace (Z.to_nat (off - offset + PA.mDataSize (base p))) with (length (PA.contents (base p)) + Z.to_nat (off - offset))%nat by lia.
  rewrite <- drop_drop, drop_app_length, !take_drop_commute, take_take, drop_drop. f_equal; [lia|]. f_equal; lia.
Qed.

(** The parcel with the part at its end and the objects [B] of the part. *)
Definition place_of (p : Parcel) (offset off : Z) : Z := off - offset + PA.mDataSize (base p).
Record part_appended (p src : Parcel) (offset len : Z) (B : list Z) (w : world) (p' : Parcel) (w' : world) : Prop := {
  pa_size : PA.mDataSize (base p') = PA.mDataSize (base p) + len;
  pa_objects : mObjects p' = mObjects p ++ (place_of p offset <$> B);
  pa_before : take (Z.to_nat (PA.mDataSize (base p))) (PA.contents (base p')) = PA.contents (base p);
  pa_data i : 0 ≤ i < len → Forall (λ off, is_fd (obj_at (base src) off) = true → offset + i < off ∨ off + 16 ≤ offset + i) B →
    PA.contents (base p') !! Z.to_nat (PA.mDataSize (base p) + i) = PA.contents (base src) !! Z.to_nat (offset + i);
  pa_there : ∃ l, dups (trace w') = reverse l ++ dups (trace w) ∧ duplicated (obj_at (base src)) (λ off, obj_at (base p') (place_of p offset off)) B l }.

(** Without memory: the objects are those before, and the data too, or only
    the places of the objects are missing. *)
Definition part_refused (p src : Parcel) (offset len : Z) (w : world) (p' : Parcel) (w' : world) : Prop :=
  mObjects p' = mObjects p ∧ dups (trace w') = dups (trace w) ∧
  (PA.contents (base p') = PA.contents (base p) ∨ PA.contents (base p') = PA.contents (base p) ++ part_of src offset len).

Definition part_result (p src : Parcel) (offset len : Z) (B : list Z) (w : world) (r : Z * Parcel) (w' : world) : Prop :=
  steps p w r.2 w' ∧ good r.2 ∧
  (r.1 = NO_MEMORY ∧ part_refused p src offset len w r.2 w' ∨
   r.1 = (if existsb is_fd (objs_at (base src) B) && negb (mAllowFds p) then FDS_NOT_ALLOWED else NO_ERROR) ∧ part_appended p src offset len B w r.2 w').

Section part.
Context (p src p3 : Parcel) (offset len : Z) (B : list Z) (w : world).
Context (Hg : good p) (Hwf : PA.wf (base src)) (H0 : 0 ≤ offset) (Hsrc : offset + len ≤ PA.mDataSize (base src)) (Hlen : 0 ≤ len).
Context (HB : ∃ lo, placed B lo (PA.mDataSize (base src))) (Hin : Forall (λ off, offset ≤ off ∧ off + SIZEOF_object ≤ offset + len) B).
Context (Hr : (PA.mDataSize (base p) + len) * 3 < 2 ^ 32).
Context (Hg3 : good p3) (Hh : held p3 = held p) (Hobj : mObjects p3 = mObjects p) (Hall : mAllowFds p3 = mAllowFds p).
Context (Hcon : PA.contents (base p3) = PA.contents (base p) ++ part_of src offset len) (Hsize : PA.mDataSize (base p3) = PA.mDataSize (base p) + len).

Lemma entries_written p4 w4 : good p4 → base p4 = base p3 → mAllowFds p4 = mAllowFds p → mObjectsSize p + Z.of_nat (length B) ≤ objects_room p4 → moved p w p4 w4 (λ _, 0) →
  dups (trace w4) = dups (trace w) → wp (append_objects p4 NO_ERROR (place_of p offset <$> B)) (part_result p src offset len B w) w4.
Proof.
  assert (PA.SIZEOF_object = 16) as H16 by done. destruct HB as [lo HB']. destruct (good_wf _ Hg) as [P1 P2 P3].
  intros Hg4 Hb4 Hall4 Hroom4 Hm4 Hd4. assert (mObjects p4 = mObjects p) as Ho4 by (unfold mObjects; by rewrite Hb4).
  assert (held p4 = held p) as Hh4 by (rewrite <- Hh; unfold held, mObjects; by rewrite Hb4).
  eapply run_mono; [apply append_objects_steps; [done| |]|].
  - rewrite Ho4, Hb4, Hsize. apply (placed_app _ _ _ (PA.mDataSize (base p))); [by apply Hg|].
    pose proof (placed_shift (PA.mDataSize (base p) - offset) B offset (offset + len) (placed_part B lo _ offset (offset + len) HB' ltac:(lia) Hin)) as Hs.
    replace (place_of p offset <$> B) with ((λ x, x + (PA.mDataSize (base p) - offset)) <$> B) by (apply list_fmap_ext; intros; unfold place_of; lia).
    replace (offset + (PA.mDataSize (base p) - offset)) with (PA.mDataSize (base p)) in Hs by lia.
    replace (offset + len + (PA.mDataSize (base p) - offset)) with (PA.mDataSize (base p) + len) in Hs by lia. done.
  - unfold mObjectsSize in *. rewrite Ho4, length_fmap. done.
  - intros r w5 (Hst & Hg5 & [B1 B2 B3 B4 B5] & (l & Hl & Hdup) & Herr). rewrite Hb4, Hsize in B2.
    assert (Forall (λ off, obj_at (base p4) (place_of p offset off) = obj_at (base src) off) B) as Hobjs.
    { rewrite Forall_forall in *. intros off Hoff. specialize (Hin off Hoff). cbn in Hin. rewrite Hb4. apply part_object with len; try done; try apply Hg; lia. }
    split; [|split; [done|right; split]].
    { apply (moved_trans _ _ _ _ _ _ _ _ _ Hm4 Hst). intros x. rewrite Hh4. lia. }
    { rewrite Herr, Hall4. assert (objs_at (base p4) (place_of p offset <$> B) = objs_at (base src) B) as ->; [|done].
      unfold objs_at. rewrite <- list_fmap_compose. apply Forall_fmap_ext_1. exact Hobjs. }
    pose proof (PA.contents_length _ (good_wf _ Hg)) as Hcl. constructor; [done|by rewrite B1, Ho4| | |].
    + rewrite contents_before by lia. rewrite B4.
      2: { apply Forall_fmap. eapply Forall_impl; [exact Hin|]. intros x. unfold place_of. cbn. lia. }
      rewrite Hb4, <- contents_before by lia. rewrite Hcon. by rewrite take_app_length' by lia.
    + intros i Hi Hno. unfold PA.contents at 1. rewrite lookup_take_lt by lia. rewrite B5.
      2: { apply Forall_fmap. rewrite Forall_forall in *. intros off Hoff. specialize (Hobjs off Hoff). specialize (Hno off Hoff). cbn in *. rewrite Hobjs. intros Hfd. specialize (Hno Hfd). unfold place_of. lia. }
      rewrite Hb4. transitivity (PA.contents (base p3) !! Z.to_nat (PA.mDataSize (base p) + i)); [unfold PA.contents; by rewrite lookup_take_lt by lia|].
      rewrite Hcon, lookup_app_r by lia. unfold part_of, PA.contents at 2. rewrite lookup_take_lt, lookup_drop by lia. rewrite lookup_take_lt by lia. f_equal. lia.
    + exists l. split; [by rewrite Hl, Hd4|]. apply (duplicated_map (place_of p offset) _ _ (obj_at (base p4)) (obj_at (base r.2))); [|done].
      eapply Forall_impl; [exact Hobjs|]. by intros off ->.
Qed.

(** The end of [appendFrom]. *)
Lemma entries_appended w3 : (mObjectsSize p + Z.of_nat (length B) + 2) * 12 < 2 ^ 32 → moved p w p3 w3 (λ _, 0) → dups (trace w3) = dups (trace w) →
  wp (let more := mObjectsCapacity p3 <? mObjectsSize p3 + Z.of_nat (length B) in
      let newSize := u32 (u32 (mObjectsSize p3 + Z.of_nat (length B)) * 3) / 2 in
      objects ← (if more then o ← malloc (u32 (newSize * 4)); mret (bool_decide (is_Some o)) else mret true);
      if (objects : bool) then
        append_objects (if more then set_room p3 newSize newSize else p3) NO_ERROR ((λ off, u32 (off - offset + PA.mDataSize (base p))) <$> B)
      else mret (NO_MEMORY, p3))
    (part_result p src offset len B w) w3.
Proof.
  intros Hn Hm Hd3. assert (PA.SIZEOF_object = 16) as H16 by done. destruct (good_wf _ Hg) as [P1 P2 P3].
  assert (mObjectsSize p3 = mObjectsSize p) as Hsz3 by (unfold mObjectsSize; by rewrite Hobj). rewrite Hsz3. cbv zeta.
  set (more := mObjectsCapacity p3 <? _). set (newSize := _ / 2).
  assert (((λ off, u32 (off - offset + PA.mDataSize (base p))) <$> B) = place_of p offset <$> B) as ->.
  { apply list_fmap_ext. intros i off Hi. pose proof Hin as Hin'. rewrite Forall_lookup in Hin'. specialize (Hin' _ _ Hi). cbn in Hin'. unfold place_of. destruct Hin' as [Hi1 Hi2]. apply u32_small. lia. }
  apply run_bind. eapply (run_mono _ (λ ok w', (ok = false → more = true) ∧ moved p w p3 w' (λ _, 0) ∧ dups (trace w') = dups (trace w))).
  { destruct more; [|by apply run_ret]. apply run_bind. eapply run_mono; [apply wp_dups; [apply kd_malloc|apply malloc_acts]|]. intros o w4 [[_ Ha] Hk]. apply run_ret. split; [done|]. split; [|congruence].
    apply (moved_trans _ _ _ _ _ _ _ _ _ Hm (acts_moved p3 w3 p3 w4 _ Ha (conj eq_refl eq_refl))). intros; lia. }
  intros ok w4 (Hok & Hm4 & Hd4). destruct ok.
  - destruct more eqn:Hmore.
    + assert (mObjectsSize p + Z.of_nat (length B) ≤ newSize) as Hle by (unfold newSize, mObjectsSize in *; rewrite (u32_small (_ + _)), u32_small by lia; Z.div_mod_to_equations; lia).
      apply entries_written; try done; [apply set_room_good; [done|lia]|]. apply (moved_memory _ _ _ _ _ _ Hm4). done.
    + apply Z.ltb_ge in Hmore. apply entries_written; try done. rewrite (good_room _ Hg3). lia.
  - apply run_ret. split; [|split; [done|left; split; [done|]]]; [|split; [done|split; [done|by right]]]. apply (moved_ext _ _ _ _ _ _ Hm4). intros r. cbn [snd]. rewrite Hh. lia.
Qed.
End part.

(** C14: a part of another parcel whose objects are whole, appended to one that
    owns its memory and whose position is its end, goes to the end.  The
    data before it stays; every byte of the part outside of a descriptor's object is
    the source's; its objects are at their new places, the parcel holding
    references of its own to them; and each descriptor of the part, in order, was
    duplicated once, its copy being the descriptor of the duplicate, which the
    parcel owns unless the duplication failed: then the copy is the negative
    answer, owns nothing, and the call says nothing of it.  The answer is
    FDS_NOT_ALLOWED exactly when there is a descriptor and the parcel does not
    allow them.  Without memory the objects stay those before, nothing is
    duplicated, and the part is absent or there without its objects. *)
Theorem appendFrom_appends p src offset len w : good p → at_end p → PA.mDataPos (base p) = PA.mDataSize (base p) →
  PA.wf (base src) → placed (mObjects src) 0 (PA.mDataSize (base src)) → 0 ≤ offset → 0 < len → offset + len ≤ PA.mDataSize (base src) →
  Forall (λ off, off + SIZEOF_object ≤ offset + len) (objects_in src offset len) → room_for p len → (mObjectsSize p + mObjectsSize src + 2) * 12 < 2 ^ 32 →
  wp (appendFrom p src offset len) (part_result p src offset len (objects_in src offset len) w) w.
Proof.
  intros Hg He Hend Hwf Hpl H0 Hlen Hsrc Hwhole [Hr1 Hr2] Hn. assert (PA.SIZEOF_object = 16) as H16 by done.
  destruct (good_wf _ Hg) as [P1 P2 P3]. pose proof Hwf as [W1 W2 W3]. unfold appendFrom.
  rewrite (proj2 (Z.eqb_neq len 0)), (proj2 (Z.ltb_ge (PA.mDataSize (base src)) offset)), (proj2 (Z.ltb_ge (PA.mDataSize (base src)) len)) by lia.
  rewrite (u32_small (offset + len)), (proj2 (Z.ltb_ge (PA.mDataSize (base src)) (offset + len))) by lia. cbn [orb].
  pose proof (range_taken offset (offset + len) (mObjects src) _ _ Hpl ltac:(lia)) as Hrange. destruct (index_range _ _ _ _ _) as [f l].
  destruct Hrange as (A & B & C & Hobjs & HA & HB & HC & Hnum & Htake).
  assert (objects_in src offset len = B) as HinB by (unfold objects_in; rewrite Hobjs; by apply filter_range).
  rewrite HinB in *. rewrite Hnum in *. rewrite (u32_small (PA.mDataSize (base p) + len)) by lia.
  apply run_bind. eapply (run_mono _ (λ r w', same_parcel p r.2 ∧ moved p w r.2 w' (λ _, 0) ∧
    (r.1 = NO_ERROR ∧ PA.mDataPos (base p) + len ≤ PA.mDataCapacity (base r.2) ∨ r.1 = NO_MEMORY) ∧ dups (trace w') = dups (trace w))).
  { destruct (Z.ltb_spec (PA.mDataCapacity (base p)) (PA.mDataSize (base p) + len)).
    - eapply run_mono; [apply wp_dups; [apply kd_growData|apply growData_room; [done|done|split; lia|lia]]|]. intros r w1 [(Hm & Hsp & _ & _ & Hc) Hk]. split_and!; try done. tauto.
    - apply run_ret. split; [by apply same_parcel_refl|]. split; [apply moved_refl|]. split; [|done]. left. cbn [fst snd]. split; [done|lia]. }
  intros [err p1] w1 (Hsp & Hm & Hc & Hd1). cbn [fst snd] in *. destruct Hc as [[-> Hcap]| ->]; cbn [negb Z.eqb].
  2: { apply run_ret. split; [|split; [apply Hsp|left; split; [done|]]]; [|split; [apply (PA.sd_objects _ _ (sp_data _ _ Hsp))|split; [done|left; apply (PA.sd_contents _ _ (sp_data _ _ Hsp))]]]. apply (moved_ext _ _ _ _ _ _ Hm). intros r. cbn [snd]. rewrite (sp_held _ _ Hsp). lia. }
  apply run_bind. eapply wp_run; [apply PA.load_ok; lia|]. fold (part_of src offset len).
  assert (Z.of_nat (length (part_of src offset len)) = len) as Hdl by (unfold part_of, PA.mDataCapacity in *; rewrite length_take, length_drop; lia).
  pose proof (part_copied p p1 w w1 (part_of src offset len) Hg He Hend Hsp Hm ltac:(lia) ltac:(lia)) as Hcopy. rewrite Hdl in Hcopy.
  apply run_bind. eapply run_mono; [apply wp_dups; [apply kd_store|apply (wp_map_inv _ _ _ _ Hcopy)]|]. cbv beta zeta. intros p2 w3. set (p3 := set_base p2 _). intros [(Hm3 & Hg3 & Hh3 & Ho3 & Hall3 & _ & _ & Hcon & Hsize) Hd3].
  rewrite Hd1 in Hd3.
  clearbody p3. assert (good p3) as Hgood by exact Hg3. destruct (Z.ltb_spec 0 (Z.of_nat (length B))) as [Hpos|Hpos].
  - rewrite Htake by (intros ->; cbn in Hpos; lia). rewrite Hend.
    rewrite Hobjs in Hpl. destruct (placed_right _ _ _ _ Hpl) as [lo HBC].
    apply (entries_appended p src p3 offset len B w); try done; try lia; [exists lo; by eapply placed_left| |].
    + rewrite Forall_forall in *. intros x Hx. specialize (HB x Hx). specialize (Hwhole x Hx). cbn in *. lia.
    + unfold mObjectsSize in *. rewrite Hobjs, !length_app in Hn. lia.
  - destruct B as [|? ?]; [|cbn in Hpos; lia]. apply run_ret. split; [|split; [done|right; split; [done|]]].
    + apply (moved_ext _ _ _ _ _ _ Hm3). intros r. cbn [snd]. rewrite Hh3. lia.
    + pose proof (PA.contents_length _ (good_wf _ Hg)). constructor; cbn [snd]; [done|by rewrite app_nil_r| | |by exists []].
      * rewrite Hcon. by rewrite take_app_length' by lia.
      * intros i Hi _. rewrite Hcon, lookup_app_r by lia. unfold part_of, PA.contents at 2. rewrite lookup_take_lt, lookup_drop, lookup_take_lt by lia. f_equal. lia.
Qed.
End PO.

(** ** A process with memory, its proxies and its counters *)

Definition memory : list event → option (nat → Z) := λ _, Some (λ _, 0).
Definition duplicate : list event → Z := λ _, 40.
Definition proxy_at (h : Z) : option Z := Some (0x1000 + h).
Definition counters_at (b : Z) : Z := u32 (b + 4).
Definition quiet : world := mkWorld 0 0 [].

Lemma counters_word b : 0 ≤ counters_at b < 2 ^ 32.
Proof. apply Z.mod_pos_bound. lia. Qed.
Lemma duplicate_int (tr : list event) : -2 ^ 31 ≤ duplicate tr < 2 ^ 31.
Proof. unfold duplicate. lia. Qed.

Abbreviation writeFd := (λ fd p, writeFileDescriptor memory proxy_at proxy_at counters_at p fd false).

(** Shrinking a parcel gives the places of its objects back, not their number
    that fits: the next object is written behind the block. *)
Theorem shrunk_objects_overflow :
  and_then (writeFd 5 initState) (λ p, and_then (writeFd 6 p) (λ p, and_then (setDataSize memory proxy_at proxy_at counters_at p 16) (writeFd 7))) quiet = Undefined.
Proof. vm_compute. reflexivity. Qed.

(** Growing it instead is what the third descriptor needs. *)
Example unshrunk_objects : ∃ p w, and_then (writeFd 5 initState) (λ p, and_then (writeFd 6 p) (writeFd 7)) quiet = Returned ((NO_ERROR, p), w) ∧ mObjects p = [0; 16; 32].
Proof. eexists _, _. split; vm_compute; reflexivity. Qed.

Definition no_duplicate : list event → Z := λ _, -1.
Definition fd_handle : Parcel :=
  mkParcel (PA.mkParcel 0 (Some (le_bytes 4 1 ++ le_bytes 4 0 ++ object_bytes (PA.mkObject BINDER_TYPE_FD FLAT_FLAGS 5 0))) 24 0 [8] 0 true) 1 1 true true None.

(** A descriptor that cannot be duplicated does not fail an append: the copy's
    object has -1 for a descriptor. *)
Theorem appended_without_descriptor :
  ∃ p w, appendFrom memory no_duplicate proxy_at proxy_at counters_at initState fd_handle 4 20 quiet = Returned ((NO_ERROR, p), w) ∧
    handle (obj_at (base p) 4) = -1 ∧ held proxy_at proxy_at counters_at p = [].
Proof. eexists _, _. split; [vm_compute; reflexivity|]. split; vm_compute; reflexivity. Qed.

(** A part is stored at the position, but the size grows as if that were the
    end: bytes that were never written become data. *)
Definition at_start : Parcel := mkParcel (PA.mkParcel 0 (Some (replicate 16 170)) 8 0 [] 0 true) 0 0 false true None.
Theorem append_in_the_middle :
  ∃ p w, appendFrom memory duplicate proxy_at proxy_at counters_at at_start fd_handle 0 8 quiet = Returned ((NO_ERROR, p), w) ∧
    PA.contents (base p) = le_bytes 4 1 ++ le_bytes 4 0 ++ replicate 8 170.
Proof. eexists _, _. split; vm_compute; reflexivity. Qed.

(** A handle whose descriptor could not be duplicated is returned with the
    error in place of the descriptor. *)
Theorem native_handle_without_descriptor :
  ∃ p w, readNativeHandle memory no_duplicate fd_handle quiet = Returned ((Some (mkHandle 12 1 0 [-1]), p), w).
Proof. eexists _, _. vm_compute. reflexivity. Qed.

Definition one_duplicate : list event → Z := λ tr, if existsb (λ e, match e with Dup _ _ => true | _ => false end) tr then -1 else 40.
Definition two_descriptors : Parcel :=
  mkParcel (PA.mkParcel 0 (Some (le_bytes 4 0 ++ le_bytes 4 2 ++ object_bytes (PA.mkObject BINDER_TYPE_FD FLAT_FLAGS 5 0)
                                   ++ object_bytes (PA.mkObject BINDER_TYPE_FD FLAT_FLAGS 6 0))) 40 0 [8; 24] 0 true) 2 2 true true None.

(** The descriptors duplicated before one that fails stay open. *)
Theorem flattenable_leaks_descriptor unflatten :
  ∃ p w, read_flattenable memory one_duplicate unflatten two_descriptors quiet = Returned ((BAD_VALUE, p), w) ∧ net (trace w) (RFd 40) = 1.
Proof. eexists _, _. split; vm_compute; reflexivity. Qed.

(** ** Inputs the theorems apply to *)

Definition some_writes : list op := [OStrong (Some (BBinder 8)); OInt32 7; ODupFd 3; OWeak (Some (BpBinder 0x1002 2)) true; OBytes [1; 2; 3]; OStrong None].

Lemma some_writes_ok : Forall op_ok some_writes.
Proof. repeat constructor; cbn; lia. Qed.

Lemma empty_ready ops : sum_by op_size ops * 3 < 2 ^ 32 → 0 ≤ sum_by op_size ops → (Z.of_nat (length ops) + 2) * 12 < 2 ^ 32 → ready initState ops.
Proof. intros H1 H0 H2. constructor; try apply init_good; try done; split; cbn in *; lia. Qed.

Lemma parcel_references_witness : ∃ err p w1 w2, write_all memory duplicate duplicate proxy_at proxy_at counters_at initState some_writes quiet = Returned ((err, p), w1) ∧
  destroy proxy_at proxy_at counters_at p w1 = Returned (tt, w2) ∧ (∀ r, net (trace w1) r = net [] r + count (held proxy_at proxy_at counters_at p) r) ∧
  (∀ r, net (trace w2) r = net [] r) ∧ u32 (gParcelGlobalAllocSize w2) = 0 ∧ u32 (gParcelGlobalAllocCount w2) = 0.
Proof. apply (parcel_references memory duplicate duplicate proxy_at proxy_at counters_at counters_word duplicate_int some_writes quiet some_writes_ok); done. Defined.

Lemma strong_binder_roundtrip_witness :
  wp (writeStrongBinder memory proxy_at proxy_at counters_at initState (Some (BBinder 8))) (λ r w', r.1 = NO_MEMORY ∧ same_parcel proxy_at proxy_at counters_at initState r.2 ∨
    r.1 = NO_ERROR ∧ wp (write_all memory duplicate duplicate proxy_at proxy_at counters_at r.2 some_writes) (λ r2 _, ∀ hint, ∃ p'',
      readStrongBinder proxy_at (at_place r2.2 0 hint) = Returned (Some (BBinder 8), p'') ∧ PA.mDataPos (base p'') = 16) w') quiet.
Proof.
  apply (strong_binder_roundtrip memory duplicate duplicate proxy_at proxy_at counters_at counters_word duplicate_int initState (Some (BBinder 8)) some_writes quiet);
    [by apply empty_ready|exact some_writes_ok|done].
Defined.

Lemma weak_binder_roundtrip_witness :
  wp (writeWeakBinder memory proxy_at proxy_at counters_at initState (Some (BpBinder 0x1002 2)) true) (λ r w', r.1 = NO_MEMORY ∧ same_parcel proxy_at proxy_at counters_at initState r.2 ∨
    r.1 = NO_ERROR ∧ wp (write_all memory duplicate duplicate proxy_at proxy_at counters_at r.2 some_writes) (λ r2 _, ∀ hint, ∃ p'',
      readWeakBinder proxy_at (at_place r2.2 0 hint) = Returned (Some (BpBinder 0x1002 2), p'') ∧ PA.mDataPos (base p'') = 16) w') quiet.
Proof.
  apply (weak_binder_roundtrip memory duplicate duplicate proxy_at proxy_at counters_at counters_word duplicate_int initState (Some (BpBinder 0x1002 2)) true some_writes quiet);
    [by apply empty_ready|exact some_writes_ok|done].
Defined.

Lemma appendFrom_appends_witness :
  wp (appendFrom memory duplicate proxy_at proxy_at counters_at initState fd_handle 4 20)
    (part_result proxy_at proxy_at counters_at initState fd_handle 4 20 (objects_in fd_handle 4 20) quiet) quiet.
Proof.
  apply (appendFrom_appends memory duplicate proxy_at proxy_at counters_at duplicate_int initState fd_handle 4 20 quiet); try apply init_good; by repeat constructor.
Defined.

Lemma blob_region_owned_witness :
  wp (writeBlob memory duplicate duplicate duplicate (λ _, Some 0x2000) proxy_at proxy_at counters_at initState 50000) (blob_done proxy_at proxy_at counters_at initState quiet) quiet.
Proof.
  apply (blob_region_owned memory duplicate duplicate duplicate (λ _, Some 0x2000) proxy_at proxy_at counters_at duplicate_int initState 50000 quiet); try done; apply init_good.
Defined.
End PO.
