(* ===== verification/RefBase.v ===== *)
(** Reference counting of [RefBase.cpp]: an object with a count of strong and a
    count of weak references, taken and given back by threads without a lock.

    A thread goes from one access of the shared memory to the next; every atomic
    operation, every other read of a counter and every call on the object is a
    step of its own, and threads interleave between them.  Touching the object
    or the block of the counters after it was freed is undefined; an
    [ALOG_ASSERT] on the counter that was read ends the process when it fails
    (the library is not built with [NDEBUG]).  The debugging lists of references
    are not compiled. *)

From S2P Require Import Prelude.

Module RB.

Definition INITIAL_STRONG_VALUE : Z := 2 ^ 28.

(** [mFlags]: the object goes with its last strong, or its last weak reference. *)
Inductive lifetime := OBJECT_LIFETIME_STRONG | OBJECT_LIFETIME_WEAK.

(** The counters of [weakref_impl], whether the object [mBase] is there, and
    whether the block of the counters is. *)
Record shared := mkShared { mStrong : Z; mWeak : Z; base_alive : bool; refs_alive : bool }.

Definition set_strong (sh : shared) (n : Z) : shared := mkShared n (mWeak sh) (base_alive sh) (refs_alive sh).
Definition set_weak (sh : shared) (n : Z) : shared := mkShared (mStrong sh) n (base_alive sh) (refs_alive sh).
Definition free_base (sh : shared) : shared := mkShared (mStrong sh) (mWeak sh) false (refs_alive sh).
Definition free_refs (sh : shared) : shared := mkShared (mStrong sh) (mWeak sh) (base_alive sh) false.

(** Where a thread is: before the access that is named.
    - [IS]: [incStrong]: [incWeak], the increment, the subtraction of the
      initial value, [onFirstRef];
    - [DS]: [decStrong]: the decrement, [onLastStrongRef];
    - [DEL]: [delete] of the object, and whether [decWeak] follows;
    - [DW]: [decWeak]: the decrement, the look at [mStrong], [onLastWeakRef],
      [delete] of the counters;
    - [AI]: [attemptIncStrong]: [incWeak], the read, the first loop and its read,
      the second loop and its read, [onIncStrongAttempted], the increment,
      [onLastStrongRef];
    - [AF]: its last loop: the read, the exchange;
    - [CW]: [createWeak] on the object, [IW]: [incWeak] on the counters;
    - [AW]: [attemptIncWeak]: the read, the exchange, the read again;
    - [FS]: [forceIncStrong]: [incWeak], the increment; it goes on as [IS] does. *)
Inductive pc :=
  | Idle
  | IS1 | IS2 | IS3 | IS4
  | DS1 | DS2
  | DEL (then_weak : bool)
  | DW1 | DW2 | DW3 | DW4
  | AI1 | AI2 | AI2r | AI3 (curCount : Z) | AI4 (curCount : Z) | AI4r | AI5 | AI5b | AI6
  | AF1 | AF2 (curCount : Z)
  | CW | IW
  | AW1 | AW1r | AW2 (curCount : Z)
  | FS1 | FS2.

#[global] Instance pc_eq_dec : EqDecision pc.
Proof. solve_decision. Defined.

(** A thread and the references it holds. *)
Record thread := mkThread { at_ : pc; strong : nat; weak : nat }.

Definition goto (t : thread) (p : pc) : thread := mkThread p (strong t) (weak t).
Definition got_strong (t : thread) : thread := mkThread Idle (S (strong t)) (weak t).
Definition got_weak (t : thread) : thread := mkThread Idle (strong t) (S (weak t)).

Definition with_refs {A} (sh : shared) (k : outcome A) : outcome A := if refs_alive sh then k else Undefined.
(** The object is touched for its member [mRefs] or for a virtual call. *)
Definition with_base {A} (sh : shared) (k : outcome A) : outcome A := if base_alive sh then k else Undefined.

(** [~RefBase]. *)
Definition destroy (m : lifetime) (sh : shared) : shared :=
  free_base (if mStrong sh =? INITIAL_STRONG_VALUE then free_refs sh
             else match m with
                  | OBJECT_LIFETIME_STRONG => sh
                  | OBJECT_LIFETIME_WEAK => if mWeak sh =? 0 then free_refs sh else sh
                  end).

(** [android_atomic_cmpxchg] on the strong counter: the two continuations. *)
Definition cmpxchg {A} (sh : shared) (old new : Z) (done_ : shared → A) (failed : A) : outcome A :=
  with_refs sh (Returned (if mStrong sh =? old then done_ (set_strong sh new) else failed)).

(** The calls, step by step.  A call that is not at one of its own places stays. *)
Definition stay (sh : shared) (t : thread) : outcome (shared * thread) := Returned (sh, t).

(** The increment of the weak counter, by [incWeak]. *)
Definition incWeak (sh : shared) (k : thread) : outcome (shared * thread) :=
  with_refs sh (oassert (0 <=? mWeak sh) (Returned (set_weak sh (mWeak sh + 1), k))).

Definition incStrong (sh : shared) (t : thread) : outcome (shared * thread) :=
  match at_ t with
  | IS1 => with_base sh (incWeak sh (goto t IS2))
  | IS2 => with_refs sh (oassert (0 <? mStrong sh) (Returned (set_strong sh (mStrong sh + 1),
             if mStrong sh =? INITIAL_STRONG_VALUE then goto t IS3 else got_strong t)))
  | IS3 => with_refs sh (Returned (set_strong sh (mStrong sh - INITIAL_STRONG_VALUE), goto t IS4))
  | IS4 => with_refs sh (with_base sh (Returned (sh, got_strong t)))
  | _ => stay sh t
  end.

Definition decStrong (m : lifetime) (sh : shared) (t : thread) : outcome (shared * thread) :=
  match at_ t with
  | DS1 => with_base sh (with_refs sh (oassert (1 <=? mStrong sh) (Returned (set_strong sh (mStrong sh - 1),
             mkThread (if mStrong sh =? 1 then DS2 else DW1) (strong t - 1) (weak t)))))
  | DS2 => with_refs sh (with_base sh (Returned (sh,
             goto t (match m with OBJECT_LIFETIME_STRONG => DEL true | OBJECT_LIFETIME_WEAK => DW1 end))))
  | _ => stay sh t
  end.

Definition forceIncStrong (sh : shared) (t : thread) : outcome (shared * thread) :=
  match at_ t with
  | FS1 => with_base sh (incWeak sh (goto t FS2))
  | FS2 => with_refs sh (oassert (0 <=? mStrong sh) (Returned (set_strong sh (mStrong sh + 1),
             if mStrong sh =? INITIAL_STRONG_VALUE then goto t IS3 else if mStrong sh =? 0 then goto t IS4 else got_strong t)))
  | _ => stay sh t
  end.

Definition decWeak (m : lifetime) (sh : shared) (t : thread) : outcome (shared * thread) :=
  match at_ t with
  | DW1 => with_refs sh (oassert (1 <=? mWeak sh) (Returned (set_weak sh (mWeak sh - 1), goto t (if mWeak sh =? 1 then DW2 else Idle))))
  | DW2 => with_refs sh (Returned (sh,
             goto t (match m with
                     | OBJECT_LIFETIME_STRONG => if mStrong sh =? INITIAL_STRONG_VALUE then DEL false else DW4
                     | OBJECT_LIFETIME_WEAK => DW3
                     end)))
  | DW3 => with_refs sh (with_base sh (Returned (sh, goto t (DEL false))))
  | DW4 => with_refs sh (Returned (free_refs sh, goto t Idle))
  | _ => stay sh t
  end.

(** [revive] is the answer of [onIncStrongAttempted]. *)
Definition attemptIncStrong (m : lifetime) (sh : shared) (t : thread) (revive : bool) : outcome (shared * thread) :=
  match at_ t with
  | AI1 => incWeak sh (goto t AI2)
  | AI2 => with_refs sh (oassert (0 <=? mStrong sh) (Returned (sh, goto t (AI3 (mStrong sh)))))
  | AI2r => with_refs sh (Returned (sh, goto t (AI3 (mStrong sh))))
  | AI3 c =>
      if (0 <? c) && negb (c =? INITIAL_STRONG_VALUE) then
        cmpxchg sh c (c + 1) (λ sh, (sh, goto t AF1)) (sh, goto t AI2r)
      else
        match m with
        | OBJECT_LIFETIME_STRONG => Returned (sh, goto t (if c <=? 0 then DW1 else AI4 c))
        | OBJECT_LIFETIME_WEAK => Returned (sh, goto t AI5)
        end
  | AI4 c =>
      if 0 <? c then
        cmpxchg sh c (c + 1) (λ sh, (sh, goto t (if c <? INITIAL_STRONG_VALUE then AI6 else AF1))) (sh, goto t AI4r)
      else Returned (sh, goto t DW1)
  | AI4r => with_refs sh (Returned (sh, goto t (AI4 (mStrong sh))))
  | AI5 => with_refs sh (with_base sh (Returned (sh, goto t (if revive then AI5b else DW1))))
  | AI5b => with_refs sh (Returned (set_strong sh (mStrong sh + 1),
              goto t (if (0 <? mStrong sh) && (mStrong sh <? INITIAL_STRONG_VALUE) then AI6 else AF1)))
  | AI6 => with_refs sh (with_base sh (Returned (sh, goto t AF1)))
  | AF1 => with_refs sh (Returned (sh, goto t (AF2 (mStrong sh))))
  | AF2 c =>
      if INITIAL_STRONG_VALUE <=? c then
        oassert (INITIAL_STRONG_VALUE <? c) (cmpxchg sh c (c - INITIAL_STRONG_VALUE) (λ sh, (sh, got_strong t)) (sh, goto t AF1))
      else Returned (sh, got_strong t)
  | _ => stay sh t
  end.

Definition attemptIncWeak (sh : shared) (t : thread) : outcome (shared * thread) :=
  match at_ t with
  | AW1 => with_refs sh (oassert (0 <=? mWeak sh) (Returned (sh, goto t (AW2 (mWeak sh)))))
  | AW1r => with_refs sh (Returned (sh, goto t (AW2 (mWeak sh))))
  | AW2 c =>
      if 0 <? c then
        with_refs sh (Returned (if mWeak sh =? c then (set_weak sh (c + 1), got_weak t) else (sh, goto t AW1r)))
      else Returned (sh, goto t Idle)
  | _ => stay sh t
  end.

Definition createWeak (sh : shared) (t : thread) : outcome (shared * thread) := with_base sh (incWeak sh (got_weak t)).

(** One step of a thread. *)
Definition step (m : lifetime) (sh : shared) (t : thread) (revive : bool) : outcome (shared * thread) :=
  match at_ t with
  | Idle => stay sh t
  | IS1 | IS2 | IS3 | IS4 => incStrong sh t
  | DS1 | DS2 => decStrong m sh t
  | DEL w => with_base sh (with_refs sh (Returned (destroy m sh, goto t (if w then DW1 else Idle))))
  | DW1 | DW2 | DW3 | DW4 => decWeak m sh t
  | AI1 | AI2 | AI2r | AI3 _ | AI4 _ | AI4r | AI5 | AI5b | AI6 | AF1 | AF2 _ => attemptIncStrong m sh t revive
  | CW => createWeak sh t
  | IW => incWeak sh (got_weak t)
  | AW1 | AW1r | AW2 _ => attemptIncWeak sh t
  | FS1 | FS2 => forceIncStrong sh t
  end.

(** What a thread may begin with the references it holds: a call on the object
    needs a strong one, or a weak one when the object lives as long; a call on
    the counters needs a weak one. *)
Inductive may_start (m : lifetime) : thread → thread → Prop :=
  | start_inc s w : may_start m (mkThread Idle (S s) w) (mkThread IS1 (S s) w)
  | start_dec s w : may_start m (mkThread Idle (S s) w) (mkThread DS1 (S s) w)
  | start_create s w : may_start m (mkThread Idle (S s) w) (mkThread CW (S s) w)
  | start_incweak s w : may_start m (mkThread Idle s (S w)) (mkThread IW s (S w))
  | start_decweak s w : may_start m (mkThread Idle s (S w)) (mkThread DW1 s w)
  | start_attempt s w : may_start m (mkThread Idle s (S w)) (mkThread AI1 s (S w))
  | start_attemptweak s w : may_start m (mkThread Idle s (S w)) (mkThread AW1 s (S w))
  | start_force s w : may_start m (mkThread Idle (S s) w) (mkThread FS1 (S s) w)
  | start_force_weak s w : m = OBJECT_LIFETIME_WEAK → may_start m (mkThread Idle s (S w)) (mkThread FS1 s (S w)).

(** ** A system of threads *)

Record system := mkSystem { sh : shared; threads : list thread }.

Inductive moves (m : lifetime) : system → system → Prop :=
  | move_start s i t t' : threads s !! i = Some t → may_start m t t' → moves m s (mkSystem (sh s) (<[i := t']> (threads s)))
  | move_step s i t revive sh' t' : threads s !! i = Some t → step m (sh s) t revive = Returned (sh', t') →
      moves m s (mkSystem sh' (<[i := t']> (threads s)))
  | move_give_strong s i j n w t : threads s !! i = Some (mkThread Idle (S n) w) → threads s !! j = Some t → i ≠ j →
      moves m s (mkSystem (sh s) (<[j := mkThread (at_ t) (S (strong t)) (weak t)]> (<[i := mkThread Idle n w]> (threads s))))
  | move_give_weak s i j n w t : threads s !! i = Some (mkThread Idle n (S w)) → threads s !! j = Some t → i ≠ j →
      moves m s (mkSystem (sh s) (<[j := mkThread (at_ t) (strong t) (S (weak t))]> (<[i := mkThread Idle n w]> (threads s)))).

(** One thread alone, for a number of steps. *)
Fixpoint run_alone (m : lifetime) (n : nat) (sh : shared) (t : thread) : outcome (shared * thread) :=
  match n with
  | O => Returned (sh, t)
  | S n => match step m sh t true with
           | Returned (sh', t') => run_alone m n sh' t'
           | Exited => Exited
           | Undefined => Undefined
           end
  end.

(** Threads in the order of a schedule: each entry is one step of that thread. *)
Fixpoint run_schedule (m : lifetime) (order : list nat) (s : system) : outcome system :=
  match order with
  | [] => Returned s
  | i :: order =>
      match threads s !! i with
      | None => run_schedule m order s
      | Some t => match step m (sh s) t true with
                  | Returned (sh', t') => run_schedule m order (mkSystem sh' (<[i := t']> (threads s)))
                  | Exited => Exited
           | Undefined => Undefined
                  end
      end
  end.

(** The counters the constructor makes. *)
Definition new_object : shared := mkShared INITIAL_STRONG_VALUE 0 true true.

(** ** The invariant *)

Section Invariant.
Context (m : lifetime).

(** What a thread contributes to the counters. *)
Definition strong_units (t : thread) : Z := Z.of_nat (strong t) + match at_ t with IS4 | AI6 | AF1 | AF2 _ => 1 | _ => 0 end.
Definition weak_units (t : thread) : Z :=
  Z.of_nat (strong t) + Z.of_nat (weak t) +
  match at_ t with IS2 | IS4 | FS2 | DS2 | DEL true | DW1 | AI2 | AI2r | AI3 _ | AI5 | AI5b | AI6 | AF1 | AF2 _ => 1 | _ => 0 end.

(** The thread that gave back the last strong reference of an object that goes
    with it, and the one that gave back the last weak reference. *)
Definition killer (t : thread) : bool :=
  match m, at_ t with OBJECT_LIFETIME_STRONG, DS2 | OBJECT_LIFETIME_STRONG, DEL true => true | _, _ => false end.
Definition ender (t : thread) : bool := match at_ t with DW2 | DW3 | DW4 | DEL false => true | _ => false end.

(** A call goes on with the reference it began with; the initial value is gone;
    the steps of the other lifetime do not occur. *)
Definition pc_ok (t : thread) : Prop :=
  match at_ t with
  | IS1 | IS2 | DS1 | CW => (0 < strong t)%nat
  | AI1 | IW | AW1 | AW1r | AW2 _ => (0 < weak t)%nat
  | AI3 c | AF2 c => c < INITIAL_STRONG_VALUE
  | FS1 | FS2 => match m with OBJECT_LIFETIME_STRONG => (0 < strong t)%nat | OBJECT_LIFETIME_WEAK => (0 < strong t + weak t)%nat end
  | IS3 | AI4 _ | AI4r => False
  | DEL false | DW3 | AI5 | AI5b | AI6 => m = OBJECT_LIFETIME_WEAK
  | DEL true | DW4 => m = OBJECT_LIFETIME_STRONG
  | _ => True
  end.

Definition dying (sh : shared) : Z :=
  match m with OBJECT_LIFETIME_STRONG => if (mStrong sh =? 0) && base_alive sh then 1 else 0 | OBJECT_LIFETIME_WEAK => 0 end.
Definition ending (sh : shared) : Z := if (mWeak sh =? 0) && refs_alive sh then 1 else 0.

(** When the object is there. *)
Definition base_ok (sh : shared) : Prop :=
  match m with
  | OBJECT_LIFETIME_STRONG => 0 < mStrong sh → base_alive sh = true
  | OBJECT_LIFETIME_WEAK => base_alive sh = refs_alive sh
  end.

Record inv (s : system) : Prop := {
  i_strong : mStrong (sh s) = sum_by strong_units (threads s);
  i_weak : mWeak (sh s) = sum_by weak_units (threads s);
  i_pc : Forall pc_ok (threads s);
  i_dying : countP killer (threads s) = dying (sh s);
  i_base : base_ok (sh s);
  i_ending : countP ender (threads s) = ending (sh s);
  i_refs : 0 < mWeak (sh s) → refs_alive (sh s) = true
}.

Lemma strong_units_nonneg t : 0 ≤ strong_units t.
Proof. unfold strong_units. destruct (at_ t); lia. Qed.
Lemma weak_units_nonneg t : 0 ≤ weak_units t.
Proof. unfold weak_units. destruct (at_ t) as [| | | | | | |[]| | | | | | | | | | | | | | | | | | | | | |]; lia. Qed.
Lemma strong_le_weak t : strong_units t ≤ weak_units t.
Proof. unfold strong_units, weak_units. destruct (at_ t) as [| | | | | | |[]| | | | | | | | | | | | | | | | | | | | | |]; lia. Qed.

(** What the invariant says of the counters, and of one thread. *)
Lemma inv_counts s : inv s → 0 ≤ mStrong (sh s) ≤ mWeak (sh s).
Proof.
  intros [H1 H2 _ _ _ _ _]. rewrite H1, H2. split; [apply sum_by_nonneg, strong_units_nonneg|apply sum_by_le, strong_le_weak].
Qed.

Lemma inv_thread s i t : inv s → threads s !! i = Some t →
  pc_ok t ∧ strong_units t ≤ mStrong (sh s) ∧ weak_units t ≤ mWeak (sh s) ∧
  (killer t = true → dying (sh s) = 1) ∧ (ender t = true → ending (sh s) = 1).
Proof.
  intros [H1 H2 H3 H4 H5 H6 H7] Hi. rewrite Forall_lookup in H3. split; [by eapply H3|].
  pose proof (sum_by_ge strong_units _ _ _ strong_units_nonneg Hi). pose proof (sum_by_ge weak_units _ _ _ weak_units_nonneg Hi).
  split; [lia|]. split; [lia|]. split; intros Hk; pose proof (countP_pos _ _ _ _ Hi Hk) as Hc.
  - rewrite H4 in Hc. unfold dying in *. by repeat case_match.
  - rewrite H6 in Hc. unfold ending in *. by case_match.
Qed.

(** While the object is there, so are the counters. *)
Lemma base_refs s : inv s → base_alive (sh s) = true → refs_alive (sh s) = true.
Proof.
  intros Hinv Hb. pose proof (i_refs _ Hinv) as Hr. pose proof (inv_counts _ Hinv) as Hc.
  pose proof (i_base _ Hinv) as Hm. pose proof (i_dying _ Hinv) as Hd. unfold base_ok, dying in *.
  destruct m eqn:Em; [|congruence]. destruct (Z.eqb_spec (mStrong (sh s)) 0) as [Hz|]; [|apply Hr; lia].
  rewrite Hb in Hd. cbn [andb] in Hd. destruct (countP_exists killer (threads s)) as (i & t & Hi & Hk); [lia|].
  destruct (inv_thread _ _ _ Hinv Hi) as (_ & _ & Hw & _). apply Hr.
  unfold weak_units, killer in *. rewrite Em in Hk. destruct (at_ t) as [| | | | | | |[]| | | | | | | | | | | | | | | | | | | | | |]; try done; lia.
Qed.

Definition bool_unit (b : bool) : Z := if b then 1 else 0.

(** One thread moves on and the shared state with it. *)
Lemma inv_update s i t sh' t' : inv s → threads s !! i = Some t → pc_ok t' →
  mStrong sh' = mStrong (sh s) - strong_units t + strong_units t' →
  mWeak sh' = mWeak (sh s) - weak_units t + weak_units t' →
  dying sh' = dying (sh s) - bool_unit (killer t) + bool_unit (killer t') →
  ending sh' = ending (sh s) - bool_unit (ender t) + bool_unit (ender t') →
  base_ok sh' → (0 < mWeak sh' → refs_alive sh' = true) →
  inv (mkSystem sh' (<[i := t']> (threads s))).
Proof.
  intros [H1 H2 H3 H4 H5 H6 H7] Hi Hpc Hs Hw Hd He Hb Hr. constructor; cbn [sh threads]; try done.
  - by rewrite (sum_by_insert _ _ _ _ _ Hi), <- H1.
  - by rewrite (sum_by_insert _ _ _ _ _ Hi), <- H2.
  - by apply Forall_insert.
  - by rewrite (countP_insert _ _ _ _ _ Hi), H4, Hd.
  - by rewrite (countP_insert _ _ _ _ _ Hi), H6, He.
Qed.
End Invariant.

(** Arithmetic over what a thread contributes and the tests of the shared state. *)
Ltac units :=
  unfold dying, ending, base_ok, bool_unit, strong_units, weak_units, killer, ender, pc_ok, set_strong, set_weak, free_base, free_refs,
    goto, got_strong, got_weak in *;
  cbn [mStrong mWeak base_alive refs_alive at_ strong weak] in *;
  repeat match goal with
    | H : context [?x =? 0] |- _ => destruct (Z.eqb_spec x 0)
    | |- context [?x =? 0] => destruct (Z.eqb_spec x 0)
    | B : bool |- _ => destruct B
    end; cbn [andb] in *; first [done | lia | tauto].

(** A step of a thread of a system of which the invariant holds, with the
    strong counter short of the initial value: it is defined and it keeps the
    invariant. *)
Lemma step_keeps m s i t revive : inv m s → threads s !! i = Some t → mStrong (sh s) < INITIAL_STRONG_VALUE →
  ∃ sh' t', step m (sh s) t revive = Returned (sh', t') ∧ inv m (mkSystem sh' (<[i := t']> (threads s))).
Proof.
  intros Hinv Hi Hlt. pose proof (inv_counts _ _ Hinv) as H1. pose proof (inv_thread _ _ _ _ Hinv Hi) as (Hpc & H2 & H3 & H4 & H5).
  pose proof (i_base _ _ Hinv) as Hb. pose proof (i_refs _ _ Hinv) as Hr. pose proof (base_refs _ _ Hinv) as Hbr.
  pose proof (λ sh' t', inv_update m s i t sh' t' Hinv Hi) as Hup. clear Hinv Hi.
  destruct t as [p n w]. destruct (sh s) as [S0 W0 B0 R0]. cbn [mStrong mWeak base_alive refs_alive] in *.
  destruct p as [| | | | | | |[]| | | | | | | | | | | | | | | | | | | | | |]; try (exfalso; exact Hpc); destruct m; try discriminate Hpc; unfold step, incStrong, decStrong, forceIncStrong, decWeak, attemptIncStrong, attemptIncWeak, createWeak, incWeak, stay; cbn [at_ strong weak].
  all: unfold killer, ender, dying, ending, pc_ok, base_ok, strong_units, weak_units in Hpc, H2, H3, H4, H5, Hb.
  all: cbn [at_ strong weak mStrong mWeak base_alive refs_alive] in Hpc, H2, H3, H4, H5, Hb.
  all: first [specialize (H4 eq_refl)|clear H4]; first [specialize (H5 eq_refl)|clear H5].
  all: unfold with_base, with_refs, cmpxchg, destroy, with_refs, oassert; cbn [mStrong mWeak base_alive refs_alive].
  all: repeat match goal with
    | |- context [if ?b then _ else Undefined] => is_var b; replace b with true in * by (clear Hup; units)
    | |- context [if ?b then _ else Exited] =>
        lazymatch b with INITIAL_STRONG_VALUE <? _ => fail | _ => idtac end;
        replace b with true by (symmetry; first [apply Z.leb_le | apply Z.ltb_lt]; clear Hup; units)
    end.
  all: repeat match goal with
    | |- context [if ?b then _ else _] => lazymatch b with
        | (_ =? INITIAL_STRONG_VALUE) => replace b with false by (clear Hup; units)
        | (INITIAL_STRONG_VALUE <=? _) => replace b with false by (clear Hup; units)
        | _ => destruct b eqn:? end
    end.
  all: eexists _, _; split; [reflexivity|]; apply Hup; clear Hup; units.
Qed.

(** Beginning a call and handing references over keep it. *)
Lemma start_inv m s i t t' : inv m s → threads s !! i = Some t → may_start m t t' → inv m (mkSystem (sh s) (<[i := t']> (threads s))).
Proof.
  intros Hinv Hi Hst. apply (inv_update m s i t); [done|done|..]; try apply Hinv.
  all: destruct Hst, m; try discriminate; units.
Qed.

Lemma give_inv m s i j n w t n' w' t' : inv m s → threads s !! i = Some (mkThread Idle n w) → threads s !! j = Some t → i ≠ j →
  at_ t' = at_ t → (strong t ≤ strong t')%nat → (weak t ≤ weak t')%nat →
  (n' + strong t' = n + strong t)%nat → (w' + weak t' = w + weak t)%nat →
  inv m (mkSystem (sh s) (<[j := t']> (<[i := mkThread Idle n' w']> (threads s)))).
Proof.
  intros Hinv Hi Hj Hij Ha Hs Hw Hn' Hw'. pose proof (inv_thread _ _ _ _ Hinv Hj) as (Hpc & _). destruct Hinv as [H1 H2 H3 H4 H5 H6 H7].
  assert (∀ x, <[i := x]> (threads s) !! j = Some t) as Hj' by (intros x; by rewrite list_lookup_insert_ne).
  constructor; cbn [sh threads]; try done.
  - rewrite (sum_by_insert _ _ _ _ _ (Hj' _)), (sum_by_insert _ _ _ _ _ Hi), H1. unfold strong_units. rewrite Ha. cbn [at_ strong]. lia.
  - rewrite (sum_by_insert _ _ _ _ _ (Hj' _)), (sum_by_insert _ _ _ _ _ Hi), H2. unfold weak_units. rewrite Ha. cbn [at_ strong weak]. lia.
  - apply Forall_insert; [by apply Forall_insert|]. unfold pc_ok in *. rewrite Ha. clear -Hpc Hs Hw. destruct (at_ t) as [| | | | | | |[]| | | | | | | | | | | | | | | | | | | | | |]; first [done|lia|destruct m; lia].
  - rewrite (countP_insert _ _ _ _ _ (Hj' _)), (countP_insert _ _ _ _ _ Hi), H4. unfold killer. rewrite Ha. cbn [at_]. destruct m; lia.
  - rewrite (countP_insert _ _ _ _ _ (Hj' _)), (countP_insert _ _ _ _ _ Hi), H6. unfold ender. rewrite Ha. cbn [at_]. lia.
Qed.

(** ** The states a program reaches *)

(** One thread holds the first strong reference, as the first [incStrong] leaves it. *)
Definition start (n : nat) : system := mkSystem (mkShared 1 1 true true) (mkThread Idle 1 0 :: replicate n (mkThread Idle 0 0)).

(** The states from there, as long as fewer than [INITIAL_STRONG_VALUE] strong
    references are counted. *)
Inductive reach (m : lifetime) (n : nat) : system → Prop :=
  | reach_start : reach m n (start n)
  | reach_move s s' : reach m n s → mStrong (sh s) < INITIAL_STRONG_VALUE → moves m s s' → reach m n s'.

Lemma start_ok m n : inv m (start n).
Proof.
  assert (∀ f : thread → Z, f (mkThread Idle 0 0) = 0 → sum_by f (replicate n (mkThread Idle 0 0)) = 0) as Hs.
  { intros f Hf. apply sum_by_zero, Forall_replicate, Hf. }
  assert (∀ P : thread → bool, P (mkThread Idle 0 0) = false → countP P (replicate n (mkThread Idle 0 0)) = 0) as Hc.
  { clear Hs. intros P HP. induction n as [|k IH]; [done|]. cbn [replicate]. rewrite countP_cons, HP, IH. done. }
  constructor; cbn [sh threads start mStrong mWeak]; rewrite ?sum_by_cons, ?countP_cons, ?Hs, ?Hc; try done; try (by destruct m).
  - apply Forall_cons. split; [done|]. by apply Forall_replicate.
Qed.

Lemma reach_inv m n s : reach m n s → inv m s.
Proof.
  induction 1 as [|s s' _ IH Hlt Hm]; [apply start_ok|]. destruct Hm.
  - by eapply start_inv.
  - destruct (step_keeps m s i t revive IH H Hlt) as (sh1 & t1 & Heq & Hinv). congruence.
  - eapply give_inv; cbn [strong weak at_]; try done; lia.
  - eapply give_inv; cbn [strong weak at_]; try done; lia.
Qed.

(** ** What the invariant says of references held *)





(** ** A thread alone *)

(** How many steps are left at most when nobody else moves. *)
Definition steps_left (sh : shared) (t : thread) : nat :=
  match at_ t with
  | Idle => 0
  | IS1 => 4 | IS2 => 3 | IS3 => 2 | IS4 => 1
  | DS1 => 7 | DS2 => 6 | DEL true => 5 | DW1 => 4 | DW2 => 3 | DW3 => 2 | DW4 => 1 | DEL false => 1
  | AI1 => 8 | AI2 | AI2r => 7 | AI3 c => if c =? mStrong sh then 6 else 8 | AI5 => 5 | AI5b => 4 | AI6 => 3
  | AI4 _ => 9 | AI4r => 10
  | AF1 => 2 | AF2 _ => 1
  | CW => 1 | IW => 1
  | AW1 | AW1r => 2 | AW2 c => if c =? mWeak sh then 1 else 3
  | FS1 => 4 | FS2 => 3
  end.

Lemma destroy_strong m sh : mStrong (destroy m sh) = mStrong sh.
Proof. unfold destroy, free_base, free_refs. by repeat case_match. Qed.

Lemma step_less m s i t revive sh' t' : inv m s → threads s !! i = Some t → mStrong (sh s) < INITIAL_STRONG_VALUE →
  step m (sh s) t revive = Returned (sh', t') → at_ t ≠ Idle →
  (steps_left sh' t' < steps_left (sh s) t)%nat ∧ mStrong sh' ≤ mStrong (sh s) + 1.
Proof.
  intros Hinv Hi Hlt. pose proof (inv_thread _ _ _ _ Hinv Hi) as (Hpc & _). clear Hinv Hi.
  destruct t as [p n w]. destruct (sh s) as [S0 W0 B0 R0]. cbn [mStrong] in Hlt.
  destruct p as [| | | | | | |[]| | | | | | | | | | | | | | | | | | | | | |]; try (exfalso; exact Hpc); unfold pc_ok in Hpc; cbn [at_] in Hpc;
    unfold step, incStrong, decStrong, forceIncStrong, decWeak, attemptIncStrong, attemptIncWeak, createWeak, incWeak, stay, with_base, with_refs, cmpxchg, with_refs, oassert; cbn [at_ strong weak mStrong mWeak base_alive refs_alive].
  all: intros Hst Hne; repeat (first [destruct B0|destruct R0|case_match]; try discriminate Hst).
  all: injection Hst as <- <-; unfold steps_left, goto, got_strong, got_weak, set_strong, set_weak, free_refs; cbn [at_ mStrong mWeak].
  all: rewrite ?Z.eqb_refl, ?destroy_strong; cbn [mStrong]; repeat case_match; first [done | lia].
Qed.

Lemma run_alone_idle m i : ∀ k s t, inv m s → threads s !! i = Some t → mStrong (sh s) < INITIAL_STRONG_VALUE - Z.of_nat k →
  (steps_left (sh s) t ≤ k)%nat →
  ∃ sh' t', run_alone m k (sh s) t = Returned (sh', t') ∧ at_ t' = Idle ∧ inv m (mkSystem sh' (<[i := t']> (threads s))).
Proof.
  induction k as [|k IH]; intros s t Hinv Hi Hlt Hk.
  - exists (sh s), t. split; [done|]. split; [|by rewrite list_insert_id; [destruct s|]]. unfold steps_left in Hk.
    destruct (at_ t) as [| | | | | | |[]| | | | | | | | | | | | | | | | | | | | | |]; try done; try lia; case_match; lia.
  - destruct (step_keeps m s i t true Hinv Hi ltac:(lia)) as (sh1 & t1 & Hst & Hinv1). cbn [run_alone]. rewrite Hst.
    assert ((steps_left sh1 t1 ≤ k)%nat ∧ mStrong sh1 ≤ mStrong (sh s) + 1) as [Hk1 Hs1].
    { destruct (decide (at_ t = Idle)) as [Ha|Ha].
      - unfold step, stay in Hst. rewrite Ha in Hst. injection Hst as <- <-. unfold steps_left. rewrite Ha. lia.
      - destruct (step_less m s i t true sh1 t1 Hinv Hi ltac:(lia) Hst Ha). lia. }
    destruct (IH (mkSystem sh1 (<[i := t1]> (threads s))) t1 Hinv1) as (sh' & t' & Hr & Ha & Hv); cbn [sh threads] in *; [|lia|done|].
    { apply list_lookup_insert_eq. by eapply lookup_lt_Some. }
    exists sh', t'. split; [done|]. split; [done|]. by rewrite list_insert_insert_eq in Hv.
Qed.
(** ** What the counts promise *)


(** Two threads: the second gets a weak reference and tries to promote it while
    the first gives back the last strong one. *)
Definition promotion : system := mkSystem (mkShared 1 2 true true) [mkThread DS1 1 0; mkThread AI1 0 1].

Lemma promotion_reached : reach OBJECT_LIFETIME_STRONG 1 promotion.
Proof.
  set (sh1 := mkShared 1 1 true true). set (sh2 := mkShared 1 2 true true). set (t0 := mkThread Idle 0 0).
  assert (reach OBJECT_LIFETIME_STRONG 1 (mkSystem sh1 [mkThread CW 1 0; t0])) as H1.
  { apply (reach_move _ _ (start 1)); [constructor|done|].
    apply (move_start _ (start 1) 0%nat (mkThread Idle 1 0)); [done|constructor]. }
  assert (reach OBJECT_LIFETIME_STRONG 1 (mkSystem sh2 [mkThread Idle 1 1; t0])) as H2.
  { apply (reach_move _ _ _ _ H1); [done|]. by apply (move_step _ (mkSystem sh1 [mkThread CW 1 0; t0]) 0%nat (mkThread CW 1 0) true). }
  assert (reach OBJECT_LIFETIME_STRONG 1 (mkSystem sh2 [mkThread Idle 1 0; mkThread Idle 0 1])) as H3.
  { apply (reach_move _ _ _ _ H2); [done|]. by apply (move_give_weak _ (mkSystem sh2 [mkThread Idle 1 1; t0]) 0%nat 1%nat 1%nat 0%nat t0). }
  assert (reach OBJECT_LIFETIME_STRONG 1 (mkSystem sh2 [mkThread DS1 1 0; mkThread Idle 0 1])) as H4.
  { apply (reach_move _ _ _ _ H3); [done|].
    apply (move_start _ (mkSystem sh2 [mkThread Idle 1 0; mkThread Idle 0 1]) 0%nat (mkThread Idle 1 0)); [done|constructor]. }
  apply (reach_move _ _ _ _ H4); [done|].
  apply (move_start _ (mkSystem sh2 [mkThread DS1 1 0; mkThread Idle 0 1]) 1%nat (mkThread Idle 0 1)); [done|constructor].
Qed.




(** From every state that is reached, a thread that moves alone finishes
    its call within eight steps, whatever the others were in the middle of: no
    loop over a compare-and-exchange waits for another thread. *)
Theorem refbase_obstruction_free m n s i t : reach m n s → mStrong (sh s) < INITIAL_STRONG_VALUE - 8 → threads s !! i = Some t →
  ∃ sh' t', run_alone m 8 (sh s) t = Returned (sh', t') ∧ at_ t' = Idle.
Proof.
  intros H%reach_inv Hlt Hi. pose proof (inv_thread _ _ _ _ H Hi) as (Hpc & _).
  destruct (run_alone_idle m i 8 s t H Hi Hlt) as (sh' & t' & Hr & Ha & _); [|by exists sh', t'].
  unfold steps_left, pc_ok in *. destruct (at_ t) as [| | | | | | |[]| | | | | | | | | | | | | | | | | | | | | |]; repeat case_match; first [done|lia].
Qed.

Example refbase_obstruction_free_witness : ∃ sh' t',
  run_alone OBJECT_LIFETIME_STRONG 8 (sh promotion) (mkThread AI1 0 1) = Returned (sh', t') ∧ at_ t' = Idle.
Proof. apply (refbase_obstruction_free OBJECT_LIFETIME_STRONG 1 promotion 1%nat); [apply promotion_reached|done|done]. Defined.

(** The first [incStrong] of a new object leaves both counters at one: the
    state every other theorem starts from. *)
Theorem first_incStrong m : run_alone m 4 new_object (mkThread IS1 0 0) = Returned (mkShared 1 1 true true, mkThread Idle 1 0).
Proof. by destruct m. Qed.

(** A weak reference that was handed out before the first strong one and is
    promoted while that first [incStrong] is between its two operations on the
    counter: both threads take the initial value off.  The counter is then
    negative while two strong references are held; promoting again, taking
    another strong reference and giving one back each fail an assertion. *)
Theorem first_incStrong_race : let torn := mkShared (2 - INITIAL_STRONG_VALUE) 3 true true in
  run_schedule OBJECT_LIFETIME_STRONG [1; 1; 0; 0; 1; 1; 1; 1; 1; 1; 0; 0]%nat
    (mkSystem (set_weak new_object 1) [mkThread IS1 0 0; mkThread AI1 0 1]) =
    Returned (mkSystem torn [mkThread Idle 1 0; mkThread Idle 1 1]) ∧
  run_alone OBJECT_LIFETIME_STRONG 4 torn (mkThread AI1 1 1) = Exited ∧
  run_alone OBJECT_LIFETIME_STRONG 4 torn (mkThread IS1 1 0) = Exited ∧
  run_schedule OBJECT_LIFETIME_STRONG [0; 0; 1; 1]%nat (mkSystem torn [mkThread DS1 1 0; mkThread DS1 1 1]) = Exited.
Proof. by vm_compute. Qed.

End RB.
