(* ===== verification/SharedBuffer.v ===== *)
(** Counted blocks of memory ([SharedBuffer.cpp]) and what is done with the
    items in them ([TypeHelpers.h]): constructing, destroying, copying and
    moving, item by item, or by copying bytes where the traits of the type allow
    it.

    A block is the list of its cells, of the size of an item.  A cell without an
    item is [None]: memory that was allocated, or whose item was destroyed or
    moved away.  Using an item that is not there, constructing one over another
    that has to be destroyed, and leaving the block are undefined. *)

From S2P Require Import Prelude.

Module SB.

(** [traits<TYPE>]; the first three are the flags of a vector. *)
Record traits := mkTraits {
  has_trivial_ctor : bool; has_trivial_dtor : bool; has_trivial_copy : bool; has_trivial_move : bool }.

Section Items.
Context {A : Type} (T : traits) (dflt : A).

Abbreviation cell := (option A).

Definition cget (l : list cell) (i : nat) : outcome cell := oderef (l !! i).
Definition cput (l : list cell) (i : nat) (c : cell) : outcome (list cell) :=
  if (i <? length l)%nat then Returned (<[i := c]> l) else Undefined.

(** Placement [new] where no item must be lost. *)
Definition place (l : list cell) (i : nat) (c : cell) : outcome (list cell) :=
  let! old := cget l i in
  match old with
  | Some _ => if has_trivial_dtor T then cput l i c else Undefined
  | None => cput l i c
  end.

(** One item is copied: by its constructor, or by its bytes. *)
Definition put_item (l : list cell) (i : nat) (c : cell) : outcome (list cell) :=
  if has_trivial_copy T then cput l i c
  else match c with None => Undefined | Some _ => place l i c end.

Definition destroy1 (l : list cell) (i : nat) : outcome (list cell) :=
  let! c := cget l i in
  match c with None => Undefined | Some _ => cput l i None end.

Fixpoint destroy_loop (l : list cell) (p n : nat) : outcome (list cell) :=
  match n with
  | O => Returned l
  | S n => let! l := destroy1 l p in destroy_loop l (S p) n
  end.

Definition destroy_type (l : list cell) (p n : nat) : outcome (list cell) :=
  if has_trivial_dtor T then Returned l else destroy_loop l p n.

Fixpoint construct_loop (l : list cell) (p n : nat) : outcome (list cell) :=
  match n with
  | O => Returned l
  | S n => let! l := place l p (Some dflt) in construct_loop l (S p) n
  end.

Definition construct_type (l : list cell) (p n : nat) : outcome (list cell) :=
  if has_trivial_ctor T then Returned l else construct_loop l p n.

(** The items [src] are copied to [d]. *)
Fixpoint copy_type (l : list cell) (d : nat) (src : list cell) : outcome (list cell) :=
  match src with
  | [] => Returned l
  | c :: src => let! l := put_item l d c in copy_type l (S d) src
  end.

Definition splat_type (l : list cell) (p : nat) (what : cell) (n : nat) : outcome (list cell) :=
  copy_type l p (replicate n what).

(** [memmove]: the items are at their new place and nowhere else, unless their
    bytes are all there is to them. *)
Definition memmove (l : list cell) (d s n : nat) : outcome (list cell) :=
  if ((d + n <=? length l) && (s + n <=? length l))%nat then
    let xs := take n (drop s l) in
    let l := if has_trivial_dtor T then l else take s l ++ replicate n None ++ drop (s + n) l in
    Returned (take d l ++ xs ++ drop (d + n) l)
  else Undefined.

Definition bytewise : bool := (has_trivial_dtor T && has_trivial_copy T) || has_trivial_move T.

(** One turn of the loops of [move_forward_type] and [move_backward_type]. *)
Definition move1 (l : list cell) (d s : nat) : outcome (list cell) :=
  let! c := cget l s in
  let! l := put_item l d c in
  if has_trivial_dtor T then Returned l else destroy1 l s.

Fixpoint forward_loop (l : list cell) (d s n : nat) : outcome (list cell) :=
  match n with
  | O => Returned l
  | S n => let! l := move1 l (d + n) (s + n) in forward_loop l d s n
  end.

Definition move_forward_type (l : list cell) (d s n : nat) : outcome (list cell) :=
  if bytewise then memmove l d s n else forward_loop l d s n.

Fixpoint backward_loop (l : list cell) (d s n : nat) : outcome (list cell) :=
  match n with
  | O => Returned l
  | S n => let! l := move1 l d s in backward_loop l (S d) (S s) n
  end.

Definition move_backward_type (l : list cell) (d s n : nat) : outcome (list cell) :=
  if bytewise then memmove l d s n else backward_loop l d s n.

(** ** What they do where they are meant to be used *)

(** Items that can be used, and memory that can be. *)
Definition items (cs : list cell) : Prop := has_trivial_copy T && has_trivial_dtor T = false → Forall is_Some cs.
Definition room (cs : list cell) : Prop := has_trivial_dtor T = false → Forall (λ c, c = None) cs.

Lemma items_app cs ds : items (cs ++ ds) ↔ items cs ∧ items ds.
Proof. unfold items. setoid_rewrite Forall_app. tauto. Qed.
Lemma items_cons c ds : items (c :: ds) ↔ items [c] ∧ items ds.
Proof. apply (items_app [c]). Qed.
Lemma room_app cs ds : room (cs ++ ds) ↔ room cs ∧ room ds.
Proof. unfold room. setoid_rewrite Forall_app. tauto. Qed.
Lemma room_cons c ds : room (c :: ds) ↔ room [c] ∧ room ds.
Proof. apply (room_app [c]). Qed.
Lemma room_replicate n : room (replicate n None).
Proof. intros _. by apply Forall_replicate. Qed.
Lemma items_nil : items [].
Proof. by intros _. Qed.
Lemma room_nil : room [].
Proof. by intros _. Qed.

Lemma cget_at l c r : cget (l ++ c :: r) (length l) = Returned c.
Proof. unfold cget. by rewrite list_lookup_middle. Qed.

Lemma cput_at l c c' r : cput (l ++ c :: r) (length l) c' = Returned (l ++ c' :: r).
Proof.
  unfold cput. rewrite (proj2 (Nat.ltb_lt _ _)) by (rewrite length_app; cbn; lia). by rewrite insert_app_r_alt, Nat.sub_diag by lia.
Qed.

Lemma put_item_at l c c' r : items [c'] → room [c] → put_item (l ++ c :: r) (length l) c' = Returned (l ++ c' :: r).
Proof.
  unfold items, room, put_item, place. intros Hi Hr. destruct (has_trivial_copy T); [apply cput_at|].
  destruct (Forall_inv (Hi eq_refl)) as [x ->]. rewrite cget_at. cbn [obind].
  destruct c as [y|]; [|apply cput_at]. destruct (has_trivial_dtor T); [apply cput_at|]. specialize (Hr eq_refl). by inversion Hr.
Qed.

Lemma destroy1_at l c r : items [c] → has_trivial_dtor T = false → destroy1 (l ++ c :: r) (length l) = Returned (l ++ None :: r).
Proof.
  unfold items, destroy1. intros Hi Hd. rewrite Hd, andb_false_r in Hi. destruct (Forall_inv (Hi eq_refl)) as [x ->].
  rewrite cget_at. apply cput_at.
Qed.

Lemma place_at l c x r : room [c] → place (l ++ c :: r) (length l) (Some x) = Returned (l ++ Some x :: r).
Proof.
  unfold room, place. intros Hr. rewrite cget_at. cbn [obind]. destruct c as [y|]; [|apply cput_at].
  destruct (has_trivial_dtor T); [apply cput_at|]. specialize (Hr eq_refl). by inversion Hr.
Qed.

(** The cells behind a prefix, one by one. *)
Lemma app_cons_snoc {B} (l : list B) x r : l ++ x :: r = (l ++ [x]) ++ r.
Proof. by rewrite <- app_assoc. Qed.
Lemma length_snoc' {B} (l : list B) x : length (l ++ [x]) = S (length l).
Proof. rewrite length_app. cbn. lia. Qed.

Lemma copy_type_at l old r src : length old = length src → items src → room old →
  copy_type (l ++ old ++ r) (length l) src = Returned (l ++ src ++ r).
Proof.
  revert l old. induction src as [|c src IH]; intros l [|o old] Hl Hi Hr; try done.
  rewrite items_cons in Hi. rewrite room_cons in Hr. cbn [copy_type app]. rewrite put_item_at by tauto. cbn [obind].
  rewrite (app_cons_snoc l c), <- (length_snoc' l c), IH by (tauto || by injection Hl). by rewrite <- app_assoc.
Qed.

Lemma destroy_type_at l cs r : items cs →
  ∃ cs', destroy_type (l ++ cs ++ r) (length l) (length cs) = Returned (l ++ cs' ++ r) ∧ length cs' = length cs ∧ room cs'.
Proof.
  intros Hi. unfold destroy_type. destruct (has_trivial_dtor T) eqn:Hd; [by exists cs; unfold room; rewrite Hd|].
  exists (replicate (length cs) None). split; [|split; [apply length_replicate|apply room_replicate]].
  revert l. induction cs as [|c cs IH]; intros l; [done|]. rewrite items_cons in Hi.
  cbn [length destroy_loop app replicate]. rewrite destroy1_at by tauto. cbn [obind].
  rewrite (app_cons_snoc l None), <- (length_snoc' l None), IH by tauto. by rewrite <- app_assoc.
Qed.

(** Where the constructor does nothing, so do the others. *)
Definition traits_ok : Prop := has_trivial_ctor T = true → has_trivial_copy T = true ∧ has_trivial_dtor T = true.

Lemma construct_type_at l old r : traits_ok → room old →
  ∃ cs, construct_type (l ++ old ++ r) (length l) (length old) = Returned (l ++ cs ++ r) ∧ length cs = length old ∧ items cs ∧
    (has_trivial_ctor T = false → cs = replicate (length old) (Some dflt)).
Proof.
  intros Hok Hr. unfold construct_type. destruct (has_trivial_ctor T) eqn:Hc.
  { exists old. split; [done|]. split; [done|]. split; [|done]. unfold items. destruct (Hok Hc) as [-> ->]. done. }
  exists (replicate (length old) (Some dflt)). split; [|split; [apply length_replicate|split; [|done]]].
  - clear Hc. revert l. induction old as [|c old IH]; intros l; [done|]. rewrite room_cons in Hr.
    cbn [length construct_loop app replicate]. rewrite place_at by tauto. cbn [obind].
    rewrite (app_cons_snoc l), <- (length_snoc' l (Some dflt)), IH by tauto. by rewrite <- app_assoc.
  - intros _. by apply Forall_replicate.
Qed.

(** One item moves over a gap of memory, to its far end or to its near end. *)
Lemma move1_up l x g gap r : items [x] → room (gap ++ [g]) →
  ∃ h, move1 (l ++ x :: gap ++ g :: r) (length l + S (length gap)) (length l) = Returned (l ++ h :: gap ++ x :: r) ∧ room (h :: gap).
Proof.
  intros Hx Hg. rewrite room_app in Hg. unfold move1. rewrite cget_at. cbn [obind].
  replace (l ++ x :: gap ++ g :: r) with ((l ++ x :: gap) ++ g :: r) by by rewrite <- app_assoc.
  replace (length l + S (length gap))%nat with (length (l ++ x :: gap)) by (rewrite length_app; cbn; lia).
  rewrite put_item_at by tauto. cbn [obind]. replace ((l ++ x :: gap) ++ x :: r) with (l ++ x :: gap ++ x :: r) by by rewrite <- app_assoc.
  destruct (has_trivial_dtor T) eqn:Hd; [exists x; split; [done|]; unfold room; by rewrite Hd|].
  exists None. split; [by apply destroy1_at|]. rewrite room_cons. split; [apply (room_replicate 1)|tauto].
Qed.

Lemma move1_down l x g gap r : items [x] → room (g :: gap) →
  ∃ h, move1 (l ++ g :: gap ++ x :: r) (length l) (length l + S (length gap)) = Returned (l ++ x :: gap ++ h :: r) ∧ room (gap ++ [h]).
Proof.
  intros Hx Hg. rewrite room_cons in Hg. unfold move1.
  replace (length l + S (length gap))%nat with (length (l ++ g :: gap)) by (rewrite length_app; cbn; lia).
  assert (cget (l ++ g :: gap ++ x :: r) (length (l ++ g :: gap)) = Returned x) as ->.
  { replace (l ++ g :: gap ++ x :: r) with ((l ++ g :: gap) ++ x :: r) by by rewrite <- app_assoc. apply cget_at. }
  cbn [obind]. rewrite put_item_at by tauto. cbn [obind].
  destruct (has_trivial_dtor T) eqn:Hd; [exists x; split; [done|]; unfold room; by rewrite Hd|].
  exists None. replace (length (l ++ g :: gap)) with (length (l ++ x :: gap)) by by rewrite !length_app.
  replace (l ++ x :: gap ++ x :: r) with ((l ++ x :: gap) ++ x :: r) by by rewrite <- app_assoc.
  rewrite destroy1_at by done. split; [by rewrite <- app_assoc|]. rewrite room_app. split; [tauto|apply (room_replicate 1)].
Qed.

Lemma forward_loop_at l xs gap r : items xs → room gap → gap ≠ [] →
  ∃ gap', forward_loop (l ++ xs ++ gap ++ r) (length l + length gap) (length l) (length xs) = Returned (l ++ gap' ++ xs ++ r) ∧
    length gap' = length gap ∧ room gap'.
Proof.
  revert gap r. induction xs as [|x xs IH] using rev_ind; intros gap r Hi Hg Hn; [by exists gap|].
  rewrite items_app in Hi. destruct gap as [|g gap _] using rev_ind; [done|]. rewrite !length_app. cbn [length].
  replace (length xs + 1)%nat with (S (length xs)) by lia. cbn [forward_loop].
  destruct (move1_up (l ++ xs) x g gap r) as (h & Hm & Hh); [tauto|done|].
  replace (l ++ (xs ++ [x]) ++ (gap ++ [g]) ++ r) with ((l ++ xs) ++ x :: gap ++ g :: r) by by rewrite <- !app_assoc.
  replace (length l + (length gap + 1) + length xs)%nat with (length (l ++ xs) + S (length gap))%nat by (rewrite length_app; lia).
  rewrite <- length_app, Hm. cbn [obind]. destruct (IH (h :: gap) (x :: r)) as (gap' & Hf & Hl & Hr); [tauto|done|done|].
  exists gap'. split_and!; [|rewrite Hl; cbn; lia|done]. cbn [length] in Hf. replace (length gap + 1)%nat with (S (length gap)) by lia.
  replace ((l ++ xs) ++ h :: gap ++ x :: r) with (l ++ xs ++ (h :: gap) ++ x :: r) by by rewrite <- app_assoc.
  rewrite Hf. by rewrite <- !app_assoc.
Qed.

Lemma backward_loop_at l gap xs r : items xs → room gap → gap ≠ [] →
  ∃ gap', backward_loop (l ++ gap ++ xs ++ r) (length l) (length l + length gap) (length xs) = Returned (l ++ xs ++ gap' ++ r) ∧
    length gap' = length gap ∧ room gap'.
Proof.
  revert l gap. induction xs as [|x xs IH]; intros l gap Hi Hg Hn; [by exists gap|].
  rewrite items_cons in Hi. destruct gap as [|g gap]; [done|]. cbn [length backward_loop].
  destruct (move1_down l x g gap (xs ++ r)) as (h & Hm & Hh); [tauto|done|].
  change (l ++ (g :: gap) ++ (x :: xs) ++ r) with (l ++ g :: gap ++ x :: xs ++ r). rewrite Hm. cbn [obind].
  destruct (IH (l ++ [x]) (gap ++ [h])) as (gap' & Hf & Hl & Hr); [tauto|done|by destruct gap|].
  exists gap'. split_and!; [|rewrite Hl, length_app; cbn; lia|done]. rewrite !length_app in Hf. cbn [length] in Hf.
  replace (S (length l)) with (length l + 1)%nat by lia. replace (S (length l + S (length gap))) with (length l + 1 + (length gap + 1))%nat by lia.
  replace (l ++ x :: gap ++ h :: xs ++ r) with ((l ++ [x]) ++ (gap ++ [h]) ++ xs ++ r) by by rewrite <- !app_assoc.
  rewrite Hf. by rewrite <- !app_assoc.
Qed.

Lemma take_length_app {B} (l k : list B) n : take (length l + n) (l ++ k) = l ++ take n k.
Proof. rewrite take_app_ge by lia. by replace (length l + n - length l)%nat with n by lia. Qed.
Lemma drop_length_app {B} (l k : list B) n : drop (length l + n) (l ++ k) = drop n k.
Proof. rewrite drop_app_ge by lia. by replace (length l + n - length l)%nat with n by lia. Qed.

(** The bytes between: what [memmove] leaves where the items were. *)
Lemma memmove_source l xs r : let l' := if has_trivial_dtor T then l ++ xs ++ r
    else take (length l) (l ++ xs ++ r) ++ replicate (length xs) None ++ drop (length l + length xs) (l ++ xs ++ r) in
  ∃ ys, l' = l ++ ys ++ r ∧ length ys = length xs ∧ room ys.
Proof.
  cbn zeta. destruct (has_trivial_dtor T) eqn:Hd; [by exists xs; unfold room; rewrite Hd|].
  exists (replicate (length xs) None). rewrite take_app_length, drop_length_app, drop_app_length.
  split; [done|]. split; [apply length_replicate|apply room_replicate].
Qed.

Lemma move_forward_at l xs gap r : items xs → room gap → gap ≠ [] ∨ bytewise = true →
  ∃ gap', move_forward_type (l ++ xs ++ gap ++ r) (length l + length gap) (length l) (length xs) = Returned (l ++ gap' ++ xs ++ r) ∧
    length gap' = length gap ∧ room gap'.
Proof.
  intros Hi Hg Hn. unfold move_forward_type. destruct bytewise; [|apply forward_loop_at; naive_solver].
  unfold memmove. rewrite (proj2 (andb_true_iff _ _)) by (rewrite !Nat.leb_le, !length_app; lia).
  destruct (memmove_source l xs (gap ++ r)) as (ys & -> & Hl & Hy). exists (take (length gap) (ys ++ gap)).
  rewrite take_length_app, drop_app_length, take_app_length.
  assert (drop (length l + length gap + length xs) (l ++ ys ++ gap ++ r) = r) as ->.
  { rewrite <- Nat.add_assoc, drop_length_app, app_assoc, drop_app_ge by (rewrite length_app; lia).
    replace (length gap + length xs - length (ys ++ gap))%nat with 0%nat by (rewrite length_app; lia). done. }
  assert (take (length gap) (ys ++ gap ++ r) = take (length gap) (ys ++ gap)) as ->.
  { rewrite app_assoc. apply take_app_le. rewrite length_app. lia. }
  split_and!; [by rewrite <- app_assoc|rewrite length_take, length_app; lia|].
  intros Hd. apply Forall_take, Forall_app. split; [by apply Hy|by apply Hg].
Qed.

Lemma move_backward_at l gap xs r : items xs → room gap → gap ≠ [] ∨ bytewise = true →
  ∃ gap', move_backward_type (l ++ gap ++ xs ++ r) (length l) (length l + length gap) (length xs) = Returned (l ++ xs ++ gap' ++ r) ∧
    length gap' = length gap ∧ room gap'.
Proof.
  intros Hi Hg Hn. unfold move_backward_type. destruct bytewise; [|apply backward_loop_at; naive_solver].
  unfold memmove. rewrite (proj2 (andb_true_iff _ _)) by (rewrite !Nat.leb_le, !length_app; lia).
  destruct (memmove_source (l ++ gap) xs r) as (ys & Hs & Hl & Hy). rewrite length_app, <- !app_assoc in Hs. rewrite Hs.
  exists (drop (length xs) (gap ++ ys)). rewrite take_app_length, drop_length_app, !drop_length_app, drop_app_length, take_app_length.
  split_and!; [|rewrite length_drop, length_app; lia|intros Hd; apply Forall_drop, Forall_app; split; [by apply Hg|by apply Hy]].
  rewrite (app_assoc gap ys r), drop_app_le by (rewrite length_app; lia). done.
Qed.

End Items.

(** ** The blocks *)

Record SharedBuffer (A : Type) := mkSB { mRefs : Z; mSize : Z; data : list (option A) }.
Arguments mkSB {A}. Arguments mRefs {A}. Arguments mSize {A}. Arguments data {A}.

(** The blocks by address, and whether the next allocations succeed: those that
    are not listed do. *)
Record mem (A : Type) := mkMem { heap : gmap Z (SharedBuffer A); answers : list bool }.
Arguments mkMem {A}. Arguments heap {A}. Arguments answers {A}.

Definition sizeof_SharedBuffer : Z := 16.

Section Blocks.
Context {A : Type} (isz : Z).

(** How many whole items fit. *)
Definition cells_of (size : Z) : nat := Z.to_nat (size / isz).

Definition answer (m : mem A) : bool * mem A :=
  match answers m with [] => (true, m) | a :: r => (a, mkMem (heap m) r) end.

Definition sb_at (p : Z) (m : mem A) : outcome (SharedBuffer A) := oderef (heap m !! p).
Definition set_sb (p : Z) (b : SharedBuffer A) (m : mem A) : mem A := mkMem (<[p := b]> (heap m)) (answers m).
Definition free_sb (p : Z) (m : mem A) : mem A := mkMem (delete p (heap m)) (answers m).
Definition set_refs (b : SharedBuffer A) (n : Z) : SharedBuffer A := mkSB n (mSize b) (data b).
Definition set_data (b : SharedBuffer A) (l : list (option A)) : SharedBuffer A := mkSB (mRefs b) (mSize b) l.

(** A size that wraps with the header gives a block too short for the header. *)
Definition too_large (size : Z) : bool := 2 ^ 32 - sizeof_SharedBuffer <=? size.

Definition alloc (size : Z) (m : mem A) : outcome (Z * mem A) :=
  let '(a, m) := answer m in
  if negb a then Returned (0, m)
  else if too_large size then Undefined
  else
    let p := fresh ({[0]} ∪ dom (heap m)) in
    Returned (p, set_sb p (mkSB 1 size (replicate (cells_of size) None)) m).

Definition dealloc (p : Z) (m : mem A) : outcome (Z * mem A) :=
  let! b := sb_at p m in
  if negb (mRefs b =? 0) then Returned (-1, m) else Returned (0, free_sb p m).

Definition onlyOwner (b : SharedBuffer A) : bool := mRefs b =? 1.

Definition acquire (p : Z) (m : mem A) : outcome (mem A) :=
  let! b := sb_at p m in Returned (set_sb p (set_refs b (mRefs b + 1)) m).

Definition release (p : Z) (keep : bool) (m : mem A) : outcome (Z * mem A) :=
  let! b := sb_at p m in
  let '(prev, b) := if onlyOwner b then (1, b) else (mRefs b, set_refs b (mRefs b - 1)) in
  if prev =? 1 then Returned (prev, if keep then set_sb p (set_refs b 0) m else free_sb p m)
  else Returned (prev, set_sb p b m).

(** The bytes of one block at the start of another. *)
Definition memcpy (n : nat) (dst src : list (option A)) : list (option A) := take n src ++ drop n dst.

Definition resize_cells (n : nat) (l : list (option A)) : list (option A) := take n l ++ replicate (n - length l) None.

Definition copy_out (p size : Z) (m : mem A) : outcome (Z * mem A) :=
  let! b := sb_at p m in
  let! (sb, m) := alloc size m in
  if sb =? 0 then Returned (0, m)
  else
    let! nb := sb_at sb m in
    let n := cells_of (if size <? mSize b then size else mSize b) in
    let m := set_sb sb (set_data nb (memcpy n (data nb) (data b))) m in
    let! (_, m) := release p false m in
    Returned (sb, m).

Definition edit (p : Z) (m : mem A) : outcome (Z * mem A) :=
  let! b := sb_at p m in
  if onlyOwner b then Returned (p, m) else copy_out p (mSize b) m.

(** [realloc] moves the block: a pointer into it is no longer good. *)
Definition editResize (p newSize : Z) (m : mem A) : outcome (Z * mem A) :=
  let! b := sb_at p m in
  if onlyOwner b then
    if mSize b =? newSize then Returned (p, m)
    else
      let '(a, m) := answer m in
      if a then
        if too_large newSize then Undefined
        else
          let q := fresh ({[0]} ∪ dom (heap m)) in
          Returned (q, set_sb q (mkSB (mRefs b) newSize (resize_cells (cells_of newSize) (data b))) (free_sb p m))
      else copy_out p newSize m
  else copy_out p newSize m.

(** 0 when there are other owners. *)
Definition attemptEdit (p : Z) (m : mem A) : outcome Z :=
  let! b := sb_at p m in
  Returned (if onlyOwner b then p else 0).

Definition reset (p new_size : Z) (m : mem A) : outcome (Z * mem A) :=
  let! (sb, m) := alloc new_size m in
  if sb =? 0 then Returned (0, m) else let! (_, m) := release p false m in Returned (sb, m).

End Blocks.
End SB.
