(* ===== verification/VectorImpl.v ===== *)
(** The vectors of the C++ foundation ([VectorImpl.cpp], [Vector.h]): arrays of
    items in counted blocks that several vectors share until one of them is
    changed.

    A vector is its block and its number of items; the items are those of
    [SharedBuffer.v].  An item that is passed in is outside the blocks, or
    inside one: there it is read when the code reads it.  An [ALOG_ASSERT] that
    fails ends the process. *)

From S2P Require Import Prelude SharedBuffer.

Module VI.
Import SB.

Definition NO_ERROR : Z := 0.
Definition NAME_NOT_FOUND : Z := -2.
Definition NO_MEMORY : Z := -12.
Definition BAD_VALUE : Z := -22.
Definition BAD_INDEX : Z := -75.

Definition kMinVectorCapacity : Z := 4.

(** [mStorage] is 0 for a vector without a block. *)
Record VectorImpl := mkV { mStorage : Z; mCount : Z }.

(** [VectorImpl(itemSize, flags)]. *)
Definition null_vector : VectorImpl := mkV 0 0.

(** A pointer to items: null, to items elsewhere, or into a block. *)
Inductive source (A : Type) := Null | Outside (xs : list A) | Inside (p : Z) (i : nat).
Arguments Null {A}. Arguments Outside {A}. Arguments Inside {A}.

Section Vector.
Context {A : Type} (T : traits) (dflt : A) (isz : Z).

Abbreviation memory := (mem A).

Definition size (v : VectorImpl) : Z := mCount v.

Definition capacity (v : VectorImpl) (m : memory) : outcome Z :=
  if mStorage v =? 0 then Returned 0 else let! b := sb_at (mStorage v) m in Returned (mSize b / isz).

(** Reading and writing items of a block; no items are not touched. *)
Definition read_items (p : Z) (i n : nat) (m : memory) : outcome (list (option A)) :=
  match n with
  | O => Returned []
  | _ => let! b := sb_at p m in if (i + n <=? length (data b))%nat then Returned (take n (drop i (data b))) else Undefined
  end.

Definition upd (p : Z) (f : list (option A) → outcome (list (option A))) (m : memory) : outcome memory :=
  let! b := sb_at p m in let! l := f (data b) in Returned (set_sb p (set_data b l) m).

Definition read_source (s : source A) (n : nat) (m : memory) : outcome (list (option A)) :=
  match s with
  | Null => match n with O => Returned [] | _ => Undefined end
  | Outside xs => if (n <=? length xs)%nat then Returned (Some <$> take n xs) else Undefined
  | Inside p i => read_items p i n m
  end.

Definition copy_to (p : Z) (i : nat) (xs : list (option A)) (m : memory) : outcome memory :=
  match xs with [] => Returned m | _ => upd p (λ l, copy_type T l i xs) m end.

Definition release_storage (v : VectorImpl) (m : memory) : outcome memory :=
  if mStorage v =? 0 then Returned m
  else
    let! (prev, m) := release (mStorage v) true m in
    if prev =? 1 then
      let! m := upd (mStorage v) (λ l, destroy_type T l 0 (Z.to_nat (mCount v))) m in
      let! (_, m) := dealloc (mStorage v) m in
      Returned m
    else Returned m.

(** The copy constructor and the assignment, of another vector. *)
Definition copy_vector (rhs : VectorImpl) (m : memory) : outcome (VectorImpl * memory) :=
  if mStorage rhs =? 0 then Returned (rhs, m) else let! m := acquire (mStorage rhs) m in Returned (rhs, m).

Definition assign (v rhs : VectorImpl) (m : memory) : outcome (VectorImpl * memory) :=
  let! m := release_storage v m in
  if mCount rhs =? 0 then Returned (null_vector, m)
  else let! m := acquire (mStorage rhs) m in Returned (rhs, m).

Definition finish_vector (v : VectorImpl) (m : memory) : outcome (VectorImpl * memory) :=
  let! m := release_storage v m in Returned (null_vector, m).

(** The block to edit, 0 for none. *)
Definition editArrayImpl (v : VectorImpl) (m : memory) : outcome (Z * (VectorImpl * memory)) :=
  if mStorage v =? 0 then Returned (0, (v, m))
  else
    let! sb := attemptEdit (mStorage v) m in
    if sb =? 0 then
      let! cap := capacity v m in
      let! (sb, m) := alloc isz (u32 (cap * isz)) m in
      if sb =? 0 then Returned (mStorage v, (v, m))
      else
        let! xs := read_items (mStorage v) 0 (Z.to_nat (mCount v)) m in
        let! m := copy_to sb 0 xs m in
        let! m := release_storage v m in
        Returned (sb, (mkV sb (mCount v), m))
    else Returned (mStorage v, (v, m)).

(** Whether [itemLocation], [editItemLocation] find a place.  [ALOG_ASSERT] ends
    the process: the library is not built with [NDEBUG]. *)
Definition itemLocation (v : VectorImpl) (index : Z) (m : memory) : outcome bool :=
  let! cap := capacity v m in
  oassert (index <? cap) (Returned ((index <? cap) && negb (mStorage v =? 0))).

Definition editItemLocation (v : VectorImpl) (index : Z) (m : memory) : outcome (bool * (VectorImpl * memory)) :=
  let! cap := capacity v m in
  oassert (index <? cap)
  (if index <? cap then let! (sb, vm) := editArrayImpl v m in Returned (negb (sb =? 0), vm)
   else Returned (false, (v, m))).

(** A new block for the items before and behind a gap: [skip] items of the old
    block are left out, [gap] cells of the new one. *)
Definition copy_around (v : VectorImpl) (sb where_ skip gap tail : Z) (m : memory) : outcome (VectorImpl * memory) :=
  let! xs := read_items (mStorage v) 0 (Z.to_nat where_) m in
  let! m := copy_to sb 0 xs m in
  let! ys := read_items (mStorage v) (Z.to_nat (u32 (where_ + skip))) (Z.to_nat tail) m in
  let! m := copy_to sb (Z.to_nat (u32 (where_ + gap))) ys m in
  let! m := release_storage v m in
  Returned (mkV sb (mCount v), m).

Definition bytes_only : bool := has_trivial_copy T && has_trivial_dtor T.

(** Room for [amount] items at [where_]; whether there is. *)
Definition _grow (where_ amount : Z) (v : VectorImpl) (m : memory) : outcome (bool * (VectorImpl * memory)) :=
  oassert (where_ <=? mCount v)
  (let new_size := u32 (mCount v + amount) in
  let finish (vm : VectorImpl * memory) :=
    let v := mkV (mStorage vm.1) new_size in
    let! ok := itemLocation v where_ vm.2 in Returned (ok, (v, vm.2)) in
  let! cap := capacity v m in
  if cap <? new_size then
    let new_capacity := Z.max kMinVectorCapacity (u32 (u32 (new_size * 3) + 1) / 2) in
    let bytes := u32 (new_capacity * isz) in
    if negb (mStorage v =? 0) && (mCount v =? where_) && bytes_only then
      let! (sb, m) := editResize isz (mStorage v) bytes m in
      if sb =? 0 then Returned (false, (v, m)) else finish (mkV sb (mCount v), m)
    else
      let! (sb, m) := alloc isz bytes m in
      if sb =? 0 then Returned (false, (v, m))
      else let! vm := copy_around v sb where_ 0 amount (mCount v - where_) m in finish vm
  else
    let! (array, vm) := editArrayImpl v m in
    let '(v, m) := vm in
    if where_ =? mCount v then finish (v, m)
    else
      let! m := upd array (λ l, move_forward_type T l (Z.to_nat (u32 (where_ + amount))) (Z.to_nat where_) (Z.to_nat (mCount v - where_))) m in
      finish (v, m)).

Definition _shrink (where_ amount : Z) (v : VectorImpl) (m : memory) : outcome (VectorImpl * memory) :=
  if mStorage v =? 0 then Returned (v, m)
  else
    oassert (u32 (where_ + amount) <=? mCount v)
    (let new_size := u32 (mCount v - amount) in
    let! cap := capacity v m in
    if u32 (new_size * 3) <? cap then
      let new_capacity := Z.max kMinVectorCapacity (u32 (new_size * 2)) in
      let bytes := u32 (new_capacity * isz) in
      if (where_ =? new_size) && bytes_only then
        let! (sb, m) := editResize isz (mStorage v) bytes m in
        Returned (if sb =? 0 then v else mkV sb new_size, m)
      else
        let! (sb, m) := alloc isz bytes m in
        if sb =? 0 then Returned (v, m)
        else
          let! (v, m) := copy_around v sb where_ amount 0 (u32 (new_size - where_)) m in
          Returned (mkV (mStorage v) new_size, m)
    else
      let! (array, vm) := editArrayImpl v m in
      let '(v, m) := vm in
      let! m := upd array (λ l, destroy_type T l (Z.to_nat where_) (Z.to_nat amount)) m in
      let! m := if where_ =? new_size then Returned m
        else upd array (λ l, move_backward_type T l (Z.to_nat where_) (Z.to_nat (u32 (where_ + amount))) (Z.to_nat (u32 (new_size - where_)))) m in
      Returned (mkV (mStorage v) new_size, m)).

Definition insertArrayAt (array : source A) (index length : Z) (v : VectorImpl) (m : memory) : outcome (Z * (VectorImpl * memory)) :=
  if size v <? index then Returned (BAD_INDEX, (v, m))
  else
    let! (ok, vm) := _grow index length v m in
    let '(v, m) := vm in
    if ok : bool then
      let! xs := read_source array (Z.to_nat length) m in
      let! m := copy_to (mStorage v) (Z.to_nat index) xs m in
      Returned (s32 index, (v, m))
    else Returned (NO_MEMORY, (v, m)).

Definition arrayImpl (v : VectorImpl) : source A := if mStorage v =? 0 then Null else Inside (mStorage v) 0.

Definition insertVectorAt (vector : VectorImpl) (index : Z) (v : VectorImpl) (m : memory) : outcome (Z * (VectorImpl * memory)) :=
  insertArrayAt (arrayImpl vector) index (size vector) v m.
Definition appendVector (vector v : VectorImpl) (m : memory) : outcome (Z * (VectorImpl * memory)) := insertVectorAt vector (size v) v m.
Definition appendArray (array : source A) (length : Z) (v : VectorImpl) (m : memory) : outcome (Z * (VectorImpl * memory)) :=
  insertArrayAt array (size v) length v m.

(** [item] is null for items made by the default constructor. *)
Definition insertAt (item : source A) (index numItems : Z) (v : VectorImpl) (m : memory) : outcome (Z * (VectorImpl * memory)) :=
  if size v <? index then Returned (BAD_INDEX, (v, m))
  else
    let! (ok, vm) := _grow index numItems v m in
    let '(v, m) := vm in
    if ok : bool then
      let n := Z.to_nat numItems in
      let! m := match item with
        | Null => upd (mStorage v) (λ l, construct_type T dflt l (Z.to_nat index) n) m
        | _ => match n with
               | O => Returned m
               | _ => let! x := read_source item 1 m in
                      upd (mStorage v) (λ l, splat_type T l (Z.to_nat index) (default None (head x)) n) m
               end
        end in
      Returned (s32 index, (v, m))
    else Returned (NO_MEMORY, (v, m)).

Definition removeItemsAt (index count : Z) (v : VectorImpl) (m : memory) : outcome (Z * (VectorImpl * memory)) :=
  oassert (u32 (index + count) <=? size v)
  (if size v <? u32 (index + count) then Returned (BAD_VALUE, (v, m))
   else let! vm := _shrink index count v m in Returned (s32 index, vm)).

Definition pop (v : VectorImpl) (m : memory) : outcome (VectorImpl * memory) :=
  if size v =? 0 then Returned (v, m) else let! (_, vm) := removeItemsAt (size v - 1) 1 v m in Returned vm.
Definition push (item : source A) (v : VectorImpl) (m : memory) : outcome (VectorImpl * memory) :=
  let! (_, vm) := insertAt item (size v) 1 v m in Returned vm.
Definition add (item : source A) (v : VectorImpl) (m : memory) : outcome (Z * (VectorImpl * memory)) := insertAt item (size v) 1 v m.
Definition clear (v : VectorImpl) (m : memory) : outcome (VectorImpl * memory) := _shrink 0 (mCount v) v m.

(** Whether a pointer is that of a place. *)
Definition is_place (s : source A) (p : Z) (i : nat) : bool :=
  match s with Inside q j => (q =? p) && (j =? i)%nat | _ => false end.

Definition replaceAt (prototype : source A) (index : Z) (v : VectorImpl) (m : memory) : outcome (Z * (VectorImpl * memory)) :=
  oassert (index <? size v)
  (if size v <=? index then Returned (BAD_INDEX, (v, m))
  else
    let! (ok, vm) := editItemLocation v index m in
    let '(v, m) := vm in
    let i := Z.to_nat index in
    if (ok : bool) && is_place prototype (mStorage v) i then Returned (s32 index, (v, m))
    else if negb ok then Returned (match prototype with Null => s32 index | _ => NO_MEMORY end, (v, m))
    else
      let! m := upd (mStorage v) (λ l, destroy_type T l i 1) m in
      let! m := match prototype with
        | Null => upd (mStorage v) (λ l, construct_type T dflt l i 1) m
        | _ => let! x := read_source prototype 1 m in copy_to (mStorage v) i x m
        end in
      Returned (s32 index, (v, m))).

Definition setCapacity (new_capacity : Z) (v : VectorImpl) (m : memory) : outcome (Z * (VectorImpl * memory)) :=
  let! current_capacity := capacity v m in
  if s32 (new_capacity - size v) <=? 0 then Returned (s32 current_capacity, (v, m))
  else
    let! (sb, m) := alloc isz (u32 (new_capacity * isz)) m in
    if sb =? 0 then Returned (NO_MEMORY, (v, m))
    else
      let! xs := read_items (mStorage v) 0 (Z.to_nat (size v)) m in
      let! m := copy_to sb 0 xs m in
      let! m := release_storage v m in
      Returned (s32 new_capacity, (mkV sb (mCount v), m)).

Definition resize (n : Z) (v : VectorImpl) (m : memory) : outcome (Z * (VectorImpl * memory)) :=
  let! (result, vm) := if mCount v <? n then insertAt Null (mCount v) (n - mCount v) v m
    else if n <? mCount v then removeItemsAt n (mCount v - n) v m
    else Returned (NO_ERROR, (v, m)) in
  Returned (if result <? 0 then result else s32 n, vm).

End Vector.
End VI.
