(* ===== verification/VectorSpec.v ===== *)
(** The vectors of [VectorImpl.v] are values: whatever vectors share blocks, each
    operation changes the items of its own vector as a list, and no other; every
    block belongs to the vectors it counts, and every item is constructed and
    destroyed once. *)

From S2P Require Import Prelude SharedBuffer VectorImpl.

Module VS.
Import SB VI.

Section Spec.
Context {A : Type} (T : traits) (dflt : A) (isz : Z) (Hisz : 0 < isz) (Hok : traits_ok T).

Abbreviation memory := (mem A).
Abbreviation cell := (option A).

(** ** Vectors that share blocks *)

Definition uses (p : Z) (v : VectorImpl) : bool := mStorage v =? p.

(** A block whose first [n] cells hold items and no other holds one that has to
    be destroyed. *)
Definition filled (b : SharedBuffer A) (n : Z) : Prop :=
  0 ≤ n ∧ ∃ cs rest, data b = cs ++ rest ∧ length cs = Z.to_nat n ∧ items T cs ∧ room T rest.

Definition block_ok (b : SharedBuffer A) : Prop :=
  0 ≤ mSize b < 2 ^ 32 - sizeof_SharedBuffer ∧ (isz | mSize b) ∧ length (data b) = cells_of isz (mSize b).

(** The blocks belong to the vectors, each to as many as it counts; the block
    at [q] is set aside. *)
Record wf (q : Z) (m : memory) (vs : list VectorImpl) : Prop := {
  w_null v : v ∈ vs → mStorage v = 0 → mCount v = 0;
  w_live v : v ∈ vs → mStorage v ≠ 0 → mStorage v ≠ q ∧ ∃ b, heap m !! mStorage v = Some b ∧ filled b (mCount v);
  w_block p b : heap m !! p = Some b → p ≠ 0 ∧ (p ≠ q → mRefs b = countP (uses p) vs ∧ 0 < mRefs b ∧ block_ok b)
}.

(** The items of a vector. *)
Definition contents (m : memory) (v : VectorImpl) : list cell :=
  match heap m !! mStorage v with Some b => take (Z.to_nat (mCount v)) (data b) | None => [] end.

Definition keeps (m m' : memory) (vs : list VectorImpl) : Prop := ∀ v, v ∈ vs → contents m' v = contents m v.

Lemma keeps_trans m1 m2 m3 vs : keeps m1 m2 vs → keeps m2 m3 vs → keeps m1 m3 vs.
Proof. intros H1 H2 v Hv. by rewrite (H2 v Hv), (H1 v Hv). Qed.

(** A block that is set aside is the only one's to edit. *)
Record owned (m : memory) (q : Z) (b : SharedBuffer A) (vs : list VectorImpl) : Prop := {
  o_wf : wf q m vs;
  o_at : heap m !! q = Some b;
  o_one : mRefs b = 1;
  o_ok : block_ok b;
  o_nz : q ≠ 0
}.

(** All allocations to come succeed. *)
Definition plenty (m : memory) : Prop := Forall (λ a, a = true) (answers m).

Lemma countP_perm {B} (P : B → bool) (l l' : list B) : l ≡ₚ l' → countP P l = countP P l'.
Proof. induction 1; rewrite ?countP_cons; lia. Qed.

Lemma countP_none {B} (P : B → bool) (l : list B) : (∀ x, x ∈ l → P x = false) → countP P l = 0.
Proof.
  intros H. pose proof (countP_nonneg P l). destruct (decide (countP P l = 0)) as [|Hn]; [done|].
  destruct (countP_exists P l) as (i & x & Hi & Hx); [lia|]. rewrite (H x) in Hx; [done|by eapply list_elem_of_lookup_2].
Qed.

Lemma wf_perm q m vs vs' : vs ≡ₚ vs' → wf q m vs → wf q m vs'.
Proof.
  intros Hp [H1 H2 H3]. split.
  - intros v Hv. apply H1. by rewrite Hp.
  - intros v Hv. apply H2. by rewrite Hp.
  - intros p b Hb. rewrite <- (countP_perm _ _ _ Hp). by apply H3.
Qed.

Lemma wf_none m vs : wf 0 m vs → heap m !! 0 = None.
Proof. intros H. destruct (heap m !! 0) as [b|] eqn:Hb; [|done]. by destruct (w_block _ _ _ H 0 b Hb). Qed.

Lemma contents_null q m vs v : wf q m vs → mStorage v = 0 → contents m v = [].
Proof.
  intros H Hv. unfold contents. rewrite Hv. destruct (heap m !! 0) as [b|] eqn:Hb; [|done]. by destruct (w_block _ _ _ H 0 b Hb).
Qed.

Lemma contents_at m v b cs rest : heap m !! mStorage v = Some b → data b = cs ++ rest → length cs = Z.to_nat (mCount v) → contents m v = cs.
Proof. intros Hb Hd Hl. unfold contents. by rewrite Hb, Hd, <- Hl, take_app_length. Qed.

Lemma filled_contents m v b : heap m !! mStorage v = Some b → filled b (mCount v) →
  length (contents m v) = Z.to_nat (mCount v) ∧ items T (contents m v) ∧
  ∃ rest, data b = contents m v ++ rest ∧ room T rest.
Proof. intros Hb (Hn & cs & rest & Hd & Hl & Hi & Hr). rewrite (contents_at _ _ _ _ _ Hb Hd Hl). split_and!; [done|done|]. by exists rest. Qed.

(** ** Giving back and taking *)

(** The last owner's block goes, another owner's is counted down. *)
Lemma countP_uses_pos p v vs : v ∈ vs → mStorage v = p → 0 < countP (uses p) vs.
Proof. intros [i Hi]%list_elem_of_lookup Hp. eapply countP_pos; [exact Hi|]. by apply Z.eqb_eq. Qed.

Lemma wf_other q m v vs p b : wf q m (v :: vs) → p ≠ mStorage v → heap m !! p = Some b →
  p ≠ 0 ∧ (p ≠ q → mRefs b = countP (uses p) vs ∧ 0 < mRefs b ∧ block_ok b).
Proof.
  intros H Hp Hb. destruct (w_block _ _ _ H p b Hb) as [H0 Hq]. split; [done|]. intros Hpq. specialize (Hq Hpq).
  rewrite countP_cons in Hq. unfold uses at 1 in Hq. rewrite (proj2 (Z.eqb_neq _ _)) in Hq by done. by rewrite Z.add_0_l in Hq.
Qed.

Lemma wf_refs q m v vs b : wf q m (v :: vs) → heap m !! mStorage v = Some b → mStorage v ≠ 0 →
  mRefs b = 1 + countP (uses (mStorage v)) vs ∧ block_ok b ∧ filled b (mCount v).
Proof.
  intros H Hb Hv. destruct (w_live _ _ _ H v) as (Hq & b' & Hb' & Hf); [by left|done|]. assert (b' = b) as -> by congruence.
  destruct (w_block _ _ _ H _ _ Hb) as [_ Hr]. destruct (Hr Hq) as (Hr' & _ & Hbo).
  rewrite countP_cons in Hr'. unfold uses at 1 in Hr'. by rewrite Z.eqb_refl in Hr'.
Qed.

Lemma wf_tail_null q m v vs : wf q m (v :: vs) → mStorage v = 0 → wf q m vs.
Proof.
  intros H Hv. split.
  - intros w Hw. apply (w_null _ _ _ H). by right.
  - intros w Hw. apply (w_live _ _ _ H). by right.
  - intros p b Hb. apply (wf_other _ _ _ _ _ _ H); [|done]. rewrite Hv. by destruct (w_block _ _ _ H p b Hb).
Qed.

Lemma wf_drop q m v vs b : wf q m (v :: vs) → mStorage v ≠ 0 → heap m !! mStorage v = Some b → mRefs b = 1 →
  ∀ h', heap h' = delete (mStorage v) (heap m) → wf q h' vs ∧ keeps m h' vs.
Proof.
  intros H Hv Hb H1 h' Hh'. destruct (wf_refs _ _ _ _ _ H Hb Hv) as (Hr & _ & _).
  assert (∀ w, w ∈ vs → mStorage w ≠ mStorage v) as Hne.
  { intros w Hw Heq. pose proof (countP_uses_pos (mStorage v) w vs Hw Heq). lia. }
  split; [split|].
  - intros w Hw. apply (w_null _ _ _ H). by right.
  - intros w Hw Hw0. destruct (w_live _ _ _ H w) as (Hq & c & Hc & Hf); [by right|done|]. split; [done|].
    exists c. split; [|done]. rewrite Hh', lookup_delete_ne; [done|]. by apply not_eq_sym, Hne.
  - intros p c. rewrite Hh', lookup_delete_Some. intros [Hp Hc]. by apply (wf_other _ _ _ _ _ _ H).
  - intros w Hw. unfold contents. rewrite Hh'. rewrite lookup_delete_ne; [done|]. by apply not_eq_sym, Hne.
Qed.

Lemma wf_unshare q m v vs b : wf q m (v :: vs) → mStorage v ≠ 0 → heap m !! mStorage v = Some b → mRefs b ≠ 1 →
  wf q (set_sb (mStorage v) (set_refs b (mRefs b - 1)) m) vs ∧ keeps m (set_sb (mStorage v) (set_refs b (mRefs b - 1)) m) vs.
Proof.
  intros H Hv Hb H1. destruct (wf_refs _ _ _ _ _ H Hb Hv) as (Hr & Hbo & _).
  destruct (w_block _ _ _ H _ _ Hb) as [_ Hq].
  split; [split|].
  - intros w Hw. apply (w_null _ _ _ H). by right.
  - intros w Hw Hw0. destruct (w_live _ _ _ H w) as (Hwq & c & Hc & Hf); [by right|done|]. split; [done|].
    cbn [set_sb heap]. destruct (decide (mStorage w = mStorage v)) as [He|He].
    + rewrite He, lookup_insert. rewrite decide_True by done. exists (set_refs b (mRefs b - 1)). split; [done|].
      assert (c = b) as -> by congruence. exact Hf.
    + exists c. split; [|done]. by rewrite lookup_insert_ne.
  - intros p c. cbn [set_sb heap]. rewrite lookup_insert_Some. intros [[<- <-]|[Hp Hc]]; [|by apply (wf_other _ _ _ _ _ _ H)].
    split; [done|]. intros Hpq. destruct (Hq Hpq) as (Hc & Hpos & _). split_and!; [cbn; lia|cbn; lia|exact Hbo].
  - intros w Hw. unfold contents. cbn [set_sb heap]. destruct (decide (mStorage w = mStorage v)) as [He|He].
    + rewrite He, lookup_insert, decide_True, Hb by done. done.
    + by rewrite lookup_insert_ne.
Qed.

Lemma release_ok q m v vs : wf q m (v :: vs) →
  ∃ m', release_storage T v m = Returned m' ∧ wf q m' vs ∧ keeps m m' vs ∧ answers m' = answers m ∧
    (q ≠ 0 → heap m' !! q = heap m !! q).
Proof.
  intros H. unfold release_storage. destruct (Z.eqb_spec (mStorage v) 0) as [Hv|Hv].
  { exists m. split_and!; [done|by eapply wf_tail_null|done|done|done]. }
  destruct (w_live _ _ _ H v) as (Hvq & b & Hb & Hf); [by left|done|]. unfold release, sb_at. rewrite Hb. cbn [oderef obind]. unfold onlyOwner.
  destruct (Z.eqb_spec (mRefs b) 1) as [H1|H1].
  - cbn [Z.eqb Pos.eqb obind]. unfold upd, sb_at. cbn [obind set_sb heap]. rewrite lookup_insert, decide_True by done. cbn [oderef obind set_refs data].
    destruct Hf as (Hn & cs & rest & Hd & Hl & Hi & Hro). rewrite Hd, <- Hl.
    destruct (destroy_type_at T [] cs rest Hi) as (cs' & Hds & _). cbn [app length] in Hds. rewrite Hds. cbn [obind].
    unfold dealloc, sb_at. cbn [set_sb heap]. rewrite lookup_insert, decide_True by done. cbn [oderef obind set_data mRefs Z.eqb negb].
    exists (mkMem (delete (mStorage v) (heap m)) (answers m)).
    split; [unfold free_sb, set_sb; cbn [heap answers]; by rewrite !delete_insert_eq|].
    pose proof (wf_drop q m v vs b H Hv Hb H1 (mkMem (delete (mStorage v) (heap m)) (answers m)) eq_refl) as [Hw Hk]. split_and!; [exact Hw|exact Hk|done|].
    intros _. cbn [heap]. by rewrite lookup_delete_ne.
  - rewrite !(proj2 (Z.eqb_neq (mRefs b) 1)) by done. cbn [obind]. rewrite (proj2 (Z.eqb_neq (mRefs b) 1)) by done.
    destruct (wf_unshare q m v vs b H Hv Hb H1) as [Hw Hk].
    eexists. split_and!; [reflexivity|exact Hw|exact Hk|done|]. intros _. cbn [set_sb heap]. by rewrite lookup_insert_ne.
Qed.

(** ** Blocks set aside *)

Definition size_ok (n : Z) : Prop := 0 ≤ n < 2 ^ 32 - sizeof_SharedBuffer ∧ (isz | n).

Lemma answer_plenty m : plenty m → ∃ m', answer m = (true, m') ∧ heap m' = heap m ∧ plenty m'.
Proof. unfold plenty, answer. destruct m as [h [|a l]]; cbn; [by exists (mkMem h [])|]. intros [-> Hl]%Forall_cons. by exists (mkMem h l). Qed.

Lemma size_not_large n : size_ok n → too_large n = false.
Proof. intros [Hn _]. apply Z.leb_gt. lia. Qed.

Lemma alloc_ok m vs n : wf 0 m vs → plenty m → size_ok n →
  ∃ p m', alloc isz n m = Returned (p, m') ∧ owned m' p (mkSB 1 n (replicate (cells_of isz n) None)) vs ∧ keeps m m' vs ∧ plenty m' ∧
    heap m !! p = None ∧ (∀ p', p' ≠ p → heap m' !! p' = heap m !! p').
Proof.
  intros H Hp Hn. unfold alloc. destruct (answer_plenty m Hp) as (m1 & -> & Hh & Hp1). cbn [negb]. rewrite size_not_large by done.
  set (p := fresh ({[0]} ∪ dom (heap m1))).
  assert (p ∉ {[0]} ∪ dom (heap m)) as Hf by (subst p; rewrite <- Hh; apply is_fresh).
  assert (p ≠ 0 ∧ heap m !! p = None) as [Hp0 Hpn] by (rewrite <- not_elem_of_dom; set_solver).
  exists p, (set_sb p (mkSB 1 n (replicate (cells_of isz n) None)) m1). split; [done|].
  assert (∀ p', p' ≠ p → heap (set_sb p (mkSB 1 n (replicate (cells_of isz n) None)) m1) !! p' = heap m !! p') as Hne.
  { intros p' Hp'. cbn [set_sb heap]. by rewrite Hh, lookup_insert_ne. }
  assert (∀ v, v ∈ vs → mStorage v ≠ p) as Hvp.
  { intros v Hv Heq. destruct (w_live _ _ _ H v Hv) as (_ & b & Hb & _); congruence. }
  split_and!; [|intros v Hv; unfold contents; by rewrite Hne by auto|exact Hp1|done|done].
  split; [split|cbn [set_sb heap]; by rewrite lookup_insert, decide_True|done| |done].
  - apply (w_null _ _ _ H).
  - intros v Hv Hv0. split; [auto|]. rewrite Hne by auto. by apply (w_live _ _ _ H).
  - intros p' b. destruct (decide (p' = p)) as [->|Hp']; [done|]. rewrite Hne by done. intros Hb.
    destruct (w_block _ _ _ H p' b Hb) as [? Hr]. split; [done|]. intros _. by apply Hr.
  - split; [apply Hn|split; [apply Hn|apply length_replicate]].
Qed.

(** The block of a single owner is taken aside, and comes back filled. *)
Lemma own_open m v vs b : wf 0 m (v :: vs) → heap m !! mStorage v = Some b → mStorage v ≠ 0 → mRefs b = 1 → owned m (mStorage v) b vs.
Proof.
  intros H Hb Hv H1. destruct (wf_refs _ _ _ _ _ H Hb Hv) as (Hr & Hbo & _). split; try done.
  assert (∀ w, w ∈ vs → mStorage w ≠ mStorage v) as Hne.
  { intros w Hw Heq. pose proof (countP_uses_pos (mStorage v) w vs Hw Heq). lia. }
  split.
  - intros w Hw. apply (w_null _ _ _ H). by right.
  - intros w Hw Hw0. split; [auto|]. apply (w_live _ _ _ H); [by right|done].
  - intros p c Hc. split; [by destruct (w_block _ _ _ H p c Hc)|]. intros Hp.
    destruct (wf_other _ _ _ _ _ _ H Hp Hc) as [Hp0 Hq]. by apply Hq.
Qed.

Lemma own_close m p b vs n : owned m p b vs → filled b n → wf 0 m (mkV p n :: vs).
Proof.
  intros [Hw Ha H1 Hbo Hp] Hf. split.
  - intros v [->|Hv]%elem_of_cons; [done|]. by apply (w_null _ _ _ Hw).
  - intros v [->|Hv]%elem_of_cons; [intros _; split; [done|]; by exists b|]. intros Hv0.
    split; [done|]. by apply (w_live _ _ _ Hw).
  - intros p' c Hc. destruct (w_block _ _ _ Hw p' c Hc) as [Hp0 Hr]. split; [done|]. intros _.
    rewrite countP_cons. unfold uses at 1. cbn [mStorage]. destruct (Z.eqb_spec p p') as [<-|Hne].
    + assert (c = b) as -> by congruence. rewrite (countP_none (uses p)); [split_and!; [lia|lia|done]|].
      intros w Hi. apply Z.eqb_neq. destruct (decide (mStorage w = 0)) as [->|Hw0]; [done|].
      by eapply (w_live _ _ _ Hw).
    + destruct (Hr (not_eq_sym Hne)) as (-> & ? & ?). split_and!; [lia|lia|done].
Qed.

Lemma own_set m p b b' vs : owned m p b vs → mRefs b' = 1 → block_ok b' →
  owned (set_sb p b' m) p b' vs ∧ keeps m (set_sb p b' m) vs.
Proof.
  intros [Hw Ha H1 Hbo Hp] H1' Hbo'.
  assert (∀ v, v ∈ vs → mStorage v ≠ 0 → mStorage v ≠ p) as Hvp by (intros v Hv Hv0; by apply (w_live _ _ _ Hw)).
  split; [|intros v Hv].
  - split; [split|cbn [set_sb heap]; by rewrite lookup_insert, decide_True|done|done|done].
    + apply (w_null _ _ _ Hw).
    + intros v Hv Hv0. split; [auto|]. cbn [set_sb heap]. rewrite lookup_insert_ne by (apply not_eq_sym; auto). by apply (w_live _ _ _ Hw).
    + intros p' c. cbn [set_sb heap]. rewrite lookup_insert_Some. intros [[<- <-]|[Hp' Hc]]; [done|]. by apply (w_block _ _ _ Hw).
  - unfold contents. cbn [set_sb heap]. destruct (decide (mStorage v = 0)) as [Hv0|Hv0].
    + rewrite Hv0, lookup_insert_ne by done. done.
    + by rewrite lookup_insert_ne by (apply not_eq_sym; auto).
Qed.

(** A block that moves. *)
Lemma own_move m m' p q b b' vs : owned m p b vs → heap m' = <[q := b']> (delete p (heap m)) → q ≠ 0 → heap m !! q = None →
  mRefs b' = 1 → block_ok b' → owned m' q b' vs ∧ keeps m m' vs.
Proof.
  intros [Hw Ha H1 Hbo Hp] Hh Hq Hn H1' Hbo'.
  assert (∀ v, v ∈ vs → mStorage v ≠ 0 → mStorage v ≠ p ∧ mStorage v ≠ q) as Hvp.
  { intros v Hv Hv0. destruct (w_live _ _ _ Hw v Hv Hv0) as (Hvp & c & Hc & _). split; [done|]. intros Hs. rewrite Hs in Hc. congruence. }
  assert (∀ v, v ∈ vs → mStorage v ≠ 0 → heap m' !! mStorage v = heap m !! mStorage v) as Hsame.
  { intros v Hv Hv0. destruct (Hvp v Hv Hv0). by rewrite Hh, lookup_insert_ne, lookup_delete_ne. }
  split; [|intros v Hv].
  - split; [split|by rewrite Hh, lookup_insert, decide_True|done|done|done].
    + apply (w_null _ _ _ Hw).
    + intros v Hv Hv0. split; [by apply Hvp|]. rewrite Hsame by done. by apply (w_live _ _ _ Hw).
    + intros p' c. rewrite Hh, lookup_insert_Some. intros [[<- <-]|[Hp' [Hpp Hc]%lookup_delete_Some]]; [done|].
      destruct (w_block _ _ _ Hw p' c Hc) as [Hp0 Hr]. split; [done|]. intros _. by apply Hr.
  - unfold contents. destruct (decide (mStorage v = 0)) as [Hv0|Hv0]; [|by rewrite Hsame].
    rewrite Hv0, Hh, lookup_insert_ne, lookup_delete_ne by done. done.
Qed.

Lemma own_upd m p b vs f l : owned m p b vs → f (data b) = Returned l → length l = length (data b) →
  ∃ m', upd p f m = Returned m' ∧ owned m' p (set_data b l) vs ∧ keeps m m' vs ∧ answers m' = answers m.
Proof.
  intros Ho Hf Hl. pose proof Ho as [Hw Ha H1 Hbo Hp]. unfold upd, sb_at. rewrite Ha. cbn [oderef obind]. rewrite Hf. cbn [obind].
  destruct (own_set m p b (set_data b l) vs Ho) as [Ho' Hk]; [done| |by exists (set_sb p (set_data b l) m)].
  destruct Hbo as (? & ? & ?). unfold block_ok. cbn [set_data data mSize]. split_and!; [lia|lia|done|congruence].
Qed.

Lemma own_wider m p b vs v : owned m p b (v :: vs) → mStorage v = 0 → owned m p b vs.
Proof. intros [Hw ? ? ? ?] Hv. split; try done. by eapply wf_tail_null. Qed.

Lemma own_release m p b v vs : owned m p b (v :: vs) →
  ∃ m', release_storage T v m = Returned m' ∧ owned m' p b vs ∧ keeps m m' vs ∧ answers m' = answers m.
Proof.
  intros [Hw Ha H1 Hbo Hp]. destruct (release_ok _ _ _ _ Hw) as (m' & Hr & Hw' & Hk & Han & Hq).
  exists m'. split_and!; [done| |done|done]. split; try done. by rewrite Hq.
Qed.

(** [release] without the destructors, for types that have none. *)
Lemma own_release_bytes m p b v vs : owned m p b (v :: vs) → mStorage v ≠ 0 →
  ∃ r m', release (mStorage v) false m = Returned (r, m') ∧ owned m' p b vs ∧ keeps m m' vs ∧ answers m' = answers m.
Proof.
  intros [Hw Ha H1 Hbo Hp] Hv. destruct (w_live _ _ _ Hw v) as (Hvp & c & Hc & _); [by left|done|].
  unfold release, sb_at. rewrite Hc. cbn [oderef obind]. unfold onlyOwner. destruct (Z.eqb_spec (mRefs c) 1) as [Hc1|Hc1].
  - cbn [Z.eqb Pos.eqb]. destruct (wf_drop _ _ _ _ _ Hw Hv Hc Hc1 (free_sb (mStorage v) m) eq_refl) as [Hw' Hk].
    eexists _, _. split; [reflexivity|]. split_and!; [|exact Hk|done]. split; try done. cbn [free_sb heap]. by rewrite lookup_delete_ne.
  - rewrite (proj2 (Z.eqb_neq (mRefs c) 1)) by done. destruct (wf_unshare _ _ _ _ _ Hw Hv Hc Hc1) as [Hw' Hk].
    eexists _, _. split; [reflexivity|]. split_and!; [|exact Hk|done]. split; try done. cbn [set_sb heap]. by rewrite lookup_insert_ne.
Qed.

(** ** Reading and copying *)

Lemma read_ok q m vs v xs mid ys : wf q m vs → v ∈ vs → contents m v = xs ++ mid ++ ys →
  read_items (mStorage v) (length xs) (length mid) m = Returned mid.
Proof.
  intros Hw Hv Hc. destruct mid as [|c mid]; [done|]. unfold read_items. cbn [length].
  destruct (decide (mStorage v = 0)) as [Hv0|Hv0].
  { rewrite (contents_null _ _ _ _ Hw Hv0) in Hc. by destruct xs. }
  destruct (w_live _ _ _ Hw v Hv Hv0) as (_ & b & Hb & Hf). unfold sb_at. rewrite Hb. cbn [oderef obind].
  destruct (filled_contents m v b Hb Hf) as (_ & _ & rest & Hd & _). rewrite Hd, Hc, <- !app_assoc.
  rewrite (proj2 (Nat.leb_le _ _)) by (rewrite !length_app; cbn; lia). rewrite drop_app_length. change (S (length mid)) with (length (c :: mid)). by rewrite take_app_length.
Qed.

Lemma set_data_id (b : SharedBuffer A) : set_data b (data b) = b.
Proof. by destruct b. Qed.

Lemma own_copy m p b vs l old r xs : owned m p b vs → data b = l ++ old ++ r → length old = length xs → items T xs → room T old →
  ∃ m', copy_to T p (length l) xs m = Returned m' ∧ owned m' p (set_data b (l ++ xs ++ r)) vs ∧ keeps m m' vs ∧ answers m' = answers m.
Proof.
  intros Ho Hd Hl Hi Hr. destruct xs as [|x xs].
  - exists m. apply nil_length_inv in Hl as ->. cbn [app] in *. rewrite <- Hd, set_data_id. by split_and!.
  - unfold copy_to. apply own_upd; [done| |].
    + rewrite Hd. by apply copy_type_at.
    + rewrite Hd, !length_app. lia.
Qed.

Lemma set_data_twice (b : SharedBuffer A) l k : set_data (set_data b l) k = set_data b k.
Proof. done. Qed.

(** Items of the vector's block are copied around a gap into the new one. *)
Lemma copy_around_ok m q b v vs xs mid ys g r :
  owned m q b (v :: vs) → data b = replicate (length xs + (g + (length ys + r))) None → contents m v = xs ++ mid ++ ys →
  Z.of_nat (length xs + length mid) < 2 ^ 32 → Z.of_nat (length xs + g) < 2 ^ 32 → items T xs → items T ys →
  ∃ m', copy_around T v q (Z.of_nat (length xs)) (Z.of_nat (length mid)) (Z.of_nat g) (Z.of_nat (length ys)) m = Returned (mkV q (mCount v), m') ∧
    owned m' q (set_data b (xs ++ replicate g None ++ ys ++ replicate r None)) vs ∧ keeps m m' vs ∧ answers m' = answers m.
Proof.
  intros Ho Hd Hc Hs1 Hs2 Hix Hiy. unfold copy_around. rewrite !u32_small by lia. rewrite <- !Nat2Z.inj_add, !Nat2Z.id.
  rewrite !replicate_add in Hd.
  pose proof (read_ok q m (v :: vs) v [] xs (mid ++ ys) (o_wf _ _ _ _ Ho)) as Hr1. cbn [length app] in Hr1. rewrite Hr1 by (done || by left). cbn [obind].
  destruct (own_copy m q b (v :: vs) [] (replicate (length xs) None) (replicate g None ++ replicate (length ys) None ++ replicate r None) xs)
    as (m1 & Hc1 & Ho1 & Hk1 & Ha1); [done|done|apply length_replicate|done|apply room_replicate|].
  cbn [length] in Hc1. rewrite Hc1. cbn [obind app] in *.
  pose proof (read_ok q m1 (v :: vs) v (xs ++ mid) ys [] (o_wf _ _ _ _ Ho1)) as Hr2. rewrite length_app in Hr2.
  rewrite Hr2; [|by left|rewrite app_nil_r, <- app_assoc; rewrite Hk1 by left; done]. cbn [obind].
  destruct (own_copy m1 q _ (v :: vs) (xs ++ replicate g None) (replicate (length ys) None) (replicate r None) ys Ho1)
    as (m2 & Hc2 & Ho2 & Hk2 & Ha2); [cbn [set_data data]; by rewrite <- app_assoc|apply length_replicate|done|apply room_replicate|].
  rewrite length_app, length_replicate in Hc2. rewrite Hc2. cbn [obind].
  rewrite set_data_twice, <- app_assoc in Ho2. destruct (own_release _ _ _ _ _ Ho2) as (m3 & -> & Ho3 & Hk3 & Ha3). cbn [obind].
  exists m3. split_and!; [done|done| |congruence]. eapply keeps_trans; [|exact Hk3]. intros w Hw. rewrite Hk2, Hk1 by (by right). done.
Qed.

(** ** Editing *)

(** What is known of a vector that has a block. *)
Lemma block_of q m vs v : wf q m vs → v ∈ vs → mStorage v ≠ 0 →
  ∃ b rest, heap m !! mStorage v = Some b ∧ data b = contents m v ++ rest ∧ length (contents m v) = Z.to_nat (mCount v) ∧
    0 ≤ mCount v ∧ items T (contents m v) ∧ room T rest ∧ block_ok b ∧ mSize b = isz * Z.of_nat (length (data b)).
Proof.
  intros Hw Hv Hv0. destruct (w_live _ _ _ Hw v Hv Hv0) as (Hq & b & Hb & Hf). destruct (filled_contents _ _ _ Hb Hf) as (Hl & Hi & rest & Hd & Hr).
  destruct (w_block _ _ _ Hw _ _ Hb) as [_ Hp]. destruct (Hp Hq) as (_ & _ & Hbo). exists b, rest. split_and!; try done; [apply Hf|].
  destruct Hbo as (Hs & [k Hk] & ->). unfold cells_of. rewrite Hk, Z.div_mul, Z2Nat.id by lia. lia.
Qed.

Lemma block_cells b : block_ok b → mSize b / isz = Z.of_nat (length (data b)) ∧ mSize b = isz * Z.of_nat (length (data b)) ∧
  0 ≤ mSize b < 2 ^ 32 - sizeof_SharedBuffer.
Proof. intros (Hs & [k Hk] & Hl). rewrite Hl. unfold cells_of. rewrite Hk, Z.div_mul, Z2Nat.id by lia. lia. Qed.

(** The number of items a vector has room for. *)
Definition cells (m : memory) (v : VectorImpl) : nat :=
  match heap m !! mStorage v with Some b => length (data b) | None => 0 end.

Lemma capacity_ok q m vs v : wf q m vs → v ∈ vs → capacity isz v m = Returned (Z.of_nat (cells m v)).
Proof.
  intros Hw Hv. unfold capacity, cells. destruct (Z.eqb_spec (mStorage v) 0) as [Hv0|Hv0].
  - rewrite Hv0. destruct (heap m !! 0) as [b|] eqn:Hb; [by destruct (w_block _ _ _ Hw 0 b Hb)|done].
  - destruct (block_of _ _ _ _ Hw Hv Hv0) as (b & rest & Hb & _ & _ & _ & _ & _ & Hbo & _). unfold sb_at. rewrite Hb. cbn [oderef obind].
    by rewrite (proj1 (block_cells b Hbo)).
Qed.

Lemma count_ok q m vs v : wf q m vs → v ∈ vs → mCount v = Z.of_nat (length (contents m v)) ∧ (length (contents m v) ≤ cells m v)%nat.
Proof.
  intros Hw Hv. destruct (decide (mStorage v = 0)) as [Hv0|Hv0].
  - rewrite (contents_null _ _ _ _ Hw Hv0), (w_null _ _ _ Hw v Hv Hv0). cbn. lia.
  - destruct (block_of _ _ _ _ Hw Hv Hv0) as (b & rest & Hb & Hd & Hl & Hn & _). unfold cells. rewrite Hb, Hd, length_app. lia.
Qed.

Lemma contents_items q m vs v : wf q m vs → v ∈ vs → items T (contents m v).
Proof.
  intros Hw Hv. destruct (decide (mStorage v = 0)) as [Hv0|Hv0]; [rewrite (contents_null _ _ _ _ Hw Hv0); apply items_nil|].
  by destruct (block_of _ _ _ _ Hw Hv Hv0) as (b & rest & _ & _ & _ & _ & Hi & _).
Qed.

(** Before a change the vector has its block for itself. *)
Lemma edit_ok m v vs : wf 0 m (v :: vs) → plenty m → mStorage v ≠ 0 →
  ∃ p m' b rest, editArrayImpl T isz v m = Returned (p, (mkV p (mCount v), m')) ∧ owned m' p b vs ∧
    data b = contents m v ++ rest ∧ room T rest ∧ length (data b) = cells m v ∧ keeps m m' vs ∧ plenty m'.
Proof.
  intros Hw Hp Hv. destruct (block_of _ _ _ v Hw) as (b & rest & Hb & Hd & Hl & Hn & Hi & Hr & Hbo & Hsz); [by left|done|].
  unfold editArrayImpl. rewrite (proj2 (Z.eqb_neq _ _) Hv). unfold attemptEdit, sb_at. rewrite Hb. cbn [oderef obind]. unfold onlyOwner.
  assert (cells m v = length (data b)) as Hce by (unfold cells; by rewrite Hb).
  destruct (Z.eqb_spec (mRefs b) 1) as [H1|H1].
  { rewrite (proj2 (Z.eqb_neq _ _) Hv). exists (mStorage v), m, b, rest. split_and!; try done; [by destruct v|by apply own_open]. }
  change (0 =? 0) with true. cbn iota. rewrite (capacity_ok 0 m (v :: vs)) by (done || by left). cbn [obind].
  destruct (block_cells b Hbo) as (_ & Hmul & Hlt). rewrite Hce, Z.mul_comm, <- Hmul, u32_small by (unfold sizeof_SharedBuffer in *; lia).
  destruct (alloc_ok m (v :: vs) (mSize b) Hw Hp) as (p & m1 & -> & Ho & Hk & Hp1 & _ & _); [destruct Hbo as (?&?&?); by split|]. cbn [obind].
  rewrite (proj2 (Z.eqb_neq _ _) (o_nz _ _ _ _ Ho)).
  pose proof (read_ok p m1 (v :: vs) v [] (contents m v) [] (o_wf _ _ _ _ Ho)) as Hr1. cbn [length app] in Hr1. rewrite <- Hl, Hr1;
    [|by left|rewrite app_nil_r; apply Hk; by left]. cbn [obind].
  destruct (own_copy m1 p _ (v :: vs) [] (replicate (length (contents m v)) None) (replicate (length rest) None) (contents m v) Ho)
    as (m2 & Hc2 & Ho2 & Hk2 & Ha2); [|apply length_replicate|done|apply room_replicate|].
  { cbn [data app]. rewrite <- replicate_add. f_equal. rewrite <- length_app, <- Hd. by destruct Hbo as (_ & _ & ->). }
  cbn [length] in Hc2. rewrite Hc2. cbn [obind]. destruct (own_release _ _ _ _ _ Ho2) as (m3 & -> & Ho3 & Hk3 & Ha3). cbn [obind].
  eexists p, m3, _, _. split; [done|]. split; [exact Ho3|]. cbn [set_data data app]. split; [done|]. split; [apply room_replicate|].
  split; [rewrite length_app, length_replicate, Hd, length_app; lia|]. split; [|unfold plenty; rewrite Ha3, Ha2; exact Hp1].
  eapply keeps_trans; [|exact Hk3]. intros w Hw'. rewrite Hk2, Hk by (by right). done.
Qed.

(** The block of a type without constructors gets another size. *)
Lemma editResize_ok m v vs n : wf 0 m (v :: vs) → plenty m → mStorage v ≠ 0 → size_ok n →
  ∃ p m' b, editResize isz (mStorage v) n m = Returned (p, m') ∧ owned m' p b vs ∧ length (data b) = cells_of isz n ∧
    (∃ old junk, heap m !! mStorage v = Some old ∧ data b = take (cells_of isz n) (data old) ++ junk) ∧ keeps m m' vs ∧ plenty m'.
Proof.
  intros Hw Hp Hv Hn. destruct (block_of _ _ _ v Hw) as (b & rest & Hb & _ & _ & _ & _ & _ & Hbo & Hsz); [by left|done|].
  unfold editResize, sb_at. rewrite Hb. cbn [oderef obind]. unfold onlyOwner. destruct (Z.eqb_spec (mRefs b) 1) as [H1|H1].
  - pose proof (own_open m v vs b Hw Hb Hv H1) as Ho. destruct (Z.eqb_spec (mSize b) n) as [<-|Hne].
    + exists (mStorage v), m, b. destruct Hbo as (_ & _ & Hl). split_and!; try done. exists b, []. split; [done|]. by rewrite app_nil_r, <- Hl, firstn_all.
    + destruct (answer_plenty m Hp) as (m1 & -> & Hh & Hp1). rewrite size_not_large by done.
      set (b' := mkSB (mRefs b) n (resize_cells (cells_of isz n) (data b))).
      assert (length (data b') = cells_of isz n) as Hl' by (cbn; unfold resize_cells; rewrite length_app, length_take, length_replicate; lia).
      set (q := fresh ({[0]} ∪ dom (heap m1))). assert (q ∉ {[0]} ∪ dom (heap m)) as Hfr by (subst q; rewrite <- Hh; apply is_fresh).
      destruct (own_move m (set_sb q b' (free_sb (mStorage v) m1)) (mStorage v) q b b' vs Ho) as [Ho' Hk'];
        [cbn [set_sb free_sb heap]; by rewrite Hh|set_solver|apply not_elem_of_dom; set_solver|done|by split; [apply Hn|split; [apply Hn|]]|].
      exists q, (set_sb q b' (free_sb (mStorage v) m1)), b'. split_and!; [done|done|done|by eexists b, _|done|done].
  - unfold copy_out, sb_at. rewrite Hb. cbn [oderef obind].
    destruct (alloc_ok m (v :: vs) n Hw Hp Hn) as (p & m1 & -> & Ho & Hk & Hp1 & _ & _). cbn [obind]. rewrite (proj2 (Z.eqb_neq _ _) (o_nz _ _ _ _ Ho)).
    rewrite (o_at _ _ _ _ Ho). cbn [oderef obind data]. set (k := cells_of isz (if n <? mSize b then n else mSize b)). set (b' := set_data _ _).
    assert (cells_of isz n ≤ length (data b) → k = cells_of isz n)%nat as Hk1.
    { intros H. subst k. destruct Hbo as (_ & [c Hc] & Hl). destruct Hn as (? & [d ->]). rewrite Hl in H. unfold cells_of in *. rewrite Hc in *.
      rewrite !Z.div_mul in H by lia. destruct (Z.ltb_spec (d * isz) (c * isz)); [done|]. rewrite !Z.div_mul by lia. nia. }
    assert (length (data b) < cells_of isz n → k = length (data b))%nat as Hk2.
    { intros H. subst k. destruct Hbo as (_ & [c Hc] & Hl). destruct Hn as (? & [d ->]). rewrite Hl in *. unfold cells_of in *. rewrite Hc in *.
      rewrite !Z.div_mul in H by lia. destruct (Z.ltb_spec (d * isz) (c * isz)); [nia|done]. }
    destruct (own_set m1 p _ b' (v :: vs) Ho) as [Ho' Hk']; [done| |].
    { split; [apply Hn|]. split; [apply Hn|]. subst b'. cbn [set_data data mSize]. unfold memcpy. rewrite length_app, length_take, length_drop, length_replicate. lia. }
    destruct (own_release_bytes _ _ _ _ _ Ho' Hv) as (r & m2 & -> & Ho2 & Hk3 & Ha3). cbn [obind].
    exists p, m2, b'. split; [done|]. split; [done|]. split; [by destruct Ho2 as [_ _ _ (_ & _ & ?) _]|]. split.
    { exists b, (drop k (replicate (cells_of isz n) None)). split; [done|]. subst b'. cbn [set_data data]. unfold memcpy. f_equal.
      destruct (decide (cells_of isz n ≤ length (data b))%nat); [by rewrite Hk1|]. rewrite Hk2 by lia. rewrite !take_ge by lia. done. }
    split; [|unfold plenty; rewrite Ha3; exact Hp1]. intros w Hw'. rewrite Hk3, Hk', Hk by (done || by right). done.
Qed.

(** ** Making and taking room *)

(** What a vector can grow to without a size wrapping. *)
Definition fits (n : Z) : Prop := 3 * n + 1 < 2 ^ 32 ∧ Z.max kMinVectorCapacity ((3 * n + 1) / 2) * isz < 2 ^ 32 - sizeof_SharedBuffer.

Lemma fits_small n : 0 ≤ n → fits n → n < 2 ^ 32 ∧ u32 n = n ∧ u32 (n * 3) = 3 * n ∧ u32 (u32 (n * 3) + 1) = 3 * n + 1.
Proof. intros Hn [Hf _]. rewrite !u32_small; [|lia..]. split_and!; lia. Qed.

Lemma fits_le n k : 0 ≤ n ≤ k → fits k → fits n.
Proof.
  intros Hn [H1 H2]. split; [lia|]. assert ((3 * n + 1) / 2 ≤ (3 * k + 1) / 2) by (apply Z.div_le_mono; lia). nia.
Qed.

Lemma capacity_size n : 0 ≤ n → n * isz < 2 ^ 32 - sizeof_SharedBuffer → size_ok (u32 (n * isz)) ∧ cells_of isz (u32 (n * isz)) = Z.to_nat n.
Proof.
  intros Hn Hlt. unfold sizeof_SharedBuffer in *. rewrite u32_small by nia. unfold cells_of. rewrite Z.div_mul by lia. split; [|done].
  split; [unfold sizeof_SharedBuffer; nia|by exists n].
Qed.

Lemma own_location m p b vs n i : owned m p b vs → (i < length (data b))%nat → itemLocation isz (mkV p n) (Z.of_nat i) m = Returned true.
Proof.
  intros [Hw Ha H1 Hbo Hp] Hi. unfold itemLocation, capacity. cbn [mStorage]. rewrite (proj2 (Z.eqb_neq _ _) Hp). unfold sb_at.
  rewrite Ha. cbn [oderef obind]. rewrite (proj1 (block_cells b Hbo)), oassert_true, (proj2 (Z.ltb_lt _ _)) by (try apply Z.ltb_lt; lia). done.
Qed.

Lemma split_room (xs rest : list cell) n : room T rest → (n ≤ length rest)%nat →
  ∃ gap r, rest = gap ++ r ∧ length gap = n ∧ room T gap ∧ room T r.
Proof.
  intros Hr Hn. exists (take n rest), (drop n rest). rewrite take_drop, length_take. split; [done|]. split; [lia|].
  by rewrite <- room_app, take_drop.
Qed.

(** The shape of what [_grow] leaves, before the items of the gap are made. *)
Definition grown (m : memory) (v : VectorImpl) (vs : list VectorImpl) (xs ys : list cell) (amount : nat) (res : outcome (bool * (VectorImpl * memory))) : Prop :=
  ∃ p m' b gap r, res = Returned (true, (mkV p (mCount v + Z.of_nat amount), m')) ∧ owned m' p b vs ∧
    data b = xs ++ gap ++ ys ++ r ∧ length gap = amount ∧ room T gap ∧ room T r ∧ keeps m m' vs ∧ plenty m'.

Lemma grow_in_place m v vs xs ys amount : wf 0 m (v :: vs) → plenty m → contents m v = xs ++ ys → (0 < amount)%nat →
  Z.of_nat (length xs + amount) < 2 ^ 32 → u32 (mCount v + Z.of_nat amount) = mCount v + Z.of_nat amount →
  (length xs + length ys + amount ≤ cells m v)%nat → grown m v vs xs ys amount (_grow T isz (Z.of_nat (length xs)) (Z.of_nat amount) v m).
Proof.
  intros Hw Hp Hc Ha Hs Hu Hce. destruct (count_ok 0 m (v :: vs) v Hw) as [Hn _]; [by left|]. rewrite Hc, length_app in Hn.
  unfold _grow. rewrite oassert_true by (apply Z.leb_le; lia). rewrite (capacity_ok 0 m (v :: vs)) by (done || by left). cbn [obind]. rewrite Hu, (proj2 (Z.ltb_ge _ _)) by lia.
  assert (mStorage v ≠ 0) as Hv.
  { intros Hv. unfold cells in Hce. rewrite Hv, (wf_none _ _ Hw) in Hce. lia. }
  destruct (edit_ok m v vs Hw Hp Hv) as (p & m1 & b & rest & -> & Ho & Hd & Hr & Hl & Hk & Hp1). cbn [obind mCount].
  rewrite Hc, <- app_assoc in Hd. rewrite Hd, !length_app in Hl.
  destruct (split_room xs rest amount Hr) as (gap & r & -> & Hg & Hrg & Hrr); [lia|].
  pose proof (contents_items 0 m (v :: vs) v Hw ltac:(by left)) as Hi. rewrite Hc, items_app in Hi.
  destruct (Z.eqb_spec (Z.of_nat (length xs)) (mCount v)) as [He|He].
  - assert (ys = []) as -> by (apply nil_length_inv; lia). cbn [fst mStorage obind snd].
    rewrite (own_location m1 p b vs) by (done || rewrite Hd, !length_app; cbn; lia). cbn [obind].
    exists p, m1, b, gap, r. by split_and!.
  - destruct (move_forward_at T xs ys gap r) as (gap' & Hm & Hl' & Hr'); [tauto|done|left; intros ->; cbn in Hg; lia|].
    rewrite u32_small, !Nat2Z.id by lia. replace (Z.to_nat (Z.of_nat (length xs) + Z.of_nat amount)) with (length xs + length gap)%nat by lia.
    replace (Z.to_nat (mCount v - Z.of_nat (length xs))) with (length ys) by lia.
    destruct (own_upd m1 p b vs (λ l, move_forward_type T l (length xs + length gap) (length xs) (length ys)) (xs ++ gap' ++ ys ++ r) Ho)
      as (m2 & -> & Ho2 & Hk2 & Ha2); [by rewrite Hd|rewrite Hd, !length_app; lia|]. cbn [fst mStorage obind snd].
    rewrite (own_location m2 p _ vs) by (done || (cbn [set_data data]; rewrite !length_app; lia)). cbn [obind].
    exists p, m2, (set_data b (xs ++ gap' ++ ys ++ r)), gap', r. split_and!; try done; [lia|by eapply keeps_trans|unfold plenty; by rewrite Ha2].
Qed.

Lemma grow_ok m v vs xs ys amount : wf 0 m (v :: vs) → plenty m → contents m v = xs ++ ys → (0 < amount)%nat →
  fits (mCount v + Z.of_nat amount) → grown m v vs xs ys amount (_grow T isz (Z.of_nat (length xs)) (Z.of_nat amount) v m).
Proof.
  intros Hw Hp Hc Ha Hf. destruct (count_ok 0 m (v :: vs) v Hw) as [Hn Hle]; [by left|]. rewrite Hc, length_app in Hn, Hle.
  destruct (fits_small (mCount v + Z.of_nat amount)) as (Hlt & Hu & Hu3 & Hu4); [lia|done|].
  destruct (decide (length xs + length ys + amount ≤ cells m v)%nat) as [Hce|Hce]; [apply grow_in_place; (done || lia)|].
  unfold _grow. rewrite oassert_true by (apply Z.leb_le; lia). rewrite (capacity_ok 0 m (v :: vs)) by (done || by left). cbn [obind]. rewrite Hu, Hu4, (proj2 (Z.ltb_lt _ _)) by lia.
  set (n := mCount v + Z.of_nat amount) in *. set (cap := Z.max kMinVectorCapacity ((3 * n + 1) / 2)).
  assert (n ≤ cap) as Hcap by (subst cap; unfold kMinVectorCapacity; Z.div_mod_to_equations; lia).
  destruct (capacity_size cap) as [Hsz Hcs]; [lia|apply Hf|]. set (N := cells_of isz (u32 (cap * isz))) in *.
  pose proof (contents_items 0 m (v :: vs) v Hw ltac:(by left)) as Hi. rewrite Hc, items_app in Hi.
  destruct (negb (mStorage v =? 0) && (mCount v =? Z.of_nat (length xs)) && bytes_only T) eqn:Hcond.
  - apply andb_true_iff in Hcond as [[Hv%negb_true_iff%Z.eqb_neq He%Z.eqb_eq]%andb_true_iff Hb].
    assert (ys = []) as -> by (apply nil_length_inv; lia). rewrite app_nil_r in Hc.
    destruct (editResize_ok m v vs _ Hw Hp Hv Hsz) as (p & m1 & b & -> & Ho & Hl & (old & junk & Hold & Hd) & Hk & Hp1). cbn [obind].
    rewrite (proj2 (Z.eqb_neq _ _) (o_nz _ _ _ _ Ho)). cbn [mStorage fst snd obind]. fold N in Hl, Hd.
    rewrite (own_location m1 p b vs) by (done || lia). cbn [obind].
    destruct (block_of 0 m (v :: vs) v Hw ltac:(by left) Hv) as (old' & rest & Hold' & Hd' & _). assert (old' = old) as -> by congruence.
    assert (has_trivial_dtor T = true) as Hdt by (unfold bytes_only in Hb; by apply andb_true_iff in Hb as [_ ?]).
    rewrite Hd', Hc, take_app_ge in Hd by lia. rewrite <- app_assoc in Hd. set (tail := take (N - length xs) rest ++ junk) in *.
    assert (room T tail) as Hrt by (unfold room; by rewrite Hdt). rewrite Hd, length_app in Hl.
    destruct (split_room xs tail amount Hrt) as (gap & r & Ht & Hg & Hrg & Hrr); [lia|].
    exists p, m1, b, gap, r. rewrite Hd, Ht. by split_and!.
  - destruct (alloc_ok m (v :: vs) _ Hw Hp Hsz) as (p & m1 & -> & Ho & Hk & Hp1 & _ & _). cbn [obind]. rewrite (proj2 (Z.eqb_neq _ _) (o_nz _ _ _ _ Ho)).
    fold N in Ho. assert (N = length xs + (amount + (length ys + (N - (length xs + amount + length ys)))))%nat as HN by lia.
    destruct (copy_around_ok m1 p _ v vs xs [] ys amount (N - (length xs + amount + length ys)) Ho) as (m2 & Hco & Ho2 & Hk2 & Ha2);
      [cbn [data]; by rewrite <- HN|rewrite Hk by (by left); done|cbn; lia|lia|tauto|tauto|].
    cbn [length] in Hco. change (Z.of_nat 0) with 0 in Hco. replace (mCount v - Z.of_nat (length xs)) with (Z.of_nat (length ys)) by lia.
    rewrite Hco. cbn [obind mStorage fst snd]. rewrite (own_location m2 p _ vs) by (done || (cbn [set_data data]; rewrite !length_app, !length_replicate; lia)). cbn [obind].
    eexists p, m2, _, _, _. split; [done|]. split; [exact Ho2|]. split; [done|]. split; [apply length_replicate|].
    split; [apply room_replicate|]. split; [apply room_replicate|]. split; [|unfold plenty; by rewrite Ha2].
    intros w Hw'. rewrite Hk2, Hk by (done || by right). done.
Qed.

(** A vector made of its own block. *)
Lemma close_with m p b vs cs rest : owned m p b vs → data b = cs ++ rest → items T cs → room T rest →
  wf 0 m (mkV p (Z.of_nat (length cs)) :: vs) ∧ contents m (mkV p (Z.of_nat (length cs))) = cs.
Proof.
  intros Ho Hd Hi Hr. split.
  - eapply own_close; [exact Ho|]. split; [lia|]. exists cs, rest. by rewrite Nat2Z.id.
  - eapply contents_at; cbn [mStorage mCount]; [by destruct Ho|exact Hd|by rewrite Nat2Z.id].
Qed.

(** What an operation leaves: the vector with new items, the others as they were. *)
Definition becomes {R} (m : memory) (vs : list VectorImpl) (res : outcome (R * (VectorImpl * memory))) (r : R) (cs : list cell) : Prop :=
  ∃ v' m', res = Returned (r, (v', m')) ∧ wf 0 m' (v' :: vs) ∧ contents m' v' = cs ∧ keeps m m' vs ∧ plenty m'.

Definition becomes_ (m : memory) (vs : list VectorImpl) (res : outcome (VectorImpl * memory)) (cs : list cell) : Prop :=
  ∃ v' m', res = Returned (v', m') ∧ wf 0 m' (v' :: vs) ∧ contents m' v' = cs ∧ keeps m m' vs ∧ plenty m'.

Lemma becomes_own {R} m m' p b vs cs rest (r : R) n : owned m' p b vs → data b = cs ++ rest → items T cs → room T rest →
  n = Z.of_nat (length cs) → keeps m m' vs → plenty m' → becomes m vs (Returned (r, (mkV p n, m'))) r cs.
Proof.
  intros Ho Hd Hi Hr -> Hk Hp. destruct (close_with _ _ _ _ _ _ Ho Hd Hi Hr) as [Hw Hc].
  eexists _, _. split_and!; [reflexivity|exact Hw|exact Hc|exact Hk|exact Hp].
Qed.

Lemma becomes_own_ m m' p b vs cs rest n : owned m' p b vs → data b = cs ++ rest → items T cs → room T rest →
  n = Z.of_nat (length cs) → keeps m m' vs → plenty m' → becomes_ m vs (Returned (mkV p n, m')) cs.
Proof.
  intros Ho Hd Hi Hr -> Hk Hp. destruct (close_with _ _ _ _ _ _ Ho Hd Hi Hr) as [Hw Hc].
  eexists _, _. split_and!; [reflexivity|exact Hw|exact Hc|exact Hk|exact Hp].
Qed.

Lemma shrink_in_place m v vs xs mid ys : wf 0 m (v :: vs) → plenty m → mStorage v ≠ 0 → contents m v = xs ++ mid ++ ys → mid ≠ [] ∨ ys = [] →
  Z.of_nat (length xs + length mid + length ys) < 2 ^ 32 →
  becomes_ m vs (let! (array, vm) := editArrayImpl T isz v m in
      let '(v, m) := vm in
      let! m := upd array (λ l, destroy_type T l (length xs) (length mid)) m in
      let! m := if Z.of_nat (length xs) =? Z.of_nat (length xs + length ys) then Returned m
        else upd array (λ l, move_backward_type T l (length xs) (length xs + length mid) (length ys)) m in
      Returned (mkV (mStorage v) (Z.of_nat (length xs + length ys)), m)) (xs ++ ys).
Proof.
  intros Hw Hp Hv Hc Hne Hlt. destruct (edit_ok m v vs Hw Hp Hv) as (p & m1 & b & rest & -> & Ho & Hd & Hr & Hl & Hk & Hp1). cbn [obind].
  rewrite Hc, <- !app_assoc in Hd. pose proof (contents_items 0 m (v :: vs) v Hw ltac:(by left)) as Hi. rewrite Hc, !items_app in Hi.
  destruct (destroy_type_at T xs mid (ys ++ rest)) as (mid' & Hds & Hml & Hmr); [tauto|].
  destruct (own_upd m1 p b vs (λ l, destroy_type T l (length xs) (length mid)) (xs ++ mid' ++ ys ++ rest) Ho) as (m2 & -> & Ho2 & Hk2 & Ha2);
    [by rewrite Hd|rewrite Hd, !length_app; lia|]. cbn [obind mStorage].
  destruct (Z.eqb_spec (Z.of_nat (length xs)) (Z.of_nat (length xs + length ys))) as [He|He].
  - assert (ys = []) as -> by (apply nil_length_inv; lia). cbn [obind]. rewrite app_nil_r.
    eapply becomes_own_; [exact Ho2|reflexivity|tauto|apply room_app; by split|cbn; lia|by eapply keeps_trans|unfold plenty; by rewrite Ha2].
  - destruct (move_backward_at T xs mid' ys rest) as (gap' & Hm & Hl' & Hr'); [tauto|done| |].
    { left. intros ->. destruct Hne as [Hne| ->]; [by destruct mid|cbn in He; lia]. }
    rewrite Hml in Hm. destruct (own_upd m2 p _ vs (λ l, move_backward_type T l (length xs) (length xs + length mid) (length ys)) (xs ++ ys ++ gap' ++ rest) Ho2)
      as (m3 & -> & Ho3 & Hk3 & Ha3); [done|cbn [set_data data]; rewrite !length_app; lia|]. cbn [obind].
    eapply becomes_own_; [exact Ho3|cbn [set_data data]; by rewrite app_assoc|apply items_app; tauto|apply room_app; by split|by rewrite length_app| |
      unfold plenty; by rewrite Ha3, Ha2]. eapply keeps_trans; [|exact Hk3]. by eapply keeps_trans.
Qed.

Lemma shrink_ok m v vs xs mid ys : wf 0 m (v :: vs) → plenty m → contents m v = xs ++ mid ++ ys → mid ≠ [] ∨ ys = [] → fits (mCount v) →
  becomes_ m vs (_shrink T isz (Z.of_nat (length xs)) (Z.of_nat (length mid)) v m) (xs ++ ys).
Proof.
  intros Hw Hp Hc Hne Hf. destruct (count_ok 0 m (v :: vs) v Hw) as [Hn Hle]; [by left|]. rewrite Hc, !length_app in Hn, Hle.
  unfold _shrink. destruct (Z.eqb_spec (mStorage v) 0) as [Hv|Hv].
  { pose proof (contents_null _ _ _ v Hw Hv) as H0. rewrite H0 in Hc. destruct xs, mid, ys; try done. by eexists _, _. }
  destruct (fits_small (mCount v)) as (Hlt & _ & Hu3 & _); [lia|done|]. destruct Hf as [Hf1 Hf2].
  replace (mCount v - Z.of_nat (length mid)) with (Z.of_nat (length xs + length ys)) by lia. rewrite (u32_small (Z.of_nat _)) by lia.
  rewrite (u32_small (Z.of_nat (length xs) + _)) by lia. rewrite oassert_true by (apply Z.leb_le; lia).
  rewrite (u32_small (_ * 3)) by lia. rewrite (u32_small (_ * 2)), (u32_small (_ - _)) by lia.
  rewrite (capacity_ok 0 m (v :: vs)) by (done || by left). cbn [obind].
  destruct (Z.ltb_spec (Z.of_nat (length xs + length ys) * 3) (Z.of_nat (cells m v))) as [Hsm|Hbig].
  2:{ replace (Z.to_nat (Z.of_nat (length xs) + Z.of_nat (length mid))) with (length xs + length mid)%nat by lia. rewrite !Nat2Z.id.
      replace (Z.to_nat (Z.of_nat (length xs + length ys) - Z.of_nat (length xs))) with (length ys) by lia.
      apply shrink_in_place; [done|done|done|done|done|lia]. }
  set (n := (length xs + length ys)%nat) in *. set (cap := Z.max kMinVectorCapacity (Z.of_nat n * 2)).
  destruct (block_of 0 m (v :: vs) v Hw ltac:(by left) Hv) as (b & rest & Hb & Hd & _ & _ & Hi & Hr & Hbo & Hsz). unfold cells in Hsm, Hle. rewrite Hb in Hsm, Hle.
  destruct (block_cells b Hbo) as (_ & _ & Hslt). destruct (capacity_size cap) as [Hcsz Hcs]; [lia|subst cap; unfold kMinVectorCapacity in *; nia|].
  set (N := cells_of isz (u32 (cap * isz))) in *. assert (n ≤ N)%nat as HnN by (subst cap; lia). rewrite Hc, !items_app in Hi.
  destruct ((Z.of_nat (length xs) =? Z.of_nat n) && bytes_only T) eqn:Hcond.
  - apply andb_true_iff in Hcond as [He%Z.eqb_eq Hbo']. assert (ys = []) as -> by (apply nil_length_inv; lia).
    destruct (editResize_ok m v vs _ Hw Hp Hv Hcsz) as (p & m1 & b1 & -> & Ho & Hl1 & (old & junk & Hold & Hd1) & Hk & Hp1). cbn [obind].
    rewrite (proj2 (Z.eqb_neq _ _) (o_nz _ _ _ _ Ho)). assert (old = b) as -> by congruence. fold N in Hd1. rewrite app_nil_r.
    rewrite Hd, Hc, <- !app_assoc, take_app_ge, <- app_assoc in Hd1 by lia.
    eapply becomes_own_; [exact Ho|exact Hd1|tauto| |lia|done|done]. intros Hdt. unfold bytes_only in Hbo'. rewrite Hdt, andb_false_r in Hbo'. done.
  - destruct (alloc_ok m (v :: vs) _ Hw Hp Hcsz) as (p & m1 & -> & Ho & Hk & Hp1 & _ & _). cbn [obind]. rewrite (proj2 (Z.eqb_neq _ _) (o_nz _ _ _ _ Ho)).
    fold N in Ho. assert (N = length xs + (0 + (length ys + (N - n))))%nat as HN by lia.
    destruct (copy_around_ok m1 p _ v vs xs mid ys 0 (N - n) Ho) as (m2 & Hco & Ho2 & Hk2 & Ha2);
      [cbn [data]; by rewrite <- HN|rewrite Hk by (by left); done|lia|lia|tauto|tauto|].
    change (Z.of_nat 0) with 0 in Hco. replace (Z.of_nat n - Z.of_nat (length xs)) with (Z.of_nat (length ys)) by lia.
    rewrite Hco. cbn [obind mStorage]. eapply becomes_own_; [exact Ho2|cbn [set_data data replicate app]; by rewrite app_assoc|apply items_app; tauto|
      apply room_replicate|by rewrite length_app| |unfold plenty; by rewrite Ha2]. intros w Hw'. rewrite Hk2, Hk by (done || by right). done.
Qed.

(** ** The operations *)

(** A source that gives these items while the vector's block is aside. *)
Definition provides (s : source A) (n : nat) (cs : list cell) (m : memory) (vs : list VectorImpl) : Prop :=
  ∀ p m' b, owned m' p b vs → keeps m m' vs → read_source s n m' = Returned cs.

Lemma provides_outside xs m vs : provides (Outside xs) (length xs) (Some <$> xs) m vs.
Proof. intros p m' b _ _. cbn [read_source]. by rewrite (proj2 (Nat.leb_le _ _)), firstn_all by done. Qed.

Lemma provides_vector w m vs : wf 0 m vs → w ∈ vs → provides (arrayImpl w) (length (contents m w)) (contents m w) m vs.
Proof.
  intros Hw Hin p m' b Ho Hk. unfold arrayImpl. destruct (Z.eqb_spec (mStorage w) 0) as [H0|H0].
  - by rewrite (contents_null _ _ _ _ Hw H0).
  - cbn [read_source]. apply (read_ok p m' vs w [] _ []); [by destruct Ho|done|]. by rewrite app_nil_r, Hk.
Qed.

Lemma grown_room m v vs xs ys n res : grown m v vs xs ys n res → mCount v = Z.of_nat (length xs + length ys) → items T xs → items T ys →
  ∃ p m' b gap r c, res = Returned (true, (mkV p c, m')) ∧ owned m' p b vs ∧ data b = xs ++ gap ++ ys ++ r ∧ length gap = n ∧ room T gap ∧
    keeps m m' vs ∧ plenty m' ∧
    ∀ (R : Type) (x : R) cs m2, length cs = n → items T cs → owned m2 p (set_data b (xs ++ cs ++ ys ++ r)) vs → keeps m' m2 vs → answers m2 = answers m' →
      becomes m vs (Returned (x, (mkV p c, m2))) x (xs ++ cs ++ ys).
Proof.
  intros (p & m' & b & gap & r & -> & Ho & Hd & Hg & Hrg & Hrr & Hk & Hp) Hn Hix Hiy. exists p, m', b, gap, r, (mCount v + Z.of_nat n).
  split_and!; try done. intros R x cs m2 Hl Hi Ho2 Hk2 Ha.
  eapply (becomes_own _ _ _ _ _ (xs ++ cs ++ ys) r); [exact Ho2|cbn [set_data data]; by rewrite <- !app_assoc|by rewrite !items_app|done| |
    by eapply keeps_trans|unfold plenty; by rewrite Ha]. rewrite !length_app. lia.
Qed.

Lemma split_at (cs : list cell) (k : nat) : (k ≤ length cs)%nat → length (take k cs) = k.
Proof. intros. rewrite length_take. lia. Qed.

Section One.
Context (m : memory) (v : VectorImpl) (vs : list VectorImpl) (Hw : wf 0 m (v :: vs)) (Hp : plenty m).

Lemma count_head : mCount v = Z.of_nat (length (contents m v)).
Proof. apply (count_ok 0 m (v :: vs)); [done|by left]. Qed.

Lemma items_head : items T (contents m v).
Proof. apply (contents_items 0 m (v :: vs)); [done|by left]. Qed.

Lemma wf_tail : ∀ w, w ∈ vs → mCount w = Z.of_nat (length (contents m w)).
Proof. intros w Hin. apply (count_ok 0 m (v :: vs)); [done|by right]. Qed.

Lemma becomes_same {R} (r : R) : becomes m vs (Returned (r, (v, m))) r (contents m v).
Proof. by eexists _, _. Qed.

Lemma insertArrayAt_ok s n cs (k : nat) : (∀ p m' b, owned m' p b vs → keeps m m' vs → read_source s n m' = Returned cs) →
  items T cs → length cs = n → (0 < n)%nat → (k ≤ length (contents m v))%nat → fits (mCount v + Z.of_nat n) →
  becomes m vs (insertArrayAt T isz s (Z.of_nat k) (Z.of_nat n) v m) (s32 (Z.of_nat k)) (take k (contents m v) ++ cs ++ drop k (contents m v)).
Proof.
  intros Hs Hi Hl Hn Hk Hf. pose proof count_head as Hc. unfold insertArrayAt, size. rewrite (proj2 (Z.ltb_ge _ _)) by lia.
  set (xs := take k (contents m v)). set (ys := drop k (contents m v)). assert (contents m v = xs ++ ys) as Hxy by (unfold xs, ys; by rewrite take_drop).
  pose proof items_head as Hih. rewrite Hxy, items_app in Hih. assert (length xs = k) as Hxl by (by apply split_at).
  pose proof (grow_ok m v vs xs ys n Hw Hp Hxy Hn Hf) as Hg. rewrite Hxl in Hg.
  destruct (grown_room m v vs xs ys n _ Hg) as (p & m1 & b & gap & r & c & -> & Ho & Hd & Hgl & Hgr & Hk1 & Hp1 & Hend);
    [rewrite Hc, Hxy, length_app; lia|tauto|tauto|]. cbn [obind mStorage]. rewrite !Nat2Z.id, (Hs p m1 b Ho Hk1). cbn [obind].
  destruct (own_copy m1 p b vs xs gap (ys ++ r) cs Ho) as (m2 & Hco & Ho2 & Hk2 & Ha2); [done|congruence|done|done|]. rewrite Hxl in Hco. rewrite Hco.
  cbn [obind]. by apply Hend.
Qed.

(** An item that can be read while the block is aside. *)
Definition item_source (s : source A) (x : A) : Prop :=
  s ≠ Null ∧ ∀ p m' b, owned m' p b vs → keeps m m' vs → read_source s 1 m' = Returned [Some x] ∧ ∀ i, is_place s p i = false.

Lemma outside_source x : item_source (Outside [x]) x.
Proof. by split. Qed.

Lemma insertAt_item s x n (k : nat) : item_source s x → (0 < n)%nat → (k ≤ length (contents m v))%nat → fits (mCount v + Z.of_nat n) →
  becomes m vs (insertAt T dflt isz s (Z.of_nat k) (Z.of_nat n) v m) (s32 (Z.of_nat k))
    (take k (contents m v) ++ replicate n (Some x) ++ drop k (contents m v)).
Proof.
  intros [Hnn Hs] Hn Hk Hf. pose proof count_head as Hc. unfold insertAt, size. rewrite (proj2 (Z.ltb_ge _ _)) by lia.
  set (xs := take k (contents m v)). set (ys := drop k (contents m v)). assert (contents m v = xs ++ ys) as Hxy by (unfold xs, ys; by rewrite take_drop).
  pose proof items_head as Hih. rewrite Hxy, items_app in Hih. assert (length xs = k) as Hxl by (by apply split_at).
  pose proof (grow_ok m v vs xs ys n Hw Hp Hxy Hn Hf) as Hg. rewrite Hxl in Hg.
  destruct (grown_room m v vs xs ys n _ Hg) as (p & m1 & b & gap & r & c & -> & Ho & Hd & Hgl & Hgr & Hk1 & Hp1 & Hend);
    [rewrite Hc, Hxy, length_app; lia|tauto|tauto|]. cbn [obind mStorage]. rewrite !Nat2Z.id.
  assert (items T (replicate n (Some x))) as Hi by (intros _; by apply Forall_replicate).
  destruct (own_upd m1 p b vs (λ l, splat_type T l k (Some x) n) (xs ++ replicate n (Some x) ++ ys ++ r) Ho) as (m2 & Hu & Ho2 & Hk2 & Ha2);
    [unfold splat_type; rewrite Hd, <- Hxl; apply copy_type_at; [by rewrite length_replicate|done|done]|rewrite Hd, !length_app, length_replicate; lia|].
  destruct n as [|n]; [lia|]. destruct (Hs p m1 b Ho Hk1) as [Hrd _]. destruct s; [done| |]; rewrite Hrd; cbn [obind head];
    unfold default, id in *; rewrite Hu; cbn [obind]; (apply Hend; [by rewrite length_replicate|done|done|done|done]).
Qed.

Lemma insertAt_default n (k : nat) : (0 < n)%nat → (k ≤ length (contents m v))%nat → fits (mCount v + Z.of_nat n) →
  ∃ cs, length cs = n ∧ (has_trivial_ctor T = false → cs = replicate n (Some dflt)) ∧
  becomes m vs (insertAt T dflt isz Null (Z.of_nat k) (Z.of_nat n) v m) (s32 (Z.of_nat k)) (take k (contents m v) ++ cs ++ drop k (contents m v)).
Proof.
  intros Hn Hk Hf. pose proof count_head as Hc. unfold insertAt, size. rewrite (proj2 (Z.ltb_ge _ _)) by lia.
  set (xs := take k (contents m v)). set (ys := drop k (contents m v)). assert (contents m v = xs ++ ys) as Hxy by (unfold xs, ys; by rewrite take_drop).
  pose proof items_head as Hih. rewrite Hxy, items_app in Hih. assert (length xs = k) as Hxl by (by apply split_at).
  pose proof (grow_ok m v vs xs ys n Hw Hp Hxy Hn Hf) as Hg. rewrite Hxl in Hg.
  destruct (grown_room m v vs xs ys n _ Hg) as (p & m1 & b & gap & r & c & -> & Ho & Hd & Hgl & Hgr & Hk1 & Hp1 & Hend);
    [rewrite Hc, Hxy, length_app; lia|tauto|tauto|]. cbn [obind mStorage]. rewrite !Nat2Z.id.
  destruct (construct_type_at T dflt xs gap (ys ++ r) Hok Hgr) as (cs & Hcs & Hcl & Hci & Hcd). exists cs. rewrite Hgl in *.
  split; [done|]. split; [done|].
  destruct (own_upd m1 p b vs (λ l, construct_type T dflt l k n) (xs ++ cs ++ ys ++ r) Ho) as (m2 & -> & Ho2 & Hk2 & Ha2);
    [by rewrite Hd, <- Hxl|rewrite Hd, !length_app; lia|]. cbn [obind]. by apply Hend.
Qed.
Lemma removeItemsAt_ok (k n : nat) : (k + n ≤ length (contents m v))%nat → (0 < n)%nat ∨ k = length (contents m v) → fits (mCount v) →
  becomes m vs (removeItemsAt T isz (Z.of_nat k) (Z.of_nat n) v m) (s32 (Z.of_nat k)) (take k (contents m v) ++ drop (k + n) (contents m v)).
Proof.
  intros Hk Hn Hf. pose proof count_head as Hc. unfold removeItemsAt, size. destruct (fits_small (mCount v)) as (Hlt & _); [lia|done|].
  rewrite u32_small, oassert_true, (proj2 (Z.ltb_ge _ _)) by (try apply Z.leb_le; lia).
  set (xs := take k (contents m v)). set (mid := take n (drop k (contents m v))). set (ys := drop (k + n) (contents m v)).
  assert (contents m v = xs ++ mid ++ ys) as Hxy by (unfold xs, mid, ys; by rewrite <- drop_drop, !take_drop).
  assert (length xs = k) as Hxl by (apply split_at; lia). assert (length mid = n) as Hml by (unfold mid; rewrite length_take, length_drop; lia).
  destruct (shrink_ok m v vs xs mid ys Hw Hp Hxy) as (v' & m' & Hs & Hw' & Hc' & Hk' & Hp'); [|done|].
  { destruct Hn as [Hn|Hn]; [left; intros H0; rewrite H0 in Hml; cbn in Hml; lia|right; unfold ys; by rewrite drop_ge by lia]. }
  rewrite Hxl, Hml in Hs. rewrite Hs. cbn [obind]. by exists v', m'.
Qed.

Lemma clear_ok : fits (mCount v) → becomes_ m vs (clear T isz v m) [].
Proof.
  intros Hf. pose proof count_head as Hc. unfold clear. rewrite Hc.
  apply (shrink_ok m v vs [] (contents m v) []); [done|done|by rewrite app_nil_r|by right|done].
Qed.

Lemma pop_ok : fits (mCount v) → becomes_ m vs (pop T isz v m) (take (length (contents m v) - 1) (contents m v)).
Proof.
  intros Hf. pose proof count_head as Hc. unfold pop, size. destruct (Z.eqb_spec (mCount v) 0) as [H0|H0].
  - assert (contents m v = []) as H by (apply nil_length_inv; lia). rewrite H. exists v, m. by split_and!.
  - destruct (removeItemsAt_ok (length (contents m v) - 1) 1) as (v' & m' & Hr & Hw' & Hc' & Hk' & Hp'); [lia|left; lia|done|].
    replace (mCount v - 1) with (Z.of_nat (length (contents m v) - 1)) by lia. change 1 with (Z.of_nat 1) at 1. rewrite Hr. cbn [obind].
    exists v', m'. split_and!; try done. rewrite Hc', drop_ge, app_nil_r by lia. done.
Qed.

Lemma cells_split (cs : list cell) (k : nat) : (k < length cs)%nat → ∃ c, cs = take k cs ++ c :: drop (S k) cs ∧ length (take k cs) = k ∧
  ∀ x, <[k := x]> cs = take k cs ++ x :: drop (S k) cs.
Proof.
  intros Hk. destruct (lookup_lt_is_Some_2 cs k Hk) as [c Hc]. exists c. split; [by rewrite take_drop_middle|].
  split; [rewrite length_take; lia|]. intros x. by rewrite insert_take_drop.
Qed.

Lemma replaceAt_item s x (k : nat) : item_source s x → (k < length (contents m v))%nat →
  becomes m vs (replaceAt T dflt isz s (Z.of_nat k) v m) (s32 (Z.of_nat k)) (<[k := Some x]> (contents m v)).
Proof.
  intros [Hnn Hs] Hk. pose proof count_head as Hc. destruct (count_ok 0 m (v :: vs) v Hw) as [_ Hle]; [by left|].
  unfold replaceAt, size. rewrite oassert_true, (proj2 (Z.leb_gt _ _)) by (try apply Z.ltb_lt; lia). unfold editItemLocation. rewrite (capacity_ok 0 m (v :: vs)) by (done || by left).
  cbn [obind]. rewrite oassert_true, (proj2 (Z.ltb_lt _ _)) by (try apply Z.ltb_lt; lia).
  assert (mStorage v ≠ 0) as Hv by (intros H0; rewrite (contents_null _ _ _ v Hw H0) in Hk; cbn in Hk; lia).
  destruct (edit_ok m v vs Hw Hp Hv) as (p & m1 & b & rest & -> & Ho & Hd & Hr & Hl & Hk1 & Hp1). cbn [obind].
  rewrite (proj2 (Z.eqb_neq _ _) (o_nz _ _ _ _ Ho)). cbn [negb andb mStorage]. rewrite (proj2 (Hs p m1 b Ho Hk1)), Nat2Z.id. cbn iota.
  destruct (cells_split (contents m v) k Hk) as (c & Hcs & Hkl & Hins). rewrite Hins. set (xs := take k (contents m v)) in *. set (ys := drop (S k) (contents m v)) in *.
  pose proof items_head as Hih. rewrite Hcs, items_app, items_cons in Hih. rewrite Hcs, <- app_assoc in Hd. cbn [app] in Hd.
  destruct (destroy_type_at T xs [c] (ys ++ rest)) as (cs' & Hds & Hdl & Hdr); [tauto|]. destruct cs' as [|c' [|]]; try done.
  destruct (own_upd m1 p b vs (λ l, destroy_type T l k 1) (xs ++ c' :: ys ++ rest) Ho) as (m2 & -> & Ho2 & Hk2 & Ha2);
    [rewrite Hd, <- Hkl; exact Hds|rewrite Hd, !length_app; done|]. cbn [obind].
  assert (keeps m m2 vs) as Hk12 by by eapply keeps_trans. destruct (Hs p m2 _ Ho2 Hk12) as [Hrd _].
  destruct (own_copy m2 p _ vs xs [c'] (ys ++ rest) [Some x] Ho2) as (m3 & Hco & Ho3 & Hk3 & Ha3); [done|done|intros _; by apply Forall_singleton|done|].
  rewrite Hkl in Hco. destruct s; [done| |]; rewrite Hrd; cbn [obind]; rewrite Hco; cbn [obind];
    (eapply (becomes_own _ _ _ _ _ (xs ++ Some x :: ys) rest); [exact Ho3|cbn [set_data data app]; by rewrite <- app_assoc|
      rewrite items_app, items_cons; split_and!; [tauto|intros _; by apply Forall_singleton|tauto]|done|
      rewrite Hc, Hcs at 1; by rewrite !length_app|by eapply keeps_trans|unfold plenty; by rewrite Ha3, Ha2]).
Qed.

Lemma setCapacity_ok (n : nat) : Z.of_nat n < 2 ^ 31 → fits (mCount v) → Z.of_nat n * isz < 2 ^ 32 - sizeof_SharedBuffer →
  ∃ r, becomes m vs (setCapacity T isz (Z.of_nat n) v m) r (contents m v).
Proof.
  intros Hn Hf Hs. pose proof count_head as Hc. destruct (fits_small (mCount v)) as (Hlt & _); [lia|done|]. destruct Hf as [Hf _].
  unfold setCapacity, size. rewrite (capacity_ok 0 m (v :: vs)) by (done || by left). cbn [obind]. rewrite s32_small by lia.
  destruct (Z.leb_spec (Z.of_nat n - mCount v) 0) as [Hle|Hgt]; [eexists; apply becomes_same|].
  destruct (capacity_size (Z.of_nat n)) as [Hcsz Hcs]; [lia|done|].
  destruct (alloc_ok m (v :: vs) _ Hw Hp Hcsz) as (p & m1 & -> & Ho & Hk & Hp1 & _ & _). cbn [obind]. rewrite (proj2 (Z.eqb_neq _ _) (o_nz _ _ _ _ Ho)). rewrite Hcs in Ho.
  pose proof (read_ok p m1 (v :: vs) v [] (contents m v) [] (o_wf _ _ _ _ Ho)) as Hr1. cbn [length app] in Hr1.
  replace (Z.to_nat (mCount v)) with (length (contents m v)) by lia. rewrite Hr1; [|by left|rewrite app_nil_r; apply Hk; by left]. cbn [obind].
  destruct (own_copy m1 p _ (v :: vs) [] (replicate (length (contents m v)) None) (replicate (n - length (contents m v)) None) (contents m v) Ho)
    as (m2 & Hc2 & Ho2 & Hk2 & Ha2); [|apply length_replicate|apply items_head|apply room_replicate|].
  { cbn [data app]. rewrite <- replicate_add. f_equal. lia. }
  cbn [length] in Hc2. rewrite Hc2. cbn [obind]. destruct (own_release _ _ _ _ _ Ho2) as (m3 & -> & Ho3 & Hk3 & Ha3). cbn [obind].
  eexists. eapply becomes_own; [exact Ho3|reflexivity|apply items_head|apply room_replicate|done| |unfold plenty; by rewrite Ha3, Ha2].
  eapply keeps_trans; [|exact Hk3]. intros w Hw'. rewrite Hk2, Hk by (by right). done.
Qed.

End One.

(** ** Sharing *)

Lemma null_ok m vs : wf 0 m vs → wf 0 m (null_vector :: vs) ∧ contents m null_vector = [].
Proof.
  intros Hw. split; [split|].
  - intros v [->|Hv]%elem_of_cons; [done|]. by apply (w_null _ _ _ Hw).
  - intros v [->|Hv]%elem_of_cons; [done|]. by apply (w_live _ _ _ Hw).
  - intros p b Hb. destruct (w_block _ _ _ Hw p b Hb) as [Hp Hr]. split; [done|]. intros Hq. rewrite countP_cons. unfold uses at 1. cbn [mStorage null_vector].
    rewrite (proj2 (Z.eqb_neq 0 p)) by done. by apply Hr.
  - unfold contents. cbn [mStorage null_vector]. by rewrite (wf_none _ _ Hw).
Qed.

Lemma share_ok m vs w : wf 0 m vs → w ∈ vs → mStorage w ≠ 0 →
  ∃ m', acquire (mStorage w) m = Returned m' ∧ wf 0 m' (w :: vs) ∧ keeps m m' vs ∧ answers m' = answers m.
Proof.
  intros Hw Hin Hw0. destruct (w_live _ _ _ Hw w Hin Hw0) as (_ & b & Hb & Hf). unfold acquire, sb_at. rewrite Hb. cbn [oderef obind].
  destruct (w_block _ _ _ Hw _ _ Hb) as [_ Hr]. destruct (Hr Hw0) as (Href & Hpos & Hbo).
  eexists. split; [reflexivity|].
  assert (∀ v, mStorage v ≠ 0 → mStorage v ≠ 0 ∧ (∃ c, heap m !! mStorage v = Some c ∧ filled c (mCount v)) →
    mStorage v ≠ 0 ∧ ∃ c, heap (set_sb (mStorage w) (set_refs b (mRefs b + 1)) m) !! mStorage v = Some c ∧ filled c (mCount v)) as Hlive.
  { intros v Hv [_ (c & Hc & Hfc)]. split; [done|]. cbn [set_sb heap]. destruct (decide (mStorage v = mStorage w)) as [He|He].
    - rewrite He, lookup_insert, decide_True by done. eexists. split; [reflexivity|]. assert (c = b) as -> by congruence. exact Hfc.
    - exists c. by rewrite lookup_insert_ne. }
  split_and!; [split|intros v Hv; unfold contents; cbn [set_sb heap]|done].
  - intros v [->|Hv]%elem_of_cons; by apply (w_null _ _ _ Hw).
  - intros v Hv Hv0. apply Hlive; [done|]. split; [done|]. apply elem_of_cons in Hv as [->|Hv]; by apply (w_live _ _ _ Hw).
  - intros p c. cbn [set_sb heap]. rewrite countP_cons. unfold uses at 1. rewrite lookup_insert_Some. intros [[<- <-]|[Hp Hc]].
    + split; [done|]. intros _. rewrite Z.eqb_refl. cbn [set_refs mRefs]. split_and!; [lia|lia|exact Hbo].
    + destruct (w_block _ _ _ Hw p c Hc) as [Hp0 Hq]. split; [done|]. intros _. rewrite (proj2 (Z.eqb_neq _ _)) by done. by apply Hq.
  - destruct (decide (mStorage v = mStorage w)) as [He|He]; [|by rewrite lookup_insert_ne].
    by rewrite He, lookup_insert, decide_True, Hb by done.
Qed.

Lemma finish_vector_ok m v vs : wf 0 m (v :: vs) → plenty m → becomes_ m vs (finish_vector T v m) [].
Proof.
  intros Hw Hp. destruct (release_ok _ _ _ _ Hw) as (m1 & Hr & Hw1 & Hk & Ha & _). unfold finish_vector. rewrite Hr. cbn [obind].
  destruct (null_ok _ _ Hw1) as [Hw2 Hc]. exists null_vector, m1. split_and!; [done|done|done|done|unfold plenty; by rewrite Ha].
Qed.

Lemma assign_ok m v vs w : wf 0 m (v :: vs) → plenty m → w ∈ vs → becomes_ m vs (assign T v w m) (contents m w).
Proof.
  intros Hw Hp Hin. destruct (release_ok _ _ _ _ Hw) as (m1 & Hr & Hw1 & Hk & Ha & _). unfold assign. rewrite Hr. cbn [obind].
  destruct (count_ok 0 m1 vs w Hw1 Hin) as [Hn _]. rewrite Hk in Hn by done. destruct (Z.eqb_spec (mCount w) 0) as [H0|H0].
  - destruct (null_ok _ _ Hw1) as [Hw2 Hc]. exists null_vector, m1. split_and!; [done|done| |done|unfold plenty; by rewrite Ha].
    rewrite Hc. symmetry. apply nil_length_inv. lia.
  - destruct (share_ok m1 vs w Hw1 Hin) as (m2 & -> & Hw2 & Hk2 & Ha2); [intros Hs; apply H0; by apply (w_null _ _ _ Hw1)|]. cbn [obind].
    exists w, m2. split_and!; [done|done|by rewrite Hk2, Hk|by eapply keeps_trans|unfold plenty; by rewrite Ha2, Ha].
Qed.

Lemma copy_vector_ok m v vs w : wf 0 m (v :: vs) → plenty m → w ∈ vs → mStorage v = 0 → becomes_ m vs (copy_vector w m) (contents m w).
Proof.
  intros Hw Hp Hin Hv. pose proof (wf_tail_null _ _ _ _ Hw Hv) as Hw1. unfold copy_vector. destruct (Z.eqb_spec (mStorage w) 0) as [H0|H0].
  - destruct (null_ok _ _ Hw1) as [Hw2 Hc]. assert (w = null_vector) as ->.
    { destruct w as [s c]. cbn in H0. subst s. f_equal. by apply (w_null _ _ _ Hw1 (mkV 0 c)). }
    exists null_vector, m. by split_and!.
  - destruct (share_ok m vs w Hw1 Hin H0) as (m2 & -> & Hw2 & Hk2 & Ha2). cbn [obind].
    exists w, m2. split_and!; [done|done|by rewrite Hk2|done|unfold plenty; by rewrite Ha2].
Qed.

(** ** Programs with several vectors *)

Inductive call :=
  | CInsert (i : nat) (x : A) (k n : nat)
  | CInsertDefault (i k n : nat)
  | CInsertVector (i j k : nat)
  | CRemove (i k n : nat)
  | CReplace (i : nat) (x : A) (k : nat)
  | CPop (i : nat)
  | CClear (i : nat)
  | CSetCapacity (i n : nat)
  | CAssign (i j : nat)
  | CCopy (i j : nat)
  | CFinish (i : nat).

Definition target (c : call) : nat :=
  match c with
  | CInsert i _ _ _ | CInsertDefault i _ _ | CInsertVector i _ _ | CRemove i _ _ | CReplace i _ _ | CPop i | CClear i
  | CSetCapacity i _ | CAssign i _ | CCopy i _ | CFinish i => i
  end.

Definition world : Type := list VectorImpl * memory.

Definition quiet (c : outcome (VectorImpl * memory)) : outcome (Z * (VectorImpl * memory)) := let! vm := c in Returned (0, vm).

(** A call on the vector [v], among the vectors [vs]. *)
Definition perform (c : call) (vs : list VectorImpl) (v : VectorImpl) (m : memory) : outcome (Z * (VectorImpl * memory)) :=
  match c with
  | CInsert _ x k n => insertAt T dflt isz (Outside [x]) (Z.of_nat k) (Z.of_nat n) v m
  | CInsertDefault _ k n => insertAt T dflt isz Null (Z.of_nat k) (Z.of_nat n) v m
  | CInsertVector _ j k => let! w := oderef (vs !! j) in insertVectorAt T isz w (Z.of_nat k) v m
  | CRemove _ k n => removeItemsAt T isz (Z.of_nat k) (Z.of_nat n) v m
  | CReplace _ x k => replaceAt T dflt isz (Outside [x]) (Z.of_nat k) v m
  | CPop _ => quiet (pop T isz v m)
  | CClear _ => quiet (clear T isz v m)
  | CSetCapacity _ n => setCapacity T isz (Z.of_nat n) v m
  | CAssign _ j => let! w := oderef (vs !! j) in quiet (assign T v w m)
  | CCopy _ j => let! w := oderef (vs !! j) in quiet (copy_vector w m)
  | CFinish _ => quiet (finish_vector T v m)
  end.

Definition run (c : call) (w : world) : outcome (Z * world) :=
  let! v := oderef (w.1 !! target c) in
  let! (r, vm) := perform c w.1 v w.2 in
  Returned (r, (<[target c := vm.1]> w.1, vm.2)).

(** What the call means for lists of items: the answer and the new list. *)
Definition effect (c : call) (W : list (list cell)) (cs : list cell) (r : Z) (cs' : list cell) : Prop :=
  match c with
  | CInsert _ x k n =>
      if decide (k ≤ length cs)%nat then r = Z.of_nat k ∧ cs' = take k cs ++ replicate n (Some x) ++ drop k cs else r = BAD_INDEX ∧ cs' = cs
  | CInsertDefault _ k n =>
      if decide (k ≤ length cs)%nat then r = Z.of_nat k ∧
        ∃ ds, length ds = n ∧ (has_trivial_ctor T = false → ds = replicate n (Some dflt)) ∧ cs' = take k cs ++ ds ++ drop k cs
      else r = BAD_INDEX ∧ cs' = cs
  | CInsertVector _ j k =>
      if decide (k ≤ length cs)%nat then r = Z.of_nat k ∧ ∃ ds, W !! j = Some ds ∧ cs' = take k cs ++ ds ++ drop k cs
      else r = BAD_INDEX ∧ cs' = cs
  | CRemove _ k n => r = Z.of_nat k ∧ cs' = take k cs ++ drop (k + n) cs
  | CReplace _ x k => r = Z.of_nat k ∧ cs' = <[k := Some x]> cs
  | CPop _ => cs' = take (length cs - 1) cs
  | CClear _ | CFinish _ => cs' = []
  | CSetCapacity _ _ => cs' = cs
  | CAssign _ j | CCopy _ j => W !! j = Some cs'
  end.

(** The calls an assertion of the code refuses, ending the process: removing or
    replacing items there are not. *)
Definition refused (c : call) (cs : list cell) : bool :=
  match c with
  | CRemove _ k n => negb (k + n <=? length cs)%nat
  | CReplace _ _ k => negb (k <? length cs)%nat
  | _ => false
  end.

(** When a call may be made: at least one item, another vector as the source, a
    copy into a vector without a block, and sizes that do not wrap. *)
Definition call_ok (c : call) (vs : list VectorImpl) (W : list (list cell)) : Prop :=
  ∃ v cs, vs !! target c = Some v ∧ W !! target c = Some cs ∧ fits (Z.of_nat (length cs)) ∧
  match c with
  | CInsert _ _ k n | CInsertDefault _ k n => (0 < n)%nat ∧ Z.of_nat k < 2 ^ 31 ∧ fits (Z.of_nat (length cs + n))
  | CInsertVector i j k => i ≠ j ∧ Z.of_nat k < 2 ^ 31 ∧ ∃ ds, W !! j = Some ds ∧ ds ≠ [] ∧ fits (Z.of_nat (length cs + length ds))
  | CRemove _ k n => (0 < n)%nat ∧ Z.of_nat (k + n) < 2 ^ 32
  | CSetCapacity _ n => Z.of_nat n < 2 ^ 31 ∧ Z.of_nat n * isz < 2 ^ 32 - sizeof_SharedBuffer
  | CAssign i j => i ≠ j ∧ is_Some (vs !! j)
  | CCopy i j => i ≠ j ∧ mStorage v = 0 ∧ is_Some (vs !! j)
  | _ => True
  end.

Definition items_of (w : world) : list (list cell) := contents w.2 <$> w.1.

(** From vectors without blocks, with allocations that succeed. *)
Inductive reach : world → Prop :=
  | reach_start k l : Forall (λ a, a = true) l → reach (replicate k null_vector, mkMem ∅ l)
  | reach_call w c r w' : reach w → call_ok c w.1 (items_of w) → run c w = Returned (r, w') → reach w'.

Definition good (w : world) : Prop := wf 0 w.2 w.1 ∧ plenty w.2.

Lemma delete_insert_eq' {B} (l : list B) i x : delete i (<[i := x]> l) = delete i l.
Proof. revert i. induction l as [|y l IH]; intros [|i]; try done. cbn. f_equal. apply IH. Qed.

Lemma lift {R} m vs i v (res : outcome (R * (VectorImpl * memory))) r cs : vs !! i = Some v → becomes m (delete i vs) res r cs →
  ∃ v' m', res = Returned (r, (v', m')) ∧ good (<[i := v']> vs, m') ∧ items_of (<[i := v']> vs, m') = <[i := cs]> (items_of (vs, m)).
Proof.
  intros Hi (v' & m' & Hr & Hw & Hc & Hk & Hp). exists v', m'. split; [done|]. pose proof (lookup_lt_Some _ _ _ Hi) as Hlt. split; [split; [|done]|].
  - eapply wf_perm; [|exact Hw]. rewrite <- (delete_insert_eq' vs i v'). symmetry. apply delete_Permutation. by apply list_lookup_insert_eq.
  - unfold items_of. cbn [fst snd]. apply list_eq. intros j. rewrite !list_lookup_fmap. destruct (decide (i = j)) as [<-|Hij].
    + rewrite !list_lookup_insert_eq by (done || by rewrite length_fmap). cbn. by rewrite Hc.
    + rewrite !list_lookup_insert_ne, list_lookup_fmap by done. destruct (vs !! j) as [w|] eqn:Hj; [|done]. cbn. f_equal. apply Hk.
      destruct (decide (j < i)%nat) as [Hji|Hji].
      * apply (list_elem_of_lookup_2 _ j). by rewrite list_lookup_delete_lt.
      * destruct j as [|j]; [lia|]. apply (list_elem_of_lookup_2 _ j). rewrite list_lookup_delete_ge by lia. done.
Qed.

Lemma becomes_quiet m vs res cs : becomes_ m vs res cs → becomes m vs (quiet res) 0 cs.
Proof. intros (v' & m' & -> & H). by exists v', m'. Qed.

Lemma other_in (vs : list VectorImpl) (i j : nat) w : i ≠ j → vs !! j = Some w → w ∈ delete i vs.
Proof.
  intros Hij Hj. destruct (decide (j < i)%nat) as [Hji|Hji].
  - apply (list_elem_of_lookup_2 _ j). by rewrite list_lookup_delete_lt.
  - destruct j as [|j]; [lia|]. apply (list_elem_of_lookup_2 _ j). rewrite list_lookup_delete_ge by lia. done.
Qed.

Lemma good_head m vs i v : good (vs, m) → vs !! i = Some v → wf 0 m (v :: delete i vs) ∧ plenty m.
Proof. intros [Hw Hp] Hi. split; [|done]. eapply wf_perm; [|exact Hw]. by apply delete_Permutation. Qed.

Lemma fits_31 n : 0 ≤ n → fits n → s32 n = n.
Proof. intros Hn [Hf _]. apply s32_small. lia. Qed.

(** Each call does to the items of its vector what it means. *)
Lemma perform_ok c vs m v : good (vs, m) → call_ok c vs (items_of (vs, m)) → vs !! target c = Some v → refused c (contents m v) = false →
  ∃ r cs', becomes m (delete (target c) vs) (perform c vs v m) r cs' ∧ effect c (items_of (vs, m)) (contents m v) r cs'.
Proof.
  intros Hg (v' & cs & Hv' & Hcs & Hf & Hpre) Hi Href. assert (v' = v) as -> by congruence.
  unfold items_of in Hcs. cbn [fst snd] in Hcs. rewrite list_lookup_fmap, Hi in Hcs. cbn in Hcs. injection Hcs as <-.
  destruct (good_head _ _ _ _ Hg Hi) as [Hw Hp]. set (os := delete (target c) vs) in *. pose proof (count_head m v os Hw) as Hc. rewrite <- Hc in Hf.
  assert (∀ j w, target c ≠ j → vs !! j = Some w → w ∈ os ∧ items_of (vs, m) !! j = Some (contents m w)) as Hother.
  { intros j w Hj Hw'. split; [by eapply other_in|]. unfold items_of. cbn [fst snd]. by rewrite list_lookup_fmap, Hw'. }
  assert (∀ k, (k ≤ length (contents m v))%nat → s32 (Z.of_nat k) = Z.of_nat k) as Hs32.
  { intros k Hk. apply fits_31; [lia|]. eapply fits_le; [|exact Hf]. lia. }
  destruct c; cbn [target perform effect refused] in *; try apply negb_false_iff in Href.
  - destruct Hpre as (Hn & Hk & Hf2). case_decide as Hd.
    + eexists _, _. split; [apply insertAt_item; [done|done|by apply outside_source|done|done|by rewrite Hc, <- Nat2Z.inj_add]|]. by rewrite Hs32.
    + exists BAD_INDEX, (contents m v). split; [|done]. unfold insertAt, size. rewrite (proj2 (Z.ltb_lt _ _)) by lia. by apply becomes_same.
  - destruct Hpre as (Hn & Hk & Hf2). case_decide as Hd.
    + destruct (insertAt_default m v os Hw Hp n k Hn Hd) as (ds & Hl & Hds & Hb); [by rewrite Hc, <- Nat2Z.inj_add|].
      eexists _, _. split; [exact Hb|]. rewrite Hs32 by done. split; [done|]. by exists ds.
    + exists BAD_INDEX, (contents m v). split; [|done]. unfold insertAt, size. rewrite (proj2 (Z.ltb_lt _ _)) by lia. by apply becomes_same.
  - destruct Hpre as (Hij & Hk & ds & Hds & Hne & Hf2).
    assert (∃ w, vs !! j = Some w) as [w Hj] by (unfold items_of in Hds; cbn [fst snd] in Hds; rewrite list_lookup_fmap in Hds; destruct (vs !! j); [by eexists|done]).
    destruct (Hother j w Hij Hj) as [Hin Hits]. rewrite Hds in Hits. injection Hits as ->. rewrite Hj. cbn [oderef obind]. unfold insertVectorAt.
    assert (wf 0 m (v :: os)) as Hwv by done. destruct (count_ok 0 m (v :: os) w Hwv) as [Hcw _]; [by right|]. unfold size. rewrite Hcw. case_decide as Hd.
    + exists (s32 (Z.of_nat k)), (take k (contents m v) ++ contents m w ++ drop k (contents m v)). split; [|split; [by apply Hs32|by exists (contents m w)]].
      apply insertArrayAt_ok; try done; [|by eapply contents_items; [exact Hw|right]|destruct (contents m w); [done|cbn; lia]|by rewrite Hc, <- Nat2Z.inj_add].
      intros p m' b Ho Hk'. assert (mStorage w ≠ 0) as Hw0.
      { intros H0. by rewrite (contents_null _ _ _ w Hwv H0) in Hne. }
      unfold arrayImpl. rewrite (proj2 (Z.eqb_neq _ _) Hw0). cbn [read_source].
      apply (read_ok p m' os w [] _ []); [by destruct Ho|done|]. by rewrite app_nil_r, Hk'.
    + exists BAD_INDEX, (contents m v). split; [|done]. unfold insertArrayAt, size. rewrite (proj2 (Z.ltb_lt _ _)) by lia. by apply becomes_same.
  - destruct Hpre as (Hn & Hk). apply Nat.leb_le in Href.
    eexists _, _. split; [apply removeItemsAt_ok; try done; by left|]. by rewrite Hs32 by lia.
  - apply Nat.ltb_lt in Href. eexists _, _. split; [apply replaceAt_item; [done|done|by apply outside_source|done]|]. by rewrite Hs32 by lia.
  - eexists _, _. split; [by apply becomes_quiet, pop_ok|done].
  - eexists _, _. split; [by apply becomes_quiet, clear_ok|done].
  - destruct Hpre as [Hn Hs]. destruct (setCapacity_ok m v os Hw Hp n Hn Hf Hs) as [r Hb]. by exists r, (contents m v).
  - destruct Hpre as (Hij & [w Hj]). destruct (Hother j w Hij Hj) as [Hin Hits]. rewrite Hj. cbn [oderef obind].
    eexists _, _. split; [by apply becomes_quiet, assign_ok|done].
  - destruct Hpre as (Hij & H0 & [w Hj]). destruct (Hother j w Hij Hj) as [Hin Hits]. rewrite Hj. cbn [oderef obind].
    eexists _, _. split; [apply becomes_quiet; by eapply copy_vector_ok|done].
  - eexists _, _. split; [by apply becomes_quiet, finish_vector_ok|done].
Qed.

Lemma items_at c (w : world) : call_ok c w.1 (items_of w) → ∃ v, w.1 !! target c = Some v ∧ items_of w !! target c = Some (contents w.2 v).
Proof. intros (v & cs & Hv & _). exists v. split; [done|]. unfold items_of. by rewrite list_lookup_fmap, Hv. Qed.

Lemma run_ok c w v : good w → call_ok c w.1 (items_of w) → w.1 !! target c = Some v → refused c (contents w.2 v) = false →
  ∃ r w' cs', run c w = Returned (r, w') ∧ good w' ∧ effect c (items_of w) (contents w.2 v) r cs' ∧ items_of w' = <[target c := cs']> (items_of w).
Proof.
  destruct w as [vs m]. cbn [fst snd]. intros Hg Hc Hv Href.
  destruct (perform_ok c vs m v Hg Hc Hv Href) as (r & cs' & Hb & He). destruct (lift m vs (target c) v _ r cs' Hv Hb) as (v' & m' & Hp & Hg' & Hi).
  exists r, (<[target c := v']> vs, m'), cs'. unfold run. cbn [fst snd]. rewrite Hv. cbn [oderef obind]. rewrite Hp. cbn [obind fst snd]. by split_and!.
Qed.

(** The process ends at the assertion of a call that is refused. *)
Lemma run_refused c w v : good w → call_ok c w.1 (items_of w) → w.1 !! target c = Some v → refused c (contents w.2 v) = true → run c w = Exited.
Proof.
  destruct w as [vs m]. cbn [fst snd]. intros Hg (v' & cs & Hv' & _ & _ & Hpre) Hv Href. cbn [fst] in Hv'. assert (v' = v) as -> by congruence.
  destruct (good_head _ _ _ _ Hg Hv) as [Hw _]. pose proof (count_head m v _ Hw) as Hc.
  unfold run. cbn [fst snd]. rewrite Hv. cbn [oderef obind]. destruct c; cbn [target perform refused] in *; try done; apply negb_true_iff in Href.
  - destruct Hpre as [_ Hk]. apply Nat.leb_gt in Href. unfold removeItemsAt, size. rewrite oassert_false; [done|].
    rewrite u32_small by lia. apply Z.leb_gt. lia.
  - apply Nat.ltb_ge in Href. unfold replaceAt, size. rewrite oassert_false; [done|]. apply Z.ltb_ge. lia.
Qed.

Lemma run_good c w r w' : good w → call_ok c w.1 (items_of w) → run c w = Returned (r, w') → good w'.
Proof.
  intros Hg Hc Hr. destruct (items_at c w Hc) as (v & Hv & _). destruct (refused c (contents w.2 v)) eqn:Href.
  - rewrite (run_refused c w v) in Hr by done. done.
  - destruct (run_ok c w v Hg Hc Hv Href) as (r' & w'' & cs' & Hr' & Hg' & _). congruence.
Qed.

Lemma start_good k l : Forall (λ a, a = true) l → good (replicate k null_vector, mkMem ∅ l).
Proof.
  intros Hl. split; [|exact Hl]. cbn [fst snd]. split.
  - by intros v [-> _]%elem_of_replicate.
  - by intros v [-> _]%elem_of_replicate.
  - intros p b. cbn [heap]. by rewrite lookup_empty.
Qed.

Lemma reach_good w : reach w → good w.
Proof.
  induction 1 as [k l Hl|w c r w' _ IH Hc Hr]; [by apply start_good|].
  by eapply run_good.
Qed.

(** C8: whatever vectors share blocks, every call on one of them, inserting items
    or another vector, removing, replacing, clearing, changing the capacity,
    assigning, copying or destroying, does to its items what it means for a
    list, answers the index, or [BAD_INDEX] for an insertion behind the end, and
    leaves the items of all other vectors as they are; except that removing or
    replacing items there are not ends the process, at the assertion before the
    error the code would answer.  Allocations succeed and sizes do not wrap. *)
Theorem vector_values w c : reach w → call_ok c w.1 (items_of w) →
  ∃ cs, items_of w !! target c = Some cs ∧
    if refused c cs then run c w = Exited
    else ∃ r w' cs', run c w = Returned (r, w') ∧ effect c (items_of w) cs r cs' ∧ items_of w' = <[target c := cs']> (items_of w).
Proof.
  intros H%reach_good Hc. destruct (items_at c w Hc) as (v & Hv & Hcs). exists (contents w.2 v). split; [done|].
  destruct (refused c (contents w.2 v)) eqn:Href; [by apply (run_refused c w v)|].
  destruct (run_ok c w v H Hc Hv Href) as (r & w' & cs' & Hr & _ & He & Hi). by exists r, w', cs'.
Qed.

(** In every state that is reached, each block counts exactly the vectors
    that point to it and is there for at least one of them, so that nothing
    leaks; its first cells hold their items, and of a type with a destructor no
    other cell does, so that every item is destroyed once. *)
Theorem vector_blocks w : reach w →
  ∀ p b, heap w.2 !! p = Some b →
    mRefs b = countP (uses p) w.1 ∧
    ∃ v, v ∈ w.1 ∧ mStorage v = p ∧
      ∃ rest, data b = contents w.2 v ++ rest ∧ (has_trivial_dtor T = false → Forall is_Some (contents w.2 v) ∧ Forall (λ c, c = None) rest).
Proof.
  intros [Hw _]%reach_good p b Hb. destruct (w_block _ _ _ Hw p b Hb) as [Hp Hr]. destruct (Hr Hp) as (Href & Hpos & Hbo). split; [done|].
  destruct (countP_exists (uses p) w.1) as (i & v & Hi & Hu); [lia|]. apply Z.eqb_eq in Hu. assert (v ∈ w.1) as Hin by by eapply list_elem_of_lookup_2.
  exists v. split; [done|]. split; [done|]. subst p. destruct (block_of 0 w.2 w.1 v Hw Hin Hp) as (b' & rest & Hb' & Hd & _ & _ & Hit & Hro & _).
  assert (b' = b) as -> by congruence. exists rest. split; [done|]. intros Hdt. split; [apply Hit; by rewrite Hdt, andb_false_r|by apply Hro].
Qed.

End Spec.

(** ** Programs *)

(** A type with constructors and destructors, and one without. *)
Definition objects : traits := mkTraits false false false false.
Definition integers : traits := mkTraits true true true true.

Fixpoint run_calls {A} (T : traits) (dflt : A) (isz : Z) (cs : list call) (w : world) : outcome (list Z * world) :=
  match cs with
  | [] => Returned ([], w)
  | c :: cs => let! (r, w) := run T dflt isz c w in let! (rs, w) := run_calls T dflt isz cs w in Returned (r :: rs, w)
  end.

Definition two : world (A := Z) := (replicate 2 null_vector, mkMem ∅ []).

(** Two vectors share a block until one of them is changed. *)
Example share_run :
  match run_calls objects 0 4 [CInsert 0 7 0 2; CInsert 0 8 1 1; CAssign 1 0; CReplace 1 9 0; CRemove 0 1 1] two with
  | Returned (rs, w) => Some (rs, items_of w, length (map_to_list (heap w.2)))
  | _ => None
  end = Some ([0; 1; 0; 0; 1], [[Some 7; Some 7]; [Some 9; Some 8; Some 7]], 2%nat).
Proof. by vm_compute. Qed.

Lemma two_reached : reach objects 0 4 two.
Proof. by apply (reach_start objects 0 4 2 []). Qed.

Lemma insert_fits (W : list (list (option Z))) : W = [[]; []] → call_ok 4 (CInsert 0 7 0 2) [null_vector; null_vector] W.
Proof. intros ->. exists null_vector, []. unfold fits, kMinVectorCapacity, sizeof_SharedBuffer. cbn. split_and!; try done; lia. Qed.

Lemma vector_values_witness : (∃ r w' cs', run objects 0 4 (CInsert 0 7 0 2) two = Returned (r, w') ∧
    effect objects 0 (CInsert 0 7 0 2) (items_of two) [] r cs' ∧ items_of w' = <[0%nat := cs']> (items_of two)) ∧
  run objects 0 4 (CReplace 0 7 0) two = Exited.
Proof.
  split.
  - destruct (vector_values objects 0 4 ltac:(lia) (λ H, match Bool.diff_false_true H with end) two (CInsert 0 7 0 2) two_reached) as (cs & Hcs & H);
      [by apply insert_fits|]. injection Hcs as <-. exact H.
  - destruct (vector_values objects 0 4 ltac:(lia) (λ H, match Bool.diff_false_true H with end) two (CReplace 0 7 0) two_reached) as (cs & Hcs & H).
    { exists null_vector, []. unfold fits, kMinVectorCapacity, sizeof_SharedBuffer. cbn. split_and!; try done; lia. }
    injection Hcs as <-. exact H.
Defined.

(** The two vectors with a block they share. *)
Definition shared_two : world (A := Z) :=
  match run_calls objects 0 4 [CInsert 0 7 0 2; CAssign 1 0] two with Returned (_, w) => w | _ => two end.

Lemma shared_reached : reach objects 0 4 shared_two.
Proof.
  eassert (reach objects 0 4 _) as H1.
  { eapply (reach_call objects 0 4 two (CInsert 0 7 0 2) 0); [apply two_reached|by apply insert_fits|vm_compute; reflexivity]. }
  eapply (reach_call objects 0 4 _ (CAssign 1 0)); [exact H1| |vm_compute; reflexivity].
  eexists _, _. unfold fits, kMinVectorCapacity, sizeof_SharedBuffer. cbn. split_and!; try done; try lia; eauto.
Qed.

Lemma vector_blocks_witness : ∃ p b, heap shared_two.2 !! p = Some b ∧ mRefs b = 2 ∧ mRefs b = countP (uses p) shared_two.1 ∧
  ∃ v, v ∈ shared_two.1 ∧ mStorage v = p ∧
    ∃ rest, data b = contents shared_two.2 v ++ rest ∧ (has_trivial_dtor objects = false → Forall is_Some (contents shared_two.2 v) ∧ Forall (λ c, c = None) rest).
Proof.
  assert (∃ b, heap shared_two.2 !! 1 = Some b ∧ mRefs b = 2) as (b & Hb & Hr) by (eexists; split; [vm_compute; reflexivity|reflexivity]).
  exists 1, b. split; [exact Hb|]. split; [exact Hr|].
  apply (vector_blocks objects 0 4 ltac:(lia) (λ H, match Bool.diff_false_true H with end) shared_two shared_reached 1 b Hb).
Defined.

(** What the answers of a vector after some calls are, and its items. *)
Definition after {R} (T : traits) (cs : list call) (f : VectorImpl → mem Z → outcome (R * (VectorImpl * mem Z))) : outcome (R * Z * list (option Z) * list (option Z)) :=
  let! (_, w) := run_calls T 0 4 cs two in
  let! v := oderef (w.1 !! 0%nat) in
  let! (r, vm) := f v w.2 in
  Returned (r, mCount vm.1, contents vm.2 vm.1, default [] (contents vm.2 <$> w.1 !! 1%nat)).

(** Inserting or removing nothing in the middle of a vector of objects moves
    each item behind onto itself, constructing it over itself and destroying it. *)
Theorem insert_nothing_destroys :
  after objects [CInsert 0 7 0 1] (insertArrayAt objects 4 (Outside []) 0 0) = Undefined ∧
  after objects [CInsert 0 7 0 2] (removeItemsAt objects 4 0 0) = Undefined ∧
  after (mkTraits false false true false) [CInsert 0 7 0 1] (insertArrayAt (mkTraits false false true false) 4 (Outside []) 0 0) =
    Returned (0, 1, [None], []).
Proof. by vm_compute. Qed.

(** Appending nothing to a vector without a block, or to a full one, ends the
    process: the place behind the items is none of the block. *)
Theorem append_nothing_fails :
  after objects [] (appendVector objects 4 null_vector) = Exited ∧
  after objects [CInsert 0 7 0 1; CInsert 0 8 1 3] (appendVector objects 4 null_vector) = Exited.
Proof. by vm_compute. Qed.

(** An item of the vector itself is read after the vector changed: appending
    the first item of a full vector reads memory that was freed, inserting the
    first item before itself in one that is not full inserts nothing that is
    there any more. *)
Theorem insert_own_item :
  after objects [CInsert 0 7 0 1; CInsert 0 8 1 3] (λ v, insertAt objects 0 4 (Inside (mStorage v) 0) 4 1 v) = Undefined ∧
  after objects [CInsert 0 7 0 1] (λ v, insertAt objects 0 4 (Inside (mStorage v) 0) 0 1 v) = Undefined ∧
  after integers [CInsert 0 7 0 1; CInsert 0 8 1 1; CInsert 0 9 2 1] (λ v, insertAt integers 0 4 (Inside (mStorage v) 1) 0 1 v) =
    Returned (0, 4, [Some 7; Some 7; Some 8; Some 9], []) ∧
  after integers [CInsert 0 7 0 4] (λ v, appendVector integers 4 v v) = Undefined.
Proof. by vm_compute. Qed.

(** The next allocation fails. *)
Definition failing {R} (f : VectorImpl → mem Z → R) (v : VectorImpl) (m : mem Z) : R := f v (mkMem (heap m) [false]).

(** When the copy of a shared block cannot be allocated the shared block is
    edited: replacing an item of one vector changes the other; and removing an
    item from a vector that cannot be shrunk answers the index and removes
    nothing. *)
Theorem edit_without_memory :
  after objects [CInsert 0 7 0 2; CAssign 1 0] (failing (replaceAt objects 0 4 (Outside [9]) 0)) =
    Returned (0, 2, [Some 9; Some 7], [Some 9; Some 7]) ∧
  after objects [CSetCapacity 0 12; CInsert 0 7 0 2] (failing (removeItemsAt objects 4 0 1)) = Returned (0, 2, [Some 7; Some 7], []).
Proof. by vm_compute. Qed.

(** A number of items whose size wraps makes a vector that counts them over a
    block for three; when it wraps to no room at all, the assertion ends the
    process. *)
Theorem grow_wraps :
  match _grow integers 4 0 (2 ^ 31 + 2) null_vector (mkMem (∅ : gmap Z (SharedBuffer Z)) []) with
  | Returned (ok, (v, m)) => Some (ok, mCount v, mSize <$> heap m !! mStorage v)
  | _ => None
  end = Some (true, 2 ^ 31 + 2, Some 12) ∧
  insertAt integers 0 4 Null 0 (2 ^ 31) null_vector (mkMem (∅ : gmap Z (SharedBuffer Z)) []) = Exited.
Proof. split; lazy; reflexivity. Qed.

End VS.
