(* ===== verification/SortedVector.v ===== *)
(** Sorting a vector in place and the sorted vectors of the C++ foundation
    ([VectorImpl::sort] and [SortedVectorImpl] of [VectorImpl.cpp]): a binary
    search, adding, removing and merging, over the vectors of [VectorImpl.v]. *)

From Stdlib Require Import Sorted.
From S2P Require Import Prelude SharedBuffer VectorImpl VectorSpec.

Module SV.
Import SB VI VS.

Section Sorted.
Context {A : Type} (T : traits) (dflt : A) (isz : Z).

Abbreviation memory := (mem A).
Abbreviation cell := (option A).

(** The comparison of two items that are there. *)
Definition compare (cmp : A → A → Z) (x y : cell) : outcome Z := let! a := oderef x in let! b := oderef y in Returned (cmp a b).

(** *** [VectorImpl::sort]

    The inner loop: the item at [S j] is replaced by the one before it, until
    the item in [temp] has its place. *)
Fixpoint shift_loop (cmp : A → A → Z) (j : nat) (temp : list cell) (l : list cell) : outcome (list cell) :=
  let! l := destroy_type T l (S j) 1 in
  let! curr := cget l j in
  let! l := copy_type T l (S j) [curr] in
  let finish (next : nat) (l : list cell) :=
    let! l := destroy_type T l next 1 in
    let! t := cget temp 0 in
    copy_type T l next [t] in
  match j with
  | O => finish 0%nat l
  | S j' =>
      let! curr := cget l j' in
      let! t := cget temp 0 in
      let! c := compare cmp curr t in
      if 0 <? c then shift_loop cmp j' temp l else finish (S j') l
  end.

(** The outer loop, at item [i], for [n] more; [temp] is there once an item was
    out of order. *)
Fixpoint sort_loop (cmp : A → A → Z) (n i : nat) (temp : option (list cell)) (v : VectorImpl) (m : memory) :
    outcome (Z * option (list cell) * (VectorImpl * memory)) :=
  match n with
  | O => Returned (NO_ERROR, temp, (v, m))
  | S n =>
      let! b := sb_at (mStorage v) m in
      let! item := cget (data b) i in
      let! curr := cget (data b) (i - 1) in
      let! c := compare cmp curr item in
      if 0 <? c then
        let! (st, vm) := match temp with
          | None =>
              let! (array, vm) := editArrayImpl T isz v m in
              if array =? 0 then Returned ((NO_MEMORY, None), vm)
              else
                let '(a, m) := answer vm.2 in
                Returned ((if a then (NO_ERROR, Some [None]) else (NO_MEMORY, None)), (vm.1, m))
          | Some t => let! t := destroy_type T t 0 1 in Returned ((NO_ERROR, Some t), (v, m))
          end in
        let '(v, m) := vm in
        match st.2 with
        | None => Returned (st.1, None, (v, m))
        | Some t =>
            let! b := sb_at (mStorage v) m in
            let! item := cget (data b) i in
            let! t := copy_type T t 0 [item] in
            let! m := upd (mStorage v) (shift_loop cmp (i - 1) t) m in
            sort_loop cmp n (S i) (Some t) v m
        end
      else sort_loop cmp n (S i) temp v m
  end.

Definition sort (cmp : A → A → Z) (v : VectorImpl) (m : memory) : outcome (Z * (VectorImpl * memory)) :=
  if 1 <? size v then
    let! (rt, vm) := sort_loop cmp (Z.to_nat (size v - 1)) 1 None v m in
    let! _ := match rt.2 with None => Returned [] | Some t => destroy_type T t 0 1 end in
    Returned (rt.1, vm)
  else Returned (NO_ERROR, (v, m)).

(** *** [SortedVectorImpl]

    The binary search: whether the item is there, and its place. *)
Fixpoint search_loop (do_compare : A → A → Z) (n : nat) (l h : Z) (a : list cell) (item : A) : outcome (Z * Z) :=
  if l <=? h then
    match n with
    | O => Exited
    | S n =>
        let mid := l + (h - l) / 2 in
        let! curr := cget a (Z.to_nat mid) in
        let! c := compare do_compare curr (Some item) in
        if c =? 0 then Returned (mid, mid)
        else if c <? 0 then search_loop do_compare n (mid + 1) h a item
        else search_loop do_compare n l (mid - 1) a item
    end
  else Returned (NAME_NOT_FOUND, l).

Definition array_of (v : VectorImpl) (m : memory) : outcome (list cell) :=
  if mStorage v =? 0 then Returned [] else let! b := sb_at (mStorage v) m in Returned (data b).

Definition _indexOrderOf (do_compare : A → A → Z) (item : A) (v : VectorImpl) (m : memory) : outcome (Z * Z) :=
  let! a := array_of v m in search_loop do_compare (S (Z.to_nat (size v))) 0 (size v - 1) a item.

Definition indexOf (do_compare : A → A → Z) (item : A) (v : VectorImpl) (m : memory) : outcome Z :=
  let! (i, _) := _indexOrderOf do_compare item v m in Returned i.
Definition orderOf (do_compare : A → A → Z) (item : A) (v : VectorImpl) (m : memory) : outcome Z :=
  let! (_, o) := _indexOrderOf do_compare item v m in Returned o.

(** [s] points to the item. *)
Definition add (do_compare : A → A → Z) (s : source A) (v : VectorImpl) (m : memory) : outcome (Z * (VectorImpl * memory)) :=
  let! xs := read_source s 1 m in
  let! item := oderef (default None (head xs)) in
  let! (index, order) := _indexOrderOf do_compare item v m in
  if index <? 0 then insertAt T dflt isz s order 1 v m else replaceAt T dflt isz s index v m.

Definition remove (do_compare : A → A → Z) (item : A) (v : VectorImpl) (m : memory) : outcome (Z * (VectorImpl * memory)) :=
  let! i := indexOf do_compare item v m in
  if 0 <=? i then let! (_, vm) := removeItemsAt T isz i 1 v m in Returned (i, vm) else Returned (i, (v, m)).

(** Merging a vector: item by item. *)
Fixpoint merge_loop (do_compare : A → A → Z) (vector : VectorImpl) (n i : nat) (v : VectorImpl) (m : memory) : outcome (Z * (VectorImpl * memory)) :=
  match n with
  | O => Returned (NO_ERROR, (v, m))
  | S n =>
      let! (err, vm) := add do_compare (Inside (mStorage vector) i) v m in
      if err <? 0 then Returned (err, vm) else merge_loop do_compare vector n (S i) vm.1 vm.2
  end.

Definition merge_vector (do_compare : A → A → Z) (vector v : VectorImpl) (m : memory) : outcome (Z * (VectorImpl * memory)) :=
  if size vector =? 0 then Returned (NO_ERROR, (v, m)) else merge_loop do_compare vector (Z.to_nat (size vector)) 0 v m.

(** Merging a sorted vector: when all of it belongs before or behind. *)
Definition merge (do_compare : A → A → Z) (vector v : VectorImpl) (m : memory) : outcome (Z * (VectorImpl * memory)) :=
  if size vector =? 0 then Returned (NO_ERROR, (v, m))
  else
    let! theirs := array_of vector m in
    let! ours := array_of v m in
    let! last := cget theirs (Z.to_nat (size vector - 1)) in
    let! first := cget ours 0 in
    let! c := compare do_compare last first in
    if c <=? 0 then insertVectorAt T isz vector 0 v m
    else
      let! first := cget theirs 0 in
      let! last := cget ours (Z.to_nat (size v - 1)) in
      let! c := compare do_compare first last in
      if 0 <=? c then appendVector T isz vector v m else merge_vector do_compare vector v m.

(** ** Orders and sorting *)

(** What a comparison must do: its sign is that of a total preorder. *)
Class Order (cmp : A → A → Z) : Prop := {
  cmp_flip x y : cmp x y < 0 ↔ 0 < cmp y x;
  cmp_trans x y z : cmp x y ≤ 0 → cmp y z ≤ 0 → cmp x z ≤ 0
}.

Definition le_by (cmp : A → A → Z) (x y : A) : Prop := cmp x y ≤ 0.
Definition lt_by (cmp : A → A → Z) (x y : A) : Prop := cmp x y < 0.

Lemma cmp_lt_le `{!Order cmp} x y z : cmp x y < 0 → cmp y z ≤ 0 → cmp x z < 0.
Proof.
  intros Hxy Hyz. pose proof (cmp_trans x y z (Z.lt_le_incl _ _ Hxy) Hyz). destruct (decide (cmp x z < 0)) as [|Hn]; [done|].
  assert (cmp z x ≤ 0) as Hzx by (destruct (decide (0 < cmp z x)) as [H0%cmp_flip|]; lia).
  pose proof (cmp_trans y z x Hyz Hzx). apply cmp_flip in Hxy. lia.
Qed.

Lemma cmp_le_lt `{!Order cmp} x y z : cmp x y ≤ 0 → cmp y z < 0 → cmp x z < 0.
Proof.
  intros Hxy Hyz. pose proof (cmp_trans x y z Hxy (Z.lt_le_incl _ _ Hyz)). destruct (decide (cmp x z < 0)) as [|Hn]; [done|].
  assert (cmp z x ≤ 0) as Hzx by (destruct (decide (0 < cmp z x)) as [H0%cmp_flip|]; lia).
  pose proof (cmp_trans z x y Hzx Hxy). apply cmp_flip in Hyz. lia.
Qed.

Lemma cmp_gt_le `{!Order cmp} x y : 0 < cmp x y → cmp y x ≤ 0.
Proof. intros H%cmp_flip. lia. Qed.
Lemma cmp_le_not `{!Order cmp} x y : cmp x y ≤ 0 → 0 ≤ cmp y x.
Proof. intros H. destruct (decide (cmp y x < 0)) as [H0%cmp_flip|]; lia. Qed.

(** The stable sort of a list, kept in reverse: the new item goes in front of the
    greater ones that end the part sorted so far. *)
Fixpoint insert_from_end (cmp : A → A → Z) (t : A) (r : list A) : list A :=
  match r with
  | [] => [t]
  | y :: r' => if 0 <? cmp y t then y :: insert_from_end cmp t r' else t :: r
  end.

Definition sorted_part (cmp : A → A → Z) (xs : list A) : list A := reverse (fold_left (λ r x, insert_from_end cmp x r) xs []).
Definition stable_sort (cmp : A → A → Z) (xs : list A) : list A := sorted_part cmp xs.

Lemma sorted_part_snoc cmp xs x : sorted_part cmp (xs ++ [x]) = reverse (insert_from_end cmp x (reverse (sorted_part cmp xs))).
Proof. unfold sorted_part. by rewrite fold_left_app, reverse_involutive. Qed.

Lemma insert_from_end_perm cmp t r : insert_from_end cmp t r ≡ₚ t :: r.
Proof. induction r as [|y r IH]; [done|]. cbn. destruct (0 <? cmp y t); [|done]. rewrite IH. by rewrite Permutation_swap. Qed.

Lemma stable_sort_perm cmp xs : stable_sort cmp xs ≡ₚ xs.
Proof.
  unfold stable_sort. induction xs as [|x xs IH] using rev_ind; [done|]. rewrite sorted_part_snoc, reverse_Permutation, insert_from_end_perm, reverse_Permutation, IH.
  by rewrite Permutation_cons_append.
Qed.

Lemma length_sorted_part cmp xs : length (sorted_part cmp xs) = length xs.
Proof. apply Permutation_length, stable_sort_perm. Qed.

(** In reverse the greater come first. *)
Definition ge_by (cmp : A → A → Z) (x y : A) : Prop := cmp y x ≤ 0.

Lemma insert_from_end_sorted `{!Order cmp} t r : StronglySorted (ge_by cmp) r → StronglySorted (ge_by cmp) (insert_from_end cmp t r).
Proof.
  induction 1 as [|y r Hs IH Hy]; [repeat constructor|]. cbn. destruct (Z.ltb_spec 0 (cmp y t)) as [Hc|Hc].
  - constructor; [done|]. rewrite insert_from_end_perm. constructor; [by apply cmp_gt_le|done].
  - constructor; [by constructor|]. constructor; [done|]. eapply Forall_impl; [exact Hy|]. intros z Hz. unfold ge_by in *. by eapply cmp_trans.
Qed.

Lemma StronglySorted_snoc' {B} (R : B → B → Prop) l x : StronglySorted R l → Forall (λ y, R y x) l → StronglySorted R (l ++ [x]).
Proof.
  induction 1 as [|y l Hs IH Hy]; intros Hf; [repeat constructor|]. apply Forall_cons in Hf as [Hyx Hf]. cbn. constructor; [by apply IH|].
  apply Forall_app. by split; [|apply Forall_singleton].
Qed.

Lemma StronglySorted_reverse cmp r : StronglySorted (ge_by cmp) r → StronglySorted (le_by cmp) (reverse r).
Proof.
  induction 1 as [|y r Hs IH Hy]; [constructor|]. rewrite reverse_cons. apply StronglySorted_snoc'; [done|]. by rewrite reverse_Permutation.
Qed.

Lemma stable_sort_sorted `{!Order cmp} xs : StronglySorted (le_by cmp) (stable_sort cmp xs).
Proof.
  apply StronglySorted_reverse. cut (∀ r, StronglySorted (ge_by cmp) r → StronglySorted (ge_by cmp) (fold_left (λ r x, insert_from_end cmp x r) xs r)).
  { intros H. apply H. constructor. }
  induction xs as [|x xs IH]; intros r Hr; [done|]. cbn. by apply IH, insert_from_end_sorted.
Qed.

(** Items that compare equal to [z]. *)
Definition same_by (cmp : A → A → Z) (z x : A) : bool := (cmp z x <=? 0) && (cmp x z <=? 0).

Lemma insert_from_end_filter `{!Order cmp} z t r : StronglySorted (ge_by cmp) r →
  List.filter (same_by cmp z) (insert_from_end cmp t r) = List.filter (same_by cmp z) (t :: r).
Proof.
  induction 1 as [|y r Hs IH Hy]; [done|]. cbn [insert_from_end]. destruct (Z.ltb_spec 0 (cmp y t)) as [Hc|Hc]; [|done].
  cbn [List.filter]. rewrite IH. cbn [List.filter]. destruct (same_by cmp z y) eqn:Hzy, (same_by cmp z t) eqn:Hzt; try done.
  unfold same_by in *. rewrite andb_true_iff, !Z.leb_le in Hzy, Hzt. destruct Hzy, Hzt. pose proof (cmp_trans y z t). lia.
Qed.

Lemma filter_reverse {B} (f : B → bool) (l : list B) : List.filter f (reverse l) = reverse (List.filter f l).
Proof.
  induction l as [|x l IH]; [done|]. rewrite reverse_cons, List.filter_app, IH. cbn [List.filter]. destruct (f x); [by rewrite reverse_cons|by rewrite app_nil_r].
Qed.

Lemma stable_sort_stable `{!Order cmp} z xs : List.filter (same_by cmp z) (stable_sort cmp xs) = List.filter (same_by cmp z) xs.
Proof.
  unfold stable_sort, sorted_part. rewrite filter_reverse.
  cut (∀ r, StronglySorted (ge_by cmp) r → reverse (List.filter (same_by cmp z) (fold_left (λ r x, insert_from_end cmp x r) xs r)) =
    reverse (List.filter (same_by cmp z) r) ++ List.filter (same_by cmp z) xs).
  { intros H. rewrite H by constructor. done. }
  induction xs as [|x xs IH]; intros r Hr; [cbn; by rewrite app_nil_r|]. cbn [fold_left]. rewrite IH by by apply insert_from_end_sorted.
  rewrite insert_from_end_filter by done. cbn [List.filter]. destruct (same_by cmp z x); [|done]. by rewrite reverse_cons, <- app_assoc.
Qed.

(** ** The sort in place *)

Definition some (xs : list A) : list cell := Some <$> xs.

Lemma some_app xs ys : some (xs ++ ys) = some xs ++ some ys.
Proof. apply fmap_app. Qed.
Lemma length_some xs : length (some xs) = length xs.
Proof. apply length_fmap. Qed.

Lemma items_some xs : items T (some xs).
Proof. intros _. apply Forall_fmap, Forall_true. intros x. by eexists. Qed.

(** One item is destroyed, and another is copied there. *)
Lemma destroy_some l x r : ∃ c : cell, destroy_type T (l ++ Some x :: r) (length l) 1 = Returned (l ++ c :: r) ∧ room T [c].
Proof.
  destruct (destroy_type_at T l [Some x] r (items_some [x])) as (cs & Hd & Hl & Hr). destruct cs as [|c [|]]; try done. by exists c.
Qed.

Lemma copy_some l (c : cell) r y : room T [c] → copy_type T (l ++ c :: r) (length l) [Some y] = Returned (l ++ Some y :: r).
Proof. intros Hr. by apply (copy_type_at T l [c] r [Some y]); [|apply (items_some [y])|]. Qed.

Lemma reverse_snoc' {B} (l : list B) x : reverse (l ++ [x]) = x :: reverse l.
Proof. by rewrite reverse_app. Qed.

(** The greater items move up by one and [t] takes the place. *)
Lemma shift_ok cmp P y t c (rest : list cell) :
  shift_loop cmp (length P) [Some t] (some (P ++ [y]) ++ Some c :: rest) = Returned (some (reverse (y :: insert_from_end cmp t (reverse P))) ++ rest).
Proof.
  revert y c rest. induction P as [|z P IH] using rev_ind; intros y c rest.
  - cbn [length shift_loop app]. destruct (destroy_some [Some y] c rest) as (c1 & Hd & Hr). cbn [length app] in Hd.
    change (some [y] ++ Some c :: rest) with (Some y :: Some c :: rest). rewrite Hd. cbn [obind cget lookup list_lookup oderef].
    pose proof (copy_some [Some y] c1 rest y Hr) as Hc. cbn [length app] in Hc. rewrite Hc. cbn [obind].
    destruct (destroy_some [] y (Some y :: rest)) as (c2 & Hd2 & Hr2). cbn [length app] in Hd2. rewrite Hd2. cbn [obind cget lookup list_lookup oderef].
    pose proof (copy_some [] c2 (Some y :: rest) t Hr2) as Hc2. cbn [length app] in Hc2. by rewrite Hc2.
  - rewrite length_app, Nat.add_1_r. cbn [shift_loop].
    assert (length (some ((P ++ [z]) ++ [y])) = S (S (length P))) as Hl2 by (rewrite length_some, !length_app; cbn; lia).
    assert (length (some (P ++ [z])) = S (length P)) as Hl1 by (rewrite length_some, length_app; cbn; lia).
    assert (length (some P) = length P) as Hl0 by apply length_some.
    destruct (destroy_some (some ((P ++ [z]) ++ [y])) c rest) as (c1 & Hd & Hr). rewrite Hl2 in Hd. rewrite Hd. cbn [obind].
    assert (some ((P ++ [z]) ++ [y]) ++ c1 :: rest = some (P ++ [z]) ++ Some y :: c1 :: rest) as Heq by by rewrite some_app, <- app_assoc.
    rewrite Heq at 1. rewrite <- Hl1 at 1. rewrite cget_at. cbn [obind]. rewrite <- Hl2, copy_some by done. cbn [obind].
    assert (some ((P ++ [z]) ++ [y]) ++ Some y :: rest = some P ++ Some z :: Some y :: Some y :: rest) as Heq2 by by rewrite !some_app, <- !app_assoc.
    rewrite Heq2 at 1. rewrite <- Hl0 at 1. rewrite cget_at. cbn [obind cget lookup list_lookup oderef compare].
    rewrite reverse_snoc'. cbn [insert_from_end]. destruct (0 <? cmp z t) eqn:Hc.
    + assert (some ((P ++ [z]) ++ [y]) ++ Some y :: rest = some (P ++ [z]) ++ Some y :: Some y :: rest) as -> by by rewrite (some_app (P ++ [z])), <- app_assoc.
      rewrite (IH z y (Some y :: rest)). f_equal. rewrite (reverse_cons _ y), some_app, <- app_assoc. done.
    + assert (some ((P ++ [z]) ++ [y]) ++ Some y :: rest = some (P ++ [z]) ++ Some y :: Some y :: rest) as -> by by rewrite (some_app (P ++ [z])), <- app_assoc.
      rewrite <- Hl1. destruct (destroy_some (some (P ++ [z])) y (Some y :: rest)) as (c2 & -> & Hr2). cbn [obind cget lookup list_lookup oderef].
      rewrite copy_some by done. rewrite !reverse_cons, reverse_involutive, !some_app, <- !app_assoc. done.
Qed.

Context (Hisz : 0 < isz) (Hok : traits_ok T).

Lemma some_middle xs x ys : some (xs ++ x :: ys) = some xs ++ Some x :: some ys.
Proof. by rewrite some_app. Qed.

(** The last item of the part sorted so far is looked at, and the next item. *)
Lemma look_at (xs : list A) x R : xs ≠ [] → ∃ P y, sorted_part x.1 xs = P ++ [y] ∧ length P = (length xs - 1)%nat ∧
  cget (some (sorted_part x.1 xs) ++ Some x.2 :: R) (length xs) = Returned (Some (x.2 : A)) ∧
  cget (some (sorted_part x.1 xs) ++ Some x.2 :: R) (length xs - 1) = Returned (Some y).
Proof.
  intros Hne. pose proof (length_sorted_part x.1 xs) as Hl. destruct (sorted_part x.1 xs) as [|y P _] using rev_ind; [by destruct xs|].
  exists P, y. rewrite length_app in Hl. cbn in Hl. split; [done|]. split; [lia|]. split.
  - replace (length xs) with (length (some (P ++ [y]))) by (rewrite length_some, length_app; cbn; lia). apply cget_at.
  - rewrite some_app, <- app_assoc. replace (length xs - 1)%nat with (length (some P)) by (rewrite length_some; lia). apply cget_at.
Qed.

Lemma sorted_part_step cmp xs P y x : sorted_part cmp xs = P ++ [y] →
  sorted_part cmp (xs ++ [x]) = if 0 <? cmp y x then reverse (y :: insert_from_end cmp x (reverse P)) else P ++ [y; x].
Proof.
  intros Hs. rewrite sorted_part_snoc, Hs, reverse_snoc'. cbn [insert_from_end]. destruct (0 <? cmp y x); [done|].
  by rewrite !reverse_cons, reverse_involutive, <- app_assoc.
Qed.

Lemma shift_own cmp (m : memory) p b vs xs P y x R : owned T isz m p b vs → data b = some (sorted_part cmp xs) ++ Some x :: R → sorted_part cmp xs = P ++ [y] →
  (0 <? cmp y x) = true → ∃ m', upd p (shift_loop cmp (length P) [Some x]) m = Returned m' ∧
    owned T isz m' p (set_data b (some (sorted_part cmp (xs ++ [x])) ++ R)) vs ∧ keeps m m' vs ∧ answers m' = answers m.
Proof.
  intros Ho Hd Hs Hc. eapply own_upd; [exact Ho| |].
  - rewrite Hd, Hs, shift_ok, (sorted_part_step _ _ _ _ _ Hs), Hc. done.
  - rewrite Hd, !length_app, !length_some, !length_sorted_part, length_app. cbn. lia.
Qed.

Lemma set_temp (x : A) : ∃ t : cell, destroy_type T [Some x] 0 1 = Returned [t] ∧ room T [t].
Proof. destruct (destroy_some [] x []) as (d & Hd & Hr). by exists d. Qed.

Lemma owned_at (m : memory) p b vs : owned T isz m p b vs → sb_at p m = Returned b.
Proof. intros [_ Ha _ _ _]. unfold sb_at. by rewrite Ha. Qed.

(** The rest of the sort once the vector has its block for itself. *)
Lemma sort_owned cmp ys : ∀ xs (m : memory) p b vs rest c0 cnt, owned T isz m p b vs → data b = some (sorted_part cmp xs ++ ys) ++ rest → xs ≠ [] → plenty m →
  ∃ m' c b', sort_loop cmp (length ys) (length xs) (Some [Some c0]) (mkV p cnt) m = Returned (NO_ERROR, Some [Some c], (mkV p cnt, m')) ∧
    owned T isz m' p b' vs ∧ data b' = some (sorted_part cmp (xs ++ ys)) ++ rest ∧ keeps m m' vs ∧ plenty m'.
Proof.
  induction ys as [|x ys IH]; intros xs m p b vs rest c0 cnt Ho Hd Hne Hp.
  { exists m, c0, b. rewrite app_nil_r in *. by split_and!. }
  cbn [length sort_loop mStorage]. rewrite (owned_at _ _ _ _ Ho). cbn [obind]. rewrite some_middle, <- app_assoc in Hd. cbn [app] in Hd.
  destruct (look_at xs (cmp, x) (some ys ++ rest) Hne) as (P & y & Hs & HPl & H1 & H2). cbn [fst snd] in *. rewrite Hd, H1, H2.
  cbn [obind compare oderef]. assert (S (length xs) = length (xs ++ [x])) as HSl by (rewrite length_app; cbn; lia).
  destruct (0 <? cmp y x) eqn:Hc.
  - destruct (set_temp c0) as (t & Ht & Htr). rewrite Ht. cbn [obind fst snd mStorage]. rewrite (owned_at _ _ _ _ Ho). cbn [obind]. rewrite Hd, H1. cbn [obind].
    pose proof (copy_some [] t [] x Htr) as Hcp. cbn [length app] in Hcp. rewrite Hcp. cbn [obind]. rewrite <- HPl.
    destruct (shift_own cmp m p b vs xs P y x (some ys ++ rest) Ho Hd Hs Hc) as (m1 & -> & Ho1 & Hk1 & Ha1). cbn [obind]. rewrite HSl.
    destruct (IH (xs ++ [x]) m1 p _ vs rest x cnt Ho1) as (m2 & c & b2 & Hr & Ho2 & Hd2 & Hk2 & Hp2);
      [cbn [set_data data]; by rewrite some_app, <- app_assoc|by destruct xs|unfold plenty; by rewrite Ha1|].
    exists m2, c, b2. rewrite <- app_assoc in Hd2. split_and!; try done. by eapply keeps_trans.
  - rewrite HSl. destruct (IH (xs ++ [x]) m p b vs rest c0 cnt Ho) as (m2 & c & b2 & Hr & Ho2 & Hd2 & Hk2 & Hp2); [|by destruct xs|done|].
    + rewrite Hd, (sorted_part_step _ _ _ _ _ Hs), Hc, Hs, !some_app, <- !app_assoc. done.
    + exists m2, c, b2. rewrite <- app_assoc in Hd2. by split_and!.
Qed.

(** Before the first item out of order nothing is changed. *)
Lemma sort_shared cmp ys : ∀ xs (m : memory) v vs, wf T isz 0 m (v :: vs) → plenty m → contents m v = some (xs ++ ys) → xs ≠ [] → sorted_part cmp xs = xs →
  ∃ m' v' t, sort_loop cmp (length ys) (length xs) None v m = Returned (NO_ERROR, t, (v', m')) ∧ (t = None ∨ ∃ c, t = Some [Some c]) ∧
    wf T isz 0 m' (v' :: vs) ∧ contents m' v' = some (sorted_part cmp (xs ++ ys)) ∧ keeps m m' vs ∧ plenty m'.
Proof.
  induction ys as [|x ys IH]; intros xs m v vs Hw Hp Hc Hne Hso.
  { exists m, v, None. rewrite app_nil_r in *. rewrite Hso. split_and!; try done. by left. }
  assert (mStorage v ≠ 0) as Hv by (intros Hv; rewrite (contents_null T isz _ _ _ v Hw Hv) in Hc; by destruct xs).
  destruct (block_of T isz Hisz 0 m (v :: vs) v Hw ltac:(by left) Hv) as (b & rest & Hb & Hd & _ & _ & _ & _ & _).
  cbn [length sort_loop]. unfold sb_at at 1. rewrite Hb. cbn [oderef obind]. rewrite Hc, some_middle, <- app_assoc in Hd. cbn [app] in Hd.
  destruct (look_at xs (cmp, x) (some ys ++ rest) Hne) as (P & y & Hs & HPl & H1 & H2). cbn [fst snd] in *. rewrite Hso in H1, H2. rewrite Hd, H1, H2.
  cbn [obind compare oderef]. assert (S (length xs) = length (xs ++ [x])) as HSl by (rewrite length_app; cbn; lia).
  destruct (0 <? cmp y x) eqn:Hcm.
  - destruct (edit_ok T isz Hisz Hok m v vs Hw Hp Hv) as (p & m1 & b1 & rest1 & -> & Ho & Hd1 & Hr1 & _ & Hk1 & Hp1). cbn [obind fst snd].
    rewrite (proj2 (Z.eqb_neq _ _) (o_nz _ _ _ _ _ _ Ho)). destruct (answer_plenty m1 Hp1) as (m2 & Ham & Hh & Hp2). rewrite Ham. cbn [obind fst snd mStorage].
    assert (owned T isz m2 p b1 vs) as Ho2 by (destruct Ho as [[W1 W2 W3] ? ? ? ?]; split; try done; [split|]; rewrite ?Hh; done).
    assert (keeps m m2 vs) as Hk2 by (intros w Hw'; rewrite <- (Hk1 w Hw'); unfold contents; by rewrite Hh).
    rewrite (owned_at _ _ _ _ Ho2). cbn [obind]. rewrite Hc, some_middle, <- app_assoc in Hd1. cbn [app] in Hd1.
    destruct (look_at xs (cmp, x) (some ys ++ rest1) Hne) as (P' & y' & Hs' & _ & H1' & H2'). cbn [fst snd] in *. rewrite <- Hso in Hd1. rewrite Hd1, H1'. cbn [obind].
    pose proof (copy_some [] None [] x (room_replicate T 1)) as Hcp. cbn [length app] in Hcp. rewrite Hcp. cbn [obind]. rewrite <- HPl.
    destruct (shift_own cmp m2 p b1 vs xs P y x (some ys ++ rest1) Ho2 Hd1 Hs Hcm) as (m3 & -> & Ho3 & Hk3 & Ha3). cbn [obind]. rewrite HSl.
    destruct (sort_owned cmp ys (xs ++ [x]) m3 p _ vs rest1 x (mCount v) Ho3) as (m4 & c & b4 & -> & Ho4 & Hd4 & Hk4 & Hp4);
      [cbn [set_data data]; by rewrite some_app, <- app_assoc|by destruct xs|unfold plenty; by rewrite Ha3|].
    rewrite <- app_assoc in Hd4. cbn [app] in Hd4. destruct (count_ok T isz Hisz 0 m (v :: vs) v Hw ltac:(by left)) as [Hn _].
    destruct (close_with T isz m4 p b4 vs _ rest1 Ho4 Hd4 (items_some _) Hr1) as [Hw4 Hc4].
    assert (Z.of_nat (length (some (sorted_part cmp (xs ++ x :: ys)))) = mCount v) as Hcnt by (rewrite Hn, Hc, !length_some, length_sorted_part; done).
    rewrite Hcnt in *. exists m4, (mkV p (mCount v)), (Some [Some c]). split_and!; try done; [right; by eexists|].
    eapply keeps_trans; [|exact Hk4]. by eapply keeps_trans.
  - rewrite HSl. destruct (IH (xs ++ [x]) m v vs Hw Hp) as (m2 & v2 & t & Hr & Ht & Hw2 & Hc2 & Hk2 & Hp2); [by rewrite <- app_assoc|by destruct xs| |].
    + rewrite (sorted_part_step _ _ _ _ _ Hs), Hcm, <- Hso, Hs, <- app_assoc. done.
    + rewrite <- app_assoc in Hc2. exists m2, v2, t. by split_and!.
Qed.

Lemma sort_ok cmp xs (m : memory) v vs : wf T isz 0 m (v :: vs) → plenty m → contents m v = some xs →
  becomes T isz m vs (sort cmp v m) NO_ERROR (some (stable_sort cmp xs)).
Proof.
  intros Hw Hp Hc. unfold sort, size. destruct (count_ok T isz Hisz 0 m (v :: vs) v Hw ltac:(by left)) as [Hn _]. rewrite Hc, length_some in Hn.
  destruct (Z.ltb_spec 1 (mCount v)) as [H1|H1].
  - destruct xs as [|x xs]; [cbn in Hn; lia|]. destruct (sort_shared cmp xs [x] m v vs Hw Hp Hc) as (m' & v' & t & Hr & Ht & Hw' & Hc' & Hk' & Hp'); [done|done|].
    replace (Z.to_nat (mCount v - 1)) with (length xs) by (cbn in Hn; lia). cbn [length] in Hr. rewrite Hr. cbn [obind fst snd].
    destruct Ht as [-> | [c ->]]; cbn [obind]; [by exists v', m'|]. destruct (set_temp c) as (d & -> & _). cbn [obind]. by exists v', m'.
  - assert (stable_sort cmp xs = xs) as -> by (destruct xs as [|x [|]]; [done|done|cbn in Hn; lia]). rewrite <- Hc. by exists v, m.
Qed.

(** ** The sorted vector as a set *)

Section Search.
Context (cmp : A → A → Z) `{!Order cmp}.

Definition sorted (xs : list A) : Prop := StronglySorted (lt_by cmp) xs.

(** Where an item belongs: the smaller before it, the greater behind. *)
Definition splits (item : A) (before after : list A) : Prop := Forall (λ y, cmp y item < 0) before ∧ Forall (λ y, 0 < cmp y item) after.

Lemma sorted_app xs ys : sorted (xs ++ ys) ↔ sorted xs ∧ sorted ys ∧ ∀ x y, x ∈ xs → y ∈ ys → cmp x y < 0.
Proof.
  unfold sorted. induction xs as [|x xs IH]; cbn [app].
  - split; [|tauto]. intros H. split_and!; [constructor|done|]. by intros ? ? ?%not_elem_of_nil.
  - split.
    + intros [Hs Hf]%StronglySorted_inv. apply IH in Hs as (H1 & H2 & H3). rewrite Forall_app in Hf. destruct Hf as [Hf1 Hf2].
      split_and!; [by constructor|done|]. intros a y [->|Ha]%elem_of_cons Hy; [|by apply H3]. rewrite Forall_forall in Hf2. by apply Hf2.
    + intros (H1 & H2 & H3). apply StronglySorted_inv in H1 as [H1 Hf]. constructor.
      * apply IH. split_and!; [done|done|]. intros a y Ha Hy. apply H3; [by right|done].
      * apply Forall_app. split; [done|]. apply Forall_forall. intros y Hy. apply H3; [by left|done].
Qed.

(** An item at [k] that is smaller, or greater, than [item] puts those before, or
    behind, on the same side. *)
Lemma sorted_below xs k y item : sorted xs → xs !! k = Some y → cmp y item < 0 → Forall (λ z, cmp z item < 0) (take (S k) xs).
Proof.
  intros Hs Hk Hy. rewrite (take_S_r _ _ _ Hk). apply Forall_app. split; [|by apply Forall_singleton].
  rewrite <- (take_drop_middle _ _ _ Hk), sorted_app in Hs. destruct Hs as (_ & _ & H). apply Forall_forall. intros z Hz.
  eapply cmp_lt_le; [apply H; [done|left]|lia].
Qed.

Lemma sorted_above xs k y item : sorted xs → xs !! k = Some y → 0 < cmp y item → Forall (λ z, 0 < cmp z item) (drop k xs).
Proof.
  intros Hs Hk Hy. rewrite (drop_S _ _ _ Hk). rewrite <- (take_drop_middle _ _ _ Hk), sorted_app in Hs. destruct Hs as (_ & Hs & _).
  apply StronglySorted_inv in Hs as [_ Hf]. constructor; [done|]. eapply Forall_impl; [exact Hf|]. intros z Hz. apply cmp_flip.
  apply cmp_flip in Hy. eapply cmp_lt_le; [exact Hy|]. unfold lt_by in Hz. lia.
Qed.

(** The search keeps the smaller on its left and the greater on its right. *)
Lemma search_ok xs rest item n : ∀ l h, sorted xs → 0 ≤ l ≤ h + 1 → h < Z.of_nat (length xs) → h - l + 1 < Z.of_nat n →
  splits item (take (Z.to_nat l) xs) (drop (Z.to_nat (h + 1)) xs) →
  ∃ r o, search_loop cmp n l h (some xs ++ rest) item = Returned (r, Z.of_nat o) ∧ (o ≤ length xs)%nat ∧
    ((∃ y, r = Z.of_nat o ∧ xs !! o = Some y ∧ cmp y item = 0) ∨ (r = NAME_NOT_FOUND ∧ splits item (take o xs) (drop o xs))).
Proof.
  induction n as [|n IH]; intros l h Hs Hl Hh Hn Hsp; [lia|]. cbn [search_loop]. destruct (Z.leb_spec l h) as [Hlh|Hlh].
  2:{ exists NAME_NOT_FOUND, (Z.to_nat l). rewrite Z2Nat.id by lia. split; [done|]. split; [lia|]. right. split; [done|]. by replace (h + 1) with l in Hsp by lia. }
  set (mid := l + (h - l) / 2). assert (l ≤ mid ≤ h) as Hmid by (subst mid; Z.div_mod_to_equations; lia).
  destruct (lookup_lt_is_Some_2 xs (Z.to_nat mid)) as [y Hy]; [lia|].
  assert (cget (some xs ++ rest) (Z.to_nat mid) = Returned (Some y)) as ->.
  { unfold cget. rewrite lookup_app_l by (rewrite length_some; lia). unfold some. by rewrite list_lookup_fmap, Hy. }
  cbn [obind compare oderef]. destruct (Z.eqb_spec (cmp y item) 0) as [H0|H0].
  { exists mid, (Z.to_nat mid). rewrite Z2Nat.id by lia. split; [done|]. split; [lia|]. left. exists y. by split_and!; [lia| |]. }
  destruct (Z.ltb_spec (cmp y item) 0) as [Hc|Hc].
  - apply (IH (mid + 1) h); [done|lia|done|lia|]. split; [|apply Hsp]. replace (Z.to_nat (mid + 1)) with (S (Z.to_nat mid)) by lia. by eapply sorted_below.
  - apply (IH l (mid - 1)); [done|lia|lia|lia|]. split; [apply Hsp|]. replace (mid - 1 + 1) with mid by lia. eapply sorted_above; [done|done|lia].
Qed.

(** Adding to a sorted list. *)
Fixpoint sorted_add (item : A) (xs : list A) : list A :=
  match xs with
  | [] => [item]
  | y :: ys => if cmp y item <? 0 then y :: sorted_add item ys else if cmp y item =? 0 then item :: ys else item :: xs
  end.

Lemma sorted_add_new item xs ys : splits item xs ys → sorted_add item (xs ++ ys) = xs ++ item :: ys.
Proof.
  intros [H1 H2]. induction H1 as [|x xs Hx _ IH]; cbn [app sorted_add].
  - destruct H2 as [|y ys Hy _]; [done|]. cbn [sorted_add]. rewrite (proj2 (Z.ltb_ge _ _)), (proj2 (Z.eqb_neq _ _)) by lia. done.
  - by rewrite (proj2 (Z.ltb_lt _ _)), IH.
Qed.

Lemma sorted_add_old item xs y ys : Forall (λ z, cmp z item < 0) xs → cmp y item = 0 → sorted_add item (xs ++ y :: ys) = xs ++ item :: ys.
Proof.
  intros H1 Hy. induction H1 as [|x xs Hx _ IH]; cbn [app sorted_add].
  - by rewrite Hy.
  - by rewrite (proj2 (Z.ltb_lt _ _)), IH.
Qed.

Lemma sorted_before xs o y item : sorted xs → xs !! o = Some y → cmp y item = 0 → splits item (take o xs) (drop (S o) xs).
Proof.
  intros Hs Ho Hy. rewrite <- (take_drop_middle _ _ _ Ho), sorted_app in Hs. destruct Hs as (_ & Hs & H). apply StronglySorted_inv in Hs as [_ Hf]. split.
  - apply Forall_forall. intros z Hz. eapply cmp_lt_le; [apply H; [done|left]|lia].
  - eapply Forall_impl; [exact Hf|]. intros z Hz. apply cmp_flip. eapply cmp_le_lt; [|exact Hz]. by pose proof (cmp_le_not item y); destruct (decide (0 < cmp item y)) as [Hp%cmp_flip|]; lia.
Qed.

Lemma sorted_add_sorted item xs : sorted xs → sorted (sorted_add item xs).
Proof.
  induction 1 as [|y ys Hs IH Hf]; [repeat constructor|]. cbn [sorted_add]. destruct (Z.ltb_spec (cmp y item) 0) as [Hc|Hc].
  - constructor; [done|]. clear IH Hs. induction Hf as [|z ys Hz Hf IH]; cbn [sorted_add]; [by repeat constructor|].
    destruct (cmp z item <? 0); [by constructor|]. destruct (cmp z item =? 0); [by constructor|]. by repeat constructor.
  - assert (cmp item y ≤ 0) as Hiy by (destruct (decide (0 < cmp item y)) as [Hp%cmp_flip|]; lia).
    assert (Forall (lt_by cmp item) ys) as Hfi by (eapply Forall_impl; [exact Hf|]; intros z Hz; by eapply cmp_le_lt).
    destruct (Z.eqb_spec (cmp y item) 0) as [H0|H0]; [by constructor|]. constructor; [by constructor|]. constructor; [|done]. apply cmp_flip. lia.
Qed.

Lemma elem_sorted_add item xs z : sorted xs → z ∈ sorted_add item xs ↔ z = item ∨ (z ∈ xs ∧ cmp z item ≠ 0).
Proof.
  induction 1 as [|y ys Hs IH Hf]; [cbn; set_solver|]. cbn [sorted_add].
  assert (0 ≤ cmp y item → ∀ w, w ∈ ys → cmp w item ≠ 0) as Hgt.
  { intros H w Hw. rewrite Forall_forall in Hf. assert (0 < cmp w item) as Hw'; [|lia]. apply cmp_flip. eapply cmp_le_lt; [|by apply Hf].
    destruct (decide (0 < cmp item y)) as [Hp%cmp_flip|]; lia. }
  destruct (Z.ltb_spec (cmp y item) 0) as [Hc|Hc]; [|destruct (Z.eqb_spec (cmp y item) 0) as [H0|H0]]; rewrite !elem_of_cons.
  - rewrite IH. split; [intros [->|[->|[? ?]]]; auto with lia|]. intros [->|[[->|?] ?]]; auto.
  - split; [intros [->|Hz]; [by left|right; split; [by right|by apply Hgt]]|]. intros [->|[[->|Hz] Hne]]; [by left|done|by right].
  - split; [intros [->|[->|Hz]]; [by left|right; by split; [left|]|right; split; [by right|by apply Hgt]]|].
    intros [->|[[->|Hz] Hne]]; auto.
Qed.
Lemma array_ok q m vs v : wf T isz q m vs → v ∈ vs → ∃ rest, array_of v m = Returned (contents m v ++ rest).
Proof.
  intros Hw Hin. unfold array_of. destruct (Z.eqb_spec (mStorage v) 0) as [H0|H0].
  - rewrite (contents_null T isz _ _ _ _ Hw H0). by exists [].
  - destruct (block_of T isz Hisz _ _ _ _ Hw Hin H0) as (b & rest & Hb & Hd & _). unfold sb_at. rewrite Hb. cbn [oderef obind].
    exists rest. by rewrite Hd.
Qed.

Lemma index_ok m v vs xs item : wf T isz 0 m (v :: vs) → contents m v = some xs → sorted xs →
  ∃ r o, _indexOrderOf cmp item v m = Returned (r, Z.of_nat o) ∧ (o ≤ length xs)%nat ∧
    ((∃ y, r = Z.of_nat o ∧ xs !! o = Some y ∧ cmp y item = 0) ∨ (r = NAME_NOT_FOUND ∧ splits item (take o xs) (drop o xs))).
Proof.
  intros Hw Hc Hs. destruct (array_ok 0 m (v :: vs) v Hw ltac:(by left)) as [rest Ha]. unfold _indexOrderOf. rewrite Ha, Hc. cbn [obind].
  destruct (count_ok T isz Hisz 0 m (v :: vs) v Hw ltac:(by left)) as [Hn _]. rewrite Hc, length_some in Hn. unfold size.
  apply search_ok; [done|lia|lia|lia|]. split; [constructor|]. rewrite drop_ge by lia. constructor.
Qed.

Lemma some_take k xs : take k (some xs) = some (take k xs).
Proof. symmetry. apply fmap_take. Qed.
Lemma some_drop k xs : drop k (some xs) = some (drop k xs).
Proof. symmetry. apply fmap_drop. Qed.
Lemma some_insert k x xs : <[k := Some x]> (some xs) = some (<[k := x]> xs).
Proof. symmetry. apply list_fmap_insert. Qed.

Lemma fits_index n k : 0 ≤ k ≤ n → fits isz n → s32 k = k.
Proof. intros Hk [Hf _]. apply s32_small. lia. Qed.

Lemma add_item m v vs s x xs : wf T isz 0 m (v :: vs) → plenty m → contents m v = some xs → sorted xs → fits isz (mCount v + 1) →
  item_source T isz m vs s x → read_source s 1 m = Returned [Some x] →
  ∃ r, 0 ≤ r ∧ becomes T isz m vs (add cmp s v m) r (some (sorted_add x xs)).
Proof.
  intros Hw Hp Hc Hs Hf Hsrc Hrd. unfold add. rewrite Hrd. cbn [obind head oderef]. unfold default, id. cbn [oderef obind].
  destruct (count_ok T isz Hisz 0 m (v :: vs) v Hw ltac:(by left)) as [Hn _]. rewrite Hc, length_some in Hn.
  destruct (index_ok m v vs xs x Hw Hc Hs) as (r & o & Hi & Ho & [(y & -> & Hy & H0)|[-> Hsp]]); rewrite Hi; cbn [obind].
  - rewrite (proj2 (Z.ltb_ge _ _)) by lia. exists (Z.of_nat o). split; [lia|].
    pose proof (replaceAt_item T dflt isz Hisz Hok m v vs Hw Hp s x o Hsrc) as Hb. rewrite Hc, length_some in Hb.
    rewrite (fits_index (mCount v + 1)) in Hb by (done || lia). rewrite some_insert in Hb.
    assert (sorted_add x xs = <[o := x]> xs) as ->; [|apply Hb; by eapply lookup_lt_Some].
    destruct (sorted_before xs o y x Hs Hy H0) as [Hbef _]. rewrite insert_take_drop by by eapply lookup_lt_Some.
    rewrite <- (sorted_add_old x _ y _ Hbef H0). by rewrite take_drop_middle.
  - change (NAME_NOT_FOUND <? 0) with true. cbn iota. exists (Z.of_nat o). split; [lia|].
    pose proof (insertAt_item T dflt isz Hisz Hok m v vs Hw Hp s x 1 o Hsrc ltac:(lia)) as Hb. rewrite Hc, length_some in Hb.
    change (Z.of_nat 1) with 1 in Hb. rewrite (fits_index (mCount v + 1)) in Hb by (done || lia).
    rewrite some_take, some_drop in Hb. cbn [replicate app] in Hb. rewrite <- some_middle, <- (sorted_add_new x _ _ Hsp), take_drop in Hb. by apply Hb.
Qed.

Lemma remove_item m v vs item xs : wf T isz 0 m (v :: vs) → plenty m → contents m v = some xs → sorted xs → fits isz (mCount v) →
  ∃ r, becomes T isz m vs (remove cmp item v m) r (some (List.filter (λ y, negb (cmp y item =? 0)) xs)) ∧
    (0 ≤ r → ∃ y, xs !! Z.to_nat r = Some y ∧ cmp y item = 0) ∧ (r < 0 → r = NAME_NOT_FOUND ∧ ∀ y, y ∈ xs → cmp y item ≠ 0).
Proof.
  intros Hw Hp Hc Hs Hf. unfold remove, indexOf. destruct (count_ok T isz Hisz 0 m (v :: vs) v Hw ltac:(by left)) as [Hn _]. rewrite Hc, length_some in Hn.
  assert (∀ l, Forall (λ y, cmp y item < 0) l ∨ Forall (λ y, 0 < cmp y item) l → List.filter (λ y, negb (cmp y item =? 0)) l = l) as Hfil.
  { intros l [Hl|Hl]; induction Hl as [|y l Hy _ IH]; cbn; try done; rewrite (proj2 (Z.eqb_neq _ _)) by lia; cbn; by rewrite IH. }
  destruct (index_ok m v vs xs item Hw Hc Hs) as (r & o & Hi & Ho & [(y & -> & Hy & H0)|[-> [Hb Ha]]]); rewrite Hi; cbn [obind].
  - rewrite (proj2 (Z.leb_le _ _)) by lia. exists (Z.of_nat o). pose proof (lookup_lt_Some _ _ _ Hy) as Hlt.
    destruct (removeItemsAt_ok T isz Hisz Hok m v vs Hw Hp o 1) as (v' & m' & Hr & Hw' & Hc' & Hk' & Hp'); [rewrite Hc, length_some; lia|left; lia|done|].
    change (Z.of_nat 1) with 1 in Hr. rewrite Hr. cbn [obind]. split; [|split; [intros _; rewrite Nat2Z.id; by exists y|lia]].
    exists v', m'. split_and!; try done. rewrite Hc', Hc, some_take, some_drop, <- some_app, Nat.add_1_r. f_equal.
    destruct (sorted_before xs o y item Hs Hy H0) as [Hb Ha]. rewrite <- (take_drop_middle _ _ _ Hy) at 3. rewrite List.filter_app. cbn [List.filter].
    rewrite H0. cbn [Z.eqb negb]. by rewrite !Hfil by tauto.
  - exists NAME_NOT_FOUND. cbn [Z.leb NAME_NOT_FOUND]. change (0 <=? NAME_NOT_FOUND) with false. cbn iota.
    split; [|split; [done|intros _; split; [done|]]].
    + rewrite <- (take_drop o xs) at 1. rewrite List.filter_app, !Hfil, take_drop, <- Hc by tauto. by eexists _, _.
    + intros y. rewrite <- (take_drop o xs), elem_of_app. rewrite !Forall_forall in *. intros [Hy|Hy]; [specialize (Hb y Hy)|specialize (Ha y Hy)]; lia.
Qed.

(** An item of another vector. *)
Lemma vector_source m v vs w i y ys : wf T isz 0 m (v :: vs) → w ∈ vs → contents m w = some ys → ys !! i = Some y →
  item_source T isz m vs (Inside (mStorage w) i) y ∧ read_source (Inside (mStorage w) i) 1 m = Returned [Some y].
Proof.
  intros Hw Hin Hc Hy. assert (mStorage w ≠ 0) as Hw0.
  { intros H0. rewrite (contents_null T isz _ _ _ w Hw H0) in Hc. by destruct ys. }
  assert (∀ q m' vs', wf T isz q m' vs' → w ∈ vs' → contents m' w = some ys → read_source (Inside (mStorage w) i) 1 m' = Returned [Some y]) as Hrd.
  { intros q m' vs' Hw' Hin' Hc'. cbn [read_source]. rewrite <- (take_drop_middle _ _ _ Hy), some_middle in Hc'.
    pose proof (read_ok T isz q m' vs' w (some (take i ys)) [Some y] (some (drop (S i) ys)) Hw' Hin' Hc') as Hr. cbn [length] in Hr.
    rewrite length_some, length_take in Hr. rewrite Nat.min_l in Hr; [done|]. apply lookup_lt_Some in Hy. lia. }
  split; [split; [done|]|by eapply Hrd; [exact Hw|right|]]. intros p m' b Ho Hk. split.
  - eapply Hrd; [by destruct Ho|done|by rewrite Hk].
  - intros j. cbn [is_place]. destruct Ho as [Hwq _ _ _ _]. destruct (w_live _ _ _ _ _ Hwq w Hin Hw0) as [Hne _]. by rewrite (proj2 (Z.eqb_neq _ _)).
Qed.

Lemma length_sorted_add item xs : (length xs ≤ length (sorted_add item xs) ≤ S (length xs))%nat.
Proof. induction xs as [|y ys IH]; cbn; [lia|]. repeat case_match; cbn; lia. Qed.

Lemma merge_loop_ok w ys : ∀ i m v vs xs, wf T isz 0 m (v :: vs) → plenty m → w ∈ vs → contents m w = some ys → contents m v = some xs → sorted xs →
  fits isz (Z.of_nat (length xs + (length ys - i))) → (i ≤ length ys)%nat →
  becomes T isz m vs (merge_loop cmp w (length ys - i) i v m) NO_ERROR (some (fold_left (λ acc y, sorted_add y acc) (drop i ys) xs)).
Proof.
  intros i. remember (length ys - i)%nat as n eqn:Hn. revert i Hn. induction n as [|n IH]; intros i Hn m v vs xs Hw Hp Hin Hcw Hc Hs Hf Hi.
  { rewrite drop_ge by lia. cbn [fold_left merge_loop]. rewrite <- Hc. by exists v, m. }
  destruct (lookup_lt_is_Some_2 ys i) as [y Hy]; [lia|]. rewrite (drop_S _ _ _ Hy). cbn [fold_left merge_loop].
  destruct (count_ok T isz Hisz 0 m (v :: vs) v Hw ltac:(by left)) as [Hnv _]. rewrite Hc, length_some in Hnv.
  destruct (vector_source m v vs w i y ys Hw Hin Hcw Hy) as [Hsrc Hrd].
  destruct (add_item m v vs _ y xs Hw Hp Hc Hs ltac:(eapply (fits_le isz Hisz); [|exact Hf]; lia) Hsrc Hrd) as (r & Hr & v1 & m1 & -> & Hw1 & Hc1 & Hk1 & Hp1).
  cbn [obind fst snd]. rewrite (proj2 (Z.ltb_ge _ _)) by lia. pose proof (length_sorted_add y xs) as Hla.
  destruct (IH (S i) ltac:(lia) m1 v1 vs (sorted_add y xs)) as (v2 & m2 & -> & Hw2 & Hc2 & Hk2 & Hp2);
    [done|done|done|by rewrite Hk1|done|by apply sorted_add_sorted|eapply (fits_le isz Hisz); [|exact Hf]; lia|lia|].
  exists v2, m2. split_and!; try done. by eapply keeps_trans.
Qed.

End Search.

(** Sorting a vector of items with any total preorder answers that there was
    no error and leaves a permutation of the items in order, with items that
    compare equal in the order they had; a block that other vectors share is
    copied before it is changed, so that their items stay. *)
Theorem vector_sort cmp xs m v vs : Order cmp → wf T isz 0 m (v :: vs) → plenty m → contents m v = Some <$> xs →
  ∃ v' m' ys, sort cmp v m = Returned (NO_ERROR, (v', m')) ∧ contents m' v' = Some <$> ys ∧
    StronglySorted (le_by cmp) ys ∧ ys ≡ₚ xs ∧ (∀ z, List.filter (same_by cmp z) ys = List.filter (same_by cmp z) xs) ∧
    wf T isz 0 m' (v' :: vs) ∧ keeps m m' vs.
Proof.
  intros Hord Hw Hp Hc. destruct (sort_ok cmp xs m v vs Hw Hp Hc) as (v' & m' & Hs & Hw' & Hc' & Hk & _).
  exists v', m', (stable_sort cmp xs). split_and!; [done|done|apply stable_sort_sorted|apply stable_sort_perm|intros z; apply stable_sort_stable|done|done].
Qed.

(** A sorted vector is a set of items up to the comparison: the search finds
    the item exactly when one that compares equal is there; adding puts the item
    in its place, instead of the one that compares equal, and removing takes
    that one out; the vector stays sorted and other vectors keep their items. *)
Theorem sorted_vector_set cmp item xs m v vs : Order cmp → wf T isz 0 m (v :: vs) → plenty m → contents m v = Some <$> xs →
  StronglySorted (lt_by cmp) xs → fits isz (mCount v + 1) →
  (∃ r, indexOf cmp item v m = Returned r ∧
     ((∃ y, 0 ≤ r ∧ xs !! Z.to_nat r = Some y ∧ cmp y item = 0) ∨ (r = NAME_NOT_FOUND ∧ ∀ y, y ∈ xs → cmp y item ≠ 0))) ∧
  (∃ r v' m' ys, add cmp (Outside [item]) v m = Returned (r, (v', m')) ∧ 0 ≤ r ∧ contents m' v' = Some <$> ys ∧ StronglySorted (lt_by cmp) ys ∧
     (∀ z, z ∈ ys ↔ z = item ∨ (z ∈ xs ∧ cmp z item ≠ 0)) ∧ wf T isz 0 m' (v' :: vs) ∧ keeps m m' vs) ∧
  (∃ r v' m', remove cmp item v m = Returned (r, (v', m')) ∧ contents m' v' = Some <$> List.filter (λ y, negb (cmp y item =? 0)) xs ∧
     wf T isz 0 m' (v' :: vs) ∧ keeps m m' vs).
Proof.
  intros Hord Hw Hp Hc Hs Hf. split_and!.
  - destruct (index_ok cmp m v vs xs item Hw Hc Hs) as (r & o & Hi & Ho & Hcase). unfold indexOf. rewrite Hi. cbn [obind]. exists r. split; [done|].
    destruct Hcase as [(y & -> & Hy & H0)|[-> [Hb Ha]]]; [left; exists y; rewrite Nat2Z.id; by split_and!; [lia| |]|]. right. split; [done|].
    intros y. rewrite <- (take_drop o xs), elem_of_app. rewrite !Forall_forall in *. intros [Hy|Hy]; [specialize (Hb y Hy)|specialize (Ha y Hy)]; lia.
  - destruct (add_item cmp m v vs (Outside [item]) item xs Hw Hp Hc Hs Hf) as (r & Hr & v' & m' & Ha & Hw' & Hc' & Hk & _); [apply outside_source|done|].
    exists r, v', m', (sorted_add cmp item xs). split_and!; [done|done|done|by apply sorted_add_sorted|intros z; by apply elem_sorted_add|done|done].
  - destruct (remove_item cmp m v vs item xs Hw Hp Hc Hs) as (r & (v' & m' & Hr & Hw' & Hc' & Hk & _) & _).
    { eapply (fits_le isz Hisz); [|exact Hf]. destruct (count_ok T isz Hisz 0 m (v :: vs) v Hw ltac:(by left)) as [Hn _]. lia. }
    by exists r, v', m'.
Qed.

(** Merging any other vector adds its items one after the other: the items
    are those of both, and of two that compare equal the one that came last;
    the vector stays sorted. *)
Theorem merge_vector_adds cmp w xs ys m v vs : Order cmp → wf T isz 0 m (v :: vs) → plenty m → w ∈ vs →
  contents m w = Some <$> ys → contents m v = Some <$> xs → StronglySorted (lt_by cmp) xs → fits isz (Z.of_nat (length xs + length ys)) →
  ∃ v' m', merge_vector cmp w v m = Returned (NO_ERROR, (v', m')) ∧
    contents m' v' = Some <$> fold_left (λ acc y, sorted_add cmp y acc) ys xs ∧
    StronglySorted (lt_by cmp) (fold_left (λ acc y, sorted_add cmp y acc) ys xs) ∧ wf T isz 0 m' (v' :: vs) ∧ keeps m m' vs.
Proof.
  intros Hord Hw Hp Hin Hcw Hc Hs Hf. destruct (count_ok T isz Hisz 0 m (v :: vs) w Hw ltac:(by right)) as [Hn _].
  rewrite Hcw, length_fmap in Hn.
  assert (∀ l acc, StronglySorted (lt_by cmp) acc → StronglySorted (lt_by cmp) (fold_left (λ acc y, sorted_add cmp y acc) l acc)) as Hso.
  { induction l as [|y l IH]; intros acc Ha; [done|]. cbn. by apply IH, sorted_add_sorted. }
  unfold merge_vector, size. destruct (Z.eqb_spec (mCount w) 0) as [H0|H0].
  - destruct ys; [|cbn in Hn; lia]. exists v, m. by split_and!.
  - destruct (merge_loop_ok cmp w ys 0 m v vs xs Hw Hp Hin Hcw Hc Hs) as (v' & m' & Hr & Hw' & Hc' & Hk & _); [by rewrite Nat.sub_0_r|lia|].
    rewrite Nat.sub_0_r in Hr. rewrite Hn, Nat2Z.id, Hr. exists v', m'. split_and!; try done. by apply Hso.
Qed.

End Sorted.

(** ** Programs *)

#[export] Instance Z_sub_order : Order Z.sub.
Proof. split; lia. Qed.

(** Two vectors with items. *)
Definition filled_two : world (A := Z) :=
  match run_calls objects 0 4 [CInsert 0 2 0 1; CInsert 0 5 1 1; CInsert 1 3 0 2] two with Returned (_, w) => w | _ => two end.
Definition first_v : VectorImpl := default null_vector (filled_two.1 !! 0%nat).
Definition second_v : VectorImpl := default null_vector (filled_two.1 !! 1%nat).

Lemma objects_ok : traits_ok objects.
Proof. done. Qed.

Lemma filled_good : wf objects 4 0 filled_two.2 [first_v; second_v] ∧ plenty filled_two.2.
Proof.
  pose proof (run_good objects 0 4 ltac:(lia) objects_ok) as Hstep.
  pose proof (reach_good objects 0 4 ltac:(lia) objects_ok two two_reached) as H0.
  eassert (good objects 4 _) as H1.
  { eapply (Hstep (CInsert 0 2 0 1)); [exact H0| |vm_compute; reflexivity]. exists null_vector, []. unfold fits, kMinVectorCapacity, sizeof_SharedBuffer. cbn. split_and!; try done; lia. }
  eassert (good objects 4 _) as H2.
  { eapply (Hstep (CInsert 0 5 1 1)); [exact H1| |vm_compute; reflexivity]. eexists _, _. unfold fits, kMinVectorCapacity, sizeof_SharedBuffer. cbn. split_and!; try done; cbn; lia. }
  eassert (good objects 4 _) as H3.
  { eapply (Hstep (CInsert 1 3 0 2)); [exact H2| |vm_compute; reflexivity]. eexists _, _. unfold fits, kMinVectorCapacity, sizeof_SharedBuffer. cbn. split_and!; try done; cbn; lia. }
  exact H3.
Qed.

Lemma vector_sort_witness : ∃ v' m' ys, sort objects 4 Z.sub first_v filled_two.2 = Returned (NO_ERROR, (v', m')) ∧ contents m' v' = Some <$> ys ∧
  StronglySorted (le_by Z.sub) ys ∧ ys ≡ₚ [2; 5] ∧ (∀ z, List.filter (same_by Z.sub z) ys = List.filter (same_by Z.sub z) [2; 5]) ∧
  wf objects 4 0 m' [v'; second_v] ∧ keeps filled_two.2 m' [second_v].
Proof. apply (vector_sort objects 4 ltac:(lia) objects_ok Z.sub [2; 5] filled_two.2 first_v [second_v] Z_sub_order); [apply filled_good|apply filled_good|by vm_compute]. Defined.

Lemma sorted_two : StronglySorted (lt_by Z.sub) [2; 5].
Proof. repeat constructor. Qed.

Lemma sorted_vector_set_witness : ∃ r, indexOf Z.sub 5 first_v filled_two.2 = Returned r ∧
  ((∃ y, 0 ≤ r ∧ [2; 5] !! Z.to_nat r = Some y ∧ y - 5 = 0) ∨ (r = NAME_NOT_FOUND ∧ ∀ y, y ∈ [2; 5] → y - 5 ≠ 0)).
Proof.
  apply (sorted_vector_set objects 0 4 ltac:(lia) objects_ok Z.sub 5 [2; 5] filled_two.2 first_v [second_v] Z_sub_order);
    [apply filled_good|apply filled_good|by vm_compute|apply sorted_two|by vm_compute].
Defined.

Lemma merge_vector_adds_witness : ∃ v' m', merge_vector objects 0 4 Z.sub second_v first_v filled_two.2 = Returned (NO_ERROR, (v', m')) ∧
  contents m' v' = Some <$> [2; 3; 5] ∧ StronglySorted (lt_by Z.sub) [2; 3; 5] ∧ wf objects 4 0 m' [v'; second_v] ∧ keeps filled_two.2 m' [second_v].
Proof.
  apply (merge_vector_adds objects 0 4 ltac:(lia) objects_ok Z.sub second_v [2; 5] [3; 3] filled_two.2 first_v [second_v] Z_sub_order);
    [apply filled_good|apply filled_good|by left|by vm_compute|by vm_compute|apply sorted_two|by vm_compute].
Defined.

(** Merging a sorted vector into one without a block compares with an item
    that is not there; and when the last item of it compares equal to the first
    item here, or the first to the last, both stay in the vector. *)
Theorem merge_sorted_edges :
  (let! (_, w) := run_calls objects 0 4 [CInsert 1 3 0 1] two in
   let! v := oderef (w.1 !! 0%nat) in let! u := oderef (w.1 !! 1%nat) in merge objects 0 4 Z.sub u v w.2) = Undefined ∧
  (let! (_, w) := run_calls objects 0 4 [CInsert 0 2 0 1; CInsert 0 3 1 1; CInsert 1 1 0 1; CInsert 1 2 1 1] two in
   let! v := oderef (w.1 !! 0%nat) in let! u := oderef (w.1 !! 1%nat) in
   let! (r, vm) := merge objects 0 4 Z.sub u v w.2 in Returned (r, contents vm.2 vm.1)) = Returned (0, [Some 1; Some 2; Some 2; Some 3]).
Proof. by vm_compute. Qed.

End SV.
