(* ===== verification/Unicode.v ===== *)
(** The conversions between UTF-8, UTF-16 and UTF-32 and the strings of 16-bit
    units of [utils/Unicode.cpp].  A pointer is the list of what lies from it to the
    end of the memory it points into; reading past that end is undefined.  What a
    function writes is returned as a list.  Whether [char] is signed is up to the
    compiler, and an argument where it matters. *)

From S2P Require Import Prelude.

Module UC.

(** A [char] as an [int]. *)
Definition char_value (signed : bool) (b : Z) : Z := if signed && (0x80 <=? b) then b - 256 else b.

Definition kByteMask : Z := 0x000000BF.
Definition kByteMark : Z := 0x00000080.
Definition kUnicodeSurrogateStart : Z := 0x0000D800.
Definition kUnicodeSurrogateEnd : Z := 0x0000DFFF.
Definition kUnicodeMaxCodepoint : Z := 0x0010FFFF.
Definition kFirstByteMark : list Z := [0x00000000; 0x00000000; 0x000000C0; 0x000000E0; 0x000000F0].

(** ** UTF-32 *)

Definition utf32_codepoint_utf8_length (srcChar : Z) : Z :=
  if srcChar <? 0x00000080 then 1
  else if srcChar <? 0x00000800 then 2
  else if srcChar <? 0x00010000
  then if (srcChar <? kUnicodeSurrogateStart) || (kUnicodeSurrogateEnd <? srcChar) then 3 else 0
  else if srcChar <=? kUnicodeMaxCodepoint then 4 else 0.

(** The cases of the [switch] fall through: [bytes] cells, the last one first. *)
Fixpoint put_bytes (bytes : nat) (srcChar mark : Z) : list Z :=
  match bytes with
  | O => []
  | S bytes' =>
      match bytes' with
      | O => [u8 (Z.lor srcChar mark)]
      | S _ => put_bytes bytes' (Z.shiftr srcChar 6) mark ++ [u8 (Z.land (Z.lor srcChar kByteMark) kByteMask)]
      end
  end.
Definition utf32_codepoint_to_utf8 (srcChar bytes : Z) : list Z :=
  put_bytes (Z.to_nat bytes) srcChar (default 0 (kFirstByteMark !! Z.to_nat bytes)).

(** [strlen32], and [strlen16] in the same words. *)
Fixpoint strlen32_loop (ss : list Z) (n : Z) : outcome Z :=
  match ss with [] => Undefined | c :: ss' => if c =? 0 then Returned n else strlen32_loop ss' (n + 1) end.
Definition strlen32 (s : list Z) : outcome Z := strlen32_loop s 0.
Definition strlen16 (s : list Z) : outcome Z := strlen32_loop s 0.

Fixpoint strnlen32_loop (maxlen : nat) (ss : list Z) (n : Z) : outcome Z :=
  match maxlen with
  | O => Returned n
  | S maxlen' =>
      match ss with [] => Undefined | c :: ss' => if c =? 0 then Returned n else strnlen32_loop maxlen' ss' (n + 1) end
  end.
Definition strnlen32 (s : list Z) (maxlen : Z) : outcome Z := strnlen32_loop (Z.to_nat maxlen) s 0.
Definition strnlen16 (s : list Z) (maxlen : Z) : outcome Z := strnlen32_loop (Z.to_nat maxlen) s 0.

(** The [for] of [utf32_at_internal]: the number of bytes, the mask and the bits. *)
Fixpoint utf32_at_loop (first_char : Z) (cur : list Z) (num_to_read mask to_ignore_mask utf32 : Z) : outcome (Z * Z * Z) :=
  if Z.land first_char mask =? 0 then Returned (num_to_read, Z.lor to_ignore_mask mask, utf32)
  else match cur with
       | [] => Undefined
       | b :: cur' =>
           utf32_at_loop first_char cur' (num_to_read + 1) (Z.shiftr mask 1) (Z.lor to_ignore_mask mask)
             (u32 (u32 (Z.shiftl utf32 6) + Z.land b 0x3F))
       end.

(** [utf32_at_internal]: the code point and [*num_read].  A shift by the width of
    the type is undefined. *)
Definition utf32_at_internal (signed : bool) (cur : list Z) : outcome (Z * Z) :=
  match cur with
  | [] => Undefined
  | b :: cur' =>
      let first_char := char_value signed b in
      if Z.land first_char 0x80 =? 0 then Returned (first_char, 1)
      else let! (num_to_read, to_ignore_mask, utf32) :=
             utf32_at_loop first_char cur' 1 0x40 0xFFFFFF80 (u32 first_char) in
           let shift := 6 * (num_to_read - 1) in
           if 32 <=? shift then Undefined
           else Returned (s32 (Z.land utf32 (Z.lnot (u32 (Z.shiftl to_ignore_mask shift)))), num_to_read)
  end.

(** [utf32_from_utf8_at]: the result, and [*next_index] when it is set. *)
Definition utf32_from_utf8_at (signed : bool) (src : list Z) (src_len index : Z) : outcome (Z * option Z) :=
  if src_len <=? index then Returned (-1, None)
  else let! (ret, num_read) := utf32_at_internal signed (drop (Z.to_nat index) src) in
       Returned (ret, if 0 <=? ret then Some (u32 (index + num_read)) else None).

Fixpoint utf32_to_utf8_length_loop (left : nat) (src : list Z) (ret : Z) : outcome Z :=
  match left with
  | O => Returned ret
  | S left' =>
      match src with
      | [] => Undefined
      | c :: src' => utf32_to_utf8_length_loop left' src' (u32 (ret + utf32_codepoint_utf8_length c))
      end
  end.
Definition utf32_to_utf8_length (src : option (list Z)) (src_len : Z) : outcome Z :=
  match src with
  | None => Returned (-1)
  | Some src =>
      if src_len =? 0 then Returned (-1)
      else let! ret := utf32_to_utf8_length_loop (Z.to_nat src_len) src 0 in Returned (s32 ret)
  end.

Fixpoint utf32_to_utf8_loop (left : nat) (cur_utf32 cur : list Z) : outcome (list Z) :=
  match left with
  | O => Returned (cur ++ [0])
  | S left' =>
      match cur_utf32 with
      | [] => Undefined
      | c :: cur_utf32' =>
          let len := utf32_codepoint_utf8_length c in
          utf32_to_utf8_loop left' cur_utf32' (cur ++ utf32_codepoint_to_utf8 c len)
      end
  end.
(** The bytes written to [dst], which is not [NULL]. *)
Definition utf32_to_utf8 (src : option (list Z)) (src_len : Z) : outcome (list Z) :=
  match src with
  | None => Returned []
  | Some src => if src_len =? 0 then Returned [] else utf32_to_utf8_loop (Z.to_nat src_len) src []
  end.

(** ** UTF-16 *)

Fixpoint strcmp16 (s1 s2 : list Z) : outcome Z :=
  match s1, s2 with
  | ch :: s1', c2 :: s2' => let d := ch - c2 in if negb (d =? 0) || (ch =? 0) then Returned d else strcmp16 s1' s2'
  | _, _ => Undefined
  end.

Fixpoint strncmp16_loop (n : nat) (s1 s2 : list Z) : outcome Z :=
  match n with
  | O => Returned 0
  | S n' =>
      match s1, s2 with
      | ch :: s1', c2 :: s2' =>
          let d := ch - c2 in if negb (d =? 0) || (ch =? 0) then Returned d else strncmp16_loop n' s1' s2'
      | _, _ => Undefined
      end
  end.
Definition strncmp16 (s1 s2 : list Z) (n : Z) : outcome Z := strncmp16_loop (Z.to_nat n) s1 s2.

(** The units that [strcpy16] writes. *)
Fixpoint strcpy16_loop (p q : list Z) : outcome (list Z) :=
  match p with [] => Undefined | ch :: p' => if ch =? 0 then Returned (q ++ [ch]) else strcpy16_loop p' (q ++ [ch]) end.
Definition strcpy16 (src : list Z) : outcome (list Z) := strcpy16_loop src [].

(** [strncpy16]: the variable [ch] it copies through is a [char]. *)
Fixpoint strncpy16_loop (signed : bool) (n : nat) (p q : list Z) : outcome (list Z) :=
  match n with
  | O => Returned (q ++ [0])
  | S n' =>
      match p with
      | [] => Undefined
      | u :: p' =>
          let ch := char_value signed (u8 u) in
          let q := q ++ [u16 ch] in
          if ch =? 0 then Returned (q ++ [0]) else strncpy16_loop signed n' p' q
      end
  end.
Definition strncpy16 (signed : bool) (src : list Z) (n : Z) : outcome (list Z) := strncpy16_loop signed (Z.to_nat n) src [].

(** The loop of [strzcmp16] and what it returns; [conv] is what is done to a unit of
    the second string. *)
Fixpoint strzcmp16_loop (conv : Z → Z) (n1 n2 : nat) (s1 s2 : list Z) : outcome Z :=
  match n1, n2 with
  | S n1', S n2' =>
      match s1, s2 with
      | c1 :: s1', c2 :: s2' =>
          let d := c1 - conv c2 in if negb (d =? 0) then Returned d else strzcmp16_loop conv n1' n2' s1' s2'
      | _, _ => Undefined
      end
  | O, S _ => match s2 with c2 :: _ => Returned (0 - conv c2) | [] => Undefined end
  | S _, O => match s1 with c1 :: _ => Returned (c1 - 0) | [] => Undefined end
  | O, O => Returned 0
  end.
Definition strzcmp16 (s1 : list Z) (n1 : Z) (s2 : list Z) (n2 : Z) : outcome Z :=
  strzcmp16_loop (λ c, c) (Z.to_nat n1) (Z.to_nat n2) s1 s2.

(** The byte order of the network, on a little-endian machine. *)
Definition ntohs (x : Z) : Z := Z.lor (Z.land (Z.shiftl x 8) 0xff00) (Z.land (Z.shiftr x 8) 255).
Definition strzcmp16_h_n (s1H : list Z) (n1 : Z) (s2N : list Z) (n2 : Z) : outcome Z :=
  strzcmp16_loop ntohs (Z.to_nat n1) (Z.to_nat n2) s1H s2N.

Definition high (u : Z) : bool := Z.land u 0xFC00 =? 0xD800.
Definition low (u : Z) : bool := Z.land u 0xFC00 =? 0xDC00.
Definition pair_codepoint (h l : Z) : Z :=
  u32 (Z.lor (Z.shiftl (h - 0xD800) 10) (l - 0xDC00) + 0x10000).

Fixpoint utf16_to_utf8_loop (left : nat) (cur_utf16 cur : list Z) : outcome (list Z) :=
  let put c := cur ++ utf32_codepoint_to_utf8 c (utf32_codepoint_utf8_length c) in
  match left with
  | O => Returned (cur ++ [0])
  | S left1 =>
      match cur_utf16 with
      | [] => Undefined
      | u :: p1 =>
          match left1 with
          | S left2 =>
              if high u
              then match p1 with
                   | [] => Undefined
                   | v :: p2 =>
                       if low v then utf16_to_utf8_loop left2 p2 (put (pair_codepoint u v))
                       else utf16_to_utf8_loop left1 p1 (put u)
                   end
              else utf16_to_utf8_loop left1 p1 (put u)
          | O => utf16_to_utf8_loop left1 p1 (put u)
          end
      end
  end.
(** The bytes written to [dst], which is not [NULL]. *)
Definition utf16_to_utf8 (src : option (list Z)) (src_len : Z) : outcome (list Z) :=
  match src with
  | None => Returned []
  | Some src => if src_len =? 0 then Returned [] else utf16_to_utf8_loop (Z.to_nat src_len) src []
  end.

(** The test of a pair moves [src], also when it fails at the second unit. *)
Fixpoint utf16_to_utf8_length_loop (left : nat) (src : list Z) (ret : Z) : outcome Z :=
  match left with
  | O => Returned ret
  | S left1 =>
      match src with
      | [] => Undefined
      | u :: p1 =>
          match left1 with
          | S left2 =>
              if high u
              then match p1 with
                   | [] => Undefined
                   | v :: p2 =>
                       if low v then utf16_to_utf8_length_loop left2 p2 (u32 (ret + 4))
                       else utf16_to_utf8_length_loop left2 p2 (u32 (ret + utf32_codepoint_utf8_length v))
                   end
              else utf16_to_utf8_length_loop left1 p1 (u32 (ret + utf32_codepoint_utf8_length u))
          | O => utf16_to_utf8_length_loop left1 p1 (u32 (ret + utf32_codepoint_utf8_length u))
          end
      end
  end.
Definition utf16_to_utf8_length (src : option (list Z)) (src_len : Z) : outcome Z :=
  match src with
  | None => Returned (-1)
  | Some src =>
      if src_len =? 0 then Returned (-1)
      else let! ret := utf16_to_utf8_length_loop (Z.to_nat src_len) src 0 in Returned (s32 ret)
  end.

(** ** UTF-8 *)

(** The [for] of [utf8_length] over the bytes behind the first: [None] for a byte that
    does not belong there. *)
Fixpoint utf8_length_tail (first_char : Z) (cur : list Z) (num_to_read mask to_ignore_mask utf32 : Z) :
    outcome (option (Z * Z * Z * list Z)) :=
  if (num_to_read <? 5) && negb (Z.land first_char mask =? 0)
  then match cur with
       | [] => Undefined
       | b :: cur' =>
           if negb (Z.land b 0xC0 =? 0x80) then Returned None
           else utf8_length_tail first_char cur' (num_to_read + 1) (Z.shiftr mask 1) (Z.lor to_ignore_mask mask)
                  (u32 (u32 (Z.shiftl utf32 6) + Z.land b 0x3F))
       end
  else Returned (Some (num_to_read, Z.lor to_ignore_mask mask, utf32, cur)).

(** The loop of [utf8_length], for at most [fuel] characters; [None] when it does not
    end.  Without [signed] no bit above the eighth is set. *)
Fixpoint utf8_length_loop (signed : bool) (fuel : nat) (cur : list Z) (ret : Z) : option (outcome Z) :=
  match cur with
  | [] => Some Undefined
  | b :: cur' =>
      if b =? 0 then Some (Returned (s32 ret))
      else match fuel with
           | O => None
           | S fuel =>
               let first_char := char_value signed b in
               if Z.land first_char 0x80 =? 0 then utf8_length_loop signed fuel cur' (u32 (ret + 1))
               else if Z.land first_char 0x40 =? 0 then Some (Returned (-1))
               else match utf8_length_tail first_char cur' 1 0x40 0x80 0 with
                    | Returned (Some (num_to_read, to_ignore_mask, utf32, cur')) =>
                        if num_to_read =? 5 then Some (Returned (-1))
                        else let bits := Z.land (Z.lnot to_ignore_mask) first_char in
                             let utf32 := Z.lor utf32 (u32 (Z.shiftl bits (6 * (num_to_read - 1)))) in
                             if kUnicodeMaxCodepoint <? utf32 then Some (Returned (-1))
                             else utf8_length_loop signed fuel cur' (u32 (ret + num_to_read))
                    | Returned None => Some (Returned (-1))
                    | Exited => Some Exited
                    | Undefined => Some Undefined
                    end
           end
  end.
Definition utf8_length (signed : bool) (src : list Z) : option (outcome Z) := utf8_length_loop signed (length src) src 0.

Definition utf8_codepoint_len (ch : Z) : Z := Z.land (Z.shiftr 0xe5000000 (Z.land (Z.shiftr ch 3) 0x1e)) 3 + 1.
Definition utf8_shift_and_mask (codePoint byte : Z) : Z := Z.lor (u32 (Z.shiftl codePoint 6)) (Z.land 0x3F byte).

(** The inner [for] of [utf8_to_utf32_length]: [mask] has lost its bit after seven turns. *)
Fixpoint num_to_skip_loop (turns : nat) (first_char mask num_to_skip : Z) : Z :=
  match turns with
  | O => num_to_skip
  | S turns' =>
      if Z.land first_char mask =? 0 then num_to_skip
      else num_to_skip_loop turns' first_char (Z.shiftr mask 1) (num_to_skip + 1)
  end.
Definition num_to_skip (b : Z) : Z := if Z.land b 0x80 =? 0 then 1 else num_to_skip_loop 7 b 0x40 1.

Fixpoint utf8_to_utf32_length_loop (fuel : nat) (cur : list Z) (left ret : Z) : option (outcome Z) :=
  if left <=? 0 then Some (Returned ret)
  else match fuel, cur with
       | O, _ => None
       | S _, [] => Some Undefined
       | S fuel, b :: _ =>
           utf8_to_utf32_length_loop fuel (drop (Z.to_nat (num_to_skip b)) cur) (left - num_to_skip b) (u32 (ret + 1))
       end.
Definition utf8_to_utf32_length (src : option (list Z)) (src_len : Z) : option (outcome Z) :=
  match src with
  | None => Some (Returned 0)
  | Some src => if src_len =? 0 then Some (Returned 0) else utf8_to_utf32_length_loop (Z.to_nat src_len) src src_len 0
  end.

Fixpoint utf8_to_utf32_loop (signed : bool) (fuel : nat) (cur : list Z) (left : Z) (cur_utf32 : list Z) : option (outcome (list Z)) :=
  if left <=? 0 then Some (Returned (cur_utf32 ++ [0]))
  else match fuel with
       | O => None
       | S fuel =>
           match utf32_at_internal signed cur with
           | Returned (c, num_read) =>
               utf8_to_utf32_loop signed fuel (drop (Z.to_nat num_read) cur) (left - num_read) (cur_utf32 ++ [u32 c])
           | Exited => Some Exited
           | Undefined => Some Undefined
           end
       end.
(** The units written to [dst], which is not [NULL]. *)
Definition utf8_to_utf32 (signed : bool) (src : option (list Z)) (src_len : Z) : option (outcome (list Z)) :=
  match src with
  | None => Some (Returned [])
  | Some src => if src_len =? 0 then Some (Returned []) else utf8_to_utf32_loop signed (Z.to_nat src_len) src src_len []
  end.

Definition utf8_to_utf32_codepoint (src : list Z) (len : Z) : outcome Z :=
  let read i k := let! b := oderef (src !! i) in k b in
  if len =? 1 then read 0%nat (λ b0, Returned b0)
  else if len =? 2 then
    read 0%nat (λ b0, read 1%nat (λ b1, Returned (utf8_shift_and_mask (Z.land b0 0x1f) b1)))
  else if len =? 3 then
    read 0%nat (λ b0, read 1%nat (λ b1, read 2%nat (λ b2,
      Returned (utf8_shift_and_mask (utf8_shift_and_mask (Z.land b0 0x0f) b1) b2))))
  else if len =? 4 then
    read 0%nat (λ b0, read 1%nat (λ b1, read 2%nat (λ b2, read 3%nat (λ b3,
      Returned (utf8_shift_and_mask (utf8_shift_and_mask (utf8_shift_and_mask (Z.land b0 0x07) b1) b2) b3)))))
  else Returned 0xffff.

(** A character at a pointer, as the three loops below read it: the code point and the
    number of bytes. *)
Definition utf8_char (u8cur : list Z) : outcome (Z * Z) :=
  let! ch := oderef (head u8cur) in
  let! codepoint := utf8_to_utf32_codepoint u8cur (utf8_codepoint_len ch) in
  Returned (codepoint, utf8_codepoint_len ch).

Fixpoint utf8_to_utf16_length_loop (fuel : nat) (u8cur : list Z) (left u16measuredLen : Z) : option (outcome Z) :=
  if left <=? 0 then Some (Returned (if left =? 0 then s32 u16measuredLen else -1))
  else match fuel with
       | O => None
       | S fuel =>
           match utf8_char u8cur with
           | Returned (codepoint, u8charLen) =>
               let u16measuredLen := u32 (u16measuredLen + 1) in
               utf8_to_utf16_length_loop fuel (drop (Z.to_nat u8charLen) u8cur) (left - u8charLen)
                 (if 0xFFFF <? codepoint then u32 (u16measuredLen + 1) else u16measuredLen)
           | Exited => Some Exited
           | Undefined => Some Undefined
           end
       end.
Definition utf8_to_utf16_length (u8str : list Z) (u8len : Z) : option (outcome Z) :=
  utf8_to_utf16_length_loop (Z.to_nat u8len) u8str u8len 0.

(** The two units of a code point above [0xFFFF]. *)
Definition lead_unit (codepoint : Z) : Z := u16 (Z.shiftr (u32 (codepoint - 0x10000)) 10 + 0xD800).
Definition trail_unit (codepoint : Z) : Z := u16 (Z.land (u32 (codepoint - 0x10000)) 0x3FF + 0xDC00).

Fixpoint utf8_to_utf16_loop (fuel : nat) (u8cur : list Z) (left : Z) (u16cur : list Z) : option (outcome (list Z)) :=
  if left <=? 0 then Some (Returned u16cur)
  else match fuel with
       | O => None
       | S fuel =>
           match utf8_char u8cur with
           | Returned (codepoint, u8len) =>
               utf8_to_utf16_loop fuel (drop (Z.to_nat u8len) u8cur) (left - u8len)
                 (if codepoint <=? 0xFFFF then u16cur ++ [u16 codepoint]
                  else u16cur ++ [lead_unit codepoint; trail_unit codepoint])
           | Exited => Some Exited
           | Undefined => Some Undefined
           end
       end.
Definition utf8_to_utf16_no_null_terminator (u8str : list Z) (u8len : Z) : option (outcome (list Z)) :=
  utf8_to_utf16_loop (Z.to_nat u8len) u8str u8len [].
Definition utf8_to_utf16_ (u8str : list Z) (u8len : Z) : option (outcome (list Z)) :=
  match utf8_to_utf16_no_null_terminator u8str u8len with
  | Some r => Some (let! units := r in Returned (units ++ [0]))
  | None => None
  end.

(** [utf8_to_utf16_n]: the units written and the pointer returned, as an index. *)
Fixpoint utf8_to_utf16_n_loop (fuel : nat) (u8cur : list Z) (left : Z) (u16cur : list Z) (dstLen : Z) :
    option (outcome (list Z * Z)) :=
  let at_ (l : list Z) := Z.of_nat (length l) in
  if (left <=? 0) || (dstLen <=? at_ u16cur) then Some (Returned (u16cur, at_ u16cur))
  else match fuel with
       | O => None
       | S fuel =>
           match utf8_char u8cur with
           | Returned (codepoint, u8len) =>
               let next cur := utf8_to_utf16_n_loop fuel (drop (Z.to_nat u8len) u8cur) (left - u8len) cur dstLen in
               if codepoint <=? 0xFFFF then next (u16cur ++ [u16 codepoint])
               else let u16cur := u16cur ++ [lead_unit codepoint] in
                    if dstLen <=? at_ u16cur then Some (Returned (u16cur, at_ u16cur - 1))
                    else next (u16cur ++ [trail_unit codepoint])
           | Exited => Some Exited
           | Undefined => Some Undefined
           end
       end.
Definition utf8_to_utf16_n (src : list Z) (srcLen : Z) (dstLen : Z) : option (outcome (list Z * Z)) :=
  utf8_to_utf16_n_loop (Z.to_nat srcLen) src srcLen [] dstLen.

(** ** The encodings *)

(** A code point that is not a surrogate, and its bytes and units as the standard
    defines them. *)
Definition scalar (c : Z) : Prop := 0 ≤ c ≤ 0x10FFFF ∧ (c < 0xD800 ∨ 0xDFFF < c).
Definition utf8 (c : Z) : list Z :=
  if c <? 0x80 then [c]
  else if c <? 0x800 then [0xC0 + c / 64; 0x80 + c mod 64]
  else if c <? 0x10000 then [0xE0 + c / 4096; 0x80 + (c / 64) mod 64; 0x80 + c mod 64]
  else [0xF0 + c / 262144; 0x80 + (c / 4096) mod 64; 0x80 + (c / 64) mod 64; 0x80 + c mod 64].
Definition utf16 (c : Z) : list Z :=
  if c <? 0x10000 then [c] else [0xD800 + (c - 0x10000) / 1024; 0xDC00 + (c - 0x10000) mod 1024].
Definition utf8_all (cs : list Z) : list Z := mjoin (utf8 <$> cs).
Definition utf16_all (cs : list Z) : list Z := mjoin (utf16 <$> cs).

Lemma utf8_all_cons c cs : utf8_all (c :: cs) = utf8 c ++ utf8_all cs.
Proof. done. Qed.
Lemma utf16_all_cons c cs : utf16_all (c :: cs) = utf16 c ++ utf16_all cs.
Proof. done. Qed.

(** Facts about bytes that a computation settles. *)
Ltac by_bytes n P :=
  let H := fresh in pose proof (forall_below n P) as H; cbv beta in H; apply H; [vm_compute; reflexivity|lia].

Lemma tail_bits x : 0 ≤ x → u8 (Z.land (Z.lor x kByteMark) kByteMask) = 0x80 + x mod 64.
Proof.
  intros Hx. assert (Z.land (Z.lor x kByteMark) kByteMask = Z.land (Z.lor (x mod 256) kByteMark) kByteMask) as ->.
  { change 256 with (2 ^ 8). rewrite <-Z.land_ones by lia. unfold kByteMark, kByteMask.
    change 0xBF with (Z.land (Z.ones 8) 0xBF) at 1. rewrite Z.land_assoc, !Z.land_lor_distr_l. f_equal. }
  replace (x mod 64) with ((x mod 256) mod 64) by (rewrite Z.mod_mod_divide; [done|by exists 4]).
  pose proof (Z.mod_pos_bound x 256 ltac:(lia)) as Hm. apply Z.eqb_eq.
  by_bytes 256%nat (λ y, u8 (Z.land (Z.lor y kByteMark) kByteMask) =? 0x80 + y mod 64).
Qed.

Lemma lead_bits a mark n : 0 ≤ a < n → In (mark, n) [(0, 128); (0xC0, 32); (0xE0, 16); (0xF0, 8)] → u8 (Z.lor a mark) = mark + a.
Proof.
  intros Ha Hin. apply Z.eqb_eq. destruct Hin as [[= <- <-]|[[= <- <-]|[[= <- <-]|[[= <- <-]|[]]]]].
  - by_bytes 128%nat (λ y, u8 (Z.lor y 0) =? 0 + y).
  - by_bytes 32%nat (λ y, u8 (Z.lor y 0xC0) =? 0xC0 + y).
  - by_bytes 16%nat (λ y, u8 (Z.lor y 0xE0) =? 0xE0 + y).
  - by_bytes 8%nat (λ y, u8 (Z.lor y 0xF0) =? 0xF0 + y).
Qed.

Lemma shift6 x : Z.shiftr x 6 = x / 64.
Proof. by rewrite Z.shiftr_div_pow2. Qed.

Lemma div64_div64 c : c / 64 / 64 = c / 4096.
Proof. by rewrite Z.div_div. Qed.
Lemma div4096_div64 c : c / 64 / 4096 = c / 262144.
Proof. by rewrite Z.div_div. Qed.

Lemma put_codepoint c (tail := λ x, u8 (Z.land (Z.lor x kByteMark) kByteMask)) :
  utf32_codepoint_to_utf8 c 1 = [u8 (Z.lor c 0)] ∧
  utf32_codepoint_to_utf8 c 2 = [u8 (Z.lor (Z.shiftr c 6) 0xC0); tail c] ∧
  utf32_codepoint_to_utf8 c 3 = [u8 (Z.lor (Z.shiftr (Z.shiftr c 6) 6) 0xE0); tail (Z.shiftr c 6); tail c] ∧
  utf32_codepoint_to_utf8 c 4 =
    [u8 (Z.lor (Z.shiftr (Z.shiftr (Z.shiftr c 6) 6) 6) 0xF0); tail (Z.shiftr (Z.shiftr c 6) 6); tail (Z.shiftr c 6); tail c].
Proof. by split_and!. Qed.

(** [utf32_codepoint_to_utf8] writes the encoding, of the length computed. *)
Lemma encodes c : scalar c →
  utf32_codepoint_to_utf8 c (utf32_codepoint_utf8_length c) = utf8 c ∧ utf32_codepoint_utf8_length c = Z.of_nat (length (utf8 c)).
Proof.
  intros [Hc Hs]. destruct (put_codepoint c) as (H1 & H2 & H3 & H4).
  assert (∀ k, 0 < k → 0 ≤ c / k) as Hq by (intros; apply Z.div_pos; lia).
  unfold utf32_codepoint_utf8_length, utf8, kUnicodeSurrogateStart, kUnicodeSurrogateEnd, kUnicodeMaxCodepoint.
  destruct (Z.ltb_spec c 0x80); [|destruct (Z.ltb_spec c 0x800); [|destruct (Z.ltb_spec c 0x10000)]].
  - rewrite H1, (lead_bits c 0 128) by (lia || (cbn; tauto)). done.
  - rewrite H2, shift6, tail_bits, (lead_bits _ 0xC0 32); [done|split; [by apply Hq|apply Z.div_lt_upper_bound; lia]|cbn; tauto|lia].
  - rewrite (proj2 (orb_true_iff _ _)) by (rewrite !Z.ltb_lt; lia).
    rewrite H3, !shift6, div64_div64, !tail_bits, (lead_bits _ 0xE0 16);
      [done|split; [by apply Hq|apply Z.div_lt_upper_bound; lia]|cbn; tauto|lia|by apply Hq].
  - rewrite (proj2 (Z.leb_le _ _)) by lia.
    rewrite H4, !shift6, !div64_div64, div4096_div64, !tail_bits, (lead_bits _ 0xF0 8);
      [done|split; [by apply Hq|apply Z.div_lt_upper_bound; lia]|cbn; tauto|lia|by apply Hq|by apply Hq].
Qed.

(** ** Decoding a code point of UTF-8 *)

Definition byte_list (l : list Z) : Prop := Forall (λ b, 0 ≤ b < 256) l.
Definition unit_list (l : list Z) : Prop := Forall (λ u, 0 ≤ u < 2 ^ 16) l.

Lemma shift_and_mask_byte r b : 0 ≤ r < 2 ^ 26 → 0 ≤ b → utf8_shift_and_mask r b = r * 64 + b mod 64.
Proof.
  intros Hr Hb. unfold utf8_shift_and_mask. change 0x3F with (Z.ones 6). rewrite Z.land_comm, Z.land_ones by lia.
  pose proof (Z.mod_pos_bound b (2 ^ 6) ltac:(lia)).
  rewrite u32_small by (rewrite Z.shiftl_mul_pow2 by lia; lia). by rewrite lor_low by lia.
Qed.

Lemma shift_and_mask r y : 0 ≤ r < 2 ^ 26 → 0 ≤ y < 64 → utf8_shift_and_mask r (0x80 + y) = r * 64 + y.
Proof. intros Hr Hy. rewrite shift_and_mask_byte by lia. f_equal. Z.to_euclidean_division_equations. lia. Qed.

(** The bits of a leading byte: its length and what the masks leave. *)
Lemma lead_byte a :
  (0 ≤ a < 0x80 → utf8_codepoint_len a = 1) ∧
  (0 ≤ a < 32 → utf8_codepoint_len (0xC0 + a) = 2 ∧ Z.land (0xC0 + a) 0x1f = a) ∧
  (0 ≤ a < 16 → utf8_codepoint_len (0xE0 + a) = 3 ∧ Z.land (0xE0 + a) 0x0f = a) ∧
  (0 ≤ a < 8 → utf8_codepoint_len (0xF0 + a) = 4 ∧ Z.land (0xF0 + a) 0x07 = a).
Proof.
  split_and!; intros Ha; rewrite <-?Z.eqb_eq; rewrite <-?andb_True, <-?andb_true_iff.
  - by_bytes 128%nat (λ a, utf8_codepoint_len a =? 1).
  - by_bytes 32%nat (λ a, (utf8_codepoint_len (0xC0 + a) =? 2) && (Z.land (0xC0 + a) 0x1f =? a)).
  - by_bytes 16%nat (λ a, (utf8_codepoint_len (0xE0 + a) =? 3) && (Z.land (0xE0 + a) 0x0f =? a)).
  - by_bytes 8%nat (λ a, (utf8_codepoint_len (0xF0 + a) =? 4) && (Z.land (0xF0 + a) 0x07 =? a)).
Qed.

(** The digits of a code point in base 64. *)
Lemma digits64 c : 0 ≤ c ≤ 0x10FFFF →
  c = c / 64 * 64 + c mod 64 ∧ c / 64 = c / 4096 * 64 + (c / 64) mod 64 ∧ c / 4096 = c / 262144 * 64 + (c / 4096) mod 64 ∧
  0 ≤ c mod 64 < 64 ∧ 0 ≤ (c / 64) mod 64 < 64 ∧ 0 ≤ (c / 4096) mod 64 < 64 ∧ 0 ≤ c / 262144 < 8.
Proof. intros Hc. Z.to_euclidean_division_equations. lia. Qed.

Lemma utf8_char_encoded c rest : scalar c → utf8_char (utf8 c ++ rest) = Returned (c, Z.of_nat (length (utf8 c))).
Proof.
  intros [Hc _]. destruct (digits64 c Hc) as (D1 & D2 & D3 & R1 & R2 & R3 & R4). unfold utf8.
  destruct (Z.ltb_spec c 0x80); [|destruct (Z.ltb_spec c 0x800); [|destruct (Z.ltb_spec c 0x10000)]].
  - destruct (lead_byte c) as [L _]. unfold utf8_char. cbn [app head oderef obind]. by rewrite L by lia.
  - destruct (lead_byte (c / 64)) as (_ & L & _). destruct L as [L M]; [lia|].
    unfold utf8_char, utf8_to_utf32_codepoint. cbn [app head oderef obind length]. rewrite L. cbn [Z.eqb Pos.eqb lookup list_lookup app oderef obind].
    rewrite M, shift_and_mask by lia. by rewrite <-D1.
  - destruct (lead_byte (c / 4096)) as (_ & _ & L & _). destruct L as [L M]; [lia|].
    unfold utf8_char, utf8_to_utf32_codepoint. cbn [app head oderef obind length]. rewrite L. cbn [Z.eqb Pos.eqb lookup list_lookup app oderef obind].
    rewrite M, (shift_and_mask (c / 4096)), <-D2, shift_and_mask by lia. by rewrite <-D1.
  - destruct (lead_byte (c / 262144)) as (_ & _ & _ & L). destruct L as [L M]; [lia|].
    unfold utf8_char, utf8_to_utf32_codepoint. cbn [app head oderef obind length]. rewrite L. cbn [Z.eqb Pos.eqb lookup list_lookup app oderef obind].
    rewrite M, (shift_and_mask (c / 262144)), <-D3, (shift_and_mask (c / 4096)), <-D2, shift_and_mask by lia. by rewrite <-D1.
Qed.

(** ** Decoding by the leading bits *)

(** Clearing the bits above the [k] lowest ones of a 32-bit number. *)
Lemma land_keep x k : 0 ≤ x < 2 ^ 32 → k = 11 ∨ k = 16 ∨ k = 21 → Z.land x (Z.lnot (2 ^ 32 - 2 ^ k)) = x mod 2 ^ k.
Proof.
  intros Hx Hk. rewrite <-(Z.mod_small x (2 ^ 32)) at 1 by done.
  rewrite <-(Z.land_ones x 32) by lia. rewrite <-Z.land_assoc. rewrite <-(Z.land_ones x k) by lia. f_equal.
  by destruct Hk as [->|[->| ->]].
Qed.

(** One turn of the [for] adds six bits. *)
Lemma accumulate k f r y : 0 ≤ k ≤ 26 → f mod 2 ^ k = r → 0 ≤ y < 64 →
  u32 (u32 (Z.shiftl f 6) + Z.land (0x80 + y) 0x3F) mod 2 ^ (k + 6) = r * 64 + y.
Proof.
  intros Hk Hr Hy. assert (Z.land (0x80 + y) 0x3F = y) as ->.
  { apply Z.eqb_eq. by_bytes 64%nat (λ y, Z.land (0x80 + y) 0x3F =? y). }
  assert (0 < 2 ^ k) by (apply Z.pow_pos_nonneg; lia). pose proof (Z.mod_pos_bound f (2 ^ k) ltac:(lia)).
  assert ((2 ^ (k + 6) | 2 ^ 32)).
  { exists (2 ^ (26 - k)). rewrite <-Z.pow_add_r by lia. f_equal. lia. }
  rewrite u32_add_l. unfold u32. rewrite Z.mod_mod_divide by done. rewrite Z.shiftl_mul_pow2, Z.pow_add_r by lia.
  symmetry. apply (Z.mod_unique_pos _ _ (f / 2 ^ k)); [lia|]. rewrite (Z.div_mod f (2 ^ k)) at 1 by lia. lia.
Qed.

(** The tests of a leading byte and its lowest bits, for either kind of [char]. *)
Definition first_tests (signed : bool) (b n k : Z) : bool :=
  let f := char_value signed b in
  let test m := negb (Z.land f m =? 0) in
  test 0x80 && test 0x40 && eqb (test 0x20) (3 <=? n) && ((n <? 3) || eqb (test 0x10) (4 <=? n)) && ((n <? 4) || negb (test 0x08)) &&
  (u32 f mod 2 ^ k =? b mod 2 ^ k).

Lemma first_byte signed a :
  (0 ≤ a < 32 → first_tests signed (0xC0 + a) 2 5 = true ∧ (0xC0 + a) mod 2 ^ 5 = a) ∧
  (0 ≤ a < 16 → first_tests signed (0xE0 + a) 3 4 = true ∧ (0xE0 + a) mod 2 ^ 4 = a) ∧
  (0 ≤ a < 8 → first_tests signed (0xF0 + a) 4 3 = true ∧ (0xF0 + a) mod 2 ^ 3 = a).
Proof.
  split_and!; intros Ha; rewrite <-Z.eqb_eq, <-andb_true_iff; destruct signed.
  - by_bytes 32%nat (λ a, first_tests true (0xC0 + a) 2 5 && ((0xC0 + a) mod 2 ^ 5 =? a)).
  - by_bytes 32%nat (λ a, first_tests false (0xC0 + a) 2 5 && ((0xC0 + a) mod 2 ^ 5 =? a)).
  - by_bytes 16%nat (λ a, first_tests true (0xE0 + a) 3 4 && ((0xE0 + a) mod 2 ^ 4 =? a)).
  - by_bytes 16%nat (λ a, first_tests false (0xE0 + a) 3 4 && ((0xE0 + a) mod 2 ^ 4 =? a)).
  - by_bytes 8%nat (λ a, first_tests true (0xF0 + a) 4 3 && ((0xF0 + a) mod 2 ^ 3 =? a)).
  - by_bytes 8%nat (λ a, first_tests false (0xF0 + a) 4 3 && ((0xF0 + a) mod 2 ^ 3 =? a)).
Qed.

Lemma utf32_at_stop f cur n mask ignore x : (Z.land f mask =? 0) = true → utf32_at_loop f cur n mask ignore x = Returned (n, Z.lor ignore mask, x).
Proof. intros H. destruct cur; cbn [utf32_at_loop]; by rewrite H. Qed.

Lemma utf32_at_step f b cur n mask mask' ignore x : (Z.land f mask =? 0) = false → mask' = Z.shiftr mask 1 →
  utf32_at_loop f (b :: cur) n mask ignore x = utf32_at_loop f cur (n + 1) mask' (Z.lor ignore mask) (u32 (u32 (Z.shiftl x 6) + Z.land b 0x3F)).
Proof. intros H ->. cbn [utf32_at_loop]. by rewrite H. Qed.

(** A first byte of two, three or four, and the bits of those behind it. *)
Lemma at_two signed b y1 r rest : first_tests signed b 2 5 = true → 0 ≤ y1 < 64 → b mod 2 ^ 5 = r → r * 64 + y1 < 2 ^ 31 →
  utf32_at_internal signed (b :: 0x80 + y1 :: rest) = Returned (r * 64 + y1, 2).
Proof.
  unfold first_tests. intros H Hy Hr Hc. cbn [Z.leb Z.ltb Z.compare Pos.compare Pos.compare_cont orb] in H. rewrite !andb_true_iff, !negb_true_iff in H.
  destruct H as [[[[[T1 T2] T3] _] _] E%Z.eqb_eq]. apply eqb_prop, negb_false_iff in T3.
  pose proof (Z.mod_pos_bound b (2 ^ 5) ltac:(lia)).
  unfold utf32_at_internal. rewrite T1.
  rewrite (utf32_at_step _ _ _ _ _ 0x20 _ _ T2 eq_refl), (utf32_at_stop _ _ _ _ _ _ T3). cbn [obind]. change (32 <=? 6 * (1 + 1 - 1)) with false. cbv iota.
  change (u32 (Z.shiftl _ (6 * (1 + 1 - 1)))) with (2 ^ 32 - 2 ^ 11). rewrite land_keep by (apply u32_range || lia).
  change 11 with (5 + 6). rewrite (accumulate 5 _ r y1) by (lia || by rewrite E). by rewrite s32_small by lia.
Qed.

Lemma at_three signed b y1 y2 r rest : first_tests signed b 3 4 = true → 0 ≤ y1 < 64 → 0 ≤ y2 < 64 → b mod 2 ^ 4 = r →
  utf32_at_internal signed (b :: 0x80 + y1 :: 0x80 + y2 :: rest) = Returned ((r * 64 + y1) * 64 + y2, 3).
Proof.
  unfold first_tests. intros H Hy1 Hy2 Hr. cbn [Z.leb Z.ltb Z.compare Pos.compare Pos.compare_cont orb] in H. rewrite !andb_true_iff, !negb_true_iff in H.
  destruct H as [[[[[T1 T2] T3] T4] _] E%Z.eqb_eq]. apply eqb_prop, negb_true_iff in T3. apply eqb_prop, negb_false_iff in T4.
  pose proof (Z.mod_pos_bound b (2 ^ 4) ltac:(lia)).
  unfold utf32_at_internal. rewrite T1.
  rewrite (utf32_at_step _ _ _ _ _ 0x20 _ _ T2 eq_refl), (utf32_at_step _ _ _ _ _ 0x10 _ _ T3 eq_refl), (utf32_at_stop _ _ _ _ _ _ T4). cbn [obind]. change (32 <=? 6 * (1 + 1 + 1 - 1)) with false. cbv iota.
  change (u32 (Z.shiftl _ (6 * (1 + 1 + 1 - 1)))) with (2 ^ 32 - 2 ^ 16). rewrite land_keep by (apply u32_range || lia).
  change 16 with (10 + 6). rewrite (accumulate 10 _ (r * 64 + y1) y2); [|lia| |lia]; [by rewrite s32_small by lia|].
  change 10 with (4 + 6). apply accumulate; [lia|by rewrite E|lia].
Qed.

Lemma at_four signed b y1 y2 y3 r rest : first_tests signed b 4 3 = true → 0 ≤ y1 < 64 → 0 ≤ y2 < 64 → 0 ≤ y3 < 64 → b mod 2 ^ 3 = r →
  utf32_at_internal signed (b :: 0x80 + y1 :: 0x80 + y2 :: 0x80 + y3 :: rest) = Returned (((r * 64 + y1) * 64 + y2) * 64 + y3, 4).
Proof.
  unfold first_tests. intros H Hy1 Hy2 Hy3 Hr. cbn [Z.leb Z.ltb Z.compare Pos.compare Pos.compare_cont orb] in H. rewrite !andb_true_iff, !negb_true_iff in H.
  destruct H as [[[[[T1 T2] T3] T4] T5] E%Z.eqb_eq]. apply eqb_prop, negb_true_iff in T3, T4. apply negb_false_iff in T5.
  pose proof (Z.mod_pos_bound b (2 ^ 3) ltac:(lia)).
  unfold utf32_at_internal. rewrite T1.
  rewrite (utf32_at_step _ _ _ _ _ 0x20 _ _ T2 eq_refl), (utf32_at_step _ _ _ _ _ 0x10 _ _ T3 eq_refl), (utf32_at_step _ _ _ _ _ 0x08 _ _ T4 eq_refl), (utf32_at_stop _ _ _ _ _ _ T5). cbn [obind]. change (32 <=? 6 * (1 + 1 + 1 + 1 - 1)) with false. cbv iota.
  change (u32 (Z.shiftl _ (6 * (1 + 1 + 1 + 1 - 1)))) with (2 ^ 32 - 2 ^ 21). rewrite land_keep by (apply u32_range || lia).
  change 21 with (15 + 6). rewrite (accumulate 15 _ ((r * 64 + y1) * 64 + y2) y3); [|lia| |lia]; [by rewrite s32_small by lia|].
  change 15 with (9 + 6). apply accumulate; [lia| |lia]. change 9 with (3 + 6). apply accumulate; [lia|by rewrite E|lia].
Qed.

Lemma at_encoded signed c rest : scalar c → utf32_at_internal signed (utf8 c ++ rest) = Returned (c, Z.of_nat (length (utf8 c))).
Proof.
  intros [Hc _]. destruct (digits64 c Hc) as (D1 & D2 & D3 & R1 & R2 & R3 & R4). unfold utf8.
  destruct (Z.ltb_spec c 0x80); [|destruct (Z.ltb_spec c 0x800); [|destruct (Z.ltb_spec c 0x10000)]]; cbn [app length].
  - unfold utf32_at_internal, char_value. rewrite (proj2 (Z.leb_gt 0x80 c)), andb_false_r by lia.
    assert ((Z.land c 0x80 =? 0) = true) as -> by (by_bytes 128%nat (λ c, Z.land c 0x80 =? 0)). done.
  - destruct (first_byte signed (c / 64)) as (F & _). destruct F as [F M]; [lia|].
    rewrite (at_two signed _ _ (c / 64)) by (done || lia). by rewrite <-D1.
  - destruct (first_byte signed (c / 4096)) as (_ & F & _). destruct F as [F M]; [lia|].
    rewrite (at_three signed _ _ _ (c / 4096)) by (done || lia). by rewrite <-D2, <-D1.
  - destruct (first_byte signed (c / 262144)) as (_ & _ & F). destruct F as [F M]; [lia|].
    rewrite (at_four signed _ _ _ _ (c / 262144)) by (done || lia). by rewrite <-D3, <-D2, <-D1.
Qed.

Lemma utf8_nonempty c : (1 ≤ length (utf8 c) ≤ 4)%nat.
Proof. unfold utf8. repeat case_goal_if; cbn; lia. Qed.

(** ** UTF-16 *)

Lemma surrogate_bits u : 0 ≤ u < 2 ^ 16 → Z.land u 0xFC00 = 1024 * (u / 1024).
Proof.
  intros Hu. rewrite <-(Z.mod_small u (2 ^ 16)) at 1 by done. rewrite <-(Z.land_ones u 16) by lia. rewrite <-Z.land_assoc.
  change (Z.land (Z.ones 16) 0xFC00) with (Z.land (Z.ones 16) (Z.shiftl (Z.ones (32 - 10)) 10)).
  rewrite Z.land_assoc, Z.land_ones, Z.mod_small by lia. apply (land_clear_low 10); lia.
Qed.

Lemma high_range u : 0 ≤ u < 2 ^ 16 → high u = true ↔ 0xD800 ≤ u < 0xDC00.
Proof. intros Hu. unfold high. rewrite Z.eqb_eq, surrogate_bits by done. split; intros; Z.to_euclidean_division_equations; lia. Qed.
Lemma low_range u : 0 ≤ u < 2 ^ 16 → low u = true ↔ 0xDC00 ≤ u < 0xE000.
Proof. intros Hu. unfold low. rewrite Z.eqb_eq, surrogate_bits by done. split; intros; Z.to_euclidean_division_equations; lia. Qed.

Lemma pair_value h l : 0xD800 ≤ h < 0xDC00 → 0xDC00 ≤ l < 0xE000 → pair_codepoint h l = (h - 0xD800) * 1024 + (l - 0xDC00) + 0x10000.
Proof. intros Hh Hl. unfold pair_codepoint. rewrite lor_low by lia. rewrite u32_small by lia. lia. Qed.

(** The code points of a sequence of units; a surrogate without its partner stands
    for itself. *)
Fixpoint decode16 (l : list Z) : list Z :=
  match l with
  | [] => []
  | u :: l1 =>
      match l1 with
      | v :: l2 => if high u && low v then pair_codepoint u v :: decode16 l2 else u :: decode16 l1
      | [] => [u]
      end
  end.

Lemma decode16_utf16 c l : scalar c → decode16 (utf16 c ++ l) = c :: decode16 l.
Proof.
  intros [Hc Hs]. unfold utf16. destruct (Z.ltb_spec c 0x10000); cbn [app decode16].
  - assert (high c = false) as -> by (apply not_true_iff_false; rewrite high_range by lia; lia). by destruct l.
  - assert (0 ≤ (c - 65536) / 1024 < 1024 ∧ 0 ≤ (c - 65536) mod 1024 < 1024 ∧ c - 65536 = (c - 65536) / 1024 * 1024 + (c - 65536) mod 1024)
      as (R1 & R2 & D) by (Z.to_euclidean_division_equations; lia).
    assert (high (0xD800 + (c - 65536) / 1024) = true) as -> by (apply high_range; lia).
    assert (low (0xDC00 + (c - 65536) mod 1024) = true) as -> by (apply low_range; lia). cbn [andb].
    rewrite pair_value by lia. f_equal. lia.
Qed.

Lemma decode16_all cs : Forall scalar cs → decode16 (utf16_all cs) = cs.
Proof. induction 1 as [|c cs Hc _ IH]; [done|]. by rewrite utf16_all_cons, decode16_utf16, IH. Qed.

(** The bytes of a code point, none of a surrogate. *)
Definition encode (c : Z) : list Z := utf32_codepoint_to_utf8 c (utf32_codepoint_utf8_length c).
Definition encode_list (cs : list Z) : list Z := mjoin (encode <$> cs).

Lemma encode_list_cons c cs : encode_list (c :: cs) = encode c ++ encode_list cs.
Proof. done. Qed.

Lemma utf32_length_range c : 0 ≤ utf32_codepoint_utf8_length c ≤ 4.
Proof. unfold utf32_codepoint_utf8_length. repeat case_goal_if; lia. Qed.

Lemma encode_length c : Z.of_nat (length (encode c)) = utf32_codepoint_utf8_length c.
Proof. unfold encode, utf32_codepoint_utf8_length. by repeat case_goal_if. Qed.

Lemma encode_all cs : Forall scalar cs → encode_list cs = utf8_all cs.
Proof.
  induction 1 as [|c cs Hc _ IH]; [done|]. rewrite encode_list_cons, utf8_all_cons, IH. f_equal. by apply encodes.
Qed.

Lemma encode_all_length cs : Z.of_nat (length (encode_list cs)) = sum_by utf32_codepoint_utf8_length cs.
Proof.
  induction cs as [|c cs IH]; [done|]. by rewrite encode_list_cons, sum_by_cons, length_app, Nat2Z.inj_add, encode_length, <-IH.
Qed.

(** The loop over any units writes the bytes of their code points. *)
Lemma utf16_to_utf8_loop_spec n : ∀ l rest cur, (length l ≤ n)%nat →
  utf16_to_utf8_loop (length l) (l ++ rest) cur = Returned (cur ++ encode_list (decode16 l) ++ [0]).
Proof.
  induction n as [|n IH]; intros l rest cur Hn; (destruct l as [|u [|v l]]; cbn [length] in Hn; [done| |]); try lia.
  { change (Returned ((cur ++ encode u) ++ [0]) = Returned (cur ++ encode_list [u] ++ [0])). by rewrite encode_list_cons, app_nil_r, app_assoc. }
  cbn [length app]. change (utf16_to_utf8_loop (S (S (length l))) (u :: v :: l ++ rest) cur) with
    (if high u then if low v then utf16_to_utf8_loop (length l) (l ++ rest) (cur ++ encode (pair_codepoint u v))
       else utf16_to_utf8_loop (length (v :: l)) ((v :: l) ++ rest) (cur ++ encode u)
     else utf16_to_utf8_loop (length (v :: l)) ((v :: l) ++ rest) (cur ++ encode u)).
  change (decode16 (u :: v :: l)) with (if high u && low v then pair_codepoint u v :: decode16 l else u :: decode16 (v :: l)).
  destruct (high u), (low v); cbn [andb]; rewrite IH by (cbn [length]; lia); by rewrite encode_list_cons, !app_assoc.
Qed.

(** No unpaired high surrogate has a high surrogate behind it. *)
Fixpoint no_high_high (l : list Z) : bool :=
  match l with
  | u :: l1 => match l1 with v :: _ => negb (high u && high v) | [] => true end && no_high_high l1
  | [] => true
  end.

Lemma surrogate_no_bytes u : 0xD800 ≤ u ≤ 0xDFFF → utf32_codepoint_utf8_length u = 0.
Proof.
  intros Hu. unfold utf32_codepoint_utf8_length, kUnicodeSurrogateStart, kUnicodeSurrogateEnd.
  repeat case_match; bool_to_prop; rewrite ?orb_true_iff, ?Z.ltb_lt in *; lia.
Qed.

(** The loop that measures agrees with the one that writes. *)
Lemma utf16_length_loop_spec n : ∀ l rest ret, (length l ≤ n)%nat → unit_list l → no_high_high l = true → u32 ret = ret →
  utf16_to_utf8_length_loop (length l) (l ++ rest) ret = Returned (u32 (ret + sum_by utf32_codepoint_utf8_length (decode16 l))).
Proof.
  induction n as [|n IH]; intros l rest ret Hn Hl Hh Hret; (destruct l as [|u [|v l]]; cbn [length] in Hn; [|  |]); try lia.
  1,2: cbn; by rewrite Z.add_0_r, Hret.
  { change (Returned (u32 (ret + utf32_codepoint_utf8_length u)) = Returned (u32 (ret + (utf32_codepoint_utf8_length u + 0)))). by rewrite Z.add_0_r. }
  cbn [length app]. change (utf16_to_utf8_length_loop (S (S (length l))) (u :: v :: l ++ rest) ret) with
    (if high u then if low v then utf16_to_utf8_length_loop (length l) (l ++ rest) (u32 (ret + 4))
       else utf16_to_utf8_length_loop (length l) (l ++ rest) (u32 (ret + utf32_codepoint_utf8_length v))
     else utf16_to_utf8_length_loop (length (v :: l)) ((v :: l) ++ rest) (u32 (ret + utf32_codepoint_utf8_length u))).
  change (decode16 (u :: v :: l)) with (if high u && low v then pair_codepoint u v :: decode16 l else u :: decode16 (v :: l)).
  apply Forall_cons in Hl as [Hu Hvl]. pose proof Hvl as [Hv Hl]%Forall_cons.
  change (negb (high u && high v) && no_high_high (v :: l) = true) in Hh. apply andb_true_iff in Hh as [Huv Hh].
  assert (no_high_high l = true) as Hh' by (change (match l with w :: _ => negb (high v && high w) | [] => true end && no_high_high l = true) in Hh; by apply andb_true_iff in Hh as [_ Hh]).
  destruct (high u) eqn:Ehu; [|cbn [andb]; rewrite IH by (done || apply u32_idemp || (cbn [length]; lia)); by rewrite sum_by_cons, u32_add_l, Z.add_assoc].
  apply high_range in Ehu; [|done]. destruct (low v) eqn:Elv; cbn [andb]; rewrite IH by (done || apply u32_idemp || lia); rewrite sum_by_cons, u32_add_l.
  - apply low_range in Elv; [|done]. rewrite pair_value by done. unfold utf32_codepoint_utf8_length at 2, kUnicodeMaxCodepoint.
    repeat (rewrite (proj2 (Z.ltb_ge _ _)) by lia). rewrite (proj2 (Z.leb_le _ _)) by lia. f_equal. f_equal. lia.
  - rewrite (surrogate_no_bytes u) by lia. cbn [andb] in Huv. apply negb_true_iff in Huv.
    replace (decode16 (v :: l)) with (v :: decode16 l) by (destruct l; cbn [decode16]; by rewrite ?Huv). rewrite sum_by_cons. f_equal. f_equal. lia.
Qed.

Lemma sum_length_bound cs : 0 ≤ sum_by utf32_codepoint_utf8_length cs ≤ 4 * Z.of_nat (length cs).
Proof.
  induction cs as [|c cs IH]; [done|]. rewrite sum_by_cons. pose proof (utf32_length_range c). cbn [length]. lia.
Qed.

Lemma decode16_length n : ∀ l, (length l ≤ n)%nat → (length (decode16 l) ≤ length l)%nat.
Proof.
  induction n as [|n IH]; intros l Hn; (destruct l as [|u [|v l]]; cbn [length] in Hn; [done| |]); try lia; [done|].
  change (decode16 (u :: v :: l)) with (if high u && low v then pair_codepoint u v :: decode16 l else u :: decode16 (v :: l)).
  pose proof (IH l ltac:(lia)). pose proof (IH (v :: l) ltac:(cbn [length]; lia)) as H2. cbn [length] in H2. case_goal_if; cbn [length]; lia.
Qed.

(** For any UTF-16, valid or not, whose unpaired high surrogates are not
    followed by another high surrogate, the length that is computed first is the
    number of bytes that the conversion writes before its terminating zero, so
    that a buffer of one byte more holds them; the conversion never reads behind
    the source. *)
Theorem utf16_to_utf8_fits l rest : unit_list l → no_high_high l = true → l ≠ [] → Z.of_nat (length l) < 2 ^ 29 →
  ∃ n out, utf16_to_utf8_length (Some (l ++ rest)) (Z.of_nat (length l)) = Returned n ∧
           utf16_to_utf8 (Some (l ++ rest)) (Z.of_nat (length l)) = Returned (out ++ [0]) ∧ Z.of_nat (length out) = n.
Proof.
  intros Hl Hh Hne Hlen. exists (sum_by utf32_codepoint_utf8_length (decode16 l)), (encode_list (decode16 l)).
  pose proof (sum_length_bound (decode16 l)). pose proof (decode16_length (length l) l (le_n _)).
  unfold utf16_to_utf8_length, utf16_to_utf8. rewrite (proj2 (Z.eqb_neq _ 0)) by (destruct l; [done|cbn [length]; lia]). rewrite Nat2Z.id.
  rewrite (utf16_length_loop_spec (length l)), (utf16_to_utf8_loop_spec (length l)) by done. cbn [obind].
  rewrite u32_small, s32_small by lia. split_and!; [done|done|]. apply encode_all_length.
Qed.

(** ** From UTF-8 to UTF-16 *)

(** What a character adds to the UTF-16. *)
Definition units_of (cp : Z) : list Z := if cp <=? 0xFFFF then [u16 cp] else [lead_unit cp; trail_unit cp].

Lemma codepoint_len_range b : 0 ≤ b < 256 → 1 ≤ utf8_codepoint_len b ≤ 4.
Proof.
  intros Hb. rewrite <-!Z.leb_le, <-andb_true_iff. by_bytes 256%nat (λ b, (1 <=? utf8_codepoint_len b) && (utf8_codepoint_len b <=? 4)).
Qed.

Lemma land_low b k : 0 ≤ k → 0 ≤ Z.land b (Z.ones k) < 2 ^ k.
Proof. intros Hk. rewrite Z.land_ones by done. apply Z.mod_pos_bound, Z.pow_pos_nonneg; lia. Qed.

(** Any four bytes have a character, of one to four bytes. *)
Lemma utf8_char_total b1 b2 b3 b4 rest : byte_list [b1; b2; b3; b4] →
  ∃ cp n, utf8_char (b1 :: b2 :: b3 :: b4 :: rest) = Returned (cp, n) ∧ 1 ≤ n ≤ 4 ∧ 0 ≤ cp < 2 ^ 21 ∧ (0xFFFF < cp → n = 4).
Proof.
  unfold byte_list. rewrite !Forall_cons. intros (H1 & H2 & H3 & H4 & _). pose proof (codepoint_len_range b1 H1) as Hn.
  pose proof (Z.mod_pos_bound b2 64 ltac:(lia)). pose proof (Z.mod_pos_bound b3 64 ltac:(lia)). pose proof (Z.mod_pos_bound b4 64 ltac:(lia)).
  pose proof (land_low b1 5 ltac:(lia)). pose proof (land_low b1 4 ltac:(lia)). pose proof (land_low b1 3 ltac:(lia)).
  change (Z.ones 5) with 0x1f in *. change (Z.ones 4) with 0x0f in *. change (Z.ones 3) with 0x07 in *.
  unfold utf8_char, utf8_to_utf32_codepoint. cbn [head oderef obind lookup list_lookup].
  assert (utf8_codepoint_len b1 = 1 ∨ utf8_codepoint_len b1 = 2 ∨ utf8_codepoint_len b1 = 3 ∨ utf8_codepoint_len b1 = 4) as [->|[->|[->| ->]]] by lia;
    cbn [Z.eqb Pos.eqb obind]; eexists _, _; (split; [done|]);
    try rewrite (shift_and_mask_byte (Z.land b1 _) b2) by lia; rewrite ?shift_and_mask_byte by (rewrite ?shift_and_mask_byte; lia); lia.
Qed.

Lemma four_bytes (p : list Z) : (4 ≤ length p)%nat → ∃ b1 b2 b3 b4 rest, p = b1 :: b2 :: b3 :: b4 :: rest.
Proof. destruct p as [|b1 [|b2 [|b3 [|b4 rest]]]]; cbn; try lia. eauto 10. Qed.

Lemma utf8_char_ok p : byte_list p → (4 ≤ length p)%nat →
  ∃ cp n, utf8_char p = Returned (cp, n) ∧ 1 ≤ n ≤ 4 ∧ 0 ≤ cp < 2 ^ 21 ∧ (0xFFFF < cp → n = 4).
Proof.
  intros Hp (b1 & b2 & b3 & b4 & rest & ->)%four_bytes. apply utf8_char_total.
  unfold byte_list in *. rewrite !Forall_cons in *. naive_solver.
Qed.

(** The three loops take the same characters: [chars] lists their code points, and
    where the last one ends. *)
Inductive chars : list Z → Z → list Z → Z → Prop :=
  | chars_end p left : left ≤ 0 → chars p left [] left
  | chars_next p left cp n cps e :
      0 < left → utf8_char p = Returned (cp, n) → 1 ≤ n ≤ 4 → 0 ≤ cp < 2 ^ 21 → (0xFFFF < cp → n = 4) →
      chars (drop (Z.to_nat n) p) (left - n) cps e → chars p left (cp :: cps) e.

Lemma chars_exist fuel : ∀ p left, byte_list p → left ≤ Z.of_nat fuel → left + 3 ≤ Z.of_nat (length p) → ∃ cps e, chars p left cps e.
Proof.
  induction fuel as [|fuel IH]; intros p left Hp Hf Hl; (destruct (Z.le_gt_cases left 0); [by exists [], left; constructor|]); [lia|].
  destruct (utf8_char_ok p Hp ltac:(lia)) as (cp & n & Hc & Hn & Hcp & H4).
  destruct (IH (drop (Z.to_nat n) p) (left - n)) as (cps & e & Hcs); [by apply Forall_drop|lia|rewrite length_drop; lia|].
  exists (cp :: cps), e. by apply (chars_next _ _ cp n).
Qed.

Lemma units_of_length cp : 1 ≤ Z.of_nat (length (units_of cp)) ≤ 2 ∧ (cp ≤ 0xFFFF → Z.of_nat (length (units_of cp)) = 1).
Proof. unfold units_of. destruct (Z.leb_spec cp 0xFFFF); cbn; lia. Qed.

Definition units_list (cps : list Z) : list Z := mjoin (units_of <$> cps).
Lemma units_list_cons cp cps : units_list (cp :: cps) = units_of cp ++ units_list cps.
Proof. done. Qed.

Lemma units_list_nil acc : acc ++ units_list [] = acc.
Proof. apply app_nil_r. Qed.

Lemma chars_units_bound p left cps e : chars p left cps e → Z.of_nat (length (units_list cps)) ≤ if 0 <? left then left + 1 else 0.
Proof.
  induction 1 as [p left Hl|p left cp n cps e Hl Hc Hn Hcp H4 _ IH]; [by rewrite (proj2 (Z.ltb_ge 0 left))|].
  rewrite (proj2 (Z.ltb_lt 0 left)) by done. rewrite units_list_cons, length_app. pose proof (units_of_length cp) as [? ?].
  destruct (Z.ltb_spec 0 (left - n)); lia.
Qed.

Lemma utf8_to_utf16_chars p left cps e : chars p left cps e → ∀ fuel acc, left ≤ Z.of_nat fuel →
  utf8_to_utf16_loop fuel p left acc = Some (Returned (acc ++ units_list cps)).
Proof.
  induction 1 as [p left Hl|p left cp n cps e Hl Hc Hn Hcp H4 _ IH]; intros fuel acc Hf.
  - rewrite app_nil_r. destruct fuel; cbn [utf8_to_utf16_loop]; by rewrite (proj2 (Z.leb_le left 0)).
  - destruct fuel as [|fuel]; [lia|]. cbn [utf8_to_utf16_loop]. rewrite (proj2 (Z.leb_gt left 0)), Hc by done.
    rewrite IH, units_list_cons, app_assoc by lia. unfold units_of. by case_match.
Qed.

Lemma utf8_to_utf16_length_chars p left cps e : chars p left cps e → ∀ fuel n, left ≤ Z.of_nat fuel → u32 n = n →
  utf8_to_utf16_length_loop fuel p left n = Some (Returned (if e =? 0 then s32 (u32 (n + Z.of_nat (length (units_list cps)))) else -1)).
Proof.
  induction 1 as [p left Hl|p left cp n cps e Hl Hc Hn Hcp H4 _ IH]; intros fuel m Hf Hm.
  - cbn [units_list length fmap list_fmap mjoin list_join]. rewrite Z.add_0_r, Hm.
    destruct fuel; cbn [utf8_to_utf16_length_loop]; by rewrite (proj2 (Z.leb_le left 0)).
  - destruct fuel as [|fuel]; [lia|]. cbn [utf8_to_utf16_length_loop]. rewrite (proj2 (Z.leb_gt left 0)), Hc by done.
    assert ((if 0xFFFF <? cp then u32 (u32 (m + 1) + 1) else u32 (m + 1)) = u32 (m + Z.of_nat (length (units_of cp)))) as ->.
    { unfold units_of. destruct (Z.ltb_spec 0xFFFF cp), (Z.leb_spec cp 0xFFFF); try lia; cbn [length]; rewrite ?u32_add_l; f_equal; lia. }
    rewrite IH by (lia || apply u32_idemp). by rewrite units_list_cons, length_app, Nat2Z.inj_add, u32_add_l, Z.add_assoc.
Qed.

(** The bytes of a character by its first one, and bytes that are whole
    characters one after the other, whatever follows each first byte. *)
Definition lead_length (b : Z) : nat := if b <? 0xC0 then 1 else if b <? 0xE0 then 2 else if b <? 0xF0 then 3 else 4.
Definition whole (l : list Z) : Prop :=
  ∃ chars : list (list Z), l = mjoin chars ∧ Forall (λ ch, ∃ b tl, ch = b :: tl ∧ length ch = lead_length b) chars.

Lemma codepoint_len_lead b : 0 ≤ b < 256 → utf8_codepoint_len b = Z.of_nat (lead_length b).
Proof. intros Hb. apply Z.eqb_eq. by_bytes 256%nat (λ b, utf8_codepoint_len b =? Z.of_nat (lead_length b)). Qed.

Lemma whole_cons b l : whole (b :: l) ↔ (lead_length b ≤ length (b :: l))%nat ∧ whole (drop (lead_length b) (b :: l)).
Proof.
  split.
  - intros (chs & Heq & Hchs). destruct Hchs as [|ch chs (b' & tl & -> & Hlen) Hchs]; [done|]. cbn [mjoin list_join app] in Heq. injection Heq as <- ->.
    change (b :: tl ++ mjoin chs) with ((b :: tl) ++ mjoin chs). rewrite <- Hlen, drop_app_length, length_app. split; [lia|by exists chs].
  - intros [Hlen (chs & Hd & Hchs)]. exists (take (lead_length b) (b :: l) :: chs). split; [change (b :: l = take (lead_length b) (b :: l) ++ mjoin chs); by rewrite <- Hd, take_drop|].
    constructor; [|done]. assert (∃ k, lead_length b = S k) as [k Hk] by (unfold lead_length; repeat case_match; eauto).
    exists b, (take k l). rewrite Hk in *. split; [done|]. cbn [take length] in *. rewrite length_take. lia.
Qed.

(** The last character ends at the end exactly when all are whole. *)
Lemma chars_whole p left cps e : chars p left cps e → byte_list p → 0 ≤ left ≤ Z.of_nat (length p) → e = 0 ↔ whole (take (Z.to_nat left) p).
Proof.
  induction 1 as [p left Hl|p left cp n cps e Hl Hc Hn Hcp H4 Hch IH]; intros Hp Hr.
  - assert (left = 0) as -> by lia. split; [by exists []|done].
  - destruct p as [|b p]; [done|]. assert (n = utf8_codepoint_len b) as Hnb.
    { unfold utf8_char in Hc. cbn [head oderef obind] in Hc. destruct (utf8_to_utf32_codepoint _ _); cbn in Hc; try done. by injection Hc as _ <-. }
    rewrite codepoint_len_lead in Hnb by (by apply Forall_inv in Hp).
    assert (∃ k, Z.to_nat left = S k) as [k Hk] by (exists (Z.to_nat left - 1)%nat; lia). rewrite Hk. cbn [take]. rewrite whole_cons.
    change (b :: take k p) with (take (S k) (b :: p)). rewrite <- Hk, length_take.
    destruct (Z.le_gt_cases n left) as [Hle|Hgt].
    + rewrite IH by (by apply Forall_drop || (rewrite length_drop; lia)). rewrite skipn_firstn_comm, Hnb, Nat2Z.id.
      replace (Z.to_nat (left - Z.of_nat (lead_length b))) with (Z.to_nat left - lead_length b)%nat by lia. split; [split; [lia|done]|by intros [_ ?]].
    + assert (e = left - n) as -> by (by inversion Hch; subst; [|lia]). split; [lia|]. intros [? _]. lia.
Qed.

(** C39: for any bytes, valid UTF-8 or not, the number of units computed first is the
    number that the conversion writes when the bytes are whole characters, by
    their first bytes, and [-1] exactly when the last character is cut by the
    end; both end, and read at most three bytes behind the source. *)
Theorem utf8_to_utf16_fits p u8len : byte_list p → 0 ≤ u8len < 2 ^ 30 → u8len + 3 ≤ Z.of_nat (length p) →
  ∃ n out, utf8_to_utf16_length p u8len = Some (Returned n) ∧ utf8_to_utf16_ p u8len = Some (Returned (out ++ [0])) ∧
           Z.of_nat (length out) ≤ u8len + 1 ∧
           (whole (take (Z.to_nat u8len) p) ∧ n = Z.of_nat (length out) ∨ ¬ whole (take (Z.to_nat u8len) p) ∧ n = -1).
Proof.
  intros Hp Hr Hl. destruct (chars_exist (Z.to_nat u8len) p u8len Hp ltac:(lia) Hl) as (cps & e & Hc).
  pose proof (chars_units_bound _ _ _ _ Hc) as Hb. pose proof (chars_whole _ _ _ _ Hc Hp ltac:(lia)) as Hw. eexists _, (units_list cps).
  unfold utf8_to_utf16_length, utf8_to_utf16_, utf8_to_utf16_no_null_terminator.
  rewrite (utf8_to_utf16_length_chars _ _ _ _ Hc), (utf8_to_utf16_chars _ _ _ _ Hc) by (done || lia). cbn [obind app].
  destruct (Z.ltb_spec 0 u8len); (split_and!; [done|done|lia|]); destruct (Z.eqb_spec e 0);
    (by right; rewrite <- Hw) || (left; rewrite <- Hw, u32_small, s32_small by lia; split; [done|lia]).
Qed.

Lemma units_of_utf16 c : scalar c → units_of c = utf16 c.
Proof.
  intros [Hc _]. unfold units_of, utf16, lead_unit, trail_unit. destruct (Z.leb_spec c 0xFFFF), (Z.ltb_spec c 0x10000); try lia.
  - unfold u16. by rewrite Z.mod_small by lia.
  - rewrite (u32_small (c - 0x10000)), Z.shiftr_div_pow2 by lia. change 0x3FF with (Z.ones 10). rewrite Z.land_ones by lia.
    change (2 ^ 10) with 1024. unfold u16. rewrite !Z.mod_small by (Z.to_euclidean_division_equations; lia). f_equal; [lia|f_equal; lia].
Qed.

Lemma units_list_utf16 cs : Forall scalar cs → units_list cs = utf16_all cs.
Proof. induction 1 as [|c cs Hc _ IH]; [done|]. by rewrite units_list_cons, utf16_all_cons, IH, units_of_utf16. Qed.

Lemma chars_encoded cs rest : Forall scalar cs → chars (utf8_all cs ++ rest) (Z.of_nat (length (utf8_all cs))) cs 0.
Proof.
  induction 1 as [|c cs Hc _ IH]; [by constructor|]. rewrite utf8_all_cons, <-app_assoc, length_app, Nat2Z.inj_add.
  pose proof (utf8_nonempty c). eapply (chars_next _ _ c (Z.of_nat (length (utf8 c)))); [lia|by apply utf8_char_encoded|lia|destruct Hc; lia| |].
  - intros H4. unfold utf8. repeat rewrite (proj2 (Z.ltb_ge _ _)) by lia. done.
  - rewrite Nat2Z.id, drop_app_length. by replace (Z.of_nat (length (utf8 c)) + _ - _) with (Z.of_nat (length (utf8_all cs))) by lia.
Qed.

Lemma utf8_all_pos cs : Forall scalar cs → cs ≠ [] → utf8_all cs ≠ [] ∧ utf16_all cs ≠ [].
Proof.
  destruct 1 as [|c cs Hc]; [done|]. intros _. rewrite utf8_all_cons, utf16_all_cons. pose proof (utf8_nonempty c).
  split; [destruct (utf8 c); [cbn in *; lia|done]|unfold utf16; by case_match].
Qed.

Lemma utf8_all_length cs : (length (utf8_all cs) ≤ 4 * length cs)%nat.
Proof. induction cs as [|c cs IH]; [done|]. rewrite utf8_all_cons, length_app. pose proof (utf8_nonempty c). cbn [length]. lia. Qed.
Lemma utf16_all_length cs : (length (utf16_all cs) ≤ 2 * length cs)%nat.
Proof. induction cs as [|c cs IH]; [done|]. rewrite utf16_all_cons, length_app. unfold utf16 at 1. case_match; cbn [length]; lia. Qed.

Lemma unit_list_utf16 cs : Forall scalar cs → unit_list (utf16_all cs) ∧ no_high_high (utf16_all cs) = true.
Proof.
  intros H. split.
  - induction H as [|c cs [Hc _] _ IH]; [constructor|]. rewrite utf16_all_cons. apply Forall_app. split; [|done]. unfold utf16.
    destruct (Z.ltb_spec c 0x10000); repeat (apply Forall_cons; split); try done; Z.to_euclidean_division_equations; lia.
  - induction H as [|c cs [Hc Hs] _ IH]; [done|]. rewrite utf16_all_cons. unfold utf16 at 1. destruct (Z.ltb_spec c 0x10000); cbn [app no_high_high].
    + assert (high c = false) as -> by (apply not_true_iff_false; rewrite high_range by lia; lia). by case_match.
    + assert (high (0xDC00 + (c - 65536) mod 1024) = false) as ->.
      { apply not_true_iff_false. rewrite high_range by (Z.to_euclidean_division_equations; lia). Z.to_euclidean_division_equations. lia. }
      rewrite andb_false_r. by case_match.
Qed.

(** Each direction for itself. *)
Lemma utf16_to_utf8_text cs rest : Forall scalar cs → cs ≠ [] → Z.of_nat (length cs) < 2 ^ 28 →
  utf16_to_utf8_length (Some (utf16_all cs ++ rest)) (Z.of_nat (length (utf16_all cs))) = Returned (Z.of_nat (length (utf8_all cs))) ∧
  utf16_to_utf8 (Some (utf16_all cs ++ rest)) (Z.of_nat (length (utf16_all cs))) = Returned (utf8_all cs ++ [0]).
Proof.
  intros Hcs Hne Hlen. pose proof (utf8_all_pos cs Hcs Hne) as [_ Hu]. pose proof (utf8_all_length cs). destruct (unit_list_utf16 cs Hcs) as [Hul Hhh].
  assert (sum_by utf32_codepoint_utf8_length cs = Z.of_nat (length (utf8_all cs))) as Hm by (by rewrite <-encode_all_length, encode_all).
  unfold utf16_to_utf8_length, utf16_to_utf8. rewrite (proj2 (Z.eqb_neq _ 0)) by (destruct (utf16_all cs); [done|cbn [length]; lia]).
  rewrite Nat2Z.id, (utf16_length_loop_spec (length (utf16_all cs))), (utf16_to_utf8_loop_spec (length (utf16_all cs))) by done.
  rewrite decode16_all, encode_all by done. cbn [obind app]. rewrite Hm. by rewrite u32_small, s32_small by lia.
Qed.

Lemma utf8_to_utf16_text cs rest : Forall scalar cs → Z.of_nat (length cs) < 2 ^ 28 →
  utf8_to_utf16_length (utf8_all cs ++ rest) (Z.of_nat (length (utf8_all cs))) = Some (Returned (Z.of_nat (length (utf16_all cs)))) ∧
  utf8_to_utf16_ (utf8_all cs ++ rest) (Z.of_nat (length (utf8_all cs))) = Some (Returned (utf16_all cs ++ [0])).
Proof.
  intros Hcs Hlen. pose proof (utf16_all_length cs). unfold utf8_to_utf16_, utf8_to_utf16_length, utf8_to_utf16_no_null_terminator.
  rewrite (utf8_to_utf16_length_chars _ _ _ _ (chars_encoded cs rest Hcs)), (utf8_to_utf16_chars _ _ _ _ (chars_encoded cs rest Hcs)) by (done || lia).
  rewrite units_list_utf16 by done. cbn [Z.eqb obind app]. by rewrite !u32_small, !s32_small by lia.
Qed.

(** C38: text in UTF-16 comes through UTF-8 unchanged: well-formed units are converted
    to the bytes that the standard gives their code points, those bytes back to the
    same units, and both lengths computed beforehand are exact. *)
Theorem utf16_utf8_roundtrip cs rest rest' : Forall scalar cs → cs ≠ [] → Z.of_nat (length cs) < 2 ^ 28 →
  let units := utf16_all cs in let bytes := utf8_all cs in
  let n := Z.of_nat (length units) in let m := Z.of_nat (length bytes) in
  utf16_to_utf8_length (Some (units ++ rest)) n = Returned m ∧ utf16_to_utf8 (Some (units ++ rest)) n = Returned (bytes ++ [0]) ∧
  utf8_to_utf16_length (bytes ++ rest') m = Some (Returned n) ∧ utf8_to_utf16_ (bytes ++ rest') m = Some (Returned (units ++ [0])).
Proof.
  intros Hcs Hne Hlen units bs n m. destruct (utf16_to_utf8_text cs rest Hcs Hne Hlen) as [H1 H2]. by destruct (utf8_to_utf16_text cs rest' Hcs Hlen) as [H3 H4].
Qed.

(** ** UTF-32 *)

Lemma utf32_to_utf8_loop_spec cs rest : ∀ cur, utf32_to_utf8_loop (length cs) (cs ++ rest) cur = Returned (cur ++ encode_list cs ++ [0]).
Proof.
  induction cs as [|c cs IH]; intros cur; [done|]. cbn [length app utf32_to_utf8_loop]. rewrite IH, encode_list_cons. by rewrite !app_assoc.
Qed.

Lemma utf32_length_loop_spec cs rest : ∀ ret, u32 ret = ret →
  utf32_to_utf8_length_loop (length cs) (cs ++ rest) ret = Returned (u32 (ret + sum_by utf32_codepoint_utf8_length cs)).
Proof.
  induction cs as [|c cs IH]; intros ret Hr; cbn [length app utf32_to_utf8_length_loop]; [cbn; by rewrite Z.add_0_r, Hr|].
  rewrite IH, sum_by_cons, u32_add_l by apply u32_idemp. by rewrite Z.add_assoc.
Qed.

Lemma utf8_to_utf32_loop_spec signed cs rest : Forall scalar cs → ∀ fuel acc, Z.of_nat (length (utf8_all cs)) ≤ Z.of_nat fuel →
  utf8_to_utf32_loop signed fuel (utf8_all cs ++ rest) (Z.of_nat (length (utf8_all cs))) acc = Some (Returned (acc ++ cs ++ [0])).
Proof.
  induction 1 as [|c cs Hc _ IH]; intros fuel acc Hf; [by destruct fuel|]. pose proof (utf8_nonempty c).
  rewrite utf8_all_cons, <-app_assoc, length_app, Nat2Z.inj_add in *. destruct fuel as [|fuel]; [lia|]. cbn [utf8_to_utf32_loop].
  rewrite (proj2 (Z.leb_gt _ 0)), at_encoded by (done || lia). rewrite Nat2Z.id, drop_app_length.
  replace (Z.of_nat (length (utf8 c)) + _ - _) with (Z.of_nat (length (utf8_all cs))) by lia. rewrite IH by lia.
  rewrite u32_small by (destruct Hc; lia). by rewrite <-app_assoc.
Qed.

(** Code points come through UTF-8 unchanged, and the lengths computed beforehand,
    of bytes and of code points, are exact. *)
Theorem utf32_utf8_roundtrip signed cs rest rest' : Forall scalar cs → cs ≠ [] → Z.of_nat (length cs) < 2 ^ 28 →
  let bytes := utf8_all cs in
  let n := Z.of_nat (length cs) in let m := Z.of_nat (length bytes) in
  utf32_to_utf8_length (Some (cs ++ rest)) n = Returned m ∧ utf32_to_utf8 (Some (cs ++ rest)) n = Returned (bytes ++ [0]) ∧
  utf8_to_utf32 signed (Some (bytes ++ rest')) m = Some (Returned (cs ++ [0])).
Proof.
  intros Hcs Hne Hlen bs n m. pose proof (utf8_all_pos cs Hcs Hne) as [Hb _]. pose proof (utf8_all_length cs).
  assert (sum_by utf32_codepoint_utf8_length cs = m) as Hm by (unfold m, bs; by rewrite <-encode_all_length, encode_all).
  unfold utf32_to_utf8_length, utf32_to_utf8, utf8_to_utf32.
  rewrite (proj2 (Z.eqb_neq n 0)) by (unfold n; destruct cs; [done|cbn [length]; lia]).
  rewrite (proj2 (Z.eqb_neq m 0)) by (unfold m, bs; destruct (utf8_all cs); [done|cbn [length]; lia]).
  unfold n. rewrite Nat2Z.id, utf32_length_loop_spec, utf32_to_utf8_loop_spec, encode_all by done. cbn [obind app].
  unfold m, bs in *. rewrite utf8_to_utf32_loop_spec by (done || lia). rewrite Hm. by rewrite u32_small, s32_small by lia.
Qed.

(** ** Lengths in UTF-32 *)

Lemma land_char signed b m : 0 ≤ b < 256 → 0 ≤ m < 256 → Z.land (char_value signed b) m = Z.land b m.
Proof.
  intros Hb Hm. unfold char_value. case_goal_if; [|done]. rewrite <-(Z.mod_small m (2 ^ 8)) by done. rewrite <-(Z.land_ones m 8) by lia.
  rewrite (Z.land_comm m), !Z.land_assoc, !Z.land_ones by lia. f_equal. Z.to_euclidean_division_equations. lia.
Qed.

Lemma at_loop_skip turns : ∀ signed b cur n mask ignore x, 0 ≤ b < 256 → 0 ≤ mask < 2 ^ Z.of_nat turns → mask < 256 → (turns ≤ length cur)%nat →
  ∃ ignore' x', utf32_at_loop (char_value signed b) cur n mask ignore x = Returned (num_to_skip_loop turns b mask n, ignore', x').
Proof.
  induction turns as [|turns IH]; intros signed b cur n mask ignore x Hb Hm Hm8 Hl; cbn [num_to_skip_loop].
  - assert (mask = 0) as -> by (cbn in Hm; lia). exists (Z.lor ignore 0), x. apply utf32_at_stop. by rewrite Z.land_0_r.
  - destruct (Z.land b mask =? 0) eqn:E.
    + eexists _, _. apply utf32_at_stop. by rewrite land_char by lia.
    + destruct cur as [|c cur]; cbn [length] in Hl; [lia|]. rewrite (utf32_at_step _ c cur n mask (Z.shiftr mask 1)) by (done || by rewrite land_char by lia).
      rewrite Z.shiftr_div_pow2 by lia. change (2 ^ 1) with 2. rewrite Nat2Z.inj_succ, Z.pow_succ_r in Hm by lia.
      apply IH; [done| | |lia]; Z.to_euclidean_division_equations; lia.
Qed.

Lemma num_to_skip_range b : 0 ≤ b < 0xFE → 1 ≤ num_to_skip b ≤ 6.
Proof.
  intros Hb. rewrite <-!Z.leb_le, <-andb_true_iff. by_bytes 254%nat (λ b, (1 <=? num_to_skip b) && (num_to_skip b <=? 6)).
Qed.

Lemma at_total signed b cur : 0 ≤ b < 0xFE → (7 ≤ length cur)%nat → ∃ c, utf32_at_internal signed (b :: cur) = Returned (c, num_to_skip b).
Proof.
  intros Hb Hl. pose proof (num_to_skip_range b Hb) as Hn. unfold utf32_at_internal. unfold num_to_skip in *. rewrite land_char by lia.
  destruct (Z.land b 0x80 =? 0); [by eexists|].
  destruct (at_loop_skip 7 signed b cur 1 0x40 0xFFFFFF80 (u32 (char_value signed b))) as (ig & x & ->); [lia|lia|lia|done|]. cbn [obind].
  rewrite (proj2 (Z.leb_gt _ _)) by lia. by eexists.
Qed.

Lemma utf32_lockstep signed fuel : ∀ p left acc ret, Forall (λ b, 0 ≤ b < 0xFE) p → left ≤ Z.of_nat fuel → left + 7 ≤ Z.of_nat (length p) →
  u32 ret = ret → ∃ out, Z.of_nat (length out) ≤ Z.max 0 left ∧ utf8_to_utf32_loop signed fuel p left acc = Some (Returned (acc ++ out ++ [0])) ∧
    utf8_to_utf32_length_loop fuel p left ret = Some (Returned (u32 (ret + Z.of_nat (length out)))).
Proof.
  induction fuel as [|fuel IH]; intros p left acc ret Hp Hf Hl Hret; cbn [utf8_to_utf32_loop utf8_to_utf32_length_loop].
  all: destruct (Z.leb_spec left 0) as [H0|H0]; [exists []; cbn [length app]; rewrite Z.add_0_r, Hret; split_and!; [lia|done|done]|]; try lia.
  destruct p as [|b p]; [cbn in Hl; lia|]. pose proof Hp as [Hb _]%Forall_cons. pose proof (num_to_skip_range b Hb).
  destruct (at_total signed b p Hb) as [c ->]; [cbn [length] in Hl; lia|].
  destruct (IH (drop (Z.to_nat (num_to_skip b)) (b :: p)) (left - num_to_skip b) (acc ++ [u32 c]) (u32 (ret + 1))) as (out & Ho & -> & ->);
    [by apply Forall_drop|lia|rewrite length_drop; lia|apply u32_idemp|].
  exists (u32 c :: out). cbn [length]. rewrite u32_add_l, <-app_assoc. split_and!; [lia|done|]. do 3 f_equal. lia.
Qed.

(** For any bytes below [0xFE], valid UTF-8 or not, the number of code points computed
    first is the number that the conversion writes; both end. *)
Theorem utf8_to_utf32_fits signed p src_len : Forall (λ b, 0 ≤ b < 0xFE) p → 0 < src_len < 2 ^ 32 → src_len + 7 ≤ Z.of_nat (length p) →
  ∃ n out, utf8_to_utf32_length (Some p) src_len = Some (Returned n) ∧ utf8_to_utf32 signed (Some p) src_len = Some (Returned (out ++ [0])) ∧
           Z.of_nat (length out) = n ∧ n ≤ src_len.
Proof.
  intros Hp Hr Hl. destruct (utf32_lockstep signed (Z.to_nat src_len) p src_len [] 0 Hp ltac:(lia) Hl eq_refl) as (out & Ho & H1 & H2).
  exists (Z.of_nat (length out)), out. unfold utf8_to_utf32_length, utf8_to_utf32. rewrite (proj2 (Z.eqb_neq src_len 0)), H1, H2 by lia.
  rewrite u32_small by lia. split_and!; [done|done|done|lia].
Qed.

(** ** The bounded conversion *)

(** What remains to be converted when it stops. *)
Definition no_room (suf : list Z) (at_ dstLen : Z) : Prop :=
  suf = [] ∨ at_ = dstLen ∨ at_ = dstLen - 1 ∧ ∃ cp suf', suf = cp :: suf' ∧ 0xFFFF < cp.

Lemma utf8_to_utf16_n_chars p left cps e : chars p left cps e → ∀ fuel acc dstLen, left ≤ Z.of_nat fuel → Z.of_nat (length acc) ≤ dstLen →
  ∃ written pre suf, cps = pre ++ suf ∧
    utf8_to_utf16_n_loop fuel p left acc dstLen = Some (Returned (written, Z.of_nat (length (acc ++ units_list pre)))) ∧
    Z.of_nat (length written) ≤ dstLen ∧ take (length (acc ++ units_list pre)) written = acc ++ units_list pre ∧
    no_room suf (Z.of_nat (length (acc ++ units_list pre))) dstLen.
Proof.
  induction 1 as [p left Hl|p left cp n cps e Hl Hc Hn Hcp H4 _ IH]; intros fuel acc dstLen Hf Ha.
  { exists acc, [], []. rewrite (units_list_nil acc), take_ge by done. destruct fuel; cbn [utf8_to_utf16_n_loop]; rewrite (proj2 (Z.leb_le left 0)) by done; (split_and!; [done|done|done|done|by left]). }
  destruct fuel as [|fuel]; [lia|]. cbn [utf8_to_utf16_n_loop]. rewrite (proj2 (Z.leb_gt left 0)), Hc by done. cbn [orb].
  destruct (Z.leb_spec dstLen (Z.of_nat (length acc))).
  { exists acc, [], (cp :: cps). rewrite (units_list_nil acc), take_ge by done. split_and!; [done|done|done|done|]. right. left. lia. }
  assert (∀ l, units_of cp = l → Z.of_nat (length (acc ++ l)) ≤ dstLen → ∃ written pre suf, cp :: cps = pre ++ suf ∧
    utf8_to_utf16_n_loop fuel (drop (Z.to_nat n) p) (left - n) (acc ++ l) dstLen = Some (Returned (written, Z.of_nat (length (acc ++ units_list pre)))) ∧
    Z.of_nat (length written) ≤ dstLen ∧ take (length (acc ++ units_list pre)) written = acc ++ units_list pre ∧
    no_room suf (Z.of_nat (length (acc ++ units_list pre))) dstLen) as Hnext.
  { intros l Hu Hr. destruct (IH fuel (acc ++ l) dstLen ltac:(lia) Hr) as (w & pre & suf & -> & He & Hw & Ht & Hs).
    exists w, (cp :: pre), suf. rewrite units_list_cons, Hu, app_assoc. by split_and!. }
  unfold units_of in Hnext. destruct (Z.leb_spec cp 0xFFFF).
  - apply Hnext; [done|rewrite length_app; cbn; lia].
  - destruct (Z.leb_spec dstLen (Z.of_nat (length (acc ++ [lead_unit cp])))) as [Hfull|Hroom]; rewrite length_app in *; cbn [length] in *.
    + exists (acc ++ [lead_unit cp]), [], (cp :: cps). rewrite units_list_nil, take_app_length.
      split_and!; [done|do 3 f_equal; lia|rewrite length_app; cbn; lia|done|]. right. right. split; [lia|eauto].
    + rewrite <-app_assoc. apply Hnext; [done|rewrite length_app; cbn; lia].
Qed.

(** C0: [utf8_to_utf16_n] writes at most the units there is room for, and the
    pointer it returns ends the units of the first code points of the whole
    conversion: of all of them, or of as many as fit without dividing a pair. *)
Theorem utf8_to_utf16_n_prefix p srcLen dstLen : byte_list p → 0 ≤ srcLen → srcLen + 3 ≤ Z.of_nat (length p) → 0 ≤ dstLen →
  ∃ pre suf written, utf8_to_utf16_no_null_terminator p srcLen = Some (Returned (units_list (pre ++ suf))) ∧
    let at_ := length (units_list pre) in
    utf8_to_utf16_n p srcLen dstLen = Some (Returned (written, Z.of_nat at_)) ∧ Z.of_nat (length written) ≤ dstLen ∧
    take at_ written = units_list pre ∧ no_room suf (Z.of_nat at_) dstLen.
Proof.
  intros Hp Hs Hl Hd. destruct (chars_exist (Z.to_nat srcLen) p srcLen Hp ltac:(lia) Hl) as (cps & e & Hc).
  destruct (utf8_to_utf16_n_chars _ _ _ _ Hc (Z.to_nat srcLen) [] dstLen ltac:(lia) ltac:(cbn; lia)) as (w & pre & suf & -> & Hn & Hw & Ht & Hr).
  exists pre, suf, w. split; [|by cbv zeta; split_and!]. unfold utf8_to_utf16_no_null_terminator. by rewrite (utf8_to_utf16_chars _ _ _ _ Hc) by lia.
Qed.

(** ** Strings of units *)

(** The order of strings: by the first unit that differs, a shorter one first. *)
Fixpoint lexicographic (s1 s2 : list Z) : Z :=
  match s1, s2 with
  | [], [] => 0
  | [], _ :: _ => -1
  | _ :: _, [] => 1
  | c1 :: s1, c2 :: s2 => if c1 =? c2 then lexicographic s1 s2 else Z.sgn (c1 - c2)
  end.

Lemma strzcmp16_sign conv s1 s2 r1 r2 : Forall (λ c, 0 < c) s1 → Forall (λ c, 0 < conv c) s2 →
  ∃ d, strzcmp16_loop conv (length s1) (length s2) (s1 ++ r1) (s2 ++ r2) = Returned d ∧ Z.sgn d = lexicographic s1 (conv <$> s2).
Proof.
  intros H1. revert s2. induction H1 as [|c1 s1 Hc1 _ IH]; intros s2 H2; destruct H2 as [|c2 s2 Hc2 H2]; cbn [length app strzcmp16_loop lexicographic fmap list_fmap].
  - by exists 0.
  - eexists. split; [done|]. apply Z.sgn_neg. lia.
  - eexists. split; [done|]. apply Z.sgn_pos. lia.
  - destruct (Z.eqb_spec c1 (conv c2)) as [->|Hne].
    + rewrite Z.sub_diag. cbn [negb Z.eqb]. by apply IH.
    + rewrite (proj2 (Z.eqb_neq (c1 - conv c2) 0)) by lia. cbn [negb]. by eexists.
Qed.

Lemma fmap_id_list (l : list Z) : (λ c, c) <$> l = l.
Proof. apply list_fmap_id. Qed.

(** Comparing two strings of given lengths without zero units is comparing them in
    the order of strings. *)
Theorem strzcmp16_order s1 s2 r1 r2 : Forall (λ c, 0 < c) s1 → Forall (λ c, 0 < c) s2 →
  ∃ d, strzcmp16 (s1 ++ r1) (Z.of_nat (length s1)) (s2 ++ r2) (Z.of_nat (length s2)) = Returned d ∧ Z.sgn d = lexicographic s1 s2.
Proof.
  intros H1 H2. unfold strzcmp16. rewrite !Nat2Z.id. destruct (strzcmp16_sign (λ c, c) s1 s2 r1 r2 H1 H2) as (d & -> & Hd).
  exists d. by rewrite fmap_id_list in Hd.
Qed.

Lemma ntohs_swap u : 0 ≤ u < 2 ^ 16 → ntohs u = (u mod 256) * 256 + u / 256.
Proof.
  intros Hu. unfold ntohs. rewrite (Z.shiftr_div_pow2 u 8) by lia. change (2 ^ 8) with 256.
  change 255 with (Z.ones 8). rewrite (Z.land_ones (u / 256)) by lia. change (2 ^ 8) with 256. rewrite (Z.mod_small (u / 256)) by (Z.to_euclidean_division_equations; lia).
  replace (Z.land (Z.shiftl u 8) 0xff00) with (Z.shiftl (u mod 256) 8).
  - rewrite lor_low by (Z.to_euclidean_division_equations; lia). change (2 ^ 8) with 256. lia.
  - change 0xff00 with (Z.shiftl (Z.ones 8) 8). rewrite <-Z.shiftl_land, Z.land_ones by lia. done.
Qed.

(** A string in the order of bytes of the network compares like the string it stands
    for. *)
Theorem strzcmp16_h_n_order s1 s2 r1 r2 : Forall (λ c, 0 < c) s1 → Forall (λ c, 0 < c < 2 ^ 16) s2 →
  ∃ d, strzcmp16_h_n (s1 ++ r1) (Z.of_nat (length s1)) ((ntohs <$> s2) ++ r2) (Z.of_nat (length s2)) = Returned d ∧ Z.sgn d = lexicographic s1 s2.
Proof.
  intros H1 H2. assert (∀ u, 0 < u < 2 ^ 16 → ntohs (ntohs u) = u) as Hinv.
  { intros u Hu. rewrite (ntohs_swap u) by lia. rewrite ntohs_swap; Z.to_euclidean_division_equations; lia. }
  assert (ntohs <$> (ntohs <$> s2) = s2) as Hs.
  { rewrite <-list_fmap_compose. rewrite <-(list_fmap_id s2) at 2. apply list_fmap_ext. intros i u Hi. cbn. apply Hinv. by eapply Forall_lookup in H2. }
  unfold strzcmp16_h_n. rewrite !Nat2Z.id. rewrite <-(length_fmap ntohs s2).
  destruct (strzcmp16_sign ntohs s1 (ntohs <$> s2) r1 r2 H1) as (d & -> & Hd); [|exists d; by rewrite Hs in Hd].
  apply Forall_fmap. eapply Forall_impl; [exact H2|]. intros u Hu. cbv beta in Hu. change (0 < ntohs (ntohs u)). rewrite Hinv by done. lia.
Qed.

(** Terminated strings: comparing, measuring and copying. *)
Theorem strcmp16_order s1 s2 r1 r2 : Forall (λ c, 0 < c) s1 → Forall (λ c, 0 < c) s2 →
  ∃ d, strcmp16 (s1 ++ 0 :: r1) (s2 ++ 0 :: r2) = Returned d ∧ Z.sgn d = lexicographic s1 s2.
Proof.
  intros H1. revert s2. induction H1 as [|c1 s1 Hc1 _ IH]; intros s2 H2; destruct H2 as [|c2 s2 Hc2 H2]; cbn [app strcmp16 lexicographic].
  - by exists 0.
  - rewrite orb_true_r. eexists. split; [done|]. apply Z.sgn_neg. lia.
  - rewrite Z.sub_0_r, (proj2 (Z.eqb_neq c1 0)) by lia. eexists. split; [done|]. apply Z.sgn_pos. lia.
  - rewrite (proj2 (Z.eqb_neq c1 0)), orb_false_r by lia. destruct (Z.eqb_spec c1 c2) as [->|Hne].
    + rewrite Z.sub_diag. cbn [negb Z.eqb]. by apply IH.
    + rewrite (proj2 (Z.eqb_neq (c1 - c2) 0)) by lia. cbn [negb]. by eexists.
Qed.

Theorem strncmp16_zero s1 s2 n : 0 ≤ n → n ≤ Z.of_nat (length s1) → n ≤ Z.of_nat (length s2) → Forall (λ c, 0 < c) s1 →
  ∃ d, strncmp16 s1 s2 n = Returned d ∧ (d = 0 ↔ take (Z.to_nat n) s1 = take (Z.to_nat n) s2).
Proof.
  intros Hn. unfold strncmp16. rewrite <-(Z2Nat.id n) at 1 2 by done. generalize (Z.to_nat n) as k. clear n Hn. intros k.
  revert s1 s2. induction k as [|k IH]; intros s1 s2 H1 H2 Hp; cbn [strncmp16_loop take]; [by exists 0|].
  destruct Hp as [|c1 s1 Hc1 Hp]; [cbn in H1; lia|]. destruct s2 as [|c2 s2]; [cbn in H2; lia|]. cbn [length take] in *.
  rewrite (proj2 (Z.eqb_neq c1 0)), orb_false_r by lia. destruct (Z.eqb_spec c1 c2) as [->|Hne].
  - rewrite Z.sub_diag. cbn [negb Z.eqb]. destruct (IH s1 s2 ltac:(lia) ltac:(lia) Hp) as (d & -> & Hd). exists d. split; [done|]. rewrite Hd.
    split; [by intros ->|by intros [=]].
  - rewrite (proj2 (Z.eqb_neq (c1 - c2) 0)) by lia. cbn [negb]. eexists. split; [done|]. split; [lia|by intros [=]].
Qed.

Lemma strlen32_loop_spec s r : Forall (λ c, c ≠ 0) s → ∀ n, strlen32_loop (s ++ 0 :: r) n = Returned (n + Z.of_nat (length s)).
Proof.
  induction 1 as [|c s Hc _ IH]; intros n; cbn [app strlen32_loop length]; [by rewrite Z.add_0_r|].
  rewrite (proj2 (Z.eqb_neq c 0)), IH by done. f_equal. lia.
Qed.

Lemma strcpy16_loop_spec s r : Forall (λ c, c ≠ 0) s → ∀ q, strcpy16_loop (s ++ 0 :: r) q = Returned (q ++ s ++ [0]).
Proof.
  induction 1 as [|c s Hc _ IH]; intros q; cbn [app strcpy16_loop]; [done|]. rewrite (proj2 (Z.eqb_neq c 0)), IH by done. by rewrite <-app_assoc.
Qed.

Lemma strnlen32_loop_spec s r : Forall (λ c, c ≠ 0) s → ∀ k n,
  strnlen32_loop k (s ++ 0 :: r) n = Returned (n + Z.min (Z.of_nat k) (Z.of_nat (length s))) ∧
  ((k ≤ length s)%nat → strnlen32_loop k s n = Returned (n + Z.of_nat k)).
Proof.
  induction 1 as [|c s Hc _ IH]; intros [|k] n; cbn [app strnlen32_loop length].
  - by rewrite !Z.add_0_r.
  - split; [by rewrite Z.min_r, Z.add_0_r by lia|lia].
  - rewrite Z.min_l, Z.add_0_r by lia. done.
  - rewrite (proj2 (Z.eqb_neq c 0)) by done. destruct (IH k (n + 1)) as [-> H2]. split; [f_equal; lia|]. intros Hk. rewrite H2 by lia. f_equal. lia.
Qed.

(** The length of a string is that of its units; the bounded length reads no more than
    the bound; a copy has the units and the terminator, one unit more than the length. *)
Theorem strlen16_strcpy16 s r : Forall (λ c, c ≠ 0) s →
  strlen16 (s ++ 0 :: r) = Returned (Z.of_nat (length s)) ∧ strcpy16 (s ++ 0 :: r) = Returned (s ++ [0]) ∧
  (∀ k, 0 ≤ k → strnlen16 (s ++ 0 :: r) k = Returned (Z.min k (Z.of_nat (length s)))) ∧
  (∀ k, 0 ≤ k ≤ Z.of_nat (length s) → strnlen16 s k = Returned k).
Proof.
  intros Hs. unfold strlen16, strcpy16, strnlen16. split_and!.
  - by apply strlen32_loop_spec.
  - by apply strcpy16_loop_spec.
  - intros k Hk. rewrite (proj1 (strnlen32_loop_spec s r Hs _ _)). rewrite Z2Nat.id by done. done.
  - intros k Hk. rewrite (proj2 (strnlen32_loop_spec s [] Hs (Z.to_nat k) 0)) by lia. f_equal. lia.
Qed.

(** [strncpy16] always writes one unit more than it takes from the source, also
    when it has taken [n]. *)
Lemma strncpy16_writes signed p : ∀ n q out, strncpy16_loop signed n p q = Returned out →
  (length q < length out)%nat ∧ last out = Some 0 ∧ (length out ≤ length q + n + 1)%nat.
Proof.
  induction p as [|u p IH]; intros [|n] q out; cbn [strncpy16_loop]; try done.
  1,2: intros [= <-]; rewrite length_app, last_snoc; cbn; split_and!; [lia|done|lia].
  case_match; [intros [= <-]; rewrite !length_app, last_snoc; cbn; split_and!; [lia|done|lia]|].
  intros Hr%IH. rewrite length_app in Hr. cbn in Hr. destruct Hr as (? & ? & ?). split_and!; [lia|done|lia].
Qed.

(** [strncpy16]: what it writes ends with zero, and takes one unit more than [n] when
    it stops at [n]. *)
Theorem strncpy16_fits signed src n out : 0 ≤ n → strncpy16 signed src n = Returned out →
  out ≠ [] ∧ last out = Some 0 ∧ Z.of_nat (length out) ≤ n + 1.
Proof. intros Hn (? & ? & ?)%strncpy16_writes. cbn in *. split_and!; [by destruct out; [cbn in *; lia|]|done|lia]. Qed.

(** The bound is reached, and the units are cut to a [char] on the way. *)
Theorem strncpy16_narrows : strncpy16 false [0x3b1; 0x141] 2 = Returned [0xb1; 0x41; 0] ∧ strncpy16 false [0x100; 0x41] 2 = Returned [0; 0].
Proof. by vm_compute. Qed.

(** A unpaired high surrogate in front of a pair: nothing is counted, four bytes and
    the terminator are written. *)
Theorem utf16_to_utf8_undercounts :
  utf16_to_utf8_length (Some [0xD800; 0xD800; 0xDC00]) 3 = Returned 0 ∧
  utf16_to_utf8 (Some [0xD800; 0xD800; 0xDC00]) 3 = Returned [0xF0; 0x90; 0x80; 0x80; 0].
Proof. by vm_compute. Qed.

(** A string whose last character is cut is read behind its end, here behind the memory of
    the string and its terminator. *)
Theorem utf8_to_utf16_length_reads_on : utf8_to_utf16_length [0xE2; 0] 1 = Some Undefined.
Proof. done. Qed.

(** ** Checking UTF-8 *)

(** The bits of a first byte that [utf8_length] tests and takes. *)
Definition length_tests (b n a : Z) : bool :=
  negb (Z.land b 0x80 =? 0) && negb (Z.land b 0x40 =? 0) && eqb (Z.land b 0x20 =? 0) (n =? 2) &&
  ((n =? 2) || eqb (Z.land b 0x10 =? 0) (n =? 3)) && ((n <? 4) || (Z.land b 0x08 =? 0)) &&
  (Z.land (Z.lnot (if n =? 2 then 0xE0 else if n =? 3 then 0xF0 else 0xF8)) b =? a).

Lemma length_byte a :
  (0 ≤ a < 32 → length_tests (0xC0 + a) 2 a = true) ∧ (0 ≤ a < 16 → length_tests (0xE0 + a) 3 a = true) ∧
  (0 ≤ a < 8 → length_tests (0xF0 + a) 4 a = true).
Proof.
  split_and!; intros Ha.
  - by_bytes 32%nat (λ a, length_tests (0xC0 + a) 2 a).
  - by_bytes 16%nat (λ a, length_tests (0xE0 + a) 3 a).
  - by_bytes 8%nat (λ a, length_tests (0xF0 + a) 4 a).
Qed.

Lemma tail_step f y cur n mask mask' ignore x : (Z.land f mask =? 0) = false → mask' = Z.shiftr mask 1 → n < 5 → 0 ≤ y < 64 → 0 ≤ x < 2 ^ 20 →
  utf8_length_tail f (0x80 + y :: cur) n mask ignore x = utf8_length_tail f cur (n + 1) mask' (Z.lor ignore mask) (x * 64 + y).
Proof.
  intros Hm -> Hn Hy Hx. cbn [utf8_length_tail]. rewrite (proj2 (Z.ltb_lt n 5)), Hm by done. cbn [andb negb].
  assert ((Z.land (0x80 + y) 0xC0 =? 0x80) = true) as -> by (by_bytes 64%nat (λ y, Z.land (0x80 + y) 0xC0 =? 0x80)). cbn [negb].
  assert (Z.land (0x80 + y) 0x3F = y) as ->.
  { apply Z.eqb_eq. by_bytes 64%nat (λ y, Z.land (0x80 + y) 0x3F =? y). }
  rewrite Z.shiftl_mul_pow2, (u32_small (x * _)), u32_small by lia. done.
Qed.

Lemma tail_stop f cur n mask ignore x : (Z.land f mask =? 0) = true → utf8_length_tail f cur n mask ignore x = Returned (Some (n, Z.lor ignore mask, x, cur)).
Proof. intros Hm. destruct cur; cbn [utf8_length_tail]; by rewrite Hm, andb_false_r. Qed.

Lemma top_bits x a k : 0 ≤ x < 2 ^ k → 0 ≤ k < 24 → 0 ≤ a < 32 → Z.lor x (u32 (Z.shiftl a k)) = a * 2 ^ k + x.
Proof.
  intros Hx Hk Ha. assert (2 ^ k < 2 ^ 24) by (apply Z.pow_lt_mono_r; lia).
  rewrite u32_small by (rewrite Z.shiftl_mul_pow2 by lia; nia). by rewrite Z.lor_comm, lor_low by lia.
Qed.

(** The first byte, and what the [for] leaves for it and the bytes behind it. *)
Definition scan (c : Z) (p : list Z) (n ignore x : Z) : Prop :=
  ∃ b q, utf8 c ++ p = b :: q ∧ b ≠ 0 ∧ (Z.land b 0x80 =? 0) = false ∧ (Z.land b 0x40 =? 0) = false ∧
    utf8_length_tail b q 1 0x40 0x80 0 = Returned (Some (n, ignore, x, p)) ∧
    Z.lor x (u32 (Z.shiftl (Z.land (Z.lnot ignore) b) (6 * (n - 1)))) = c ∧ n = Z.of_nat (length (utf8 c)).

Lemma scan_encoded c p : scalar c → 0x80 ≤ c → ∃ n ignore x, scan c p n ignore x.
Proof.
  intros [Hc _] H80. destruct (digits64 c Hc) as (D1 & D2 & D3 & R1 & R2 & R3 & R4). unfold scan, utf8. rewrite (proj2 (Z.ltb_ge c 0x80)) by done.
  assert (∀ b n a, length_tests b n a = true → (Z.land b 0x80 =? 0) = false ∧ (Z.land b 0x40 =? 0) = false ∧ (Z.land b 0x20 =? 0) = (n =? 2) ∧
    ((n =? 2) || eqb (Z.land b 0x10 =? 0) (n =? 3)) = true ∧ ((n <? 4) || (Z.land b 0x08 =? 0)) = true ∧
    Z.land (Z.lnot (if n =? 2 then 0xE0 else if n =? 3 then 0xF0 else 0xF8)) b = a) as Hsplit.
  { intros b n a H. unfold length_tests in H. rewrite !andb_true_iff, !negb_true_iff, Z.eqb_eq in H. destruct H as [[[[[? ?] ?%eqb_prop] ?] ?] ?]. by split_and!. }
  destruct (length_byte (c / 64)) as (L2 & _). destruct (length_byte (c / 4096)) as (_ & L3 & _). destruct (length_byte (c / 262144)) as (_ & _ & L4).
  destruct (Z.ltb_spec c 0x800); [|destruct (Z.ltb_spec c 0x10000)]; cbn [app length].
  - destruct (Hsplit _ _ _ (L2 ltac:(lia))) as (T1 & T2 & T3 & _ & _ & Hl). eexists _, _, _, _, _. split_and!; [done|lia|done|done| | |done].
    + rewrite (tail_step _ _ _ _ _ 0x20 _ _ T2 eq_refl), (tail_stop _ _ _ _ _ _ T3) by lia. done.
    + cbn [Z.eqb Pos.eqb] in Hl. change (Z.lor (Z.lor 0x80 0x40) 0x20) with 0xE0. rewrite Hl, top_bits by lia. lia.
  - destruct (Hsplit _ _ _ (L3 ltac:(lia))) as (T1 & T2 & T3 & T4%eqb_prop & _ & Hl). eexists _, _, _, _, _. split_and!; [done|lia|done|done| | |done].
    + rewrite (tail_step _ _ _ _ _ 0x20 _ _ T2 eq_refl), (tail_step _ _ _ _ _ 0x10 _ _ T3 eq_refl), (tail_stop _ _ _ _ _ _ T4) by lia. done.
    + cbn [Z.eqb Pos.eqb] in Hl. change (Z.lor (Z.lor (Z.lor 0x80 0x40) 0x20) 0x10) with 0xF0. rewrite Hl, top_bits by lia. lia.
  - destruct (Hsplit _ _ _ (L4 ltac:(lia))) as (T1 & T2 & T3 & T4%eqb_prop & T5 & Hl). eexists _, _, _, _, _. split_and!; [done|lia|done|done| | |done].
    + rewrite (tail_step _ _ _ _ _ 0x20 _ _ T2 eq_refl), (tail_step _ _ _ _ _ 0x10 _ _ T3 eq_refl),
        (tail_step _ _ _ _ _ 0x08 _ _ T4 eq_refl), (tail_stop _ _ _ _ _ _ T5) by lia. done.
    + cbn [Z.eqb Pos.eqb] in Hl. change (Z.lor (Z.lor (Z.lor (Z.lor 0x80 0x40) 0x20) 0x10) 0x08) with 0xF8. rewrite Hl, top_bits by lia. lia.
Qed.

Lemma utf8_length_loop_spec cs rest : Forall (λ c, scalar c ∧ c ≠ 0) cs → ∀ fuel ret, (length (utf8_all cs) ≤ fuel)%nat → u32 ret = ret →
  utf8_length_loop false fuel (utf8_all cs ++ 0 :: rest) ret = Some (Returned (s32 (u32 (ret + Z.of_nat (length (utf8_all cs)))))).
Proof.
  induction 1 as [|c cs [Hc H0] _ IH]; intros fuel ret Hf Hret.
  { destruct fuel; cbn [utf8_all fmap list_fmap mjoin list_join app utf8_length_loop Z.eqb length]; by rewrite Z.add_0_r, Hret. }
  rewrite utf8_all_cons, <-app_assoc, length_app in *. pose proof (utf8_nonempty c). destruct fuel as [|fuel]; [lia|].
  destruct (Z.lt_ge_cases c 0x80) as [H8|H8].
  - assert (utf8 c = [c]) as Hu by (unfold utf8; by rewrite (proj2 (Z.ltb_lt c 0x80))). rewrite Hu in *. cbn [app length] in *.
    cbn [utf8_length_loop]. rewrite (proj2 (Z.eqb_neq c 0)) by done. unfold char_value. cbn [andb].
    assert ((Z.land c 0x80 =? 0) = true) as -> by (destruct Hc; by_bytes 128%nat (λ c, Z.land c 0x80 =? 0)).
    rewrite IH by (lia || apply u32_idemp). rewrite u32_add_l. do 4 f_equal. lia.
  - destruct (scan_encoded c (utf8_all cs ++ 0 :: rest) Hc H8) as (n & ig & x & b & q & -> & Hb & T1 & T2 & Ht & Hv & Hn).
    cbn [utf8_length_loop]. rewrite (proj2 (Z.eqb_neq b 0)) by done. unfold char_value. cbn [andb]. rewrite T1, T2, Ht, Hv.
    rewrite (proj2 (Z.eqb_neq n 5)), (proj2 (Z.ltb_ge _ _)) by (unfold kUnicodeMaxCodepoint; destruct Hc; lia).
    rewrite IH by (lia || apply u32_idemp). rewrite u32_add_l. do 4 f_equal. lia.
Qed.

(** With unsigned characters [utf8_length] accepts every text and answers its number of
    bytes.  With signed ones it rejects what is not ASCII. *)
Theorem utf8_length_accepts cs rest : Forall (λ c, scalar c ∧ c ≠ 0) cs → Z.of_nat (length cs) < 2 ^ 28 →
  utf8_length false (utf8_all cs ++ 0 :: rest) = Some (Returned (Z.of_nat (length (utf8_all cs)))).
Proof.
  intros Hcs Hl. pose proof (utf8_all_length cs). unfold utf8_length. rewrite utf8_length_loop_spec by (done || (rewrite length_app; lia)).
  by rewrite u32_small, s32_small by lia.
Qed.

Theorem utf8_length_signed : utf8_length true [0xC3; 0xA9; 0] = Some (Returned (-1)) ∧ utf8_length false [0xC3; 0xA9; 0] = Some (Returned 2).
Proof. by vm_compute. Qed.

(** ** At concrete texts *)

(** Letters of one to four bytes. *)
Definition demo_text : list Z := [0x61; 0xE9; 0x20AC; 0x1F600].
Lemma demo_scalar : Forall scalar demo_text.
Proof. unfold demo_text, scalar. repeat constructor; lia. Qed.

Lemma utf16_to_utf8_fits_witness :
  ∃ n out, utf16_to_utf8_length (Some [0xDC00; 0xD83D; 0xDE00; 0xD800; 0x61]) 5 = Returned n ∧
           utf16_to_utf8 (Some [0xDC00; 0xD83D; 0xDE00; 0xD800; 0x61]) 5 = Returned (out ++ [0]) ∧ Z.of_nat (length out) = n.
Proof.
  apply (utf16_to_utf8_fits [0xDC00; 0xD83D; 0xDE00; 0xD800; 0x61] []); [unfold unit_list; repeat constructor; lia|by vm_compute|done|done].
Defined.

Lemma utf8_to_utf16_fits_witness :
  ∃ n out, utf8_to_utf16_length [0xFF; 0x80; 0xE2; 0; 0; 0] 3 = Some (Returned n) ∧
           utf8_to_utf16_ [0xFF; 0x80; 0xE2; 0; 0; 0] 3 = Some (Returned (out ++ [0])) ∧ Z.of_nat (length out) ≤ 3 + 1 ∧
           (whole [0xFF; 0x80; 0xE2] ∧ n = Z.of_nat (length out) ∨ ¬ whole [0xFF; 0x80; 0xE2] ∧ n = -1).
Proof. apply (utf8_to_utf16_fits [0xFF; 0x80; 0xE2; 0; 0; 0] 3); [unfold byte_list; repeat constructor; lia|lia|cbn; lia]. Defined.

Lemma utf16_utf8_roundtrip_witness :
  let units := utf16_all demo_text in let bytes := utf8_all demo_text in
  let n := Z.of_nat (length units) in let m := Z.of_nat (length bytes) in
  utf16_to_utf8_length (Some (units ++ [])) n = Returned m ∧ utf16_to_utf8 (Some (units ++ [])) n = Returned (bytes ++ [0]) ∧
  utf8_to_utf16_length (bytes ++ [0]) m = Some (Returned n) ∧ utf8_to_utf16_ (bytes ++ [0]) m = Some (Returned (units ++ [0])).
Proof. apply (utf16_utf8_roundtrip demo_text [] [0]); [apply demo_scalar|done|done]. Defined.

Lemma utf32_utf8_roundtrip_witness :
  let bytes := utf8_all demo_text in
  let n := Z.of_nat (length demo_text) in let m := Z.of_nat (length bytes) in
  utf32_to_utf8_length (Some (demo_text ++ [])) n = Returned m ∧ utf32_to_utf8 (Some (demo_text ++ [])) n = Returned (bytes ++ [0]) ∧
  utf8_to_utf32 true (Some (bytes ++ [0])) m = Some (Returned (demo_text ++ [0])).
Proof. apply (utf32_utf8_roundtrip true demo_text [] [0]); [apply demo_scalar|done|done]. Defined.

Lemma utf8_to_utf32_fits_witness :
  ∃ n out, utf8_to_utf32_length (Some [0x61; 0xF9; 0x80; 0; 0; 0; 0; 0; 0]) 2 = Some (Returned n) ∧
           utf8_to_utf32 false (Some [0x61; 0xF9; 0x80; 0; 0; 0; 0; 0; 0]) 2 = Some (Returned (out ++ [0])) ∧ Z.of_nat (length out) = n ∧ n ≤ 2.
Proof. apply (utf8_to_utf32_fits false [0x61; 0xF9; 0x80; 0; 0; 0; 0; 0; 0] 2); [repeat constructor; lia|lia|cbn; lia]. Defined.

Lemma utf8_to_utf16_n_prefix_witness :
  ∃ pre suf written, utf8_to_utf16_no_null_terminator (utf8_all demo_text ++ [0; 0; 0]) 10 = Some (Returned (units_list (pre ++ suf))) ∧
    let at_ := length (units_list pre) in
    utf8_to_utf16_n (utf8_all demo_text ++ [0; 0; 0]) 10 4 = Some (Returned (written, Z.of_nat at_)) ∧ Z.of_nat (length written) ≤ 4 ∧
    take at_ written = units_list pre ∧ no_room suf (Z.of_nat at_) 4.
Proof.
  apply (utf8_to_utf16_n_prefix (utf8_all demo_text ++ [0; 0; 0]) 10 4); [unfold byte_list; repeat (apply Forall_cons; split; [by vm_compute|]); done|lia|by vm_compute|lia].
Defined.

Lemma strzcmp16_order_witness : ∃ d, strzcmp16 ([0x61; 0x62] ++ []) 2 ([0x61] ++ [0x7a]) 1 = Returned d ∧ Z.sgn d = lexicographic [0x61; 0x62] [0x61].
Proof. apply (strzcmp16_order [0x61; 0x62] [0x61] [] [0x7a]); repeat constructor; lia. Defined.

Lemma strzcmp16_h_n_order_witness :
  ∃ d, strzcmp16_h_n ([0x61; 0x62] ++ []) 2 ((ntohs <$> [0x61; 0x63]) ++ []) 2 = Returned d ∧ Z.sgn d = lexicographic [0x61; 0x62] [0x61; 0x63].
Proof. apply (strzcmp16_h_n_order [0x61; 0x62] [0x61; 0x63] [] []); repeat constructor; lia. Defined.

Lemma strcmp16_order_witness : ∃ d, strcmp16 ([0x61] ++ [0]) ([0x62] ++ [0]) = Returned d ∧ Z.sgn d = lexicographic [0x61] [0x62].
Proof. apply (strcmp16_order [0x61] [0x62] [] []); repeat constructor; lia. Defined.

Lemma strncmp16_zero_witness : ∃ d, strncmp16 [0x61; 0x62] [0x61; 0x63] 1 = Returned d ∧ (d = 0 ↔ take 1 [0x61; 0x62] = take 1 [0x61; 0x63]).
Proof. apply (strncmp16_zero [0x61; 0x62] [0x61; 0x63] 1); [lia|cbn; lia|cbn; lia|repeat constructor; lia]. Defined.

Lemma strlen16_strcpy16_witness : strlen16 ([0x61; 0x62] ++ [0; 5]) = Returned 2 ∧ strcpy16 ([0x61; 0x62] ++ [0; 5]) = Returned [0x61; 0x62; 0] ∧
  strnlen16 [0x61; 0x62; 0; 5] 9 = Returned 2 ∧ strnlen16 [0x61; 0x62] 2 = Returned 2.
Proof.
  destruct (strlen16_strcpy16 [0x61; 0x62] [5]) as (H1 & H2 & H3 & H4); [repeat constructor; lia|].
  split_and!; [exact H1|exact H2|apply (H3 9); lia|apply (H4 2); cbn; lia].
Defined.

Lemma strncpy16_fits_witness : [0xb1; 0x41; 0] ≠ [] ∧ last [0xb1; 0x41; 0] = Some 0 ∧ 3 ≤ 2 + 1.
Proof. apply (strncpy16_fits false [0x3b1; 0x141] 2 [0xb1; 0x41; 0]); [lia|by vm_compute]. Defined.

Lemma utf8_length_accepts_witness : utf8_length false (utf8_all demo_text ++ [0]) = Some (Returned 10).
Proof. apply (utf8_length_accepts demo_text []); [unfold demo_text, scalar; repeat constructor; lia|done]. Defined.

End UC.
