(* ===== verification/ThreadMng.v ===== *)
(** The accounting of threads of [hi_adp_threadmng.c]: a record per thread in a
    list of those that run, moved to a list of those that ended, from which a
    waiting thread joins them and frees their records.

    Threads interleave between critical sections and between the accesses of a
    record outside of them; the waiter keeps the mutex while it joins.  Touching
    a record that was freed, and joining a thread that there is not, is
    undefined.  A thread's number is what [pthread_create] gave it, never 0. *)

From S2P Require Import Prelude.

Module TH.

Definition HI_PTHREAD_STATUS_INIT : Z := 0.
Definition HI_PTHREAD_STATUS_START : Z := 1.
Definition HI_PTHREAD_STATUS_STOP : Z := 2.
Definition HI_EPAERM (HI_ERRNO_COMMON_BASE : Z) : Z := HI_ERRNO_COMMON_BASE + 5.
Definition HI_EEMPTY (HI_ERRNO_COMMON_BASE : Z) : Z := HI_ERRNO_COMMON_BASE + 0x10.

(** The fields that are used again; a procedure for the end is a number. *)
Record PthreadMNG_Thread_S := mkRec { u32Thread : Z; s32Status : Z; pfunEndProc : option Z }.
Definition set_thread (rc : PthreadMNG_Thread_S) (t : Z) := mkRec t (s32Status rc) (pfunEndProc rc).
Definition set_status (rc : PthreadMNG_Thread_S) (s : Z) := mkRec (u32Thread rc) s (pfunEndProc rc).
Definition set_end (rc : PthreadMNG_Thread_S) (f : Z) := mkRec (u32Thread rc) (s32Status rc) (Some f).

(** Where a thread is.  One created here is about to start, runs, has returned, has
    read its number for [HI_PthreadMNG_Del], or ended, with the record it was
    given; another one has not been added yet, or is there with its record. *)
Inductive thread := TStart (r : Z) | TRun (r : Z) | TStop (r : Z) | TDel (r id : Z) | TEnd (r : Z) | TForeign | TReg (r : Z).

(** Calls in progress: of [HI_PthreadMNG_CreateD] before and after
    [pthread_create], of [HI_PthreadMNG_Join] in [pthread_join], and of
    [PthreadMNG_Wait] at the condition of its loop and inside it with the mutex. *)
Inductive call := Create1 (r : Z) | Create2 (r t : Z) | Joining (r t : Z) | WaitTop | WaitLoop.

Record world := mkWorld {
  recs : gmap Z PthreadMNG_Thread_S;
  s_stTrdMngPthreadMng : list Z;
  s_stTrdMngPthreadMng_Exit : list Z;
  s_stTrdMngMutex : bool;
  s_s32TrdMngPTStatus : bool;
  s_bTrdMngAudoWait : bool;
  threads : gmap Z thread;
  calls : gmap Z call;
  ended : list Z }.

Abbreviation running := s_stTrdMngPthreadMng.
Abbreviation exits := s_stTrdMngPthreadMng_Exit.
Abbreviation mutex := s_stTrdMngMutex.
Abbreviation status := s_s32TrdMngPTStatus.
Abbreviation auto_wait := s_bTrdMngAudoWait.

Definition with_recs (w : world) x := mkWorld x (running w) (exits w) (mutex w) (status w) (auto_wait w) (threads w) (calls w) (ended w).
Definition with_lists (w : world) x y := mkWorld (recs w) x y (mutex w) (status w) (auto_wait w) (threads w) (calls w) (ended w).
Definition with_mutex (w : world) x := mkWorld (recs w) (running w) (exits w) x (status w) (auto_wait w) (threads w) (calls w) (ended w).
Definition with_flags (w : world) x y := mkWorld (recs w) (running w) (exits w) (mutex w) x y (threads w) (calls w) (ended w).
Definition with_threads (w : world) x := mkWorld (recs w) (running w) (exits w) (mutex w) (status w) (auto_wait w) x (calls w) (ended w).
Definition with_calls (w : world) x := mkWorld (recs w) (running w) (exits w) (mutex w) (status w) (auto_wait w) (threads w) x (ended w).
Definition with_ended (w : world) x := mkWorld (recs w) (running w) (exits w) (mutex w) (status w) (auto_wait w) (threads w) (calls w) x.

Definition set_rec (r : Z) (rc : PthreadMNG_Thread_S) (w : world) := with_recs w (<[r := rc]> (recs w)).
Definition free_rec (r : Z) (w : world) : outcome world :=
  let! _ := oderef (recs w !! r) in Returned (with_recs w (delete r (recs w))).
Definition set_state (t : Z) (th : thread) (w : world) := with_threads w (<[t := th]> (threads w)).
Definition set_call (k : Z) (c : call) (w : world) := with_calls w (<[k := c]> (calls w)).
Definition end_call (k : Z) (w : world) := with_calls w (delete k (calls w)).

Definition list_del (r : Z) (l : list Z) : list Z := List.filter (λ x, negb (x =? r)) l.
Definition list_add_tail (r : Z) (l : list Z) : list Z := l ++ [r].
#[local] Arguments list_del : simpl never.
#[local] Arguments list_add_tail : simpl never.

(** ** The operations

    [None]: the step has to wait. *)
Definition result := outcome (option world).
Definition did (w : world) : result := Returned (Some w).
Definition wait : result := Returned None.

(** A critical section is one step, and waits while a waiter has the mutex. *)
Definition critical (w : world) (k : result) : result := if mutex w then wait else k.

Fixpoint find_thread (rs : gmap Z PthreadMNG_Thread_S) (l : list Z) (id : Z) : outcome (option Z) :=
  match l with
  | [] => Returned None
  | r :: l' =>
      let! rc := oderef (rs !! r) in
      if id =? u32Thread rc then Returned (Some r) else find_thread rs l' id
  end.

Definition HI_PthreadMNG_Init (bAutoWait : bool) (s32Rtn key : Z) (w : world) : Z * world :=
  let w := with_flags w (status w) bAutoWait in
  let w := if bAutoWait
           then if s32Rtn =? HI_SUCCESS then set_call key WaitTop w else with_flags w (status w) false
           else w in
  (HI_SUCCESS, with_flags w true (auto_wait w)).

Definition HI_PthreadMNG_Deinit (w : world) : Z * world := (HI_SUCCESS, with_flags w false (auto_wait w)).

(** [HI_PthreadMNG_CreateD] up to [pthread_create]: an error code, or the record in
    the list; [malloc] gives a new address or fails. *)
Definition create_add (base : Z) (thread_ptr info fun_ptr malloc_ok : bool) (key : Z) (w : world) : outcome (option (Z + world)) :=
  if negb thread_ptr || negb info || negb fun_ptr then Returned (Some (inl (HI_EPAERM base)))
  else if negb (status w) then Returned (Some (inl HI_FAILURE))
  else if negb malloc_ok then Returned (Some (inl (HI_EPAERM base)))
  else if mutex w then Returned None
  else
    let r := fresh ({[0]} ∪ dom (recs w)) in
    let w := set_rec r (mkRec 0 HI_PTHREAD_STATUS_INIT None) w in
    Returned (Some (inr (set_call key (Create1 r) (with_lists w (list_add_tail r (running w)) (exits w))))).

(** [pthread_create] makes a thread, or fails, and then the record goes again. *)
Definition create_thread (key : Z) (res : option Z) (w : world) : result :=
  match calls w !! key with
  | Some (Create1 r) =>
      match res with
      | Some t =>
          match threads w !! t with
          | None => if t =? 0 then wait else did (set_call key (Create2 r t) (set_state t (TStart r) w))
          | Some _ => wait
          end
      | None =>
          critical w
            (let w := with_lists w (list_del r (running w)) (exits w) in
             let! w := free_rec r w in did (end_call key w))
      end
  | _ => wait
  end.

(** The number is written to the record when the thread may have ended already. *)
Definition create_publish (key : Z) (w : world) : result :=
  match calls w !! key with
  | Some (Create2 r t) =>
      let! rc := oderef (recs w !! r) in
      did (end_call key (set_rec r (set_thread rc t) w))
  | _ => wait
  end.

(** The procedure is kept for the end, or called when the thread is not in the list. *)
Definition HI_PthreadMNG_RegisterEndProc (base u32Thread_ : Z) (pfunEndProc_ : option Z) (w : world) : outcome (option (Z * world)) :=
  match pfunEndProc_ with
  | None => Returned (Some (HI_EPAERM base, w))
  | Some f =>
      if mutex w then Returned None
      else
        let! found := find_thread (recs w) (running w) u32Thread_ in
        match found with
        | Some r => let! rc := oderef (recs w !! r) in Returned (Some (HI_SUCCESS, set_rec r (set_end rc f) w))
        | None => Returned (Some (HI_SUCCESS, with_ended w (ended w ++ [f])))
        end
  end.

(** A thread that was not created here adds itself. *)
Definition HI_PthreadMNG_Add (base : Z) (malloc_ok : bool) (t : Z) (w : world) : outcome (option (Z * world)) :=
  if negb malloc_ok then Returned (Some (HI_EEMPTY base, w))
  else if mutex w then Returned None
  else
    let r := fresh ({[0]} ∪ dom (recs w)) in
    let w := set_rec r (mkRec t HI_PTHREAD_STATUS_INIT None) w in
    let w := with_lists w (list_add_tail r (running w)) (exits w) in
    Returned (Some (HI_SUCCESS, match threads w !! t with Some TForeign => set_state t (TReg r) w | _ => w end)).

Definition HI_PthreadMNG_Del (u32Thread_ : Z) (w : world) : outcome (option (Z * world)) :=
  if mutex w then Returned None
  else
    let! found := find_thread (recs w) (running w) u32Thread_ in
    match found with
    | None => Returned (Some (HI_FAILURE, w))
    | Some r => Returned (Some (HI_SUCCESS, with_lists w (list_del r (running w)) (list_add_tail r (exits w))))
    end.

(** [HI_PthreadMNG_Join] up to [pthread_join]. *)
Definition HI_PthreadMNG_Join (u32Thread_ key : Z) (w : world) : outcome (option (Z * world)) :=
  if mutex w then Returned None
  else
    let! found := find_thread (recs w) (running w) u32Thread_ in
    let! found := match found with Some r => Returned (Some r) | None => find_thread (recs w) (exits w) u32Thread_ end in
    match found with
    | None => Returned (Some (HI_FAILURE, w))
    | Some r =>
        Returned (Some (HI_SUCCESS, set_call key (Joining r u32Thread_) (with_lists w (list_del r (running w)) (list_del r (exits w)))))
    end.

(** [pthread_join]: it waits for the thread, which then is gone. *)
Definition HI_PthreadJoin (t : Z) (w : world) : outcome (option world) :=
  match threads w !! t with
  | None => Undefined
  | Some (TEnd _) => Returned (Some (with_threads w (delete t (threads w))))
  | Some _ => Returned None
  end.

Definition join_end (key : Z) (w : world) : result :=
  match calls w !! key with
  | Some (Joining r t) =>
      let! joined := HI_PthreadJoin t w in
      match joined with
      | None => wait
      | Some w => let! w := free_rec r w in did (end_call key w)
      end
  | _ => wait
  end.

(** [HI_PthreadMNG_Wait]: whether the caller goes on to wait. *)
Definition HI_PthreadMNG_Wait (key : Z) (w : world) : Z * world :=
  if auto_wait w then (HI_SUCCESS, w) else (HI_SUCCESS, set_call key WaitTop w).

(** One turn of the list inside [PthreadMNG_Wait], with the mutex. *)
Definition wait_turn (key : Z) (w : world) : result :=
  match exits w with
  | [] => did (with_mutex (set_call key WaitTop w) false)
  | r :: _ =>
      let! rc := oderef (recs w !! r) in
      let! joined := HI_PthreadJoin (u32Thread rc) w in
      match joined with
      | None => wait
      | Some w =>
          let w := with_lists w (running w) (list_del r (exits w)) in
          let w := match pfunEndProc rc with Some f => with_ended w (ended w ++ [f]) | None => w end in
          let! w := free_rec r w in did w
      end
  end.

Definition PthreadMNG_Wait (key : Z) (w : world) : result :=
  match calls w !! key with
  | Some WaitTop =>
      if status w || negb (bool_decide (running w = [])) || negb (bool_decide (exits w = []))
      then critical w (did (with_mutex (set_call key WaitLoop w) true))
      else did (end_call key w)
  | Some WaitLoop => wait_turn key w
  | _ => wait
  end.

(** [PthreadMng_PthreadProc], access by access. *)
Definition PthreadMng_PthreadProc (t : Z) (w : world) : result :=
  match threads w !! t with
  | Some (TStart r) =>
      let! rc := oderef (recs w !! r) in
      did (set_state t (TRun r) (set_rec r (set_status rc HI_PTHREAD_STATUS_START) w))
  | Some (TRun r) =>
      let! rc := oderef (recs w !! r) in
      did (set_state t (TStop r) (set_rec r (set_status rc HI_PTHREAD_STATUS_STOP) w))
  | Some (TStop r) =>
      let! rc := oderef (recs w !! r) in did (set_state t (TDel r (u32Thread rc)) w)
  | Some (TDel r id) =>
      let! deleted := HI_PthreadMNG_Del id w in
      match deleted with Some (_, w) => did (set_state t (TEnd r) w) | None => wait end
  | _ => wait
  end.

(** What [HI_CMD_ThreadList] shows for the status. *)
Definition status_text (s : Z) : string :=
  let aszStatus := if s =? HI_PTHREAD_STATUS_INIT then "INIT" else "" in
  if s =? HI_PTHREAD_STATUS_START then "START" else "STOP".

(** ** Steps *)

Inductive action :=
  | AInit (bAutoWait : bool) (s32Rtn key : Z) | ADeinit
  | ACreate (thread_ptr info fun_ptr malloc_ok : bool) (key : Z) | ACreateThread (key : Z) (res : option Z) | APublish (key : Z)
  | ARegister (id : Z) (f : option Z) | AForeign (t : Z) | AAdd (t : Z) (malloc_ok : bool) | ADelSelf (t : Z) | ADel (id : Z)
  | AJoin (id key : Z) | AJoinEnd (key : Z) | AWaitCall (key : Z) | AWait (key : Z) | AThread (t : Z).

Definition answered {R} (o : outcome (option (R * world))) : result := let! a := o in Returned (snd <$> a).

Definition new_call (key : Z) (w : world) (k : result) : result := match calls w !! key with None => k | Some _ => wait end.

(** [base] stands for the base of the error numbers. *)
Definition step (base : Z) (a : action) (w : world) : result :=
  match a with
  | AInit b rtn key => new_call key w (did (HI_PthreadMNG_Init b rtn key w).2)
  | ADeinit => did (HI_PthreadMNG_Deinit w).2
  | ACreate p i f m key =>
      new_call key w (let! r := create_add base p i f m key w in
                      match r with None => wait | Some (inl _) => did w | Some (inr w) => did w end)
  | ACreateThread key res => create_thread key res w
  | APublish key => create_publish key w
  | ARegister id f => answered (HI_PthreadMNG_RegisterEndProc base id f w)
  | AForeign t => match threads w !! t with None => if t =? 0 then wait else did (set_state t TForeign w) | Some _ => wait end
  | AAdd t ok => match threads w !! t with Some TForeign => answered (HI_PthreadMNG_Add base ok t w) | _ => wait end
  | ADelSelf t =>
      match threads w !! t with
      | Some (TReg r) =>
          let! deleted := HI_PthreadMNG_Del t w in
          match deleted with Some (_, w) => did (set_state t (TEnd r) w) | None => wait end
      | _ => wait
      end
  | ADel id => answered (HI_PthreadMNG_Del id w)
  | AJoin id key => new_call key w (answered (HI_PthreadMNG_Join id key w))
  | AJoinEnd key => join_end key w
  | AWaitCall key => new_call key w (did (HI_PthreadMNG_Wait key w).2)
  | AWait key => PthreadMNG_Wait key w
  | AThread t => PthreadMng_PthreadProc t w
  end.

(** The order that the code relies on: a thread does not get to its end before its
    number is in its record, callers use numbers that they got, and a record is
    taken out of the list only by its own thread. *)
Definition ordered (a : action) (w : world) : bool :=
  match a with
  | AThread t =>
      match threads w !! t with
      | Some (TStop r) => match recs w !! r with Some rc => negb (u32Thread rc =? 0) | None => true end
      | _ => true
      end
  | ARegister id _ | AJoin id _ => negb (id =? 0)
  | ADel _ => false
  | _ => true
  end.

Definition start : world := mkWorld ∅ [] [] false true false ∅ ∅ [].

Inductive reach (base : Z) : world → Prop :=
  | reach_start : reach base start
  | reach_step a w w' : reach base w → ordered a w = true → step base a w = Returned (Some w') → reach base w'.

(** ** Who has a record *)

Definition thread_record (th : thread) : option Z :=
  match th with TStart r | TRun r | TStop r | TDel r _ | TEnd r | TReg r => Some r | TForeign => None end.
Definition call_record (c : call) : option Z := match c with Create1 r | Create2 r _ | Joining r _ => Some r | _ => None end.

(** [o] is the one in [m] that has the record [r]. *)
Definition held {X} (f : X → option Z) (m : gmap Z X) (r : Z) (o : option (Z * X)) : Prop :=
  ∀ k x, (m !! k = Some x ∧ f x = Some r) ↔ o = Some (k, x).

Section Held.
Context {X : Type} (f : X → option Z).

Lemma held_other m k x r o : held f m r o → f x ≠ Some r → (∀ y, m !! k = Some y → f y ≠ Some r) → held f (<[k := x]> m) r o.
Proof.
  intros H Hx Hy j z. rewrite <-(H j z). destruct (decide (j = k)) as [->|Hne].
  - rewrite lookup_insert, decide_True by done. split; [intros [[= <-] ?]; done|]. intros [Hz Hf]. by destruct (Hy z Hz).
  - by rewrite lookup_insert_ne by done.
Qed.

Lemma held_delete_other m k r o : held f m r o → (∀ y, m !! k = Some y → f y ≠ Some r) → held f (delete k m) r o.
Proof.
  intros H Hy j z. rewrite <-(H j z). rewrite lookup_delete_Some. split; [tauto|]. intros [Hz Hf]. split; [|done]. split; [|done].
  intros ->. by destruct (Hy z Hz).
Qed.

Lemma held_put m k x r o : held f m r o → f x = Some r → (o = None ∨ ∃ y, o = Some (k, y)) → held f (<[k := x]> m) r (Some (k, x)).
Proof.
  intros H Hx Ho j z. destruct (decide (j = k)) as [->|Hne].
  - rewrite lookup_insert, decide_True by done. split; [by intros [[= ->] _]|by intros [= ->]].
  - rewrite lookup_insert_ne, (H j z) by done. destruct Ho as [->|[y ->]]; split; try done; intros [= ? ?]; congruence.
Qed.

Lemma held_drop m k x r y : held f m r (Some (k, y)) → f x ≠ Some r → held f (<[k := x]> m) r None.
Proof.
  intros H Hx j z. destruct (decide (j = k)) as [->|Hne].
  - rewrite lookup_insert, decide_True by done. split; [by intros [[= ->] ?]|done].
  - rewrite lookup_insert_ne, (H j z) by done. split; [intros [= ? ?]; congruence|done].
Qed.

Lemma held_gone m k r y : held f m r (Some (k, y)) → held f (delete k m) r None.
Proof. intros H j z. rewrite lookup_delete_Some. split; [|done]. intros [[Hne Hz] Hf]. assert (Some (k, y) = Some (j, z)) as [= ? ?] by (by apply H). congruence. Qed.

Lemma held_at m k r y : held f m r (Some (k, y)) → m !! k = Some y ∧ f y = Some r.
Proof. intros H. by apply H. Qed.

Lemma held_unique m k r y o : held f m r o → m !! k = Some y → f y = Some r → o = Some (k, y).
Proof. intros H Hk Hf. by apply H. Qed.
End Held.

(** ** The invariant *)

(** The states of a record: put into the list, given a thread whose number is not
    written yet, with its number, in the list of the ended, or taken out to be
    joined. *)
Inductive stage : PthreadMNG_Thread_S → Z → option (Z * call) → option (Z * thread) → bool → bool → Prop :=
  | st_new rc r k : u32Thread rc = 0 → stage rc r (Some (k, Create1 r)) None true false
  | st_made rc r k t th : u32Thread rc = 0 → th = TStart r ∨ th = TRun r ∨ th = TStop r →
      stage rc r (Some (k, Create2 r t)) (Some (t, th)) true false
  | st_known rc r t th : u32Thread rc = t → t ≠ 0 → th ≠ TEnd r → stage rc r None (Some (t, th)) true false
  | st_ended rc r t : u32Thread rc = t → t ≠ 0 → stage rc r None (Some (t, TEnd r)) false true
  | st_joining rc r k t th : u32Thread rc = t → t ≠ 0 → stage rc r (Some (k, Joining r t)) (Some (t, th)) false false.

Definition record_ok (rc : option PthreadMNG_Thread_S) (r : Z) (o : option (Z * call)) (p : option (Z * thread)) (in_run in_exit : bool) : Prop :=
  match rc with Some rc => stage rc r o p in_run in_exit | None => o = None ∧ p = None ∧ in_run = false ∧ in_exit = false end.

(** What there is of a record. *)
Definition view (w : world) (r : Z) : Prop :=
  ∃ o p, held call_record (calls w) r o ∧ held thread_record (threads w) r p ∧
    record_ok (recs w !! r) r o p (bool_decide (r ∈ running w)) (bool_decide (r ∈ exits w)).

(** The mutex is kept by one waiter inside its loop, or free. *)
Definition mutex_ok (held_ : bool) (cs : gmap Z call) : Prop :=
  (∀ k, cs !! k = Some WaitLoop → held_ = true) ∧
  (held_ = true → ∃ k, cs !! k = Some WaitLoop ∧ ∀ j, cs !! j = Some WaitLoop → j = k).

Record inv (w : world) : Prop := {
  i_view r : view w r;
  i_nodup : NoDup (running w) ∧ NoDup (exits w);
  i_ids : threads w !! 0 = None;
  i_del t r id : threads w !! t = Some (TDel r id) → id = t;
  i_mutex : mutex_ok (mutex w) (calls w)
}.

(** A record that a step does not concern. *)
Lemma view_same w w' r : view w r → recs w' !! r = recs w !! r → (r ∈ running w' ↔ r ∈ running w) → (r ∈ exits w' ↔ r ∈ exits w) →
  (∀ o, held call_record (calls w) r o → held call_record (calls w') r o) →
  (∀ p, held thread_record (threads w) r p → held thread_record (threads w') r p) → view w' r.
Proof.
  intros (o & p & Ho & Hp & Hk) Hr Hrun Hex Hc Ht. exists o, p. split_and!; [by apply Hc|by apply Ht|].
  rewrite Hr. rewrite (bool_decide_ext _ _ Hrun), (bool_decide_ext _ _ Hex). done.
Qed.

Lemma elem_list_del r x l : x ∈ list_del r l ↔ x ∈ l ∧ x ≠ r.
Proof. unfold list_del. rewrite !list_elem_of_In, filter_In, negb_true_iff, Z.eqb_neq. done. Qed.

Lemma elem_list_add r x l : x ∈ list_add_tail r l ↔ x ∈ l ∨ x = r.
Proof. unfold list_add_tail. rewrite elem_of_app, list_elem_of_singleton. done. Qed.

Lemma nodup_del r l : NoDup l → NoDup (list_del r l).
Proof.
  unfold list_del. induction 1 as [|x l Hx _ IH]; [constructor|]. cbn [List.filter]. case_goal_if; [|done].
  constructor; [|done]. intros Hin. apply Hx. by apply filter_sub in Hin.
Qed.

Lemma nodup_add r l : NoDup l → r ∉ l → NoDup (list_add_tail r l).
Proof. intros Hl Hr. unfold list_add_tail. apply NoDup_app. split_and!; [done| |apply NoDup_singleton]. intros x Hx ->%list_elem_of_singleton. done. Qed.

(** Searching the list of the running. *)
Lemma find_thread_ok rs l id : (∀ r, r ∈ l → is_Some (rs !! r)) →
  ∃ res, find_thread rs l id = Returned res ∧
    match res with
    | Some r => r ∈ l ∧ ∃ rc, rs !! r = Some rc ∧ u32Thread rc = id
    | None => ∀ r rc, r ∈ l → rs !! r = Some rc → u32Thread rc ≠ id
    end.
Proof.
  induction l as [|r l IH]; intros H; cbn [find_thread]; [by exists None; split; [|intros r rc ?%elem_of_nil]|].
  destruct (H r) as [rc Hrc]; [by left|]. rewrite Hrc. cbn [oderef obind].
  destruct (Z.eqb_spec id (u32Thread rc)) as [->|Hne]; [exists (Some r); split; [done|]; split; [by left|by exists rc]|].
  destruct IH as (res & -> & Hres); [intros; apply H; by right|]. exists res. split; [done|]. destruct res as [r'|].
  - destruct Hres as [? ?]. split; [by right|done].
  - intros r' rc' [->|Hr']%elem_of_cons Hrc'; [congruence|by eapply Hres].
Qed.

Section Inv.
Context (w : world) (H : inv w).

Lemma in_list_rec r : r ∈ running w ∨ r ∈ exits w → ∃ rc o p, recs w !! r = Some rc ∧ held call_record (calls w) r o ∧
  held thread_record (threads w) r p ∧ stage rc r o p (bool_decide (r ∈ running w)) (bool_decide (r ∈ exits w)).
Proof.
  intros Hr. destruct (i_view w H r) as (o & p & Ho & Hp & Hk). unfold record_ok in Hk. destruct (recs w !! r) as [rc|]; [by exists rc, o, p|].
  destruct Hk as (_ & _ & H1%bool_decide_eq_false & H2%bool_decide_eq_false). naive_solver.
Qed.

Lemma lists_recs r : r ∈ running w ∨ r ∈ exits w → is_Some (recs w !! r).
Proof. intros Hr. destruct (in_list_rec r Hr) as (rc & _ & _ & -> & _). done. Qed.

(** The record of a thread or of a call is there. *)
Lemma thread_has t th r : threads w !! t = Some th → thread_record th = Some r →
  ∃ rc o, recs w !! r = Some rc ∧ held call_record (calls w) r o ∧ held thread_record (threads w) r (Some (t, th)) ∧
    stage rc r o (Some (t, th)) (bool_decide (r ∈ running w)) (bool_decide (r ∈ exits w)).
Proof.
  intros Ht Hr. destruct (i_view w H r) as (o & p & Ho & Hp & Hk). pose proof (held_unique _ _ _ _ _ _ Hp Ht Hr) as ->.
  unfold record_ok in Hk. destruct (recs w !! r) as [rc|]; [by exists rc, o|]. by destruct Hk as (_ & ? & _).
Qed.

Lemma call_has k c r : calls w !! k = Some c → call_record c = Some r →
  ∃ rc p, recs w !! r = Some rc ∧ held call_record (calls w) r (Some (k, c)) ∧ held thread_record (threads w) r p ∧
    stage rc r (Some (k, c)) p (bool_decide (r ∈ running w)) (bool_decide (r ∈ exits w)).
Proof.
  intros Hc Hr. destruct (i_view w H r) as (o & p & Ho & Hp & Hk). pose proof (held_unique _ _ _ _ _ _ Ho Hc Hr) as ->.
  unfold record_ok in Hk. destruct (recs w !! r) as [rc|]; [by exists rc, p|]. by destruct Hk as (? & _).
Qed.
End Inv.

Lemma mutex_ok_insert h cs k c : mutex_ok h cs → c ≠ WaitLoop → cs !! k ≠ Some WaitLoop → mutex_ok h (<[k := c]> cs).
Proof.
  intros [H1 H2] Hc Hk. split.
  - intros j. rewrite lookup_insert_Some. intros [[_ ?]|[_ Hj]]; [done|by eapply H1].
  - intros (j & Hj & Hu)%H2. exists j. split; [rewrite lookup_insert_ne; [done|congruence]|].
    intros i. rewrite lookup_insert_Some. intros [[_ ?]|[_ Hi]]; [done|by apply Hu].
Qed.

Lemma mutex_ok_delete h cs k : mutex_ok h cs → cs !! k ≠ Some WaitLoop → mutex_ok h (delete k cs).
Proof.
  intros [H1 H2] Hk. split.
  - intros j [_ Hj]%lookup_delete_Some. by eapply H1.
  - intros (j & Hj & Hu)%H2. exists j. split; [rewrite lookup_delete_ne; [done|congruence]|]. intros i [_ Hi]%lookup_delete_Some. by apply Hu.
Qed.

(** A step that concerns one record. *)
Definition others_same (w w' : world) (r0 : Z) : Prop := ∀ r, r ≠ r0 →
  recs w' !! r = recs w !! r ∧ (r ∈ running w' ↔ r ∈ running w) ∧ (r ∈ exits w' ↔ r ∈ exits w) ∧
  (∀ o, held call_record (calls w) r o → held call_record (calls w') r o) ∧
  (∀ p, held thread_record (threads w) r p → held thread_record (threads w') r p).

Lemma inv_one w w' r0 : inv w → others_same w w' r0 → view w' r0 → NoDup (running w') ∧ NoDup (exits w') → threads w' !! 0 = None →
  (∀ t r id, threads w' !! t = Some (TDel r id) → id = t) → mutex_ok (mutex w') (calls w') → inv w'.
Proof.
  intros H Hs Hv Hn Hi Hd Hm. split; try done. intros r. destruct (decide (r = r0)) as [->|Hne]; [done|].
  destruct (Hs r Hne) as (? & ? & ? & ? & ?). apply (view_same w); [apply (i_view w H)|done..].
Qed.

Lemma stage_same rc rc' r o p a b : u32Thread rc' = u32Thread rc → stage rc r o p a b → stage rc' r o p a b.
Proof. intros He Hs. destruct Hs; econstructor; by rewrite ?He. Qed.

(** Changes of one call or of one thread, as the others see them. *)
Lemma calls_insert_other cs k c r r0 o : r ≠ r0 → call_record c = Some r0 ∨ call_record c = None →
  (∀ y, cs !! k = Some y → call_record y = Some r0 ∨ call_record y = None) → held call_record cs r o → held call_record (<[k := c]> cs) r o.
Proof. intros Hr Hc Hy Ho. apply held_other; [done|destruct Hc as [->| ->]; congruence|]. intros y [->| ->]%Hy; congruence. Qed.
Lemma calls_delete_other cs k r r0 o : r ≠ r0 →
  (∀ y, cs !! k = Some y → call_record y = Some r0 ∨ call_record y = None) → held call_record cs r o → held call_record (delete k cs) r o.
Proof. intros Hr Hy Ho. apply held_delete_other; [done|]. intros y [->| ->]%Hy; congruence. Qed.
Lemma threads_insert_other ts k c r r0 o : r ≠ r0 → thread_record c = Some r0 ∨ thread_record c = None →
  (∀ y, ts !! k = Some y → thread_record y = Some r0 ∨ thread_record y = None) → held thread_record ts r o → held thread_record (<[k := c]> ts) r o.
Proof. intros Hr Hc Hy Ho. apply held_other; [done|destruct Hc as [->| ->]; congruence|]. intros y [->| ->]%Hy; congruence. Qed.
Lemma threads_delete_other ts k r r0 o : r ≠ r0 →
  (∀ y, ts !! k = Some y → thread_record y = Some r0 ∨ thread_record y = None) → held thread_record ts r o → held thread_record (delete k ts) r o.
Proof. intros Hr Hy Ho. apply held_delete_other; [done|]. intros y [->| ->]%Hy; congruence. Qed.

Definition step_fine (w : world) (res : result) : Prop := (∃ w', res = Returned (Some w') ∧ inv w') ∨ res = Returned None.

Lemma fine w w' : inv w' → step_fine w (Returned (Some w')).
Proof. left. by exists w'. Qed.

(** A new record: an address that no list, call or thread knows. *)
Lemma fresh_record w : inv w → let r := fresh ({[0]} ∪ dom (recs w)) in
  recs w !! r = None ∧ held call_record (calls w) r None ∧ held thread_record (threads w) r None ∧ (r ∉ running w) ∧ (r ∉ exits w).
Proof.
  intros H r. assert (r ∉ {[0]} ∪ dom (recs w)) as Hr by apply is_fresh. assert (recs w !! r = None) as Hn by (rewrite <-not_elem_of_dom; set_solver).
  destruct (i_view w H r) as (o & p & Ho & Hp & Hk). rewrite Hn in Hk. destruct Hk as (-> & -> & H1%bool_decide_eq_false & H2%bool_decide_eq_false). done.
Qed.

Lemma create_add_ok base p i f m key w : inv w → calls w !! key = None →
  step_fine w (let! r := create_add base p i f m key w in match r with None => wait | Some (inl _) => did w | Some (inr w) => did w end).
Proof.
  intros H Hk. unfold create_add. repeat case_goal_if; cbn [obind]; try (by apply fine); [by right|]. apply fine.
  destruct (fresh_record w H) as (Hr & Hc & Ht & Hrun & Hex). set (r := fresh _) in *. apply (inv_one w _ r); try done.
  - intros r' Hne. cbn. rewrite lookup_insert_ne, elem_list_add by done. split_and!; [done|naive_solver|done| |done].
    intros o. apply (calls_insert_other _ _ _ _ r); [done|by left|by rewrite Hk].
  - eexists _, None. cbn. split_and!; [eapply held_put; [exact Hc|done|by left]|done|].
    rewrite lookup_insert, decide_True by done. cbn. rewrite bool_decide_true by (apply elem_list_add; by right). rewrite bool_decide_false by done. by constructor.
  - cbn. split; [by apply nodup_add; [apply (i_nodup w H)|]|apply (i_nodup w H)].
  - by apply (i_ids w H).
  - by apply (i_del w H).
  - cbn. apply mutex_ok_insert; [by apply (i_mutex w H)|done|by rewrite Hk].
Qed.

(** In a view, a record in a list. *)
Lemma view_intro w r rc o p a b : recs w !! r = Some rc → held call_record (calls w) r o → held thread_record (threads w) r p →
  (r ∈ running w ↔ a = true) → (r ∈ exits w ↔ b = true) → stage rc r o p a b → view w r.
Proof.
  intros Hr Ho Hp Ha Hb Hs. exists o, p. split_and!; [done|done|]. rewrite Hr. cbn.
  assert (bool_decide (r ∈ running w) = a) as -> by (destruct a; [by apply bool_decide_true, Ha|apply bool_decide_false; naive_solver]).
  assert (bool_decide (r ∈ exits w) = b) as -> by (destruct b; [by apply bool_decide_true, Hb|apply bool_decide_false; naive_solver]). done.
Qed.

Lemma view_gone w r : recs w !! r = None → held call_record (calls w) r None → held thread_record (threads w) r None →
  (r ∉ running w) → (r ∉ exits w) → view w r.
Proof. intros Hr Ho Hp Ha Hb. exists None, None. split_and!; [done|done|]. rewrite Hr. by rewrite !bool_decide_false. Qed.

(** Whether a record is in a list is what its stage says. *)
Ltac by_stage := cbn; rewrite <-(bool_decide_eq_true (_ ∈ _)); by match goal with H : _ = bool_decide _ |- _ => rewrite <-H end.
Ltac not_in_stage := match goal with H : false = bool_decide (_ ∈ ?l) |- _ ∉ ?l => symmetry in H; by apply bool_decide_eq_false in H end.

Lemma create_thread_ok key res w : inv w → step_fine w (create_thread key res w).
Proof.
  intros H. unfold create_thread. destruct (calls w !! key) as [[r|r t| | |]|] eqn:Hk; try by right.
  destruct (call_has w H key _ r Hk eq_refl) as (rc & p & Hr & Hc & Ht & Hs).
  inversion Hs as [? ? ? H0| | | |]; subst. destruct res as [t|].
  - destruct (threads w !! t) eqn:Hth; [by right|]. destruct (Z.eqb_spec t 0); [by right|]. apply fine. apply (inv_one w _ r); try done.
    + intros r' Hne. cbn. split_and!; [done|done|done| |].
      * intros o. apply (calls_insert_other _ _ _ _ r); [done|by left|rewrite Hk; intros y [= <-]; by left].
      * intros o. apply (threads_insert_other _ _ _ _ r); [done|by left|by rewrite Hth].
    + eapply (view_intro _ r rc); [done|by eapply held_put; [exact Hc| |right; eexists]|by eapply held_put; [exact Ht| |left]| | |].
      3: { eapply st_made; [done|by left]. } all: by_stage.
    + apply (i_nodup w H).
    + cbn. rewrite lookup_insert_ne by done. apply (i_ids w H).
    + intros t' r' id. cbn. rewrite lookup_insert_Some. intros [[_ ?]|[_ Hd]]; [done|by apply (i_del w H) in Hd].
    + cbn. apply mutex_ok_insert; [apply (i_mutex w H)|done|by rewrite Hk].
  - unfold critical. destruct (mutex w) eqn:Hm; [by right|]. unfold free_rec. cbn. rewrite Hr. cbn [oderef obind]. apply fine. apply (inv_one w _ r); try done.
    + intros r' Hne. cbn. rewrite lookup_delete_ne, elem_list_del by done. split_and!; [done|naive_solver|done| |done].
      intros o. apply (calls_delete_other _ _ _ r); [done|rewrite Hk; intros y [= <-]; by left].
    + apply view_gone; cbn; [by rewrite lookup_delete, decide_True|by eapply held_gone|done|rewrite elem_list_del; tauto|not_in_stage].
    + cbn. split; [apply nodup_del|]; apply (i_nodup w H).
    + apply (i_ids w H).
    + apply (i_del w H).
    + cbn. rewrite Hm. apply mutex_ok_delete; [rewrite <-Hm; apply (i_mutex w H)|by rewrite Hk].
Qed.

(** Writing a record without its number. *)
Lemma set_rec_inv w r rc rc' : inv w → recs w !! r = Some rc → u32Thread rc' = u32Thread rc → inv (set_rec r rc' w).
Proof.
  intros H Hr He. apply (inv_one w _ r); [done| | |apply (i_nodup w H)|apply (i_ids w H)|apply (i_del w H)|apply (i_mutex w H)].
  - intros r' Hne. cbn. by rewrite lookup_insert_ne.
  - destruct (i_view w H r) as (o & p & Ho & Hp & Hk). exists o, p. split_and!; [done|done|]. cbn. rewrite Hr in Hk.
    rewrite lookup_insert, decide_True by done. by apply (stage_same rc).
Qed.

Lemma create_publish_ok key w : inv w → step_fine w (create_publish key w).
Proof.
  intros H. unfold create_publish. destruct (calls w !! key) as [[r|r t|r t| |]|] eqn:Hk; try by right.
  destruct (call_has w H key _ r Hk eq_refl) as (rc & p & Hr & Hc & Ht & Hs). rewrite Hr. cbn [oderef obind]. apply fine.
  inversion Hs as [|? ? ? ? th H0 Hth| | |]; subst. destruct (held_at _ _ _ _ _ Ht) as [Hat _]. apply (inv_one w _ r); try done.
  - intros r' Hne. cbn. rewrite lookup_insert_ne by done. split_and!; [done|done|done| |done].
    intros o. apply (calls_delete_other _ _ _ r); [done|rewrite Hk; intros y [= <-]; by left].
  - eapply (view_intro _ r (set_thread rc t)); [cbn; by rewrite lookup_insert, decide_True|by eapply held_gone|done| | |].
    3: { apply st_known; [done| |naive_solver]. intros ->. by rewrite (i_ids w H) in Hat. }
    all: by_stage.
  - apply (i_nodup w H).
  - apply (i_ids w H).
  - apply (i_del w H).
  - cbn. apply mutex_ok_delete; [apply (i_mutex w H)|by rewrite Hk].
Qed.

Lemma find_running w id : inv w → ∃ res, find_thread (recs w) (running w) id = Returned res ∧
  match res with Some r => r ∈ running w ∧ ∃ rc, recs w !! r = Some rc ∧ u32Thread rc = id | None => ∀ r rc, r ∈ running w → recs w !! r = Some rc → u32Thread rc ≠ id end.
Proof. intros H. apply find_thread_ok. intros r Hr. apply (lists_recs w H). by left. Qed.

Lemma with_ended_inv w l : inv w → inv (with_ended w l).
Proof. intros [H1 H2 H3 H4 H5]. by split. Qed.
Lemma with_flags_inv w x y : inv w → inv (with_flags w x y).
Proof. intros [H1 H2 H3 H4 H5]. by split. Qed.

Lemma register_ok base id f w : inv w → step_fine w (answered (HI_PthreadMNG_RegisterEndProc base id f w)).
Proof.
  intros H. unfold HI_PthreadMNG_RegisterEndProc, answered. destruct f as [f|]; [|by apply fine]. destruct (mutex w); [by right|].
  destruct (find_running w id H) as (res & -> & Hres). cbn [obind]. destruct res as [r|]; cbn [obind].
  - destruct Hres as (Hrun & rc & Hr & Hid). rewrite Hr. cbn. apply fine. by apply (set_rec_inv _ _ rc).
  - apply fine. by apply with_ended_inv.
Qed.

(** A thread that goes on, with its record or without. *)
Lemma set_state_inv w t th th' r rc : inv w → threads w !! t = Some th → thread_record th = Some r → thread_record th' = Some r →
  recs w !! r = Some rc → (∀ id, th' = TDel r id → id = t) →
  (∀ o, let a := bool_decide (r ∈ running w) in let b := bool_decide (r ∈ exits w) in
     stage rc r o (Some (t, th)) a b → stage rc r o (Some (t, th')) a b) → inv (set_state t th' w).
Proof.
  intros H Hth Hrec Hrec' Hr Hdel Hstage. apply (inv_one w _ r); try done.
  - intros r' Hne. cbn. split_and!; [done|done|done|done|].
    intros o. apply (threads_insert_other _ _ _ _ r); [done|by left|rewrite Hth; intros y [= <-]; by left].
  - destruct (thread_has w H t th r Hth Hrec) as (rc' & o & Hr' & Hc & Ht & Hs). assert (rc' = rc) as -> by congruence.
    exists o, (Some (t, th')). cbn. split_and!; [done|by eapply held_put; [exact Ht| |right; eexists]|]. rewrite Hr. by apply Hstage.
  - apply (i_nodup w H).
  - cbn. rewrite lookup_insert_ne; [apply (i_ids w H)|]. intros ->. by rewrite (i_ids w H) in Hth.
  - intros t' r' id. cbn. rewrite lookup_insert_Some. intros [[<- ->]|[_ Hd]]; [|by eapply (i_del w H)].
    apply Hdel. cbn in Hrec'. congruence.
  - apply (i_mutex w H).
Qed.

Lemma foreign_ok t w : inv w → threads w !! t = None → t ≠ 0 → inv (set_state t TForeign w).
Proof.
  intros H Hn Ht. split; [|apply (i_nodup w H)| | |apply (i_mutex w H)].
  - intros r. apply (view_same w); [apply (i_view w H)|done|done|done|done|]. intros p Hp. cbn. apply held_other; [done|done|by rewrite Hn].
  - cbn. rewrite lookup_insert_ne by done. apply (i_ids w H).
  - intros t' r' id. cbn. rewrite lookup_insert_Some. intros [[_ ?]|[_ Hd]]; [done|by apply (i_del w H) in Hd].
Qed.

Lemma add_ok base ok t w : inv w → threads w !! t = Some TForeign → step_fine w (answered (HI_PthreadMNG_Add base ok t w)).
Proof.
  intros H Ht. unfold HI_PthreadMNG_Add, answered. destruct ok; [|by apply fine]. cbn [negb]. destruct (mutex w) eqn:Hm; [by right|]. cbn. rewrite Ht. apply fine.
  destruct (fresh_record w H) as (Hr & Hc & Hth & Hrun & Hex). set (r := fresh _) in *. apply (inv_one w _ r); try done.
  - intros r' Hne. cbn. rewrite lookup_insert_ne, elem_list_add by done. split_and!; [done|naive_solver|done|done|].
    intros o. apply (threads_insert_other _ _ _ _ r); [done|by left|rewrite Ht; intros y [= <-]; by right].
  - eapply (view_intro _ r (mkRec t HI_PTHREAD_STATUS_INIT None)); [cbn; by rewrite lookup_insert, decide_True|exact Hc|by eapply held_put; [exact Hth| |left]| | |].
    3: { apply st_known; [done| |done]. intros ->. by rewrite (i_ids w H) in Ht. }
    + cbn. rewrite elem_list_add. tauto.
    + cbn. naive_solver.
  - cbn. split; [by apply nodup_add; [apply (i_nodup w H)|]|apply (i_nodup w H)].
  - cbn. rewrite lookup_insert_ne; [apply (i_ids w H)|]. intros ->. by rewrite (i_ids w H) in Ht.
  - intros t' r' id. cbn. rewrite lookup_insert_Some. intros [[_ ?]|[_ Hd]]; [done|by apply (i_del w H) in Hd].
  - cbn. apply (i_mutex w H).
Qed.

(** A thread at its end takes its own record out of the list of the running. *)
Lemma del_self_ok w t th r : inv w → threads w !! t = Some th → thread_record th = Some r → th ≠ TEnd r →
  (∀ rc, recs w !! r = Some rc → u32Thread rc = t) →
  step_fine w (let! deleted := HI_PthreadMNG_Del t w in match deleted with Some (_, w) => did (set_state t (TEnd r) w) | None => wait end).
Proof.
  intros H Hth Hrec Hne Hid. unfold HI_PthreadMNG_Del. destruct (mutex w) eqn:Hm; [by right|].
  destruct (thread_has w H t th r Hth Hrec) as (rc & o & Hr & Hc & Ht & Hs). specialize (Hid rc Hr).
  destruct (find_running w t H) as (res & -> & Hres). cbn [obind].
  assert (t ≠ 0) as Ht0 by (intros ->; by rewrite (i_ids w H) in Hth).
  destruct res as [r1|]; cbn [obind]; apply fine.
  - destruct Hres as (Hrun & rc1 & Hr1 & Hid1). assert (r1 = r) as ->.
    { destruct (in_list_rec w H r1) as (rc1' & o1 & p1 & Hr1' & _ & Hp1 & Hs1); [by left|]. assert (rc1' = rc1) as -> by congruence.
      rewrite bool_decide_true in Hs1 by done. inversion Hs1; subst; try congruence.
      destruct (held_at _ _ _ _ _ Hp1) as [Hat Hrec1]. congruence. }
    rewrite (bool_decide_true _ Hrun) in Hs. apply (inv_one w _ r); try done.
    + intros r' Hr'. cbn. rewrite elem_list_del, elem_list_add. split_and!; [done|naive_solver|naive_solver|done|].
      intros q. apply (threads_insert_other _ _ _ _ r); [done|by left|rewrite Hth; intros y [= <-]; by left].
    + inversion Hs; subst; try congruence. eapply (view_intro _ r rc); [done|exact Hc|by eapply held_put; [exact Ht| |right; eexists]| | |by apply st_ended].
      * cbn. rewrite elem_list_del. naive_solver.
      * cbn. rewrite elem_list_add. tauto.
    + destruct (i_nodup w H). cbn. split; [by apply nodup_del|apply nodup_add; [done|]].
      inversion Hs; subst; try congruence; not_in_stage.
    + cbn. rewrite lookup_insert_ne by done. apply (i_ids w H).
    + intros t' r' id. cbn. rewrite lookup_insert_Some. intros [[_ ?]|[_ Hd]]; [done|by apply (i_del w H) in Hd].
    + apply (i_mutex w H).
  - apply (set_state_inv w t th (TEnd r) r rc); try done. intros o' a b Hs'.
    assert (a = false) as Ha by (apply bool_decide_false; intros Hin; by apply (Hres r rc Hin Hr)). rewrite Ha in *.
    inversion Hs'; subst; try congruence. by apply st_joining.
Qed.

Lemma proc_ok t w : inv w → ordered (AThread t) w = true → step_fine w (PthreadMng_PthreadProc t w).
Proof.
  intros H Ho. unfold PthreadMng_PthreadProc. cbn [ordered] in Ho. destruct (threads w !! t) as [th|] eqn:Hth; [|by right].
  assert (∀ r, thread_record th = Some r → ∃ rc o, recs w !! r = Some rc ∧ stage rc r o (Some (t, th)) (bool_decide (r ∈ running w)) (bool_decide (r ∈ exits w))) as Hhas.
  { intros r Hr. destruct (thread_has w H t th r Hth Hr) as (rc & o & ? & _ & _ & ?). eauto. }
  destruct th as [r|r|r|r id|r| |r]; try by right.
  - destruct (Hhas r eq_refl) as (rc & o & Hr & _). rewrite Hr. cbn [oderef obind]. apply fine.
    eapply (set_state_inv _ t (TStart r) (TRun r) r); [by eapply set_rec_inv|done|done|done|cbn; by rewrite lookup_insert, decide_True|done|].
    intros o' a b Hs. inversion Hs; subst; econstructor; eauto; naive_solver.
  - destruct (Hhas r eq_refl) as (rc & o & Hr & _). rewrite Hr. cbn [oderef obind]. apply fine.
    eapply (set_state_inv _ t (TRun r) (TStop r) r); [by eapply set_rec_inv|done|done|done|cbn; by rewrite lookup_insert, decide_True|done|].
    intros o' a b Hs. inversion Hs; subst; econstructor; eauto; naive_solver.
  - destruct (Hhas r eq_refl) as (rc & o & Hr & Hs). rewrite Hr in Ho |- *. cbn [oderef obind]. apply fine. apply negb_true_iff, Z.eqb_neq in Ho.
    assert (u32Thread rc = t) as Hid by (inversion Hs; subst; congruence).
    eapply (set_state_inv _ t (TStop r) (TDel r (u32Thread rc)) r); [done|done|done|done|done|intros id [= Hi]; congruence|].
    intros o' a b Hs'. inversion Hs'; subst; try congruence; by econstructor.
  - pose proof (i_del w H t r id Hth) as ->. apply (del_self_ok w t (TDel r t) r); try done.
    intros rc Hr. destruct (Hhas r eq_refl) as (rc' & o & Hr' & Hs). assert (rc' = rc) as -> by congruence. inversion Hs; subst; try congruence. naive_solver.
Qed.

(** A record is taken out of its list to be joined. *)
Lemma take_out_inv w r rc t key : inv w → recs w !! r = Some rc → u32Thread rc = t → t ≠ 0 → r ∈ running w ∨ r ∈ exits w → calls w !! key = None →
  inv (set_call key (Joining r t) (with_lists w (list_del r (running w)) (list_del r (exits w)))).
Proof.
  intros H Hr Ht Ht0 Hin Hk. destruct (in_list_rec w H r Hin) as (rc' & o & p & Hr' & Hc & Hp & Hs). assert (rc' = rc) as -> by congruence.
  assert (o = None ∧ ∃ th, p = Some (t, th)) as (-> & th & ->).
  { destruct Hin as [Hin|Hin]; rewrite (bool_decide_true _ Hin) in Hs; inversion Hs; subst; try congruence; eauto. }
  apply (inv_one w _ r); try done.
  - intros r' Hne. cbn. rewrite !elem_list_del. split_and!; [done|naive_solver|naive_solver| |done].
    intros o. apply (calls_insert_other _ _ _ _ r); [done|by left|by rewrite Hk].
  - eapply (view_intro _ r rc); [done|by eapply held_put; [exact Hc| |left]|exact Hp| | |by apply st_joining]; cbn; rewrite elem_list_del; naive_solver.
  - cbn. split; apply nodup_del; apply (i_nodup w H).
  - apply (i_ids w H).
  - apply (i_del w H).
  - cbn. apply mutex_ok_insert; [apply (i_mutex w H)|done|by rewrite Hk].
Qed.

Lemma join_ok id key w : inv w → id ≠ 0 → calls w !! key = None → step_fine w (answered (HI_PthreadMNG_Join id key w)).
Proof.
  intros H Hid Hk. unfold HI_PthreadMNG_Join, answered. destruct (mutex w); [by right|].
  destruct (find_running w id H) as (res & -> & Hres). cbn [obind]. destruct res as [r|]; cbn [obind].
  - destruct Hres as (Hrun & rc & Hr & Hrc). apply fine. cbn [fmap option_fmap option_map snd]. apply (take_out_inv w r rc); try done. by left.
  - destruct (find_thread_ok (recs w) (exits w) id) as (res & -> & Hres'); [intros r Hr; apply (lists_recs w H); by right|]. cbn [obind].
    destruct res as [r|]; [|by apply fine]. destruct Hres' as (Hex & rc & Hr & Hrc). apply fine.
    cbn [fmap option_fmap option_map snd]. apply (take_out_inv w r rc); try done. by right.
Qed.

(** A thread that ended and its record go together, whoever joins. *)
Lemma reap_inv w w' r rc t th o : inv w → recs w !! r = Some rc → u32Thread rc = t → t ≠ 0 →
  held call_record (calls w) r o → held thread_record (threads w) r (Some (t, th)) →
  recs w' = delete r (recs w) → threads w' = delete t (threads w) → running w' = running w → (r ∉ running w) →
  (∀ x, x ∈ exits w' ↔ x ∈ exits w ∧ x ≠ r) → NoDup (exits w') → mutex_ok (mutex w') (calls w') →
  held call_record (calls w') r None → (∀ r' o', r' ≠ r → held call_record (calls w) r' o' → held call_record (calls w') r' o') → inv w'.
Proof.
  intros H Hr Hrc Ht0 Ho Hp Hrecs Hths Hrun Hnr Hex Hnd Hm Hco Hcalls. destruct (held_at _ _ _ _ _ Hp) as [Hth Hrec]. apply (inv_one w _ r); try done.
  - intros r' Hne. rewrite Hrecs, Hrun, Hths, Hex, lookup_delete_ne by done. split_and!; [done|done|naive_solver|naive_solver|].
    intros q. apply (threads_delete_other _ _ _ r); [done|rewrite Hth; intros y [= <-]; by left].
  - apply view_gone; [by rewrite Hrecs, lookup_delete, decide_True|done|rewrite Hths; by eapply held_gone|by rewrite Hrun|rewrite Hex; tauto].
  - split; [rewrite Hrun; apply (i_nodup w H)|done].
  - rewrite Hths, lookup_delete_ne by done. apply (i_ids w H).
  - intros t' r' id. rewrite Hths. intros [_ Hd]%lookup_delete_Some. by apply (i_del w H) in Hd.
Qed.

Lemma join_end_ok key w : inv w → step_fine w (join_end key w).
Proof.
  intros H. unfold join_end. destruct (calls w !! key) as [[r|r t|r t| |]|] eqn:Hk; try by right.
  destruct (call_has w H key _ r Hk eq_refl) as (rc & p & Hr & Hc & Hp & Hs). inversion Hs as [| | | |? ? ? ? th Hrc Ht0]; subst.
  destruct (held_at _ _ _ _ _ Hp) as [Hth _]. unfold HI_PthreadJoin. rewrite Hth. destruct th; try by right.
  cbn [obind]. unfold free_rec. cbn. rewrite Hr. cbn. apply fine.
  eapply (reap_inv w _ r rc); try done; cbn.
  - not_in_stage.
  - intros x. split; [intros Hx; split; [done|]; intros ->; by assert (r ∉ exits w) by not_in_stage|tauto].
  - apply (i_nodup w H).
  - apply mutex_ok_delete; [apply (i_mutex w H)|by rewrite Hk].
  - by eapply held_gone.
  - intros r' o' Hne. apply (calls_delete_other _ _ _ r); [done|rewrite Hk; intros y [= <-]; by left].
Qed.

Lemma end_proc_ended w e :
  match e with Some f => with_ended w (ended w ++ [f]) | None => w end = with_ended w (ended w ++ option_list e).
Proof. destruct e; [done|]. cbn. rewrite app_nil_r. by destruct w. Qed.

(** One turn of the waiter, who never has to wait in it. *)
Lemma wait_turn_ok key w : inv w → calls w !! key = Some WaitLoop →
  ∃ w', wait_turn key w = Returned (Some w') ∧ inv w' ∧
    match exits w with
    | [] => w' = with_mutex (set_call key WaitTop w) false
    | r :: l => exits w' = l ∧ running w' = running w ∧ calls w' = calls w ∧ status w' = status w ∧ recs w' = delete r (recs w) ∧
        ∃ rc, recs w !! r = Some rc ∧ threads w !! u32Thread rc = Some (TEnd r) ∧ threads w' = delete (u32Thread rc) (threads w) ∧
          ended w' = ended w ++ option_list (pfunEndProc rc)
    end.
Proof.
  intros H Hk. unfold wait_turn. destruct (exits w) as [|r l] eqn:He.
  - eexists. split; [done|]. split; [|done]. split; [| | | |].
    + intros r. apply (view_same w); [apply (i_view w H)|done|done|done| |done]. intros o Ho. cbn. apply held_other; [done|done|rewrite Hk; by intros y [= <-]].
    + apply (i_nodup w H).
    + apply (i_ids w H).
    + apply (i_del w H).
    + cbn. destruct (i_mutex w H) as [H1 H2]. split; [|done]. intros k. rewrite lookup_insert_Some. intros [[_ ?]|[Hne Hk']]; [done|].
      destruct H2 as (j & _ & Hj); [by eapply H1|]. pose proof (Hj _ Hk). pose proof (Hj _ Hk'). congruence.
  - destruct (in_list_rec w H r) as (rc & o & p & Hr & Ho & Hp & Hs); [right; rewrite He; by left|]. rewrite Hr. cbn [oderef obind].
    assert (r ∈ exits w) as Hin by (rewrite He; by left). rewrite (bool_decide_true _ Hin) in Hs. inversion Hs as [| | |? ? t Hrc Ht0|]; subst.
    destruct (held_at _ _ _ _ _ Hp) as [Hth _]. unfold HI_PthreadJoin. rewrite Hth. cbn [obind].
    destruct (i_nodup w H) as [Hn1 Hn2]. assert (list_del r (r :: l) = l) as Hl.
    { rewrite He in Hn2. apply NoDup_cons in Hn2 as [Hrl _]. unfold list_del. cbn [List.filter]. rewrite Z.eqb_refl. cbn [negb].
      apply forallb_filter_id, forallb_forall. intros x Hx%list_elem_of_In. apply negb_true_iff, Z.eqb_neq. by intros ->. }
    rewrite end_proc_ended. eexists. split; [unfold free_rec; cbn; rewrite Hr; reflexivity|].
    split; [|cbn; rewrite ?He, ?Hl; split_and!; try done; by exists rc].
    eapply (reap_inv w _ r rc); try done; cbn; [not_in_stage| | |apply (i_mutex w H)]; rewrite He, Hl in *;
      apply NoDup_cons in Hn2 as [Hrl Hn2]; [|done].
    intros x. rewrite elem_of_cons. naive_solver.
Qed.

Lemma same_records_inv w w' : inv w → recs w' = recs w → running w' = running w → exits w' = exits w → threads w' = threads w →
  mutex_ok (mutex w') (calls w') → (∀ r o, held call_record (calls w) r o → held call_record (calls w') r o) → inv w'.
Proof.
  intros H Hr Hrun Hex Ht Hm Hc. split; [|rewrite Hrun, Hex; apply (i_nodup w H)|rewrite Ht; apply (i_ids w H)|rewrite Ht; apply (i_del w H)|done].
  intros r. apply (view_same w); [apply (i_view w H)|by rewrite Hr|by rewrite Hrun|by rewrite Hex|apply Hc|by rewrite Ht].
Qed.

Lemma wait_call_inv key w : inv w → calls w !! key = None → inv (set_call key WaitTop w).
Proof.
  intros H Hk. apply (same_records_inv w); try done; cbn.
  - apply mutex_ok_insert; [apply (i_mutex w H)|done|by rewrite Hk].
  - intros r o Ho. apply held_other; [done|done|by rewrite Hk].
Qed.

Lemma wait_ok key w : inv w → step_fine w (PthreadMNG_Wait key w).
Proof.
  intros H. unfold PthreadMNG_Wait. destruct (calls w !! key) as [[| | | |]|] eqn:Hk; try by right.
  - case_goal_if.
    + unfold critical. destruct (mutex w) eqn:Hm; [by right|]. apply fine. apply (same_records_inv w); try done; cbn.
      * split; [done|]. intros _. exists key. rewrite lookup_insert, decide_True by done. split; [done|]. intros j.
        rewrite lookup_insert_Some. intros [[<- _]|[_ Hj]]; [done|]. destruct (i_mutex w H) as [H1 _]. specialize (H1 j Hj). congruence.
      * intros r o Ho. apply held_other; [done|done|rewrite Hk; by intros y [= <-]].
    + apply fine. apply (same_records_inv w); try done; cbn.
      * apply mutex_ok_delete; [apply (i_mutex w H)|by rewrite Hk].
      * intros r o Ho. apply held_delete_other; [done|rewrite Hk; by intros y [= <-]].
  - destruct (wait_turn_ok key w H Hk) as (w' & -> & Hw' & _). by apply fine.
Qed.

Lemma step_ok base a w : inv w → ordered a w = true → step_fine w (step base a w).
Proof.
  intros H Ho. destruct a as [b rtn key| |p i f m key|key res|key|id f|t|t ok|t|id|id key|key|key|key|t]; cbn [step]; unfold new_call.
  - destruct (calls w !! key) eqn:Hk; [by right|]. apply fine. unfold HI_PthreadMNG_Init. cbn [snd]. apply with_flags_inv.
    destruct b; [|by apply with_flags_inv]. case_goal_if; [|by do 2 apply with_flags_inv]. apply wait_call_inv; [by apply with_flags_inv|done].
  - by apply fine, with_flags_inv.
  - destruct (calls w !! key) eqn:Hk; [by right|]. by apply create_add_ok.
  - by apply create_thread_ok.
  - by apply create_publish_ok.
  - by apply register_ok.
  - destruct (threads w !! t) eqn:Ht; [by right|]. destruct (Z.eqb_spec t 0); [by right|]. by apply fine, foreign_ok.
  - destruct (threads w !! t) as [[]|] eqn:Ht; try by right. by apply add_ok.
  - destruct (threads w !! t) as [[]|] eqn:Ht; try by right. apply (del_self_ok w t (TReg r) r); try done.
    intros rc Hr. destruct (thread_has w H t _ r Ht eq_refl) as (rc' & o & Hr' & _ & _ & Hs). assert (rc' = rc) as -> by congruence.
    inversion Hs; subst; try congruence. naive_solver.
  - done.
  - destruct (calls w !! key) eqn:Hk; [by right|]. apply join_ok; [done| |done]. by apply negb_true_iff, Z.eqb_neq in Ho.
  - by apply join_end_ok.
  - destruct (calls w !! key) eqn:Hk; [by right|]. apply fine. unfold HI_PthreadMNG_Wait. destruct (auto_wait w); [done|]. by apply wait_call_inv.
  - by apply wait_ok.
  - by apply proc_ok.
Qed.

Lemma start_inv_thread : inv start.
Proof.
  split; [|by split; constructor|done|done|by split; [|done]]. intros r. apply view_gone; [done| | |by apply not_elem_of_nil|by apply not_elem_of_nil]; by intros k x; split; [intros [Hx _]; cbn in Hx; rewrite lookup_empty in Hx|].
Qed.

Lemma reach_inv_thread base w : reach base w → inv w.
Proof.
  induction 1 as [|a w w' _ IH Ho Hs]; [apply start_inv_thread|]. destruct (step_ok base a w IH Ho) as [(w1 & Hw1 & H1)|Hn]; congruence.
Qed.

(** C18: in the order the code relies on, no step touches a freed record or joins a
    thread that is not there, whatever threads are created, register, join, end and
    are waited for at the same time; every record is in exactly one place, the list
    of the running, that of the ended, or the call that joins it. *)
Theorem threadmng_safe base w : reach base w →
  (∀ a, ordered a w = true → ∃ o, step base a w = Returned o) ∧
  NoDup (running w ++ exits w) ∧
  ∀ r, is_Some (recs w !! r) ↔ r ∈ running w ++ exits w ∨ ∃ k t, calls w !! k = Some (Joining r t) ∧ r ∉ running w ++ exits w.
Proof.
  intros H%reach_inv_thread. split; [|split].
  - intros a Ho. destruct (step_ok base a w H Ho) as [(w' & -> & _)| ->]; eauto.
  - destruct (i_nodup w H). apply NoDup_app. split_and!; [done| |done]. intros r Hr Hx.
    destruct (in_list_rec w H r) as (rc & o & p & _ & _ & _ & Hs); [by left|]. rewrite !bool_decide_true in Hs by done. inversion Hs.
  - intros r. rewrite !elem_of_app. split.
    + intros [rc Hr]. destruct (i_view w H r) as (o & p & Ho & Hp & Hk). rewrite Hr in Hk. cbn in Hk.
      destruct (decide (r ∈ running w ∨ r ∈ exits w)) as [|Hn]; [by left|]. right. rewrite !bool_decide_false in Hk by tauto. inversion Hk; subst.
      apply held_at in Ho as [Ho _]. exists k, (u32Thread rc). by rewrite ?elem_of_app.
    + intros [Hr|(k & t & Hk & _)]; [by apply (lists_recs w H)|]. destruct (call_has w H k _ r Hk eq_refl) as (rc & _ & -> & _). done.
Qed.

(** ** The waiter *)

Fixpoint turns (n : nat) (key : Z) (w : world) : result :=
  match n with
  | O => did w
  | S n => let! w' := PthreadMNG_Wait key w in match w' with Some w => turns n key w | None => wait end
  end.

Lemma wait_empties key l : ∀ w, inv w → calls w !! key = Some WaitLoop → exits w = l →
  ∃ w', turns (S (length l)) key w = Returned (Some w') ∧ mutex w' = false ∧ exits w' = [] ∧ running w' = running w ∧ inv w' ∧
    (∀ r, recs w' !! r = if bool_decide (r ∈ l) then None else recs w !! r) ∧
    ended w' = ended w ++ omap (λ r, recs w !! r ≫= pfunEndProc) l.
Proof.
  induction l as [|r l IH]; intros w H Hk He.
  - destruct (wait_turn_ok key w H Hk) as (w' & Hw & Hi & Hx). rewrite He in Hx. subst w'.
    exists (with_mutex (set_call key WaitTop w) false). cbn [length turns]. unfold PthreadMNG_Wait. rewrite Hk, Hw. cbn [obind].
    split_and!; [done|done|done|done|done|intros r; by rewrite bool_decide_false by apply not_elem_of_nil|by rewrite app_nil_r].
  - destruct (wait_turn_ok key w H Hk) as (w1 & Hw & Hi & Hx). rewrite He in Hx. destruct Hx as (He1 & Hrun & Hc & _ & Hrecs & rc & Hr & _ & _ & Hend).
    destruct (IH w1 Hi) as (w' & Ht & Hm & Hex & Hrun' & Hi' & Hrecs' & Hend'); [by rewrite Hc|done|].
    exists w'. cbn [length]. change (turns (S (S (length l))) key w) with
      (let! w' := PthreadMNG_Wait key w in match w' with Some w => turns (S (length l)) key w | None => wait end).
    unfold PthreadMNG_Wait. rewrite Hk, Hw. cbn [obind]. split_and!; [done|done|done|congruence|done| |].
    + intros q. rewrite Hrecs', Hrecs. destruct (decide (q = r)) as [->|Hne].
      * rewrite (bool_decide_true (r ∈ r :: l)) by by left. rewrite lookup_delete, decide_True by done. by case_goal_if.
      * rewrite lookup_delete_ne by done. by rewrite (bool_decide_ext (q ∈ r :: l) (q ∈ l)) by (rewrite elem_of_cons; naive_solver).
    + destruct (i_nodup w H) as [_ Hn]. rewrite He in Hn. apply NoDup_cons in Hn as [Hrl _]. rewrite Hend', Hend, <-app_assoc. f_equal.
      cbn [omap list_omap]. rewrite Hr. cbn [mbind option_bind]. assert (omap (λ r0, recs w1 !! r0 ≫= pfunEndProc) l = omap (λ r0, recs w !! r0 ≫= pfunEndProc) l) as ->.
      { apply list_omap_ext, Forall2_same_length_lookup_2; [done|]. intros i x y Hx Hy. assert (x = y) as <- by congruence.
        rewrite Hrecs, lookup_delete_ne; [done|]. intros <-. by apply Hrl; eapply list_elem_of_lookup_2. }
      by destruct (pfunEndProc rc).
Qed.

(** A waiter that has the mutex never waits for a thread: in one turn per
    ended thread and one more it has joined them all, run the procedures that were
    registered for their ends in their order, freed their records and no others, and
    given the mutex back. *)
Theorem PthreadMNG_Wait_reaps base key w : reach base w → calls w !! key = Some WaitLoop →
  ∃ w', turns (S (length (exits w))) key w = Returned (Some w') ∧ mutex w' = false ∧ exits w' = [] ∧ running w' = running w ∧
    (∀ r, recs w' !! r = if bool_decide (r ∈ exits w) then None else recs w !! r) ∧
    ended w' = ended w ++ omap (λ r, recs w !! r ≫= pfunEndProc) (exits w).
Proof.
  intros H%reach_inv_thread Hk. destruct (wait_empties key (exits w) w H Hk eq_refl) as (w' & H1 & H2 & H3 & H4 & _ & H5 & H6). by exists w'.
Qed.

(** [HI_PthreadMNG_Wait] comes back only after [HI_PthreadMNG_Deinit] and when both
    lists are empty; then all records that are left are being joined. *)
Theorem PthreadMNG_Wait_returns base key w w' : reach base w → PthreadMNG_Wait key w = Returned (Some w') → is_Some (calls w !! key) → calls w' !! key = None →
  status w' = false ∧ running w' = [] ∧ exits w' = [] ∧ ∀ r, is_Some (recs w' !! r) → ∃ k t, calls w' !! k = Some (Joining r t).
Proof.
  intros H%reach_inv_thread Hw Hk Hn. unfold PthreadMNG_Wait in Hw. destruct (calls w !! key) as [[| | | |]|] eqn:Hc; try done.
  - destruct (status w || _ || _) eqn:Hcond.
    { unfold critical in Hw. destruct (mutex w); [done|]. injection Hw as <-. cbn in Hn. by rewrite lookup_insert, decide_True in Hn. }
    injection Hw as <-. apply orb_false_iff in Hcond as [[H1 H2]%orb_false_iff H3]. apply negb_false_iff, bool_decide_eq_true in H2, H3.
    cbn. split_and!; [done|done|done|]. intros r [rc Hr]. destruct (i_view w H r) as (o & p & Ho & Hp & Hk'). rewrite Hr, H2, H3 in Hk'. cbn in Hk'.
    rewrite !bool_decide_false in Hk' by apply not_elem_of_nil. inversion Hk'; subst. apply held_at in Ho as [Ho _].
    exists k, (u32Thread rc). rewrite lookup_delete_ne; [done|]. congruence.
  - destruct (wait_turn_ok key w H Hc) as (w1 & Hw1 & _ & Hx). assert (w1 = w') as -> by congruence. destruct (exits w).
    + subst w'. cbn in Hn. by rewrite lookup_insert, decide_True in Hn.
    + destruct Hx as (_ & _ & Hcs & _). congruence.
Qed.

(** ** Where the order is not kept *)

Fixpoint run (base : Z) (l : list action) (w : world) : result :=
  match l with
  | [] => did w
  | a :: l => let! w' := step base a w in match w' with Some w => run base l w | None => wait end
  end.

(** A short thread: it is over before [HI_PthreadMNG_CreateD] writes its number to the
    record, so it looks for number 0; the waiter then joins the thread 0. *)
Definition create_first : list action := [ACreate true true true true 1; ACreateThread 1 (Some 100)].
Definition over (t : Z) : list action := [AThread t; AThread t; AThread t; AThread t].
Definition wait_second : list action := [AWaitCall 2; AWait 2].

Theorem early_end_joins_nobody : run 0 (create_first ++ over 100 ++ wait_second ++ [AWait 2]) start = Undefined.
Proof. by vm_compute. Qed.

(** With two of them it moves the record of the other one, which still runs: the waiter
    joins that thread and keeps the mutex that the thread needs to end. *)
Definition waits (base : Z) (w : world) (l : list action) : Prop := ∀ a, a ∈ l → step base a w = Returned None.

Theorem early_end_deadlocks : ∃ w,
  run 0 (create_first ++ [ACreate true true true true 3; ACreateThread 3 (Some 200)] ++ over 200 ++ [APublish 1; AThread 100; AThread 100; AThread 100] ++ wait_second) start = Returned (Some w) ∧
  waits 0 w [AWait 2; AThread 100; AThread 200].
Proof. eexists. split; [vm_compute; reflexivity|]. intros a Ha. repeat (apply elem_of_cons in Ha as [->|Ha]; [by vm_compute|]). by apply elem_of_nil in Ha. Qed.

(** So does a thread that calls [HI_PthreadMNG_Del] for itself before it returns. *)
Theorem own_del_deadlocks : ∃ w,
  run 0 (create_first ++ [APublish 1; AThread 100; ADel 100; AThread 100; AThread 100] ++ wait_second) start = Returned (Some w) ∧
  waits 0 w [AWait 2; AThread 100].
Proof. eexists. split; [vm_compute; reflexivity|]. intros a Ha. repeat (apply elem_of_cons in Ha as [->|Ha]; [by vm_compute|]). by apply elem_of_nil in Ha. Qed.

(** A procedure registered for the end of a thread is lost when the thread is joined. *)
Theorem join_loses_end_proc : ∃ w,
  run 0 (create_first ++ [APublish 1; ARegister 100 (Some 7); AJoin 100 5] ++ over 100 ++ [AJoinEnd 5]) start = Returned (Some w) ∧
  ended w = [] ∧ recs w = ∅ ∧ threads w = ∅.
Proof. eexists. split; [vm_compute; reflexivity|]. by split_and!. Qed.

(** A thread that has not started is shown as stopped. *)
Theorem init_shown_as_stopped : status_text HI_PTHREAD_STATUS_INIT = "STOP"%string.
Proof. done. Qed.

(** Two threads and a waiter in the order that is meant. *)
Fixpoint all_ordered (base : Z) (l : list action) (w : world) : bool :=
  match l with
  | [] => true
  | a :: l => ordered a w && match step base a w with Returned (Some w) => all_ordered base l w | _ => false end
  end.

Lemma run_reach base l : ∀ w w', reach base w → all_ordered base l w = true → run base l w = Returned (Some w') → reach base w'.
Proof.
  induction l as [|a l IH]; intros w w' Hw Ho Hr; cbn [run all_ordered] in *; [by injection Hr as <-|].
  apply andb_true_iff in Ho as [Ho Hrest]. destruct (step base a w) as [[w1|]| |] eqn:Hs; try done. cbn [obind] in Hr.
  by apply (IH w1 w' (reach_step base a w w1 Hw Ho Hs)).
Qed.

Definition demo_steps : list action :=
  create_first ++ [APublish 1; ARegister 100 (Some 7); AForeign 300; AAdd 300 true] ++ over 100 ++ [ADelSelf 300; ADeinit] ++ wait_second.
Definition after (l : list action) : world := match run 0 l start with Returned (Some w) => w | _ => start end.
Definition demo_ends : world := after demo_steps.
Definition demo_done : world := after (demo_steps ++ [AWait 2; AWait 2; AWait 2]).

Lemma demo_ends_reached : reach 0 demo_ends.
Proof. apply (run_reach 0 demo_steps start); [apply reach_start|by vm_compute|by vm_compute]. Qed.
Lemma demo_done_reached : reach 0 demo_done.
Proof. apply (run_reach 0 (demo_steps ++ [AWait 2; AWait 2; AWait 2]) start); [apply reach_start|by vm_compute|by vm_compute]. Qed.

Lemma threadmng_safe_witness :
  (∀ a, ordered a demo_ends = true → ∃ o, step 0 a demo_ends = Returned o) ∧
  NoDup (running demo_ends ++ exits demo_ends) ∧
  ∀ r, is_Some (recs demo_ends !! r) ↔ r ∈ running demo_ends ++ exits demo_ends ∨ ∃ k t, calls demo_ends !! k = Some (Joining r t) ∧ r ∉ running demo_ends ++ exits demo_ends.
Proof. apply (threadmng_safe 0 demo_ends demo_ends_reached). Defined.

Lemma PthreadMNG_Wait_reaps_witness :
  ∃ w', turns 3 2 demo_ends = Returned (Some w') ∧ mutex w' = false ∧ exits w' = [] ∧ running w' = running demo_ends ∧
    (∀ r, recs w' !! r = if bool_decide (r ∈ exits demo_ends) then None else recs demo_ends !! r) ∧
    ended w' = ended demo_ends ++ omap (λ r, recs demo_ends !! r ≫= pfunEndProc) (exits demo_ends).
Proof. apply (PthreadMNG_Wait_reaps 0 2 demo_ends demo_ends_reached). by vm_compute. Defined.

Lemma PthreadMNG_Wait_returns_witness : ∃ w', PthreadMNG_Wait 2 demo_done = Returned (Some w') ∧
  status w' = false ∧ running w' = [] ∧ exits w' = [] ∧ ∀ r, is_Some (recs w' !! r) → ∃ k t, calls w' !! k = Some (Joining r t).
Proof.
  eexists. split; [vm_compute; reflexivity|].
  apply (PthreadMNG_Wait_returns 0 2 demo_done); [apply demo_done_reached|by vm_compute|eexists; vm_compute; reflexivity|by vm_compute].
Defined.

End TH.
