(* ===== verification/StringMem.v ===== *)
(** What [String8.cpp] and [String16.cpp] share: strings are pointers to counted
    blocks ([SharedBuffer.v]) that hold their characters and a terminating zero,
    and any number of strings may point to one block.  The lemmas say what
    getting, giving back, copying and resizing a block does to the texts of all
    strings. *)

From S2P Require Import Prelude SharedBuffer.

Module SM.
Import SB.

Abbreviation memory := (mem Z).

(** Where characters are copied from: nowhere, from memory outside of all strings, or
    from a block, from a place in it on. *)
Inductive source := Null | Outside (xs : list Z) | Inside (p : Z) (i : nat).

Definition read_cells (p : Z) (i n : nat) (m : memory) : outcome (list (option Z)) :=
  let! b := sb_at p m in
  if (i + n <=? length (data b))%nat then Returned (take n (drop i (data b))) else Undefined.

(** [memcpy] from a source; nothing is read for nothing. *)
Definition read_source (s : source) (n : nat) (m : memory) : outcome (list (option Z)) :=
  match n, s with
  | O, _ => Returned []
  | _, Null => Undefined
  | _, Outside xs => if (n <=? length xs)%nat then Returned (Some <$> take n xs) else Undefined
  | _, Inside p i => read_cells p i n m
  end.

Definition store_cells (i : nat) (xs l : list (option Z)) : outcome (list (option Z)) :=
  if (i + length xs <=? length l)%nat then Returned (take i l ++ xs ++ drop (i + length xs) l) else Undefined.

Definition store (p : Z) (i : nat) (xs : list (option Z)) (m : memory) : outcome memory :=
  let! b := sb_at p m in let! l := store_cells i xs (data b) in Returned (set_sb p (set_data b l) m).

(** A character that is there. *)
Definition char_at (p : Z) (i : nat) (m : memory) : outcome Z :=
  let! b := sb_at p m in let! c := oderef (data b !! i) in oderef c.

(** The characters from a place on up to the terminator. *)
Fixpoint scan_string (l : list (option Z)) : outcome (list Z) :=
  match l with
  | [] => Undefined
  | None :: _ => Undefined
  | Some c :: l' => if c =? 0 then Returned [] else let! t := scan_string l' in Returned (c :: t)
  end.
Definition c_string (p : Z) (i : nat) (m : memory) : outcome (list Z) :=
  let! b := sb_at p m in scan_string (drop i (data b)).

(** The length of a string behind a source, by [strlen] or [strlen16]; [NULL] counts as
    empty where the callers test it. *)
Definition source_length (s : source) (m : memory) : outcome nat :=
  match s with
  | Null => Returned O
  | Outside xs => let! t := scan_string (Some <$> xs) in Returned (length t)
  | Inside p i => let! t := c_string p i m in Returned (length t)
  end.

Lemma mapM_some (l : list Z) : mapM id (Some <$> l) = Some l.
Proof. induction l as [|x l IH]; [done|]. change (Some <$> x :: l) with (Some x :: (Some <$> l)). cbn [mapM id mbind option_bind]. by rewrite IH. Qed.

Section Strings.
Context (isz : Z) (Hisz : 0 < isz ≤ 4).

(** [SharedBuffer::sizeFromData] in characters, less the terminator. *)
Definition size (p : Z) (m : memory) : outcome Z :=
  let! b := sb_at p m in Returned (u32 (mSize b / isz - 1)).

(** ** The texts of strings *)

Definition holds (m : memory) (p : Z) (t : list Z) : Prop :=
  ∃ b, heap m !! p = Some b ∧ data b = Some <$> (t ++ [0]) ∧ mSize b = isz * (Z.of_nat (length t) + 1) ∧ mSize b < 2 ^ 31.

Definition users (p : Z) (us : list Z) : Z := countP (Z.eqb p) us.

(** Every block is there for the strings that point to it, and holds their text;
    the block at [q], when it is not 0, is set aside. *)
Record swf (q : Z) (m : memory) (us : list Z) : Prop := {
  s_live p : p ∈ us → p ≠ q ∧ ∃ t, holds m p t;
  s_block p b : heap m !! p = Some b → p ≠ 0 ∧ (p ≠ q → mRefs b = users p us ∧ 0 < mRefs b)
}.

(** A block that one string has for itself while it is changed. *)
Record opened (m : memory) (q : Z) (b : SharedBuffer Z) (us : list Z) : Prop := {
  op_rest : swf q m us;
  op_at : heap m !! q = Some b;
  op_one : mRefs b = 1;
  op_nz : q ≠ 0
}.

Definition tkeeps (m m' : memory) (us : list Z) : Prop := ∀ p t, p ∈ us → holds m p t → holds m' p t.
Definition plenty (m : memory) : Prop := Forall (λ a, a = true) (answers m).

Lemma tkeeps_trans m1 m2 m3 us : tkeeps m1 m2 us → tkeeps m2 m3 us → tkeeps m1 m3 us.
Proof. intros H1 H2 p t Hp Ht. by apply H2, H1. Qed.
Lemma tkeeps_refl m us : tkeeps m m us.
Proof. by intros p t. Qed.

Lemma holds_text m p t t' : holds m p t → holds m p t' → t = t'.
Proof.
  intros (b & Hb & Hd & _) (b' & Hb' & Hd' & _). assert (b = b') as <- by congruence.
  assert (Some <$> (t ++ [0]) = Some <$> (t' ++ [0])) as He by congruence. apply (inj (fmap Some)) in He. by apply app_inj_tail in He as [-> _].
Qed.

Lemma users_cons p q us : users p (q :: us) = (if p =? q then 1 else 0) + users p us.
Proof. unfold users. apply countP_cons. Qed.
Lemma users_nonneg p us : 0 ≤ users p us.
Proof. apply countP_nonneg. Qed.
Lemma users_pos p us : p ∈ us → 0 < users p us.
Proof. intros [i Hi]%list_elem_of_lookup. eapply countP_pos; [exact Hi|]. by apply Z.eqb_eq. Qed.
Lemma users_zero p us : p ∉ us → users p us = 0.
Proof.
  intros H. pose proof (users_nonneg p us). destruct (decide (users p us = 0)) as [|Hn]; [done|].
  destruct (countP_exists (Z.eqb p) us) as (i & x & Hi & Hx); [unfold users in *; lia|]. apply Z.eqb_eq in Hx as <-. by apply list_elem_of_lookup_2 in Hi.
Qed.

Lemma swf_perm q m us us' : us ≡ₚ us' → swf q m us → swf q m us'.
Proof.
  intros Hp [H1 H2]. split; [intros p Hin; apply H1; by rewrite Hp|]. intros p b Hb.
  assert (users p us' = users p us) as -> by (unfold users; clear -Hp; induction Hp; rewrite ?countP_cons; lia). by apply H2.
Qed.

Lemma holds_heap m m' p t : heap m' !! p = heap m !! p → holds m p t → holds m' p t.
Proof. intros H (b & Hb & Hrest). exists b. by rewrite H. Qed.

Lemma s_block' q m p us r b : swf q m (p :: us) → r ≠ p → heap m !! r = Some b → r ≠ 0 ∧ (r ≠ q → mRefs b = users r us ∧ 0 < mRefs b).
Proof. intros H Hr Hb. destruct (s_block _ _ _ H r b Hb) as [H0 H1]. split; [done|]. intros Hq. specialize (H1 Hq). by rewrite users_cons, (proj2 (Z.eqb_neq r p)) in H1. Qed.

(** The block of the string at the head. *)
Lemma head_block q m p us : swf q m (p :: us) → ∃ t b, holds m p t ∧ heap m !! p = Some b ∧ data b = Some <$> (t ++ [0]) ∧
  mSize b = isz * (Z.of_nat (length t) + 1) ∧ mSize b < 2 ^ 31 ∧ p ≠ 0 ∧ p ≠ q ∧ mRefs b = 1 + users p us.
Proof.
  intros H. destruct (s_live _ _ _ H p) as (Hq & t & b & Hb & Hd & Hs & Hlt); [by left|]. exists t, b.
  destruct (s_block _ _ _ H p b Hb) as [Hp Hr]. destruct (Hr Hq) as [Hr' _]. rewrite users_cons, Z.eqb_refl in Hr'. split_and!; try done. by exists b.
Qed.

(** Taking a block aside and giving it back. *)
Lemma open_string m p us b : swf 0 m (p :: us) → heap m !! p = Some b → mRefs b = 1 → opened m p b us.
Proof.
  intros H Hb H1. destruct (head_block _ _ _ _ H) as (t & b' & Ht & Hb' & _ & _ & _ & Hp & _ & Hr). assert (b' = b) as -> by congruence.
  assert (p ∉ us) as Hpu by (intros ?%users_pos; lia). split; [split|done|done|done].
  - intros r Hr'. split; [by intros ->|]. apply (s_live _ _ _ H). by right.
  - intros r c Hc. destruct (decide (r = p)) as [->|Hne]; [done|]. destruct (s_block' _ _ _ _ _ _ H Hne Hc) as [? Hq]. split; [done|]. intros _. by apply Hq.
Qed.

Lemma close_string m q b us t : opened m q b us → data b = Some <$> (t ++ [0]) → mSize b = isz * (Z.of_nat (length t) + 1) → mSize b < 2 ^ 31 →
  swf 0 m (q :: us) ∧ holds m q t.
Proof.
  intros [H Ha H1 Hq] Hd Hs Hlt. assert (holds m q t) as Hh by by exists b. split; [|done]. split.
  - intros p [->|Hp]%elem_of_cons; [split; [done|by exists t]|]. destruct (s_live _ _ _ H p Hp) as (_ & t' & Ht'). split; [|by exists t'].
    intros ->. destruct Ht' as (c & Hc & _). by destruct (s_block _ _ _ H 0 c Hc).
  - intros p c Hc. destruct (s_block _ _ _ H p c Hc) as [Hp Hr]. split; [done|]. intros _. rewrite users_cons. destruct (Z.eqb_spec p q) as [->|Hne].
    + assert (c = b) as -> by congruence. rewrite users_zero by (intros Hin; by destruct (s_live _ _ _ H q Hin)). lia.
    + rewrite Z.add_0_l. by apply Hr.
Qed.

Lemma opened_set m q b us b' : opened m q b us → mRefs b' = 1 → opened (set_sb q b' m) q b' us ∧ tkeeps m (set_sb q b' m) us.
Proof.
  intros [H Ha H1 Hq] H1'. assert (∀ p, p ≠ q → <[q := b']> (heap m) !! p = heap m !! p) as Hne by (intros p Hp; by rewrite lookup_insert_ne).
  assert (tkeeps m (set_sb q b' m) us) as Hk by (intros p t Hp; apply holds_heap, Hne; by apply (s_live _ _ _ H)).
  split; [|done]. split; [split|cbn; by rewrite lookup_insert, decide_True|done|done].
  - intros p Hp. destruct (s_live _ _ _ H p Hp) as (Hpq & t & Ht). split; [done|]. exists t. by apply Hk.
  - intros p c. cbn. rewrite lookup_insert_Some. intros [[<- <-]|[Hp Hc]]; [done|]. by apply (s_block _ _ _ H).
Qed.

Lemma store_opened m q b us i xs l : opened m q b us → store_cells i xs (data b) = Returned l →
  ∃ m', store q i xs m = Returned m' ∧ opened m' q (set_data b l) us ∧ tkeeps m m' us ∧ answers m' = answers m.
Proof.
  intros Ho Hl. pose proof Ho as [_ Ha H1 _]. unfold store, sb_at. rewrite Ha. cbn [oderef obind]. rewrite Hl. cbn [obind].
  destruct (opened_set m q b us (set_data b l) Ho H1) as [Ho' Hk]. by exists (set_sb q (set_data b l) m).
Qed.

(** ** Getting and giving back *)

Lemma release_string q m p us : swf q m (p :: us) →
  ∃ r m', release p false m = Returned (r, m') ∧ swf q m' us ∧ tkeeps m m' us ∧ answers m' = answers m ∧ (∀ r', r' ≠ p → heap m' !! r' = heap m !! r').
Proof.
  intros H. destruct (head_block _ _ _ _ H) as (t & b & Ht & Hb & _ & _ & _ & Hp & Hpq & Hr). unfold release, sb_at. rewrite Hb. cbn [oderef obind]. unfold onlyOwner.
  destruct (Z.eqb_spec (mRefs b) 1) as [H1|H1].
  - cbn [Z.eqb Pos.eqb]. eexists _, _. split; [reflexivity|].
    assert (p ∉ us) as Hpu by (intros ?%users_pos; lia). assert (∀ r, r ≠ p → heap (free_sb p m) !! r = heap m !! r) as Hne by (intros r Hr'; cbn; by rewrite lookup_delete_ne).
    assert (tkeeps m (free_sb p m) us) as Hk by (intros r t' Hr'; apply holds_heap, Hne; by intros ->).
    split_and!; [split|done|done|done].
    + intros r Hr'. destruct (s_live _ _ _ H r) as (? & t' & Ht'); [by right|]. split; [done|]. exists t'. by apply Hk.
    + intros r c. cbn. intros [Hrp Hc]%lookup_delete_Some. by apply (s_block' _ _ _ _ _ _ H).
  - rewrite (proj2 (Z.eqb_neq (mRefs b) 1)) by done. eexists _, _. split; [reflexivity|].
    assert (∀ r t', holds m r t' → holds (set_sb p (set_refs b (mRefs b - 1)) m) r t') as Hk.
    { intros r t' (c & Hc & Hrest). destruct (decide (r = p)) as [->|Hne]; [|exists c; cbn; by rewrite lookup_insert_ne].
      assert (c = b) as -> by congruence. exists (set_refs b (mRefs b - 1)). cbn. by rewrite lookup_insert, decide_True. }
    split_and!; [split|intros r t' _; apply Hk|done|intros r Hr'; cbn; by rewrite lookup_insert_ne].
    + intros r Hr'. destruct (s_live _ _ _ H r) as (? & t' & Ht'); [by right|]. split; [done|]. exists t'. by apply Hk.
    + intros r c. cbn. rewrite lookup_insert_Some. intros [[<- <-]|[Hne Hc]]; [|by apply (s_block' _ _ _ _ _ _ H)].
      split; [done|]. intros _. cbn. pose proof (users_nonneg p us). lia.
Qed.

Lemma release_opened m q b p us : opened m q b (p :: us) →
  ∃ r m', release p false m = Returned (r, m') ∧ opened m' q b us ∧ tkeeps m m' us ∧ answers m' = answers m.
Proof.
  intros [H Ha H1 Hq]. destruct (release_string _ _ _ _ H) as (r & m' & Hr & Hw & Hk & Han & Hne). exists r, m'. split_and!; [done| |done|done].
  split; [done| |done|done]. rewrite Hne; [done|]. apply not_eq_sym. apply (s_live _ _ _ H). by left.
Qed.

Lemma acquire_string q m p us : swf q m us → p ∈ us → ∃ m', acquire p m = Returned m' ∧ swf q m' (p :: us) ∧ tkeeps m m' us ∧ answers m' = answers m.
Proof.
  intros H Hp. destruct (s_live _ _ _ H p Hp) as (Hpq & t & b & Hb & Hd & Hs & Hlt). unfold acquire, sb_at. rewrite Hb. cbn [oderef obind].
  destruct (s_block _ _ _ H p b Hb) as (Hp0 & Hr). destruct (Hr Hpq) as [Hr' Hpos]. eexists. split; [reflexivity|].
  assert (∀ r t', holds m r t' → holds (set_sb p (set_refs b (mRefs b + 1)) m) r t') as Hk.
  { intros r t' (c & Hc & Hrest). destruct (decide (r = p)) as [->|Hne]; [|exists c; cbn; by rewrite lookup_insert_ne].
    assert (c = b) as -> by congruence. exists (set_refs b (mRefs b + 1)). cbn. by rewrite lookup_insert, decide_True. }
  split_and!; [split|intros r t' _; apply Hk|done].
  - intros r [->|Hr0]%elem_of_cons; [split; [done|]; exists t; apply Hk; by exists b|]. destruct (s_live _ _ _ H r Hr0) as (? & t' & Ht'). split; [done|]. exists t'. by apply Hk.
  - intros r c. cbn. rewrite lookup_insert_Some, users_cons. intros [[<- <-]|[Hne Hc]].
    + cbn. rewrite Z.eqb_refl. split; [done|]. lia.
    + rewrite (proj2 (Z.eqb_neq r p)) by done. by apply (s_block _ _ _ H).
Qed.

Lemma answer_yes m : plenty m → ∃ m', answer m = (true, m') ∧ heap m' = heap m ∧ plenty m'.
Proof. unfold plenty, answer. destruct m as [h [|a l]]; cbn; [by exists (mkMem h [])|]. intros [-> Hl]%Forall_cons. by exists (mkMem h l). Qed.

Lemma new_address (m : memory) : let p := fresh ({[0]} ∪ dom (heap m)) in p ≠ 0 ∧ heap m !! p = None.
Proof. clear isz Hisz. intros p. assert (p ∉ {[0]} ∪ dom (heap m)) as Hp by apply is_fresh. split; [set_solver|]. rewrite <-not_elem_of_dom. set_solver. Qed.

Lemma alloc_string m us n : swf 0 m us → plenty m → 0 ≤ n < 2 ^ 31 →
  ∃ p m', alloc isz n m = Returned (p, m') ∧ opened m' p (mkSB 1 n (replicate (cells_of isz n) None)) us ∧ tkeeps m m' us ∧ plenty m'.
Proof.
  intros H Hp Hn. unfold alloc. destruct (answer_yes m Hp) as (m1 & -> & Hh & Hp1). cbn [negb]. unfold too_large, sizeof_SharedBuffer.
  rewrite (proj2 (Z.leb_gt _ _)) by lia. destruct (new_address m1) as [Hp0 Hpn]. set (p := fresh _) in *. rewrite Hh in Hpn.
  eexists p, _. split; [reflexivity|]. set (b := mkSB _ _ _).
  assert (∀ q, q ≠ p → heap (set_sb p b m1) !! q = heap m !! q) as Hne by (intros q Hq; cbn; by rewrite lookup_insert_ne, Hh).
  assert (∀ q, q ∈ us → q ≠ p) as Hu by (intros q Hq ->; destruct (s_live _ _ _ H p Hq) as (_ & t & c & Hc & _); congruence).
  assert (tkeeps m (set_sb p b m1) us) as Hk by (intros q t Hq; apply holds_heap, Hne; by apply Hu).
  split_and!; [split; [split|cbn; by rewrite lookup_insert, decide_True|done|done]|done|done].
  - intros q Hq. destruct (s_live _ _ _ H q Hq) as (_ & t & Ht). split; [by apply Hu|]. exists t. by apply Hk.
  - intros q c. cbn. rewrite Hh, lookup_insert_Some. intros [[<- <-]|[Hq Hc]]; [done|]. destruct (s_block _ _ _ H q c Hc) as [? Hr].
    split; [done|]. intros _. apply Hr. by intros ->.
Qed.

(** ** Another size *)

Lemma cells_times n : 0 ≤ n → cells_of isz (isz * n) = Z.to_nat n.
Proof. intros Hn. unfold cells_of. rewrite Z.mul_comm, Z.div_mul by lia. done. Qed.

Lemma opened_move m m' p q b b' us : opened m p b us → heap m' = <[q := b']> (delete p (heap m)) → q ≠ 0 → heap m !! q = None → mRefs b' = 1 →
  opened m' q b' us ∧ tkeeps m m' us.
Proof.
  intros [H Ha H1 Hp] Hh Hq Hn H1'.
  assert (∀ r, r ∈ us → r ≠ q ∧ heap m' !! r = heap m !! r) as Hsame.
  { intros r Hr. destruct (s_live _ _ _ H r Hr) as (Hrp & t & c & Hc & _). assert (r ≠ q) by (intros ->; congruence).
    split; [done|]. by rewrite Hh, lookup_insert_ne, lookup_delete_ne. }
  assert (tkeeps m m' us) as Hk by (intros r t Hr; apply holds_heap; by apply Hsame). split; [|done].
  split; [split|by rewrite Hh, lookup_insert, decide_True|done|done].
  - intros r Hr. destruct (s_live _ _ _ H r Hr) as (_ & t & Ht). split; [by apply Hsame|]. exists t. by apply Hk.
  - intros r c. rewrite Hh, lookup_insert_Some. intros [[<- <-]|[Hrq [Hrp Hc]%lookup_delete_Some]]; [done|].
    destruct (s_block _ _ _ H r c Hc) as [? Hr]. split; [done|]. intros _. by apply Hr.
Qed.

(** The cells of a text in a block for [n] characters. *)
Definition resized (n : nat) (t : list Z) : list (option Z) := resize_cells n (Some <$> (t ++ [0])).

Lemma resize_cells_length n (l : list (option Z)) : length (resize_cells n l) = n.
Proof. unfold resize_cells. rewrite length_app, length_replicate, length_take. lia. Qed.

Lemma resized_same t : resized (S (length t)) t = Some <$> (t ++ [0]).
Proof.
  unfold resized, resize_cells. assert (length (Some <$> (t ++ [0])) = S (length t)) as Hl by (rewrite length_fmap, length_app; cbn; lia).
  rewrite take_ge, Hl, Nat.sub_diag by lia. apply app_nil_r.
Qed.

Lemma copy_out_string m p us t n : swf 0 m (p :: us) → holds m p t → plenty m → 0 ≤ n → isz * n < 2 ^ 31 →
  ∃ q m' b, copy_out isz p (isz * n) m = Returned (q, m') ∧ opened m' q b us ∧ data b = resized (Z.to_nat n) t ∧ mSize b = isz * n ∧ tkeeps m m' us ∧ plenty m'.
Proof.
  intros H Ht Hp Hn Hlt. destruct (head_block _ _ _ _ H) as (t' & b & Ht' & Hb & Hd & Hs & Hsl & _). pose proof (holds_text _ _ _ _ Ht Ht') as <-.
  unfold copy_out, sb_at. rewrite Hb. cbn [oderef obind].
  destruct (alloc_string m (p :: us) (isz * n) H Hp) as (q & m1 & -> & Ho & Hk & Hp1); [nia|]. cbn [obind].
  rewrite (proj2 (Z.eqb_neq _ _) (op_nz _ _ _ _ Ho)). rewrite (op_at _ _ _ _ Ho). cbn [oderef obind data].
  set (b' := set_data _ _). destruct (opened_set m1 q _ (p :: us) b' Ho) as [Ho' Hk']; [done|].
  destruct (release_opened _ _ _ _ _ Ho') as (r & m2 & -> & Ho2 & Hk2 & Ha2). cbn [obind].
  exists q, m2, b'. split_and!; [done|done| |done| |unfold plenty; by rewrite Ha2].
  - subst b'. cbn [set_data data]. rewrite cells_times by done. unfold resized, resize_cells, memcpy. rewrite drop_replicate, Hd.
    assert (length (Some <$> t ++ [0]) = S (length t)) as Hl by (rewrite length_fmap, length_app; cbn; lia). rewrite Hl, Hs.
    destruct (Z.ltb_spec (isz * n) (isz * (Z.of_nat (length t) + 1))) as [Hc|Hc]; rewrite cells_times by lia.
    + assert (n < Z.of_nat (length t) + 1) by nia. f_equal. rewrite Nat.sub_diag. by replace (Z.to_nat n - S (length t))%nat with 0%nat by lia.
    + assert (Z.of_nat (length t) + 1 ≤ n) by nia. replace (Z.to_nat (Z.of_nat (length t) + 1)) with (S (length t)) by lia.
      rewrite !take_ge by lia. done.
  - intros r' t' Hr. intros Hh. apply Hk2; [done|]. apply Hk'; [by right|]. apply Hk; [by right|done].
Qed.

Lemma editResize_opened m p b us n : opened m p b us → plenty m → mSize b = isz * Z.of_nat (length (data b)) → 0 ≤ n → isz * n < 2 ^ 31 →
  ∃ q m' b', editResize isz p (isz * n) m = Returned (q, m') ∧ opened m' q b' us ∧ data b' = resize_cells (Z.to_nat n) (data b) ∧ mSize b' = isz * n ∧ tkeeps m m' us ∧ plenty m'.
Proof.
  intros Ho Hp Hs Hn Hlt. pose proof Ho as [_ Hb H1 Hp0]. unfold editResize, sb_at. rewrite Hb. cbn [oderef obind]. unfold onlyOwner. rewrite (proj2 (Z.eqb_eq _ _) H1).
  destruct (Z.eqb_spec (mSize b) (isz * n)) as [He|Hne].
  - exists p, m, b. split_and!; [done|done| |done|apply tkeeps_refl|done]. replace (Z.to_nat n) with (length (data b)) by nia.
    unfold resize_cells. by rewrite firstn_all, Nat.sub_diag, app_nil_r.
  - destruct (answer_yes m Hp) as (m1 & -> & Hh & Hp1). unfold too_large, sizeof_SharedBuffer. rewrite (proj2 (Z.leb_gt _ _)) by lia.
    destruct (new_address m1) as [Hq0 Hqn]. set (q := fresh _) in *. rewrite Hh in Hqn. set (b' := mkSB _ _ _).
    destruct (opened_move m (set_sb q b' (free_sb p m1)) p q b b' us Ho) as [Ho' Hk]; [cbn; by rewrite Hh|done|done|done|].
    exists q, (set_sb q b' (free_sb p m1)), b'. split_and!; [done|done| |done|done|done]. subst b'. cbn [data]. by rewrite cells_times.
Qed.

Lemma editResize_string m p us t n : swf 0 m (p :: us) → holds m p t → plenty m → 0 ≤ n → isz * n < 2 ^ 31 →
  ∃ q m' b, editResize isz p (isz * n) m = Returned (q, m') ∧ opened m' q b us ∧ data b = resized (Z.to_nat n) t ∧ mSize b = isz * n ∧ tkeeps m m' us ∧ plenty m'.
Proof.
  intros H Ht Hp Hn Hlt. destruct (head_block _ _ _ _ H) as (t' & b & Ht' & Hb & Hd & Hs & Hsl & Hp0 & _ & Hr). pose proof (holds_text _ _ _ _ Ht Ht') as <-.
  destruct (Z.eq_dec (mRefs b) 1) as [H1|H1].
  - destruct (editResize_opened m p b us n) as (q & m' & b' & He & Ho & Hd' & Hrest); [by apply open_string|done| |done|done|].
    { rewrite Hd, length_fmap, length_app, Hs. cbn [length]. lia. }
    exists q, m', b'. rewrite Hd in Hd'. split_and!; [done|done|done|apply Hrest..].
  - assert (editResize isz p (isz * n) m = copy_out isz p (isz * n) m) as ->.
    { unfold editResize, sb_at. rewrite Hb. cbn [oderef obind]. unfold onlyOwner. by rewrite (proj2 (Z.eqb_neq _ _) H1). }
    by apply (copy_out_string m p us t n).
Qed.

(** The same size, for a string to change. *)
Lemma edit_string m p us t : swf 0 m (p :: us) → holds m p t → plenty m →
  ∃ q m' b, edit isz p m = Returned (q, m') ∧ opened m' q b us ∧ data b = Some <$> (t ++ [0]) ∧ mSize b = isz * (Z.of_nat (length t) + 1) ∧ tkeeps m m' us ∧ plenty m'.
Proof.
  intros H Ht Hp. destruct (head_block _ _ _ _ H) as (t' & b & Ht' & Hb & Hd & Hs & Hsl & Hp0 & _ & Hr). pose proof (holds_text _ _ _ _ Ht Ht') as <-.
  unfold edit, sb_at. rewrite Hb. cbn [oderef obind]. unfold onlyOwner. destruct (Z.eqb_spec (mRefs b) 1) as [H1|H1].
  - exists p, m, b. split_and!; [done|by apply open_string|done|done|apply tkeeps_refl|done].
  - rewrite Hs. destruct (copy_out_string m p us t (Z.of_nat (length t) + 1) H Ht Hp) as (q & m' & b' & -> & Ho & Hd' & Hrest); [lia|lia|].
    exists q, m', b'. split_and!; try apply Hrest; [done|done|]. rewrite Hd'. replace (Z.to_nat (Z.of_nat (length t) + 1)) with (S (length t)) by lia. apply resized_same.
Qed.

(** ** Reading and filling *)

(** A source that gives [xs] as long as the strings [us] keep their texts. *)
Definition provides (m : memory) (us : list Z) (s : source) (xs : list Z) : Prop :=
  ∀ m', tkeeps m m' us → read_source s (length xs) m' = Returned (Some <$> xs).

Lemma provides_mono m m' us s xs : tkeeps m m' us → provides m us s xs → provides m' us s xs.
Proof. intros Hk H m2 Hk2. apply H. by eapply tkeeps_trans. Qed.

Lemma provides_nil m us s : provides m us s [].
Proof. by intros m' _. Qed.

Lemma source_outside m us (xs ys : list Z) : provides m us (Outside (xs ++ ys)) xs.
Proof.
  intros m' _. destruct xs as [|x xs]; [done|]. cbn [length read_source]. rewrite length_app, (proj2 (Nat.leb_le _ _)) by (cbn; lia).
  do 2 f_equal. exact (take_app_length (x :: xs) ys).
Qed.

Lemma read_cells_holds m p t i xs ys : holds m p t → drop i (t ++ [0]) = xs ++ ys → xs ≠ [] → read_cells p i (length xs) m = Returned (Some <$> xs).
Proof.
  intros (b & Hb & Hd & _) Hx Hn. unfold read_cells, sb_at. rewrite Hb. cbn [oderef obind]. rewrite Hd, length_fmap.
  assert (length (xs ++ ys) = (length (t ++ [0%Z]) - i)%nat) as Hl by (by rewrite <-Hx, length_drop). rewrite length_app in Hl.
  assert (length xs ≠ 0)%nat by (by destruct xs). rewrite (proj2 (Nat.leb_le _ _)) by lia. rewrite <-fmap_drop, Hx, <-fmap_take. by rewrite take_app_length.
Qed.

Lemma provides_inside m us p t i (xs ys : list Z) : p ∈ us → holds m p t → drop i (t ++ [0]) = xs ++ ys → provides m us (Inside p i) xs.
Proof.
  intros Hp Ht Hx m' Hk. specialize (Hk _ _ Hp Ht). destruct xs as [|x xs]; [done|]. cbn [length read_source].
  by apply (read_cells_holds _ _ _ _ (x :: xs) ys Hk Hx).
Qed.

Lemma scan_string_text (t : list Z) (l : list (option Z)) : 0 ∉ t → scan_string ((Some <$> (t ++ [0])) ++ l) = Returned t.
Proof.
  induction t as [|c t IH]; [done|]. intros [Hc Ht]%not_elem_of_cons. cbn [app fmap list_fmap scan_string]. rewrite (proj2 (Z.eqb_neq c 0)) by done.
  change (list_fmap _ _ _ (t ++ [0])) with (Some <$> (t ++ [0])). by rewrite IH.
Qed.

Lemma c_string_holds m p t i : holds m p t → 0 ∉ t → (i ≤ length t)%nat → c_string p i m = Returned (drop i t).
Proof.
  intros (b & Hb & Hd & _) Ht Hi. unfold c_string, sb_at. rewrite Hb. cbn [oderef obind]. rewrite Hd, <-fmap_drop, drop_app_le by lia.
  rewrite <-(app_nil_r (Some <$> _)). apply scan_string_text. intros Hin%list_elem_of_In. apply Ht. rewrite <-(take_drop i t). apply elem_of_app. right. by apply list_elem_of_In.
Qed.

Lemma size_holds m p t : holds m p t → size p m = Returned (Z.of_nat (length t)).
Proof.
  intros (b & Hb & _ & Hs & Hlt). unfold size, sb_at. rewrite Hb. cbn [oderef obind]. rewrite Hs in *. f_equal.
  rewrite Z.mul_comm, Z.div_mul by lia. unfold u32. rewrite Z.mod_small; [lia|]. nia.
Qed.

(** A string that has been changed to [t], and one that has been made. *)
Definition becomes (m m' : memory) (q : Z) (us : list Z) (t : list Z) : Prop :=
  swf 0 m' (q :: us) ∧ holds m' q t ∧ tkeeps m m' us ∧ plenty m'.

Lemma becomes_close m m1 q b us t : opened m1 q b us → data b = Some <$> (t ++ [0]) → mSize b = isz * (Z.of_nat (length t) + 1) →
  isz * (Z.of_nat (length t) + 1) < 2 ^ 31 → tkeeps m m1 us → plenty m1 → becomes m m1 q us t.
Proof. intros Ho Hd Hs Hlt Hk Hp. destruct (close_string _ _ _ _ _ Ho Hd Hs) as [Hw Hh]; [lia|]. by split_and!. Qed.

Lemma becomes_trans m m1 m2 q us t : tkeeps m m1 us → becomes m1 m2 q us t → becomes m m2 q us t.
Proof. intros Hk (Hw & Hh & Hk' & Hp). split_and!; [done|done|by eapply tkeeps_trans|done]. Qed.

Lemma store_cells_app (l1 xs ys l2 : list (option Z)) : length xs = length ys → store_cells (length l1) ys (l1 ++ xs ++ l2) = Returned (l1 ++ ys ++ l2).
Proof.
  intros He. unfold store_cells. rewrite !length_app, (proj2 (Nat.leb_le _ _)) by lia. f_equal. rewrite take_app_length. do 2 f_equal.
  rewrite drop_app_ge by lia. rewrite drop_app_ge by lia. replace (length l1 + length ys - length l1 - length xs)%nat with 0%nat by lia. apply drop_0.
Qed.

(** Cells written in the middle of an opened block. *)
Lemma store_middle m q b us (l1 xs ys l2 : list (option Z)) : opened m q b us → data b = l1 ++ xs ++ l2 → length xs = length ys →
  ∃ m' b', store q (length l1) ys m = Returned m' ∧ opened m' q b' us ∧ data b' = l1 ++ ys ++ l2 ∧ mSize b' = mSize b ∧ tkeeps m m' us ∧ (plenty m → plenty m').
Proof.
  intros Ho Hd Hl. destruct (store_opened m q b us (length l1) ys (l1 ++ ys ++ l2) Ho) as (m' & Hm & Ho' & Hk & Ha); [rewrite Hd; by apply store_cells_app|].
  exists m', (set_data b (l1 ++ ys ++ l2)). split_and!; try done. unfold plenty. by rewrite Ha.
Qed.

Lemma swf_nz q m us p : swf q m us → p ∈ us → p ≠ 0.
Proof. intros H Hp. destruct (s_live _ _ _ H p Hp) as (_ & t & b & Hb & _). by apply (s_block _ _ _ H p b). Qed.

(** The last character of a block becomes the terminator. *)
Lemma end_here m q b us (t : list Z) z : opened m q b us → data b = (Some <$> t) ++ [z] → mSize b = isz * (Z.of_nat (length t) + 1) → mSize b < 2 ^ 31 → plenty m →
  ∃ m', store q (length t) [Some 0] m = Returned m' ∧ becomes m m' q us t.
Proof.
  intros Ho Hd Hs Hlt Hp. destruct (store_middle m q b us (Some <$> t) [z] [Some 0] [] Ho) as (m1 & b1 & H1 & Ho1 & Hd1 & Hs1 & Hk1 & Hp1); [done|done|].
  rewrite length_fmap in H1. exists m1. split; [done|]. apply (becomes_close m m1 q b1 us t); [done| |rewrite Hs1; done|rewrite <-Hs; done|done|by apply Hp1].
  by rewrite Hd1, app_nil_r, fmap_app.
Qed.

(** The rest of a block is filled and terminated. *)
Lemma fill_rest m q b us (t xs : list Z) (l : list (option Z)) : opened m q b us → data b = (Some <$> t) ++ l → length l = S (length xs) →
  mSize b = isz * (Z.of_nat (length (t ++ xs)) + 1) → mSize b < 2 ^ 31 → plenty m →
  ∃ m1 m', store q (length t) (Some <$> xs) m = Returned m1 ∧ store q (length t + length xs) [Some 0] m1 = Returned m' ∧ becomes m m' q us (t ++ xs).
Proof.
  intros Ho Hd Hl Hs Hlt Hp. destruct (exists_last (l := l)) as (l1 & z & ->); [by destruct l|]. rewrite length_app in Hl. cbn in Hl.
  destruct (store_middle m q b us (Some <$> t) l1 (Some <$> xs) [z] Ho) as (m1 & b1 & H1 & Ho1 & Hd1 & Hs1 & Hk1 & Hp1); [done|rewrite length_fmap; lia|].
  rewrite length_fmap in H1. destruct (end_here m1 q b1 us (t ++ xs) z Ho1) as (m2 & H2 & Hb); [by rewrite Hd1, fmap_app, <-app_assoc|by rewrite Hs1|by rewrite Hs1|by apply Hp1|].
  rewrite length_app in H2. exists m1, m2. split_and!; [done|done|]. by apply (becomes_trans m m1 m2).
Qed.

(** Up to the first zero. *)
Lemma c_string_before m p t i (x y : list Z) : holds m p t → drop i (t ++ [0]) = x ++ 0 :: y → 0 ∉ x → c_string p i m = Returned x.
Proof.
  intros (b & Hb & Hd & _) Hx H0. unfold c_string, sb_at. rewrite Hb. cbn [oderef obind]. rewrite Hd, <-fmap_drop, Hx.
  change (0 :: y) with ([0%Z] ++ y). rewrite app_assoc, fmap_app. by apply scan_string_text.
Qed.

Lemma char_at_opened m q b us i c : opened m q b us → data b !! i = Some (Some c) → char_at q i m = Returned c.
Proof. intros Ho Hi. unfold char_at, sb_at. rewrite (op_at _ _ _ _ Ho). cbn [oderef obind]. by rewrite Hi. Qed.

Lemma read_cells_opened m q b us i n : opened m q b us → (i + n ≤ length (data b))%nat → read_cells q i n m = Returned (take n (drop i (data b))).
Proof. intros Ho Hi. unfold read_cells, sb_at. rewrite (op_at _ _ _ _ Ho). cbn [oderef obind]. by rewrite (proj2 (Nat.leb_le _ _)). Qed.

Lemma size_opened m q b us : opened m q b us → size q m = Returned (u32 (mSize b / isz - 1)).
Proof. intros Ho. unfold size, sb_at. by rewrite (op_at _ _ _ _ Ho). Qed.
End Strings.
End SM.
