(* ===== verification/StringOps.v ===== *)
(** What the operations of [String8.cpp] and [String16.cpp] have in common: a string
    shared, assigned, cleared and given back, and the texts of many strings whose
    blocks are shared in any way.  Both files repeat these operations with their own
    static empty string; [isz] is the size of their characters. *)

From S2P Require Import Prelude SharedBuffer StringMem.

Module SO.
Import SB SM.

Definition NO_ERROR : Z := 0.
Definition NO_MEMORY : Z := -12.

(** Changing a string, with an answer. *)
Abbreviation result R := (outcome (R * (Z * memory))).

Definition share (o : Z) (m : memory) : outcome (Z * memory) := let! m := acquire o m in Returned (o, m).
Definition assign_string (other mString : Z) (m : memory) : outcome (Z * memory) :=
  let! m := acquire other m in let! (_, m) := release mString false m in Returned (other, m).
Definition destroy_string (mString : Z) (m : memory) : outcome memory := let! (_, m) := release mString false m in Returned m.

Section Texts.
Context (isz : Z) (Hisz : 0 < isz ≤ 4) (gEmptyString : Z) (P : list Z → Prop).
Implicit Types (us : list Z) (xs t : list Z) (m : memory) (s : source).

Abbreviation becomes := (SM.becomes isz).

Definition getEmptyString (m : memory) : outcome (Z * memory) := share gEmptyString m.
Definition clear_string (mString : Z) (m : memory) : outcome (Z * memory) :=
  let! (_, m) := release mString false m in getEmptyString m.

Lemma to_u32 n : 0 ≤ n < 2 ^ 31 → u32 n = n.
Proof. clear. intros H. unfold u32. apply Z.mod_small. lia. Qed.

(** The strings [us], with the empty one among them. *)
Record strings (m : memory) (us : list Z) : Prop := {
  st_swf : swf isz 0 m us;
  st_empty : gEmptyString ∈ us;
  st_none : holds isz m gEmptyString [];
  st_plenty : plenty m
}.

(** A block with a whole text in it. *)
Record filled m q us u : Prop := {
  fi_open : ∃ b, opened isz m q b us ∧ data b = Some <$> (u ++ [0]) ∧ mSize b = isz * (Z.of_nat (length u) + 1) ∧ mSize b < 2 ^ 31;
  fi_plenty : plenty m
}.

(** Running a call on the strings that the variables hold; a new string comes to
    the front. *)
Definition at_string (ps : list Z) (i : nat) (f : Z → memory → outcome (Z * memory)) (m : memory) : outcome (Z * (list Z * memory)) :=
  let! p := oderef (ps !! i) in let! (q, m) := f p m in Returned (NO_ERROR, (<[i := q]> ps, m)).

Definition at_result (ps : list Z) (i : nat) (f : Z → memory → result Z) (m : memory) : outcome (Z * (list Z * memory)) :=
  let! p := oderef (ps !! i) in let! (status, (q, m)) := f p m in Returned (status, (<[i := q]> ps, m)).

Definition new_string (ps : list Z) (f : memory → outcome (Z * memory)) (m : memory) : outcome (Z * (list Z * memory)) :=
  let! (q, m) := f m in Returned (NO_ERROR, (q :: ps, m)).

(** What a call means for the texts. *)
Definition text (ts : list (list Z)) (i : nat) : list Z := default [] (ts !! i).

Definition there (ts : list (list Z)) (i : nat) : bool := (i <? length ts)%nat.

(** The variables [ps] hold the texts [ts]. *)
Record values (m : memory) (ps : list Z) (ts : list (list Z)) : Prop := {
  va_strings : strings m (gEmptyString :: ps);
  va_texts : Forall2 (holds isz m) ps ts;
  va_proper : Forall P ts
}.

Lemma becomes_strings m m' q us t : becomes m m' q us t → gEmptyString ∈ us → holds isz m gEmptyString [] → strings m' (q :: us).
Proof. intros (Hw & Hh & Hk & Hp) He H0. split; [done|by right|by apply Hk|done]. Qed.

(** One string is given back while another takes its place. *)
Lemma release_other m m1 q p us t : becomes m m1 q (p :: us) t → ∃ r m', release p false m1 = Returned (r, m') ∧ becomes m m' q us t.
Proof.
  intros (Hw & Hh & Hk & Hp). destruct (release_string isz 0 m1 p (q :: us)) as (r & m' & -> & Hw' & Hk' & Ha & _).
  { eapply swf_perm; [|exact Hw]. apply Permutation_swap. }
  exists r, m'. split; [done|]. split_and!; [done|apply Hk'; [by left|done]| |unfold plenty; by rewrite Ha].
  intros r' t' Hr Ht'. apply Hk'; [by right|]. apply Hk; [by right|done].
Qed.

Lemma holds_small m p t : holds isz m p t → isz * (Z.of_nat (length t) + 1) < 2 ^ 31.
Proof. intros (b & _ & _ & Hs & Hlt). lia. Qed.

Lemma share_spec m us p t : strings m us → p ∈ us → holds isz m p t → ∃ m', share p m = Returned (p, m') ∧ becomes m m' p us t.
Proof.
  intros [Hw He H0 Hp] Hin Ht. unfold share. destruct (acquire_string isz 0 m p us Hw Hin) as (m' & -> & Hw' & Hk & Ha). exists m'.
  split; [done|]. split_and!; [done|by apply Hk|done|unfold plenty; by rewrite Ha].
Qed.

Lemma getEmptyString_spec m us : strings m us → ∃ m', getEmptyString m = Returned (gEmptyString, m') ∧ becomes m m' gEmptyString us [].
Proof. intros Hs. apply share_spec; [done|apply Hs|apply Hs]. Qed.

(** A fresh block, filled. *)
Lemma new_block m us xs sz : strings m us → sz = isz * (Z.of_nat (length xs) + 1) → sz < 2 ^ 31 →
  ∃ p m1, alloc isz (u32 sz) m = Returned (p, m1) ∧ p ≠ 0 ∧ tkeeps isz m m1 us ∧
    ∃ m2 m3, store p 0 (Some <$> xs) m1 = Returned m2 ∧ store p (length xs) [Some 0] m2 = Returned m3 ∧ becomes m m3 p us xs.
Proof.
  intros [Hw He H0 Hp] Hsz Hlt. rewrite to_u32 by lia. destruct (alloc_string isz m us sz Hw Hp) as (p & m1 & -> & Ho & Hk & Hp1); [lia|].
  exists p, m1. split_and!; [done|apply (op_nz _ _ _ _ _ Ho)|done|].
  destruct (fill_rest isz m1 p _ us [] xs (replicate (S (length xs)) None) Ho) as (m2 & m3 & H2 & H3 & Hb); [|by rewrite length_replicate|cbn [mSize]; rewrite app_nil_l; lia|cbn [mSize]; lia|done|].
  - cbn [data fmap list_fmap app]. rewrite Hsz, cells_times by lia. f_equal. lia.
  - exists m2, m3. cbn [length Nat.add] in H2, H3. split_and!; [done|done|]. by apply (becomes_trans isz m m1).
Qed.

(** A block filled with the terminator among the characters. *)
Lemma new_block_whole m us xs sz : strings m us → sz = isz * (Z.of_nat (length xs) + 1) → sz < 2 ^ 31 →
  ∃ p m1, alloc isz (u32 sz) m = Returned (p, m1) ∧ p ≠ 0 ∧ tkeeps isz m m1 us ∧ ∃ m2, store p 0 (Some <$> (xs ++ [0])) m1 = Returned m2 ∧ becomes m m2 p us xs.
Proof.
  intros [Hw He H0 Hp] Hsz Hlt. rewrite to_u32 by lia. destruct (alloc_string isz m us sz Hw Hp) as (p & m1 & -> & Ho & Hk & Hp1); [lia|].
  exists p, m1. split_and!; [done|apply (op_nz _ _ _ _ _ Ho)|done|].
  destruct (store_middle isz m1 p _ us [] (replicate (S (length xs)) None) (Some <$> (xs ++ [0])) [] Ho) as (m2 & b2 & H2 & Ho2 & Hd2 & Hs2 & Hk2 & Hp2).
  - cbn [data app]. rewrite app_nil_r, Hsz, cells_times by lia. f_equal. lia.
  - rewrite length_replicate, length_fmap, length_app. cbn. lia.
  - exists m2. split; [done|]. cbn [app] in Hd2. rewrite app_nil_r in Hd2. apply (becomes_close isz m m2 p b2 us xs); [done|done|by rewrite Hs2|lia|by eapply tkeeps_trans|by apply Hp2].
Qed.

(** A string's block becomes its own and gets another size; the cells are at least
    the old text. *)
Lemma resize_spec m p us t n sz : strings m (p :: us) → holds isz m p t → sz = isz * Z.of_nat n → sz < 2 ^ 31 →
  ∃ q m' b, editResize isz p (u32 sz) m = Returned (q, m') ∧ q ≠ 0 ∧ opened isz m' q b us ∧ data b = resized n t ∧ mSize b = sz ∧ tkeeps isz m m' us ∧ plenty m'.
Proof.
  intros [Hw He H0 Hp] Ht Hsz Hn. rewrite to_u32 by lia. destruct (editResize_string isz Hisz m p us t (Z.of_nat n) Hw Ht Hp) as (q & m' & b & Hr & Ho & Hd & Hs & Hk & Hp'); [lia|lia|].
  rewrite Nat2Z.id in Hd. exists q, m', b. rewrite <-Hsz in Hr, Hs. split_and!; try done. apply (op_nz _ _ _ _ _ Ho).
Qed.

Lemma resized_grow n t : (length t < n)%nat → ∃ l, resized n t = (Some <$> t) ++ l ∧ length l = (n - length t)%nat.
Proof.
  intros Hn. unfold resized, resize_cells. rewrite length_fmap, length_app. cbn [length]. rewrite take_ge by (rewrite length_fmap, length_app; cbn; lia).
  exists (Some 0 :: replicate (n - (length t + 1)) None). rewrite fmap_app, <-app_assoc. split; [done|]. cbn [length]. rewrite length_replicate. lia.
Qed.

(** A text cut, with the terminator put behind. *)
Lemma cut_spec m p us t n sz : strings m (p :: us) → holds isz m p t → (n ≤ length t)%nat → sz = isz * (Z.of_nat n + 1) →
  ∃ q m1, editResize isz p (u32 sz) m = Returned (q, m1) ∧ q ≠ 0 ∧ ∃ m2, store q n [Some 0] m1 = Returned m2 ∧ becomes m m2 q us (take n t).
Proof.
  intros Hs Ht Hn Hsz. pose proof (holds_small _ _ _ Ht). destruct (resize_spec m p us t (S n) sz Hs Ht) as (q & m1 & b & -> & Hq & Ho & Hd & Hb & Hk & Hp); [lia|nia|].
  exists q, m1. split_and!; [done|done|].
  assert (∃ z, resized (S n) t = (Some <$> take n t) ++ [z]) as [z Hr].
  { unfold resized, resize_cells. rewrite length_fmap, length_app. cbn [length]. replace (S n - (length t + 1))%nat with 0%nat by lia. cbn [replicate]. rewrite app_nil_r, <-fmap_take.
    destruct (t !! n) as [c|] eqn:E.
    - pose proof (lookup_lt_Some _ _ _ E). exists (Some c). by rewrite take_app_le, (take_S_r t n c E), fmap_app by lia.
    - apply lookup_ge_None in E. exists (Some 0). rewrite !take_ge by (rewrite ?length_app; cbn; lia). by rewrite fmap_app. }
  destruct (end_here isz m1 q b us (take n t) z Ho) as (m2 & H2 & Hb2); [rewrite Hd; exact Hr|rewrite length_take_le; lia|nia|done|].
  rewrite length_take_le in H2 by lia. exists m2. split; [done|]. by apply (becomes_trans isz m m1).
Qed.

(** Room behind a text. *)
Lemma extend_spec m p us t n sz : strings m (p :: us) → holds isz m p t → sz = isz * (Z.of_nat (length t + n) + 1) → sz < 2 ^ 31 →
  ∃ q m1 b (l : list (option Z)), editResize isz p (u32 sz) m = Returned (q, m1) ∧ q ≠ 0 ∧ opened isz m1 q b us ∧ data b = (Some <$> t) ++ l ∧ length l = S n ∧
    mSize b = sz ∧ tkeeps isz m m1 us ∧ plenty m1.
Proof.
  intros Hs Ht Hsz Hlt. destruct (resize_spec m p us t (S (length t + n)) sz Hs Ht) as (q & m1 & b & -> & Hq & Ho & Hd & Hb & Hk & Hp); [lia|done|].
  destruct (resized_grow (S (length t + n)) t) as (l & Hl & Hll); [lia|]. exists q, m1, b, l. rewrite Hl in Hd. split_and!; try done. lia.
Qed.

(** Another text written over it. *)
Lemma overwrite_spec m p us t xs sz : strings m (p :: us) → holds isz m p t → sz = isz * (Z.of_nat (length xs) + 1) → sz < 2 ^ 31 →
  ∃ q m1, editResize isz p (u32 sz) m = Returned (q, m1) ∧ q ≠ 0 ∧ tkeeps isz m m1 us ∧
    ∃ m2 m3, store q 0 (Some <$> xs) m1 = Returned m2 ∧ store q (length xs) [Some 0] m2 = Returned m3 ∧ becomes m m3 q us xs.
Proof.
  intros Hs Ht Hsz Hlt. destruct (resize_spec m p us t (S (length xs)) sz Hs Ht) as (q & m1 & b & -> & Hq & Ho & Hd & Hb & Hk & Hp); [lia|done|].
  destruct (fill_rest isz m1 q b us [] xs (data b) Ho) as (m2 & m3 & H2 & H3 & Hb3); [done|rewrite Hd; apply resize_cells_length|cbn [app]; lia|lia|done|].
  exists q, m1. split_and!; [done|done|done|]. exists m2, m3. cbn [length Nat.add] in *. split_and!; [done|done|]. by apply (becomes_trans isz m m1).
Qed.

Lemma assign_string_spec m p o us t : strings m (p :: us) → o ∈ p :: us → holds isz m o t →
  ∃ m', assign_string o p m = Returned (o, m') ∧ becomes m m' o us t.
Proof.
  intros [Hw He H0 Hp] Ho Ht. unfold assign_string. destruct (acquire_string isz 0 m o (p :: us) Hw Ho) as (m1 & -> & Hw1 & Hk & Ha). cbn [obind].
  destruct (release_other m m1 o p us t) as (r & m' & -> & Hb); [split_and!; [done|by apply Hk|done|unfold plenty; by rewrite Ha]|]. by exists m'.
Qed.

Lemma clear_string_spec m p us : strings m (p :: us) → gEmptyString ∈ us → ∃ q m', clear_string p m = Returned (q, m') ∧ becomes m m' q us [].
Proof.
  intros [Hw He H0 Hp] He'. unfold clear_string. destruct (release_string isz 0 m p us Hw) as (r & m1 & -> & Hw1 & Hk & Ha & _). cbn [obind].
  destruct (getEmptyString_spec m1 us) as (m' & -> & Hw' & Hh' & Hk' & Hp'); [split; [done|done|by apply Hk|unfold plenty; by rewrite Ha]|].
  exists gEmptyString, m'. split; [done|]. split_and!; [done|done|by eapply tkeeps_trans|done].
Qed.

Lemma text_same m p us t : strings m (p :: us) → holds isz m p t → becomes m m p us t.
Proof. intros [Hw _ _ Hp] Ht. split_and!; [done|done|apply tkeeps_refl|done]. Qed.

Lemma provides_weaken m p us s xs : provides isz m us s xs → provides isz m (p :: us) s xs.
Proof. intros H m' Hk. apply H. intros q t Hq. apply Hk. by right. Qed.

Lemma filled_becomes m m' q us u : tkeeps isz m m' us → filled m' q us u → becomes m m' q us u.
Proof. intros Hk [(b & Ho & Hd & Hs & Hlt) Hp]. apply (becomes_close isz m m' q b us u); try done; lia. Qed.

Lemma filled_store m q us u i xs : filled m q us u → (i + length xs ≤ length u)%nat →
  ∃ m', store q i (Some <$> xs) m = Returned m' ∧ filled m' q us (take i u ++ xs ++ drop (i + length xs) u) ∧ tkeeps isz m m' us.
Proof.
  intros [(b & Ho & Hd & Hs & Hlt) Hp] Hi.
  destruct (store_middle isz m q b us (Some <$> take i u) (Some <$> take (length xs) (drop i u)) (Some <$> xs) (Some <$> (drop (i + length xs) u ++ [0])) Ho) as (m' & b' & Hm & Ho' & Hd' & Hs' & Hk & Hp').
  - rewrite Hd, <-!fmap_app. f_equal. rewrite !app_assoc. f_equal. rewrite <-!app_assoc. rewrite <-drop_drop, take_drop, take_drop. done.
  - rewrite !length_fmap, length_take_le; [done|]. rewrite length_drop. lia.
  - rewrite length_fmap, length_take_le in Hm by lia. exists m'. split_and!; [done| |done]. split; [|by apply Hp']. exists b'.
    assert (length (take i u ++ xs ++ drop (i + length xs) u) = length u) as Hl by (rewrite !length_app, length_take_le, length_drop by lia; lia).
    split_and!; [done| |by rewrite Hs', Hl|by rewrite Hs']. rewrite Hd', <-!fmap_app. f_equal. by rewrite <-!app_assoc.
Qed.

Lemma filled_store_app m q us (l1 l2 l3 xs : list Z) : filled m q us (l1 ++ l2 ++ l3) → length xs = length l2 →
  ∃ m', store q (length l1) (Some <$> xs) m = Returned m' ∧ filled m' q us (l1 ++ xs ++ l3) ∧ tkeeps isz m m' us.
Proof.
  intros Hf Hl. destruct (filled_store m q us _ (length l1) xs Hf) as (m' & Hm & Hf' & Hk); [rewrite !length_app; lia|]. exists m'. split_and!; [done| |done].
  rewrite take_app_length in Hf'. rewrite <-drop_drop, drop_app_length, Hl, drop_app_length in Hf'. done.
Qed.

Lemma filled_char m q us u i c : filled m q us u → u !! i = Some c → char_at q i m = Returned c.
Proof.
  intros [(b & Ho & Hd & _) _] Hi. apply (char_at_opened isz m q b us i c Ho). rewrite Hd, list_lookup_fmap, lookup_app_l by (by eapply lookup_lt_Some). by rewrite Hi.
Qed.

Lemma filled_holds m q us u : filled m q us u → holds isz m q u.
Proof. intros Hf. by destruct (filled_becomes m m q us u (tkeeps_refl isz m us) Hf) as (_ & H & _). Qed.

Lemma take_not_in k (x : Z) (t : list Z) : x ∉ t → x ∉ take k t.
Proof. intros H Hin. apply H. rewrite <-(take_drop k t). apply elem_of_app. by left. Qed.

Lemma drop_not_in k (x : Z) (t : list Z) : x ∉ t → x ∉ drop k t.
Proof. intros H Hin. apply H. rewrite <-(take_drop k t). apply elem_of_app. by right. Qed.

Lemma strings_perm m us us' : us ≡ₚ us' → strings m us → strings m us'.
Proof. intros Hp [Hw He H0 Ha]. split; [by eapply swf_perm|by rewrite <-Hp|done|done]. Qed.

Lemma becomes_perm m m' q us us' t : us ≡ₚ us' → becomes m m' q us t → becomes m m' q us' t.
Proof.
  intros Hp (Hw & Hh & Hk & Ha). split_and!; [|done| |done]; [eapply swf_perm; [|exact Hw]; by rewrite Hp|]. intros r t' Hr. apply Hk. by rewrite Hp.
Qed.

Lemma keep_new m m' q us t : strings m us → becomes m m' q us t → strings m' (q :: us) ∧ holds isz m' q t ∧ tkeeps isz m m' us.
Proof. intros Hs Hb. split; [apply (becomes_strings m m' q us t Hb); apply Hs|]. destruct Hb as (_ & Hh & Hk & _). done. Qed.

Lemma insert_string_perm (ps : list Z) i p q : ps !! i = Some p → <[i := q]> ps ≡ₚ q :: delete i ps.
Proof.
  intros Hi. rewrite insert_take_drop, delete_take_drop by (by eapply lookup_lt_Some). symmetry. apply Permutation_middle.
Qed.

Lemma delete_keeps (ps : list Z) i k x : ps !! k = Some x → k ≠ i → x ∈ delete i ps.
Proof.
  intros Hk Hi. destruct (decide (k < i)%nat).
  - apply list_elem_of_lookup. exists k. by rewrite list_lookup_delete_lt.
  - apply list_elem_of_lookup. exists (k - 1)%nat. rewrite list_lookup_delete_ge by lia. by replace (S (k - 1)) with k by lia.
Qed.

Lemma values_at m ps ts i : values m ps ts → there ts i = true →
  ∃ p, ps !! i = Some p ∧ holds isz m p (text ts i) ∧ P (text ts i) ∧ p ∈ gEmptyString :: ps ∧ strings m (p :: gEmptyString :: delete i ps).
Proof.
  intros [Hs Ht Hp] Hi. apply Nat.ltb_lt in Hi. destruct (lookup_lt_is_Some_2 ts i Hi) as [t Hti]. destruct (Forall2_lookup_r _ _ _ _ _ Ht Hti) as (p & Hpi & Hh).
  exists p. unfold text. rewrite Hti. cbn [from_option id]. split_and!; [done|done|by apply (Forall_lookup_1 _ _ _ _ Hp Hti)|right; by eapply list_elem_of_lookup_2|].
  eapply strings_perm; [|exact Hs]. rewrite (delete_Permutation ps i p Hpi) at 1. apply Permutation_swap.
Qed.

Lemma texts_set m m' (ps : list Z) (ts : list (list Z)) i q t us : Forall2 (holds isz m) ps ts → tkeeps isz m m' us → (∀ x, x ∈ delete i ps → x ∈ us) → holds isz m' q t →
  Forall2 (holds isz m') (<[i := q]> ps) (<[i := t]> ts).
Proof.
  intros Ht Hk Hus Hh. apply Forall2_same_length_lookup_2; [rewrite !length_insert; by eapply Forall2_length|].
  intros j x y Hx Hy. apply list_lookup_insert_Some in Hx as [(<- & <- & Hl)|[Hne Hx]].
  - apply list_lookup_insert_Some in Hy as [(_ & <- & _)|[? _]]; done.
  - rewrite list_lookup_insert_ne in Hy by done. apply Hk; [apply Hus; by eapply delete_keeps|]. by eapply Forall2_lookup_lr.
Qed.

Lemma values_set m m' ps ts i p q t : values m ps ts → ps !! i = Some p → becomes m m' q (gEmptyString :: delete i ps) t → P t → values m' (<[i := q]> ps) (<[i := t]> ts).
Proof.
  intros [Hs Ht Hp] Hi Hb Hz. split; [| |by apply Forall_insert].
  - eapply strings_perm; [|eapply becomes_strings; [exact Hb|by left|apply Hs]]. rewrite (insert_string_perm ps i p q Hi). apply Permutation_swap.
  - destruct Hb as (Hw & Hh & Hk & _). apply (texts_set m m' ps ts i q t _ Ht Hk); [by right|done].
Qed.

Lemma values_new m m' ps ts q t : values m ps ts → becomes m m' q (gEmptyString :: ps) t → P t → values m' (q :: ps) (t :: ts).
Proof.
  intros [Hs Ht Hp] Hb Hz. pose proof Hb as (_ & Hh & Hk & _). split; [|constructor; [done|]|by constructor].
  - eapply strings_perm; [apply Permutation_swap|]. eapply becomes_strings; [exact Hb|by left|apply Hs].
  - apply Forall2_same_length_lookup_2; [by eapply Forall2_length|]. intros j x y Hx Hy.
    apply Hk; [right; by eapply list_elem_of_lookup_2|]. by eapply Forall2_lookup_lr.
Qed.

Lemma at_result_works m ps ts i t f : values m ps ts → there ts i = true → P t →
  (∀ p, holds isz m p (text ts i) → strings m (p :: gEmptyString :: delete i ps) → ∃ q m', f p m = Returned (NO_ERROR, (q, m')) ∧ becomes m m' q (gEmptyString :: delete i ps) t) →
  ∃ ps' m', at_result ps i f m = Returned (NO_ERROR, (ps', m')) ∧ values m' ps' (<[i := t]> ts).
Proof.
  intros Hv Hi Hz Hf. destruct (values_at m ps ts i Hv Hi) as (p & Hp & Hh & _ & _ & Hs). destruct (Hf p Hh Hs) as (q & m' & Hq & Hb).
  unfold at_result. rewrite Hp. cbn [oderef obind]. rewrite Hq. cbn [obind]. eexists _, m'. split; [done|]. by apply (values_set m m' ps ts i p).
Qed.

Lemma at_string_works m ps ts i t f : values m ps ts → there ts i = true → P t →
  (∀ p, ps !! i = Some p → holds isz m p (text ts i) → strings m (p :: gEmptyString :: delete i ps) → ∃ q m', f p m = Returned (q, m') ∧ becomes m m' q (gEmptyString :: delete i ps) t) →
  ∃ ps' m', at_string ps i f m = Returned (NO_ERROR, (ps', m')) ∧ values m' ps' (<[i := t]> ts).
Proof.
  intros Hv Hi Hz Hf. destruct (values_at m ps ts i Hv Hi) as (p & Hp & Hh & _ & _ & Hs). destruct (Hf p Hp Hh Hs) as (q & m' & Hq & Hb).
  unfold at_string. rewrite Hp. cbn [oderef obind]. rewrite Hq. cbn [obind]. eexists _, m'. split; [done|]. by apply (values_set m m' ps ts i p).
Qed.

Lemma new_works m ps ts t f : values m ps ts → P t → (strings m (gEmptyString :: ps) → ∃ q m', f m = Returned (q, m') ∧ becomes m m' q (gEmptyString :: ps) t) →
  ∃ ps' m', new_string ps f m = Returned (NO_ERROR, (ps', m')) ∧ values m' ps' (t :: ts).
Proof.
  intros Hv Hz Hf. destruct Hf as (q & m' & Hq & Hb); [apply Hv|]. unfold new_string. rewrite Hq. cbn [obind]. eexists _, m'. split; [done|]. by apply (values_new m).
Qed.

Lemma part_works m ps ts i (g : list Z → list Z) f : values m ps ts → there ts i = true → (∀ t, P t → P (g t)) →
  (∀ p us t, strings m us → p ∈ us → holds isz m p t → P t → ∃ q m', f p m = Returned (q, m') ∧ becomes m m' q us (g t)) →
  ∃ ps' m', (let! p := oderef (ps !! i) in new_string ps (f p) m) = Returned (NO_ERROR, (ps', m')) ∧ values m' ps' (g (text ts i) :: ts).
Proof.
  intros Hv Hi Hg Hf. destruct (values_at m ps ts i Hv Hi) as (p & Hp & Hh & Hz & Hin & Hs). rewrite Hp. cbn [oderef obind].
  apply new_works; [done|by apply Hg|]. intros Hs'. by apply Hf.
Qed.

Lemma at_delete (ps : list Z) i j o : ps !! j = Some o → i ≠ j → o ∈ gEmptyString :: delete i ps.
Proof. intros Hj Hne. right. by eapply delete_keeps. Qed.

(** A C string given by its characters. *)
Lemma c_source_length xs m : 0 ∉ xs → source_length (Outside (xs ++ [0])) m = Returned (length xs).
Proof. intros Hx. unfold source_length. pose proof (scan_string_text xs [] Hx) as Hsc. rewrite app_nil_r in Hsc. by rewrite Hsc. Qed.

Lemma destroy_string_works m ps ts i : values m ps ts → there ts i = true →
  ∃ ps' m', (let! p := oderef (ps !! i) in let! m := destroy_string p m in Returned (NO_ERROR, (delete i ps, m))) = Returned (NO_ERROR, (ps', m')) ∧ values m' ps' (delete i ts).
Proof.
  intros Hv Hi. destruct (values_at m ps ts i Hv Hi) as (p & Hp & Hh & Hz & Hin & Hs). pose proof Hv as [_ Ht Hpr].
  destruct (release_string isz 0 m p (gEmptyString :: delete i ps)) as (r & m' & Hr & Hw & Hk & Ha & _); [apply Hs|].
  unfold destroy_string. rewrite Hp. cbn [oderef obind]. rewrite Hr. cbn [obind]. eexists _, m'. split; [done|]. split.
  - split; [done|by left|apply Hk; [by left|apply Hs]|unfold plenty; rewrite Ha; apply Hs].
  - pose proof (Forall2_delete _ _ _ i Ht) as Hd. apply Forall2_same_length_lookup_2; [by eapply Forall2_length|]. intros j x y Hx Hy.
    apply Hk; [right; by eapply list_elem_of_lookup_2|]. by eapply Forall2_lookup_lr.
  - by apply Forall_delete.
Qed.
End Texts.

Lemma initialize_strings isz ans : 0 < isz ≤ 4 → Forall (λ a, a = true) ans →
  ∃ e m1 m, alloc isz isz (mkMem ∅ ans) = Returned (e, m1) ∧ store e 0 [Some 0] m1 = Returned m ∧ strings isz e m [e].
Proof.
  intros Hi Ha. assert (swf isz 0 (mkMem ∅ ans) []) as Hw by (split; [by intros p ?%elem_of_nil|done]).
  destruct (alloc_string isz (mkMem ∅ ans) [] (isz * 1) Hw Ha) as (e & m1 & He & Ho & Hk & Hp); [lia|]. rewrite (cells_times isz Hi) in Ho by lia.
  destruct (end_here isz m1 e _ [] [] None Ho) as (m2 & H2 & Hw2 & Hh & Hk2 & Hp2); [done|cbn [mSize length]; lia|cbn [mSize]; lia|done|].
  rewrite Z.mul_1_r in He. exists e, m1, m2. split_and!; [done|done|]. split; [done|by left|done|done].
Qed.
End SO.
