(* ===== verification/String8.v ===== *)
(** The strings of bytes of [String8.cpp]: assigning, appending, searching,
    trimming, changing case, and paths.  A string is the pointer [mString] to the
    bytes in its block; an operation takes it with the memory and returns it
    with the memory. *)

From S2P Require Import Prelude SharedBuffer StringMem StringOps Unicode.

Module S8.
Import SB SM SO.

Definition OS_PATH_SEPARATOR : Z := 0x2f.

(** The C library's tests and conversions of characters. *)
Definition tolower (c : Z) : Z := if (0x41 <=? c) && (c <=? 0x5a) then c + 32 else c.
Definition toupper (c : Z) : Z := if (0x61 <=? c) && (c <=? 0x7a) then c - 32 else c.
Definition isspace (c : Z) : bool := (c =? 0x20) || ((9 <=? c) && (c <=? 13)).

(** [strstr] and [strchr]: the index found. *)
Fixpoint strstr (s pat : list Z) : option nat :=
  if bool_decide (pat = take (length pat) s) then Some O
  else match s with [] => None | _ :: s' => S <$> strstr s' pat end.
Definition strchr (s : list Z) (c : Z) : option nat := find_index (Z.eqb c) s.

Section S8.
(** The static pointer [gEmptyString]. *)
Variable gEmptyString : Z.

Abbreviation size := (SM.size 1).
Abbreviation editResize := (SB.editResize 1).

Definition getEmptyString (m : memory) : outcome (Z * memory) :=
  let! m := acquire gEmptyString m in Returned (gEmptyString, m).

Definition initialize_string8 (m : memory) : outcome (Z * memory) :=
  let! (p, m) := alloc 1 1 m in let! m := store p 0 [Some 0] m in Returned (p, m).

Definition terminate_string8 (m : memory) : outcome memory :=
  let! (_, m) := release gEmptyString false m in Returned m.

(** ** New texts; 0 stands for [NULL]

    An allocation that fails ends the process at an [ALOG_ASSERT], so that what is
    written behind it for a failure is not reached. *)

Definition allocFromUTF8 (from : source) (len : Z) (m : memory) : outcome (Z * memory) :=
  if 0 <? len then
    let! (buf, m) := alloc 1 (u32 (len + 1)) m in
    oassert (negb (buf =? 0))
    (if buf =? 0 then Returned (0, m)
     else
       let! xs := read_source from (Z.to_nat len) m in
       let! m := store buf 0 xs m in
       let! m := store buf (Z.to_nat len) [Some 0] m in
       Returned (buf, m))
  else getEmptyString m.

Definition allocFromUTF16 (from : option (list Z)) (len : Z) (m : memory) : outcome (Z * memory) :=
  if len =? 0 then getEmptyString m
  else
    let! bytes := UC.utf16_to_utf8_length from len in
    if bytes <? 0 then getEmptyString m
    else
      let! (buf, m) := alloc 1 (u32 (bytes + 1)) m in
      oassert (negb (buf =? 0))
      (if buf =? 0 then getEmptyString m
       else let! xs := UC.utf16_to_utf8 from len in let! m := store buf 0 (Some <$> xs) m in Returned (buf, m)).

Definition allocFromUTF32 (from : option (list Z)) (len : Z) (m : memory) : outcome (Z * memory) :=
  if len =? 0 then getEmptyString m
  else
    let! bytes := UC.utf32_to_utf8_length from len in
    if bytes <? 0 then getEmptyString m
    else
      let! (buf, m) := alloc 1 (u32 (bytes + 1)) m in
      oassert (negb (buf =? 0))
      (if buf =? 0 then getEmptyString m
       else let! xs := UC.utf32_to_utf8 from len in let! m := store buf 0 (Some <$> xs) m in Returned (buf, m)).

(** ** Constructors and the destructor *)

Definition or_empty (pm : Z * memory) : outcome (Z * memory) := if pm.1 =? 0 then getEmptyString pm.2 else Returned pm.

Definition new_empty : memory → outcome (Z * memory) := getEmptyString.
Definition new_static (m : memory) : outcome (Z * memory) :=
  let! (p, m) := alloc 1 1 m in let! m := store p 0 [Some 0] m in Returned (p, m).
Definition new_copy (o : Z) (m : memory) : outcome (Z * memory) := let! m := acquire o m in Returned (o, m).
Definition new_chars (o : source) (m : memory) : outcome (Z * memory) :=
  let! len := source_length o m in let! pm := allocFromUTF8 o (Z.of_nat len) m in or_empty pm.
Definition new_chars_len (o : source) (len : Z) (m : memory) : outcome (Z * memory) :=
  let! pm := allocFromUTF8 o len m in or_empty pm.
Definition new_utf16 (o : option (list Z)) (len : Z) (m : memory) : outcome (Z * memory) := allocFromUTF16 o len m.
Definition new_utf32 (o : option (list Z)) (len : Z) (m : memory) : outcome (Z * memory) := allocFromUTF32 o len m.
Definition destroy (mString : Z) (m : memory) : outcome memory := let! (_, m) := release mString false m in Returned m.

(** ** Assigning *)

Definition clear (mString : Z) (m : memory) : outcome (Z * memory) :=
  let! (_, m) := release mString false m in getEmptyString m.

Definition setTo_string (other mString : Z) (m : memory) : outcome (Z * memory) :=
  let! m := acquire other m in let! (_, m) := release mString false m in Returned (other, m).

(** The new text takes the place of the old one; without one the string is empty. *)
Definition replace_by (newString : Z) (mString : Z) (m : memory) : result Z :=
  let! (_, m) := release mString false m in
  if newString =? 0 then let! pm := getEmptyString m in Returned (NO_MEMORY, pm) else Returned (NO_ERROR, (newString, m)).

Definition setTo_chars_len (other : source) (len : Z) (mString : Z) (m : memory) : result Z :=
  let! (newString, m) := allocFromUTF8 other len m in replace_by newString mString m.
Definition setTo_chars (other : source) (mString : Z) (m : memory) : result Z :=
  let! len := source_length other m in setTo_chars_len other (Z.of_nat len) mString m.
Definition setTo_utf16 (other : option (list Z)) (len : Z) (mString : Z) (m : memory) : result Z :=
  let! (newString, m) := allocFromUTF16 other len m in replace_by newString mString m.
Definition setTo_utf32 (other : option (list Z)) (len : Z) (mString : Z) (m : memory) : result Z :=
  let! (newString, m) := allocFromUTF32 other len m in replace_by newString mString m.

(** ** Appending *)

Definition real_append (other : source) (otherLen : Z) (mString : Z) (m : memory) : result Z :=
  let! myLen := size mString m in
  let! (str, m) := editResize mString (u32 (myLen + otherLen + 1)) m in
  if str =? 0 then Returned (NO_MEMORY, (mString, m))
  else
    let! xs := read_source other (Z.to_nat otherLen) m in
    let! m := store str (Z.to_nat myLen) xs m in
    let! m := store str (Z.to_nat myLen + Z.to_nat otherLen) [Some 0] m in
    Returned (NO_ERROR, (str, m)).

Definition append_string (other mString : Z) (m : memory) : result Z :=
  let! otherLen := size other m in
  let! bytes := size mString m in
  if bytes =? 0 then let! pm := setTo_string other mString m in Returned (NO_ERROR, pm)
  else if otherLen =? 0 then Returned (NO_ERROR, (mString, m))
  else real_append (Inside other 0) otherLen mString m.

Definition append_chars_len (other : source) (otherLen : Z) (mString : Z) (m : memory) : result Z :=
  let! bytes := size mString m in
  if bytes =? 0 then setTo_chars_len other otherLen mString m
  else if otherLen =? 0 then Returned (NO_ERROR, (mString, m))
  else real_append other otherLen mString m.
Definition append_chars (other : source) (mString : Z) (m : memory) : result Z :=
  let! len := source_length other m in append_chars_len other (Z.of_nat len) mString m.

(** ** The buffer *)

(** The buffer, or [NULL]. *)
Definition lockBuffer (len : Z) (mString : Z) (m : memory) : result Z :=
  let! (str, m) := editResize mString (u32 (len + 1)) m in
  if str =? 0 then Returned (0, (mString, m)) else Returned (str, (str, m)).

Definition unlockBuffer_size (len : Z) (mString : Z) (m : memory) : result Z :=
  let! mine := size mString m in
  if negb (len =? mine) then
    let! (str, m) := editResize mString (u32 (len + 1)) m in
    if str =? 0 then Returned (NO_MEMORY, (mString, m))
    else let! m := store str (Z.to_nat len) [Some 0] m in Returned (NO_ERROR, (str, m))
  else Returned (NO_ERROR, (mString, m)).

Definition unlockBuffer (mString : Z) (m : memory) : result Z :=
  let! t := c_string mString 0 m in unlockBuffer_size (Z.of_nat (length t)) mString m.

(** [formatted]: the text that [vsnprintf] makes, or that it fails. *)
Definition appendFormatV (formatted : option (list Z)) (mString : Z) (m : memory) : result Z :=
  let n := match formatted with Some xs => Z.of_nat (length xs) | None => -1 end in
  if n =? 0 then Returned (NO_ERROR, (mString, m))
  else
    let! oldLength := size mString m in
    let! (buf, (mString, m)) := lockBuffer (u32 (oldLength + n)) mString m in
    if buf =? 0 then Returned (NO_MEMORY, (mString, m))
    else match formatted with
         | Some xs => let! m := store buf (Z.to_nat oldLength) (Some <$> (xs ++ [0])) m in Returned (NO_ERROR, (mString, m))
         | None => Returned (NO_ERROR, (mString, m))
         end.

(** ** Searching and removing *)

Definition find (other : list Z) (start : Z) (mString : Z) (m : memory) : outcome Z :=
  let! len := size mString m in
  if len <=? start then Returned (-1)
  else
    let! s := c_string mString (Z.to_nat start) m in
    Returned (match strstr s other with Some k => start + Z.of_nat k | None => -1 end).

(** [memcpy] inside one block; where the areas overlap it is undefined, unless
    [forward] says that it copies from the first byte to the last. *)
Definition memcpy_within (forward : bool) (p : Z) (d s n : nat) (m : memory) : outcome memory :=
  match n with
  | O => Returned m
  | _ =>
      if forward || (d + n <=? s)%nat || (s + n <=? d)%nat then let! xs := read_cells p s n m in store p d xs m
      else Undefined
  end.

(** The loop of [removeAll], for at most [fuel] occurrences; the last of its values of
    [tail]. *)
Fixpoint remove_loop (forward : bool) (fuel : nat) (other : list Z) (index tail len : Z) (buf : Z) (m : memory) : option (outcome (Z * memory)) :=
  if index <? len then
    match fuel with
    | O => None
    | S fuel =>
        let skip := Z.of_nat (length other) in
        match find other (index + skip) buf m with
        | Returned next =>
            let next := if next <? 0 then len else next in
            let n := next - index - skip in
            match memcpy_within forward buf (Z.to_nat tail) (Z.to_nat (index + skip)) (Z.to_nat n) m with
            | Returned m => remove_loop forward fuel other next (tail + n) len buf m
            | Exited => Some Exited
            | Undefined => Some Undefined
            end
        | Exited => Some Exited
        | Undefined => Some Undefined
        end
    end
  else Some (Returned (tail, m)).

Definition removeAll (forward : bool) (fuel : nat) (other : list Z) (mString : Z) (m : memory) : option (result bool) :=
  match (let! index := find other 0 mString m in
         if index <? 0 then Returned (inl (mString, m))
         else
           let! len := size mString m in
           let! (buf, (mString, m)) := lockBuffer len mString m in
           if buf =? 0 then Returned (inl (mString, m)) else Returned (inr (index, len, mString, m))) with
  | Returned (inl pm) => Some (Returned (false, pm))
  | Returned (inr (index, len, buf, m)) =>
      r ← remove_loop forward fuel other index index len buf m;
      Some (let! (tail, m) := r in let! (_, pm) := unlockBuffer_size tail buf m in Returned (true, pm))
  | Exited => Some Exited
  | Undefined => Some Undefined
  end.

(** ** Changing characters *)

Fixpoint convert_loop (conv : Z → Z) (buf : Z) (i n : nat) (m : memory) : outcome memory :=
  match n with
  | O => Returned m
  | S n => let! c := char_at buf i m in let! m := store buf i [Some (conv c)] m in convert_loop conv buf (S i) n m
  end.

(** [toLower] and [toUpper] of a part of the string. *)
Definition convert (conv : Z → Z) (start len : Z) (mString : Z) (m : memory) : result Z :=
  let! mine := size mString m in
  if mine <=? start then Returned (NO_ERROR, (mString, m))
  else
    let len := if mine <? u32 (start + len) then mine - start else len in
    let! (buf, (mString, m)) := lockBuffer mine mString m in
    let! m := convert_loop conv buf (Z.to_nat start) (Z.to_nat len) m in
    unlockBuffer_size mine mString m.
Definition toLower (start len : Z) : Z → memory → result Z := convert tolower start len.
Definition toUpper (start len : Z) : Z → memory → result Z := convert toupper start len.

Fixpoint leading (l : list (option Z)) : outcome nat :=
  match l with
  | Some c :: l' => if (isspace c || (c =? 9)) && negb (c =? 0) then let! n := leading l' in Returned (S n) else Returned O
  | _ => Undefined
  end.

(** The length without the last characters that [drops] takes. *)
Fixpoint trailing (drops : Z → bool) (buf : Z) (n : nat) (m : memory) : outcome nat :=
  match n with
  | O => Returned O
  | S k => let! c := char_at buf k m in if drops c then trailing drops buf k m else Returned n
  end.

Definition trimSpace (mString : Z) (m : memory) : result Z :=
  let! len := size mString m in
  let! (buf, (mString, m)) := lockBuffer len mString m in
  let! b := sb_at buf m in
  let! i := leading (data b) in
  let n := (Z.to_nat len - i)%nat in
  let! m := match i with O => Returned m | _ => let! xs := read_cells buf i n m in store buf 0 xs m end in
  let! k := trailing isspace buf n m in
  let! m := store buf k [Some 0] m in
  unlockBuffer mString m.

Definition trimright (c : Z) (mString : Z) (m : memory) : result Z :=
  let! len := size mString m in
  let! (buf, (mString, m)) := lockBuffer len mString m in
  let! k := trailing (Z.eqb c) buf (Z.to_nat len) m in
  let! m := store buf k [Some 0] m in
  unlockBuffer mString m.

(** ** UTF-32 *)

(** The bytes from [mString] to the end of its block. *)
Definition all_bytes (mString : Z) (m : memory) : outcome (list Z) :=
  let! b := sb_at mString m in oderef (mapM id (data b)).
Definition getUtf32Length (mString : Z) (m : memory) : outcome (option (outcome Z)) :=
  let! l := all_bytes mString m in let! len := size mString m in Returned (UC.utf8_to_utf32_length (Some l) len).
Definition getUtf32At (signed : bool) (index : Z) (mString : Z) (m : memory) : outcome (Z * option Z) :=
  let! l := all_bytes mString m in let! len := size mString m in UC.utf32_from_utf8_at signed l len index.
Definition getUtf32 (signed : bool) (mString : Z) (m : memory) : outcome (option (outcome (list Z))) :=
  let! l := all_bytes mString m in let! len := size mString m in Returned (UC.utf8_to_utf32 signed (Some l) len).

(** ** Paths *)

Definition setPathName_len (name : source) (len : Z) (mString : Z) (m : memory) : result Z :=
  let! (buf, (mString, m)) := lockBuffer len mString m in
  let! xs := read_source name (Z.to_nat len) m in
  let! m := store buf 0 xs m in
  let! len :=
    if 0 <? len then let! c := char_at buf (Z.to_nat (len - 1)) m in Returned (if c =? OS_PATH_SEPARATOR then len - 1 else len)
    else Returned len in
  let! m := store buf (Z.to_nat len) [Some 0] m in
  unlockBuffer_size len mString m.
Definition setPathName (name : source) (mString : Z) (m : memory) : result Z :=
  let! len := source_length name m in setPathName_len name (Z.of_nat len) mString m.

Definition getPathLeaf (mString : Z) (m : memory) : outcome (Z * memory) :=
  let! t := c_string mString 0 m in
  match strrchr t OS_PATH_SEPARATOR with
  | None => new_copy mString m
  | Some cp => new_chars (Inside mString (S cp)) m
  end.

Definition getPathDir (mString : Z) (m : memory) : outcome (Z * memory) :=
  let! t := c_string mString 0 m in
  match strrchr t OS_PATH_SEPARATOR with
  | None => new_chars (Outside [0]) m
  | Some cp => new_chars_len (Inside mString 0) (Z.of_nat cp) m
  end.

(** [*outRemains = ...], for the string [outRemains] when there is one. *)
Definition assign_remains (outRemains : option Z) (value : memory → outcome (Z * memory)) (m : memory) : outcome (option Z * memory) :=
  match outRemains with
  | None => Returned (None, m)
  | Some old =>
      let! (tmp, m) := value m in
      let! (new, m) := setTo_string tmp old m in
      let! m := destroy tmp m in
      Returned (Some new, m)
  end.

(** The first component, and what [outRemains] becomes. *)
Definition walkPath (outRemains : option Z) (mString : Z) (m : memory) : outcome (Z * option Z * memory) :=
  let! t := c_string mString 0 m in
  let start := if bool_decide (strchr t OS_PATH_SEPARATOR = Some O) then 1%nat else O in
  match strchr (drop start t) OS_PATH_SEPARATOR with
  | None =>
      let! (res, m) := if (start =? 0)%nat then new_copy mString m else new_chars (Inside mString start) m in
      let! (rest, m) := assign_remains outRemains (new_chars (Outside [0])) m in
      Returned (res, rest, m)
  | Some k =>
      let! (res, m) := new_chars_len (Inside mString start) (Z.of_nat k) m in
      let! (rest, m) := assign_remains outRemains (new_chars (Inside mString (start + k + 1))) m in
      Returned (res, rest, m)
  end.

Definition find_extension (mString : Z) (m : memory) : outcome (option nat) :=
  let! t := c_string mString 0 m in
  let lastSlash := match strrchr t OS_PATH_SEPARATOR with None => O | Some k => S k end in
  Returned ((λ k, lastSlash + k)%nat <$> strrchr (drop lastSlash t) 0x2e).

Definition getPathExtension (mString : Z) (m : memory) : outcome (Z * memory) :=
  let! ext := find_extension mString m in
  match ext with Some k => new_chars (Inside mString k) m | None => new_chars (Outside [0]) m end.

Definition getBasePath (mString : Z) (m : memory) : outcome (Z * memory) :=
  let! ext := find_extension mString m in
  match ext with None => new_copy mString m | Some k => new_chars_len (Inside mString 0) (Z.of_nat k) m end.

(** [name] put behind the path of [len] bytes in the buffer. *)
Definition append_name (len : Z) (name : list Z) (mString : Z) (m : memory) : result Z :=
  let newlen := Z.of_nat (length name) in
  let! (buf, (mString, m)) := lockBuffer (u32 (len + 1 + newlen)) mString m in
  let! c := char_at buf (Z.to_nat (len - 1)) m in
  let! (len, m) :=
    if negb (c =? OS_PATH_SEPARATOR)
    then let! m := store buf (Z.to_nat len) [Some OS_PATH_SEPARATOR] m in Returned (len + 1, m)
    else Returned (len, m) in
  let! m := store buf (Z.to_nat len) (Some <$> (name ++ [0])) m in
  unlockBuffer_size (len + newlen) mString m.

(** [name] is the C string without its terminator. *)
Definition appendPath (name : list Z) (mString : Z) (m : memory) : result Z :=
  if negb (default 0 (head name) =? OS_PATH_SEPARATOR) then
    match name with
    | [] => Returned (NO_ERROR, (mString, m))
    | _ =>
        let! len := size mString m in
        if len =? 0 then setPathName (Outside (name ++ [0])) mString m
        else
          append_name len name mString m
    end
  else setPathName (Outside (name ++ [0])) mString m.

(** The separator is the same here and in resources. *)
Definition convertToResPath (mString : Z) : Z := mString.

(** The sign of [strcmp]. *)
Definition compare (mString other : Z) (m : memory) : outcome Z :=
  let! s := c_string mString 0 m in let! t := c_string other 0 m in Returned (UC.lexicographic s t).

(** ** What the operations do to texts *)

Implicit Types (us : list Z) (xs t : list Z) (m : memory) (s : source).

(** The strings of this file: characters of one byte, the empty string of this file. *)
Abbreviation strings := (SO.strings 1 gEmptyString).
Abbreviation becomes := (SM.becomes 1).
Abbreviation filled := (SO.filled 1).
Abbreviation values := (SO.values 1 gEmptyString (λ t, 0 ∉ t)).

Lemma one_byte : 0 < 1 ≤ 4.
Proof. lia. Qed.
#[local] Hint Resolve one_byte : core.

Abbreviation becomes_strings := (SO.becomes_strings 1 gEmptyString).
Abbreviation release_other := (SO.release_other 1).
Abbreviation holds_small := (SO.holds_small 1).
Abbreviation text_same := (SO.text_same 1 gEmptyString).
Abbreviation provides_weaken := (SO.provides_weaken 1).
Abbreviation filled_becomes := (SO.filled_becomes 1).
Abbreviation filled_store := (SO.filled_store 1).
Abbreviation filled_store_app := (SO.filled_store_app 1).
Abbreviation filled_char := (SO.filled_char 1).
Abbreviation filled_holds := (SO.filled_holds 1).
Abbreviation strings_perm := (SO.strings_perm 1 gEmptyString).
Abbreviation becomes_perm := (SO.becomes_perm 1).
Abbreviation values_at := (SO.values_at 1 gEmptyString (λ t, 0 ∉ t)).
Abbreviation texts_set := (SO.texts_set 1).
Abbreviation at_result_works := (SO.at_result_works 1 gEmptyString (λ t, 0 ∉ t)).
Abbreviation at_string_works := (SO.at_string_works 1 gEmptyString (λ t, 0 ∉ t)).
Abbreviation new_works := (SO.new_works 1 gEmptyString (λ t, 0 ∉ t)).
Abbreviation part_works := (SO.part_works 1 gEmptyString (λ t, 0 ∉ t)).
Abbreviation at_delete := (SO.at_delete gEmptyString).

Lemma empty_string_ok m us : strings m us → ∃ m', getEmptyString m = Returned (gEmptyString, m') ∧ becomes m m' gEmptyString us [].
Proof. exact (SO.getEmptyString_spec 1 gEmptyString m us). Qed.

Lemma allocFromUTF8_spec m us s xs : strings m us → provides 1 m us s xs → Z.of_nat (length xs) + 1 < 2 ^ 31 →
  ∃ p m', allocFromUTF8 s (Z.of_nat (length xs)) m = Returned (p, m') ∧ p ≠ 0 ∧ becomes m m' p us xs.
Proof.
  intros Hs Hsrc Hlt. unfold allocFromUTF8. destruct (Z.ltb_spec 0 (Z.of_nat (length xs))) as [Hn|Hn].
  - destruct (new_block 1 one_byte gEmptyString m us xs (Z.of_nat (length xs) + 1) Hs) as (p & m1 & -> & Hp0 & Hk & m2 & m3 & H2 & H3 & Hb); [lia|done|]. cbn [obind]. rewrite (proj2 (Z.eqb_neq p 0)) by done.
    rewrite Nat2Z.id, (Hsrc m1 Hk). cbn [obind]. rewrite H2. cbn [obind]. rewrite H3. cbn [obind]. by exists p, m3.
  - assert (xs = []) as -> by (destruct xs; [done|cbn in Hn; lia]). destruct (empty_string_ok m us Hs) as (m' & -> & Hb).
    exists gEmptyString, m'. split_and!; [done| |done]. eapply swf_nz; [apply Hs|apply Hs].
Qed.

Lemma replace_by_spec m m1 q p us t : becomes m m1 q (p :: us) t → q ≠ 0 → ∃ m', replace_by q p m1 = Returned (NO_ERROR, (q, m')) ∧ becomes m m' q us t.
Proof.
  intros Hb Hq. destruct (release_other _ _ _ _ _ _ Hb) as (r & m' & Hr & Hb'). exists m'. unfold replace_by. rewrite Hr. cbn [obind].
  by rewrite (proj2 (Z.eqb_neq q 0)).
Qed.

Lemma setTo_string_spec m p o us t : strings m (p :: us) → o ∈ p :: us → holds 1 m o t →
  ∃ m', setTo_string o p m = Returned (o, m') ∧ becomes m m' o us t.
Proof. exact (SO.assign_string_spec 1 gEmptyString m p o us t). Qed.

Lemma setTo_chars_len_spec m p us s xs : strings m (p :: us) → provides 1 m (p :: us) s xs → Z.of_nat (length xs) + 1 < 2 ^ 31 →
  ∃ q m', setTo_chars_len s (Z.of_nat (length xs)) p m = Returned (NO_ERROR, (q, m')) ∧ becomes m m' q us xs.
Proof.
  intros Hs Hsrc Hlt. unfold setTo_chars_len. destruct (allocFromUTF8_spec m (p :: us) s xs Hs Hsrc Hlt) as (q & m1 & -> & Hq & Hb). cbn [obind].
  destruct (replace_by_spec _ _ _ _ _ _ Hb Hq) as (m' & -> & Hb'). by exists q, m'.
Qed.

Lemma clear_spec m p us : strings m (p :: us) → gEmptyString ∈ us → ∃ q m', clear p m = Returned (q, m') ∧ becomes m m' q us [].
Proof. exact (SO.clear_string_spec 1 gEmptyString m p us). Qed.

Lemma real_append_spec m p us t s xs : strings m (p :: us) → holds 1 m p t → provides 1 m us s xs → Z.of_nat (length (t ++ xs)) + 1 < 2 ^ 31 →
  ∃ q m', real_append s (Z.of_nat (length xs)) p m = Returned (NO_ERROR, (q, m')) ∧ becomes m m' q us (t ++ xs).
Proof.
  intros Hs Ht Hsrc Hlt. unfold real_append. rewrite (size_holds 1 one_byte _ _ _ Ht). cbn [obind].
  destruct (extend_spec 1 one_byte gEmptyString m p us t (length xs) (Z.of_nat (length t) + Z.of_nat (length xs) + 1) Hs Ht) as (q & m1 & b & l & -> & Hq & Ho & Hd & Hl & Hsz & Hk & Hp); [lia|rewrite length_app in Hlt; lia|].
  cbn [obind]. rewrite (proj2 (Z.eqb_neq q 0)), !Nat2Z.id, (Hsrc m1 Hk) by done. cbn [obind].
  destruct (fill_rest 1 m1 q b us t xs l Ho Hd) as (m2 & m3 & H2 & H3 & Hb); [lia|rewrite length_app; lia|rewrite length_app in Hlt; lia|done|].
  rewrite H2. cbn [obind]. rewrite H3. cbn [obind]. exists q, m3. split; [done|]. by apply (becomes_trans 1 m m1).
Qed.

Lemma append_string_spec m p o us t u : strings m (p :: us) → holds 1 m p t → o ∈ us → holds 1 m o u → Z.of_nat (length (t ++ u)) + 1 < 2 ^ 31 →
  ∃ q m', append_string o p m = Returned (NO_ERROR, (q, m')) ∧ becomes m m' q us (t ++ u).
Proof.
  intros Hs Ht Ho Hu Hlt. unfold append_string. rewrite (size_holds 1 one_byte _ _ _ Hu), (size_holds 1 one_byte _ _ _ Ht). cbn [obind].
  destruct (Z.eqb_spec (Z.of_nat (length t)) 0) as [Hz|Hz].
  - destruct (setTo_string_spec m p o us u Hs) as (m' & -> & Hb); [by right|done|]. exists o, m'. destruct t; [done|cbn in Hz; lia].
  - destruct (Z.eqb_spec (Z.of_nat (length u)) 0) as [Hu0|Hu0].
    + exists p, m. split; [done|]. destruct u; [|cbn in Hu0; lia]. rewrite app_nil_r. by apply text_same.
    + apply (real_append_spec m p us t (Inside o 0) u Hs Ht); [|done]. by apply (provides_inside 1 m us o u 0 u [0] Ho Hu).
Qed.

Lemma append_chars_len_spec m p us t s xs : strings m (p :: us) → holds 1 m p t → provides 1 m us s xs → Z.of_nat (length (t ++ xs)) + 1 < 2 ^ 31 →
  ∃ q m', append_chars_len s (Z.of_nat (length xs)) p m = Returned (NO_ERROR, (q, m')) ∧ becomes m m' q us (t ++ xs).
Proof.
  intros Hs Ht Hsrc Hlt. unfold append_chars_len. rewrite (size_holds 1 one_byte _ _ _ Ht). cbn [obind].
  destruct (Z.eqb_spec (Z.of_nat (length t)) 0) as [Hz|Hz].
  - destruct t; [|cbn in Hz; lia]. apply setTo_chars_len_spec; [done|by apply provides_weaken|done].
  - destruct (Z.eqb_spec (Z.of_nat (length xs)) 0) as [Hu0|Hu0]; [|by apply real_append_spec].
    exists p, m. split; [done|]. destruct xs; [|cbn in Hu0; lia]. rewrite app_nil_r. by apply text_same.
Qed.

(** ** The buffer *)

Lemma lockBuffer_spec m p us t n : strings m (p :: us) → holds 1 m p t → Z.of_nat n + 1 < 2 ^ 31 →
  ∃ q m' b, lockBuffer (Z.of_nat n) p m = Returned (q, (q, m')) ∧ q ≠ 0 ∧ opened 1 m' q b us ∧ data b = resized (S n) t ∧ mSize b = Z.of_nat n + 1 ∧ tkeeps 1 m m' us ∧ plenty m'.
Proof.
  intros Hs Ht Hn. unfold lockBuffer. replace (Z.of_nat n + 1) with (Z.of_nat (S n)) by lia.
  destruct (resize_spec 1 one_byte gEmptyString m p us t (S n) (Z.of_nat (S n)) Hs Ht) as (q & m1 & b & -> & Hq & Hrest); [lia|lia|]. cbn [obind]. rewrite (proj2 (Z.eqb_neq q 0)) by done. by exists q, m1, b.
Qed.

(** A text cut, with the terminator put behind. *)
Lemma unlockBuffer_size_cut m p us t n : strings m (p :: us) → holds 1 m p t → (n ≤ length t)%nat →
  ∃ q m', unlockBuffer_size (Z.of_nat n) p m = Returned (NO_ERROR, (q, m')) ∧ becomes m m' q us (take n t).
Proof.
  intros Hs Ht Hn. unfold unlockBuffer_size. rewrite (size_holds 1 one_byte _ _ _ Ht). cbn [obind].
  destruct (Z.eqb_spec (Z.of_nat n) (Z.of_nat (length t))) as [He|Hne]; cbn [negb].
  - exists p, m. split; [done|]. rewrite take_ge by lia. by apply text_same.
  - destruct (cut_spec 1 one_byte gEmptyString m p us t n (Z.of_nat n + 1) Hs Ht Hn) as (q & m1 & -> & Hq & m2 & H2 & Hb); [lia|].
    cbn [obind]. rewrite (proj2 (Z.eqb_neq q 0)), Nat2Z.id, H2 by done. cbn [obind]. by exists q, m2.
Qed.

Lemma lock_same m p us t : strings m (p :: us) → holds 1 m p t →
  ∃ q m', lockBuffer (Z.of_nat (length t)) p m = Returned (q, (q, m')) ∧ q ≠ 0 ∧ filled m' q us t ∧ tkeeps 1 m m' us.
Proof.
  intros Hs Ht. pose proof (holds_small _ _ _ Ht). destruct (lockBuffer_spec m p us t (length t) Hs Ht) as (q & m' & b & -> & Hq & Ho & Hd & Hsz & Hk & Hp); [lia|].
  exists q, m'. split_and!; [done|done| |done]. split; [|done]. exists b. rewrite resized_same in Hd. split_and!; [done|done|lia|lia].
Qed.

(** The text ends earlier. *)
Lemma filled_cut m q us u k : filled m q us u → gEmptyString ∈ us → holds 1 m gEmptyString [] → (k ≤ length u)%nat → 0 ∉ take k u →
  ∃ q' m1 m2, store q k [Some 0] m = Returned m1 ∧ unlockBuffer q m1 = Returned (NO_ERROR, (q', m2)) ∧ becomes m m2 q' us (take k u).
Proof.
  intros Hf He H0 Hk Hz.
  assert (∃ m1 u1, store q k [Some 0] m = Returned m1 ∧ becomes m m1 q us u1 ∧ take k u1 = take k u ∧ (k ≤ length u1)%nat ∧ ∃ y, u1 ++ [0] = take k u ++ 0 :: y) as (m1 & u1 & Hm & Hb & Ht & Hl & y & Hy).
  { destruct (Nat.eq_dec k (length u)) as [->|Hne].
    - destruct (fi_open _ _ _ _ _ Hf) as (b & Ho & Hd & Hs & Hlt). destruct (end_here 1 m q b us u (Some 0) Ho) as (m1 & Hm & Hb); [by rewrite Hd, fmap_app|lia|done|apply Hf|].
      exists m1, u. split_and!; [done|done|done|done|]. exists []. rewrite take_ge; done.
    - destruct (filled_store m q us u k [0] Hf) as (m1 & Hm & Hf1 & Hk1); [cbn; lia|]. cbn [length] in Hf1. eexists m1, _. split_and!; [exact Hm|by apply filled_becomes| | |].
      + apply take_app_length'. rewrite length_take_le; lia.
      + rewrite length_app, length_take_le; lia.
      + eexists. rewrite <-app_assoc. reflexivity. }
  destruct Hb as (Hw & Hh & Hkp & Hp).
  assert (unlockBuffer q m1 = unlockBuffer_size (Z.of_nat k) q m1) as Hlen.
  { unfold unlockBuffer. rewrite (c_string_before 1 _ _ _ 0 (take k u) y Hh) by done. cbn [obind]. by rewrite length_take_le. }
  destruct (unlockBuffer_size_cut m1 q us u1 k) as (q' & m2 & Hu & Hb2); [split; [done|by right|by apply Hkp|done]|done|done|].
  exists q', m1, m2. split_and!; [done|by rewrite Hlen|]. rewrite <-Ht. by apply (becomes_trans 1 m m1).
Qed.

(** ** Case *)

Lemma convert_loop_spec conv q us (l2 : list Z) : ∀ m (l1 l3 : list Z), filled m q us (l1 ++ l2 ++ l3) →
  ∃ m', convert_loop conv q (length l1) (length l2) m = Returned m' ∧ filled m' q us (l1 ++ (conv <$> l2) ++ l3) ∧ tkeeps 1 m m' us.
Proof.
  induction l2 as [|c l2 IH]; intros m l1 l3 Hf; [exists m; split_and!; [done|done|apply tkeeps_refl]|].
  cbn [length convert_loop]. rewrite (filled_char _ _ _ _ (length l1) c Hf) by (rewrite lookup_app_r, Nat.sub_diag; done). cbn [obind].
  destruct (filled_store_app m q us l1 [c] (l2 ++ l3) [conv c] Hf) as (m1 & Hm & Hf1 & Hk1); [done|]. cbn [fmap list_fmap] in Hm. rewrite Hm. cbn [obind].
  destruct (IH m1 (l1 ++ [conv c]) l3) as (m2 & Hm2 & Hf2 & Hk2); [by rewrite <-app_assoc|]. rewrite length_app, Nat.add_1_r in Hm2. rewrite Hm2.
  exists m2. split_and!; [done|by rewrite <-app_assoc in Hf2|by eapply tkeeps_trans].
Qed.

(** A part of a text converted; what lies beyond its end does not count. *)
Definition converted (conv : Z → Z) (i n : nat) t : list Z := take i t ++ (conv <$> take n (drop i t)) ++ drop n (drop i t).

Lemma convert_spec conv m p us t i n : strings m (p :: us) → gEmptyString ∈ us → holds 1 m p t → Z.of_nat i + Z.of_nat n < 2 ^ 32 →
  ∃ q m', convert conv (Z.of_nat i) (Z.of_nat n) p m = Returned (NO_ERROR, (q, m')) ∧ becomes m m' q us (converted conv i n t).
Proof.
  intros Hs He Ht Hin. unfold convert. rewrite (size_holds 1 one_byte _ _ _ Ht). cbn [obind]. destruct (Z.leb_spec (Z.of_nat (length t)) (Z.of_nat i)) as [Hc|Hc].
  { exists p, m. split; [done|]. unfold converted. rewrite drop_ge, take_ge, take_nil, drop_nil, app_nil_r by lia. by apply text_same. }
  destruct (lock_same m p us t Hs Ht) as (q & m1 & -> & Hq & Hf & Hk). cbn [obind]. rewrite Nat2Z.id, u32_small by lia.
  assert (Z.to_nat (if Z.of_nat (length t) <? Z.of_nat i + Z.of_nat n then Z.of_nat (length t) - Z.of_nat i else Z.of_nat n) = length (take n (drop i t))) as ->.
  { rewrite length_take, length_drop. destruct (Z.ltb_spec (Z.of_nat (length t)) (Z.of_nat i + Z.of_nat n)); lia. }
  destruct (convert_loop_spec conv q us (take n (drop i t)) m1 (take i t) (drop n (drop i t))) as (m2 & Hm2 & Hf2 & Hk2); [by rewrite !take_drop|].
  rewrite length_take_le in Hm2 by lia. rewrite Hm2. cbn [obind]. fold (converted conv i n t) in Hf2.
  assert (length (converted conv i n t) = length t) as Hl.
  { unfold converted. rewrite !length_app, length_fmap, <-!length_app, take_drop. by rewrite take_drop. }
  assert (becomes m m2 q us (converted conv i n t)) as Hb by (apply filled_becomes; [by eapply tkeeps_trans|done]).
  destruct Hb as (Hw & Hh & Hkp & Hp). destruct Hs as [_ _ H0 _].
  destruct (unlockBuffer_size_cut m2 q us (converted conv i n t) (length t)) as (q' & m3 & -> & Hb3); [split; [done|by right|by apply Hkp|done]|done|by rewrite Hl|].
  exists q', m3. split; [done|]. rewrite take_ge in Hb3 by lia. by apply (becomes_trans 1 m m2).
Qed.

(** ** Trimming *)

Fixpoint skip_while (f : Z → bool) (l : list Z) : list Z := match l with c :: l' => if f c then skip_while f l' else l | [] => [] end.
Definition without_end (f : Z → bool) (l : list Z) : list Z := reverse (skip_while f (reverse l)).

Lemma skip_while_suffix f l : ∃ k, skip_while f l = drop k l ∧ (k ≤ length l)%nat.
Proof.
  induction l as [|c l (k & IH & Hk)]; [by exists 0%nat|]. cbn [skip_while]. destruct (f c); [|exists 0%nat; split; [done|lia]].
  exists (S k). split; [done|]. cbn. lia.
Qed.

Lemma without_end_prefix f l : ∃ k, without_end f l = take k l ∧ (k ≤ length l)%nat.
Proof.
  unfold without_end. destruct (skip_while_suffix f (reverse l)) as (k & -> & Hk). rewrite length_reverse in Hk. exists (length l - k)%nat. split; [|lia].
  pose proof (take_reverse (reverse l) (length l - k)) as H. rewrite reverse_involutive, length_reverse in H. rewrite H. by replace (length l - (length l - k))%nat with k by lia.
Qed.

Lemma without_end_snoc f l c : without_end f (l ++ [c]) = if f c then without_end f l else l ++ [c].
Proof. unfold without_end. rewrite reverse_snoc. cbn [skip_while]. destruct (f c); [done|]. by rewrite reverse_cons, reverse_involutive. Qed.

Lemma trailing_spec f m q us u n : filled m q us u → (n ≤ length u)%nat → trailing f q n m = Returned (length (without_end f (take n u))).
Proof.
  intros Hf. induction n as [|n IH]; [done|]. intros Hn. destruct (lookup_lt_is_Some_2 u n) as [c Hc]; [lia|].
  cbn [trailing]. rewrite (filled_char _ _ _ _ _ _ Hf Hc). cbn [obind]. rewrite (take_S_r _ _ _ Hc), without_end_snoc.
  destruct (f c); [apply IH; lia|]. rewrite length_app, length_take_le by lia. f_equal. cbn. lia.
Qed.

Lemma leading_spec u : ∃ k, leading (Some <$> (u ++ [0])) = Returned k ∧ skip_while isspace u = drop k u ∧ (k ≤ length u)%nat.
Proof.
  induction u as [|c u (k & IH & Hs & Hk)]; [by exists 0%nat|]. cbn [app fmap list_fmap leading skip_while]. change (list_fmap _ _ _ (u ++ [0])) with (Some <$> (u ++ [0])).
  assert ((isspace c || (c =? 9)) && negb (c =? 0) = isspace c) as ->.
  { unfold isspace. destruct (Z.eqb_spec c 0x20), (Z.eqb_spec c 9), (Z.eqb_spec c 0), (Z.leb_spec 9 c), (Z.leb_spec c 13); try lia; done. }
  destruct (isspace c); [|exists 0%nat; split_and!; [done|done|lia]]. rewrite IH. cbn [obind]. exists (S k). split_and!; [done|done|cbn; lia].
Qed.

Definition trimmed t : list Z := without_end isspace (skip_while isspace t).

(** What [trimSpace] and [trimright] end with. *)
Lemma cut_end_spec f m m1 q us u n : filled m1 q us u → tkeeps 1 m m1 us → gEmptyString ∈ us → holds 1 m gEmptyString [] → (n ≤ length u)%nat → 0 ∉ take n u →
  ∃ q' m', (let! k := trailing f q n m1 in let! m := store q k [Some 0] m1 in unlockBuffer q m) = Returned (NO_ERROR, (q', m')) ∧
    becomes m m' q' us (without_end f (take n u)).
Proof.
  intros Hf Hk He H0 Hn Hz. rewrite (trailing_spec f m1 q us u n Hf Hn). cbn [obind]. destruct (without_end_prefix f (take n u)) as (k & Hwe & Hle).
  rewrite length_take_le in Hle by done. assert (without_end f (take n u) = take k u) as Hu by (rewrite Hwe, take_take; f_equal; lia).
  assert (length (take k u) = k) as Hlk by (rewrite length_take_le; lia).
  destruct (filled_cut m1 q us u k Hf He) as (q' & m2 & m3 & H2 & H3 & Hb); [by apply Hk|lia|rewrite <-Hu, Hwe; by apply take_not_in|].
  rewrite Hu, Hlk, H2. cbn [obind]. rewrite H3. exists q', m3. split; [done|]. by apply (becomes_trans 1 m m1).
Qed.

Lemma trimright_spec c m p us t : strings m (p :: us) → gEmptyString ∈ us → holds 1 m p t → 0 ∉ t →
  ∃ q m', trimright c p m = Returned (NO_ERROR, (q, m')) ∧ becomes m m' q us (without_end (Z.eqb c) t).
Proof.
  intros Hs He Ht Hz. unfold trimright. rewrite (size_holds 1 one_byte _ _ _ Ht). cbn [obind]. destruct (lock_same m p us t Hs Ht) as (q & m1 & -> & Hq & Hf & Hk). cbn [obind].
  rewrite Nat2Z.id. destruct (cut_end_spec (Z.eqb c) m m1 q us t (length t) Hf Hk He) as (q' & m' & Hr & Hb); [apply Hs|done|by rewrite firstn_all|].
  rewrite firstn_all in Hb. exists q', m'. by rewrite Hr.
Qed.

Lemma trimSpace_spec m p us t : strings m (p :: us) → gEmptyString ∈ us → holds 1 m p t → 0 ∉ t →
  ∃ q m', trimSpace p m = Returned (NO_ERROR, (q, m')) ∧ becomes m m' q us (trimmed t).
Proof.
  intros Hs He Ht Hz. unfold trimSpace, trimmed. rewrite (size_holds 1 one_byte _ _ _ Ht). cbn [obind]. destruct (lock_same m p us t Hs Ht) as (q & m1 & -> & Hq & Hf & Hk). cbn [obind].
  pose proof Hf as [(b & Ho & Hd & _) _]. unfold sb_at at 1. rewrite (op_at _ _ _ _ _ Ho). cbn [oderef obind]. rewrite Hd.
  destruct (leading_spec t) as (i & -> & -> & Hi). cbn [obind]. rewrite Nat2Z.id. set (n := (length t - i)%nat).
  assert (length (drop i t) = n) as Hl by (by rewrite length_drop).
  assert (∃ m2 u, (match i with O => Returned m1 | _ => let! cs := read_cells q i n m1 in store q 0 cs m1 end) = Returned m2 ∧ filled m2 q us u ∧ tkeeps 1 m m2 us ∧ take n u = drop i t ∧ (n ≤ length u)%nat) as (m2 & u & -> & Hf2 & Hk2 & Hu & Hn).
  { destruct i as [|i]; [exists m1, t; split_and!; [done|done|done|by rewrite drop_0, <-Hl, drop_0, firstn_all|lia]|].
    rewrite (read_cells_opened 1 m1 q b us (S i) n Ho) by (rewrite Hd, length_fmap, length_app; cbn; lia). cbn [obind].
    rewrite Hd, <-fmap_drop, <-fmap_take, drop_app_le, take_app_le, take_ge by lia.
    destruct (filled_store m1 q us t 0 (drop (S i) t) Hf) as (m2 & -> & Hf2 & Hk2); [lia|]. eexists m2, _. split_and!; [done|exact Hf2|by eapply tkeeps_trans| |].
    - rewrite take_0, app_nil_l. by apply take_app_length'.
    - rewrite take_0, app_nil_l. rewrite length_app. lia. }
  cbn [obind]. rewrite <-Hu. apply cut_end_spec; [done|done|done|apply Hs|done|rewrite Hu; by apply drop_not_in].
Qed.

(** ** Names of paths *)

(** The end of [setPathName] and [appendPath]: a block that has been written up to a
    terminator is cut to what was written. *)
Lemma unlock_written m q b us t (l : list (option Z)) : opened 1 m q b us → plenty m → data b = (Some <$> t) ++ Some 0 :: l → mSize b = Z.of_nat (length (data b)) → mSize b < 2 ^ 31 →
  ∃ q' m', unlockBuffer_size (Z.of_nat (length t)) q m = Returned (NO_ERROR, (q', m')) ∧ becomes m m' q' us t.
Proof.
  intros Ho Hp Hd Hs Hlt. unfold unlockBuffer_size. rewrite (size_opened 1 _ _ _ _ Ho). cbn [obind]. rewrite Z.div_1_r.
  assert (mSize b = Z.of_nat (length t) + 1 + Z.of_nat (length l)) as Hsz by (rewrite Hs, Hd, length_app, length_fmap; cbn [length]; lia).
  rewrite u32_small by lia. destruct (Z.eqb_spec (Z.of_nat (length t)) (mSize b - 1)) as [He|Hne]; cbn [negb].
  - exists q, m. split; [done|]. apply (becomes_close 1 m m q b us t); [done| |lia|lia|apply tkeeps_refl|done].
    assert (l = []) as -> by (destruct l; [done|cbn in Hsz; lia]). by rewrite Hd, fmap_app.
  - destruct (editResize_opened 1 one_byte m q b us (Z.of_nat (length t) + 1) Ho Hp) as (q' & m1 & b' & Hr & Ho' & Hd' & Hs' & Hk & Hp'); [by rewrite Z.mul_1_l|lia|lia|].
    rewrite Z.mul_1_l in Hr, Hs'. rewrite to_u32, Hr by lia. cbn [obind]. rewrite (proj2 (Z.eqb_neq q' 0)), Nat2Z.id by apply (op_nz _ _ _ _ _ Ho').
    destruct (end_here 1 m1 q' b' us t (Some 0) Ho') as (m2 & -> & Hb); [|lia|lia|done|exists q', m2; split; [done|by apply (becomes_trans 1 m m1)]].
    rewrite Hd', Hd. unfold resize_cells. rewrite length_app, length_fmap. cbn [length]. replace (Z.to_nat (Z.of_nat (length t) + 1)) with (S (length t)) by lia.
    replace (S (length t) - _)%nat with 0%nat by lia. rewrite app_nil_r, take_app_ge, length_fmap by (rewrite length_fmap; lia). by replace (S (length t) - length t)%nat with 1%nat by lia.
Qed.

Lemma terminate_written m m1 q b us t z (l : list (option Z)) : opened 1 m1 q b us → plenty m1 → tkeeps 1 m m1 us → data b = (Some <$> t) ++ z :: l →
  mSize b = Z.of_nat (length (data b)) → mSize b < 2 ^ 31 →
  ∃ q' m', (let! m := store q (length t) [Some 0] m1 in unlockBuffer_size (Z.of_nat (length t)) q m) = Returned (NO_ERROR, (q', m')) ∧ becomes m m' q' us t.
Proof.
  intros Ho Hp Hk Hd Hs Hlt. destruct (store_middle 1 m1 q b us (Some <$> t) [z] [Some 0] l Ho) as (m2 & b2 & H2 & Ho2 & Hd2 & Hs2 & Hk2 & Hp2); [done|done|].
  rewrite length_fmap in H2. rewrite H2. cbn [obind]. specialize (Hp2 Hp).
  destruct (unlock_written m2 q b2 us t l Ho2 Hp2 Hd2) as (q' & m3 & -> & Hb); [|lia|].
  - rewrite Hs2, Hs, Hd2, Hd, !length_app. done.
  - exists q', m3. split; [done|]. apply (becomes_trans 1 m m2); [by eapply tkeeps_trans|done].
Qed.

(** A path without the separator at its end. *)
Definition path_name t : list Z := if bool_decide (last t = Some OS_PATH_SEPARATOR) then take (length t - 1) t else t.

Lemma path_name_snoc t c : path_name (t ++ [c]) = if c =? OS_PATH_SEPARATOR then t else t ++ [c].
Proof.
  unfold path_name. rewrite last_snoc, length_app, Nat.add_1_r. cbn [Nat.sub]. rewrite Nat.sub_0_r, take_app_length.
  case_bool_decide as H; destruct (Z.eqb_spec c OS_PATH_SEPARATOR); congruence.
Qed.

Lemma setPathName_len_spec m p us t s xs : strings m (p :: us) → holds 1 m p t → provides 1 m us s xs → Z.of_nat (length xs) + 1 < 2 ^ 31 →
  ∃ q m', setPathName_len s (Z.of_nat (length xs)) p m = Returned (NO_ERROR, (q, m')) ∧ becomes m m' q us (path_name xs).
Proof.
  intros Hs Ht Hsrc Hlt. unfold setPathName_len. destruct (lockBuffer_spec m p us t (length xs) Hs Ht Hlt) as (q & m1 & b & -> & Hq & Ho & Hd & Hsz & Hk & Hp). cbn [obind].
  rewrite Nat2Z.id, (Hsrc m1 Hk). cbn [obind].
  assert (length (data b) = S (length xs)) as Hlb by (rewrite Hd; apply resize_cells_length).
  destruct (exists_last (l := data b)) as (l & z & Hl); [by intros H%(f_equal length); rewrite Hlb in H|]. rewrite Hl, length_app, Nat.add_1_r in Hlb. injection Hlb as Hlb.
  destruct (store_middle 1 m1 q b us [] l (Some <$> xs) [z] Ho) as (m2 & b2 & H2 & Ho2 & Hd2 & Hs2 & Hk2 & Hp2); [done|by rewrite length_fmap|].
  cbn [length app] in H2, Hd2. rewrite H2. cbn [obind]. specialize (Hp2 Hp). assert (tkeeps 1 m m2 us) as Hk' by by eapply tkeeps_trans.
  destruct xs as [|c x _] using rev_ind.
  - apply (terminate_written m m2 q b2 us [] z []); [done|done|done|done|rewrite Hd2; cbn in *; lia|lia].
  - rewrite path_name_snoc. rewrite fmap_app, <-app_assoc in Hd2. rewrite length_app, Nat.add_1_r in *. rewrite (proj2 (Z.ltb_lt _ _)) by lia.
    replace (Z.to_nat (Z.of_nat (S (length x)) - 1)) with (length x) by lia.
    rewrite (char_at_opened 1 m2 q b2 us (length x) c Ho2) by (rewrite Hd2, lookup_app_r, length_fmap, Nat.sub_diag by (rewrite length_fmap; lia); done). cbn [obind].
    assert (mSize b2 = Z.of_nat (length (data b2))) as Hs3 by (rewrite Hd2, !length_app, length_fmap; cbn [length fmap list_fmap]; lia).
    destruct (Z.eqb_spec c OS_PATH_SEPARATOR) as [Hc|Hc]; cbn [obind].
    + replace (Z.of_nat (S (length x)) - 1) with (Z.of_nat (length x)) by lia. rewrite Nat2Z.id. apply (terminate_written m m2 q b2 us x (Some c) [z]); [done|done|done|done|done|lia].
    + rewrite Nat2Z.id. replace (S (length x)) with (length (x ++ [c])) by (rewrite length_app; cbn; lia).
      apply (terminate_written m m2 q b2 us (x ++ [c]) z []); [done|done|done|by rewrite Hd2, fmap_app, <-app_assoc|done|lia].
Qed.

(** A name put behind a path. *)
Definition joined t xs : list Z := t ++ (if bool_decide (last t = Some OS_PATH_SEPARATOR) then [] else [OS_PATH_SEPARATOR]) ++ xs.
Definition path_appended t xs : list Z :=
  if bool_decide (head xs = Some OS_PATH_SEPARATOR) then path_name xs
  else match xs, t with [], _ => t | _, [] => path_name xs | _, _ => joined t xs end.

Lemma setPathName_spec m p us t xs : strings m (p :: us) → holds 1 m p t → 0 ∉ xs → Z.of_nat (length xs) + 1 < 2 ^ 31 →
  ∃ q m', setPathName (Outside (xs ++ [0])) p m = Returned (NO_ERROR, (q, m')) ∧ becomes m m' q us (path_name xs).
Proof.
  intros Hs Ht Hx Hlt. unfold setPathName, source_length. pose proof (scan_string_text xs [] Hx) as Hsc. rewrite app_nil_r in Hsc. rewrite Hsc. cbn [obind].
  apply (setPathName_len_spec m p us t (Outside (xs ++ [0])) xs Hs Ht); [|done]. apply source_outside.
Qed.

(** The part of [appendPath] that writes the name behind the path. *)
Lemma join_spec m p us t c xs : strings m (p :: us) → holds 1 m p (t ++ [c]) → Z.of_nat (length (t ++ [c])) + 1 + Z.of_nat (length xs) + 1 < 2 ^ 31 →
  ∃ q m', append_name (Z.of_nat (length (t ++ [c]))) xs p m = Returned (NO_ERROR, (q, m')) ∧ becomes m m' q us (joined (t ++ [c]) xs).
Proof.
  intros Hs Ht Hlt. unfold append_name. replace (Z.of_nat (length (t ++ [c])) + 1 + Z.of_nat (length xs)) with (Z.of_nat (length (t ++ [c]) + 1 + length xs)) by lia. rewrite u32_small by lia.
  destruct (lockBuffer_spec m p us (t ++ [c]) (length (t ++ [c]) + 1 + length xs) Hs Ht) as (q & m1 & b & -> & Hq & Ho & Hd & Hsz & Hk & Hp); [lia|]. cbn [obind].
  destruct (resized_grow (S (length (t ++ [c]) + 1 + length xs)) (t ++ [c])) as (l & Hl & Hll); [lia|]. rewrite Hl in Hd.
  assert (length (t ++ [c]) = S (length t)) as Hlt' by (rewrite length_app; cbn; lia). rewrite Hlt' in *. replace (Z.to_nat (Z.of_nat (S (length t)) - 1)) with (length t) by lia.
  rewrite (char_at_opened 1 m1 q b us (length t) c Ho) by (rewrite Hd, fmap_app, <-app_assoc, lookup_app_r, length_fmap, Nat.sub_diag by (rewrite length_fmap; lia); done). cbn [obind].
  unfold joined. rewrite last_snoc, Nat2Z.id. destruct l as [|z l]; [cbn in Hll; lia|]. cbn [length] in Hll.
  assert (∃ u m2 b2 (l2 : list (option Z)), (if negb (c =? OS_PATH_SEPARATOR) then let! m := store q (S (length t)) [Some OS_PATH_SEPARATOR] m1 in Returned (Z.of_nat (S (length t)) + 1, m) else Returned (Z.of_nat (S (length t)), m1)) = Returned (Z.of_nat (length u), m2) ∧
    u = t ++ [c] ++ (if bool_decide (Some c = Some OS_PATH_SEPARATOR) then [] else [OS_PATH_SEPARATOR]) ∧ opened 1 m2 q b2 us ∧ data b2 = (Some <$> u) ++ l2 ∧ (length xs < length l2)%nat ∧ mSize b2 = Z.of_nat (length (data b2)) ∧ mSize b2 = mSize b ∧ tkeeps 1 m m2 us ∧ plenty m2)
    as (u & m2 & b2 & l2 & -> & Hu & Ho2 & Hd2 & Hl2 & Hs2 & Hsb & Hk2 & Hp2).
  { assert (mSize b = Z.of_nat (length (data b))) as Hsb by (rewrite Hd, length_app, length_fmap, Hlt'; cbn [length]; lia).
    destruct (Z.eqb_spec c OS_PATH_SEPARATOR) as [Hc|Hc]; cbn [negb].
    - exists (t ++ [c]), m1, b, (z :: l). rewrite Hlt', bool_decide_true by congruence. split_and!; try done. cbn; lia.
    - destruct (store_middle 1 m1 q b us (Some <$> t ++ [c]) [z] [Some OS_PATH_SEPARATOR] l Ho) as (m2 & b2 & H2 & Ho2 & Hd2 & Hs2 & Hk2 & Hp2); [done|done|].
      rewrite length_fmap, Hlt' in H2. rewrite H2. cbn [obind]. exists (t ++ [c; OS_PATH_SEPARATOR]), m2, b2, l. rewrite bool_decide_false by congruence.
      split_and!; [do 2 f_equal; rewrite length_app; cbn; lia|done|done| |lia| |done|by eapply tkeeps_trans|by apply Hp2].
      + rewrite Hd2, !fmap_app. by rewrite <-!app_assoc.
      + rewrite Hs2, Hsb, Hd2, Hd, !length_app. done. }
  cbn [obind]. rewrite Nat2Z.id. rewrite <-(take_drop (S (length xs)) l2) in Hd2.
  destruct (store_middle 1 m2 q b2 us (Some <$> u) (take (S (length xs)) l2) (Some <$> (xs ++ [0])) (drop (S (length xs)) l2) Ho2 Hd2) as (m3 & b3 & H3 & Ho3 & Hd3 & Hs3 & Hk3 & Hp3).
  { rewrite length_take_le, length_fmap, length_app by lia. cbn; lia. }
  rewrite length_fmap in H3. rewrite H3. cbn [obind]. replace (Z.of_nat (length u) + Z.of_nat (length xs)) with (Z.of_nat (length (u ++ xs))) by (rewrite length_app; lia).
  destruct (unlock_written m3 q b3 us (u ++ xs) (drop (S (length xs)) l2) Ho3) as (q' & m4 & -> & Hb); [by apply Hp3| | |lia|].
  - rewrite Hd3, !fmap_app. by rewrite <-!app_assoc.
  - rewrite Hs3, Hs2, Hd3, Hd2, !length_app, length_take_le, !length_fmap, length_app by lia. cbn; lia.
  - exists q', m4. split; [done|]. rewrite Hu, <-!app_assoc in Hb. rewrite <-!app_assoc. apply (becomes_trans 1 m m3); [by eapply tkeeps_trans|done].
Qed.

Lemma appendPath_spec m p us t xs : strings m (p :: us) → holds 1 m p t → 0 ∉ xs → Z.of_nat (length t) + Z.of_nat (length xs) + 2 < 2 ^ 31 →
  ∃ q m', appendPath xs p m = Returned (NO_ERROR, (q, m')) ∧ becomes m m' q us (path_appended t xs).
Proof.
  intros Hs Ht Hx Hlt. unfold appendPath, path_appended. destruct xs as [|x xs].
  { cbn [head default negb Z.eqb]. rewrite bool_decide_false by done. exists p, m. split; [done|]. destruct t; by apply text_same. }
  cbn [head default]. unfold default, id. destruct (Z.eqb_spec x OS_PATH_SEPARATOR) as [->|Hsep]; cbn [negb].
  { rewrite bool_decide_true by done. apply (setPathName_spec m p us t); [done|done|done|lia]. }
  rewrite bool_decide_false by congruence. rewrite (size_holds 1 one_byte _ _ _ Ht). cbn [obind].
  destruct (Z.eqb_spec (Z.of_nat (length t)) 0) as [Hz|Hz].
  { destruct t; [|cbn in Hz; lia]. apply (setPathName_spec m p us []); [done|done|done|lia]. }
  destruct t as [|c t _] using rev_ind; [done|].
  destruct (join_spec m p us t c (x :: xs) Hs Ht) as (q & m' & Hj & Hb); [cbn [length] in *; lia|]. exists q, m'. split; [done|]. by destruct (t ++ [c]) eqn:E; [destruct t|].
Qed.

(** ** Formatting *)

Lemma appendFormatV_spec m p us t xs : strings m (p :: us) → holds 1 m p t → Z.of_nat (length (t ++ xs)) + 1 < 2 ^ 31 →
  ∃ q m', appendFormatV (Some xs) p m = Returned (NO_ERROR, (q, m')) ∧ becomes m m' q us (t ++ xs).
Proof.
  intros Hs Ht Hlt. unfold appendFormatV. destruct (Z.eqb_spec (Z.of_nat (length xs)) 0) as [Hz|Hz].
  { exists p, m. split; [done|]. destruct xs; [|cbn in Hz; lia]. rewrite app_nil_r. by apply text_same. }
  rewrite (size_holds 1 one_byte _ _ _ Ht). cbn [obind]. rewrite length_app in Hlt. rewrite u32_small by lia. rewrite <-Nat2Z.inj_add.
  destruct (lockBuffer_spec m p us t (length t + length xs) Hs Ht) as (q & m1 & b & -> & Hq & Ho & Hd & Hsz & Hk & Hp); [lia|]. cbn [obind]. rewrite (proj2 (Z.eqb_neq q 0)) by done.
  destruct (resized_grow (S (length t + length xs)) t) as (l & Hl & Hll); [lia|]. rewrite Hl in Hd.
  destruct (store_middle 1 m1 q b us (Some <$> t) l (Some <$> (xs ++ [0])) [] Ho) as (m2 & b2 & H2 & Ho2 & Hd2 & Hs2 & Hk2 & Hp2); [by rewrite app_nil_r|rewrite length_fmap, length_app; cbn; lia|].
  rewrite length_fmap in H2. rewrite Nat2Z.id, H2. cbn [obind]. exists q, m2. split; [done|].
  apply (becomes_close 1 m m2 q b2 us (t ++ xs)); [done| |rewrite Hs2, length_app; lia|rewrite length_app; lia|by eapply tkeeps_trans|by apply Hp2].
  rewrite Hd2, app_nil_r, !fmap_app. by rewrite <-app_assoc.
Qed.

(** ** New strings from parts of others *)

Lemma new_copy_spec m us p t : strings m us → p ∈ us → holds 1 m p t → ∃ m', new_copy p m = Returned (p, m') ∧ becomes m m' p us t.
Proof. exact (SO.share_spec 1 gEmptyString m us p t). Qed.

Lemma new_chars_len_spec m us s xs : strings m us → provides 1 m us s xs → Z.of_nat (length xs) + 1 < 2 ^ 31 →
  ∃ q m', new_chars_len s (Z.of_nat (length xs)) m = Returned (q, m') ∧ becomes m m' q us xs.
Proof.
  intros Hs Hsrc Hlt. unfold new_chars_len, or_empty. destruct (allocFromUTF8_spec m us s xs Hs Hsrc Hlt) as (q & m' & -> & Hq & Hb). cbn [obind fst].
  rewrite (proj2 (Z.eqb_neq q 0)) by done. by exists q, m'.
Qed.

Lemma new_chars_outside m us xs : strings m us → 0 ∉ xs → Z.of_nat (length xs) + 1 < 2 ^ 31 →
  ∃ q m', new_chars (Outside (xs ++ [0])) m = Returned (q, m') ∧ becomes m m' q us xs.
Proof.
  intros Hs Hx Hlt. unfold new_chars, source_length. pose proof (scan_string_text xs [] Hx) as Hsc. rewrite app_nil_r in Hsc. rewrite Hsc. cbn [obind].
  apply (new_chars_len_spec m us (Outside (xs ++ [0])) xs Hs); [|done]. apply source_outside.
Qed.

Lemma part_small m p t k n : holds 1 m p t → Z.of_nat (length (take n (drop k t))) + 1 < 2 ^ 31.
Proof. intros Ht%holds_small. rewrite length_take, length_drop. lia. Qed.

Lemma new_part m us p t k n : strings m us → p ∈ us → holds 1 m p t → (k + n ≤ length t)%nat →
  ∃ q m', new_chars_len (Inside p k) (Z.of_nat n) m = Returned (q, m') ∧ becomes m m' q us (take n (drop k t)).
Proof.
  intros Hs Hin Ht Hn. assert (length (take n (drop k t)) = n) as Hl by (rewrite length_take_le; [done|rewrite length_drop; lia]). replace (Z.of_nat n) with (Z.of_nat (length (take n (drop k t)))) by (by rewrite Hl).
  apply new_chars_len_spec; [done| |by eapply part_small]. apply (provides_inside 1 m us p t k _ (drop n (drop k t) ++ [0]) Hin Ht).
  rewrite drop_app_le by lia. by rewrite app_assoc, take_drop.
Qed.

Lemma new_rest m us p t k : strings m us → p ∈ us → holds 1 m p t → 0 ∉ t → (k ≤ length t)%nat →
  ∃ q m', new_chars (Inside p k) m = Returned (q, m') ∧ becomes m m' q us (drop k t).
Proof.
  intros Hs Hin Ht Hz Hk. unfold new_chars, source_length. rewrite (c_string_holds 1 m p t k Ht Hz Hk). cbn [obind].
  destruct (new_part m us p t k (length (drop k t)) Hs Hin Ht) as (q & m' & Hn & Hb); [rewrite length_drop; lia|]. rewrite firstn_all in Hb. by exists q, m'.
Qed.

(** ** Parts of a path *)

Definition path_leaf t : list Z := match strrchr t OS_PATH_SEPARATOR with None => t | Some k => drop (S k) t end.
Definition path_dir t : list Z := match strrchr t OS_PATH_SEPARATOR with None => [] | Some k => take k t end.
Definition extension_index t : option nat :=
  let lastSlash := match strrchr t OS_PATH_SEPARATOR with None => O | Some k => S k end in
  (λ k, lastSlash + k)%nat <$> strrchr (drop lastSlash t) 0x2e.
Definition path_extension t : list Z := match extension_index t with Some k => drop k t | None => [] end.
Definition base_path t : list Z := match extension_index t with Some k => take k t | None => t end.

Definition walk_start t : nat := if bool_decide (strchr t OS_PATH_SEPARATOR = Some O) then 1%nat else O.
Definition walk_first t : list Z :=
  match strchr (drop (walk_start t) t) OS_PATH_SEPARATOR with None => drop (walk_start t) t | Some k => take k (drop (walk_start t) t) end.
Definition walk_remains t : list Z :=
  match strchr (drop (walk_start t) t) OS_PATH_SEPARATOR with None => [] | Some k => drop (walk_start t + k + 1) t end.

Lemma new_none m us : strings m us → ∃ q m', new_chars (Outside [0]) m = Returned (q, m') ∧ becomes m m' q us [].
Proof. intros Hs. by apply (new_chars_outside m us []); [|apply not_elem_of_nil|]. Qed.

Lemma getPathLeaf_spec m us p t : strings m us → p ∈ us → holds 1 m p t → 0 ∉ t → ∃ q m', getPathLeaf p m = Returned (q, m') ∧ becomes m m' q us (path_leaf t).
Proof.
  intros Hs Hin Ht Hz. unfold getPathLeaf, path_leaf. rewrite (c_string_holds 1 m p t 0 Ht Hz) by lia. cbn [obind]. rewrite drop_0.
  destruct (strrchr t _) as [k|] eqn:E; [|destruct (new_copy_spec m us p t Hs Hin Ht) as (m' & Hn & Hb); by exists p, m'].
  apply strrchr_Some in E as (_ & _ & Hk). by apply new_rest.
Qed.

Lemma getPathDir_spec m us p t : strings m us → p ∈ us → holds 1 m p t → 0 ∉ t → ∃ q m', getPathDir p m = Returned (q, m') ∧ becomes m m' q us (path_dir t).
Proof.
  intros Hs Hin Ht Hz. unfold getPathDir, path_dir. rewrite (c_string_holds 1 m p t 0 Ht Hz) by lia. cbn [obind]. rewrite drop_0.
  destruct (strrchr t _) as [k|] eqn:E; [|by apply new_none]. apply strrchr_Some in E as (_ & _ & Hk).
  destruct (new_part m us p t 0 k Hs Hin Ht) as (q & m' & Hn & Hb); [lia|]. by exists q, m'.
Qed.

Lemma find_extension_spec m p t : holds 1 m p t → 0 ∉ t → find_extension p m = Returned (extension_index t).
Proof. intros Ht Hz. unfold find_extension, extension_index. rewrite (c_string_holds 1 m p t 0 Ht Hz) by lia. by rewrite drop_0. Qed.

Lemma extension_index_lt t k : extension_index t = Some k → (k < length t)%nat.
Proof.
  unfold extension_index. intros (j & Hj & ->)%fmap_Some. apply strrchr_Some in Hj as (_ & _ & Hj). rewrite length_drop in Hj. lia.
Qed.

Lemma getPathExtension_spec m us p t : strings m us → p ∈ us → holds 1 m p t → 0 ∉ t → ∃ q m', getPathExtension p m = Returned (q, m') ∧ becomes m m' q us (path_extension t).
Proof.
  intros Hs Hin Ht Hz. unfold getPathExtension, path_extension. rewrite (find_extension_spec m p t Ht Hz). cbn [obind].
  destruct (extension_index t) as [k|] eqn:E; [|by apply new_none]. apply extension_index_lt in E. apply new_rest; [done|done|done|done|lia].
Qed.

Lemma getBasePath_spec m us p t : strings m us → p ∈ us → holds 1 m p t → 0 ∉ t → ∃ q m', getBasePath p m = Returned (q, m') ∧ becomes m m' q us (base_path t).
Proof.
  intros Hs Hin Ht Hz. unfold getBasePath, base_path. rewrite (find_extension_spec m p t Ht Hz). cbn [obind].
  destruct (extension_index t) as [k|] eqn:E; [|destruct (new_copy_spec m us p t Hs Hin Ht) as (m' & Hn & Hb); by exists p, m'].
  apply extension_index_lt in E. destruct (new_part m us p t 0 k Hs Hin Ht) as (q & m' & Hn & Hb); [lia|]. by exists q, m'.
Qed.

(** The path is its directory, a separator and its leaf; its base and its extension. *)
Lemma path_parts t : (match strrchr t OS_PATH_SEPARATOR with
    | Some _ => t = path_dir t ++ OS_PATH_SEPARATOR :: path_leaf t
    | None => t = path_leaf t ∧ path_dir t = []
    end) ∧ (OS_PATH_SEPARATOR ∉ path_leaf t) ∧ t = base_path t ++ path_extension t ∧
  (path_extension t = [] ∨ ∃ x, path_extension t = 0x2e :: x ∧ (0x2e ∉ x) ∧ (OS_PATH_SEPARATOR ∉ x)).
Proof.
  unfold path_dir, path_leaf, base_path, path_extension. split_and!.
  - destruct (strrchr t _) as [k|] eqn:E; [|done]. by apply strrchr_Some in E as (Ht & _).
  - destruct (strrchr t _) as [k|] eqn:E; [by apply strrchr_Some in E as (_ & Ht & _)|by apply strrchr_None].
  - destruct (extension_index t); [by rewrite take_drop|by rewrite app_nil_r].
  - destruct (extension_index t) as [k|] eqn:E; [|by left]. right. revert E. unfold extension_index. set (i := match _ with None => O | Some k => S k end).
    intros (j & Hj & ->)%fmap_Some. apply strrchr_Some in Hj as (Ht & Hn & Hl). exists (drop (S j) (drop i t)). rewrite drop_drop in Ht, Hn |- *. split_and!; [|done|].
    + rewrite Nat.add_succ_r. rewrite <-drop_drop, Ht at 1. rewrite drop_app_ge by (rewrite length_take; lia). rewrite length_take_le by lia. by rewrite Nat.sub_diag, Nat.add_succ_r.
    + rewrite <-drop_drop. apply drop_not_in. subst i. destruct (strrchr t _) as [k|] eqn:E; [by apply strrchr_Some in E as (_ & H & _)|]. rewrite drop_0. by apply strrchr_None.
Qed.

Lemma strchr_lt t c k : strchr t c = Some k → t = take k t ++ c :: drop (S k) t ∧ (c ∉ take k t) ∧ (k < length t)%nat.
Proof.
  intros H. apply find_index_Some in H as ((x & Hx & He) & Hn). apply Z.eqb_eq in He as <-. split_and!; [by rewrite take_drop_middle| |by eapply lookup_lt_Some].
  intros (j & Hj)%list_elem_of_lookup. apply lookup_take_Some in Hj as [Hj Hjk]. specialize (Hn j c Hjk Hj). by rewrite Z.eqb_refl in Hn.
Qed.

(** The first part is what comes before the first separator, one at the start aside. *)
Lemma walk_parts t : (OS_PATH_SEPARATOR ∉ walk_first t) ∧
  (t = take (walk_start t) t ++ walk_first t ++ OS_PATH_SEPARATOR :: walk_remains t ∨ (t = take (walk_start t) t ++ walk_first t ∧ walk_remains t = [])) ∧
  (take (walk_start t) t = [] ∨ take (walk_start t) t = [OS_PATH_SEPARATOR]).
Proof.
  unfold walk_first, walk_remains. split_and!.
  - destruct (strchr (drop _ t) _) as [k|] eqn:E; [by apply strchr_lt in E as (_ & H & _)|]. intros (j & Hj)%list_elem_of_lookup. pose proof (proj1 (find_index_None _ _) E j _ Hj) as H. by rewrite Z.eqb_refl in H.
  - destruct (strchr (drop _ t) _) as [k|] eqn:E; [|right; by rewrite take_drop]. left. apply strchr_lt in E as (Ht & _ & _).
    rewrite <-(take_drop (walk_start t) t) at 1. rewrite Ht at 1. rewrite drop_drop. do 4 f_equal. lia.
  - unfold walk_start. case_bool_decide as H; [|by left]. right. apply strchr_lt in H as (Ht & _ & _). rewrite Ht. done.
Qed.

(** ** Searching and removing *)

Lemma strstr_Some t pat k : strstr t pat = Some k → t = take k t ++ pat ++ drop (k + length pat) t ∧ (k + length pat ≤ length t)%nat.
Proof.
  revert k. induction t as [|c t IH]; intros k; cbn [strstr]; case_bool_decide as H.
  - intros [= <-]. rewrite take_nil in H. by subst.
  - done.
  - intros [= <-]. split; [cbn [firstn app Nat.add]; rewrite H at 1; by rewrite take_drop|]. apply (f_equal length) in H. rewrite length_take in H. lia.
  - destruct (strstr t pat) as [j|]; [|done]. intros [= <-]. destruct (IH j eq_refl) as [Ht Hl]. cbn [firstn app Nat.add skipn length]. split; [by rewrite <-Ht|lia].
Qed.

Lemma strstr_first t pat k j : strstr t pat = Some k → (j < k)%nat → pat ≠ take (length pat) (drop j t).
Proof.
  revert k j. induction t as [|c t IH]; intros k j; cbn [strstr]; case_bool_decide as H; [intros [= <-]; lia|done|intros [= <-]; lia|].
  destruct (strstr t pat) as [i|]; [|done]. intros [= <-] Hj. destruct j as [|j]; [done|]. apply (IH i j); [done|lia].
Qed.

Lemma strstr_None t pat j : strstr t pat = None → pat ≠ take (length pat) (drop j t).
Proof.
  revert j. induction t as [|c t IH]; intros j; cbn [strstr]; case_bool_decide as H; [done| |done|]; [by rewrite drop_nil|].
  destruct (strstr t pat); [done|]. destruct j as [|j]; [done|]. intros _. by apply IH.
Qed.

Lemma find_spec pat m p t i : holds 1 m p t → 0 ∉ t → pat ≠ [] →
  find pat (Z.of_nat i) p m = Returned (match strstr (drop i t) pat with Some k => Z.of_nat i + Z.of_nat k | None => -1 end).
Proof.
  intros Ht Hz Hn. unfold find. rewrite (size_holds 1 one_byte _ _ _ Ht). cbn [obind]. destruct (Z.leb_spec (Z.of_nat (length t)) (Z.of_nat i)) as [Hi|Hi].
  - rewrite drop_ge by lia. cbn [strstr]. case_bool_decide as H; [by rewrite take_nil in H|done].
  - rewrite Nat2Z.id, (c_string_holds 1 m p t i Ht Hz) by lia. done.
Qed.

(** The text without the occurrences found from left to right. *)
Fixpoint remove_all (fuel : nat) (pat : list Z) t : list Z :=
  match fuel, strstr t pat with
  | S fuel, Some k => take k t ++ remove_all fuel pat (drop (k + length pat) t)
  | _, _ => t
  end.

Lemma remove_all_fuel pat t : pat ≠ [] → ∀ f f' : nat, (length t < f)%nat → (length t < f')%nat → remove_all f pat t = remove_all f' pat t.
Proof.
  intros Hn f. revert t. induction f as [|f IH]; intros t f' Hf Hf'; [lia|]. destruct f' as [|f']; [lia|]. cbn [remove_all].
  destruct (strstr t pat) as [k|] eqn:E; [|done]. f_equal. apply strstr_Some in E as [_ Hl]. assert (length pat ≠ 0)%nat by (by destruct pat).
  apply IH; rewrite length_drop; lia.
Qed.

Lemma memcpy_within_spec m q us (x y z w : list Z) : filled m q us (x ++ y ++ z ++ w) → z ≠ [] →
  ∃ m', memcpy_within true q (length x) (length x + length y) (length z) m = Returned m' ∧ filled m' q us (x ++ z ++ drop (length z) (y ++ z) ++ w) ∧ tkeeps 1 m m' us.
Proof.
  intros Hf Hn. pose proof Hf as [(b & Ho & Hd & _) _]. unfold memcpy_within. destruct (length z) as [|n] eqn:Hz; [by destruct z|]. cbn [orb]. rewrite <-Hz.
  rewrite (read_cells_opened 1 m q b us _ _ Ho) by (rewrite Hd, length_fmap, !length_app; lia). cbn [obind].
  assert (take (length z) (drop (length x + length y) (data b)) = Some <$> z) as ->.
  { rewrite Hd, <-fmap_drop, <-fmap_take. f_equal. rewrite <-!app_assoc, <-drop_drop, drop_app_length, drop_app_length. apply take_app_length. }
  destruct (filled_store m q us _ (length x) z Hf) as (m' & Hm & Hf' & Hk); [rewrite !length_app; lia|]. exists m'. split_and!; [done| |done].
  rewrite take_app_length, <-drop_drop, drop_app_length, (app_assoc y z w), (drop_app_le (y ++ z)) in Hf' by (rewrite length_app; lia). done.
Qed.

(** What comes before the next occurrence moves down over the gap [g]. *)
Lemma remove_copy m q us (x g r : list Z) k : filled m q us (x ++ g ++ r) → 0 ∉ x ++ g ++ r → (k ≤ length r)%nat →
  ∃ m' z, memcpy_within true q (length x) (length (x ++ g)) k m = Returned m' ∧ filled m' q us ((x ++ take k r) ++ z ++ drop k r) ∧
    length z = length g ∧ (0 ∉ (x ++ take k r) ++ z ++ drop k r) ∧ tkeeps 1 m m' us.
Proof.
  intros Hf Hz Hk. pose proof (take_not_in k 0 r) as Hzt. pose proof (drop_not_in k 0 r) as Hzd. destruct (decide (take k r = [])) as [He|Hne].
  - assert (k = 0%nat) as -> by (apply (f_equal length) in He; rewrite length_take in He; cbn in He; lia). exists m, g.
    rewrite take_0, drop_0, app_nil_r. split_and!; [done|done|done|done|apply tkeeps_refl].
  - assert (length (take k r) = k) as Hkl by (rewrite length_take; lia).
    destruct (memcpy_within_spec m q us x g (take k r) (drop k r)) as (m1 & Hm & Hf1 & Hk1); [by rewrite take_drop|done|].
    rewrite Hkl in Hm, Hf1. rewrite length_app. exists m1, (drop k (g ++ take k r)). split_and!; [done|by rewrite <-app_assoc|rewrite length_drop, length_app; lia| |done].
    pose proof (drop_not_in k 0 (g ++ take k r)). set_solver.
Qed.

Lemma remove_all_loop pat q us : pat ≠ [] → ∀ fuel m (x y r : list Z), filled m q us (x ++ (y ++ pat) ++ r) → 0 ∉ x ++ (y ++ pat) ++ r → (length r < fuel)%nat →
  ∃ tail m' u, remove_loop true fuel pat (Z.of_nat (length (x ++ y))) (Z.of_nat (length x)) (Z.of_nat (length (x ++ (y ++ pat) ++ r))) q m = Some (Returned (Z.of_nat tail, m')) ∧
    filled m' q us u ∧ (tail ≤ length u)%nat ∧ take tail u = x ++ remove_all fuel pat r ∧ tkeeps 1 m m' us.
Proof.
  intros Hn fuel. induction fuel as [|fuel IH]; intros m x y r Hf Hz Hfu; [lia|]. assert (length pat ≠ 0)%nat as Hpl by (by destruct pat).
  cbn [remove_loop]. rewrite (proj2 (Z.ltb_lt _ _)) by (rewrite !length_app; lia).
  replace (Z.of_nat (length (x ++ y)) + Z.of_nat (length pat)) with (Z.of_nat (length (x ++ y ++ pat))) by (rewrite !length_app; lia).
  rewrite (find_spec pat m q _ _ (filled_holds _ _ _ _ Hf) Hz Hn).
  assert (drop (length (x ++ y ++ pat)) (x ++ (y ++ pat) ++ r) = r) as -> by (rewrite (app_assoc x (y ++ pat) r); apply drop_app_length).
  cbn [remove_all]. set (k := match strstr r pat with Some k => k | None => length r end). set (next := match strstr r pat with Some k => _ | None => -1 end).
  assert (k ≤ length r)%nat as Hk by (subst k; destruct (strstr r pat) eqn:E; [apply strstr_Some in E as [_ ?]; lia|done]).
  assert ((if next <? 0 then Z.of_nat (length (x ++ (y ++ pat) ++ r)) else next) = Z.of_nat (length (x ++ y ++ pat) + k)) as ->.
  { subst next k. destruct (strstr r pat) as [k|]; [|cbn [Z.ltb Z.compare]; rewrite !length_app; lia]. rewrite (proj2 (Z.ltb_ge _ _)); lia. }
  replace (Z.of_nat (length (x ++ y ++ pat) + k) - Z.of_nat (length (x ++ y)) - Z.of_nat (length pat)) with (Z.of_nat k) by (rewrite !length_app; lia). rewrite !Nat2Z.id.
  destruct (remove_copy m q us x (y ++ pat) r k Hf Hz Hk) as (m1 & z & -> & Hf1 & Hzl & Hz1 & Hk1). rewrite length_app in Hzl.
  replace (Z.of_nat (length x) + Z.of_nat k) with (Z.of_nat (length (x ++ take k r))) by (rewrite length_app, length_take; lia).
  subst k next. destruct (strstr r pat) as [k|] eqn:E.
  - apply strstr_Some in E as [Hr Hl]. set (r' := drop (k + length pat) r) in *.
    assert (drop k r = pat ++ r') as Hdr by (rewrite Hr at 1; rewrite drop_app_ge, length_take_le, Nat.sub_diag by (rewrite ?length_take; lia); done).
    rewrite Hdr, (app_assoc z) in Hf1, Hz1. destruct (IH m1 (x ++ take k r) z r' Hf1 Hz1) as (tail & m2 & u & Hl2 & Hf2 & Ht2 & Hu2 & Hk2).
    { subst r'. rewrite length_drop. lia. }
    exists tail, m2, u. split_and!; [|done|done|by rewrite Hu2, <-app_assoc|by eapply tkeeps_trans]. rewrite <-Hl2. f_equal; rewrite !length_app, ?length_take; try lia.
    subst r'. rewrite length_drop. lia.
  - rewrite firstn_all, drop_all, app_nil_r in *. exists (length (x ++ r)), m1, ((x ++ r) ++ z). split_and!; [|done|rewrite !length_app; lia|by rewrite take_app_length|done].
    destruct fuel; cbn [remove_loop]; by rewrite (proj2 (Z.ltb_ge _ _)) by (rewrite !length_app; lia).
Qed.

Lemma removeAll_spec pat m p us t fuel : strings m (p :: us) → gEmptyString ∈ us → holds 1 m p t → 0 ∉ t → pat ≠ [] → (length t < fuel)%nat →
  ∃ found q m', removeAll true fuel pat p m = Some (Returned (found, (q, m'))) ∧ becomes m m' q us (remove_all fuel pat t) ∧ (found = true ↔ strstr t pat ≠ None).
Proof.
  intros Hs He Ht Hz Hn Hfu. unfold removeAll. change 0 with (Z.of_nat 0) at 1. rewrite (find_spec pat m p t 0 Ht Hz Hn). cbn [obind]. rewrite drop_0.
  destruct fuel as [|fuel]; [lia|]. cbn [remove_all]. destruct (strstr t pat) as [k|] eqn:E; [|exists false, p, m; split_and!; [done|by apply text_same|done]].
  rewrite (proj2 (Z.ltb_ge _ _)) by lia. rewrite (size_holds 1 one_byte _ _ _ Ht). cbn [obind].
  destruct (lock_same m p us t Hs Ht) as (q & m1 & -> & Hq & Hf & Hk). cbn [obind]. rewrite (proj2 (Z.eqb_neq q 0)) by done.
  apply strstr_Some in E as [Hr Hl]. set (r := drop (k + length pat) t) in *. assert (length (take k t) = k) as Hlk by (rewrite length_take; lia).
  destruct (remove_all_loop pat q us Hn (S fuel) m1 (take k t) [] r) as (tail & m2 & u & Hlp & Hf2 & Htl & Hu & Hk2); [by rewrite app_nil_l, <-Hr|by rewrite app_nil_l, <-Hr|subst r; rewrite length_drop; lia|].
  rewrite app_nil_l, app_nil_r, <-Hr, Hlk in Hlp. change (Z.of_nat 0 + Z.of_nat k) with (Z.of_nat k). rewrite Hlp. cbn [mbind option_bind].
  assert (becomes m m2 q us u) as Hb by (apply filled_becomes; [by eapply tkeeps_trans|done]). cbn [obind].
  destruct (unlockBuffer_size_cut m2 q us u tail) as (q' & m3 & -> & Hb3); [apply (becomes_strings m m2 q us u); [done|done|apply Hs]|by eapply filled_holds|done|].
  cbn [obind]. exists true, q', m3. split_and!; [done| |done]. rewrite Hu, (remove_all_fuel pat r Hn (S fuel) fuel) in Hb3 by (subst r; rewrite length_drop; destruct pat; [done|cbn in *; lia]).
  apply (becomes_trans 1 m m2); [by eapply tkeeps_trans|done].
Qed.

Lemma assign_spec m m1 tmp old us t value : strings m (old :: us) → value m = Returned (tmp, m1) → becomes m m1 tmp (old :: us) t →
  ∃ m', assign_remains (Some old) value m = Returned (Some tmp, m') ∧ becomes m m' tmp us t.
Proof.
  intros [Hw He H0 Hp] Hv (Hw1 & Hh1 & Hk1 & Hp1). unfold assign_remains. rewrite Hv. cbn [obind].
  assert (strings m1 (old :: tmp :: us)) as Hs1.
  { apply (strings_perm _ (tmp :: old :: us)); [apply Permutation_swap|]. split; [done|by right|by apply Hk1|done]. }
  destruct (setTo_string_spec m1 old tmp (tmp :: us) t Hs1) as (m2 & -> & Hb2); [set_solver|done|]. cbn [obind].
  destruct (release_other m1 m2 tmp tmp us t Hb2) as (r & m3 & Hr & Hb3). unfold destroy. rewrite Hr. cbn [obind]. exists m3. split; [done|].
  apply (becomes_trans 1 m m1); [|done]. intros x y Hx. apply Hk1. by right.
Qed.

(** Two new strings, one in the place of [old]. *)
Definition becomes2 m m' q r us t u : Prop := strings m' (r :: q :: us) ∧ holds 1 m' q t ∧ holds 1 m' r u ∧ tkeeps 1 m m' us.

Lemma assign_after m m1 q old us u v value : strings m (old :: us) → gEmptyString ∈ us → becomes m m1 q (old :: us) u →
  (strings m1 (q :: old :: us) → ∃ tmp m2, value m1 = Returned (tmp, m2) ∧ becomes m1 m2 tmp (q :: old :: us) v) →
  ∃ r m', assign_remains (Some old) value m1 = Returned (Some r, m') ∧ becomes2 m m' q r us u v.
Proof.
  intros Hs He Hb Hval. pose proof (becomes_strings m m1 q (old :: us) u Hb) as Hs1. destruct Hval as (tmp & m2 & Hv & Hb2); [apply Hs1; [by right|apply Hs]|].
  destruct (assign_spec m1 m2 tmp old (q :: us) v value) as (m3 & Hr & Hb3); [|done|eapply becomes_perm; [apply Permutation_swap|done]|].
  - eapply strings_perm; [apply Permutation_swap|]. apply Hs1; [by right|apply Hs].
  - exists tmp, m3. destruct Hb as (Hw1 & Hh1 & Hk1 & Hp1). pose proof Hb3 as (_ & Hh3 & Hk3 & _). split; [done|]. split_and!; [|apply Hk3; [by left|done]|done|].
    + apply (becomes_strings m1 m3 tmp (q :: us) v Hb3); [by right|apply Hk1; [by right|apply Hs]].
    + intros x y Hx Hy. apply Hk3; [by right|]. apply Hk1; [by right|done].
Qed.

Lemma walkPath_spec m p old us t : strings m (old :: us) → gEmptyString ∈ us → p ∈ old :: us → holds 1 m p t → 0 ∉ t →
  ∃ q r m', walkPath (Some old) p m = Returned (q, Some r, m') ∧ becomes2 m m' q r us (walk_first t) (walk_remains t).
Proof.
  intros Hs He Hin Ht Hz. unfold walkPath. rewrite (c_string_holds 1 m p t 0 Ht Hz) by lia. cbn [obind]. rewrite drop_0. fold (walk_start t).
  unfold walk_first, walk_remains. assert (walk_start t ≤ length t)%nat as Hst.
  { unfold walk_start. case_bool_decide as H; [|lia]. apply find_index_Some in H as ((x & Hx%lookup_lt_Some & _) & _). lia. }
  destruct (strchr (drop (walk_start t) t) _) as [k|] eqn:E.
  - assert (walk_start t + k < length t)%nat as Hlt by (apply find_index_Some in E as ((x & Hx%lookup_lt_Some & _) & _); rewrite length_drop in Hx; lia).
    destruct (new_part m _ p t (walk_start t) k Hs Hin Ht) as (q & m1 & -> & Hb); [lia|]. cbn [obind].
    destruct (assign_after m m1 q old us _ (drop (walk_start t + k + 1) t) (new_chars (Inside p (walk_start t + k + 1))) Hs He Hb) as (r & m' & -> & Hb2); [|by exists q, r, m'].
    intros Hs1. apply new_rest; [done|by right|by apply Hb|done|lia].
  - assert (∃ q m1, (if (walk_start t =? 0)%nat then new_copy p m else new_chars (Inside p (walk_start t)) m) = Returned (q, m1) ∧ becomes m m1 q (old :: us) (drop (walk_start t) t)) as (q & m1 & -> & Hb).
    { destruct (Nat.eqb_spec (walk_start t) 0) as [->|_]; [|by apply new_rest]. destruct (new_copy_spec m _ p t Hs Hin Ht) as (m1 & -> & Hb). rewrite drop_0. by exists p, m1. }
    cbn [obind]. destruct (assign_after m m1 q old us _ [] (new_chars (Outside [0])) Hs He Hb (new_none m1 _)) as (r & m' & -> & Hb2). by exists q, r, m'.
Qed.

(** ** From UTF-16 and UTF-32 *)

(** A block for the bytes that a conversion writes with their terminator. *)
Lemma converted_block m us xs : strings m us → Z.of_nat (length xs) + 1 < 2 ^ 31 →
  ∃ q m1, alloc 1 (u32 (Z.of_nat (length xs) + 1)) m = Returned (q, m1) ∧ q ≠ 0 ∧ ∃ m2, store q 0 (Some <$> (xs ++ [0])) m1 = Returned m2 ∧ becomes m m2 q us xs.
Proof.
  intros Hs Hlt. destruct (new_block_whole 1 one_byte gEmptyString m us xs (Z.of_nat (length xs) + 1) Hs) as (q & m1 & Ha & Hq & _ & Hrest); [lia|done|]. by exists q, m1.
Qed.

Lemma new_utf16_spec m us cs rest : strings m us → Forall UC.scalar cs → Z.of_nat (length cs) < 2 ^ 28 →
  ∃ q m', new_utf16 (Some (UC.utf16_all cs ++ rest)) (Z.of_nat (length (UC.utf16_all cs))) m = Returned (q, m') ∧ becomes m m' q us (UC.utf8_all cs).
Proof.
  intros Hs Hcs Hlt. unfold new_utf16, allocFromUTF16. destruct (decide (cs = [])) as [->|Hne].
  { destruct (empty_string_ok m us Hs) as (m' & He & Hb). by exists gEmptyString, m'. }
  destruct (UC.utf8_all_pos cs Hcs Hne) as [_ Hu]. rewrite (proj2 (Z.eqb_neq _ 0)) by (destruct (UC.utf16_all cs); [done|cbn; lia]).
  destruct (UC.utf16_to_utf8_text cs rest Hcs Hne Hlt) as [-> ->]. cbn [obind]. rewrite (proj2 (Z.ltb_ge _ _)) by lia. pose proof (UC.utf8_all_length cs).
  destruct (converted_block m us (UC.utf8_all cs) Hs) as (q & m1 & -> & Hq & m2 & H2 & Hb); [lia|]. cbn [obind]. rewrite (proj2 (Z.eqb_neq q 0)), H2 by done. cbn [obind]. by exists q, m2.
Qed.

Lemma new_utf32_spec m us cs rest : strings m us → Forall UC.scalar cs → Z.of_nat (length cs) < 2 ^ 28 →
  ∃ q m', new_utf32 (Some (cs ++ rest)) (Z.of_nat (length cs)) m = Returned (q, m') ∧ becomes m m' q us (UC.utf8_all cs).
Proof.
  intros Hs Hcs Hlt. unfold new_utf32, allocFromUTF32. destruct (decide (cs = [])) as [->|Hne].
  { destruct (empty_string_ok m us Hs) as (m' & He & Hb). by exists gEmptyString, m'. }
  rewrite (proj2 (Z.eqb_neq _ 0)) by (destruct cs; [done|cbn; lia]).
  destruct (UC.utf32_utf8_roundtrip false cs rest [] Hcs Hne Hlt) as (-> & -> & _). cbn [obind]. rewrite (proj2 (Z.ltb_ge _ _)) by lia. pose proof (UC.utf8_all_length cs).
  destruct (converted_block m us (UC.utf8_all cs) Hs) as (q & m1 & -> & Hq & m2 & H2 & Hb); [lia|]. cbn [obind]. rewrite (proj2 (Z.eqb_neq q 0)), H2 by done. cbn [obind]. by exists q, m2.
Qed.

(** A [String8] read as code points: as many as the text has. *)
Lemma getUtf32_text signed m p cs : holds 1 m p (UC.utf8_all cs) → Forall UC.scalar cs → cs ≠ [] → Z.of_nat (length cs) < 2 ^ 28 → getUtf32 signed p m = Returned (Some (Returned (cs ++ [0]))).
Proof.
  intros Ht Hcs Hne Hlt. unfold getUtf32, all_bytes. pose proof Ht as (b & Hb & Hd & _). unfold sb_at. rewrite Hb. cbn [oderef obind]. rewrite Hd, mapM_some.
  cbn [oderef obind]. rewrite (size_holds 1 one_byte _ _ _ Ht). cbn [obind]. do 2 f_equal. apply (UC.utf32_utf8_roundtrip signed cs [] [0] Hcs Hne Hlt).
Qed.

(** ** Programs of calls on many strings *)

Inductive call :=
  | CNew (xs : list Z) | CCopy (i : nat) | CDestroy (i : nat)
  | CSetTo (i j : nat) | CSetChars (i : nat) (xs : list Z) | CClear (i : nat)
  | CAppend (i j : nat) | CAppendChars (i : nat) (xs : list Z) | CAppendFormat (i : nat) (xs : list Z)
  | CToLower (i start len : nat) | CToUpper (i start len : nat) | CTrimSpace (i : nat) | CTrimright (i : nat) (c : Z)
  | CSetPathName (i : nat) (xs : list Z) | CAppendPath (i : nat) (xs : list Z)
  | CGetPathLeaf (i : nat) | CGetPathDir (i : nat) | CGetPathExtension (i : nat) | CGetBasePath (i : nat) | CWalkPath (i j : nat).

Definition perform (c : call) (ps : list Z) (m : memory) : outcome (Z * (list Z * memory)) :=
  match c with
  | CNew xs => new_string ps (new_chars (Outside (xs ++ [0]))) m
  | CCopy i => let! p := oderef (ps !! i) in new_string ps (new_copy p) m
  | CDestroy i => let! p := oderef (ps !! i) in let! m := destroy p m in Returned (NO_ERROR, (delete i ps, m))
  | CSetTo i j => let! o := oderef (ps !! j) in at_string ps i (setTo_string o) m
  | CSetChars i xs => at_result ps i (setTo_chars (Outside (xs ++ [0]))) m
  | CClear i => at_string ps i clear m
  | CAppend i j => let! o := oderef (ps !! j) in at_result ps i (append_string o) m
  | CAppendChars i xs => at_result ps i (append_chars (Outside (xs ++ [0]))) m
  | CAppendFormat i xs => at_result ps i (appendFormatV (Some xs)) m
  | CToLower i start len => at_result ps i (toLower (Z.of_nat start) (Z.of_nat len)) m
  | CToUpper i start len => at_result ps i (toUpper (Z.of_nat start) (Z.of_nat len)) m
  | CTrimSpace i => at_result ps i trimSpace m
  | CTrimright i c => at_result ps i (trimright c) m
  | CSetPathName i xs => at_result ps i (setPathName (Outside (xs ++ [0]))) m
  | CAppendPath i xs => at_result ps i (appendPath xs) m
  | CGetPathLeaf i => let! p := oderef (ps !! i) in new_string ps (getPathLeaf p) m
  | CGetPathDir i => let! p := oderef (ps !! i) in new_string ps (getPathDir p) m
  | CGetPathExtension i => let! p := oderef (ps !! i) in new_string ps (getPathExtension p) m
  | CGetBasePath i => let! p := oderef (ps !! i) in new_string ps (getBasePath p) m
  | CWalkPath i j =>
      let! p := oderef (ps !! i) in let! old := oderef (ps !! j) in
      let! (q, rest, m) := walkPath (Some old) p m in
      let! r := oderef rest in Returned (NO_ERROR, (q :: <[j := r]> ps, m))
  end.

Fixpoint run (cs : list call) (ps : list Z) (m : memory) : outcome (list Z * (list Z * memory)) :=
  match cs with
  | [] => Returned ([], (ps, m))
  | c :: cs => let! (status, (ps, m)) := perform c ps m in let! (l, pm) := run cs ps m in Returned (status :: l, pm)
  end.

Definition meaning (c : call) (ts : list (list Z)) : list (list Z) :=
  match c with
  | CNew xs => xs :: ts
  | CCopy i => text ts i :: ts
  | CDestroy i => delete i ts
  | CSetTo i j => <[i := text ts j]> ts
  | CSetChars i xs => <[i := xs]> ts
  | CClear i => <[i := []]> ts
  | CAppend i j => <[i := text ts i ++ text ts j]> ts
  | CAppendChars i xs | CAppendFormat i xs => <[i := text ts i ++ xs]> ts
  | CToLower i start len => <[i := converted tolower start len (text ts i)]> ts
  | CToUpper i start len => <[i := converted toupper start len (text ts i)]> ts
  | CTrimSpace i => <[i := trimmed (text ts i)]> ts
  | CTrimright i c => <[i := without_end (Z.eqb c) (text ts i)]> ts
  | CSetPathName i xs => <[i := path_name xs]> ts
  | CAppendPath i xs => <[i := path_appended (text ts i) xs]> ts
  | CGetPathLeaf i => path_leaf (text ts i) :: ts
  | CGetPathDir i => path_dir (text ts i) :: ts
  | CGetPathExtension i => path_extension (text ts i) :: ts
  | CGetBasePath i => base_path (text ts i) :: ts
  | CWalkPath i j => walk_first (text ts i) :: <[j := walk_remains (text ts i)]> ts
  end.

(** The strings that a call names are there, characters are not zero, what is put
    together is shorter than 2 GiB, and no string is appended to itself. *)
Definition proper (xs : list Z) : bool := bool_decide (0 ∉ xs) && (Z.of_nat (length xs) + 2 <? 2 ^ 31).
Definition fitting (t xs : list Z) : bool := Z.of_nat (length t) + Z.of_nat (length xs) + 2 <? 2 ^ 31.
Definition allowed (c : call) (ts : list (list Z)) : bool :=
  match c with
  | CNew xs => proper xs
  | CCopy i | CDestroy i | CClear i | CTrimSpace i | CTrimright i _ | CGetPathLeaf i | CGetPathDir i | CGetPathExtension i | CGetBasePath i => there ts i
  | CSetTo i j | CWalkPath i j => there ts i && there ts j
  | CAppend i j => there ts i && there ts j && negb (i =? j)%nat && fitting (text ts i) (text ts j)
  | CSetChars i xs | CSetPathName i xs => there ts i && proper xs
  | CAppendChars i xs | CAppendFormat i xs | CAppendPath i xs => there ts i && proper xs && fitting (text ts i) xs
  | CToLower i start len | CToUpper i start len => there ts i && (Z.of_nat start + Z.of_nat len <? 2 ^ 32)
  end.
Fixpoint all_allowed (cs : list call) (ts : list (list Z)) : bool :=
  match cs with [] => true | c :: cs => allowed c ts && all_allowed cs (meaning c ts) end.

(** One call does what it means. *)
Definition works (c : call) m ps ts : Prop := ∃ ps' m', perform c ps m = Returned (NO_ERROR, (ps', m')) ∧ values m' ps' (meaning c ts).

(** *** No zeros come in *)

Lemma no_zero_app t u : 0 ∉ t → 0 ∉ u → 0 ∉ t ++ u.
Proof. set_solver. Qed.
Lemma no_zero_without_end f t : 0 ∉ t → 0 ∉ without_end f t.
Proof. intros H. destruct (without_end_prefix f t) as (k & -> & _). by apply take_not_in. Qed.
Lemma no_zero_trimmed t : 0 ∉ t → 0 ∉ trimmed t.
Proof. intros H. apply no_zero_without_end. destruct (skip_while_suffix isspace t) as (k & -> & _). by apply drop_not_in. Qed.
Lemma no_zero_path_name t : 0 ∉ t → 0 ∉ path_name t.
Proof. unfold path_name. case_bool_decide; [apply take_not_in|done]. Qed.
Lemma no_zero_appended t u : 0 ∉ t → 0 ∉ u → 0 ∉ path_appended t u.
Proof.
  intros Ht Hu. unfold path_appended, joined. case_bool_decide; [by apply no_zero_path_name|]. destruct u as [|x u]; [by destruct t|]. destruct t as [|y t]; [by apply no_zero_path_name|].
  apply no_zero_app; [done|]. apply no_zero_app; [|done]. case_bool_decide; [apply not_elem_of_nil|]. by intros He%list_elem_of_singleton.
Qed.
Lemma no_zero_converted conv i n t : (∀ c, c ≠ 0 → conv c ≠ 0) → 0 ∉ t → 0 ∉ converted conv i n t.
Proof.
  intros Hc Ht. unfold converted. apply no_zero_app; [by apply take_not_in|]. apply no_zero_app; [|by do 2 apply drop_not_in].
  intros (c & H0 & Hin)%list_elem_of_fmap. assert (c = 0) as -> by (destruct (Z.eq_dec c 0); [done|by destruct (Hc c)]). revert Hin. by apply take_not_in, drop_not_in.
Qed.
Lemma tolower_nonzero c : c ≠ 0 → tolower c ≠ 0.
Proof. intros H. unfold tolower. destruct (Z.leb_spec 0x41 c), (Z.leb_spec c 0x5a); cbn [andb]; lia. Qed.
Lemma toupper_nonzero c : c ≠ 0 → toupper c ≠ 0.
Proof. intros H. unfold toupper. destruct (Z.leb_spec 0x61 c), (Z.leb_spec c 0x7a); cbn [andb]; lia. Qed.
Lemma no_zero_leaf t : 0 ∉ t → 0 ∉ path_leaf t.
Proof. unfold path_leaf. destruct (strrchr t _); [apply drop_not_in|done]. Qed.
Lemma no_zero_dir t : 0 ∉ t → 0 ∉ path_dir t.
Proof. unfold path_dir. destruct (strrchr t _); [apply take_not_in|intros _; apply not_elem_of_nil]. Qed.
Lemma no_zero_extension t : 0 ∉ t → 0 ∉ path_extension t.
Proof. unfold path_extension. destruct (extension_index t); [apply drop_not_in|intros _; apply not_elem_of_nil]. Qed.
Lemma no_zero_base t : 0 ∉ t → 0 ∉ base_path t.
Proof. unfold base_path. destruct (extension_index t); [apply take_not_in|done]. Qed.
Lemma no_zero_first t : 0 ∉ t → 0 ∉ walk_first t.
Proof. intros H. unfold walk_first. destruct (strchr _ _); [by apply take_not_in, drop_not_in|by apply drop_not_in]. Qed.
Lemma no_zero_remains t : 0 ∉ t → 0 ∉ walk_remains t.
Proof. intros H. unfold walk_remains. destruct (strchr _ _); [by apply drop_not_in|apply not_elem_of_nil]. Qed.

Lemma proper_spec xs : proper xs = true → (0 ∉ xs) ∧ Z.of_nat (length xs) + 2 < 2 ^ 31.
Proof. unfold proper. rewrite andb_true_iff, bool_decide_eq_true, Z.ltb_lt. done. Qed.

Lemma setTo_chars_spec m p us xs : strings m (p :: us) → 0 ∉ xs → Z.of_nat (length xs) + 1 < 2 ^ 31 →
  ∃ q m', setTo_chars (Outside (xs ++ [0])) p m = Returned (NO_ERROR, (q, m')) ∧ becomes m m' q us xs.
Proof. intros Hs Hx Hlt. unfold setTo_chars. rewrite c_source_length by done. cbn [obind]. apply setTo_chars_len_spec; [done|apply source_outside|done]. Qed.

Lemma append_chars_spec m p us t xs : strings m (p :: us) → holds 1 m p t → 0 ∉ xs → Z.of_nat (length (t ++ xs)) + 1 < 2 ^ 31 →
  ∃ q m', append_chars (Outside (xs ++ [0])) p m = Returned (NO_ERROR, (q, m')) ∧ becomes m m' q us (t ++ xs).
Proof. intros Hs Ht Hx Hlt. unfold append_chars. rewrite c_source_length by done. cbn [obind]. apply append_chars_len_spec; [done|done|apply source_outside|done]. Qed.

Lemma walk_works m ps ts i j : values m ps ts → there ts i = true → there ts j = true → works (CWalkPath i j) m ps ts.
Proof.
  intros Hv Hi Hj. destruct (values_at m ps ts i Hv Hi) as (p & Hp & Hh & Hz & _ & _). destruct (values_at m ps ts j Hv Hj) as (old & Ho & _ & _ & _ & Hs).
  unfold works, perform. rewrite Hp, Ho. cbn [oderef obind].
  destruct (walkPath_spec m p old (gEmptyString :: delete j ps) (text ts i) Hs) as (q & r & m' & -> & Hs' & Hq & Hr & Hk); [by left| |done|done|].
  { destruct (decide (i = j)) as [->|Hne]; [assert (p = old) as -> by congruence; by left|]. right. right. by eapply delete_keeps. }
  cbn [obind oderef]. eexists _, m'. split; [done|]. cbn [meaning]. pose proof Hv as [_ Ht Hpr]. split.
  - eapply strings_perm; [|exact Hs']. rewrite (insert_string_perm ps j old r Ho). solve_Permutation.
  - constructor; [done|]. apply (texts_set m m' ps ts j r _ _ Ht Hk); [by right|done].
  - constructor; [by apply no_zero_first|]. apply Forall_insert; [done|by apply no_zero_remains].
Qed.

Lemma destroy_works m ps ts i : values m ps ts → there ts i = true → works (CDestroy i) m ps ts.
Proof. exact (SO.destroy_string_works 1 gEmptyString (λ t, 0 ∉ t) m ps ts i). Qed.

(** The calls whose arguments are characters or numbers. *)
Lemma chars_works m ps ts i xs : values m ps ts → there ts i = true → proper xs = true →
  works (CSetChars i xs) m ps ts ∧ works (CSetPathName i xs) m ps ts ∧
  (fitting (text ts i) xs = true → works (CAppendChars i xs) m ps ts ∧ works (CAppendFormat i xs) m ps ts ∧ works (CAppendPath i xs) m ps ts).
Proof.
  intros Hv Hi Hx%proper_spec. destruct Hx as [Hx Hlt]. destruct (values_at m ps ts i Hv Hi) as (_ & _ & _ & Hz & _ & _).
  split_and!; [| |intros Hf; unfold fitting in Hf; apply Z.ltb_lt in Hf; split_and!]; (apply at_result_works; [done|done| |]).
  - done.
  - intros p Hh Hs. apply setTo_chars_spec; [done|done|lia].
  - by apply no_zero_path_name.
  - intros p Hh Hs. eapply setPathName_spec; [done|done|done|lia].
  - by apply no_zero_app.
  - intros p Hh Hs. apply append_chars_spec; [done|done|done|rewrite length_app; lia].
  - by apply no_zero_app.
  - intros p Hh Hs. apply appendFormatV_spec; [done|done|rewrite length_app; lia].
  - by apply no_zero_appended.
  - intros p Hh Hs. apply appendPath_spec; [done|done|done|lia].
Qed.

Lemma convert_works m ps ts i start len : values m ps ts → there ts i = true → Z.of_nat start + Z.of_nat len < 2 ^ 32 →
  works (CToLower i start len) m ps ts ∧ works (CToUpper i start len) m ps ts.
Proof.
  intros Hv Hi Hlt. destruct (values_at m ps ts i Hv Hi) as (_ & _ & _ & Hz & _ & _). split; (apply at_result_works; [done|done| |]).
  - by apply no_zero_converted; [apply tolower_nonzero|].
  - intros p Hh Hs. apply convert_spec; [done|by left|done|done].
  - by apply no_zero_converted; [apply toupper_nonzero|].
  - intros p Hh Hs. apply convert_spec; [done|by left|done|done].
Qed.

Lemma trim_works m ps ts i c : values m ps ts → there ts i = true →
  works (CTrimSpace i) m ps ts ∧ works (CTrimright i c) m ps ts ∧ works (CClear i) m ps ts.
Proof.
  intros Hv Hi. destruct (values_at m ps ts i Hv Hi) as (_ & _ & _ & Hz & _ & _).
  split_and!; [apply at_result_works; [done|done| |]|apply at_result_works; [done|done| |]|apply at_string_works; [done|done| |]].
  - by apply no_zero_trimmed.
  - intros p Hh Hs. apply trimSpace_spec; [done|by left|done|done].
  - by apply no_zero_without_end.
  - intros p Hh Hs. apply trimright_spec; [done|by left|done|done].
  - apply not_elem_of_nil.
  - intros p _ Hh Hs. apply clear_spec; [done|by left].
Qed.

Lemma parts_work m ps ts i : values m ps ts → there ts i = true →
  works (CCopy i) m ps ts ∧ works (CGetPathLeaf i) m ps ts ∧ works (CGetPathDir i) m ps ts ∧ works (CGetPathExtension i) m ps ts ∧ works (CGetBasePath i) m ps ts.
Proof.
  intros Hv Hi. unfold works, perform, meaning. split_and!.
  - apply (part_works m ps ts i id); [done|done|done|]. intros p us t Hs Hin Ht _. destruct (new_copy_spec m us p t Hs Hin Ht) as (m' & Hn & Hb). by exists p, m'.
  - apply part_works; [done|done|apply no_zero_leaf|intros p us t; apply getPathLeaf_spec].
  - apply part_works; [done|done|apply no_zero_dir|intros p us t; apply getPathDir_spec].
  - apply part_works; [done|done|apply no_zero_extension|intros p us t; apply getPathExtension_spec].
  - apply part_works; [done|done|apply no_zero_base|intros p us t; apply getBasePath_spec].
Qed.

Lemma two_works m ps ts i j : values m ps ts → there ts i = true → there ts j = true →
  works (CSetTo i j) m ps ts ∧ (i ≠ j → fitting (text ts i) (text ts j) = true → works (CAppend i j) m ps ts).
Proof.
  intros Hv Hi Hj. destruct (values_at m ps ts i Hv Hi) as (_ & _ & _ & Hzi & _ & _). destruct (values_at m ps ts j Hv Hj) as (o & Ho & Hho & Hz & _ & _).
  split; [|intros Hne Hf]; unfold works, perform; rewrite Ho; cbn [oderef obind meaning].
  - apply at_string_works; [done|done|done|]. intros p Hp Hh Hs. destruct (setTo_string_spec m p o (gEmptyString :: delete i ps) (text ts j) Hs) as (m' & Hq & Hb); [|done|by exists o, m'].
    destruct (decide (i = j)) as [->|Hne]; [assert (o = p) as -> by congruence; by left|]. right. by eapply at_delete.
  - unfold fitting in Hf. apply Z.ltb_lt in Hf. apply at_result_works; [done|done|by apply no_zero_app|]. intros p Hh Hs.
    apply append_string_spec; [done|done|by eapply at_delete|done|rewrite length_app; lia].
Qed.

Lemma call_works c m ps ts : values m ps ts → allowed c ts = true → works c m ps ts.
Proof.
  intros Hv Ha. destruct c; cbn [allowed] in Ha; rewrite ?andb_true_iff, ?negb_true_iff, ?Nat.eqb_neq, ?Z.ltb_lt in Ha.
  - apply proper_spec in Ha as [Hx Hlt]. apply new_works; [done|done|]. intros Hs. apply new_chars_outside; [done|done|lia].
  - by apply parts_work.
  - by apply destroy_works.
  - apply two_works; [done|apply Ha..].
  - apply chars_works; [done|apply Ha..].
  - by apply (trim_works m ps ts i 0).
  - apply two_works; [done|apply Ha..].
  - apply chars_works; [done|apply Ha..].
  - apply chars_works; [done|apply Ha..].
  - apply convert_works; [done|apply Ha..].
  - apply convert_works; [done|apply Ha..].
  - by apply (trim_works m ps ts i 0).
  - by apply trim_works.
  - apply chars_works; [done|apply Ha..].
  - apply chars_works; [done|apply Ha..].
  - by apply parts_work.
  - by apply parts_work.
  - by apply parts_work.
  - by apply parts_work.
  - apply walk_works; [done|apply Ha..].
Qed.

Lemma run_works cs m ps ts : values m ps ts → all_allowed cs ts = true →
  ∃ l ps' m', run cs ps m = Returned (l, (ps', m')) ∧ Forall (λ status, status = NO_ERROR) l ∧ values m' ps' (foldl (λ ts c, meaning c ts) ts cs).
Proof.
  revert m ps ts. induction cs as [|c cs IH]; intros m ps ts Hv; cbn [run all_allowed foldl]; [by exists [], ps, m|].
  intros [Ha Hr]%andb_true_iff. destruct (call_works c m ps ts Hv Ha) as (ps1 & m1 & -> & Hv1). cbn [obind].
  destruct (IH m1 ps1 _ Hv1 Hr) as (l & ps' & m' & -> & Hl & Hv'). cbn [obind]. exists (NO_ERROR :: l), ps', m'. split_and!; [done|by constructor|done].
Qed.
End S8.

(** ** The start, and the theorems *)

Lemma initialize_values ans : Forall (λ a, a = true) ans → ∃ e m, initialize_string8 (mkMem ∅ ans) = Returned (e, m) ∧ values 1 e (λ t, 0 ∉ t) m [] [].
Proof.
  intros Ha. destruct (initialize_strings 1 ans one_byte Ha) as (e & m1 & m & He & Hm & Hs). exists e, m. unfold initialize_string8. rewrite He. cbn [obind]. rewrite Hm.
  split; [done|]. by split.
Qed.

(** C9: from the start of the library on, any sequence of calls on any number of
    strings (making, copying, destroying, assigning, appending, formatting, changing
    case, trimming, setting and taking apart paths) returns without a fault as long as
    memory lasts, every call with [NO_ERROR]; every string then has the text that the
    calls give it, whichever strings shared its block before, and every block is
    counted for exactly the strings that point to it, so none leaks. *)
Theorem string8_values ans e m cs : Forall (λ a, a = true) ans → initialize_string8 (mkMem ∅ ans) = Returned (e, m) → all_allowed cs [] = true →
  ∃ l ps m', run e cs [] m = Returned (l, (ps, m')) ∧ Forall (λ status, status = NO_ERROR) l ∧
    Forall2 (holds 1 m') ps (foldl (λ ts c, meaning c ts) [] cs) ∧
    (∀ p b, heap m' !! p = Some b → mRefs b = users p (e :: ps) ∧ 0 < mRefs b).
Proof.
  intros Ha Hi Hc. destruct (initialize_values ans Ha) as (e' & m0 & Hi' & Hv). rewrite Hi in Hi'. injection Hi' as <- <-.
  destruct (run_works e cs m [] [] Hv Hc) as (l & ps & m' & Hr & Hl & Hv'). exists l, ps, m'. destruct Hv' as [[Hw _ _ _] Ht _]. split_and!; [done|done|done|].
  intros p b Hb. destruct (s_block _ _ _ _ Hw p b Hb) as [Hp Hrefs]. by apply Hrefs.
Qed.

(** Eight calls on up to four strings. *)
Definition some_calls : list call :=
  [CNew (bytes " /usr/lib "); CTrimSpace 0; CCopy 0; CAppendPath 0 (bytes "libc.SO"); CToLower 0 0 100; CGetPathExtension 0; CAppend 2 1; CDestroy 0].

Lemma string8_values_witness : ∃ e m l ps m', initialize_string8 (mkMem ∅ []) = Returned (e, m) ∧ run e some_calls [] m = Returned (l, (ps, m')) ∧
  Forall2 (holds 1 m') ps [bytes "/usr/lib/libc.so"; bytes "/usr/lib/usr/lib/libc.so"].
Proof.
  destruct (initialize_values [] (Forall_nil_2 _)) as (e & m & Hi & _).
  destruct (string8_values [] e m some_calls) as (l & ps & m' & Hr & _ & Ht & _); [constructor|exact Hi|by vm_compute|].
  exists e, m, l, ps, m'. split_and!; [exact Hi|exact Hr|]. exact Ht.
Defined.

(** The directory and the leaf of a path make up the path again with one separator
    between them, and the leaf holds none; the base path and the extension make up the
    path again, and the extension is empty or a dot with neither a dot nor a separator
    after it; the original string keeps its text, and so do all others. *)
Theorem path_getters e m us p t : strings 1 e m us → p ∈ us → holds 1 m p t → 0 ∉ t →
  ∃ qd qf qb qx m1 m2 m3 m4 dir leaf base ext,
    getPathDir e p m = Returned (qd, m1) ∧ getPathLeaf e p m1 = Returned (qf, m2) ∧ getBasePath e p m2 = Returned (qb, m3) ∧ getPathExtension e p m3 = Returned (qx, m4) ∧
    holds 1 m4 qd dir ∧ holds 1 m4 qf leaf ∧ holds 1 m4 qb base ∧ holds 1 m4 qx ext ∧ tkeeps 1 m m4 us ∧
    (OS_PATH_SEPARATOR ∈ t → t = dir ++ OS_PATH_SEPARATOR :: leaf) ∧ (OS_PATH_SEPARATOR ∉ t → t = leaf ∧ dir = []) ∧ (OS_PATH_SEPARATOR ∉ leaf) ∧
    t = base ++ ext ∧ (ext = [] ∨ ∃ x, ext = 0x2e :: x ∧ (0x2e ∉ x) ∧ (OS_PATH_SEPARATOR ∉ x)).
Proof.
  intros Hs Hin Ht Hz.
  destruct (getPathDir_spec e m us p t Hs Hin Ht Hz) as (qd & m1 & Hd & Hb1). destruct (keep_new 1 _ _ _ _ _ _ Hs Hb1) as (Hs1 & Hh1 & Hk1).
  destruct (getPathLeaf_spec e m1 (qd :: us) p t Hs1) as (qf & m2 & Hf & Hb2); [by right|by apply Hk1|done|]. destruct (keep_new 1 _ _ _ _ _ _ Hs1 Hb2) as (Hs2 & Hh2 & Hk2).
  destruct (getBasePath_spec e m2 (qf :: qd :: us) p t Hs2) as (qb & m3 & Hb & Hb3); [set_solver|apply Hk2; [by right|by apply Hk1]|done|]. destruct (keep_new 1 _ _ _ _ _ _ Hs2 Hb3) as (Hs3 & Hh3 & Hk3).
  destruct (getPathExtension_spec e m3 (qb :: qf :: qd :: us) p t Hs3) as (qx & m4 & Hx & Hb4); [set_solver|apply Hk3; [set_solver|]; apply Hk2; [by right|by apply Hk1]|done|].
  destruct (keep_new 1 _ _ _ _ _ _ Hs3 Hb4) as (Hs4 & Hh4 & Hk4). exists qd, qf, qb, qx, m1, m2, m3, m4, (path_dir t), (path_leaf t), (base_path t), (path_extension t).
  destruct (path_parts t) as (Hp & Hl & Hbx & Hex).
  split_and!; [done|done|done|done| | | |done| | | |done|done|done].
  - apply Hk4; [set_solver|]. apply Hk3; [set_solver|]. by apply Hk2; [set_solver|].
  - apply Hk4; [set_solver|]. by apply Hk3; [set_solver|].
  - by apply Hk4; [set_solver|].
  - intros x y Hxu Hy. apply Hk4; [set_solver|]. apply Hk3; [set_solver|]. apply Hk2; [set_solver|]. by apply Hk1.
  - intros Hsep. destruct (strrchr t _) eqn:E; [done|]. by apply strrchr_None in E.
  - intros Hsep. destruct (strrchr t _) as [k|] eqn:E; [|done]. destruct Hsep. apply strrchr_Some in E as (-> & _). set_solver.
Qed.

Lemma path_getters_witness : ∃ e m p m1 qd qf m4 dir leaf, initialize_string8 (mkMem ∅ []) = Returned (e, m) ∧ new_chars e (Outside (bytes "a/b.c" ++ [0])) m = Returned (p, m1) ∧
  holds 1 m4 qd dir ∧ holds 1 m4 qf leaf ∧ bytes "a/b.c" = dir ++ OS_PATH_SEPARATOR :: leaf.
Proof.
  destruct (initialize_values [] (Forall_nil_2 _)) as (e & m & Hi & [Hs _ _]).
  destruct (new_chars_outside e m [e] (bytes "a/b.c") Hs) as (p & m1 & Hn & Hb); [apply (bool_decide_eq_true_1 _); reflexivity|done|].
  destruct (keep_new 1 _ _ _ _ _ _ Hs Hb) as (Hs1 & Hh1 & _).
  destruct (path_getters e m1 [p; e] p (bytes "a/b.c") Hs1) as (qd & qf & qb & qx & n1 & n2 & n3 & n4 & dir & leaf & base & ext & Hd & Hf & Hb' & Hx & Hhd & Hhf & Hhb & Hhx & _ & Hsep & _); [by left|done|apply (bool_decide_eq_true_1 _); reflexivity|].
  exists e, m, p, m1, qd, qf, n4, dir, leaf. split_and!; [exact Hi|exact Hn|exact Hhd|exact Hhf|apply Hsep; apply (bool_decide_eq_true_1 _); reflexivity].
Defined.

(** C38: [removeAll] comes to an end for every text and every pattern that is not empty
    (with [memcpy] copying upwards), and the string becomes its old text without the
    occurrences found from left to right, the other strings keeping theirs; it answers
    whether there was one. *)
Theorem removeAll_removes e pat m p us t fuel : strings 1 e m (p :: us) → e ∈ us → holds 1 m p t → 0 ∉ t → pat ≠ [] → (length t < fuel)%nat →
  ∃ found q m', removeAll true fuel pat p m = Some (Returned (found, (q, m'))) ∧ swf 1 0 m' (q :: us) ∧ tkeeps 1 m m' us ∧ holds 1 m' q (remove_all fuel pat t) ∧
    (found = false ↔ ∀ j, pat ≠ take (length pat) (drop j t)).
Proof.
  intros Hs He Ht Hz Hn Hfu. destruct (removeAll_spec e pat m p us t fuel Hs He Ht Hz Hn Hfu) as (found & q & m' & Hr & (Hw & Hh & Hk & _) & Hf).
  exists found, q, m'. split_and!; [done|done|done|done|]. destruct (strstr t pat) as [k|] eqn:E.
  - split; [intros ->; exfalso; by assert (false = true) by (by apply Hf)|]. intros Hall. destruct (Hall k). apply strstr_Some in E as [Hr' Hl]. rewrite Hr' at 1.
    rewrite drop_app_ge, length_take_le, Nat.sub_diag by (rewrite ?length_take; lia). by rewrite drop_0, take_app_length.
  - split; [intros _ j; by apply strstr_None|]. intros _. destruct found; [|done]. by destruct (proj1 Hf).
Qed.

Lemma removeAll_removes_witness : ∃ e m p m1 found q m', initialize_string8 (mkMem ∅ []) = Returned (e, m) ∧ new_chars e (Outside (bytes "a--b-c" ++ [0])) m = Returned (p, m1) ∧
  removeAll true 9 (bytes "-") p m1 = Some (Returned (found, (q, m'))) ∧ holds 1 m' q (bytes "abc").
Proof.
  destruct (initialize_values [] (Forall_nil_2 _)) as (e & m & Hi & [Hs _ _]).
  destruct (new_chars_outside e m [e] (bytes "a--b-c") Hs) as (p & m1 & Hn & Hb); [apply (bool_decide_eq_true_1 _); reflexivity|done|].
  destruct (keep_new 1 _ _ _ _ _ _ Hs Hb) as (Hs1 & Hh1 & _).
  destruct (removeAll_removes e (bytes "-") m1 p [e] (bytes "a--b-c") 9 Hs1) as (found & q & m' & Hr & _ & _ & Hh & _); [by left|done|apply (bool_decide_eq_true_1 _); reflexivity|done|cbn; lia|].
  exists e, m, p, m1, found, q, m'. split_and!; [exact Hi|exact Hn|exact Hr|exact Hh].
Defined.

(** *** What can go wrong *)

(** C0: [removeAll] with an empty pattern does not come back for any text that is not
    empty: every search finds the pattern where the last one did. *)
Theorem removeAll_empty e m p us t fuel forward : strings 1 e m (p :: us) → holds 1 m p t → 0 ∉ t → t ≠ [] → removeAll forward fuel [] p m = None.
Proof.
  intros Hs Ht Hz Hn. assert (∀ q m, holds 1 m q t → find [] 0 q m = Returned 0) as Hfind.
  { intros q m0 Hq. unfold find. rewrite (size_holds 1 one_byte _ _ _ Hq). cbn [obind]. rewrite (proj2 (Z.leb_gt _ _)) by (destruct t; [done|cbn; lia]).
    change (Z.to_nat 0) with 0%nat. rewrite (c_string_holds 1 m0 q t 0 Hq Hz) by lia. cbn [obind]. rewrite drop_0. by destruct t. }
  unfold removeAll. rewrite (Hfind p m Ht). cbn [obind Z.ltb Z.compare]. rewrite (size_holds 1 one_byte _ _ _ Ht). cbn [obind].
  destruct (lock_same e m p us t Hs Ht) as (q & m1 & -> & Hq & Hf & Hk). cbn [obind]. rewrite (proj2 (Z.eqb_neq q 0)) by done.
  assert (∀ fuel, remove_loop forward fuel [] 0 0 (Z.of_nat (length t)) q m1 = None) as ->; [|done].
  intros f. induction f as [|f IH]; cbn [remove_loop]; rewrite (proj2 (Z.ltb_lt _ _)) by (destruct t; [done|cbn; lia]); [done|].
  change (0 + Z.of_nat (length (@nil Z))) with 0. rewrite (Hfind q m1) by (by eapply filled_holds). exact IH.
Qed.

Lemma removeAll_empty_witness : ∃ e m p m1, initialize_string8 (mkMem ∅ []) = Returned (e, m) ∧ new_chars e (Outside (bytes "a" ++ [0])) m = Returned (p, m1) ∧
  removeAll true 1000 [] p m1 = None.
Proof.
  destruct (initialize_values [] (Forall_nil_2 _)) as (e & m & Hi & [Hs _ _]).
  destruct (new_chars_outside e m [e] (bytes "a") Hs) as (p & m1 & Hn & Hb); [apply (bool_decide_eq_true_1 _); reflexivity|done|].
  destruct (keep_new 1 _ _ _ _ _ _ Hs Hb) as (Hs1 & Hh1 & _). exists e, m, p, m1. split_and!; [exact Hi|exact Hn|].
  apply (removeAll_empty e m1 p [e] (bytes "a") 1000 true Hs1); [exact Hh1|apply (bool_decide_eq_true_1 _); reflexivity|done].
Defined.

(** A string appended to itself, when nobody shares its block: the block is given to
    [realloc] first and read afterwards. *)
Theorem append_self_freed e m p us t : strings 1 e m (p :: us) → p ∉ us → holds 1 m p t → t ≠ [] → 2 * Z.of_nat (length t) + 1 < 2 ^ 31 → append_string p p m = Undefined.
Proof.
  intros [Hw _ _ Hpl] Hpu Ht Hn Hlt. destruct (head_block _ _ _ _ _ Hw) as (t' & b & Ht' & Hb & Hd & Hs & _ & _ & _ & Hr). pose proof (holds_text _ _ _ _ _ Ht Ht') as <-.
  rewrite users_zero in Hr by done. unfold append_string. rewrite (size_holds 1 one_byte _ _ _ Ht). cbn [obind]. rewrite (proj2 (Z.eqb_neq _ 0)) by (destruct t; [done|cbn; lia]).
  unfold real_append. rewrite (size_holds 1 one_byte _ _ _ Ht). cbn [obind]. rewrite u32_small by lia.
  unfold editResize, sb_at. rewrite Hb. cbn [oderef obind]. unfold onlyOwner. rewrite Hr. cbn [Z.eqb Z.add Pos.eqb].
  rewrite (proj2 (Z.eqb_neq (mSize b) _)) by (destruct t; [done|cbn [length] in *; lia]). destruct (answer_yes m Hpl) as (m1 & -> & Hh & _).
  unfold too_large, sizeof_SharedBuffer. rewrite (proj2 (Z.leb_gt _ _)) by lia. destruct (new_address m1) as [Hq0 Hqn]. set (q := fresh _) in *.
  assert (q ≠ p) as Hqp by (intros ->; rewrite Hh in Hqn; congruence). change (1 + 0 =? 1) with true. cbn [obind]. rewrite (proj2 (Z.eqb_neq q 0)), Nat2Z.id by done.
  unfold read_source. destruct (length t) eqn:E; [by destruct t|]. unfold read_cells, sb_at, set_sb. cbn [heap]. rewrite lookup_insert_ne by done. cbn [free_sb heap]. by rewrite lookup_delete_eq.
Qed.

Lemma append_self_freed_witness : ∃ e m p m1, initialize_string8 (mkMem ∅ []) = Returned (e, m) ∧ new_chars e (Outside (bytes "a" ++ [0])) m = Returned (p, m1) ∧ append_string p p m1 = Undefined.
Proof.
  destruct (initialize_values [] (Forall_nil_2 _)) as (e & m & Hi & [Hs _ _]).
  destruct (new_chars_outside e m [e] (bytes "a") Hs) as (p & m1 & Hn & Hb); [apply (bool_decide_eq_true_1 _); reflexivity|done|].
  destruct (keep_new 1 _ _ _ _ _ _ Hs Hb) as (Hs1 & Hh1 & Hk). exists e, m, p, m1. split_and!; [exact Hi|exact Hn|].
  apply (append_self_freed e m1 p [e] (bytes "a") Hs1); [|exact Hh1|done|done].
  intros ->%list_elem_of_singleton. pose proof (holds_text _ _ _ _ _ Hh1 (Hk e [] ltac:(by left) (st_none _ _ _ _ Hs))). done.
Defined.

(** A shared string cannot be locked when memory is short. *)
Lemma lock_fails m p us t : swf 1 0 m (p :: us) → p ∈ us → holds 1 m p t → head (answers m) = Some false →
  ∃ m', lockBuffer (Z.of_nat (length t)) p m = Returned (0, (p, m')) ∧ heap m' !! 0 = None.
Proof.
  intros Hw Hin Ht Ha. destruct (head_block _ _ _ _ _ Hw) as (t' & b & Ht' & Hb & Hd & Hs & Hlt & _ & _ & Hr). pose proof (holds_text _ _ _ _ _ Ht Ht') as <-.
  pose proof (users_pos p us Hin). unfold lockBuffer, editResize, sb_at. rewrite Hb. cbn [oderef obind]. unfold onlyOwner. rewrite (proj2 (Z.eqb_neq (mRefs b) 1)) by lia.
  unfold copy_out, sb_at. rewrite Hb. cbn [oderef obind]. unfold alloc, answer. destruct (answers m) as [|a l]; [done|]. injection Ha as ->. cbn [negb obind Z.eqb].
  eexists. split; [reflexivity|]. cbn. apply eq_None_not_Some. intros [c Hc]. by destruct (s_block _ _ _ _ Hw 0 c Hc).
Qed.

(** Where memory is short, changing the case of a shared string, trimming it or
    giving it a path of its own length writes through the null pointer that the buffer's
    lock returned, since none of these functions tests it. *)
Theorem unchecked_locks m p us t c xs : swf 1 0 m (p :: us) → p ∈ us → holds 1 m p t → t ≠ [] → head (answers m) = Some false → length xs = length t → (0 ∉ xs) →
  toLower 0 (Z.of_nat (length t)) p m = Undefined ∧ toUpper 0 (Z.of_nat (length t)) p m = Undefined ∧ trimSpace p m = Undefined ∧ trimright c p m = Undefined ∧
  setPathName (Outside (xs ++ [0])) p m = Undefined.
Proof.
  intros Hw Hin Ht Hn Ha Hx Hz. destruct (lock_fails m p us t Hw Hin Ht Ha) as (m' & Hl & H0). pose proof (holds_small 1 _ _ _ Ht) as Hlt.
  assert (∀ conv, convert conv 0 (Z.of_nat (length t)) p m = Undefined) as Hconv.
  { intros conv. unfold convert. rewrite (size_holds 1 one_byte _ _ _ Ht). cbn [obind]. rewrite (proj2 (Z.leb_gt _ _)) by (destruct t; [done|cbn; lia]).
    rewrite Hl. cbn [obind]. rewrite Z.add_0_l, u32_small, Z.ltb_irrefl, Nat2Z.id by lia. destruct t; [done|]. cbn [length convert_loop]. unfold char_at, sb_at. by rewrite H0. }
  split_and!; [apply Hconv|apply Hconv| | |].
  - unfold trimSpace. rewrite (size_holds 1 one_byte _ _ _ Ht). cbn [obind]. rewrite Hl. cbn [obind]. unfold sb_at. by rewrite H0.
  - unfold trimright. rewrite (size_holds 1 one_byte _ _ _ Ht). cbn [obind]. rewrite Hl. cbn [obind]. rewrite Nat2Z.id. destruct t; [done|]. cbn [length trailing]. unfold char_at, sb_at. by rewrite H0.
  - unfold setPathName. rewrite c_source_length by done. cbn [obind]. unfold setPathName_len. rewrite Hx, Hl. cbn [obind]. rewrite Nat2Z.id, <-Hx.
    pose proof (source_outside 1 m' [] xs [0] m' (tkeeps_refl 1 m' [])) as Hr. rewrite Hr. cbn [obind]. unfold store, sb_at. by rewrite H0.
Qed.

(** [vsnprintf] fails: the text loses its terminator, since the buffer is locked for
    one byte less. *)
Theorem format_failure e m p us t : strings 1 e m (p :: us) → holds 1 m p t → t ≠ [] →
  ∃ q m', appendFormatV None p m = Returned (NO_ERROR, (q, m')) ∧ ((0 ∉ t) → c_string q 0 m' = Undefined).
Proof.
  intros Hs Ht Hn. unfold appendFormatV. cbn [Z.eqb]. rewrite (size_holds 1 one_byte _ _ _ Ht). cbn [obind]. destruct t as [|c t _] using rev_ind; [done|].
  pose proof (holds_small 1 _ _ _ Ht) as Hlt. rewrite length_app, Nat.add_1_r in *. replace (u32 (Z.of_nat (S (length t)) + -1)) with (Z.of_nat (length t)) by (rewrite u32_small; lia).
  destruct (lockBuffer_spec e m p us (t ++ [c]) (length t) Hs Ht) as (q & m1 & b & -> & Hq & Ho & Hd & _); [lia|]. cbn [obind]. rewrite (proj2 (Z.eqb_neq q 0)) by done.
  exists q, m1. split; [done|]. intros Hz. unfold c_string, sb_at. rewrite (op_at _ _ _ _ _ Ho). cbn [oderef obind]. rewrite Hd, drop_0.
  unfold resized, resize_cells. rewrite length_fmap, !length_app. cbn [length]. replace (S (length t) - _)%nat with 0%nat by lia. rewrite app_nil_r, <-fmap_take, take_app_le, take_ge by (rewrite length_app; cbn; lia).
  clear -Hz. induction (t ++ [c]) as [|x l IH]; [done|]. apply not_elem_of_cons in Hz as [Hx Hl]. cbn [fmap list_fmap scan_string]. rewrite (proj2 (Z.eqb_neq x 0)) by done.
  change (list_fmap _ _ _ l) with (Some <$> l). by rewrite IH.
Qed.

(** Counting the bytes of UTF-16 takes one path through two high surrogates in a row,
    writing them another: the block is written past its end. *)
Theorem utf16_overflow : (let! (e, m) := initialize_string8 (mkMem ∅ []) in new_utf16 e (Some [0xD800; 0xD800; 0xDC00]) 3 m) = Undefined.
Proof. by vm_compute. Qed.

(** The areas of [memcpy] in [removeAll] overlap as soon as more characters follow an
    occurrence than it has. *)
Theorem removeAll_overlaps : (let! (e, m) := initialize_string8 (mkMem ∅ []) in let! (p, m) := new_chars e (Outside (bytes "abc" ++ [0])) m in
    match removeAll false 9 (bytes "a") p m with Some r => r | None => Exited end) = Undefined.
Proof. by vm_compute. Qed.

(** Two strings "a" in one block, and no more memory. *)
Definition short_memory : memory := mkMem {[1 := mkSB 2 2 [Some 0x61; Some 0]]} [false].

Lemma short_memory_strings : swf 1 0 short_memory [1; 1] ∧ holds 1 short_memory 1 [0x61].
Proof.
  assert (holds 1 short_memory 1 [0x61]) as Hh by (exists (mkSB 2 2 [Some 0x61; Some 0]); by split_and!). split; [|done]. split.
  - intros p Hp. assert (p = 1) as -> by set_solver. split; [done|]. by eexists.
  - intros p b Hb. unfold short_memory in Hb. cbn [heap] in Hb. apply lookup_singleton_Some in Hb as [<- <-]. by vm_compute.
Qed.

Lemma unchecked_locks_witness : toLower 0 1 1 short_memory = Undefined ∧ trimSpace 1 short_memory = Undefined.
Proof.
  destruct short_memory_strings as [Hw Hh]. destruct (unchecked_locks short_memory 1 [1] [0x61] 0x20 [0x62] Hw) as (H1 & _ & H2 & _); [by left|exact Hh|done|reflexivity|reflexivity|apply (bool_decide_eq_true_1 _); reflexivity|].
  split; [exact H1|exact H2].
Defined.

Lemma format_failure_witness : ∃ e m p m1 q m', initialize_string8 (mkMem ∅ []) = Returned (e, m) ∧ new_chars e (Outside (bytes "ab" ++ [0])) m = Returned (p, m1) ∧
  appendFormatV None p m1 = Returned (NO_ERROR, (q, m')) ∧ c_string q 0 m' = Undefined.
Proof.
  destruct (initialize_values [] (Forall_nil_2 _)) as (e & m & Hi & [Hs _ _]).
  destruct (new_chars_outside e m [e] (bytes "ab") Hs) as (p & m1 & Hn & Hb); [apply (bool_decide_eq_true_1 _); reflexivity|done|].
  destruct (keep_new 1 _ _ _ _ _ _ Hs Hb) as (Hs1 & Hh1 & _). destruct (format_failure e m1 p [e] (bytes "ab") Hs1 Hh1) as (q & m' & Hf & Hc); [done|].
  exists e, m, p, m1, q, m'. split_and!; [exact Hi|exact Hn|exact Hf|apply Hc, (bool_decide_eq_true_1 _); reflexivity].
Defined.
End S8.
