(* ===== verification/String16.v ===== *)
(** The strings of 16-bit units of [String16.cpp]: assigning, appending, inserting,
    removing, searching, replacing and comparing.  A string is the pointer
    [mString] to the units in its block; an operation takes it with the memory and
    returns it with the memory. *)

From S2P Require Import Prelude SharedBuffer StringMem StringOps Unicode String8.

Module S16.
Import SB SM SO.

Definition tolower (c : Z) : Z := if (0x41 <=? c) && (c <=? 0x5a) then c + 32 else c.

(** The result of a function of [Unicode.v] that takes its turns by counting down; it
    never runs out of them. *)
Definition finished {A} (r : option (outcome A)) : outcome A := let! r := oderef r in r.

Section S16.
(** The static pointer [gEmptyString]. *)
Variable gEmptyString : Z.

Abbreviation size := (SM.size 2).
Abbreviation editResize := (SB.editResize 2).
Abbreviation edit := (SB.edit 2).
Abbreviation alloc := (SB.alloc 2).

Definition getEmptyString (m : memory) : outcome (Z * memory) :=
  let! m := acquire gEmptyString m in Returned (gEmptyString, m).

Definition initialize_string16 (m : memory) : outcome (Z * memory) :=
  let! (p, m) := alloc 2 m in let! m := store p 0 [Some 0] m in Returned (p, m).

Definition terminate_string16 (m : memory) : outcome memory :=
  let! (_, m) := release gEmptyString false m in Returned m.

Definition allocFromUTF8 (u8str : list Z) (u8len : Z) (m : memory) : outcome (Z * memory) :=
  if u8len =? 0 then getEmptyString m
  else
    let! u16len := finished (UC.utf8_to_utf16_length u8str u8len) in
    if u16len <? 0 then getEmptyString m
    else
      let! (buf, m) := alloc (u32 (2 * (u16len + 1))) m in
      if buf =? 0 then getEmptyString m
      else
        let! units := finished (UC.utf8_to_utf16_ u8str u8len) in
        let! m := store buf 0 (Some <$> units) m in
        Returned (buf, m).

(** ** Assigning *)

Definition setTo_string (other mString : Z) (m : memory) : outcome (Z * memory) :=
  let! m := acquire other m in let! (_, m) := release mString false m in Returned (other, m).

Definition setTo_chars_len (other : source) (len : Z) (mString : Z) (m : memory) : result Z :=
  let! (buf, m) := editResize mString (u32 ((len + 1) * 2)) m in
  if buf =? 0 then Returned (NO_MEMORY, (mString, m))
  else
    let! xs := read_source other (Z.to_nat len) m in
    let! m := store buf 0 xs m in
    let! m := store buf (Z.to_nat len) [Some 0] m in
    Returned (NO_ERROR, (buf, m)).
Definition setTo_chars (other : source) (mString : Z) (m : memory) : result Z :=
  let! len := source_length other m in setTo_chars_len other (Z.of_nat len) mString m.

(** A part of another string, [self] when it is the string itself. *)
Definition setTo_part (self : bool) (other len begin : Z) (mString : Z) (m : memory) : result Z :=
  let! N := size other m in
  if N <=? begin then
    let! (_, m) := release mString false m in let! pm := getEmptyString m in Returned (NO_ERROR, pm)
  else
    let len := if N <? u32 (begin + len) then N - begin else len in
    if (begin =? 0) && (len =? N) then let! pm := setTo_string other mString m in Returned (NO_ERROR, pm)
    else if self then Exited
    else setTo_chars_len (Inside other (Z.to_nat begin)) len mString m.

(** ** Constructors and the destructor

    Of characters: without memory for the block the process ends at an
    [ALOG_ASSERT]. *)

Definition new_empty : memory → outcome (Z * memory) := getEmptyString.
Definition new_static (m : memory) : outcome (Z * memory) :=
  let! (p, m) := alloc 2 m in let! m := store p 0 [Some 0] m in Returned (p, m).
Definition new_copy (o : Z) (m : memory) : outcome (Z * memory) := let! m := acquire o m in Returned (o, m).
Definition new_part (o len begin : Z) (m : memory) : outcome (Z * memory) :=
  let! (mString, m) := getEmptyString m in let! (_, pm) := setTo_part false o len begin mString m in Returned pm.
Definition new_chars (o : source) (m : memory) : outcome (Z * memory) :=
  let! len := source_length o m in
  let! (buf, m) := alloc (u32 ((Z.of_nat len + 1) * 2)) m in
  oassert (negb (buf =? 0))
  (if buf =? 0 then getEmptyString m
   else let! xs := read_source o (S len) m in let! m := store buf 0 xs m in Returned (buf, m)).
Definition new_chars_len (o : source) (len : Z) (m : memory) : outcome (Z * memory) :=
  let! (buf, m) := alloc (u32 ((len + 1) * 2)) m in
  oassert (negb (buf =? 0))
  (if buf =? 0 then getEmptyString m
   else
     let! xs := read_source o (Z.to_nat len) m in
     let! m := store buf 0 xs m in
     let! m := store buf (Z.to_nat len) [Some 0] m in
     Returned (buf, m)).
Definition new_utf8 (o : list Z) (len : Z) (m : memory) : outcome (Z * memory) := allocFromUTF8 o len m.
Definition destroy (mString : Z) (m : memory) : outcome memory := let! (_, m) := release mString false m in Returned m.

(** ** Appending and inserting *)

Definition append_string (other mString : Z) (m : memory) : result Z :=
  let! myLen := size mString m in
  let! otherLen := size other m in
  if myLen =? 0 then let! pm := setTo_string other mString m in Returned (NO_ERROR, pm)
  else if otherLen =? 0 then Returned (NO_ERROR, (mString, m))
  else
    let! (buf, m) := editResize mString (u32 ((myLen + otherLen + 1) * 2)) m in
    if buf =? 0 then Returned (NO_MEMORY, (mString, m))
    else
      let! xs := read_source (Inside other 0) (S (Z.to_nat otherLen)) m in
      let! m := store buf (Z.to_nat myLen) xs m in
      Returned (NO_ERROR, (buf, m)).

Definition append_chars_len (chrs : source) (otherLen : Z) (mString : Z) (m : memory) : result Z :=
  let! myLen := size mString m in
  if myLen =? 0 then let! (_, pm) := setTo_chars_len chrs otherLen mString m in Returned (NO_ERROR, pm)
  else if otherLen =? 0 then Returned (NO_ERROR, (mString, m))
  else
    let! (buf, m) := editResize mString (u32 ((myLen + otherLen + 1) * 2)) m in
    if buf =? 0 then Returned (NO_MEMORY, (mString, m))
    else
      let! xs := read_source chrs (Z.to_nat otherLen) m in
      let! m := store buf (Z.to_nat myLen) xs m in
      let! m := store buf (Z.to_nat myLen + Z.to_nat otherLen) [Some 0] m in
      Returned (NO_ERROR, (buf, m)).

Definition insert_len (pos : Z) (chrs : source) (len : Z) (mString : Z) (m : memory) : result Z :=
  let! myLen := size mString m in
  if myLen =? 0 then setTo_chars_len chrs len mString m
  else if len =? 0 then Returned (NO_ERROR, (mString, m))
  else
    let pos := if myLen <? pos then myLen else pos in
    let! (str, m) := editResize mString (u32 ((myLen + len + 1) * 2)) m in
    if str =? 0 then Returned (NO_MEMORY, (mString, m))
    else
      let! m :=
        if pos <? myLen
        then let! xs := read_cells str (Z.to_nat pos) (Z.to_nat (myLen - pos)) m in store str (Z.to_nat pos + Z.to_nat len) xs m
        else Returned m in
      let! xs := read_source chrs (Z.to_nat len) m in
      let! m := store str (Z.to_nat pos) xs m in
      let! m := store str (Z.to_nat myLen + Z.to_nat len) [Some 0] m in
      Returned (NO_ERROR, (str, m)).
Definition insert (pos : Z) (chrs : source) (mString : Z) (m : memory) : result Z :=
  let! len := source_length chrs m in insert_len pos chrs (Z.of_nat len) mString m.

(** ** Searching and comparing *)

(** The loop of [findFirst], from the unit at [i] on with [n] left. *)
Fixpoint find_up (c : Z) (p : Z) (i n : nat) (m : memory) : outcome Z :=
  match n with
  | O => Returned (-1)
  | S n => let! x := char_at p i m in if x =? c then Returned (Z.of_nat i) else find_up c p (S i) n m
  end.
Definition findFirst (c : Z) (mString : Z) (m : memory) : outcome Z :=
  let! n := size mString m in find_up c mString 0 (Z.to_nat n) m.

Fixpoint find_down (c : Z) (p : Z) (e : nat) (m : memory) : outcome Z :=
  match e with
  | O => Returned (-1)
  | S e => let! x := char_at p e m in if x =? c then Returned (Z.of_nat e) else find_down c p e m
  end.
Definition findLast (c : Z) (mString : Z) (m : memory) : outcome Z :=
  let! n := size mString m in find_down c mString (Z.to_nat n) m.

(** The units from [mString] to the end of its block. *)
Definition all_units (mString : Z) (m : memory) : outcome (list Z) :=
  let! b := sb_at mString m in oderef (mapM id (data b)).

Definition compare (mString other : Z) (m : memory) : outcome Z :=
  let! s1 := all_units mString m in let! n1 := size mString m in
  let! s2 := all_units other m in let! n2 := size other m in UC.strzcmp16 s1 n1 s2 n2.

Definition startsWith (prefix mString : Z) (m : memory) : outcome bool :=
  let! ps := size prefix m in
  let! mine := size mString m in
  if mine <? ps then Returned false
  else
    let! s1 := all_units mString m in let! s2 := all_units prefix m in
    let! d := UC.strzcmp16 s1 ps s2 ps in Returned (d =? 0).
(** [prefix]: the units with their terminator. *)
Definition startsWith_chars (prefix : list Z) (mString : Z) (m : memory) : outcome bool :=
  let! ps := UC.strlen16 prefix in
  let! mine := size mString m in
  if mine <? ps then Returned false
  else let! s1 := all_units mString m in let! d := UC.strncmp16 s1 prefix ps in Returned (d =? 0).

(** ** Replacing units *)

(** The loops of [makeLower] and [replaceAll]: units that pass the test are changed, the
    first of them after the block has been made the string's own. *)
Fixpoint change_loop (test : Z → bool) (to : Z → Z) (i n : nat) (edited : bool) (mString : Z) (m : memory) : result Z :=
  match n with
  | O => Returned (NO_ERROR, (mString, m))
  | S n =>
      let! v := char_at mString i m in
      if test v then
        let! (buf, m) := if edited then Returned (mString, m) else edit mString m in
        if buf =? 0 then Returned (NO_MEMORY, (mString, m))
        else let! m := store buf i [Some (to v)] m in change_loop test to (S i) n true buf m
      else change_loop test to (S i) n edited mString m
  end.
Definition makeLower (mString : Z) (m : memory) : result Z :=
  let! N := size mString m in change_loop (λ v, (0x41 <=? v) && (v <=? 0x5a)) tolower 0 (Z.to_nat N) false mString m.
Definition replaceAll (replaceThis withThis : Z) (mString : Z) (m : memory) : result Z :=
  let! N := size mString m in change_loop (Z.eqb replaceThis) (λ _, withThis) 0 (Z.to_nat N) false mString m.

(** ** Removing *)

Definition remove (len begin : Z) (mString : Z) (m : memory) : result Z :=
  let! N := size mString m in
  if N <=? begin then
    let! (_, m) := release mString false m in let! pm := getEmptyString m in Returned (NO_ERROR, pm)
  else
    let len := if N <? u32 (begin + len) then N - begin else len in
    if (begin =? 0) && (len =? N) then Returned (NO_ERROR, (mString, m))
    else
      let! (moved, (mString, m)) :=
        if 0 <? begin then
          let! (buf, m) := editResize mString (u32 ((N + 1) * 2)) m in
          if buf =? 0 then Returned (false, (mString, m))
          else
            let! xs := read_cells buf (Z.to_nat begin) (Z.to_nat (N - begin + 1)) m in
            let! m := store buf 0 xs m in
            Returned (true, (buf, m))
        else Returned (true, (mString, m)) in
      if negb moved then Returned (NO_MEMORY, (mString, m))
      else
        let! (buf, m) := editResize mString (u32 ((len + 1) * 2)) m in
        if buf =? 0 then Returned (NO_MEMORY, (mString, m))
        else let! m := store buf (Z.to_nat len) [Some 0] m in Returned (NO_ERROR, (buf, m)).

(** ** What the operations do to texts *)

Implicit Types (us : list Z) (xs t : list Z) (m : memory) (s : source).

(** The strings of this file: units of two bytes, the empty string of this file. *)
Abbreviation strings := (SO.strings 2 gEmptyString).
Abbreviation becomes := (SM.becomes 2).
Abbreviation filled := (SO.filled 2).

Lemma two_bytes : 0 < 2 ≤ 4.
Proof. lia. Qed.

Lemma getEmptyString_ok m us : strings m us → ∃ m', getEmptyString m = Returned (gEmptyString, m') ∧ becomes m m' gEmptyString us [].
Proof. exact (SO.getEmptyString_spec 2 gEmptyString m us). Qed.

Lemma setTo_string_ok m p o us t : strings m (p :: us) → o ∈ p :: us → holds 2 m o t → ∃ m', setTo_string o p m = Returned (o, m') ∧ becomes m m' o us t.
Proof. exact (SO.assign_string_spec 2 gEmptyString m p o us t). Qed.

Lemma setTo_chars_len_ok m p us t s xs : strings m (p :: us) → holds 2 m p t → provides 2 m us s xs → (Z.of_nat (length xs) + 1) * 2 < 2 ^ 31 →
  ∃ q m', setTo_chars_len s (Z.of_nat (length xs)) p m = Returned (NO_ERROR, (q, m')) ∧ becomes m m' q us xs.
Proof.
  intros Hs Ht Hsrc Hlt. unfold setTo_chars_len.
  destruct (overwrite_spec 2 two_bytes gEmptyString m p us t xs ((Z.of_nat (length xs) + 1) * 2) Hs Ht) as (q & m1 & -> & Hq & Hk & m2 & m3 & H2 & H3 & Hb); [lia|done|].
  cbn [obind]. rewrite (proj2 (Z.eqb_neq q 0)), Nat2Z.id, (Hsrc m1 Hk) by done. cbn [obind]. rewrite H2. cbn [obind]. rewrite H3. cbn [obind]. by exists q, m3.
Qed.

Lemma clear16_ok m p us : strings m (p :: us) → gEmptyString ∈ us →
  ∃ q m', (let! (_, m) := release p false m in let! pm := getEmptyString m in Returned (NO_ERROR, pm)) = Returned (NO_ERROR, (q, m')) ∧ becomes m m' q us [].
Proof.
  intros Hs He. destruct (clear_string_spec 2 gEmptyString m p us Hs He) as (q & m' & Hc & Hb). exists q, m'. split; [|done]. revert Hc. unfold clear_string.
  destruct (release p false m) as [[r m1]| |]; cbn [obind]; [|done|done]. unfold SO.getEmptyString, share, getEmptyString. by intros ->.
Qed.

(** The part of a text from [begin] on, of [len] units at most. *)
Definition part (len begin : nat) t : list Z := take len (drop begin t).

Lemma part_length len begin t : (begin < length t)%nat → Z.of_nat begin + Z.of_nat len < 2 ^ 32 →
  (if Z.of_nat (length t) <? u32 (Z.of_nat begin + Z.of_nat len) then Z.of_nat (length t) - Z.of_nat begin else Z.of_nat len) = Z.of_nat (length (part len begin t)).
Proof.
  intros Hb Hlt. rewrite u32_small by lia. unfold part. rewrite length_take, length_drop. destruct (Z.ltb_spec (Z.of_nat (length t)) (Z.of_nat begin + Z.of_nat len)); lia.
Qed.

Lemma part_whole len begin t : (begin < length t)%nat → (Z.of_nat begin =? 0) && (Z.of_nat (length (part len begin t)) =? Z.of_nat (length t)) = true → part len begin t = t.
Proof.
  intros Hb. rewrite andb_true_iff, !Z.eqb_eq. intros [H0 Hl]. assert (begin = 0%nat) as -> by lia. unfold part in *. rewrite drop_0 in *. rewrite length_take in Hl. apply take_ge. lia.
Qed.

Lemma setTo_part_ok (self : bool) m p o us t u len begin : strings m (p :: us) → gEmptyString ∈ us → holds 2 m p t → (if self then o = p else o ∈ us) → holds 2 m o u →
  Z.of_nat begin + Z.of_nat len < 2 ^ 32 → (self = true → (length u ≤ begin)%nat ∨ begin = 0%nat ∧ (length u ≤ len)%nat) →
  ∃ q m', setTo_part self o (Z.of_nat len) (Z.of_nat begin) p m = Returned (NO_ERROR, (q, m')) ∧ becomes m m' q us (part len begin u).
Proof.
  intros Hs He Ht Ho Hu Hlt Hself. unfold setTo_part. rewrite (size_holds 2 two_bytes _ _ _ Hu). cbn [obind].
  destruct (Z.leb_spec (Z.of_nat (length u)) (Z.of_nat begin)) as [Hb|Hb].
  { unfold part. rewrite drop_ge, take_nil by lia. by apply clear16_ok. }
  rewrite part_length by lia. pose proof (holds_small 2 m o u Hu) as Hsm.
  assert (length (part len begin u) ≤ length u)%nat as Hle by (unfold part; rewrite length_take, length_drop; lia).
  destruct (_ && _) eqn:Hw.
  - destruct (setTo_string_ok m p o us u Hs) as (m' & -> & Hb'); [destruct self; [subst; by left|by right]|done|]. cbn [obind]. exists o, m'. split; [done|].
    rewrite part_whole; [done|lia|done].
  - destruct self; [exfalso; destruct (Hself eq_refl) as [|[-> Hl]]; [lia|]; unfold part in Hw; rewrite drop_0, take_ge, (Z.eqb_refl (Z.of_nat (length u))) in Hw by lia; done|].
    rewrite Nat2Z.id. apply (setTo_chars_len_ok m p us t); [done|done| |lia]. apply (provides_inside 2 m us o u begin _ (drop len (drop begin u) ++ [0]) Ho Hu).
    unfold part. rewrite drop_app_le by lia. by rewrite app_assoc, take_drop.
Qed.

(** ** New strings *)

Lemma new_copy_ok m us p t : strings m us → p ∈ us → holds 2 m p t → ∃ m', new_copy p m = Returned (p, m') ∧ becomes m m' p us t.
Proof. exact (SO.share_spec 2 gEmptyString m us p t). Qed.

Lemma new_chars_len_ok m us s xs : strings m us → provides 2 m us s xs → (Z.of_nat (length xs) + 1) * 2 < 2 ^ 31 →
  ∃ q m', new_chars_len s (Z.of_nat (length xs)) m = Returned (q, m') ∧ becomes m m' q us xs.
Proof.
  intros Hs Hsrc Hlt. unfold new_chars_len.
  destruct (new_block 2 two_bytes gEmptyString m us xs ((Z.of_nat (length xs) + 1) * 2) Hs) as (p & m1 & -> & Hp0 & Hk & m2 & m3 & H2 & H3 & Hb); [lia|done|].
  cbn [obind]. rewrite (proj2 (Z.eqb_neq p 0)), Nat2Z.id, (Hsrc m1 Hk) by done. cbn [obind]. rewrite H2. cbn [obind]. rewrite H3. cbn [obind]. by exists p, m3.
Qed.

Lemma new_chars_ok m us xs : strings m us → 0 ∉ xs → (Z.of_nat (length xs) + 1) * 2 < 2 ^ 31 →
  ∃ q m', new_chars (Outside (xs ++ [0])) m = Returned (q, m') ∧ becomes m m' q us xs.
Proof.
  intros Hs Hx Hlt. unfold new_chars. rewrite c_source_length by done. cbn [obind].
  destruct (new_block_whole 2 two_bytes gEmptyString m us xs ((Z.of_nat (length xs) + 1) * 2) Hs) as (p & m1 & -> & Hp0 & Hk & m2 & H2 & Hb); [lia|done|].
  cbn [obind]. rewrite (proj2 (Z.eqb_neq p 0)) by done. cbn [read_source]. rewrite length_app. cbn [length]. rewrite Nat.add_1_r, Nat.leb_refl.
  rewrite take_ge by (rewrite length_app; cbn; lia). cbn [obind]. rewrite H2. cbn [obind]. by exists p, m2.
Qed.

Lemma new_part_ok m us o u len begin : strings m us → o ∈ us → holds 2 m o u → Z.of_nat begin + Z.of_nat len < 2 ^ 32 →
  ∃ q m', new_part o (Z.of_nat len) (Z.of_nat begin) m = Returned (q, m') ∧ becomes m m' q us (part len begin u).
Proof.
  intros Hs Ho Hu Hlt. unfold new_part. destruct (getEmptyString_ok m us Hs) as (m1 & -> & Hb). cbn [obind].
  destruct (keep_new 2 gEmptyString m m1 gEmptyString us [] Hs Hb) as (Hs1 & Hh1 & Hk1).
  destruct (setTo_part_ok false m1 gEmptyString o us [] u len begin Hs1) as (q & m2 & -> & Hb2); [apply Hs|done|done|by apply Hk1|done|done|].
  cbn [obind]. exists q, m2. split; [done|]. by apply (becomes_trans 2 m m1).
Qed.

(** The units of a text in UTF-8. *)
Lemma new_utf8_ok m us cs rest : strings m us → Forall UC.scalar cs → Z.of_nat (length cs) < 2 ^ 28 →
  ∃ q m', new_utf8 (UC.utf8_all cs ++ rest) (Z.of_nat (length (UC.utf8_all cs))) m = Returned (q, m') ∧ becomes m m' q us (UC.utf16_all cs).
Proof.
  intros Hs Hcs Hlt. unfold new_utf8, allocFromUTF8. destruct (decide (cs = [])) as [->|Hne]; [destruct (getEmptyString_ok m us Hs) as (m1 & He & Hb); by exists gEmptyString, m1|].
  destruct (UC.utf8_all_pos cs Hcs Hne) as [Hn _]. rewrite (proj2 (Z.eqb_neq _ 0)) by (destruct (UC.utf8_all cs); [done|cbn; lia]).
  destruct (UC.utf8_to_utf16_text cs rest Hcs Hlt) as [H1 H2]. rewrite H1, H2. cbn [finished oderef obind]. rewrite (proj2 (Z.ltb_ge _ _)) by lia.
  pose proof (UC.utf16_all_length cs).
  destruct (new_block_whole 2 two_bytes gEmptyString m us (UC.utf16_all cs) (2 * (Z.of_nat (length (UC.utf16_all cs)) + 1)) Hs) as (p & m1 & -> & Hp0 & Hk & m2 & Hm2 & Hb); [lia|lia|].
  cbn [obind]. rewrite (proj2 (Z.eqb_neq p 0)) by done. rewrite Hm2. cbn [obind]. by exists p, m2.
Qed.

(** ** Appending and inserting *)

Lemma append_string_ok m p o us t u : strings m (p :: us) → holds 2 m p t → o ∈ us → holds 2 m o u → (Z.of_nat (length (t ++ u)) + 1) * 2 < 2 ^ 31 →
  ∃ q m', append_string o p m = Returned (NO_ERROR, (q, m')) ∧ becomes m m' q us (t ++ u).
Proof.
  intros Hs Ht Ho Hu Hlt. unfold append_string. rewrite (size_holds 2 two_bytes _ _ _ Ht), (size_holds 2 two_bytes _ _ _ Hu). cbn [obind]. rewrite length_app in Hlt.
  destruct (Z.eqb_spec (Z.of_nat (length t)) 0) as [Hz|Hz].
  { destruct (setTo_string_ok m p o us u Hs) as (m' & -> & Hb); [by right|done|]. exists o, m'. destruct t; [done|cbn in Hz; lia]. }
  destruct (Z.eqb_spec (Z.of_nat (length u)) 0) as [Hu0|Hu0].
  { exists p, m. split; [done|]. destruct u; [|cbn in Hu0; lia]. rewrite app_nil_r. by apply (text_same 2 gEmptyString). }
  destruct (extend_spec 2 two_bytes gEmptyString m p us t (length u) ((Z.of_nat (length t) + Z.of_nat (length u) + 1) * 2) Hs Ht) as (q & m1 & b & l & -> & Hq & Hop & Hd & Hl & Hsz & Hk & Hp); [lia|lia|].
  cbn [obind]. rewrite (proj2 (Z.eqb_neq q 0)), !Nat2Z.id by done. assert (length (u ++ [0]) = S (length u)) as Hlu by (rewrite length_app; cbn; lia).
  pose proof (provides_inside 2 m us o u 0 (u ++ [0]) [] Ho Hu ltac:(by rewrite app_nil_r) m1 Hk) as Hr. rewrite Hlu in Hr. rewrite Hr. cbn [obind].
  destruct (store_middle 2 m1 q b us (Some <$> t) l (Some <$> (u ++ [0])) [] Hop) as (m2 & b2 & H2 & Ho2 & Hd2 & Hs2 & Hk2 & Hp2); [by rewrite app_nil_r|by rewrite length_fmap, Hlu|].
  rewrite length_fmap in H2. rewrite H2. cbn [obind]. exists q, m2. split; [done|].
  apply (becomes_close 2 m m2 q b2 us (t ++ u)); [done| |rewrite Hs2, Hsz, length_app; lia|rewrite length_app; lia|by eapply tkeeps_trans|by apply Hp2].
  rewrite Hd2, app_nil_r, <-fmap_app. by rewrite app_assoc.
Qed.

Lemma append_chars_len_ok m p us t s xs : strings m (p :: us) → holds 2 m p t → provides 2 m us s xs → (Z.of_nat (length (t ++ xs)) + 1) * 2 < 2 ^ 31 →
  ∃ q m', append_chars_len s (Z.of_nat (length xs)) p m = Returned (NO_ERROR, (q, m')) ∧ becomes m m' q us (t ++ xs).
Proof.
  intros Hs Ht Hsrc Hlt. unfold append_chars_len. rewrite (size_holds 2 two_bytes _ _ _ Ht). cbn [obind]. rewrite length_app in Hlt.
  destruct (Z.eqb_spec (Z.of_nat (length t)) 0) as [Hz|Hz].
  { destruct t; [|cbn in Hz; lia]. destruct (setTo_chars_len_ok m p us [] s xs Hs Ht Hsrc) as (q & m' & -> & Hb); [lia|]. by exists q, m'. }
  destruct (Z.eqb_spec (Z.of_nat (length xs)) 0) as [Hu0|Hu0].
  { exists p, m. split; [done|]. destruct xs; [|cbn in Hu0; lia]. rewrite app_nil_r. by apply (text_same 2 gEmptyString). }
  destruct (extend_spec 2 two_bytes gEmptyString m p us t (length xs) ((Z.of_nat (length t) + Z.of_nat (length xs) + 1) * 2) Hs Ht) as (q & m1 & b & l & -> & Hq & Hop & Hd & Hl & Hsz & Hk & Hp); [lia|lia|].
  cbn [obind]. rewrite (proj2 (Z.eqb_neq q 0)), !Nat2Z.id, (Hsrc m1 Hk) by done. cbn [obind].
  destruct (fill_rest 2 m1 q b us t xs l Hop Hd) as (m2 & m3 & H2 & H3 & Hb); [lia|rewrite length_app; lia|lia|done|].
  rewrite H2. cbn [obind]. rewrite H3. cbn [obind]. exists q, m3. split; [done|]. by apply (becomes_trans 2 m m1).
Qed.

(** The units from the place of an insertion on move up. *)
Lemma insert_move m q b us (x y : list Z) (l : list (option Z)) n : opened 2 m q b us → data b = (Some <$> (x ++ y)) ++ l → length l = S n → y ≠ [] →
  ∃ m' b' (g : list (option Z)) z, (let! cells := read_cells q (length x) (length y) m in store q (length x + n) cells m) = Returned m' ∧
    opened 2 m' q b' us ∧ data b' = (Some <$> x) ++ g ++ (Some <$> y) ++ [z] ∧ length g = n ∧ mSize b' = mSize b ∧ tkeeps 2 m m' us ∧ (plenty m → plenty m').
Proof.
  intros Ho Hd Hl Hy. rewrite fmap_app, <-app_assoc in Hd. set (r := (Some <$> y) ++ l) in *.
  assert (length r = (length y + S n)%nat) as Hlr by (subst r; by rewrite length_app, length_fmap, Hl).
  rewrite (read_cells_opened 2 m q b us (length x) (length y) Ho) by (rewrite Hd, length_app, length_fmap; lia). cbn [obind].
  assert (take (length y) (drop (length x) (data b)) = Some <$> y) as ->.
  { rewrite Hd. rewrite <-(length_fmap Some x), drop_app_length. subst r. rewrite <-(length_fmap Some y). apply take_app_length. }
  destruct (exists_last (l := drop (n + length y) r)) as (l2 & z & Hz); [intros H%(f_equal length); rewrite length_drop, Hlr in H; cbn in H; lia|].
  assert (l2 = []) as ->. { apply (f_equal length) in Hz. rewrite length_drop, Hlr, length_app in Hz. cbn in Hz. destruct l2; [done|cbn in Hz; lia]. }
  assert (length (take n r) = n) as Hg by (rewrite length_take; lia).
  destruct (store_middle 2 m q b us ((Some <$> x) ++ take n r) (take (length y) (drop n r)) (Some <$> y) [z] Ho) as (m' & b' & Hm & Ho' & Hd' & Hs' & Hk & Hp).
  - rewrite Hd, <-app_assoc. f_equal. change [z] with ([] ++ [z]). rewrite <-Hz, <-drop_drop, take_drop, take_drop. done.
  - rewrite length_fmap, length_take, length_drop. lia.
  - rewrite length_app, length_fmap, Hg in Hm. exists m', b', (take n r), z. split_and!; [done|done|by rewrite Hd', <-app_assoc|done|done|done|done].
Qed.

(** The units [xs] come in at [pos], or at the end. *)
Definition inserted (pos : nat) xs t : list Z := take pos t ++ xs ++ drop pos t.

Lemma insert_len_ok m p us t s xs pos : strings m (p :: us) → holds 2 m p t → provides 2 m us s xs → (Z.of_nat (length t + length xs) + 1) * 2 < 2 ^ 31 →
  ∃ q m', insert_len (Z.of_nat pos) s (Z.of_nat (length xs)) p m = Returned (NO_ERROR, (q, m')) ∧ becomes m m' q us (inserted pos xs t).
Proof.
  intros Hs Ht Hsrc Hlt. unfold insert_len. rewrite (size_holds 2 two_bytes _ _ _ Ht). cbn [obind].
  destruct (Z.eqb_spec (Z.of_nat (length t)) 0) as [Hz|Hz].
  { destruct t; [|cbn in Hz; lia]. unfold inserted. rewrite take_nil, drop_nil, app_nil_r. apply (setTo_chars_len_ok m p us [] s xs); [done|done|done|lia]. }
  destruct (Z.eqb_spec (Z.of_nat (length xs)) 0) as [Hx0|Hx0].
  { exists p, m. split; [done|]. destruct xs; [|cbn in Hx0; lia]. unfold inserted. cbn [app]. rewrite take_drop. by apply (text_same 2 gEmptyString). }
  set (k := Nat.min pos (length t)).
  assert ((if Z.of_nat (length t) <? Z.of_nat pos then Z.of_nat (length t) else Z.of_nat pos) = Z.of_nat k) as -> by (destruct (Z.ltb_spec (Z.of_nat (length t)) (Z.of_nat pos)); lia).
  assert (inserted pos xs t = take k t ++ xs ++ drop k t) as ->.
  { unfold inserted. destruct (le_lt_dec pos (length t)); [by replace k with pos by lia|]. replace k with (length t) by lia. by rewrite !(take_ge t), !(drop_ge t) by lia. }
  destruct (extend_spec 2 two_bytes gEmptyString m p us t (length xs) ((Z.of_nat (length t) + Z.of_nat (length xs) + 1) * 2) Hs Ht) as (q & m1 & b & l & -> & Hq & Hop & Hd & Hl & Hsz & Hk & Hp); [lia|lia|].
  cbn [obind]. rewrite (proj2 (Z.eqb_neq q 0)), !Nat2Z.id by done. assert (length (take k t) = k) as Hlk by (rewrite length_take; lia).
  assert (∃ m2 b2 (g : list (option Z)) z, (if Z.of_nat k <? Z.of_nat (length t) then let! cells := read_cells q k (Z.to_nat (Z.of_nat (length t) - Z.of_nat k)) m1 in store q (k + length xs) cells m1 else Returned m1) = Returned m2 ∧
    opened 2 m2 q b2 us ∧ data b2 = (Some <$> take k t) ++ g ++ (Some <$> drop k t) ++ [z] ∧ length g = length xs ∧ mSize b2 = mSize b ∧ tkeeps 2 m1 m2 us ∧ (plenty m1 → plenty m2))
    as (m2 & b2 & g & z & -> & Ho2 & Hd2 & Hg & Hs2 & Hk2 & Hp2).
  { destruct (Z.ltb_spec (Z.of_nat k) (Z.of_nat (length t))) as [Hlt'|Hge].
    - destruct (insert_move m1 q b us (take k t) (drop k t) l (length xs) Hop) as (m2 & b2 & g & z & Hm & Hrest); [by rewrite take_drop|done|intros H%(f_equal length); rewrite length_drop in H; cbn in H; lia|].
      rewrite Hlk, length_drop in Hm. replace (Z.to_nat _) with (length t - k)%nat by lia. by exists m2, b2, g, z.
    - assert (k = length t) as -> by lia. rewrite firstn_all, drop_all. destruct (exists_last (l := l)) as (g & z & ->); [by destruct l|]. rewrite length_app in Hl. cbn in Hl.
      exists m1, b, g, z. split_and!; [done|done|done|lia|done|apply tkeeps_refl|done]. }
  cbn [obind]. rewrite (Hsrc m2) by (by eapply tkeeps_trans). cbn [obind].
  destruct (store_middle 2 m2 q b2 us (Some <$> take k t) g (Some <$> xs) ((Some <$> drop k t) ++ [z]) Ho2 Hd2) as (m3 & b3 & H3 & Ho3 & Hd3 & Hs3 & Hk3 & Hp3); [by rewrite length_fmap|].
  rewrite length_fmap, Hlk in H3. rewrite H3. cbn [obind].
  assert (length (take k t ++ xs ++ drop k t) = (length t + length xs)%nat) as Hlr by (rewrite !length_app, Hlk, length_drop; lia).
  destruct (end_here 2 m3 q b3 us (take k t ++ xs ++ drop k t) z Ho3) as (m4 & H4 & Hb4); [rewrite Hd3, !fmap_app; by rewrite <-!app_assoc|rewrite Hlr; lia|lia|by apply Hp3, Hp2|].
  rewrite Hlr in H4. rewrite H4. cbn [obind]. exists q, m4. split; [done|]. apply (becomes_trans 2 m m3); [|done]. eapply tkeeps_trans; [|exact Hk3]. by eapply tkeeps_trans.
Qed.

(** ** Searching *)

Lemma char_at_holds m p t i c : holds 2 m p t → t !! i = Some c → char_at p i m = Returned c.
Proof.
  intros (b & Hb & Hd & _) Hi. unfold char_at, sb_at. rewrite Hb. cbn [oderef obind]. rewrite Hd, list_lookup_fmap, lookup_app_l by (by eapply lookup_lt_Some). by rewrite Hi.
Qed.

Lemma find_up_spec c m p t n : ∀ i, holds 2 m p t → (i + n = length t)%nat →
  find_up c p i n m = Returned (match find_index (λ x, x =? c) (drop i t) with Some k => Z.of_nat (i + k) | None => -1 end).
Proof.
  induction n as [|n IH]; intros i Ht Hi; cbn [find_up]; [by rewrite drop_ge by lia|]. destruct (lookup_lt_is_Some_2 t i) as [x Hx]; [lia|].
  rewrite (char_at_holds _ _ _ _ _ Ht Hx), (drop_S t x i Hx). cbn [obind find_index]. destruct (Z.eqb_spec x c); [by rewrite Nat.add_0_r|].
  rewrite IH by (done || lia). destruct (find_index _ (drop (S i) t)) as [k|]; cbn; [|done]. do 2 f_equal. lia.
Qed.

Lemma findFirst_ok c m p t : holds 2 m p t → findFirst c p m = Returned (match find_index (λ x, x =? c) t with Some k => Z.of_nat k | None => -1 end).
Proof. intros Ht. unfold findFirst. rewrite (size_holds 2 two_bytes _ _ _ Ht). cbn [obind]. rewrite Nat2Z.id, (find_up_spec c m p t) by done. by rewrite drop_0. Qed.

Lemma findLast_ok c m p t : holds 2 m p t → ∃ r, findLast c p m = Returned r ∧
  ((r = -1 ∧ c ∉ t) ∨ ∃ k, r = Z.of_nat k ∧ t !! k = Some c ∧ c ∉ drop (S k) t).
Proof.
  intros Ht. unfold findLast. rewrite (size_holds 2 two_bytes _ _ _ Ht). cbn [obind]. rewrite Nat2Z.id.
  assert (∀ e, (e ≤ length t)%nat → c ∉ drop e t → ∃ r, find_down c p e m = Returned r ∧ ((r = -1 ∧ c ∉ t) ∨ ∃ k, r = Z.of_nat k ∧ t !! k = Some c ∧ c ∉ drop (S k) t)) as H.
  { intros e. induction e as [|e IH]; intros He Hn; cbn [find_down]; [exists (-1); split; [done|left; by rewrite drop_0 in Hn]|].
    destruct (lookup_lt_is_Some_2 t e) as [x Hx]; [lia|]. rewrite (char_at_holds _ _ _ _ _ Ht Hx). cbn [obind]. destruct (Z.eqb_spec x c) as [->|Hne].
    - exists (Z.of_nat e). split; [done|]. right. by exists e.
    - apply IH; [lia|]. rewrite (drop_S t x e Hx). by intros [->|?]%elem_of_cons. }
  apply H; [done|]. rewrite drop_all. apply not_elem_of_nil.
Qed.

Lemma all_units_ok m p t : holds 2 m p t → all_units p m = Returned (t ++ [0]).
Proof. intros (b & Hb & Hd & _). unfold all_units, sb_at. rewrite Hb. cbn [oderef obind]. by rewrite Hd, mapM_some. Qed.

Lemma compare_ok m p o t u : holds 2 m p t → holds 2 m o u → Forall (λ c, 0 < c) t → Forall (λ c, 0 < c) u → ∃ d, compare p o m = Returned d ∧ Z.sgn d = UC.lexicographic t u.
Proof.
  intros Ht Hu Hpt Hpu. unfold compare. rewrite (all_units_ok _ _ _ Ht), (all_units_ok _ _ _ Hu), (size_holds 2 two_bytes _ _ _ Ht), (size_holds 2 two_bytes _ _ _ Hu). cbn [obind].
  unfold UC.strzcmp16. rewrite !Nat2Z.id. destruct (UC.strzcmp16_sign (λ c, c) t u [0] [0] Hpt Hpu) as (d & Hd & Hs). exists d. by rewrite UC.fmap_id_list in Hs.
Qed.

Lemma lexicographic_zero (s1 s2 : list Z) : length s1 = length s2 → UC.lexicographic s1 s2 = 0 ↔ s1 = s2.
Proof.
  revert s2. induction s1 as [|c s1 IH]; intros [|d s2] Hl; cbn [UC.lexicographic]; try done. injection Hl as Hl.
  destruct (Z.eqb_spec c d) as [->|Hne]; [rewrite IH by done; split; [by intros ->|by intros [=]]|]. split; [lia|by intros [=]].
Qed.

Lemma startsWith_ok m p o t u : holds 2 m p t → holds 2 m o u → Forall (λ c, 0 < c) t → Forall (λ c, 0 < c) u →
  ∃ r, startsWith o p m = Returned r ∧ (r = true ↔ u = take (length u) t).
Proof.
  intros Ht Hu Hpt Hpu. unfold startsWith. rewrite (size_holds 2 two_bytes _ _ _ Ht), (size_holds 2 two_bytes _ _ _ Hu). cbn [obind].
  destruct (Z.ltb_spec (Z.of_nat (length t)) (Z.of_nat (length u))) as [Hl|Hl].
  { exists false. split; [done|]. split; [done|]. intros He. apply (f_equal length) in He. rewrite length_take in He. lia. }
  rewrite (all_units_ok _ _ _ Ht), (all_units_ok _ _ _ Hu). cbn [obind]. assert (length (take (length u) t) = length u) as Hlt by (rewrite length_take; lia).
  unfold UC.strzcmp16. rewrite Nat2Z.id. replace (t ++ [0]) with (take (length u) t ++ drop (length u) t ++ [0]) by (by rewrite app_assoc, take_drop).
  destruct (UC.strzcmp16_sign (λ c, c) (take (length u) t) u (drop (length u) t ++ [0]) [0]) as (d & Hr & Hd); [by apply Forall_take|done|]. rewrite Hlt in Hr. rewrite Hr. cbn [obind].
  exists (d =? 0). split; [done|]. rewrite UC.fmap_id_list in Hd. rewrite Z.eqb_eq, <-Z.sgn_null_iff, Hd, lexicographic_zero by done. split; intros H; by symmetry.
Qed.

(** ** Replacing units *)

Definition changed (test : Z → bool) (to : Z → Z) t : list Z := (λ v, if test v then to v else v) <$> t.

Lemma filled_nz m q us u : filled m q us u → q ≠ 0.
Proof. intros [(b & Ho & _) _]. apply (op_nz _ _ _ _ _ Ho). Qed.

Lemma change_own test to q us l2 : ∀ m l1, filled m q us (l1 ++ l2) →
  ∃ m', change_loop test to (length l1) (length l2) true q m = Returned (NO_ERROR, (q, m')) ∧ filled m' q us (l1 ++ changed test to l2) ∧ tkeeps 2 m m' us.
Proof.
  induction l2 as [|v l2 IH]; intros m l1 Hf; [exists m; split_and!; [done|done|apply tkeeps_refl]|].
  cbn [length change_loop]. rewrite (filled_char 2 _ _ _ _ (length l1) v Hf) by (rewrite lookup_app_r, Nat.sub_diag; done). cbn [obind].
  unfold changed. cbn [fmap list_fmap]. fold (changed test to l2). change (list_fmap _ _ _ l2) with (changed test to l2). destruct (test v).
  - cbn [obind]. rewrite (proj2 (Z.eqb_neq q 0)) by (by eapply filled_nz).
    destruct (filled_store_app 2 m q us l1 [v] l2 [to v] Hf) as (m1 & Hm & Hf1 & Hk1); [done|]. cbn [fmap list_fmap] in Hm. rewrite Hm. cbn [obind].
    destruct (IH m1 (l1 ++ [to v])) as (m2 & Hm2 & Hf2 & Hk2); [by rewrite <-app_assoc|]. rewrite length_app, Nat.add_1_r in Hm2. rewrite Hm2.
    exists m2. split_and!; [done|by rewrite <-app_assoc in Hf2|by eapply tkeeps_trans].
  - destruct (IH m (l1 ++ [v])) as (m2 & Hm2 & Hf2 & Hk2); [by rewrite <-app_assoc|]. rewrite length_app, Nat.add_1_r in Hm2. rewrite Hm2.
    exists m2. split_and!; [done|by rewrite <-app_assoc in Hf2|done].
Qed.

Lemma change_shared test to p us l2 : ∀ m l1, strings m (p :: us) → holds 2 m p (l1 ++ l2) →
  ∃ q m', change_loop test to (length l1) (length l2) false p m = Returned (NO_ERROR, (q, m')) ∧ becomes m m' q us (l1 ++ changed test to l2).
Proof.
  induction l2 as [|v l2 IH]; intros m l1 Hs Ht; [exists p, m; split; [done|]; by apply (text_same 2 gEmptyString)|].
  cbn [length change_loop]. rewrite (char_at_holds m p _ (length l1) v Ht) by (rewrite lookup_app_r, Nat.sub_diag; done). cbn [obind].
  unfold changed. cbn [fmap list_fmap]. fold (changed test to l2). change (list_fmap _ _ _ l2) with (changed test to l2). destruct (test v).
  - destruct (edit_string 2 two_bytes m p us (l1 ++ v :: l2)) as (q & m1 & b & -> & Ho & Hd & Hsz & Hk & Hp); [apply Hs|done|apply Hs|]. cbn [obind].
    rewrite (proj2 (Z.eqb_neq q 0)) by apply (op_nz _ _ _ _ _ Ho). pose proof (holds_small 2 m p _ Ht) as Hlt.
    assert (filled m1 q us (l1 ++ v :: l2)) as Hf by (split; [exists b; split_and!; [done|done|done|lia]|done]).
    destruct (filled_store_app 2 m1 q us l1 [v] l2 [to v] Hf) as (m2 & Hm & Hf2 & Hk2); [done|]. cbn [fmap list_fmap] in Hm. rewrite Hm. cbn [obind].
    destruct (change_own test to q us l2 m2 (l1 ++ [to v])) as (m3 & Hm3 & Hf3 & Hk3); [by rewrite <-app_assoc|]. rewrite length_app, Nat.add_1_r in Hm3. rewrite Hm3.
    exists q, m3. split; [done|]. rewrite <-app_assoc in Hf3. apply filled_becomes; [|done]. eapply tkeeps_trans; [|exact Hk3]. by eapply tkeeps_trans.
  - destruct (IH m (l1 ++ [v]) Hs) as (q & m2 & Hm2 & Hb); [by rewrite <-app_assoc|]. rewrite length_app, Nat.add_1_r in Hm2. rewrite Hm2.
    exists q, m2. split; [done|]. by rewrite <-app_assoc in Hb.
Qed.

Lemma makeLower_ok m p us t : strings m (p :: us) → holds 2 m p t →
  ∃ q m', makeLower p m = Returned (NO_ERROR, (q, m')) ∧ becomes m m' q us (tolower <$> t).
Proof.
  intros Hs Ht. unfold makeLower. rewrite (size_holds 2 two_bytes _ _ _ Ht). cbn [obind]. rewrite Nat2Z.id.
  destruct (change_shared (λ v, (0x41 <=? v) && (v <=? 0x5a)) tolower p us t m [] Hs Ht) as (q & m' & Hc & Hb). exists q, m'. split; [done|].
  assert (changed (λ v, (0x41 <=? v) && (v <=? 0x5a)) tolower t = tolower <$> t) as <-; [|done]. apply list_fmap_ext. intros i v _. unfold tolower. by destruct (_ && _).
Qed.

Lemma replaceAll_ok m p us t a b : strings m (p :: us) → holds 2 m p t →
  ∃ q m', replaceAll a b p m = Returned (NO_ERROR, (q, m')) ∧ becomes m m' q us (changed (Z.eqb a) (λ _, b) t).
Proof.
  intros Hs Ht. unfold replaceAll. rewrite (size_holds 2 two_bytes _ _ _ Ht). cbn [obind]. rewrite Nat2Z.id. by apply (change_shared (Z.eqb a) (λ _, b) p us t m []).
Qed.

(** ** Removing *)

(** The units from [begin] on move to the front of the string's own block. *)
Lemma remove_move m p us t begin : strings m (p :: us) → holds 2 m p t → (0 < begin < length t)%nat →
  ∃ q m' u, (let! (buf, m) := editResize p (u32 ((Z.of_nat (length t) + 1) * 2)) m in
     if buf =? 0 then Returned (false, (p, m))
     else
       let! cells := read_cells buf begin (Z.to_nat (Z.of_nat (length t) - Z.of_nat begin + 1)) m in
       let! m := store buf 0 cells m in Returned (true, (buf, m))) = Returned (true, (q, m')) ∧ becomes m m' q us u ∧ length u = length t ∧ take (length t - begin) u = drop begin t.
Proof.
  intros Hs Ht Hb. pose proof (holds_small 2 m p _ Ht) as Hlt.
  destruct (resize_spec 2 two_bytes gEmptyString m p us t (S (length t)) ((Z.of_nat (length t) + 1) * 2) Hs Ht) as (q & m1 & b & -> & Hq & Ho & Hd & Hsz & Hk & Hp); [lia|lia|].
  rewrite resized_same in Hd. cbn [obind]. rewrite (proj2 (Z.eqb_neq q 0)) by done. set (w := drop begin t ++ [0]).
  assert (length w = (length t - begin + 1)%nat) as Hw by (subst w; rewrite length_app, length_drop; cbn; lia).
  replace (Z.to_nat _) with (length w) by lia. rewrite (read_cells_opened 2 m1 q b us begin (length w) Ho) by (rewrite Hd, length_fmap, length_app; cbn; lia). cbn [obind].
  assert (take (length w) (drop begin (data b)) = Some <$> w) as -> by (rewrite Hd, <-fmap_drop, drop_app_le by lia; rewrite take_ge; [done|by rewrite length_fmap]).
  assert (filled m1 q us t) as Hf by (split; [exists b; split_and!; [done|done|lia|lia]|done]).
  destruct (filled_store 2 m1 q us t 0 w Hf) as (m2 & -> & Hf2 & Hk2); [lia|]. cbn [obind]. eexists q, m2, _. split_and!; [done|eapply filled_becomes; [|exact Hf2]; by eapply tkeeps_trans| |].
  - rewrite take_0, app_nil_l, length_app, length_drop. lia.
  - rewrite take_0, app_nil_l. subst w. rewrite <-app_assoc. apply take_app_length'. rewrite length_drop. lia.
Qed.

Lemma remove_ok m p us t len begin : strings m (p :: us) → gEmptyString ∈ us → holds 2 m p t → Z.of_nat begin + Z.of_nat len < 2 ^ 32 →
  ∃ q m', remove (Z.of_nat len) (Z.of_nat begin) p m = Returned (NO_ERROR, (q, m')) ∧ becomes m m' q us (part len begin t).
Proof.
  intros Hs He Ht Hlt. unfold remove. rewrite (size_holds 2 two_bytes _ _ _ Ht). cbn [obind].
  destruct (Z.leb_spec (Z.of_nat (length t)) (Z.of_nat begin)) as [Hb|Hb]; [unfold part; rewrite drop_ge, take_nil by lia; by apply clear16_ok|].
  rewrite part_length by lia. destruct (_ && _) eqn:Hw; [exists p, m; split; [done|]; rewrite part_whole by (done || lia); by apply (text_same 2 gEmptyString)|].
  set (k := length (part len begin t)). assert (k ≤ length t - begin)%nat as Hk by (subst k; unfold part; rewrite length_take, length_drop; lia).
  assert (part len begin t = take k (drop begin t)) as Hpart.
  { subst k. unfold part. rewrite length_take. destruct (le_lt_dec len (length (drop begin t))); [by rewrite Nat.min_l|]. by rewrite Nat.min_r, !take_ge by lia. }
  assert (∃ q m1 u, (if 0 <? Z.of_nat begin then
      let! (buf, m) := editResize p (u32 ((Z.of_nat (length t) + 1) * 2)) m in
      if buf =? 0 then Returned (false, (p, m))
      else let! cells := read_cells buf (Z.to_nat (Z.of_nat begin)) (Z.to_nat (Z.of_nat (length t) - Z.of_nat begin + 1)) m in
           let! m := store buf 0 cells m in Returned (true, (buf, m)) else Returned (true, (p, m))) = Returned (true, (q, m1)) ∧
    becomes m m1 q us u ∧ length u = length t ∧ take (length t - begin) u = drop begin t) as (q & m1 & u & -> & Hb1 & Hlu & Hu).
  { destruct (Z.ltb_spec 0 (Z.of_nat begin)) as [H0|H0]; [rewrite Nat2Z.id; apply remove_move; [done|done|lia]|].
    assert (begin = 0%nat) as -> by lia. exists p, m, t. split_and!; [done|by apply (text_same 2 gEmptyString)|done|]. by rewrite Nat.sub_0_r, drop_0, firstn_all. }
  cbn [obind negb]. pose proof (becomes_strings 2 gEmptyString m m1 q us u Hb1 He (st_none _ _ _ _ Hs)) as Hs1. pose proof Hb1 as (_ & Hh1 & Hk1 & _).
  destruct (cut_spec 2 two_bytes gEmptyString m1 q us u k ((Z.of_nat k + 1) * 2) Hs1 Hh1) as (q2 & m2 & -> & Hq2 & m3 & H3 & Hb3); [lia|lia|].
  cbn [obind]. rewrite (proj2 (Z.eqb_neq q2 0)), Nat2Z.id, H3 by done. cbn [obind]. exists q2, m3. split; [done|].
  assert (take k u = part len begin t) as <-; [|by apply (becomes_trans 2 m m1)]. rewrite Hpart, <-Hu, take_take. f_equal. lia.
Qed.

Lemma setTo_chars_ok m p us t xs : strings m (p :: us) → holds 2 m p t → 0 ∉ xs → (Z.of_nat (length xs) + 1) * 2 < 2 ^ 31 →
  ∃ q m', setTo_chars (Outside (xs ++ [0])) p m = Returned (NO_ERROR, (q, m')) ∧ becomes m m' q us xs.
Proof. intros Hs Ht Hx Hlt. unfold setTo_chars. rewrite c_source_length by done. cbn [obind]. apply (setTo_chars_len_ok m p us t); [done|done|apply source_outside|done]. Qed.

Lemma insert_ok m p us t xs pos : strings m (p :: us) → holds 2 m p t → 0 ∉ xs → (Z.of_nat (length t + length xs) + 1) * 2 < 2 ^ 31 →
  ∃ q m', insert (Z.of_nat pos) (Outside (xs ++ [0])) p m = Returned (NO_ERROR, (q, m')) ∧ becomes m m' q us (inserted pos xs t).
Proof. intros Hs Ht Hx Hlt. unfold insert. rewrite c_source_length by done. cbn [obind]. apply insert_len_ok; [done|done|apply source_outside|done]. Qed.

(** ** Programs of calls on many strings *)

Inductive call :=
  | CNew (xs : list Z) | CNewLen (xs : list Z) | CNewUtf8 (cs : list Z) | CCopy (i : nat) | CPart (i len begin : nat) | CDestroy (i : nat)
  | CSetTo (i j : nat) | CSetPart (i j len begin : nat) | CSetChars (i : nat) (xs : list Z)
  | CAppend (i j : nat) | CAppendChars (i : nat) (xs : list Z) | CInsert (i pos : nat) (xs : list Z)
  | CMakeLower (i : nat) | CReplaceAll (i : nat) (a b : Z) | CRemove (i len begin : nat).

Definition perform (c : call) (ps : list Z) (m : memory) : outcome (Z * (list Z * memory)) :=
  match c with
  | CNew xs => new_string ps (new_chars (Outside (xs ++ [0]))) m
  | CNewLen xs => new_string ps (new_chars_len (Outside (xs ++ [])) (Z.of_nat (length xs))) m
  | CNewUtf8 cs => new_string ps (new_utf8 (UC.utf8_all cs ++ [0]) (Z.of_nat (length (UC.utf8_all cs)))) m
  | CCopy i => let! p := oderef (ps !! i) in new_string ps (new_copy p) m
  | CPart i len begin => let! p := oderef (ps !! i) in new_string ps (new_part p (Z.of_nat len) (Z.of_nat begin)) m
  | CDestroy i => let! p := oderef (ps !! i) in let! m := destroy p m in Returned (NO_ERROR, (delete i ps, m))
  | CSetTo i j => let! o := oderef (ps !! j) in at_string ps i (setTo_string o) m
  | CSetPart i j len begin => let! o := oderef (ps !! j) in at_result ps i (setTo_part (i =? j)%nat o (Z.of_nat len) (Z.of_nat begin)) m
  | CSetChars i xs => at_result ps i (setTo_chars (Outside (xs ++ [0]))) m
  | CAppend i j => let! o := oderef (ps !! j) in at_result ps i (append_string o) m
  | CAppendChars i xs => at_result ps i (append_chars_len (Outside (xs ++ [])) (Z.of_nat (length xs))) m
  | CInsert i pos xs => at_result ps i (insert (Z.of_nat pos) (Outside (xs ++ [0]))) m
  | CMakeLower i => at_result ps i makeLower m
  | CReplaceAll i a b => at_result ps i (replaceAll a b) m
  | CRemove i len begin => at_result ps i (remove (Z.of_nat len) (Z.of_nat begin)) m
  end.

Fixpoint run (cs : list call) (ps : list Z) (m : memory) : outcome (list Z * (list Z * memory)) :=
  match cs with
  | [] => Returned ([], (ps, m))
  | c :: cs => let! (status, (ps, m)) := perform c ps m in let! (l, pm) := run cs ps m in Returned (status :: l, pm)
  end.

Definition meaning (c : call) (ts : list (list Z)) : list (list Z) :=
  match c with
  | CNew xs | CNewLen xs => xs :: ts
  | CNewUtf8 cs => UC.utf16_all cs :: ts
  | CCopy i => text ts i :: ts
  | CPart i len begin => part len begin (text ts i) :: ts
  | CDestroy i => delete i ts
  | CSetTo i j => <[i := text ts j]> ts
  | CSetPart i j len begin => <[i := part len begin (text ts j)]> ts
  | CSetChars i xs => <[i := xs]> ts
  | CAppend i j => <[i := text ts i ++ text ts j]> ts
  | CAppendChars i xs => <[i := text ts i ++ xs]> ts
  | CInsert i pos xs => <[i := inserted pos xs (text ts i)]> ts
  | CMakeLower i => <[i := tolower <$> text ts i]> ts
  | CReplaceAll i a b => <[i := changed (Z.eqb a) (λ _, b) (text ts i)]> ts
  | CRemove i len begin => <[i := part len begin (text ts i)]> ts
  end.

(** The strings that a call names are there, C strings hold no zero, what is put together
    is shorter than 2 GiB, no string is appended to itself, and none becomes a proper
    part of itself. *)
Definition fitting (t xs : list Z) : bool := (Z.of_nat (length t + length xs) + 1) * 2 <? 2 ^ 31.
Definition proper (xs : list Z) : bool := bool_decide (0 ∉ xs) && fitting [] xs.
Definition in_range (len begin : nat) : bool := Z.of_nat begin + Z.of_nat len <? 2 ^ 32.
Definition allowed (c : call) (ts : list (list Z)) : bool :=
  match c with
  | CNew xs => proper xs
  | CNewLen xs => fitting [] xs
  | CNewUtf8 cs => forallb (λ c, (0 <=? c) && (c <=? 0x10FFFF) && negb ((0xD800 <=? c) && (c <=? 0xDFFF))) cs && (Z.of_nat (length cs) <? 2 ^ 28)
  | CCopy i | CDestroy i | CMakeLower i | CReplaceAll i _ _ => there ts i
  | CPart i len begin | CRemove i len begin => there ts i && in_range len begin
  | CSetTo i j => there ts i && there ts j
  | CSetPart i j len begin => there ts i && there ts j && in_range len begin &&
      (negb (i =? j)%nat || (length (text ts j) <=? begin)%nat || ((begin =? 0)%nat && (length (text ts j) <=? len)%nat))
  | CSetChars i xs => there ts i && proper xs
  | CAppend i j => there ts i && there ts j && negb (i =? j)%nat && fitting (text ts i) (text ts j)
  | CAppendChars i xs => there ts i && fitting (text ts i) xs
  | CInsert i _ xs => there ts i && proper xs && fitting (text ts i) xs
  end.
Fixpoint all_allowed (cs : list call) (ts : list (list Z)) : bool :=
  match cs with [] => true | c :: cs => allowed c ts && all_allowed cs (meaning c ts) end.

(** The variables [ps] hold the texts [ts], which may be any. *)
Abbreviation values := (SO.values 2 gEmptyString (λ _, True)).
Definition works (c : call) m ps ts : Prop := ∃ ps' m', perform c ps m = Returned (NO_ERROR, (ps', m')) ∧ values m' ps' (meaning c ts).

Lemma fitting_spec t xs : fitting t xs = true → (Z.of_nat (length t + length xs) + 1) * 2 < 2 ^ 31.
Proof. apply Z.ltb_lt. Qed.
Lemma proper16_spec xs : proper xs = true → (0 ∉ xs) ∧ (Z.of_nat (length xs) + 1) * 2 < 2 ^ 31.
Proof. unfold proper. rewrite andb_true_iff, bool_decide_eq_true. intros [H1 H2%fitting_spec]. done. Qed.

Lemma scalars_spec cs : forallb (λ c, (0 <=? c) && (c <=? 0x10FFFF) && negb ((0xD800 <=? c) && (c <=? 0xDFFF))) cs = true → Forall UC.scalar cs.
Proof.
  intros H. apply Forall_forall. intros c Hc. rewrite forallb_forall in H. apply list_elem_of_In in Hc. specialize (H c Hc).
  rewrite !andb_true_iff, negb_true_iff, andb_false_iff, !Z.leb_le, !Z.leb_gt in H. split; lia.
Qed.

Abbreviation new_works := (SO.new_works 2 gEmptyString (λ _, True)).
Abbreviation at_result_works := (SO.at_result_works 2 gEmptyString (λ _, True)).
Abbreviation at_string_works := (SO.at_string_works 2 gEmptyString (λ _, True)).
Abbreviation part_works := (SO.part_works 2 gEmptyString (λ _, True)).
Abbreviation values_at := (SO.values_at 2 gEmptyString (λ _, True)).

(** Calls that make strings. *)
Lemma made_works m ps ts xs : values m ps ts → (proper xs = true → works (CNew xs) m ps ts) ∧ (fitting [] xs = true → works (CNewLen xs) m ps ts).
Proof.
  intros Hv. split; [intros [Hx Hl]%proper16_spec|intros Hl%fitting_spec]; (apply new_works; [done|done|intros Hs]).
  - by apply new_chars_ok.
  - apply new_chars_len_ok; [done|apply source_outside|done].
Qed.

Lemma utf8_works m ps ts cs : values m ps ts → Forall UC.scalar cs → Z.of_nat (length cs) < 2 ^ 28 → works (CNewUtf8 cs) m ps ts.
Proof. intros Hv Hcs Hl. apply new_works; [done|done|intros Hs]. by apply new_utf8_ok. Qed.

Lemma parts_work16 m ps ts i len begin : values m ps ts → there ts i = true → works (CCopy i) m ps ts ∧ (in_range len begin = true → works (CPart i len begin) m ps ts).
Proof.
  intros Hv Hi. unfold works, perform, meaning. split; [|intros Hr%Z.ltb_lt].
  - apply (part_works m ps ts i id); [done|done|done|]. intros p us t Hs Hin Ht _. destruct (new_copy_ok m us p t Hs Hin Ht) as (m' & Hn & Hb). by exists p, m'.
  - apply (part_works m ps ts i (part len begin)); [done|done|done|]. intros p us t Hs Hin Ht _. by apply new_part_ok.
Qed.

(** Calls on one string. *)
Lemma one_works m ps ts i : values m ps ts → there ts i = true →
  works (CMakeLower i) m ps ts ∧ (∀ a b, works (CReplaceAll i a b) m ps ts) ∧ (∀ len begin, in_range len begin = true → works (CRemove i len begin) m ps ts) ∧
  (∀ xs, proper xs = true → works (CSetChars i xs) m ps ts) ∧ (∀ xs, fitting (text ts i) xs = true → works (CAppendChars i xs) m ps ts) ∧
  (∀ pos xs, proper xs = true → fitting (text ts i) xs = true → works (CInsert i pos xs) m ps ts).
Proof.
  intros Hv Hi. split_and!; [|intros a b|intros len begin Hr%Z.ltb_lt|intros xs [Hx Hl]%proper16_spec|intros xs Hl%fitting_spec|intros pos xs [Hx _]%proper16_spec Hl%fitting_spec];
    (apply at_result_works; [done|done|done|]; intros p Hh Hs).
  - by apply makeLower_ok.
  - by apply replaceAll_ok.
  - apply remove_ok; [done|by left|done|done].
  - by eapply setTo_chars_ok.
  - apply append_chars_len_ok; [done|done|apply source_outside|by rewrite length_app].
  - by apply insert_ok.
Qed.

(** Calls on two strings. *)
Lemma pair_works m ps ts i j : values m ps ts → there ts i = true → there ts j = true →
  works (CSetTo i j) m ps ts ∧ (i ≠ j → fitting (text ts i) (text ts j) = true → works (CAppend i j) m ps ts) ∧
  (∀ len begin, in_range len begin = true → (i = j → (length (text ts j) ≤ begin)%nat ∨ begin = 0%nat ∧ (length (text ts j) ≤ len)%nat) → works (CSetPart i j len begin) m ps ts).
Proof.
  intros Hv Hi Hj. destruct (values_at m ps ts j Hv Hj) as (o & Ho & Hho & _ & _ & _).
  split_and!; [|intros Hne Hf%fitting_spec|intros len begin Hr%Z.ltb_lt Hself]; unfold works, perform; rewrite Ho; cbn [oderef obind meaning].
  - apply at_string_works; [done|done|done|]. intros p Hp Hh Hs. destruct (setTo_string_ok m p o (gEmptyString :: delete i ps) (text ts j) Hs) as (m' & Hq & Hb); [|done|by exists o, m'].
    destruct (decide (i = j)) as [->|Hne]; [assert (o = p) as -> by congruence; by left|]. right. by eapply at_delete.
  - apply at_result_works; [done|done|done|]. intros p Hh Hs. apply append_string_ok; [done|done|by eapply at_delete|done|by rewrite length_app].
  - destruct (values_at m ps ts i Hv Hi) as (p & Hp & Hh & _ & _ & Hs). unfold at_result. rewrite Hp. cbn [oderef obind].
    destruct (setTo_part_ok (i =? j)%nat m p o (gEmptyString :: delete i ps) (text ts i) (text ts j) len begin Hs) as (q & m' & -> & Hb); [by left|done| |done|done| |].
    + destruct (Nat.eqb_spec i j) as [->|Hne]; [congruence|by eapply at_delete].
    + intros He%Nat.eqb_eq. by apply Hself.
    + cbn [obind]. eexists _, m'. split; [done|]. by apply (values_set 2 gEmptyString (λ _, True) m m' ps ts i p).
Qed.

Lemma call16_works c m ps ts : values m ps ts → allowed c ts = true → works c m ps ts.
Proof.
  intros Hv Ha. destruct c; cbn [allowed] in Ha; rewrite ?andb_true_iff, ?negb_true_iff in Ha.
  - apply made_works; tauto.
  - apply made_works; tauto.
  - destruct Ha as [Hcs%scalars_spec Hl%Z.ltb_lt]. by apply utf8_works.
  - by apply (parts_work16 m ps ts i 0 0).
  - apply parts_work16; tauto.
  - by apply (destroy_string_works 2 gEmptyString (λ _, True) m ps ts i).
  - apply pair_works; tauto.
  - destruct Ha as [[[Hi Hj] Hr] Hs]. apply pair_works; [done|done|done|done|]. intros ->. rewrite Nat.eqb_refl in Hs. cbn [negb orb] in Hs.
    rewrite orb_true_iff, andb_true_iff, !Nat.leb_le, Nat.eqb_eq in Hs. tauto.
  - apply one_works; tauto.
  - destruct Ha as [[[Hi Hj] Hne%Nat.eqb_neq] Hf]. by apply pair_works.
  - apply one_works; tauto.
  - apply one_works; tauto.
  - apply one_works; tauto.
  - apply one_works; tauto.
  - apply one_works; tauto.
Qed.

Lemma run16_works cs m ps ts : values m ps ts → all_allowed cs ts = true →
  ∃ l ps' m', run cs ps m = Returned (l, (ps', m')) ∧ Forall (λ status, status = NO_ERROR) l ∧ values m' ps' (foldl (λ ts c, meaning c ts) ts cs).
Proof.
  revert m ps ts. induction cs as [|c cs IH]; intros m ps ts Hv; cbn [run all_allowed foldl]; [by exists [], ps, m|].
  intros [Ha Hr]%andb_true_iff. destruct (call16_works c m ps ts Hv Ha) as (ps1 & m1 & -> & Hv1). cbn [obind].
  destruct (IH m1 ps1 _ Hv1 Hr) as (l & ps' & m' & -> & Hl & Hv'). cbn [obind]. exists (NO_ERROR :: l), ps', m'. split_and!; [done|by constructor|done].
Qed.
End S16.

(** ** The start, and the theorems *)

Lemma initialize16_values ans : Forall (λ a, a = true) ans → ∃ e m, initialize_string16 (mkMem ∅ ans) = Returned (e, m) ∧ SO.values 2 e (λ _, True) m [] [].
Proof.
  intros Ha. destruct (initialize_strings 2 ans two_bytes Ha) as (e & m1 & m & He & Hm & Hs). exists e, m. unfold initialize_string16. rewrite He. cbn [obind]. rewrite Hm.
  split; [done|]. by split.
Qed.

(** C10: from the start of the library on, any sequence of calls on any number of
    strings of 16-bit units (making them from units, from UTF-8 and from parts of others,
    copying, destroying, assigning, appending, inserting, lowering, replacing and
    removing) returns without a fault as long as memory lasts, every call with
    [NO_ERROR]; every string then has the text that the calls give it, whichever strings
    shared its block before, and every block is counted for exactly the strings that
    point to it. *)
Theorem string16_values ans e m cs : Forall (λ a, a = true) ans → initialize_string16 (mkMem ∅ ans) = Returned (e, m) → all_allowed cs [] = true →
  ∃ l ps m', run e cs [] m = Returned (l, (ps, m')) ∧ Forall (λ status, status = NO_ERROR) l ∧
    Forall2 (holds 2 m') ps (foldl (λ ts c, meaning c ts) [] cs) ∧
    (∀ p b, heap m' !! p = Some b → mRefs b = users p (e :: ps) ∧ 0 < mRefs b).
Proof.
  intros Ha Hi Hc. destruct (initialize16_values ans Ha) as (e' & m0 & Hi' & Hv). rewrite Hi in Hi'. injection Hi' as <- <-.
  destruct (run16_works e cs m [] [] Hv Hc) as (l & ps & m' & Hr & Hl & Hv'). exists l, ps, m'. destruct Hv' as [[Hw _ _ _] Ht _]. split_and!; [done|done|done|].
  intros p b Hb. destruct (s_block _ _ _ _ Hw p b Hb) as [Hp Hrefs]. by apply Hrefs.
Qed.

Definition some_calls16 : list call :=
  [CNew (bytes "Binder"); CCopy 0; CInsert 0 3 (bytes "--"); CMakeLower 1; CAppend 0 1; CRemove 0 5 2; CPart 0 3 1; CReplaceAll 0 0x2d 0x2b; CDestroy 2].

Lemma string16_values_witness : ∃ e m l ps m', initialize_string16 (mkMem ∅ []) = Returned (e, m) ∧ run e some_calls16 [] m = Returned (l, (ps, m')) ∧
  Forall2 (holds 2 m') ps [bytes "++d"; bytes "n--de"].
Proof.
  destruct (initialize16_values [] (Forall_nil_2 _)) as (e & m & Hi & _).
  destruct (string16_values [] e m some_calls16) as (l & ps & m' & Hr & _ & Ht & _); [constructor|exact Hi|by vm_compute|].
  exists e, m, l, ps, m'. split_and!; [exact Hi|exact Hr|]. exact Ht.
Defined.

(** C40: a string of bytes made into a string of units and back has its text again: for
    every text of Unicode characters, the [String16] made from the UTF-8 of a [String8]
    holds the text's UTF-16, the [String8] made from that holds the UTF-8 again, and no
    other string of either kind changes. *)
Theorem string_conversions e8 e16 m8 m16 us8 us16 p cs : SO.strings 1 e8 m8 us8 → SO.strings 2 e16 m16 us16 → Forall UC.scalar cs → Z.of_nat (length cs) < 2 ^ 28 →
  p ∈ us8 → holds 1 m8 p (UC.utf8_all cs) →
  ∃ bytes n q m16' units k r m8', S8.all_bytes p m8 = Returned bytes ∧ SM.size 1 p m8 = Returned n ∧ new_utf8 e16 bytes n m16 = Returned (q, m16') ∧
    all_units q m16' = Returned units ∧ SM.size 2 q m16' = Returned k ∧ S8.new_utf16 e8 (Some units) k m8 = Returned (r, m8') ∧
    holds 2 m16' q (UC.utf16_all cs) ∧ holds 1 m8' r (UC.utf8_all cs) ∧ tkeeps 2 m16 m16' us16 ∧ tkeeps 1 m8 m8' us8.
Proof.
  intros Hs8 Hs16 Hcs Hlt Hp Ht. destruct (new_utf8_ok e16 m16 us16 cs [0] Hs16 Hcs Hlt) as (q & m16' & Hq & _ & Hh & Hk & _).
  destruct (S8.new_utf16_spec e8 m8 us8 cs [0] Hs8 Hcs Hlt) as (r & m8' & Hr & _ & Hh8 & Hk8 & _).
  exists (UC.utf8_all cs ++ [0]), (Z.of_nat (length (UC.utf8_all cs))), q, m16', (UC.utf16_all cs ++ [0]), (Z.of_nat (length (UC.utf16_all cs))), r, m8'.
  split_and!; [|by apply (size_holds 1 S8.one_byte)|done|by apply all_units_ok|by apply (size_holds 2 two_bytes)|done|done|done|done|done].
  destruct Ht as (b & Hb & Hd & _). unfold S8.all_bytes, sb_at. rewrite Hb. cbn [oderef obind]. by rewrite Hd, mapM_some.
Qed.

Lemma string_conversions_witness : ∃ e8 e16 m8 m16 p m8' q m16' r m8'', S8.initialize_string8 (mkMem ∅ []) = Returned (e8, m8) ∧ initialize_string16 (mkMem ∅ []) = Returned (e16, m16) ∧
  S8.new_chars e8 (Outside (UC.utf8_all UC.demo_text ++ [0])) m8 = Returned (p, m8') ∧ holds 2 m16' q (UC.utf16_all UC.demo_text) ∧ holds 1 m8'' r (UC.utf8_all UC.demo_text).
Proof.
  destruct (S8.initialize_values [] (Forall_nil_2 _)) as (e8 & m8 & Hi8 & [Hs8 _ _]). destruct (initialize16_values [] (Forall_nil_2 _)) as (e16 & m16 & Hi16 & [Hs16 _ _]).
  destruct (S8.new_chars_outside e8 m8 [e8] (UC.utf8_all UC.demo_text) Hs8) as (p & m8' & Hn & Hb); [apply (bool_decide_eq_true_1 _); vm_compute; reflexivity|by vm_compute|].
  destruct (keep_new 1 _ _ _ _ _ _ Hs8 Hb) as (Hs1 & Hh1 & _).
  destruct (string_conversions e8 e16 m8' m16 [p; e8] [e16] p UC.demo_text Hs1 Hs16) as (bs & n & q & m16' & us & k & r & m8'' & _ & _ & _ & _ & _ & _ & Hq & Hr & _); [apply UC.demo_scalar|by vm_compute|by left|exact Hh1|].
  exists e8, e16, m8, m16, p, m8', q, m16', r, m8''. split_and!; [exact Hi8|exact Hi16|exact Hn|exact Hq|exact Hr].
Defined.

(** Comparing and searching, on the texts: the order of strings, the prefix test, the
    first and the last place of a unit. *)
Theorem string16_queries m p o t u c : holds 2 m p t → holds 2 m o u → Forall (λ c, 0 < c) t → Forall (λ c, 0 < c) u →
  (∃ d, compare p o m = Returned d ∧ Z.sgn d = UC.lexicographic t u) ∧
  (∃ r, startsWith o p m = Returned r ∧ (r = true ↔ u = take (length u) t)) ∧
  (∃ r, findFirst c p m = Returned r ∧ ((r = -1 ∧ c ∉ t) ∨ ∃ k, r = Z.of_nat k ∧ t !! k = Some c ∧ c ∉ take k t)) ∧
  (∃ r, findLast c p m = Returned r ∧ ((r = -1 ∧ c ∉ t) ∨ ∃ k, r = Z.of_nat k ∧ t !! k = Some c ∧ c ∉ drop (S k) t)).
Proof.
  intros Ht Hu Hpt Hpu. split_and!; [by apply compare_ok|by apply startsWith_ok| |by apply findLast_ok].
  eexists. split; [by apply findFirst_ok|]. destruct (find_index _ t) as [k|] eqn:E.
  - right. exists k. apply find_index_Some in E as ((x & Hx & He) & Hn). apply Z.eqb_eq in He as ->. split_and!; [done|done|].
    intros (j & Hj)%list_elem_of_lookup. apply lookup_take_Some in Hj as [Hj Hjk]. specialize (Hn j c Hjk Hj). by rewrite Z.eqb_refl in Hn.
  - left. split; [done|]. intros (j & Hj)%list_elem_of_lookup. pose proof (proj1 (find_index_None _ _) E j _ Hj) as H. cbn beta in H. by rewrite Z.eqb_refl in H.
Qed.

(** *** What can go wrong *)

(** [remove] keeps the part that its arguments name and removes the rest. *)
Theorem remove_keeps e m p us t len begin : SO.strings 2 e m (p :: us) → e ∈ us → holds 2 m p t → (begin + len ≤ length t)%nat →
  ∃ q m', remove e (Z.of_nat len) (Z.of_nat begin) p m = Returned (NO_ERROR, (q, m')) ∧ holds 2 m' q (take len (drop begin t)).
Proof.
  intros Hs He Ht Hl. pose proof (holds_small 2 m p t Ht). destruct (remove_ok e m p us t len begin Hs He Ht) as (q & m' & Hr & _ & Hh & _); [lia|]. by exists q, m'.
Qed.

(** A string cannot be made a part of itself: the program ends. *)
Theorem own_part_fatal e m p t len begin : holds 2 m p t → (0 < begin < length t)%nat → Z.of_nat begin + Z.of_nat len < 2 ^ 32 →
  setTo_part e true p (Z.of_nat len) (Z.of_nat begin) p m = Exited.
Proof.
  intros Ht Hb Hl. unfold setTo_part. rewrite (size_holds 2 two_bytes _ _ _ Ht). cbn [obind]. rewrite (proj2 (Z.leb_gt _ _)) by lia. rewrite part_length by lia.
  by rewrite (proj2 (Z.eqb_neq (Z.of_nat begin) 0)) by lia.
Qed.

(** Appending a string to itself reads the block that was given away. *)
Theorem append_self16_freed : (let! (e, m) := initialize_string16 (mkMem ∅ []) in let! (p, m) := new_chars e (Outside (bytes "a" ++ [0])) m in append_string p p m) = Undefined.
Proof. by vm_compute. Qed.

(** A UTF-8 string whose last character is cut is read behind its block. *)
Theorem cut_utf8_overread : (let! (e, m) := initialize_string16 (mkMem ∅ []) in new_utf8 e [0xE2; 0] 1 m) = Undefined.
Proof. by vm_compute. Qed.

Lemma string16_queries_witness : ∃ e m p m1 d, initialize_string16 (mkMem ∅ []) = Returned (e, m) ∧ new_chars e (Outside (bytes "abca" ++ [0])) m = Returned (p, m1) ∧
  compare p p m1 = Returned d ∧ Z.sgn d = 0.
Proof.
  destruct (initialize16_values [] (Forall_nil_2 _)) as (e & m & Hi & [Hs _ _]).
  destruct (new_chars_ok e m [e] (bytes "abca") Hs) as (p & m1 & Hn & Hb); [apply (bool_decide_eq_true_1 _); reflexivity|done|].
  destruct (keep_new 2 _ _ _ _ _ _ Hs Hb) as (_ & Hh1 & _).
  destruct (string16_queries m1 p p (bytes "abca") (bytes "abca") 0x61 Hh1 Hh1) as ((d & Hd & Hsgn) & _); [vm_compute; repeat constructor..|].
  exists e, m, p, m1, d. split_and!; [exact Hi|exact Hn|exact Hd|exact Hsgn].
Defined.

Lemma remove_keeps_witness : ∃ e m p m1 q m', initialize_string16 (mkMem ∅ []) = Returned (e, m) ∧ new_chars e (Outside (bytes "abcd" ++ [0])) m = Returned (p, m1) ∧
  remove e 2 1 p m1 = Returned (NO_ERROR, (q, m')) ∧ holds 2 m' q (bytes "bc").
Proof.
  destruct (initialize16_values [] (Forall_nil_2 _)) as (e & m & Hi & [Hs _ _]).
  destruct (new_chars_ok e m [e] (bytes "abcd") Hs) as (p & m1 & Hn & Hb); [apply (bool_decide_eq_true_1 _); reflexivity|done|].
  destruct (keep_new 2 _ _ _ _ _ _ Hs Hb) as (Hs1 & Hh1 & _).
  destruct (remove_keeps e m1 p [e] (bytes "abcd") 2 1 Hs1) as (q & m' & Hr & Hh); [by left|exact Hh1|cbn; lia|].
  exists e, m, p, m1, q, m'. split_and!; [exact Hi|exact Hn|exact Hr|exact Hh].
Defined.

Lemma own_part_fatal_witness : ∃ e m p m1, initialize_string16 (mkMem ∅ []) = Returned (e, m) ∧ new_chars e (Outside (bytes "abcd" ++ [0])) m = Returned (p, m1) ∧
  setTo_part e true p 2 1 p m1 = Exited.
Proof.
  destruct (initialize16_values [] (Forall_nil_2 _)) as (e & m & Hi & [Hs _ _]).
  destruct (new_chars_ok e m [e] (bytes "abcd") Hs) as (p & m1 & Hn & _ & Hh & _); [apply (bool_decide_eq_true_1 _); reflexivity|done|].
  exists e, m, p, m1. split_and!; [exact Hi|exact Hn|]. apply (own_part_fatal e m1 p (bytes "abcd") 2 1 Hh); [cbn; lia|done].
Defined.
End S16.
