(* ===== verification/UDiskScan.v ===== *)
(** The lists of files of [hi_udisk.c]: the filter of extensions, the scan of a
    directory, its count, and the scan of a part of it.

    The file system, the failures of [malloc] and the answers to the query
    whether to stop are variables of the section.  A block of memory is known by
    the number of the call of [malloc] that returned it. *)

From S2P Require Import Prelude.

Module US.

Definition UDISK_RESERVE_MAX_FILE_NUM : nat := 2048.
Definition MAX_UDISK_NAME_LEN : Z := 512.

Definition HI_UDISK_ERR_NULL : Z := HI_FAILURE.
Definition HI_UDISK_ERR_NOMEM : Z := -3.
Definition HI_UDISK_ERR_NOTEXIST : Z := -7.

Definition HI_UDISK_FLT_UPDIR : Z := 1.
Definition HI_UDISK_FLT_CURDIR : Z := 2.
Definition HI_UDISK_FLT_SUBDIR : Z := 4.
Definition HI_UDISK_FLT_CASECARE : Z := 8.

Definition DT_DIR : Z := 4.
Definition DT_REG : Z := 8.

Definition flag (w b : Z) : bool := negb (Z.land w b =? 0).

(** ** The filter of extensions *)

(** [strncmp] and [strncasecmp] on strings of C: equal in the first [n]
    characters. *)
Definition strncmp_eq (a b : cstring) (n : nat) : bool := bool_decide (take n a = take n b).
Definition tolower (c : Z) : Z := if (0x41 <=? c) && (c <=? 0x5a) then c + 32 else c.
Definition strncasecmp_eq (a b : cstring) (n : nat) : bool := bool_decide (tolower <$> take n a = tolower <$> take n b).

Definition dot : Z := chr ".".
Definition slash : Z := chr "/".

(** The loop over the dots of the filter, from a place in it on. *)
Fixpoint filter_loop (care : bool) (suffix : cstring) (flt : cstring) : Z :=
  match flt with
  | [] => HI_FAILURE
  | c :: flt' =>
      if (c =? dot) && (if care then strncmp_eq flt suffix (length suffix) else strncasecmp_eq flt suffix (length suffix))
      then HI_SUCCESS else filter_loop care suffix flt'
  end.

Definition UDISK_CheckFILTER (filename : cstring) (eFilterType : Z) (flt : option cstring) : Z :=
  match flt with
  | None => HI_FAILURE
  | Some flt =>
      if strncmp_eq flt (bytes ".*") 3 then HI_SUCCESS
      else match strrchr filename dot with
           | None => HI_FAILURE
           | Some k => filter_loop (flag eFilterType HI_UDISK_FLT_CASECARE) (drop k filename) flt
           end
  end.

(** ** Directories, options and lists *)

Record DIRENT := mkDirent { d_name : cstring; d_type : Z }.

(** No function reads the sort mode. *)
Record HI_UDISK_SCAN_S := mkOpt { bRecursive : bool; enSortMode : Z; enFilterType : Z; pFileFilter : option cstring }.

(** A file of the list, with the blocks of the node and of its two names.
    [None] is a type not yet written. *)
Record HI_UDISK_FILEINFO_S := mkInfo {
  u32Index : Z; u32Type : option Z; u64Size : Z; u32CTime : Z; pszShortName : cstring; pszFullName : cstring;
  node_block : nat; short_block : nat; full_block : nat }.

(** The state of a scan: the list of files with its array of [room] pointers,
    the blocks that are allocated, and how often [malloc] and the query were
    called. *)
Record SCAN := mkScan {
  ppFileList : option nat; room : nat; files : list HI_UDISK_FILEINFO_S; heap : gset nat; allocs : nat; queries : nat }.

Definition u32FileNum (st : SCAN) : nat := length (files st).
Definition set_files (st : SCAN) (l : list HI_UDISK_FILEINFO_S) : SCAN :=
  mkScan (ppFileList st) (room st) l (heap st) (allocs st) (queries st).
Definition set_heap (st : SCAN) (h : gset nat) : SCAN :=
  mkScan (ppFileList st) (room st) (files st) h (allocs st) (queries st).
(** Without memory for the array the number of files stays what it was. *)
Definition lost_array (st : SCAN) : SCAN :=
  mkScan None 0 (files st) (heap st) (allocs st) (queries st).
Definition set_array (st : SCAN) (a : option nat) (n : nat) : SCAN :=
  mkScan a n [] (heap st) (allocs st) (queries st).

Definition set_type (t : Z) (f : HI_UDISK_FILEINFO_S) : HI_UDISK_FILEINFO_S :=
  mkInfo (u32Index f) (Some t) (u64Size f) (u32CTime f) (pszShortName f) (pszFullName f) (node_block f) (short_block f) (full_block f).

(** [free]: of a block that is allocated, or of a null pointer. *)
Definition free (b : nat) (st : SCAN) : outcome SCAN :=
  if bool_decide (b ∈ heap st) then Returned (set_heap st (heap st ∖ {[b]})) else Undefined.

Definition is_name (s : string) (name : cstring) : bool := strncmp_eq name (bytes s) (S (length (bytes s))).

(** The path of an entry of a directory. *)
Definition sub_path (dir name : cstring) : cstring := dir ++ slash :: name.

Definition too_long (dir name : cstring) : bool :=
  MAX_UDISK_NAME_LEN <? Z.of_nat (length dir) + 1 + Z.of_nat (length name) + 1.

(** The directory above one, not above the root of the disks. *)
Definition up_dir (root path : cstring) : cstring :=
  if strncmp_eq path root (S (length path)) then path
  else if strncmp_eq path [slash] 2 then path
  else match strrchr path slash with
       | None => path
       | Some O => take 1 path
       | Some k => take k path
       end.

Section US.
(** The entries of the directory of a path, size and time of a file, the calls
    of [malloc] that fail, the answers of the query for an interrupt (0 without
    a callback), and the root of the disks, null before [HI_UDISK_Init]. *)
Variable opendir : cstring → option (list DIRENT).
Variable stat64 : cstring → option (Z * Z).
Variable malloc_fails : nat → bool.
Variable interrupt : nat → Z.
Variable m_UDisk_Root : option cstring.

Definition malloc (st : SCAN) : option nat * SCAN :=
  let n := allocs st in
  if malloc_fails n then (None, mkScan (ppFileList st) (room st) (files st) (heap st) (S n) (queries st))
  else (Some n, mkScan (ppFileList st) (room st) (files st) ({[n]} ∪ heap st) (S n) (queries st)).

Definition query_interrupt (st : SCAN) : Z * SCAN :=
  (interrupt (queries st), mkScan (ppFileList st) (room st) (files st) (heap st) (allocs st) (S (queries st))).

(** ** Adding a file *)

(** The type, when it is known from the name, and the full name. *)
Definition name_file (pathname filename : cstring) : outcome (option Z * cstring) :=
  if is_name "." filename then Returned (Some 0, pathname)
  else if is_name ".." filename then
    let! root := oderef m_UDisk_Root in Returned (Some 0, up_dir root pathname)
  else Returned (None, sub_path pathname filename).

Definition UDISK_AddFileToList (pathname filename : cstring) (st : SCAN) : outcome (Z * SCAN) :=
  let '(node, st) := malloc st in
  match node with
  | None => Returned (HI_UDISK_ERR_NOMEM, st)
  | Some node =>
      let '(short, st) := malloc st in
      match short with
      | None => let! st := free node st in Returned (HI_FAILURE, st)
      | Some short =>
          let '(full, st) := malloc st in
          match full with
          | None => let! st := free short st in let! st := free node st in Returned (HI_FAILURE, st)
          | Some full =>
              let! (ty, name) := name_file pathname filename in
              let '(sz, ctime) := match stat64 name with Some (sz, t) => (sz, u32 t) | None => (0, 0) end in
              let f := mkInfo (Z.of_nat (u32FileNum st)) ty sz ctime filename name node short full in
              if (u32FileNum st <? UDISK_RESERVE_MAX_FILE_NUM)%nat then
                if (u32FileNum st <? room st)%nat then Returned (HI_SUCCESS, set_files st (files st ++ [f])) else Undefined
              else
                let! st := free short st in let! st := free full st in let! st := free node st in
                Returned (HI_FAILURE, st)
          end
      end
  end.

(** [ppFileList[u32FileNum - 1]->u32Type = t]. *)
Definition set_last_type (t : Z) (st : SCAN) : outcome SCAN :=
  match u32FileNum st with
  | O => Undefined
  | S k => Returned (set_files st (alter (set_type t) k (files st)))
  end.

Definition add_typed (dir name : cstring) (t : Z) (st : SCAN) : outcome SCAN :=
  let! (_, st) := UDISK_AddFileToList dir name st in set_last_type t st.

(** ** The scan of a directory *)

(** One turn of the loop, after the checks; [sub] scans a directory below. *)
Definition scan_entry (sub : cstring → SCAN → outcome (Z * SCAN)) (dir : cstring) (opt : HI_UDISK_SCAN_S) (e : DIRENT) (st : SCAN)
    : outcome SCAN :=
  if is_name "." (d_name e) then
    if flag (enFilterType opt) HI_UDISK_FLT_CURDIR
    then let! (_, st) := UDISK_AddFileToList dir (d_name e) st in Returned st else Returned st
  else if is_name ".." (d_name e) then
    if flag (enFilterType opt) HI_UDISK_FLT_UPDIR
    then let! (_, st) := UDISK_AddFileToList dir (d_name e) st in Returned st else Returned st
  else if too_long dir (d_name e) then Returned st
  else if d_type e =? DT_DIR then
    let! st := (if flag (enFilterType opt) HI_UDISK_FLT_SUBDIR then add_typed dir (d_name e) 0 st else Returned st) in
    if bRecursive opt then let! (_, st) := sub (sub_path dir (d_name e)) st in Returned st else Returned st
  else if d_type e =? DT_REG then
    if UDISK_CheckFILTER (d_name e) (enFilterType opt) (pFileFilter opt) =? HI_SUCCESS
    then add_typed dir (d_name e) 1 st else Returned st
  else Returned st.

Fixpoint scan_loop (sub : cstring → SCAN → outcome (Z * SCAN)) (dir : cstring) (opt : HI_UDISK_SCAN_S) (es : list DIRENT) (st : SCAN)
    : outcome (Z * SCAN) :=
  match es with
  | [] => Returned (HI_SUCCESS, st)
  | e :: es' =>
      if (UDISK_RESERVE_MAX_FILE_NUM <=? u32FileNum st)%nat then Returned (HI_SUCCESS, st)
      else
        let '(q, st) := query_interrupt st in
        if q =? 0 then let! st := scan_entry sub dir opt e st in scan_loop sub dir opt es' st
        else Returned (HI_FAILURE, st)
  end.

Fixpoint UDISK_ScanDir (fuel : nat) (opt : HI_UDISK_SCAN_S) (pszDir : cstring) (st : SCAN) : outcome (Z * SCAN) :=
  match fuel with
  | O => Undefined
  | S fuel =>
      match opendir pszDir with
      | None => Returned (HI_UDISK_ERR_NOTEXIST, st)
      | Some es => scan_loop (UDISK_ScanDir fuel opt) pszDir opt es st
      end
  end.

(** A directory below has a longer path, of less than 512 characters. *)
Definition DEPTH : nat := 513.

(** ** The list, and giving it back *)

Definition free_names (f : HI_UDISK_FILEINFO_S) (st : SCAN) : outcome SCAN :=
  let! st := free (short_block f) st in free (full_block f) st.

Fixpoint free_loop (num : nat) (l : list HI_UDISK_FILEINFO_S) (st : SCAN) : outcome SCAN :=
  match l with
  | [] => Returned st
  | f :: l' =>
      let! st := (if (num <? UDISK_RESERVE_MAX_FILE_NUM)%nat then free_names f st else Returned st) in
      let! st := free (node_block f) st in
      free_loop num l' st
  end.

Definition HI_UDISK_FreeFileList (st : SCAN) : outcome (Z * SCAN) :=
  match ppFileList st, files st with
  | None, [] => Returned (HI_SUCCESS, set_array st None 0)
  | None, _ :: _ => Undefined
  | Some b, l =>
      let! st := free_loop (length l) l st in
      let! st := free b st in
      Returned (HI_SUCCESS, set_array st None 0)
  end.

(** [HI_UDISK_GetFileList] with pointers that are not null; the list of the
    argument is written over. *)
Definition HI_UDISK_GetFileList (pszDir : cstring) (opt : HI_UDISK_SCAN_S) (st : SCAN) : outcome (Z * SCAN) :=
  let '(array, st) := malloc st in
  match array with
  | None => Returned (HI_FAILURE, lost_array st)
  | Some a =>
      let! (ret, st) := UDISK_ScanDir DEPTH opt pszDir (set_array st (Some a) UDISK_RESERVE_MAX_FILE_NUM) in
      if ret =? HI_SUCCESS then Returned (ret, st)
      else let! (_, st) := HI_UDISK_FreeFileList st in Returned (ret, st)
  end.

(** ** The number of files *)

Fixpoint count_loop (sub : cstring → Z → Z * Z) (dir : cstring) (opt : HI_UDISK_SCAN_S) (es : list DIRENT) (num : Z) : Z :=
  match es with
  | [] => num
  | e :: es' =>
      let num :=
        if is_name "." (d_name e) then
          if flag (enFilterType opt) HI_UDISK_FLT_CURDIR then u32 (num + 1) else num
        else if is_name ".." (d_name e) then
          if flag (enFilterType opt) HI_UDISK_FLT_UPDIR then u32 (num + 1) else num
        else if too_long dir (d_name e) then num
        else if d_type e =? DT_DIR then
          let num := if flag (enFilterType opt) HI_UDISK_FLT_SUBDIR then u32 (num + 1) else num in
          if bRecursive opt then (sub (sub_path dir (d_name e)) num).2 else num
        else if d_type e =? DT_REG then
          if UDISK_CheckFILTER (d_name e) (enFilterType opt) (pFileFilter opt) =? HI_SUCCESS then u32 (num + 1) else num
        else num in
      count_loop sub dir opt es' num
  end.

Fixpoint UDISK_ScanDirForFileNum (fuel : nat) (opt : HI_UDISK_SCAN_S) (pszDir : cstring) (num : Z) : Z * Z :=
  match fuel with
  | O => (HI_FAILURE, num)
  | S fuel =>
      match opendir pszDir with
      | None => (HI_UDISK_ERR_NOTEXIST, num)
      | Some es => (HI_SUCCESS, count_loop (UDISK_ScanDirForFileNum fuel opt) pszDir opt es num)
      end
  end.

Definition HI_UDISK_GetFileNum (pszDir : cstring) (opt : HI_UDISK_SCAN_S) : Z * Z :=
  UDISK_ScanDirForFileNum DEPTH opt pszDir 0.

(** ** A part of the list *)

(** The files of a directory are numbered, from 0 in every directory; those
    from [start] to [maxi] are added. *)
Definition add_at (start maxi : Z) (add : SCAN → outcome SCAN) (idx : Z) (st : SCAN) : outcome (Z * SCAN) :=
  let! st := (if (start <=? idx) && (idx <=? maxi) then add st else Returned st) in
  Returned (u32 (idx + 1), st).

Definition index_entry (sub : cstring → Z → SCAN → outcome (Z * SCAN)) (start maxi : Z) (dir : cstring) (opt : HI_UDISK_SCAN_S)
    (e : DIRENT) (idx : Z) (st : SCAN) : outcome (Z * SCAN) :=
  let add st := let! (_, st) := UDISK_AddFileToList dir (d_name e) st in Returned st in
  if is_name "." (d_name e) then
    if flag (enFilterType opt) HI_UDISK_FLT_CURDIR then add_at start maxi add idx st else Returned (idx, st)
  else if is_name ".." (d_name e) then
    if flag (enFilterType opt) HI_UDISK_FLT_UPDIR then add_at start maxi add idx st else Returned (idx, st)
  else if too_long dir (d_name e) then Returned (idx, st)
  else if d_type e =? DT_DIR then
    let! (idx, st) := (if flag (enFilterType opt) HI_UDISK_FLT_SUBDIR
                       then add_at start maxi (add_typed dir (d_name e) 0) idx st else Returned (idx, st)) in
    if bRecursive opt then let! (_, st) := sub (sub_path dir (d_name e)) idx st in Returned (idx, st) else Returned (idx, st)
  else if d_type e =? DT_REG then
    if UDISK_CheckFILTER (d_name e) (enFilterType opt) (pFileFilter opt) =? HI_SUCCESS
    then add_at start maxi (add_typed dir (d_name e) 1) idx st else Returned (idx, st)
  else Returned (idx, st).

Fixpoint index_loop (sub : cstring → Z → SCAN → outcome (Z * SCAN)) (start count : Z) (dir : cstring) (opt : HI_UDISK_SCAN_S)
    (es : list DIRENT) (idx : Z) (st : SCAN) : outcome (Z * SCAN) :=
  match es with
  | [] => Returned (HI_SUCCESS, st)
  | e :: es' =>
      if negb (Z.of_nat (u32FileNum st) <? count) then Returned (HI_SUCCESS, st)
      else if (UDISK_RESERVE_MAX_FILE_NUM <=? u32FileNum st)%nat then Returned (HI_SUCCESS, st)
      else
        let '(q, st) := query_interrupt st in
        if q =? 0 then
          let! (idx, st) := index_entry sub start (u32 (start + count - 1)) dir opt e idx st in
          index_loop sub start count dir opt es' idx st
        else Returned (HI_FAILURE, st)
  end.

Fixpoint UDISK_ScanDirWithIndex (fuel : nat) (opt : HI_UDISK_SCAN_S) (count : Z) (pszDir : cstring) (start : Z) (st : SCAN)
    : outcome (Z * SCAN) :=
  match fuel with
  | O => Undefined
  | S fuel =>
      match opendir pszDir with
      | None => Returned (HI_UDISK_ERR_NOTEXIST, st)
      | Some es => index_loop (UDISK_ScanDirWithIndex fuel opt count) start count pszDir opt es 0 st
      end
  end.

Definition HI_UDISK_GetFileListWithIndex (pszDir : cstring) (opt : HI_UDISK_SCAN_S) (start count : Z) (st : SCAN) : outcome (Z * SCAN) :=
  if count =? 0 then Returned (HI_FAILURE, st)
  else
    let '(array, st) := malloc st in
    match array with
    | None => Returned (HI_FAILURE, lost_array st)
    | Some a =>
        let! (ret, st) := UDISK_ScanDirWithIndex DEPTH opt count pszDir start (set_array st (Some a) (Z.to_nat (u32 (4 * count) / 4))) in
        if ret =? HI_SUCCESS then Returned (ret, st)
        else let! (_, st) := HI_UDISK_FreeFileList st in Returned (ret, st)
    end.

End US.
(** ** The filter *)

Lemma is_name_spec s name : is_name s name = bool_decide (name = bytes s).
Proof.
  unfold is_name, strncmp_eq. apply bool_decide_ext. rewrite (take_ge (bytes s)) by lia. split; [|intros ->; by rewrite take_ge by lia].
  intros H. assert (length (take (S (length (bytes s))) name) = length (bytes s)) as Hl by by rewrite H.
  rewrite length_take in Hl. by rewrite take_ge in H by lia.
Qed.

(** Whether a text begins with another, with or without the case. *)
Definition begins (care : bool) (a b : cstring) : Prop :=
  if care then a `prefix_of` b else (tolower <$> a) `prefix_of` (tolower <$> b).

#[export] Instance begins_decision care a b : Decision (begins care a b).
Proof. unfold begins. destruct care; apply _. Defined.

Lemma take_prefix {A} (a b : list A) : take (length a) b = take (length a) a ↔ a `prefix_of` b.
Proof.
  rewrite firstn_all. split.
  - intros Heq. exists (drop (length a) b). by rewrite <-Heq at 1; rewrite take_drop.
  - intros [k ->]. by rewrite take_app_length.
Qed.

Lemma compare_begins (care : bool) flt suffix :
  (if care then strncmp_eq flt suffix (length suffix) else strncasecmp_eq flt suffix (length suffix)) = bool_decide (begins care suffix flt).
Proof.
  destruct care; unfold strncmp_eq, strncasecmp_eq, begins; apply bool_decide_ext; [apply take_prefix|].
  rewrite !fmap_take, <-(length_fmap tolower suffix). apply take_prefix.
Qed.

Lemma filter_loop_spec care suffix flt :
  filter_loop care suffix flt = HI_SUCCESS ↔ ∃ k, flt !! k = Some dot ∧ begins care suffix (drop k flt).
Proof.
  induction flt as [|c flt IH]; cbn [filter_loop].
  - split; [done|]. by intros (k & ? & _).
  - rewrite compare_begins. destruct (Z.eqb_spec c dot) as [->|Hc]; cbn [andb]; [case_bool_decide as Hb|].
    + split; [|done]. intros _. by exists O.
    + rewrite IH. split; [intros (k & Hk); by exists (S k)|]. intros ([|k] & Hk & Hp); [done|by exists k].
    + rewrite IH. split; [intros (k & Hk); by exists (S k)|]. intros ([|k] & Hk & Hp); [by injection Hk|by exists k].
Qed.

(** A filter as the header writes it: extensions with a dot before each and a
    comma between. *)
Fixpoint comma_list (exts : list cstring) : cstring :=
  match exts with
  | [] => []
  | [x] => dot :: x
  | x :: exts => (dot :: x) ++ chr "," :: comma_list exts
  end.

Lemma tolower_fixed c d : tolower c = d → ¬ (0x61 ≤ d ≤ 0x7a) → c = d.
Proof. unfold tolower. destruct (Z.leb_spec 0x41 c), (Z.leb_spec c 0x5a); cbn; lia. Qed.

Lemma begins_cut care a x k : chr "," ∉ a → begins care a (x ++ chr "," :: k) → begins care a x.
Proof.
  assert (∀ (a x k : cstring) (c : Z), c ∉ a → a `prefix_of` x ++ c :: k → a `prefix_of` x) as P.
  { clear. intros a x k c Hc Hp. destruct (decide (length a ≤ length x)%nat) as [Hl|Hl].
    - destruct (prefix_weak_total a x (x ++ c :: k)) as [H|H]; [done|by apply prefix_app_r|done|].
      apply prefix_length_eq in H; [by rewrite H|done].
    - exfalso. apply Hc. destruct Hp as [r Hr]. apply list_elem_of_lookup. exists (length x).
      assert ((a ++ r) !! length x = Some c) as H by by rewrite <-Hr, list_lookup_middle.
      by rewrite lookup_app_l in H by lia. }
  intros Ha. destruct care; cbn [begins]; [by apply P|]. rewrite fmap_app, fmap_cons. intros H. eapply P; [|done].
  intros (c & Hc & Hin)%list_elem_of_fmap. change (tolower (chr ",")) with 0x2c in Hc.
  symmetry in Hc. apply tolower_fixed in Hc; [|lia]. subst c. by apply Ha.
Qed.

Lemma begins_app care a x k : begins care a x → begins care a (x ++ k).
Proof. destruct care; cbn [begins]; rewrite ?fmap_app; intros; by apply prefix_app_r. Qed.

Lemma begins_cons care c a x : begins care (c :: a) (c :: x) ↔ begins care a x.
Proof. destruct care; cbn [begins]; rewrite ?fmap_cons; (split; [apply prefix_cons_inv_2|apply prefix_cons]). Qed.

(** A text that begins at a dot of a filter. *)
Definition dotted (care : bool) (suf flt : cstring) : Prop :=
  ∃ k, flt !! k = Some dot ∧ begins care (dot :: suf) (drop k flt).

Lemma dotted_nil care suf : ¬ dotted care suf [].
Proof. by intros (k & Hk & _). Qed.

Lemma dotted_app care suf l flt : dot ∉ l → dotted care suf (l ++ flt) ↔ dotted care suf flt.
Proof.
  intros Hl. unfold dotted. split.
  - intros (k & Hk & Hb). assert (length l ≤ k)%nat as Hle.
    { apply Nat.le_ngt. intros Hlt. rewrite lookup_app_l in Hk by done. apply Hl. by eapply list_elem_of_lookup_2. }
    exists (k - length l)%nat. rewrite lookup_app_r in Hk by done. split; [done|]. by rewrite drop_app_ge in Hb.
  - intros (k & Hk & Hb). exists (length l + k)%nat. split; [|by rewrite drop_app_add].
    rewrite lookup_app_r by lia. by replace (length l + k - length l)%nat with k by lia.
Qed.

Lemma dotted_dot care suf flt : dotted care suf (dot :: flt) ↔ begins care suf flt ∨ dotted care suf flt.
Proof.
  unfold dotted. split.
  - intros ([|k] & Hk & Hb); [left; by apply begins_cons in Hb|right; by exists k].
  - intros [Hb|(k & Hk & Hb)]; [exists O; split; [done|by apply begins_cons]|by exists (S k)].
Qed.

(** The files a filter of a list of extensions takes. *)
Lemma comma_list_takes care suf exts :
  chr "," ∉ suf → Forall (λ x, dot ∉ x) exts →
  dotted care suf (comma_list exts) ↔ ∃ x, x ∈ exts ∧ begins care suf x.
Proof.
  intros Hsuf. induction exts as [|x exts IH]; intros Hexts.
  - split; [by intros ?%dotted_nil|]. intros (x & Hx & _). set_solver.
  - apply Forall_cons in Hexts as [Hx Hexts]. specialize (IH Hexts).
    transitivity (begins care suf x ∨ dotted care suf (comma_list exts)).
    + destruct exts as [|y exts].
      * change (comma_list [x]) with (dot :: x). change (comma_list []) with (@nil Z). rewrite dotted_dot.
        rewrite <-(app_nil_r x) at 2. by rewrite dotted_app.
      * change (comma_list (x :: y :: exts)) with (dot :: x ++ chr "," :: comma_list (y :: exts)).
        rewrite dotted_dot. rewrite (cons_middle (chr ",") x), app_assoc, dotted_app.
        -- split; (intros [H|H]; [left|by right]); [rewrite <-app_assoc in H; by eapply begins_cut|rewrite <-app_assoc; by apply begins_app].
        -- intros [H|H]%elem_of_app; [done|]. apply list_elem_of_singleton in H. discriminate.
    + rewrite IH. set_solver.
Qed.

Lemma comma_list_star exts : exts ≠ [bytes "*"] → comma_list exts ≠ bytes ".*".
Proof.
  intros Hn. destruct exts as [|x [|y exts]]; [done| |].
  - change (comma_list [x]) with (dot :: x). intros [= ->]. by apply Hn.
  - change (comma_list (x :: y :: exts)) with (dot :: x ++ chr "," :: comma_list (y :: exts)).
    destruct x as [|c [|d x]]; [intros [=]|intros [=]|intros [=]].
Qed.

Lemma strrchr_last t c suf : c ∉ suf → strrchr (t ++ c :: suf) c = Some (length t).
Proof.
  intros Hc. induction t as [|x t IH]; cbn [app length strrchr]; [|by rewrite IH].
  destruct (strrchr suf c) eqn:E; [|by rewrite Z.eqb_refl]. apply strrchr_Some in E as (E & _ & _). rewrite E in Hc. set_solver.
Qed.

(** With a filter written as the header says, extensions with a dot before
    each and commas between, a file is taken exactly when its own extension,
    what follows its last dot, begins one of them: equal to it, or cut short. *)
Theorem filter_takes name suf fty exts :
  let care := flag fty HI_UDISK_FLT_CASECARE in
  dot ∉ suf → chr "," ∉ suf → Forall (λ x, dot ∉ x) exts → exts ≠ [bytes "*"] →
  UDISK_CheckFILTER (name ++ dot :: suf) fty (Some (comma_list exts)) = HI_SUCCESS ↔ ∃ x, x ∈ exts ∧ begins care suf x.
Proof.
  intros care Hdot Hc Hexts Hstar. unfold UDISK_CheckFILTER.
  change (strncmp_eq (comma_list exts) (bytes ".*") 3) with (is_name ".*" (comma_list exts)).
  rewrite is_name_spec, bool_decide_false by (apply comma_list_star; done).
  rewrite strrchr_last by done. rewrite drop_app_length, filter_loop_spec. by apply comma_list_takes.
Qed.

Lemma filter_takes_witness :
  (∃ x, x ∈ [bytes "mp3"; bytes "wav"] ∧ begins false (bytes "MP") x) ∧
  UDISK_CheckFILTER (bytes "a.b.MP") 0 (Some (comma_list [bytes "mp3"; bytes "wav"])) = HI_SUCCESS.
Proof.
  assert (∃ x, x ∈ [bytes "mp3"; bytes "wav"] ∧ begins false (bytes "MP") x) as H.
  { exists (bytes "mp3"). split; [set_solver|]. exists [0x33]. reflexivity. }
  split; [exact H|].
  apply (filter_takes (bytes "a.b") (bytes "MP") 0 [bytes "mp3"; bytes "wav"]); [..|exact H];
    apply (bool_decide_eq_true_1 _); reflexivity.
Defined.

(** ** What a scan should list *)

Section listing.
Variable opendir : cstring → option (list DIRENT).
Variable opt : HI_UDISK_SCAN_S.

(** An item of a list: the directory, the name, and the type. *)
Abbreviation item := (cstring * cstring * Z)%type.

Definition is_dots (e : DIRENT) : bool := is_name "." (d_name e) || is_name ".." (d_name e).

(** The item of an entry, if the options ask for it. *)
Definition entry_item (dir : cstring) (e : DIRENT) : list item :=
  let want (b : bool) t := if b then [(dir, d_name e, t)] else [] in
  if is_name "." (d_name e) then want (flag (enFilterType opt) HI_UDISK_FLT_CURDIR) 0
  else if is_name ".." (d_name e) then want (flag (enFilterType opt) HI_UDISK_FLT_UPDIR) 0
  else if too_long dir (d_name e) then []
  else if d_type e =? DT_DIR then want (flag (enFilterType opt) HI_UDISK_FLT_SUBDIR) 0
  else if d_type e =? DT_REG then want (UDISK_CheckFILTER (d_name e) (enFilterType opt) (pFileFilter opt) =? HI_SUCCESS) 1
  else [].

(** Whether the directory of an entry is scanned too. *)
Definition descends (dir : cstring) (e : DIRENT) : bool :=
  negb (is_dots e) && negb (too_long dir (d_name e)) && (d_type e =? DT_DIR) && bRecursive opt.

(** The files of a directory, those of a directory below after its own item. *)
Fixpoint listing_fuel (fuel : nat) (dir : cstring) : list item :=
  match fuel, opendir dir with
  | S fuel, Some es =>
      es ≫= λ e, entry_item dir e ++ (if descends dir e then listing_fuel fuel (sub_path dir (d_name e)) else [])
  | _, _ => []
  end.

Definition listing (dir : cstring) : list item := listing_fuel DEPTH dir.

Definition room_for (dir : cstring) : nat := 512 - length dir.

Lemma descends_deeper dir e : descends dir e = true → (S (room_for (sub_path dir (d_name e))) ≤ room_for dir)%nat.
Proof.
  unfold descends, room_for, sub_path, too_long, MAX_UDISK_NAME_LEN. rewrite !andb_true_iff, !negb_true_iff. intros (((_ & H) & _) & _).
  apply Z.ltb_ge in H. rewrite length_app. cbn [length]. lia.
Qed.

Lemma bind_ext_in {A B} (f g : A → list B) (l : list A) : (∀ x, x ∈ l → f x = g x) → l ≫= f = l ≫= g.
Proof.
  induction l as [|x l IH]; intros H; [done|]. rewrite !bind_cons. rewrite (H x) by set_solver. by rewrite IH by set_solver.
Qed.

Lemma listing_fuel_enough fuel : ∀ fuel' dir, (room_for dir < fuel)%nat → (room_for dir < fuel')%nat →
  listing_fuel fuel dir = listing_fuel fuel' dir.
Proof.
  induction fuel as [|fuel IH]; intros [|fuel'] dir H H'; try lia. cbn [listing_fuel]. destruct (opendir dir) as [es|]; [|done].
  apply bind_ext_in. intros e _. f_equal. destruct (descends dir e) eqn:E; [|done]. apply descends_deeper in E. apply IH; lia.
Qed.

Lemma room_for_depth dir : (room_for dir < DEPTH)%nat.
Proof. unfold room_for, DEPTH. lia. Qed.

(** The listing without the measure. *)
Lemma listing_unfold dir :
  listing dir = match opendir dir with
                | Some es => es ≫= λ e, entry_item dir e ++ (if descends dir e then listing (sub_path dir (d_name e)) else [])
                | None => []
                end.
Proof.
  unfold listing. rewrite (listing_fuel_enough DEPTH (S DEPTH)) by (pose proof (room_for_depth dir); lia). reflexivity.
Qed.
End listing.

(** ** Counting *)

Section counting.
Variable opendir : cstring → option (list DIRENT).
Variable opt : HI_UDISK_SCAN_S.

Abbreviation listing_fuel := (listing_fuel opendir opt).

(** What one turn of the loop adds to the count. *)
Lemma count_turn sub dir e es num : 0 ≤ num < 2 ^ 32 →
  count_loop sub dir opt (e :: es) num =
    let num := u32 (num + Z.of_nat (length (entry_item opt dir e))) in
    count_loop sub dir opt es (if descends opt dir e then (sub (sub_path dir (d_name e)) num).2 else num).
Proof.
  intros Hn. cbn [count_loop]. cbv zeta. f_equal. unfold entry_item, descends, is_dots.
  assert (∀ b : bool, (if b then u32 (num + 1) else num) = u32 (num + Z.of_nat (length (if b then [(dir, d_name e, 0)] else [])))) as Hb.
  { intros []; [done|]. cbn [length]. by rewrite Z.add_0_r, u32_small. }
  assert (∀ b : bool, (if b then u32 (num + 1) else num) = u32 (num + Z.of_nat (length (if b then [(dir, d_name e, 1)] else [])))) as Hb'.
  { intros []; [done|]. cbn [length]. by rewrite Z.add_0_r, u32_small. }
  destruct (is_name "." (d_name e)); cbn [orb negb andb]; [by rewrite Hb|].
  destruct (is_name ".." (d_name e)); cbn [orb negb andb]; [by rewrite Hb|].
  destruct (too_long dir (d_name e)); cbn [negb andb length]; [by rewrite Z.add_0_r, u32_small|].
  destruct (d_type e =? DT_DIR); cbn [andb]; [rewrite Hb; by destruct (bRecursive opt)|].
  destruct (d_type e =? DT_REG); [by rewrite Hb'|]. cbn [length]. by rewrite Z.add_0_r, u32_small.
Qed.

Lemma count_loop_spec sub (below : cstring → list (cstring * cstring * Z)) dir : 
  (∀ e num, descends opt dir e = true → 0 ≤ num < 2 ^ 32 →
     (sub (sub_path dir (d_name e)) num).2 = u32 (num + Z.of_nat (length (below (sub_path dir (d_name e)))))) →
  ∀ es num, 0 ≤ num < 2 ^ 32 →
  count_loop sub dir opt es num =
    u32 (num + Z.of_nat (length (es ≫= λ e, entry_item opt dir e ++ (if descends opt dir e then below (sub_path dir (d_name e)) else [])))).
Proof.
  intros Hsub. induction es as [|e es IH]; intros num Hn; [by cbn; rewrite Z.add_0_r, u32_small|].
  rewrite count_turn by done. cbv zeta. rewrite bind_cons, !length_app, !Nat2Z.inj_add. destruct (descends opt dir e) eqn:E.
  - rewrite Hsub by (done || apply u32_range). rewrite IH by apply u32_range. rewrite u32_add_l, <-Z.add_assoc, u32_add_l. f_equal. lia.
  - rewrite IH by apply u32_range. rewrite u32_add_l. cbn [length]. f_equal. lia.
Qed.

Lemma scan_for_file_num fuel : ∀ dir num, (room_for dir < fuel)%nat → 0 ≤ num < 2 ^ 32 →
  UDISK_ScanDirForFileNum opendir fuel opt dir num =
    (match opendir dir with Some _ => HI_SUCCESS | None => HI_UDISK_ERR_NOTEXIST end,
     u32 (num + Z.of_nat (length (listing_fuel fuel dir)))).
Proof.
  induction fuel as [|fuel IH]; intros dir num Hf Hn; [lia|]. cbn [UDISK_ScanDirForFileNum US.listing_fuel].
  destruct (opendir dir) as [es|]; [|by cbn [length]; rewrite Z.add_0_r, u32_small]. f_equal.
  apply count_loop_spec; [|done]. intros e k He Hk. apply descends_deeper in He. rewrite IH by (done || lia). done.
Qed.
End counting.

(** The number of files of a directory is the number of entries the options
    ask for, in it and below it, for any file system. *)
Theorem file_num opendir opt dir :
  HI_UDISK_GetFileNum opendir dir opt =
    (match opendir dir with Some _ => HI_SUCCESS | None => HI_UDISK_ERR_NOTEXIST end, u32 (Z.of_nat (length (listing opendir opt dir)))).
Proof. unfold HI_UDISK_GetFileNum. rewrite scan_for_file_num; [done|apply room_for_depth|lia]. Qed.

(** ** The scan lists what it should *)

Lemma alter_last_file {A} (l : list A) (g : A → A) x : alter g (length l) (l ++ [x]) = l ++ [g x].
Proof. induction l as [|y l IH]; [done|]. cbn [length app]. change (alter g (S (length l)) (y :: l ++ [x])) with (y :: alter g (length l) (l ++ [x])). by rewrite IH. Qed.

Section scanning.
Variable opendir : cstring → option (list DIRENT).
Variable stat64 : cstring → option (Z * Z).
Variable interrupt : nat → Z.
Variable root : cstring.
Variable opt : HI_UDISK_SCAN_S.

Abbreviation item := (cstring * cstring * Z)%type.
Abbreviation never := (λ _ : nat, false).
Abbreviation add_file := (UDISK_AddFileToList stat64 never (Some root)).
Abbreviation add_typed := (add_typed stat64 never (Some root)).
Abbreviation scan_entry := (scan_entry stat64 never (Some root)).
Abbreviation scan_loop := (scan_loop stat64 never interrupt (Some root)).
Abbreviation scan_dir := (UDISK_ScanDir opendir stat64 never interrupt (Some root)).
Abbreviation listing_fuel := (listing_fuel opendir opt).

(** The full name of an item. *)
Definition item_path (dir name : cstring) : cstring :=
  if is_name "." name then dir else if is_name ".." name then up_dir root dir else sub_path dir name.

(** What a caller sees of a file, and what it should see of an item. *)
Definition shown (f : HI_UDISK_FILEINFO_S) : Z * option Z * (Z * Z) * (cstring * cstring) :=
  (u32Index f, u32Type f, (u64Size f, u32CTime f), (pszShortName f, pszFullName f)).
Definition shown_item (i : nat) (it : item) : Z * option Z * (Z * Z) * (cstring * cstring) :=
  let '(dir, name, t) := it in
  (Z.of_nat i, Some t, match stat64 (item_path dir name) with Some (sz, t) => (sz, u32 t) | None => (0, 0) end,
   (name, item_path dir name)).

(** The state with items after those it had. *)
Definition extends (st st' : SCAN) (items : list item) : Prop :=
  ppFileList st' = ppFileList st ∧ room st' = room st ∧
  shown <$> files st' = (shown <$> files st) ++ imap (λ i it, shown_item (u32FileNum st + i) it) items.

Lemma extends_num st st' items : extends st st' items → u32FileNum st' = (u32FileNum st + length items)%nat.
Proof.
  intros (_ & _ & H). apply (f_equal length) in H. rewrite length_app, !length_fmap, length_imap in H. exact H.
Qed.

Lemma extends_nil st st' : ppFileList st' = ppFileList st → room st' = room st → files st' = files st → extends st st' [].
Proof. intros Ha Hr Hf. split_and!; [done..|]. by rewrite Hf, app_nil_r. Qed.

Lemma extends_trans st st1 st2 l k : extends st st1 l → extends st1 st2 k → extends st st2 (l ++ k).
Proof.
  intros H1 H2. pose proof (extends_num _ _ _ H1) as Hn. destruct H1 as (Ha & Hr & Hf), H2 as (Ha' & Hr' & Hf').
  split_and!; [congruence..|]. rewrite Hf', Hf, imap_app, <-app_assoc. do 2 f_equal. apply imap_ext. intros i x _. cbn. f_equal. lia.
Qed.

(** The state after an item was added, its blocks being the next three. *)
Definition file_of (i n : nat) (it : item) : HI_UDISK_FILEINFO_S :=
  let '(dir, name, t) := it in
  let '(sz, ctime) := match stat64 (item_path dir name) with Some (sz, t) => (sz, u32 t) | None => (0, 0) end in
  mkInfo (Z.of_nat i) (Some t) sz ctime name (item_path dir name) n (S n) (S (S n)).
Definition added (it : item) (st : SCAN) : SCAN :=
  mkScan (ppFileList st) (room st) (files st ++ [file_of (u32FileNum st) (allocs st) it])
    ({[S (S (allocs st))]} ∪ ({[S (allocs st)]} ∪ ({[allocs st]} ∪ heap st))) (S (S (S (allocs st)))) (queries st).

Lemma added_extends it st : extends st (added it st) [it].
Proof.
  split_and!; [done..|]. unfold added. cbn [files]. rewrite fmap_app. f_equal. destruct it as [[dir name] t]. cbn [imap fmap list_fmap].
  rewrite Nat.add_0_r. unfold shown, shown_item, file_of. by destruct (stat64 (item_path dir name)) as [[sz ct]|].
Qed.

(** [AddFileToList] up to the type, which the caller writes. *)
Lemma add_file_works dir name st : (u32FileNum st < room st)%nat → (u32FileNum st < UDISK_RESERVE_MAX_FILE_NUM)%nat →
  ∃ ty, add_file dir name st = Returned (HI_SUCCESS,
    mkScan (ppFileList st) (room st) (files st ++ [let f := file_of (u32FileNum st) (allocs st) (dir, name, 0) in
      mkInfo (u32Index f) ty (u64Size f) (u32CTime f) (pszShortName f) (pszFullName f) (node_block f) (short_block f) (full_block f)])
    ({[S (S (allocs st))]} ∪ ({[S (allocs st)]} ∪ ({[allocs st]} ∪ heap st))) (S (S (S (allocs st)))) (queries st)) ∧
    (is_name "." name || is_name ".." name = true → ty = Some 0).
Proof.
  intros Hr Hm. assert (∃ ty, name_file (Some root) dir name = Returned (ty, item_path dir name) ∧
    (is_name "." name || is_name ".." name = true → ty = Some 0)) as (ty & Hty & Hdots).
  { unfold name_file, item_path. destruct (is_name "." name); [by eexists|]. destruct (is_name ".." name); [by eexists|]. by eexists. }
  exists ty. split; [|done]. unfold UDISK_AddFileToList, malloc. cbn [allocs files room ppFileList queries heap obind].
  rewrite Hty. cbn [obind]. unfold file_of. unfold u32FileNum in *. cbn [files room]. rewrite (proj2 (Nat.ltb_lt _ _) Hm), (proj2 (Nat.ltb_lt _ _) Hr).
  by destruct (stat64 (item_path dir name)) as [[sz ct]|].
Qed.

Lemma add_dots dir name st : (u32FileNum st < room st)%nat → (u32FileNum st < UDISK_RESERVE_MAX_FILE_NUM)%nat →
  is_name "." name || is_name ".." name = true → add_file dir name st = Returned (HI_SUCCESS, added (dir, name, 0) st).
Proof.
  intros Hr Hm Hd. destruct (add_file_works dir name st Hr Hm) as (ty & -> & ->); [|done]. unfold added, file_of.
  by destruct (stat64 (item_path dir name)) as [[sz ct]|].
Qed.

Lemma add_typed_works dir name t st : (u32FileNum st < room st)%nat → (u32FileNum st < UDISK_RESERVE_MAX_FILE_NUM)%nat →
  add_typed dir name t st = Returned (added (dir, name, t) st).
Proof.
  intros Hr Hm. unfold US.add_typed. destruct (add_file_works dir name st Hr Hm) as (ty & -> & _). cbn [obind].
  unfold set_last_type, u32FileNum. cbn [files]. rewrite length_app, Nat.add_comm. cbn [length Nat.add]. f_equal.
  unfold set_files, added. cbn [files]. rewrite (alter_last_file (files st)). unfold file_of.
  by destruct (stat64 (item_path dir name)) as [[sz ct]|].
Qed.

Definition adds (items : list item) (st : SCAN) : SCAN := foldl (λ st it, added it st) st items.

Lemma adds_extends items st : extends st (adds items st) items.
Proof.
  revert st. induction items as [|it items IH]; intros st; [by apply extends_nil|].
  apply (extends_trans _ (added it st) _ [it]); [apply added_extends|apply IH].
Qed.

(** One turn of the loop. *)
Lemma scan_entry_works sub dir e st : (u32FileNum st < room st)%nat → (u32FileNum st < UDISK_RESERVE_MAX_FILE_NUM)%nat →
  scan_entry sub dir opt e st =
    let st' := adds (entry_item opt dir e) st in
    if descends opt dir e then let! (_, st'') := sub (sub_path dir (d_name e)) st' in Returned st'' else Returned st'.
Proof.
  intros Hr Hm. unfold US.scan_entry, entry_item, descends, is_dots. cbv zeta.
  destruct (is_name "." (d_name e)) eqn:E1; cbn [orb negb andb].
  { destruct (flag _ _); [|done]. by rewrite add_dots by (done || by rewrite E1). }
  destruct (is_name ".." (d_name e)) eqn:E2; cbn [orb negb andb].
  { destruct (flag _ _); [|done]. by rewrite add_dots by (done || by rewrite E2, orb_true_r). }
  destruct (too_long dir (d_name e)); cbn [negb andb]; [done|].
  destruct (d_type e =? DT_DIR); cbn [andb].
  { destruct (flag _ _); [rewrite add_typed_works by done|]; cbn [obind]; by destruct (bRecursive opt). }
  destruct (d_type e =? DT_REG); [|done]. destruct (_ =? HI_SUCCESS); [by rewrite add_typed_works by done|done].
Qed.
(** What a scan of the items [l] does to a state with room for all. *)
Definition scans (l : list item) (st : SCAN) (r : outcome (Z * SCAN)) (ret : Z) : Prop :=
  ∃ ret' st' items, r = Returned (ret', st') ∧ extends st st' items ∧ items `sublist_of` l ∧ (u32FileNum st' ≤ UDISK_RESERVE_MAX_FILE_NUM)%nat ∧
    ((∀ k, interrupt k = 0) → items = take (UDISK_RESERVE_MAX_FILE_NUM - u32FileNum st) l ∧ ret' = ret).

Definition fits (st : SCAN) : Prop :=
  (UDISK_RESERVE_MAX_FILE_NUM ≤ room st)%nat ∧ (u32FileNum st ≤ UDISK_RESERVE_MAX_FILE_NUM)%nat.

Lemma scans_none l st st' ret ret' : extends st st' [] → fits st →
  ((∀ k, interrupt k = 0) → ret' = ret ∧ (l = [] ∨ u32FileNum st = UDISK_RESERVE_MAX_FILE_NUM)) →
  scans l st (Returned (ret', st')) ret.
Proof.
  intros He [_ Hn] Hi. exists ret', st', []. split_and!; [done..|apply sublist_nil_l| |].
  - rewrite (extends_num _ _ _ He). cbn [length]. lia.
  - intros H0. destruct (Hi H0) as [-> [-> | ->]]; [by rewrite take_nil|]. by rewrite Nat.sub_diag.
Qed.

Lemma entry_item_one dir e : (length (entry_item opt dir e) ≤ 1)%nat.
Proof.
  unfold entry_item.
  repeat match goal with |- context [if ?b then _ else _] => destruct b end; cbn [length]; lia.
Qed.

(** The items of an entry and of the directory it names. *)
Definition turn_items (below : cstring → list item) dir e : list item :=
  entry_item opt dir e ++ (if descends opt dir e then below (sub_path dir (d_name e)) else []).

Definition scans_below (sub : cstring → SCAN → outcome (Z * SCAN)) (below : cstring → list item) (dir : cstring) : Prop :=
  ∀ e st, descends opt dir e = true → fits st → ∃ ret, scans (below (sub_path dir (d_name e))) st (sub (sub_path dir (d_name e)) st) ret.

(** A turn of the loop in a state that is not full. *)
Lemma turn_scans sub below dir e st : scans_below sub below dir → fits st → (u32FileNum st < UDISK_RESERVE_MAX_FILE_NUM)%nat →
  ∃ st' items, scan_entry sub dir opt e st = Returned st' ∧ extends st st' items ∧ items `sublist_of` turn_items below dir e ∧ fits st' ∧
    ((∀ k, interrupt k = 0) → items = take (UDISK_RESERVE_MAX_FILE_NUM - u32FileNum st) (turn_items below dir e)).
Proof.
  intros Hsub Hf Hlt. rewrite scan_entry_works by (destruct Hf; lia). cbv zeta. set (st1 := adds _ st). unfold turn_items.
  assert (extends st st1 (entry_item opt dir e)) as H1 by apply adds_extends.
  pose proof (extends_num _ _ _ H1) as Hn1. pose proof (entry_item_one dir e) as Hone.
  assert (fits st1) as Hf1. { destruct Hf as [Hr _], H1 as (_ & Hr1 & _). split; [by rewrite Hr1|]. rewrite Hn1. lia. }
  destruct (descends opt dir e) eqn:E.
  - destruct (Hsub e st1 E Hf1) as (ret & ret' & st2 & items & -> & Hx & Hs & Hl & H0). exists st2, (entry_item opt dir e ++ items). cbn [obind].
    split_and!; [done|by eapply extends_trans|by apply sublist_app| |].
    + split; [|done]. destruct Hf1 as [Hr _], Hx as (_ & -> & _). done.
    + intros Hi. destruct (H0 Hi) as [-> _]. rewrite take_app, (take_ge (entry_item opt dir e)) by lia. do 2 f_equal. lia.
  - exists st1, (entry_item opt dir e). rewrite app_nil_r. split_and!; try done. intros _. by rewrite take_ge by lia.
Qed.

Lemma loop_scans sub below dir : scans_below sub below dir →
  ∀ es st, fits st → scans (es ≫= turn_items below dir) st (scan_loop sub dir opt es st) HI_SUCCESS.
Proof.
  intros Hsub. induction es as [|e es IH]; intros st Hf; cbn [US.scan_loop].
  { apply scans_none; [by apply extends_nil|done|]. intros _. split; [done|by left]. }
  destruct (Nat.leb_spec UDISK_RESERVE_MAX_FILE_NUM (u32FileNum st)) as [Hfull|Hfull].
  { apply scans_none; [by apply extends_nil|done|]. intros _. split; [done|right]. destruct Hf. lia. }
  unfold query_interrupt. destruct (Z.eqb_spec (interrupt (queries st)) 0) as [Hq|Hq].
  2: { apply scans_none; [by apply extends_nil|done|]. intros H0. by destruct Hq. }
  set (st0 := mkScan _ _ _ _ _ _).
  destruct (turn_scans sub below dir e st0 Hsub) as (st1 & items & -> & Hx & Hs & Hf1 & H0); [done..|]. cbn [obind].
  assert (extends st st1 items) as H1 by (by apply (extends_trans _ st0 _ []); [apply extends_nil|]).
  destruct (IH st1 Hf1) as (ret & st2 & items' & -> & Hx' & Hs' & Hl' & H0').
  exists ret, st2, (items ++ items'). split_and!; [done|by eapply extends_trans|by apply sublist_app|done|].
  intros Hi. destruct (H0' Hi) as [-> ->]. split; [|done]. rewrite bind_cons, take_app, (extends_num _ _ _ H1).
  rewrite (H0 Hi), length_take. change (u32FileNum st0) with (u32FileNum st). f_equal. f_equal. lia.
Qed.

Lemma scan_dir_scans fuel : ∀ dir st, (room_for dir < fuel)%nat → fits st →
  scans (listing_fuel fuel dir) st (scan_dir fuel opt dir st) (match opendir dir with Some _ => HI_SUCCESS | None => HI_UDISK_ERR_NOTEXIST end).
Proof.
  induction fuel as [|fuel IH]; intros dir st Hd Hf; [lia|]. cbn [UDISK_ScanDir US.listing_fuel].
  destruct (opendir dir) as [es|].
  - apply (loop_scans _ (listing_fuel fuel)); [|done]. intros e st' He Hf'. apply descends_deeper in He. eexists. apply IH; [lia|done].
  - apply scans_none; [by apply extends_nil|done|]. intros _. split; [done|by left].
Qed.
End scanning.

(** ** The blocks of a list *)

Definition blocks (f : HI_UDISK_FILEINFO_S) : list nat := [node_block f; short_block f; full_block f].
Definition names (f : HI_UDISK_FILEINFO_S) : list nat := [short_block f; full_block f].

(** The list has blocks of its own, beside those of the rest of the program. *)
Record owns (arr : option nat) (base : gset nat) (st : SCAN) : Prop := mkOwns {
  ow_array : ppFileList st = arr;
  ow_nodup : NoDup (files st ≫= blocks);
  ow_heap : heap st = base ∪ list_to_set (files st ≫= blocks);
  ow_apart : ∀ b, b ∈ files st ≫= blocks → b ∉ base;
  ow_new : ∀ b, b ∈ heap st → (b < allocs st)%nat }.

Section keeping.
Variable opendir : cstring → option (list DIRENT).
Variable stat64 : cstring → option (Z * Z).
Variable malloc_fails : nat → bool.
Variable interrupt : nat → Z.
Variable m_UDisk_Root : option cstring.
Variable opt : HI_UDISK_SCAN_S.
Variable arr : option nat.
Variable base : gset nat.

Abbreviation malloc := (malloc malloc_fails).
Abbreviation add_file := (UDISK_AddFileToList stat64 malloc_fails m_UDisk_Root).
Abbreviation add_typed := (add_typed stat64 malloc_fails m_UDisk_Root).
Abbreviation scan_entry := (scan_entry stat64 malloc_fails m_UDisk_Root).
Abbreviation scan_loop := (scan_loop stat64 malloc_fails interrupt m_UDisk_Root).
Abbreviation scan_dir := (UDISK_ScanDir opendir stat64 malloc_fails interrupt m_UDisk_Root).

Lemma free_Returned b st st' : free b st = Returned st' ↔ b ∈ heap st ∧ st' = set_heap st (heap st ∖ {[b]}).
Proof. unfold free. case_bool_decide; split; [by intros [= <-]|by intros [_ ->]|done|by intros []]. Qed.

(** Blocks that were allocated and given back again. *)
Lemma owns_same st st' : owns arr base st → ppFileList st' = ppFileList st → files st' = files st → heap st' = heap st → (allocs st ≤ allocs st')%nat → owns arr base st'.
Proof.
  intros [Hp Hd Hh Ha Hn] Hp' Hf Hh' Hl. split; [by rewrite Hp'|by rewrite Hf|by rewrite Hh', Hf|by rewrite Hf|]. intros b. rewrite Hh'. intros Hb. apply Hn in Hb. lia.
Qed.

(** A file with three new blocks. *)
Lemma owns_push st f : owns arr base st → (let n := allocs st in blocks f = [n; S n; S (S n)]) →
  owns arr base (mkScan (ppFileList st) (room st) (files st ++ [f])
    ({[S (S (allocs st))]} ∪ ({[S (allocs st)]} ∪ ({[allocs st]} ∪ heap st))) (S (S (S (allocs st)))) (queries st)).
Proof.
  intros [Hp Hd Hh Ha Hn] Hb. cbv zeta in Hb.
  assert (∀ k, (allocs st ≤ k)%nat → k ∉ heap st) as Hnew. { intros k Hk Hin. apply Hn in Hin. lia. }
  assert (∀ b, b ∈ files st ≫= blocks → b ∈ heap st) as Hin. { intros b ?. rewrite Hh. set_solver. }
  constructor; cbn [ppFileList files heap allocs]; [done|..]; rewrite ?bind_app, ?bind_cons, ?bind_nil, ?app_nil_r, ?Hb.
  - apply NoDup_app. split_and!; [done| |].
    + intros b Hb' Hc. apply Hin, Hn in Hb'. rewrite !elem_of_cons in Hc. destruct Hc as [-> |[-> |[-> |?%not_elem_of_nil]]]; lia || done.
    + apply (bool_decide_eq_true_1 _). rewrite bool_decide_eq_true. repeat constructor; rewrite ?elem_of_cons, ?elem_of_nil; lia.
  - rewrite list_to_set_app_L, Hh. cbn [list_to_set]. set_solver.
  - intros b Hc. apply elem_of_app in Hc as [Hc|Hc]; [by apply Ha|]. intros Hbase.
    assert (b ∈ heap st) as Hbh by (rewrite Hh; set_solver). apply Hn in Hbh. rewrite !elem_of_cons in Hc.
    destruct Hc as [-> |[-> |[-> |?%not_elem_of_nil]]]; lia || done.
  - intros b Hc. rewrite !elem_of_union, !elem_of_singleton in Hc. destruct Hc as [-> |[-> |[-> |Hc]]]; try lia. apply Hn in Hc. lia.
Qed.

Lemma add_keeps dir name st r st' : owns arr base st → add_file dir name st = Returned (r, st') → owns arr base st'.
Proof.
  intros Ho. unfold UDISK_AddFileToList, US.malloc.
  assert (∀ k, (allocs st ≤ k)%nat → k ∉ heap st) as Hnew. { intros k Hk Hin. apply (ow_new _ _ _ Ho) in Hin. lia. }
  pose proof (Hnew (allocs st) ltac:(lia)) as N0. pose proof (Hnew (S (allocs st)) ltac:(lia)) as N1.
  pose proof (Hnew (S (S (allocs st))) ltac:(lia)) as N2.
  destruct (malloc_fails (allocs st)); [intros [= _ <-]; by apply (owns_same st); [..|cbn; lia]|].
  cbn [allocs]. destruct (malloc_fails (S (allocs st))).
  { intros (st1 & (_ & ->)%free_Returned & [= _ <-])%obind_returned. apply (owns_same st); [done..| |cbn; lia]. cbn [heap set_heap]. set_solver. }
  cbn [allocs]. destruct (malloc_fails (S (S (allocs st)))).
  { intros (st1 & (_ & ->)%free_Returned & (st2 & (_ & ->)%free_Returned & [= _ <-])%obind_returned)%obind_returned.
    apply (owns_same st); [done..| |cbn; lia]. cbn [heap set_heap]. set_solver. }
  cbn [allocs]. intros ([ty full] & _ & H)%obind_returned. destruct (match stat64 full with Some _ => _ | None => _ end) as [sz ctime].
  unfold u32FileNum in H. cbn [files room heap ppFileList queries allocs] in H. destruct (length (files st) <? UDISK_RESERVE_MAX_FILE_NUM)%nat.
  - destruct (length (files st) <? room st)%nat; [|done]. injection H as _ <-. refine (owns_push st (mkInfo _ _ _ _ _ _ _ _ _) Ho _). reflexivity.
  - apply obind_returned in H as (st1 & (_ & ->)%free_Returned & (st2 & (_ & ->)%free_Returned & (st3 & (_ & ->)%free_Returned & [= _ <-])%obind_returned)%obind_returned).
    apply (owns_same st); [done..| |cbn; lia]. cbn [heap set_heap]. set_solver.
Qed.

Lemma alter_blocks l k t : alter (set_type t) k l ≫= blocks = l ≫= blocks.
Proof.
  revert k. induction l as [|f l IH]; intros [|k]; try done. change (alter (set_type t) (S k) (f :: l)) with (f :: alter (set_type t) k l).
  by rewrite !bind_cons, IH.
Qed.

Lemma set_last_type_keeps t st st' : owns arr base st → set_last_type t st = Returned st' → owns arr base st'.
Proof.
  intros [Hp Hd Hh Ha Hn] H. unfold set_last_type in H. destruct (u32FileNum st); [done|]. injection H as <-.
  constructor; cbn [ppFileList files set_files heap allocs]; by rewrite ?alter_blocks.
Qed.

Lemma add_typed_keeps dir name t st st' : owns arr base st → add_typed dir name t st = Returned st' → owns arr base st'.
Proof.
  intros Ho ([r st1] & H1 & H2)%obind_returned. eapply set_last_type_keeps; [|done]. by eapply add_keeps.
Qed.

(** A directory below keeps the blocks. *)
Definition keeps_below (sub : cstring → SCAN → outcome (Z * SCAN)) : Prop :=
  ∀ dir st r st', owns arr base st → sub dir st = Returned (r, st') → owns arr base st'.

Lemma scan_entry_keeps sub dir e st st' : keeps_below sub → owns arr base st → scan_entry sub dir opt e st = Returned st' → owns arr base st'.
Proof.
  intros Hsub Ho. unfold US.scan_entry.
  assert (∀ st st', owns arr base st → (let! (_, st) := add_file dir (d_name e) st in Returned st) = Returned st' → owns arr base st') as Hadd.
  { intros st1 st2 Ho1 ([r st3] & H & [= <-])%obind_returned. by eapply add_keeps. }
  destruct (is_name "." (d_name e)); [destruct (flag _ _); [by apply Hadd|by intros [= <-]]|].
  destruct (is_name ".." (d_name e)); [destruct (flag _ _); [by apply Hadd|by intros [= <-]]|].
  destruct (too_long _ _); [by intros [= <-]|]. destruct (d_type e =? DT_DIR).
  - intros (st1 & H1 & H2)%obind_returned. assert (owns arr base st1) as Ho1.
    { destruct (flag _ _); [by eapply add_typed_keeps|by injection H1 as <-]. }
    destruct (bRecursive opt); [|by injection H2 as <-]. apply obind_returned in H2 as ([r st2] & H2 & [= <-]). by eapply Hsub.
  - destruct (d_type e =? DT_REG); [|by intros [= <-]]. destruct (_ =? HI_SUCCESS); [by apply add_typed_keeps|by intros [= <-]].
Qed.

Lemma query_keeps st : owns arr base st → owns arr base (query_interrupt interrupt st).2.
Proof. intros Ho. by apply (owns_same st); [..|cbn; lia]. Qed.

(** A scan keeps the blocks; it fails with an array that is not full. *)
Lemma scan_loop_keeps sub dir es : keeps_below sub → ∀ st r st', owns arr base st → scan_loop sub dir opt es st = Returned (r, st') →
  owns arr base st' ∧ (r = HI_SUCCESS ∨ (u32FileNum st' < UDISK_RESERVE_MAX_FILE_NUM)%nat).
Proof.
  intros Hsub. induction es as [|e es IH]; intros st r st' Ho; cbn [US.scan_loop]; [by intros [= <- <-]; auto|].
  destruct (Nat.leb_spec UDISK_RESERVE_MAX_FILE_NUM (u32FileNum st)) as [Hl|Hl]; [by intros [= <- <-]; auto|].
  apply query_keeps in Ho. assert (u32FileNum (query_interrupt interrupt st).2 = u32FileNum st) as Hq by done.
  destruct (query_interrupt interrupt st) as [q st1]. destruct (q =? 0); [|by intros [= _ <-]; rewrite <-Hq in Hl; auto].
  intros (st2 & H1 & H2)%obind_returned. eapply IH; [|done]. by eapply scan_entry_keeps.
Qed.

Lemma scan_dir_keeps fuel : ∀ dir st r st', owns arr base st → scan_dir fuel opt dir st = Returned (r, st') →
  owns arr base st' ∧ (r = HI_SUCCESS ∨ files st' = files st ∨ (u32FileNum st' < UDISK_RESERVE_MAX_FILE_NUM)%nat).
Proof.
  induction fuel as [|fuel IH]; intros dir st r st' Ho; [done|]. cbn [UDISK_ScanDir]. destruct (opendir dir) as [es|].
  - intros H. eapply (scan_loop_keeps (scan_dir fuel opt)) in H as [? [?|?]]; [by auto..| |done]. intros dir' st1 r1 st2 Ho1 H1. by eapply IH.
  - intros [= <- <-]. auto.
Qed.
End keeping.

(** ** Giving a list back *)

(** The names that are kept when the array was full. *)
Definition left_over (num : nat) (l : list HI_UDISK_FILEINFO_S) : gset nat :=
  if (num <? UDISK_RESERVE_MAX_FILE_NUM)%nat then ∅ else list_to_set (l ≫= names).

Lemma free_works b st : b ∈ heap st → free b st = Returned (set_heap st (heap st ∖ {[b]})).
Proof. intros Hb. by apply free_Returned. Qed.

Lemma blocks_apart f l (base : gset nat) : NoDup ((f :: l) ≫= blocks) → (∀ b, b ∈ (f :: l) ≫= blocks → b ∉ base) →
  let rest := base ∪ list_to_set (l ≫= blocks) in
  node_block f ≠ short_block f ∧ node_block f ≠ full_block f ∧ short_block f ≠ full_block f ∧
  node_block f ∉ rest ∧ short_block f ∉ rest ∧ full_block f ∉ rest.
Proof.
  rewrite bind_cons. intros Hd Ha rest. apply NoDup_app in Hd as (Hf & Hfl & _).
  assert (∀ b, b ∈ blocks f → b ∉ rest) as Hr.
  { intros b Hb. unfold rest. rewrite elem_of_union, elem_of_list_to_set. intros [Hin|Hin]; [|by eapply Hfl].
    apply (Ha b); [|done]. apply elem_of_app. by left. }
  unfold blocks in Hf. rewrite !NoDup_cons in Hf. destruct Hf as (H1 & H2 & _). rewrite !not_elem_of_cons in H1, H2.
  split_and!; try apply Hr; unfold blocks; set_solver.
Qed.

Lemma free_loop_works num l : ∀ (base : gset nat) st,
  NoDup (l ≫= blocks) → heap st = base ∪ list_to_set (l ≫= blocks) → (∀ b, b ∈ l ≫= blocks → b ∉ base) →
  ∃ st', free_loop num l st = Returned st' ∧ heap st' = base ∪ left_over num l ∧ ppFileList st' = ppFileList st.
Proof.
  induction l as [|f l IH]; intros base st Hd Hh Ha; cbn [free_loop].
  { exists st. split_and!; [done| |done]. rewrite Hh. unfold left_over. destruct (num <? _)%nat; reflexivity. }
  destruct (blocks_apart f l base Hd Ha) as (N1 & N2 & N3 & A1 & A2 & A3).
  assert (heap st = {[node_block f; short_block f; full_block f]} ∪ (base ∪ list_to_set (l ≫= blocks))) as Hh'.
  { rewrite Hh, bind_cons, list_to_set_app_L. unfold blocks at 1. cbn [list_to_set]. set_solver. }
  rewrite bind_cons in Hd. apply NoDup_app in Hd as (_ & _ & Hd).
  assert (∀ b, b ∈ l ≫= blocks → b ∉ base) as Ha' by (intros b Hb; apply Ha; rewrite bind_cons; set_solver).
  unfold left_over. destruct (num <? UDISK_RESERVE_MAX_FILE_NUM)%nat eqn:En.
  - unfold free_names. rewrite free_works by set_solver. cbn [obind]. rewrite free_works by (cbn [heap set_heap]; set_solver). cbn [obind].
    rewrite free_works by (cbn [heap set_heap]; set_solver). cbn [obind].
    edestruct (IH base) as (st' & Hr & Hst & Hp); [done| |done|exists st'; split_and!; [exact Hr| |done]].
    + cbn [heap set_heap]. rewrite Hh'. set_solver.
    + rewrite Hst. unfold left_over. by rewrite En.
  - cbn [obind]. rewrite free_works by set_solver. cbn [obind].
    edestruct (IH (base ∪ list_to_set (names f))) as (st' & Hr & Hst & Hp); [done| | |exists st'; split_and!; [exact Hr| |done]].
    + cbn [heap set_heap]. rewrite Hh'. unfold names. cbn [list_to_set]. set_solver.
    + intros b Hb. specialize (Ha' b Hb). assert (b ≠ short_block f ∧ b ≠ full_block f) by (split; intros ->; set_solver). unfold names. set_solver.
    + rewrite Hst. unfold left_over. rewrite En, bind_cons, list_to_set_app_L. set_solver.
Qed.

Lemma free_list_works (base : gset nat) a st : owns (Some a) ({[a]} ∪ base) st → a ∉ base →
  ∃ st', HI_UDISK_FreeFileList st = Returned (HI_SUCCESS, st') ∧ heap st' = base ∪ left_over (u32FileNum st) (files st) ∧ files st' = [].
Proof.
  intros [Hp Hd Hh Ha Hn] Hna. unfold HI_UDISK_FreeFileList. rewrite Hp.
  destruct (free_loop_works (length (files st)) (files st) ({[a]} ∪ base) st Hd Hh Ha) as (st1 & Hr & Hh1 & Hp1).
  assert (a ∉ left_over (length (files st)) (files st)) as Hal.
  { unfold left_over. destruct (_ <? _)%nat; [set_solver|]. rewrite elem_of_list_to_set. intros Hin.
    apply (Ha a); [|set_solver]. apply list_elem_of_bind in Hin as (f & Hf & Hfl). apply list_elem_of_bind. exists f. split; [|done]. right. exact Hf. }
  exists (set_array (set_heap st1 (heap st1 ∖ {[a]})) None 0). split_and!; [|cbn [heap set_heap set_array]|done].
  - destruct (files st); rewrite Hr; cbn [obind]; rewrite free_works by (rewrite Hh1; set_solver); done.
  - rewrite Hh1. unfold u32FileNum. set_solver.
Qed.

(** ** The calls *)

Section calls.
Variable opendir : cstring → option (list DIRENT).
Variable stat64 : cstring → option (Z * Z).
Variable interrupt : nat → Z.

(** The numbers of calls of [malloc] to come belong to no block. *)
Definition new_numbers (st : SCAN) : Prop := ∀ b, b ∈ heap st → (b < allocs st)%nat.

Lemma owns_array st a n : new_numbers st → a = allocs st →
  owns (Some a) ({[a]} ∪ heap st) (mkScan (Some a) n [] ({[a]} ∪ heap st) (S a) (queries st)).
Proof.
  intros Hn ->. constructor; cbn [ppFileList files heap allocs]; rewrite ?bind_nil; [done|constructor|set_solver|set_solver|].
  intros b Hb. apply elem_of_union in Hb as [->%elem_of_singleton|Hb]; [lia|]. apply Hn in Hb. lia.
Qed.

(** A list that was made, however [malloc] and the queries answered. *)
Lemma get_file_list_owns fails root dir opt st r st' : new_numbers st →
  HI_UDISK_GetFileList opendir stat64 fails interrupt root dir opt st = Returned (r, st') →
  (r ≠ HI_SUCCESS ∧ heap st' = heap st) ∨
  (r = HI_SUCCESS ∧ ∃ a, a ∉ heap st ∧ owns (Some a) ({[a]} ∪ heap st) st').
Proof.
  intros Hn. unfold HI_UDISK_GetFileList, malloc. destruct (fails (allocs st)); [intros [= <- <-]; by left|].
  set (st0 := set_array _ _ _). assert (owns (Some (allocs st)) ({[allocs st]} ∪ heap st) st0) as Ho by exact (owns_array st _ UDISK_RESERVE_MAX_FILE_NUM Hn eq_refl).
  assert (allocs st ∉ heap st) as Ha. { intros Hin. apply Hn in Hin. lia. }
  intros ([ret st1] & H1 & H2)%obind_returned.
  eapply scan_dir_keeps in H1 as [Ho1 Hr]; [|exact Ho]. destruct (Z.eqb_spec ret HI_SUCCESS) as [->|Hne].
  - injection H2 as <- <-. right. split; [done|]. exists (allocs st). by split.
  - left. apply obind_returned in H2 as ([r2 st2] & H2 & [= <- <-]). split; [done|].
    destruct (free_list_works _ _ _ Ho1 Ha) as (st3 & H3 & Hh & _). rewrite H3 in H2. injection H2 as _ <-. rewrite Hh.
    destruct Hr as [?|[Hr|Hr]]; [done| |].
    + unfold left_over, u32FileNum. rewrite Hr. cbn. set_solver.
    + unfold left_over. rewrite (proj2 (Nat.ltb_lt _ _) Hr). set_solver.
Qed.

(** C17: a list of files that is given back leaves the memory as it was before
    it was made, whatever allocations failed, unless it is full: then the names
    of all its 2048 files stay allocated.  A call that fails, interrupted or
    without a directory, gives back everything itself. *)
Theorem file_list_given_back fails root dir opt st r st' : new_numbers st →
  HI_UDISK_GetFileList opendir stat64 fails interrupt root dir opt st = Returned (r, st') →
  if r =? HI_SUCCESS then
    ∃ st'', HI_UDISK_FreeFileList st' = Returned (HI_SUCCESS, st'') ∧ files st'' = [] ∧
      heap st'' = heap st ∪ (if (u32FileNum st' <? UDISK_RESERVE_MAX_FILE_NUM)%nat then ∅ else list_to_set (files st' ≫= names))
  else heap st' = heap st.
Proof.
  intros Hn H. destruct (get_file_list_owns _ _ _ _ _ _ _ Hn H) as [[Hr Hh]|(-> & a & Ha & Ho)].
  - by rewrite (proj2 (Z.eqb_neq _ _) Hr).
  - rewrite Z.eqb_refl. destruct (free_list_works _ _ _ Ho Ha) as (st2 & H2 & Hh & Hf). by exists st2.
Qed.

(** C16: while no allocation fails and nobody interrupts, the list has the
    entries the options ask for, in the order of the scan, the first 2048 of
    them: each with its place, type, size, time, name and path. *)
Theorem file_list_complete root dir es opt st :
  opendir dir = Some es → (∀ k, interrupt k = 0) →
  ∃ st', HI_UDISK_GetFileList opendir stat64 (λ _, false) interrupt (Some root) dir opt st = Returned (HI_SUCCESS, st') ∧
    shown <$> files st' = imap (shown_item stat64 root) (take UDISK_RESERVE_MAX_FILE_NUM (listing opendir opt dir)).
Proof.
  intros Hd Hi. unfold HI_UDISK_GetFileList, malloc. set (st0 := set_array _ _ _).
  destruct (scan_dir_scans opendir stat64 interrupt root opt DEPTH dir st0) as (ret & st1 & items & -> & Hx & _ & _ & H0).
  { apply room_for_depth. }
  { split; cbn; lia. }
  destruct (H0 Hi) as [-> ->]. cbn [obind]. rewrite Hd, Z.eqb_refl. exists st1. split; [done|].
  destruct Hx as (_ & _ & ->). by rewrite Nat.sub_0_r.
Qed.

(** The call returns whatever the queries answer, without a fault, when no
    allocation fails.  Interrupted in a directory below, it lists a part of the
    entries in the same order, at most 2048; interrupted in the directory
    itself, it fails with an empty list. *)
Theorem file_list_interrupted root dir opt st : new_numbers st →
  ∃ r st', HI_UDISK_GetFileList opendir stat64 (λ _, false) interrupt (Some root) dir opt st = Returned (r, st') ∧
    if r =? HI_SUCCESS then
      ∃ items, shown <$> files st' = imap (shown_item stat64 root) items ∧
        items `sublist_of` listing opendir opt dir ∧ (length items ≤ UDISK_RESERVE_MAX_FILE_NUM)%nat
    else files st' = [].
Proof.
  intros Hn. unfold HI_UDISK_GetFileList, malloc. set (st0 := set_array _ _ _).
  assert (owns (Some (allocs st)) ({[allocs st]} ∪ heap st) st0) as Ho by exact (owns_array st _ UDISK_RESERVE_MAX_FILE_NUM Hn eq_refl).
  assert (allocs st ∉ heap st) as Ha. { intros Hin. apply Hn in Hin. lia. }
  destruct (scan_dir_scans opendir stat64 interrupt root opt DEPTH dir st0) as (ret & st1 & items & Hrun & Hx & Hs & Hl & _).
  { apply room_for_depth. }
  { split; cbn; lia. }
  rewrite Hrun. cbn [obind]. eapply scan_dir_keeps in Hrun as [Ho1 _]; [|exact Ho].
  destruct (ret =? HI_SUCCESS) eqn:Er.
  - exists ret, st1. split; [done|]. rewrite Er. exists items. split_and!; [|done|].
    + by destruct Hx as (_ & _ & ->).
    + by rewrite (extends_num _ _ _ _ _ Hx) in Hl.
  - destruct (free_list_works _ _ _ Ho1 Ha) as (st2 & -> & _ & Hf). exists ret, st2. cbn [obind]. by rewrite Er.
Qed.

Lemma no_new_numbers a n k q : new_numbers (mkScan a n [] ∅ k q).
Proof. intros b Hb. by apply not_elem_of_empty in Hb. Qed.

End calls.

(** A disk with a folder: [/mnt/sda1] with [a.mp3], [b.txt] and [d], which has
    [c.mp3]. *)
Definition example_disk (path : cstring) : option (list DIRENT) :=
  if decide (path = bytes "/mnt/sda1") then
    Some [mkDirent (bytes ".") 4; mkDirent (bytes "a.mp3") 8; mkDirent (bytes "d") 4; mkDirent (bytes "b.txt") 8]
  else if decide (path = bytes "/mnt/sda1/d") then Some [mkDirent (bytes "..") 4; mkDirent (bytes "c.MP3") 8]
  else None.
Definition example_opt : HI_UDISK_SCAN_S := mkOpt true 0x11 5 (Some (bytes ".mp3")).
Definition example_scan : SCAN := mkScan None 0 [] ∅ 0 0.

Lemma example_listing : listing example_disk example_opt (bytes "/mnt/sda1") =
  [(bytes "/mnt/sda1", bytes "a.mp3", 1); (bytes "/mnt/sda1", bytes "d", 0);
   (bytes "/mnt/sda1/d", bytes "..", 0); (bytes "/mnt/sda1/d", bytes "c.MP3", 1)].
Proof. vm_compute. reflexivity. Qed.

Lemma file_list_complete_witness : ∃ st',
  HI_UDISK_GetFileList example_disk (λ _, None) (λ _, false) (λ _, 0) (Some (bytes "/mnt")) (bytes "/mnt/sda1") example_opt example_scan
    = Returned (HI_SUCCESS, st') ∧
  pszFullName <$> files st' = [bytes "/mnt/sda1/a.mp3"; bytes "/mnt/sda1/d"; bytes "/mnt/sda1"; bytes "/mnt/sda1/d/c.MP3"].
Proof.
  edestruct (file_list_complete example_disk (λ _, None) (λ _, 0) (bytes "/mnt") (bytes "/mnt/sda1")) as (st' & H & Hs);
    [reflexivity|done|]. exists st'. split; [exact H|]. rewrite example_listing in Hs.
  transitivity ((λ x, x.2.2) <$> (shown <$> files st')); [by rewrite <-list_fmap_compose|]. rewrite Hs. reflexivity.
Defined.

Lemma file_list_given_back_witness : ∃ r st',
  HI_UDISK_GetFileList example_disk (λ _, None) (λ n, bool_decide (n = 5%nat)) (λ _, 0) (Some (bytes "/mnt")) (bytes "/mnt/sda1") example_opt example_scan
    = Returned (r, st') ∧
  (if r =? HI_SUCCESS then
    ∃ st'', HI_UDISK_FreeFileList st' = Returned (HI_SUCCESS, st'') ∧ files st'' = [] ∧
      heap st'' = heap example_scan ∪ (if (u32FileNum st' <? UDISK_RESERVE_MAX_FILE_NUM)%nat then ∅ else list_to_set (files st' ≫= names))
  else heap st' = heap example_scan).
Proof.
  eexists _, _. split; [vm_compute; reflexivity|].
  eapply (file_list_given_back example_disk (λ _, None) (λ _, 0) (λ n, bool_decide (n = 5%nat)) (Some (bytes "/mnt")) (bytes "/mnt/sda1") example_opt).
  - apply no_new_numbers.
  - vm_compute. reflexivity.
Defined.

Lemma file_list_interrupted_witness : ∃ r st',
  HI_UDISK_GetFileList example_disk (λ _, None) (λ _, false) (λ k, if decide (k = 3%nat) then 1 else 0) (Some (bytes "/mnt")) (bytes "/mnt/sda1")
    example_opt example_scan = Returned (r, st') ∧
  if r =? HI_SUCCESS then
    ∃ items, shown <$> files st' = imap (shown_item (λ _, None) (bytes "/mnt")) items ∧
      items `sublist_of` listing example_disk example_opt (bytes "/mnt/sda1") ∧ (length items ≤ UDISK_RESERVE_MAX_FILE_NUM)%nat
  else files st' = [].
Proof. apply (file_list_interrupted example_disk (λ _, None) _ (bytes "/mnt") (bytes "/mnt/sda1") example_opt), no_new_numbers. Defined.

(** ** A part of a list *)

Section indexing.
Variable opendir : cstring → option (list DIRENT).
Variable stat64 : cstring → option (Z * Z).
Variable interrupt : nat → Z.
Variable root : cstring.
Variable opt : HI_UDISK_SCAN_S.
Hypothesis flat : bRecursive opt = false.
Hypothesis quiet : ∀ k, interrupt k = 0.

Abbreviation never := (λ _ : nat, false).
Abbreviation added := (added stat64 root).
Abbreviation index_entry := (index_entry stat64 never (Some root)).
Abbreviation index_loop := (index_loop stat64 never interrupt (Some root)).
Abbreviation extends := (extends stat64 root).

Lemma listing_flat dir es : opendir dir = Some es → listing opendir opt dir = es ≫= entry_item opt dir.
Proof.
  intros Hd. rewrite listing_unfold, Hd. apply bind_ext_in. intros e _. unfold descends. rewrite flat, !andb_false_r. apply app_nil_r.
Qed.

Lemma add_at_works (start maxi idx : Z) (add : SCAN → outcome SCAN) it st :
  add st = Returned (added it st) →
  add_at start maxi add idx st = Returned (u32 (idx + 1), if (start <=? idx) && (idx <=? maxi) then added it st else st).
Proof. intros Ha. unfold add_at. destruct (_ && _); [by rewrite Ha|done]. Qed.

Lemma index_entry_works sub start maxi dir e idx st : (u32FileNum st < room st)%nat → (u32FileNum st < UDISK_RESERVE_MAX_FILE_NUM)%nat →
  index_entry sub start maxi dir opt e idx st =
    match entry_item opt dir e with
    | [] => Returned (idx, st)
    | it :: _ => Returned (u32 (idx + 1), if (start <=? idx) && (idx <=? maxi) then added it st else st)
    end.
Proof.
  intros Hr Hm. unfold US.index_entry, entry_item. cbv zeta. rewrite flat.
  assert (is_name "." (d_name e) || is_name ".." (d_name e) = true →
    (let! (_, st) := UDISK_AddFileToList stat64 never (Some root) dir (d_name e) st in Returned st) = Returned (added (dir, d_name e, 0) st)) as Hadd.
  { intros Hd. by rewrite add_dots by done. }
  destruct (is_name "." (d_name e)); [destruct (flag _ _); [|done]; apply add_at_works; by apply Hadd|].
  destruct (is_name ".." (d_name e)); [destruct (flag _ _); [|done]; apply add_at_works; by apply Hadd|].
  destruct (too_long dir (d_name e)); [done|].
  destruct (d_type e =? DT_DIR); [destruct (flag _ _); [|done]; erewrite add_at_works by (by apply add_typed_works); done|].
  destruct (d_type e =? DT_REG); [|done]. destruct (_ =? HI_SUCCESS); [|done]. apply add_at_works. by apply add_typed_works.
Qed.

(** The loop at place [i], with [num] files of those from [s] on in the list. *)
Lemma index_loop_lists sub (s c : nat) dir : (0 < c)%nat → Z.of_nat s + Z.of_nat c ≤ 2 ^ 32 →
  ∀ es i st, Z.of_nat i + Z.of_nat (length (es ≫= entry_item opt dir)) < 2 ^ 32 → u32FileNum st = (i - s)%nat → (c ≤ room st)%nat →
  ∃ st', index_loop sub (Z.of_nat s) (Z.of_nat c) dir opt es (Z.of_nat i) st = Returned (HI_SUCCESS, st') ∧
    extends st st' (take (c `min` UDISK_RESERVE_MAX_FILE_NUM - (i - s)) (drop (s - i) (es ≫= entry_item opt dir))).
Proof.
  intros Hc Hmax. induction es as [|e es IH]; intros i st Hi Hn Hr; cbn [US.index_loop].
  { exists st. split; [done|]. cbn [mbind list_bind]. rewrite drop_nil, take_nil. by apply extends_nil. }
  assert ((c `min` UDISK_RESERVE_MAX_FILE_NUM ≤ i - s)%nat → extends st st (take (c `min` UDISK_RESERVE_MAX_FILE_NUM - (i - s)) (drop (s - i) ((e :: es) ≫= entry_item opt dir)))) as Hfull.
  { intros Hle. replace (_ - (i - s))%nat with O by lia. rewrite take_0. by apply extends_nil. }
  destruct (Z.ltb_spec (Z.of_nat (u32FileNum st)) (Z.of_nat c)) as [Hl|Hl]; cbn [negb]; [|exists st; split; [done|apply Hfull; lia]].
  destruct (Nat.leb_spec UDISK_RESERVE_MAX_FILE_NUM (u32FileNum st)) as [Hm|Hm]; [exists st; split; [done|apply Hfull; lia]|].
  unfold query_interrupt. rewrite quiet. cbn [Z.eqb]. set (st0 := mkScan _ _ _ _ _ _). rewrite index_entry_works by (cbn; unfold u32FileNum in *; cbn; lia).
  assert (extends st st0 []) as H0 by by apply extends_nil. change (u32FileNum st0) with (u32FileNum st).
  pose proof (entry_item_one opt dir e) as Hone. rewrite bind_cons, length_app in Hi. rewrite bind_cons. clear Hfull.
  destruct (entry_item opt dir e) as [|it [|it' rest]]; cbn [length app] in *; [| |lia].
  - cbn [obind]. destruct (IH i st0) as (st' & Hrun & Hx); [lia|done|done|]. exists st'. split; [exact Hrun|].
    exact (extends_trans _ _ _ _ _ [] _ H0 Hx).
  - cbn [obind]. replace (u32 (Z.of_nat i + 1)) with (Z.of_nat (S i)) by (rewrite u32_small; lia).
    rewrite (u32_small (Z.of_nat s + _ - 1)) by lia. destruct (Nat.le_gt_cases s i) as [Hsi|Hsi].
    + rewrite (proj2 (Z.leb_le _ _)), (proj2 (Z.leb_le (Z.of_nat i) _)) by lia. cbn [andb].
      destruct (IH (S i) (added it st0)) as (st' & Hrun & Hx); [lia| |done|].
      { rewrite (extends_num _ _ _ _ _ (added_extends stat64 root it st0)). change (u32FileNum st0) with (u32FileNum st). cbn [length]. lia. }
      exists st'. split; [exact Hrun|]. replace (s - i)%nat with O by lia. replace (s - S i)%nat with O in Hx by lia. rewrite drop_0 in *.
      replace (c `min` UDISK_RESERVE_MAX_FILE_NUM - (i - s))%nat with (S (c `min` UDISK_RESERVE_MAX_FILE_NUM - (S i - s))) by lia.
      refine (extends_trans _ _ _ (added it st0) _ [it] _ _ Hx). refine (extends_trans _ _ _ st0 _ [] _ H0 _). apply added_extends.
    + rewrite (proj2 (Z.leb_gt _ _)) by lia. cbn [andb]. destruct (IH (S i) st0) as (st' & Hrun & Hx); [lia|change (u32FileNum st0) with (u32FileNum st); lia|done|].
      exists st'. split; [exact Hrun|]. replace (s - i)%nat with (S (s - S i)) by lia. cbn [drop].
      replace (i - s)%nat with (S i - s)%nat by lia. exact (extends_trans _ _ _ _ _ [] _ H0 Hx).
Qed.
End indexing.

Lemma scan_with_index_step opendir stat64 fails interrupt root fuel opt count dir start st :
  UDISK_ScanDirWithIndex opendir stat64 fails interrupt root (S fuel) opt count dir start st =
    match opendir dir with
    | None => Returned (HI_UDISK_ERR_NOTEXIST, st)
    | Some es => index_loop stat64 fails interrupt root (UDISK_ScanDirWithIndex opendir stat64 fails interrupt root fuel opt count) start count dir opt es 0 st
    end.
Proof. done. Qed.

(** Without directories below, the files from a start on are the part of the
    whole listing from it on, as many as asked for and at most 2048, and come
    with places from 0 on. *)
Theorem file_list_part opendir stat64 interrupt root dir es opt s c st :
  opendir dir = Some es → (∀ k, interrupt k = 0) → bRecursive opt = false →
  (0 < c)%nat → Z.of_nat c < 2 ^ 30 → Z.of_nat s + Z.of_nat c ≤ 2 ^ 32 → Z.of_nat (length (listing opendir opt dir)) < 2 ^ 32 →
  ∃ st', HI_UDISK_GetFileListWithIndex opendir stat64 (λ _, false) interrupt (Some root) dir opt (Z.of_nat s) (Z.of_nat c) st
      = Returned (HI_SUCCESS, st') ∧
    shown <$> files st' = imap (shown_item stat64 root) (take (c `min` UDISK_RESERVE_MAX_FILE_NUM) (drop s (listing opendir opt dir))).
Proof.
  intros Hd Hi Hf Hc Hc30 Hs Hl. unfold HI_UDISK_GetFileListWithIndex, malloc. rewrite (proj2 (Z.eqb_neq _ _)) by lia.
  set (st0 := set_array _ _ _). change DEPTH with (S 512). rewrite scan_with_index_step, Hd.
  rewrite (listing_flat _ _ Hf _ _ Hd) in *.
  destruct (index_loop_lists stat64 interrupt root opt Hf Hi (UDISK_ScanDirWithIndex opendir stat64 (λ _, false) interrupt (Some root) 512 opt (Z.of_nat c))
    s c dir Hc Hs es 0 st0) as (st' & Hrun & Hx); [lia|done| |].
  { unfold st0. cbn [room set_array]. rewrite u32_small by lia. rewrite Z.mul_comm, Z.div_mul by lia. lia. }
  change (Z.of_nat 0) with 0 in Hrun. rewrite Hrun. cbn [obind]. rewrite Z.eqb_refl. exists st'. split; [done|]. destruct Hx as (_ & _ & ->).
  by rewrite Nat.sub_0_l, !Nat.sub_0_r.
Qed.

Lemma file_list_part_witness : ∃ st',
  HI_UDISK_GetFileListWithIndex example_disk (λ _, None) (λ _, false) (λ _, 0) (Some (bytes "/mnt")) (bytes "/mnt/sda1")
    (mkOpt false 0x11 4 (Some (bytes ".*"))) 1 2 example_scan = Returned (HI_SUCCESS, st') ∧
  pszShortName <$> files st' = [bytes "d"; bytes "b.txt"].
Proof.
  edestruct (file_list_part example_disk (λ _, None) (λ _, 0) (bytes "/mnt") (bytes "/mnt/sda1")
    [mkDirent (bytes ".") 4; mkDirent (bytes "a.mp3") 8; mkDirent (bytes "d") 4; mkDirent (bytes "b.txt") 8] (mkOpt false 0x11 4 (Some (bytes ".*"))) 1 2 example_scan) as (st' & H & Hs);
    [reflexivity|done|done|lia|lia|lia|vm_compute; reflexivity|].
  exists st'. split; [exact H|].
  transitivity ((λ x, x.2.1) <$> (shown <$> files st')); [by rewrite <-list_fmap_compose|]. rewrite Hs. vm_compute. reflexivity.
Defined.

(** With directories below, a part is not the part of the listing: a
    directory below starts again at 0 but leaves out as many of its files as
    were counted above it. *)
Theorem file_list_part_recursive :
  listing example_disk example_opt (bytes "/mnt/sda1") !! 3%nat = Some (bytes "/mnt/sda1/d", bytes "c.MP3", 1) ∧
  match HI_UDISK_GetFileListWithIndex example_disk (λ _, None) (λ _, false) (λ _, 0) (Some (bytes "/mnt")) (bytes "/mnt/sda1") example_opt 0 4 example_scan with
  | Returned (_, st') => pszFullName <$> files st' = [bytes "/mnt/sda1/a.mp3"; bytes "/mnt/sda1/d"]
  | _ => False
  end.
Proof. split; vm_compute; reflexivity. Qed.

(** A failed allocation for the first file: the type is written before the
    start of the array. *)
Lemma add_failed_fault :
  HI_UDISK_GetFileList example_disk (λ _, None) (λ n, bool_decide (n = 1%nat)) (λ _, 0) (Some (bytes "/mnt")) (bytes "/mnt/sda1") example_opt example_scan
    = Undefined.
Proof. vm_compute. reflexivity. Qed.

(** ** Going up *)

(** From a directory that was listed the entry [..] leads back to where it
    was listed, unless it is the root of the disks. *)
Theorem up_dir_sub root dir name :
  dir ≠ [] → slash ∉ name → sub_path dir name ≠ root → up_dir root (sub_path dir name) = dir.
Proof.
  intros Hd Hn Hr. unfold up_dir. assert (∀ a b : cstring, strncmp_eq a b (S (length a)) = bool_decide (a = b)) as Heq.
  { intros a b. unfold strncmp_eq. apply bool_decide_ext. rewrite (take_ge a) by lia. split; [|intros ->; by rewrite take_ge by lia].
    intros H. assert (length a = length (take (S (length a)) b)) as Hl by by rewrite <-H. rewrite length_take in Hl. by rewrite take_ge in H by lia. }
  rewrite Heq, bool_decide_false by done. unfold sub_path in *.
  assert (strncmp_eq (dir ++ slash :: name) [slash] 2 = false) as ->.
  { apply bool_decide_eq_false. destruct dir as [|c [|d dir]]; [done|discriminate|discriminate]. }
  rewrite strrchr_last by done. destruct dir as [|c dir]; [done|]. cbn [length]. change (S (length dir)) with (length (c :: dir)). by rewrite take_app_length.
Qed.

Lemma up_dir_sub_witness : up_dir (bytes "/mnt") (sub_path (bytes "/mnt/sda1") (bytes "d")) = bytes "/mnt/sda1".
Proof. apply (up_dir_sub (bytes "/mnt") (bytes "/mnt/sda1") (bytes "d")); apply (bool_decide_eq_true_1 _); reflexivity. Defined.

End US.
