(* ===== verification/UDisk.v ===== *)
(** The table of disks of [hi_udisk.c]: the check for disks that were plugged in
    or out, mounting, the events, and the calls of the clients.

    The answers of the operating system may depend on everything that was done
    before: they are functions of the trace of calls.  A node is known by its
    place in the list; a call runs alone. *)

From S2P Require Import Prelude UDiskScan.

Module UK.

Abbreviation strncasecmp_eq := US.strncasecmp_eq.
Abbreviation is_name := US.is_name.
Abbreviation slash := US.slash.

Definition UDISK_MAX_DEV_NUM : nat := 16.
Definition UDISK_MAX_TRY_NUM : nat := 20.
Definition MAX_DEV_NAME_LEN : nat := 12.
Definition MAX_UDISK_NAME_LEN : nat := 512.
Definition UDISK_MAX_MOUNT_STR : nat := 128.
Definition HI_UDISK_PARAM_MAX_LEN : nat := 300.

Definition HI_UDISK_ERR_INVALIDPARA : Z := -2.
Definition HI_UDISK_ERR_NOTEXIST : Z := -7.

Definition EEXIST : Z := 17.
Definition EBUSY : Z := 16.
Definition EROFS : Z := 30.
Definition MS_RDONLY : Z := 1.
Definition MNT_DETACH : Z := 2.

Definition HI_UDISK_FSTYPE_FAT : Z := 0.
Definition HI_UDISK_FSTYPE_FAT32 : Z := 1.
Definition HI_UDISK_FSTYPE_NTFS : Z := 2.
Definition HI_UDISK_FSTYPE_EXT2 : Z := 3.
Definition HI_UDISK_FSTYPE_EXT3 : Z := 4.
Definition HI_UDISK_FSTYPE_BUT : Z := 5.

Definition HI_UDISK_EVENT_PLUGIN : nat := 0.
Definition HI_UDISK_EVENT_PLUGOUT : nat := 1.
Definition HI_UDISK_EVENT_MOUNTED : nat := 2.
Definition HI_UDISK_EVENT_UMOUNTED : nat := 3.
Definition HI_UDISK_EVENT_FULL : nat := 4.
Definition HI_UDISK_EVENT_ALLPARTMOUNTED : nat := 5.
Definition HI_UDISK_EVENT_DISKSCANREQUEST : nat := 6.
Definition HI_UDISK_EVENT_DISKSCANCOMPLETE : nat := 7.
Definition HI_UDISK_EVENT_UNKNOWNFILESYS : nat := 8.
Definition HI_UDISK_EVENT_BUTT : Z := 11.

Inductive UDISK_PARTITON_STATUS_EVENT_E :=
  UDISK_PARTITION_STATUS_UNKOWN | UDISK_PARTITION_STATUS_MOUNTED | UDISK_PARTITION_STATUS_SCAN
| UDISK_PARTITION_STATUS_SCANMOUNTED | UDISK_PARTITION_STATUS_UNKNOWN.

#[export] Instance status_eq_dec : EqDecision UDISK_PARTITON_STATUS_EVENT_E.
Proof. solve_decision. Defined.

(** ** Data *)

(** A partition: [UDISK_PartNode_S] with its [HI_UDISK_PARTITIONINFO_S]. *)
Record UDISK_PartNode_S := mkPart {
  bFullReport : bool; u64WaterLine : Z; bMounted : bool; enFSType : Z; u64TotalSize : Z; u64AvailSize : Z;
  part_dev : cstring; part_mnt : cstring }.

(** A disk: [UDISK_DiskNode_S] with its [HI_UDISK_DISKINFO_S]. *)
Record UDISK_DiskNode_S := mkDisk {
  szVendor : cstring; szModel : cstring; disk_dev : cstring; disk_mnt : cstring; part_list : list UDISK_PartNode_S }.

(** The status of a partition while its disk is attached. *)
Record UDISK_DISKINFO_S := mkSlot { bUsed : bool; enStatus : UDISK_PARTITON_STATUS_EVENT_E; slot_dev : cstring }.

Record HI_UDISK_INIT_PARAM_S := mkInit {
  bForceMountNTFS : bool; bUseblkidtool : bool; acUdiskRoot : cstring; acMountParam : cstring }.

(** What a callback is told. *)
Inductive PARAM :=
  | PlugParam (u32DiskIndex : Z) (szMntPath : cstring)
  | MountParam (u32DiskIndex u32PartitionIndex : Z) (szMntPath : cstring)
  | FullParam (u32DiskIndex u32PartitionIndex : Z)
  | ScanParam (szDevPath : cstring)
  | ListParam (szDevPaths : list cstring).

(** What the code asks of the system, and its calls of the client. *)
Inductive ACTION :=
  | Access (path : cstring) | Open (path : cstring) | Opendir (path : cstring) | Mkdir (path : cstring) | Rmdir (path : cstring)
  | Mount (source target fs : cstring) (flags : Z) | Umount (target : cstring) | Statfs (path : cstring) | Stat (path : cstring)
  | System (command : cstring) | Fopen (path : cstring) | Malloc | Sleep (ms : Z) | Sync | Gettimeofday
  | MutexInit | ThreadCreate | ThreadJoin
  | Call (func private : Z) (event : nat) (param : PARAM).

Record STATE := mkState {
  m_UDisk_DiskListHead : list UDISK_DiskNode_S;
  m_UDisk_PartROListHead : list cstring;
  m_DiskInfo : list UDISK_DISKINFO_S;
  m_UDisk_Event : list (Z * Z);
  m_UDisk_Root : option cstring;
  init_param : HI_UDISK_INIT_PARAM_S;
  s_bUmountAll : bool;
  m_UDiskStartTime : Z * Z;
  s32CheckCount : Z;
  check_thread : bool;
  trace : list ACTION }.

(** Calls that may fault, on the state. *)
Definition M (A : Type) : Type := STATE → outcome (A * STATE).
#[export] Instance M_ret : MRet M := λ A a st, Returned (a, st).
#[export] Instance M_bind : MBind M := λ A B k m st, let! (a, st') := m st in k a st'.

Definition gets {A} (f : STATE → A) : M A := λ st, Returned (f st, st).
Definition modify (f : STATE → STATE) : M unit := λ st, Returned (tt, f st).
Definition fault {A} : M A := λ _, Undefined.

Definition set_disks (l : list UDISK_DiskNode_S) (st : STATE) : STATE :=
  mkState l (m_UDisk_PartROListHead st) (m_DiskInfo st) (m_UDisk_Event st) (m_UDisk_Root st) (init_param st) (s_bUmountAll st)
    (m_UDiskStartTime st) (s32CheckCount st) (check_thread st) (trace st).
Definition set_ro (l : list cstring) (st : STATE) : STATE :=
  mkState (m_UDisk_DiskListHead st) l (m_DiskInfo st) (m_UDisk_Event st) (m_UDisk_Root st) (init_param st) (s_bUmountAll st)
    (m_UDiskStartTime st) (s32CheckCount st) (check_thread st) (trace st).
Definition set_slots (l : list UDISK_DISKINFO_S) (st : STATE) : STATE :=
  mkState (m_UDisk_DiskListHead st) (m_UDisk_PartROListHead st) l (m_UDisk_Event st) (m_UDisk_Root st) (init_param st) (s_bUmountAll st)
    (m_UDiskStartTime st) (s32CheckCount st) (check_thread st) (trace st).
Definition set_events (l : list (Z * Z)) (st : STATE) : STATE :=
  mkState (m_UDisk_DiskListHead st) (m_UDisk_PartROListHead st) (m_DiskInfo st) l (m_UDisk_Root st) (init_param st) (s_bUmountAll st)
    (m_UDiskStartTime st) (s32CheckCount st) (check_thread st) (trace st).
Definition set_root (r : option cstring) (st : STATE) : STATE :=
  mkState (m_UDisk_DiskListHead st) (m_UDisk_PartROListHead st) (m_DiskInfo st) (m_UDisk_Event st) r (init_param st) (s_bUmountAll st)
    (m_UDiskStartTime st) (s32CheckCount st) (check_thread st) (trace st).
Definition set_init (p : HI_UDISK_INIT_PARAM_S) (st : STATE) : STATE :=
  mkState (m_UDisk_DiskListHead st) (m_UDisk_PartROListHead st) (m_DiskInfo st) (m_UDisk_Event st) (m_UDisk_Root st) p (s_bUmountAll st)
    (m_UDiskStartTime st) (s32CheckCount st) (check_thread st) (trace st).
Definition set_umount_all (b : bool) (st : STATE) : STATE :=
  mkState (m_UDisk_DiskListHead st) (m_UDisk_PartROListHead st) (m_DiskInfo st) (m_UDisk_Event st) (m_UDisk_Root st) (init_param st) b
    (m_UDiskStartTime st) (s32CheckCount st) (check_thread st) (trace st).
Definition set_start (t : Z * Z) (st : STATE) : STATE :=
  mkState (m_UDisk_DiskListHead st) (m_UDisk_PartROListHead st) (m_DiskInfo st) (m_UDisk_Event st) (m_UDisk_Root st) (init_param st)
    (s_bUmountAll st) t (s32CheckCount st) (check_thread st) (trace st).
Definition set_count (n : Z) (st : STATE) : STATE :=
  mkState (m_UDisk_DiskListHead st) (m_UDisk_PartROListHead st) (m_DiskInfo st) (m_UDisk_Event st) (m_UDisk_Root st) (init_param st)
    (s_bUmountAll st) (m_UDiskStartTime st) n (check_thread st) (trace st).
Definition set_thread (b : bool) (st : STATE) : STATE :=
  mkState (m_UDisk_DiskListHead st) (m_UDisk_PartROListHead st) (m_DiskInfo st) (m_UDisk_Event st) (m_UDisk_Root st) (init_param st)
    (s_bUmountAll st) (m_UDiskStartTime st) (s32CheckCount st) b (trace st).
Definition note (a : ACTION) (st : STATE) : STATE :=
  mkState (m_UDisk_DiskListHead st) (m_UDisk_PartROListHead st) (m_DiskInfo st) (m_UDisk_Event st) (m_UDisk_Root st) (init_param st)
    (s_bUmountAll st) (m_UDiskStartTime st) (s32CheckCount st) (check_thread st) (a :: trace st).

(** [snprintf] into a buffer of [n] bytes, and a number below 100. *)
Definition print (n : nat) (s : cstring) : cstring := take (n - 1) s.
Definition dec (n : nat) : cstring :=
  let digit d := 0x30 + Z.of_nat d in
  if (n <? 10)%nat then [digit n] else [digit (n / 10)%nat; digit (n mod 10)%nat].

Definition begins (s : string) (name : cstring) : bool := US.strncmp_eq name (bytes s) (length (bytes s)).
Definition format_is (s : string) (fs : cstring) : bool := strncasecmp_eq (bytes s) fs (length (bytes s)).

Section UK.
(** The answer of the last call of the trace and the [errno] after it; the names
    in a directory that was opened; blocks, free blocks and block size of a
    file system; what [blkid] wrote, null when the file cannot be opened; the
    time.  The last two are what a variable holds before it is written, and
    what follows a buffer on the stack. *)
Variable os : list ACTION → Z.
Variable errno : list ACTION → Z.
Variable readdir : list ACTION → option (list cstring).
Variable statfs : list ACTION → Z * Z * Z.
Variable blkid_text : list ACTION → option (list Z).
Variable clock : list ACTION → Z * Z.
Variable stack_junk : Z.
Variable stack_rest : list Z.

Definition sys (a : ACTION) : M Z := λ st, let st' := note a st in Returned (os (trace st'), st').
Definition do_sys (a : ACTION) : M unit := _ ← sys a; mret tt.
Definition get_errno : M Z := gets (λ st, errno (trace st)).
Definition list_dir (path : cstring) : M (option (list cstring)) := _ ← sys (Opendir path); gets (λ st, readdir (trace st)).

Definition UDISK_EventCallback (enEvent : nat) (param : PARAM) : M Z :=
  cbs ← gets m_UDisk_Event;
  match cbs !! enEvent with
  | Some (func, private) => if func =? 0 then mret 0 else sys (Call func private enEvent param)
  | None => fault
  end.
Definition report (enEvent : nat) (param : PARAM) : M unit := _ ← UDISK_EventCallback enEvent param; mret tt.

Definition empty_slot : UDISK_DISKINFO_S := mkSlot false UDISK_PARTITION_STATUS_UNKOWN [].
Definition UDISK_InitDiskDB : M unit := modify (set_slots (replicate UDISK_MAX_DEV_NUM empty_slot)).

(** ** The status of partitions *)

(** The first of some tests of paths that succeeds. *)
Fixpoint any_access (paths : list cstring) : M bool :=
  match paths with
  | [] => mret false
  | p :: paths => r ← sys (Access p); if r =? 0 then mret true else any_access paths
  end.

Definition UDISK_ISMediaDevice (pDevPath : cstring) : M bool :=
  b ← any_access ((λ i, print 100 (pDevPath ++ dec i)) <$> seq 1 (UDISK_MAX_DEV_NUM - 1));
  if (b : bool) then mret true
  else fd ← sys (Open pDevPath); mret (0 <? fd).

Definition is_scan (s : UDISK_PARTITON_STATUS_EVENT_E) : bool :=
  bool_decide (s = UDISK_PARTITION_STATUS_SCAN) || bool_decide (s = UDISK_PARTITION_STATUS_SCANMOUNTED).

Definition UDISK_ReportScanEvent : M unit :=
  slots ← gets m_DiskInfo;
  match List.filter (λ s, bUsed s && is_scan (enStatus s)) slots with
  | [s] => report HI_UDISK_EVENT_DISKSCANREQUEST (ScanParam (slot_dev s))
  | _ => mret tt
  end.

Fixpoint update_first (p : UDISK_DISKINFO_S → bool) (f : UDISK_DISKINFO_S → UDISK_DISKINFO_S) (l : list UDISK_DISKINFO_S)
    : option (list UDISK_DISKINFO_S) :=
  match l with
  | [] => None
  | s :: l => if p s then Some (f s :: l) else (s ::.) <$> update_first p f l
  end.

Definition UDISK_RecordPartitionStatus (pDevPath : cstring) (status : UDISK_PARTITON_STATUS_EVENT_E) : M unit :=
  slots ← gets m_DiskInfo;
  match update_first (λ s, bUsed s && US.strncmp_eq (slot_dev s) pDevPath (length pDevPath)) (λ s, mkSlot true status (slot_dev s)) slots with
  | Some slots' => modify (set_slots slots')
  | None =>
      match update_first (λ s, negb (bUsed s)) (λ _, mkSlot true status pDevPath) slots with
      | Some slots' => modify (set_slots slots')
      | None => mret tt
      end
  end.

(** The partitions still there that were scanned, those whose file system is not
    known, and how many were mounted. *)
Fixpoint remain_loop (slots : list UDISK_DISKINFO_S) (mounted : nat) (scanned unknown : list cstring) : M (nat * list cstring * list cstring) :=
  match slots with
  | [] => mret (mounted, scanned, unknown)
  | s :: slots =>
      if negb (bUsed s) then remain_loop slots mounted scanned unknown
      else
        r ← sys (Access (slot_dev s));
        if negb (r =? 0) then remain_loop slots mounted scanned unknown
        else
          let name := take (MAX_DEV_NAME_LEN - 1) (slot_dev s) in
          match enStatus s with
          | UDISK_PARTITION_STATUS_MOUNTED => remain_loop slots (S mounted) scanned unknown
          | UDISK_PARTITION_STATUS_SCAN => remain_loop slots mounted (scanned ++ [name]) unknown
          | UDISK_PARTITION_STATUS_SCANMOUNTED => remain_loop slots (S mounted) (scanned ++ [name]) unknown
          | UDISK_PARTITION_STATUS_UNKNOWN => remain_loop slots mounted scanned (unknown ++ [name])
          | UDISK_PARTITION_STATUS_UNKOWN => remain_loop slots mounted scanned unknown
          end
  end.

(** The milliseconds since the start, in 32 bits. *)
Definition since_start (now start : Z * Z) : Z := u32 ((now.1 - start.1) * 1000 + Z.quot (now.2 - start.2) 1000).

Definition UDISK_ReportDiskRemainEvent : M unit :=
  slots ← gets m_DiskInfo;
  x ← remain_loop slots 0 [] [];
  let '(mounted, scanned, unknown) := x in
  UDISK_InitDiskDB;;
  (if bool_decide (scanned = []) then mret tt else report HI_UDISK_EVENT_DISKSCANCOMPLETE (ListParam scanned));;
  if bool_decide (mounted = O) && negb (bool_decide (unknown = [])) then
    _ ← sys Gettimeofday;
    now ← gets (λ st, clock (trace st));
    start ← gets m_UDiskStartTime;
    (if since_start now start <? 5000 then do_sys (Sleep 5000) else mret tt);;
    report HI_UDISK_EVENT_UNKNOWNFILESYS (ListParam unknown)
  else mret tt.

(** The type in what [blkid] writes: four characters behind the equals sign and
    a quotation mark. *)
Definition type_of_text (text : list Z) : option cstring :=
  let buffer := take 99 text ++ replicate (100 - length (take 99 text)) 0 in
  match find_index (Z.eqb (chr "=")) (until_nul buffer) with
  | None => None
  | Some k => Some (until_nul (take 4 (drop (k + 2) (buffer ++ stack_rest))))
  end.

Definition UDISK_GetPartitionFileSystem (pDevPath : cstring) : M (option cstring) :=
  ret ← sys (System (print 100 (bytes "/sbin/blkid -s TYPE " ++ pDevPath ++ bytes ">/tmp/filesystemType")));
  if negb (ret =? 0) then mret None
  else
    _ ← sys (Fopen (bytes "/tmp/filesystemType"));
    text ← gets (λ st, blkid_text (trace st));
    mret (text ≫= type_of_text).

Definition UDISK_RemoveROList (pDevPath : cstring) : M unit :=
  modify (λ st, set_ro (List.filter (λ p, negb (strncasecmp_eq pDevPath p (length pDevPath))) (m_UDisk_PartROListHead st)) st).

(** Total and available bytes. *)
Definition UDISK_StatFs (pMnt : cstring) : M (option (Z * Z)) :=
  ret ← sys (Statfs pMnt);
  if negb (ret =? 0) then mret None
  else
    x ← gets (λ st, statfs (trace st));
    let '(blocks, bavail, bsize) := x in
    mret (Some ((blocks * bsize) mod 2 ^ 64, (bavail * bsize) mod 2 ^ 64)).

(** ** Mounting *)

Definition command (n : nat) (parts : list cstring) : ACTION := System (print n (mjoin parts)).

Definition scan_and_report (source : cstring) : M unit :=
  UDISK_RecordPartitionStatus source UDISK_PARTITION_STATUS_SCAN;; UDISK_ReportScanEvent.

(** Whether the partition was mounted, or is busy. *)
Definition mounted_or_busy (ret err : Z) : bool := (ret =? 0) || ((ret =? -1) && (err =? EBUSY)).

(** A [vfat] partition that could not be mounted is checked and tried again. *)
Definition mount_again_vfat (source target fs : cstring) : M Z :=
  p ← gets init_param;
  (if bUseblkidtool p then scan_and_report source else mret tt);;
  do_sys (command UDISK_MAX_MOUNT_STR [bytes "dosfsck -a "; source]);;
  e ← get_errno;
  let flags := if e =? EROFS then MS_RDONLY else 0 in
  ret ← sys (Mount source target fs flags);
  e ← get_errno;
  ret ← (if negb (ret =? 0) && (e =? EROFS) then sys (Mount source target fs flags) else mret ret);
  e ← get_errno;
  (if mounted_or_busy ret e then UDISK_RecordPartitionStatus source UDISK_PARTITION_STATUS_SCANMOUNTED else mret tt);;
  mret ret.

Definition mount_tntfs (source target : cstring) : M Z :=
  p ← gets init_param;
  sys (command UDISK_MAX_MOUNT_STR
    (if bForceMountNTFS p then [bytes "mount -t tntfs -o force "; source; bytes " "; target]
     else [bytes "mount -t tntfs "; acMountParam p; bytes " "; source; bytes " "; target])).

Definition UDISK_MountByFormat (source target fs : cstring) : M Z :=
  if format_is "vfat" fs then
    ret ← sys (Mount source target fs 0);
    e ← get_errno;
    if negb (mounted_or_busy ret e) then mount_again_vfat source target fs
    else
      do_sys (command UDISK_MAX_MOUNT_STR [bytes "mkdir "; target; bytes "/LOST.DIR"]);;
      UDISK_RecordPartitionStatus source UDISK_PARTITION_STATUS_MOUNTED;;
      mret ret
  else if format_is "ntfs" fs || format_is "tntfs" fs then
    ret ← mount_tntfs source target;
    if negb (ret =? 0) then
      scan_and_report source;;
      do_sys (command UDISK_MAX_MOUNT_STR [bytes "ntfsck -a "; source]);;
      ret ← mount_tntfs source target;
      (if ret =? 0 then UDISK_RecordPartitionStatus source UDISK_PARTITION_STATUS_SCANMOUNTED else mret tt);;
      mret ret
    else
      UDISK_RecordPartitionStatus source UDISK_PARTITION_STATUS_MOUNTED;;
      mret ret
  else
    ret ← sys (Mount source target fs 0);
    ret ← (if negb (ret =? 0)
           then sys (command UDISK_MAX_MOUNT_STR [bytes "mount -t "; fs; bytes " "; source; bytes " "; target]) else mret ret);
    (if ret =? 0 then UDISK_RecordPartitionStatus source UDISK_PARTITION_STATUS_MOUNTED else mret tt);;
    mret ret.

(** The formats that are tried one after the other, with the type recorded. *)
Fixpoint mount_enum (source target : cstring) (formats : list (string * Z)) : M (option Z) :=
  match formats with
  | [] => mret None
  | (fs, ty) :: formats =>
      ret ← UDISK_MountByFormat source target (bytes fs);
      if ret =? 0 then mret (Some ty) else mount_enum source target formats
  end.

Definition enum_formats : list (string * Z) :=
  [("vfat"%string, HI_UDISK_FSTYPE_NTFS); ("ext3"%string, HI_UDISK_FSTYPE_EXT3);
   ("ext2"%string, HI_UDISK_FSTYPE_EXT2); ("tntfs"%string, HI_UDISK_FSTYPE_NTFS)].

Definition type_of_format (fs : cstring) : Z :=
  if format_is "vfat" fs then HI_UDISK_FSTYPE_FAT32
  else if format_is "ntfs" fs then HI_UDISK_FSTYPE_NTFS
  else if format_is "ext2" fs then HI_UDISK_FSTYPE_EXT2
  else if format_is "ext3" fs then HI_UDISK_FSTYPE_EXT3
  else HI_UDISK_FSTYPE_BUT.

(** The result, and the type if it was written; called without a format and
    with a place for the type. *)
Definition UDISK_Mount (source target : cstring) : M (Z * option Z) :=
  p ← gets init_param;
  let unknown : M (Z * option Z) :=
    UDISK_RecordPartitionStatus source UDISK_PARTITION_STATUS_UNKNOWN;; mret (HI_FAILURE, None) in
  if bUseblkidtool p then
    fs ← UDISK_GetPartitionFileSystem source;
    match fs with
    | Some (c :: fs') =>
        ret ← UDISK_MountByFormat source target (c :: fs');
        if negb (ret =? HI_SUCCESS)
        then UDISK_RecordPartitionStatus source UDISK_PARTITION_STATUS_UNKNOWN;; mret (ret, None)
        else mret (ret, Some (type_of_format (c :: fs')))
    | _ => unknown
    end
  else
    r ← mount_enum source target enum_formats;
    match r with
    | Some ty => mret (HI_SUCCESS, Some ty)
    | None => unknown
    end.

Definition UDISK_Umount (target : cstring) : M Z := sys (Umount target).

(** ** Places of disks and partitions *)

Definition same_path (a b : cstring) : bool := US.strncmp_eq a b MAX_UDISK_NAME_LEN.

(** The place of a disk, and of a partition: the disk's and its own. *)
Definition find_dev (pDevPath : cstring) (l : list UDISK_DiskNode_S) : option nat :=
  find_index (λ d, same_path pDevPath (disk_dev d)) l.
Fixpoint find_part (pDevPath : cstring) (l : list UDISK_DiskNode_S) : option (nat * nat) :=
  match l with
  | [] => None
  | d :: l =>
      match find_index (λ p, same_path pDevPath (part_dev p)) (part_list d) with
      | Some j => Some (O, j)
      | None => (λ '(i, j), (S i, j)) <$> find_part pDevPath l
      end
  end.

(** Without a place the index keeps what it had. *)
Definition UDISK_GetDiskIndexByDevPath (pDevPath : cstring) (old : Z) : M Z :=
  l ← gets m_UDisk_DiskListHead;
  mret (match find_dev pDevPath l with Some i => u32 (Z.of_nat i) | None => old end).
Definition UDISK_GetPartIndexByDevPath (pDevPath : cstring) (old : Z * Z) : M (Z * Z) :=
  l ← gets m_UDisk_DiskListHead;
  mret (match find_part pDevPath l with Some (i, j) => (u32 (Z.of_nat i), u32 (Z.of_nat j)) | None => old end).

Definition UDISK_FindDisk (pDevPath : cstring) : M (option nat) :=
  l ← gets m_UDisk_DiskListHead; mret (find_dev pDevPath l).

Definition update_disk (k : nat) (f : UDISK_DiskNode_S → UDISK_DiskNode_S) : M unit :=
  modify (λ st, set_disks (alter f k (m_UDisk_DiskListHead st)) st).
Definition set_parts (l : list UDISK_PartNode_S) (d : UDISK_DiskNode_S) : UDISK_DiskNode_S :=
  mkDisk (szVendor d) (szModel d) (disk_dev d) (disk_mnt d) l.

(** ** Attaching *)

(** Ten more tests for the first partition, with a pause before each. *)
Fixpoint wait_access (n : nat) (path : cstring) : M bool :=
  match n with
  | O => mret false
  | S n =>
      do_sys (Sleep 50);;
      r ← sys (Access path);
      if r =? HI_SUCCESS then mret true else wait_access n path
  end.

(** Trying to open a partition again: three times, or once from the fourth on. *)
Fixpoint try_open (n : nat) (path : cstring) : M bool :=
  match n with
  | O => mret false
  | S n =>
      do_sys (Sleep 50);;
      fd ← sys (Open path);
      if 0 <? fd then mret true else try_open n path
  end.

(** Whether a partition of a number is there. *)
Definition partition_there (szFile : cstring) (i : nat) : M bool :=
  r ← sys (Access szFile);
  if r =? HI_SUCCESS then mret true
  else if bool_decide (i = 1%nat) then wait_access 10 szFile
  else
    b ← gets s_bUmountAll;
    if (b : bool) then try_open (if (i <=? 3)%nat then 3 else 1) szFile else mret false.

(** A partition is mounted and put into the list of the disk at [k]; the result
    says whether, with the places told last; [None] without memory. *)
Definition attach_one (k : nat) (dev_path mnt_path : cstring) (old : Z * Z) : M (option (bool * (Z * Z))) :=
  do_sys (Mkdir mnt_path);;
  mem ← sys Malloc;
  if mem =? 0 then mret None
  else
    x ← UDISK_Mount dev_path mnt_path;
    let '(ret, ty) := x in
    if 0 <=? ret then
      update_disk k (λ d, set_parts (part_list d ++ [mkPart false 0 true (default 0 ty) 0 0 (take (MAX_UDISK_NAME_LEN - 1) dev_path)
                                                       (take (MAX_UDISK_NAME_LEN - 1) mnt_path)]) d);;
      idx ← UDISK_GetPartIndexByDevPath (take (MAX_UDISK_NAME_LEN - 1) dev_path) old;
      report HI_UDISK_EVENT_MOUNTED (MountParam idx.1 idx.2 (take (MAX_UDISK_NAME_LEN - 1) mnt_path));;
      mret (Some (true, idx))
    else
      do_sys (Rmdir mnt_path);;
      mret (Some (false, old)).

(** The loop over the numbers of partitions.  The result is the number at which
    it ended, the partitions mounted and the places told last; [None] when the
    disk has no name. *)
Fixpoint attach_loop (root : cstring) (k : nat) (dev : cstring) (nums : list nat) (mounted : nat) (idx : Z * Z)
    : M (option (nat * nat * (Z * Z))) :=
  match nums with
  | [] => mret (Some (S UDISK_MAX_TRY_NUM, mounted, idx))
  | i :: nums =>
      there ← partition_there (print 20 (dev ++ dec i)) i;
      if negb there && (1 <? i)%nat then attach_loop root k dev nums mounted idx
      else
        match strrchr dev slash with
        | None => mret None
        | Some n =>
            let name := drop (S n) dev in
            let dev_path := print MAX_UDISK_NAME_LEN (if (there : bool) then dev ++ dec i else dev) in
            let mnt_path := print MAX_UDISK_NAME_LEN (root ++ bytes "/" ++ name ++ bytes "/" ++ name ++ dec i) in
            r ← attach_one k dev_path mnt_path idx;
            match r with
            | None => mret (Some (i, mounted, idx))
            | Some (b, idx) =>
                let mounted := if (b : bool) then S mounted else mounted in
                if (UDISK_MAX_DEV_NUM <=? mounted)%nat then mret (Some (i, mounted, idx))
                else attach_loop root k dev nums mounted idx
            end
        end
  end.

(** The partitions of the disk at [k]. *)
Definition UDISK_AttachPart (k : nat) : M unit :=
  root ← gets m_UDisk_Root;
  l ← gets m_UDisk_DiskListHead;
  match root, l !! k with
  | Some root, Some d =>
      r ← attach_loop root k (disk_dev d) (seq 1 UDISK_MAX_TRY_NUM) 0 (0, 0);
      match r with
      | None => mret tt
      | Some (i, mounted, idx) =>
          if (UDISK_MAX_TRY_NUM <=? i)%nat && (0 <? mounted)%nat
          then report HI_UDISK_EVENT_ALLPARTMOUNTED (MountParam idx.1 idx.2 (take (MAX_UDISK_NAME_LEN - 1) (disk_mnt d)))
          else mret tt
      end
  | _, _ => fault
  end.

Fixpoint umount_entries (path : cstring) (names : list cstring) : M unit :=
  match names with
  | [] => mret tt
  | name :: names =>
      (if is_name "." name || is_name ".." name then mret tt
       else
         let part := print MAX_UDISK_NAME_LEN (path ++ bytes "/" ++ name) in
         _ ← UDISK_Umount part; do_sys (Rmdir part));;
      umount_entries path names
  end.

Definition UDISK_UMountDisk (pDiskMntPath : cstring) : M unit :=
  es ← list_dir pDiskMntPath;
  match es with None => mret tt | Some names => umount_entries pDiskMntPath names end.

(** A name of a disk: [sd] and a letter. *)
Definition disk_name (name : cstring) : bool := begins "sd" name && bool_decide (length name = 3%nat).

Fixpoint umount_disks_loop (root : cstring) (names : list cstring) : M unit :=
  match names with
  | [] => mret tt
  | name :: names =>
      (if is_name "." name || is_name ".." name then mret tt
       else if disk_name name then
         let path := print MAX_UDISK_NAME_LEN (root ++ bytes "/" ++ name) in
         UDISK_UMountDisk path;; do_sys (Rmdir path)
       else mret tt);;
      umount_disks_loop root names
  end.

Definition UDISK_UMountDisks (root : cstring) : M unit :=
  es ← list_dir root;
  match es with None => mret tt | Some names => umount_disks_loop root names end.

(** The sizes of the partitions of a disk, one after the other. *)
Fixpoint stat_parts (l : list UDISK_PartNode_S) : M (list UDISK_PartNode_S) :=
  match l with
  | [] => mret []
  | p :: l =>
      x ← UDISK_StatFs (part_mnt p);
      l' ← stat_parts l;
      mret (match x with
            | Some (total, avail) => mkPart (bFullReport p) (u64WaterLine p) (bMounted p) (enFSType p) total avail (part_dev p) (part_mnt p)
            | None => p
            end :: l')
  end.

Definition UDISK_GetDiskInfo (k : nat) : M unit :=
  l ← gets m_UDisk_DiskListHead;
  match l !! k with
  | None => fault
  | Some d =>
      ps ← stat_parts (part_list d);
      update_disk k (λ d, mkDisk (bytes "Unknown") (bytes "Unknown") (disk_dev d) (disk_mnt d) ps)
  end.

(** A disk is put into the list and told. *)
Definition plug_in (d : UDISK_DiskNode_S) : M unit :=
  modify (λ st, set_disks (m_UDisk_DiskListHead st ++ [d]) st);;
  idx ← UDISK_GetDiskIndexByDevPath (disk_dev d) stack_junk;
  report HI_UDISK_EVENT_PLUGIN (PlugParam idx (disk_mnt d)).

Definition UDISK_AttachDisk (pDevPath : cstring) : M unit :=
  there ← UDISK_FindDisk pDevPath;
  match there with
  | Some _ => mret tt
  | None =>
      b ← UDISK_ISMediaDevice pDevPath;
      if negb b then mret tt
      else
        match strrchr pDevPath slash with
        | None => mret tt
        | Some n =>
            root ← gets m_UDisk_Root;
            match root with
            | None => fault
            | Some root =>
                let mnt_path := print MAX_UDISK_NAME_LEN (root ++ bytes "/" ++ drop (S n) pDevPath) in
                r ← sys (Mkdir mnt_path);
                e ← get_errno;
                (if (r <? 0) && (e =? EEXIST) then UDISK_UMountDisk mnt_path else mret tt);;
                mem ← sys Malloc;
                if mem =? 0 then mret tt
                else
                  l ← gets m_UDisk_DiskListHead;
                  let k := length l in
                  let d := mkDisk [] [] (take (MAX_UDISK_NAME_LEN - 1) pDevPath) (take (MAX_UDISK_NAME_LEN - 1) mnt_path) [] in
                  plug_in d;;
                  UDISK_InitDiskDB;;
                  UDISK_AttachPart k;;
                  UDISK_GetDiskInfo k;;
                  UDISK_ReportDiskRemainEvent
            end
        end
  end.

(** ** Detaching *)

(** Unmounting with the tries left; the result is how many are left then. *)
Fixpoint umount_tries (tries : nat) (target : cstring) : M nat :=
  match tries with
  | O => mret O
  | S tries' =>
      ret ← UDISK_Umount target;
      if ret =? HI_SUCCESS then mret tries
      else do_sys (Sleep 1000);; umount_tries tries' target
  end.

(** All partitions share the tries. *)
Fixpoint detach_parts (tries : nat) (l : list UDISK_PartNode_S) (idx : Z * Z) : M unit :=
  match l with
  | [] => mret tt
  | p :: l =>
      if bMounted p then
        idx ← UDISK_GetPartIndexByDevPath (part_dev p) idx;
        report HI_UDISK_EVENT_UMOUNTED (MountParam idx.1 idx.2 (take (MAX_UDISK_NAME_LEN - 1) (part_mnt p)));;
        tries ← umount_tries tries (part_mnt p);
        do_sys (Rmdir (part_mnt p));;
        detach_parts tries l idx
      else detach_parts tries l idx
  end.

Definition UDISK_DetachDisk (pDevPath : cstring) : M unit :=
  there ← UDISK_FindDisk pDevPath;
  match there with
  | None => mret tt
  | Some k =>
      l ← gets m_UDisk_DiskListHead;
      match l !! k with
      | None => fault
      | Some d =>
          detach_parts 3 (part_list d) (stack_junk, stack_junk);;
          update_disk k (set_parts []);;
          idx ← UDISK_GetDiskIndexByDevPath (disk_dev d) stack_junk;
          report HI_UDISK_EVENT_PLUGOUT (PlugParam idx (take (MAX_UDISK_NAME_LEN - 1) (disk_mnt d)));;
          do_sys (Rmdir (disk_mnt d));;
          modify (λ st, set_disks (delete k (m_UDisk_DiskListHead st)) st)
      end
  end.

Fixpoint umount_all_loop (devs : list cstring) : M unit :=
  match devs with
  | [] => mret tt
  | dev :: devs =>
      r ← sys (Access dev);
      (if r =? HI_SUCCESS then UDISK_DetachDisk dev else mret tt);;
      umount_all_loop devs
  end.

Definition UDISK_UmontAllDisk : M unit :=
  l ← gets m_UDisk_DiskListHead; umount_all_loop (disk_dev <$> l).

(** ** The check *)

(** The name of the node is read again after the node was given back; nothing is
    read from it while the list of read-only partitions is empty. *)
Definition remove_ro_freed : M unit :=
  ro ← gets m_UDisk_PartROListHead;
  match ro with [] => mret tt | _ :: _ => fault end.

Fixpoint plug_out_loop (devs : list cstring) : M unit :=
  match devs with
  | [] => mret tt
  | dev :: devs =>
      r ← sys (Access dev);
      (if r =? HI_SUCCESS then mret tt else UDISK_DetachDisk dev;; remove_ro_freed);;
      plug_out_loop devs
  end.

(** The drive [sr0] is ejected at every eleventh sight, unless there is a modem. *)
Definition eject_sr0 : M unit :=
  r ← sys (Stat (bytes "/dev/ttyUSB0"));
  if r =? 0 then mret tt
  else
    n ← gets s32CheckCount;
    (if n =? 0 then do_sys (System (bytes "eject /dev/sr0")) else mret tt);;
    modify (set_count (if 10 <? n + 1 then 0 else n + 1)).

Fixpoint plug_in_loop (names : list cstring) : M unit :=
  match names with
  | [] => mret tt
  | name :: names =>
      (if disk_name name then UDISK_AttachDisk (print MAX_UDISK_NAME_LEN (bytes "/dev/" ++ name)) else mret tt);;
      (if begins "sr0" name then eject_sr0 else mret tt);;
      plug_in_loop names
  end.

Definition UDISK_CheckDiskPlugInOut : M unit :=
  l ← gets m_UDisk_DiskListHead;
  plug_out_loop (disk_dev <$> l);;
  es ← list_dir (bytes "/dev");
  match es with
  | None => mret tt
  | Some names => plug_in_loop names;; modify (set_umount_all false)
  end.

(** The partitions whose space is at the water line are reported. *)
Fixpoint full_parts (i : Z) (j : Z) (l : list UDISK_PartNode_S) : M unit :=
  match l with
  | [] => mret tt
  | p :: l =>
      (if bFullReport p then
         x ← UDISK_StatFs (part_mnt p);
         match x with
         | Some (_, avail) => if avail <=? u64WaterLine p then report HI_UDISK_EVENT_FULL (FullParam i j) else mret tt
         | None => mret tt
         end
       else mret tt);;
      full_parts i (u32 (j + 1)) l
  end.
Fixpoint full_disks (i : Z) (l : list UDISK_DiskNode_S) : M unit :=
  match l with
  | [] => mret tt
  | d :: l => full_parts i 0 (part_list d);; full_disks (u32 (i + 1)) l
  end.
Definition UDISK_CheckPartitionFull : M unit := l ← gets m_UDisk_DiskListHead; full_disks 0 l.

(** One round of the thread. *)
Definition UDISK_CheckThread : M unit :=
  UDISK_CheckDiskPlugInOut;; UDISK_CheckPartitionFull;; do_sys Sync;; do_sys (Sleep 1000).

(** ** The calls of the clients *)

Definition UDISK_GetPartition (u32DiskIndex u32PartitionIndex : Z) : M (Z * option UDISK_PartNode_S) :=
  l ← gets m_UDisk_DiskListHead;
  mret (match l !! Z.to_nat u32DiskIndex with
        | None => (HI_UDISK_ERR_NOTEXIST, None)
        | Some d => match part_list d !! Z.to_nat u32PartitionIndex with Some p => (HI_SUCCESS, Some p) | None => (HI_FAILURE, None) end
        end).

Definition UDISK_SetPartition (u32DiskIndex u32PartitionIndex : Z) (p : UDISK_PartNode_S) : M Z :=
  l ← gets m_UDisk_DiskListHead;
  match l !! Z.to_nat u32DiskIndex with
  | None => mret HI_UDISK_ERR_NOTEXIST
  | Some d =>
      match part_list d !! Z.to_nat u32PartitionIndex with
      | Some _ =>
          update_disk (Z.to_nat u32DiskIndex) (λ d, set_parts (<[Z.to_nat u32PartitionIndex := p]> (part_list d)) d);; mret HI_SUCCESS
      | None => mret HI_FAILURE
      end
  end.

(** A partition is read, changed and written back. *)
Definition change_partition (u32DiskIndex u32PartitionIndex : Z) (f : UDISK_PartNode_S → UDISK_PartNode_S) : M Z :=
  x ← UDISK_GetPartition u32DiskIndex u32PartitionIndex;
  match x with
  | (_, Some p) => UDISK_SetPartition u32DiskIndex u32PartitionIndex (f p)
  | (ret, None) => mret ret
  end.

Definition UDISK_SetPartitionType (i j ty : Z) : M Z :=
  change_partition i j (λ p, mkPart (bFullReport p) (u64WaterLine p) (bMounted p) ty (u64TotalSize p) (u64AvailSize p) (part_dev p) (part_mnt p)).
Definition HI_UDISK_SetFullReport (i j : Z) (b : bool) (line : Z) : M Z :=
  change_partition i j (λ p, mkPart b line (bMounted p) (enFSType p) (u64TotalSize p) (u64AvailSize p) (part_dev p) (part_mnt p)).

Definition HI_UDISK_GetDiskNum : M (Z * Z) := l ← gets m_UDisk_DiskListHead; mret (HI_SUCCESS, u32 (Z.of_nat (length l))).
Definition HI_UDISK_GetDiskInfo (i : Z) : M (Z * option UDISK_DiskNode_S) :=
  l ← gets m_UDisk_DiskListHead;
  mret (match l !! Z.to_nat i with Some d => (HI_SUCCESS, Some (set_parts [] d)) | None => (HI_FAILURE, None) end).
Definition HI_UDISK_GetPartitionNum (i : Z) : M (Z * option Z) :=
  l ← gets m_UDisk_DiskListHead;
  mret (match l !! Z.to_nat i with
        | Some d => (HI_SUCCESS, Some (u32 (Z.of_nat (length (part_list d)))))
        | None => (HI_UDISK_ERR_NOTEXIST, None)
        end).
Definition HI_UDISK_GetPartitionInfo (i j : Z) : M (Z * option UDISK_PartNode_S) := UDISK_GetPartition i j.

(** The commands that format a partition and mount it again. *)
Definition format_commands (p : HI_UDISK_INIT_PARAM_S) (ty : Z) (dev mnt : cstring) : ACTION * ACTION :=
  let cmd := command UDISK_MAX_MOUNT_STR in
  if (ty =? HI_UDISK_FSTYPE_FAT) || (ty =? HI_UDISK_FSTYPE_FAT32) then
    (cmd [bytes "mkfs.vfat "; dev], cmd [bytes "mount -t vfat "; acMountParam p; bytes " "; dev; bytes " "; mnt])
  else if ty =? HI_UDISK_FSTYPE_EXT2 then (cmd [bytes "mkfs.ext2 "; dev], cmd [bytes "mount "; dev; bytes " "; mnt])
  else if ty =? HI_UDISK_FSTYPE_EXT3 then (cmd [bytes "mkfs.ext3 "; dev], cmd [bytes "mount "; dev; bytes " "; mnt])
  else if ty =? HI_UDISK_FSTYPE_NTFS then
    (cmd [bytes "mkntfs -F "; dev],
     cmd (if bForceMountNTFS p then [bytes "mount -t tntfs -o force "; dev; bytes " "; mnt]
          else [bytes "mount -t tntfs "; acMountParam p; bytes " "; dev; bytes " "; mnt]))
  else (System [], System []).

Definition HI_UDISK_FormatPartition (i j ty : Z) : M Z :=
  x ← HI_UDISK_GetPartitionInfo i j;
  match x with
  | (_, None) => mret HI_FAILURE
  | (_, Some part) =>
      r ← sys (command UDISK_MAX_MOUNT_STR [bytes "umount -l "; part_mnt part; bytes ";sync"]);
      if r =? -1 then mret HI_FAILURE
      else
        p ← gets init_param;
        let cmds := format_commands p ty (part_dev part) (part_mnt part) in
        r ← sys cmds.1;
        if r =? -1 then mret HI_FAILURE
        else
          r ← sys cmds.2;
          if r =? -1 then mret HI_FAILURE else _ ← UDISK_SetPartitionType i j ty; mret HI_SUCCESS
  end.

Definition HI_UDISK_RegisterEventCallback (enEvent func private : Z) : M Z :=
  if HI_UDISK_EVENT_BUTT <=? enEvent then mret HI_UDISK_ERR_INVALIDPARA
  else modify (λ st, set_events (<[Z.to_nat enEvent := (func, private)]> (m_UDisk_Event st)) st);; mret HI_SUCCESS.
Definition HI_UDISK_UnRegisterEventCallback (enEvent : Z) : M Z :=
  if HI_UDISK_EVENT_BUTT <=? enEvent then mret HI_UDISK_ERR_INVALIDPARA
  else modify (λ st, set_events (<[Z.to_nat enEvent := (0, 0)]> (m_UDisk_Event st)) st);; mret HI_SUCCESS.

Definition HI_UDISK_GetRoot : M (option cstring) := gets m_UDisk_Root.

Definition HI_UDISK_UmountAllDisk : M unit := UDISK_UmontAllDisk;; modify (set_umount_all true).

(** Whether a directory can be opened, or is made. *)
Definition make_root (root : cstring) : M bool :=
  es ← list_dir root;
  match es with
  | Some _ => mret true
  | None =>
      r ← sys (Mkdir root);
      if r <? 0 then mret false
      else es ← list_dir root; mret (bool_decide (es ≠ None))
  end.

(** [HI_UDISK_Init] with a parameter; the thread it creates runs rounds of
    [UDISK_CheckThread] from then on. *)
Definition HI_UDISK_Init (p : HI_UDISK_INIT_PARAM_S) : M Z :=
  old ← gets init_param;
  modify (set_init (mkInit (bForceMountNTFS p) (bUseblkidtool p) (acUdiskRoot old) (acMountParam old)));;
  UDISK_UMountDisks (acUdiskRoot p);;
  _ ← UDISK_Umount (acUdiskRoot p);
  b ← make_root (acUdiskRoot p);
  if negb b then mret HI_FAILURE
  else
    mem ← sys Malloc;
    if mem =? 0 then fault
    else
      modify (set_root (Some (acUdiskRoot p)));;
      modify (set_events (replicate (Z.to_nat HI_UDISK_EVENT_BUTT) (0, 0)));;
      r ← sys MutexInit;
      if negb (r =? 0) then mret HI_FAILURE
      else
        r ← sys ThreadCreate;
        if negb (r =? 0) then mret HI_FAILURE
        else
          modify (set_thread true);;
          _ ← sys Gettimeofday;
          now ← gets (λ st, clock (trace st));
          modify (set_start now);;
          modify (set_init (mkInit (bForceMountNTFS p) (bUseblkidtool p) (acUdiskRoot p) (take (HI_UDISK_PARAM_MAX_LEN - 1) (acMountParam p))));;
          mret HI_SUCCESS.

Definition HI_UDISK_Deinit : M Z :=
  b ← gets check_thread;
  (if (b : bool) then do_sys ThreadJoin;; modify (set_thread false) else mret tt);;
  UDISK_UmontAllDisk;;
  root ← gets m_UDisk_Root;
  (match root with Some r => _ ← UDISK_Umount r; modify (set_root None) | None => do_sys (Umount []) end);;
  mret HI_SUCCESS.
End UK.

(** ** What the clients are told *)

Inductive EVENT :=
  | Plugin (i : nat) (mnt : cstring) | Plugout (i : nat) (mnt : cstring)
  | Mounted (i j : nat) (mnt : cstring) | Umounted (i j : nat) (mnt : cstring).

Definition event_of (a : ACTION) : option EVENT :=
  match a with
  | Call _ _ ev (PlugParam i mnt) =>
      if bool_decide (ev = HI_UDISK_EVENT_PLUGIN) then Some (Plugin (Z.to_nat i) mnt)
      else if bool_decide (ev = HI_UDISK_EVENT_PLUGOUT) then Some (Plugout (Z.to_nat i) mnt) else None
  | Call _ _ ev (MountParam i j mnt) =>
      if bool_decide (ev = HI_UDISK_EVENT_MOUNTED) then Some (Mounted (Z.to_nat i) (Z.to_nat j) mnt)
      else if bool_decide (ev = HI_UDISK_EVENT_UMOUNTED) then Some (Umounted (Z.to_nat i) (Z.to_nat j) mnt) else None
  | _ => None
  end.

(** The events of a part of the trace, the first first. *)
Definition told (tr : list ACTION) : list EVENT := reverse (omap event_of tr).

(** The table a client keeps: where the disks and their partitions are mounted.
    An event that does not fit is refused. *)
Abbreviation view := (list (cstring * list cstring)).

Definition apply_event (v : view) (e : EVENT) : option view :=
  match e with
  | Plugin i m => if bool_decide (i = length v) then Some (v ++ [(m, [])]) else None
  | Plugout i m => d ← v !! i; if bool_decide (d.1 = m) then Some (delete i v) else None
  | Mounted i j m => d ← v !! i; if bool_decide (j = length d.2) then Some (<[i := (d.1, d.2 ++ [m])]> v) else None
  | Umounted i j m => d ← v !! i; if bool_decide (d.2 !! j = Some m) then Some v else None
  end.
Fixpoint replay (v : view) (es : list EVENT) : option view :=
  match es with [] => Some v | e :: es => v' ← apply_event v e; replay v' es end.

Definition view_of (l : list UDISK_DiskNode_S) : view := (λ d, (disk_mnt d, part_mnt <$> part_list d)) <$> l.

Lemma replay_app v es es' : replay v (es ++ es') = v' ← replay v es; replay v' es'.
Proof.
  revert v. induction es as [|e es IH]; intros v; [done|]. cbn [app replay mbind option_bind]. destruct (apply_event v e); [apply IH|done].
Qed.

Lemma told_app tr tr' : told (tr ++ tr') = told tr' ++ told tr.
Proof. unfold told. by rewrite omap_app, reverse_app. Qed.

(** ** Calls that leave the table alone *)

(** The clients hear of the four events on the table. *)
Definition listening (st : STATE) : Prop :=
  ∀ ev, (ev < 4)%nat → ∃ f p, m_UDisk_Event st !! ev = Some (f, p) ∧ f ≠ 0.

(** What stays the same while disks are mounted, and the events in between. *)
Record same (st st' : STATE) : Prop := mkSame {
  same_ro : m_UDisk_PartROListHead st' = m_UDisk_PartROListHead st;
  same_events : m_UDisk_Event st' = m_UDisk_Event st;
  same_root : m_UDisk_Root st' = m_UDisk_Root st }.
Definition quiet (st st' : STATE) : Prop :=
  same st st' ∧ m_UDisk_DiskListHead st' = m_UDisk_DiskListHead st ∧ ∃ new, trace st' = new ++ trace st ∧ told new = [].
Definition tells (st st' : STATE) : Prop :=
  same st st' ∧ ∃ new, trace st' = new ++ trace st ∧
    (listening st → replay (view_of (m_UDisk_DiskListHead st)) (told new) = Some (view_of (m_UDisk_DiskListHead st'))).

#[export] Instance same_preorder : PreOrder same.
Proof. split; [done|]. intros x y z [] []. constructor; congruence. Qed.

#[export] Instance quiet_preorder : PreOrder quiet.
Proof.
  split; [intros st; split_and!; [done..|by exists []]|].
  intros x y z (H1 & H2 & new & H3 & H4) (K1 & K2 & new' & K3 & K4). split_and!; [by etrans|by rewrite K2|].
  exists (new' ++ new). split; [by rewrite K3, H3, app_assoc|]. by rewrite told_app, H4, K4.
Qed.

Lemma listening_same st st' : same st st' → listening st → listening st'.
Proof. intros [_ He _] H. unfold listening. by rewrite He. Qed.

#[export] Instance tells_preorder : PreOrder tells.
Proof.
  split; [intros st; split; [done|by exists []]|].
  intros x y z (H1 & new & H2 & H3) (K1 & new' & K2 & K3). split; [by etrans|]. exists (new' ++ new). split; [by rewrite K2, H2, app_assoc|].
  intros Hl. rewrite told_app, replay_app, H3 by done. cbn. apply K3. by eapply listening_same.
Qed.

Lemma quiet_tells st st' : quiet st st' → tells st st'.
Proof. intros (H1 & H2 & new & H3 & H4). split; [done|]. exists new. split; [done|]. by rewrite H4, H2. Qed.

(** A call that returns, and what it does to the state. *)
Definition does {A} (R : STATE → STATE → Prop) (m : M A) (st : STATE) : Prop := ∃ a st', m st = Returned (a, st') ∧ R st st'.

(** The array of callbacks has all its entries. *)
Definition has_events (st : STATE) : Prop := length (m_UDisk_Event st) = Z.to_nat HI_UDISK_EVENT_BUTT.
Definition Quiet {A} (m : M A) : Prop := ∀ st, has_events st → does quiet m st.

Lemma quiet_ret {A} (a : A) : Quiet (mret a).
Proof. intros st _. by exists a, st. Qed.

Lemma quiet_bind {A B} (m : M A) (k : A → M B) : Quiet m → (∀ a, Quiet (k a)) → Quiet (m ≫= k).
Proof.
  intros Hm Hk st He. destruct (Hm st He) as (a & st1 & H1 & Hq). destruct (Hk a st1) as (b & st2 & H2 & Hq').
  { unfold has_events. by rewrite (same_events _ _ (proj1 Hq)). }
  exists b, st2. split; [|by etrans]. unfold mbind, M_bind. by rewrite H1.
Qed.

Lemma quiet_gets {A} (f : STATE → A) : Quiet (gets f).
Proof. intros st _. by exists (f st), st. Qed.

Lemma quiet_modify f : (∀ st, quiet st (f st)) → Quiet (modify f).
Proof. intros H st _. exists tt, (f st). split; [done|apply H]. Qed.

Lemma quiet_slots l : Quiet (modify (set_slots l)).
Proof. apply quiet_modify. intros st. split_and!; [done..|by exists []]. Qed.

Create HintDb quiet.
#[export] Hint Resolve quiet_ret quiet_gets quiet_slots : quiet.

Section quiet.
Variable os : list ACTION → Z.
Variable errno : list ACTION → Z.
Variable readdir : list ACTION → option (list cstring).
Variable statfs : list ACTION → Z * Z * Z.
Variable blkid_text : list ACTION → option (list Z).
Variable clock : list ACTION → Z * Z.
Variable stack_rest : list Z.

Lemma quiet_sys a : event_of a = None → Quiet (sys os a).
Proof.
  intros Ha st _. exists (os (trace (note a st))), (note a st). split; [done|]. split_and!; [done..|]. exists [a]. split; [done|].
  unfold told. cbn [omap list_omap]. by rewrite Ha.
Qed.

Lemma quiet_do_sys a : event_of a = None → Quiet (do_sys os a).
Proof. intros Ha. apply quiet_bind; [by apply quiet_sys|]. intros. apply quiet_ret. Qed.

Lemma callback_step ev p st f q : m_UDisk_Event st !! ev = Some (f, q) →
  UDISK_EventCallback os ev p st = (if f =? 0 then Returned (0, st) else sys os (Call f q ev p) st).
Proof. intros Hf. unfold UDISK_EventCallback, mbind, M_bind, gets. cbn [obind]. rewrite Hf. by destruct (f =? 0). Qed.

Lemma quiet_callback ev p : (4 ≤ ev < 11)%nat → Quiet (UDISK_EventCallback os ev p).
Proof.
  intros Hev st He. destruct (lookup_lt_is_Some_2 (m_UDisk_Event st) ev) as [[f q] Hf]; [unfold has_events in He; rewrite He; change (Z.to_nat HI_UDISK_EVENT_BUTT) with 11%nat; lia|].
  unfold does. rewrite (callback_step _ _ _ _ _ Hf). destruct (f =? 0); [by apply (quiet_ret 0 st)|].
  apply (quiet_sys (Call f q ev p)); [|done].
  assert (ev ≠ HI_UDISK_EVENT_PLUGIN ∧ ev ≠ HI_UDISK_EVENT_PLUGOUT ∧ ev ≠ HI_UDISK_EVENT_MOUNTED ∧ ev ≠ HI_UDISK_EVENT_UMOUNTED) as (N1 & N2 & N3 & N4).
  { unfold HI_UDISK_EVENT_PLUGIN, HI_UDISK_EVENT_PLUGOUT, HI_UDISK_EVENT_MOUNTED, HI_UDISK_EVENT_UMOUNTED. lia. }
  destruct p; cbn [event_of]; [by rewrite !bool_decide_false|by rewrite !bool_decide_false|done..].
Qed.

Lemma quiet_report ev p : (4 ≤ ev < 11)%nat → Quiet (report os ev p).
Proof. intros Hev. apply quiet_bind; [by apply quiet_callback|]. intros. apply quiet_ret. Qed.

(** Walking through a definition made of quiet parts. *)
Ltac quiet_step :=
  match goal with
  | |- Quiet (mbind _ _) => apply quiet_bind; [|intros ?]
  | |- Quiet (sys _ _) => apply quiet_sys; done
  | |- Quiet (do_sys _ _) => apply quiet_do_sys; done
  | |- Quiet (report _ _ _) => apply quiet_report; unfold HI_UDISK_EVENT_DISKSCANREQUEST, HI_UDISK_EVENT_DISKSCANCOMPLETE, HI_UDISK_EVENT_UNKNOWNFILESYS, HI_UDISK_EVENT_ALLPARTMOUNTED, HI_UDISK_EVENT_FULL; lia
  | |- Quiet (match ?x with _ => _ end) => destruct x
  | |- _ => by auto with quiet
  end.
Ltac quiet_tac := repeat (cbv zeta; quiet_step).

Lemma quiet_errno : Quiet (get_errno errno).
Proof. apply quiet_gets. Qed.
#[local] Hint Resolve quiet_errno : quiet.

Lemma quiet_InitDiskDB : Quiet UDISK_InitDiskDB.
Proof. apply quiet_slots. Qed.
#[local] Hint Resolve quiet_InitDiskDB : quiet.

Lemma quiet_any_access paths : Quiet (any_access os paths).
Proof. induction paths; cbn [any_access]; quiet_tac. Qed.
#[local] Hint Resolve quiet_any_access : quiet.

Lemma quiet_ISMediaDevice dev : Quiet (UDISK_ISMediaDevice os dev).
Proof. unfold UDISK_ISMediaDevice. quiet_tac. Qed.

Lemma quiet_ReportScanEvent : Quiet (UDISK_ReportScanEvent os).
Proof. unfold UDISK_ReportScanEvent. quiet_tac. Qed.
#[local] Hint Resolve quiet_ReportScanEvent : quiet.

Lemma quiet_Record dev s : Quiet (UDISK_RecordPartitionStatus dev s).
Proof. unfold UDISK_RecordPartitionStatus. quiet_tac. Qed.
#[local] Hint Resolve quiet_Record : quiet.

Lemma quiet_remain slots : ∀ m a b, Quiet (remain_loop os slots m a b).
Proof. induction slots; intros; cbn [remain_loop]; quiet_tac. Qed.
#[local] Hint Resolve quiet_remain : quiet.

Lemma quiet_Remain : Quiet (UDISK_ReportDiskRemainEvent os clock).
Proof. unfold UDISK_ReportDiskRemainEvent. quiet_tac. Qed.

Lemma quiet_GetPartitionFileSystem dev : Quiet (UDISK_GetPartitionFileSystem os blkid_text stack_rest dev).
Proof. unfold UDISK_GetPartitionFileSystem. quiet_tac. Qed.
#[local] Hint Resolve quiet_GetPartitionFileSystem : quiet.

Lemma quiet_StatFs mnt : Quiet (UDISK_StatFs os statfs mnt).
Proof. unfold UDISK_StatFs. quiet_tac. Qed.
#[local] Hint Resolve quiet_StatFs : quiet.

Lemma quiet_tntfs s t : Quiet (mount_tntfs os s t).
Proof. unfold mount_tntfs. quiet_tac. Qed.
#[local] Hint Resolve quiet_tntfs : quiet.

Lemma quiet_scan_and_report s : Quiet (scan_and_report os s).
Proof. unfold scan_and_report. quiet_tac. Qed.
#[local] Hint Resolve quiet_scan_and_report : quiet.

Lemma quiet_again s t fs : Quiet (mount_again_vfat os errno s t fs).
Proof. unfold mount_again_vfat. quiet_tac. Qed.
#[local] Hint Resolve quiet_again : quiet.

Lemma quiet_MountByFormat s t fs : Quiet (UDISK_MountByFormat os errno s t fs).
Proof. unfold UDISK_MountByFormat. quiet_tac. Qed.
#[local] Hint Resolve quiet_MountByFormat : quiet.

Lemma quiet_enum s t fs : Quiet (mount_enum os errno s t fs).
Proof. induction fs as [|[f ty] fs IH]; cbn [mount_enum]; quiet_tac. Qed.
#[local] Hint Resolve quiet_enum : quiet.

Lemma quiet_Mount s t : Quiet (UDISK_Mount os errno blkid_text stack_rest s t).
Proof. unfold UDISK_Mount. quiet_tac. Qed.

Lemma quiet_wait n p : Quiet (wait_access os n p).
Proof. induction n; cbn [wait_access]; quiet_tac. Qed.
#[local] Hint Resolve quiet_wait : quiet.

Lemma quiet_try n p : Quiet (try_open os n p).
Proof. induction n; cbn [try_open]; quiet_tac. Qed.
#[local] Hint Resolve quiet_try : quiet.

Lemma quiet_there p i : Quiet (partition_there os p i).
Proof. unfold partition_there. quiet_tac. Qed.

Lemma quiet_umount_entries p names : Quiet (umount_entries os p names).
Proof. induction names; cbn [umount_entries]; unfold UDISK_Umount; quiet_tac. Qed.
#[local] Hint Resolve quiet_umount_entries : quiet.

Lemma quiet_list_dir p : Quiet (list_dir os readdir p).
Proof. unfold list_dir. quiet_tac. Qed.
#[local] Hint Resolve quiet_list_dir : quiet.

Lemma quiet_UMountDisk p : Quiet (UDISK_UMountDisk os readdir p).
Proof. unfold UDISK_UMountDisk. quiet_tac. Qed.

Lemma quiet_stat_parts l : Quiet (stat_parts os statfs l).
Proof. induction l; cbn [stat_parts]; quiet_tac. Qed.

Lemma quiet_umount_tries n t : Quiet (umount_tries os n t).
Proof. induction n; cbn [umount_tries]; unfold UDISK_Umount; quiet_tac. Qed.

Lemma quiet_eject : Quiet (eject_sr0 os).
Proof. unfold eject_sr0. quiet_tac. apply quiet_modify. intros st. split_and!; [done..|by exists []]. Qed.

Lemma quiet_full_parts i l : ∀ j, Quiet (full_parts os statfs i j l).
Proof. induction l; intros; cbn [full_parts]; quiet_tac. Qed.
#[local] Hint Resolve quiet_full_parts : quiet.

Lemma quiet_full_disks l : ∀ i, Quiet (full_disks os statfs i l).
Proof. induction l; intros; cbn [full_disks]; quiet_tac. Qed.
#[local] Hint Resolve quiet_full_disks : quiet.

Lemma quiet_CheckPartitionFull : Quiet (UDISK_CheckPartitionFull os statfs).
Proof. unfold UDISK_CheckPartitionFull. quiet_tac. Qed.
End quiet.
#[export] Hint Resolve quiet_sys quiet_do_sys quiet_ISMediaDevice quiet_Remain quiet_Mount quiet_there quiet_UMountDisk quiet_list_dir
  quiet_stat_parts quiet_umount_tries quiet_eject quiet_CheckPartitionFull quiet_errno quiet_InitDiskDB : quiet.

(** ** A table that is well-formed *)

(** The paths of devices: of a disk, and of a partition of it. *)
Definition byte (c : Z) : Prop := 0 ≤ c < 256.
Definition dev_ok (dev : cstring) : Prop := ∃ name, dev = bytes "/dev/" ++ name ∧ disk_name name = true ∧ Forall byte name.
Definition part_of (dev path : cstring) : Prop := path = dev ∨ ∃ i, (1 ≤ i ≤ UDISK_MAX_TRY_NUM)%nat ∧ path = dev ++ dec i.

Record disk_ok (d : UDISK_DiskNode_S) : Prop := mkDiskOk {
  dk_dev : dev_ok (disk_dev d);
  dk_mnt : (length (disk_mnt d) < MAX_UDISK_NAME_LEN)%nat;
  dk_parts : Forall (λ p, bMounted p = true ∧ part_of (disk_dev d) (part_dev p) ∧ (length (part_mnt p) < MAX_UDISK_NAME_LEN)%nat) (part_list d);
  dk_distinct : NoDup (part_dev <$> part_list d);
  dk_few : (length (part_list d) ≤ UDISK_MAX_DEV_NUM)%nat }.

Record table_ok (l : list UDISK_DiskNode_S) : Prop := mkTableOk {
  tb_disks : Forall disk_ok l;
  tb_distinct : NoDup (disk_dev <$> l) }.

Record wf (st : STATE) : Prop := mkWf {
  wf_table : table_ok (m_UDisk_DiskListHead st);
  wf_ro : m_UDisk_PartROListHead st = [];
  wf_events : has_events st;
  wf_root : m_UDisk_Root st ≠ None }.

Lemma wf_same st st' : wf st → same st st' → table_ok (m_UDisk_DiskListHead st') → wf st'.
Proof.
  intros [_ Hr He Ho] [H1 H2 H3] Ht. constructor; [done|by rewrite H1| |by rewrite H3]. unfold has_events. by rewrite H2.
Qed.

Lemma wf_quiet st st' : wf st → quiet st st' → wf st'.
Proof. intros Hw (Hs & Hd & _). apply (wf_same st); [done..|]. rewrite Hd. apply Hw. Qed.

Lemma dev_ok_length dev : dev_ok dev → length dev = 8%nat.
Proof.
  intros (name & -> & Hn & _). unfold disk_name in Hn. apply andb_true_iff in Hn as [_ Hn]. apply bool_decide_eq_true in Hn.
  rewrite length_app, Hn. done.
Qed.

Lemma dec_length i : (length (dec i) ≤ 2)%nat.
Proof. unfold dec. destruct (i <? 10)%nat; cbn; lia. Qed.

Lemma dec_inj i j : (i < 100)%nat → (j < 100)%nat → dec i = dec j → i = j.
Proof.
  unfold dec. intros Hi Hj. destruct (Nat.ltb_spec i 10), (Nat.ltb_spec j 10); intros H1; try discriminate H1.
  - apply (f_equal (hd 0)) in H1. cbn [hd] in H1. lia.
  - pose proof (f_equal (hd 0) H1) as H2. apply (f_equal (λ l, hd 0 (tl l))) in H1. cbn [hd tl] in H1, H2.
    pose proof (Nat.div_mod_eq i 10). pose proof (Nat.div_mod_eq j 10). lia.
Qed.

Lemma part_of_short dev path : dev_ok dev → part_of dev path → (length path ≤ 10)%nat ∧ take 8 path = dev.
Proof.
  intros Hd%dev_ok_length [->|(i & _ & ->)]; [split; [lia|apply take_ge; lia]|].
  rewrite length_app. pose proof (dec_length i). split; [lia|]. by rewrite <-Hd, take_app_length.
Qed.

Lemma same_path_short a b : (length a < MAX_UDISK_NAME_LEN)%nat → (length b < MAX_UDISK_NAME_LEN)%nat → same_path a b = bool_decide (a = b).
Proof. intros Ha Hb. unfold same_path, US.strncmp_eq. by rewrite !take_ge by lia. Qed.

Lemma dev_ok_short dev : dev_ok dev → (length dev < MAX_UDISK_NAME_LEN)%nat.
Proof. intros H%dev_ok_length. rewrite H. unfold MAX_UDISK_NAME_LEN. lia. Qed.

(** ** Finding disks and partitions *)

Lemma find_key {A} (f : A → cstring) (test : cstring → A → bool) (key : cstring) (l : list A) :
  (∀ x, x ∈ l → test key x = bool_decide (key = f x)) → ∀ i, find_index (test key) l = Some i → ∃ x, l !! i = Some x ∧ f x = key.
Proof.
  induction l as [|y l IH]; intros Ht i; [done|]. cbn [find_index]. rewrite Ht by set_solver. case_bool_decide as Hk.
  - intros [= <-]. by exists y.
  - destruct (find_index _ l) as [j|] eqn:E; [|done]. intros [= <-]. apply IH; [intros; apply Ht; set_solver|done].
Qed.

Lemma find_key_none {A} (f : A → cstring) (test : cstring → A → bool) (key : cstring) (l : list A) :
  (∀ x, x ∈ l → test key x = bool_decide (key = f x)) → find_index (test key) l = None ↔ key ∉ f <$> l.
Proof.
  induction l as [|y l IH]; intros Ht; [split; [set_solver|done]|]. cbn [find_index fmap list_fmap]. rewrite Ht by set_solver.
  rewrite not_elem_of_cons, <-IH by (intros; apply Ht; set_solver). case_bool_decide; [split; [done|by intros []]|].
  destruct (find_index _ l); split; [done|by intros []|done|done].
Qed.

Lemma find_key_at {A} (f : A → cstring) (test : cstring → A → bool) (l : list A) : NoDup (f <$> l) →
  ∀ i x, l !! i = Some x → (∀ y, y ∈ l → test (f x) y = bool_decide (f x = f y)) → find_index (test (f x)) l = Some i.
Proof.
  induction l as [|y l IH]; intros Hd i x Hi Ht; [done|]. cbn [find_index]. apply NoDup_cons in Hd as [Hy Hd]. rewrite Ht by set_solver.
  destruct i as [|i]; [injection Hi as ->; by rewrite bool_decide_true|]. cbn in Hi. case_bool_decide as Heq.
  - destruct Hy. fold (fmap f l). rewrite <-Heq. apply list_elem_of_fmap. exists x. split; [done|]. by eapply list_elem_of_lookup_2.
  - rewrite (IH Hd i x Hi); [done|]. intros; apply Ht; set_solver.
Qed.

Section finding.
Variable l : list UDISK_DiskNode_S.
Hypothesis Hok : table_ok l.

Lemma disk_at i d : l !! i = Some d → disk_ok d.
Proof. intros Hi. by apply (Forall_lookup_1 _ _ _ _ (tb_disks _ Hok)) in Hi. Qed.

Lemma dev_test key d : (length key < MAX_UDISK_NAME_LEN)%nat → d ∈ l → same_path key (disk_dev d) = bool_decide (key = disk_dev d).
Proof.
  intros Hk (i & Hi)%list_elem_of_lookup. apply same_path_short; [done|]. apply dev_ok_short, (dk_dev _ (disk_at _ _ Hi)).
Qed.

Lemma find_dev_at i d : l !! i = Some d → find_dev (disk_dev d) l = Some i.
Proof.
  intros Hi. unfold find_dev. apply (find_key_at disk_dev (λ k d, same_path k (disk_dev d)) _ (tb_distinct _ Hok) _ _ Hi).
  intros y Hy. apply dev_test; [|done]. apply dev_ok_short, (dk_dev _ (disk_at _ _ Hi)).
Qed.

Lemma find_dev_Some dev i : (length dev < MAX_UDISK_NAME_LEN)%nat → find_dev dev l = Some i → ∃ d, l !! i = Some d ∧ disk_dev d = dev.
Proof. intros Hl. apply (find_key disk_dev (λ k d, same_path k (disk_dev d))). intros y Hy. by apply dev_test. Qed.

Lemma find_dev_None dev : (length dev < MAX_UDISK_NAME_LEN)%nat → find_dev dev l = None ↔ dev ∉ disk_dev <$> l.
Proof. intros Hl. apply (find_key_none disk_dev (λ k d, same_path k (disk_dev d))). intros y Hy. by apply dev_test. Qed.
End finding.

Lemma table_ok_cons d l : table_ok (d :: l) → disk_ok d ∧ table_ok l ∧ disk_dev d ∉ disk_dev <$> l.
Proof.
  intros [Hd Hn]. apply Forall_cons in Hd as [? Hd]. rewrite fmap_cons in Hn. apply NoDup_cons in Hn as [? Hn]. split_and!; [done|by constructor|done].
Qed.

Lemma part_test d key p : disk_ok d → (length key < MAX_UDISK_NAME_LEN)%nat → p ∈ part_list d → same_path key (part_dev p) = bool_decide (key = part_dev p).
Proof.
  intros Hd Hk Hp. apply same_path_short; [done|]. pose proof (dk_parts _ Hd) as Hf. rewrite Forall_forall in Hf.
  destruct (Hf p Hp) as (_ & Hpo & _). apply part_of_short in Hpo as [? _]; [|apply Hd]. unfold MAX_UDISK_NAME_LEN. lia.
Qed.

(** A partition is found at its place. *)
Lemma find_part_at l : table_ok l → ∀ i j d p, l !! i = Some d → part_list d !! j = Some p → find_part (part_dev p) l = Some (i, j).
Proof.
  induction l as [|d0 l IH]; intros Hok i j d p Hi Hj; [done|]. pose proof Hok as Hok'. apply table_ok_cons in Hok' as (Hd0 & Hl & Hnew).
  assert (disk_ok d) as Hd by by apply (disk_at _ Hok i).
  assert (part_of (disk_dev d) (part_dev p)) as Hp. { pose proof (Forall_lookup_1 _ _ _ _ (dk_parts _ Hd) Hj) as (_ & ? & _). done. }
  apply part_of_short in Hp as [Hlen Htake]; [|apply Hd]. cbn [find_part]. destruct i as [|i].
  - injection Hi as ->. erewrite (find_key_at part_dev (λ k p, same_path k (part_dev p)) _ (dk_distinct _ Hd) _ _ Hj); [done|].
    intros y Hy. apply part_test with d; [done| |done]. unfold MAX_UDISK_NAME_LEN. lia.
  - cbn in Hi. destruct (find_index _ (part_list d0)) as [j'|] eqn:E.
    + apply (find_key part_dev (λ k p, same_path k (part_dev p))) in E as (q & Hq & Heq).
      2: { intros y Hy. apply part_test with d0; [done| |done]. unfold MAX_UDISK_NAME_LEN. lia. }
      pose proof (Forall_lookup_1 _ _ _ _ (dk_parts _ Hd0) Hq) as (_ & Hqo & _). apply part_of_short in Hqo as [_ Hqt]; [|apply Hd0].
      destruct Hnew. rewrite <-Hqt, Heq, Htake. apply list_elem_of_fmap. exists d. split; [done|]. by eapply list_elem_of_lookup_2.
    + by rewrite (IH Hl i j d p Hi Hj).
Qed.

(** A disk has one letter, so there are few. *)
Lemma dev_ok_letter dev : dev_ok dev → ∃ c, byte c ∧ dev = bytes "/dev/sd" ++ [c].
Proof.
  intros (name & -> & Hn & Hb). unfold disk_name, begins, US.strncmp_eq in Hn. apply andb_true_iff in Hn as [H1 H2].
  apply bool_decide_eq_true in H1, H2. destruct name as [|a [|b [|c [|? ?]]]]; try discriminate H2. injection H1 as -> ->.
  exists c. split; [|done]. by apply (Forall_lookup_1 _ _ 2%nat c Hb).
Qed.

Lemma table_few l : table_ok l → (length l ≤ 256)%nat.
Proof.
  intros [Hd Hn]. rewrite <-(length_fmap disk_dev). rewrite <-(length_seq 256 0), <-(length_fmap (λ n, bytes "/dev/sd" ++ [Z.of_nat n])).
  apply submseteq_length, NoDup_submseteq; [done|]. intros dev (d & -> & Hin)%list_elem_of_fmap. rewrite Forall_forall in Hd.
  destruct (dev_ok_letter _ (dk_dev _ (Hd d Hin))) as (c & Hc & ->). apply list_elem_of_fmap. exists (Z.to_nat c). unfold byte in Hc.
  split; [by rewrite Z2Nat.id by lia|]. apply elem_of_seq. lia.
Qed.

Lemma index_fits l i d : table_ok l → l !! i = Some d → Z.to_nat (u32 (Z.of_nat i)) = i.
Proof. intros Hok%table_few Hi%lookup_lt_Some. rewrite u32_small by lia. lia. Qed.

Lemma part_index_fits d j p : disk_ok d → part_list d !! j = Some p → Z.to_nat (u32 (Z.of_nat j)) = j.
Proof. intros Hd Hj%lookup_lt_Some. pose proof (dk_few _ Hd). unfold UDISK_MAX_DEV_NUM in *. rewrite u32_small by lia. lia. Qed.

(** ** Running calls *)

Definition wp {A} (m : M A) (st : STATE) (Q : A → STATE → Prop) : Prop := ∃ a st', m st = Returned (a, st') ∧ Q a st'.

Lemma wp_ret {A} (a : A) st (Q : A → STATE → Prop) : Q a st → wp (mret a) st Q.
Proof. intros H. by exists a, st. Qed.

Lemma wp_gets {A} (f : STATE → A) st (Q : A → STATE → Prop) : Q (f st) st → wp (gets f) st Q.
Proof. intros H. by exists (f st), st. Qed.

Lemma wp_modify f st (Q : unit → STATE → Prop) : Q tt (f st) → wp (modify f) st Q.
Proof. intros H. by exists tt, (f st). Qed.

Lemma wp_bind {A B} (m : M A) (k : A → M B) st (Q : B → STATE → Prop) : wp m st (λ a st', wp (k a) st' Q) → wp (m ≫= k) st Q.
Proof. intros (a & st1 & H1 & b & st2 & H2 & HQ). exists b, st2. split; [|done]. unfold mbind, M_bind. by rewrite H1. Qed.

Lemma wp_mono {A} (m : M A) st (Q Q' : A → STATE → Prop) : wp m st Q → (∀ a st', Q a st' → Q' a st') → wp m st Q'.
Proof. intros (a & st' & H & HQ) HQ'. exists a, st'. auto. Qed.

Lemma wp_quiet {A} (m : M A) st (Q : A → STATE → Prop) : Quiet m → wf st → (∀ a st', quiet st st' → wf st' → Q a st') → wp m st Q.
Proof.
  intros Hm Hw HQ. destruct (Hm st (wf_events _ Hw)) as (a & st' & Hr & Hq). exists a, st'. split; [done|]. apply HQ; [done|]. by eapply wf_quiet.
Qed.

(** An event on the table: told when the clients listen. *)
Lemma wp_report os ev p st (Q : unit → STATE → Prop) : (ev < 4)%nat → has_events st →
  (∀ st' new, same st st' → m_UDisk_DiskListHead st' = m_UDisk_DiskListHead st → trace st' = new ++ trace st →
     (listening st → told new = option_list (event_of (Call 0 0 ev p))) → Q tt st') →
  wp (report os ev p) st Q.
Proof.
  intros Hev He HQ. destruct (lookup_lt_is_Some_2 (m_UDisk_Event st) ev) as [[f q] Hf].
  { unfold has_events in He. rewrite He. change (Z.to_nat HI_UDISK_EVENT_BUTT) with 11%nat. lia. }
  apply wp_bind. destruct (Z.eqb_spec f 0) as [->|Hne].
  - exists 0, st. split; [by rewrite (callback_step _ _ _ _ _ _ Hf)|]. apply wp_ret. apply (HQ st []); [done..|].
    intros Hl. destruct (Hl ev Hev) as (f' & q' & Hf' & Hn). rewrite Hf in Hf'. by injection Hf' as <- <-.
  - eexists _, (note (Call f q ev p) st). split; [rewrite (callback_step _ _ _ _ _ _ Hf), (proj2 (Z.eqb_neq _ _) Hne); reflexivity|].
    apply wp_ret. apply (HQ _ [Call f q ev p]); [done..|]. intros _. unfold told. cbn [omap list_omap].
    change (event_of (Call f q ev p)) with (event_of (Call 0 0 ev p)). by destruct (event_of _).
Qed.

(** ** Changing a disk *)

Lemma table_ok_insert l k d d' : table_ok l → l !! k = Some d → disk_ok d' → disk_dev d' = disk_dev d → table_ok (<[k := d']> l).
Proof.
  intros [Hd Hn] Hk Hok He. constructor; [by apply Forall_insert|]. rewrite list_fmap_insert, He.
  rewrite list_insert_id; [done|]. by rewrite list_lookup_fmap, Hk.
Qed.

Lemma view_insert l k d : view_of (<[k := d]> l) = <[k := (disk_mnt d, part_mnt <$> part_list d)]> (view_of l).
Proof. unfold view_of. by rewrite list_fmap_insert. Qed.

Lemma view_lookup l k : view_of l !! k = (λ d, (disk_mnt d, part_mnt <$> part_list d)) <$> l !! k.
Proof. unfold view_of. by rewrite list_lookup_fmap. Qed.

Lemma alter_insert_at {A} (f : A → A) k (l : list A) x : l !! k = Some x → alter f k l = <[k := f x]> l.
Proof.
  revert k. induction l as [|y l IH]; intros [|k] Hk; try done; [by injection Hk as ->|].
  change (alter f (S k) (y :: l)) with (y :: alter f k l). cbn in Hk. by rewrite IH.
Qed.

(** A disk with one more partition. *)
Lemma disk_ok_add d p : disk_ok d → bMounted p = true → part_of (disk_dev d) (part_dev p) → (length (part_mnt p) < MAX_UDISK_NAME_LEN)%nat →
  part_dev p ∉ part_dev <$> part_list d → (length (part_list d) < UDISK_MAX_DEV_NUM)%nat → disk_ok (set_parts (part_list d ++ [p]) d).
Proof.
  intros [H1 H2 H3 H4 H5] Hm Hp Hl Hn Hf. constructor; cbn [set_parts disk_dev disk_mnt part_list]; [done..| | |].
  - apply Forall_app. split; [done|]. by apply Forall_singleton.
  - rewrite fmap_app. apply NoDup_app. split_and!; [done| |apply NoDup_singleton]. intros x Hx ->%list_elem_of_singleton. done.
  - rewrite length_app. cbn. lia.
Qed.

Section attaching.
Variable os : list ACTION → Z.
Variable errno : list ACTION → Z.
Variable readdir : list ACTION → option (list cstring).
Variable statfs : list ACTION → Z * Z * Z.
Variable blkid_text : list ACTION → option (list Z).
Variable clock : list ACTION → Z * Z.
Variable stack_junk : Z.
Variable stack_rest : list Z.

Abbreviation attach_one := (attach_one os errno blkid_text stack_rest).
Abbreviation attach_loop := (attach_loop os errno blkid_text stack_rest).

Abbreviation disks := m_UDisk_DiskListHead.

(** One partition: at most one more in the list, told if it is. *)
Definition grown (k : nat) (d : UDISK_DiskNode_S) (st st' : STATE) (ps : list UDISK_PartNode_S) : Prop :=
  wf st' ∧ tells st st' ∧ disks st' = <[k := set_parts (part_list d ++ ps) d]> (disks st).

Lemma grown_nothing k d st st' : disks st !! k = Some d → wf st' → quiet st st' → grown k d st st' [].
Proof.
  intros Hk Hw Hq. split_and!; [done|by apply quiet_tells|]. destruct Hq as (_ & -> & _). rewrite app_nil_r.
  rewrite list_insert_id; [done|]. rewrite Hk. by destruct d.
Qed.

Lemma grown_quiet k d st st1 st' ps : quiet st st1 → grown k d st1 st' ps → grown k d st st' ps.
Proof.
  intros Hq (Hw & Ht & Hd). split_and!; [done|by etrans; [apply quiet_tells|]|]. destruct Hq as (_ & Hq & _). by rewrite Hd, Hq.
Qed.

Lemma replay_mounted l k d p : l !! k = Some d →
  replay (view_of l) [Mounted k (length (part_list d)) (part_mnt p)] = Some (view_of (<[k := set_parts (part_list d ++ [p]) d]> l)).
Proof.
  intros Hk. cbn [replay apply_event]. rewrite view_lookup, Hk. cbn [fmap option_fmap option_map mbind option_bind fst snd].
  rewrite bool_decide_true by (by rewrite length_fmap). cbn [mbind option_bind]. rewrite view_insert. cbn [set_parts disk_mnt part_list]. by rewrite fmap_app.
Qed.

(** A partition is put into the list and told. *)
Lemma add_part_grows k d p old st (d' := set_parts (part_list d ++ [p]) d) :
  wf st → disks st !! k = Some d → disk_ok d' →
  wp (update_disk k (λ d, set_parts (part_list d ++ [p]) d);;
      idx ← UDISK_GetPartIndexByDevPath (part_dev p) old;
      report os HI_UDISK_EVENT_MOUNTED (MountParam idx.1 idx.2 (part_mnt p));;
      mret (Some (true, idx))) st (λ r st', grown k d st st' [p] ∧ ∃ idx, r = Some (true, idx)).
Proof.
  intros Hw Hk Hd'. apply wp_bind, wp_modify. rewrite (alter_insert_at _ _ _ _ Hk). fold d'. set (st1 := set_disks _ st).
  assert (wf st1) as Hw1. { apply (wf_same st); [done|done|]. apply (table_ok_insert _ _ d); [apply Hw|done|done|done]. }
  assert (disks st1 !! k = Some d') as Hat. { cbn [st1 disks set_disks]. rewrite list_lookup_insert_eq; [done|]. by eapply lookup_lt_Some. }
  assert (part_list d' !! length (part_list d) = Some p) as Hp by by (cbn [d' set_parts part_list]; rewrite list_lookup_middle).
  apply wp_bind. unfold UDISK_GetPartIndexByDevPath. apply wp_bind, wp_gets, wp_ret.
  rewrite (find_part_at _ (wf_table _ Hw1) _ _ _ _ Hat Hp).
  apply wp_bind, wp_report; [unfold HI_UDISK_EVENT_MOUNTED; lia|apply Hw1|]. intros st2 new Hs Hd Ht Htold. apply wp_ret.
  split; [|by eexists]. split_and!; [|split; [by transitivity st1|]|by rewrite Hd].
  { apply (wf_same st1); [done..|]. rewrite Hd. apply Hw1. }
  exists new. split; [done|]. intros Hl. rewrite Htold by done. cbn [fst snd event_of].
  rewrite (index_fits _ _ _ (wf_table _ Hw1) Hat), (part_index_fits d' _ p Hd' Hp), Hd. by apply replay_mounted.
Qed.

Lemma attach_one_grows k d dev_path mnt_path old st :
  wf st → disks st !! k = Some d → part_of (disk_dev d) dev_path → dev_path ∉ part_dev <$> part_list d →
  (length (part_list d) < UDISK_MAX_DEV_NUM)%nat →
  wp (attach_one k dev_path mnt_path old) st (λ r st', ∃ ps, grown k d st st' ps ∧
    match r with
    | Some (true, _) => ∃ p, ps = [p] ∧ part_dev p = dev_path
    | _ => ps = []
    end).
Proof.
  intros Hw Hk Hp Hnew Hfew. unfold UK.attach_one. apply wp_bind, wp_quiet; [by apply quiet_do_sys|done|intros _ st1 Hq1 Hw1].
  apply wp_bind, wp_quiet; [by apply quiet_sys|done|intros mem st2 Hq2 Hw2]. assert (quiet st st2) as Hq by by etrans.
  destruct (mem =? 0); [apply wp_ret; exists []; split; [by apply grown_nothing|done]|].
  apply wp_bind, wp_quiet; [apply quiet_Mount|done|intros [ret ty] st3 Hq3 Hw3]. assert (quiet st st3) as Hq' by by etrans.
  destruct (0 <=? ret).
  2: { apply wp_bind, wp_quiet; [by apply quiet_do_sys|done|intros _ st4 Hq4 Hw4]. apply wp_ret. exists []. split; [apply grown_nothing; [done|done|by etrans]|done]. }
  assert (dev_ok (disk_dev d)) as Hdev by apply (dk_dev _ (disk_at _ (wf_table _ Hw) _ _ Hk)).
  rewrite (take_ge dev_path) by (apply part_of_short in Hp as [? _]; [unfold MAX_UDISK_NAME_LEN; lia|done]).
  set (p := mkPart false 0 true (default 0 ty) 0 0 dev_path (take (MAX_UDISK_NAME_LEN - 1) mnt_path)).
  eapply wp_mono; [apply (add_part_grows k d p old st3 Hw3)|].
  - destruct Hq' as (_ & -> & _). done.
  - apply disk_ok_add; [by apply (disk_at _ (wf_table _ Hw) k)|done|done| |done|done]. cbn [p part_mnt]. rewrite length_take. unfold MAX_UDISK_NAME_LEN. lia.
  - intros r st4 [Hg [idx ->]]. exists [p]. split; [by eapply grown_quiet|]. by exists p.
Qed.

Lemma grown_trans k d st st1 st2 ps ps' : disks st !! k = Some d →
  grown k d st st1 ps → grown k (set_parts (part_list d ++ ps) d) st1 st2 ps' → grown k d st st2 (ps ++ ps').
Proof.
  intros Hk (_ & Ht & Hd) (Hw & Ht' & Hd'). split_and!; [done|by etrans|]. rewrite Hd', Hd, list_insert_insert_eq.
  cbn [set_parts part_list szVendor szModel disk_dev disk_mnt]. by rewrite app_assoc.
Qed.

(** The numbers still to be tried are not those of partitions in the list. *)
Definition untried (d : UDISK_DiskNode_S) (nums : list nat) : Prop :=
  ∀ p, p ∈ part_list d → (part_dev p = disk_dev d → 1%nat ∉ nums) ∧ (∀ i, (i ≤ UDISK_MAX_TRY_NUM)%nat → part_dev p = disk_dev d ++ dec i → i ∉ nums).

Lemma untried_less d i nums : untried d (i :: nums) → untried d nums.
Proof.
  intros Hu p Hp. destruct (Hu p Hp) as [U1 U2]. split; [intros H ?; apply U1; [done|set_solver]|].
  intros j Hj H ?. apply (U2 j); [done|done|set_solver].
Qed.

Lemma dec_nonempty i : dec i ≠ [].
Proof. unfold dec. by destruct (i <? 10)%nat. Qed.

Lemma dec_part (dev : cstring) i j : (i ≤ UDISK_MAX_TRY_NUM)%nat → (j ≤ UDISK_MAX_TRY_NUM)%nat → dev ++ dec i = dev ++ dec j → i = j.
Proof. unfold UDISK_MAX_TRY_NUM. intros Hi Hj H%app_inv_head. apply dec_inj; [lia|lia|done]. Qed.

Lemma not_dev_dec (dev : cstring) i : dev ++ dec i ≠ dev.
Proof. intros H. rewrite <-(app_nil_r dev) in H at 2. by apply app_inv_head, dec_nonempty in H. Qed.

(** The path of the partition that is tried for a number. *)
Lemma tried_path d i nums (there : bool) : NoDup (i :: nums) → Forall (λ i, 1 ≤ i ≤ UDISK_MAX_TRY_NUM)%nat (i :: nums) → untried d (i :: nums) →
  negb there && (1 <? i)%nat = false → let path := if there then disk_dev d ++ dec i else disk_dev d in
  part_of (disk_dev d) path ∧ path ∉ part_dev <$> part_list d ∧
  ∀ p, part_dev p = path → untried (set_parts (part_list d ++ [p]) d) nums.
Proof.
  intros Hn Hi Hu Hb path. apply NoDup_cons in Hn as [Hni _]. apply Forall_cons in Hi as [Hi Hr]. rewrite Forall_forall in Hr.
  assert (there = false → i = 1%nat) as H1. { intros ->. cbn [negb andb] in Hb. apply Nat.ltb_ge in Hb. lia. }
  split_and!.
  - unfold path. destruct there; [right; by exists i|by left].
  - intros (p & Hp & Hin)%list_elem_of_fmap. destruct (Hu p Hin) as [U1 U2]. unfold path in Hp. destruct there.
    + apply (U2 i); [lia|done|set_solver].
    + apply U1; [done|]. rewrite (H1 eq_refl). set_solver.
  - intros p Hp q [Hq| ->%list_elem_of_singleton]%elem_of_app.
    + exact (untried_less _ _ _ Hu q Hq).
    + rewrite Hp. unfold path. cbn [set_parts disk_dev]. destruct there; (split; [|intros j Hj]).
      * intros H. by apply not_dev_dec in H.
      * intros H. apply dec_part in H; [by subst j|lia|done].
      * intros _. by rewrite <-(H1 eq_refl).
      * intros H. symmetry in H. by apply not_dev_dec in H.
Qed.

Lemma attach_loop_grows root k nums : ∀ d mounted idx st,
  wf st → disks st !! k = Some d → NoDup nums → Forall (λ i, 1 ≤ i ≤ UDISK_MAX_TRY_NUM)%nat nums → untried d nums →
  mounted = length (part_list d) → (mounted < UDISK_MAX_DEV_NUM)%nat →
  wp (attach_loop root k (disk_dev d) nums mounted idx) st (λ _ st', ∃ ps, grown k d st st' ps).
Proof.
  induction nums as [|i nums IH]; intros d mounted idx st Hw Hk Hn Hi Hu Hm Hfew; cbn [UK.attach_loop].
  { apply wp_ret. exists []. by apply grown_nothing. }
  apply wp_bind, wp_quiet; [apply quiet_there|done|intros there st1 Hq1 Hw1].
  assert (disks st1 !! k = Some d) as Hk1 by by destruct Hq1 as (_ & -> & _).
  pose proof Hn as Hn'. apply NoDup_cons in Hn' as [Hni Hn']. pose proof Hi as Hi'. apply Forall_cons in Hi' as [_ Hi'].
  destruct (negb there && (1 <? i)%nat) eqn:Hb.
  { eapply wp_mono; [apply (IH d mounted idx st1); try done|].
    - by eapply untried_less.
    - intros _ st2 [ps Hg]. exists ps. by eapply grown_quiet. }
  destruct (strrchr (disk_dev d) slash) as [n|]; [|apply wp_ret; exists []; by apply grown_nothing].
  destruct (tried_path d i nums there Hn Hi Hu Hb) as (Hp & Hnew & Hrest).
  assert (dev_ok (disk_dev d)) as Hdev by apply (dk_dev _ (disk_at _ (wf_table _ Hw) _ _ Hk)).
  unfold print at 1. rewrite (take_ge (if there then _ else _)) by (apply part_of_short in Hp as [? _]; [unfold MAX_UDISK_NAME_LEN; lia|done]).
  apply wp_bind. eapply wp_mono; [apply (attach_one_grows k d); [done|done|exact Hp|exact Hnew|by rewrite <-Hm]|].
  intros r st2 (ps & Hg & Hr). apply (grown_quiet _ _ _ _ _ _ Hq1) in Hg.
  destruct r as [[[] idx']|]; [|subst ps|subst ps; apply wp_ret; by exists []].
  - destruct Hr as (p & -> & Hpd). destruct (Nat.leb_spec UDISK_MAX_DEV_NUM (S mounted)) as [Hl|Hl]; [apply wp_ret; by exists [p]|].
    pose proof Hg as (Hw2 & _ & Hd2). set (d2 := set_parts (part_list d ++ [p]) d) in *.
    eapply wp_mono; [apply (IH d2 (S mounted) idx' st2); try done|].
    + rewrite Hd2, list_lookup_insert_eq; [done|]. by eapply lookup_lt_Some.
    + by apply Hrest.
    + cbn [d2 set_parts part_list]. rewrite length_app, Hm. cbn. lia.
    + intros _ st3 [ps Hg']. exists ([p] ++ ps). by eapply grown_trans.
  - destruct (Nat.leb_spec UDISK_MAX_DEV_NUM mounted) as [Hl|Hl]; [apply wp_ret; by exists []|].
    pose proof Hg as (Hw2 & _ & Hd2). rewrite app_nil_r in Hd2.
    eapply wp_mono; [apply (IH d mounted idx' st2); try done|].
    + rewrite Hd2, list_lookup_insert_eq; [by destruct d|]. by eapply lookup_lt_Some.
    + by eapply untried_less.
    + intros _ st3 [ps Hg']. exists ([] ++ ps). eapply grown_trans; [done|done|]. rewrite app_nil_r. by destruct d.
Qed.

Lemma AttachPart_grows k d st : wf st → disks st !! k = Some d → part_list d = [] →
  wp (UDISK_AttachPart os errno blkid_text stack_rest k) st (λ _ st', ∃ ps, grown k d st st' ps).
Proof.
  intros Hw Hk Hp. unfold UDISK_AttachPart. apply wp_bind, wp_gets. apply wp_bind, wp_gets. rewrite Hk.
  pose proof (wf_root _ Hw) as Hroot. destruct (m_UDisk_Root st) as [root|]; [|done].
  apply wp_bind. eapply wp_mono; [apply (attach_loop_grows root k _ d 0 (0, 0) st Hw Hk)|].
  - apply NoDup_seq.
  - apply Forall_forall. intros i. rewrite elem_of_seq. lia.
  - intros p. rewrite Hp. set_solver.
  - by rewrite Hp.
  - unfold UDISK_MAX_DEV_NUM. lia.
  - intros r st1 [ps Hg]. assert (∀ st2, quiet st1 st2 → wf st2 → grown k d st st2 ps) as Hthen.
    { intros st2 Hq Hw2. destruct Hg as (_ & Ht & Hd). split_and!; [done|by etrans; [|apply quiet_tells]|]. by destruct Hq as (_ & -> & _). }
    pose proof Hg as (Hw1 & _). destruct r as [[[i mounted] idx]|]; [|apply wp_ret; by exists ps].
    destruct (_ && _); [|apply wp_ret; by exists ps].
    apply wp_quiet; [apply quiet_report; unfold HI_UDISK_EVENT_ALLPARTMOUNTED; lia|done|]. intros _ st2 Hq Hw2. exists ps. by apply Hthen.
Qed.
End attaching.

Section disks.
Variable os : list ACTION → Z.
Variable errno : list ACTION → Z.
Variable readdir : list ACTION → option (list cstring).
Variable statfs : list ACTION → Z * Z * Z.
Variable blkid_text : list ACTION → option (list Z).
Variable clock : list ACTION → Z * Z.
Variable stack_junk : Z.
Variable stack_rest : list Z.

Abbreviation disks := m_UDisk_DiskListHead.
Abbreviation AttachDisk := (UDISK_AttachDisk os errno readdir statfs blkid_text clock stack_junk stack_rest).
Abbreviation DetachDisk := (UDISK_DetachDisk os stack_junk).

Definition devs (st : STATE) : list cstring := disk_dev <$> disks st.

(** A call that keeps the table well-formed and tells what it does. *)
Definition step (st st' : STATE) : Prop := wf st' ∧ tells st st'.

Lemma step_trans st st1 st2 : step st st1 → step st1 st2 → step st st2.
Proof. intros [_ H1] [Hw H2]. split; [done|by etrans]. Qed.

Lemma quiet_step st st' : wf st → quiet st st' → step st st' ∧ devs st' = devs st.
Proof. intros Hw Hq. split; [split; [by eapply wf_quiet|by apply quiet_tells]|]. destruct Hq as (_ & Hd & _). unfold devs. by rewrite Hd. Qed.

(** *** Sizes *)

Definition part_key (p : UDISK_PartNode_S) : bool * cstring * cstring := (bMounted p, part_dev p, part_mnt p).

Lemma stat_parts_keys l : ∀ st, wf st → wp (stat_parts os statfs l) st (λ l' st', quiet st st' ∧ wf st' ∧ part_key <$> l' = part_key <$> l).
Proof.
  induction l as [|p l IH]; intros st Hw; cbn [stat_parts]; [by apply wp_ret|].
  apply wp_bind, wp_quiet; [apply quiet_StatFs|done|intros x st1 Hq1 Hw1]. apply wp_bind.
  eapply wp_mono; [by apply IH|]. intros l' st2 (Hq2 & Hw2 & Hl). apply wp_ret. split_and!; [by etrans|done|].
  destruct x as [[total avail]|]; rewrite !fmap_cons, Hl; done.
Qed.

Lemma keys_disk_ok d d' : disk_ok d → disk_dev d' = disk_dev d → disk_mnt d' = disk_mnt d → part_key <$> part_list d' = part_key <$> part_list d → disk_ok d'.
Proof.
  intros [H1 H2 H3 H4 H5] Hd Hm Hk. assert (part_dev <$> part_list d' = part_dev <$> part_list d) as Hpd.
  { apply (f_equal (fmap (λ x, x.1.2))) in Hk. by rewrite <-!list_fmap_compose in Hk. }
  constructor; rewrite ?Hd, ?Hm, ?Hpd; [done..| |done|].
  - rewrite Forall_forall in *. intros p (j & Hj)%list_elem_of_lookup.
    assert ((part_key <$> part_list d) !! j = Some (part_key p)) as Hq by by rewrite <-Hk, list_lookup_fmap, Hj.
    rewrite list_lookup_fmap in Hq. destruct (part_list d !! j) as [q|] eqn:Eq; [|done]. injection Hq as Hq1 Hq2 Hq3.
    rewrite <-Hq1, <-Hq2, <-Hq3. apply H3. by eapply list_elem_of_lookup_2.
  - apply (f_equal length) in Hk. rewrite !length_fmap in Hk. by rewrite Hk.
Qed.

Lemma GetDiskInfo_steps k d st : wf st → disks st !! k = Some d →
  wp (UDISK_GetDiskInfo os statfs k) st (λ _ st', step st st' ∧ devs st' = devs st).
Proof.
  intros Hw Hk. unfold UDISK_GetDiskInfo. apply wp_bind, wp_gets. rewrite Hk. apply wp_bind.
  eapply wp_mono; [by apply stat_parts_keys|]. intros ps st1 (Hq & Hw1 & Hkeys). destruct Hq as (Hs & Hd & new & Ht & Htold).
  apply wp_modify. rewrite Hd, (alter_insert_at _ _ _ _ Hk). set (d' := mkDisk _ _ _ _ _).
  assert (view_of (<[k := d']> (disks st)) = view_of (disks st)) as Hview.
  { rewrite view_insert. apply list_insert_id. rewrite view_lookup, Hk. cbn [fmap option_fmap option_map d' disk_mnt part_list]. do 2 f_equal.
    apply (f_equal (fmap (λ x, x.2))) in Hkeys. by rewrite <-!list_fmap_compose in Hkeys. }
  split; [split; [|split; [by transitivity st1|]]|].
  - apply (wf_same st1); [done|done|]. apply (table_ok_insert _ _ d); [apply Hw|done| |done].
    apply (keys_disk_ok d); [by apply (disk_at _ (wf_table _ Hw) k)|done..].
  - exists new. split; [done|]. intros _. rewrite Htold. cbn [disks set_disks]. by rewrite Hview.
  - unfold devs. cbn [disks set_disks]. rewrite list_fmap_insert. apply list_insert_id. by rewrite list_lookup_fmap, Hk.
Qed.

(** *** Attaching a disk *)

Definition new_disk (dev mnt : cstring) : UDISK_DiskNode_S := mkDisk [] [] dev mnt [].

Lemma new_disk_ok dev mnt : dev_ok dev → (length mnt < MAX_UDISK_NAME_LEN)%nat → disk_ok (new_disk dev mnt).
Proof. intros Hd Hm. constructor; cbn; [done..|constructor|constructor|lia]. Qed.

Lemma view_app l k : view_of (l ++ k) = view_of l ++ view_of k.
Proof. apply fmap_app. Qed.

Lemma replay_plugin l d : part_list d = [] → replay (view_of l) [Plugin (length l) (disk_mnt d)] = Some (view_of (l ++ [d])).
Proof.
  intros Hp. cbn [replay apply_event]. rewrite bool_decide_true by (unfold view_of; by rewrite length_fmap). cbn [mbind option_bind].
  rewrite view_app. unfold view_of at 3. cbn [fmap list_fmap]. by rewrite Hp.
Qed.

(** A new disk is told. *)
Lemma plugin_steps d st : wf st → disk_ok d → disk_dev d ∉ devs st → part_list d = [] →
  wp (plug_in os stack_junk d) st (λ _ st', step st st' ∧ disks st' = disks st ++ [d]).
Proof.
  intros Hw Hd Hnew Hp. unfold plug_in. apply wp_bind, wp_modify. set (st1 := set_disks _ st).
  assert (wf st1) as Hw1.
  { apply (wf_same st); [done|done|]. destruct (wf_table _ Hw) as [H1 H2]. constructor; cbn [st1 disks set_disks].
    - apply Forall_app. split; [done|]. by apply Forall_singleton.
    - rewrite fmap_app. apply NoDup_app. split_and!; [done| |apply NoDup_singleton]. by intros x Hx ->%list_elem_of_singleton. }
  assert (disks st1 !! length (disks st) = Some d) as Hat by by cbn [st1 disks set_disks]; rewrite list_lookup_middle.
  apply wp_bind. unfold UDISK_GetDiskIndexByDevPath. apply wp_bind, wp_gets, wp_ret. rewrite (find_dev_at _ (wf_table _ Hw1) _ _ Hat).
  apply wp_report; [unfold HI_UDISK_EVENT_PLUGIN; lia|apply Hw1|]. intros st2 new Hs Hd2 Ht Htold. split; [|by rewrite Hd2].
  split; [|split; [by transitivity st1|]].
  { apply (wf_same st1); [done..|]. rewrite Hd2. apply Hw1. }
  exists new. split; [done|]. intros Hl. rewrite Htold by done. change (event_of _) with (Some (Plugin (Z.to_nat (u32 (Z.of_nat (length (disks st))))) (disk_mnt d))).
  rewrite (index_fits _ _ _ (wf_table _ Hw1) Hat), Hd2. by apply replay_plugin.
Qed.

Lemma wp_sys a st (Q : Z → STATE → Prop) : Q (os (a :: trace st)) (note a st) → wp (sys os a) st Q.
Proof. intros H. by eexists _, _. Qed.

(** Whether a disk is attached: [added] says so. *)
Definition attaches (dev : cstring) (st st' : STATE) (added : bool) : Prop :=
  step st st' ∧ devs st' = devs st ++ (if added then [dev] else []) ∧
  if added then dev ∉ devs st ∧ ∃ st1, UDISK_ISMediaDevice os dev st = Returned (true, st1)
  else quiet st st' ∧ (dev ∈ devs st ∨ (∃ st1, UDISK_ISMediaDevice os dev st = Returned (false, st1)) ∨ (∃ tr, os (Malloc :: tr) = 0)).

Lemma not_attached dev st st' : wf st → quiet st st' →
  dev ∈ devs st ∨ (∃ st1, UDISK_ISMediaDevice os dev st = Returned (false, st1)) ∨ (∃ tr, os (Malloc :: tr) = 0) →
  attaches dev st st' false.
Proof. intros Hw Hq Hr. destruct (quiet_step _ _ Hw Hq) as [Hs Hd]. split_and!; [done|by rewrite app_nil_r|done|done]. Qed.

(** The rest of attaching, for a disk in the list. *)
Lemma attach_rest k d st : wf st → disks st !! k = Some d → part_list d = [] →
  wp (UDISK_InitDiskDB;; UDISK_AttachPart os errno blkid_text stack_rest k;; UDISK_GetDiskInfo os statfs k;; UDISK_ReportDiskRemainEvent os clock) st
    (λ _ st', step st st' ∧ devs st' = devs st).
Proof.
  intros Hw Hk Hp. apply wp_bind, wp_quiet; [apply quiet_InitDiskDB|done|intros _ st1 Hq1 Hw1].
  assert (disks st1 !! k = Some d) as Hk1 by by destruct Hq1 as (_ & -> & _).
  apply wp_bind. eapply wp_mono; [by apply (AttachPart_grows _ _ _ _ k d)|]. intros _ st2 [ps (Hw2 & Ht2 & Hd2)].
  assert (disks st2 !! k = Some (set_parts (part_list d ++ ps) d)) as Hk2.
  { rewrite Hd2, list_lookup_insert_eq; [done|]. by eapply lookup_lt_Some. }
  apply wp_bind. eapply wp_mono; [by apply (GetDiskInfo_steps k _ _ Hw2 Hk2)|]. intros _ st3 [Hs3 Hdev3].
  apply wp_quiet; [apply quiet_Remain|apply Hs3|]. intros _ st4 Hq4 Hw4.
  destruct (quiet_step _ _ Hw Hq1) as [Hs1 Hdev1], (quiet_step _ _ (proj1 Hs3) Hq4) as [Hs4 Hdev4].
  split; [eapply step_trans, step_trans, step_trans; [exact Hs1| |exact Hs3|exact Hs4]; by split|].
  rewrite Hdev4, Hdev3, <-Hdev1. unfold devs. rewrite Hd2, list_fmap_insert. apply list_insert_id. by rewrite list_lookup_fmap, Hk1.
Qed.

Lemma AttachDisk_attaches dev st : wf st → dev_ok dev → wp (AttachDisk dev) st (λ _ st', ∃ added, attaches dev st st' added).
Proof.
  intros Hw Hdev. pose proof (dev_ok_short _ Hdev) as Hshort. unfold UDISK_AttachDisk. apply wp_bind. unfold UDISK_FindDisk. apply wp_bind, wp_gets, wp_ret.
  destruct (find_dev dev (disks st)) as [i|] eqn:Hf.
  { apply wp_ret. exists false. apply not_attached; [done|done|left]. apply find_dev_Some in Hf as (d & Hi & <-); [|apply Hw|done].
    apply list_elem_of_fmap. exists d. split; [done|]. by eapply list_elem_of_lookup_2. }
  apply find_dev_None in Hf; [|apply Hw|done].
  destruct (quiet_ISMediaDevice os dev st (wf_events _ Hw)) as (b & st1 & Hmedia & Hq1). apply wp_bind. exists b, st1. split; [done|].
  pose proof (wf_quiet _ _ Hw Hq1) as Hw1.
  destruct b; cbn [negb]; [|apply wp_ret; exists false; apply not_attached; [done|done|right; left; by exists st1]].
  destruct (strrchr dev slash) as [n|] eqn:Hslash.
  2: { apply strrchr_None in Hslash. destruct (dev_ok_letter _ Hdev) as (c & _ & ->). destruct Hslash. set_solver. }
  apply wp_bind, wp_gets. pose proof (wf_root _ Hw1) as Hroot. destruct (m_UDisk_Root st1) as [root|]; [|done].
  cbv zeta. set (mnt := print _ _).
  apply wp_bind, wp_quiet; [by apply quiet_sys|done|intros r st2 Hq2 Hw2]. apply wp_bind, wp_quiet; [apply quiet_errno|done|intros e st3 Hq3 Hw3].
  apply wp_bind, wp_quiet; [destruct (_ && _); [apply quiet_UMountDisk|apply quiet_ret]|done|intros _ st4 Hq4 Hw4].
  assert (quiet st st4) as Hq by (etrans; [|exact Hq4]; etrans; [|exact Hq3]; by etrans).
  apply wp_bind. destruct (Z.eqb_spec (os (Malloc :: trace st4)) 0) as [Hz|Hz].
  { apply wp_sys. rewrite Hz. apply wp_ret. exists false. apply not_attached; [done| |right; right; by eexists].
    etrans; [exact Hq|]. destruct (quiet_sys os Malloc eq_refl st4 (wf_events _ Hw4)) as (? & ? & [= _ <-] & ?). done. }
  destruct (quiet_sys os Malloc eq_refl st4 (wf_events _ Hw4)) as (? & ? & [= _ <-] & Hq5).
  apply wp_sys. rewrite (proj2 (Z.eqb_neq _ _) Hz). set (st5 := note Malloc st4) in *. 
  assert (wf st5) as Hw5 by by eapply wf_quiet. apply wp_bind, wp_gets. set (d := mkDisk _ _ _ _ _).
  destruct (quiet_step st st5 Hw) as [Hs5 Hdev5]; [by etrans|].
  assert (disk_dev d = dev) as Hdd by (cbn [d disk_dev]; rewrite take_ge; [done|unfold MAX_UDISK_NAME_LEN in *; lia]).
  apply wp_bind. eapply wp_mono; [apply (plugin_steps d st5 Hw5)|].
  - assert (disk_ok (new_disk dev (take (MAX_UDISK_NAME_LEN - 1) mnt))) as Hok.
    { apply new_disk_ok; [done|]. rewrite length_take. unfold MAX_UDISK_NAME_LEN. lia. }
    unfold d. rewrite take_ge by (unfold MAX_UDISK_NAME_LEN in *; lia). exact Hok.
  - by rewrite Hdd, Hdev5.
  - done.
  - intros _ st6 [Hs6 Hd6]. eapply wp_mono; [apply (attach_rest _ d st6 (proj1 Hs6)); [by rewrite Hd6, list_lookup_middle|done]|].
    intros _ st7 [Hs7 Hdev7]. exists true. split_and!; [by eapply step_trans, step_trans| |by rewrite <-Hdev5, Hdev5|by exists st1].
    rewrite Hdev7. unfold devs at 1. rewrite Hd6, fmap_app. cbn [fmap list_fmap]. rewrite Hdd. fold (devs st5). by rewrite Hdev5.
Qed.

(** *** Detaching a disk *)

Lemma replay_umounted l k d j p : l !! k = Some d → part_list d !! j = Some p → replay (view_of l) [Umounted k j (part_mnt p)] = Some (view_of l).
Proof.
  intros Hk Hj. cbn [replay apply_event]. rewrite view_lookup, Hk. cbn [fmap option_fmap option_map mbind option_bind snd].
  by rewrite bool_decide_true by (by rewrite list_lookup_fmap, Hj).
Qed.

Lemma replay_plugout l k d : l !! k = Some d → replay (view_of l) [Plugout k (disk_mnt d)] = Some (view_of (delete k l)).
Proof.
  intros Hk. cbn [replay apply_event]. rewrite view_lookup, Hk. cbn [fmap option_fmap option_map mbind option_bind fst].
  rewrite bool_decide_true by done. cbn [mbind option_bind]. unfold view_of. by rewrite list_fmap_delete.
Qed.

(** The partitions are told to be gone while they are still in the list. *)
Lemma detach_parts_tell k d l2 : ∀ l1 tries idx st, wf st → disks st !! k = Some d → part_list d = l1 ++ l2 →
  wp (detach_parts os tries l2 idx) st (λ _ st', step st st' ∧ disks st' = disks st).
Proof.
  induction l2 as [|p l2 IH]; intros l1 tries idx st Hw Hk Hp; cbn [detach_parts]; [by apply wp_ret|].
  pose proof (disk_at _ (wf_table _ Hw) _ _ Hk) as Hd. assert (part_list d !! length l1 = Some p) as Hat by by rewrite Hp, list_lookup_middle.
  destruct (Forall_lookup_1 _ _ _ _ (dk_parts _ Hd) Hat) as (-> & _ & Hmnt).
  apply wp_bind. unfold UDISK_GetPartIndexByDevPath. apply wp_bind, wp_gets, wp_ret. rewrite (find_part_at _ (wf_table _ Hw) _ _ _ _ Hk Hat).
  apply wp_bind, wp_report; [unfold HI_UDISK_EVENT_UMOUNTED; lia|apply Hw|]. intros st1 new Hs1 Hd1 Ht1 Htold.
  rewrite (take_ge (part_mnt p)) in Htold by lia.
  assert (step st st1) as Hstep.
  { split; [apply (wf_same st); [done|done|rewrite Hd1; apply Hw]|]. split; [done|]. exists new. split; [done|]. intros Hl. rewrite Htold by done.
    change (event_of _) with (Some (Umounted (Z.to_nat (u32 (Z.of_nat k))) (Z.to_nat (u32 (Z.of_nat (length l1)))) (part_mnt p))).
    rewrite (index_fits _ _ _ (wf_table _ Hw) Hk), (part_index_fits _ _ _ Hd Hat), Hd1. by apply (replay_umounted _ _ d). }
  apply wp_bind, wp_quiet; [apply quiet_umount_tries|apply Hstep|intros tries' st2 Hq2 Hw2].
  apply wp_bind, wp_quiet; [by apply quiet_do_sys|done|intros _ st3 Hq3 Hw3].
  assert (disks st3 = disks st) as Hd3 by (destruct Hq2 as (_ & Hd2 & _), Hq3 as (_ & Hd3 & _); by rewrite Hd3, Hd2).
  eapply wp_mono; [apply (IH (l1 ++ [p])); [done|by rewrite Hd3|by rewrite <-app_assoc]|]. intros _ st4 [Hs4 Hd4]. split; [|by rewrite Hd4].
  eapply step_trans; [exact Hstep|]. eapply step_trans; [|exact Hs4]. apply quiet_step; [apply Hstep|by etrans].
Qed.

Lemma no_parts_ok d : disk_ok d → disk_ok (set_parts [] d).
Proof. intros [H1 H2 _ _ _]. constructor; cbn; [done..|constructor|constructor|lia]. Qed.

Lemma delete_insert_at {A} (k : nat) (x : A) (l : list A) : delete k (<[k := x]> l) = delete k l.
Proof. revert k. induction l as [|y l IH]; intros [|k]; [done..|]. change (y :: delete k (<[k := x]> l) = y :: delete k l). by rewrite IH. Qed.

(** A disk without its partitions is told and leaves the list. *)
Lemma plugout_steps k d st : wf st → disks st !! k = Some d →
  wp (update_disk k (set_parts []);;
      idx ← UDISK_GetDiskIndexByDevPath (disk_dev d) stack_junk;
      report os HI_UDISK_EVENT_PLUGOUT (PlugParam idx (take (MAX_UDISK_NAME_LEN - 1) (disk_mnt d)));;
      do_sys os (Rmdir (disk_mnt d));;
      modify (λ st, set_disks (delete k (disks st)) st)) st
    (λ _ st', step st st' ∧ disks st' = delete k (disks st)).
Proof.
  intros Hw Hk. pose proof (disk_at _ (wf_table _ Hw) _ _ Hk) as Hd. rewrite (take_ge (disk_mnt d)) by (pose proof (dk_mnt _ Hd); lia).
  apply wp_bind, wp_modify. rewrite (alter_insert_at _ _ _ _ Hk). set (d' := set_parts [] d). set (st1 := set_disks _ st).
  assert (wf st1) as Hw1.
  { apply (wf_same st); [done|done|]. apply (table_ok_insert _ _ d); [apply Hw|done| |done]. by apply no_parts_ok. }
  assert (disks st1 !! k = Some d') as Hat. { cbn [st1 disks set_disks]. rewrite list_lookup_insert_eq; [done|]. by eapply lookup_lt_Some. }
  apply wp_bind. unfold UDISK_GetDiskIndexByDevPath. apply wp_bind, wp_gets, wp_ret. pose proof (find_dev_at _ (wf_table _ Hw1) _ _ Hat) as Hf.
  change (disk_dev d') with (disk_dev d) in Hf. rewrite Hf.
  apply wp_bind, wp_report; [unfold HI_UDISK_EVENT_PLUGOUT; lia|apply Hw1|]. intros st2 new Hs2 Hd2 Ht2 Htold.
  assert (wf st2) as Hw2 by (apply (wf_same st1); [done|done|rewrite Hd2; apply Hw1]).
  apply wp_bind, wp_quiet; [by apply quiet_do_sys|done|intros _ st3 Hq3 Hw3]. apply wp_modify.
  destruct Hq3 as (Hs3 & Hd3 & new3 & Ht3 & Htold3).
  assert (delete k (disks st3) = delete k (disks st)) as Hdel. { rewrite Hd3, Hd2. cbn [st1 disks set_disks]. apply delete_insert_at. }
  split; [|exact Hdel]. split; [|split; [by transitivity st1; [|transitivity st2; [|transitivity st3]]|]].
  - apply (wf_same st3); [done|done|]. cbn [disks set_disks]. rewrite Hdel. destruct (wf_table _ Hw) as [H1 H2]. constructor.
    + by apply Forall_delete.
    + rewrite list_fmap_delete. eapply sublist_NoDup; [exact H2|apply sublist_delete].
  - exists (new3 ++ new). split; [cbn [trace set_disks]; by rewrite Ht3, Ht2, app_assoc|]. intros Hl. rewrite told_app, Htold3, app_nil_r, Htold by done.
    change (event_of _) with (Some (Plugout (Z.to_nat (u32 (Z.of_nat k))) (disk_mnt d))).
    rewrite (index_fits _ _ _ (wf_table _ Hw) Hk). cbn [disks set_disks]. rewrite Hdel. by apply replay_plugout.
Qed.

Lemma DetachDisk_deletes k d st : wf st → disks st !! k = Some d →
  wp (DetachDisk (disk_dev d)) st (λ _ st', step st st' ∧ disks st' = delete k (disks st)).
Proof.
  intros Hw Hk. unfold UDISK_DetachDisk. apply wp_bind. unfold UDISK_FindDisk. apply wp_bind, wp_gets, wp_ret.
  rewrite (find_dev_at _ (wf_table _ Hw) _ _ Hk). apply wp_bind, wp_gets. rewrite Hk.
  apply wp_bind. eapply wp_mono; [by apply (detach_parts_tell k d (part_list d) [])|]. intros _ st1 [Hs1 Hd1].
  eapply wp_mono; [apply (plugout_steps k d st1 (proj1 Hs1)); by rewrite Hd1|]. intros _ st2 [Hs2 Hd2].
  split; [by eapply step_trans|by rewrite Hd2, Hd1].
Qed.
End disks.

(** ** The check *)

Lemma filter_agree {A} (P Q : A → Prop) `{∀ x, Decision (P x), ∀ x, Decision (Q x)} (l : list A) :
  (∀ x, x ∈ l → P x ↔ Q x) → filter P l = filter Q l.
Proof.
  induction l as [|x l IH]; intros H1; [done|]. rewrite !filter_cons, IH by (intros; apply H1; set_solver).
  destruct (H1 x) as [H2 H3]; [set_solver|]. by destruct (decide (P x)), (decide (Q x)); try tauto.
Qed.

Lemma delete_filter (l : list cstring) k x : NoDup l → l !! k = Some x → delete k l = filter (λ y, y ≠ x) l.
Proof.
  revert k. induction l as [|y l IH]; intros k Hd Hk; [done|]. apply NoDup_cons in Hd as [Hy Hd]. destruct k as [|k].
  - injection Hk as ->. rewrite filter_cons_False by auto. change (l = filter (λ y, y ≠ x) l). symmetry. apply filter_all. by intros y Hy' ->.
  - change (y :: delete k l = filter (λ y, y ≠ x) (y :: l)). rewrite filter_cons_True, (IH k); [done..|].
    intros ->. apply Hy. by eapply list_elem_of_lookup_2.
Qed.

Section check.
Variable os : list ACTION → Z.
Variable errno : list ACTION → Z.
Variable readdir : list ACTION → option (list cstring).
Variable statfs : list ACTION → Z * Z * Z.
Variable blkid_text : list ACTION → option (list Z).
Variable clock : list ACTION → Z * Z.
Variable stack_junk : Z.
Variable stack_rest : list Z.

Abbreviation disks := m_UDisk_DiskListHead.
Abbreviation AttachDisk := (UDISK_AttachDisk os errno readdir statfs blkid_text clock stack_junk stack_rest).
Abbreviation DetachDisk := (UDISK_DetachDisk os stack_junk).
Abbreviation plug_out_loop := (plug_out_loop os stack_junk).
Abbreviation plug_in_loop := (plug_in_loop os errno readdir statfs blkid_text clock stack_junk stack_rest).
Abbreviation Check := (UDISK_CheckDiskPlugInOut os errno readdir statfs blkid_text clock stack_junk stack_rest).

Lemma devs_distinct st : wf st → NoDup (devs st).
Proof. intros Hw. apply (wf_table _ Hw). Qed.

Lemma devs_ok st dev : wf st → dev ∈ devs st → dev_ok dev.
Proof.
  intros Hw (d & -> & Hd)%list_elem_of_fmap. pose proof (tb_disks _ (wf_table _ Hw)) as Hf. rewrite Forall_forall in Hf. apply dk_dev. by apply Hf.
Qed.

Lemma DetachDisk_removes dev st : wf st → dev ∈ devs st →
  wp (DetachDisk dev) st (λ _ st', step st st' ∧ devs st' = filter (λ y, y ≠ dev) (devs st) ∧ (length (devs st') < length (devs st))%nat).
Proof.
  intros Hw (k & Hk)%list_elem_of_lookup. unfold devs in Hk. rewrite list_lookup_fmap in Hk. destruct (disks st !! k) as [d|] eqn:Hd; [|done].
  injection Hk as <-. eapply wp_mono; [by apply (DetachDisk_deletes os stack_junk k d)|]. intros _ st' [Hs Hd'].
  assert (devs st' = delete k (devs st)) as Hdel by (unfold devs; by rewrite Hd', list_fmap_delete).
  split_and!; [done| |].
  - rewrite Hdel. apply delete_filter; [by apply devs_distinct|]. unfold devs. by rewrite list_lookup_fmap, Hd.
  - rewrite Hdel. unfold devs. rewrite length_delete; [|by rewrite list_lookup_fmap, Hd]. rewrite length_fmap.
    apply lookup_lt_Some in Hd. lia.
Qed.

(** The answers do not depend on the time. *)
Definition steady (ans : ACTION → Z) : Prop := ∀ a tr, os (a :: tr) = ans a.

Lemma plug_out_steps ds : ∀ st, wf st → NoDup ds → (∀ d, d ∈ ds → d ∈ devs st) →
  wp (plug_out_loop ds) st (λ _ st', step st st' ∧
    (devs st' = devs st ∧ quiet st st' ∨ (length (devs st') < length (devs st))%nat) ∧
    ∀ ans, steady ans → devs st' = filter (λ d, d ∈ ds → ans (Access d) = 0) (devs st)).
Proof.
  induction ds as [|d ds IH]; intros st Hw Hn Hin; cbn [UK.plug_out_loop].
  { apply wp_ret. split_and!; [by split|by left|]. intros ans _. symmetry. apply filter_all. set_solver. }
  apply NoDup_cons in Hn as [Hd Hn]. apply wp_bind, wp_sys. set (st1 := note _ st). set (r := os _).
  assert (quiet st st1) as Hq1. { destruct (quiet_sys os (Access d) eq_refl st (wf_events _ Hw)) as (? & ? & [= _ <-] & ?). done. }
  destruct (quiet_step _ _ Hw Hq1) as [Hs1 Hdev1]. apply wp_bind. destruct (Z.eqb_spec r HI_SUCCESS) as [Hr|Hr].
  - apply wp_ret. eapply wp_mono; [apply (IH st1 (proj1 Hs1) Hn); rewrite Hdev1; set_solver|].
    intros _ st2 (Hs2 & Hch & Hst). rewrite Hdev1 in *. split_and!; [by eapply step_trans| |].
    + destruct Hch as [[? ?]|?]; [left; split; [done|by etrans]|by right].
    + intros ans Ha. rewrite (Hst ans Ha). apply filter_agree. intros x _. unfold r in Hr. rewrite Ha in Hr. unfold HI_SUCCESS in Hr. set_solver.
  - apply wp_bind. eapply wp_mono; [apply (DetachDisk_removes d st1 (proj1 Hs1)); rewrite Hdev1; set_solver|].
    intros _ st2 (Hs2 & Hdev2 & Hl2). apply wp_bind, wp_gets. rewrite (wf_ro _ (proj1 Hs2)). apply wp_ret.
    eapply wp_mono; [apply (IH st2 (proj1 Hs2) Hn)|].
    { intros x Hx. rewrite Hdev2, Hdev1. apply list_elem_of_filter. split; [by intros -> |]. set_solver. }
    intros _ st3 (Hs3 & Hch & Hst). split_and!; [by eapply step_trans, step_trans| |].
    + right. rewrite Hdev1 in Hl2. destruct Hch as [[-> _]|?]; lia.
    + intros ans Ha. rewrite (Hst ans Ha), Hdev2, Hdev1, list_filter_filter. apply filter_agree. intros x _.
      unfold r in Hr. rewrite Ha in Hr. unfold HI_SUCCESS in Hr. split; [set_solver|]. intros H. split; [set_solver|].
      intros ->. apply Hr, H. set_solver.
Qed.

(** With steady answers: whether a device has media, and the disks after a
    directory was read. *)
Definition media (ans : ACTION → Z) (dev : cstring) : bool :=
  existsb (λ i, ans (Access (print 100 (dev ++ dec i))) =? 0) (seq 1 (UDISK_MAX_DEV_NUM - 1)) || (0 <? ans (Open dev)).
Definition dev_of (name : cstring) : cstring := bytes "/dev/" ++ name.
Definition attach_name (ans : ACTION → Z) (l : list cstring) (name : cstring) : list cstring :=
  if disk_name name && media ans (dev_of name) && bool_decide (dev_of name ∉ l) then l ++ [dev_of name] else l.
Definition checked_table (ans : ACTION → Z) (l names : list cstring) : list cstring :=
  foldl (attach_name ans) (filter (λ d, ans (Access d) = 0) l) names.

Lemma bind_returned {A B} (m : M A) (k : A → M B) st b st' :
  (m ≫= k) st = Returned (b, st') → ∃ a st1, m st = Returned (a, st1) ∧ k a st1 = Returned (b, st').
Proof. intros ([a st1] & H1 & H2)%obind_returned. by exists a, st1. Qed.

Lemma any_access_steady ans paths : steady ans → ∀ st b st', any_access os paths st = Returned (b, st') →
  b = existsb (λ p, ans (Access p) =? 0) paths.
Proof.
  intros Ha. induction paths as [|p paths IH]; intros st b st'; cbn [any_access existsb]; [by intros [= <- _]|].
  intros (r & st1 & [= <- <-] & H)%bind_returned. rewrite Ha in H. destruct (ans (Access p) =? 0); [by injection H as <- _|]. by eapply IH.
Qed.

Lemma existsb_fmap {A B} (f : B → bool) (g : A → B) (l : list A) : existsb f (g <$> l) = existsb (λ x, f (g x)) l.
Proof. induction l as [|x l IH]; [done|]. cbn [existsb fmap list_fmap]. by rewrite <-IH. Qed.

Lemma ISMedia_steady ans dev st b st' : steady ans → UDISK_ISMediaDevice os dev st = Returned (b, st') → b = media ans dev.
Proof.
  intros Ha (b1 & st1 & H1 & H)%bind_returned. apply (any_access_steady ans) in H1; [|done]. rewrite existsb_fmap in H1. unfold media. rewrite <-H1.
  destruct b1; [by injection H as <- _|]. apply bind_returned in H as (fd & st2 & [= <- <-] & [= <- _]). by rewrite Ha.
Qed.

Lemma disk_name_dev name : disk_name name = true → Forall byte name → dev_ok (dev_of name).
Proof. intros Hn Hb. by exists name. Qed.

(** A name in the directory of devices. *)
Lemma attach_name_steps name st : wf st → Forall byte name →
  wp (if disk_name name then AttachDisk (print MAX_UDISK_NAME_LEN (bytes "/dev/" ++ name)) else mret tt) st
    (λ _ st', step st st' ∧ (∃ more, devs st' = devs st ++ more ∧ (more = [] → quiet st st')) ∧
      ∀ ans, steady ans → ans Malloc ≠ 0 → devs st' = attach_name ans (devs st) name).
Proof.
  intros Hw Hb. unfold attach_name. destruct (disk_name name) eqn:Hn; cbn [andb].
  2: { apply wp_ret. split_and!; [by split|exists []; by rewrite app_nil_r|done]. }
  pose proof (disk_name_dev name Hn Hb) as Hdev. unfold print. fold (dev_of name). rewrite (take_ge (dev_of name)) by (pose proof (dev_ok_short _ Hdev); lia).
  eapply wp_mono; [by apply AttachDisk_attaches|]. intros _ st' [[] (Hs & Hd & Hwhy)]; (split; [done|]); rewrite Hd.
  - destruct Hwhy as (Hnew & st1 & Hmedia). split; [by exists [dev_of name]|]. intros ans Ha _.
    rewrite <-(ISMedia_steady ans _ _ _ _ Ha Hmedia). by rewrite bool_decide_true.
  - destruct Hwhy as (Hq & Hwhy). split; [by exists []|]. intros ans Ha Hmem. rewrite app_nil_r.
    destruct Hwhy as [Hin|[[st1 Hmedia]|[tr Htr]]]; [|by rewrite <-(ISMedia_steady ans _ _ _ _ Ha Hmedia)|by rewrite Ha in Htr].
    rewrite bool_decide_false by (intros H; by apply H). by rewrite andb_false_r.
Qed.

Lemma plug_in_steps names : ∀ st, wf st → Forall (Forall byte) names →
  wp (plug_in_loop names) st (λ _ st', step st st' ∧ (∃ more, devs st' = devs st ++ more ∧ (more = [] → quiet st st')) ∧
    ∀ ans, steady ans → ans Malloc ≠ 0 → devs st' = foldl (attach_name ans) (devs st) names).
Proof.
  induction names as [|name names IH]; intros st Hw Hb; cbn [UK.plug_in_loop].
  { apply wp_ret. split_and!; [by split|exists []; by rewrite app_nil_r|done]. }
  apply Forall_cons in Hb as [Hname Hb].
  assert (wp (if disk_name name then AttachDisk (print MAX_UDISK_NAME_LEN (bytes "/dev/" ++ name)) else mret tt) st
    (λ _ st', step st st' ∧ (∃ more, devs st' = devs st ++ more ∧ (more = [] → quiet st st')) ∧
      ∀ ans, steady ans → ans Malloc ≠ 0 → devs st' = attach_name ans (devs st) name)) as Hone.
  { by apply attach_name_steps. }
  apply wp_bind. eapply wp_mono; [exact Hone|]. intros _ st1 (Hs1 & (more & Hm & Hq1) & Hst1).
  apply wp_bind, wp_quiet; [destruct (begins "sr0" name); [apply quiet_eject|apply quiet_ret]|apply Hs1|intros _ st2 Hq2 Hw2].
  destruct (quiet_step _ _ (proj1 Hs1) Hq2) as [Hs2 Hdev2].
  eapply wp_mono; [by apply (IH st2)|]. intros _ st3 (Hs3 & (more' & Hm' & Hq3) & Hst3). split_and!; [by eapply step_trans, step_trans| |].
  - exists (more ++ more'). split; [by rewrite Hm', Hdev2, Hm, app_assoc|]. intros [-> ->]%app_nil. etrans; [by apply Hq1|]. etrans; [done|by apply Hq3].
  - intros ans Ha Hmem. by rewrite (Hst3 ans Ha Hmem), Hdev2, (Hst1 ans Ha Hmem).
Qed.

(** The names of devices are of bytes. *)
Definition dev_names_ok : Prop := ∀ tr names, readdir (Opendir (bytes "/dev") :: tr) = Some names → Forall (Forall byte) names.

Lemma list_dir_wp path st (Q : option (list cstring) → STATE → Prop) :
  Q (readdir (Opendir path :: trace st)) (note (Opendir path) st) → wp (list_dir os readdir path) st Q.
Proof. intros H. apply wp_bind, wp_sys, wp_gets. exact H. Qed.

Lemma quiet_note a st : event_of a = None → has_events st → quiet st (note a st).
Proof. intros Ha He. destruct (quiet_sys os a Ha st He) as (? & ? & [= _ <-] & ?). done. Qed.

Lemma quiet_umount_flag b st : quiet st (set_umount_all b st).
Proof. split_and!; [done..|by exists []]. Qed.

Lemma Check_steps st : wf st → dev_names_ok → wp Check st (λ _ st', step st st' ∧
  ∃ kept more, devs st' = kept ++ more ∧ (kept = devs st ∨ (length kept < length (devs st))%nat) ∧ (kept = devs st → more = [] → quiet st st') ∧
    ∀ ans, steady ans → kept = filter (λ d, ans (Access d) = 0) (devs st) ∧
      ∀ names, ans Malloc ≠ 0 → (∀ tr, readdir (Opendir (bytes "/dev") :: tr) = Some names) → devs st' = checked_table ans (devs st) names).
Proof.
  intros Hw Hnames. unfold UDISK_CheckDiskPlugInOut. apply wp_bind, wp_gets. apply wp_bind.
  eapply wp_mono; [apply (plug_out_steps (devs st) st Hw); [by apply devs_distinct|done]|]. intros _ st1 (Hs1 & Hch1 & Hst1).
  apply wp_bind, list_dir_wp. set (st2 := note _ st1). pose proof (proj1 Hs1) as Hw1.
  assert (quiet st1 st2) as Hq2 by by apply quiet_note, Hw1. destruct (quiet_step _ _ Hw1 Hq2) as [Hs2 Hdev2].
  assert (devs st1 = devs st → quiet st st1) as Hq1. { intros He. destruct Hch1 as [[_ ?]|Hl]; [done|]. rewrite He in Hl. lia. }
  assert (devs st1 = devs st ∨ (length (devs st1) < length (devs st))%nat) as Hk1 by (destruct Hch1 as [[? _]|?]; auto).
  assert (∀ ans, steady ans → devs st1 = filter (λ d, ans (Access d) = 0) (devs st)) as Hst1'.
  { intros ans Ha. rewrite (Hst1 ans Ha). apply filter_agree. intros d Hd. split; [by intros H; apply H|done]. }
  destruct (readdir _) as [names|] eqn:Hread.
  - apply wp_bind. eapply wp_mono; [apply (plug_in_steps names st2 (proj1 Hs2)); by eapply Hnames|].
    intros _ st3 (Hs3 & (more & Hm & Hq3) & Hst3). apply wp_modify. pose proof (quiet_umount_flag false st3) as Hq4.
    destruct (quiet_step _ _ (proj1 Hs3) Hq4) as [Hs4 Hdev4]. split; [by eapply step_trans, step_trans, step_trans|].
    exists (devs st1), more. split_and!; [by rewrite Hdev4, Hm, Hdev2|done| |].
    + intros He Hmore. etrans; [by apply Hq1|]. etrans; [done|]. etrans; [by apply Hq3|done].
    + intros ans Ha. split; [by apply Hst1'|]. intros names' Hmem Hr. rewrite Hr in Hread. injection Hread as Heq. rewrite Heq.
      by rewrite Hdev4, (Hst3 ans Ha Hmem), Hdev2, (Hst1' ans Ha).
  - apply wp_ret. split; [by eapply step_trans|]. exists (devs st1), []. split_and!; [by rewrite app_nil_r|done| |].
    + intros He _. etrans; [by apply Hq1|done].
    + intros ans Ha. split; [by apply Hst1'|]. intros names' _ Hr. by rewrite Hr in Hread.
Qed.

(** *** The other calls *)

Lemma DetachDisk_steps dev st : wf st → (length dev < MAX_UDISK_NAME_LEN)%nat → wp (DetachDisk dev) st (λ _ st', step st st').
Proof.
  intros Hw Hl. destruct (decide (dev ∈ devs st)) as [Hin|Hin].
  - eapply wp_mono; [by apply DetachDisk_removes|]. by intros _ st' [? _].
  - unfold UDISK_DetachDisk. apply wp_bind. unfold UDISK_FindDisk. apply wp_bind, wp_gets, wp_ret.
    rewrite (proj2 (find_dev_None _ (wf_table _ Hw) dev Hl) Hin). by apply wp_ret.
Qed.

Lemma umount_all_steps ds : ∀ st, wf st → Forall (λ d, (length d < MAX_UDISK_NAME_LEN)%nat) ds →
  wp (umount_all_loop os stack_junk ds) st (λ _ st', step st st').
Proof.
  induction ds as [|d ds IH]; intros st Hw Hl; cbn [umount_all_loop]; [by apply wp_ret|]. apply Forall_cons in Hl as [Hd Hl].
  apply wp_bind, wp_quiet; [by apply quiet_sys|done|intros r st1 Hq1 Hw1]. destruct (quiet_step _ _ Hw Hq1) as [Hs1 _].
  apply wp_bind. eapply (wp_mono _ _ (λ _ st', step st1 st')).
  - destruct (r =? HI_SUCCESS); [by apply DetachDisk_steps|by apply wp_ret].
  - intros _ st2 Hs2. eapply wp_mono; [apply (IH st2 (proj1 Hs2) Hl)|]. intros ? st3 Hs3. by eapply step_trans, step_trans.
Qed.

Lemma UmontAllDisk_steps st : wf st → wp (UDISK_UmontAllDisk os stack_junk) st (λ _ st', step st st').
Proof.
  intros Hw. apply wp_bind, wp_gets. apply umount_all_steps; [done|]. apply Forall_forall. intros d Hd. by apply dev_ok_short, (devs_ok st).
Qed.

(** A partition is changed, but not where it is: the others stay, and nothing
    is told. *)
Lemma change_partition_steps i j f st : wf st → (∀ p, part_key (f p) = part_key p) →
  wp (change_partition i j f) st (λ r st', step st st' ∧
    match disks st !! Z.to_nat i with
    | None => r = HI_UDISK_ERR_NOTEXIST ∧ st' = st
    | Some d => match part_list d !! Z.to_nat j with
                | None => r = HI_FAILURE ∧ st' = st
                | Some p => r = HI_SUCCESS ∧ st' = set_disks (<[Z.to_nat i := set_parts (<[Z.to_nat j := f p]> (part_list d)) d]> (disks st)) st
                end
    end).
Proof.
  intros Hw Hf. unfold change_partition. apply wp_bind. unfold UDISK_GetPartition. apply wp_bind, wp_gets, wp_ret.
  destruct (disks st !! Z.to_nat i) as [d|] eqn:Hd; [|by apply wp_ret]. destruct (part_list d !! Z.to_nat j) as [p|] eqn:Hp; [|by apply wp_ret].
  apply wp_bind, wp_gets. rewrite Hd, Hp. apply wp_bind, wp_modify, wp_ret. rewrite (alter_insert_at _ _ _ _ Hd).
  set (d' := set_parts _ d). split; [|done].
  assert (part_key <$> part_list d' = part_key <$> part_list d) as Hkeys.
  { cbn [d' set_parts part_list]. rewrite list_fmap_insert, Hf. apply list_insert_id. by rewrite list_lookup_fmap, Hp. }
  split; [apply (wf_same st); [done|done|]|split; [done|]].
  - apply (table_ok_insert _ _ d); [apply Hw|done| |done]. apply (keys_disk_ok d); [by apply (disk_at _ (wf_table _ Hw) (Z.to_nat i))|done..].
  - exists []. split; [done|]. intros _.
    change (Some (view_of (disks st)) = Some (view_of (<[Z.to_nat i := d']> (disks st)))). f_equal. symmetry.
    rewrite view_insert. apply list_insert_id. rewrite view_lookup, Hd. cbn [fmap option_fmap option_map d' disk_mnt set_parts]. do 2 f_equal.
    apply (f_equal (fmap (λ x, x.2))) in Hkeys. by rewrite <-!list_fmap_compose in Hkeys.
Qed.
End check.

(** ** The clients can follow the table *)

Inductive CALL :=
  | Round | UmountAll
  | SetFullReport (i j : Z) (b : bool) (line : Z)
  | FormatPartition (i j ty : Z).

Section run.
Variable os : list ACTION → Z.
Variable errno : list ACTION → Z.
Variable readdir : list ACTION → option (list cstring).
Variable statfs : list ACTION → Z * Z * Z.
Variable blkid_text : list ACTION → option (list Z).
Variable clock : list ACTION → Z * Z.
Variable stack_junk : Z.
Variable stack_rest : list Z.

Abbreviation disks := m_UDisk_DiskListHead.
Abbreviation Check := (UDISK_CheckDiskPlugInOut os errno readdir statfs blkid_text clock stack_junk stack_rest).

(** A round of the thread, or a call of a client. *)
Definition run_call (c : CALL) : M unit :=
  match c with
  | Round => UDISK_CheckThread os errno readdir statfs blkid_text clock stack_junk stack_rest
  | UmountAll => HI_UDISK_UmountAllDisk os stack_junk
  | SetFullReport i j b line => _ ← HI_UDISK_SetFullReport i j b line; mret tt
  | FormatPartition i j ty => _ ← HI_UDISK_FormatPartition os i j ty; mret tt
  end.
Fixpoint run (cs : list CALL) : M unit := match cs with [] => mret tt | c :: cs => run_call c;; run cs end.

Lemma quiet_wp_step {A} (m : M A) st : Quiet m → wf st → wp m st (λ _ st', step st st').
Proof. intros Hm Hw. apply wp_quiet; [done|done|]. intros a st' Hq _. by apply quiet_step. Qed.

Lemma format_steps i j ty st : wf st → wp (HI_UDISK_FormatPartition os i j ty) st (λ _ st', step st st').
Proof.
  intros Hw. unfold HI_UDISK_FormatPartition, HI_UDISK_GetPartitionInfo, UDISK_GetPartition. apply wp_bind, wp_bind, wp_gets, wp_ret.
  destruct (match disks st !! Z.to_nat i with None => _ | Some d => _ end) as [r [p|]]; [|by apply wp_ret].
  apply wp_bind, wp_quiet; [by apply quiet_sys|done|intros r1 st1 Hq1 Hw1]. destruct (quiet_step _ _ Hw Hq1) as [Hs1 _].
  destruct (r1 =? -1); [by apply wp_ret|]. apply wp_bind, wp_gets. cbv zeta.
  assert (∀ a b dev mnt, format_commands a b dev mnt = (System [], System []) ∨
    ∃ c c', format_commands a b dev mnt = (System c, System c')) as Hcmds.
  { intros a b dev mnt. unfold format_commands, command. right.
    destruct (_ || _); [by eexists _, _|]. destruct (b =? HI_UDISK_FSTYPE_EXT2); [by eexists _, _|]. destruct (b =? HI_UDISK_FSTYPE_EXT3); [by eexists _, _|].
    destruct (b =? HI_UDISK_FSTYPE_NTFS); [destruct (bForceMountNTFS a)|]; by eexists _, _. }
  assert (∃ c c', format_commands (init_param st1) ty (part_dev p) (part_mnt p) = (System c, System c')) as (c & c' & ->).
  { destruct (Hcmds (init_param st1) ty (part_dev p) (part_mnt p)) as [->|H]; [by eexists _, _|done]. }
  cbn [fst snd]. apply wp_bind, wp_quiet; [by apply quiet_sys|done|intros r2 st2 Hq2 Hw2]. destruct (quiet_step _ _ Hw1 Hq2) as [Hs2 _].
  destruct (r2 =? -1); [apply wp_ret; by eapply step_trans|].
  apply wp_bind, wp_quiet; [by apply quiet_sys|done|intros r3 st3 Hq3 Hw3]. destruct (quiet_step _ _ Hw2 Hq3) as [Hs3 _].
  destruct (r3 =? -1); [apply wp_ret; by eapply step_trans, step_trans|].
  apply wp_bind. eapply wp_mono; [apply change_partition_steps; [done|done]|]. intros ? st4 [Hs4 _]. apply wp_ret.
  by eapply step_trans, step_trans, step_trans.
Qed.

Lemma run_call_steps c st : wf st → dev_names_ok readdir → wp (run_call c) st (λ _ st', step st st').
Proof.
  intros Hw Hn. destruct c as [| |i j b line|i j ty]; cbn [run_call].
  - unfold UDISK_CheckThread. apply wp_bind. eapply wp_mono; [by apply Check_steps|]. intros ? st1 [Hs1 _].
    eapply (wp_mono _ _ (λ _ st', step st1 st')); [|intros ? st2 Hs2; by eapply step_trans].
    apply quiet_wp_step; [|apply Hs1]. apply quiet_bind; [apply quiet_CheckPartitionFull|intros ?].
    apply quiet_bind; [by apply quiet_do_sys|intros ?]. by apply quiet_do_sys.
  - unfold HI_UDISK_UmountAllDisk. apply wp_bind. eapply wp_mono; [by apply UmontAllDisk_steps|]. intros ? st1 Hs1. apply wp_modify.
    eapply step_trans; [exact Hs1|]. apply quiet_step; [apply Hs1|apply quiet_umount_flag].
  - apply wp_bind. eapply wp_mono; [apply change_partition_steps; [done|done]|]. intros ? st1 [Hs1 _]. by apply wp_ret.
  - apply wp_bind. eapply wp_mono; [by apply format_steps|]. intros ? st1 Hs1. by apply wp_ret.
Qed.

Lemma run_steps cs : ∀ st, wf st → dev_names_ok readdir → wp (run cs) st (λ _ st', step st st').
Proof.
  induction cs as [|c cs IH]; intros st Hw Hn; cbn [run]; [by apply wp_ret|].
  apply wp_bind. eapply wp_mono; [by apply run_call_steps|]. intros ? st1 Hs1. eapply wp_mono; [apply (IH st1); [apply Hs1|done]|].
  intros ? st2 Hs2. eapply step_trans; [exact Hs1|exact Hs2].
Qed.
End run.

(** C11: whatever disks come and go and however the system answers, no call
    faults, and a client that listens and replays the events knows the table:
    each event has the right places, and after any calls the table replayed from
    the one before is the table of the program.  Disks have different paths,
    and each at most 16 partitions, all mounted. *)
Theorem table_replay os errno readdir statfs blkid_text clock junk rest cs st :
  wf st → listening st → dev_names_ok readdir →
  ∃ st' new, run os errno readdir statfs blkid_text clock junk rest cs st = Returned (tt, st') ∧ trace st' = new ++ trace st ∧
    replay (view_of (m_UDisk_DiskListHead st)) (told new) = Some (view_of (m_UDisk_DiskListHead st')) ∧ wf st'.
Proof.
  intros Hw Hl Hn. destruct (run_steps os errno readdir statfs blkid_text clock junk rest cs st Hw Hn) as ([] & st' & Hr & Hw' & _ & new & Ht & Hreplay).
  exists st', new. split_and!; [done|done|by apply Hreplay|done].
Qed.

(** ** The check settles *)

Lemma attach_name_prefix ans l name : l `prefix_of` attach_name ans l name.
Proof. unfold attach_name. destruct (_ && _); [by apply prefix_app_r|done]. Qed.

Lemma attach_all_prefix ans names : ∀ l, l `prefix_of` foldl (attach_name ans) l names.
Proof. induction names as [|name names IH]; intros l; [done|]. cbn [foldl]. etrans; [apply attach_name_prefix|apply IH]. Qed.

Lemma attach_all_elem ans names dev : ∀ l, dev ∈ foldl (attach_name ans) l names ↔
  dev ∈ l ∨ ∃ name, name ∈ names ∧ disk_name name = true ∧ media ans (dev_of name) = true ∧ dev = dev_of name.
Proof.
  induction names as [|name names IH]; intros l; cbn [foldl]; [split; [by left|]; intros [?|(n & Hn & _)]; [done|by apply not_elem_of_nil in Hn]|].
  rewrite IH. assert (dev ∈ attach_name ans l name ↔ dev ∈ l ∨ disk_name name = true ∧ media ans (dev_of name) = true ∧ dev = dev_of name) as ->.
  { unfold attach_name. destruct (disk_name name); cbn [andb]; [|split; [by left|by intros [?|[? _]]]].
    destruct (media ans (dev_of name)); cbn [andb]; [|split; [by left|by intros [?|(_ & ? & _)]]].
    case_bool_decide as Hin; [set_solver|]. split; [by left|]. intros [?|(_ & _ & ->)]; [done|]. exact Hin. }
  setoid_rewrite elem_of_cons. split.
  - intros [[?|?]|(n & ? & ?)]; [by left|right; exists name; auto|right; exists n; auto].
  - intros [?|(n & [->|?] & ?)]; [by left; left|left; by right|right; by exists n].
Qed.

Lemma attach_all_stays ans names l : (∀ name, name ∈ names → disk_name name = true → media ans (dev_of name) = true → dev_of name ∈ l) →
  foldl (attach_name ans) l names = l.
Proof.
  induction names as [|name names IH]; intros H; [done|]. cbn [foldl]. assert (attach_name ans l name = l) as ->; [|apply IH; set_solver].
  unfold attach_name. destruct (disk_name name) eqn:E1; [|done]. destruct (media ans (dev_of name)) eqn:E2; [|done].
  rewrite bool_decide_false; [done|]. intros Hn. apply Hn, H; [set_solver|done|done].
Qed.

(** C15: while the system answers the same and gives memory, one check brings the table to the
    disks that are there: those of the table whose device [access] finds, and
    those of the directory that have media.  A disk whose device is not found
    is unmounted and leaves, one that is found stays.  The next check leaves
    the same disks; and when [access] finds the device of every disk of the
    directory that has media, it changes nothing of the table and tells
    nothing.  Without that, such a disk is unmounted and attached again by
    every check. *)
Theorem check_settles os errno readdir statfs blkid_text clock junk rest ans names st :
  let check := UDISK_CheckDiskPlugInOut os errno readdir statfs blkid_text clock junk rest in
  wf st → dev_names_ok readdir → steady os ans → ans Malloc ≠ 0 →
  (∀ tr, readdir (Opendir (bytes "/dev") :: tr) = Some names) →
  ∃ st1 st2 new, check st = Returned (tt, st1) ∧
    (∀ dev, dev ∈ devs st1 ↔ ans (Access dev) = 0 ∧ dev ∈ devs st ∨
       ∃ name, name ∈ names ∧ disk_name name = true ∧ media ans (dev_of name) = true ∧ dev = dev_of name) ∧
    check st1 = Returned (tt, st2) ∧ trace st2 = new ++ trace st1 ∧ (∀ dev, dev ∈ devs st2 ↔ dev ∈ devs st1) ∧
    ((∀ name, name ∈ names → disk_name name = true → media ans (dev_of name) = true → ans (Access (dev_of name)) = 0) →
     m_UDisk_DiskListHead st2 = m_UDisk_DiskListHead st1 ∧ told new = []).
Proof.
  intros check Hw Hn Ha Hm Hd.
  destruct (Check_steps os errno readdir statfs blkid_text clock junk rest st Hw Hn) as ([] & st1 & H1 & Hs1 & kept1 & more1 & Hk1 & _ & _ & Hst1).
  destruct (Check_steps os errno readdir statfs blkid_text clock junk rest st1 (proj1 Hs1) Hn) as ([] & st2 & H2 & Hs2 & kept2 & more2 & Hk2 & _ & Hq & Hst2).
  destruct (Hst1 ans Ha) as [_ Ht1]. specialize (Ht1 names Hm Hd). destruct (Hst2 ans Ha) as [Hkept2 Ht2]. specialize (Ht2 names Hm Hd).
  assert (∀ dev, dev ∈ devs st1 ↔ ans (Access dev) = 0 ∧ dev ∈ devs st ∨
    ∃ name, name ∈ names ∧ disk_name name = true ∧ media ans (dev_of name) = true ∧ dev = dev_of name) as Hin.
  { intros dev. rewrite Ht1. unfold checked_table. by rewrite attach_all_elem, list_elem_of_filter. }
  destruct Hs2 as (_ & _ & new & Htr & _). exists st1, st2, new. split; [done|]. split; [done|]. split; [done|]. split; [done|]. split.
  { intros dev. rewrite Ht2. unfold checked_table. rewrite attach_all_elem, list_elem_of_filter, Hin. tauto. }
  intros Hacc. assert (filter (λ d, ans (Access d) = 0) (devs st1) = devs st1) as Hall.
  { apply filter_all. intros dev [[? _]|(name & Hname & Hdisk & ? & ->)]%Hin; [done|by apply Hacc]. }
  unfold checked_table in Ht2. rewrite Hall in *. rewrite attach_all_stays in Ht2 by (intros; apply Hin; right; eauto).
  assert (more2 = []) as Hmore. { rewrite Ht2, Hkept2 in Hk2. rewrite <-(app_nil_r (devs st1)) in Hk2 at 1. by apply app_inv_head in Hk2. }
  destruct (Hq Hkept2 Hmore) as (_ & Hd2 & new' & Htr' & Htold). rewrite Htr in Htr'. apply app_inv_tail in Htr' as ->. done.
Qed.

(** ** Full partitions *)

Section full.
Variable os : list ACTION → Z.
Variable statfs : list ACTION → Z * Z * Z.
Variable ans : ACTION → Z.
Variable sizes : cstring → Z * Z * Z.
Hypothesis steady_os : steady os ans.
Hypothesis steady_sizes : ∀ p tr, statfs (Statfs p :: tr) = sizes p.

Abbreviation disks := m_UDisk_DiskListHead.

(** The bytes available, if they can be told, and whether a partition that is
    watched has no more than its water line. *)
Definition available (mnt : cstring) : option Z :=
  if ans (Statfs mnt) =? 0 then let '(_, bavail, bsize) := sizes mnt in Some ((bavail * bsize) mod 2 ^ 64) else None.
Definition is_full (p : UDISK_PartNode_S) : bool :=
  bFullReport p && match available (part_mnt p) with Some a => a <=? u64WaterLine p | None => false end.

(** The places of full partitions, and those told in a trace. *)
Definition full_in (i : nat) (j : nat) (l : list UDISK_PartNode_S) : list (Z * Z) :=
  omap id (imap (λ n p, if is_full p then Some (Z.of_nat i, Z.of_nat (j + n)) else None) l).
Definition full_places (i : nat) (l : list UDISK_DiskNode_S) : list (Z * Z) := mjoin (imap (λ n d, full_in (i + n) 0 (part_list d)) l).
Definition full_of (a : ACTION) : option (Z * Z) :=
  match a with Call _ _ ev (FullParam i j) => if bool_decide (ev = HI_UDISK_EVENT_FULL) then Some (i, j) else None | _ => None end.
Definition fulls (tr : list ACTION) : list (Z * Z) := reverse (omap full_of tr).

Definition hears_full (st : STATE) : Prop := ∃ f p, m_UDisk_Event st !! HI_UDISK_EVENT_FULL = Some (f, p) ∧ f ≠ 0.
Definition tells_full (st st' : STATE) (l : list (Z * Z)) : Prop :=
  m_UDisk_Event st' = m_UDisk_Event st ∧ disks st' = disks st ∧ ∃ new, trace st' = new ++ trace st ∧ fulls new = l.

Lemma tells_full_trans st st1 st2 l k : tells_full st st1 l → tells_full st1 st2 k → tells_full st st2 (l ++ k).
Proof.
  intros (H1 & H2 & new & H3 & <-) (K1 & K2 & new' & K3 & <-). split_and!; [congruence|congruence|]. exists (new' ++ new).
  split; [by rewrite K3, H3, app_assoc|]. unfold fulls. by rewrite omap_app, reverse_app.
Qed.

Lemma tells_full_note a st : tells_full st (note a st) (option_list (full_of a)).
Proof. split_and!; [done|done|]. exists [a]. split; [done|]. unfold fulls. cbn [omap list_omap]. by destruct (full_of a). Qed.

Lemma tells_full_refl st : tells_full st st [].
Proof. split_and!; [done|done|by exists []]. Qed.

(** One partition. *)
Lemma full_part_tells i j p st : hears_full st →
  wp (if bFullReport p then
        x ← UDISK_StatFs os statfs (part_mnt p);
        match x with
        | Some (_, avail) => if avail <=? u64WaterLine p then report os HI_UDISK_EVENT_FULL (FullParam i j) else mret tt
        | None => mret tt
        end
      else mret tt) st (λ _ st', tells_full st st' (if is_full p then [(i, j)] else [])).
Proof.
  intros (f & q & Hf & Hne). unfold is_full, available. destruct (bFullReport p); cbn [andb]; [|by apply wp_ret, tells_full_refl].
  unfold UDISK_StatFs. apply wp_bind, wp_bind, wp_sys. rewrite steady_os. pose proof (tells_full_note (Statfs (part_mnt p)) st) as H1.
  destruct (ans _ =? 0); cbn [negb]; [|by do 2 apply wp_ret].
  apply wp_bind, wp_gets. change (trace (note ?a ?s)) with (a :: trace s). rewrite steady_sizes. destruct (sizes (part_mnt p)) as [[blocks bavail] bsize].
  apply wp_ret. destruct (_ <=? _); [|by apply wp_ret]. apply wp_bind. eexists _, (note (Call f q HI_UDISK_EVENT_FULL (FullParam i j)) _). split.
  { rewrite (callback_step _ _ _ _ f q); [|done]. rewrite (proj2 (Z.eqb_neq _ _) Hne). reflexivity. }
  apply wp_ret. apply (tells_full_trans _ _ _ [] [(i, j)] H1). apply tells_full_note.
Qed.

Lemma full_in_cons i j p l : full_in i j (p :: l) = (if is_full p then [(Z.of_nat i, Z.of_nat j)] else []) ++ full_in i (S j) l.
Proof.
  unfold full_in. rewrite imap_cons. cbn [omap list_omap id]. rewrite Nat.add_0_r.
  replace (imap ((λ n p0, if is_full p0 then Some (Z.of_nat i, Z.of_nat (j + n)) else None) ∘ S) l) with
    (imap (λ n p0, if is_full p0 then Some (Z.of_nat i, Z.of_nat (S j + n)) else None) l); [by destruct (is_full p)|].
  apply imap_ext. intros n x _. cbn. by replace (j + S n)%nat with (S (j + n))%nat by lia.
Qed.

Lemma full_parts_tell i l : ∀ j st, hears_full st → Z.of_nat j + Z.of_nat (length l) < 2 ^ 32 →
  wp (full_parts os statfs (Z.of_nat i) (Z.of_nat j) l) st (λ _ st', tells_full st st' (full_in i j l)).
Proof.
  induction l as [|p l IH]; intros j st Hh Hj; cbn [full_parts]; [by apply wp_ret, tells_full_refl|]. cbn [length] in Hj.
  apply wp_bind. eapply wp_mono; [by apply full_part_tells|]. intros ? st1 H1. rewrite u32_small by lia.
  replace (Z.of_nat j + 1) with (Z.of_nat (S j)) by lia. eapply wp_mono; [apply IH; [|lia]|].
  - unfold hears_full. by rewrite (proj1 H1).
  - intros ? st2 H2. rewrite full_in_cons. eapply tells_full_trans; [exact H1|exact H2].
Qed.

Lemma full_disks_tell l : ∀ i st, hears_full st → Z.of_nat i + Z.of_nat (length l) < 2 ^ 32 → Forall (λ d, length (part_list d) ≤ UDISK_MAX_DEV_NUM)%nat l →
  wp (full_disks os statfs (Z.of_nat i) l) st (λ _ st', tells_full st st' (full_places i l)).
Proof.
  induction l as [|d l IH]; intros i st Hh Hi Hl; cbn [full_disks]; [by apply wp_ret, tells_full_refl|]. cbn [length] in Hi.
  apply Forall_cons in Hl as [Hd Hl]. unfold UDISK_MAX_DEV_NUM in Hd.
  apply wp_bind. eapply wp_mono; [apply (full_parts_tell i (part_list d) 0 st Hh); lia|]. intros ? st1 H1. rewrite u32_small by lia.
  replace (Z.of_nat i + 1) with (Z.of_nat (S i)) by lia. eapply wp_mono; [apply IH; [|lia|done]|].
  - unfold hears_full. by rewrite (proj1 H1).
  - intros ? st2 H2. assert (full_places i (d :: l) = full_in i 0 (part_list d) ++ full_places (S i) l) as ->; [|eapply tells_full_trans; [exact H1|exact H2]].
    unfold full_places. rewrite imap_cons. cbn [mjoin list_join]. rewrite Nat.add_0_r. do 2 f_equal. apply imap_ext. intros n x _. cbn.
    by replace (i + S n)%nat with (S (i + n))%nat by lia.
Qed.
End full.

(** A check for full partitions tells exactly the watched partitions whose
    available bytes are at most the water line, in the order of the table and
    with their places; the table stays. *)
Theorem full_told os statfs ans sizes st : wf st → steady os ans → (∀ p tr, statfs (Statfs p :: tr) = sizes p) → hears_full st →
  ∃ st' new, UDISK_CheckPartitionFull os statfs st = Returned (tt, st') ∧ m_UDisk_DiskListHead st' = m_UDisk_DiskListHead st ∧
    trace st' = new ++ trace st ∧ fulls new = full_places ans sizes 0 (m_UDisk_DiskListHead st).
Proof.
  intros Hw Ha Hs Hh. destruct (full_disks_tell os statfs ans sizes Ha Hs (m_UDisk_DiskListHead st) 0 st Hh) as ([] & st' & Hr & _ & Hd & new & Ht & Hf).
  - pose proof (table_few _ (wf_table _ Hw)). lia.
  - eapply Forall_impl; [apply Hw|]. intros d Hd. apply Hd.
  - by exists st', new.
Qed.

(** ** Changing a partition *)

Definition reporting (b : bool) (line : Z) (p : UDISK_PartNode_S) : UDISK_PartNode_S :=
  mkPart b line (bMounted p) (enFSType p) (u64TotalSize p) (u64AvailSize p) (part_dev p) (part_mnt p).

Definition info (st : STATE) (i j : Z) : Z * option UDISK_PartNode_S :=
  match m_UDisk_DiskListHead st !! Z.to_nat i with
  | None => (HI_UDISK_ERR_NOTEXIST, None)
  | Some d => match part_list d !! Z.to_nat j with Some p => (HI_SUCCESS, Some p) | None => (HI_FAILURE, None) end
  end.

Lemma info_changed st f i j d p i' j' : 0 ≤ i → 0 ≤ j → 0 ≤ i' → 0 ≤ j' →
  m_UDisk_DiskListHead st !! Z.to_nat i = Some d → part_list d !! Z.to_nat j = Some p →
  info (set_disks (<[Z.to_nat i := set_parts (<[Z.to_nat j := f p]> (part_list d)) d]> (m_UDisk_DiskListHead st)) st) i' j' =
    ((info st i' j').1, if bool_decide (i' = i ∧ j' = j) then f <$> (info st i' j').2 else (info st i' j').2).
Proof.
  intros Hi Hj Hi' Hj' Hd Hp. unfold info. cbn [m_UDisk_DiskListHead set_disks]. destruct (decide (i' = i)) as [->|Hne].
  - rewrite list_lookup_insert_eq by (by eapply lookup_lt_Some). rewrite Hd. cbn [set_parts part_list]. destruct (decide (j' = j)) as [->|Hnj].
    + rewrite list_lookup_insert_eq by (by eapply lookup_lt_Some). by rewrite Hp, bool_decide_true.
    + rewrite list_lookup_insert_ne by lia. rewrite bool_decide_false by (by intros [_ ?]). by destruct (part_list d !! Z.to_nat j').
  - rewrite list_lookup_insert_ne by lia. rewrite bool_decide_false by (by intros [? _]).
    destruct (m_UDisk_DiskListHead st !! Z.to_nat i') as [d'|]; [|done]. by destruct (part_list d' !! Z.to_nat j').
Qed.

(** Watching a partition is seen by a later question for it and changes no
    other; for a place without a partition the call returns the error of the
    question and changes nothing. *)
Theorem full_report_set i j b line st : wf st →
  ∃ st', HI_UDISK_SetFullReport i j b line st = Returned ((info st i j).1, st') ∧
    ∀ i' j', 0 ≤ i' → 0 ≤ j' → 0 ≤ i → 0 ≤ j →
      HI_UDISK_GetPartitionInfo i' j' st' = Returned ((info st i' j').1,
        if bool_decide (i' = i ∧ j' = j) then reporting b line <$> (info st i' j').2 else (info st i' j').2, st').
Proof.
  intros Hw. destruct (change_partition_steps i j (reporting b line) st Hw) as (r & st' & Hr & _ & Hst); [done|].
  assert (r = (info st i j).1 ∧ ∀ i' j', 0 ≤ i' → 0 ≤ j' → 0 ≤ i → 0 ≤ j → info st' i' j' = ((info st i' j').1,
    if bool_decide (i' = i ∧ j' = j) then reporting b line <$> (info st i' j').2 else (info st i' j').2)) as [-> Hinfo].
  { unfold info at 1. destruct (m_UDisk_DiskListHead st !! Z.to_nat i) as [d|] eqn:Hd.
    - destruct (part_list d !! Z.to_nat j) as [p|] eqn:Hp; destruct Hst as [-> ->]; (split; [done|]); intros i' j' Hi' Hj' Hi Hj.
      + by apply (info_changed st (reporting b line) i j d p).
      + case_bool_decide as Heq; [|by destruct (info st i' j')]. destruct Heq as [-> ->]. unfold info. by rewrite Hd, Hp.
    - destruct Hst as [-> ->]. split; [done|]. intros i' j' _ _ _ _. case_bool_decide as Heq; [|by destruct (info st i' j')].
      destruct Heq as [-> ->]. unfold info. by rewrite Hd. }
  exists st'. split; [exact Hr|]. intros i' j' Hi' Hj' Hi Hj. rewrite <-(Hinfo i' j' Hi' Hj' Hi Hj). done.
Qed.

(** ** What mounting records *)

Lemma wp_record dev s st (Q : unit → STATE → Prop) : (∀ a st', Q a st') → wp (UDISK_RecordPartitionStatus dev s) st Q.
Proof.
  intros HQ. apply wp_bind, wp_gets. destruct (update_first _ _ _); [by apply wp_modify|]. destruct (update_first _ _ _); [by apply wp_modify|by apply wp_ret].
Qed.

(** Without [blkid] a partition that is mounted as [vfat] is recorded as
    NTFS. *)
Theorem vfat_recorded_ntfs os errno blkid_text rest source target st :
  bUseblkidtool (init_param st) = false → os (Mount source target (bytes "vfat") 0 :: trace st) = 0 →
  ∃ st', UDISK_Mount os errno blkid_text rest source target st = Returned ((HI_SUCCESS, Some HI_UDISK_FSTYPE_NTFS), st').
Proof.
  intros Hb Ho. cut (wp (UDISK_Mount os errno blkid_text rest source target) st (λ r _, r = (HI_SUCCESS, Some HI_UDISK_FSTYPE_NTFS))).
  { intros (r & st' & Hr & ->). by exists st'. }
  unfold UDISK_Mount. apply wp_bind, wp_gets. cbv zeta. rewrite Hb. unfold enum_formats. cbn [mount_enum]. apply wp_bind, wp_bind.
  unfold UDISK_MountByFormat. change (format_is "vfat" (bytes "vfat")) with true. cbn match. apply wp_bind, wp_sys. rewrite Ho.
  apply wp_bind, wp_gets. change (mounted_or_busy 0 _) with true. cbn [negb]. apply wp_bind, wp_bind, wp_sys, wp_ret.
  apply wp_bind, wp_record. intros _ st'. by apply wp_ret, wp_ret, wp_ret.
Qed.

(** ** Starting *)

(** The state before the first call. *)
Definition initial : STATE :=
  mkState [] [] (replicate UDISK_MAX_DEV_NUM empty_slot) (replicate (Z.to_nat HI_UDISK_EVENT_BUTT) (0, 0)) None (mkInit false false [] []) false (0, 0) 0 false [].

Lemma quiet_UMountDisks os readdir root : Quiet (UDISK_UMountDisks os readdir root).
Proof.
  apply quiet_bind; [apply quiet_list_dir|]. intros [names|]; [|apply quiet_ret].
  induction names as [|name names IH]; cbn [umount_disks_loop]; [apply quiet_ret|]. apply quiet_bind; [|intros ?; exact IH].
  destruct (_ || _); [apply quiet_ret|]. destruct (disk_name name); [|apply quiet_ret]. cbv zeta.
  apply quiet_bind; [apply quiet_UMountDisk|intros ?; by apply quiet_do_sys].
Qed.

Lemma quiet_make_root os readdir root : Quiet (make_root os readdir root).
Proof.
  apply quiet_bind; [apply quiet_list_dir|]. intros [names|]; [apply quiet_ret|]. apply quiet_bind; [by apply quiet_sys|intros r].
  destruct (r <? 0); [apply quiet_ret|]. apply quiet_bind; [apply quiet_list_dir|intros ?; apply quiet_ret].
Qed.

(** What a call leaves of a state without disks. *)
Definition fresh (st : STATE) : Prop := m_UDisk_DiskListHead st = [] ∧ m_UDisk_PartROListHead st = [] ∧ has_events st.

Lemma fresh_quiet st st' : fresh st → quiet st st' → fresh st'.
Proof.
  intros (H1 & H2 & H3) ([K1 K2 K3] & K4 & _). split_and!; [by rewrite K4|by rewrite K1|]. unfold has_events. by rewrite K2.
Qed.

Lemma wp_fresh {A} (m : M A) st (Q : A → STATE → Prop) : Quiet m → fresh st → (∀ a st', fresh st' → Q a st') → wp m st Q.
Proof.
  intros Hm Hf HQ. destruct (Hm st (proj2 (proj2 Hf))) as (a & st' & Hr & Hq). exists a, st'. split; [done|]. apply HQ. by eapply fresh_quiet.
Qed.

(** A successful start leaves a well-formed table without disks, with the
    root given and no callback; a failed one leaves no disks either. *)
Theorem init_starts os readdir clock p st : fresh st → (∀ tr, os (Malloc :: tr) ≠ 0) →
  ∃ r st', HI_UDISK_Init os readdir clock p st = Returned (r, st') ∧ m_UDisk_DiskListHead st' = [] ∧
    (r = HI_SUCCESS → wf st' ∧ m_UDisk_Root st' = Some (acUdiskRoot p) ∧ m_UDisk_Event st' = replicate (Z.to_nat HI_UDISK_EVENT_BUTT) (0, 0) ∧ check_thread st' = true).
Proof.
  intros Hf Hmem. cut (wp (HI_UDISK_Init os readdir clock p) st (λ r st', m_UDisk_DiskListHead st' = [] ∧
    (r = HI_SUCCESS → wf st' ∧ m_UDisk_Root st' = Some (acUdiskRoot p) ∧ m_UDisk_Event st' = replicate (Z.to_nat HI_UDISK_EVENT_BUTT) (0, 0) ∧ check_thread st' = true))); [done|].
  unfold HI_UDISK_Init. apply wp_bind, wp_gets. apply wp_bind, wp_modify. set (st0 := set_init _ st). assert (fresh st0) as Hf0 by exact Hf.
  apply wp_bind, wp_fresh; [apply quiet_UMountDisks|done|]. intros _ st1 Hf1. apply wp_bind, wp_fresh; [by apply quiet_sys|done|]. intros _ st2 Hf2.
  apply wp_bind, wp_fresh; [apply quiet_make_root|done|]. intros b st3 (Hd3 & Hr3 & He3). destruct b; cbn [negb]; [|by apply wp_ret].
  apply wp_bind, wp_sys. change (trace (note ?a ?s)) with (a :: trace s). rewrite (proj2 (Z.eqb_neq _ _) (Hmem _)).
  apply wp_bind, wp_modify, wp_bind, wp_modify, wp_bind, wp_sys. destruct (_ =? 0); cbn [negb]; [|by apply wp_ret].
  apply wp_bind, wp_sys. destruct (_ =? 0); cbn [negb]; [|by apply wp_ret].
  apply wp_bind, wp_modify, wp_bind, wp_sys, wp_bind, wp_gets, wp_bind, wp_modify, wp_bind, wp_modify, wp_ret.
  split; [done|]. intros _. split; [|done]. constructor; [|done|done|done].
  cbn [m_UDisk_DiskListHead set_init set_start set_thread note set_events set_root]. rewrite Hd3. split; constructor.
Qed.

(** ** An example

    A disk with two partitions. *)

Definition example_ans (a : ACTION) : Z :=
  match a with
  | Access p => if bool_decide (p ∈ [bytes "/dev/sda"; bytes "/dev/sda1"; bytes "/dev/sda2"]) then 0 else -1
  | Open p => if bool_decide (p = bytes "/dev/sda") then 3 else -1
  | Malloc => 1
  | _ => 0
  end.
Definition answer (ans : ACTION → Z) (tr : list ACTION) : Z := match tr with a :: _ => ans a | [] => 0 end.
Definition example_dir (tr : list ACTION) : option (list cstring) :=
  match tr with Opendir p :: _ => if bool_decide (p = bytes "/dev") then Some [bytes "tty"; bytes "sda"] else None | _ => None end.

(** The state after a start, with a client that listens. *)
Definition example_state (blkid : bool) : STATE :=
  mkState [] [] (replicate UDISK_MAX_DEV_NUM empty_slot) (replicate (Z.to_nat HI_UDISK_EVENT_BUTT) (1, 0)) (Some (bytes "/mnt"))
    (mkInit false blkid (bytes "/mnt") []) false (0, 0) 0 true [].

Abbreviation example_run ans text cs := (run (answer ans) (λ _, 0) example_dir (λ _, (100, 50, 512)) text (λ _, (10, 0)) 0 [] cs).

Lemma example_wf b : wf (example_state b).
Proof. constructor; [|done|done|done]. split; constructor. Qed.

Lemma example_listening b : listening (example_state b).
Proof. intros ev Hev. exists 1, 0. split; [|done]. cbn [m_UDisk_Event example_state]. apply lookup_replicate. split; [done|]. change (Z.to_nat HI_UDISK_EVENT_BUTT) with 11%nat. lia. Qed.

Lemma example_names : dev_names_ok example_dir.
Proof. intros tr names. cbn. intros [= <-]. repeat constructor; unfold byte; cbn; lia. Qed.

(** What is told when the disk is found, and when all is unmounted. *)
Definition example_events : list EVENT :=
  [Plugin 0 (bytes "/mnt/sda"); Mounted 0 0 (bytes "/mnt/sda/sda1"); Mounted 0 1 (bytes "/mnt/sda/sda2");
   Umounted 0 0 (bytes "/mnt/sda/sda1"); Umounted 0 1 (bytes "/mnt/sda/sda2"); Plugout 0 (bytes "/mnt/sda")].

Lemma example_told : match example_run example_ans (λ _, None) [Round; UmountAll] (example_state false) with
  | Returned (_, st') => told (trace st') = example_events ∧ m_UDisk_DiskListHead st' = []
  | _ => False
  end.
Proof. vm_compute. done. Qed.

Lemma table_replay_witness : ∃ st' new, example_run example_ans (λ _, None) [Round; UmountAll] (example_state false) = Returned (tt, st') ∧
  trace st' = new ++ [] ∧ replay [] (told new) = Some (view_of (m_UDisk_DiskListHead st')) ∧ wf st'.
Proof.
  apply (table_replay (answer example_ans) (λ _, 0) example_dir (λ _, (100, 50, 512)) (λ _, None) (λ _, (10, 0)) 0 [] [Round; UmountAll] (example_state false)
    (example_wf false) (example_listening false) example_names).
Defined.

(** Answers with every device there. *)
Definition all_there (a : ACTION) : Z := match a with Malloc => 1 | _ => 0 end.

Lemma check_settles_witness : ∃ st1 st2 new,
  UDISK_CheckDiskPlugInOut (answer all_there) (λ _, 0) example_dir (λ _, (100, 50, 512)) (λ _, None) (λ _, (10, 0)) 0 [] (example_state false) = Returned (tt, st1) ∧
  (∀ dev, dev ∈ devs st1 ↔ all_there (Access dev) = 0 ∧ dev ∈ devs (example_state false) ∨
     ∃ name, name ∈ [bytes "tty"; bytes "sda"] ∧ disk_name name = true ∧ media all_there (dev_of name) = true ∧ dev = dev_of name) ∧
  UDISK_CheckDiskPlugInOut (answer all_there) (λ _, 0) example_dir (λ _, (100, 50, 512)) (λ _, None) (λ _, (10, 0)) 0 [] st1 = Returned (tt, st2) ∧
  trace st2 = new ++ trace st1 ∧ (∀ dev, dev ∈ devs st2 ↔ dev ∈ devs st1) ∧
  ((∀ name, name ∈ [bytes "tty"; bytes "sda"] → disk_name name = true → media all_there (dev_of name) = true → all_there (Access (dev_of name)) = 0) →
   m_UDisk_DiskListHead st2 = m_UDisk_DiskListHead st1 ∧ told new = []).
Proof.
  apply (check_settles (answer all_there) (λ _, 0) example_dir (λ _, (100, 50, 512)) (λ _, None) (λ _, (10, 0)) 0 [] all_there
    [bytes "tty"; bytes "sda"] (example_state false) (example_wf false) example_names); done.
Defined.

(** The table with the disk and its partitions. *)
Definition example_part (b : bool) (line : Z) (n : string) : UDISK_PartNode_S :=
  mkPart b line true HI_UDISK_FSTYPE_NTFS 51200 25600 (bytes "/dev/sda" ++ bytes n) (bytes "/mnt/sda/sda" ++ bytes n).
Definition example_table : STATE :=
  set_disks [mkDisk (bytes "Unknown") (bytes "Unknown") (bytes "/dev/sda") (bytes "/mnt/sda") [example_part false 0 "1"; example_part true 30000 "2"]]
    (example_state false).

Lemma example_table_wf : wf example_table.
Proof.
  constructor; [|done|done|done]. constructor; [|by apply NoDup_singleton]. apply Forall_singleton. constructor.
  - exists (bytes "sda"). split_and!; [done|done|]. repeat constructor; unfold byte; cbn; lia.
  - cbn. unfold MAX_UDISK_NAME_LEN. lia.
  - apply Forall_cons. split; [split_and!; [done| |cbn; unfold MAX_UDISK_NAME_LEN; lia]|].
    { right. exists 1%nat. split; [unfold UDISK_MAX_TRY_NUM; lia|done]. }
    apply Forall_singleton. split_and!; [done| |cbn; unfold MAX_UDISK_NAME_LEN; lia]. right. exists 2%nat. split; [unfold UDISK_MAX_TRY_NUM; lia|done].
  - apply (bool_decide_eq_true_1 _). reflexivity.
  - cbn. unfold UDISK_MAX_DEV_NUM. lia.
Qed.

Lemma full_told_witness : ∃ st' new, UDISK_CheckPartitionFull (answer example_ans) (λ _, (100, 50, 512)) example_table = Returned (tt, st') ∧
  m_UDisk_DiskListHead st' = m_UDisk_DiskListHead example_table ∧ trace st' = new ++ [] ∧ fulls new = [(0, 1)].
Proof.
  apply (full_told (answer example_ans) (λ _, (100, 50, 512)) example_ans (λ _, (100, 50, 512)) example_table example_table_wf); [done|done|].
  exists 1, 0. done.
Defined.

Lemma full_report_set_witness : ∃ st', HI_UDISK_SetFullReport 0 0 true 7 example_table = Returned (HI_SUCCESS, st') ∧
  HI_UDISK_GetPartitionInfo 0 0 st' = Returned (HI_SUCCESS, Some (example_part true 7 "1"), st').
Proof.
  destruct (full_report_set 0 0 true 7 example_table example_table_wf) as (st' & Hr & Hget). exists st'. split; [exact Hr|].
  exact (Hget 0 0 ltac:(lia) ltac:(lia) ltac:(lia) ltac:(lia)).
Defined.

Lemma vfat_recorded_ntfs_witness : ∃ st', UDISK_Mount (answer example_ans) (λ _, 0) (λ _, None) [] (bytes "/dev/sda1") (bytes "/mnt/sda/sda1") (example_state false)
  = Returned ((HI_SUCCESS, Some HI_UDISK_FSTYPE_NTFS), st').
Proof. apply (vfat_recorded_ntfs (answer example_ans)); reflexivity. Defined.

Lemma init_starts_witness : ∃ r st', HI_UDISK_Init (answer example_ans) example_dir (λ _, (10, 0)) (mkInit false false (bytes "/dev") []) initial = Returned (r, st') ∧
  m_UDisk_DiskListHead st' = [] ∧
  (r = HI_SUCCESS → wf st' ∧ m_UDisk_Root st' = Some (bytes "/dev") ∧ m_UDisk_Event st' = replicate (Z.to_nat HI_UDISK_EVENT_BUTT) (0, 0) ∧ check_thread st' = true).
Proof. apply (init_starts (answer example_ans) example_dir (λ _, (10, 0)) (mkInit false false (bytes "/dev") []) initial); done. Defined.

(** ** What goes wrong *)

(** The targets a trace unmounts, the first first. *)
Definition umounts (tr : list ACTION) : list cstring := reverse (omap (λ a, match a with Umount t => Some t | _ => None end) tr).

(** All partitions of a disk share three tries: after a partition that cannot
    be unmounted the others are not unmounted at all, but told to be, and the
    disk leaves the table. *)
Theorem detach_gives_up :
  match UDISK_DetachDisk (answer (λ a, match a with Umount _ => -1 | _ => 0 end)) 0 (bytes "/dev/sda") example_table with
  | Returned (_, st') =>
      umounts (trace st') = replicate 3 (bytes "/mnt/sda/sda1") ∧ m_UDisk_DiskListHead st' = [] ∧
      told (trace st') = [Umounted 0 0 (bytes "/mnt/sda/sda1"); Umounted 0 1 (bytes "/mnt/sda/sda2"); Plugout 0 (bytes "/mnt/sda")]
  | _ => False
  end.
Proof. vm_compute. done. Qed.

(** With [blkid] an NTFS partition whose every mount command fails is in the
    table as mounted, and told: the positive status is not taken as a failure. *)
Theorem failed_mount_told :
  match example_run (λ a, match a with System c => if begins "mount" c then 256 else 0 | _ => example_ans a end)
    (λ _, Some (bytes "/dev/sda1: TYPE=" ++ [0x22] ++ bytes "ntfs" ++ [0x22])) [Round] (example_state true) with
  | Returned (_, st') => map bMounted (mjoin (part_list <$> m_UDisk_DiskListHead st')) = [true; true] ∧
      told (trace st') = [Plugin 0 (bytes "/mnt/sda"); Mounted 0 0 (bytes "/mnt/sda/sda1"); Mounted 0 1 (bytes "/mnt/sda/sda2")]
  | _ => False
  end.
Proof. vm_compute. done. Qed.

End UK.
